(* ===== verification/_CoqProject ===== *)
-Q . S2P
Prelude.v
JsNumber.v
SessionTypes.v
JsText.v
JsValue.v
JsonNumber.v
JsonText.v
JsonTextTheorems.v
SessionState.v
SessionInvariant.v
SessionTheorems.v
SessionFork.v
MemoryStorage.v
MemoryTheorems.v
Reducer.v
ReducerValidation.v
Context.v
ReducerTheorems.v
CborEncoder.v
CborDecoder.v
CborWriter.v
CborEncoding.v
CborSound.v
Framing.v
FramingTheorems.v
Codec.v
CodecTheorems.v
ResourceScheduler.v
SchedulerTheorems.v
Truncate.v
TruncateTheorems.v
Subagent.v
JsonPayload.v
SessionService.v
SessionServiceTheorems.v
ToolExecution.v
Validation.v
DurableJson.v
DurableReading.v
DurableRoundtrip.v
JsonlCodec.v
JsonlCodecTheorems.v
JsonlStorage.v
JsonlLoading.v
JsonlTheorems.v
Compaction.v
CompactionTheorems.v
Retry.v
Summarization.v
SummarizationTheorems.v
BranchSummary.v
ToolPipeline.v
ToolPipelineTheorems.v
ToolBatch.v
AgentLoop.v
AgentLoopTheorems.v
AgentLoopProgress.v
AgentLoopSamples.v
LoopFrame.v
Agent.v
AgentTheorems.v
AgentSamples.v
RetryPolicy.v
MutationJournal.v
MutationJournalTheorems.v
LedgerTypes.v
Ledger.v
LedgerTasks.v
LedgerInvariant.v
LedgerPreservation.v
LedgerCreation.v
LedgerSafety.v
LedgerTheorems.v
LedgerClaims.v
LedgerSamples.v
TaskArtifacts.v
LedgerJournal.v
LedgerJournalTheorems.v
LedgerJournalRecovery.v
