(* ===== verification/Prelude.v ===== *)
(** * A verified model of the durable core of the agent harness

    The repository is a coding agent in TypeScript.  Modelled here is the core that must
    not lose or corrupt work: the session store and its file format, the recovery of an
    interrupted run from its records, the model context and its compaction, the loop that
    alternates the model with its tools, the wire protocol between client and server, the
    ledger in which controllers share a run of sub-agents, with the journal of what its
    children write outside, and the small machines that admit, order, retry and bound the
    agent's effects.  Paths below are under src/packages.

    ** How the parts fit

    The agent loop (agent/src/agent-loop.ts) streams a response of the provider, executes
    its tool calls and goes on until nothing is left to do.  [Agent] (agent/src/agent.ts) owns
    the transcript and the message queues, and drives one run at a time.  A harness drives such
    runs and writes entries and lane records through a [Session]
    (agent/src/harness/session/session.ts), which checks payloads and queries and calls a
    storage.  Every storage keeps the event-sourced [SessionState] (session/state.ts) and
    differs only in where its mutations go: the in-memory one nowhere, the JSONL one to an
    append-only file.  After a crash the file is replayed, and the lane reducer
    (harness/reducer.ts) validates the records of a lane and rebuilds what was running.
    The branch of a lane becomes the model context (session/context.ts); when it grows too
    long a compaction (harness/compaction) replaces its history by a summary, and leaving a
    branch may summarize it.  Messages between processes are CBOR values in
    length-prefixed frames (packages protocol).

    A run of sub-agents is a graph of tasks in a database that several controllers share
    ([RunLedger], subagent/src/ledger.ts): a controller leases the run, claims runnable tasks
    as attempts, and completes, retries or blocks them.  A child that may write outside its
    worktree appends what it is about to do to a journal of its own
    (permissions/src/external-mutation-journal.ts); controllers drain the journals, also those
    of children that crashed, into two tables of the ledger.

    ** Files and code

    - Language: JsNumber (binary64), JsText (UTF-16, UTF-8), JsValue (object graphs),
      JsonNumber and JsonText (number and JSON text after ECMA-262), with JsonTextTheorems.
    - Session data: SessionTypes (ai/src/types.ts, harness/messages.ts, session/types.ts).
    - Session state (session/state.ts): SessionState has one definition per method;
      SessionInvariant the invariant [state_wf] and that every mutation keeps it;
      SessionTheorems and SessionFork the queries, the walk and the forks.
    - Storages (session/memory.ts): MemoryStorage has the class [SessionStorage], its laws
      [SessionStorageLaws] and the abstract step [storage_step]; Module Memory implements
      them; MemoryTheorems proves the refinement and the repository's isolation.
    - JSONL backend (session/jsonl/codec.ts, errors.ts, storage.ts): JsonlCodec,
      JsonlStorage over the class [FileSystem], with JsonlCodecTheorems, JsonlLoading,
      JsonlTheorems.  The durable values are checked by Validation (session/validation.ts)
      and read and written by DurableJson, DurableReading, DurableRoundtrip.
    - Session service (session/session.ts): JsonPayload is the payload check, SessionService
      the facade and its lane views, SessionServiceTheorems their guarantees for every
      storage that obeys the laws.
    - Lane reducer (harness/reducer.ts): Reducer, ReducerValidation, ReducerTheorems.
    - Model context (session/context.ts, harness/messages.ts): Context.
    - Compaction (harness/compaction/compaction.ts, utils.ts): Compaction chooses,
      Summarization asks the model; CompactionTheorems and SummarizationTheorems.  Branch
      summaries (branch-summarization.ts): BranchSummary.
    - Provider retries (ai/src/utils/retry.ts and the status forms of error-body.ts): Retry.
    - Protocol (protocol/src/cbor, framing.ts, codec.ts): CborEncoder, CborDecoder, Framing
      and Codec, with CborWriter, CborEncoding, CborSound, FramingTheorems and CodecTheorems.
    - Agent loop (agent/src/agent-loop.ts, no-progress.ts, step-snapshot.ts, tool-plan.ts):
      ToolPipeline is one call and the two batch disciplines, AgentLoop the provider step, the
      loops and the entry points.  ToolPipelineTheorems, ToolBatch, AgentLoopTheorems and
      AgentLoopProgress hold their guarantees, and LoopFrame says that a run respects every
      relation its hooks respect.
    - Agent (agent/src/agent.ts): Agent is the state, the queues, the event reducer, the hooks
      of a run and its lifecycle; AgentTheorems holds its guarantees.
    - Effects: ResourceScheduler and SchedulerTheorems (agent/src/resource-scheduler.ts),
      ToolExecution (agent/src/run-scope.ts, tool-outcome.ts, harness/tools/bash-outcome.ts),
      Truncate and TruncateTheorems (harness/utils/truncate.ts), Subagent
      (subagent/src/budget.ts, dag-scheduler.ts), RetryPolicy (subagent/src/retry-policy.ts),
      TaskArtifacts (subagent/src/quality-model.ts: what a task leaves behind, and the gate of
      a final candidate).
    - Run ledger (subagent/src/ledger.ts, class RunLedger): LedgerTypes has the rows of one run
      and the transaction monad, Ledger and LedgerTasks one definition per operation, and
      [ledger_op] all of them as one type.  LedgerInvariant takes a committed transaction apart
      and defines [ledger_wf], LedgerPreservation and LedgerCreation show that operations and
      creation establish it; LedgerSafety, LedgerClaims and LedgerTheorems hold the guarantees.
    - Journal of external mutations (permissions/src/external-mutation-journal.ts,
      journal-types.ts): MutationJournal is the parser, [drain] of the reader and the writer;
      MutationJournalTheorems defines [history] and the child that writes, fails and is
      replaced.  LedgerJournal is its tables and operations in ledger.ts;
      LedgerJournalTheorems and LedgerJournalRecovery put child, readers and ledger together.
    - AgentLoopSamples, AgentSamples, LedgerSamples, and the ends of SessionInvariant,
      CborEncoding, JsonlTheorems, SummarizationTheorems and LedgerJournalRecovery: concrete
      inputs at which the theorems are instantiated.

    ** How code is modelled

    A method that changes an object is a function in the monad [M S E] below: a state and a
    value or a thrown error, the state being what it was when the error was thrown.  An
    awaited call is one step.  Objects that are shared (the repository's sessions, the
    graphs the codec walks, the scheduler's leases and promises) live in an explicit heap.
    Numbers are binary64 values; sequence numbers, indices and lengths, which the code
    keeps as safe integers, are integers.  What is not code of the repository is a parameter:
    the schema check and deep equality of the typebox package, the file system, the
    provider collection, clocks and identifiers.  The hooks of the agent loop are computations
    on an abstract world that a log observes; a parallel batch runs each call as one step, in
    an order given from outside.  The agent's own state is part of that world, and its tools and
    listeners are references, so that hooks can queue messages or cancel while a run lasts.

    In the ledger a SQL statement is a selection or a guarded update of rows, and a
    transaction commits or rolls back as a whole; since the database runs transactions one
    after the other, the interleavings of controllers are the sequences of operations
    ([ledger_step], [ledger_reachable]).  [step_integration] and [step_mutation] stand for what
    recordDagIntegration and the journal's operations change in the rows of a run.  New
    identifiers ([randomUUID]) and the attempt identifiers of other runs are parameters.  The
    journal is the bytes of a file; every call of the file system in an append may fail or
    write any part, reading may see any beginning of the file, and [node:path] is a record
    of functions.

    ** What is shown

    - Atomicity and refinement: a mutation is applied wholly or not at all and keeps
      [state_wf]; each storage call is exactly [storage_step], in memory and on file; any
      sequence of calls keeps one open operation per lane and only appends.
    - Durability: after any calls, failed or torn appends and a crash, loading the file
      gives the acknowledged state, or that state with the one mutation that was not
      confirmed, or fails with an I/O error, or is refused without changing a file; the last
      needs a payload that the loader's validation does not accept, and writing accepts some
      ([accepted_not_loadable]).  Lines and durable values survive their text.  What the
      validators accept reads at its declared type, if the optional properties they do not
      look at are well typed ([declared]).
    - Recovery: [validateRecordLog] accepts exactly the histories of the declarative
      single-writer protocol; the reduction does not depend on the order its inputs were
      fetched in, pairs dispatches with the right calls and delivers each queued message
      once.
    - Queries and forks: branch queries, pagination and forks compute their declarative
      meaning; malformed queries and payloads are refused before the storage.
    - Compaction: history, turn prefix and tail are exactly the live messages; the cut obeys
      the token budget, and the case in which it cannot is stated; the stored file lists are
      exact; the runs of [compact] are those of the specification [compaction], whatever the
      provider and the retries do.  Branch summaries collect exactly what the target does not
      share.
    - Protocol: encoding succeeds exactly on values within the limits, decoding inverts it,
      arbitrary bytes give an error or a value within the limits; frames and messages survive
      any chunking; only validated messages are delivered.
    - Agent loop: a run's events are well formed and end with [agent_end], the messages it
      returns are those it announced, and each tool call is answered once, in order, whatever
      order parallel calls complete in; a tool starts only after every gate, never after an
      abort that observers did not cause, and its lease is released once, unless the effect
      gate throws; a resumed run repeats no call; cancellation is prompt; the no-progress guard
      fires exactly on three identical turns.
    - Agent: whatever a run does, the agent is idle again when it is over, and what it shows
      is the fold of the events its listeners saw; a resumed batch leaves one result per
      answered call after its response; queued messages are delivered once, in order, in
      whole groups; a busy agent refuses a second run.
    - Effects: slots and keys exclude as declared and no waiter is forgotten; a run's scope
      admits effects exactly while it is active; retries end within their budget;
      truncation keeps the longest whole lines; task ordering succeeds exactly when an
      order exists; the gate of a candidate fails for exactly its stated reasons, a missing
      review among them only when the candidate has a reviewer.
    - Run ledger: [ledger_wf] holds in every reachable run, whichever controllers interleave;
      creation accepts exactly the requests that can be ordered; a replaced controller writes
      nothing; a task starts only after its prerequisites have their artifacts; claims take the
      first runnable tasks, if those that resume an attempt have it recorded; a completion may
      be sent again later, also by another controller, and changes nothing; a lost task blocks exactly what
      depends on it; an ended run never changes.  One sequence of operations leaves a task that
      no later claim can take ([claimRunnableTasks_unrecoverable]).
    - External mutations: the complete records of a journal are a history that holds every
      acknowledged event, whatever fails; the ledger holds exactly what the consumed events
      say, each once, whatever readers interleave; and a controller with a valid lease always
      gets through the journal of an attempt it may read, if the file has at most 2 MiB,
      never violates a UNIQUE constraint of the tables, and can release it.

    ** Step bounds

    A loop or recursion that is not structural takes a bound, and exhausting it is a value of
    its own.  The walk to the root takes one step more than the entries of the session (an
    identifier met twice ends it); the codec's recursions take [maxDepth + 2] levels, one
    beyond their depth check; both loops of the frame decoder take the chunk length plus one;
    the scheduler's pass one more than the length of its queue; [JSON_parse] twice the text plus one.
    The payload check, the retry loop and the walk of a branch summary take the bound as an
    argument, and their theorems say [eventually]: from some bound on the result is the
    stated one.  The agent loop, which need not end, takes one unit per turn or follow-up
    poll; its safety theorems hold for every bound, and after an abort two units suffice.
    In the ledger, blocking takes one round more than the tasks of the run (each but the last
    blocks one), the depth-first check one level more than the tasks, the topological order as
    many rounds as tasks; decoding bytes with replacement takes their number.

    ** Not modelled

    - harness/agent-harness.ts: the wrapper that records a run in a session; the loop and the
      agent it resembles and the durable decisions it relies on are the parts above.
    - Of agent.ts: listeners that subscribe or unsubscribe while an event is delivered (the set
      is read once per event), and assignments to its public option fields during a run.
    - session/jsonl/repo.ts: directory listing and the claims of files.
    - Of subagent: the schema and migrations of the ledger (but the UNIQUE constraints of the
      external mutations are in LedgerJournal), the checks of recordDagIntegration,
      runtime metadata, telemetry, listings and pruning; the orchestrator that calls the
      ledger, the dependency projector and the processes of children.
    - Of the journal: creating, opening and removing its private directory.
    - harness tools and environments, search, MCP transports, session-backends, web search,
      evals, telemetry, code mode: file, process and network I/O.
    - ai/src/api, providers, auth: HTTP adapters and generated tables.
    - coding-agent, tui, grok-tui: the application and terminal rendering.
    - server and client: sockets around the protocol.
    - permissions: rule matching over shell syntax parsed by a third-party package.
    - scripts and build tools.

    ** Plan

    Next: the JSONL repository, the dependency projector of subagent,
    the permission rules that do not need a shell parser, the event stream of ai, then
    the registries of server and client and the width functions of tui. *)
From stdpp Require Export base tactics list option strings gmap pretty sorting list_numbers.
From Stdlib Require Export ZArith Lia.

#[global] Open Scope Z_scope.
#[global] Set Warnings "-clear-no-such-hyp,-register-all".

(** ** Results and the state-and-error monad *)

(** The outcome of a call that may throw. *)
Inductive result (E A : Type) : Type :=
| Ok (a : A)
| Err (e : E).
Arguments Ok {E A} a.
Arguments Err {E A} e.

#[export] Instance result_ret E : MRet (result E) := fun A a => Ok a.
#[export] Instance result_bind E : MBind (result E) :=
  fun A B f m => match m with Ok a => f a | Err e => Err e end.

Definition is_ok {E A} (r : result E A) : bool :=
  match r with Ok _ => true | Err _ => false end.

(** [M S E A]: a method of an object with state [S].  An exception leaves the
    state as it was when it was thrown, so that a method which throws half-way
    through its updates is visible. *)
Definition M (S E A : Type) : Type := S -> S * result E A.

#[export] Instance M_ret S E : MRet (M S E) := fun A a s => (s, Ok a).
#[export] Instance M_bind S E : MBind (M S E) :=
  fun A B f m s => match m s with
                   | (s', Ok a) => f a s'
                   | (s', Err e) => (s', Err e)
                   end.

Section monad_ops.
Context {S E : Type}.
Definition get : M S E S := fun s => (s, Ok s).
Definition put (s : S) : M S E unit := fun _ => (s, Ok tt).
Definition modify (f : S -> S) : M S E unit := fun s => (f s, Ok tt).
Definition throw {A} (e : E) : M S E A := fun s => (s, Err e).
(** [if (c) throw e;] *)
Definition throw_if (c : bool) (e : E) : M S E unit :=
  if c then throw e else mret tt.
Definition lift {A} (r : result E A) : M S E A := fun s => (s, r).
End monad_ops.

(** [for (const x of l) f(x)] where [f] may throw. *)
Fixpoint forM_ {S E A} (l : list A) (f : A -> M S E unit) : M S E unit :=
  match l with
  | [] => mret tt
  | x :: l' => f x ;; forM_ l' f
  end.

(** A call returns only if each of its steps does. *)
Lemma M_bind_Ok {S E A B} (f : M S E A) (k : A -> M S E B) s s' b :
  (f ≫= k) s = (s', Ok b) <-> exists s1 a, f s = (s1, Ok a) /\ k a s1 = (s', Ok b).
Proof.
  unfold mbind, M_bind. destruct (f s) as [s1 [a|e]]; split.
  - intros H. by exists s1, a.
  - by intros (s2 & a' & [= <- <-] & H).
  - done.
  - by intros (s2 & a' & [=] & _).
Qed.
Lemma bind_Ok {E A B} (m : result E A) (k : A -> result E B) b :
  (m ≫= k) = Ok b -> exists a, m = Ok a /\ k a = Ok b.
Proof. destruct m as [a|e]; [|done]. intros H. by exists a. Qed.
Lemma M_ret_Ok {S E A} (a b : A) (s s' : S) :
  (mret a : M S E A) s = (s', Ok b) <-> s' = s /\ b = a.
Proof. unfold mret, M_ret. split; [by intros [= <- <-]|by intros [-> ->]]. Qed.
Lemma throw_if_Ok {S E} (c : bool) (e : E) (s s' : S) u :
  throw_if c e s = (s', Ok u) <-> c = false /\ s' = s.
Proof. 
  unfold throw_if, throw, mret, M_ret. destruct c, u; split; try done; try (by intros [? _]).
  - by intros [= <-].
  - by intros [_ ->].
Qed.

(** Runs the monad on a symbolic state. *)
Ltac mrun :=
  cbv [mbind mret M_bind M_ret result_bind result_ret get put modify throw throw_if lift].

Fixpoint foldM {E A B} (f : B -> A -> result E B) (b : B) (l : list A) : result E B :=
  match l with
  | [] => Ok b
  | x :: l' => match f b x with Ok b' => foldM f b' l' | Err e => Err e end
  end.

Lemma foldM_app {E A B} (f : B -> A -> result E B) l1 l2 b :
  foldM f b (l1 ++ l2) =
  match foldM f b l1 with Ok b' => foldM f b' l2 | Err e => Err e end.
Proof. revert b. induction l1 as [|x l1 IH]; intros b; simpl; [done|]. by destruct (f b x). Qed.

(** Rule of the loop: an invariant relating the prefix already processed to the
    accumulator. *)
Lemma foldM_invariant {E A B} (f : B -> A -> result E B) (P : list A -> B -> Prop) :
  (forall pre x b b', P pre b -> f b x = Ok b' -> P (pre ++ [x]) b') ->
  forall l b b', P [] b -> foldM f b l = Ok b' -> P l b'.
Proof.
  intros Hstep l b b' H0.
  assert (Hgen : forall pre, P pre b -> foldM f b l = Ok b' -> P (pre ++ l) b').
  { clear H0. revert b. induction l as [|x l IH]; intros b pre Hpre; simpl.
    - intros [= <-]. by rewrite app_nil_r.
    - destruct (f b x) as [b1|] eqn:Hf; [|done]. intros Hl.
      specialize (IH b1 (pre ++ [x])). rewrite <-app_assoc in IH. simpl in IH.
      apply IH; [|done]. by eapply Hstep. }
  apply (Hgen [] H0).
Qed.

(** ** Loops with a bound on their iterations *)

(** [P] holds as soon as enough iterations are allowed. *)
Definition eventually (P : nat -> Prop) : Prop := exists bound, forall fuel, (bound <= fuel)%nat -> P fuel.

Lemma eventually_mono (P Q : nat -> Prop) : (forall fuel, P fuel -> Q fuel) -> eventually P -> eventually Q.
Proof. intros HPQ [bound HP]. exists bound. auto. Qed.
Lemma eventually_and (P Q : nat -> Prop) : eventually P -> eventually Q -> eventually (fun fuel => P fuel /\ Q fuel).
Proof.
  intros [b1 H1] [b2 H2]. exists (Nat.max b1 b2). intros fuel Hle. split; [apply H1|apply H2]; lia.
Qed.
Lemma eventually_exists (P : nat -> Prop) : eventually P -> exists fuel, P fuel.
Proof. intros [bound H]. exists bound. by apply H. Qed.

(** ** Lengths and positions as mathematical integers *)

Definition zlen {A} (l : list A) : Z := Z.of_nat (length l).

Lemma zlen_app {A} (l k : list A) : zlen (l ++ k) = zlen l + zlen k.
Proof. unfold zlen. rewrite length_app. lia. Qed.
Lemma zlen_cons {A} (x : A) l : zlen (x :: l) = 1 + zlen l.
Proof. unfold zlen. simpl. lia. Qed.
Lemma zlen_nil {A} : zlen (@nil A) = 0.
Proof. done. Qed.
Lemma zlen_nonneg {A} (l : list A) : 0 <= zlen l.
Proof. unfold zlen. lia. Qed.

(** [l[i]] for a number used as an index: [undefined] outside the array. *)
Definition at_index {A} (l : list A) (i : Z) : option A :=
  if i <? 0 then None else l !! Z.to_nat i.

Lemma at_index_nat {A} (l : list A) (n : nat) : at_index l (Z.of_nat n) = l !! n.
Proof. unfold at_index. destruct (Z.ltb_spec (Z.of_nat n) 0); [lia|]. by rewrite Nat2Z.id. Qed.

(** ** [Map] and [Set]: insertion-ordered, keys compared with [decide] *)

Definition jsmap (K V : Type) := list (K * V).

Section jsmap.
Context {K V : Type} `{EqDecision K}.
Implicit Type m : jsmap K V.

Fixpoint jm_get (k : K) m : option V :=
  match m with
  | [] => None
  | (k', v) :: m' => if decide (k = k') then Some v else jm_get k m'
  end.
Definition jm_has (k : K) m : bool :=
  match jm_get k m with Some _ => true | None => false end.
(** [map.set]: an existing key keeps its position. *)
Fixpoint jm_set (k : K) (v : V) m : jsmap K V :=
  match m with
  | [] => [(k, v)]
  | (k', v') :: m' => if decide (k = k') then (k', v) :: m' else (k', v') :: jm_set k v m'
  end.
Fixpoint jm_delete (k : K) m : jsmap K V :=
  match m with
  | [] => []
  | (k', v') :: m' => if decide (k = k') then m' else (k', v') :: jm_delete k m'
  end.
Definition jm_keys m : list K := m.*1.
Definition jm_values m : list V := m.*2.
(** [new Map(pairs)] *)
Definition jm_of_list (l : list (K * V)) : jsmap K V :=
  foldl (fun m kv => jm_set kv.1 kv.2 m) [] l.

Lemma jm_get_set_eq k v m : jm_get k (jm_set k v m) = Some v.
Proof. induction m as [|[k' v'] m IH]; csimpl; repeat (case_decide; csimpl); congruence. Qed.
Lemma jm_get_set_ne k k' v m : k <> k' -> jm_get k (jm_set k' v m) = jm_get k m.
Proof.
  intros Hne. induction m as [|[k1 v1] m IH]; csimpl.
  - by rewrite decide_False.
  - repeat (case_decide; csimpl); congruence.
Qed.
Lemma jm_get_set k k' v m :
  jm_get k (jm_set k' v m) = if decide (k = k') then Some v else jm_get k m.
Proof. case_decide; subst; [apply jm_get_set_eq|by apply jm_get_set_ne]. Qed.

Lemma jm_get_Some_elem k v m : jm_get k m = Some v -> (k, v) ∈ m.
Proof.
  induction m as [|[k' v'] m IH]; csimpl; [done|]. case_decide; [|set_solver].
  intros [= ->]. subst. set_solver.
Qed.
Lemma jm_get_None k m : jm_get k m = None <-> k ∉ jm_keys m.
Proof.
  unfold jm_keys. induction m as [|[k' v'] m IH]; csimpl.
  - split; [intros _; apply not_elem_of_nil|done].
  - rewrite not_elem_of_cons. case_decide; split; [done|tauto|tauto|tauto].
Qed.
Lemma jm_elem_get k v m : NoDup (jm_keys m) -> (k, v) ∈ m -> jm_get k m = Some v.
Proof.
  unfold jm_keys. induction m as [|[k' v'] m IH]; csimpl; [set_solver|].
  intros [Hni Hnd]%NoDup_cons [Heq|Hin]%elem_of_cons; case_decide as Hk; simplify_eq; auto.
  destruct Hni. apply list_elem_of_fmap. by exists (k', v).
Qed.
Lemma jm_has_spec k m : jm_has k m = true <-> is_Some (jm_get k m).
Proof. unfold jm_has. destruct (jm_get k m); split; naive_solver. Qed.
Lemma jm_has_false k m : jm_has k m = false <-> jm_get k m = None.
Proof. unfold jm_has. destruct (jm_get k m); split; naive_solver. Qed.
Lemma jm_set_fresh k v m : jm_get k m = None -> jm_set k v m = m ++ [(k, v)].
Proof.
  induction m as [|[k' v'] m IH]; csimpl; [done|]. case_decide; [done|].
  intros H'. by rewrite IH.
Qed.
Lemma jm_keys_set k v m :
  jm_keys (jm_set k v m) = if decide (k ∈ jm_keys m) then jm_keys m else jm_keys m ++ [k].
Proof.
  unfold jm_keys. induction m as [|[k' v'] m IH]; csimpl.
  - done.
  - destruct (decide (k = k')) as [->|Hne]; csimpl.
    + rewrite decide_True; [done|by left].
    + rewrite IH. destruct (decide (k ∈ m.*1)) as [Hin|Hni]; csimpl.
      * rewrite decide_True; [done|by right].
      * rewrite decide_False; [done|]. by intros [?|?]%elem_of_cons.
Qed.
Lemma jm_keys_set_NoDup k v m : NoDup (jm_keys m) -> NoDup (jm_keys (jm_set k v m)).
Proof.
  intros Hnd. rewrite jm_keys_set. case_decide as Hin; [done|].
  apply NoDup_app. split_and!; [done|set_solver|apply NoDup_singleton].
Qed.
Lemma jm_get_delete_ne k k' m : k <> k' -> jm_get k (jm_delete k' m) = jm_get k m.
Proof.
  intros Hne. induction m as [|[k1 v1] m IH]; csimpl; [done|].
  repeat (case_decide; csimpl); congruence.
Qed.
Lemma jm_keys_delete_subset k k' m : k ∈ jm_keys (jm_delete k' m) -> k ∈ jm_keys m.
Proof.
  unfold jm_keys. induction m as [|[k1 v1] m IH]; csimpl; [done|]. case_decide; set_solver.
Qed.
Lemma jm_get_delete_eq k m : NoDup (jm_keys m) -> jm_get k (jm_delete k m) = None.
Proof.
  unfold jm_keys. induction m as [|[k1 v1] m IH]; csimpl; [done|].
  intros [Hni Hnd]%NoDup_cons. case_decide as Hk; subst.
  - by apply jm_get_None.
  - csimpl. case_decide; [done|]. by apply IH.
Qed.
Lemma jm_keys_delete_NoDup k m : NoDup (jm_keys m) -> NoDup (jm_keys (jm_delete k m)).
Proof.
  unfold jm_keys. induction m as [|[k1 v1] m IH]; csimpl; [done|].
  intros [Hni Hnd]%NoDup_cons. case_decide; [done|]. csimpl.
  apply NoDup_cons. split; [|by apply IH].
  intros Hin. apply Hni. by eapply jm_keys_delete_subset.
Qed.
End jsmap.

(** ** [array.filter(p)] *)

Fixpoint keep {A} (p : A -> bool) (l : list A) : list A :=
  match l with [] => [] | x :: l' => if p x then x :: keep p l' else keep p l' end.

Lemma elem_of_keep {A} (p : A -> bool) x l : x ∈ keep p l <-> x ∈ l /\ p x = true.
Proof.
  induction l as [|y l IH]; simpl; [set_solver|].
  destruct (p y) eqn:Hp; rewrite ?elem_of_cons, IH; split; [naive_solver|naive_solver|tauto|].
  intros [[->|?] ?]; [congruence|done].
Qed.
Lemma NoDup_keep {A} (p : A -> bool) l : NoDup l -> NoDup (keep p l).
Proof.
  induction 1 as [|x l Hx Hl IH]; simpl; [constructor|]. destruct (p x); [|done].
  constructor; [|done]. by intros [Hin _]%elem_of_keep.
Qed.
Lemma keep_app {A} (p : A -> bool) l k : keep p (l ++ k) = keep p l ++ keep p k.
Proof. induction l as [|x l IH]; simpl; [done|]. destruct (p x); simpl; by rewrite IH. Qed.
Lemma keep_keep {A} (p q : A -> bool) l : keep p (keep q l) = keep (fun x => q x && p x) l.
Proof.
  induction l as [|x l IH]; simpl; [done|].
  destruct (q x); simpl; [|done]. destruct (p x); by rewrite IH.
Qed.
Lemma keep_ext {A} (p q : A -> bool) l : (forall x, x ∈ l -> p x = q x) -> keep p l = keep q l.
Proof.
  induction l as [|x l IH]; simpl; intros H; [done|].
  rewrite (H x) by by left. rewrite IH; [done|]. intros y Hy. apply H. by right.
Qed.
Lemma keep_all {A} (p : A -> bool) l : (forall x, x ∈ l -> p x = true) -> keep p l = l.
Proof.
  induction l as [|x l IH]; simpl; intros H; [done|].
  rewrite (H x) by by left. rewrite IH; [done|]. intros y Hy. apply H. by right.
Qed.
Lemma keep_none {A} (p : A -> bool) l : (forall x, x ∈ l -> p x = false) -> keep p l = [].
Proof.
  induction l as [|x l IH]; simpl; intros H; [done|].
  rewrite (H x) by by left. apply IH. intros y Hy. apply H. by right.
Qed.
Lemma keep_reverse {A} (p : A -> bool) l : keep p (reverse l) = reverse (keep p l).
Proof.
  induction l as [|x l IH]; simpl; [done|]. rewrite reverse_cons, keep_app, IH. simpl.
  destruct (p x); [by rewrite reverse_cons|by rewrite app_nil_r].
Qed.

Lemma app_cons_snoc {A} (l : list A) x k : l ++ x :: k = (l ++ [x]) ++ k.
Proof. by rewrite <-(assoc_L (++)). Qed.

Lemma keep_sorted {A} (R : A -> A -> Prop) (p : A -> bool) l :
  StronglySorted R l -> StronglySorted R (keep p l).
Proof.
  induction 1 as [|x l Hs IH Hall]; simpl; [constructor|]. destruct (p x); [|done].
  constructor; [done|]. rewrite Forall_forall in Hall |- *.
  intros y [Hy _]%elem_of_keep. by apply Hall.
Qed.

Lemma keep_length {A} (p : A -> bool) l : (length (keep p l) <= length l)%nat.
Proof. induction l as [|x l IH]; simpl; [lia|]. destruct (p x); simpl; lia. Qed.

(** ** Stable sort by an integer key: [[...l].sort((a, b) => a.seq - b.seq)] *)

Section sort_by.
Context {A : Type} (key : A -> Z).

Fixpoint sort_insert (x : A) (l : list A) : list A :=
  match l with
  | [] => [x]
  | y :: l' => if key x <=? key y then x :: l else y :: sort_insert x l'
  end.
Fixpoint sort_by (l : list A) : list A :=
  match l with
  | [] => []
  | x :: l' => sort_insert x (sort_by l')
  end.

Definition key_le (x y : A) : Prop := key x <= key y.

Lemma sort_insert_perm x l : sort_insert x l ≡ₚ x :: l.
Proof.
  induction l as [|y l IH]; simpl; [done|].
  destruct (key x <=? key y); [done|]. rewrite IH. apply Permutation_swap.
Qed.
Lemma sort_by_perm l : sort_by l ≡ₚ l.
Proof. induction l as [|x l IH]; simpl; [done|]. by rewrite sort_insert_perm, IH. Qed.
Lemma elem_of_sort_by x l : x ∈ sort_by l <-> x ∈ l.
Proof. by rewrite sort_by_perm. Qed.

Lemma sort_insert_sorted x l :
  StronglySorted key_le l -> StronglySorted key_le (sort_insert x l).
Proof.
  induction l as [|y l IH]; intros Hs; simpl; [by repeat constructor|].
  apply StronglySorted_inv in Hs as [Hs Hall].
  destruct (Z.leb_spec (key x) (key y)) as [Hle|Hgt].
  - constructor; [by constructor|]. constructor; [done|].
    eapply Forall_impl; [exact Hall|]. unfold key_le. intros z Hz. lia.
  - constructor; [by apply IH|]. rewrite sort_insert_perm.
    constructor; [unfold key_le; lia|done].
Qed.
Lemma sort_by_sorted l : StronglySorted key_le (sort_by l).
Proof. induction l; simpl; [constructor|by apply sort_insert_sorted]. Qed.

(** Lists whose keys strictly increase, as the sequence numbers of a log do. *)
Definition key_lt (x y : A) : Prop := key x < key y.

Lemma strict_sorted_unique l k :
  StronglySorted key_lt l -> StronglySorted key_lt k -> l ≡ₚ k -> l = k.
Proof.
  apply (StronglySorted_unique_strong key_lt).
  intros x1 x2 _ _. unfold key_lt. lia.
Qed.
Lemma sorted_NoDup_strict l :
  StronglySorted key_le l -> NoDup (key <$> l) -> StronglySorted key_lt l.
Proof.
  induction l as [|x l IH]; intros Hs Hnd; [constructor|]. csimpl in Hnd.
  apply StronglySorted_inv in Hs as [Hs Hall]. apply NoDup_cons in Hnd as [Hni Hnd].
  constructor; [by apply IH|]. rewrite Forall_forall in Hall |- *.
  intros y Hy. specialize (Hall y Hy). unfold key_le, key_lt in *.
  assert (key x <> key y); [|lia].
  intros Heq. apply Hni. rewrite Heq. by apply list_elem_of_fmap_2.
Qed.
Lemma sort_by_strict l : NoDup (key <$> l) -> StronglySorted key_lt (sort_by l).
Proof.
  intros Hnd. apply sorted_NoDup_strict; [apply sort_by_sorted|]. by rewrite sort_by_perm.
Qed.
(** Sorting forgets the order the rows were read in. *)
Lemma sort_by_permutation l k : NoDup (key <$> l) -> l ≡ₚ k -> sort_by l = sort_by k.
Proof.
  intros Hnd Hp. apply strict_sorted_unique.
  - by apply sort_by_strict.
  - apply sort_by_strict. by rewrite <-Hp.
  - by rewrite !sort_by_perm.
Qed.
Lemma sort_by_id l : StronglySorted key_le l -> sort_by l = l.
Proof.
  induction l as [|x l IH]; intros Hs; simpl; [done|].
  apply StronglySorted_inv in Hs as [Hs Hall]. rewrite IH by done.
  destruct l as [|y l]; simpl; [done|].
  apply Forall_cons in Hall as [Hxy _]. unfold key_le in Hxy.
  by rewrite (proj2 (Z.leb_le _ _) Hxy).
Qed.
Lemma strict_sorted_le l : StronglySorted key_lt l -> StronglySorted key_le l.
Proof.
  induction 1 as [|x l Hs IH Hall]; constructor; [done|].
  eapply Forall_impl; [exact Hall|]. unfold key_lt, key_le. intros z Hz. lia.
Qed.
End sort_by.

(** ** Stable sort by a comparison: [[...l].sort(compare)], [le x y] when [compare(x, y) <= 0] *)

Section sort_with.
Context {A : Type} (le : A -> A -> bool).

Fixpoint insert_with (x : A) (l : list A) : list A :=
  match l with
  | [] => [x]
  | y :: l' => if le x y then x :: l else y :: insert_with x l'
  end.
Fixpoint sort_with (l : list A) : list A :=
  match l with
  | [] => []
  | x :: l' => insert_with x (sort_with l')
  end.

Lemma insert_with_perm x l : insert_with x l ≡ₚ x :: l.
Proof.
  induction l as [|y l IH]; simpl; [done|]. destruct (le x y); [done|]. rewrite IH. apply Permutation_swap.
Qed.
Lemma sort_with_perm l : sort_with l ≡ₚ l.
Proof. induction l as [|x l IH]; simpl; [done|]. by rewrite insert_with_perm, IH. Qed.
Lemma elem_of_sort_with x l : x ∈ sort_with l <-> x ∈ l.
Proof. by rewrite sort_with_perm. Qed.

Context (le_trans : forall x y z, le x y = true -> le y z = true -> le x z = true)
        (le_total : forall x y, le x y = true \/ le y x = true).
Lemma insert_with_sorted x l :
  StronglySorted (fun a b => le a b = true) l -> StronglySorted (fun a b => le a b = true) (insert_with x l).
Proof.
  induction l as [|y l IH]; intros Hs; simpl; [by repeat constructor|].
  apply StronglySorted_inv in Hs as [Hs Hall]. destruct (le x y) eqn:Hxy.
  - constructor; [by constructor|]. constructor; [done|]. eapply Forall_impl; [exact Hall|].
    intros z Hz. by apply (le_trans x y z).
  - constructor; [by apply IH|]. rewrite insert_with_perm. constructor; [|done].
    destruct (le_total x y); [congruence|done].
Qed.
Lemma sort_with_sorted l : StronglySorted (fun a b => le a b = true) (sort_with l).
Proof. induction l; simpl; [constructor|by apply insert_with_sorted]. Qed.
(** Elements that no comparison ties together are sorted the same from any order. *)
Lemma sort_with_permutation l k :
  (forall x y, x ∈ l -> y ∈ l -> le x y = true -> le y x = true -> x = y) -> l ≡ₚ k -> sort_with l = sort_with k.
Proof.
  intros Hanti Hp. apply (StronglySorted_unique_strong (fun a b => le a b = true)).
  - intros x y Hx Hy. rewrite elem_of_sort_with in Hx. rewrite elem_of_sort_with, <-Hp in Hy. by apply Hanti.
  - apply sort_with_sorted.
  - apply sort_with_sorted.
  - by rewrite !sort_with_perm.
Qed.
End sort_with.
