(* ===== verification/JsNumber.v ===== *)
(** * The Number type: IEEE-754 binary64

    A JavaScript number is a [spec_float] of precision 53 and maximal exponent
    1024 (the Standard Library's executable binary64).  This file gives the
    predicates of [Number] the program calls, exact conversions between
    integers and numbers, and the 64-bit pattern [DataView.setFloat64] writes
    and [getFloat64] reads. *)
From Stdlib Require Import SpecFloat.
From S2P Require Import Prelude.

Definition number := spec_float.

(** Canonical binary64 values: every value the engine can hold satisfies it. *)
Definition num_wf (n : number) : bool := valid_binary 53 1024 n.

Definition MAX_SAFE_INTEGER : Z := 2 ^ 53 - 1.

(** [Number.isFinite] *)
Definition num_is_finite (n : number) : bool :=
  match n with S754_zero _ | S754_finite _ _ _ => true | _ => false end.

(** The integer a number denotes, when it denotes one. *)
Definition num_to_Z (n : number) : option Z :=
  match n with
  | S754_zero _ => Some 0
  | S754_finite s m e =>
      let sgn := if s then -1 else 1 in
      if 0 <=? e then Some (sgn * (Zpos m * 2 ^ e))
      else if Zpos m mod 2 ^ (- e) =? 0 then Some (sgn * (Zpos m / 2 ^ (- e)))
      else None
  | _ => None
  end.

(** [Number.isInteger], [Number.isSafeInteger], [Object.is(n, -0)] *)
Definition num_is_integer (n : number) : bool :=
  match num_to_Z n with Some _ => true | None => false end.
Definition num_is_safe_integer (n : number) : bool :=
  match num_to_Z n with Some z => Z.abs z <=? MAX_SAFE_INTEGER | None => false end.
Definition num_is_neg_zero (n : number) : bool :=
  match n with S754_zero true => true | _ => false end.

(** The number nearest to an integer. *)
Definition num_of_Z (z : Z) : number := binary_normalize 53 1024 z 0 false.

Definition num_add (a b : number) : number := SFadd 53 1024 a b.
Definition num_zero : number := S754_zero false.
Definition num_sub (a b : number) : number := SFsub 53 1024 a b.
Definition num_mul (a b : number) : number := SFmul 53 1024 a b.
(** [a < b] and [a <= b]; false when one of them is NaN. *)
Definition num_ltb (a b : number) : bool := SFltb a b.
Definition num_leb (a b : number) : bool := SFleb a b.
Definition num_is_nan (n : number) : bool := match n with S754_nan => true | _ => false end.
(** A number used as a condition. *)
Definition num_truthy (n : number) : bool :=
  match n with S754_zero _ | S754_nan => false | _ => true end.

(** [Math.min], [Math.max] and [Math.floor] *)
Definition num_min (a b : number) : number :=
  if num_is_nan a || num_is_nan b then S754_nan
  else if num_ltb a b then a else if num_ltb b a then b
  else if num_is_neg_zero a then a else b.
Definition num_max (a b : number) : number :=
  if num_is_nan a || num_is_nan b then S754_nan
  else if num_ltb a b then b else if num_ltb b a then a
  else if num_is_neg_zero a then b else a.
Definition num_floor (n : number) : number :=
  match n with
  | S754_finite s m e =>
      if 0 <=? e then n else num_of_Z ((if s then Zneg m else Zpos m) / 2 ^ (- e))
  | _ => n
  end.

(** [length === limit] for an integer on the left. *)
Definition num_eq_Z (n : number) (z : Z) : bool :=
  match num_to_Z n with Some z' => z' =? z | None => false end.

(** ** The bit pattern *)

Definition num_to_bits (n : number) : Z :=
  let sign (s : bool) := if s then 2 ^ 63 else 0 in
  match n with
  | S754_zero s => sign s
  | S754_infinity s => sign s + 2047 * 2 ^ 52
  | S754_nan => 2047 * 2 ^ 52 + 2 ^ 51
  | S754_finite s m e =>
      if 2 ^ 52 <=? Zpos m then sign s + ((e + 1075) * 2 ^ 52 + (Zpos m - 2 ^ 52))
      else sign s + Zpos m
  end.

Definition num_of_bits (b : Z) : number :=
  let s := 2 ^ 63 <=? b in
  let r := b mod 2 ^ 63 in
  let ex := r / 2 ^ 52 in
  let fr := r mod 2 ^ 52 in
  if ex =? 2047 then (if fr =? 0 then S754_infinity s else S754_nan)
  else if ex =? 0 then
    match fr with Zpos p => S754_finite s p (-1074) | _ => S754_zero s end
  else match 2 ^ 52 + fr with Zpos p => S754_finite s p (ex - 1075) | _ => S754_nan end.

(** ** Canonical mantissas *)

Lemma digits2_pos_size p : digits2_pos p = Pos.size p.
Proof. induction p; simpl; congruence. Qed.

Lemma digits2_pos_bounds p :
  2 ^ (Zpos (digits2_pos p) - 1) <= Zpos p < 2 ^ Zpos (digits2_pos p).
Proof.
  rewrite digits2_pos_size. split.
  - pose proof (Pos.size_le p) as H. apply Pos2Z.pos_le_pos in H.
    rewrite Pos2Z.inj_pow in H. change (Zpos p~0) with (2 * Zpos p) in H.
    replace (Zpos (Pos.size p)) with (1 + (Zpos (Pos.size p) - 1)) in H at 1 by lia.
    rewrite Z.pow_add_r in H by lia. lia.
  - pose proof (Pos.size_gt p) as H. apply Pos2Z.pos_lt_pos in H.
    by rewrite Pos2Z.inj_pow in H.
Qed.

Lemma digits2_pos_unique p d :
  0 < d -> 2 ^ (d - 1) <= Zpos p < 2 ^ d -> Zpos (digits2_pos p) = d.
Proof.
  intros Hd [H1 H2]. destruct (digits2_pos_bounds p) as [H3 H4].
  assert (d - 1 < Zpos (digits2_pos p)) by (apply (Z.pow_lt_mono_r_iff 2); lia).
  assert (Zpos (digits2_pos p) - 1 < d) by (apply (Z.pow_lt_mono_r_iff 2); lia).
  lia.
Qed.

(** A finite number is normal (53 significant bits) or subnormal. *)
Lemma num_wf_finite s m e :
  num_wf (S754_finite s m e) = true ->
  -1074 <= e <= 971 /\
  ((Zpos (digits2_pos m) = 53 /\ 2 ^ 52 <= Zpos m < 2 ^ 53) \/ (e = -1074 /\ Zpos m < 2 ^ 52)).
Proof.
  unfold num_wf, valid_binary, bounded, canonical_mantissa, fexp, emin.
  rewrite andb_true_iff, Z.eqb_eq, Z.leb_le. intros [H1 H2].
  destruct (digits2_pos_bounds m) as [H3 H4]. split; [lia|].
  destruct (decide (Zpos (digits2_pos m) = 53)) as [Hd|Hd].
  - left. split; [done|]. rewrite Hd in H3, H4. done.
  - right. split; [lia|]. eapply Z.lt_le_trans; [exact H4|].
    apply Z.pow_le_mono_r; lia.
Qed.

Lemma num_to_bits_range n : num_wf n = true -> 0 <= num_to_bits n < 2 ^ 64.
Proof.
  destruct n as [s|s| |s m e]; intros Hwf; simpl; try (destruct s; lia); [lia|].
  destruct (num_wf_finite _ _ _ Hwf) as [He [[_ Hm]|[-> Hm]]];
    destruct (Z.leb_spec (2 ^ 52) (Zpos m)); destruct s; nia.
Qed.

Lemma bits_split (s : bool) ex fr :
  0 <= ex < 2048 -> 0 <= fr < 2 ^ 52 ->
  let b := (if s then 2 ^ 63 else 0) + (ex * 2 ^ 52 + fr) in
  (2 ^ 63 <=? b) = s /\ b mod 2 ^ 63 / 2 ^ 52 = ex /\ (b mod 2 ^ 63) mod 2 ^ 52 = fr.
Proof.
  intros Hex Hfr b.
  assert (Hmod : b mod 2 ^ 63 = ex * 2 ^ 52 + fr).
  { unfold b. destruct s.
    - rewrite Z.add_comm, <-(Z.mul_1_l (2 ^ 63)) at 1. rewrite Z.mod_add by lia.
      apply Z.mod_small. lia.
    - apply Z.mod_small. lia. }
  split; [|split].
  - unfold b. destruct s; [apply Z.leb_le|apply Z.leb_gt]; lia.
  - rewrite Hmod, Z.add_comm, Z.div_add, Z.div_small by lia. lia.
  - rewrite Hmod, Z.add_comm, Z.mod_add by lia. by apply Z.mod_small.
Qed.

(** Writing the bits of a number and reading them back gives the number. *)
Lemma num_of_bits_to_bits n : num_wf n = true -> num_of_bits (num_to_bits n) = n.
Proof.
  destruct n as [s|s| |s m e]; intros Hwf; [by destruct s|by destruct s|done|].
  destruct (num_wf_finite _ _ _ Hwf) as [He [[_ Hm]|[-> Hm]]].
  - assert (Hbits : num_to_bits (S754_finite s m e)
                    = (if s then 2 ^ 63 else 0) + ((e + 1075) * 2 ^ 52 + (Zpos m - 2 ^ 52))).
    { unfold num_to_bits. by rewrite (proj2 (Z.leb_le _ _) (proj1 Hm)). }
    destruct (bits_split s (e + 1075) (Zpos m - 2 ^ 52)) as (H1 & H2 & H3); [lia|lia|].
    unfold num_of_bits. rewrite Hbits, H1, H2, H3.
    rewrite (proj2 (Z.eqb_neq _ _)), (proj2 (Z.eqb_neq _ _)) by lia.
    replace (2 ^ 52 + (Zpos m - 2 ^ 52)) with (Zpos m) by lia.
    f_equal. lia.
  - assert (Hbits : num_to_bits (S754_finite s m (-1074))
                    = (if s then 2 ^ 63 else 0) + (0 * 2 ^ 52 + Zpos m)).
    { unfold num_to_bits. rewrite (proj2 (Z.leb_gt _ _) Hm). lia. }
    destruct (bits_split s 0 (Zpos m)) as (H1 & H2 & H3); [lia|lia|].
    unfold num_of_bits. by rewrite Hbits, H1, H2, H3.
Qed.

(** ** Integers as numbers *)

Lemma digits2_pos_shift p d :
  Zpos (digits2_pos (Pos.iter xO p d)) = Zpos (digits2_pos p) + Zpos d.
Proof.
  revert p. induction d using Pos.peano_ind; intros p; simpl; [lia|].
  rewrite Pos.iter_succ. simpl. rewrite Pos2Z.inj_succ, IHd. lia.
Qed.
Lemma iter_xO_pow p d : Zpos (Pos.iter xO p d) = Zpos p * 2 ^ Zpos d.
Proof.
  induction d as [|d IH] using Pos.peano_ind; [simpl; lia|].
  rewrite Pos.iter_succ, Pos2Z.inj_xO, IH, Pos2Z.inj_succ, Z.pow_succ_r by lia. lia.
Qed.

(** Rounding is the identity on a 53-bit mantissa. *)
Lemma binary_round_aux_exact s m e :
  Zpos (digits2_pos m) = 53 -> -1074 <= e <= 971 ->
  binary_round_aux 53 1024 s (Zpos m) e loc_Exact = S754_finite s m e.
Proof.
  intros Hd He. unfold binary_round_aux, shr_fexp, fexp, emin. simpl Zdigits2. rewrite Hd.
  replace (Z.max (53 + e - 53) (3 - 1024 - 53) - e) with 0 by lia. simpl.
  rewrite Hd. replace (Z.max (53 + e - 53) (3 - 1024 - 53) - e) with 0 by lia. simpl.
  destruct (Z.leb_spec e (1024 - 53)); [done|lia].
Qed.

Lemma num_of_Z_pos (s : bool) p :
  Zpos p <= MAX_SAFE_INTEGER ->
  exists m e, num_of_Z (if s then Zneg p else Zpos p) = S754_finite s m e /\
    Zpos (digits2_pos m) = 53 /\ e = Zpos (digits2_pos p) - 53 /\ e <= 0 /\
    Zpos m = Zpos p * 2 ^ (- e).
Proof.
  intros Hp. unfold MAX_SAFE_INTEGER in Hp.
  destruct (digits2_pos_bounds p) as [Hlo Hhi].
  assert (Hd : Zpos (digits2_pos p) - 1 < 53) by (apply (Z.pow_lt_mono_r_iff 2); lia).
  assert (Hround : num_of_Z (if s then Zneg p else Zpos p) = binary_round 53 1024 s p 0)
    by by destruct s.
  rewrite Hround. unfold binary_round, shl_align, fexp, emin.
  replace (Z.max (Zpos (digits2_pos p) + 0 - 53) (3 - 1024 - 53) - 0)
    with (Zpos (digits2_pos p) - 53) by lia.
  destruct (Zpos (digits2_pos p) - 53) as [|q|q] eqn:Hq; [|lia|].
  - exists p, 0. rewrite binary_round_aux_exact by lia. rewrite Z.mul_1_r. split_and!; lia || done.
  - replace (Z.max (Zpos (digits2_pos p) + 0 - 53) (3 - 1024 - 53)) with (Zneg q) by lia.
    exists (Pos.iter xO p q), (Zneg q).
    rewrite binary_round_aux_exact; [|rewrite digits2_pos_shift; lia|lia].
    split_and!; [done|rewrite digits2_pos_shift; lia|lia|lia|apply iter_xO_pow].
Qed.

(** Safe integers are represented exactly. *)
Lemma num_to_Z_of_Z z : Z.abs z <= MAX_SAFE_INTEGER -> num_to_Z (num_of_Z z) = Some z.
Proof.
  intros Hz.
  assert (Hgen : forall (s : bool) p, Zpos p <= MAX_SAFE_INTEGER ->
    num_to_Z (num_of_Z (if s then Zneg p else Zpos p)) = Some (if s then Zneg p else Zpos p)).
  { intros s p Hp. destruct (num_of_Z_pos s p Hp) as (m & e & -> & _ & _ & He & Hm). simpl.
    destruct (Z.leb_spec 0 e).
    - assert (e = 0) as -> by lia. simpl in Hm. f_equal. rewrite Hm. destruct s; lia.
    - assert (0 < 2 ^ (- e)) by (apply Z.pow_pos_nonneg; lia).
      rewrite Hm, Z.mod_mul, Z.div_mul by lia. simpl. f_equal. destruct s; lia. }
  destruct z as [|p|p]; [done|apply (Hgen false)|apply (Hgen true)]; lia.
Qed.

(** The only number denoting a safe integer, apart from -0, is [num_of_Z] of it. *)
Lemma num_of_Z_to_Z n z :
  num_wf n = true -> num_is_neg_zero n = false ->
  num_to_Z n = Some z -> Z.abs z <= MAX_SAFE_INTEGER -> num_of_Z z = n.
Proof.
  destruct n as [s|s| |s m e]; intros Hwf Hnz Hz Habs; try done.
  { destruct s; [done|]. by injection Hz as <-. }
  assert (Hp : exists p, z = (if s then Zneg p else Zpos p) /\ Zpos m = Zpos p * 2 ^ (- e) /\ e <= 0
               /\ Zpos (digits2_pos m) = 53).
  { destruct (num_wf_finite _ _ _ Hwf) as [He Hcase]. unfold MAX_SAFE_INTEGER in Habs.
    simpl in Hz. destruct (Z.leb_spec 0 e) as [Hpos|Hneg].
    - injection Hz as <-. destruct Hcase as [[Hd Hm]|[-> _]]; [|lia].
      assert (1 <= 2 ^ e) by (apply (Z.pow_le_mono_r 2 0 e); lia).
      assert (e = 0) as ->.
      { destruct (decide (e = 0)); [done|]. exfalso.
        assert (2 ^ 1 <= 2 ^ e) by (apply Z.pow_le_mono_r; lia). destruct s; nia. }
      exists m. rewrite Z.mul_1_r. destruct s; split_and!; lia || done.
    - assert (H2 : 0 < 2 ^ (- e)) by (apply Z.pow_pos_nonneg; lia).
      destruct (Z.eqb_spec (Zpos m mod 2 ^ (- e)) 0) as [Hmod|]; [|done]. injection Hz as <-.
      pose proof (Z.div_mod (Zpos m) (2 ^ (- e))) as Hdm. rewrite Hmod in Hdm.
      destruct (Zpos m / 2 ^ (- e)) as [|p|p] eqn:Hq; [lia| |nia].
      exists p. split; [by destruct s|]. split; [lia|]. split; [lia|].
      destruct Hcase as [[Hd _]|[-> Hm]]; [done|].
      assert (2 ^ 52 <= 2 ^ 1074) by (apply Z.pow_le_mono_r; lia).
      change (- -1074) with 1074 in *. nia. }
  destruct Hp as (p & -> & Hm & He & Hd).
  destruct (num_of_Z_pos s p) as (m' & e' & -> & Hd' & He' & Hle & Hm').
  { destruct s; lia. }
  assert (Hpe : Zpos (digits2_pos p) = 53 + e).
  { destruct (digits2_pos_bounds m) as [Hlo Hhi]. rewrite Hd in Hlo, Hhi.
    assert (e <= 0 /\ 0 < 2 ^ (- e)) as [_ Hpow] by (split; [lia|apply Z.pow_pos_nonneg; lia]).
    assert (Hup : 2 ^ (- e) <= 2 ^ 52 * 2).
    { rewrite Hm in Hhi. nia. }
    assert (- e <= 53) by (apply (Z.pow_le_mono_r_iff 2); lia).
    assert (- e <> 53).
    { intros Heq. rewrite Heq in *. rewrite Hm in Hhi. lia. }
    apply digits2_pos_unique; [lia|]. rewrite Hm in Hlo, Hhi.
    replace (53 - 1) with ((53 + e - 1) + (- e)) in Hlo by lia.
    replace 53 with ((53 + e) + (- e)) in Hhi by lia.
    rewrite Z.pow_add_r in Hlo, Hhi by lia.
    split; [by eapply Z.mul_le_mono_pos_r|by eapply Z.mul_lt_mono_pos_r]. }
  assert (e' = e) as -> by lia. f_equal. apply (inj Zpos). by rewrite Hm', Hm.
Qed.

Lemma num_of_Z_wf z : Z.abs z <= MAX_SAFE_INTEGER -> num_wf (num_of_Z z) = true.
Proof.
  intros Hz.
  assert (Hgen : forall (s : bool) p, Zpos p <= MAX_SAFE_INTEGER ->
    num_wf (num_of_Z (if s then Zneg p else Zpos p)) = true).
  { intros s p Hp. destruct (num_of_Z_pos s p Hp) as (m & e & -> & Hd & Hed & He & _).
    unfold num_wf, valid_binary, bounded, canonical_mantissa, fexp, emin. rewrite Hd.
    rewrite andb_true_iff, Z.eqb_eq, Z.leb_le. lia. }
  destruct z as [|p|p]; [done|apply (Hgen false)|apply (Hgen true)]; lia.
Qed.

(** Every 64-bit pattern is a number the engine can hold. *)
Lemma num_of_bits_wf b : num_wf (num_of_bits b) = true.
Proof.
  unfold num_of_bits.
  assert (Hex : 0 <= b mod 2 ^ 63 / 2 ^ 52 < 2048).
  { pose proof (Z.mod_pos_bound b (2 ^ 63) ltac:(lia)). split; [apply Z.div_pos; lia|].
    apply Z.div_lt_upper_bound; lia. }
  pose proof (Z.mod_pos_bound (b mod 2 ^ 63) (2 ^ 52) ltac:(lia)) as Hfr.
  destruct (Z.eqb_spec (b mod 2 ^ 63 / 2 ^ 52) 2047); [by case_match|].
  unfold num_wf, valid_binary, bounded, canonical_mantissa, fexp, emin.
  destruct (Z.eqb_spec (b mod 2 ^ 63 / 2 ^ 52) 0).
  - destruct (b mod 2 ^ 63 mod 2 ^ 52) as [|p|p]; [done| |done].
    destruct (digits2_pos_bounds p) as [Hlo _].
    assert (Zpos (digits2_pos p) - 1 < 52) by (apply (Z.pow_lt_mono_r_iff 2); lia).
    rewrite andb_true_iff, Z.eqb_eq, Z.leb_le. lia.
  - destruct (2 ^ 52 + b mod 2 ^ 63 mod 2 ^ 52) as [|p|p] eqn:Hp; [done| |done].
    rewrite (digits2_pos_unique p 53) by lia.
    rewrite andb_true_iff, Z.eqb_eq, Z.leb_le. lia.
Qed.

(** ** Comparing integers *)

Lemma digits2_pos_lt p q : (digits2_pos p < digits2_pos q)%positive -> Zpos p < Zpos q.
Proof.
  intros H. destruct (digits2_pos_bounds p) as [_ Hp], (digits2_pos_bounds q) as [Hq _].
  eapply Z.lt_le_trans; [exact Hp|]. etransitivity; [|exact Hq]. apply Z.pow_le_mono_r; lia.
Qed.

(** Safe integers compare as numbers as they do as integers. *)
Lemma num_compare_pos p q :
  Zpos p <= MAX_SAFE_INTEGER -> Zpos q <= MAX_SAFE_INTEGER ->
  SFcompare (num_of_Z (Zpos p)) (num_of_Z (Zpos q)) = Some (Zpos p ?= Zpos q).
Proof.
  intros Hp Hq. destruct (num_of_Z_pos false p Hp) as (m & e & -> & _ & He & Hle & Hm).
  destruct (num_of_Z_pos false q Hq) as (m' & e' & -> & _ & He' & Hle' & Hm'). simpl. f_equal. change (p ?= q)%positive with (Zpos p ?= Zpos q).
  destruct (Z.compare_spec e e') as [Heq|Hlt|Hgt].
  - subst e'. rewrite <-Heq in *. change (Pos.compare_cont Eq m m') with (Zpos m ?= Zpos m').
    assert (0 < 2 ^ (- e)) by (apply Z.pow_pos_nonneg; lia). rewrite Hm, Hm'.
    symmetry.
    destruct (Z.compare_spec (Zpos p * 2 ^ (- e)) (Zpos q * 2 ^ (- e))); [apply Z.compare_eq_iff|apply Z.compare_lt_iff|apply Z.compare_gt_iff]; nia.
  - symmetry. apply Z.compare_lt_iff, digits2_pos_lt. lia.
  - symmetry. apply Z.compare_gt_iff, digits2_pos_lt. lia.
Qed.
Lemma num_leb_nat n k z :
  num_wf n = true -> num_to_Z n = Some k -> Z.abs k <= MAX_SAFE_INTEGER -> 0 <= z <= MAX_SAFE_INTEGER ->
  num_leb n (num_of_Z z) = (k <=? z).
Proof.
  intros Hwf Hk Habs Hz.
  assert (Hn : n = num_of_Z k \/ n = S754_zero true /\ k = 0).
  { destruct (num_is_neg_zero n) eqn:Hnz.
    - destruct n as [[]| | |]; try done. right. split; [done|]. by injection Hk.
    - left. symmetry. by apply num_of_Z_to_Z. }
  unfold num_leb, SFleb. destruct Hn as [->|[-> ->]].
  - destruct z as [|q|q]; [| |lia].
    + destruct k as [|p|p]; [done| |].
      * destruct (num_of_Z_pos false p) as (m & e & -> & _); [lia|done].
      * destruct (num_of_Z_pos true p) as (m & e & -> & _); [lia|done].
    + destruct k as [|p|p].
      * destruct (num_of_Z_pos false q) as (m & e & -> & _); [lia|done].
      * rewrite num_compare_pos by lia. by unfold Z.leb; destruct (Z.compare _ _).
      * destruct (num_of_Z_pos true p) as (m & e & -> & _); [lia|].
        destruct (num_of_Z_pos false q) as (m' & e' & -> & _); [lia|done].
  - destruct z as [|q|q]; [done| |lia]. destruct (num_of_Z_pos false q) as (m & e & -> & _); [lia|done].
Qed.
