(* ===== verification/SessionTypes.v ===== *)
(** * The durable session data model

    Messages (packages/ai/src/types.ts, packages/agent/src/harness/messages.ts)
    and the entries, lane records, queries, log items and errors of
    packages/agent/src/harness/session/types.ts.  An optional property is an
    [option]; [isX?: true] is a [bool]; a property typed [unknown] or [any] is a
    [json].  Sequence numbers and the timestamps of entries and records are integers
    (the storages assign them); other numbers are JavaScript numbers. *)
From S2P Require Import Prelude JsNumber.

(** Opaque payloads. *)
Inductive json :=
| JsonNull
| JsonBool (b : bool)
| JsonNumber (n : number)
| JsonString (s : string)
| JsonArray (items : list json)
| JsonObject (props : list (string * json)).

(** ** Messages *)

Record UsageCost := { cost_input : number; cost_output : number; cost_cacheRead : number;
                      cost_cacheWrite : number; cost_total : number }.
Record Usage := { usage_input : number; usage_output : number; usage_cacheRead : number;
                  usage_cacheWrite : number; usage_cacheWrite1h : option number;
                  usage_reasoning : option number; usage_totalTokens : number;
                  usage_cost : UsageCost }.

Inductive StopReason :=
| StopPending | StopStop | StopLength | StopToolUse | StopError | StopAborted | StopDeferred.

Record AgentToolCall := { tc_id : string; tc_name : string; tc_arguments : json;
                          tc_thoughtSignature : option string; tc_namespace : option string }.

Inductive content :=
| TextContent (text : string) (textSignature : option string)
| ThinkingContent (thinking : string) (thinkingSignature : option string) (redacted : option bool)
| ImageContent (data mimeType : string)
| ToolCallContent (call : AgentToolCall).

Record DeferredHandle := { dh_provider : string; dh_modelId : string; dh_api : string;
                           dh_id : string; dh_expiresAt : option number;
                           dh_pollAfterMs : option number; dh_data : option json }.

Record AssistantMessage := {
  am_content : list content; am_api : string; am_provider : string; am_model : string;
  am_responseModel : option string; am_responseId : option string;
  am_serviceTier : option json; am_diagnostics : option json; am_usage : Usage;
  am_stopReason : StopReason; am_isResponseCheckpoint : bool;
  am_deferred : option DeferredHandle; am_errorMessage : option string;
  am_rawStopReason : option string; am_endTurn : option bool; am_timestamp : number }.

(** [content: string | (TextContent | ImageContent)[]] *)
Inductive user_content :=
| PlainText (s : string)
| Blocks (l : list content).

Record ToolResultMessage := {
  tr_toolCallId : string; tr_toolName : string; tr_content : list content;
  tr_details : option json; tr_usage : option Usage; tr_addedToolNames : option (list string);
  tr_structuredContent : option json; tr_nestedCalls : option json;
  tr_nestedExecutionOutcome : option string; tr_isError : bool; tr_timestamp : number }.

Record BashExecutionMessage := {
  bx_command : string; bx_output : string; bx_exitCode : option number; bx_cancelled : bool;
  bx_truncated : bool; bx_fullOutputPath : option string; bx_timestamp : number;
  bx_excludeFromContext : option bool }.

Inductive AgentMessage :=
| UserMsg (c : user_content) (timestamp : number)
| AssistantMsg (m : AssistantMessage)
| ToolResultMsg (m : ToolResultMessage)
| BashExecutionMsg (m : BashExecutionMessage)
| CustomMsg (customType : string) (c : user_content) (display : bool)
            (details : option json) (timestamp : number)
| BranchSummaryMsg (summary fromId : string) (timestamp : number)
| CompactionSummaryMsg (summary : string) (tokensBefore : number)
                       (estimatedTokensAfter : option number) (timestamp : number)
| AppMsg (role : string) (payload : json).

Inductive role :=
| RoleUser | RoleAssistant | RoleToolResult | RoleBashExecution | RoleCustom
| RoleBranchSummary | RoleCompactionSummary | RoleApp (name : string).

Definition message_role (m : AgentMessage) : role :=
  match m with
  | UserMsg _ _ => RoleUser
  | AssistantMsg _ => RoleAssistant
  | ToolResultMsg _ => RoleToolResult
  | BashExecutionMsg _ => RoleBashExecution
  | CustomMsg _ _ _ _ _ => RoleCustom
  | BranchSummaryMsg _ _ _ => RoleBranchSummary
  | CompactionSummaryMsg _ _ _ _ => RoleCompactionSummary
  | AppMsg r _ => RoleApp r
  end.

(** [content.filter((content) => content.type === "toolCall")] *)
Definition tool_call_of (c : content) : option AgentToolCall :=
  match c with ToolCallContent tc => Some tc | _ => None end.
Definition tool_calls (m : AssistantMessage) : list AgentToolCall :=
  omap tool_call_of (am_content m).

(** ** Entries *)

Inductive entry_type :=
| TMessage | TModelChange | TThinkingLevelChange | TActiveToolsChange | TCompaction
| TBranchSummary | TCustom.

Inductive entry_body :=
| MessageEntry (message : AgentMessage) (terminate : bool)
| ModelChangeEntry (provider modelId : string)
| ThinkingLevelEntry (thinkingLevel : string)
| ActiveToolsEntry (activeToolNames : list string)
| CompactionEntry (summary : string) (retainedTail : list AgentMessage) (tokensBefore : number)
                  (details : option json) (usage : option Usage)
| BranchSummaryEntry (fromId summary : string) (details : option json) (usage : option Usage)
| CustomEntry (customType : string) (data : option json).

Definition body_type (b : entry_body) : entry_type :=
  match b with
  | MessageEntry _ _ => TMessage
  | ModelChangeEntry _ _ => TModelChange
  | ThinkingLevelEntry _ => TThinkingLevelChange
  | ActiveToolsEntry _ => TActiveToolsChange
  | CompactionEntry _ _ _ _ _ => TCompaction
  | BranchSummaryEntry _ _ _ _ => TBranchSummary
  | CustomEntry _ _ => TCustom
  end.

(** An entry before the storage assigned [parentId], [seq] and [timestamp]. *)
Record ProvisionedEntry := { pe_id : string; pe_body : entry_body }.

Record Entry := { e_id : string; e_seq : Z; e_parentId : option string; e_timestamp : Z;
                  e_body : entry_body }.

Definition e_type (e : Entry) : entry_type := body_type (e_body e).

Definition entry_message (e : Entry) : option AgentMessage :=
  match e_body e with MessageEntry m _ => Some m | _ => None end.
(** [entry.type === "message" && entry.message.role === "assistant"] *)
Definition entry_assistant (e : Entry) : option AssistantMessage :=
  match e_body e with MessageEntry (AssistantMsg m) _ => Some m | _ => None end.
Definition entry_tool_result (e : Entry) : option ToolResultMessage :=
  match e_body e with MessageEntry (ToolResultMsg m) _ => Some m | _ => None end.

(** ** Lane records *)

Record RecordBase := { r_id : string; r_seq : Z; r_lane : string; r_timestamp : Z }.

Inductive intent :=
| IntentRun (originalPrompt : list AgentMessage) (initialMessages : list ProvisionedEntry)
            (systemPromptOverride : option string) (resumeData : option json)
| IntentCompaction (customInstructions : option string) (resultEntryId : string)
| IntentNavigation (targetId : option string) (summarize : bool)
                   (customInstructions label summaryEntryId : option string).

Inductive operation_kind := KRun | KCompaction | KNavigation.
Definition intent_kind (i : intent) : operation_kind :=
  match i with
  | IntentRun _ _ _ _ => KRun
  | IntentCompaction _ _ => KCompaction
  | IntentNavigation _ _ _ _ _ => KNavigation
  end.

Inductive outcome := OutCompleted | OutAborted | OutFailed | OutDeclined.
Inductive step_kind := StepAssistant | StepBranchSummary | StepCompaction.
Inductive replay := ReplayNever | ReplaySafe.
Inductive queue_kind := QSteer | QFollowUp | QNextRun.

Record OperationStarted := { os_sourceLeafId : option string; os_intent : intent }.
Record OperationFinished := { of_runId : string; of_outcome : outcome;
                              of_error : option (string * string) }.
(** [compactionReason] is read as [unknown] before it is validated. *)
Record StepAttempt := { sa_runId : string; sa_step : step_kind; sa_attempt : Z;
                        sa_resultEntryId : string; sa_compactionReason : option string }.
Record ToolStarted := { ts_runId : string; ts_assistantEntryId : string; ts_toolIndex : Z;
                        ts_toolCallId : string; ts_toolName : string; ts_effectiveArgs : json;
                        ts_resultEntryId : string; ts_operationId : option string;
                        ts_replay : replay }.
Record ToolReconciliation := { tl_runId : string; tl_toolCallId : string;
                               tl_resultEntryId : string; tl_reason : string;
                               tl_diagnostic : option ToolResultMessage }.
Record ToolReconciled := { td_runId : string; td_toolCallId : string;
                           td_resultEntryId : string }.
Record AssistantCheckpoint := { ac_runId : string; ac_resultEntryId : string; ac_attempt : Z;
                                ac_message : AssistantMessage;
                                ac_continuationFailure : option AssistantMessage;
                                ac_retryAttempt : option Z }.
Record QueueEnqueued := { qe_queue : queue_kind; qe_runId : option string;
                          qe_target : ProvisionedEntry }.
Record QueueCancelled := { qc_runId : option string; qc_entryId : string }.
Record WriteDeferred := { wd_runId : string; wd_target : ProvisionedEntry }.

Inductive usage_kind := UAssistant | UCompaction | UBranchSummary | UDeferredFetch.
Inductive usage_cause :=
| CauseStep (kind : usage_kind) (runId entryId : string) (attempt : Z) (stop : StopReason)
| CauseTool (runId entryId toolCallId : string)
| CauseHook (runId entryId : string)
| CauseAdjustment (runId entryId : option string) (details : option json).
Record UsageRecord := { ur_usage : Usage; ur_cause : usage_cause }.

Inductive record_body :=
| ROperationStarted (r : OperationStarted)
| RAbortRequested (runId : string)
| RPauseRequested (runId : string)
| RPauseCleared (runId : string)
| ROperationFinished (r : OperationFinished)
| RStepAttempt (r : StepAttempt)
| RToolStarted (r : ToolStarted)
| RToolReconciliation (r : ToolReconciliation)
| RToolReconciled (r : ToolReconciled)
| RAssistantCheckpoint (r : AssistantCheckpoint)
| RQueueEnqueued (r : QueueEnqueued)
| RQueueCancelled (r : QueueCancelled)
| RWriteDeferred (r : WriteDeferred)
| RUsage (r : UsageRecord).

Inductive record_type :=
| TyOperationStarted | TyAbortRequested | TyPauseRequested | TyPauseCleared
| TyOperationFinished | TyStepAttempt | TyToolStarted | TyToolReconciliation
| TyToolReconciled | TyAssistantCheckpoint | TyQueueEnqueued | TyQueueCancelled
| TyWriteDeferred | TyUsage.

Record LaneRecord := { lr_base : RecordBase; lr_body : record_body }.

Definition lr_id (r : LaneRecord) : string := r_id (lr_base r).
Definition lr_seq (r : LaneRecord) : Z := r_seq (lr_base r).
Definition lr_lane (r : LaneRecord) : string := r_lane (lr_base r).

Definition lr_type (r : LaneRecord) : record_type :=
  match lr_body r with
  | ROperationStarted _ => TyOperationStarted
  | RAbortRequested _ => TyAbortRequested
  | RPauseRequested _ => TyPauseRequested
  | RPauseCleared _ => TyPauseCleared
  | ROperationFinished _ => TyOperationFinished
  | RStepAttempt _ => TyStepAttempt
  | RToolStarted _ => TyToolStarted
  | RToolReconciliation _ => TyToolReconciliation
  | RToolReconciled _ => TyToolReconciled
  | RAssistantCheckpoint _ => TyAssistantCheckpoint
  | RQueueEnqueued _ => TyQueueEnqueued
  | RQueueCancelled _ => TyQueueCancelled
  | RWriteDeferred _ => TyWriteDeferred
  | RUsage _ => TyUsage
  end.

(** ["runId" in record ? record.runId : undefined]; an operation start has none. *)
Definition lr_runId (r : LaneRecord) : option string :=
  match lr_body r with
  | ROperationStarted _ => None
  | RAbortRequested x | RPauseRequested x | RPauseCleared x => Some x
  | ROperationFinished x => Some (of_runId x)
  | RStepAttempt x => Some (sa_runId x)
  | RToolStarted x => Some (ts_runId x)
  | RToolReconciliation x => Some (tl_runId x)
  | RToolReconciled x => Some (td_runId x)
  | RAssistantCheckpoint x => Some (ac_runId x)
  | RQueueEnqueued x => qe_runId x
  | RQueueCancelled x => qc_runId x
  | RWriteDeferred x => Some (wd_runId x)
  | RUsage x => match ur_cause x with
                | CauseStep _ x _ _ _ | CauseTool x _ _ | CauseHook x _ => Some x
                | CauseAdjustment x _ _ => x
                end
  end.

Record OperationStartedRecord := { osr_base : RecordBase; osr : OperationStarted }.
Definition osr_id (r : OperationStartedRecord) : string := r_id (osr_base r).
Definition osr_intent (r : OperationStartedRecord) : intent := os_intent (osr r).
Definition as_operation_started (r : LaneRecord) : option OperationStartedRecord :=
  match lr_body r with
  | ROperationStarted x => Some {| osr_base := lr_base r; osr := x |}
  | _ => None
  end.

Record ToolStartedRecord := { tsr_base : RecordBase; tsr : ToolStarted }.
Definition as_tool_started (r : LaneRecord) : option ToolStartedRecord :=
  match lr_body r with
  | RToolStarted x => Some {| tsr_base := lr_base r; tsr := x |}
  | _ => None
  end.
Definition as_step_attempt (r : LaneRecord) : option (Z * StepAttempt) :=
  match lr_body r with RStepAttempt x => Some (lr_seq r, x) | _ => None end.
Definition as_checkpoint (r : LaneRecord) : option AssistantCheckpoint :=
  match lr_body r with RAssistantCheckpoint x => Some x | _ => None end.

(** ** Queries, log items, errors *)

Inductive EntryOrder := newestFirst | oldestFirst.

Record EntryQuery := { q_type : option entry_type; q_customType : option string;
                       q_order : option EntryOrder; q_limit : option number;
                       q_cursor : option number }.
Record BranchBounds := { b_stopAtType : option entry_type; b_stopAtId : option string }.
Record RecordQuery := { rq_lane : option string; rq_type : option record_type;
                        rq_runId : option string; rq_operationKind : option operation_kind;
                        rq_afterSeq : option number; rq_order : option EntryOrder;
                        rq_limit : option number }.
Record LogOptions := { lo_afterSeq : option number; lo_limit : option number }.

Record SessionMetadata := { sm_id : string; sm_createdAt : Z;
                            sm_parentSessionId : option string }.
Record SessionStats := { messageCount : number; cachedTokens : number; uncachedTokens : number;
                         totalTokens : number; costTotal : number }.
Record LanePointer := { lp_lane : string; lp_leafId : option string }.

Inductive LogItem :=
| LogEntry (seq : Z) (entry : Entry)
| LogRecord (seq : Z) (record : LaneRecord)
| LogLane (seq : Z) (lane : string) (leafId : option string)
| LogName (seq : Z) (name : option string)
| LogLabel (seq : Z) (targetId : string) (label : option string).

Definition log_seq (i : LogItem) : Z :=
  match i with
  | LogEntry s _ | LogRecord s _ | LogLane s _ _ | LogName s _ | LogLabel s _ _ => s
  end.

Inductive ForkPosition := PosBefore | PosAt.
Inductive ForkOptions :=
| ForkBranch (entryId : option string) (position : option ForkPosition)
| ForkTree.

Inductive SessionErrorCode :=
| not_found | already_exists | invalid_entry | invalid_payload | invalid_lane | invalid_query
| invalid_fork_target | storage_error.
Record SessionError := { se_code : SessionErrorCode; se_message : string }.

#[export] Instance entry_type_eq_dec : EqDecision entry_type.
Proof. solve_decision. Defined.
#[export] Instance record_type_eq_dec : EqDecision record_type.
Proof. solve_decision. Defined.
#[export] Instance operation_kind_eq_dec : EqDecision operation_kind.
Proof. solve_decision. Defined.
#[export] Instance step_kind_eq_dec : EqDecision step_kind.
Proof. solve_decision. Defined.
#[export] Instance queue_kind_eq_dec : EqDecision queue_kind.
Proof. solve_decision. Defined.
#[export] Instance StopReason_eq_dec : EqDecision StopReason.
Proof. solve_decision. Defined.
#[export] Instance EntryOrder_eq_dec : EqDecision EntryOrder.
Proof. solve_decision. Defined.
