(* ===== verification/JsText.v ===== *)
(** * Bytes, strings and UTF-8

    A [Uint8Array] is a list of integers 0..255 and a JavaScript string a list of
    UTF-16 code units.  [TextEncoder.encode] and the fatal [TextDecoder] of
    packages/protocol/src/cbor/options.ts are the language's own functions,
    defined here after the Encoding standard. *)
From S2P Require Import Prelude.

#[local] Ltac Zify.zify_post_hook ::= Z.to_euclidean_division_equations.

Definition bytes := list Z.
Definition byte_ok (b : Z) : Prop := 0 <= b < 256.
Definition jsstring := list Z.

Definition is_high (u : Z) : bool := (55296 <=? u) && (u <=? 56319).
Definition is_low (u : Z) : bool := (56320 <=? u) && (u <=? 57343).

(** Unicode scalar values. *)
Definition is_scalar (c : Z) : bool :=
  (0 <=? c) && (c <=? 1114111) && negb ((55296 <=? c) && (c <=? 57343)).

(** The code points of a string, an unpaired surrogate read as U+FFFD. *)
Fixpoint scalars (s : jsstring) : list Z :=
  match s with
  | [] => []
  | a :: s' =>
      if is_high a then
        match s' with
        | b :: s'' => if is_low b then (65536 + (a - 55296) * 1024 + (b - 56320)) :: scalars s''
                      else 65533 :: scalars s'
        | [] => [65533]
        end
      else if is_low a then 65533 :: scalars s'
      else a :: scalars s'
  end.

Definition units_of (c : Z) : jsstring :=
  if c <? 65536 then [c]
  else [55296 + (c - 65536) / 1024; 56320 + (c - 65536) mod 1024].
Definition units (cs : list Z) : jsstring := concat (units_of <$> cs).

Definition utf8_of (c : Z) : bytes :=
  if c <? 128 then [c]
  else if c <? 2048 then [192 + c / 64; 128 + c mod 64]
  else if c <? 65536 then [224 + c / 4096; 128 + (c / 64) mod 64; 128 + c mod 64]
  else [240 + c / 262144; 128 + (c / 4096) mod 64; 128 + (c / 64) mod 64; 128 + c mod 64].
Definition utf8 (cs : list Z) : bytes := concat (utf8_of <$> cs).

(** [new TextEncoder().encode(s)] *)
Definition text_encode (s : jsstring) : bytes := utf8 (scalars s).

Definition is_cont (b : Z) : bool := (128 <=? b) && (b <=? 191).

(** One code point of strict UTF-8: no overlong forms, no surrogates. *)
Definition utf8_next (bs : bytes) : option (Z * bytes) :=
  match bs with
  | [] => None
  | a :: r =>
      if a <? 128 then Some (a, r)
      else if (192 <=? a) && (a <=? 223) then
        match r with
        | b :: r => if is_cont b && (2 <=? a - 192) then Some ((a - 192) * 64 + (b - 128), r) else None
        | _ => None
        end
      else if (224 <=? a) && (a <=? 239) then
        match r with
        | b :: c :: r =>
            let cp := (a - 224) * 4096 + (b - 128) * 64 + (c - 128) in
            if is_cont b && is_cont c && (2048 <=? cp) && is_scalar cp then Some (cp, r) else None
        | _ => None
        end
      else if (240 <=? a) && (a <=? 247) then
        match r with
        | b :: c :: d :: r =>
            let cp := (a - 240) * 262144 + (b - 128) * 4096 + (c - 128) * 64 + (d - 128) in
            if is_cont b && is_cont c && is_cont d && (65536 <=? cp) && is_scalar cp
            then Some (cp, r) else None
        | _ => None
        end
      else None
  end.

Fixpoint utf8_loop (fuel : nat) (bs : bytes) : option (list Z) :=
  match bs with
  | [] => Some []
  | _ => match fuel with
         | O => None
         | S fuel' =>
             match utf8_next bs with
             | Some (c, rest) => cs ← utf8_loop fuel' rest; Some (c :: cs)
             | None => None
             end
         end
  end.
(** [new TextDecoder("utf-8", { fatal: true, ignoreBOM: true }).decode(bs)] *)
Definition text_decode (bs : bytes) : option jsstring := units <$> utf8_loop (length bs) bs.

(** ** Round trips *)

Lemma is_scalar_spec c :
  is_scalar c = true <-> 0 <= c <= 1114111 /\ ~ (55296 <= c <= 57343).
Proof. unfold is_scalar. rewrite !andb_true_iff, negb_true_iff, andb_false_iff. lia. Qed.

Lemma utf8_of_bytes c : is_scalar c = true -> Forall byte_ok (utf8_of c).
Proof.
  rewrite is_scalar_spec. unfold utf8_of, byte_ok. intros Hc.
  repeat (case_match; [repeat constructor; lia|]). repeat constructor; lia.
Qed.
Lemma utf8_of_nonempty c : utf8_of c <> [].
Proof. unfold utf8_of. by repeat case_match. Qed.

Ltac bool_lia :=
  unfold is_cont;
  rewrite ?andb_true_iff, ?andb_false_iff, ?Z.leb_le, ?Z.leb_gt, ?Z.ltb_lt, ?Z.ltb_ge; lia.

Lemma utf8_next_of c r : is_scalar c = true -> utf8_next (utf8_of c ++ r) = Some (c, r).
Proof.
  intros Hs. pose proof Hs as Hc. rewrite is_scalar_spec in Hc. unfold utf8_of.
  destruct (Z.ltb_spec c 128); simpl.
  { by rewrite (proj2 (Z.ltb_lt c 128)) by lia. }
  destruct (Z.ltb_spec c 2048); simpl; unfold is_cont.
  { rewrite (proj2 (Z.ltb_ge _ _)) by lia.
    replace ((192 <=? 192 + c / 64) && (192 + c / 64 <=? 223)) with true by (symmetry; bool_lia).
    replace ((128 <=? 128 + c mod 64) && (128 + c mod 64 <=? 191) && (2 <=? 192 + c / 64 - 192))
      with true by (symmetry; bool_lia).
    repeat f_equal. lia. }
  destruct (Z.ltb_spec c 65536); simpl.
  { rewrite (proj2 (Z.ltb_ge _ _)) by lia.
    replace ((192 <=? 224 + c / 4096) && (224 + c / 4096 <=? 223)) with false by (symmetry; bool_lia).
    replace ((224 <=? 224 + c / 4096) && (224 + c / 4096 <=? 239)) with true by (symmetry; bool_lia).
    replace ((224 + c / 4096 - 224) * 4096 + (128 + (c / 64) mod 64 - 128) * 64 + (128 + c mod 64 - 128))
      with c by lia.
    rewrite Hs. replace (_ && _ && _ && true) with true; [done|]. symmetry. bool_lia. }
  rewrite (proj2 (Z.ltb_ge _ _)) by lia.
  replace ((192 <=? 240 + c / 262144) && (240 + c / 262144 <=? 223)) with false by (symmetry; bool_lia).
  replace ((224 <=? 240 + c / 262144) && (240 + c / 262144 <=? 239)) with false by (symmetry; bool_lia).
  replace ((240 <=? 240 + c / 262144) && (240 + c / 262144 <=? 247)) with true by (symmetry; bool_lia).
  replace ((240 + c / 262144 - 240) * 262144 + (128 + (c / 4096) mod 64 - 128) * 4096
           + (128 + (c / 64) mod 64 - 128) * 64 + (128 + c mod 64 - 128)) with c by lia.
  rewrite Hs. replace (_ && _ && _ && _ && true) with true; [done|]. symmetry. bool_lia.
Qed.

Lemma utf8_loop_of cs fuel :
  Forall (fun c => is_scalar c = true) cs -> (length (utf8 cs) <= fuel)%nat ->
  utf8_loop fuel (utf8 cs) = Some cs.
Proof.
  unfold utf8. revert fuel. induction cs as [|c cs IH]; intros fuel Hall Hfuel; csimpl in *.
  - by destruct fuel.
  - apply Forall_cons in Hall as [Hc Hall]. rewrite length_app in Hfuel.
    pose proof (utf8_of_nonempty c) as Hne.
    destruct fuel as [|fuel]; [destruct (utf8_of c); simpl in *; [done|lia]|].
    simpl. destruct (utf8_of c ++ concat (utf8_of <$> cs)) as [|b bs] eqn:Heq.
    { apply app_nil in Heq as [? _]. done. }
    rewrite <-Heq, utf8_next_of by done. rewrite IH; [done|done|].
    destruct (utf8_of c); simpl in *; [done|lia].
Qed.

Lemma scalars_cons a s' :
  scalars (a :: s') =
  if is_high a then
    match s' with
    | b :: s'' => if is_low b then (65536 + (a - 55296) * 1024 + (b - 56320)) :: scalars s''
                  else 65533 :: scalars s'
    | [] => [65533]
    end
  else if is_low a then 65533 :: scalars s'
  else a :: scalars s'.
Proof. done. Qed.

Lemma scalars_valid s : Forall (fun u => 0 <= u < 65536) s -> Forall (fun c => is_scalar c = true) (scalars s).
Proof.
  assert (Hgen : forall n s, (length s <= n)%nat -> Forall (fun u => 0 <= u < 65536) s ->
    Forall (fun c => is_scalar c = true) (scalars s)); [|intros; by eapply Hgen].
  induction n as [|n IH]; intros [|a s'] Hn Hs; try constructor; simpl in Hn; [lia|].
  apply Forall_cons in Hs as [Ha Hs]. rewrite scalars_cons.
  assert (Hrest : forall c, is_scalar c = true ->
    Forall (fun c => is_scalar c = true) (c :: scalars s')).
  { intros c Hc. constructor; [done|]. apply IH; [lia|done]. }
  assert (Hrep : is_scalar 65533 = true) by done.
  unfold is_high, is_low.
  destruct ((55296 <=? a) && (a <=? 56319)) eqn:Hh.
  - destruct s' as [|b s'']; [by repeat constructor|].
    apply Forall_cons in Hs as [Hb Hs]. simpl in Hn.
    destruct ((56320 <=? b) && (b <=? 57343)) eqn:Hl; [|by apply Hrest].
    constructor; [|apply IH; [lia|done]].
    rewrite !andb_true_iff, !Z.leb_le in *. rewrite is_scalar_spec. lia.
  - destruct ((56320 <=? a) && (a <=? 57343)) eqn:Hl; [by apply Hrest|]. apply Hrest.
    rewrite is_scalar_spec. rewrite !andb_false_iff, !Z.leb_gt in *. lia.
Qed.

(** A fatal decoder reads back what the encoder wrote, unpaired surrogates
    replaced. *)
Lemma text_decode_encode s :
  Forall (fun u => 0 <= u < 65536) s -> text_decode (text_encode s) = Some (units (scalars s)).
Proof.
  intros Hs. unfold text_decode, text_encode. rewrite utf8_loop_of; [done| |lia].
  by apply scalars_valid.
Qed.

Lemma text_encode_bytes s : Forall (fun u => 0 <= u < 65536) s -> Forall byte_ok (text_encode s).
Proof.
  intros Hs%scalars_valid. unfold text_encode, utf8.
  induction Hs as [|c cs Hc Hcs IH]; csimpl; [constructor|].
  apply Forall_app. split; [by apply utf8_of_bytes|done].
Qed.

Lemma units_of_range c : is_scalar c = true -> Forall (fun u => 0 <= u < 65536) (units_of c).
Proof.
  rewrite is_scalar_spec. unfold units_of. intros Hc.
  destruct (Z.ltb_spec c 65536); repeat constructor; lia.
Qed.
Lemma units_range cs : Forall (fun c => is_scalar c = true) cs -> Forall (fun u => 0 <= u < 65536) (units cs).
Proof.
  unfold units. induction 1; csimpl; [constructor|]. apply Forall_app. split; [by apply units_of_range|done].
Qed.

Lemma scalars_units cs : Forall (fun c => is_scalar c = true) cs -> scalars (units cs) = cs.
Proof.
  unfold units. induction 1 as [|c cs Hc Hcs IH]; csimpl; [done|].
  rewrite is_scalar_spec in Hc. unfold units_of at 1.
  destruct (Z.ltb_spec c 65536); cbn [app]; rewrite scalars_cons; unfold is_high, is_low.
  - replace ((55296 <=? c) && (c <=? 56319)) with false by (symmetry; bool_lia).
    replace ((56320 <=? c) && (c <=? 57343)) with false by (symmetry; bool_lia).
    by rewrite IH.
  - replace (_ && _) with true by (symmetry; bool_lia).
    replace (_ && _) with true by (symmetry; bool_lia).
    rewrite IH. f_equal. lia.
Qed.

(** Strict decoding is injective: the bytes are the encoding of the result. *)
Lemma utf8_next_sound bs c r :
  Forall byte_ok bs -> utf8_next bs = Some (c, r) ->
  bs = utf8_of c ++ r /\ is_scalar c = true /\ Forall byte_ok r.
Proof.
  destruct bs as [|a bs]; [done|]. intros Hb. apply Forall_cons in Hb as [Ha Hb]. unfold byte_ok in Ha.
  simpl. destruct (Z.ltb_spec a 128).
  { intros [= <- <-]. unfold utf8_of. rewrite (proj2 (Z.ltb_lt a 128)) by lia.
    split; [done|]. rewrite is_scalar_spec. split; [lia|done]. }
  destruct ((192 <=? a) && (a <=? 223)) eqn:H1.
  { destruct bs as [|b bs]; [done|]. apply Forall_cons in Hb as [Hb Hbs].
    destruct (is_cont b && (2 <=? a - 192)) eqn:H2; [|done]. intros [= <- <-].
    unfold is_cont in H2. rewrite !andb_true_iff, !Z.leb_le in *.
    set (cp := (a - 192) * 64 + (b - 128)). assert (128 <= cp < 2048) by lia.
    unfold utf8_of. rewrite (proj2 (Z.ltb_ge cp 128)), (proj2 (Z.ltb_lt cp 2048)) by lia.
    split_and!; [simpl; f_equal; [lia|f_equal; lia]|rewrite is_scalar_spec; lia|done]. }
  destruct ((224 <=? a) && (a <=? 239)) eqn:H3.
  { destruct bs as [|b [|d bs]]; [done|done|]. apply Forall_cons in Hb as [Hb Hbs].
    apply Forall_cons in Hbs as [Hd Hbs].
    set (cp := (a - 224) * 4096 + (b - 128) * 64 + (d - 128)).
    destruct (is_cont b && is_cont d && (2048 <=? cp) && is_scalar cp) eqn:H2; [|done].
    intros [= <- <-]. unfold is_cont in H2. rewrite !andb_true_iff, !Z.leb_le in *.
    assert (cp < 65536) by lia. unfold utf8_of.
    rewrite (proj2 (Z.ltb_ge cp 128)), (proj2 (Z.ltb_ge cp 2048)), (proj2 (Z.ltb_lt cp 65536)) by lia.
    split_and!; [|tauto|done]. simpl. f_equal; [lia|]. f_equal; [lia|]. f_equal. lia. }
  destruct ((240 <=? a) && (a <=? 247)) eqn:H4; [|done].
  destruct bs as [|b [|d [|e bs]]]; [done|done|done|].
  apply Forall_cons in Hb as [Hb Hbs]. apply Forall_cons in Hbs as [Hd Hbs].
  apply Forall_cons in Hbs as [He Hbs].
  set (cp := (a - 240) * 262144 + (b - 128) * 4096 + (d - 128) * 64 + (e - 128)).
  destruct (is_cont b && is_cont d && is_cont e && (65536 <=? cp) && is_scalar cp) eqn:H2; [|done].
  intros [= <- <-]. unfold is_cont in H2. rewrite !andb_true_iff, !Z.leb_le in *.
  unfold utf8_of.
  rewrite (proj2 (Z.ltb_ge cp 128)), (proj2 (Z.ltb_ge cp 2048)), (proj2 (Z.ltb_ge cp 65536)) by lia.
  split_and!; [|tauto|done]. simpl. f_equal; [lia|]. f_equal; [lia|]. f_equal; [lia|]. f_equal. lia.
Qed.

Lemma utf8_loop_sound fuel bs cs :
  Forall byte_ok bs -> utf8_loop fuel bs = Some cs ->
  bs = utf8 cs /\ Forall (fun c => is_scalar c = true) cs.
Proof.
  revert bs cs. induction fuel as [|fuel IH]; intros bs cs Hb H.
  - destruct bs; [|done]. simpl in H. by injection H as <-.
  - destruct bs as [|b bs]; cbn [utf8_loop] in H; [by injection H as <-|].
    destruct (utf8_next (b :: bs)) as [[c r]|] eqn:Hn; [|done].
    apply utf8_next_sound in Hn as (Heq & Hc & Hr); [|done].
    destruct (utf8_loop fuel r) as [cs'|] eqn:Hl; [|done]. simpl in H. injection H as <-.
    destruct (IH _ _ Hr Hl) as [-> Hcs]. rewrite Heq. split; [done|by constructor].
Qed.

(** A string a fatal decoder can produce. *)
Definition well_formed (s : jsstring) : Prop :=
  Forall (fun u => 0 <= u < 65536) s /\ units (scalars s) = s.

Lemma text_decode_sound bs s :
  Forall byte_ok bs -> text_decode bs = Some s -> well_formed s /\ text_encode s = bs.
Proof.
  intros Hb H. unfold text_decode in H. destruct (utf8_loop (length bs) bs) as [cs|] eqn:Hl; [|done].
  simpl in H. injection H as <-. destruct (utf8_loop_sound _ _ _ Hb Hl) as [-> Hcs].
  unfold well_formed, text_encode. rewrite scalars_units by done.
  split; [|done]. split; [by apply units_range|done].
Qed.
Lemma text_decode_encode_wf s : well_formed s -> text_decode (text_encode s) = Some s.
Proof. intros [Hr Hs]. by rewrite text_decode_encode, Hs. Qed.
