(* ===== verification/JsValue.v ===== *)
(** * JavaScript values as object graphs

    What the wire codec sees of a value of unknown type: primitives, byte arrays
    and references into a heap of arrays and plain objects.  Sharing and cycles
    are references to the same location.  Properties are data properties, listed
    in the order [Object.keys] gives them: array indices first, ascending, then
    the others as they were created. *)
From S2P Require Import Prelude JsNumber JsText.

Inductive js_error :=
| CborError (message : string)
| FrameError (message : string)
| RangeError (message : string)
| TypeError (message : string)
| ProtocolValidationError (message : string)
| StepBound.

Abbreviation js_loc := nat (only parsing).

Inductive jsval :=
| VUndefined
| VNull
| VBool (b : bool)
| VNumber (n : number)
| VString (s : jsstring)
| VBytes (b : bytes)
| VObject (l : js_loc)
| VOther (typeof : string).

(** A hole of an array is [None].  [symbols]: the object has an enumerable
    symbol-keyed property.  [OExotic]: neither an array nor a plain object. *)
Inductive heap_object :=
| OArray (items : list (option jsval))
| OPlain (null_prototype symbols : bool) (props : list (jsstring * jsval))
| OExotic.

Abbreviation js_heap := (gmap nat heap_object) (only parsing).
Definition deref (h : js_heap) (l : js_loc) : heap_object := default OExotic (h !! l).

(** A finite value without sharing, as the decoder builds them. *)
Inductive cval :=
| CNull
| CBool (b : bool)
| CNumber (n : number)
| CString (s : jsstring)
| CBytes (b : bytes)
| CArray (items : list cval)
| CMap (props : list (jsstring * cval)).

Section cval_ind.
Variable P : cval -> Prop.
Hypothesis HNull : P CNull.
Hypothesis HBool : forall b, P (CBool b).
Hypothesis HNumber : forall n, P (CNumber n).
Hypothesis HString : forall s, P (CString s).
Hypothesis HBytes : forall b, P (CBytes b).
Hypothesis HArray : forall items, Forall P items -> P (CArray items).
Hypothesis HMap : forall props, Forall (fun kv => P kv.2) props -> P (CMap props).

(** Induction that reaches the components of arrays and maps. *)
Fixpoint cval_nested_ind (t : cval) : P t :=
  match t with
  | CNull => HNull
  | CBool b => HBool b
  | CNumber n => HNumber n
  | CString s => HString s
  | CBytes b => HBytes b
  | CArray items =>
      HArray items ((fix go l : Forall P l :=
        match l with [] => Forall_nil_2 _ | x :: l' => Forall_cons_2 _ x l' (cval_nested_ind x) (go l') end) items)
  | CMap props =>
      HMap props ((fix go l : Forall (fun kv => P kv.2) l :=
        match l with [] => Forall_nil_2 _ | kv :: l' => Forall_cons_2 _ kv l' (cval_nested_ind kv.2) (go l') end) props)
  end.
End cval_ind.

(** ** Property order *)

Definition is_digit (u : Z) : bool := (48 <=? u) && (u <=? 57).

(** The array index a key denotes, if any: decimal digits, no leading zero, at
    most 2^32 - 2. *)
Definition array_index (k : jsstring) : option Z :=
  match k with
  | [] => None
  | d :: rest =>
      let n := foldl (fun a u => a * 10 + (u - 48)) 0 k in
      if forallb is_digit k && ((zlen k =? 1) || negb (d =? 48)) && (n <=? 4294967294)
      then Some n else None
  end.
Definition key_rank (k : jsstring) : Z := default 4294967295 (array_index k).

(** The order in which an object built by defining [props] one after the other
    lists them. *)
Definition own_order {A} (props : list (jsstring * A)) : list (jsstring * A) :=
  sort_by (fun kv => key_rank kv.1) props.

(** What the engine guarantees of every heap: numbers are binary64 values,
    strings and byte arrays hold units and bytes, the properties of an object have
    distinct keys in [Object.keys] order. *)
Definition prim_wf (v : jsval) : Prop :=
  match v with
  | VNumber n => num_wf n = true
  | VString s => Forall (fun u => 0 <= u < 65536) s
  | VBytes b => Forall byte_ok b
  | _ => True
  end.
Definition object_wf (o : heap_object) : Prop :=
  match o with
  | OArray items => forall v, Some v ∈ items -> prim_wf v
  | OPlain _ _ props =>
      NoDup props.*1 /\ own_order props = props /\
      forall k v, (k, v) ∈ props -> Forall (fun u => 0 <= u < 65536) k /\ prim_wf v
  | OExotic => True
  end.
Definition heap_wf (h : js_heap) : Prop := forall l o, h !! l = Some o -> object_wf o.
