(* ===== verification/JsonNumber.v ===== *)
(** * Decimal text of numbers

    [Number::toString] for radix 10 and the numeric value of a decimal literal, after
    ECMA-262: the engine's functions behind [JSON.stringify] and [JSON.parse].
    Positive rationals are pairs of integers; a rational is rounded to the nearest
    binary64 value, ties to even. *)
From Stdlib Require Import SpecFloat.
From S2P Require Import Prelude JsNumber JsText.

(** ** Rounding a rational *)

(** [den * 2^e <= num] *)
Definition ratio_ge (num den e : Z) : bool :=
  if 0 <=? e then den * 2 ^ e <=? num else den <=? num * 2 ^ (- e).
(** The exponent of the largest power of two not above [num / den]. *)
Definition ratio_log2 (num den : Z) : Z :=
  let e := Z.log2 num - Z.log2 den in if ratio_ge num den e then e else e - 1.

Definition round_ratio (num den : Z) : number :=
  let e := Z.max (ratio_log2 num den - 52) (-1074) in
  let n := if 0 <=? e then num else num * 2 ^ (- e) in
  let d := if 0 <=? e then den * 2 ^ e else den in
  let q := n / d in
  let r := n mod d in
  let q := if (d <? 2 * r) || ((2 * r =? d) && Z.odd q) then q + 1 else q in
  let '(q, e) := if q =? 2 ^ 53 then (2 ^ 52, e + 1) else (q, e) in
  if 971 <? e then S754_infinity false
  else match q with Zpos m => S754_finite false m e | _ => S754_zero false end.

(** [s * 10^x] for a natural number [s]. *)
Definition num_of_decimal (s x : Z) : number :=
  if s <=? 0 then S754_zero false
  else if 0 <=? x then round_ratio (s * 10 ^ x) 1 else round_ratio s (10 ^ (- x)).

(** ** The shortest decimal *)

Definition num_same (a b : number) : bool :=
  match a, b with
  | S754_finite s m e, S754_finite s' m' e' => eqb s s' && (Zpos m =? Zpos m') && (e =? e')
  | _, _ => false
  end.

(** The largest [x] at most the first one tried for which a multiple of [10^x]
    rounds to [n = num / den], and the multiple nearest to it. *)
Fixpoint shortest (fuel : nat) (n : number) (num den x : Z) : option (Z * Z) :=
  match fuel with
  | O => None
  | S fuel' =>
      let a := if 0 <=? x then num else num * 10 ^ (- x) in
      let d := if 0 <=? x then den * 10 ^ x else den in
      let lo := a / d in
      let r := a mod d in
      let ok c := (0 <? c) && num_same (num_of_decimal c x) n in
      match ok lo, ok (lo + 1) with
      | true, true => Some (if (d <? 2 * r) || ((2 * r =? d) && Z.odd lo) then lo + 1 else lo, x)
      | true, false => Some (lo, x)
      | false, true => Some (lo + 1, x)
      | false, false => shortest fuel' n num den (x - 1)
      end
  end.

(** More decimal places than the integer part of [m * 2^e] has. *)
Definition decimal_places (m : positive) (e : Z) : Z := Z.max 0 ((Z.log2 (Zpos m) + 1 + e) / 3 + 1).

Definition shortest_decimal (m : positive) (e : Z) : option (Z * Z) :=
  let num := if 0 <=? e then Zpos m * 2 ^ e else Zpos m in
  let den := if 0 <=? e then 1 else 2 ^ (- e) in
  let top := decimal_places m e in
  shortest (S (Z.to_nat (top - Z.min e 0))) (S754_finite false m e) num den top.

(** ** Layout *)

Fixpoint digits_loop (fuel : nat) (s : Z) (acc : jsstring) : jsstring :=
  match fuel with
  | O => acc
  | S fuel' => if s <? 10 then (48 + s) :: acc else digits_loop fuel' (s / 10) ((48 + s mod 10) :: acc)
  end.
Definition digits (s : Z) : jsstring := digits_loop (S (Z.to_nat (Z.log2 s))) s [].

Definition zeros (n : Z) : jsstring := replicate (Z.to_nat n) 48.

Definition exponent_text (e : Z) : jsstring := 101 :: (if e <? 0 then 45 else 43) :: digits (Z.abs e).

(** The text of [s * 10^x]. *)
Definition layout (s x : Z) : jsstring :=
  let ds := digits s in
  let k := zlen ds in
  let n := x + k in
  if (k <=? n) && (n <=? 21) then ds ++ zeros (n - k)
  else if (0 <? n) && (n <=? 21) then take (Z.to_nat n) ds ++ 46 :: drop (Z.to_nat n) ds
  else if (-6 <? n) && (n <=? 0) then 48 :: 46 :: zeros (- n) ++ ds
  else match ds with
       | [d] => d :: exponent_text (n - 1)
       | d :: ds' => d :: 46 :: ds' ++ exponent_text (n - 1)
       | [] => []
       end.

(** [String(n)] of a finite number. *)
Definition num_text (n : number) : option jsstring :=
  match n with
  | S754_zero _ => Some [48]
  | S754_finite s m e =>
      '(d, x) ← shortest_decimal m e;
      Some ((if s then [45] else []) ++ layout d x)
  | _ => None
  end.

(** ** Reading a JSON number *)

Definition is_dec (u : Z) : bool := (48 <=? u) && (u <=? 57).

(** The longest run of digits. *)
Fixpoint span_digits (s : jsstring) : jsstring * jsstring :=
  match s with
  | u :: s' => if is_dec u then let '(ds, r) := span_digits s' in (u :: ds, r) else ([], s)
  | [] => ([], [])
  end.
Definition digits_value (ds : jsstring) : Z := foldl (fun a u => a * 10 + (u - 48)) 0 ds.

(** [frac?] and [exp?]: the digits of the fraction and the exponent. *)
Definition parse_frac (s : jsstring) : option (jsstring * jsstring) :=
  match s with
  | u :: s' => if u =? 46 then
                 match span_digits s' with ([], _) => None | (ds, r) => Some (ds, r) end
               else Some ([], s)
  | [] => Some ([], [])
  end.
Definition parse_exp (s : jsstring) : option (Z * jsstring) :=
  match s with
  | u :: s' =>
      if (u =? 101) || (u =? 69) then
        let '(sign, s'') := match s' with
                            | v :: s'' => if v =? 43 then (1, s'') else if v =? 45 then (-1, s'') else (1, s')
                            | [] => (1, s')
                            end in
        match span_digits s'' with ([], _) => None | (ds, r) => Some (sign * digits_value ds, r) end
      else Some (0, s)
  | [] => Some (0, [])
  end.

Definition num_neg (n : number) : number :=
  match n with
  | S754_zero s => S754_zero (negb s)
  | S754_infinity s => S754_infinity (negb s)
  | S754_finite s m e => S754_finite (negb s) m e
  | S754_nan => S754_nan
  end.

(** An unsigned literal, [digits * 10^x]. *)
Definition parse_parts (s : jsstring) : option (Z * Z * jsstring) :=
  match span_digits s with
  | ([], _) => None
  | (d :: ds, r) =>
      if (d =? 48) && negb (bool_decide (ds = [])) then None else
      '(fs, r) ← parse_frac r;
      '(e, r) ← parse_exp r;
      Some (digits_value (d :: ds ++ fs), e - zlen fs, r)
  end.

Definition parse_number (s : jsstring) : option (number * jsstring) :=
  let '(negative, s) := match s with
                        | u :: s' => if u =? 45 then (true, s') else (false, s)
                        | [] => (false, s)
                        end in
  '(d, x, r) ← parse_parts s;
  Some (if (negative : bool) then num_neg (num_of_decimal d x) else num_of_decimal d x, r).
