(* ===== verification/JsonText.v ===== *)
(** * JSON text

    [JSON.stringify] and [JSON.parse] on finite values, after ECMA-262.  A text is a
    list of UTF-16 code units.  The strings of the session data model hold code
    units in the generalised UTF-8 form ([of_js]), so that every JavaScript string
    has exactly one representation. *)
From Stdlib Require Import SpecFloat.
From S2P Require Import Prelude JsNumber SessionTypes JsText JsValue JsonNumber.

(** ** Strings of the data model *)

Definition unit_bytes (u : Z) : list Z :=
  if u <? 128 then [u]
  else if u <? 2048 then [192 + u / 64; 128 + u mod 64]
  else [224 + u / 4096; 128 + (u / 64) mod 64; 128 + u mod 64].
Definition string_of_bytes (bs : list Z) : string :=
  String.string_of_list_ascii ((fun b => Ascii.ascii_of_N (Z.to_N b)) <$> bs).
Definition bytes_of_string (s : string) : list Z :=
  (fun a => Z.of_N (Ascii.N_of_ascii a)) <$> String.list_ascii_of_string s.

(** The string holding the code units [u]. *)
Definition of_js (u : jsstring) : string := string_of_bytes (concat (unit_bytes <$> u)).

Fixpoint units_of_bytes (bs : list Z) : jsstring :=
  match bs with
  | [] => []
  | a :: r =>
      if a <? 128 then a :: units_of_bytes r else
      match r with
      | [] => [a]
      | b :: r' =>
          if (192 <=? a) && (a <=? 223) && is_cont b then ((a - 192) * 64 + (b - 128)) :: units_of_bytes r' else
          match r' with
          | [] => a :: units_of_bytes r
          | c :: r'' =>
              if (224 <=? a) && (a <=? 239) && is_cont b && is_cont c
              then ((a - 224) * 4096 + (b - 128) * 64 + (c - 128)) :: units_of_bytes r''
              else a :: units_of_bytes r
          end
      end
  end.
(** The code units a string holds. *)
Definition js (s : string) : jsstring := units_of_bytes (bytes_of_string s).

(** A string that is the representation of its code units. *)
Definition str_ok (s : string) : bool := String.eqb (of_js (js s)) s.

(** ** [JSON.stringify] *)

Definition hex_digit (d : Z) : Z := if d <? 10 then 48 + d else 87 + d.
Definition unicode_escape (u : Z) : jsstring :=
  [92; 117; hex_digit (u / 4096); hex_digit (u / 256 mod 16); hex_digit (u / 16 mod 16); hex_digit (u mod 16)].

(** A code unit that is not half of a surrogate pair. *)
Definition quote_unit (u : Z) : jsstring :=
  if u =? 8 then [92; 98] else if u =? 9 then [92; 116] else if u =? 10 then [92; 110]
  else if u =? 12 then [92; 102] else if u =? 13 then [92; 114]
  else if u =? 34 then [92; 34] else if u =? 92 then [92; 92]
  else if (u <? 32) || is_high u || is_low u then unicode_escape u
  else [u].
Fixpoint quote_units (s : jsstring) : jsstring :=
  match s with
  | [] => []
  | a :: s' =>
      if is_high a then
        match s' with
        | b :: s'' => if is_low b then a :: b :: quote_units s'' else quote_unit a ++ quote_units s'
        | [] => quote_unit a
        end
      else quote_unit a ++ quote_units s'
  end.
Definition quote (s : jsstring) : jsstring := 34 :: quote_units s ++ [34].

Definition null_text : jsstring := [110; 117; 108; 108].
Definition true_text : jsstring := [116; 114; 117; 101].
Definition false_text : jsstring := [102; 97; 108; 115; 101].

(** Items separated by commas. *)
Fixpoint commas (items : list jsstring) : jsstring :=
  match items with
  | [] => []
  | [t] => t
  | t :: items' => t ++ 44 :: commas items'
  end.

Fixpoint JSON_stringify (v : json) : jsstring :=
  match v with
  | JsonNull => null_text
  | JsonBool b => if b then true_text else false_text
  | JsonNumber n => default null_text (num_text n)
  | JsonString s => quote (js s)
  | JsonArray items => 91 :: commas (JSON_stringify <$> items) ++ [93]
  | JsonObject props =>
      123 :: commas ((fun kv => quote (js kv.1) ++ 58 :: JSON_stringify kv.2) <$> props) ++ [125]
  end.

(** ** [JSON.parse] *)

Definition is_ws (u : Z) : bool := (u =? 32) || (u =? 9) || (u =? 10) || (u =? 13).
Fixpoint skip_ws (s : jsstring) : jsstring :=
  match s with u :: s' => if is_ws u then skip_ws s' else s | [] => [] end.

Definition hex_value (u : Z) : option Z :=
  if (48 <=? u) && (u <=? 57) then Some (u - 48)
  else if (97 <=? u) && (u <=? 102) then Some (u - 87)
  else if (65 <=? u) && (u <=? 70) then Some (u - 55)
  else None.
Definition simple_escape (u : Z) : option Z :=
  if u =? 34 then Some 34 else if u =? 92 then Some 92 else if u =? 47 then Some 47
  else if u =? 98 then Some 8 else if u =? 102 then Some 12 else if u =? 110 then Some 10
  else if u =? 114 then Some 13 else if u =? 116 then Some 9 else None.

(** The characters after the opening quote, up to the closing one. *)
Fixpoint parse_string (s : jsstring) : option (jsstring * jsstring) :=
  match s with
  | [] => None
  | u :: s' =>
      if u =? 34 then Some ([], s')
      else if u =? 92 then
        match s' with
        | v :: s'' =>
            if v =? 117 then
              match s'' with
              | a :: b :: c :: d :: s3 =>
                  a ← hex_value a; b ← hex_value b; c ← hex_value c; d ← hex_value d;
                  '(us, r) ← parse_string s3;
                  Some ((a * 4096 + b * 256 + c * 16 + d) :: us, r)
              | _ => None
              end
            else
              e ← simple_escape v;
              '(us, r) ← parse_string s'';
              Some (e :: us, r)
        | [] => None
        end
      else if u <? 32 then None
      else '(us, r) ← parse_string s'; Some (u :: us, r)
  end.

(** The rest of the text after a literal. *)
Fixpoint strip (lit s : jsstring) : option jsstring :=
  match lit, s with
  | [], _ => Some s
  | u :: lit', v :: s' => if u =? v then strip lit' s' else None
  | _ :: _, [] => None
  end.

(** The order in which an object lists its properties. *)
Definition json_order {A} (props : list (string * A)) : list (string * A) :=
  sort_by (fun kv => key_rank (js kv.1)) props.

(** The text after the character [c] and the white space before it. *)
Definition token (c : Z) (s : jsstring) : option jsstring :=
  match skip_ws s with u :: r => if u =? c then Some r else None | [] => None end.

(** Every two calls consume a character, so the length of the text bounds the calls. *)
Fixpoint parse_value (fuel : nat) (s : jsstring) : option (json * jsstring) :=
  match fuel with
  | O => None
  | S fuel' =>
      match skip_ws s with
      | [] => None
      | u :: r =>
          if u =? 123 then
            match token 125 r with
            | Some r' => Some (JsonObject [], r')
            | None => parse_members fuel' [] r
            end
          else if u =? 91 then
            match token 93 r with
            | Some r' => Some (JsonArray [], r')
            | None => parse_elements fuel' [] r
            end
          else if u =? 34 then '(us, r') ← parse_string r; Some (JsonString (of_js us), r')
          else if u =? 110 then r' ← strip null_text (u :: r); Some (JsonNull, r')
          else if u =? 116 then r' ← strip true_text (u :: r); Some (JsonBool true, r')
          else if u =? 102 then r' ← strip false_text (u :: r); Some (JsonBool false, r')
          else '(n, r') ← parse_number (u :: r); Some (JsonNumber n, r')
      end
  end
with parse_elements (fuel : nat) (items : list json) (s : jsstring) : option (json * jsstring) :=
  match fuel with
  | O => None
  | S fuel' =>
      '(v, r) ← parse_value fuel' s;
      match token 44 r with
      | Some r' => parse_elements fuel' (items ++ [v]) r'
      | None => r' ← token 93 r; Some (JsonArray (items ++ [v]), r')
      end
  end
with parse_members (fuel : nat) (props : jsmap string json) (s : jsstring) : option (json * jsstring) :=
  match fuel with
  | O => None
  | S fuel' =>
      r ← token 34 s;
      '(k, r) ← parse_string r;
      r ← token 58 r;
      '(v, r) ← parse_value fuel' r;
      let props := jm_set (of_js k) v props in
      match token 44 r with
      | Some r' => parse_members fuel' props r'
      | None => r' ← token 125 r; Some (JsonObject (json_order props), r')
      end
  end.

(** A text is one value and white space around it. *)
Definition JSON_parse (text : jsstring) : option json :=
  '(v, r) ← parse_value (S (2 * length text)) text;
  match skip_ws r with [] => Some v | _ => None end.

(** [String(n)] *)
Definition num_string (n : number) : string :=
  match n with
  | S754_nan => "NaN"
  | S754_infinity s => if s then "-Infinity" else "Infinity"
  | _ => of_js (default [] (num_text n))
  end.

(** ** Property access *)

(** A property of a value read as an object. *)
Fixpoint find_prop (k : string) (props : list (string * json)) : option json :=
  match props with
  | [] => None
  | (k', v) :: props' => if String.eqb k k' then Some v else find_prop k props'
  end.
Definition prop (v : json) (k : string) : option json :=
  match v with JsonObject props => find_prop k props | _ => None end.
