(* ===== verification/JsonTextTheorems.v ===== *)
(** * JSON text is read back

    First a number survives being written and read, then every finite value, on its text. *)
From Stdlib Require Import SpecFloat.
From S2P Require Import Prelude JsNumber SessionTypes JsText JsValue JsonNumber JsonText.

(** ** Rounding is exact on representable values *)

Lemma ratio_ge_shift num den N e :
  0 <= N -> 0 <= N + e -> (ratio_ge num den e = true <-> den * 2 ^ (N + e) <= num * 2 ^ N).
Proof.
  intros HN HNe. unfold ratio_ge. destruct (Z.leb_spec 0 e); rewrite Z.leb_le.
  - rewrite Z.pow_add_r by lia. replace (den * (2 ^ N * 2 ^ e)) with (den * 2 ^ e * 2 ^ N) by ring.
    apply Z.mul_le_mono_pos_r. apply Z.pow_pos_nonneg; lia.
  - replace (2 ^ N) with (2 ^ (- e) * 2 ^ (N + e)) by (rewrite <-Z.pow_add_r by lia; f_equal; lia).
    rewrite Z.mul_assoc. apply Z.mul_le_mono_pos_r. apply Z.pow_pos_nonneg; lia.
Qed.

Lemma ratio_ge_mono num den e e' :
  0 < den -> e' <= e -> ratio_ge num den e = true -> ratio_ge num den e' = true.
Proof.
  intros Hden Hle. rewrite (ratio_ge_shift _ _ (Z.abs e + Z.abs e') e), (ratio_ge_shift _ _ (Z.abs e + Z.abs e') e') by lia.
  intros H. etrans; [|exact H]. apply Z.mul_le_mono_nonneg_l; [lia|]. apply Z.pow_le_mono_r; lia.
Qed.

Lemma ratio_log2_unique num den k :
  0 < num -> 0 < den -> ratio_ge num den k = true -> ratio_ge num den (k + 1) = false -> ratio_log2 num den = k.
Proof.
  intros Hnum Hden Hk Hk1. unfold ratio_log2. set (e := Z.log2 num - Z.log2 den).
  pose proof (Z.log2_spec num Hnum) as [Hn1 Hn2]. pose proof (Z.log2_spec den Hden) as [Hd1 Hd2].
  pose proof (Z.log2_nonneg num). pose proof (Z.log2_nonneg den).
  assert (Hup : ratio_ge num den (e + 1) = false).
  { apply not_true_is_false. rewrite (ratio_ge_shift _ _ (Z.log2 den) (e + 1)) by lia.
    replace (Z.log2 den + (e + 1)) with (Z.succ (Z.log2 num)) by lia. intros Hle.
    assert (num * 2 ^ Z.log2 den < den * 2 ^ Z.succ (Z.log2 num)); [|lia].
    apply (Z.lt_le_trans _ (2 ^ Z.succ (Z.log2 num) * 2 ^ Z.log2 den)).
    - apply Z.mul_lt_mono_pos_r; [apply Z.pow_pos_nonneg; lia|done].
    - rewrite (Z.mul_comm den). apply Z.mul_le_mono_nonneg_l; [apply Z.pow_nonneg; lia|done]. }
  assert (Hlo : ratio_ge num den (e - 1) = true).
  { rewrite (ratio_ge_shift _ _ (Z.succ (Z.log2 den)) (e - 1)) by lia.
    replace (Z.succ (Z.log2 den) + (e - 1)) with (Z.log2 num) by lia.
    apply (Z.le_trans _ (2 ^ Z.succ (Z.log2 den) * 2 ^ Z.log2 num)).
    - apply Z.mul_le_mono_nonneg_r; [apply Z.pow_nonneg; lia|lia].
    - rewrite Z.mul_comm. apply Z.mul_le_mono_nonneg_r; [apply Z.pow_nonneg; lia|done]. }
  assert (Hlt : forall a b, ratio_ge num den a = true -> ratio_ge num den b = false -> a < b).
  { intros a b Ha Hb. apply Z.nle_gt. intros Hle. apply (ratio_ge_mono _ _ a b) in Ha; [congruence|done|done]. }
  pose proof (Hlt _ _ Hk Hup). pose proof (Hlt _ _ Hlo Hk1).
  destruct (ratio_ge num den e) eqn:He; [pose proof (Hlt _ _ He Hk1)|pose proof (Hlt _ _ Hk He)]; lia.
Qed.

Lemma round_ratio_exact m e num den :
  num_wf (S754_finite false m e) = true -> 0 < num -> 0 < den ->
  num * 2 ^ Z.max 0 (- e) = Zpos m * 2 ^ Z.max 0 e * den -> round_ratio num den = S754_finite false m e.
Proof.
  intros Hwf Hnum Hden Heq. destruct (num_wf_finite _ _ _ Hwf) as [He Hcase].
  assert (Hlog : ratio_log2 num den = Z.log2 (Zpos m) + e).
  { set (k := Z.log2 (Zpos m) + e). pose proof (Z.log2_spec (Zpos m) ltac:(lia)) as [H1 H2].
    pose proof (Z.log2_nonneg (Zpos m)). apply ratio_log2_unique; [done|done| |].
    - rewrite (ratio_ge_shift _ _ (Z.max 0 (- e)) k), Heq by (unfold k; lia).
      replace (Z.max 0 (- e) + k) with (Z.log2 (Zpos m) + Z.max 0 e) by (unfold k; lia).
      rewrite Z.pow_add_r by lia. rewrite (Z.mul_comm _ den). apply Z.mul_le_mono_nonneg_l; [lia|].
      apply Z.mul_le_mono_nonneg_r; [apply Z.pow_nonneg; lia|done].
    - apply not_true_is_false.
      rewrite (ratio_ge_shift _ _ (Z.max 0 (- e)) (k + 1)), Heq by (unfold k; lia).
      replace (Z.max 0 (- e) + (k + 1)) with (Z.succ (Z.log2 (Zpos m)) + Z.max 0 e) by (unfold k; lia).
      rewrite Z.pow_add_r by lia. rewrite (Z.mul_comm _ den). intros Hle.
      apply Z.mul_le_mono_pos_l in Hle; [|done]. apply Z.mul_le_mono_pos_r in Hle; [lia|].
      apply Z.pow_pos_nonneg; lia. }
  assert (Hex : Z.max (ratio_log2 num den - 52) (-1074) = e).
  { rewrite Hlog. destruct Hcase as [[_ [Hlo Hhi]]|[-> Hlo]].
    - assert (Z.log2 (Zpos m) = 52); [|lia]. apply Z.log2_unique; lia.
    - assert (Z.log2 (Zpos m) < 52); [|lia]. apply Z.log2_lt_pow2; lia. }
  assert (Hqr : let n := if 0 <=? e then num else num * 2 ^ (- e) in
    let d := if 0 <=? e then den * 2 ^ e else den in 0 < d /\ n / d = Zpos m /\ n mod d = 0).
  { destruct (Z.leb_spec 0 e).
    - replace (Z.max 0 (- e)) with 0 in Heq by lia. replace (Z.max 0 e) with e in Heq by lia.
      rewrite Z.pow_0_r in Heq. cbn zeta.
      assert (0 < den * 2 ^ e) by (apply Z.mul_pos_pos; [done|apply Z.pow_pos_nonneg; lia]).
      replace num with (Zpos m * (den * 2 ^ e)) by lia. rewrite Z.div_mul, Z.mod_mul by lia. done.
    - replace (Z.max 0 (- e)) with (- e) in Heq by lia. replace (Z.max 0 e) with 0 in Heq by lia.
      rewrite Z.pow_0_r, Z.mul_1_r in Heq. cbn zeta.
      rewrite Heq, Z.div_mul, Z.mod_mul by lia. done. }
  unfold round_ratio. rewrite Hex. cbn zeta in Hqr. destruct Hqr as (Hd & -> & ->).
  rewrite Z.mul_0_r. set (d := if 0 <=? e then den * 2 ^ e else den) in *.
  replace (d <? 0) with false by (symmetry; apply Z.ltb_ge; lia).
  replace (0 =? d) with false by (symmetry; apply Z.eqb_neq; lia). cbn [orb andb].
  replace (Zpos m =? 2 ^ 53) with false by (symmetry; apply Z.eqb_neq; lia).
  by replace (971 <? e) with false by (symmetry; apply Z.ltb_ge; lia).
Qed.

(** ** The search for a decimal succeeds *)

Lemma num_same_eq a b : num_same a b = true -> a = b.
Proof.
  destruct a as [|[]| |s m e], b as [|[]| |s' m' e']; try done.
  unfold num_same. rewrite !andb_true_iff, !Z.eqb_eq. intros [[Hs [= ->]] ->]. apply eqb_prop in Hs as ->. done.
Qed.
Lemma num_same_refl s m e : num_same (S754_finite s m e) (S754_finite s m e) = true.
Proof. unfold num_same. by rewrite eqb_reflx, !Z.eqb_refl. Qed.

Lemma shortest_sound fuel n num den x s y :
  shortest fuel n num den x = Some (s, y) -> 0 < s /\ num_of_decimal s y = n.
Proof.
  revert x. induction fuel as [|fuel IH]; intros x; cbn [shortest]; [done|].
  set (lo := _ / _). set (r := _ mod _). set (d := if 0 <=? x then den * 10 ^ x else den).
  assert (Hok : forall c, (0 <? c) && num_same (num_of_decimal c x) n = true -> 0 < c /\ num_of_decimal c x = n).
  { intros c [Hc%Z.ltb_lt Hn%num_same_eq]%andb_true_iff. done. }
  destruct ((0 <? lo) && num_same (num_of_decimal lo x) n) eqn:H1;
    destruct ((0 <? lo + 1) && num_same (num_of_decimal (lo + 1) x) n) eqn:H2.
  - destruct (_ || _); intros [= <- <-]; auto.
  - intros [= <- <-]. auto.
  - intros [= <- <-]. auto.
  - apply IH.
Qed.

Lemma shortest_found fuel n num den x y :
  y <= x -> (Z.to_nat (x - y) < fuel)%nat ->
  (let lo := (if 0 <=? y then num else num * 10 ^ (- y)) / (if 0 <=? y then den * 10 ^ y else den) in
   0 < lo /\ num_same (num_of_decimal lo y) n = true) ->
  is_Some (shortest fuel n num den x).
Proof.
  intros Hle Hfuel Hy. revert x Hle Hfuel. induction fuel as [|fuel IH]; intros x Hle Hfuel; [lia|]. cbn [shortest].
  destruct (decide (x = y)) as [->|Hne].
  - destruct Hy as [Hpos Hs]. rewrite (proj2 (Z.ltb_lt _ _) Hpos), Hs. cbn [andb]. destruct (_ && _); by eexists.
  - destruct (_ && _), (_ && _); try by eexists. apply IH; lia.
Qed.

Lemma shortest_decimal_spec m e :
  num_wf (S754_finite false m e) = true ->
  exists s x, shortest_decimal m e = Some (s, x) /\ 0 < s /\ num_of_decimal s x = S754_finite false m e.
Proof.
  intros Hwf. unfold shortest_decimal.
  match goal with |- context [shortest ?f ?n ?a ?d ?t] => destruct (shortest f n a d t) as [[s x]|] eqn:Hs end.
  { exists s, x. split; [done|]. by apply shortest_sound in Hs. }
  exfalso. revert Hs. apply not_eq_None_Some. unfold decimal_places.
  apply (shortest_found _ _ _ _ _ (Z.min e 0)); [lia|lia|]. cbn zeta.
  destruct (Z.leb_spec 0 e) as [He|He].
  - rewrite Z.min_r by lia. cbn [Z.leb Z.compare]. rewrite Z.pow_0_r, Z.mul_1_r, Z.div_1_r.
    assert (0 < Zpos m * 2 ^ e) by (apply Z.mul_pos_pos; [lia|apply Z.pow_pos_nonneg; lia]).
    split; [done|]. unfold num_of_decimal. destruct (Z.leb_spec (Zpos m * 2 ^ e) 0); [lia|]. cbn [Z.leb Z.compare].
    rewrite Z.pow_0_r, Z.mul_1_r, (round_ratio_exact m e); [apply num_same_refl|done|done|lia|].
    replace (Z.max 0 (- e)) with 0 by lia. replace (Z.max 0 e) with e by lia. lia.
  - rewrite Z.min_l by lia. destruct (Z.leb_spec 0 e); [lia|].
    assert (Hdiv : Zpos m * 10 ^ (- e) / 2 ^ (- e) = Zpos m * 5 ^ (- e)).
    { replace (10 ^ (- e)) with (5 ^ (- e) * 2 ^ (- e)) by (rewrite <-Z.pow_mul_l; done).
      rewrite Z.mul_assoc. apply Z.div_mul. assert (0 < 2 ^ (- e)) by (apply Z.pow_pos_nonneg; lia). lia. }
    rewrite Hdiv. assert (0 < 5 ^ (- e)) by (apply Z.pow_pos_nonneg; lia). split; [lia|].
    unfold num_of_decimal. destruct (Z.leb_spec (Zpos m * 5 ^ (- e)) 0); [lia|]. destruct (Z.leb_spec 0 e); [lia|].
    rewrite (round_ratio_exact m e); [apply num_same_refl|done|lia|apply Z.pow_pos_nonneg; lia|].
    replace (Z.max 0 (- e)) with (- e) by lia. replace (Z.max 0 e) with 0 by lia.
    replace (10 ^ (- e)) with (5 ^ (- e) * 2 ^ (- e)) by (rewrite <-Z.pow_mul_l; done). lia.
Qed.

(** ** Digits *)

Lemma digits_value_snoc l u : digits_value (l ++ [u]) = digits_value l * 10 + (u - 48).
Proof. unfold digits_value. by rewrite foldl_app. Qed.
Lemma digits_value_app a b : digits_value (a ++ b) = digits_value a * 10 ^ zlen b + digits_value b.
Proof.
  revert b. induction b as [|u b IH] using rev_ind.
  - rewrite app_nil_r. change (zlen (@nil Z)) with 0. unfold digits_value. simpl. lia.
  - rewrite (assoc_L (++)), !digits_value_snoc, IH, zlen_app.
    change (zlen [u]) with 1. rewrite Z.pow_add_r by (pose proof (zlen_nonneg b); lia). lia.
Qed.
Lemma digits_value_zeros n : digits_value (zeros n) = 0.
Proof.
  unfold digits_value, zeros. induction (Z.to_nat n) as [|k IH]; [done|]. exact IH.
Qed.

(** What the digits of a number are. *)
Record decimal_of (s : Z) (ds : jsstring) : Prop := {
  do_dec : Forall (fun u => is_dec u = true) ds;
  do_value : digits_value ds = s;
  do_head : exists d ds', ds = d :: ds' /\ (0 < s -> d <> 48) }.

Lemma digits_loop_spec fuel s acc :
  0 <= s < 10 ^ Z.of_nat fuel -> (0 < fuel)%nat ->
  exists ds, digits_loop fuel s acc = ds ++ acc /\ decimal_of s ds.
Proof.
  revert s acc. induction fuel as [|fuel IH]; intros s acc Hs Hf; [lia|]. cbn [digits_loop].
  destruct (Z.ltb_spec s 10) as [Hlt|Hge].
  - exists [48 + s]. split; [done|]. split.
    + constructor; [|constructor]. unfold is_dec. rewrite andb_true_iff, !Z.leb_le. lia.
    + unfold digits_value. simpl. lia.
    + exists (48 + s), []. split; [done|lia].
  - rewrite Nat2Z.inj_succ, Z.pow_succ_r in Hs by lia.
    assert (Hdiv : 1 <= s / 10 < 10 ^ Z.of_nat fuel).
    { split; [apply Z.div_le_lower_bound; lia|apply Z.div_lt_upper_bound; lia]. }
    assert (Hfuel : (0 < fuel)%nat) by (destruct fuel; [simpl in Hdiv; lia|lia]).
    destruct (IH (s / 10) ((48 + s mod 10) :: acc)) as (ds & Hds & [H1 H2 (d & ds' & -> & Hd)]); [lia|done|].
    pose proof (Z.mod_pos_bound s 10 ltac:(lia)) as Hmod.
    exists ((d :: ds') ++ [48 + s mod 10]). split; [by rewrite Hds, <-(assoc_L (++))|]. split.
    + apply Forall_app. split; [done|]. constructor; [|constructor]. unfold is_dec.
      rewrite andb_true_iff, !Z.leb_le. lia.
    + rewrite digits_value_app, H2. change (zlen [48 + s mod 10]) with 1.
      assert (digits_value [48 + s mod 10] = s mod 10) as -> by (unfold digits_value; simpl; lia).
      pose proof (Z.div_mod s 10 ltac:(lia)). lia.
    + exists d, (ds' ++ [48 + s mod 10]). split; [done|]. intros _. apply Hd. lia.
Qed.
Lemma digits_spec s : 0 <= s -> decimal_of s (digits s).
Proof.
  intros Hs. unfold digits. destruct (digits_loop_spec (S (Z.to_nat (Z.log2 s))) s []) as (ds & -> & H); [|lia|].
  - split; [done|]. rewrite Nat2Z.inj_succ, Z2Nat.id by apply Z.log2_nonneg.
    destruct (decide (s = 0)) as [->|]; [done|]. pose proof (Z.log2_spec s ltac:(lia)) as [_ H].
    eapply Z.lt_le_trans; [exact H|]. apply Z.pow_le_mono_l. lia.
  - by rewrite app_nil_r.
Qed.

(** ** Reading what was laid out *)

(** A text that cannot continue a number. *)
Definition ends_number (rest : jsstring) : Prop :=
  match rest with [] => True | u :: _ => is_dec u = false /\ u <> 46 /\ u <> 101 /\ u <> 69 end.
Definition no_digit (rest : jsstring) : Prop :=
  match rest with [] => True | u :: _ => is_dec u = false end.

Lemma span_digits_app ds rest :
  Forall (fun u => is_dec u = true) ds -> no_digit rest -> span_digits (ds ++ rest) = (ds, rest).
Proof.
  intros Hds Hr. induction Hds as [|u ds Hu Hds IH]; simpl.
  - destruct rest as [|u rest]; [done|]. simpl in *. by rewrite Hr.
  - by rewrite Hu, IH.
Qed.
Lemma zeros_dec n : Forall (fun u => is_dec u = true) (zeros n).
Proof. apply Forall_replicate. done. Qed.
Lemma zlen_zeros n : 0 <= n -> zlen (zeros n) = n.
Proof. intros Hn. unfold zlen, zeros. rewrite length_replicate. lia. Qed.

Lemma no_frac rest : ends_number rest -> parse_frac rest = Some ([], rest).
Proof. destruct rest as [|u rest]; [done|]. intros (_ & Hu & _). simpl. by rewrite (proj2 (Z.eqb_neq _ _) Hu). Qed.
Lemma no_exp rest : ends_number rest -> parse_exp rest = Some (0, rest).
Proof.
  destruct rest as [|u rest]; [done|]. intros (_ & _ & H1 & H2). simpl.
  by rewrite (proj2 (Z.eqb_neq _ _) H1), (proj2 (Z.eqb_neq _ _) H2).
Qed.
Lemma ends_no_digit rest : ends_number rest -> no_digit rest.
Proof. destruct rest; [done|]. by intros [? _]. Qed.

Lemma some_frac ds rest :
  Forall (fun u => is_dec u = true) ds -> ds <> [] -> no_digit rest -> parse_frac (46 :: ds ++ rest) = Some (ds, rest).
Proof. intros Hds Hne Hr. simpl. rewrite span_digits_app by done. by destruct ds. Qed.

Lemma parse_exponent_text e rest : ends_number rest -> parse_exp (exponent_text e ++ rest) = Some (e, rest).
Proof.
  intros Hr. unfold exponent_text. destruct (digits_spec (Z.abs e) ltac:(lia)) as [H1 H2 (d & ds & Hd & _)].
  cbn [app parse_exp]. rewrite Z.eqb_refl. cbn [orb].
  destruct (Z.ltb_spec e 0).
  - cbn [Z.eqb Pos.eqb]. rewrite span_digits_app by (done || by apply ends_no_digit). rewrite H2, Hd. f_equal. f_equal. lia.
  - cbn [Z.eqb Pos.eqb]. rewrite span_digits_app by (done || by apply ends_no_digit). rewrite H2, Hd. f_equal. f_equal. lia.
Qed.
Lemma exponent_no_digit e rest : no_digit (exponent_text e ++ rest).
Proof. done. Qed.

Lemma parse_parts_intro ds t fs t' e rest :
  Forall (fun u => is_dec u = true) ds -> no_digit t ->
  (exists d ds', ds = d :: ds' /\ (d <> 48 \/ ds' = [])) ->
  parse_frac t = Some (fs, t') -> parse_exp t' = Some (e, rest) ->
  parse_parts (ds ++ t) = Some (digits_value (ds ++ fs), e - zlen fs, rest).
Proof.
  intros Hds Ht (d & ds' & -> & Hd) Hf He. unfold parse_parts. rewrite span_digits_app by done.
  assert (((d =? 48) && negb (bool_decide (ds' = []))) = false) as ->.
  { destruct Hd as [Hd| ->]; [by rewrite (proj2 (Z.eqb_neq _ _) Hd)|apply andb_false_r]. }
  by rewrite Hf; simpl; rewrite He.
Qed.

Lemma parse_layout s x rest :
  0 < s -> ends_number rest ->
  exists s' x', parse_parts (layout s x ++ rest) = Some (s', x', rest) /\ num_of_decimal s' x' = num_of_decimal s x.
Proof.
  intros Hs Hr. destruct (digits_spec s ltac:(lia)) as [H1 H2 (d & ds & Hd & Hd0)]. specialize (Hd0 Hs).
  assert (Hk : zlen (digits s) = 1 + zlen ds) by (rewrite Hd; apply zlen_cons).
  pose proof (zlen_nonneg ds). unfold layout. set (k := zlen (digits s)) in *. set (n := x + k).
  destruct ((k <=? n) && (n <=? 21)) eqn:E1; [|destruct ((0 <? n) && (n <=? 21)) eqn:E2;
    [|destruct ((-6 <? n) && (n <=? 0)) eqn:E3]].
  - apply andb_true_iff in E1 as [Ekn%Z.leb_le _]. exists (s * 10 ^ (n - k)), 0. split.
    + rewrite (parse_parts_intro (digits s ++ zeros (n - k)) rest [] rest 0 rest);
        [|by apply Forall_app; split; [|apply zeros_dec]|by apply ends_no_digit| |by apply no_frac|by apply no_exp].
      * rewrite app_nil_r, digits_value_app, digits_value_zeros, zlen_zeros, H2 by lia.
        f_equal. f_equal. f_equal. lia.
      * rewrite Hd. exists d, (ds ++ zeros (n - k)). split; [done|by left].
    + unfold num_of_decimal. assert (0 < 10 ^ (n - k)) by (apply Z.pow_pos_nonneg; lia).
      destruct (Z.leb_spec (s * 10 ^ (n - k)) 0); [lia|]. destruct (Z.leb_spec s 0); [lia|]. cbn [Z.leb Z.compare].
      destruct (Z.leb_spec 0 x); [|lia]. f_equal. replace (n - k) with x by lia. lia.
  - apply andb_true_iff in E2 as [En%Z.ltb_lt En']. rewrite En', andb_true_r in E1. apply Z.leb_gt in E1.
    exists s, x. split; [|done]. rewrite <-(assoc_L (++)). cbn [app].
    assert (Hsplit : take (Z.to_nat n) (digits s) ++ drop (Z.to_nat n) (digits s) = digits s) by apply take_drop.
    rewrite <-Hsplit in H1. apply Forall_app in H1 as [H1a H1b].
    assert (Hdrop : zlen (drop (Z.to_nat n) (digits s)) = k - n) by (unfold k, zlen in *; rewrite length_drop; lia).
    rewrite (parse_parts_intro _ _ (drop (Z.to_nat n) (digits s)) rest 0 rest); [|done|done| | |by apply no_exp].
    + rewrite Hsplit, H2, Hdrop. f_equal. f_equal. f_equal. lia.
    + rewrite Hd. destruct (Z.to_nat n) as [|n'] eqn:En0; [lia|]. simpl. exists d, (take n' ds). split; [done|by left].
    + apply some_frac; [done| |by apply ends_no_digit]. intros Hnil. rewrite Hnil in Hdrop.
      change (zlen (@nil Z)) with 0 in Hdrop. lia.
  - apply andb_true_iff in E3 as [En%Z.ltb_lt En'%Z.leb_le]. exists s, x. split; [|done].
    change (48 :: 46 :: zeros (- n) ++ digits s) with ([48] ++ 46 :: (zeros (- n) ++ digits s)).
    rewrite <-(assoc_L (++)). cbn [app]. change (48 :: ?r) with ([48] ++ r).
    rewrite (parse_parts_intro [48] _ (zeros (- n) ++ digits s) rest 0 rest); [|by repeat constructor|done| | |by apply no_exp].
    + change ([48] ++ zeros (- n) ++ digits s) with (([48] ++ zeros (- n)) ++ digits s).
      rewrite (digits_value_app ([48] ++ zeros (- n))), H2, digits_value_app, digits_value_zeros, zlen_app, zlen_zeros by lia.
      fold k. f_equal. f_equal. f_equal; unfold digits_value; simpl; lia.
    + exists 48, []. split; [done|by right].
    + apply some_frac; [by apply Forall_app; split; [apply zeros_dec|]| |by apply ends_no_digit].
      rewrite Hd. by destruct (zeros (- n)).
  - exists s, x. split; [|done]. rewrite Hd in *. destruct ds as [|d' ds].
    + cbn [app]. change (d :: exponent_text (n - 1) ++ rest) with ([d] ++ exponent_text (n - 1) ++ rest).
      rewrite (parse_parts_intro [d] _ [] (exponent_text (n - 1) ++ rest) (n - 1) rest);
        [|done|done|exists d, []; split; [done|by left]|done|by apply parse_exponent_text].
      rewrite app_nil_r, H2. change (zlen (@nil Z)) with 0 in *. f_equal. f_equal. f_equal. lia.
    + rewrite <-!app_comm_cons, <-(assoc_L (++)). set (fs := d' :: ds) in *.
      change (parse_parts ([d] ++ 46 :: fs ++ exponent_text (n - 1) ++ rest) = Some (s, x, rest)).
      apply Forall_cons in H1 as [H1a H1b].
      rewrite (parse_parts_intro [d] _ fs (exponent_text (n - 1) ++ rest) (n - 1) rest);
        [|by constructor|done|exists d, []; split; [done|by left]|by apply some_frac|by apply parse_exponent_text].
      change ([d] ++ fs) with (d :: fs). rewrite H2. f_equal. f_equal. f_equal. lia.
Qed.

(** ** Numbers *)

Definition number_unit (u : Z) : bool := is_dec u || (u =? 43) || (u =? 45) || (u =? 46) || (u =? 101).

Lemma number_units_dec ds : Forall (fun u => is_dec u = true) ds -> Forall (fun u => number_unit u = true) ds.
Proof. intros H. eapply Forall_impl; [exact H|]. intros u Hu. unfold number_unit. by rewrite Hu. Qed.

(** A literal starts with a digit or a minus sign and is made of number characters. *)
Definition literal_shape (t : jsstring) : Prop :=
  Forall (fun u => number_unit u = true) t /\ exists u t', t = u :: t' /\ (is_dec u = true \/ u = 45).

Lemma layout_shape s x :
  0 < s -> Forall (fun u => number_unit u = true) (layout s x) /\ exists u t, layout s x = u :: t /\ is_dec u = true.
Proof.
  intros Hs. destruct (digits_spec s ltac:(lia)) as [H1 _ (d & ds & Hd & _)].
  assert (Hexp : forall e, Forall (fun u => number_unit u = true) (exponent_text e)).
  { intros e. unfold exponent_text. constructor; [done|]. constructor; [by destruct (e <? 0)|].
    apply number_units_dec, (digits_spec (Z.abs e)). lia. }
  pose proof (number_units_dec _ H1) as H1'. pose proof (fun j => number_units_dec _ (zeros_dec j)) as Hz.
  assert (Hdec : is_dec d = true) by (rewrite Hd in H1; by apply Forall_cons in H1 as [? _]).
  unfold layout. set (k := zlen (digits s)). set (n := x + k).
  destruct (_ && _) eqn:E1; [|destruct ((0 <? n) && (n <=? 21)) eqn:E2; [|destruct ((-6 <? n) && (n <=? 0)) eqn:E3]].
  - split; [by apply Forall_app|]. rewrite Hd. by eexists _, _.
  - apply andb_true_iff in E2 as [En%Z.ltb_lt _]. split.
    + apply Forall_app. split; [by apply Forall_take|]. constructor; [done|]. by apply Forall_drop.
    + rewrite Hd. destruct (Z.to_nat n) eqn:En'; [lia|]. by eexists _, _.
  - split; [|by eexists _, _]. do 2 (constructor; [done|]). by apply Forall_app.
  - rewrite Hd in *. apply Forall_cons in H1' as [H1a H1b]. destruct ds as [|d' ds].
    + split; [by constructor|by eexists _, _].
    + split; [|by eexists _, _]. do 2 (constructor; [done|]). by apply Forall_app.
Qed.

Lemma parse_layout_neg (s : bool) d x n rest :
  0 < d -> num_of_decimal d x = n -> ends_number rest ->
  parse_number (((if s then [45] else []) ++ layout d x) ++ rest) = Some (if s then num_neg n else n, rest).
Proof.
  intros Hd Hn Hr. destruct (parse_layout d x rest Hd Hr) as (s' & x' & Hp & Hs').
  destruct (layout_shape d x Hd) as [_ (u & t & Ht & Hu)]. unfold parse_number. rewrite <-(assoc_L (++)).
  destruct s; simpl.
  - rewrite Hp. simpl. by rewrite Hs', Hn.
  - rewrite Ht in *. cbn [app] in *. assert ((u =? 45) = false) as ->.
    { apply Z.eqb_neq. intros ->. done. }
    rewrite Hp. simpl. by rewrite Hs', Hn.
Qed.

Definition num_ok (n : number) : bool := num_wf n && num_is_finite n && negb (num_is_neg_zero n).

Lemma num_text_spec n :
  num_wf n = true -> num_is_finite n = true ->
  exists t, num_text n = Some t /\ literal_shape t /\
    (num_is_neg_zero n = false -> forall rest, ends_number rest -> parse_number (t ++ rest) = Some (n, rest)).
Proof.
  destruct n as [s|s| |s m e]; intros Hwf Hfin; try done.
  - exists [48]. split; [done|]. split; [split; [by repeat constructor|by eexists _, _; split; [|left]]|].
    destruct s; [done|]. intros _ rest Hr. unfold parse_number.
    change ([48] ++ rest) with (48 :: rest). cbn [Z.eqb Pos.eqb].
    change (48 :: rest) with ([48] ++ rest).
    rewrite (parse_parts_intro [48] rest [] rest 0 rest);
      [|by repeat constructor|by apply ends_no_digit|exists 48, []; split; [done|by right]|by apply no_frac|by apply no_exp].
    done.
  - assert (Hwf' : num_wf (S754_finite false m e) = true) by exact Hwf.
    destruct (shortest_decimal_spec m e Hwf') as (d & x & Hsd & Hd & Hn).
    unfold num_text. rewrite Hsd. eexists. split; [done|]. destruct (layout_shape d x Hd) as [H1 (u & t & Ht & Hu)].
    split.
    + split; [apply Forall_app; split; [destruct s; by repeat constructor|done]|]. rewrite Ht.
      destruct s; by eexists _, _; (split; [done|tauto]).
    + intros _ rest Hr. rewrite (parse_layout_neg s d x _ rest Hd Hn Hr). by destruct s.
Qed.

(** * Finite values survive being written and read as JSON text *)

#[local] Ltac Zify.zify_post_hook ::= Z.to_euclidean_division_equations.

Section json_ind.
Variable P : json -> Prop.
Hypothesis HNull : P JsonNull.
Hypothesis HBool : forall b, P (JsonBool b).
Hypothesis HNumber : forall n, P (JsonNumber n).
Hypothesis HString : forall s, P (JsonString s).
Hypothesis HArray : forall items, Forall P items -> P (JsonArray items).
Hypothesis HObject : forall props, Forall (fun kv => P kv.2) props -> P (JsonObject props).

(** Induction that reaches the components of arrays and objects. *)
Fixpoint json_nested_ind (v : json) : P v :=
  match v with
  | JsonNull => HNull
  | JsonBool b => HBool b
  | JsonNumber n => HNumber n
  | JsonString s => HString s
  | JsonArray items =>
      HArray items ((fix go l : Forall P l :=
        match l with [] => Forall_nil_2 _ | x :: l' => Forall_cons_2 _ x l' (json_nested_ind x) (go l') end) items)
  | JsonObject props =>
      HObject props ((fix go l : Forall (fun kv => P kv.2) l :=
        match l with [] => Forall_nil_2 _ | kv :: l' => Forall_cons_2 _ kv l' (json_nested_ind kv.2) (go l') end) props)
  end.
End json_ind.

(** ** Strings *)

Definition unit_ok (u : Z) : Prop := 0 <= u < 65536.

Lemma bytes_of_string_of_bytes bs : Forall byte_ok bs -> bytes_of_string (string_of_bytes bs) = bs.
Proof.
  unfold bytes_of_string, string_of_bytes. rewrite String.list_ascii_of_string_of_list_ascii.
  induction 1 as [|b bs Hb Hbs IH]; [done|]. rewrite !fmap_cons, IH. f_equal. unfold byte_ok in Hb.
  rewrite Ascii.N_ascii_embedding by lia. lia.
Qed.
Lemma bytes_of_string_ok s : Forall byte_ok (bytes_of_string s).
Proof.
  unfold bytes_of_string. apply Forall_fmap, Forall_true. intros a. unfold byte_ok, compose.
  pose proof (Ascii.N_ascii_bounded a). lia.
Qed.

Lemma unit_bytes_ok u : unit_ok u -> Forall byte_ok (unit_bytes u).
Proof. unfold unit_ok, unit_bytes, byte_ok. intros Hu. repeat case_match; repeat constructor; lia. Qed.

Lemma units_of_unit_bytes u r : unit_ok u -> units_of_bytes (unit_bytes u ++ r) = u :: units_of_bytes r.
Proof.
  intros Hu. unfold unit_ok in Hu. unfold unit_bytes.
  destruct (Z.ltb_spec u 128); [|destruct (Z.ltb_spec u 2048)]; cbn [app units_of_bytes].
  - by rewrite (proj2 (Z.ltb_lt u 128)) by lia.
  - rewrite (proj2 (Z.ltb_ge _ 128)) by lia.
    assert ((192 <=? 192 + u / 64) && (192 + u / 64 <=? 223) && is_cont (128 + u mod 64) = true) as ->.
    { unfold is_cont. rewrite !andb_true_iff, !Z.leb_le. lia. }
    f_equal. lia.
  - rewrite (proj2 (Z.ltb_ge _ 128)) by lia.
    assert ((192 <=? 224 + u / 4096) && (224 + u / 4096 <=? 223) && is_cont (128 + (u / 64) mod 64) = false) as ->.
    { rewrite (proj2 (Z.leb_gt _ 223)) by lia. by rewrite andb_false_r. }
    assert ((224 <=? 224 + u / 4096) && (224 + u / 4096 <=? 239) && is_cont (128 + (u / 64) mod 64)
            && is_cont (128 + u mod 64) = true) as ->.
    { unfold is_cont. rewrite !andb_true_iff, !Z.leb_le. lia. }
    f_equal. lia.
Qed.

Lemma js_of_js u : Forall unit_ok u -> js (of_js u) = u.
Proof.
  intros Hu. unfold js, of_js. rewrite bytes_of_string_of_bytes.
  - induction Hu as [|a u Ha Hu IH]; [done|]. rewrite fmap_cons. cbn [concat]. by rewrite units_of_unit_bytes, IH.
  - induction Hu as [|a u Ha Hu IH]; [constructor|]. rewrite fmap_cons. cbn [concat].
    apply Forall_app. split; [by apply unit_bytes_ok|done].
Qed.
Lemma str_ok_of_js u : Forall unit_ok u -> str_ok (of_js u) = true.
Proof. intros Hu. unfold str_ok. rewrite js_of_js by done. apply String.eqb_refl. Qed.
Lemma str_ok_eq s : str_ok s = true -> of_js (js s) = s.
Proof. apply String.eqb_eq. Qed.
Lemma js_inj s t : str_ok s = true -> str_ok t = true -> js s = js t -> s = t.
Proof. intros Hs%str_ok_eq Ht%str_ok_eq Heq. by rewrite <-Hs, Heq. Qed.

Lemma units_of_bytes_ok n bs : (length bs <= n)%nat -> Forall byte_ok bs -> Forall unit_ok (units_of_bytes bs).
Proof.
  revert bs. induction n as [|n IH]; intros bs Hn Hbs.
  { destruct bs; [constructor|simpl in Hn; lia]. }
  assert (Hb : forall b, byte_ok b -> unit_ok b) by (unfold byte_ok, unit_ok; lia).
  destruct bs as [|a r]; [constructor|]. apply Forall_cons in Hbs as [Ha Hr]. simpl in Hn. cbn [units_of_bytes].
  assert (Hrec : Forall unit_ok (a :: units_of_bytes r)) by (constructor; [by apply Hb|apply IH; [lia|done]]).
  destruct (a <? 128); [done|]. destruct r as [|b r']; [by repeat constructor; apply Hb|].
  apply Forall_cons in Hr as [Hbb Hr]. simpl in Hn. unfold byte_ok in Ha, Hbb.
  destruct (_ && is_cont b) eqn:E1.
  { unfold is_cont in E1. rewrite !andb_true_iff, !Z.leb_le in E1. constructor; [unfold unit_ok; lia|apply IH; [lia|done]]. }
  destruct r' as [|c r'']; [done|]. destruct (_ && is_cont c) eqn:E2; [|done].
  apply Forall_cons in Hr as [Hc Hr]. simpl in Hn. unfold is_cont in E2. rewrite !andb_true_iff, !Z.leb_le in E2.
  constructor; [unfold unit_ok; lia|apply IH; [lia|done]].
Qed.
Lemma js_ok s : Forall unit_ok (js s).
Proof. by eapply units_of_bytes_ok, bytes_of_string_ok. Qed.

(** ** Quoting *)

Lemma hex_value_digit d : 0 <= d < 16 -> hex_value (hex_digit d) = Some d.
Proof.
  intros Hd. unfold hex_value, hex_digit. destruct (Z.ltb_spec d 10).
  - assert ((48 <=? 48 + d) && (48 + d <=? 57) = true) as -> by (rewrite andb_true_iff, !Z.leb_le; lia). f_equal. lia.
  - assert ((48 <=? 87 + d) && (87 + d <=? 57) = false) as -> by (rewrite andb_false_iff, !Z.leb_gt; lia).
    assert ((97 <=? 87 + d) && (87 + d <=? 102) = true) as -> by (rewrite andb_true_iff, !Z.leb_le; lia). f_equal. lia.
Qed.

Lemma parse_plain u t us r :
  u <> 34 -> u <> 92 -> 32 <= u -> parse_string t = Some (us, r) -> parse_string (u :: t) = Some (u :: us, r).
Proof.
  intros H1 H2 H3 Ht. cbn [parse_string]. rewrite (proj2 (Z.eqb_neq _ _) H1), (proj2 (Z.eqb_neq _ _) H2).
  rewrite (proj2 (Z.ltb_ge _ _) H3). by rewrite Ht.
Qed.
Lemma parse_unicode u t us r :
  unit_ok u -> parse_string t = Some (us, r) -> parse_string (unicode_escape u ++ t) = Some (u :: us, r).
Proof.
  intros Hu Ht. unfold unit_ok in Hu. unfold unicode_escape. cbn [app parse_string Z.eqb Pos.eqb].
  rewrite !hex_value_digit by lia. cbn [mbind option_bind]. rewrite Ht. cbn [mbind option_bind].
  f_equal. f_equal. f_equal. lia.
Qed.
Lemma parse_quote_unit u t us r :
  unit_ok u -> parse_string t = Some (us, r) -> parse_string (quote_unit u ++ t) = Some (u :: us, r).
Proof.
  intros Hu Ht. unfold quote_unit.
  do 7 (match goal with |- context [u =? ?c] => destruct (Z.eqb_spec u c) as [->|] end;
        [cbn [app parse_string Z.eqb Pos.eqb simple_escape mbind option_bind]; by rewrite Ht|]).
  destruct ((u <? 32) || is_high u || is_low u) eqn:E; [by apply parse_unicode|].
  apply orb_false_iff in E as [[E%Z.ltb_ge _]%orb_false_iff _]. cbn [app]. by apply parse_plain.
Qed.
Lemma surrogate_plain u : is_high u = true \/ is_low u = true -> u <> 34 /\ u <> 92 /\ 32 <= u.
Proof. unfold is_high, is_low. rewrite !andb_true_iff, !Z.leb_le. lia. Qed.

Lemma parse_quote_units n s t us r :
  (length s <= n)%nat -> Forall unit_ok s -> parse_string t = Some (us, r) ->
  parse_string (quote_units s ++ t) = Some (s ++ us, r).
Proof.
  revert s. induction n as [|n IH]; intros s Hn Hs Ht.
  { destruct s; [done|simpl in Hn; lia]. }
  destruct s as [|a s']; [done|]. apply Forall_cons in Hs as [Ha Hs]. simpl in Hn. cbn [quote_units].
  assert (Hone : parse_string ((quote_unit a ++ quote_units s') ++ t) = Some ((a :: s') ++ us, r)).
  { rewrite <-(assoc_L (++)). apply parse_quote_unit; [done|]. apply IH; [lia|done|done]. }
  destruct (is_high a) eqn:Hh; [|done]. destruct s' as [|b s''].
  { cbn [quote_units] in Hone. by rewrite app_nil_r in Hone. }
  destruct (is_low b) eqn:Hl; [|done]. apply Forall_cons in Hs as [_ Hs]. simpl in Hn.
  destruct (surrogate_plain a) as (? & ? & ?); [by left|]. destruct (surrogate_plain b) as (? & ? & ?); [by right|].
  cbn [app]. apply parse_plain; [done..|]. apply parse_plain; [done..|]. apply IH; [lia|done|done].
Qed.
Lemma parse_quoted s rest : Forall unit_ok s -> parse_string (quote_units s ++ 34 :: rest) = Some (s, rest).
Proof.
  intros Hs. rewrite (parse_quote_units (length s) s (34 :: rest) [] rest) by done. by rewrite app_nil_r.
Qed.

(** Everything a quoted string consists of is printable. *)
Definition printable (u : Z) : Prop := 32 <= u.
Lemma quote_unit_printable u : unit_ok u -> Forall printable (quote_unit u).
Proof.
  intros Hu. unfold quote_unit, printable, unit_ok in *. repeat (case_match; [repeat constructor; lia|]).
  destruct (_ || is_low u) eqn:E.
  - unfold unicode_escape, hex_digit. repeat constructor; repeat case_match; lia.
  - apply orb_false_iff in E as [[E%Z.ltb_ge _]%orb_false_iff _]. by repeat constructor.
Qed.
Lemma quote_units_printable n s : (length s <= n)%nat -> Forall unit_ok s -> Forall printable (quote_units s).
Proof.
  revert s. induction n as [|n IH]; intros s Hn Hs.
  { destruct s; [constructor|simpl in Hn; lia]. }
  destruct s as [|a s']; [constructor|]. apply Forall_cons in Hs as [Ha Hs]. simpl in Hn. cbn [quote_units].
  assert (Hone : Forall printable (quote_unit a ++ quote_units s')).
  { apply Forall_app. split; [by apply quote_unit_printable|]. apply IH; [lia|done]. }
  destruct (is_high a) eqn:Hh; [|done]. destruct s' as [|b s'']; [by apply quote_unit_printable|].
  destruct (is_low b) eqn:Hl; [|done]. apply Forall_cons in Hs as [_ Hs]. simpl in Hn.
  destruct (surrogate_plain a) as (_ & _ & ?); [by left|]. destruct (surrogate_plain b) as (_ & _ & ?); [by right|].
  constructor; [done|]. constructor; [done|]. apply IH; [lia|done].
Qed.
Lemma quote_printable s : Forall printable (quote (js s)).
Proof.
  unfold quote. constructor; [done|]. apply Forall_app. split; [|by repeat constructor].
  eapply quote_units_printable; [done|apply js_ok].
Qed.

(** ** Values that are their own JSON reading *)

Fixpoint ranks_sorted (ks : list Z) : bool :=
  match ks with
  | a :: r => match r with b :: _ => (a <=? b) && ranks_sorted r | [] => true end
  | [] => true
  end.
Definition keys_ok (ks : list string) : bool :=
  bool_decide (NoDup ks) && forallb str_ok ks && ranks_sorted ((fun k => key_rank (js k)) <$> ks).

(** Numbers are finite and not -0, strings canonical, the properties of an object
    distinct and in the order the engine lists them. *)
Fixpoint json_ok (v : json) : bool :=
  match v with
  | JsonNull | JsonBool _ => true
  | JsonNumber n => num_ok n
  | JsonString s => str_ok s
  | JsonArray items => forallb json_ok items
  | JsonObject props => keys_ok props.*1 && forallb (fun kv => json_ok kv.2) props
  end.

Lemma ranks_sorted_spec {A} (rank : A -> Z) (l : list A) :
  ranks_sorted (rank <$> l) = true -> StronglySorted (key_le rank) l.
Proof.
  intros H. apply Sorted_StronglySorted; [intros a b c; unfold key_le; lia|].
  induction l as [|a l IH]; [constructor|]. rewrite fmap_cons in H. destruct l as [|b l].
  - repeat constructor.
  - rewrite fmap_cons in *. cbn [ranks_sorted] in H. apply andb_true_iff in H as [Hab%Z.leb_le H].
    constructor; [by apply IH|]. constructor. exact Hab.
Qed.
Lemma json_order_ok {A} (props : list (string * A)) : keys_ok props.*1 = true -> json_order props = props.
Proof.
  unfold keys_ok. intros [_ H]%andb_true_iff. apply sort_by_id, ranks_sorted_spec.
  by rewrite <-list_fmap_compose in H.
Qed.
Lemma keys_ok_spec ks : keys_ok ks = true -> NoDup ks /\ Forall (fun k => str_ok k = true) ks.
Proof.
  unfold keys_ok. rewrite !andb_true_iff, bool_decide_eq_true, forallb_forall. intros [[H1 H2] _].
  split; [done|]. apply Forall_forall. intros k Hk. by apply H2, list_elem_of_In.
Qed.

(** The calls of the parser a value needs. *)
Fixpoint calls (v : json) : nat :=
  match v with
  | JsonArray items => S (sum_list_with (fun v => S (calls v)) items)
  | JsonObject props => S (sum_list_with (fun kv => S (calls kv.2)) props)
  | _ => 1
  end.

Lemma commas_cons t ts : commas (t :: ts) = t ++ (match ts with [] => [] | _ => 44 :: commas ts end).
Proof. destruct ts; simpl; [by rewrite app_nil_r|done]. Qed.

(** How the text of a value starts. *)
Definition starts (v : json) (t : jsstring) : Prop :=
  exists u t', t = u :: t' /\ is_ws u = false /\ u <> 93 /\ u <> 125 /\
    match v with
    | JsonObject _ => u = 123
    | JsonArray _ => u = 91
    | JsonString _ => u = 34
    | JsonNull => u = 110
    | JsonBool b => u = if b then 116 else 102
    | JsonNumber _ => is_dec u = true \/ u = 45
    end.
Lemma stringify_starts v : json_ok v = true -> starts v (JSON_stringify v).
Proof.
  destruct v as [|b|n|s|items|props]; intros Hok; cbn [JSON_stringify].
  - by eexists _, _.
  - destruct b; by eexists _, _.
  - cbn [json_ok] in Hok. unfold num_ok in Hok. rewrite !andb_true_iff in Hok. destruct Hok as [[H1 H2] _].
    destruct (num_text_spec n H1 H2) as (t & -> & [_ (u & t' & -> & Hu)] & _). exists u, t'.
    cbn [from_option id]. split_and!; [done| | | |done]; unfold is_ws, is_dec in *;
      destruct Hu as [Hu|Hu]; rewrite ?andb_true_iff, ?Z.leb_le in Hu; try lia; subst; try done.
  - unfold quote. by eexists _, _.
  - by eexists _, _.
  - by eexists _, _.
Qed.
Lemma skip_ws_starts v t r : starts v t -> skip_ws (t ++ r) = t ++ r.
Proof. intros (u & t' & -> & Hu & _). cbn [app skip_ws]. by rewrite Hu. Qed.

(** The text may be followed by [rest]. *)
Definition follows (v : json) (rest : jsstring) : Prop :=
  match v with JsonNumber _ => ends_number rest | _ => True end.

Definition reads_back (v : json) : Prop :=
  forall fuel rest, (calls v <= fuel)%nat -> follows v rest ->
    parse_value fuel (JSON_stringify v ++ rest) = Some (v, rest).

Lemma comma_follows v r : follows v (44 :: r).
Proof. by destruct v. Qed.
Lemma bracket_follows v r : follows v (93 :: r).
Proof. by destruct v. Qed.
Lemma brace_follows v r : follows v (125 :: r).
Proof. by destruct v. Qed.

(** Dispatch of [parse_value] on the first character. *)
Lemma parse_value_number fuel n t rest :
  literal_shape t -> parse_number (t ++ rest) = Some (n, rest) ->
  parse_value (S fuel) (t ++ rest) = Some (JsonNumber n, rest).
Proof.
  intros [_ (u & t' & -> & Hu)] Hp. cbn [app] in *. cbn [parse_value skip_ws].
  assert (Hcode : u = 45 \/ 48 <= u <= 57).
  { destruct Hu as [Hu|Hu]; [|by left]. unfold is_dec in Hu. rewrite andb_true_iff, !Z.leb_le in Hu. by right. }
  assert (is_ws u = false) as ->.
  { unfold is_ws. rewrite !orb_false_iff, !Z.eqb_neq. lia. }
  repeat match goal with |- context [u =? ?c] => rewrite (proj2 (Z.eqb_neq u c)) by lia end.
  by rewrite Hp.
Qed.

Lemma token_here c r : is_ws c = false -> token c (c :: r) = Some r.
Proof. unfold token. cbn [skip_ws]. intros ->. by rewrite Z.eqb_refl. Qed.
Lemma token_other c u r : is_ws u = false -> u <> c -> token c (u :: r) = None.
Proof. unfold token. cbn [skip_ws]. intros -> Hne. by rewrite (proj2 (Z.eqb_neq _ _) Hne). Qed.

Lemma parse_elements_spec items acc fuel rest :
  items <> [] -> Forall reads_back items -> (sum_list_with (fun v => S (calls v)) items <= fuel)%nat ->
  parse_elements fuel acc (commas (JSON_stringify <$> items) ++ 93 :: rest) = Some (JsonArray (acc ++ items), rest).
Proof.
  revert acc fuel. induction items as [|v items IH]; intros acc fuel Hne Hall Hfuel; [done|].
  apply Forall_cons in Hall as [Hv Hall]. simpl in Hfuel. destruct fuel as [|fuel]; [lia|].
  rewrite fmap_cons, commas_cons. cbn [parse_elements]. rewrite <-(assoc_L (++)). destruct items as [|v' items].
  - cbn [fmap list_fmap app]. rewrite Hv by (lia || by apply bracket_follows). cbn [mbind option_bind].
    rewrite token_other, token_here by done. done.
  - rewrite fmap_cons. cbn [app]. rewrite Hv by (lia || by apply comma_follows). cbn [mbind option_bind].
    rewrite token_here by done.
    change (parse_elements fuel (acc ++ [v]) (commas (JSON_stringify <$> v' :: items) ++ 93 :: rest) =
            Some (JsonArray (acc ++ v :: v' :: items), rest)).
    rewrite IH by (done || lia). by rewrite <-(assoc_L (++)).
Qed.

Lemma parse_members_spec props acc fuel rest :
  props <> [] -> Forall (fun kv => reads_back kv.2) props -> NoDup (jm_keys acc ++ props.*1) ->
  Forall (fun k => str_ok k = true) props.*1 ->
  (sum_list_with (fun kv => S (calls kv.2)) props <= fuel)%nat ->
  parse_members fuel acc
    (commas ((fun kv => quote (js kv.1) ++ 58 :: JSON_stringify kv.2) <$> props) ++ 125 :: rest) =
  Some (JsonObject (json_order (acc ++ props)), rest).
Proof.
  revert acc fuel. induction props as [|[k v] props IH]; intros acc fuel Hne Hall Hnd Hks Hfuel; [done|].
  apply Forall_cons in Hall as [Hv Hall]. rewrite fmap_cons in Hks, Hnd. apply Forall_cons in Hks as [Hk Hks].
  simpl in Hfuel, Hv, Hk, Hnd. destruct fuel as [|fuel]; [lia|].
  rewrite fmap_cons, commas_cons. unfold quote at 1. cbn [fst snd].
  set (more := match _ with [] => [] | _ => _ end). rewrite <-!(assoc_L (++)). cbn [app parse_members].
  rewrite token_here by done. cbn [mbind option_bind]. rewrite <-(assoc_L (++)). cbn [app].
  rewrite parse_quoted by apply js_ok. cbn [mbind option_bind]. rewrite token_here by done. cbn [mbind option_bind].
  rewrite (str_ok_eq k Hk).
  assert (Hset : jm_set k v acc = acc ++ [(k, v)]).
  { apply jm_set_fresh, jm_get_None. apply NoDup_app in Hnd as (_ & Hd & _). intros Hin. apply (Hd k Hin). by left. }
  destruct props as [|[k' v'] props].
  - unfold more. cbn [fmap list_fmap app]. rewrite Hv by (lia || by apply brace_follows). cbn [mbind option_bind].
    rewrite token_other, token_here by done. by rewrite Hset.
  - unfold more. rewrite fmap_cons. cbn [app]. rewrite Hv by (lia || by apply comma_follows).
    cbn [mbind option_bind]. rewrite token_here by done. rewrite Hset.
    change (parse_members fuel (acc ++ [(k, v)])
      (commas ((fun kv => quote (js kv.1) ++ 58 :: JSON_stringify kv.2) <$> (k', v') :: props) ++ 125 :: rest) =
      Some (JsonObject (json_order (acc ++ (k, v) :: (k', v') :: props)), rest)).
    rewrite IH; [by rewrite <-(assoc_L (++))|done|done| |done|simpl in Hfuel |- *; lia].
    unfold jm_keys in *. rewrite fmap_app, <-(assoc_L (++)). exact Hnd.
Qed.

Lemma json_reads_back v : json_ok v = true -> reads_back v.
Proof.
  induction v as [|b|n|s|items IH|props IH] using json_nested_ind; intros Hok fuel rest Hfuel Hrest;
    (destruct fuel as [|fuel]; [cbn [calls] in Hfuel; lia|]).
  - reflexivity.
  - by destruct b.
  - cbn [JSON_stringify json_ok] in *. unfold num_ok in Hok. rewrite !andb_true_iff, negb_true_iff in Hok.
    destruct Hok as [[H1 H2] H3]. destruct (num_text_spec n H1 H2) as (t & -> & Ht & Hp). cbn [from_option id].
    apply parse_value_number; [done|]. by apply Hp.
  - cbn [JSON_stringify json_ok] in *. unfold quote. cbn [app parse_value skip_ws]. change (is_ws 34) with false.
    cbn [Z.eqb Pos.eqb]. rewrite <-(assoc_L (++)). cbn [app]. rewrite parse_quoted by apply js_ok.
    cbn [mbind option_bind]. by rewrite (str_ok_eq s Hok).
  - cbn [JSON_stringify json_ok] in *. cbn [app parse_value skip_ws]. change (is_ws 91) with false.
    cbn [Z.eqb Pos.eqb]. rewrite <-(assoc_L (++)). cbn [app]. destruct items as [|v items]; [done|].
    assert (Hitems : Forall reads_back (v :: items)).
    { apply Forall_forall. intros x Hx. rewrite Forall_forall in IH. apply IH; [done|].
      rewrite forallb_forall in Hok. by apply Hok, list_elem_of_In. }
    assert (Hst : starts v (JSON_stringify v)) by (apply stringify_starts; simpl in Hok; by apply andb_true_iff in Hok as [? _]).
    etransitivity; [|apply (parse_elements_spec (v :: items) [] fuel rest); [done|done|cbn [calls] in Hfuel; lia]].
    rewrite fmap_cons, commas_cons, <-!(assoc_L (++)).
    destruct Hst as (u & t' & -> & Hws & Hu & _). cbn [app]. by rewrite token_other.
  - cbn [JSON_stringify json_ok] in *. cbn [app parse_value skip_ws]. change (is_ws 123) with false.
    cbn [Z.eqb Pos.eqb]. rewrite <-(assoc_L (++)). cbn [app]. destruct props as [|[k v] props]; [done|].
    apply andb_true_iff in Hok as [Hkeys Hok]. destruct (keys_ok_spec _ Hkeys) as [Hnd Hks].
    pose proof (parse_members_spec ((k, v) :: props) [] fuel rest) as Hp. rewrite app_nil_l, json_order_ok in Hp by done.
    etransitivity; [|apply Hp; [done| |done|done|cbn [calls] in Hfuel; lia]].
    + rewrite fmap_cons, commas_cons. unfold quote at 1. cbn [fst snd app]. by rewrite token_other.
    + apply Forall_forall. intros x Hx. rewrite Forall_forall in IH. apply IH; [done|].
      rewrite forallb_forall in Hok. by apply Hok, list_elem_of_In.
Qed.

(** ** Whole texts *)

Lemma quote_length s : (2 <= length (quote s))%nat.
Proof. unfold quote. simpl. rewrite length_app. simpl. lia. Qed.

Lemma commas_length {A} (text : A -> jsstring) (size : A -> nat) items :
  Forall (fun a => size a <= 2 * length (text a))%nat items ->
  (1 + sum_list_with (fun a => S (size a)) items <= 4 + 2 * length (commas (text <$> items)))%nat.
Proof.
  induction 1 as [|a items Ha _ IH]; [simpl; lia|]. rewrite fmap_cons, commas_cons, length_app.
  destruct items as [|b items]; [simpl; lia|]. rewrite fmap_cons in *. cbn [sum_list_with length] in *. lia.
Qed.
Lemma calls_length v : json_ok v = true -> (calls v <= 2 * length (JSON_stringify v))%nat.
Proof.
  induction v as [|b|n|s|items IH|props IH] using json_nested_ind; intros Hok.
  - simpl. lia.
  - destruct b; simpl; lia.
  - destruct (stringify_starts _ Hok) as (u & t & -> & _). simpl. lia.
  - cbn [calls JSON_stringify]. pose proof (quote_length (js s)). lia.
  - cbn [calls JSON_stringify json_ok] in *. pose proof (commas_length JSON_stringify calls items) as H.
    simpl. rewrite length_app. simpl.
    assert (Forall (fun a => calls a <= 2 * length (JSON_stringify a))%nat items); [|specialize (H ltac:(done)); lia].
    apply Forall_forall. intros x Hx. rewrite Forall_forall in IH. apply IH; [done|].
    rewrite forallb_forall in Hok. by apply Hok, list_elem_of_In.
  - cbn [calls JSON_stringify json_ok] in *. apply andb_true_iff in Hok as [_ Hok].
    pose proof (commas_length (fun kv : string * json => quote (js kv.1) ++ 58 :: JSON_stringify kv.2)
      (fun kv => calls kv.2) props) as H. cbn [length]. rewrite length_app. cbn [length].
    match type of H with ?A -> _ => assert A; [|specialize (H ltac:(done)); cbn beta in H; unfold jsstring in *; lia] end.
    apply Forall_forall. intros x Hx. rewrite Forall_forall in IH. rewrite length_app. simpl.
    assert (calls x.2 <= 2 * length (JSON_stringify x.2))%nat; [|lia]. apply IH; [done|].
    rewrite forallb_forall in Hok. by apply Hok, list_elem_of_In.
Qed.

Lemma parse_stringify v : json_ok v = true -> JSON_parse (JSON_stringify v) = Some v.
Proof.
  intros Hok. unfold JSON_parse. pose proof (json_reads_back v Hok (S (2 * length (JSON_stringify v))) []) as H.
  rewrite app_nil_r in H. rewrite H; [done| |by destruct v]. pose proof (calls_length v Hok). lia.
Qed.

Lemma commas_printable {A} (text : A -> jsstring) items :
  Forall (fun a => Forall printable (text a)) items -> Forall printable (commas (text <$> items)).
Proof.
  induction 1 as [|a items Ha _ IH]; [constructor|]. rewrite fmap_cons, commas_cons. apply Forall_app. split; [done|].
  destruct items as [|b items]; [constructor|]. rewrite fmap_cons in *. by constructor.
Qed.
(** The text of a value has no control characters; in particular it is one line. *)
Lemma stringify_printable v : json_ok v = true -> Forall printable (JSON_stringify v).
Proof.
  induction v as [|b|n|s|items IH|props IH] using json_nested_ind; intros Hok.
  - by repeat constructor.
  - by destruct b; repeat constructor.
  - cbn [JSON_stringify json_ok] in *. unfold num_ok in Hok. rewrite !andb_true_iff in Hok. destruct Hok as [[H1 H2] _].
    destruct (num_text_spec n H1 H2) as (t & -> & [Ht _] & _). cbn [from_option id].
    eapply Forall_impl; [exact Ht|]. unfold number_unit, is_dec, printable. intros u.
    rewrite !orb_true_iff, andb_true_iff, !Z.leb_le, !Z.eqb_eq. lia.
  - apply quote_printable.
  - cbn [JSON_stringify json_ok] in *. constructor; [done|]. apply Forall_app. split; [|by repeat constructor].
    apply commas_printable. apply Forall_forall. intros x Hx. rewrite Forall_forall in IH. apply IH; [done|].
    rewrite forallb_forall in Hok. by apply Hok, list_elem_of_In.
  - cbn [JSON_stringify json_ok] in *. apply andb_true_iff in Hok as [_ Hok]. constructor; [done|].
    apply Forall_app. split; [|by repeat constructor].
    apply commas_printable. apply Forall_forall. intros x Hx. rewrite Forall_forall in IH.
    apply Forall_app. split; [apply quote_printable|]. constructor; [done|]. apply IH; [done|].
    rewrite forallb_forall in Hok. by apply Hok, list_elem_of_In.
Qed.

(** ** More calls do not change an answer *)

Lemma parse_fuel fuel :
  (forall s x, parse_value fuel s = Some x -> parse_value (S fuel) s = Some x) /\
  (forall acc s x, parse_elements fuel acc s = Some x -> parse_elements (S fuel) acc s = Some x) /\
  (forall acc s x, parse_members fuel acc s = Some x -> parse_members (S fuel) acc s = Some x).
Proof.
  induction fuel as [|fuel (IHv & IHe & IHm)]; [done|]. split_and!.
  - intros s x. cbn [parse_value]. destruct (skip_ws s) as [|u r]; [done|].
    destruct (u =? 123); [destruct (token 125 r); [done|apply IHm]|].
    destruct (u =? 91); [destruct (token 93 r); [done|apply IHe]|]. done.
  - intros acc s x. cbn [parse_elements]. intros H. apply bind_Some in H as ([v r] & Hv & H).
    change (('(v, r) ← parse_value (S fuel) s; match token 44 r with
      | Some r' => parse_elements (S fuel) (acc ++ [v]) r'
      | None => r' ← token 93 r; Some (JsonArray (acc ++ [v]), r') end) = Some x).
    apply bind_Some. exists (v, r). split; [by apply IHv|]. destruct (token 44 r); [by apply IHe|done].
  - intros acc s x. cbn [parse_members]. intros H. apply bind_Some in H as (r & Hr & H).
    apply bind_Some in H as ([k r1] & Hk & H). apply bind_Some in H as (r2 & Hr2 & H).
    apply bind_Some in H as ([v r3] & Hv & H).
    change ((r ← token 34 s; '(k, r) ← parse_string r; r ← token 58 r; '(v, r) ← parse_value (S fuel) r;
      match token 44 r with
      | Some r' => parse_members (S fuel) (jm_set (of_js k) v acc) r'
      | None => r' ← token 125 r; Some (JsonObject (json_order (jm_set (of_js k) v acc)), r') end) = Some x).
    apply bind_Some. exists r. split; [done|]. apply bind_Some. exists (k, r1). split; [done|].
    apply bind_Some. exists r2. split; [done|]. apply bind_Some. exists (v, r3). split; [by apply IHv|].
    cbn beta iota zeta in H |- *. destruct (token 44 r3); [by apply IHm|done].
Qed.
Lemma parse_value_fuel fuel fuel' s x :
  (fuel <= fuel')%nat -> parse_value fuel s = Some x -> parse_value fuel' s = Some x.
Proof. induction 1 as [|fuel' _ IH]; [done|]. intros H%IH. by apply (parse_fuel fuel'). Qed.

(** ** A value that ended stays the same when the text goes on *)

Lemma skip_ws_app s more : skip_ws s <> [] -> skip_ws (s ++ more) = skip_ws s ++ more.
Proof. induction s as [|u s IH]; [done|]. cbn [app skip_ws]. destruct (is_ws u); [apply IH|done]. Qed.
Lemma token_app c s r more : token c s = Some r -> token c (s ++ more) = Some (r ++ more).
Proof.
  unfold token. intros H. rewrite skip_ws_app by (by intros Hn; rewrite Hn in H).
  destruct (skip_ws s) as [|u t]; [done|]. cbn [app]. destruct (u =? c); [|done]. by injection H as <-.
Qed.
Lemma token_None_app c s more : token c s = None -> skip_ws s <> [] -> token c (s ++ more) = None.
Proof.
  unfold token. intros H Hne. rewrite skip_ws_app by done. destruct (skip_ws s) as [|u t]; [done|]. cbn [app].
  by destruct (u =? c).
Qed.
Lemma token_nonempty c s r : token c s = Some r -> skip_ws s <> [].
Proof. unfold token. by destruct (skip_ws s). Qed.
Lemma skip_ws_nil_token c s : skip_ws s = [] -> token c s = None.
Proof. unfold token. by intros ->. Qed.

Lemma strip_ext lit s r more : strip lit s = Some r -> strip lit (s ++ more) = Some (r ++ more).
Proof.
  revert s. induction lit as [|u lit IH]; intros s; cbn [strip]; [by intros [= ->]|].
  destruct s as [|v s]; [done|]. cbn [app strip]. destruct (u =? v); [apply IH|done].
Qed.

Lemma parse_string_ext n s us r more :
  (length s <= n)%nat -> parse_string s = Some (us, r) -> parse_string (s ++ more) = Some (us, r ++ more).
Proof.
  revert s us r. induction n as [|n IH]; intros s us r Hn.
  { destruct s; [done|simpl in Hn; lia]. }
  destruct s as [|u s]; [done|]. simpl in Hn. cbn [app parse_string].
  destruct (u =? 34); [by intros [= <- <-]|]. destruct (u =? 92).
  - destruct s as [|v s]; [done|]. simpl in Hn. cbn [app]. destruct (v =? 117).
    + destruct s as [|a [|b [|c [|d s]]]]; try done. simpl in Hn. cbn [app].
      intros H. apply bind_Some in H as (a' & -> & H). apply bind_Some in H as (b' & -> & H).
      apply bind_Some in H as (c' & -> & H). apply bind_Some in H as (d' & -> & H).
      apply bind_Some in H as ([us' r'] & H & [= <- <-]). cbn [mbind option_bind]. by rewrite (IH _ us' r') by (lia || done).
    + intros H. apply bind_Some in H as (e & -> & H). apply bind_Some in H as ([us' r'] & H & [= <- <-]).
      cbn [mbind option_bind]. by rewrite (IH _ us' r') by (lia || done).
  - destruct (u <? 32); [done|]. intros H. apply bind_Some in H as ([us' r'] & H & [= <- <-]).
    by rewrite (IH _ us' r') by (lia || done).
Qed.

Lemma span_digits_ext s ds r more : span_digits s = (ds, r) -> r <> [] -> span_digits (s ++ more) = (ds, r ++ more).
Proof.
  revert ds. induction s as [|u s IH]; intros ds; cbn [app span_digits]; [by intros [= <- <-]|].
  destruct (is_dec u); [|by intros [= <- <-]]. destruct (span_digits s) as [ds' r'] eqn:Hs.
  intros [= <- <-] Hr. by rewrite (IH ds').
Qed.
Lemma parse_exp_ext s e r more : parse_exp s = Some (e, r) -> r <> [] -> parse_exp (s ++ more) = Some (e, r ++ more).
Proof.
  destruct s as [|u s]; [by intros [= <- <-]|]. cbn [app parse_exp]. destruct (_ || _); [|by intros [= <- <-]].
  assert (Hspan : forall sign t, match span_digits t with ([], _) => None | (ds, r0) => Some (sign * digits_value ds, r0) end = Some (e, r) ->
    r <> [] -> match span_digits (t ++ more) with ([], _) => None | (ds, r0) => Some (sign * digits_value ds, r0) end = Some (e, r ++ more)).
  { intros sign t H Hr. destruct (span_digits t) as [ds r0] eqn:Ht. destruct ds as [|d ds]; [done|].
    injection H as <- ->. by rewrite (span_digits_ext _ _ _ more Ht Hr). }
  destruct s as [|v s]; [done|]. cbn [app]. destruct (v =? 43); [apply Hspan|]. destruct (v =? 45); [apply Hspan|].
  apply (Hspan 1 (v :: s)).
Qed.
Lemma parse_frac_ext s fs r more : parse_frac s = Some (fs, r) -> r <> [] -> parse_frac (s ++ more) = Some (fs, r ++ more).
Proof.
  destruct s as [|u s]; [by intros [= <- <-]|]. cbn [app parse_frac]. destruct (u =? 46); [|by intros [= <- <-]].
  destruct (span_digits s) as [ds r0] eqn:Hs. destruct ds as [|d ds]; [done|]. intros [= <- <-] Hr.
  by rewrite (span_digits_ext _ _ _ more Hs Hr).
Qed.
Lemma parse_parts_ext s d x r more :
  parse_parts s = Some (d, x, r) -> r <> [] -> parse_parts (s ++ more) = Some (d, x, r ++ more).
Proof.
  unfold parse_parts. destruct (span_digits s) as [ds r1] eqn:Hs. destruct ds as [|d0 ds]; [done|].
  intros H Hr. destruct (_ && _) eqn:E in H; [done|].
  apply bind_Some in H as ([fs r2] & Hf & H). apply bind_Some in H as ([e r3] & He & [= <- <- <-]).
  assert (r2 <> []) as Hr2 by (intros ->; cbn in He; congruence).
  assert (r1 <> []) as Hr1 by (intros ->; cbn in Hf; congruence).
  rewrite (span_digits_ext _ _ _ more Hs Hr1), E, (parse_frac_ext _ _ _ more Hf Hr2). cbn [mbind option_bind].
  by rewrite (parse_exp_ext _ _ _ more He Hr).
Qed.
Lemma parse_number_ext s n r more :
  parse_number s = Some (n, r) -> r <> [] -> parse_number (s ++ more) = Some (n, r ++ more).
Proof.
  assert (Hgen : forall (negative : bool) t,
    ('(d, x, r0) ← parse_parts t; Some (if negative then num_neg (num_of_decimal d x) else num_of_decimal d x, r0)) = Some (n, r) ->
    r <> [] ->
    ('(d, x, r0) ← parse_parts (t ++ more); Some (if negative then num_neg (num_of_decimal d x) else num_of_decimal d x, r0)) = Some (n, r ++ more)).
  { intros negative t H Hr. apply bind_Some in H as ([[d x] r0] & Hp & [= <- <-]).
    by rewrite (parse_parts_ext _ _ _ _ more Hp Hr). }
  unfold parse_number. destruct s as [|u s]; [done|]. cbn [app]. destruct (u =? 45); [apply (Hgen true s)|].
  apply (Hgen false (u :: s)).
Qed.

Definition is_number (v : json) : bool := match v with JsonNumber _ => true | _ => false end.

Lemma parse_ext fuel more :
  (forall s v r, parse_value fuel s = Some (v, r) -> (is_number v = false \/ r <> []) ->
     parse_value fuel (s ++ more) = Some (v, r ++ more)) /\
  (forall acc s v r, parse_elements fuel acc s = Some (v, r) -> parse_elements fuel acc (s ++ more) = Some (v, r ++ more)) /\
  (forall acc s v r, parse_members fuel acc s = Some (v, r) -> parse_members fuel acc (s ++ more) = Some (v, r ++ more)).
Proof.
  induction fuel as [|fuel (IHv & IHe & IHm)]; [done|].
  assert (Hnext : forall r c c' r', token c r = None -> token c' r = Some r' -> token c (r ++ more) = None).
  { intros r c c' r' Hn Hs. apply token_None_app; [done|]. by eapply token_nonempty. }
  split_and!.
  - intros s v r. cbn [parse_value]. destruct (skip_ws s) as [|u t] eqn:Hs; [done|].
    rewrite skip_ws_app, Hs by (by rewrite Hs). cbn [app].
    destruct (u =? 123).
    { destruct (token 125 t) as [r'|] eqn:Ht; [intros [= <- <-] _; by rewrite (token_app _ _ _ _ Ht)|].
      intros H _. rewrite token_None_app; [by apply IHm|done|]. intros Hnil.
      destruct fuel; [done|]. cbn [parse_members] in H. by rewrite (skip_ws_nil_token 34) in H. }
    destruct (u =? 91).
    { destruct (token 93 t) as [r'|] eqn:Ht; [intros [= <- <-] _; by rewrite (token_app _ _ _ _ Ht)|].
      intros H _. rewrite token_None_app; [by apply IHe|done|]. intros Hnil.
      destruct fuel; [done|]. cbn [parse_elements] in H. destruct fuel; [done|]. cbn [parse_value] in H.
      by rewrite Hnil in H. }
    destruct (u =? 34).
    { intros H _. apply bind_Some in H as ([us r'] & H & [= <- <-]).
      by rewrite (parse_string_ext _ _ _ _ more (le_n _) H). }
    change (u :: t ++ more) with ((u :: t) ++ more).
    destruct (u =? 110); [|destruct (u =? 116); [|destruct (u =? 102)]];
      try (intros H _; apply bind_Some in H as (r' & H & [= <- <-]); by rewrite (strip_ext _ _ _ more H)).
    intros H Hr. apply bind_Some in H as ([n r'] & H & [= <- <-]).
    rewrite (parse_number_ext _ _ _ more H); [done|]. by destruct Hr.
  - intros acc s v r. cbn [parse_elements]. intros H. apply bind_Some in H as ([v' r'] & Hv & H).
    assert (Hr' : r' <> []).
    { intros ->. by destruct (token 44 []) eqn:E. }
    rewrite (IHv s v' r') by auto. cbn [mbind option_bind]. destruct (token 44 r') as [r2|] eqn:Ht.
    + rewrite (token_app _ _ _ _ Ht). by apply IHe.
    + apply bind_Some in H as (r2 & H & [= <- <-]). rewrite (Hnext _ _ _ _ Ht H), (token_app _ _ _ _ H). done.
  - intros acc s v r. cbn [parse_members]. intros H. apply bind_Some in H as (r0 & H0 & H).
    apply bind_Some in H as ([k r1] & Hk & H). apply bind_Some in H as (r2 & Hr2 & H).
    apply bind_Some in H as ([v' r'] & Hv & H).
    assert (Hr' : r' <> []).
    { intros ->. by destruct (token 44 []) eqn:E. }
    rewrite (token_app _ _ _ _ H0). cbn [mbind option_bind].
    rewrite (parse_string_ext _ _ _ _ more (le_n _) Hk). cbn [mbind option_bind]. rewrite (token_app _ _ _ _ Hr2).
    cbn [mbind option_bind]. rewrite (IHv r2 v' r') by auto. cbn [mbind option_bind]. cbn zeta in H |- *.
    destruct (token 44 r') as [r3|] eqn:Ht.
    + rewrite (token_app _ _ _ _ Ht). by apply IHm.
    + apply bind_Some in H as (r3 & H & [= <- <-]). rewrite (Hnext _ _ _ _ Ht H), (token_app _ _ _ _ H). done.
Qed.

(** A text cut off before the end of an object is not JSON. *)
Lemma torn_object_syntax props p q :
  json_ok (JsonObject props) = true -> JSON_stringify (JsonObject props) = p ++ q -> q <> [] -> JSON_parse p = None.
Proof.
  intros Hok Heq Hq. destruct (JSON_parse p) as [w|] eqn:Hp; [exfalso|done]. unfold JSON_parse in Hp.
  apply bind_Some in Hp as ([v r] & Hv & Hr).
  assert (Hobj : is_number v = false).
  { destruct p as [|u p]; [done|]. cbn [JSON_stringify] in Heq. injection Heq as <- _.
    cbn [parse_value skip_ws] in Hv. change (is_ws 123) with false in Hv. cbn [Z.eqb Pos.eqb] in Hv.
    destruct (token 125 p); [by injection Hv as <- _|]. revert Hv.
    generalize (2 * length (123%Z :: p))%nat as fuel. generalize p as s. generalize (@nil (string * json)) as acc. clear.
    intros acc s fuel. revert acc s. induction fuel as [|fuel IH]; intros acc s; [done|].
    cbn [parse_members]. intros H. apply bind_Some in H as (r0 & _ & H). apply bind_Some in H as ([k r1] & _ & H).
    apply bind_Some in H as (r2 & _ & H). apply bind_Some in H as ([v' r'] & _ & H). cbn zeta in H.
    destruct (token 44 r'); [by eapply IH|]. by apply bind_Some in H as (? & _ & [= <- <-]). }
  apply (proj1 (parse_ext _ q)) in Hv; [|by left]. rewrite <-Heq in Hv.
  pose proof (json_reads_back _ Hok (Nat.max (S (2 * length p)) (calls (JsonObject props))) [] ltac:(lia) I) as Hfull.
  rewrite app_nil_r in Hfull. apply (parse_value_fuel _ (Nat.max (S (2 * length p)) (calls (JsonObject props)))) in Hv; [|lia].
  rewrite Hv in Hfull. injection Hfull as _ Hnil. by apply app_nil in Hnil as [_ ?].
Qed.

(** ** What was read precedes what is left *)

Lemma token_suffix c s r : token c s = Some r -> exists m, s = m ++ c :: r.
Proof.
  unfold token. induction s as [|u s IH]; [done|]. cbn [skip_ws]. destruct (is_ws u).
  - intros H. destruct (IH H) as [m ->]. by exists (u :: m).
  - destruct (Z.eqb_spec u c) as [->|]; [|done]. intros [= <-]. by exists [].
Qed.
Lemma skip_ws_suffix s : skip_ws s `suffix_of` s.
Proof. induction s as [|u s IH]; [done|]. cbn [skip_ws]. destruct (is_ws u); [by apply suffix_cons_r|done]. Qed.
Lemma token_suffix_of c s r : token c s = Some r -> r `suffix_of` s.
Proof. intros [m ->]%token_suffix. exists (m ++ [c]). by rewrite <-(assoc_L (++)). Qed.
Lemma parse_string_suffix n s us r : (length s <= n)%nat -> parse_string s = Some (us, r) -> r `suffix_of` s.
Proof.
  revert s us. induction n as [|n IH]; intros [|u s] us Hn; cbn [length] in Hn; try done; try lia. cbn [parse_string].
  destruct (u =? 34); [intros [= _ <-]; by apply suffix_cons_r|].
  destruct (u =? 92).
  - destruct s as [|v s]; [done|]. cbn [length] in Hn. destruct (v =? 117).
    + destruct s as [|a [|b [|c [|d s]]]]; try done. cbn [length] in Hn. intros H.
      do 4 apply bind_Some in H as (? & _ & H). apply bind_Some in H as ([us' r'] & H & [= _ <-]).
      apply IH in H; [|lia]. by do 6 apply suffix_cons_r.
    + intros H. apply bind_Some in H as (? & _ & H). apply bind_Some in H as ([us' r'] & H & [= _ <-]).
      apply IH in H; [|lia]. by do 2 apply suffix_cons_r.
  - destruct (u <? 32); [done|]. intros H. apply bind_Some in H as ([us' r'] & H & [= _ <-]).
    apply IH in H; [|lia]. by apply suffix_cons_r.
Qed.
Lemma strip_suffix lit s r : strip lit s = Some r -> r `suffix_of` s.
Proof.
  revert s. induction lit as [|u lit IH]; intros [|v s]; cbn [strip]; try done; try (by intros [= <-]).
  destruct (u =? v); [|done]. intros H%IH. by apply suffix_cons_r.
Qed.
Lemma span_digits_suffix s ds r : span_digits s = (ds, r) -> r `suffix_of` s.
Proof.
  revert ds. induction s as [|u s IH]; intros ds; cbn [span_digits]; [by intros [= _ <-]|].
  destruct (is_dec u); [|by intros [= _ <-]]. destruct (span_digits s) as [ds' r'] eqn:E.
  intros [= _ <-]. apply suffix_cons_r. by eapply IH.
Qed.
Lemma parse_frac_suffix s fs r : parse_frac s = Some (fs, r) -> r `suffix_of` s.
Proof.
  unfold parse_frac. destruct s as [|u s]; [by intros [= _ <-]|]. destruct (u =? 46); [|by intros [= _ <-]].
  destruct (span_digits s) as [[|d ds] r'] eqn:E; [done|]. intros [= _ <-]. apply suffix_cons_r. by eapply span_digits_suffix.
Qed.
Lemma parse_exp_suffix s e r : parse_exp s = Some (e, r) -> r `suffix_of` s.
Proof.
  unfold parse_exp. destruct s as [|u s]; [by intros [= _ <-]|]. destruct ((u =? 101) || (u =? 69)); [|by intros [= _ <-]].
  destruct s as [|v s]; [done|]. destruct (v =? 43), (v =? 45);
    match goal with |- context [span_digits ?t] => destruct (span_digits t) as [[|d ds] r'] eqn:E end; try done;
    intros [= _ <-]; apply span_digits_suffix in E; apply suffix_cons_r; first [done|by apply suffix_cons_r].
Qed.
Lemma parse_number_suffix s n r : parse_number s = Some (n, r) -> r `suffix_of` s.
Proof.
  assert (Hp : forall t x, parse_parts t = Some (x, r) -> r `suffix_of` t).
  { intros t x. unfold parse_parts. destruct (span_digits t) as [[|d ds] t1] eqn:E; [done|].
    destruct (_ && _); [done|]. intros H. apply bind_Some in H as ([fs t2] & H1 & H). apply bind_Some in H as ([e t3] & H2 & [= _ <-]).
    apply span_digits_suffix in E. apply parse_frac_suffix in H1. apply parse_exp_suffix in H2.
    etransitivity; [done|]. by etransitivity. }
  unfold parse_number. destruct s as [|u s]; [done|]. destruct (u =? 45); intros H;
    apply bind_Some in H as ([[d x] r'] & H & [= _ <-]); apply Hp in H; [by apply suffix_cons_r|done].
Qed.

Lemma parse_suffix fuel :
  (forall s v r, parse_value fuel s = Some (v, r) -> r `suffix_of` s) /\
  (forall acc s v r, parse_elements fuel acc s = Some (v, r) -> r `suffix_of` s) /\
  (forall acc s v r, parse_members fuel acc s = Some (v, r) -> exists m, s = m ++ 125 :: r).
Proof.
  induction fuel as [|fuel (IHv & IHe & IHm)]; [done|]. split_and!.
  - intros s v r. cbn [parse_value]. pose proof (skip_ws_suffix s) as Hs. destruct (skip_ws s) as [|u t]; [done|].
    assert (Ht : t `suffix_of` s) by (etransitivity; [|done]; by apply suffix_cons_r).
    destruct (u =? 123).
    { destruct (token 125 t) as [t'|] eqn:E.
      - intros [= _ <-]. apply token_suffix_of in E. by transitivity t.
      - intros [m ->]%IHm. transitivity (m ++ 125 :: r); [|done]. exists (m ++ [125]). by rewrite <-(assoc_L (++)). }
    destruct (u =? 91).
    { destruct (token 93 t) as [t'|] eqn:E.
      - intros [= _ <-]. apply token_suffix_of in E. by transitivity t.
      - intros H%IHe. by transitivity t. }
    destruct (u =? 34).
    { intros H. apply bind_Some in H as ([us r'] & H & [= _ <-]). apply (parse_string_suffix _ _ _ _ (le_n _)) in H. by transitivity t. }
    destruct (u =? 110); [|destruct (u =? 116); [|destruct (u =? 102)]];
      intros H; [apply bind_Some in H as (r' & H%strip_suffix & [= _ <-]); by transitivity (u :: t)..|].
    apply bind_Some in H as ([n r'] & H%parse_number_suffix & [= _ <-]). by transitivity (u :: t).
  - intros acc s v r. cbn [parse_elements]. intros H. apply bind_Some in H as ([w t] & Hv%IHv & H).
    destruct (token 44 t) as [t'|] eqn:E.
    + apply token_suffix_of in E. apply IHe in H. transitivity t'; [done|]. by transitivity t.
    + apply bind_Some in H as (t' & H%token_suffix_of & [= _ <-]). by transitivity t.
  - intros acc s v r. cbn [parse_members]. intros H. apply bind_Some in H as (r0 & H0%token_suffix_of & H).
    apply bind_Some in H as ([k r1] & H1%(parse_string_suffix _ _ _ _ (le_n _)) & H).
    apply bind_Some in H as (r2 & H2%token_suffix_of & H). apply bind_Some in H as ([w r3] & H3%IHv & H). cbn zeta in H.
    assert (Hsuf : r3 `suffix_of` s) by (transitivity r2; [done|]; transitivity r1; [done|]; by transitivity r0). destruct Hsuf as [m0 ->].
    destruct (token 44 r3) as [r4|] eqn:E.
    + apply token_suffix in E as [m1 ->]. apply IHm in H as [m2 ->]. exists (m0 ++ m1 ++ 44 :: m2).
      by rewrite <-!(assoc_L (++)).
    + apply bind_Some in H as (r5 & H & [= _ <-]). apply token_suffix in H as [m1 ->]. exists (m0 ++ m1).
      by rewrite <-!(assoc_L (++)).
Qed.

(** The end of a text that was cut inside a character reads as replacement
    characters; it is not JSON either. *)
Definition REPLACEMENT : Z := 65533.

Lemma skip_ws_all r : skip_ws r = [] -> Forall (fun u => is_ws u = true) r.
Proof. induction r as [|u r IH]; [constructor|]. cbn [skip_ws]. destruct (is_ws u) eqn:E; [|done]. intros H. constructor; auto. Qed.
Lemma ends_in_replacement m c r t n :
  m ++ c :: r = t ++ replicate (S n) REPLACEMENT -> c <> REPLACEMENT -> skip_ws r <> [].
Proof.
  intros Heq Hc Hr%skip_ws_all. rewrite replicate_S_end, (assoc_L (++)) in Heq.
  destruct r as [|u r _] using rev_ind.
  - apply app_inj_tail in Heq as [_ ->]. done.
  - rewrite app_comm_cons, (assoc_L (++)) in Heq. apply app_inj_tail in Heq as [_ ->].
    apply Forall_app in Hr as [_ Hr]. inversion Hr as [|? ? Hws]. by compute in Hws.
Qed.
Lemma torn_object_replaced props p q n :
  json_ok (JsonObject props) = true -> JSON_stringify (JsonObject props) = p ++ q -> q <> [] ->
  JSON_parse (p ++ replicate n REPLACEMENT) = None.
Proof.
  intros Hok Heq Hq. destruct n as [|n]; [cbn [replicate]; rewrite app_nil_r; by apply (torn_object_syntax props p q)|].
  destruct p as [|u p]; [done|]. cbn [JSON_stringify app] in Heq. injection Heq as <- _.
  destruct (JSON_parse _) as [w|] eqn:Hp; [exfalso|done]. unfold JSON_parse in Hp.
  apply bind_Some in Hp as ([v r] & Hv & Hr). remember (p ++ replicate (S n) REPLACEMENT) as t eqn:Ht.
  change ((123 :: p) ++ replicate (S n) REPLACEMENT) with (123 :: p ++ replicate (S n) REPLACEMENT) in Hv. rewrite <-Ht in Hv.
  cbn [parse_value skip_ws] in Hv. change (is_ws 123) with false in Hv. cbn [Z.eqb Pos.eqb] in Hv.
  assert (Hend : exists m, t = m ++ 125 :: r).
  { destruct (token 125 t) as [t'|] eqn:E; [injection Hv as _ <-; by apply token_suffix|].
    by apply (proj2 (proj2 (parse_suffix _))) in Hv. }
  destruct Hend as [m Hm]. rewrite Hm in Ht. eapply ends_in_replacement in Ht; [|done].
  by destruct (skip_ws r).
Qed.
