(* ===== verification/SessionState.v ===== *)
(** * The in-memory session state (packages/agent/src/harness/session/state.ts)

    [SessionState] is the event-sourced state every storage keeps: the entry
    tree, the lane pointers, the lane records with the open operations, the
    facts, the statistics and the log.  Methods that change it run in the monad
    [M SessionState SessionError]; reads are functions of the state. *)
From S2P Require Import Prelude JsNumber SessionTypes.

Record SessionState := {
  sequence : Z;
  usedIds : gset string;
  entries : list Entry;
  entriesById : gmap string Entry;
  records : list LaneRecord;
  openOperationsByLane : gmap string (jsmap string OperationStartedRecord);
  lanes : jsmap string (option string);
  log : list LogItem;
  stats : SessionStats;
  name : option string;
  labels : gmap string string }.

(** Field initialisers of the class. *)
Definition initial_state : SessionState := {|
  sequence := 0; usedIds := ∅; entries := []; entriesById := ∅; records := [];
  openOperationsByLane := ∅; lanes := [("main", None)]; log := [];
  stats := {| messageCount := num_zero; cachedTokens := num_zero; uncachedTokens := num_zero;
              totalTokens := num_zero; costTotal := num_zero |};
  name := None; labels := ∅ |}.

(** Field assignments. *)
Section setters.
Variable s : SessionState.
Definition set_sequence v := {| sequence := v; usedIds := usedIds s; entries := entries s;
  entriesById := entriesById s; records := records s;
  openOperationsByLane := openOperationsByLane s; lanes := lanes s; log := log s;
  stats := stats s; name := name s; labels := labels s |}.
Definition set_usedIds v := {| sequence := sequence s; usedIds := v; entries := entries s;
  entriesById := entriesById s; records := records s;
  openOperationsByLane := openOperationsByLane s; lanes := lanes s; log := log s;
  stats := stats s; name := name s; labels := labels s |}.
Definition set_entries v := {| sequence := sequence s; usedIds := usedIds s; entries := v;
  entriesById := entriesById s; records := records s;
  openOperationsByLane := openOperationsByLane s; lanes := lanes s; log := log s;
  stats := stats s; name := name s; labels := labels s |}.
Definition set_entriesById v := {| sequence := sequence s; usedIds := usedIds s;
  entries := entries s; entriesById := v; records := records s;
  openOperationsByLane := openOperationsByLane s; lanes := lanes s; log := log s;
  stats := stats s; name := name s; labels := labels s |}.
Definition set_records v := {| sequence := sequence s; usedIds := usedIds s;
  entries := entries s; entriesById := entriesById s; records := v;
  openOperationsByLane := openOperationsByLane s; lanes := lanes s; log := log s;
  stats := stats s; name := name s; labels := labels s |}.
Definition set_openOperationsByLane v := {| sequence := sequence s; usedIds := usedIds s;
  entries := entries s; entriesById := entriesById s; records := records s;
  openOperationsByLane := v; lanes := lanes s; log := log s;
  stats := stats s; name := name s; labels := labels s |}.
Definition set_lanes v := {| sequence := sequence s; usedIds := usedIds s;
  entries := entries s; entriesById := entriesById s; records := records s;
  openOperationsByLane := openOperationsByLane s; lanes := v; log := log s;
  stats := stats s; name := name s; labels := labels s |}.
Definition set_log v := {| sequence := sequence s; usedIds := usedIds s;
  entries := entries s; entriesById := entriesById s; records := records s;
  openOperationsByLane := openOperationsByLane s; lanes := lanes s; log := v;
  stats := stats s; name := name s; labels := labels s |}.
Definition set_stats v := {| sequence := sequence s; usedIds := usedIds s;
  entries := entries s; entriesById := entriesById s; records := records s;
  openOperationsByLane := openOperationsByLane s; lanes := lanes s; log := log s;
  stats := v; name := name s; labels := labels s |}.
Definition set_name v := {| sequence := sequence s; usedIds := usedIds s;
  entries := entries s; entriesById := entriesById s; records := records s;
  openOperationsByLane := openOperationsByLane s; lanes := lanes s; log := log s;
  stats := stats s; name := v; labels := labels s |}.
Definition set_labels v := {| sequence := sequence s; usedIds := usedIds s;
  entries := entries s; entriesById := entriesById s; records := records s;
  openOperationsByLane := openOperationsByLane s; lanes := lanes s; log := log s;
  stats := stats s; name := name s; labels := v |}.
End setters.

Inductive SessionMutation :=
| MutEntry (lane : option string) (entry : Entry)
| MutRecord (record : LaneRecord)
| MutLane (seq : Z) (lane : string) (leafId : option string)
| MutName (seq : Z) (name : option string)
| MutLabel (seq : Z) (targetId : string) (label : option string).

Definition mutation_seq (m : SessionMutation) : Z :=
  match m with
  | MutEntry _ e => e_seq e
  | MutRecord r => lr_seq r
  | MutLane s _ _ | MutName s _ | MutLabel s _ _ => s
  end.

Definition sessionError (c : SessionErrorCode) (msg : string) : SessionError :=
  {| se_code := c; se_message := msg |}.

Definition invalidMutation (message : string) : SessionError :=
  sessionError invalid_entry ("Invalid session mutation: " +:+ message).

Definition assertValidLimit (limit : option number) : result SessionError unit :=
  match limit with
  | None => Ok tt
  | Some n => match num_to_Z n with
              | Some z => if z <=? 0
                          then Err (sessionError invalid_query "limit must be a positive integer")
                          else Ok tt
              | None => Err (sessionError invalid_query "limit must be a positive integer")
              end
  end.

Definition assertValidCursor (afterSeq : option number) : result SessionError unit :=
  let e := sessionError invalid_query "cursor sequence must be a non-negative integer" in
  match afterSeq with
  | None => Ok tt
  | Some n => match num_to_Z n with
              | Some z => if z <? 0 then Err e else Ok tt
              | None => Err e
              end
  end.

Definition ordered {A} (items : list A) (order : option EntryOrder) : list A :=
  match order with
  | Some oldestFirst => items
  | _ => reverse items
  end.

Definition nextSequence (s : SessionState) : Z := sequence s + 1.

Definition getLanes (s : SessionState) : list LanePointer :=
  (fun p => {| lp_lane := p.1; lp_leafId := p.2 |}) <$> lanes s.

Definition requireLane (lane : string) (s : SessionState) : result SessionError (option string) :=
  match jm_get lane (lanes s) with
  | None => Err (sessionError invalid_lane ("Lane not found: " +:+ lane))
  | Some leafId => Ok leafId
  end.

Definition validateNewLane (lane : string) (s : SessionState) : result SessionError unit :=
  if jm_has lane (lanes s)
  then Err (sessionError already_exists ("Lane already exists: " +:+ lane)) else Ok tt.

Definition validateTarget (targetId : option string) (s : SessionState) : result SessionError unit :=
  match targetId with
  | None => Ok tt
  | Some id => match entriesById s !! id with
               | Some _ => Ok tt
               | None => Err (sessionError not_found ("Entry not found: " +:+ id))
               end
  end.

Definition validateUnusedId (id : string) (s : SessionState) : result SessionError unit :=
  if bool_decide (id ∈ usedIds s)
  then Err (sessionError already_exists ("Session id already exists: " +:+ id)) else Ok tt.

(** The usage totals after a [usage] record. *)
Definition add_usage (st : SessionStats) (u : Usage) : SessionStats := {|
  messageCount := messageCount st;
  cachedTokens := num_add (cachedTokens st) (usage_cacheRead u);
  uncachedTokens :=
    num_add (uncachedTokens st) (num_add (usage_input u) (usage_cacheWrite u));
  totalTokens := num_add (totalTokens st) (usage_totalTokens u);
  costTotal := num_add (costTotal st) (cost_total (usage_cost u)) |}.
Definition add_message (st : SessionStats) : SessionStats := {|
  messageCount := num_add (messageCount st) (num_of_Z 1);
  cachedTokens := cachedTokens st; uncachedTokens := uncachedTokens st;
  totalTokens := totalTokens st; costTotal := costTotal st |}.

(** [applyMutation]: every check comes before the first assignment. *)
Definition applyMutation (invalid : string -> SessionError) (mutation : SessionMutation)
  : M SessionState SessionError unit :=
  let seq := mutation_seq mutation in
  s ← get;
  throw_if (negb (seq =? sequence s + 1))
           (invalid ("has non-consecutive seq " +:+ pretty seq));;
  match mutation with
  | MutEntry lane entry =>
      throw_if (bool_decide (e_id entry ∈ usedIds s))
               (invalid ("contains duplicate id " +:+ e_id entry));;
      match lane with
      | None => mret tt
      | Some l =>
          match jm_get l (lanes s) with
          | None => throw (invalid ("references missing lane " +:+ l))
          | Some leafId =>
              throw_if (negb (bool_decide (e_parentId entry = leafId)))
                       (invalid "does not chain to the lane leaf")
          end
      end;;
      match e_parentId entry with
      | None => mret tt
      | Some p => throw_if (negb (bool_decide (is_Some (entriesById s !! p))))
                           (invalid ("references missing parent " +:+ p))
      end;;
      modify (fun s => set_sequence s seq);;
      modify (fun s => set_usedIds s ({[e_id entry]} ∪ usedIds s));;
      modify (fun s => set_entries s (entries s ++ [entry]));;
      modify (fun s => set_entriesById s (<[e_id entry := entry]> (entriesById s)));;
      match lane with
      | None => mret tt
      | Some l => modify (fun s => set_lanes s (jm_set l (Some (e_id entry)) (lanes s)))
      end;;
      modify (fun s => set_log s (log s ++ [LogEntry seq entry]));;
      if bool_decide (e_type entry = TMessage)
      then modify (fun s => set_stats s (add_message (stats s))) else mret tt
  | MutRecord record =>
      throw_if (negb (jm_has (lr_lane record) (lanes s)))
               (invalid ("references missing lane " +:+ lr_lane record));;
      throw_if (bool_decide (lr_id record ∈ usedIds s))
               (invalid ("contains duplicate id " +:+ lr_id record));;
      modify (fun s => set_sequence s seq);;
      modify (fun s => set_usedIds s ({[lr_id record]} ∪ usedIds s));;
      modify (fun s => set_records s (records s ++ [record]));;
      match lr_body record with
      | ROperationStarted o =>
          modify (fun s => set_openOperationsByLane s
            (<[lr_lane record :=
                 jm_set (lr_id record) {| osr_base := lr_base record; osr := o |}
                        (default [] (openOperationsByLane s !! lr_lane record))]>
               (openOperationsByLane s)))
      | ROperationFinished o =>
          modify (fun s => set_openOperationsByLane s
            (alter (jm_delete (of_runId o)) (lr_lane record) (openOperationsByLane s)))
      | _ => mret tt
      end;;
      modify (fun s => set_log s (log s ++ [LogRecord seq record]));;
      match lr_body record with
      | RUsage u => modify (fun s => set_stats s (add_usage (stats s) (ur_usage u)))
      | _ => mret tt
      end
  | MutLane _ lane leafId =>
      match leafId with
      | None => mret tt
      | Some id => throw_if (negb (bool_decide (is_Some (entriesById s !! id))))
                            (invalid ("references missing lane target " +:+ id))
      end;;
      modify (fun s => set_sequence s seq);;
      modify (fun s => set_lanes s (jm_set lane leafId (lanes s)));;
      modify (fun s => set_log s (log s ++ [LogLane seq lane leafId]))
  | MutName _ n =>
      modify (fun s => set_sequence s seq);;
      modify (fun s => set_name s n);;
      modify (fun s => set_log s (log s ++ [LogName seq n]))
  | MutLabel _ targetId label =>
      throw_if (negb (bool_decide (is_Some (entriesById s !! targetId))))
               (invalid ("references missing label target " +:+ targetId));;
      modify (fun s => set_sequence s seq);;
      match label with
      | None => modify (fun s => set_labels s (delete targetId (labels s)))
      | Some l => modify (fun s => set_labels s (<[targetId := l]> (labels s)))
      end;;
      modify (fun s => set_log s (log s ++ [LogLabel seq targetId label]))
  end.

Definition getEntry (id : string) (s : SessionState) : option Entry := entriesById s !! id.

Definition matchesEntryQuery (entry : Entry) (query : EntryQuery) : bool :=
  match q_type query with None => true | Some t => bool_decide (e_type entry = t) end &&
  match q_customType query with
  | None => true
  | Some c => match e_body entry with
              | CustomEntry ct _ => bool_decide (ct = c)
              | _ => false
              end
  end &&
  match q_cursor query with
  | None => true
  | Some c => let afterSeq := default 0 (num_to_Z c) in
              match q_order query with
              | Some oldestFirst => afterSeq <? e_seq entry
              | _ => e_seq entry <? afterSeq
              end
  end.

Definition matchesRecordQuery (record : LaneRecord) (query : RecordQuery) : bool :=
  match rq_lane query with None => true | Some l => bool_decide (lr_lane record = l) end &&
  match rq_type query with None => true | Some t => bool_decide (lr_type record = t) end &&
  match rq_runId query with
  | None => true
  | Some r => match lr_body record with
              | ROperationStarted _ => bool_decide (lr_id record = r)
              | _ => bool_decide (lr_runId record = Some r)
              end
  end &&
  match rq_operationKind query with
  | None => true
  | Some k => match lr_body record with
              | ROperationStarted o => bool_decide (intent_kind (os_intent o) = k)
              | _ => false
              end
  end &&
  match rq_afterSeq query with
  | None => true
  | Some a => default 0 (num_to_Z a) <? lr_seq record
  end.

(** [results.length === query.limit] *)
Definition limit_reached {A} (limit : option number) (results : list A) : bool :=
  match limit with None => false | Some n => num_eq_Z n (zlen results) end.

(** [for (const x of items) { if (!p(x)) continue; results.push(x);
    if (results.length === limit) break; }] *)
Fixpoint collect {A} (p : A -> bool) (limit : option number) (items results : list A) : list A :=
  match items with
  | [] => results
  | x :: rest =>
      if p x then
        let results' := results ++ [x] in
        if limit_reached limit results' then results' else collect p limit rest results'
      else collect p limit rest results
  end.

Definition findEntries (query : EntryQuery) (s : SessionState) : result SessionError (list Entry) :=
  _ ← assertValidLimit (q_limit query);
  _ ← assertValidCursor (q_cursor query);
  Ok (collect (fun e => matchesEntryQuery e query) (q_limit query)
              (ordered (entries s) (q_order query)) []).

Definition findRecords (query : RecordQuery) (s : SessionState)
  : result SessionError (list LaneRecord) :=
  _ ← assertValidLimit (rq_limit query);
  _ ← assertValidCursor (rq_afterSeq query);
  Ok (collect (fun r => matchesRecordQuery r query) (rq_limit query)
              (ordered (records s) (rq_order query)) []).

(** [openOperations.slice(0, limit)] for a limit that passed [assertValidLimit]. *)
Definition findOpenOperations (lane : string) (limit : option number) (s : SessionState)
  : result SessionError (list OperationStartedRecord) :=
  _ ← assertValidLimit limit;
  let openOperations :=
    match openOperationsByLane s !! lane with
    | Some m => reverse (jm_values m)
    | None => []
    end in
  Ok match limit with
     | None => openOperations
     | Some n => take (Z.to_nat (default 0 (num_to_Z n))) openOperations
     end.

Definition getLog (options : LogOptions) (s : SessionState) : result SessionError (list LogItem) :=
  _ ← assertValidLimit (lo_limit options);
  _ ← assertValidCursor (lo_afterSeq options);
  Ok (collect (fun item => match lo_afterSeq options with
                           | None => true
                           | Some a => default 0 (num_to_Z a) <? log_seq item
                           end)
              (lo_limit options) (log s) []).

Definition getName (s : SessionState) : option string := name s.
Definition getLabel (id : string) (s : SessionState) : option string := labels s !! id.
Definition getStats (s : SessionState) : SessionStats := stats s.

(** ** The branch walk

    The generator [walkToRoot] is a finite trace: the entries it yields, then
    how it ends.  A consumer that leaves its loop early never sees the end. *)
Inductive walk_end := WalkDone | WalkThrows (e : SessionError) | WalkOutOfFuel.

Fixpoint walkLoop (fuel : nat) (byId : gmap string Entry) (bounds : option BranchBounds)
    (visited : gset string) (current : Entry) : list Entry * walk_end :=
  match fuel with
  | O => ([], WalkOutOfFuel)
  | S fuel' =>
      if bool_decide (e_id current ∈ visited) then
        ([], WalkThrows (sessionError invalid_entry
               ("Session branch contains a cycle at " +:+ e_id current)))
      else
        let visited' := {[e_id current]} ∪ visited in
        if match bounds with
           | None => false
           | Some b => bool_decide (Some (e_id current) = b_stopAtId b)
                       || bool_decide (Some (e_type current) = b_stopAtType b)
           end then ([current], WalkDone)
        else match e_parentId current with
             | None => ([current], WalkDone)
             | Some parentId =>
                 match byId !! parentId with
                 | None => ([current], WalkThrows (sessionError invalid_entry
                              ("Entry not found: " +:+ parentId)))
                 | Some parent =>
                     let '(rest, fin) := walkLoop fuel' byId bounds visited' parent in
                     (current :: rest, fin)
                 end
             end
  end.

(** One more step than there are entries: the walk visits each at most once. *)
Definition walk_fuel (s : SessionState) : nat := S (size (entriesById s)).

Definition walkToRoot (start : option string) (bounds : option BranchBounds) (s : SessionState)
  : list Entry * walk_end :=
  match start with
  | None => ([], WalkDone)
  | Some id =>
      match entriesById s !! id with
      | None => ([], WalkThrows (sessionError not_found ("Entry not found: " +:+ id)))
      | Some current => walkLoop (walk_fuel s) (entriesById s) bounds ∅ current
      end
  end.

(** What a consumer sees when it exhausts the generator. *)
Definition out_of_fuel_error : SessionError := sessionError storage_error "out of fuel".
Definition walk_result {A} (fin : walk_end) (a : A) : result SessionError A :=
  match fin with
  | WalkDone => Ok a
  | WalkThrows e => Err e
  | WalkOutOfFuel => Err out_of_fuel_error
  end.

(** The oldest-first loop: [if (matches) push; if (reachedBound || full) break]. *)
Fixpoint branchOldest (query : EntryQuery) (b : BranchBounds) (items results : list Entry)
  : list Entry :=
  match items with
  | [] => results
  | entry :: rest =>
      let reachedBound := bool_decide (Some (e_id entry) = b_stopAtId b)
                          || bool_decide (Some (e_type entry) = b_stopAtType b) in
      let results' := if matchesEntryQuery entry query then results ++ [entry] else results in
      if reachedBound || limit_reached (q_limit query) results' then results'
      else branchOldest query b rest results'
  end.

(** The newest-first loop over the generator; [None] is a normal exhaustion,
    after which the generator's own end is observed. *)
Fixpoint branchNewest (query : EntryQuery) (items results : list Entry) : list Entry * bool :=
  match items with
  | [] => (results, true)
  | entry :: rest =>
      let results' := if matchesEntryQuery entry query then results ++ [entry] else results in
      if limit_reached (q_limit query) results' then (results', false)
      else branchNewest query rest results'
  end.

Definition findEntriesOnBranch (query : EntryQuery) (b : BranchBounds) (start : string)
    (s : SessionState) : result SessionError (list Entry) :=
  _ ← assertValidLimit (q_limit query);
  _ ← assertValidCursor (q_cursor query);
  match q_order query with
  | Some oldestFirst =>
      let '(path, fin) := walkToRoot (Some start) None s in
      path' ← walk_result fin path;
      Ok (branchOldest query b (reverse path') [])
  | _ =>
      let '(path, fin) := walkToRoot (Some start) (Some b) s in
      let '(results, exhausted) := branchNewest query path [] in
      if exhausted then walk_result fin results else Ok results
  end.

(** ** Forking *)

Definition oldest_query : EntryQuery :=
  {| q_type := None; q_customType := None; q_order := Some oldestFirst; q_limit := None;
     q_cursor := None |}.
Definition no_bounds : BranchBounds := {| b_stopAtType := None; b_stopAtId := None |}.

Definition with_seq (e : Entry) (seq : Z) : Entry :=
  {| e_id := e_id e; e_seq := seq; e_parentId := e_parentId e; e_timestamp := e_timestamp e;
     e_body := e_body e |}.

(** [mutations.push({ ..., seq: sequence++ })], in order. *)
Fixpoint number_from (sequence : Z) (ms : list (Z -> SessionMutation)) : list SessionMutation :=
  match ms with
  | [] => []
  | m :: ms' => m sequence :: number_from (sequence + 1) ms'
  end.

(** The entries a fork copies and the lanes it starts with. *)
Definition fork_selection (options : ForkOptions) (s : SessionState)
  : result SessionError (list Entry * list LanePointer) :=
  match options with
  | ForkTree =>
      copiedEntries ← findEntries oldest_query s;
      Ok (copiedEntries, getLanes s)
  | ForkBranch entryId position =>
      selectedEntryId ← match entryId with
                        | Some id => Ok (Some id)
                        | None => requireLane "main" s
                        end;
      targetId ← match selectedEntryId with
                 | None => Ok None
                 | Some id =>
                     let bad := Err (sessionError invalid_fork_target
                                  ("Fork target is not a message entry: " +:+ id)) in
                     match getEntry id s with
                     | None => bad
                     | Some entry =>
                         if bool_decide (e_type entry = TMessage) then
                           let position' := match position, entryId with
                                            | Some p, _ => p
                                            | None, None => PosAt
                                            | None, Some _ => PosBefore
                                            end in
                           Ok match position' with
                              | PosAt => Some (e_id entry)
                              | PosBefore => e_parentId entry
                              end
                         else bad
                     end
                 end;
      copiedEntries ← match targetId with
                      | None => Ok []
                      | Some t => findEntriesOnBranch oldest_query no_bounds t s
                      end;
      Ok (copiedEntries, [{| lp_lane := "main"; lp_leafId := targetId |}])
  end.

Definition fork_builders (copiedEntries : list Entry) (forkLanes : list LanePointer)
    (s : SessionState) : list (Z -> SessionMutation) :=
  ((fun e seq => MutEntry None (with_seq e seq)) <$> copiedEntries) ++
  ((fun p seq => MutLane seq (lp_lane p) (lp_leafId p)) <$> forkLanes) ++
  match name s with None => [] | Some n => [fun seq => MutName seq (Some n)] end ++
  omap (fun e => (fun l seq => MutLabel seq (e_id e) (Some l)) <$> labels s !! e_id e)
       copiedEntries.

Definition createForkMutations (options : ForkOptions) (s : SessionState)
  : result SessionError (list SessionMutation) :=
  '(copiedEntries, forkLanes) ← fork_selection options s;
  Ok (number_from 1 (fork_builders copiedEntries forkLanes s)).

(** Applying mutations one after the other, as a fork or a reload does. *)
Definition applyAll (ms : list SessionMutation) : M SessionState SessionError unit :=
  forM_ ms (applyMutation invalidMutation).
