(* ===== verification/SessionInvariant.v ===== *)
(** * The invariant of the session state

    [state_wf] and that every mutation keeps it; a concrete session is at the end. *)
From S2P Require Import Prelude JsNumber SessionTypes SessionState.

(** ** The guard and the effect of a mutation, separated *)

Definition mutation_check (s : SessionState) (m : SessionMutation) : bool :=
  match m with
  | MutEntry lane entry =>
      negb (bool_decide (e_id entry ∈ usedIds s)) &&
      match lane with
      | None => true
      | Some l => bool_decide (jm_get l (lanes s) = Some (e_parentId entry))
      end &&
      match e_parentId entry with
      | None => true
      | Some p => bool_decide (is_Some (entriesById s !! p))
      end
  | MutRecord record =>
      jm_has (lr_lane record) (lanes s) && negb (bool_decide (lr_id record ∈ usedIds s))
  | MutLane _ _ leafId =>
      match leafId with None => true | Some id => bool_decide (is_Some (entriesById s !! id)) end
  | MutName _ _ => true
  | MutLabel _ targetId _ => bool_decide (is_Some (entriesById s !! targetId))
  end.
Definition mutation_guard (s : SessionState) (m : SessionMutation) : bool :=
  (mutation_seq m =? sequence s + 1) && mutation_check s m.

Definition open_after (m : jsmap string OperationStartedRecord) (r : LaneRecord)
  : jsmap string OperationStartedRecord :=
  match lr_body r with
  | ROperationStarted o => jm_set (lr_id r) {| osr_base := lr_base r; osr := o |} m
  | ROperationFinished o => jm_delete (of_runId o) m
  | _ => m
  end.

Definition stats_after (st : SessionStats) (i : LogItem) : SessionStats :=
  match i with
  | LogEntry _ e => if bool_decide (e_type e = TMessage) then add_message st else st
  | LogRecord _ r => match lr_body r with RUsage u => add_usage st (ur_usage u) | _ => st end
  | _ => st
  end.

(** The open operations of a lane, recomputed from its records. *)
Definition open_ops (lane : string) (rs : list LaneRecord)
  : jsmap string OperationStartedRecord :=
  foldl (fun m r => if bool_decide (lr_lane r = lane) then open_after m r else m) [] rs.

Definition log_of (m : SessionMutation) : LogItem :=
  match m with
  | MutEntry _ e => LogEntry (e_seq e) e
  | MutRecord r => LogRecord (lr_seq r) r
  | MutLane q l t => LogLane q l t
  | MutName q n => LogName q n
  | MutLabel q t l => LogLabel q t l
  end.
Definition log_entry (i : LogItem) : option Entry :=
  match i with LogEntry _ e => Some e | _ => None end.
Definition log_record (i : LogItem) : option LaneRecord :=
  match i with LogRecord _ r => Some r | _ => None end.

(** ** The invariant *)

Record state_wf (s : SessionState) : Prop := {
  wf_log_seqs : log_seq <$> log s = seqZ 1 (sequence s);
  wf_sequence : sequence s = zlen (log s);
  wf_log_own : forall i, i ∈ log s ->
    match i with LogEntry q e => q = e_seq e | LogRecord q r => q = lr_seq r | _ => True end;
  wf_entries : entries s = omap log_entry (log s);
  wf_records : records s = omap log_record (log s);
  wf_ids : NoDup ((e_id <$> entries s) ++ (lr_id <$> records s));
  wf_used : forall id, id ∈ usedIds s <-> id ∈ (e_id <$> entries s) ++ (lr_id <$> records s);
  wf_byId : forall id e, entriesById s !! id = Some e <-> e ∈ entries s /\ e_id e = id;
  wf_parents : forall e p, e ∈ entries s -> e_parentId e = Some p ->
    exists pe, entriesById s !! p = Some pe /\ e_seq pe < e_seq e;
  wf_lanes : NoDup (jm_keys (lanes s));
  wf_main : jm_has "main" (lanes s) = true;
  wf_leaves : forall l id, jm_get l (lanes s) = Some (Some id) -> is_Some (entriesById s !! id);
  wf_labels : forall id l, labels s !! id = Some l -> is_Some (entriesById s !! id);
  wf_record_lanes : forall r, r ∈ records s -> jm_has (lr_lane r) (lanes s) = true;
  wf_open : forall l, default [] (openOperationsByLane s !! l) = open_ops l (records s);
  wf_stats : stats s = foldl stats_after (stats initial_state) (log s) }.

(** ** [applyMutation] is its guard followed by its effect *)

Definition mutation_effect (s : SessionState) (m : SessionMutation) : SessionState :=
  {| sequence := mutation_seq m;
     usedIds := match m with
                | MutEntry _ e => {[e_id e]} ∪ usedIds s
                | MutRecord r => {[lr_id r]} ∪ usedIds s
                | _ => usedIds s
                end;
     entries := match m with MutEntry _ e => entries s ++ [e] | _ => entries s end;
     entriesById := match m with
                    | MutEntry _ e => <[e_id e := e]> (entriesById s)
                    | _ => entriesById s
                    end;
     records := match m with MutRecord r => records s ++ [r] | _ => records s end;
     openOperationsByLane :=
       match m with
       | MutRecord r =>
           match lr_body r with
           | ROperationStarted o =>
               <[lr_lane r := jm_set (lr_id r) {| osr_base := lr_base r; osr := o |}
                                (default [] (openOperationsByLane s !! lr_lane r))]>
                 (openOperationsByLane s)
           | ROperationFinished o =>
               alter (jm_delete (of_runId o)) (lr_lane r) (openOperationsByLane s)
           | _ => openOperationsByLane s
           end
       | _ => openOperationsByLane s
       end;
     lanes := match m with
              | MutEntry (Some l) e => jm_set l (Some (e_id e)) (lanes s)
              | MutLane _ l t => jm_set l t (lanes s)
              | _ => lanes s
              end;
     log := log s ++ [log_of m];
     stats := stats_after (stats s) (log_of m);
     name := match m with MutName _ n => n | _ => name s end;
     labels := match m with
               | MutLabel _ t None => delete t (labels s)
               | MutLabel _ t (Some l) => <[t := l]> (labels s)
               | _ => labels s
               end |}.

(** Runs a method of the state and projects the fields of updated states. *)
Ltac srun :=
  mrun;
  cbn [negb andb set_sequence set_usedIds set_entries set_entriesById set_records
       set_openOperationsByLane set_lanes set_log set_stats set_name set_labels
       sequence usedIds entries entriesById records openOperationsByLane lanes log stats name
       labels log_of stats_after mutation_seq].

(** A state equal to an explicit record field by field. *)
Lemma state_eta s s' :
  sequence s = sequence s' -> usedIds s = usedIds s' -> entries s = entries s' ->
  entriesById s = entriesById s' -> records s = records s' ->
  openOperationsByLane s = openOperationsByLane s' -> lanes s = lanes s' -> log s = log s' ->
  stats s = stats s' -> name s = name s' -> labels s = labels s' -> s = s'.
Proof. destruct s, s'; simpl; congruence. Qed.

Lemma applyMutation_ok invalid m s :
  mutation_guard s m = true -> applyMutation invalid m s = (mutation_effect s m, Ok tt).
Proof.
  unfold mutation_guard, mutation_check, applyMutation, mutation_effect.
  intros [Hseq Hg]%andb_true_iff.
  destruct m as [lane e|r|q l t|q n|q t l]; srun; simpl in Hseq; rewrite Hseq; srun.
  - apply andb_true_iff in Hg as [[Hused Hlane]%andb_true_iff Hpar].
    apply negb_true_iff in Hused. rewrite Hused.
    destruct lane as [l|]; [apply bool_decide_eq_true in Hlane; rewrite Hlane|]; srun;
      [rewrite bool_decide_true by done|]; srun;
      (destruct (e_parentId e); [rewrite Hpar|]; srun;
         destruct (bool_decide (e_type e = TMessage)); srun; f_equal; by apply state_eta).
  - apply andb_true_iff in Hg as [Hlane Hused]. rewrite Hlane.
    apply negb_true_iff in Hused. srun. rewrite Hused.
    destruct (lr_body r); srun; f_equal; by apply state_eta.
  - destruct t; [rewrite Hg|]; srun; f_equal; by apply state_eta.
  - done.
  - rewrite Hg. srun. destruct l; srun; f_equal; by apply state_eta.
Qed.

(** A mutation the guard refuses is thrown out with the state untouched. *)
Lemma applyMutation_err invalid m s :
  mutation_guard s m = false ->
  exists msg, applyMutation invalid m s = (s, Err (invalid msg)).
Proof.
  unfold mutation_guard, mutation_check, applyMutation. intros Hg.
  destruct (mutation_seq m =? sequence s + 1) eqn:Hseq; srun; rewrite Hseq; srun; [|by eauto].
  destruct m as [lane e|r|q l t|q n|q t l]; simpl in Hg; srun.
  - destruct (bool_decide (e_id e ∈ usedIds s)); srun; [by eauto|]. simpl in Hg.
    destruct lane as [l|]; srun.
    + destruct (jm_get l (lanes s)) as [leaf|] eqn:Hl; srun; [|by eauto].
      destruct (bool_decide_reflect (e_parentId e = leaf)) as [<-|Hne]; srun; [|by eauto].
      rewrite bool_decide_true in Hg by done. simpl in Hg.
      destruct (e_parentId e); [|done]. rewrite Hg. srun. by eauto.
    + destruct (e_parentId e); [|done]. simpl in Hg. rewrite Hg. srun. by eauto.
  - destruct (jm_has (lr_lane r) (lanes s)); srun; [|by eauto].
    simpl in Hg. apply negb_false_iff in Hg. rewrite Hg. srun. by eauto.
  - destruct t; [|done]. rewrite Hg. srun. by eauto.
  - done.
  - rewrite Hg. srun. by eauto.
Qed.

(** ** The invariant is established and preserved *)

Lemma initial_wf : state_wf initial_state.
Proof.
  constructor; simpl; try done; try set_solver.
  - constructor.
  - apply NoDup_singleton.
  - intros l id. by case_decide.
Qed.

Section facts.
Context (s : SessionState) (Hwf : state_wf s).

Lemma wf_byId_elem id e : entriesById s !! id = Some e -> e ∈ entries s /\ e_id e = id.
Proof. apply (wf_byId s Hwf). Qed.
Lemma wf_elem_byId e : e ∈ entries s -> entriesById s !! e_id e = Some e.
Proof. intros He. by apply (wf_byId s Hwf). Qed.
Lemma wf_entry_ids : NoDup (e_id <$> entries s).
Proof. pose proof (wf_ids s Hwf) as H. by apply NoDup_app in H as [? _]. Qed.

Lemma wf_seq_bounds i : i ∈ log s -> 1 <= log_seq i <= sequence s.
Proof.
  intros Hi. assert (Hin : log_seq i ∈ log_seq <$> log s) by by apply list_elem_of_fmap_2.
  rewrite (wf_log_seqs s Hwf) in Hin. apply elem_of_seqZ in Hin. lia.
Qed.
Lemma wf_entry_log e : e ∈ entries s -> LogEntry (e_seq e) e ∈ log s.
Proof.
  rewrite (wf_entries s Hwf), list_elem_of_omap. intros (i & Hi & He).
  destruct i as [q e'|q r|q l t|q n|q t l]; simplify_eq/=.
  pose proof (wf_log_own s Hwf _ Hi) as Hq. simpl in Hq. by subst.
Qed.
Lemma wf_record_log r : r ∈ records s -> LogRecord (lr_seq r) r ∈ log s.
Proof.
  rewrite (wf_records s Hwf), list_elem_of_omap. intros (i & Hi & He).
  destruct i as [q e'|q r'|q l t|q n|q t l]; simplify_eq/=.
  pose proof (wf_log_own s Hwf _ Hi) as Hq. simpl in Hq. by subst.
Qed.
Lemma wf_entry_seq e : e ∈ entries s -> 1 <= e_seq e <= sequence s.
Proof. intros He. apply (wf_seq_bounds _ (wf_entry_log e He)). Qed.
Lemma wf_record_seq r : r ∈ records s -> 1 <= lr_seq r <= sequence s.
Proof. intros Hr. apply (wf_seq_bounds _ (wf_record_log r Hr)). Qed.
End facts.

(** Updating the value at a key through its default. *)
Lemma default_alter {A} (f : list A -> list A) (k : string) (mm : gmap string (list A)) :
  f [] = [] -> default [] (alter f k mm !! k) = f (default [] (mm !! k)).
Proof. intros Hf. rewrite lookup_alter_eq. by destruct (mm !! k). Qed.

Lemma open_ops_snoc l rs r :
  open_ops l (rs ++ [r]) =
  if bool_decide (lr_lane r = l) then open_after (open_ops l rs) r else open_ops l rs.
Proof. unfold open_ops. by rewrite foldl_app. Qed.

Lemma seqZ_snoc a n : 0 <= n -> seqZ a (n + 1) = seqZ a n ++ [a + n].
Proof. intros Hn. rewrite seqZ_app by lia. done. Qed.

Section preservation.
Context (s : SessionState) (Hwf : state_wf s) (m : SessionMutation).
Context (Hg : mutation_guard s m = true).

Lemma guard_seq : mutation_seq m = sequence s + 1.
Proof. unfold mutation_guard in Hg. by apply andb_true_iff in Hg as [?%Z.eqb_eq _]. Qed.
Lemma guard_check : mutation_check s m = true.
Proof. unfold mutation_guard in Hg. by apply andb_true_iff in Hg as [_ ?]. Qed.
Lemma log_seq_of : log_seq (log_of m) = mutation_seq m.
Proof. by destruct m. Qed.

(** The identifier a mutation introduces is fresh. *)
Lemma guard_fresh :
  match m with
  | MutEntry _ e => e_id e ∉ (e_id <$> entries s) ++ (lr_id <$> records s)
  | MutRecord r => lr_id r ∉ (e_id <$> entries s) ++ (lr_id <$> records s)
  | _ => True
  end.
Proof.
  pose proof guard_check as Hm. unfold mutation_check in Hm.
  destruct m; try done; rewrite <-(wf_used s Hwf).
  - apply andb_true_iff in Hm as [[Hu _]%andb_true_iff _]. by apply negb_true_iff, bool_decide_eq_false in Hu.
  - apply andb_true_iff in Hm as [_ Hu]. by apply negb_true_iff, bool_decide_eq_false in Hu.
Qed.

Lemma effect_byId id e :
  entriesById s !! id = Some e -> entriesById (mutation_effect s m) !! id = Some e.
Proof.
  intros He. pose proof guard_fresh as Hf. destruct m as [lane e'| | | |]; simpl; try done.
  rewrite lookup_insert_ne; [done|]. intros Heq.
  apply (wf_byId_elem s Hwf) in He as [He Hid].
  apply Hf, elem_of_app. left. apply list_elem_of_fmap. exists e. by rewrite Heq.
Qed.
Lemma effect_byId_is_Some id :
  is_Some (entriesById s !! id) -> is_Some (entriesById (mutation_effect s m) !! id).
Proof. intros [e He]. exists e. by apply effect_byId. Qed.

Lemma effect_ids :
  NoDup ((e_id <$> entries (mutation_effect s m)) ++ (lr_id <$> records (mutation_effect s m))).
Proof.
  pose proof guard_fresh as Hf. pose proof (wf_ids s Hwf) as Hnd.
  destruct m as [lane e|r| | |]; simpl; try done.
  - rewrite fmap_app. simpl. rewrite <-(assoc_L (++)), (Permutation_app_comm [e_id e]), (assoc_L (++)).
    apply NoDup_app. split_and!; [done|set_solver|apply NoDup_singleton].
  - rewrite fmap_app, (assoc_L (++)). apply NoDup_app. split_and!; [done|set_solver|apply NoDup_singleton].
Qed.

Lemma effect_used id :
  id ∈ usedIds (mutation_effect s m) <->
  id ∈ (e_id <$> entries (mutation_effect s m)) ++ (lr_id <$> records (mutation_effect s m)).
Proof.
  pose proof (wf_used s Hwf id) as Hu.
  destruct m as [lane e|r| | |]; simpl; try done;
    rewrite fmap_app, elem_of_union, elem_of_singleton, Hu, !elem_of_app; simpl;
    rewrite list_elem_of_singleton; tauto.
Qed.

Lemma effect_byId_spec id e :
  entriesById (mutation_effect s m) !! id = Some e <->
  e ∈ entries (mutation_effect s m) /\ e_id e = id.
Proof.
  pose proof (wf_byId s Hwf id e) as Hu. pose proof guard_fresh as Hf.
  destruct m as [lane e'|r| | |]; simpl; try done.
  rewrite lookup_insert, elem_of_app, list_elem_of_singleton. case_decide as Hid.
  - split; [intros [= <-]; auto|]. intros [[Hin| ->] Hid']; [|done].
    destruct Hf. apply elem_of_app. left. apply list_elem_of_fmap. exists e. by rewrite Hid'.
  - rewrite Hu. split; [tauto|]. intros [[?| ->] ?]; done.
Qed.

Lemma effect_parents e p :
  e ∈ entries (mutation_effect s m) -> e_parentId e = Some p ->
  exists pe, entriesById (mutation_effect s m) !! p = Some pe /\ e_seq pe < e_seq e.
Proof.
  assert (Hold : e ∈ entries s -> e_parentId e = Some p ->
    exists pe, entriesById (mutation_effect s m) !! p = Some pe /\ e_seq pe < e_seq e).
  { intros He Hp. destruct (wf_parents s Hwf e p He Hp) as (pe & Hpe & Hlt).
    exists pe. split; [by apply effect_byId|done]. }
  pose proof guard_seq as Hseq. pose proof guard_check as Hm. unfold mutation_check in Hm.
  pose proof effect_byId as Hby. destruct m as [lane e'|r| | |]; simpl in *; try done.
  intros [?|Heq]%elem_of_app; [by auto|]. apply list_elem_of_singleton in Heq as ->. intros Hp.
  apply andb_true_iff in Hm as [_ Hpar]. rewrite Hp in Hpar.
  apply bool_decide_eq_true in Hpar as [pe Hpe].
  exists pe. split; [by apply Hby|]. rewrite Hseq.
  apply (wf_byId_elem s Hwf) in Hpe as [Hpe _]. apply (wf_entry_seq s Hwf) in Hpe. lia.
Qed.

Lemma effect_leaves l id :
  jm_get l (lanes (mutation_effect s m)) = Some (Some id) ->
  is_Some (entriesById (mutation_effect s m) !! id).
Proof.
  assert (Hold : jm_get l (lanes s) = Some (Some id) ->
    is_Some (entriesById (mutation_effect s m) !! id)).
  { intros Hl. by apply effect_byId_is_Some, (wf_leaves s Hwf l). }
  pose proof effect_byId_is_Some as Hmon. pose proof guard_check as Hm. unfold mutation_check in Hm.
  destruct m as [[l'|] e|r|q l' t| |]; simpl in *; try done;
    rewrite jm_get_set; destruct (decide (l = l')); try done; intros [= Hid].
  - subst. rewrite lookup_insert_eq. by eexists.
  - subst. by apply bool_decide_eq_true in Hm.
Qed.

Lemma effect_lane_keeps l :
  jm_has l (lanes s) = true -> jm_has l (lanes (mutation_effect s m)) = true.
Proof.
  rewrite !jm_has_spec. intros Hl.
  destruct m as [[l'|] e|r|q l' t| |]; simpl in *; try done;
    rewrite jm_get_set; case_decide; [by eexists|done|by eexists|done].
Qed.

Lemma effect_open l :
  default [] (openOperationsByLane (mutation_effect s m) !! l)
  = open_ops l (records (mutation_effect s m)).
Proof.
  pose proof (wf_open s Hwf l) as Ho. destruct m as [lane e|r| | |]; simpl; try done.
  rewrite open_ops_snoc, <-Ho. unfold open_after.
  case_bool_decide as Hl; [subst l|];
    destruct (lr_body r); simpl; try done.
  - by rewrite lookup_insert_eq.
  - by apply default_alter.
  - by rewrite lookup_insert_ne.
  - by rewrite lookup_alter_ne.
Qed.

Lemma effect_wf : state_wf (mutation_effect s m).
Proof.
  pose proof guard_seq as Hseq.
  constructor;
    try first [exact effect_ids|exact effect_used|exact effect_byId_spec|exact effect_parents
              |exact effect_leaves|exact effect_open].
  - simpl. rewrite fmap_app, (wf_log_seqs s Hwf). simpl. rewrite log_seq_of, Hseq, seqZ_snoc.
    + f_equal. f_equal. lia.
    + rewrite (wf_sequence s Hwf). apply zlen_nonneg.
  - simpl. rewrite zlen_app, Hseq, (wf_sequence s Hwf). done.
  - simpl. intros i [Hi|Hi]%elem_of_app; [by apply (wf_log_own s Hwf)|].
    apply list_elem_of_singleton in Hi as ->. by destruct m.
  - simpl. rewrite omap_app, <-(wf_entries s Hwf). destruct m; simpl; by rewrite ?app_nil_r.
  - simpl. rewrite omap_app, <-(wf_records s Hwf). destruct m; simpl; by rewrite ?app_nil_r.
  - pose proof (wf_lanes s Hwf). destruct m as [[l|] e|r|q l t| |]; simpl;
      auto using jm_keys_set_NoDup.
  - apply effect_lane_keeps, (wf_main s Hwf).
  - intros id l. pose proof (wf_labels s Hwf id) as Hlab. pose proof effect_byId_is_Some as Hmon.
    pose proof guard_check as Hm. unfold mutation_check in Hm.
    destruct m as [lane e|r|q l' t|q n|q t [l'|]]; simpl in *; eauto.
    + rewrite lookup_insert. destruct (decide (t = id)); subst; [|by eauto].
      by apply bool_decide_eq_true in Hm.
    + rewrite lookup_delete. destruct (decide (t = id)); [done|by eauto].
  - intros r Hr. pose proof guard_check as Hm. unfold mutation_check in Hm.
    assert (Hcase : r ∈ records s \/ m = MutRecord r).
    { destruct m; simpl in Hr; auto. apply elem_of_app in Hr as [?|Hr]; [by auto|].
      apply list_elem_of_singleton in Hr as ->. by auto. }
    destruct Hcase as [Hin|Heq]; [by apply effect_lane_keeps, (wf_record_lanes s Hwf)|].
    rewrite Heq in Hm |- *. by apply andb_true_iff in Hm as [? _].
  - unfold mutation_effect. cbn [stats log]. by rewrite foldl_app, <-(wf_stats s Hwf).
Qed.
End preservation.

(** * A concrete session

    Three messages on [main], a second lane that branches off after the first
    one, a finished and an open operation, a name and a label: the inputs at which
    the session theorems are instantiated. *)

Lemma applyMutation_wf invalid m s :
  state_wf s -> state_wf (applyMutation invalid m s).1.
Proof.
  intros Hwf. destruct (mutation_guard s m) eqn:Hg.
  - rewrite applyMutation_ok by done. by apply effect_wf.
  - by destruct (applyMutation_err invalid m s Hg) as [msg ->].
Qed.

Lemma applyAll_wf ms s : state_wf s -> state_wf (applyAll ms s).1.
Proof.
  revert s. induction ms as [|m ms IH]; intros s Hwf; [done|].
  unfold applyAll in *. simpl. mrun. pose proof (applyMutation_wf invalidMutation m s Hwf) as H.
  destruct (applyMutation invalidMutation m s) as [s' [[]|e]]; simpl in *; [by apply IH|done].
Qed.

Definition user_body (text : string) : entry_body :=
  MessageEntry (UserMsg (PlainText text) num_zero) false.
Definition sample_entry (id : string) (seq : Z) (parent : option string) (text : string) : Entry :=
  {| e_id := id; e_seq := seq; e_parentId := parent; e_timestamp := 100 + seq;
     e_body := user_body text |}.

Definition run_intent : intent := IntentRun [] [] None None.
Definition sample_record (id : string) (seq : Z) (b : record_body) : LaneRecord :=
  {| lr_base := {| r_id := id; r_seq := seq; r_lane := "main"; r_timestamp := 100 + seq |};
     lr_body := b |}.

Definition sample_mutations : list SessionMutation := [
  MutEntry (Some "main") (sample_entry "e1" 1 None "hello");
  MutEntry (Some "main") (sample_entry "e2" 2 (Some "e1") "more");
  MutLane 3 "side" (Some "e1");
  MutEntry (Some "side") (sample_entry "e3" 4 (Some "e1") "aside");
  MutRecord (sample_record "op1" 5
    (ROperationStarted {| os_sourceLeafId := Some "e2"; os_intent := run_intent |}));
  MutRecord (sample_record "fin1" 6
    (ROperationFinished {| of_runId := "op1"; of_outcome := OutCompleted; of_error := None |}));
  MutRecord (sample_record "op2" 7
    (ROperationStarted {| os_sourceLeafId := Some "e2"; os_intent := run_intent |}));
  MutName 8 (Some "demo");
  MutLabel 9 "e1" (Some "start");
  MutEntry (Some "main") (sample_entry "e4" 10 (Some "e2") "last") ].

Definition sample_run : SessionState * result SessionError unit :=
  applyAll sample_mutations initial_state.
Definition sample : SessionState := sample_run.1.

Lemma sample_wf : state_wf sample.
Proof. apply applyAll_wf, initial_wf. Qed.
Lemma sample_accepted : sample_run.2 = Ok tt.
Proof. by vm_compute. Qed.

Definition all_query : EntryQuery :=
  {| q_type := None; q_customType := None; q_order := None; q_limit := Some (num_of_Z 2);
     q_cursor := None |}.
