(* ===== verification/SessionTheorems.v ===== *)
(** * What the session state promises

    First the queries over the session tree, then the mutations. *)
From S2P Require Import Prelude JsNumber SessionTypes SessionState SessionInvariant.

(** ** Loops that collect up to a limit *)

Definition limit_take {A} (limit : option number) (l : list A) : list A :=
  match limit with
  | None => l
  | Some n => match num_to_Z n with Some z => take (Z.to_nat z) l | None => l end
  end.

(** A limit [assertValidLimit] accepts: absent, or a positive integer. *)
Definition limit_ok (limit : option number) : Prop :=
  match limit with None => True | Some n => exists z, num_to_Z n = Some z /\ 0 < z end.

Lemma assertValidLimit_ok limit : assertValidLimit limit = Ok tt <-> limit_ok limit.
Proof.
  unfold assertValidLimit, limit_ok. destruct limit as [n|]; [|done].
  destruct (num_to_Z n) as [z|]; [|by naive_solver].
  destruct (Z.leb_spec z 0); split; try done.
  - intros (z' & [= <-] & ?). lia.
  - intros _. exists z. split; [done|lia].
Qed.

(** The loop has room for [k] more results. *)
Lemma limit_room {A} limit (results : list A) x :
  limit_ok limit ->
  limit_take limit results = results -> limit_reached limit results = false ->
  limit_take limit (results ++ [x]) = results ++ [x].
Proof.
  unfold limit_ok, limit_take, limit_reached, num_eq_Z. destruct limit as [n|]; [|done].
  intros (z & -> & Hz) Ht Hr. apply Z.eqb_neq in Hr. unfold zlen in Hr.
  apply take_ge. rewrite length_app. simpl.
  assert (Hlen : length results = length (take (Z.to_nat z) results)) by by rewrite Ht.
  rewrite length_take in Hlen. lia.
Qed.
Lemma limit_full {A} limit (results rest : list A) :
  limit_ok limit -> limit_take limit results = results ->
  limit_reached limit results = true -> limit_take limit (results ++ rest) = results.
Proof.
  unfold limit_ok, limit_take, limit_reached, num_eq_Z. destruct limit as [n|]; [|done].
  intros (z & -> & Hz) Ht Hr. apply Z.eqb_eq in Hr. unfold zlen in Hr.
  rewrite take_app_le by lia. done.
Qed.
Lemma limit_not_reached_nil {A} limit : limit_ok limit -> limit_reached limit (@nil A) = false.
Proof.
  unfold limit_ok, limit_reached, num_eq_Z. destruct limit as [n|]; [|done].
  intros (z & -> & Hz). apply Z.eqb_neq. rewrite zlen_nil. lia.
Qed.
Lemma limit_take_nil {A} limit : limit_take limit (@nil A) = [].
Proof. unfold limit_take. destruct limit as [n|]; [|done]. destruct (num_to_Z n); [apply take_nil|done]. Qed.

(** The collecting loop computes: filter, then cut at the limit. *)
Lemma collect_gen {A} (p : A -> bool) limit items results :
  limit_ok limit -> limit_take limit results = results ->
  limit_reached limit results = false ->
  collect p limit items results = limit_take limit (results ++ keep p items).
Proof.
  intros Hok. revert results. induction items as [|x items IH]; intros results Ht Hr; simpl.
  - by rewrite app_nil_r.
  - destruct (p x); [|by apply IH].
    pose proof (limit_room _ _ x Hok Ht Hr) as Ht'.
    rewrite (app_cons_snoc results x (keep _ _)).
    destruct (limit_reached limit (results ++ [x])) eqn:Hfull.
    + symmetry. by apply limit_full.
    + by apply IH.
Qed.
Lemma collect_spec {A} (p : A -> bool) limit items :
  limit_ok limit -> collect p limit items [] = limit_take limit (keep p items).
Proof.
  intros Hok. rewrite collect_gen; [done|done|apply limit_take_nil|by apply limit_not_reached_nil].
Qed.

(** ** The walk to the root *)

Definition bound_hit (b : BranchBounds) (e : Entry) : bool :=
  bool_decide (Some (e_id e) = b_stopAtId b) || bool_decide (Some (e_type e) = b_stopAtType b).

(** The prefix through the first element that satisfies [p], inclusive. *)
Fixpoint upto {A} (p : A -> bool) (l : list A) : list A :=
  match l with [] => [] | x :: l' => if p x then [x] else x :: upto p l' end.

(** The chain of parents from an entry to a root. *)
Inductive root_path (byId : gmap string Entry) : Entry -> list Entry -> Prop :=
| root_path_root e : e_parentId e = None -> root_path byId e [e]
| root_path_step e p pe l :
    e_parentId e = Some p -> byId !! p = Some pe -> root_path byId pe l ->
    root_path byId e (e :: l).

Lemma root_path_det byId e l1 l2 : root_path byId e l1 -> root_path byId e l2 -> l1 = l2.
Proof.
  intros H. revert l2. induction H as [e He|e p pe l He Hp H IH]; intros l2 H2.
  - inversion H2; [done|congruence].
  - inversion H2 as [|? p' pe' l' He' Hp']; subst; [congruence|]. simplify_eq.
    f_equal. by apply IH.
Qed.

(** Termination: the identifiers met are distinct keys of the map, so the fuel
    [S (size byId)] is never used up. *)
Lemma walkLoop_fuel fuel byId bounds visited current :
  (forall id e, byId !! id = Some e -> e_id e = id) ->
  byId !! e_id current = Some current ->
  visited ⊆ dom byId ->
  (S (size (dom byId)) <= fuel + size visited)%nat ->
  (walkLoop fuel byId bounds visited current).2 <> WalkOutOfFuel.
Proof.
  intros Hkeys. revert visited current.
  induction fuel as [|fuel IH]; intros visited current Hcur Hvis Hfuel.
  - apply subseteq_size in Hvis. lia.
  - simpl. case_bool_decide as Hin; [done|].
    destruct (match bounds with None => _ | Some _ => _ end); [done|].
    destruct (e_parentId current) as [p|]; [|done].
    destruct (byId !! p) as [parent|] eqn:Hp; [|done].
    pose proof (Hkeys _ _ Hp) as Hid.
    specialize (IH ({[e_id current]} ∪ visited) parent).
    destruct (walkLoop fuel byId bounds ({[e_id current]} ∪ visited) parent) as [rest fin].
    apply IH.
    + by rewrite Hid.
    + assert (e_id current ∈ dom byId) by (by eapply elem_of_dom_2). set_solver.
    + rewrite size_union by set_solver. rewrite size_singleton. lia.
Qed.

(** On a tree whose parents precede their children the walk is the chain of
    parents, cut at the bounds, and it ends normally. *)
Section walk.
Context (s : SessionState) (Hwf : state_wf s).

Lemma wf_byId_id id e : entriesById s !! id = Some e -> e_id e = id.
Proof. intros He. by apply (wf_byId_elem s Hwf) in He as [_ ?]. Qed.

Lemma root_path_exists e :
  e ∈ entries s -> exists l, root_path (entriesById s) e l.
Proof.
  assert (Hgen : forall n e, (Z.to_nat (e_seq e) < n)%nat -> e ∈ entries s ->
    exists l, root_path (entriesById s) e l); [|by eauto].
  induction n as [|n IH]; intros e' Hn He; [lia|].
  destruct (e_parentId e') as [p|] eqn:Hp.
  - destruct (wf_parents s Hwf e' p He Hp) as (pe & Hpe & Hlt).
    destruct (wf_byId_elem s Hwf _ _ Hpe) as [Hin _].
    pose proof (wf_entry_seq s Hwf _ Hin).
    destruct (IH pe) as [l Hl]; [lia|done|].
    exists (e' :: l). by eapply root_path_step.
  - exists [e']. by constructor.
Qed.

Lemma root_path_spec e l :
  e ∈ entries s -> root_path (entriesById s) e l ->
  StronglySorted (fun x y => e_seq y < e_seq x) l /\
  Forall (fun x => x ∈ entries s /\ e_seq x <= e_seq e) l.
Proof.
  intros He H. induction H as [e Hp|e p pe l Hp Hpe H IH].
  - split; [by repeat constructor|]. constructor; [|done]. split; [done|lia].
  - destruct (wf_parents s Hwf e p He Hp) as (pe' & Hpe' & Hlt). simplify_eq.
    destruct (wf_byId_elem s Hwf _ _ Hpe) as [Hin _]. destruct (IH Hin) as [Hs Hf].
    assert (Hf' : Forall (fun x => x ∈ entries s /\ e_seq x < e_seq e) l).
    { eapply Forall_impl; [exact Hf|]. intros x [? ?]. split; [done|lia]. }
    split.
    + constructor; [done|]. eapply Forall_impl; [exact Hf'|]. by intros x [? ?].
    + constructor; [split; [done|lia]|]. eapply Forall_impl; [exact Hf'|].
      intros x [? ?]. split; [done|lia].
Qed.

Lemma root_path_nonempty e l : root_path (entriesById s) e l -> exists l', l = e :: l'.
Proof. intros []; eauto. Qed.

Lemma walkLoop_path bounds e l : e ∈ entries s -> root_path (entriesById s) e l ->
  forall fuel visited, (length l <= fuel)%nat ->
    (forall x, x ∈ l -> e_id x ∉ visited) ->
    walkLoop fuel (entriesById s) bounds visited e
    = (match bounds with None => l | Some b => upto (bound_hit b) l end, WalkDone).
Proof.
  intros He H. induction H as [e Hp|e p pe l Hp Hpe H IH]; intros fuel visited Hfuel Hvis.
  - destruct fuel as [|fuel]; simpl in Hfuel; [lia|]. simpl.
    rewrite bool_decide_false by (apply Hvis; set_solver). rewrite Hp.
    destruct bounds as [b|]; [|done]. unfold bound_hit. by destruct (_ || _).
  - destruct fuel as [|fuel]; simpl in Hfuel; [lia|]. simpl.
    rewrite bool_decide_false by (apply Hvis; set_solver). rewrite Hp, Hpe.
    destruct (wf_parents s Hwf e p He Hp) as (pe' & Hpe' & Hlt). simplify_eq.
    destruct (wf_byId_elem s Hwf _ _ Hpe) as [Hin _].
    destruct (root_path_spec _ _ Hin H) as [_ Hall].
    rewrite IH; [|done|lia|].
    + destruct bounds as [b|]; [|done]. unfold bound_hit. by destruct (_ || _).
    + intros x Hx. rewrite Forall_forall in Hall. destruct (Hall x Hx) as [Hxin Hxle].
      assert (e_id x ∉ visited) by (apply Hvis; set_solver).
      assert (e_id x <> e_id e); [|set_solver].
      intros Heq. pose proof (wf_elem_byId s Hwf _ Hxin) as H1.
      pose proof (wf_elem_byId s Hwf _ He) as H2. rewrite Heq in H1. simplify_eq. lia.
Qed.

Lemma root_path_ids e l :
  e ∈ entries s -> root_path (entriesById s) e l -> NoDup (e_id <$> l).
Proof.
  intros He H. destruct (root_path_spec e l He H) as [Hs Hall]. clear H He.
  induction Hs as [|x l Hs IH Hlt]; csimpl; [constructor|].
  apply Forall_cons in Hall as [[Hx _] Hall]. apply NoDup_cons. split; [|by apply IH].
  intros Hin. apply list_elem_of_fmap in Hin as (y & Heq & Hy).
  rewrite Forall_forall in Hlt, Hall. specialize (Hlt y Hy). destruct (Hall y Hy) as [Hyin _].
  pose proof (wf_elem_byId s Hwf _ Hyin) as H1. pose proof (wf_elem_byId s Hwf _ Hx) as H2.
  rewrite <-Heq in H1. simplify_eq. lia.
Qed.

Lemma root_path_length e l :
  e ∈ entries s -> root_path (entriesById s) e l -> (length l <= walk_fuel s)%nat.
Proof.
  intros He H. pose proof (root_path_ids e l He H) as Hnd.
  destruct (root_path_spec e l He H) as [_ Hall].
  unfold walk_fuel. rewrite <-size_dom, <-(length_fmap e_id).
  rewrite <-(size_list_to_set (C := gset string)) by done.
  assert (list_to_set (e_id <$> l) ⊆ dom (entriesById s)) as Hsub; [|by apply subseteq_size in Hsub; lia].
  intros id Hid. apply elem_of_list_to_set, list_elem_of_fmap in Hid as (x & -> & Hx).
  rewrite Forall_forall in Hall. destruct (Hall x Hx) as [Hxin _].
  apply elem_of_dom. eexists. by apply (wf_elem_byId s Hwf).
Qed.

Lemma walkToRoot_path bounds id e l :
  entriesById s !! id = Some e -> root_path (entriesById s) e l ->
  walkToRoot (Some id) bounds s
  = (match bounds with None => l | Some b => upto (bound_hit b) l end, WalkDone).
Proof.
  intros He Hl. unfold walkToRoot. rewrite He.
  apply (wf_byId_elem s Hwf) in He as [He _]. apply walkLoop_path; [done|done| |set_solver].
  by apply (root_path_length e).
Qed.
End walk.

(** ** The two branch loops *)

Lemma branchOldest_gen q b items results :
  limit_ok (q_limit q) -> limit_take (q_limit q) results = results ->
  limit_reached (q_limit q) results = false ->
  branchOldest q b items results
  = limit_take (q_limit q) (results ++ keep (fun e => matchesEntryQuery e q) (upto (bound_hit b) items)).
Proof.
  intros Hok. revert results. induction items as [|x items IH]; intros results Ht Hr; simpl.
  - by rewrite app_nil_r.
  - fold (bound_hit b x). destruct (matchesEntryQuery x q) eqn:Hm.
    + pose proof (limit_room _ _ x Hok Ht Hr) as Ht'.
      destruct (bound_hit b x); simpl; rewrite Hm; [done|].
      rewrite (app_cons_snoc results x (keep _ _)).
      destruct (limit_reached (q_limit q) (results ++ [x])) eqn:Hfull.
      * symmetry. by apply limit_full.
      * by apply IH.
    + destruct (bound_hit b x); simpl; rewrite Hm; [by rewrite app_nil_r|].
      rewrite Hr. by apply IH.
Qed.

Lemma branchNewest_gen q items results :
  limit_ok (q_limit q) -> limit_take (q_limit q) results = results ->
  limit_reached (q_limit q) results = false ->
  (branchNewest q items results).1
  = limit_take (q_limit q) (results ++ keep (fun e => matchesEntryQuery e q) items).
Proof.
  intros Hok. revert results. induction items as [|x items IH]; intros results Ht Hr; simpl.
  - by rewrite app_nil_r.
  - destruct (matchesEntryQuery x q) eqn:Hm.
    + pose proof (limit_room _ _ x Hok Ht Hr) as Ht'.
      rewrite (app_cons_snoc results x (keep _ _)).
      destruct (limit_reached (q_limit q) (results ++ [x])) eqn:Hfull.
      * symmetry. by apply limit_full.
      * by apply IH.
    + rewrite Hr. by apply IH.
Qed.

(** ** Entries and log items are in sequence order *)

Lemma strict_omap {A B} (ka : A -> Z) (kb : B -> Z) (f : A -> option B) (l : list A) :
  (forall a b, a ∈ l -> f a = Some b -> kb b = ka a) ->
  StronglySorted (key_lt ka) l -> StronglySorted (key_lt kb) (omap f l).
Proof.
  intros Hf Hs. induction Hs as [|a l Hs IH Hall]; [constructor|]. csimpl.
  assert (Hrec : StronglySorted (key_lt kb) (omap f l)) by (apply IH; set_solver).
  destruct (f a) as [b|] eqn:Hfa; [|done].
  constructor; [done|]. apply Forall_forall. intros b' Hb'.
  apply list_elem_of_omap in Hb' as (a' & Ha' & Hfa').
  rewrite Forall_forall in Hall. specialize (Hall a' Ha'). unfold key_lt in *.
  rewrite (Hf a b), (Hf a' b') by (done || set_solver). done.
Qed.

Lemma seqZ_sorted a n : StronglySorted Z.lt (seqZ a n).
Proof.
  apply Sorted_StronglySorted; [intros x y z; lia|].
  unfold seqZ. generalize (Z.to_nat n) as k. intros k.
  assert (Hgen : forall j, Sorted Z.lt ((λ i : nat, Z.of_nat i + a) <$> seq j k)); [|apply Hgen].
  induction k as [|k IH]; intros j; csimpl; [constructor|].
  constructor; [apply IH|]. destruct k; csimpl; constructor. lia.
Qed.

Lemma sorted_of_keys {A} (key : A -> Z) l :
  StronglySorted Z.lt (key <$> l) -> StronglySorted (key_lt key) l.
Proof.
  induction l as [|x l IH]; csimpl; [constructor|]. intros [Hs Hall]%StronglySorted_inv.
  constructor; [by apply IH|]. rewrite Forall_fmap in Hall. exact Hall.
Qed.

Section sorted.
Context (s : SessionState) (Hwf : state_wf s).
Lemma wf_log_sorted : StronglySorted (key_lt log_seq) (log s).
Proof. apply sorted_of_keys. rewrite (wf_log_seqs s Hwf). apply seqZ_sorted. Qed.
Lemma wf_entries_sorted : StronglySorted (key_lt e_seq) (entries s).
Proof.
  rewrite (wf_entries s Hwf). apply (strict_omap log_seq); [|apply wf_log_sorted].
  intros i e Hi He. pose proof (wf_log_own s Hwf i Hi). destruct i; simplify_eq/=; congruence.
Qed.
Lemma wf_records_sorted : StronglySorted (key_lt lr_seq) (records s).
Proof.
  rewrite (wf_records s Hwf). apply (strict_omap log_seq); [|apply wf_log_sorted].
  intros i r Hi Hr. pose proof (wf_log_own s Hwf i Hi). destruct i; simplify_eq/=; congruence.
Qed.
End sorted.

(** * What the session state promises

    The theorems about [state.ts]: atomic mutations under the invariant, the
    tree walk, the queries and their pagination, the open operations and the
    fork. *)

(** ** Mutations *)

(** C2. [applyMutation] either applies a mutation completely or throws and
    leaves every field as it was; it applies exactly the mutations whose
    sequence number is the next one, whose identifier is unused, whose lane,
    parent and target exist and whose entry chains to its lane's leaf; and the
    state invariant survives both outcomes. *)
Theorem applyMutation_atomic invalid m s :
  state_wf s ->
  let '(s', r) := applyMutation invalid m s in
  state_wf s' /\
  (if mutation_guard s m then r = Ok tt /\ s' = mutation_effect s m
   else s' = s /\ exists msg, r = Err (invalid msg)).
Proof.
  intros Hwf. destruct (mutation_guard s m) eqn:Hg.
  - rewrite applyMutation_ok by done. split; [by apply effect_wf|done].
  - destruct (applyMutation_err invalid m s Hg) as [msg ->]. eauto.
Qed.

(** ** The walk *)

(** The generator [walkToRoot] terminates on every state whose index is
    keyed by entry identifiers, even one whose parent links form a cycle: the
    step bound is never exhausted. *)
Theorem walkToRoot_terminates s start bounds :
  (forall id e, entriesById s !! id = Some e -> e_id e = id) ->
  (walkToRoot start bounds s).2 <> WalkOutOfFuel.
Proof.
  intros Hkeys. unfold walkToRoot. destruct start as [id|]; [|done].
  destruct (entriesById s !! id) as [e|] eqn:He; [|done].
  apply walkLoop_fuel; [done| |set_solver|].
  - by rewrite (Hkeys _ _ He).
  - unfold walk_fuel. rewrite size_dom, size_empty. lia.
Qed.

(** The branch a query scans, in the query's order. *)
Definition branch_view (q : EntryQuery) (path : list Entry) : list Entry :=
  match q_order q with Some oldestFirst => reverse path | _ => path end.

Definition cursor_ok (c : option number) : Prop :=
  match c with None => True | Some n => exists z, num_to_Z n = Some z /\ 0 <= z end.
Lemma assertValidCursor_ok c : assertValidCursor c = Ok tt <-> cursor_ok c.
Proof.
  unfold assertValidCursor, cursor_ok. destruct c as [n|]; [|done].
  destruct (num_to_Z n) as [z|]; [|by naive_solver].
  destruct (Z.ltb_spec z 0); split; try done.
  - intros (z' & [= <-] & ?). lia.
  - intros _. exists z. split; [done|lia].
Qed.

Lemma findEntriesOnBranch_eq s q b start e :
  state_wf s -> entriesById s !! start = Some e ->
  limit_ok (q_limit q) -> cursor_ok (q_cursor q) ->
  exists path, root_path (entriesById s) e path /\
    findEntriesOnBranch q b start s =
    Ok (limit_take (q_limit q)
          (keep (fun x => matchesEntryQuery x q) (upto (bound_hit b) (branch_view q path)))).
Proof.
  intros Hwf He Hlim Hcur. destruct (wf_byId_elem s Hwf _ _ He) as [Hin _].
  destruct (root_path_exists s Hwf e Hin) as [path Hpath]. exists path. split; [done|].
  apply assertValidLimit_ok in Hlim as Hl. apply assertValidCursor_ok in Hcur as Hc.
  pose proof (limit_take_nil (A := Entry) (q_limit q)) as Hnil.
  pose proof (limit_not_reached_nil (A := Entry) (q_limit q) Hlim) as Hroom.
  unfold findEntriesOnBranch, branch_view. mrun. rewrite Hl, Hc.
  rewrite (walkToRoot_path s Hwf None start e path He Hpath).
  rewrite (walkToRoot_path s Hwf (Some b) start e path He Hpath).
  destruct (q_order q) as [[]|]; simpl.
  - pose proof (branchNewest_gen q (upto (bound_hit b) path) [] Hlim Hnil Hroom) as Hn.
    destruct (branchNewest q _ []) as [res ex]. simpl in Hn. subst res. by destruct ex.
  - f_equal. by apply branchOldest_gen.
  - pose proof (branchNewest_gen q (upto (bound_hit b) path) [] Hlim Hnil Hroom) as Hn.
    destruct (branchNewest q _ []) as [res ex]. simpl in Hn. subst res. by destruct ex.
Qed.

(** C23. A branch query returns the matching entries of the chain of parents
    from [start] to its root, taken in the query's order, cut after the first
    entry that meets a bound and after [limit] results: newest-first and
    oldest-first, lazy and eager, are the same specification. *)
Theorem findEntriesOnBranch_spec s q b start e :
  state_wf s -> entriesById s !! start = Some e ->
  limit_ok (q_limit q) -> cursor_ok (q_cursor q) ->
  exists path, root_path (entriesById s) e path /\
    findEntriesOnBranch q b start s =
    Ok (limit_take (q_limit q)
          (keep (fun x => matchesEntryQuery x q) (upto (bound_hit b) (branch_view q path)))).
Proof. apply findEntriesOnBranch_eq. Qed.

(** ** Pagination *)

Lemma keep_after {A} (key : A -> Z) page rest l :
  StronglySorted (key_lt key) (page ++ rest) -> last page = Some l ->
  keep (fun e => key l <? key e) (page ++ rest) = rest.
Proof.
  intros Hs Hl. apply last_Some in Hl as [page' ->]. rewrite <-(assoc_L (++)) in Hs. simpl in Hs.
  apply StronglySorted_app in Hs as (Hle & _ & Hs).
  apply StronglySorted_inv in Hs as [_ Hrest]. rewrite Forall_forall in Hrest.
  unfold key_lt in *. rewrite !keep_app, (keep_none _ page'), (keep_all _ rest); simpl.
  - by rewrite Z.ltb_irrefl.
  - intros x Hx. apply Z.ltb_lt. by apply Hrest.
  - intros x Hx. apply Z.ltb_ge. assert (key x < key l); [|lia].
    apply Hle; [done|by left].
Qed.

(** The same query from a cursor on, without a limit. *)
Definition resume_query (q : EntryQuery) (c : option number) : EntryQuery :=
  {| q_type := q_type q; q_customType := q_customType q; q_order := q_order q;
     q_limit := None; q_cursor := c |}.

Lemma StronglySorted_reverse {A} (R : A -> A -> Prop) l :
  StronglySorted R l -> StronglySorted (fun x y => R y x) (reverse l).
Proof.
  induction 1 as [|x l Hs IH Hall]; [constructor|]. rewrite reverse_cons.
  apply StronglySorted_app. split_and!; [|exact IH|constructor; constructor].
  intros y z Hy Hz. apply list_elem_of_singleton in Hz as ->. rewrite elem_of_reverse in Hy.
  rewrite Forall_forall in Hall. simpl. exact (Hall y Hy).
Qed.

(** The scan order as an increasing key. *)
Definition order_key (o : option EntryOrder) (e : Entry) : Z :=
  match o with Some oldestFirst => e_seq e | _ => - e_seq e end.

Lemma ordered_sorted s o :
  state_wf s -> StronglySorted (key_lt (order_key o)) (ordered (entries s) o).
Proof.
  intros Hwf. pose proof (wf_entries_sorted s Hwf) as Hs.
  destruct o as [[]|]; simpl; try exact Hs;
    (apply StronglySorted_reverse in Hs; revert Hs; generalize (reverse (entries s)); intros l Hs;
     induction Hs as [|x l Hl IH Hall]; constructor; [done|];
     eapply Forall_impl; [exact Hall|]; unfold key_lt, order_key; intros; lia).
Qed.

Lemma elem_of_ordered s o e : e ∈ ordered (entries s) o <-> e ∈ entries s.
Proof. destruct o as [[]|]; simpl; rewrite ?elem_of_reverse; done. Qed.

Lemma limit_take_prefix {A} limit (l : list A) : exists rest, l = limit_take limit l ++ rest.
Proof.
  unfold limit_take. destruct limit as [n|]; [|exists []; by rewrite app_nil_r].
  destruct (num_to_Z n) as [z|]; [|exists []; by rewrite app_nil_r].
  exists (drop (Z.to_nat z) l). by rewrite take_drop.
Qed.

(** A cursor placed on an element that matches keeps exactly what follows it. *)
Lemma matches_resume q l e :
  matchesEntryQuery l q = true -> num_to_Z (num_of_Z (e_seq l)) = Some (e_seq l) ->
  matchesEntryQuery e (resume_query q (Some (num_of_Z (e_seq l))))
  = matchesEntryQuery e q && (order_key (q_order q) l <? order_key (q_order q) e).
Proof.
  unfold matchesEntryQuery, resume_query, order_key. simpl. intros Hl Hz. rewrite Hz. simpl.
  rewrite <-!andb_assoc. f_equal. f_equal.
  apply andb_true_iff in Hl as [_ Hl].
  destruct (q_cursor q) as [c|]; destruct (q_order q) as [[]|]; simpl;
    try (apply Z.ltb_lt in Hl); lia.
Qed.

Lemma findEntries_eq s q :
  limit_ok (q_limit q) -> cursor_ok (q_cursor q) ->
  findEntries q s = Ok (limit_take (q_limit q)
    (keep (fun e => matchesEntryQuery e q) (ordered (entries s) (q_order q)))).
Proof.
  intros Hl Hc. apply assertValidLimit_ok in Hl as Hl'. apply assertValidCursor_ok in Hc.
  unfold findEntries. mrun. rewrite Hl', Hc. f_equal. by apply collect_spec.
Qed.
Lemma findEntries_valid s q page :
  findEntries q s = Ok page -> limit_ok (q_limit q) /\ cursor_ok (q_cursor q).
Proof.
  unfold findEntries. mrun. intros H.
  destruct (assertValidLimit (q_limit q)) as [[]|] eqn:Hl; [|done].
  destruct (assertValidCursor (q_cursor q)) as [[]|] eqn:Hc; [|done].
  by apply assertValidLimit_ok in Hl; apply assertValidCursor_ok in Hc.
Qed.

(** Reading a query page by page loses and repeats nothing: a page followed
    by the query resumed from the sequence number of the page's last entry is
    the whole unlimited query, in either order. *)
Theorem findEntries_pagination s q page l :
  state_wf s -> sequence s <= MAX_SAFE_INTEGER ->
  findEntries q s = Ok page -> last page = Some l ->
  exists rest,
    findEntries (resume_query q (Some (num_of_Z (e_seq l)))) s = Ok rest /\
    findEntries (resume_query q (q_cursor q)) s = Ok (page ++ rest).
Proof.
  intros Hwf Hmax Hpage Hlast. destruct (findEntries_valid _ _ _ Hpage) as [Hlim Hcur].
  rewrite findEntries_eq in Hpage by done. injection Hpage as Hpage.
  set (all := keep (fun e => matchesEntryQuery e q) (ordered (entries s) (q_order q))) in *.
  destruct (limit_take_prefix (q_limit q) all) as [rest Hall]. rewrite Hpage in Hall.
  assert (Hl : l ∈ all).
  { rewrite Hall. apply elem_of_app. left. apply last_Some in Hlast as [? ->]. set_solver. }
  apply elem_of_keep in Hl as [Hl Hm]. apply elem_of_ordered in Hl.
  pose proof (wf_entry_seq s Hwf l Hl) as Hseq.
  assert (Hz : num_to_Z (num_of_Z (e_seq l)) = Some (e_seq l)) by (apply num_to_Z_of_Z; lia).
  exists rest. rewrite !findEntries_eq; simpl; try done.
  - split; f_equal; [|done].
    rewrite (keep_ext _ (fun e => matchesEntryQuery e q
              && (order_key (q_order q) l <? order_key (q_order q) e)))
      by (intros; by apply matches_resume).
    rewrite <-(keep_keep (fun e => order_key (q_order q) l <? order_key (q_order q) e)).
    fold all. rewrite Hall. apply keep_after with (page := page); [|done].
    rewrite <-Hall. by apply keep_sorted, ordered_sorted.
  - exists (e_seq l). split; [done|lia].
Qed.

(** ** Open operations *)

Definition finishes (lane id : string) (r : LaneRecord) : bool :=
  bool_decide (lr_lane r = lane) &&
  match lr_body r with ROperationFinished o => bool_decide (of_runId o = id) | _ => false end.

(** The operation starts of a lane that no later record of the lane finishes. *)
Fixpoint unfinished (lane : string) (rs : list LaneRecord) : list OperationStartedRecord :=
  match rs with
  | [] => []
  | r :: rs' =>
      match as_operation_started r with
      | Some o =>
          if bool_decide (lr_lane r = lane) && negb (existsb (finishes lane (lr_id r)) rs')
          then o :: unfinished lane rs' else unfinished lane rs'
      | None => unfinished lane rs'
      end
  end.

Lemma as_started_id r o : as_operation_started r = Some o -> osr_id o = lr_id r.
Proof. unfold as_operation_started. destruct (lr_body r); by intros [= <-]. Qed.

Lemma unfinished_snoc lane rs r :
  unfinished lane (rs ++ [r]) =
  keep (fun o => negb (finishes lane (osr_id o) r)) (unfinished lane rs) ++
  match as_operation_started r with
  | Some o => if bool_decide (lr_lane r = lane) then [o] else []
  | None => []
  end.
Proof.
  induction rs as [|x rs IH]; simpl.
  - destruct (as_operation_started r) as [o|]; [|done]. by destruct (bool_decide _).
  - rewrite IH. destruct (as_operation_started x) as [o|] eqn:Ho; [|done].
    rewrite existsb_app. simpl. rewrite orb_false_r, negb_orb.
    destruct (bool_decide (lr_lane x = lane)), (existsb (finishes lane (lr_id x)) rs);
      simpl; try done.
    rewrite (as_started_id _ _ Ho). by destruct (finishes lane (lr_id x) r).
Qed.

Lemma jm_delete_keep {A} (f : A -> string) (l : list A) k :
  NoDup (f <$> l) ->
  jm_delete k ((fun o => (f o, o)) <$> l)
  = (fun o => (f o, o)) <$> keep (fun o => negb (bool_decide (f o = k))) l.
Proof.
  induction l as [|x l IH]; csimpl; intros Hnd; [done|]. apply NoDup_cons in Hnd as [Hni Hnd].
  destruct (decide (k = f x)) as [->|Hne].
  - rewrite bool_decide_true by done. simpl. rewrite keep_all; [done|].
    intros y Hy. apply negb_true_iff, bool_decide_eq_false. intros Heq. apply Hni.
    rewrite <-Heq. by apply list_elem_of_fmap_2.
  - rewrite bool_decide_false by done. csimpl. f_equal. by apply IH.
Qed.

Lemma unfinished_ids lane rs o : o ∈ unfinished lane rs -> osr_id o ∈ lr_id <$> rs.
Proof.
  induction rs as [|r rs IH]; simpl; [by intros ?%not_elem_of_nil|]. csimpl. intros Ho.
  destruct (as_operation_started r) as [o'|] eqn:Hr; [|right; by apply IH].
  destruct (_ && _); [|right; by apply IH].
  apply elem_of_cons in Ho as [->|Ho]; [|right; by apply IH].
  rewrite (as_started_id _ _ Hr). by left.
Qed.

Lemma unfinished_NoDup lane rs : NoDup (lr_id <$> rs) -> NoDup (osr_id <$> unfinished lane rs).
Proof.
  induction rs as [|r rs IH]; csimpl; intros Hnd; [constructor|].
  apply NoDup_cons in Hnd as [Hni Hnd].
  destruct (as_operation_started r) as [o'|] eqn:Hr; [|by apply IH].
  destruct (_ && _); [|by apply IH]. csimpl. apply NoDup_cons. split; [|by apply IH].
  rewrite (as_started_id _ _ Hr). intros (o & Heq & Ho)%list_elem_of_fmap.
  apply Hni. rewrite Heq. by eapply unfinished_ids.
Qed.

(** The incremental map of open operations is the declarative one. *)
Lemma open_ops_unfinished lane rs :
  NoDup (lr_id <$> rs) -> open_ops lane rs = (fun o => (osr_id o, o)) <$> unfinished lane rs.
Proof.
  induction rs as [|r rs IH] using rev_ind; intros Hnd; [done|].
  rewrite fmap_app in Hnd. apply NoDup_app in Hnd as (Hnd & Hfresh & _).
  specialize (IH Hnd). pose proof (unfinished_NoDup lane rs Hnd) as Hnd'.
  rewrite open_ops_snoc, unfinished_snoc, IH. unfold open_after, finishes.
  case_bool_decide as Hl; simpl.
  - unfold as_operation_started.
    destruct (lr_body r) eqn:Hb; simpl; rewrite ?app_nil_r;
      try (rewrite keep_all by done; done).
    + rewrite keep_all by done. rewrite fmap_app. simpl. rewrite jm_set_fresh; [done|].
      apply jm_get_None. unfold jm_keys. rewrite <-list_fmap_compose.
      intros (o & Heq & Ho)%list_elem_of_fmap. simpl in Heq.
      apply (Hfresh (lr_id r)); [|set_solver]. rewrite Heq. by eapply unfinished_ids.
    + rewrite jm_delete_keep by done. f_equal. apply keep_ext. intros o _. f_equal.
      apply bool_decide_ext. naive_solver.
  - rewrite keep_all by done.
    destruct (as_operation_started r); by rewrite app_nil_r.
Qed.

Lemma findOpenOperations_eq s lane limit :
  state_wf s -> limit_ok limit ->
  findOpenOperations lane limit s
  = Ok (limit_take limit (reverse (unfinished lane (records s)))).
Proof.
  intros Hwf Hlim. apply assertValidLimit_ok in Hlim as Hl.
  unfold findOpenOperations. mrun. rewrite Hl. f_equal.
  pose proof (wf_open s Hwf lane) as Ho. pose proof (wf_ids s Hwf) as Hnd.
  apply NoDup_app in Hnd as (_ & _ & Hnd). rewrite open_ops_unfinished in Ho by done.
  assert (Hvals : match openOperationsByLane s !! lane with
                  | Some m => reverse (jm_values m) | None => [] end
                  = reverse (unfinished lane (records s))).
  { destruct (openOperationsByLane s !! lane) as [m|]; simpl in Ho.
    - subst m. unfold jm_values. by rewrite <-list_fmap_compose, list_fmap_id.
    - symmetry in Ho. apply fmap_nil_inv in Ho. by rewrite Ho. }
  rewrite Hvals. unfold limit_take, limit_ok in *. destruct limit as [n|]; [|done].
  by destruct Hlim as (z & -> & _).
Qed.

(** [findOpenOperations] returns, newest first and cut at the limit, exactly
    the operation starts of the lane that no later [operation_finished] record
    of the lane closes. *)
Theorem findOpenOperations_spec s lane limit :
  state_wf s -> limit_ok limit ->
  findOpenOperations lane limit s
  = Ok (limit_take limit (reverse (unfinished lane (records s)))).
Proof. apply findOpenOperations_eq. Qed.

(** ** The theorems at a concrete session *)

Lemma applyMutation_atomic_witness :
  (applyMutation invalidMutation (MutName 11 None) sample).2 = Ok tt /\
  state_wf (applyMutation invalidMutation (MutName 11 None) sample).1.
Proof.
  pose proof (applyMutation_atomic invalidMutation (MutName 11 None) sample sample_wf) as H.
  split; [by vm_compute|].
  destruct (applyMutation invalidMutation (MutName 11 None) sample). apply H.
Defined.

Lemma walkToRoot_terminates_witness :
  (walkToRoot (Some "e4") None sample).2 <> WalkOutOfFuel.
Proof.
  apply (walkToRoot_terminates sample (Some "e4") None).
  intros id e He. apply (wf_byId_elem sample sample_wf) in He. apply He.
Defined.

Lemma findEntriesOnBranch_spec_witness :
  exists path, root_path (entriesById sample) (sample_entry "e4" 10 (Some "e2") "last") path.
Proof.
  destruct (findEntriesOnBranch_spec sample all_query
              {| b_stopAtType := None; b_stopAtId := Some "e1" |} "e4"
              (sample_entry "e4" 10 (Some "e2") "last") sample_wf) as (path & H & _).
  - by vm_compute.
  - exists 2. split; [by vm_compute|lia].
  - exact I.
  - by exists path.
Defined.

Lemma findEntries_pagination_witness :
  exists rest, findEntries (resume_query all_query (Some (num_of_Z 4))) sample = Ok rest.
Proof.
  destruct (findEntries_pagination sample all_query
    [sample_entry "e4" 10 (Some "e2") "last"; sample_entry "e3" 4 (Some "e1") "aside"]
    (sample_entry "e3" 4 (Some "e1") "aside") sample_wf) as (rest & H & _).
  - by vm_compute.
  - by vm_compute.
  - reflexivity.
  - by exists rest.
Defined.

Lemma findOpenOperations_spec_witness :
  findOpenOperations "main" (Some (num_of_Z 1)) sample
  = Ok (limit_take (Some (num_of_Z 1)) (reverse (unfinished "main" (records sample)))).
Proof.
  apply (findOpenOperations_spec sample "main" (Some (num_of_Z 1)) sample_wf).
  exists 1. split; [by vm_compute|lia].
Defined.
