(* ===== verification/SessionFork.v ===== *)
(** * Forking a session

    [createForkMutations] followed by the replay into a fresh state
    ([InMemorySessionStorage.fork], [JsonlSessionStorage.fork]) always succeeds
    on a well-formed source and yields a well-formed session with the selected
    entries, lanes, name and labels. *)
From S2P Require Import Prelude JsNumber SessionTypes SessionState SessionInvariant SessionTheorems.

Lemma number_from_app k ms1 ms2 :
  number_from k (ms1 ++ ms2) = number_from k ms1 ++ (number_from (k + zlen ms1) ms2).
Proof.
  revert k. induction ms1 as [|m ms1 IH]; intros k; simpl.
  - by rewrite Z.add_0_r.
  - rewrite IH, zlen_cons. do 2 f_equal. f_equal. lia.
Qed.

Lemma applyAll_app ms1 ms2 s :
  applyAll (ms1 ++ ms2) s =
  match applyAll ms1 s with (s', Ok _) => applyAll ms2 s' | (s', Err e) => (s', Err e) end.
Proof.
  revert s. induction ms1 as [|m ms1 IH]; intros s; [done|].
  unfold applyAll in *. simpl. mrun. destruct (applyMutation invalidMutation m s) as [s1 [[]|e]]; [|done].
  apply IH.
Qed.

(** [applyAll] on mutations whose guards hold in turn is the fold of their effects. *)
Inductive guarded : SessionState -> list SessionMutation -> SessionState -> Prop :=
| guarded_nil s : guarded s [] s
| guarded_cons s m ms s' :
    mutation_guard s m = true -> guarded (mutation_effect s m) ms s' -> guarded s (m :: ms) s'.

Lemma guarded_applyAll s ms s' : guarded s ms s' -> applyAll ms s = (s', Ok tt).
Proof.
  induction 1 as [s|s m ms s' Hg H IH]; [done|].
  unfold applyAll in *. simpl. mrun. by rewrite applyMutation_ok.
Qed.
Lemma guarded_wf s ms s' : guarded s ms s' -> state_wf s -> state_wf s'.
Proof. induction 1 as [s|s m ms s' Hg H IH]; intros Hwf; [done|]. by apply IH, effect_wf. Qed.
Lemma guarded_app s1 ms1 s2 ms2 s3 :
  guarded s1 ms1 s2 -> guarded s2 ms2 s3 -> guarded s1 (ms1 ++ ms2) s3.
Proof. induction 1; simpl; [done|]. intros. constructor; auto. Qed.

(** ** Phase 1: the entries *)

(** Parents come first and identifiers are new. *)
Fixpoint parents_first (seen : list string) (es : list Entry) : Prop :=
  match es with
  | [] => True
  | e :: es' =>
      (forall p, e_parentId e = Some p -> p ∈ seen) /\ (e_id e ∉ seen) /\
      parents_first (seen ++ [e_id e]) es'
  end.

Fixpoint renumber (k : Z) (es : list Entry) : list Entry :=
  match es with [] => [] | e :: es' => with_seq e k :: renumber (k + 1) es' end.

Lemma renumber_ids k es : e_id <$> renumber k es = e_id <$> es.
Proof. revert k. induction es as [|e es IH]; intros k; csimpl; [done|]. by rewrite IH. Qed.

Definition entry_builders (es : list Entry) : list (Z -> SessionMutation) :=
  (fun e seq => MutEntry None (with_seq e seq)) <$> es.

Lemma zlen_entry_builders es : zlen (entry_builders es) = zlen es.
Proof. unfold zlen, entry_builders. by rewrite length_fmap. Qed.

Lemma phase_entries es st :
  state_wf st -> records st = [] -> parents_first (e_id <$> entries st) es ->
  exists st', guarded st (number_from (sequence st + 1) (entry_builders es)) st' /\
    sequence st' = sequence st + zlen es /\
    entries st' = entries st ++ renumber (sequence st + 1) es /\
    records st' = [] /\ lanes st' = lanes st /\ name st' = name st /\ labels st' = labels st.
Proof.
  revert st. induction es as [|e es IH]; intros st Hwf Hrec Hpf.
  - exists st. simpl. rewrite zlen_nil, app_nil_r, Z.add_0_r. split_and!; try done. constructor.
  - destruct Hpf as (Hpar & Hnew & Hpf). cbn [number_from entry_builders fmap list_fmap].
    set (m := MutEntry None (with_seq e (sequence st + 1))).
    assert (Hg : mutation_guard st m = true).
    { unfold mutation_guard, mutation_check. simpl. rewrite Z.eqb_refl. simpl.
      rewrite bool_decide_false; simpl.
      - destruct (e_parentId e) as [p|]; [|done]. apply bool_decide_eq_true.
        specialize (Hpar p eq_refl). apply list_elem_of_fmap in Hpar as (pe & -> & Hpe).
        eexists. by apply (wf_elem_byId st Hwf).
      - rewrite (wf_used st Hwf), Hrec, app_nil_r. done. }
    destruct (IH (mutation_effect st m)) as (st' & Hst' & Hseq & Hent & Hr & Hl & Hn & Hlab).
    + by apply effect_wf.
    + done.
    + simpl. rewrite fmap_app. done.
    + exists st'. simpl in *. split_and!; try done.
      * by constructor.
      * rewrite Hseq, zlen_cons. lia.
      * rewrite Hent, <-(assoc_L (++)). done.
Qed.

(** ** Phases 2 to 4: lanes, name, labels *)

Lemma phase_lanes (ps : list LanePointer) st :
  (forall p id, p ∈ ps -> lp_leafId p = Some id -> is_Some (entriesById st !! id)) ->
  exists st', guarded st (number_from (sequence st + 1)
                ((fun p seq => MutLane seq (lp_lane p) (lp_leafId p)) <$> ps)) st' /\
    sequence st' = sequence st + zlen ps /\
    lanes st' = foldl (fun m p => jm_set (lp_lane p) (lp_leafId p) m) (lanes st) ps /\
    entries st' = entries st /\ entriesById st' = entriesById st /\
    records st' = records st /\ name st' = name st /\ labels st' = labels st.
Proof.
  revert st. induction ps as [|p ps IH]; intros st Hps.
  - exists st. rewrite zlen_nil, Z.add_0_r. split_and!; try done. constructor.
  - csimpl. set (m := MutLane (sequence st + 1) (lp_lane p) (lp_leafId p)).
    assert (Hg : mutation_guard st m = true).
    { unfold mutation_guard, mutation_check. simpl. rewrite Z.eqb_refl. simpl.
      destruct (lp_leafId p) as [id|] eqn:Hid; [|done]. apply bool_decide_eq_true.
      apply (Hps p); [by left|done]. }
    destruct (IH (mutation_effect st m)) as (st' & Hst' & Hseq & Hrest).
    { intros p' id Hp'. apply (Hps p'). by right. }
    exists st'. simpl in *. split; [by constructor|]. rewrite zlen_cons. split; [lia|done].
Qed.

Definition name_builders (n : option string) : list (Z -> SessionMutation) :=
  match n with None => [] | Some x => [fun seq => MutName seq (Some x)] end.

Lemma phase_name (n : option string) st :
  exists st', guarded st (number_from (sequence st + 1) (name_builders n)) st' /\
    sequence st' = sequence st + zlen (name_builders n) /\
    name st' = (match n with None => name st | Some x => Some x end) /\
    lanes st' = lanes st /\ entries st' = entries st /\ entriesById st' = entriesById st /\
    records st' = records st /\ labels st' = labels st.
Proof.
  destruct n as [x|].
  - exists (mutation_effect st (MutName (sequence st + 1) (Some x))).
    split; [|done]. constructor; [|constructor].
    unfold mutation_guard. simpl. by rewrite Z.eqb_refl.
  - exists st. split; [constructor|]. by rewrite Z.add_0_r.
Qed.

Definition label_builders (lab : gmap string string) (es : list Entry)
  : list (Z -> SessionMutation) :=
  omap (fun e => (fun l seq => MutLabel seq (e_id e) (Some l)) <$> lab !! e_id e) es.

Lemma phase_labels lab es st :
  (forall e, e ∈ es -> is_Some (entriesById st !! e_id e)) ->
  exists st', guarded st (number_from (sequence st + 1) (label_builders lab es)) st' /\
    (forall id, labels st' !! id =
       if bool_decide (id ∈ e_id <$> es) then match lab !! id with Some l => Some l | None => labels st !! id end
       else labels st !! id) /\
    lanes st' = lanes st /\ entries st' = entries st /\ records st' = records st /\
    name st' = name st.
Proof.
  revert st. induction es as [|e es IH]; intros st Hes.
  - exists st. split; [constructor|]. split_and!; try done.
  - unfold label_builders in *. csimpl. destruct (lab !! e_id e) as [l|] eqn:Hlab; csimpl.
    + set (m := MutLabel (sequence st + 1) (e_id e) (Some l)).
      assert (Hg : mutation_guard st m = true).
      { unfold mutation_guard, mutation_check. simpl. rewrite Z.eqb_refl. simpl.
        apply bool_decide_eq_true, Hes. by left. }
      destruct (IH (mutation_effect st m)) as (st' & Hst' & Hl & Hrest).
      { intros e' He'. apply Hes. by right. }
      exists st'. split; [by constructor|]. split; [|done].
      intros id. rewrite Hl. simpl. rewrite lookup_insert.
      destruct (decide (e_id e = id)) as [<-|Hne].
      * rewrite Hlab. rewrite (bool_decide_true (e_id e ∈ e_id e :: _)) by by left.
        by destruct (bool_decide _).
      * rewrite (bool_decide_ext (id ∈ e_id e :: (e_id <$> es)) (id ∈ e_id <$> es)); [done|].
        rewrite elem_of_cons. naive_solver.
    + destruct (IH st) as (st' & Hst' & Hl & Hrest).
      { intros e' He'. apply Hes. by right. }
      exists st'. split; [done|]. split; [|done]. intros id. rewrite Hl.
      destruct (decide (e_id e = id)) as [<-|Hne].
      * rewrite Hlab. by repeat destruct (bool_decide _).
      * rewrite (bool_decide_ext (id ∈ e_id e :: (e_id <$> es)) (id ∈ e_id <$> es)); [done|].
        rewrite elem_of_cons. naive_solver.
Qed.

(** ** The whole replay *)

Lemma fork_builders_phases es ps s :
  fork_builders es ps s =
  entry_builders es ++ ((fun p seq => MutLane seq (lp_lane p) (lp_leafId p)) <$> ps) ++
  name_builders (name s) ++ label_builders (labels s) es.
Proof. done. Qed.

Lemma fork_replay es ps s :
  parents_first [] es ->
  (forall p id, p ∈ ps -> lp_leafId p = Some id -> id ∈ e_id <$> es) ->
  exists s', applyAll (number_from 1 (fork_builders es ps s)) initial_state = (s', Ok tt) /\
    state_wf s' /\ entries s' = renumber 1 es /\ records s' = [] /\
    lanes s' = foldl (fun m p => jm_set (lp_lane p) (lp_leafId p) m) (lanes initial_state) ps /\
    name s' = name s /\
    (forall id, labels s' !! id = if bool_decide (id ∈ e_id <$> es) then labels s !! id else None).
Proof.
  intros Hpf Hps. rewrite fork_builders_phases.
  destruct (phase_entries es initial_state initial_wf eq_refl Hpf)
    as (s1 & H1 & Hseq1 & Hent1 & Hr1 & Hl1 & Hn1 & Hlab1).
  pose proof (guarded_wf _ _ _ H1 initial_wf) as Hwf1.
  assert (Hin1 : forall id, id ∈ e_id <$> es -> is_Some (entriesById s1 !! id)).
  { intros id Hid. rewrite <-(renumber_ids 1 es) in Hid.
    change (entries s1 = renumber 1 es) in Hent1. rewrite <-Hent1 in Hid.
    apply list_elem_of_fmap in Hid as (e & -> & He). eexists. by apply (wf_elem_byId s1 Hwf1). }
  destruct (phase_lanes ps s1) as (s2 & H2 & Hseq2 & Hl2 & Hent2 & Hby2 & Hr2 & Hn2 & Hlab2).
  { intros p id Hp Hid. by apply Hin1, (Hps p). }
  destruct (phase_name (name s) s2) as (s3 & H3 & Hseq3 & Hn3 & Hl3 & Hent3 & Hby3 & Hr3 & Hlab3).
  destruct (phase_labels (labels s) es s3) as (s4 & H4 & Hlab4 & Hl4 & Hent4 & Hr4 & Hn4).
  { intros e He. rewrite Hby3, Hby2. apply Hin1. by apply list_elem_of_fmap_2. }
  assert (Hg : guarded initial_state
    (number_from 1 (entry_builders es ++ ((fun p seq => MutLane seq (lp_lane p) (lp_leafId p)) <$> ps)
       ++ name_builders (name s) ++ label_builders (labels s) es)) s4).
  { rewrite !number_from_app. eapply guarded_app; [exact H1|].
    replace (1 + zlen (entry_builders es)) with (sequence s1 + 1)
      by (rewrite Hseq1, zlen_entry_builders; simpl; lia).
    eapply guarded_app; [exact H2|].
    replace (sequence s1 + 1 + zlen _) with (sequence s2 + 1)
      by (rewrite Hseq2; unfold zlen; rewrite length_fmap; lia).
    eapply guarded_app; [exact H3|].
    replace (sequence s2 + 1 + zlen _) with (sequence s3 + 1) by (rewrite Hseq3; lia).
    exact H4. }
  exists s4. split; [by apply guarded_applyAll|]. split; [exact (guarded_wf _ _ _ Hg initial_wf)|].
  split_and!.
  - by rewrite Hent4, Hent3, Hent2, Hent1.
  - by rewrite Hr4, Hr3, Hr2.
  - by rewrite Hl4, Hl3, Hl2, Hl1.
  - rewrite Hn4, Hn3, Hn2, Hn1. by destruct (name s).
  - intros id. rewrite Hlab4, Hlab3, Hlab2, Hlab1. simpl.
    case_bool_decide; [|done]. by destruct (labels s !! id).
Qed.

(** Closed under parents and in sequence order is enough for [parents_first]. *)
Lemma parents_first_sorted pre es :
  StronglySorted (key_lt e_seq) (pre ++ es) -> NoDup (e_id <$> pre ++ es) ->
  (forall e p, e ∈ es -> e_parentId e = Some p ->
     exists pe, pe ∈ pre ++ es /\ e_id pe = p /\ e_seq pe < e_seq e) ->
  parents_first (e_id <$> pre) es.
Proof.
  revert pre. induction es as [|e es IH]; intros pre Hs Hnd Hpar; simpl; [done|].
  rewrite fmap_app in Hnd. csimpl in Hnd. split_and!.
  - intros p Hp. destruct (Hpar e p) as (pe & Hpe & <- & Hlt); [by left|done|].
    apply elem_of_app in Hpe as [Hpe|Hpe]; [by apply list_elem_of_fmap_2|].
    apply StronglySorted_app in Hs as (_ & _ & Hs). apply StronglySorted_inv in Hs as [_ Hall].
    rewrite Forall_forall in Hall. apply elem_of_cons in Hpe as [->|Hpe]; [lia|].
    specialize (Hall pe Hpe). unfold key_lt in Hall. lia.
  - apply NoDup_app in Hnd as (_ & Hd & _). intros Hin. apply (Hd _ Hin). by left.
  - change [e_id e] with (e_id <$> [e]). rewrite <-fmap_app. apply IH.
    + by rewrite <-(assoc_L (++)).
    + by rewrite <-(assoc_L (++)), fmap_app.
    + intros e' p He' Hp. rewrite <-(assoc_L (++)). apply Hpar; [by right|done].
Qed.

(** ** The two selections *)

Lemma ordered_entries_all s :
  findEntries oldest_query s = Ok (entries s).
Proof. rewrite findEntries_eq by done. simpl. by rewrite keep_all. Qed.

Lemma tree_parents_first s : state_wf s -> parents_first [] (entries s).
Proof.
  intros Hwf. apply (parents_first_sorted []).
  - by apply wf_entries_sorted.
  - by apply wf_entry_ids.
  - intros e p He Hp. destruct (wf_parents s Hwf e p He Hp) as (pe & Hpe & Hlt).
    apply (wf_byId_elem s Hwf) in Hpe as [Hpe Hid]. by exists pe.
Qed.

Lemma root_path_closed s e path x p :
  state_wf s -> e ∈ entries s -> root_path (entriesById s) e path -> x ∈ path ->
  e_parentId x = Some p -> exists pe, pe ∈ path /\ e_id pe = p /\ e_seq pe < e_seq x.
Proof.
  intros Hwf He H. revert x. induction H as [e Hp|e q qe l Hq Hqe H IH]; intros x Hx Hxp.
  - apply list_elem_of_singleton in Hx as ->. congruence.
  - destruct (wf_parents s Hwf e q He Hq) as (qe' & Hqe' & Hlt). simplify_eq.
    destruct (wf_byId_elem s Hwf _ _ Hqe) as [Hin Hid].
    apply elem_of_cons in Hx as [->|Hx].
    + exists qe. simplify_eq. destruct (root_path_nonempty s qe l H) as [l' ->].
      split; [set_solver|done].
    + destruct (IH Hin x Hx Hxp) as (pe & ? & ? & ?). exists pe. set_solver.
Qed.

Lemma root_path_parents_first s e path :
  state_wf s -> e ∈ entries s -> root_path (entriesById s) e path ->
  parents_first [] (reverse path).
Proof.
  intros Hwf He H. destruct (root_path_spec s Hwf e path He H) as [Hs _].
  apply (parents_first_sorted []); simpl.
  - by apply StronglySorted_reverse in Hs.
  - rewrite fmap_reverse, reverse_Permutation. by eapply root_path_ids.
  - intros x p Hx Hp. rewrite elem_of_reverse in Hx.
    destruct (root_path_closed s e path x p Hwf He H Hx Hp) as (pe & Hpe & ? & ?).
    exists pe. by rewrite elem_of_reverse.
Qed.

Lemma foldl_set_lanes (l0 m : jsmap string (option string)) k :
  NoDup (jm_keys m) -> (forall k', is_Some (jm_get k' l0) -> is_Some (jm_get k' m)) ->
  jm_get k (foldl (fun m p => jm_set (lp_lane p) (lp_leafId p) m) l0
              ((fun p => {| lp_lane := p.1; lp_leafId := p.2 |}) <$> m)) = jm_get k m.
Proof.
  intros Hnd Hsub.
  assert (Hgen : forall l, jm_get k (foldl (fun m p => jm_set (lp_lane p) (lp_leafId p) m) l
              ((fun p => {| lp_lane := p.1; lp_leafId := p.2 |}) <$> m))
            = match jm_get k m with Some v => Some v | None => jm_get k l end).
  { clear Hsub. induction m as [|[k1 v1] m IH]; intros l; csimpl; [done|].
    unfold jm_keys in Hnd. csimpl in Hnd. apply NoDup_cons in Hnd as [Hni Hnd].
    rewrite IH by done. rewrite jm_get_set.
    destruct (decide (k = k1)) as [->|]; [|done].
    destruct (jm_get k1 m) as [v|] eqn:Hv; [|done].
    destruct Hni. apply jm_get_Some_elem in Hv. apply list_elem_of_fmap. by exists (k1, v). }
  rewrite Hgen. destruct (jm_get k m) as [v|] eqn:Hk; [done|].
  destruct (jm_get k l0) eqn:Hl; [|done]. destruct (Hsub k) as [v Hv]; [by eexists|congruence].
Qed.

(** The selections of [fork_selection] satisfy the premises of [fork_replay]. *)
Lemma branch_whole s t te :
  state_wf s -> entriesById s !! t = Some te ->
  exists path, root_path (entriesById s) te path /\
    findEntriesOnBranch oldest_query no_bounds t s = Ok (reverse path).
Proof.
  intros Hwf Hte.
  destruct (findEntriesOnBranch_eq s oldest_query no_bounds t te Hwf Hte) as (path & Hp & Hq);
    [done|done|]. exists path. split; [done|]. rewrite Hq. simpl. f_equal.
  rewrite keep_all by done. clear Hp Hq. unfold branch_view. simpl.
  induction (reverse path) as [|x l IH]; simpl; [done|]. by rewrite IH.
Qed.

Lemma tree_lanes_copied s p id :
  state_wf s -> p ∈ getLanes s -> lp_leafId p = Some id -> id ∈ e_id <$> entries s.
Proof.
  intros Hwf (q & -> & Hq)%list_elem_of_fmap Hid. simpl in Hid. destruct q as [l leaf].
  simpl in *. subst leaf. apply jm_elem_get in Hq; [|apply (wf_lanes s Hwf)].
  apply (wf_leaves s Hwf) in Hq as [e Hq].
  apply (wf_byId_elem s Hwf) in Hq as [Hq <-]. by apply list_elem_of_fmap_2.
Qed.

Lemma branch_replays s t te path :
  state_wf s -> entriesById s !! t = Some te -> root_path (entriesById s) te path ->
  parents_first [] (reverse path) /\ t ∈ e_id <$> reverse path.
Proof.
  intros Hwf Hte Hp. destruct (wf_byId_elem s Hwf _ _ Hte) as [Hin <-].
  split; [by eapply root_path_parents_first|].
  destruct (root_path_nonempty s te path Hp) as [l' ->]. apply list_elem_of_fmap_2.
  rewrite elem_of_reverse. by left.
Qed.

Lemma fork_selection_replays options s es ps :
  state_wf s -> fork_selection options s = Ok (es, ps) ->
  parents_first [] es /\
  (forall p id, p ∈ ps -> lp_leafId p = Some id -> id ∈ e_id <$> es).
Proof.
  intros Hwf. destruct options as [entryId position|]; unfold fork_selection; mrun.
  - destruct (match entryId with Some id => Ok (Some id) | None => requireLane "main" s end)
      as [sel|]; [|by intros [=]].
    destruct (match sel with None => Ok None | Some _ => _ end) as [target|] eqn:Ht; [|by intros [=]].
    destruct target as [t|].
    + assert (Hte : exists te, entriesById s !! t = Some te).
      { destruct sel as [id|]; [|done]. unfold getEntry in Ht.
        destruct (entriesById s !! id) as [e|] eqn:He; [|done].
        destruct (wf_byId_elem s Hwf _ _ He) as [Hin Hid].
        destruct (bool_decide _); [|done]. injection Ht as Ht.
        destruct (match position with Some p => p | None => _ end).
        - destruct (wf_parents s Hwf e t Hin Ht) as (pe & ? & _). by exists pe.
        - injection Ht as <-. exists e. by rewrite Hid. }
      destruct Hte as [te Hte]. destruct (branch_whole s t te Hwf Hte) as (path & Hp & ->).
      intros [= <- <-]. destruct (branch_replays s t te path Hwf Hte Hp) as [H1 H2].
      split; [done|]. intros p id ->%list_elem_of_singleton. by intros [= <-].
    + intros [= <- <-]. split; [done|]. by intros p id ->%list_elem_of_singleton.
  - rewrite ordered_entries_all. intros [= <- <-].
    split; [by apply tree_parents_first|]. intros p id. by apply tree_lanes_copied.
Qed.

(** Forking a whole session ([scope: "tree"]) always succeeds: the mutations
    it produces replay without a rejection into a fresh state, which is
    well-formed and has the source's entries renumbered from 1, its lanes, name
    and labels, and no records. *)
Theorem fork_tree_spec s :
  state_wf s ->
  exists ms s', createForkMutations ForkTree s = Ok ms /\
    applyAll ms initial_state = (s', Ok tt) /\ state_wf s' /\
    entries s' = renumber 1 (entries s) /\ records s' = [] /\
    (forall l, jm_get l (lanes s') = jm_get l (lanes s)) /\
    name s' = name s /\ labels s' = labels s.
Proof.
  intros Hwf. unfold createForkMutations, fork_selection. mrun. rewrite ordered_entries_all.
  destruct (fork_replay (entries s) (getLanes s) s) as (s' & Ha & Hwf' & He & Hr & Hl & Hn & Hlab).
  - by apply tree_parents_first.
  - intros p id. by apply tree_lanes_copied.
  - eexists _, s'. split; [done|]. split_and!; try done.
    + intros l. rewrite Hl. apply foldl_set_lanes; [apply (wf_lanes s Hwf)|].
      intros k'. simpl. case_decide; [|by intros [? ?]]. subst k'. intros _.
      apply jm_has_spec, (wf_main s Hwf).
    + apply map_eq. intros id. rewrite Hlab. case_bool_decide as Hid; [done|].
      destruct (labels s !! id) as [x|] eqn:Hx; [|done]. destruct Hid.
      apply (wf_labels s Hwf) in Hx as [e' Hx]. apply (wf_byId_elem s Hwf) in Hx as [Hx <-].
      by apply list_elem_of_fmap_2.
Qed.

Definition fork_target (e : Entry) (position : option ForkPosition) : option string :=
  match position with Some PosAt => Some (e_id e) | _ => e_parentId e end.

(** Forking a branch at a message entry copies exactly the chain of its
    ancestors, root first, with the entry itself for position ["at"] and without
    it for ["before"] (the default): the replay succeeds, is well-formed, has one
    lane [main] on the target, and keeps the labels of the copied entries. *)
Theorem fork_branch_spec s id e position :
  state_wf s -> getEntry id s = Some e -> e_type e = TMessage ->
  exists ms s' path, createForkMutations (ForkBranch (Some id) position) s = Ok ms /\
    match fork_target e position with
    | None => path = []
    | Some t => exists te, entriesById s !! t = Some te /\ root_path (entriesById s) te path
    end /\
    applyAll ms initial_state = (s', Ok tt) /\ state_wf s' /\
    entries s' = renumber 1 (reverse path) /\ records s' = [] /\
    lanes s' = [("main", fork_target e position)] /\ name s' = name s /\
    (forall i, labels s' !! i = if bool_decide (i ∈ e_id <$> path) then labels s !! i else None).
Proof.
  intros Hwf He Ht. unfold getEntry in He.
  assert (Hsel : exists path,
    fork_selection (ForkBranch (Some id) position) s
    = Ok (reverse path, [{| lp_lane := "main"; lp_leafId := fork_target e position |}]) /\
    match fork_target e position with
    | None => path = []
    | Some t => exists te, entriesById s !! t = Some te /\ root_path (entriesById s) te path
    end).
  { unfold fork_selection, getEntry, fork_target. mrun. rewrite He, bool_decide_true by done.
    destruct (wf_byId_elem s Hwf _ _ He) as [Hin Hid].
    destruct position as [[]|]; simpl.
    all: try (destruct (e_parentId e) as [p|] eqn:Hp; simpl; [|by exists []];
      destruct (wf_parents s Hwf e p Hin Hp) as (pe & Hpe & _);
      destruct (branch_whole s p pe Hwf Hpe) as (path & ? & ->); exists path; eauto).
    rewrite Hid. destruct (branch_whole s id e Hwf He) as (path & ? & ->). exists path. eauto. }
  destruct Hsel as (path & Hsel & Hpath). unfold createForkMutations. mrun. rewrite Hsel.
  set (ps := [{| lp_lane := "main"; lp_leafId := fork_target e position |}]).
  destruct (fork_replay (reverse path) ps s) as (s' & Ha & Hwf' & Hent & Hr & Hl & Hn & Hlab).
  - destruct (fork_target e position) as [t|]; [|by subst path].
    destruct Hpath as (te & Hte & Hp). by eapply branch_replays.
  - intros p i Hp Hi. apply list_elem_of_singleton in Hp as ->. simpl in Hi. rewrite Hi in Hpath.
    destruct Hpath as (te & Hte & Hp). by eapply branch_replays.
  - eexists _, s', path. split; [done|]. split_and!; try done.
    intros i. rewrite Hlab. rewrite (bool_decide_ext (i ∈ e_id <$> reverse path) (i ∈ e_id <$> path)); [done|].
    by rewrite fmap_reverse, elem_of_reverse.
Qed.

(** ** The theorems at a concrete session *)

Lemma fork_tree_spec_witness :
  exists ms s', createForkMutations ForkTree sample = Ok ms /\
    applyAll ms initial_state = (s', Ok tt).
Proof.
  destruct (fork_tree_spec sample sample_wf) as (ms & s' & H1 & H2 & _). by exists ms, s'.
Defined.

Lemma fork_branch_spec_witness :
  exists ms s', createForkMutations (ForkBranch (Some "e4") (Some PosAt)) sample = Ok ms /\
    applyAll ms initial_state = (s', Ok tt).
Proof.
  destruct (fork_branch_spec sample "e4" (sample_entry "e4" 10 (Some "e2") "last") (Some PosAt)
              sample_wf) as (ms & s' & path & H1 & _ & H2 & _).
  - by vm_compute.
  - reflexivity.
  - by exists ms, s'.
Defined.
