(* ===== verification/MemoryStorage.v ===== *)
(** * Session storages and repositories (packages/agent/src/harness/session/memory.ts)

    [SessionStorage] is the interface the session layer programs against: the
    six mutating calls of a storage and the state a reader observes.  Its
    specification [storage_step] says, for every call, which error is thrown or
    which mutation is committed.  [InMemorySessionStorage] implements it; the
    repository keeps storages in a heap, because a [Session] that was opened keeps
    its storage alive after the repository deleted it.

    [structuredClone] is the identity on the values of the model; [Date.now()] and
    [uuidv7()] are arguments. *)
From S2P Require Import Prelude JsNumber SessionTypes SessionState SessionInvariant SessionTheorems SessionFork.

(** [NewRecord]: a record before the storage assigned [seq] and [timestamp]. *)
Record NewRecord := { nr_id : string; nr_lane : string; nr_body : record_body }.

(** ** The interface *)

Inductive storage_call :=
| CallCreateLane (lane : string) (at_ : option string)
| CallMoveLane (lane : string) (to : option string)
| CallAppendEntry (newEntry : ProvisionedEntry) (lane : string)
| CallAppendRecord (newRecord : NewRecord)
| CallSetName (name : option string)
| CallSetLabel (id : string) (label : option string).

Inductive storage_reply :=
| ReplyVoid
| ReplyEntry (e : Entry)
| ReplyRecord (r : LaneRecord).

Class SessionStorage (St : Type) := {
  storage_view : St -> SessionState;
  storage_run : Z -> storage_call -> M St SessionError storage_reply }.

(** The entry and the record a storage commits for a call. *)
Definition stamped_entry (now : Z) (s : SessionState) (newEntry : ProvisionedEntry)
    (parentId : option string) : Entry :=
  {| e_id := pe_id newEntry; e_seq := nextSequence s; e_parentId := parentId;
     e_timestamp := now; e_body := pe_body newEntry |}.
Definition stamped_record (now : Z) (s : SessionState) (newRecord : NewRecord) : LaneRecord :=
  {| lr_base := {| r_id := nr_id newRecord; r_seq := nextSequence s;
                   r_lane := nr_lane newRecord; r_timestamp := now |};
     lr_body := nr_body newRecord |}.

Definition starts_operation (b : record_body) : bool :=
  match b with ROperationStarted _ => true | _ => false end.

Definition open_operation_error (lane id : string) : SessionError :=
  sessionError storage_error
    ("Lane " +:+ lane +:+ " already has an open operation " +:+ id).

(** What a call must do: throw an error and change nothing, or commit one
    mutation. *)
Definition storage_spec (now : Z) (c : storage_call) (s : SessionState)
  : result SessionError (SessionMutation * storage_reply) :=
  match c with
  | CallCreateLane lane at_ =>
      _ ← validateNewLane lane s;
      _ ← validateTarget at_ s;
      Ok (MutLane (nextSequence s) lane at_, ReplyVoid)
  | CallMoveLane lane to =>
      _ ← requireLane lane s;
      _ ← validateTarget to s;
      Ok (MutLane (nextSequence s) lane to, ReplyVoid)
  | CallAppendEntry newEntry lane =>
      leafId ← requireLane lane s;
      _ ← validateUnusedId (pe_id newEntry) s;
      let entry := stamped_entry now s newEntry leafId in
      Ok (MutEntry (Some lane) entry, ReplyEntry entry)
  | CallAppendRecord newRecord =>
      _ ← requireLane (nr_lane newRecord) s;
      _ ← validateUnusedId (nr_id newRecord) s;
      match last (unfinished (nr_lane newRecord) (records s)) with
      | Some o =>
          if starts_operation (nr_body newRecord)
          then Err (open_operation_error (nr_lane newRecord) (osr_id o))
          else let record := stamped_record now s newRecord in
               Ok (MutRecord record, ReplyRecord record)
      | None =>
          let record := stamped_record now s newRecord in
          Ok (MutRecord record, ReplyRecord record)
      end
  | CallSetName name => Ok (MutName (nextSequence s) name, ReplyVoid)
  | CallSetLabel id label =>
      _ ← validateTarget (Some id) s;
      Ok (MutLabel (nextSequence s) id label, ReplyVoid)
  end.

Definition storage_step (now : Z) (c : storage_call) (s : SessionState)
  : SessionState * result SessionError storage_reply :=
  match storage_spec now c s with
  | Err e => (s, Err e)
  | Ok (m, reply) => (mutation_effect s m, Ok reply)
  end.

(** The law of a storage: on well-formed states every call is the step of the
    specification. *)
Class SessionStorageLaws (St : Type) `{SessionStorage St} :=
  storage_refines : forall now c st, state_wf (storage_view st) ->
    let '(st', r) := storage_run now c st in
    (storage_view st', r) = storage_step now c (storage_view st).

(** ** The in-memory storage *)

Record InMemorySessionStorage := {
  ims_metadata : SessionMetadata;
  ims_state : SessionState }.

Definition new_InMemorySessionStorage (metadata : SessionMetadata) : InMemorySessionStorage :=
  {| ims_metadata := metadata; ims_state := initial_state |}.

(** [this.state.f(...)] *)
Definition on_state {A} (f : M SessionState SessionError A)
  : M InMemorySessionStorage SessionError A :=
  fun st => let '(s', r) := f (ims_state st) in
            ({| ims_metadata := ims_metadata st; ims_state := s' |}, r).
Definition ask_state {A} (f : SessionState -> result SessionError A)
  : M InMemorySessionStorage SessionError A :=
  fun st => (st, f (ims_state st)).
Definition applyMutation_ (m : SessionMutation) : M InMemorySessionStorage SessionError unit :=
  on_state (applyMutation invalidMutation m).
Definition next_sequence : M InMemorySessionStorage SessionError Z :=
  ask_state (fun s => Ok (nextSequence s)).

Module Memory.
Definition getMetadata (st : InMemorySessionStorage) : SessionMetadata := ims_metadata st.

Definition fork (metadata : SessionMetadata) (options : ForkOptions) (st : InMemorySessionStorage)
  : result SessionError InMemorySessionStorage :=
  let storage := new_InMemorySessionStorage metadata in
  mutations ← createForkMutations options (ims_state st);
  match on_state (applyAll mutations) storage with
  | (storage', Ok _) => Ok storage'
  | (_, Err e) => Err e
  end.

Definition createLane (lane : string) (at_ : option string)
  : M InMemorySessionStorage SessionError unit :=
  ask_state (validateNewLane lane);;
  ask_state (validateTarget at_);;
  seq ← next_sequence;
  applyMutation_ (MutLane seq lane at_).

Definition moveLane (lane : string) (to : option string)
  : M InMemorySessionStorage SessionError unit :=
  ask_state (requireLane lane);;
  ask_state (validateTarget to);;
  seq ← next_sequence;
  applyMutation_ (MutLane seq lane to).

Definition appendEntry (now : Z) (newEntry : ProvisionedEntry) (lane : string)
  : M InMemorySessionStorage SessionError Entry :=
  parentId ← ask_state (requireLane lane);
  ask_state (validateUnusedId (pe_id newEntry));;
  seq ← next_sequence;
  let entry := {| e_id := pe_id newEntry; e_seq := seq; e_parentId := parentId;
                  e_timestamp := now; e_body := pe_body newEntry |} in
  applyMutation_ (MutEntry (Some lane) entry);;
  mret entry.

Definition appendRecord (now : Z) (newRecord : NewRecord)
  : M InMemorySessionStorage SessionError LaneRecord :=
  ask_state (requireLane (nr_lane newRecord));;
  ask_state (validateUnusedId (nr_id newRecord));;
  openOperations ← ask_state (findOpenOperations (nr_lane newRecord) (Some (num_of_Z 1)));
  match starts_operation (nr_body newRecord), osr_id <$> openOperations !! 0%nat with
  | true, Some currentOpenOperationId =>
      throw (open_operation_error (nr_lane newRecord) currentOpenOperationId)
  | _, _ => mret tt
  end;;
  seq ← next_sequence;
  let record := {| lr_base := {| r_id := nr_id newRecord; r_seq := seq;
                                 r_lane := nr_lane newRecord; r_timestamp := now |};
                   lr_body := nr_body newRecord |} in
  applyMutation_ (MutRecord record);;
  mret record.

Definition setName (name : option string) : M InMemorySessionStorage SessionError unit :=
  seq ← next_sequence;
  applyMutation_ (MutName seq name).

Definition setLabel (id : string) (label : option string)
  : M InMemorySessionStorage SessionError unit :=
  ask_state (validateTarget (Some id));;
  seq ← next_sequence;
  applyMutation_ (MutLabel seq id label).

Definition run (now : Z) (c : storage_call) : M InMemorySessionStorage SessionError storage_reply :=
  match c with
  | CallCreateLane lane at_ => createLane lane at_;; mret ReplyVoid
  | CallMoveLane lane to => moveLane lane to;; mret ReplyVoid
  | CallAppendEntry newEntry lane => e ← appendEntry now newEntry lane; mret (ReplyEntry e)
  | CallAppendRecord newRecord => r ← appendRecord now newRecord; mret (ReplyRecord r)
  | CallSetName name => setName name;; mret ReplyVoid
  | CallSetLabel id label => setLabel id label;; mret ReplyVoid
  end.
End Memory.

#[export] Instance memory_storage : SessionStorage InMemorySessionStorage := {|
  storage_view := ims_state;
  storage_run := Memory.run |}.

(** ** The in-memory repository *)

(** [heap] holds every storage ever allocated; [sessions] maps identifiers to
    locations, as the [Map] holds references. A [Session] is a location. *)
Record InMemorySessionRepo := {
  heap : list InMemorySessionStorage;
  sessions : jsmap string nat }.

Definition empty_repo : InMemorySessionRepo := {| heap := []; sessions := [] |}.

Record SessionCreateOptions := { co_id : option string; co_parentSessionId : option string }.

Module Repo.
Definition R := M InMemorySessionRepo SessionError.

(** A handle always denotes an allocated storage ([repo_wf]). *)
Definition dangling_error : SessionError := sessionError storage_error "dangling handle".

Definition requireStorage (id : string) (r : InMemorySessionRepo) : result SessionError nat :=
  match jm_get id (sessions r) with
  | Some l => Ok l
  | None => Err (sessionError not_found ("Session not found: " +:+ id))
  end.

Definition assertUnused (id : string) (r : InMemorySessionRepo) : result SessionError unit :=
  if jm_has id (sessions r)
  then Err (sessionError already_exists ("Session already exists: " +:+ id)) else Ok tt.

(** [this.sessions.set(id, storage); return new Session(storage)] *)
Definition register (id : string) (storage : InMemorySessionStorage) : R nat :=
  fun r => ({| heap := heap r ++ [storage];
               sessions := jm_set id (length (heap r)) (sessions r) |},
            Ok (length (heap r))).

Definition create (now : Z) (uuid : string) (options : SessionCreateOptions) : R nat :=
  let id := default uuid (co_id options) in
  r ← get;
  lift (assertUnused id r);;
  register id (new_InMemorySessionStorage
    {| sm_id := id; sm_createdAt := now; sm_parentSessionId := co_parentSessionId options |}).

Definition open (metadata : SessionMetadata) : R nat :=
  r ← get; lift (requireStorage (sm_id metadata) r).

Definition list_ (r : InMemorySessionRepo) : list SessionMetadata :=
  omap (fun l => Memory.getMetadata <$> heap r !! l) (jm_values (sessions r)).

Definition delete (metadata : SessionMetadata) : R unit :=
  modify (fun r => {| heap := heap r; sessions := jm_delete (sm_id metadata) (sessions r) |}).

Definition fork (now : Z) (uuid : string) (source : SessionMetadata) (options : ForkOptions)
    (create_options : SessionCreateOptions) : R nat :=
  r ← get;
  sourceLoc ← lift (requireStorage (sm_id source) r);
  let id := default uuid (co_id create_options) in
  lift (assertUnused id r);;
  match heap r !! sourceLoc with
  | None => throw dangling_error
  | Some sourceStorage =>
      storage ← lift (Memory.fork
        {| sm_id := id; sm_createdAt := now;
           sm_parentSessionId :=
             Some (default (sm_id source) (co_parentSessionId create_options)) |}
        options sourceStorage);
      register id storage
  end.

(** A call through a session handle. *)
Definition call (loc : nat) (now : Z) (c : storage_call) : R storage_reply :=
  fun r => match heap r !! loc with
           | None => (r, Err dangling_error)
           | Some st => let '(st', res) := Memory.run now c st in
                        ({| heap := <[loc := st']> (heap r); sessions := sessions r |}, res)
           end.
End Repo.

(** Everything a program can do with the repository and the handles it gave out. *)
Inductive repo_op :=
| OpCreate (now : Z) (uuid : string) (options : SessionCreateOptions)
| OpOpen (metadata : SessionMetadata)
| OpDelete (metadata : SessionMetadata)
| OpFork (now : Z) (uuid : string) (source : SessionMetadata) (options : ForkOptions)
         (create_options : SessionCreateOptions)
| OpCall (loc : nat) (now : Z) (c : storage_call).

Definition run_op (o : repo_op) : Repo.R (option nat) :=
  match o with
  | OpCreate now uuid options => l ← Repo.create now uuid options; mret (Some l)
  | OpOpen metadata => l ← Repo.open metadata; mret (Some l)
  | OpDelete metadata => Repo.delete metadata;; mret None
  | OpFork now uuid source options create_options =>
      l ← Repo.fork now uuid source options create_options; mret (Some l)
  | OpCall loc now c => Repo.call loc now c;; mret None
  end.
