(* ===== verification/MemoryTheorems.v ===== *)
(** * What the storages and the repository promise

    The in-memory storage refines the storage specification; every storage that
    does so keeps the state invariant, appends to the log only and has at most
    one open operation per lane; the repository keeps its sessions apart. *)
From S2P Require Import Prelude JsNumber SessionTypes SessionState SessionInvariant SessionTheorems SessionFork.
From S2P Require Import MemoryStorage.

(** ** Validation before the mutation is complete *)

Lemma requireLane_Ok lane s leaf : requireLane lane s = Ok leaf -> jm_get lane (lanes s) = Some leaf.
Proof. unfold requireLane. destruct (jm_get lane (lanes s)); by intros [= ->]. Qed.
Lemma validateTarget_Ok t s :
  validateTarget t s = Ok tt ->
  match t with None => true | Some id => bool_decide (is_Some (entriesById s !! id)) end = true.
Proof.
  unfold validateTarget. destruct t as [id|]; [|done].
  destruct (entriesById s !! id) eqn:He; [|done]. intros _. by apply bool_decide_eq_true.
Qed.
Lemma validateUnusedId_Ok id s :
  validateUnusedId id s = Ok tt -> negb (bool_decide (id ∈ usedIds s)) = true.
Proof. unfold validateUnusedId. by destruct (bool_decide _). Qed.

(** Splits a chain of fallible calls in [H : (x ← r; k) = Ok y]. *)
Ltac ok_inv H :=
  repeat match type of H with
  | match ?r with Ok _ => _ | Err _ => _ end = Ok _ =>
      let Hr := fresh "Hr" in destruct r as [?|?] eqn:Hr; [|discriminate H]
  end.

(** The mutation of a call that passed its checks is never rejected by
    [applyMutation]. *)
Lemma storage_spec_guard now c s m reply :
  state_wf s -> storage_spec now c s = Ok (m, reply) -> mutation_guard s m = true.
Proof.
  intros Hwf. unfold storage_spec. mrun. intros H.
  assert (Hentry : forall l leaf, jm_get l (lanes s) = Some leaf ->
    match leaf with None => true | Some p => bool_decide (is_Some (entriesById s !! p)) end = true).
  { intros l [p|] Hl; [|done]. apply bool_decide_eq_true. by eapply wf_leaves. }
  destruct c as [lane at_|lane to|ne lane|nr|n|id label]; ok_inv H; simplify_eq;
    repeat match goal with u : unit |- _ => destruct u end;
    unfold mutation_guard, mutation_check; simpl; rewrite ?Z.eqb_refl; simpl.
  - by eapply validateTarget_Ok.
  - by eapply validateTarget_Ok.
  - apply requireLane_Ok in Hr. rewrite (validateUnusedId_Ok _ _ Hr0). simpl.
    rewrite Hr, bool_decide_true by done. simpl. by eapply (Hentry lane).
  - apply requireLane_Ok in Hr.
    assert (Hm : m = MutRecord (stamped_record now s nr)).
    { destruct (last _); [destruct (starts_operation _)|]; by simplify_eq. }
    subst m. simpl. rewrite Z.eqb_refl. simpl.
    apply andb_true_iff. split; [apply jm_has_spec; by eexists|exact (validateUnusedId_Ok _ _ Hr0)].
  - done.
  - apply validateTarget_Ok in Hr. done.
Qed.

Lemma storage_step_wf now c s : state_wf s -> state_wf (storage_step now c s).1.
Proof.
  intros Hwf. unfold storage_step.
  destruct (storage_spec now c s) as [[m reply]|e] eqn:Hs; [|done]. simpl.
  apply effect_wf; [done|]. by eapply storage_spec_guard.
Qed.

(** ** The in-memory storage implements the specification *)

(** Evaluates a method of the storage step by step. *)
Ltac mem_run :=
  cbv [on_state ask_state applyMutation_ next_sequence mbind mret M_bind M_ret result_bind
       result_ret get put modify throw lift];
  cbn [ims_state ims_metadata].

(** The commit at the end of a method, the checks having passed. *)
Ltac mem_commit :=
  let Hg := fresh "Hg" in
  intros Hg; rewrite applyMutation_ok by (eapply Hg; reflexivity); done.

Lemma one_limit_ok : limit_ok (Some (num_of_Z 1)).
Proof. exists 1. split; [by vm_compute|lia]. Qed.
Lemma limit_take_one {A} (l : list A) : limit_take (Some (num_of_Z 1)) l !! 0%nat = l !! 0%nat.
Proof.
  unfold limit_take. replace (num_to_Z (num_of_Z 1)) with (Some 1) by by vm_compute.
  by destruct l.
Qed.
Lemma reverse_head {A} (l : list A) : reverse l !! 0%nat = last l.
Proof. rewrite <-head_lookup. apply head_reverse. Qed.

Lemma newest_open_operation s lane :
  state_wf s ->
  exists ops, findOpenOperations lane (Some (num_of_Z 1)) s = Ok ops /\
    ops !! 0%nat = last (unfinished lane (records s)).
Proof.
  intros Hwf. eexists. split; [apply findOpenOperations_eq; [done|apply one_limit_ok]|].
  by rewrite limit_take_one, reverse_head.
Qed.

Lemma memory_run_refines now c st :
  state_wf (ims_state st) ->
  let '(st', r) := Memory.run now c st in
  (ims_state st', r) = storage_step now c (ims_state st) /\ ims_metadata st' = ims_metadata st.
Proof.
  intros Hwf. destruct st as [md s]. simpl in Hwf.
  unfold storage_step. pose proof (fun m reply => storage_spec_guard now c s m reply Hwf) as Hg.
  unfold storage_spec in *. destruct c as [lane at_|lane to|ne lane|nr|n|id label]; cbn [Memory.run];
    [unfold Memory.createLane|unfold Memory.moveLane|unfold Memory.appendEntry
    |unfold Memory.appendRecord|unfold Memory.setName|unfold Memory.setLabel];
    mem_run; revert Hg; mrun.
  - destruct (validateNewLane lane s) as [[]|]; [|done].
    destruct (validateTarget at_ s) as [[]|]; [|done].
    mem_commit.
  - destruct (requireLane lane s) as [leaf|]; [|done].
    destruct (validateTarget to s) as [[]|]; [|done].
    mem_commit.
  - destruct (requireLane lane s) as [leaf|]; [|done].
    destruct (validateUnusedId (pe_id ne) s) as [[]|]; [|done].
    mem_commit.
  - destruct (requireLane (nr_lane nr) s) as [leaf|]; [|done].
    destruct (validateUnusedId (nr_id nr) s) as [[]|]; [|done].
    destruct (newest_open_operation s (nr_lane nr) Hwf) as (ops & -> & ->).
    destruct (last (unfinished (nr_lane nr) (records s))) as [o|]; simpl;
      destruct (starts_operation (nr_body nr)); try done;
      mem_commit.
  - mem_commit.
  - destruct (validateTarget (Some id) s) as [[]|]; [|done].
    mem_commit.
Qed.

#[export] Instance memory_storage_laws : SessionStorageLaws InMemorySessionStorage.
Proof.
  intros now c st Hwf. simpl in *. pose proof (memory_run_refines now c st Hwf) as H.
  destruct (Memory.run now c st) as [st' r]. by destruct H.
Qed.

(** C3. Every mutating call of the in-memory storage is the step of the abstract
    specification: it throws exactly the specified error and changes nothing, or
    commits exactly one mutation, stamped with the next sequence number and the
    lane's leaf; a validated mutation is never rejected by the state, and the
    metadata never changes. *)
Theorem memory_refines_storage now c st :
  state_wf (ims_state st) ->
  let '(st', r) := Memory.run now c st in
  (ims_state st', r) = storage_step now c (ims_state st) /\
  ims_metadata st' = ims_metadata st /\ state_wf (ims_state st') /\
  match r with
  | Ok _ => exists m, mutation_guard (ims_state st) m = true /\
                      ims_state st' = mutation_effect (ims_state st) m
  | Err _ => ims_state st' = ims_state st
  end.
Proof.
  intros Hwf. pose proof (memory_run_refines now c st Hwf) as H.
  pose proof (storage_step_wf now c _ Hwf) as Hwf'.
  destruct (Memory.run now c st) as [st' r]. destruct H as [H Hmd].
  rewrite <-H in Hwf'. split_and!; [done|done|exact Hwf'|].
  unfold storage_step in H.
  destruct (storage_spec now c (ims_state st)) as [[m reply]|e] eqn:Hs; injection H as H ->; [|done].
  exists m. split; [by eapply storage_spec_guard|done].
Qed.

(** ** Clients of the interface *)

Definition single_open (s : SessionState) : Prop :=
  forall lane, (length (unfinished lane (records s)) <= 1)%nat.

(** The sessions a storage can be left in. *)
Definition session_ok (s : SessionState) : Prop := state_wf s /\ single_open s.

Lemma last_nil {A} (l : list A) : last l = None -> l = [].
Proof. by rewrite last_None. Qed.

Lemma storage_step_ok now c s : session_ok s -> session_ok (storage_step now c s).1.
Proof.
  intros [Hwf Hone]. split; [by apply storage_step_wf|]. unfold storage_step.
  destruct (storage_spec now c s) as [[m reply]|e] eqn:Hs; [|done]. simpl.
  unfold storage_spec in Hs. revert Hs. mrun. intros Hs.
  destruct c as [lane at_|lane to|ne lane|nr|n|id label]; ok_inv Hs; simplify_eq; try done.
  intros lane. simpl. destruct (last (unfinished (nr_lane nr) (records s))) as [o|] eqn:Hlast.
  - destruct (starts_operation (nr_body nr)) eqn:Hst; simplify_eq. simpl.
    rewrite unfinished_snoc. unfold as_operation_started. simpl.
    destruct (nr_body nr); try done; rewrite app_nil_r;
      (etrans; [apply keep_length|apply Hone]).
  - simplify_eq. simpl. apply last_nil in Hlast. rewrite unfinished_snoc, length_app.
    case_bool_decide as Hl; simpl in Hl.
    + subst lane. change (lr_lane (stamped_record now s nr)) with (nr_lane nr).
      rewrite Hlast. simpl. destruct (as_operation_started _); simpl; lia.
    + pose proof (Hone lane).
      pose proof (keep_length (fun o => negb (finishes lane (osr_id o) (stamped_record now s nr)))
                              (unfinished lane (records s))).
      destruct (as_operation_started _); simpl; lia.
Qed.

Lemma unfinished_other lane rs :
  (forall r, r ∈ rs -> lr_lane r <> lane) -> unfinished lane rs = [].
Proof.
  induction rs as [|r rs IH]; intros H; simpl; [done|].
  rewrite (bool_decide_false (lr_lane r = lane)) by (apply H; by left).
  rewrite IH by (intros r' Hr'; apply H; by right). by destruct (as_operation_started r).
Qed.

Lemma initial_ok : session_ok initial_state.
Proof. split; [apply initial_wf|]. intros lane. simpl. lia. Qed.

(** A storage only ever extends its log, and never touches an entry again. *)
Definition extends (s s' : SessionState) : Prop :=
  exists items, log s' = log s ++ items /\ sequence s' = sequence s + zlen items /\
    entries s' = entries s ++ omap log_entry items /\
    records s' = records s ++ omap log_record items.

Lemma extends_refl s : extends s s.
Proof. exists []. rewrite zlen_nil. simpl. rewrite !app_nil_r, Z.add_0_r. done. Qed.
Lemma extends_trans s1 s2 s3 : extends s1 s2 -> extends s2 s3 -> extends s1 s3.
Proof.
  intros (i1 & L1 & Q1 & E1 & R1) (i2 & L2 & Q2 & E2 & R2). exists (i1 ++ i2).
  rewrite zlen_app, !omap_app, !(assoc_L (++)), <-L1, <-E1, <-R1.
  split_and!; try done. lia.
Qed.

Lemma effect_extends s m : mutation_guard s m = true -> extends s (mutation_effect s m).
Proof.
  intros Hg. exists [log_of m]. unfold mutation_guard in Hg.
  apply andb_true_iff in Hg as [Hs%Z.eqb_eq _].
  split_and!; [done|done|..]; destruct m; simpl; by rewrite ?app_nil_r.
Qed.

Lemma storage_step_extends now c s : state_wf s -> extends s (storage_step now c s).1.
Proof.
  intros Hwf. unfold storage_step.
  destruct (storage_spec now c s) as [[m reply]|e] eqn:Hs; [|apply extends_refl].
  apply effect_extends. by eapply storage_spec_guard.
Qed.

(** A client that issues calls one after the other and goes on after errors. *)
Section client.
Context {St : Type} `{SessionStorageLaws St}.

Fixpoint run_calls (cs : list (Z * storage_call)) (st : St) : St :=
  match cs with
  | [] => st
  | (now, c) :: cs' => run_calls cs' (storage_run now c st).1
  end.

Lemma run_step now c st :
  state_wf (storage_view st) ->
  storage_view (storage_run now c st).1 = (storage_step now c (storage_view st)).1.
Proof.
  intros Hwf. pose proof (storage_refines now c st Hwf) as Hr.
  destruct (storage_run now c st) as [st' r]. by rewrite <-Hr.
Qed.

Lemma run_calls_ok cs st :
  session_ok (storage_view st) ->
  session_ok (storage_view (run_calls cs st)) /\
  extends (storage_view st) (storage_view (run_calls cs st)).
Proof.
  revert st. induction cs as [|[now c] cs IH]; intros st Hok; simpl.
  - split; [done|apply extends_refl].
  - pose proof (run_step now c st (proj1 Hok)) as Hstep.
    destruct (IH (storage_run now c st).1) as [Hok' Hext].
    + rewrite Hstep. by apply storage_step_ok.
    + split; [done|]. eapply extends_trans; [|exact Hext].
      rewrite Hstep. apply storage_step_extends. apply Hok.
Qed.

(** C8. Whatever calls a client makes, in whatever order and however many of
    them throw, a storage that obeys the interface keeps the session
    well-formed with at most one open operation per lane, and its log,
    entries and records only ever grow at the end. *)
Theorem storage_calls_invariant cs st :
  session_ok (storage_view st) ->
  session_ok (storage_view (run_calls cs st)) /\
  extends (storage_view st) (storage_view (run_calls cs st)).
Proof. apply run_calls_ok. Qed.

(** Appending an entry to a lane chains it to the lane's leaf and moves the
    leaf to it: the new entry's branch is the new entry followed by the old
    leaf's branch, and no other lane moves. *)
Theorem appendEntry_chains now ne lane st st' e :
  state_wf (storage_view st) ->
  storage_run now (CallAppendEntry ne lane) st = (st', Ok (ReplyEntry e)) ->
  jm_get lane (lanes (storage_view st)) = Some (e_parentId e) /\
  jm_get lane (lanes (storage_view st')) = Some (Some (e_id e)) /\
  (forall l, l <> lane ->
     jm_get l (lanes (storage_view st')) = jm_get l (lanes (storage_view st))) /\
  e_id e = pe_id ne /\ e_body e = pe_body ne /\ e_seq e = sequence (storage_view st) + 1 /\
  getEntry (e_id e) (storage_view st') = Some e /\
  (forall path, root_path (entriesById (storage_view st')) e path ->
     exists rest, path = e :: rest /\
       match e_parentId e with
       | None => rest = []
       | Some p => exists pe, entriesById (storage_view st) !! p = Some pe /\
                              root_path (entriesById (storage_view st')) pe rest
       end).
Proof.
  intros Hwf Hrun. pose proof (storage_refines now (CallAppendEntry ne lane) st Hwf) as Hr.
  rewrite Hrun in Hr. unfold storage_step, storage_spec in Hr. revert Hr. mrun.
  destruct (requireLane lane (storage_view st)) as [leaf|] eqn:Hl; [|by intros [=]].
  apply requireLane_Ok in Hl.
  destruct (validateUnusedId _ _) as [[]|] eqn:Hu; [|by intros [=]].
  intros [= Hst' He]. subst e. rewrite Hst'. simpl.
  split_and!; try done.
  - apply jm_get_set_eq.
  - intros l Hne. by apply jm_get_set_ne.
  - unfold getEntry. simpl. apply lookup_insert_eq.
  - intros path Hpath. inversion Hpath as [? Hp|? p pe l Hp Hpe Hrest]; subst; simpl in *.
    + exists []. by rewrite Hp.
    + exists l. split; [done|]. rewrite Hp.
      destruct (wf_leaves _ Hwf lane p) as [pe' Hpe']; [by rewrite Hl, Hp|].
      exists pe'. split; [done|]. rewrite lookup_insert_ne in Hpe; [by simplify_eq|].
      intros Heq. apply validateUnusedId_Ok, negb_true_iff, bool_decide_eq_false in Hu.
      apply Hu. rewrite (wf_used _ Hwf), elem_of_app. left.
      apply (wf_byId_elem _ Hwf) in Hpe' as [Hin Hid]. rewrite Heq, <-Hid.
      by apply list_elem_of_fmap_2.
Qed.
End client.

(** ** The repository *)

Record repo_wf (r : InMemorySessionRepo) : Prop := {
  rw_keys : NoDup (jm_keys (sessions r));
  rw_handles : forall id l, jm_get id (sessions r) = Some l ->
    exists st, heap r !! l = Some st /\ sm_id (ims_metadata st) = id;
  rw_states : forall l st, heap r !! l = Some st -> session_ok (ims_state st) }.

Lemma empty_repo_wf : repo_wf empty_repo.
Proof. constructor; simpl; [constructor|done|by intros l st ?]. Qed.

Lemma register_wf id st r :
  repo_wf r -> session_ok (ims_state st) -> sm_id (ims_metadata st) = id ->
  repo_wf (Repo.register id st r).1.
Proof.
  intros [Hk Hh Hs] Hst Hid. constructor; simpl.
  - by apply jm_keys_set_NoDup.
  - intros id' l. rewrite jm_get_set. destruct (decide (id' = id)) as [->|Hne].
    + intros [= <-]. exists st. split; [|done]. by apply list_lookup_middle.
    + intros Hl. destruct (Hh id' l Hl) as (st' & Hl' & ?). exists st'. split; [|done].
      by apply lookup_app_l_Some.
  - intros l st' Hl. apply lookup_snoc_Some in Hl as [[_ Hl]|[_ ->]]; [by eapply Hs|done].
Qed.

(** A forked storage is as good as a new one, and has no open operation. *)
Lemma memory_fork_ok metadata options st st' :
  state_wf (ims_state st) -> Memory.fork metadata options st = Ok st' ->
  session_ok (ims_state st') /\ ims_metadata st' = metadata.
Proof.
  intros Hwf. unfold Memory.fork, createForkMutations, on_state. mrun.
  destruct (fork_selection options (ims_state st)) as [[es ps]|] eqn:Hsel; [|by intros [=]].
  destruct (fork_selection_replays _ _ _ _ Hwf Hsel) as [Hpf Hps].
  destruct (fork_replay es ps (ims_state st) Hpf Hps) as (s' & Ha & Hwf' & _ & Hr & _).
  simpl. rewrite Ha. intros [= <-]. split; [|done]. split; [done|].
  intros lane. simpl. rewrite Hr. simpl. lia.
Qed.

Lemma call_wf l now c r : repo_wf r -> repo_wf (Repo.call l now c r).1.
Proof.
  intros [Hk Hh Hs]. unfold Repo.call. destruct (heap r !! l) as [st|] eqn:Hl; [|done].
  pose proof (Hs l st Hl) as Hok.
  pose proof (memory_run_refines now c st (proj1 Hok)) as Href.
  destruct (Memory.run now c st) as [st' res]. destruct Href as [Href Hmd].
  assert (Hok' : session_ok (ims_state st')).
  { pose proof (storage_step_ok now c _ Hok) as Ho. by rewrite <-Href in Ho. }
  constructor; simpl; [done|..].
  - intros id l' Hl'. destruct (Hh id l' Hl') as (st1 & H1 & Hid).
    destruct (decide (l = l')) as [<-|Hne].
    + exists st'. simplify_eq. split; [|by rewrite Hmd].
      apply list_lookup_insert_eq. by eapply lookup_lt_Some.
    + exists st1. by rewrite list_lookup_insert_ne.
  - intros l' st1 H1. apply list_lookup_insert_Some in H1 as [(-> & -> & _)|(_ & H1)]; [done|].
    by eapply Hs.
Qed.

(** The handle an operation works through, if any. *)
Definition op_target (o : repo_op) : option nat :=
  match o with OpCall l _ _ => Some l | _ => None end.

(** The repository keeps its invariant under every operation: a registered
    identifier names one storage whose metadata carries that identifier, every
    storage stays well-formed, forks included; and an operation changes no
    storage but the one it is called on, so that sessions never alias and a
    deleted session stays usable through an open handle. *)
Theorem repo_isolation o r :
  repo_wf r ->
  repo_wf (run_op o r).1 /\
  (forall l st, heap r !! l = Some st -> op_target o <> Some l ->
     heap (run_op o r).1 !! l = Some st) /\
  (forall l, (run_op o r).2 = Ok (Some l) -> is_Some (heap (run_op o r).1 !! l)).
Proof.
  intros Hwf. destruct o as [now uuid op|md|md|now uuid src op co|loc now c]; simpl.
  - unfold Repo.create. mrun. unfold Repo.assertUnused.
    destruct (jm_has _ (sessions r)); [by split_and!|]. simpl. split_and!.
    + apply register_wf; [done|apply initial_ok|done].
    + intros l st Hl _. by apply lookup_app_l_Some.
    + intros l [= <-]. eexists. by apply list_lookup_middle.
  - unfold Repo.open. mrun. unfold Repo.requireStorage.
    destruct (jm_get _ (sessions r)) as [l|] eqn:Hl; simpl; split_and!; try done.
    intros l' [= <-]. destruct (rw_handles r Hwf _ _ Hl) as (st & ? & _). by eexists.
  - split_and!; [|done|done]. destruct Hwf as [Hk Hh Hs]. constructor; simpl; [|..|done].
    + by apply jm_keys_delete_NoDup.
    + intros id l Hl. destruct (decide (id = sm_id md)) as [->|Hne].
      * by rewrite jm_get_delete_eq in Hl.
      * rewrite jm_get_delete_ne in Hl by done. by apply Hh.
  - unfold Repo.fork. mrun. unfold Repo.requireStorage, Repo.assertUnused.
    destruct (jm_get _ (sessions r)) as [l|] eqn:Hl; simpl; [|by split_and!].
    destruct (jm_has _ (sessions r)); simpl; [by split_and!|].
    destruct (heap r !! l) as [st|] eqn:Hst; simpl; [|by split_and!].
    destruct (Memory.fork _ _ _) as [st'|] eqn:Hf; simpl; [|by split_and!].
    apply memory_fork_ok in Hf as [Hok Hmd]; [|apply (rw_states r Hwf l st Hst)]. split_and!.
    + apply register_wf; [done|done|by rewrite Hmd].
    + intros l' st1 Hl' _. by apply lookup_app_l_Some.
    + intros l' [= <-]. eexists. by apply list_lookup_middle.
  - pose proof (call_wf loc now c r Hwf) as Hcall. mrun. unfold Repo.call in *.
    destruct (heap r !! loc) as [st|] eqn:Hst; simpl; [|by split_and!].
    destruct (Memory.run now c st) as [st' [reply|e]]; simpl in *; split_and!; try done;
      intros l st1 Hl Hne; rewrite list_lookup_insert_ne; congruence.
Qed.

(** ** The theorems at a concrete storage *)

Definition sample_storage : InMemorySessionStorage :=
  {| ims_metadata := {| sm_id := "s1"; sm_createdAt := 1; sm_parentSessionId := None |};
     ims_state := sample |}.

Lemma memory_refines_storage_witness :
  ims_metadata (Memory.run 200 (CallSetName None) sample_storage).1 = ims_metadata sample_storage.
Proof.
  pose proof (memory_refines_storage 200 (CallSetName None) sample_storage sample_wf) as H.
  destruct (Memory.run 200 (CallSetName None) sample_storage). apply H.
Defined.

Lemma sample_single_open : single_open sample.
Proof.
  intros lane. destruct (decide (lane = "main")) as [->|Hne]; [vm_compute; lia|].
  rewrite unfinished_other; [simpl; lia|].
  intros r Hr. replace (records sample) with
    (omap (fun m => match m with MutRecord r => Some r | _ => None end) sample_mutations) in Hr
    by by vm_compute.
  simpl in Hr. repeat (apply elem_of_cons in Hr as [->|Hr]; [intros Hl; by apply Hne|]).
  by apply not_elem_of_nil in Hr.
Qed.

Lemma storage_calls_invariant_witness :
  session_ok (storage_view (run_calls [(1, CallSetName None); (2, CallCreateLane "main" None)]
                                      sample_storage)).
Proof.
  apply (storage_calls_invariant [(1, CallSetName None); (2, CallCreateLane "main" None)]
           sample_storage).
  split; [exact sample_wf|exact sample_single_open].
Defined.

Definition new_entry : ProvisionedEntry := {| pe_id := "e9"; pe_body := user_body "next" |}.

Lemma appendEntry_chains_witness :
  exists st' e, storage_run 300 (CallAppendEntry new_entry "side") sample_storage
                = (st', Ok (ReplyEntry e)) /\ e_parentId e = Some "e3" /\
    jm_get "side" (lanes (storage_view st')) = Some (Some (e_id e)).
Proof.
  eexists _, _. split; [by vm_compute|]. split; [reflexivity|].
  eapply (appendEntry_chains 300 new_entry "side" sample_storage); [exact sample_wf|by vm_compute].
Defined.

Definition sample_repo : InMemorySessionRepo :=
  {| heap := [sample_storage]; sessions := [("s1", 0%nat)] |}.

Lemma sample_repo_wf : repo_wf sample_repo.
Proof.
  constructor; simpl.
  - apply NoDup_singleton.
  - intros id l. case_decide; [|done]. intros [= <-]. exists sample_storage. by subst.
  - intros [|l] st; simpl; [|done]. intros [= <-].
    split; [exact sample_wf|exact sample_single_open].
Qed.

Lemma repo_isolation_witness :
  repo_wf (run_op (OpDelete (ims_metadata sample_storage)) sample_repo).1.
Proof.
  apply (repo_isolation (OpDelete (ims_metadata sample_storage)) sample_repo sample_repo_wf).
Defined.
