(* ===== verification/Reducer.v ===== *)
(** * The lane reducer (packages/agent/src/harness/reducer.ts)

    [validateRecordLog] rejects a recovery slice that the single-writer protocol
    cannot have produced; [reduceLaneState] rebuilds a lane's orchestration state
    from a slice.  [deepEqual] stands for [Guard.IsDeepEqual] of the typebox
    package.  [-Infinity] is [None] in a running maximum. *)
From S2P Require Import Prelude JsNumber SessionTypes.

Inductive RecordLogCorruptionReason :=
| multiple_open_operations | unknown_operation | record_after_finish | non_consecutive_attempt
| invalid_compaction_reason | queue_after_abort | invalid_queue_cancellation | inconsistent_step
| tool_call_mismatch | duplicate_tool_invocation | provisioned_entry_mismatch
| invalid_deferred_handle.

Record RecordLogCorruption := { rc_reason : RecordLogCorruptionReason; rc_message : string }.

Definition corrupt {A} (reason : RecordLogCorruptionReason) (message : string)
  : result RecordLogCorruption A := Err {| rc_reason := reason; rc_message := message |}.
Definition corrupt_if (c : bool) (reason : RecordLogCorruptionReason) (message : string)
  : result RecordLogCorruption unit := if c then corrupt reason message else Ok tt.

Record RecordLogSlice := {
  rl_lane : string;
  rl_openOperations : list OperationStartedRecord;
  rl_records : list LaneRecord;
  rl_entries : list Entry }.

Record EffectiveLaneConfiguration := {
  ec_provider : string; ec_modelId : string; ec_thinkingLevel : string;
  ec_activeToolNames : list string }.

Inductive failure_source := FromStep | FromDeferredFetch.
Record TerminalFailureState := {
  tf_entryId : string; tf_source : failure_source; tf_message : AssistantMessage }.

Record ToolBatchCall := {
  tbc_toolIndex : Z; tbc_toolCall : AgentToolCall; tbc_started : option ToolStartedRecord;
  tbc_retryAuthorized : bool; tbc_reconciliation : option string; tbc_resultExists : bool;
  tbc_terminate : bool }.
Record ToolBatchState := {
  tb_assistantEntryId : string; tb_calls : list ToolBatchCall; tb_truncated : bool;
  tb_unresolved : bool }.

Record StepState := {
  ss_kind : step_kind; ss_attempts : Z; ss_resultEntryId : string;
  ss_compactionReason : option string }.
Record NewestOwn := {
  no_entryId : string; no_type : entry_type; no_role : option role;
  no_stopReason : option StopReason }.
Record OperationState := {
  op_id : string; op_kind : operation_kind; op_intent : intent; op_aborting : bool;
  op_pausing : bool; op_step : option StepState; op_toolBatch : option ToolBatchState;
  op_checkpoint : option AssistantMessage; op_checkpointFailure : option AssistantMessage;
  op_missingInitialMessages : list ProvisionedEntry; op_pendingSteer : list ProvisionedEntry;
  op_pendingFollowUp : list ProvisionedEntry; op_pendingWrites : list ProvisionedEntry;
  op_deferred : option DeferredHandle; op_overflowRecoveryUsed : bool;
  op_newestOwn : option NewestOwn; op_target_result : option bool;
  op_target_summary : option bool }.
Record LaneState := {
  ls_lane : string; ls_leafId : option string; ls_operation : option OperationState;
  ls_pendingNextRun : list ProvisionedEntry }.

Record LaneReductionInput := {
  li_slice : RecordLogSlice; li_leafId : option string; li_ownEntries : list Entry;
  li_configurationEntries : list Entry; li_defaults : EffectiveLaneConfiguration }.
Record LaneReductionResult := {
  lrr_laneState : LaneState; lrr_effectiveConfiguration : EffectiveLaneConfiguration;
  lrr_terminalFailure : option TerminalFailureState }.

Definition entryMap := jsmap string Entry.
(** [new Map(entries.map((entry) => [entry.id, entry]))] *)
Definition entry_map (es : list Entry) : entryMap := jm_of_list ((fun e => (e_id e, e)) <$> es).

(** A string property used as a condition. *)
Definition truthy (o : option string) : option string :=
  match o with Some s => if bool_decide (s = "") then None else Some s | None => None end.

Definition strip (e : Entry) : ProvisionedEntry := {| pe_id := e_id e; pe_body := e_body e |}.

Section validation.
Variable deepEqual : ProvisionedEntry -> ProvisionedEntry -> bool.

Definition hasRunId (record : LaneRecord) : option string :=
  match lr_body record with ROperationStarted _ => None | _ => lr_runId record end.

Definition matchesProvisionedEntry (entry : Entry) (target : ProvisionedEntry) : bool :=
  deepEqual (strip entry) target.

Definition validateExactProvisionedEntry (entriesById : entryMap) (target : ProvisionedEntry)
  : result RecordLogCorruption unit :=
  match jm_get (pe_id target) entriesById with
  | Some entry => corrupt_if (negb (matchesProvisionedEntry entry target))
      provisioned_entry_mismatch
      ("Provisioned entry " +:+ pe_id target +:+ " exists with content different from its intent")
  | None => Ok tt
  end.

Definition validateResultEntry (entriesById : entryMap) (resultEntryId : string)
    (matches : Entry -> bool) (description : string) : result RecordLogCorruption unit :=
  match jm_get resultEntryId entriesById with
  | Some entry => corrupt_if (negb (matches entry)) provisioned_entry_mismatch
      ("Provisioned " +:+ description +:+ " entry " +:+ resultEntryId
         +:+ " exists with different content")
  | None => Ok tt
  end.

Definition valid_reason (r : option string) : bool :=
  bool_decide (r = Some "manual") || bool_decide (r = Some "threshold")
  || bool_decide (r = Some "overflow").

Definition step_name (k : step_kind) : string :=
  match k with
  | StepAssistant => "assistant"
  | StepBranchSummary => "branch_summary"
  | StepCompaction => "compaction"
  end.

Definition validateAttemptReason (id : string) (record : StepAttempt)
  : result RecordLogCorruption unit :=
  match sa_step record with
  | StepCompaction => corrupt_if (negb (valid_reason (sa_compactionReason record)))
      invalid_compaction_reason
      ("Compaction attempt " +:+ id +:+ " has no valid compaction reason")
  | k => corrupt_if (bool_decide (is_Some (sa_compactionReason record)))
      invalid_compaction_reason (step_name k +:+ " attempt " +:+ id +:+ " has a compaction reason")
  end.

Definition continuesSeries (seq : Z) (record : StepAttempt) (previous : option StepAttempt)
    (entriesById : entryMap) : option StepAttempt :=
  match previous with
  | Some p =>
      if bool_decide (sa_step p = sa_step record) &&
         match jm_get (sa_resultEntryId p) entriesById with
         | None => true
         | Some e => seq <=? e_seq e
         end
      then Some p else None
  | None => None
  end.

Definition validateAttemptSequence (id : string) (seq : Z) (record : StepAttempt)
    (previous : option StepAttempt) (entriesById : entryMap) : result RecordLogCorruption unit :=
  let continued := continuesSeries seq record previous entriesById in
  let expectedAttempt := match continued with Some p => sa_attempt p + 1 | None => 1 end in
  _ ← corrupt_if (negb (sa_attempt record =? expectedAttempt)) non_consecutive_attempt
        (step_name (sa_step record) +:+ " attempt " +:+ id +:+ " is "
           +:+ pretty (sa_attempt record) +:+ "; expected " +:+ pretty expectedAttempt);
  match continued with
  | None => Ok tt
  | Some p =>
      if bool_decide (sa_step record = StepAssistant) then Ok tt else
      _ ← corrupt_if (negb (bool_decide (sa_resultEntryId record = sa_resultEntryId p)))
            inconsistent_step
            (step_name (sa_step record) +:+ " attempts disagree on their result entry id");
      corrupt_if (negb (bool_decide (sa_compactionReason record = sa_compactionReason p)))
        inconsistent_step
        (step_name (sa_step record) +:+ " attempts disagree on their compaction reason")
  end.

Definition is_type (t : entry_type) (e : Entry) : bool := bool_decide (e_type e = t).
Definition is_assistant (e : Entry) : bool := bool_decide (is_Some (entry_assistant e)).

Definition validateAttemptResult (entriesById : entryMap) (record : StepAttempt)
  : result RecordLogCorruption unit :=
  match sa_step record with
  | StepAssistant =>
      validateResultEntry entriesById (sa_resultEntryId record) is_assistant "assistant result"
  | StepCompaction =>
      validateResultEntry entriesById (sa_resultEntryId record) (is_type TCompaction)
        "compaction result"
  | StepBranchSummary =>
      validateResultEntry entriesById (sa_resultEntryId record) (is_type TBranchSummary)
        "branch-summary result"
  end.

(** [`${assistantEntryId}\u0000${toolIndex}`] *)
Definition invocation_key (record : ToolStarted) : string :=
  ts_assistantEntryId record +:+ String (Ascii.ascii_of_nat 0) (pretty (ts_toolIndex record)).

Definition is_result_of (record : ToolStarted) (e : Entry) : bool :=
  match entry_tool_result e with
  | Some m => bool_decide (tr_toolCallId m = ts_toolCallId record)
              && bool_decide (tr_toolName m = ts_toolName record)
  | None => false
  end.

Definition validateToolStart (id : string) (record : ToolStarted) (entriesById : entryMap)
    (invocations : gset string) : result RecordLogCorruption (gset string) :=
  let invocation := invocation_key record in
  _ ← corrupt_if (bool_decide (invocation ∈ invocations)) duplicate_tool_invocation
        ("Tool invocation " +:+ ts_assistantEntryId record +:+ ":"
           +:+ pretty (ts_toolIndex record) +:+ " is duplicated");
  let invocations' := {[invocation]} ∪ invocations in
  match jm_get (ts_assistantEntryId record) entriesById ≫= entry_assistant with
  | None => corrupt tool_call_mismatch
              ("Tool start " +:+ id +:+ " does not reference an assistant entry")
  | Some message =>
      _ ← match at_index (tool_calls message) (ts_toolIndex record) with
          | Some toolCall =>
              corrupt_if (negb (bool_decide (tc_id toolCall = ts_toolCallId record))
                          || negb (bool_decide (tc_name toolCall = ts_toolName record)))
                tool_call_mismatch
                ("Tool start " +:+ id +:+ " does not match its assistant tool-call ordinal")
          | None => corrupt tool_call_mismatch
                ("Tool start " +:+ id +:+ " does not match its assistant tool-call ordinal")
          end;
      _ ← validateResultEntry entriesById (ts_resultEntryId record) (is_result_of record)
            "tool result";
      Ok invocations'
  end.

Fixpoint forR {A} (l : list A) (f : A -> result RecordLogCorruption unit)
  : result RecordLogCorruption unit :=
  match l with [] => Ok tt | x :: l' => _ ← f x; forR l' f end.

Definition handle_missing (e : Entry) : bool :=
  match entry_assistant e with
  | Some m => bool_decide (am_stopReason m = StopDeferred)
              && match am_deferred m with None => true | Some _ => false end
  | None => false
  end.
Definition validateDeferredHandles (entries : list Entry) : result RecordLogCorruption unit :=
  forR entries (fun entry => corrupt_if (handle_missing entry) invalid_deferred_handle
    ("Deferred assistant entry " +:+ e_id entry +:+ " does not carry a handle")).

Definition validateOperationResult (entriesById : entryMap) (i : intent)
  : result RecordLogCorruption unit :=
  match i with
  | IntentRun _ initialMessages _ _ =>
      forR initialMessages (validateExactProvisionedEntry entriesById)
  | IntentCompaction _ resultEntryId =>
      validateResultEntry entriesById resultEntryId (is_type TCompaction) "manual compaction"
  | IntentNavigation _ _ _ _ summaryEntryId =>
      match truthy summaryEntryId with
      | Some id => validateResultEntry entriesById id (is_type TBranchSummary) "navigation summary"
      | None => Ok tt
      end
  end.

Definition queue_name (k : queue_kind) : string :=
  match k with QSteer => "steer" | QFollowUp => "followUp" | QNextRun => "nextRun" end.

(** The tables the scan maintains. *)
Record ScanState := {
  sc_starts : gset string;
  sc_finishedAt : gmap string Z;
  sc_abortedAt : gmap string Z;
  sc_queueEnqueues : gmap string (Z * QueueEnqueued);
  sc_latestAttempt : gmap string StepAttempt;
  sc_toolInvocations : gset string }.
Definition scan_empty : ScanState :=
  {| sc_starts := ∅; sc_finishedAt := ∅; sc_abortedAt := ∅; sc_queueEnqueues := ∅;
     sc_latestAttempt := ∅; sc_toolInvocations := ∅ |}.

(** [started.type === "tool_started" && ...] *)
Definition dispatches (runId toolCallId resultEntryId : string) (seq : Z) (started : LaneRecord)
  : bool :=
  match lr_body started with
  | RToolStarted t =>
      bool_decide (ts_runId t = runId) && bool_decide (ts_toolCallId t = toolCallId)
      && bool_decide (ts_resultEntryId t = resultEntryId) && (lr_seq started <? seq)
  | _ => false
  end.

Definition reconciliation_mismatch {A} (id : string) : result RecordLogCorruption A :=
  corrupt tool_call_mismatch ("Reconciliation " +:+ id +:+ " has no matching dispatched tool").

(** The body of the scan's loop. *)
Definition scan_record (records : list LaneRecord) (entriesById : entryMap) (st : ScanState)
    (record : LaneRecord) : result RecordLogCorruption ScanState :=
  let id := lr_id record in
  let seq := lr_seq record in
  match lr_body record with
  | ROperationStarted o =>
      _ ← validateOperationResult entriesById (os_intent o);
      Ok {| sc_starts := {[id]} ∪ sc_starts st; sc_finishedAt := sc_finishedAt st;
            sc_abortedAt := sc_abortedAt st; sc_queueEnqueues := sc_queueEnqueues st;
            sc_latestAttempt := sc_latestAttempt st;
            sc_toolInvocations := sc_toolInvocations st |}
  | body =>
      _ ← match hasRunId record with
          | Some runId =>
              _ ← corrupt_if (negb (bool_decide (runId ∈ sc_starts st))) unknown_operation
                    ("Record " +:+ id +:+ " references unknown operation " +:+ runId);
              match sc_finishedAt st !! runId with
              | Some finishSeq => corrupt_if (finishSeq <? seq) record_after_finish
                    ("Record " +:+ id +:+ " follows the finish of operation " +:+ runId)
              | None => Ok tt
              end
          | None => Ok tt
          end;
      match body with
      | ROperationStarted _ => Ok st
      | ROperationFinished o =>
          Ok {| sc_starts := sc_starts st;
                sc_finishedAt := <[of_runId o := seq]> (sc_finishedAt st);
                sc_abortedAt := sc_abortedAt st; sc_queueEnqueues := sc_queueEnqueues st;
                sc_latestAttempt := sc_latestAttempt st;
                sc_toolInvocations := sc_toolInvocations st |}
      | RAbortRequested runId =>
          Ok {| sc_starts := sc_starts st; sc_finishedAt := sc_finishedAt st;
                sc_abortedAt := <[runId := seq]> (sc_abortedAt st);
                sc_queueEnqueues := sc_queueEnqueues st;
                sc_latestAttempt := sc_latestAttempt st;
                sc_toolInvocations := sc_toolInvocations st |}
      | RStepAttempt a =>
          _ ← validateAttemptReason id a;
          _ ← validateAttemptSequence id seq a (sc_latestAttempt st !! sa_runId a) entriesById;
          _ ← validateAttemptResult entriesById a;
          Ok {| sc_starts := sc_starts st; sc_finishedAt := sc_finishedAt st;
                sc_abortedAt := sc_abortedAt st; sc_queueEnqueues := sc_queueEnqueues st;
                sc_latestAttempt := <[sa_runId a := a]> (sc_latestAttempt st);
                sc_toolInvocations := sc_toolInvocations st |}
      | RToolStarted t =>
          invocations ← validateToolStart id t entriesById (sc_toolInvocations st);
          Ok {| sc_starts := sc_starts st; sc_finishedAt := sc_finishedAt st;
                sc_abortedAt := sc_abortedAt st; sc_queueEnqueues := sc_queueEnqueues st;
                sc_latestAttempt := sc_latestAttempt st; sc_toolInvocations := invocations |}
      | RToolReconciliation t =>
          if existsb (dispatches (tl_runId t) (tl_toolCallId t) (tl_resultEntryId t) seq) records
          then Ok st else reconciliation_mismatch id
      | RToolReconciled t =>
          if existsb (dispatches (td_runId t) (td_toolCallId t) (td_resultEntryId t) seq) records
          then Ok st else reconciliation_mismatch id
      | RAssistantCheckpoint c =>
          let bad := corrupt inconsistent_step
                       ("Checkpoint " +:+ id +:+ " does not match an assistant attempt") in
          match sc_latestAttempt st !! ac_runId c with
          | Some attempt =>
              if bool_decide (sa_step attempt = StepAssistant)
                 && bool_decide (sa_resultEntryId attempt = ac_resultEntryId c)
                 && (sa_attempt attempt =? ac_attempt c)
                 && am_isResponseCheckpoint (ac_message c)
              then Ok st else bad
          | None => bad
          end
      | RQueueEnqueued q =>
          _ ← corrupt_if
                (negb (bool_decide (qe_queue q = QNextRun)) &&
                 match qe_runId q ≫= fun runId => sc_abortedAt st !! runId with
                 | Some abortSeq => abortSeq <? seq
                 | None => false
                 end) queue_after_abort
                (queue_name (qe_queue q) +:+ " item " +:+ pe_id (qe_target q) +:+ " was enqueued after abort");
          _ ← validateExactProvisionedEntry entriesById (qe_target q);
          Ok {| sc_starts := sc_starts st; sc_finishedAt := sc_finishedAt st;
                sc_abortedAt := sc_abortedAt st;
                sc_queueEnqueues := <[pe_id (qe_target q) := (seq, q)]> (sc_queueEnqueues st);
                sc_latestAttempt := sc_latestAttempt st;
                sc_toolInvocations := sc_toolInvocations st |}
      | RQueueCancelled c =>
          let bad := corrupt invalid_queue_cancellation
                       ("Queue cancellation " +:+ id +:+ " has no pending matching enqueue") in
          match sc_queueEnqueues st !! qc_entryId c with
          | None => bad
          | Some (enqueueSeq, enqueue) =>
              if (seq <=? enqueueSeq) || negb (bool_decide (qe_runId enqueue = qc_runId c))
                 || jm_has (qc_entryId c) entriesById
              then bad else Ok st
          end
      | RWriteDeferred w =>
          _ ← validateExactProvisionedEntry entriesById (wd_target w);
          Ok st
      | RPauseRequested _ | RPauseCleared _ | RUsage _ => Ok st
      end
  end.

Definition scan (records : list LaneRecord) (entriesById : entryMap)
  : result RecordLogCorruption ScanState :=
  foldM (scan_record records entriesById) scan_empty records.

Definition validateRecordLog (input : RecordLogSlice) : result RecordLogCorruption unit :=
  _ ← corrupt_if (1 <? zlen (rl_openOperations input)) multiple_open_operations
        ("Lane " +:+ rl_lane input +:+ " has at least two open operations");
  let entriesById := entry_map (rl_entries input) in
  _ ← validateDeferredHandles (jm_values entriesById);
  let records := sort_by lr_seq (rl_records input) in
  _ ← scan records entriesById;
  Ok tt.
End validation.

(** ** Reconstruction *)

Definition bySequence_entries : list Entry -> list Entry := sort_by e_seq.
Definition bySequence_records : list LaneRecord -> list LaneRecord := sort_by lr_seq.

(** One entry of the configuration loop. *)
Definition configure (c : EffectiveLaneConfiguration) (entry : Entry) : EffectiveLaneConfiguration :=
  match e_body entry with
  | ModelChangeEntry provider modelId =>
      {| ec_provider := provider; ec_modelId := modelId; ec_thinkingLevel := ec_thinkingLevel c;
         ec_activeToolNames := ec_activeToolNames c |}
  | ThinkingLevelEntry level =>
      {| ec_provider := ec_provider c; ec_modelId := ec_modelId c; ec_thinkingLevel := level;
         ec_activeToolNames := ec_activeToolNames c |}
  | ActiveToolsEntry names =>
      {| ec_provider := ec_provider c; ec_modelId := ec_modelId c;
         ec_thinkingLevel := ec_thinkingLevel c; ec_activeToolNames := names |}
  | MessageEntry (AssistantMsg m) _ =>
      {| ec_provider := am_provider m; ec_modelId := am_model m;
         ec_thinkingLevel := ec_thinkingLevel c; ec_activeToolNames := ec_activeToolNames c |}
  | _ => c
  end.

Definition deriveEffectiveConfiguration (input : LaneReductionInput) : EffectiveLaneConfiguration :=
  let entriesById := entry_map (li_configurationEntries input ++ li_ownEntries input) in
  foldl configure (li_defaults input) (bySequence_entries (jm_values entriesById)).

Definition deriveNewestOwn (entry : option Entry) : option NewestOwn :=
  e ← entry;
  Some {| no_entryId := e_id e; no_type := e_type e;
          no_role := message_role <$> entry_message e;
          no_stopReason := am_stopReason <$> entry_assistant e |}.

Definition has_tool_call (e : Entry) : bool :=
  match entry_assistant e with
  | Some m => existsb (fun c => match c with ToolCallContent _ => true | _ => false end)
                (am_content m)
  | None => false
  end.

(** The result a blocked or rejected call has without a dispatch. *)
Definition blocked_result (assistantSeq : Z) (deferredWriteIds : gset string) (toolCallId : string)
    (e : Entry) : bool :=
  (assistantSeq <? e_seq e) && negb (bool_decide (e_id e ∈ deferredWriteIds)) &&
  match entry_tool_result e with
  | Some m => bool_decide (tr_toolCallId m = toolCallId)
  | None => false
  end.

Definition reconciles (operationId toolCallId : string) (started : option ToolStartedRecord)
    (record : LaneRecord) : bool :=
  match lr_body record with
  | RToolReconciliation t =>
      bool_decide (tl_runId t = operationId) && bool_decide (tl_toolCallId t = toolCallId)
      && bool_decide (Some (tl_resultEntryId t) = (fun s => ts_resultEntryId (tsr s)) <$> started)
  | RToolReconciled t =>
      bool_decide (td_runId t = operationId) && bool_decide (td_toolCallId t = toolCallId)
      && bool_decide (Some (td_resultEntryId t) = (fun s => ts_resultEntryId (tsr s)) <$> started)
  | _ => false
  end.

Definition tool_starts (operationId assistantEntryId : string) (records : list LaneRecord)
  : gmap Z ToolStartedRecord :=
  foldl (fun m r =>
    match as_tool_started r with
    | Some t => if bool_decide (ts_runId (tsr t) = operationId)
                   && bool_decide (ts_assistantEntryId (tsr t) = assistantEntryId)
                then <[ts_toolIndex (tsr t) := t]> m else m
    | None => m
    end) ∅ records.

Definition derive_call (operationId : string) (records : list LaneRecord) (ownEntries : list Entry)
    (entriesById : entryMap) (deferredWriteIds : gset string) (assistantSeq : Z)
    (starts : gmap Z ToolStartedRecord) (toolIndex : Z) (toolCall : AgentToolCall)
  : ToolBatchCall :=
  let started := starts !! toolIndex in
  let startedResult := started ≫= fun s => jm_get (ts_resultEntryId (tsr s)) entriesById in
  let blockedResult :=
    head (keep (blocked_result assistantSeq deferredWriteIds (tc_id toolCall)) ownEntries) in
  let result := match startedResult with Some e => Some e | None => blockedResult end in
  let reconciliation := last (keep (reconciles operationId (tc_id toolCall) started) records) in
  {| tbc_toolIndex := toolIndex; tbc_toolCall := toolCall; tbc_started := started;
     tbc_retryAuthorized :=
       match lr_body <$> reconciliation with Some (RToolReconciled _) => true | _ => false end;
     tbc_reconciliation :=
       match lr_body <$> reconciliation with
       | Some (RToolReconciliation t) => Some (tl_reason t)
       | _ => None
       end;
     tbc_resultExists := bool_decide (is_Some result);
     tbc_terminate :=
       match e_body <$> result with Some (MessageEntry _ terminate) => terminate | _ => false end |}.

(** [list.map((x, i) => f(i, x))] *)
Fixpoint map_index {A B} (f : Z -> A -> B) (i : Z) (l : list A) : list B :=
  match l with [] => [] | x :: l' => f i x :: map_index f (i + 1) l' end.

Definition deriveToolBatch (operationId : string) (records : list LaneRecord)
    (ownEntries : list Entry) (entriesById : entryMap) (deferredWriteIds : gset string)
  : option ToolBatchState :=
  match head (keep has_tool_call (reverse ownEntries)) with
  | None => None
  | Some assistantEntry =>
      match entry_assistant assistantEntry with
      | None => None
      | Some message =>
          let starts := tool_starts operationId (e_id assistantEntry) records in
          let calls := map_index (derive_call operationId records ownEntries entriesById
                                    deferredWriteIds (e_seq assistantEntry) starts)
                         0 (tool_calls message) in
          Some {| tb_assistantEntryId := e_id assistantEntry; tb_calls := calls;
                  tb_truncated := bool_decide (am_stopReason message = StopLength);
                  tb_unresolved := existsb (fun c => negb (tbc_resultExists c)) calls |}
      end
  end.

Definition initial_messages (i : intent) : list ProvisionedEntry :=
  match i with IntentRun _ initialMessages _ _ => initialMessages | _ => [] end.

(** The records of one operation. *)
Definition belongs_to (id : string) (record : LaneRecord) : bool :=
  match lr_body record with
  | ROperationStarted _ => bool_decide (lr_id record = id)
  | _ => bool_decide (lr_runId record = Some id)
  end.

Definition as_queue_enqueued (r : LaneRecord) : option QueueEnqueued :=
  match lr_body r with RQueueEnqueued q => Some q | _ => None end.
Definition as_queue_cancelled (r : LaneRecord) : option QueueCancelled :=
  match lr_body r with RQueueCancelled q => Some q | _ => None end.
Definition as_write_deferred (r : LaneRecord) : option WriteDeferred :=
  match lr_body r with RWriteDeferred w => Some w | _ => None end.

(** Queue items that were neither cancelled nor delivered. *)
Definition pending_queue (records : list LaneRecord) (entriesById : entryMap)
  : list QueueEnqueued :=
  let cancelledQueueIds : gset string :=
    list_to_set (qc_entryId <$> omap as_queue_cancelled records) in
  keep (fun q => negb (jm_has (pe_id (qe_target q)) entriesById)
                   && negb (bool_decide (pe_id (qe_target q) ∈ cancelledQueueIds)))
    (omap as_queue_enqueued records).

(** The pause loop: the newest request against the newest clear. *)
Definition pause_step (acc : Z * Z) (record : LaneRecord) : Z * Z :=
  match lr_body record with
  | RPauseRequested _ => (Z.max acc.1 (lr_seq record), acc.2)
  | RPauseCleared _ => (acc.1, Z.max acc.2 (lr_seq record))
  | _ => acc
  end.
Definition derive_pausing (operationRecords : list LaneRecord) : bool :=
  let '(lastPauseSeq, lastPauseClearSeq) := foldl pause_step (-1, -1) operationRecords in
  lastPauseClearSeq <? lastPauseSeq.

Definition is_abort (r : LaneRecord) : bool :=
  match lr_body r with RAbortRequested _ => true | _ => false end.

Definition pending_of (pending : list QueueEnqueued) (queue : queue_kind) (runId : string)
  : list ProvisionedEntry :=
  qe_target <$> keep (fun q => bool_decide (qe_queue q = queue)
                                 && bool_decide (qe_runId q = Some runId)) pending.

Definition derive_step (operationRecords : list LaneRecord) (entriesById : entryMap)
  : option StepState :=
  match last (omap as_step_attempt operationRecords) with
  | None => None
  | Some (_, a) =>
      if jm_has (sa_resultEntryId a) entriesById then None else
      Some {| ss_kind := sa_step a; ss_attempts := sa_attempt a;
              ss_resultEntryId := sa_resultEntryId a;
              ss_compactionReason :=
                match sa_step a with StepCompaction => sa_compactionReason a | _ => None end |}
  end.

Definition max_seq (acc : option Z) (z : Z) : option Z :=
  Some match acc with Some a => Z.max a z | None => z end.

Definition consumed_input_ids (i : intent) (operationRecords : list LaneRecord) : list string :=
  (pe_id <$> initial_messages i) ++
  (pe_id ∘ qe_target <$> keep (fun q => negb (bool_decide (qe_queue q = QNextRun)))
                           (omap as_queue_enqueued operationRecords)).

Definition newest_consumed (ids : list string) (entriesById : entryMap) : option Z :=
  foldl (fun acc id =>
    match jm_get id entriesById with
    | Some e => if is_type TMessage e then max_seq acc (e_seq e) else acc
    | None => acc
    end) None ids.

Definition is_overflow_attempt (after : option Z) (r : LaneRecord) : bool :=
  match lr_body r with
  | RStepAttempt a =>
      bool_decide (sa_step a = StepCompaction)
      && bool_decide (sa_compactionReason a = Some "overflow")
      && match after with Some s => s <? lr_seq r | None => true end
  | _ => false
  end.

Definition derive_checkpoint_failure (operationRecords : list LaneRecord) (ownEntries : list Entry)
    (entriesById : entryMap) : option AssistantMessage :=
  c ← last (omap as_checkpoint operationRecords);
  failure ← ac_continuationFailure c;
  e ← jm_get (ac_resultEntryId c) entriesById;
  if existsb (fun x => (e_seq e <? e_seq x) && is_assistant x) ownEntries then None
  else Some failure.

Definition produced_by_step (id : string) (r : LaneRecord) : bool :=
  match lr_body r with RStepAttempt a => bool_decide (sa_resultEntryId a = id) | _ => false end.
Definition produced_by_fetch (id : string) (r : LaneRecord) : bool :=
  match lr_body r with
  | RUsage u => match ur_cause u with
                | CauseStep UDeferredFetch _ entryId _ _ => bool_decide (entryId = id)
                | _ => false
                end
  | _ => false
  end.
Definition stopped_with (s : StopReason) (e : Entry) : bool :=
  match entry_assistant e with Some m => bool_decide (am_stopReason m = s) | None => false end.

Definition derive_failure (operationRecords : list LaneRecord) (ownEntries : list Entry)
    (deferredWriteIds : gset string) : option TerminalFailureState :=
  match last ownEntries with
  | None => None
  | Some e =>
      match entry_assistant e with
      | None => None
      | Some m =>
          if bool_decide (am_stopReason m = StopError)
             && negb (bool_decide (e_id e ∈ deferredWriteIds)) then
            let producedByStep := existsb (produced_by_step (e_id e)) operationRecords in
            let producedByDeferredFetch :=
              existsb (produced_by_fetch (e_id e)) operationRecords
              || match last (removelast ownEntries) with
                 | Some previous => stopped_with StopDeferred previous
                 | None => false
                 end in
            if producedByStep || producedByDeferredFetch then
              Some {| tf_entryId := e_id e;
                      tf_source := if producedByStep then FromStep else FromDeferredFetch;
                      tf_message := m |}
            else None
          else None
      end
  end.

Definition write_deferred_ids (operationRecords : list LaneRecord) : gset string :=
  list_to_set (pe_id ∘ wd_target <$> omap as_write_deferred operationRecords).

(** [this.state] of the reduction after validation. *)
Definition reduce_operation (started : OperationStartedRecord) (records : list LaneRecord)
    (ownEntries : list Entry) (entriesById : entryMap) (pendingQueueRecords : list QueueEnqueued)
  : OperationState :=
  let id := osr_id started in
  let operationRecords := keep (belongs_to id) records in
  let aborting := existsb is_abort operationRecords in
  let step := derive_step operationRecords entriesById in
  let deferredWriteIds := write_deferred_ids operationRecords in
  let newestOwnEntry := last ownEntries in
  {| op_id := id; op_kind := intent_kind (osr_intent started); op_intent := osr_intent started;
     op_aborting := aborting;
     op_pausing := derive_pausing operationRecords;
     op_step := step;
     op_toolBatch := deriveToolBatch id operationRecords ownEntries entriesById deferredWriteIds;
     op_checkpoint :=
       match step with
       | Some s =>
           if bool_decide (ss_kind s = StepAssistant) then
             ac_message <$> last (keep
               (fun c => bool_decide (ac_resultEntryId c = ss_resultEntryId s)
                         && (ac_attempt c =? ss_attempts s))
               (omap as_checkpoint operationRecords))
           else None
       | None => None
       end;
     op_checkpointFailure := derive_checkpoint_failure operationRecords ownEntries entriesById;
     op_missingInitialMessages :=
       keep (fun t => negb (jm_has (pe_id t) entriesById)) (initial_messages (osr_intent started));
     op_pendingSteer := if aborting then [] else pending_of pendingQueueRecords QSteer id;
     op_pendingFollowUp := if aborting then [] else pending_of pendingQueueRecords QFollowUp id;
     op_pendingWrites :=
       keep (fun t => negb (jm_has (pe_id t) entriesById))
         (wd_target <$> omap as_write_deferred operationRecords);
     op_deferred :=
       match newestOwnEntry ≫= entry_assistant with
       | Some m => if bool_decide (am_stopReason m = StopDeferred) then am_deferred m else None
       | None => None
       end;
     op_overflowRecoveryUsed :=
       existsb (is_overflow_attempt
                  (newest_consumed (consumed_input_ids (osr_intent started) operationRecords)
                     entriesById)) operationRecords;
     op_newestOwn := deriveNewestOwn newestOwnEntry;
     op_target_result :=
       match osr_intent started with
       | IntentCompaction _ resultEntryId => Some (jm_has resultEntryId entriesById)
       | _ => None
       end;
     op_target_summary :=
       match osr_intent started with
       | IntentNavigation _ _ _ _ summaryEntryId =>
           (fun s => jm_has s entriesById) <$> truthy summaryEntryId
       | _ => None
       end |}.

Definition reduceLaneState (deepEqual : ProvisionedEntry -> ProvisionedEntry -> bool)
    (input : LaneReductionInput) : result RecordLogCorruption LaneReductionResult :=
  _ ← validateRecordLog deepEqual (li_slice input);
  let records := bySequence_records (rl_records (li_slice input)) in
  let ownEntries := bySequence_entries (li_ownEntries input) in
  let entriesById := entry_map (rl_entries (li_slice input) ++ ownEntries) in
  let pendingQueueRecords := pending_queue records entriesById in
  let started := head (rl_openOperations (li_slice input)) in
  let captured : gset string :=
    list_to_set (match started with
                 | Some s => pe_id <$> initial_messages (osr_intent s)
                 | None => []
                 end) in
  let pendingNextRun :=
    qe_target <$> keep (fun q => bool_decide (qe_queue q = QNextRun)
                       && negb (bool_decide (pe_id (qe_target q) ∈ captured)))
                    pendingQueueRecords in
  let effectiveConfiguration := deriveEffectiveConfiguration input in
  Ok match started with
     | None =>
         {| lrr_laneState := {| ls_lane := rl_lane (li_slice input); ls_leafId := li_leafId input;
                                ls_operation := None; ls_pendingNextRun := pendingNextRun |};
            lrr_effectiveConfiguration := effectiveConfiguration; lrr_terminalFailure := None |}
     | Some s =>
         let operationRecords := keep (belongs_to (osr_id s)) records in
         {| lrr_laneState :=
              {| ls_lane := rl_lane (li_slice input); ls_leafId := li_leafId input;
                 ls_operation :=
                   Some (reduce_operation s records ownEntries entriesById pendingQueueRecords);
                 ls_pendingNextRun := pendingNextRun |};
            lrr_effectiveConfiguration := effectiveConfiguration;
            lrr_terminalFailure :=
              derive_failure operationRecords ownEntries (write_deferred_ids operationRecords) |}
     end.
