(* ===== verification/ReducerValidation.v ===== *)
(** * What [validateRecordLog] accepts

    The scan is proved equivalent to a declarative description of the
    single-writer protocol: [record_ok] says when a record may follow the records
    before it, without any table.  [validateRecordLog_correct] is the resulting
    soundness and completeness theorem. *)
From S2P Require Import Prelude JsNumber SessionTypes Reducer.

(** ** The tool invocation key is injective *)

Definition nul : Ascii.ascii := Ascii.ascii_of_nat 0.

Fixpoint no_nul (s : string) : Prop :=
  match s with EmptyString => True | String c s' => c <> nul /\ no_nul s' end.

Lemma no_nul_app b q : ~ no_nul (b +:+ String nul q).
Proof. induction b as [|d b IH]; simpl; [tauto|]. by intros [_ H]. Qed.

Lemma app_nul_inj a a' p p' :
  no_nul p -> no_nul p' -> a +:+ String nul p = a' +:+ String nul p' -> a = a' /\ p = p'.
Proof.
  revert a'. induction a as [|c a IH]; intros [|c' a']; simpl; intros Hp Hp' Heq.
  - by injection Heq as ->.
  - injection Heq as Hc Heq. subst p. by apply no_nul_app in Hp.
  - injection Heq as Hc Heq. subst p'. by apply no_nul_app in Hp'.
  - injection Heq as Hc Heq. destruct (IH a') as [-> ->]; by subst.
Qed.

Lemma pretty_N_go_no_nul x s : no_nul s -> no_nul (pretty_N_go x s).
Proof.
  revert s. induction (N.lt_wf_0 x) as [x _ IH]; intros s Hs.
  destruct (decide (x = 0)%N) as [->|Hx]; [by rewrite pretty_N_go_0|].
  rewrite pretty_N_go_step by lia. apply IH; [apply N.div_lt; lia|]. simpl. split; [|done].
  unfold pretty_N_char. by repeat case_match.
Qed.
Lemma pretty_N_no_nul (x : N) : no_nul (pretty x).
Proof.
  unfold pretty, pretty_N. case_decide; [by vm_compute|]. by apply pretty_N_go_no_nul.
Qed.
Lemma pretty_Z_no_nul (z : Z) : no_nul (pretty z).
Proof.
  unfold pretty, pretty_Z. destruct z as [|p|p]; [by vm_compute|apply pretty_N_no_nul|].
  simpl. split; [by vm_compute|]. apply pretty_N_no_nul.
Qed.

Lemma invocation_key_inj t t' :
  invocation_key t = invocation_key t' <->
  ts_assistantEntryId t = ts_assistantEntryId t' /\ ts_toolIndex t = ts_toolIndex t'.
Proof.
  unfold invocation_key. fold nul. split; [|by intros [-> ->]]. intros Heq.
  apply app_nul_inj in Heq as [? Hp]; [|apply pretty_Z_no_nul..].
  split; [done|]. by apply (inj pretty) in Hp.
Qed.

(** ** The protocol, declaratively *)

Definition attempt_of (run : string) (r : LaneRecord) : option StepAttempt :=
  match lr_body r with
  | RStepAttempt a => if bool_decide (sa_runId a = run) then Some a else None
  | _ => None
  end.
Definition enqueue_of (id : string) (r : LaneRecord) : option (Z * QueueEnqueued) :=
  match lr_body r with
  | RQueueEnqueued q => if bool_decide (pe_id (qe_target q) = id) then Some (lr_seq r, q) else None
  | _ => None
  end.

Section protocol.
Variable deepEqual : ProvisionedEntry -> ProvisionedEntry -> bool.
Variable byId : entryMap.
Implicit Type pre : list LaneRecord.

Definition started_in pre run := exists x, x ∈ pre /\ lr_id x = run /\
  exists o, lr_body x = ROperationStarted o.
Definition finished_in pre run := exists x o, x ∈ pre /\ lr_body x = ROperationFinished o /\
  of_runId o = run.
Definition aborted_in pre run := exists x, x ∈ pre /\ lr_body x = RAbortRequested run.
Definition invoked_in pre (t : ToolStarted) := exists x t', x ∈ pre /\
  lr_body x = RToolStarted t' /\ ts_assistantEntryId t' = ts_assistantEntryId t /\
  ts_toolIndex t' = ts_toolIndex t.
Definition dispatched_in pre run callId resultId := exists x t, x ∈ pre /\
  lr_body x = RToolStarted t /\ ts_runId t = run /\ ts_toolCallId t = callId /\
  ts_resultEntryId t = resultId.

(** An entry under a provisioned identifier has the provisioned content. *)
Definition exact_ok (t : ProvisionedEntry) := forall e, jm_get (pe_id t) byId = Some e ->
  deepEqual (strip e) t = true.
Definition result_ok (id : string) (p : Entry -> bool) := forall e, jm_get id byId = Some e ->
  p e = true.

Definition intent_ok (i : intent) : Prop :=
  match i with
  | IntentRun _ msgs _ _ => forall t, t ∈ msgs -> exact_ok t
  | IntentCompaction _ id => result_ok id (is_type TCompaction)
  | IntentNavigation _ _ _ _ (Some id) => id <> "" -> result_ok id (is_type TBranchSummary)
  | IntentNavigation _ _ _ _ None => True
  end.

Definition reason_ok (a : StepAttempt) : Prop :=
  match sa_step a with
  | StepCompaction => sa_compactionReason a ∈ [Some "manual"; Some "threshold"; Some "overflow"]
  | _ => sa_compactionReason a = None
  end.
(** Attempts of one step count up from 1; a step ends when its result exists. *)
Definition attempt_ok pre (seq : Z) (a : StepAttempt) : Prop :=
  match continuesSeries seq a (last (omap (attempt_of (sa_runId a)) pre)) byId with
  | Some p => sa_attempt a = sa_attempt p + 1 /\
      (sa_step a <> StepAssistant ->
       sa_resultEntryId a = sa_resultEntryId p /\ sa_compactionReason a = sa_compactionReason p)
  | None => sa_attempt a = 1
  end.
Definition attempt_result_ok (a : StepAttempt) : Prop :=
  result_ok (sa_resultEntryId a)
    match sa_step a with
    | StepAssistant => is_assistant
    | StepCompaction => is_type TCompaction
    | StepBranchSummary => is_type TBranchSummary
    end.

Definition tool_start_ok (t : ToolStarted) : Prop :=
  (exists e m c, jm_get (ts_assistantEntryId t) byId = Some e /\ entry_assistant e = Some m /\
     at_index (tool_calls m) (ts_toolIndex t) = Some c /\
     tc_id c = ts_toolCallId t /\ tc_name c = ts_toolName t) /\
  result_ok (ts_resultEntryId t) (is_result_of t).

Definition body_ok pre (seq : Z) (body : record_body) : Prop :=
  match body with
  | ROperationStarted o => intent_ok (os_intent o)
  | RStepAttempt a => reason_ok a /\ attempt_ok pre seq a /\ attempt_result_ok a
  | RToolStarted t => ~ invoked_in pre t /\ tool_start_ok t
  | RToolReconciliation t => dispatched_in pre (tl_runId t) (tl_toolCallId t) (tl_resultEntryId t)
  | RToolReconciled t => dispatched_in pre (td_runId t) (td_toolCallId t) (td_resultEntryId t)
  | RAssistantCheckpoint c => exists a, last (omap (attempt_of (ac_runId c)) pre) = Some a /\
      sa_step a = StepAssistant /\ sa_resultEntryId a = ac_resultEntryId c /\
      sa_attempt a = ac_attempt c /\ am_isResponseCheckpoint (ac_message c) = true
  | RQueueEnqueued q =>
      (qe_queue q <> QNextRun -> forall run, qe_runId q = Some run -> ~ aborted_in pre run) /\
      exact_ok (qe_target q)
  | RQueueCancelled c => exists s q, last (omap (enqueue_of (qc_entryId c)) pre) = Some (s, q) /\
      qe_runId q = qc_runId c /\ jm_get (qc_entryId c) byId = None
  | RWriteDeferred w => exact_ok (wd_target w)
  | RAbortRequested _ | RPauseRequested _ | RPauseCleared _ | ROperationFinished _
  | RUsage _ => True
  end.

(** [r] may follow [pre]. *)
Definition record_ok pre (r : LaneRecord) : Prop :=
  (forall run, hasRunId r = Some run -> started_in pre run /\ ~ finished_in pre run) /\
  body_ok pre (lr_seq r) (lr_body r).
End protocol.

(** ** Single checks *)

Lemma bind_unit_Ok {A} (r : result RecordLogCorruption unit) (k : result RecordLogCorruption A) x :
  (match r with Ok _ => k | Err e => Err e end) = Ok x <-> r = Ok tt /\ k = Ok x.
Proof. destruct r as [[]|]; naive_solver. Qed.
Lemma corrupt_if_Ok c k m : corrupt_if c k m = Ok tt <-> c = false.
Proof. by destruct c. Qed.
Lemma if_Ok_iff {A} (c : bool) (x y : A) (e : RecordLogCorruption) :
  (if c then Ok x else Err e) = Ok y <-> c = true /\ y = x.
Proof. destruct c; naive_solver. Qed.
Lemma if_Ok_iff' {A} (c : bool) (x y : A) (e : RecordLogCorruption) :
  (if c then Err e else Ok x) = Ok y <-> c = false /\ y = x.
Proof. destruct c; naive_solver. Qed.
Lemma forR_Ok {A} (l : list A) f : forR l f = Ok tt <-> forall x, x ∈ l -> f x = Ok tt.
Proof.
  induction l as [|x l IH]; simpl; [split; [|done]; intros _ x Hx; by apply not_elem_of_nil in Hx|].
  mrun. rewrite bind_unit_Ok, IH. split.
  - intros [Hx Hl] y [->|Hy]%elem_of_cons; auto.
  - intros H. split; [apply H; by left|]. intros y Hy. apply H. by right.
Qed.

Section checks.
Variable deepEqual : ProvisionedEntry -> ProvisionedEntry -> bool.
Variable byId : entryMap.

Lemma exact_Ok t : validateExactProvisionedEntry deepEqual byId t = Ok tt <-> exact_ok deepEqual byId t.
Proof.
  unfold validateExactProvisionedEntry, exact_ok, matchesProvisionedEntry.
  destruct (jm_get (pe_id t) byId) as [e|]; [|naive_solver].
  rewrite corrupt_if_Ok, negb_false_iff. naive_solver.
Qed.
Lemma result_Ok id p d : validateResultEntry byId id p d = Ok tt <-> result_ok byId id p.
Proof.
  unfold validateResultEntry, result_ok. destruct (jm_get id byId) as [e|]; [|naive_solver].
  rewrite corrupt_if_Ok, negb_false_iff. naive_solver.
Qed.
Lemma intent_Ok i : validateOperationResult deepEqual byId i = Ok tt <-> intent_ok deepEqual byId i.
Proof.
  destruct i as [op msgs sp rd|ci id|ti su ci la [id|]]; simpl.
  - rewrite forR_Ok. split; intros H t Ht; by apply exact_Ok, H.
  - apply result_Ok.
  - case_bool_decide as Hid; [by split|]. rewrite result_Ok. tauto.
  - done.
Qed.
Lemma reason_Ok id a : validateAttemptReason id a = Ok tt <-> reason_ok a.
Proof.
  unfold validateAttemptReason, reason_ok, valid_reason.
  destruct (sa_step a); rewrite corrupt_if_Ok.
  - rewrite bool_decide_eq_false, <-eq_None_not_Some. done.
  - rewrite bool_decide_eq_false, <-eq_None_not_Some. done.
  - rewrite negb_false_iff, !orb_true_iff, !bool_decide_eq_true, !elem_of_cons, elem_of_nil. tauto.
Qed.
Lemma attempt_Ok id seq a pre :
  validateAttemptSequence id seq a (last (omap (attempt_of (sa_runId a)) pre)) byId = Ok tt <->
  attempt_ok byId pre seq a.
Proof.
  unfold validateAttemptSequence, attempt_ok.
  destruct (continuesSeries _ _ _ _) as [p|]; mrun; rewrite bind_unit_Ok, corrupt_if_Ok,
    negb_false_iff, Z.eqb_eq; [|tauto].
  case_bool_decide as Hs; [naive_solver|].
  rewrite bind_unit_Ok, !corrupt_if_Ok, !negb_false_iff, !bool_decide_eq_true. tauto.
Qed.
Lemma attempt_result_Ok a : validateAttemptResult byId a = Ok tt <-> attempt_result_ok byId a.
Proof. unfold validateAttemptResult, attempt_result_ok. destruct (sa_step a); apply result_Ok. Qed.

Lemma tool_start_Ok id t inv inv' :
  validateToolStart id t byId inv = Ok inv' <->
  (invocation_key t ∉ inv) /\ tool_start_ok byId t /\ inv' = {[invocation_key t]} ∪ inv.
Proof.
  unfold validateToolStart, tool_start_ok. mrun.
  rewrite bind_unit_Ok, corrupt_if_Ok, bool_decide_eq_false.
  unfold corrupt. destruct (jm_get (ts_assistantEntryId t) byId) as [e|]; simpl;
    [|split; [intros [_ [=]]|intros (_ & [(? & ? & ? & [=] & _) _] & _)]].
  destruct (entry_assistant e) as [m|] eqn:Hm;
    [|split; [intros [_ [=]]|intros (_ & [(? & ? & ? & [= <-] & ? & _) _] & _); congruence]].
  rewrite bind_unit_Ok.
  destruct (at_index (tool_calls m) (ts_toolIndex t)) as [c|] eqn:Hc.
  - rewrite corrupt_if_Ok, orb_false_iff, !negb_false_iff, !bool_decide_eq_true, bind_unit_Ok,
      result_Ok. split.
    + intros (? & [? ?] & ? & [= <-]). split; [done|]. split; [|done]. split; [|done].
      exists e, m, c. done.
    + intros (? & [(e' & m' & c' & [= <-] & ? & ? & ? & ?) ?] & ->). simplify_eq. done.
  - split; [intros (_ & [=] & _)|].
    intros (_ & [(e' & m' & c' & [= <-] & ? & ? & _) _] & _). congruence.
Qed.
End checks.

(** ** The scan's tables mirror the prefix *)

Definition finish_of (run : string) (r : LaneRecord) : option Z :=
  match lr_body r with
  | ROperationFinished o => if bool_decide (of_runId o = run) then Some (lr_seq r) else None
  | _ => None
  end.
Definition abort_of (run : string) (r : LaneRecord) : option Z :=
  match lr_body r with
  | RAbortRequested x => if bool_decide (x = run) then Some (lr_seq r) else None
  | _ => None
  end.

Record tables (pre : list LaneRecord) (st : ScanState) : Prop := {
  tb_starts : forall run, run ∈ sc_starts st <-> started_in pre run;
  tb_finished : forall run, sc_finishedAt st !! run = last (omap (finish_of run) pre);
  tb_aborted : forall run, sc_abortedAt st !! run = last (omap (abort_of run) pre);
  tb_queue : forall id, sc_queueEnqueues st !! id = last (omap (enqueue_of id) pre);
  tb_attempt : forall run, sc_latestAttempt st !! run = last (omap (attempt_of run) pre);
  tb_invocations : forall t, invocation_key t ∈ sc_toolInvocations st <-> invoked_in pre t }.

Lemma tables_empty : tables [] scan_empty.
Proof.
  constructor; try done; simpl; intros y; split; try (by intros ?%elem_of_empty).
  - intros (x & Hx & _). by apply not_elem_of_nil in Hx.
  - intros (x & t' & Hx & _). by apply not_elem_of_nil in Hx.
Qed.

(** The table updates, without the checks. *)
Definition advance (st : ScanState) (r : LaneRecord) : ScanState :=
  {| sc_starts := match lr_body r with
                  | ROperationStarted _ => {[lr_id r]} ∪ sc_starts st
                  | _ => sc_starts st
                  end;
     sc_finishedAt := match lr_body r with
                      | ROperationFinished o => <[of_runId o := lr_seq r]> (sc_finishedAt st)
                      | _ => sc_finishedAt st
                      end;
     sc_abortedAt := match lr_body r with
                     | RAbortRequested run => <[run := lr_seq r]> (sc_abortedAt st)
                     | _ => sc_abortedAt st
                     end;
     sc_queueEnqueues :=
       match lr_body r with
       | RQueueEnqueued q => <[pe_id (qe_target q) := (lr_seq r, q)]> (sc_queueEnqueues st)
       | _ => sc_queueEnqueues st
       end;
     sc_latestAttempt := match lr_body r with
                         | RStepAttempt a => <[sa_runId a := a]> (sc_latestAttempt st)
                         | _ => sc_latestAttempt st
                         end;
     sc_toolInvocations := match lr_body r with
                           | RToolStarted t => {[invocation_key t]} ∪ sc_toolInvocations st
                           | _ => sc_toolInvocations st
                           end |}.

Lemma last_omap_snoc {A B} (f : A -> option B) l x :
  last (omap f (l ++ [x])) = match f x with Some y => Some y | None => last (omap f l) end.
Proof. rewrite omap_app. csimpl. destruct (f x); [apply last_snoc|by rewrite app_nil_r]. Qed.

Lemma started_in_snoc pre r run :
  started_in (pre ++ [r]) run <->
  started_in pre run \/ (lr_id r = run /\ exists o, lr_body r = ROperationStarted o).
Proof.
  unfold started_in. split.
  - intros (x & [Hx|Hx%list_elem_of_singleton]%elem_of_app & H); [left; by exists x|subst x; by right].
  - intros [(x & Hx & H)|H]; [exists x|exists r]; rewrite elem_of_app, list_elem_of_singleton; auto.
Qed.
Lemma invoked_in_snoc pre r t :
  invoked_in (pre ++ [r]) t <->
  invoked_in pre t \/ exists t', lr_body r = RToolStarted t' /\
    ts_assistantEntryId t' = ts_assistantEntryId t /\ ts_toolIndex t' = ts_toolIndex t.
Proof.
  unfold invoked_in. split.
  - intros (x & t' & [Hx|Hx%list_elem_of_singleton]%elem_of_app & H);
      [left; by exists x, t'|subst x; right; by exists t'].
  - intros [(x & t' & Hx & H)|(t' & H)]; [exists x, t'|exists r, t'];
      rewrite elem_of_app, list_elem_of_singleton; auto.
Qed.

Lemma tables_advance pre st r : tables pre st -> tables (pre ++ [r]) (advance st r).
Proof.
  intros [Hs Hf Ha Hq Ht Hi]. unfold advance.
  constructor; intros x; cbn [sc_starts sc_finishedAt sc_abortedAt sc_queueEnqueues
                              sc_latestAttempt sc_toolInvocations].
  - rewrite started_in_snoc, <-Hs.
    destruct (lr_body r); try (split; [by left|by intros [?|(_ & o & [=])]]).
    rewrite elem_of_union, elem_of_singleton. split; [intros [->|?]; eauto|].
    intros [?|[<- _]]; auto.
  - rewrite last_omap_snoc, <-Hf. unfold finish_of. destruct (lr_body r); try done.
    rewrite lookup_insert. case_bool_decide; by case_decide.
  - rewrite last_omap_snoc, <-Ha. unfold abort_of. destruct (lr_body r); try done.
    rewrite lookup_insert. case_bool_decide; by case_decide.
  - rewrite last_omap_snoc, <-Hq. unfold enqueue_of. destruct (lr_body r); try done.
    rewrite lookup_insert. case_bool_decide; by case_decide.
  - rewrite last_omap_snoc, <-Ht. unfold attempt_of. destruct (lr_body r); try done.
    rewrite lookup_insert. case_bool_decide; by case_decide.
  - rewrite invoked_in_snoc, <-Hi.
    destruct (lr_body r) as [| | | | | |t| | | | | | |];
      try (split; [by left|by intros [?|(t' & [=] & _)]]).
    rewrite elem_of_union, elem_of_singleton, invocation_key_inj. split.
    + intros [[? ?]|?]; [right; by exists t|by left].
    + intros [?|(t' & [= <-] & ? & ?)]; auto.
Qed.

(** ** One step of the scan *)

Lemma last_omap_bound {A} (f : LaneRecord -> option A) (s : A -> Z) pre seq y :
  (forall x y, f x = Some y -> s y = lr_seq x) -> (forall x, x ∈ pre -> lr_seq x < seq) ->
  last (omap f pre) = Some y -> s y < seq.
Proof.
  intros Hf Hpre Hl. apply last_Some_elem_of, list_elem_of_omap in Hl as (x & Hx & Hy).
  rewrite (Hf x y Hy). by apply Hpre.
Qed.
Lemma last_omap_None {A B} (f : A -> option B) l :
  last (omap f l) = None <-> forall x, x ∈ l -> f x = None.
Proof.
  rewrite last_None. split.
  - intros Hl x Hx. destruct (f x) as [y|] eqn:Hy; [|done]. exfalso.
    assert (Hin : y ∈ omap f l) by (apply list_elem_of_omap; by exists x).
    rewrite Hl in Hin. by apply not_elem_of_nil in Hin.
  - intros H. induction l as [|x l IH]; [done|]. csimpl. rewrite (H x) by by left.
    apply IH. intros y Hy. apply H. by right.
Qed.

Lemma finish_of_run run x z : finish_of run x = Some z ->
  exists o, lr_body x = ROperationFinished o /\ of_runId o = run.
Proof. unfold finish_of. destruct (lr_body x); try done. case_bool_decide; naive_solver. Qed.

Lemma finish_check pre seq run (e : RecordLogCorruptionReason) m :
  (forall x, x ∈ pre -> lr_seq x < seq) ->
  match last (omap (finish_of run) pre) with
  | Some f => corrupt_if (f <? seq) e m
  | None => Ok tt
  end = Ok tt <-> ~ finished_in pre run.
Proof.
  intros Hpre. destruct (last (omap (finish_of run) pre)) as [f|] eqn:Hl.
  - rewrite corrupt_if_Ok.
    assert (f < seq).
    { eapply (last_omap_bound (finish_of run) id); [|done|done].
      intros x y. unfold finish_of. destruct (lr_body x); try done. by case_bool_decide; intros [= <-]. }
    split; [intros ?%Z.ltb_ge; lia|]. intros []. 
    apply last_Some_elem_of, list_elem_of_omap in Hl as (x & Hx & Hf).
    destruct (finish_of_run _ _ _ Hf) as (o & ? & ?). by exists x, o.
  - rewrite last_omap_None in Hl. split; [|done]. intros _ (x & o & Hx & Hb & Ho).
    specialize (Hl x Hx). unfold finish_of in Hl. rewrite Hb, bool_decide_true in Hl by done. done.
Qed.

Lemma aborted_in_iff pre run : aborted_in pre run <-> is_Some (last (omap (abort_of run) pre)).
Proof.
  split.
  - intros (x & Hx & Hb). destruct (last _) eqn:Hl; [by eexists|].
    rewrite last_omap_None in Hl. specialize (Hl x Hx). unfold abort_of in Hl.
    by rewrite Hb, bool_decide_true in Hl.
  - intros [z Hz]. apply last_Some_elem_of, list_elem_of_omap in Hz as (x & Hx & Hf).
    exists x. split; [done|]. unfold abort_of in Hf. destruct (lr_body x); try done.
    by case_bool_decide; subst.
Qed.

Section step.
Variable deepEqual : ProvisionedEntry -> ProvisionedEntry -> bool.
Variable byId : entryMap.
Context (pre post : list LaneRecord) (r : LaneRecord) (st : ScanState).
Context (Hpre : forall x, x ∈ pre -> lr_seq x < lr_seq r).
Context (Hpost : forall x, x ∈ r :: post -> lr_seq r <= lr_seq x).
Context (Htab : tables pre st).

Lemma run_check (k : result RecordLogCorruption ScanState) st' :
  (_ ← match hasRunId r with
       | Some runId =>
           _ ← corrupt_if (negb (bool_decide (runId ∈ sc_starts st))) unknown_operation
                 ("Record " +:+ lr_id r +:+ " references unknown operation " +:+ runId);
           match sc_finishedAt st !! runId with
           | Some finishSeq => corrupt_if (finishSeq <? lr_seq r) record_after_finish
                 ("Record " +:+ lr_id r +:+ " follows the finish of operation " +:+ runId)
           | None => Ok tt
           end
       | None => Ok tt
       end; k) = Ok st' <->
  (forall run, hasRunId r = Some run -> started_in pre run /\ ~ finished_in pre run) /\ k = Ok st'.
Proof.
  mrun. rewrite bind_unit_Ok. apply and_iff_compat_r.
  destruct (hasRunId r) as [run|]; [|naive_solver].
  rewrite bind_unit_Ok, corrupt_if_Ok, negb_false_iff, bool_decide_eq_true, (tb_starts _ _ Htab),
    (tb_finished _ _ Htab), finish_check by done. naive_solver.
Qed.

Lemma dispatches_spec run callId resultId :
  existsb (dispatches run callId resultId (lr_seq r)) (pre ++ r :: post) = true <->
  dispatched_in pre run callId resultId.
Proof.
  rewrite existsb_exists. unfold dispatched_in, dispatches. split.
  - intros (x & Hx & Hb). destruct (lr_body x) as [| | | | | |t| | | | | | |] eqn:Hbody; try done.
    rewrite !andb_true_iff, !bool_decide_eq_true, Z.ltb_lt in Hb.
    destruct Hb as [[[? ?] ?] Hlt]. exists x, t. split; [|done].
    apply list_elem_of_In, elem_of_app in Hx as [Hx|Hx]; [done|]. apply Hpost in Hx. lia.
  - intros (x & t & Hx & Hb & <- & <- & <-). exists x. split.
    + apply list_elem_of_In, elem_of_app. by left.
    + rewrite Hb, !bool_decide_true by done. simpl. apply Z.ltb_lt. by apply Hpre.
Qed.

Lemma queue_check q :
  negb (bool_decide (qe_queue q = QNextRun)) &&
    match qe_runId q ≫= fun runId => sc_abortedAt st !! runId with
    | Some abortSeq => abortSeq <? lr_seq r
    | None => false
    end = false <->
  (qe_queue q <> QNextRun -> forall run, qe_runId q = Some run -> ~ aborted_in pre run).
Proof.
  case_bool_decide as Hq; simpl; [naive_solver|]. destruct (qe_runId q) as [run|]; simpl; [|naive_solver].
  rewrite (tb_aborted _ _ Htab). pose proof (aborted_in_iff pre run) as Hiff.
  destruct (last (omap (abort_of run) pre)) as [z|] eqn:Hz.
  - assert (z < lr_seq r) as Hlt.
    { eapply (last_omap_bound (abort_of run) id); [|done|done].
      intros x y. unfold abort_of. destruct (lr_body x); try done. by case_bool_decide; intros [= <-]. }
    rewrite (proj2 (Z.ltb_lt _ _) Hlt). split; [done|]. intros H. destruct (H Hq run eq_refl).
    apply Hiff. by eexists.
  - split; [|done]. intros _ _ run' [= <-] Ha. apply Hiff in Ha as [? ?]. done.
Qed.

Lemma scan_record_spec st' :
  scan_record deepEqual (pre ++ r :: post) byId st r = Ok st' <->
  record_ok deepEqual byId pre r /\ st' = advance st r.
Proof.
  unfold scan_record, record_ok. destruct (lr_body r) eqn:Hb.
  { mrun. rewrite bind_unit_Ok, intent_Ok. unfold advance, hasRunId. rewrite Hb. naive_solver. }
  all: rewrite run_check; (etrans; [|symmetry; apply Corelib.Init.Logic.and_assoc]);
    apply and_iff_compat_l; mrun; simpl; unfold advance, reconciliation_mismatch, corrupt;
    rewrite ?Hb.
  all: try (destruct st; naive_solver).
  - rewrite !bind_unit_Ok, reason_Ok, (tb_attempt _ _ Htab), attempt_Ok, attempt_result_Ok.
    destruct st; naive_solver.
  - rename r0 into t. pose proof (tb_invocations _ _ Htab t) as Hinv. split.
    + destruct (validateToolStart _ _ _ _) as [inv'|] eqn:Hv; [|done]. intros [= <-].
      apply tool_start_Ok in Hv as (Hni & Hok & ->). rewrite Hinv in Hni. done.
    + intros [[Hni Hok] ->]. rewrite <-Hinv in Hni.
      by rewrite (proj2 (tool_start_Ok byId _ _ _ _) (conj Hni (conj Hok eq_refl))).
  - rewrite if_Ok_iff, dispatches_spec. destruct st; naive_solver.
  - rewrite if_Ok_iff, dispatches_spec. destruct st; naive_solver.
  - rewrite (tb_attempt _ _ Htab). destruct (last _) as [a|]; [|naive_solver].
    rewrite if_Ok_iff, !andb_true_iff, !bool_decide_eq_true, Z.eqb_eq. destruct st; naive_solver.
  - rewrite !bind_unit_Ok, corrupt_if_Ok, queue_check, exact_Ok. destruct st; naive_solver.
  - rewrite (tb_queue _ _ Htab). destruct (last _) as [[s q]|] eqn:Hl; [|naive_solver].
    assert (Hs : s < lr_seq r).
    { change s with (fst (s, q)).
      eapply (last_omap_bound (enqueue_of (qc_entryId r0)) fst); [|done|exact Hl].
      intros x y. unfold enqueue_of. destruct (lr_body x); try done. by case_bool_decide; intros [= <-]. }
    rewrite if_Ok_iff', !orb_false_iff, negb_false_iff, bool_decide_eq_true, Z.leb_gt, jm_has_false.
    destruct st; naive_solver.
  - rewrite bind_unit_Ok, exact_Ok. destruct st; naive_solver.
Qed.
End step.

(** ** The whole scan *)

Lemma sorted_split {A} (R : A -> A -> Prop) pre x post :
  StronglySorted R (pre ++ x :: post) ->
  (forall y, y ∈ pre -> R y x) /\ Forall (R x) post.
Proof.
  intros (H1 & _ & H2)%StronglySorted_app. apply StronglySorted_inv in H2 as [_ H2].
  split; [|done]. intros y Hy. apply H1; [done|by left].
Qed.

Lemma scan_spec deepEqual byId rs :
  StronglySorted (key_lt lr_seq) rs ->
  (exists st, scan deepEqual rs byId = Ok st) <->
  (forall pre r post, rs = pre ++ r :: post -> record_ok deepEqual byId pre r).
Proof.
  intros Hs. unfold scan.
  assert (Hgen : forall post pre st, rs = pre ++ post -> tables pre st ->
    (exists st', foldM (scan_record deepEqual rs byId) st post = Ok st') <->
    (forall pre' r post', post = pre' ++ r :: post' -> record_ok deepEqual byId (pre ++ pre') r)).
  { induction post as [|r post IH]; intros pre st Hrs Htab; simpl.
    - split; [|by eexists]. intros _ [|? ?] r post'; by intros.
    - rewrite Hrs in Hs. destruct (sorted_split _ _ _ _ Hs) as [Hpre Hpost].
      assert (Hle : forall x, x ∈ r :: post -> lr_seq r <= lr_seq x).
      { intros x [->|Hx]%elem_of_cons; [lia|]. rewrite Forall_forall in Hpost.
        specialize (Hpost x Hx). unfold key_lt in Hpost. lia. }
      pose proof (scan_record_spec deepEqual byId pre post r st Hpre Hle Htab) as Hstep.
      rewrite <-Hrs in Hstep, Hs.
      assert (Hrs' : rs = (pre ++ [r]) ++ post) by by rewrite <-(assoc_L (++)).
      specialize (IH (pre ++ [r]) (advance st r) Hrs' (tables_advance _ _ r Htab)).
      split.
      + intros [st' Hst']. destruct (scan_record _ _ _ _ _) as [st1|] eqn:H1; [|done].
        destruct (proj1 (Hstep st1) eq_refl) as [Hok ->].
        intros [|r' pre'] x post' [= -> ->]; [by rewrite app_nil_r|].
        rewrite (app_cons_snoc pre). by eapply (proj1 IH (ex_intro _ _ Hst')).
      + intros H. assert (Hok : record_ok deepEqual byId pre r).
        { rewrite <-(app_nil_r pre). by apply (H [] r post). }
        rewrite (proj2 (Hstep (advance st r)) (conj Hok eq_refl)). apply IH.
        intros pre' x post' ->. rewrite <-(app_cons_snoc pre). by apply (H (r :: pre') x post'). }
  rewrite (Hgen rs [] scan_empty eq_refl tables_empty). done.
Qed.

Lemma validateRecordLog_iff deepEqual input :
  NoDup (lr_seq <$> rl_records input) ->
  let byId := entry_map (rl_entries input) in
  validateRecordLog deepEqual input = Ok tt <->
  zlen (rl_openOperations input) <= 1 /\
  (forall e, e ∈ jm_values byId -> handle_missing e = false) /\
  (forall pre r post, sort_by lr_seq (rl_records input) = pre ++ r :: post ->
     record_ok deepEqual byId pre r).
Proof.
  intros Hnd byId. apply (sort_by_strict lr_seq) in Hnd.
  unfold validateRecordLog, validateDeferredHandles. mrun. fold byId.
  rewrite !bind_unit_Ok, corrupt_if_Ok, forR_Ok, Z.ltb_ge, <-scan_spec by done.
  apply and_iff_compat_l. apply ZifyClasses.and_morph.
  - split; intros H e He.
    + apply H in He. by apply corrupt_if_Ok in He.
    + apply corrupt_if_Ok. by apply H.
  - destruct (scan _ _ _) as [st|]; [|naive_solver]. split; [by eexists|done].
Qed.

(** C1. [validateRecordLog] accepts a recovery slice exactly when at most one
    operation is open, every deferred assistant entry carries its handle, and
    every record may follow the records before it in sequence order: its
    operation was started and is not finished, attempts of a step count up from
    1, a tool is dispatched once per call and names the call it serves, nothing is
    queued for an operation after its abort, a cancellation cancels the latest
    matching undelivered enqueue, and an entry that exists under a provisioned
    identifier has the provisioned content. *)
Theorem validateRecordLog_correct deepEqual input :
  NoDup (lr_seq <$> rl_records input) ->
  let byId := entry_map (rl_entries input) in
  validateRecordLog deepEqual input = Ok tt <->
  zlen (rl_openOperations input) <= 1 /\
  (forall e, e ∈ jm_values byId -> handle_missing e = false) /\
  (forall pre r post, sort_by lr_seq (rl_records input) = pre ++ r :: post ->
     record_ok deepEqual byId pre r).
Proof. apply validateRecordLog_iff. Qed.
