(* ===== verification/Context.v ===== *)
(** * The model context of a branch (packages/agent/src/harness/session/context.ts)
    and its conversion to provider messages (packages/agent/src/harness/messages.ts)

    Entry transforms and custom-entry projectors are callbacks: functions given to
    the definitions. *)
From S2P Require Import Prelude JsNumber SessionTypes JsonText Reducer ReducerValidation.

Record SessionContextState := {
  cs_thinkingLevel : string;
  cs_model : option (string * string);
  cs_activeToolNames : option (list string) }.
Record SessionContext := { ctx_state : SessionContextState; ctx_messages : list AgentMessage }.

Definition ContextEntryTransform := list Entry -> list Entry.
Definition CustomEntryContextMessageProjector :=
  Entry -> Z -> list Entry -> option (list AgentMessage).
Record SessionContextBuildOptions := {
  entryTransforms : list ContextEntryTransform;
  entryProjectors : string -> option CustomEntryContextMessageProjector }.
Definition no_options : SessionContextBuildOptions :=
  {| entryTransforms := []; entryProjectors := fun _ => None |}.

Definition derive_entry (s : SessionContextState) (entry : Entry) : SessionContextState :=
  match e_body entry with
  | ThinkingLevelEntry level =>
      {| cs_thinkingLevel := level; cs_model := cs_model s;
         cs_activeToolNames := cs_activeToolNames s |}
  | ModelChangeEntry provider modelId =>
      {| cs_thinkingLevel := cs_thinkingLevel s; cs_model := Some (provider, modelId);
         cs_activeToolNames := cs_activeToolNames s |}
  | MessageEntry (AssistantMsg m) _ =>
      {| cs_thinkingLevel := cs_thinkingLevel s; cs_model := Some (am_provider m, am_model m);
         cs_activeToolNames := cs_activeToolNames s |}
  | ActiveToolsEntry names =>
      {| cs_thinkingLevel := cs_thinkingLevel s; cs_model := cs_model s;
         cs_activeToolNames := Some names |}
  | _ => s
  end.
Definition deriveSessionContextState (pathEntries : list Entry) : SessionContextState :=
  foldl derive_entry
    {| cs_thinkingLevel := "off"; cs_model := None; cs_activeToolNames := None |} pathEntries.

(** The loop from the end: the newest compaction and its index. *)
Fixpoint find_compaction (fuel : nat) (pathEntries : list Entry) : option (Entry * nat) :=
  match fuel with
  | O => None
  | S index =>
      match pathEntries !! index with
      | Some entry => if is_type TCompaction entry then Some (entry, index)
                      else find_compaction index pathEntries
      | None => None
      end
  end.
Definition defaultContextEntryTransform (pathEntries : list Entry) : list Entry :=
  match find_compaction (length pathEntries) pathEntries with
  | None => pathEntries
  | Some (compaction, compactionIndex) => compaction :: drop (S compactionIndex) pathEntries
  end.

Definition buildContextEntries (pathEntries : list Entry) (options : SessionContextBuildOptions)
  : list Entry :=
  foldl (fun entries transform => transform entries)
    (defaultContextEntryTransform pathEntries) (entryTransforms options).

Definition createCompactionSummaryMessage (summary : string) (tokensBefore : number)
    (timestamp : number) : AgentMessage := CompactionSummaryMsg summary tokensBefore None timestamp.
Definition createBranchSummaryMessage (summary fromId : string) (timestamp : number) : AgentMessage :=
  BranchSummaryMsg summary fromId timestamp.
Definition createCustomMessage (customType : string) (content : user_content) (display : bool)
    (details : option json) (timestamp : number) : AgentMessage :=
  CustomMsg customType content display details timestamp.

Definition sessionEntryToContextMessages (entry : Entry) (index : Z) (entries : list Entry)
    (options : SessionContextBuildOptions) : list AgentMessage :=
  match e_body entry with
  | MessageEntry message _ =>
      match message with
      | AssistantMsg m => if bool_decide (am_stopReason m = StopDeferred) then [] else [message]
      | _ => [message]
      end
  | CompactionEntry summary retainedTail tokensBefore _ _ =>
      createCompactionSummaryMessage summary tokensBefore (num_of_Z (e_timestamp entry)) :: retainedTail
  | BranchSummaryEntry fromId summary _ _ =>
      if bool_decide (summary = "") then []
      else [createBranchSummaryMessage summary fromId (num_of_Z (e_timestamp entry))]
  | CustomEntry customType _ =>
      match entryProjectors options customType with
      | Some projector => default [] (projector entry index entries)
      | None => []
      end
  | _ => []
  end.

Definition buildSessionContext (pathEntries : list Entry) (options : SessionContextBuildOptions)
  : SessionContext :=
  let contextEntries := buildContextEntries pathEntries options in
  {| ctx_state := deriveSessionContextState pathEntries;
     ctx_messages := concat (map_index
       (fun index entry => sessionEntryToContextMessages entry index contextEntries options)
       0 contextEntries) |}.

(** ** Provider messages *)

Definition nl : string := String (Ascii.ascii_of_nat 10) EmptyString.
Definition fence : string := "```".
Definition COMPACTION_SUMMARY_PREFIX : string :=
  "The conversation history before this point was compacted into the following summary:"
    +:+ nl +:+ nl +:+ "<summary>" +:+ nl.
Definition COMPACTION_SUMMARY_SUFFIX : string := nl +:+ "</summary>".
Definition BRANCH_SUMMARY_PREFIX : string :=
  "The following is a summary of a branch that this conversation came back from:"
    +:+ nl +:+ nl +:+ "<summary>" +:+ nl.
Definition BRANCH_SUMMARY_SUFFIX : string := "</summary>".

Definition bashExecutionToText (msg : BashExecutionMessage) : string :=
  let text := "Ran `" +:+ bx_command msg +:+ "`" +:+ nl in
  let text := if bool_decide (bx_output msg = "") then text +:+ "(no output)"
              else text +:+ fence +:+ nl +:+ bx_output msg +:+ nl +:+ fence in
  let text :=
    if bx_cancelled msg then text +:+ nl +:+ nl +:+ "(command cancelled)"
    else match bx_exitCode msg with
         | Some code => if num_eq_Z code 0 then text
                        else text +:+ nl +:+ nl +:+ "Command exited with code " +:+ num_string code
         | None => text
         end in
  match bx_truncated msg, truthy (bx_fullOutputPath msg) with
  | true, Some path => text +:+ nl +:+ nl +:+ "[Output truncated. Full output: " +:+ path +:+ "]"
  | _, _ => text
  end.

Definition user_text (text : string) (timestamp : number) : AgentMessage :=
  UserMsg (Blocks [TextContent text None]) timestamp.

Definition convert_message (m : AgentMessage) : option AgentMessage :=
  match m with
  | BashExecutionMsg b =>
      match bx_excludeFromContext b with
      | Some true => None
      | _ => Some (user_text (bashExecutionToText b) (bx_timestamp b))
      end
  | CustomMsg _ c _ _ timestamp =>
      Some (UserMsg (Blocks match c with PlainText s => [TextContent s None] | Blocks l => l end)
              timestamp)
  | BranchSummaryMsg summary _ timestamp =>
      Some (user_text (BRANCH_SUMMARY_PREFIX +:+ summary +:+ BRANCH_SUMMARY_SUFFIX) timestamp)
  | CompactionSummaryMsg summary _ _ timestamp =>
      Some (user_text (COMPACTION_SUMMARY_PREFIX +:+ summary +:+ COMPACTION_SUMMARY_SUFFIX) timestamp)
  | UserMsg _ _ | AssistantMsg _ | ToolResultMsg _ => Some m
  | AppMsg _ _ => None
  end.
Definition convertToLlm (messages : list AgentMessage) : list AgentMessage :=
  omap convert_message messages.

(** ** Properties *)

Lemma find_compaction_spec n path :
  (n <= length path)%nat ->
  match find_compaction n path with
  | Some (c, i) => (i < n)%nat /\ path !! i = Some c /\ is_type TCompaction c = true /\
      forall j e, (i < j < n)%nat -> path !! j = Some e -> is_type TCompaction e = false
  | None => forall j e, (j < n)%nat -> path !! j = Some e -> is_type TCompaction e = false
  end.
Proof.
  induction n as [|n IH]; intros Hn; simpl; [intros; lia|].
  destruct (lookup_lt_is_Some_2 path n) as [e He]; [lia|]. rewrite He.
  destruct (is_type TCompaction e) eqn:Hc.
  - split_and!; [lia|done|done|]. intros; lia.
  - specialize (IH ltac:(lia)). destruct (find_compaction n path) as [[c i]|].
    + destruct IH as (Hi & Hl & Ht & Hrest). split_and!; [lia|done|done|]. intros j x Hj Hx.
      destruct (decide (j = n)) as [->|]; [by simplify_eq|]. apply (Hrest j); [lia|done].
    + intros j x Hj Hx. destruct (decide (j = n)) as [->|]; [by simplify_eq|].
      apply (IH j); [lia|done].
Qed.

Definition no_compaction (l : list Entry) : Prop := forall e, e ∈ l -> is_type TCompaction e = false.

Lemma transform_none path : no_compaction path -> defaultContextEntryTransform path = path.
Proof.
  intros Hno. unfold defaultContextEntryTransform.
  pose proof (find_compaction_spec (length path) path ltac:(lia)) as H.
  destruct (find_compaction _ _) as [[c i]|]; [|done]. destruct H as (_ & Hl & Ht & _).
  apply list_elem_of_lookup_2 in Hl. rewrite (Hno c Hl) in Ht. done.
Qed.
Lemma transform_compaction pre c post :
  is_type TCompaction c = true -> no_compaction post ->
  defaultContextEntryTransform (pre ++ c :: post) = c :: post.
Proof.
  intros Hc Hno. unfold defaultContextEntryTransform.
  pose proof (find_compaction_spec (length (pre ++ c :: post)) (pre ++ c :: post) ltac:(lia)) as H.
  assert (Hat : (pre ++ c :: post) !! length pre = Some c) by by apply list_lookup_middle.
  assert (Hlen : (length pre < length (pre ++ c :: post))%nat)
    by (rewrite length_app; simpl; lia).
  destruct (find_compaction _ _) as [[c' i]|].
  - destruct H as (Hi & Hl & Ht & Hrest).
    assert (i = length pre) as ->.
    { destruct (lt_eq_lt_dec i (length pre)) as [[Hlt| ->]|Hgt]; [|done|].
      - specialize (Hrest (length pre) c (conj Hlt Hlen) Hat). congruence.
      - rewrite lookup_app_r in Hl by lia.
        destruct (i - length pre)%nat as [|k] eqn:Hk; [lia|]. simpl in Hl.
        apply list_elem_of_lookup_2 in Hl. rewrite (Hno c' Hl) in Ht. done. }
    rewrite Hat in Hl. injection Hl as ->. f_equal.
    rewrite drop_app_ge by lia. by replace (S (length pre) - length pre)%nat with 1%nat by lia.
  - specialize (H _ _ Hlen Hat). congruence.
Qed.

(** Every path has a newest compaction or none. *)
Lemma compaction_cases path :
  no_compaction path \/
  exists pre c post, path = pre ++ c :: post /\ is_type TCompaction c = true /\ no_compaction post.
Proof.
  induction path as [|e path IH]; [left; by intros e ?%not_elem_of_nil|].
  destruct IH as [Hno|(pre & c & post & -> & Hc & Hno)].
  - destruct (is_type TCompaction e) eqn:He.
    + right. by exists [], e, path.
    + left. intros x [->|Hx]%elem_of_cons; auto.
  - right. by exists (e :: pre), c, post.
Qed.

Lemma no_compaction_snoc l e :
  no_compaction l -> is_type TCompaction e = false -> no_compaction (l ++ [e]).
Proof. intros Hl He x [Hx|Hx%list_elem_of_singleton]%elem_of_app; [by apply Hl|by subst]. Qed.

Lemma transform_snoc path e :
  is_type TCompaction e = false ->
  defaultContextEntryTransform (path ++ [e]) = defaultContextEntryTransform path ++ [e].
Proof.
  intros He. destruct (compaction_cases path) as [Hno|(pre & c & post & -> & Hc & Hno)].
  - rewrite !transform_none; [done|done|by apply no_compaction_snoc].
  - rewrite <-(assoc_L (++)). simpl. rewrite !transform_compaction; [done|done|done|done|].
    by apply no_compaction_snoc.
Qed.
Lemma transform_snoc_compaction path e :
  is_type TCompaction e = true -> defaultContextEntryTransform (path ++ [e]) = [e].
Proof. intros He. apply transform_compaction; [done|by intros x ?%not_elem_of_nil]. Qed.

Lemma map_index_app {A B} (f : Z -> A -> B) i l k :
  map_index f i (l ++ k) = map_index f i l ++ map_index f (i + zlen l) k.
Proof.
  revert i. induction l as [|x l IH]; intros i; simpl; [by rewrite Z.add_0_r|].
  rewrite IH, zlen_cons. do 3 f_equal. lia.
Qed.
Lemma map_index_ext {A B} (f g : Z -> A -> B) i l :
  (forall j x, f j x = g j x) -> map_index f i l = map_index g i l.
Proof. intros H. revert i. induction l as [|x l IH]; intros i; simpl; [done|]. by rewrite H, IH. Qed.

(** Without callbacks the model context grows with the branch: an entry that
    is not a compaction adds its own messages at the end, and a compaction entry
    replaces everything before it by its summary and its retained tail. *)
Theorem context_incremental path e :
  let messages p := ctx_messages (buildSessionContext p no_options) in
  messages (path ++ [e]) =
  match e_body e with
  | CompactionEntry summary retainedTail tokensBefore _ _ =>
      CompactionSummaryMsg summary tokensBefore None (num_of_Z (e_timestamp e)) :: retainedTail
  | _ => messages path ++ sessionEntryToContextMessages e 0 [] no_options
  end.
Proof.
  cbv zeta. unfold buildSessionContext, buildContextEntries. simpl.
  destruct (is_type TCompaction e) eqn:He.
  - rewrite transform_snoc_compaction by done. unfold is_type, e_type in He.
    apply bool_decide_eq_true in He. simpl. unfold sessionEntryToContextMessages.
    destruct (e_body e); try discriminate He. by rewrite app_nil_r.
  - rewrite transform_snoc by done. rewrite map_index_app, concat_app. simpl. rewrite app_nil_r.
    unfold is_type, e_type in He. apply bool_decide_eq_false in He.
    assert (Hstep : forall i es, sessionEntryToContextMessages e i es no_options
                    = sessionEntryToContextMessages e 0 [] no_options) by done.
    rewrite Hstep.
    rewrite (map_index_ext _ (fun index entry => sessionEntryToContextMessages entry index
               (defaultContextEntryTransform path) no_options)) by done.
    destruct (e_body e); try done.
Qed.

(** [convertToLlm] sends only provider roles, keeps provider messages as they
    are and the order of all, and drops exactly the excluded shell executions and
    the messages of unknown roles. *)
Theorem convertToLlm_spec messages :
  Forall (fun m => message_role m ∈ [RoleUser; RoleAssistant; RoleToolResult]) (convertToLlm messages) /\
  convertToLlm (convertToLlm messages) = convertToLlm messages /\
  length (convertToLlm messages) =
    length (keep (fun m => match m with
                           | BashExecutionMsg b => negb (bool_decide (bx_excludeFromContext b = Some true))
                           | AppMsg _ _ => false
                           | _ => true
                           end) messages).
Proof.
  unfold convertToLlm. induction messages as [|m messages (IH1 & IH2 & IH3)]; [done|]. csimpl.
  assert (Hrole : forall x, message_role x ∈ [RoleUser; RoleAssistant; RoleToolResult] ->
    Forall (fun m => message_role m ∈ [RoleUser; RoleAssistant; RoleToolResult])
      (x :: omap convert_message messages)) by by constructor.
  destruct m as [| | |b| | | |]; simpl;
    try (split_and!; [apply Hrole; simpl; set_solver|f_equal; exact IH2|f_equal; exact IH3]).
  - destruct (bx_excludeFromContext b) as [[]|]; simpl; [done|..];
      (split_and!; [apply Hrole; simpl; set_solver|f_equal; exact IH2|f_equal; exact IH3]).
  - done.
Qed.

(** ** The reducer's configuration is the context's *)

Definition context_of_configuration (d c : EffectiveLaneConfiguration) (s : SessionContextState) : Prop :=
  (ec_provider c, ec_modelId c) = default (ec_provider d, ec_modelId d) (cs_model s) /\
  ec_activeToolNames c = default (ec_activeToolNames d) (cs_activeToolNames s) /\
  (ec_thinkingLevel d = "off" -> ec_thinkingLevel c = cs_thinkingLevel s).

Lemma configure_derive d c s e :
  context_of_configuration d c s -> context_of_configuration d (configure c e) (derive_entry s e).
Proof.
  unfold context_of_configuration, configure, derive_entry. intros (Hm & Ha & Ht).
  destruct (e_body e) as [m term| | | | | |]; simpl; try done.
  by destruct m.
Qed.

Lemma entry_map_id es : NoDup (e_id <$> es) -> entry_map es = (fun e => (e_id e, e)) <$> es.
Proof.
  unfold entry_map, jm_of_list. intros Hnd.
  assert (Hgen : forall m : entryMap, (forall e, e ∈ es -> jm_get (e_id e) m = None) ->
    foldl (fun m kv => jm_set kv.1 kv.2 m) m ((fun e => (e_id e, e)) <$> es)
    = m ++ ((fun e => (e_id e, e)) <$> es)).
  { induction es as [|e es IH]; intros m Hm; csimpl; [by rewrite app_nil_r|].
    csimpl in Hnd. apply NoDup_cons in Hnd as [Hni Hnd].
    rewrite jm_set_fresh by (apply Hm; by left). rewrite (IH Hnd).
    - by rewrite <-(assoc_L (++)).
    - intros x Hx. apply jm_get_None. unfold jm_keys. rewrite fmap_app. csimpl.
      rewrite elem_of_app, list_elem_of_singleton. intros [Hin|Heq].
      + specialize (Hm x). rewrite jm_get_None in Hm. apply Hm; [by right|done].
      + apply Hni. rewrite <-Heq. by apply list_elem_of_fmap_2. }
  by rewrite Hgen.
Qed.
Lemma entry_map_values es : NoDup (e_id <$> es) -> jm_values (entry_map es) = es.
Proof.
  intros Hnd. rewrite entry_map_id by done. unfold jm_values.
  rewrite <-list_fmap_compose. apply list_fmap_id.
Qed.
Lemma entry_map_get es e : NoDup (e_id <$> es) -> e ∈ es -> jm_get (e_id e) (entry_map es) = Some e.
Proof.
  intros Hnd He. rewrite entry_map_id by done. apply jm_elem_get.
  - unfold jm_keys. by rewrite <-list_fmap_compose.
  - apply list_elem_of_fmap. by exists e.
Qed.

(** The configuration recovered by the reducer from a lane's configuration
    and own entries, in whatever order they were fetched, is the one the session
    context derives from the same path of the tree: the newest model, thinking
    level and tool selection win, and harness defaults fill only what the path
    never set. *)
Theorem effective_configuration_is_context input path :
  StronglySorted (key_lt e_seq) path -> NoDup (e_id <$> path) ->
  li_configurationEntries input ++ li_ownEntries input ≡ₚ path ->
  context_of_configuration (li_defaults input) (deriveEffectiveConfiguration input)
    (deriveSessionContextState path).
Proof.
  intros Hs Hnd Hp. unfold deriveEffectiveConfiguration, bySequence_entries.
  rewrite entry_map_values by by rewrite Hp.
  assert (Hkeys : NoDup (e_seq <$> path)).
  { clear Hp Hnd. induction Hs as [|e l Hs IH Hall]; csimpl; [constructor|].
    apply NoDup_cons. split; [|done]. intros (x & Heq & Hx)%list_elem_of_fmap.
    rewrite Forall_forall in Hall. specialize (Hall x Hx). unfold key_lt in Hall. lia. }
  rewrite (sort_by_permutation e_seq _ path); [|by rewrite Hp|done].
  rewrite sort_by_id by by apply strict_sorted_le.
  unfold deriveSessionContextState.
  assert (Hgen : forall c s, context_of_configuration (li_defaults input) c s ->
    context_of_configuration (li_defaults input) (foldl configure c path) (foldl derive_entry s path)).
  { clear. induction path as [|e path IH]; intros c s H; simpl; [done|].
    by apply IH, configure_derive. }
  by apply Hgen.
Qed.
