(* ===== verification/ReducerTheorems.v ===== *)
(** * What the lane reducer promises

    The reduction does not depend on the order its inputs were fetched in, the
    pause flag and the queues are what the history says, a recovered tool batch
    never pairs a dispatch with another call, and a session kept by a storage that
    obeys the storage interface never shows two open operations. *)
From S2P Require Import Prelude JsNumber SessionTypes SessionState SessionInvariant SessionTheorems SessionFork.
From S2P Require Import MemoryStorage MemoryTheorems Reducer ReducerValidation Context.

(** ** Order independence *)

Lemma NoDup_fmap_perm {A B} (f : A -> B) l k : l ≡ₚ k -> NoDup (f <$> l) -> NoDup (f <$> k).
Proof. intros Hp. by rewrite Hp. Qed.

(** The reduction depends on the records and the own entries of a lane as
    sets: fetching them in another order gives the same state, the same
    configuration and the same rejection. *)
Theorem reduceLaneState_permutation deepEqual slice records' leafId own own' cfg defaults :
  NoDup (lr_seq <$> rl_records slice) -> NoDup (e_seq <$> own) ->
  NoDup (e_id <$> cfg ++ own) -> NoDup (e_seq <$> cfg ++ own) ->
  rl_records slice ≡ₚ records' -> own ≡ₚ own' ->
  let input recs o := {|
    li_slice := {| rl_lane := rl_lane slice; rl_openOperations := rl_openOperations slice;
                   rl_records := recs; rl_entries := rl_entries slice |};
    li_leafId := leafId; li_ownEntries := o; li_configurationEntries := cfg;
    li_defaults := defaults |} in
  reduceLaneState deepEqual (input (rl_records slice) own)
  = reduceLaneState deepEqual (input records' own').
Proof.
  intros Hr Ho Hcid Hcseq Hpr Hpo. cbv zeta.
  unfold reduceLaneState, validateRecordLog, bySequence_records, bySequence_entries. simpl.
  rewrite <-(sort_by_permutation lr_seq (rl_records slice) records') by done.
  rewrite <-(sort_by_permutation e_seq own own') by done.
  assert (Hcfg : forall recs, deriveEffectiveConfiguration
    {| li_slice := {| rl_lane := rl_lane slice; rl_openOperations := rl_openOperations slice;
                      rl_records := recs; rl_entries := rl_entries slice |};
       li_leafId := leafId; li_ownEntries := own'; li_configurationEntries := cfg;
       li_defaults := defaults |}
    = deriveEffectiveConfiguration
    {| li_slice := slice;
       li_leafId := leafId; li_ownEntries := own; li_configurationEntries := cfg;
       li_defaults := defaults |}).
  { intros recs. unfold deriveEffectiveConfiguration, bySequence_entries. simpl.
    assert (Hp : cfg ++ own ≡ₚ cfg ++ own') by by rewrite Hpo.
    rewrite !entry_map_values; [|done|by eapply NoDup_fmap_perm].
    f_equal. symmetry. by apply sort_by_permutation. }
  rewrite (Hcfg records'). done.
Qed.

(** ** Pausing *)

Definition pause_of (r : LaneRecord) : option bool :=
  match lr_body r with RPauseRequested _ => Some true | RPauseCleared _ => Some false | _ => None end.

Lemma derive_pausing_fold rs a b :
  StronglySorted (key_lt lr_seq) rs -> Forall (fun r => a < lr_seq r /\ b < lr_seq r) rs ->
  let '(p, c) := foldl pause_step (a, b) rs in
  (c <? p) = match last (omap pause_of rs) with Some x => x | None => b <? a end /\
  (forall s, Forall (fun r => lr_seq r < s) rs -> a < s -> b < s -> p < s /\ c < s).
Proof.
  revert a b. induction rs as [|r rs IH] using rev_ind; intros a b Hs Hall; [simpl; split; [done|lia]|].
  apply StronglySorted_app in Hs as (Hlt & Hs & _). apply Forall_app in Hall as [Hall Hr].
  rewrite Forall_singleton in Hr. destruct Hr as [Ha Hb]. specialize (IH a b Hs Hall).
  rewrite foldl_app. destruct (foldl pause_step (a, b) rs) as [p c]. destruct IH as [IH Hbound].
  destruct (Hbound (lr_seq r)) as [Hp Hc]; [|done|done|].
  { apply Forall_forall. intros x Hx. apply (Hlt x r Hx). by left. }
  rewrite last_omap_snoc. simpl. unfold pause_step, pause_of.
  assert (Hbd : forall s, Forall (fun r => lr_seq r < s) (rs ++ [r]) -> a < s -> b < s -> p < s /\ c < s /\ lr_seq r < s).
  { intros s [Hf Hr]%Forall_app. rewrite Forall_singleton in Hr. intros Has Hbs. destruct (Hbound s Hf Has Hbs). simpl in Hr. lia. }
  destruct (lr_body r); simpl; (split; [try exact IH|intros s Hf Has Hbs; specialize (Hbd s Hf Has Hbs); lia]).
  - apply Z.ltb_lt. lia.
  - apply Z.ltb_ge. lia.
Qed.

(** An operation is pausing exactly when the newest of its pause requests and
    pause clearances is a request. *)
Theorem pausing_is_newest rs :
  StronglySorted (key_lt lr_seq) rs -> Forall (fun r => 0 <= lr_seq r) rs ->
  derive_pausing rs = match last (omap pause_of rs) with Some b => b | None => false end.
Proof.
  intros Hs Hall. unfold derive_pausing.
  assert (Hall' : Forall (fun r => -1 < lr_seq r /\ -1 < lr_seq r) rs).
  { eapply Forall_impl; [exact Hall|]. simpl. lia. }
  pose proof (derive_pausing_fold rs (-1) (-1) Hs Hall') as H.
  destruct (foldl pause_step (-1, -1) rs) as [p c]. by destruct H as [-> _].
Qed.

(** ** Queues *)

Lemma elem_of_pending_of pending k run t :
  t ∈ pending_of pending k run <->
  exists q, q ∈ pending /\ qe_queue q = k /\ qe_runId q = Some run /\ qe_target q = t.
Proof.
  unfold pending_of. rewrite list_elem_of_fmap. split.
  - intros (q & -> & Hq). rewrite elem_of_keep, andb_true_iff, !bool_decide_eq_true in Hq.
    exists q. tauto.
  - intros (q & Hq & <- & <- & <-). exists q. split; [done|].
    by rewrite elem_of_keep, andb_true_iff, !bool_decide_eq_true.
Qed.

Lemma elem_of_pending records byId q :
  q ∈ pending_queue records byId <->
  (exists r, r ∈ records /\ lr_body r = RQueueEnqueued q) /\
  jm_get (pe_id (qe_target q)) byId = None /\
  ~ exists r c, r ∈ records /\ lr_body r = RQueueCancelled c /\ qc_entryId c = pe_id (qe_target q).
Proof.
  unfold pending_queue. rewrite elem_of_keep, list_elem_of_omap, andb_true_iff, !negb_true_iff,
    jm_has_false, bool_decide_eq_false, elem_of_list_to_set, list_elem_of_fmap.
  unfold as_queue_enqueued. split.
  - intros [(r & Hr & Hq) [Hd Hc]]. destruct (lr_body r) eqn:Hb; simplify_eq.
    split; [by exists r|]. split; [done|]. intros (r' & c & Hr' & Hb' & Hid). apply Hc.
    exists c. split; [done|]. apply list_elem_of_omap. exists r'. unfold as_queue_cancelled. by rewrite Hb'.
  - intros [(r & Hr & Hb) [Hd Hc]]. split; [exists r; by rewrite Hb|]. split; [done|].
    intros (c & Hid & Hc'). apply Hc. apply list_elem_of_omap in Hc' as (r' & Hr' & Hb').
    unfold as_queue_cancelled in Hb'. destruct (lr_body r') eqn:Hb2; simplify_eq. by exists r', c.
Qed.

Lemma reduce_unfold deepEqual input res :
  reduceLaneState deepEqual input = Ok res ->
  validateRecordLog deepEqual (li_slice input) = Ok tt /\
  forall op, ls_operation (lrr_laneState res) = Some op ->
  exists s, head (rl_openOperations (li_slice input)) = Some s /\
    op = reduce_operation s (sort_by lr_seq (rl_records (li_slice input)))
           (sort_by e_seq (li_ownEntries input))
           (entry_map (rl_entries (li_slice input) ++ sort_by e_seq (li_ownEntries input)))
           (pending_queue (sort_by lr_seq (rl_records (li_slice input)))
             (entry_map (rl_entries (li_slice input) ++ sort_by e_seq (li_ownEntries input)))).
Proof.
  unfold reduceLaneState. mrun. rewrite bind_unit_Ok. intros [Hv Hres]. split; [done|].
  injection Hres as <-. destruct (head _) as [s|]; simpl; [|done].
  intros op [= <-]. by exists s.
Qed.

Lemma reduce_operation_id deepEqual input res :
  reduceLaneState deepEqual input = Ok res ->
  op_id <$> ls_operation (lrr_laneState res) = osr_id <$> head (rl_openOperations (li_slice input)).
Proof.
  unfold reduceLaneState. mrun. rewrite bind_unit_Ok. intros [_ [= <-]]. by destruct (head _).
Qed.

(** What a recovered operation still has to deliver: a steering or follow-up
    message is pending exactly when it was enqueued for this operation, its entry
    does not exist, no cancellation names it and the operation is not aborting. *)
Theorem pending_messages_spec deepEqual input res op t :
  reduceLaneState deepEqual input = Ok res -> ls_operation (lrr_laneState res) = Some op ->
  let byId := entry_map (rl_entries (li_slice input) ++ sort_by e_seq (li_ownEntries input)) in
  let waiting k := exists q r, r ∈ rl_records (li_slice input) /\ lr_body r = RQueueEnqueued q /\
    qe_queue q = k /\ qe_runId q = Some (op_id op) /\ qe_target q = t /\
    jm_get (pe_id t) byId = None /\
    ~ (exists r' c, r' ∈ rl_records (li_slice input) /\ lr_body r' = RQueueCancelled c /\
         qc_entryId c = pe_id t) in
  let aborted := exists r, r ∈ rl_records (li_slice input) /\ lr_body r = RAbortRequested (op_id op) in
  (op_aborting op = true <-> aborted) /\
  (t ∈ op_pendingSteer op <-> waiting QSteer /\ ~ aborted) /\
  (t ∈ op_pendingFollowUp op <-> waiting QFollowUp /\ ~ aborted).
Proof.
  intros Hred Hop. cbv zeta. apply reduce_unfold in Hred as [_ Hred].
  destruct (Hred op Hop) as (s & _ & ->). clear Hred Hop.
  set (records := sort_by lr_seq (rl_records (li_slice input))).
  set (byId := entry_map _).
  assert (Hin : forall r, r ∈ rl_records (li_slice input) <-> r ∈ records)
    by (intros r; symmetry; apply elem_of_sort_by).
  set (aborting := existsb is_abort (keep (belongs_to (osr_id s)) records)).
  assert (Hab : aborting = true <->
    exists r, r ∈ rl_records (li_slice input) /\ lr_body r = RAbortRequested (osr_id s)).
  { unfold aborting. rewrite existsb_exists. unfold is_abort. split.
    - intros (r & Hr & Hb). apply list_elem_of_In, elem_of_keep in Hr as [Hr Hbel].
      exists r. split; [by apply Hin|]. unfold belongs_to, lr_runId in Hbel.
      destruct (lr_body r) eqn:Hbody; try done. apply bool_decide_eq_true in Hbel. by simplify_eq.
    - intros (r & Hr & Hb). exists r. rewrite Hb. split; [|done]. apply list_elem_of_In, elem_of_keep.
      split; [by apply Hin|]. unfold belongs_to, lr_runId. rewrite Hb. by apply bool_decide_eq_true. }
  assert (Hq : forall k, t ∈ (if aborting then [] else pending_of (pending_queue records byId) k (osr_id s)) <->
    (exists q r, r ∈ rl_records (li_slice input) /\ lr_body r = RQueueEnqueued q /\
      qe_queue q = k /\ qe_runId q = Some (osr_id s) /\ qe_target q = t /\ jm_get (pe_id t) byId = None /\
      ~ (exists r' c, r' ∈ rl_records (li_slice input) /\ lr_body r' = RQueueCancelled c /\
           qc_entryId c = pe_id t)) /\
    ~ (exists r, r ∈ rl_records (li_slice input) /\ lr_body r = RAbortRequested (osr_id s))).
  { intros k. rewrite <-Hab. destruct aborting.
    - split; [by intros ?%not_elem_of_nil|]. intros [_ H]. by destruct H.
    - rewrite elem_of_pending_of. setoid_rewrite elem_of_pending. setoid_rewrite Hin. split.
      + intros (q & ((r & Hr & Hb) & Hd & Hc) & Hk & Hrun & Ht). subst t. split; [|done].
        exists q, r. done.
      + intros [(q & r & Hr & Hb & Hk & Hrun & Ht & Hd & Hc) _]. subst t. exists q.
        split; [|done]. split; [by exists r|done]. }
  split; [exact Hab|]. split; apply Hq.
Qed.

(** ** The recovered tool batch *)

Lemma map_index_lookup {A B} (f : Z -> A -> B) i l k :
  map_index f i l !! k = f (i + Z.of_nat k) <$> l !! k.
Proof.
  revert i k. induction l as [|x l IH]; intros i [|k]; simpl; try done.
  - by rewrite Z.add_0_r.
  - rewrite IH. f_equal. f_equal. lia.
Qed.

Definition tool_start_at (opId aid : string) (i : Z) (r : LaneRecord) : option ToolStartedRecord :=
  match as_tool_started r with
  | Some t => if bool_decide (ts_runId (tsr t) = opId) && bool_decide (ts_assistantEntryId (tsr t) = aid)
                 && bool_decide (ts_toolIndex (tsr t) = i) then Some t else None
  | None => None
  end.

Lemma tool_starts_lookup opId aid i rs :
  tool_starts opId aid rs !! i = last (omap (tool_start_at opId aid i) rs).
Proof.
  induction rs as [|r rs IH] using rev_ind; [done|].
  unfold tool_starts in *. rewrite foldl_app, last_omap_snoc. simpl. unfold tool_start_at at 1.
  destruct (as_tool_started r) as [t|]; [|done].
  destruct (bool_decide (ts_runId (tsr t) = opId) && bool_decide (ts_assistantEntryId (tsr t) = aid)); simpl; [|done].
  rewrite lookup_insert. case_bool_decide; by case_decide.
Qed.

Lemma tool_start_at_Some opId aid i r t :
  tool_start_at opId aid i r = Some t <->
  lr_body r = RToolStarted (tsr t) /\ tsr_base t = lr_base r /\
  ts_runId (tsr t) = opId /\ ts_assistantEntryId (tsr t) = aid /\ ts_toolIndex (tsr t) = i.
Proof.
  unfold tool_start_at, as_tool_started. destruct (lr_body r) as [| | | | | |x| | | | | | |] eqn:Hb;
    try (by split; [intros [=]|intros ([=] & _)]).
  destruct (bool_decide _ && bool_decide _ && bool_decide _) eqn:Hc; simpl in Hc.
  - rewrite !andb_true_iff, !bool_decide_eq_true in Hc. destruct Hc as [[? ?] ?]. split.
    + intros [= <-]. done.
    + intros ([= ->] & Hbase & _). destruct t; simpl in *. by subst.
  - split; [done|]. intros ([= ->] & _ & ? & ? & ?). rewrite !bool_decide_true in Hc by done. done.
Qed.

Lemma unique_last {A B} (f : A -> option B) l x y :
  x ∈ l -> f x = Some y -> (forall x' y', x' ∈ l -> f x' = Some y' -> y' = y) ->
  last (omap f l) = Some y.
Proof.
  intros Hx Hy Hu. destruct (last (omap f l)) as [y'|] eqn:Hl.
  - f_equal. apply last_Some_elem_of, list_elem_of_omap in Hl as (x' & Hx' & Hy'). by eapply Hu.
  - rewrite last_omap_None in Hl. rewrite (Hl x Hx) in Hy. done.
Qed.

Lemma elem_of_split_sorted deepEqual slice r :
  NoDup (lr_seq <$> rl_records slice) -> validateRecordLog deepEqual slice = Ok tt ->
  r ∈ sort_by lr_seq (rl_records slice) ->
  exists pre, record_ok deepEqual (entry_map (rl_entries slice)) pre r.
Proof.
  intros Hnd Hv Hr. apply validateRecordLog_iff in Hv as (_ & _ & H); [|done].
  apply list_elem_of_split in Hr as (pre & post & Heq). exists pre. by eapply H.
Qed.

(** Two dispatches of one invocation are the same record. *)
Lemma tool_starts_distinct deepEqual slice r r' t t' :
  NoDup (lr_seq <$> rl_records slice) -> validateRecordLog deepEqual slice = Ok tt ->
  r ∈ sort_by lr_seq (rl_records slice) -> r' ∈ sort_by lr_seq (rl_records slice) ->
  lr_body r = RToolStarted t -> lr_body r' = RToolStarted t' ->
  ts_assistantEntryId t = ts_assistantEntryId t' -> ts_toolIndex t = ts_toolIndex t' -> r = r'.
Proof.
  intros Hnd Hv Hr Hr' Hb Hb' Ha Hi. apply validateRecordLog_iff in Hv as (_ & _ & H); [|done].
  assert (Hno : forall pre x post xt, sort_by lr_seq (rl_records slice) = pre ++ x :: post ->
    lr_body x = RToolStarted xt -> ~ invoked_in pre xt).
  { intros pre x post xt Heq Hbx. destruct (H pre x post Heq) as [_ Hok].
    rewrite Hbx in Hok. apply Hok. }
  apply list_elem_of_split in Hr as (pre & post & Heq).
  pose proof Hr' as Hin. rewrite Heq in Hin. apply elem_of_app in Hin as [Hin|Hin].
  - exfalso. apply (Hno pre r post t Heq Hb). by exists r', t'.
  - apply elem_of_cons in Hin as [->|Hin]; [done|]. exfalso.
    apply list_elem_of_split in Hin as (p2 & post2 & ->).
    apply (Hno (pre ++ r :: p2) r' post2 t'); [by rewrite <-(assoc_L (++))|done|].
    exists r, t. split_and!; try done. set_solver.
Qed.

(** A recovered tool batch pairs dispatches with the right calls: a call
    marked as started carries a dispatch of this operation for exactly this
    assistant entry, ordinal, call identifier and tool name; every dispatch of the
    operation for the batch's entry is attached to the call at its ordinal; and the
    batch is resolved exactly when every call has a result. *)
Theorem toolBatch_sound deepEqual input res op batch :
  NoDup (lr_seq <$> rl_records (li_slice input)) ->
  NoDup (e_id <$> rl_entries (li_slice input)) ->
  (forall e, e ∈ li_ownEntries input -> e ∈ rl_entries (li_slice input)) ->
  reduceLaneState deepEqual input = Ok res -> ls_operation (lrr_laneState res) = Some op ->
  op_toolBatch op = Some batch ->
  (forall k call t, tb_calls batch !! k = Some call -> tbc_started call = Some t ->
     ts_runId (tsr t) = op_id op /\ ts_assistantEntryId (tsr t) = tb_assistantEntryId batch /\
     ts_toolIndex (tsr t) = Z.of_nat k /\ tbc_toolIndex call = Z.of_nat k /\
     ts_toolCallId (tsr t) = tc_id (tbc_toolCall call) /\
     ts_toolName (tsr t) = tc_name (tbc_toolCall call)) /\
  (forall r t, r ∈ rl_records (li_slice input) -> lr_body r = RToolStarted t ->
     ts_runId t = op_id op -> ts_assistantEntryId t = tb_assistantEntryId batch ->
     exists k call, ts_toolIndex t = Z.of_nat k /\ tb_calls batch !! k = Some call /\
       tbc_started call = Some {| tsr_base := lr_base r; tsr := t |}) /\
  (tb_unresolved batch = false <-> forall call, call ∈ tb_calls batch -> tbc_resultExists call = true).
Proof.
  intros Hseq Hids Hown Hred Hop Hbatch. apply reduce_unfold in Hred as [Hv Hred].
  destruct (Hred op Hop) as (s & _ & ->). clear Hred Hop. simpl in *.
  set (records := sort_by lr_seq (rl_records (li_slice input))) in *.
  set (oprecs := keep (belongs_to (osr_id s)) records) in *.
  unfold deriveToolBatch in Hbatch.
  destruct (head _) as [ae|] eqn:Hae; [|done].
  destruct (entry_assistant ae) as [m|] eqn:Hm; [|done]. injection Hbatch as <-. simpl.
  assert (Haein : jm_get (e_id ae) (entry_map (rl_entries (li_slice input))) = Some ae).
  { apply entry_map_get; [done|]. apply Hown. apply (elem_of_sort_by e_seq).
    apply head_Some_elem_of, elem_of_keep in Hae as [Hae _]. by rewrite elem_of_reverse in Hae. }
  assert (Hrec : forall r t, r ∈ records -> lr_body r = RToolStarted t ->
    ts_assistantEntryId t = e_id ae ->
    exists c, at_index (tool_calls m) (ts_toolIndex t) = Some c /\
      tc_id c = ts_toolCallId t /\ tc_name c = ts_toolName t).
  { intros r t Hr Hb Ht. destruct (elem_of_split_sorted _ _ r Hseq Hv Hr) as (pre & _ & Hok).
    rewrite Hb in Hok. destruct Hok as [_ [(e & m' & c & He & Hm' & Hc & ?) _]].
    rewrite Ht, Haein in He. simplify_eq. by exists c. }
  split_and!.
  - intros k call t Hk Hst. rewrite map_index_lookup in Hk.
    destruct (tool_calls m !! k) as [tc|] eqn:Htc; [|done]. simpl in Hk. injection Hk as <-.
    simpl in *. rewrite tool_starts_lookup in Hst.
    apply last_Some_elem_of, list_elem_of_omap in Hst as (r & Hr & Hst).
    apply tool_start_at_Some in Hst as (Hb & _ & Hrun & Haid & Hidx).
    apply elem_of_keep in Hr as [Hr _].
    destruct (Hrec r (tsr t) Hr Hb Haid) as (c & Hc & ? & ?).
    assert (Hk : ts_toolIndex (tsr t) = Z.of_nat k) by lia.
    rewrite Hk, at_index_nat, Htc in Hc. injection Hc as <-. split_and!; try done.
  - intros r t Hr Hb Hrun Haid. apply (elem_of_sort_by lr_seq) in Hr.
    destruct (Hrec r t Hr Hb Haid) as (c & Hc & ? & ?). unfold at_index in Hc.
    destruct (Z.ltb_spec (ts_toolIndex t) 0); [done|].
    exists (Z.to_nat (ts_toolIndex t)). eexists. split; [lia|]. rewrite map_index_lookup, Hc.
    split; [done|]. simpl. rewrite tool_starts_lookup.
    apply (unique_last _ oprecs r).
    + apply elem_of_keep. split; [done|]. unfold belongs_to, lr_runId. rewrite Hb.
      by apply bool_decide_eq_true; rewrite Hrun.
    + apply tool_start_at_Some. simpl. split_and!; try done. lia.
    + intros r' t' Hr' Ht'. apply elem_of_keep in Hr' as [Hr' _].
      apply tool_start_at_Some in Ht' as (Hb' & Hbase' & _ & Haid' & Hidx').
      assert (r = r') as <-.
      { eapply (tool_starts_distinct deepEqual (li_slice input) r r' t (tsr t')); try done.
        - by rewrite Haid'.
        - rewrite Hidx'. lia. }
      destruct t'; simpl in *. congruence.
  - rewrite <-not_true_iff_false, existsb_exists. split.
    + intros H call Hcall. destruct (tbc_resultExists call) eqn:He; [done|]. destruct H.
      exists call. split; [by apply list_elem_of_In|by rewrite He].
    + intros H (call & Hcall%list_elem_of_In & He). by rewrite (H call Hcall) in He.
Qed.

(** ** Recovery on top of a storage *)

(** A check that cannot report [multiple_open_operations]. *)
Definition other_reason {A} (r : result RecordLogCorruption A) : Prop :=
  forall e, r = Err e -> rc_reason e <> multiple_open_operations.

Lemma other_Ok {A} (x : A) : other_reason (Ok x).
Proof. by intros e. Qed.
Lemma other_corrupt {A} k m : k <> multiple_open_operations -> other_reason (@corrupt A k m).
Proof. by intros Hk e [= <-]. Qed.
Lemma other_if c k m : k <> multiple_open_operations -> other_reason (corrupt_if c k m).
Proof. intros Hk. destruct c; [by apply other_corrupt|apply other_Ok]. Qed.
Lemma other_bind {A B} (r : result RecordLogCorruption A) (k : A -> result RecordLogCorruption B) :
  other_reason r -> (forall x, other_reason (k x)) -> other_reason (r ≫= k).
Proof. intros Hr Hk. destruct r as [x|e]; simpl; [apply Hk|]. intros e' [= <-]. by apply Hr. Qed.

Ltac other :=
  repeat first
    [ apply other_Ok | apply other_corrupt; discriminate | apply other_if; discriminate
    | apply other_bind; [|intros ?] | case_match ].

Lemma other_forR {A} (l : list A) f : (forall x, other_reason (f x)) -> other_reason (forR l f).
Proof. intros Hf. induction l as [|x l IH]; simpl; [apply other_Ok|]. apply other_bind; auto. Qed.
Lemma other_exact deepEqual byId t : other_reason (validateExactProvisionedEntry deepEqual byId t).
Proof. unfold validateExactProvisionedEntry. other. Qed.
Lemma other_result byId id p d : other_reason (validateResultEntry byId id p d).
Proof. unfold validateResultEntry. other. Qed.
Lemma other_tool id t byId inv : other_reason (validateToolStart id t byId inv).
Proof.
  unfold validateToolStart. apply other_bind; [other|intros _].
  destruct (_ ≫= entry_assistant); [|other].
  apply other_bind; [other|intros _]. apply other_bind; [apply other_result|intros _; other].
Qed.
Lemma other_intent deepEqual byId i : other_reason (validateOperationResult deepEqual byId i).
Proof.
  unfold validateOperationResult. destruct i; [apply other_forR, other_exact|apply other_result|].
  case_match; [apply other_result|other].
Qed.
Lemma other_scan_record deepEqual rs byId st r : other_reason (scan_record deepEqual rs byId st r).
Proof.
  unfold scan_record, reconciliation_mismatch.
  destruct (lr_body r); (apply other_bind; [try apply other_intent|intros _]);
    unfold validateAttemptReason, validateAttemptSequence, validateAttemptResult; other;
    try apply other_result; try apply other_tool; try apply other_exact.
Qed.
Lemma other_scan deepEqual rs byId : other_reason (scan deepEqual rs byId).
Proof.
  unfold scan. generalize scan_empty. generalize rs at 2.
  induction rs0 as [|r l IH]; intros st; simpl; [other|].
  pose proof (other_scan_record deepEqual rs byId st r) as Hr.
  destruct (scan_record _ _ _ _ _); [apply IH|]. intros e' [= <-]. by apply Hr.
Qed.

Lemma two_limit : limit_ok (Some (num_of_Z 2)).
Proof. exists 2. split; [by vm_compute|lia]. Qed.

Section recovery.
Context {St : Type} `{SessionStorageLaws St}.

(** Recovery of a lane of a session that only ever went through a storage
    obeying the interface: querying its open operations with limit 2 shows at
    most one, the slice is never rejected as [multiple_open_operations], and an
    accepted reduction has an operation exactly when the lane has an unfinished
    start, and names it. *)
Theorem recovery_single_operation deepEqual cs st lane ops input :
  session_ok (storage_view st) ->
  let s := storage_view (run_calls cs st) in
  findOpenOperations lane (Some (num_of_Z 2)) s = Ok ops ->
  rl_openOperations (li_slice input) = ops ->
  (length ops <= 1)%nat /\
  (forall e, reduceLaneState deepEqual input = Err e -> rc_reason e <> multiple_open_operations) /\
  (forall res, reduceLaneState deepEqual input = Ok res ->
     op_id <$> ls_operation (lrr_laneState res) = osr_id <$> last (unfinished lane (records s))).
Proof.
  intros Hok. cbv zeta. set (s := storage_view (run_calls cs st)).
  destruct (run_calls_ok cs st Hok) as [[Hwf Hone] _]. fold s in Hwf, Hone.
  rewrite (findOpenOperations_eq s lane _ Hwf two_limit). intros [= Hops] Hin.
  specialize (Hone lane).
  assert (Hshape : ops = unfinished lane (records s) /\ (length ops <= 1)%nat).
  { rewrite <-Hops. unfold limit_take.
    replace (num_to_Z (num_of_Z 2)) with (Some 2) by by vm_compute.
    destruct (unfinished lane (records s)) as [|o [|? ?]]; simpl in *; [done|done|lia]. }
  clear Hops. destruct Hshape as [-> Hlen]. split; [done|]. split.
  - intros e He. unfold reduceLaneState, validateRecordLog in He. revert e He.
    change (other_reason (reduceLaneState deepEqual input)).
    unfold reduceLaneState, validateRecordLog.
    replace (1 <? zlen (rl_openOperations (li_slice input))) with false
      by (symmetry; apply Z.ltb_ge; rewrite Hin; unfold zlen; lia).
    apply other_bind; [|intros _; apply other_Ok]. apply other_bind; [apply other_Ok|intros _].
    apply other_bind; [apply other_forR; intros; other|intros _].
    apply other_bind; [apply other_scan|intros _; apply other_Ok].
  - intros res Hres. pose proof (reduce_operation_id deepEqual input res Hres) as Hid.
    rewrite Hid, Hin. destruct (unfinished lane (records s)) as [|o [|? ?]]; simpl in *; [done|done|lia].
Qed.
End recovery.

(** ** The theorems at a concrete slice

    A run with one prompt, an assistant answer with one dispatched tool call, a
    steering message still waiting and a pause that was cleared. *)

Definition zero_usage : Usage :=
  {| usage_input := num_zero; usage_output := num_zero; usage_cacheRead := num_zero;
     usage_cacheWrite := num_zero; usage_cacheWrite1h := None; usage_reasoning := None;
     usage_totalTokens := num_zero;
     usage_cost := {| cost_input := num_zero; cost_output := num_zero; cost_cacheRead := num_zero;
                      cost_cacheWrite := num_zero; cost_total := num_zero |} |}.
Definition sample_call : AgentToolCall :=
  {| tc_id := "call1"; tc_name := "read"; tc_arguments := JsonObject []; tc_thoughtSignature := None;
     tc_namespace := None |}.
Definition sample_assistant : AssistantMessage :=
  {| am_content := [TextContent "reading" None; ToolCallContent sample_call]; am_api := "api";
     am_provider := "acme"; am_model := "m1"; am_responseModel := None; am_responseId := None;
     am_serviceTier := None; am_diagnostics := None; am_usage := zero_usage;
     am_stopReason := StopToolUse; am_isResponseCheckpoint := false; am_deferred := None;
     am_errorMessage := None; am_rawStopReason := None; am_endTurn := None; am_timestamp := num_of_Z 12 |}.
Definition sample_prompt : Entry := sample_entry "p1" 2 None "fix it".
Definition sample_answer : Entry :=
  {| e_id := "a1"; e_seq := 4; e_parentId := Some "p1"; e_timestamp := 12;
     e_body := MessageEntry (AssistantMsg sample_assistant) false |}.
Definition sample_level : Entry :=
  {| e_id := "t1"; e_seq := 1; e_parentId := None; e_timestamp := 10;
     e_body := ThinkingLevelEntry "high" |}.
Definition steer_target : ProvisionedEntry := {| pe_id := "s1"; pe_body := user_body "faster" |}.
Definition sample_tool : ToolStarted :=
  {| ts_runId := "op"; ts_assistantEntryId := "a1"; ts_toolIndex := 0; ts_toolCallId := "call1";
     ts_toolName := "read"; ts_effectiveArgs := JsonObject []; ts_resultEntryId := "r1";
     ts_operationId := None; ts_replay := ReplaySafe |}.
Definition sample_start : OperationStarted :=
  {| os_sourceLeafId := None; os_intent := IntentRun [] [strip sample_prompt] None None |}.
Definition sample_records : list LaneRecord := [
  sample_record "op" 1 (ROperationStarted sample_start);
  sample_record "att" 3 (RStepAttempt {| sa_runId := "op"; sa_step := StepAssistant;
    sa_attempt := 1; sa_resultEntryId := "a1"; sa_compactionReason := None |});
  sample_record "ts" 5 (RToolStarted sample_tool);
  sample_record "pr" 6 (RPauseRequested "op");
  sample_record "pc" 7 (RPauseCleared "op");
  sample_record "q" 8 (RQueueEnqueued {| qe_queue := QSteer; qe_runId := Some "op";
    qe_target := steer_target |}) ].
Definition sample_slice : RecordLogSlice :=
  {| rl_lane := "main";
     rl_openOperations := [ {| osr_base := {| r_id := "op"; r_seq := 1; r_lane := "main";
                                              r_timestamp := 101 |}; osr := sample_start |} ];
     rl_records := sample_records; rl_entries := [sample_prompt; sample_answer] |}.
Definition sample_defaults : EffectiveLaneConfiguration :=
  {| ec_provider := "none"; ec_modelId := "none"; ec_thinkingLevel := "off";
     ec_activeToolNames := [] |}.
Definition sample_input : LaneReductionInput :=
  {| li_slice := sample_slice; li_leafId := Some "a1"; li_ownEntries := [sample_prompt; sample_answer];
     li_configurationEntries := [sample_level]; li_defaults := sample_defaults |}.

(** Content comparison restricted to the identifier, which is enough here. *)
Definition sample_equal (a b : ProvisionedEntry) : bool := bool_decide (pe_id a = pe_id b).

Lemma validateRecordLog_correct_witness :
  record_ok sample_equal (entry_map (rl_entries sample_slice)) []
    (sample_record "op" 1 (ROperationStarted sample_start)).
Proof.
  destruct (proj1 (validateRecordLog_correct sample_equal sample_slice
    ltac:(apply (bool_decide_unpack _); vm_compute; exact I)) ltac:(vm_compute; reflexivity))
    as (_ & _ & H).
  eapply (H [] _ (drop 1 sample_records)). by vm_compute.
Defined.

Lemma reduceLaneState_permutation_witness :
  is_ok (reduceLaneState sample_equal sample_input) = true /\
  reduceLaneState sample_equal sample_input =
  reduceLaneState sample_equal
    {| li_slice := {| rl_lane := "main"; rl_openOperations := rl_openOperations sample_slice;
                      rl_records := reverse sample_records; rl_entries := rl_entries sample_slice |};
       li_leafId := Some "a1"; li_ownEntries := [sample_answer; sample_prompt];
       li_configurationEntries := [sample_level]; li_defaults := sample_defaults |}.
Proof.
  split; [by vm_compute|].
  apply (reduceLaneState_permutation sample_equal sample_slice (reverse sample_records) (Some "a1")
           [sample_prompt; sample_answer] [sample_answer; sample_prompt] [sample_level]
           sample_defaults).
  1-4: apply (bool_decide_unpack _); vm_compute; exact I.
  - by rewrite reverse_Permutation.
  - apply Permutation_swap.
Defined.

Lemma pausing_is_newest_witness : derive_pausing sample_records = false.
Proof.
  rewrite (pausing_is_newest sample_records).
  - by vm_compute.
  - repeat constructor.
  - apply (bool_decide_unpack _); vm_compute; exact I.
Defined.

Lemma pending_messages_spec_witness :
  exists res op, reduceLaneState sample_equal sample_input = Ok res /\
    ls_operation (lrr_laneState res) = Some op /\ (op_aborting op = true ->
      exists r, r ∈ sample_records /\ lr_body r = RAbortRequested (op_id op)).
Proof.
  eexists _, _. split; [by vm_compute|]. split; [reflexivity|].
  eapply (pending_messages_spec sample_equal sample_input _ _ steer_target);
    [by vm_compute|reflexivity].
Defined.

Lemma toolBatch_sound_witness :
  exists res op batch, reduceLaneState sample_equal sample_input = Ok res /\
    ls_operation (lrr_laneState res) = Some op /\ op_toolBatch op = Some batch /\
    (tb_unresolved batch = false <->
       forall call, call ∈ tb_calls batch -> tbc_resultExists call = true).
Proof.
  eexists _, _, _. split; [by vm_compute|]. split; [reflexivity|]. split; [reflexivity|].
  eapply (toolBatch_sound sample_equal sample_input).
  - apply (bool_decide_unpack _); vm_compute; exact I.
  - apply (bool_decide_unpack _); vm_compute; exact I.
  - done.
  - by vm_compute.
  - reflexivity.
  - reflexivity.
Defined.

Lemma recovery_single_operation_witness :
  exists ops, findOpenOperations "main" (Some (num_of_Z 2))
    (storage_view (run_calls [(1, CallSetName None)] sample_storage)) = Ok ops /\
    (length ops <= 1)%nat.
Proof.
  eexists. split; [by vm_compute|].
  eapply (recovery_single_operation sample_equal [(1, CallSetName None)] sample_storage "main" _
    {| li_slice := {| rl_lane := "main"; rl_openOperations := _; rl_records := []; rl_entries := [] |};
       li_leafId := None; li_ownEntries := []; li_configurationEntries := [];
       li_defaults := sample_defaults |}).
  - split; [exact sample_wf|exact sample_single_open].
  - by vm_compute.
  - reflexivity.
Defined.

Lemma effective_configuration_is_context_witness :
  ec_thinkingLevel (deriveEffectiveConfiguration sample_input) = "high".
Proof.
  destruct (effective_configuration_is_context sample_input
              [sample_level; sample_prompt; sample_answer]) as (_ & _ & H).
  - repeat constructor.
  - apply (bool_decide_unpack _); vm_compute; exact I.
  - done.
  - by rewrite (H eq_refl).
Defined.
