(* ===== verification/CborEncoder.v ===== *)
(** * The CBOR encoder and the limits of the codec
    (packages/protocol/src/cbor/options.ts, encoder.ts) *)
From S2P Require Import Prelude JsNumber JsText JsValue.

Definition UINT32_BASE : Z := 4294967296.
Definition MAX_UINT32 : Z := 4294967295.
Definition MAX_CONFIGURED_DEPTH : Z := 512.
Definition DEFAULT_MAX_CBOR_BYTE_LENGTH : Z := 16 * 1024 * 1024.
Definition DEFAULT_MAX_CBOR_CONTAINER_LENGTH : Z := 1000000.
Definition DEFAULT_MAX_CBOR_DEPTH : Z := 64.

(** Every property is optional. *)
Record CborOptions := {
  opt_maxByteLength : option number;
  opt_maxContainerLength : option number;
  opt_maxDepth : option number }.
Definition no_cbor_options : CborOptions :=
  {| opt_maxByteLength := None; opt_maxContainerLength := None; opt_maxDepth := None |}.

Record ResolvedCborOptions := { maxByteLength : Z; maxContainerLength : Z; maxDepth : Z }.

Definition resolveLimit (name : string) (value : number) (maximum : Z) : result js_error Z :=
  let e := Err (RangeError (name +:+ " must be an integer between 0 and " +:+ pretty maximum)) in
  if negb (num_is_safe_integer value) then e else
  match num_to_Z value with
  | Some z => if (z <? 0) || (maximum <? z) then e else Ok z
  | None => e
  end.

Definition resolveOptions (options : CborOptions) : result js_error ResolvedCborOptions :=
  b ← resolveLimit "maxByteLength"
        (default (num_of_Z DEFAULT_MAX_CBOR_BYTE_LENGTH) (opt_maxByteLength options)) MAX_UINT32;
  c ← resolveLimit "maxContainerLength"
        (default (num_of_Z DEFAULT_MAX_CBOR_CONTAINER_LENGTH) (opt_maxContainerLength options))
        MAX_UINT32;
  d ← resolveLimit "maxDepth"
        (default (num_of_Z DEFAULT_MAX_CBOR_DEPTH) (opt_maxDepth options)) MAX_CONFIGURED_DEPTH;
  Ok {| maxByteLength := b; maxContainerLength := c; maxDepth := d |}.

(** The ranges every resolved option lies in. *)
Definition options_ok (o : ResolvedCborOptions) : Prop :=
  0 <= maxByteLength o <= MAX_UINT32 /\ 0 <= maxContainerLength o <= MAX_UINT32 /\
  0 <= maxDepth o <= MAX_CONFIGURED_DEPTH.

Lemma resolveLimit_Ok name v m z : resolveLimit name v m = Ok z -> 0 <= z <= m.
Proof.
  unfold resolveLimit. destruct (negb (num_is_safe_integer v)); [done|].
  destruct (num_to_Z v) as [z'|]; [|done].
  destruct (Z.ltb_spec z' 0), (Z.ltb_spec m z'); simpl; try done. intros [= <-]. lia.
Qed.
Lemma resolveOptions_ok o r : resolveOptions o = Ok r -> options_ok r.
Proof.
  unfold resolveOptions. mrun.
  destruct (resolveLimit "maxByteLength" _ _) as [b|] eqn:Hb; [|done].
  destruct (resolveLimit "maxContainerLength" _ _) as [c|] eqn:Hc; [|done].
  destruct (resolveLimit "maxDepth" _ _) as [d|] eqn:Hd; [|done].
  intros [= <-]. apply resolveLimit_Ok in Hb, Hc, Hd. done.
Qed.
Lemma resolveLimit_not_bound name v m : resolveLimit name v m <> Err StepBound.
Proof. unfold resolveLimit. by repeat case_match. Qed.
Lemma resolveOptions_not_bound o : resolveOptions o <> Err StepBound.
Proof.
  unfold resolveOptions. mrun.
  pose proof (resolveLimit_not_bound "maxByteLength"
    (default (num_of_Z DEFAULT_MAX_CBOR_BYTE_LENGTH) (opt_maxByteLength o)) MAX_UINT32) as H1.
  pose proof (resolveLimit_not_bound "maxContainerLength"
    (default (num_of_Z DEFAULT_MAX_CBOR_CONTAINER_LENGTH) (opt_maxContainerLength o)) MAX_UINT32) as H2.
  pose proof (resolveLimit_not_bound "maxDepth"
    (default (num_of_Z DEFAULT_MAX_CBOR_DEPTH) (opt_maxDepth o)) MAX_CONFIGURED_DEPTH) as H3.
  destruct (resolveLimit "maxByteLength" _ _); [|congruence].
  destruct (resolveLimit "maxContainerLength" _ _); [|congruence].
  destruct (resolveLimit "maxDepth" _ _); [done|congruence].
Qed.

(** * The CBOR encoder (packages/protocol/src/cbor/encoder.ts)

    The writer grows a buffer on demand; every write goes through
    [ensureCapacity], which is where the byte limit is enforced.  The recursion of
    [encodeValue] carries a step bound of [maxDepth + 2] levels: one level beyond
    the depth check, so it is never reached. *)

Record CborWriter := { w_buffer : bytes; w_offset : Z; w_maxByteLength : Z }.

Definition new_CborWriter (maxByteLength : Z) : CborWriter :=
  {| w_buffer := repeat 0 (Z.to_nat (Z.min 256 maxByteLength)); w_offset := 0;
     w_maxByteLength := maxByteLength |}.

Definition W := M CborWriter js_error.

(** [buffer[i] = value]: an element store keeps the low eight bits and is ignored
    outside the array. *)
Definition u8_store (buffer : bytes) (i value : Z) : bytes :=
  if (0 <=? i) && (i <? zlen buffer) then <[Z.to_nat i := value mod 256]> buffer else buffer.
(** [buffer.set(source, i)] for a source that fits. *)
Fixpoint u8_set (buffer : bytes) (i : Z) (source : bytes) : bytes :=
  match source with
  | [] => buffer
  | b :: source' => u8_set (u8_store buffer i b) (i + 1) source'
  end.

(** [while (capacity < required) capacity = ...] *)
Fixpoint grow (fuel : nat) (max required capacity : Z) : option Z :=
  match fuel with
  | O => None
  | S fuel' => if capacity <? required
               then grow fuel' max required (Z.min max (Z.max required (capacity * 2)))
               else Some capacity
  end.

Definition with_buffer (w : CborWriter) (b : bytes) (o : Z) : CborWriter :=
  {| w_buffer := b; w_offset := o; w_maxByteLength := w_maxByteLength w |}.

(** Two rounds of the growth loop always suffice: the first reaches [required]. *)
Definition ensureCapacity (additionalBytes : Z) : W unit :=
  w ← get;
  let required := w_offset w + additionalBytes in
  throw_if (w_maxByteLength w <? required)
    (CborError ("CBOR byte length exceeds configured limit of " +:+ pretty (w_maxByteLength w)));;
  if required <=? zlen (w_buffer w) then mret tt else
  match grow 2 (w_maxByteLength w) required (Z.max 1 (zlen (w_buffer w))) with
  | None => throw StepBound
  | Some capacity =>
      modify (fun w => with_buffer w
        (u8_set (repeat 0 (Z.to_nat capacity)) 0 (w_buffer w)) (w_offset w))
  end.

Definition writeByte (value : Z) : W unit :=
  ensureCapacity 1;;
  modify (fun w => with_buffer w (u8_store (w_buffer w) (w_offset w) value) (w_offset w + 1)).

Definition writeBytes (b : bytes) : W unit :=
  ensureCapacity (zlen b);;
  modify (fun w => with_buffer w (u8_set (w_buffer w) (w_offset w) b) (w_offset w + zlen b)).

Definition writeUint16 (value : Z) : W unit :=
  ensureCapacity 2;;
  modify (fun w => with_buffer w
    (u8_store (u8_store (w_buffer w) (w_offset w) (Z.shiftr value 8)) (w_offset w + 1) value)
    (w_offset w + 2)).

Definition writeUint32 (value : Z) : W unit :=
  ensureCapacity 4;;
  modify (fun w => with_buffer w
    (u8_store (u8_store (u8_store (u8_store (w_buffer w)
       (w_offset w) (Z.shiftr value 24))
       (w_offset w + 1) (Z.shiftr value 16))
       (w_offset w + 2) (Z.shiftr value 8))
       (w_offset w + 3) value)
    (w_offset w + 4)).

Definition writeUint64 (value : Z) : W unit :=
  let high := value / UINT32_BASE in
  let low := value - high * UINT32_BASE in
  writeUint32 high;; writeUint32 low.

(** The eight bytes [setFloat64] writes, most significant first. *)
Definition be_bytes (n : nat) (v : Z) : bytes :=
  (fun i => (v / 256 ^ Z.of_nat (n - 1 - i)) mod 256) <$> seq 0 n.

Definition writeFloat64 (value : number) : W unit :=
  ensureCapacity 9;;
  modify (fun w => with_buffer w
    (u8_set (u8_store (w_buffer w) (w_offset w) 251) (w_offset w + 1) (be_bytes 8 (num_to_bits value)))
    (w_offset w + 9)).

Definition finish (w : CborWriter) : bytes := take (Z.to_nat (w_offset w)) (w_buffer w).

Definition writeArgument (majorType value : Z) : W unit :=
  let prefix := Z.shiftl majorType 5 in
  if value <? 24 then writeByte (Z.lor prefix value)
  else if value <=? 255 then writeByte (Z.lor prefix 24);; writeByte value
  else if value <=? 65535 then writeByte (Z.lor prefix 25);; writeUint16 value
  else if value <=? MAX_UINT32 then writeByte (Z.lor prefix 26);; writeUint32 value
  else writeByte (Z.lor prefix 27);; writeUint64 value.

Definition encodeText (value : jsstring) (options : ResolvedCborOptions) : W unit :=
  let b := text_encode value in
  throw_if (maxByteLength options <? zlen b)
    (CborError ("CBOR text string length exceeds configured limit of "
                  +:+ pretty (maxByteLength options)));;
  throw_if (negb (bool_decide (text_decode b = Some value)))
    (CborError "CBOR text strings must contain valid Unicode scalar values");;
  writeArgument 3 (zlen b);;
  writeBytes b.

(** The entries of a plain object that are encoded. *)
Definition defined_entries (props : list (jsstring * jsval)) : list (jsstring * jsval) :=
  keep (fun kv => match kv.2 with VUndefined => false | _ => true end) props.

Definition encodeNumber (value : number) : W unit :=
  throw_if (negb (num_is_finite value)) (CborError "CBOR numbers must be finite");;
  match num_to_Z value with
  | Some z =>
      if num_is_neg_zero value then writeFloat64 value else
      throw_if (negb (num_is_safe_integer value))
        (CborError "CBOR integers must be safe JavaScript integers");;
      if 0 <=? z then writeArgument 0 z else writeArgument 1 (-1 - z)
  | None => writeFloat64 value
  end.

Definition cycle_error : js_error := CborError "CBOR values must not contain cycles".
Definition unsupported_error (t : string) : js_error :=
  CborError ("Unsupported CBOR value type: " +:+ t).

Fixpoint encodeValue (fuel : nat) (h : js_heap) (options : ResolvedCborOptions) (value : jsval)
    (depth : Z) (ancestors : gset js_loc) : W unit :=
  match fuel with
  | O => throw StepBound
  | S fuel' =>
      throw_if (maxDepth options <? depth)
        (CborError ("CBOR nesting depth exceeds configured limit of " +:+ pretty (maxDepth options)));;
      match value with
      | VNull => writeByte 246
      | VBool b => writeByte (if b then 245 else 244)
      | VNumber n => encodeNumber n
      | VString s => encodeText s options
      | VBytes b =>
          throw_if (maxByteLength options <? zlen b)
            (CborError ("CBOR byte string length exceeds configured limit of "
                          +:+ pretty (maxByteLength options)));;
          writeArgument 2 (zlen b);;
          writeBytes b
      | VObject l =>
          match deref h l with
          | OArray items =>
              throw_if (bool_decide (l ∈ ancestors)) cycle_error;;
              throw_if (maxContainerLength options <? zlen items)
                (CborError ("CBOR array length exceeds configured limit of "
                              +:+ pretty (maxContainerLength options)));;
              writeArgument 4 (zlen items);;
              forM_ items (fun item =>
                match item with
                | None | Some VUndefined =>
                    throw (CborError "CBOR arrays must not contain holes or undefined values")
                | Some v => encodeValue fuel' h options v (depth + 1) ({[l]} ∪ ancestors)
                end)
          | OPlain _ symbols props =>
              throw_if (bool_decide (l ∈ ancestors)) cycle_error;;
              throw_if symbols (CborError "CBOR map keys must be strings");;
              let entries := defined_entries props in
              throw_if (maxContainerLength options <? zlen entries)
                (CborError ("CBOR map length exceeds configured limit of "
                              +:+ pretty (maxContainerLength options)));;
              writeArgument 5 (zlen entries);;
              forM_ entries (fun kv =>
                encodeText kv.1 options;;
                encodeValue fuel' h options kv.2 (depth + 1) ({[l]} ∪ ancestors))
          | OExotic => throw (unsupported_error "object")
          end
      | VUndefined => throw (unsupported_error "undefined")
      | VOther t => throw (unsupported_error t)
      end
  end.

Definition depth_fuel (options : ResolvedCborOptions) : nat := Z.to_nat (maxDepth options + 2).

Definition encodeCbor (h : js_heap) (value : jsval) (options : CborOptions) : result js_error bytes :=
  resolved ← resolveOptions options;
  let writer := new_CborWriter (maxByteLength resolved) in
  match encodeValue (depth_fuel resolved) h resolved value 0 ∅ writer with
  | (writer', Ok _) => Ok (finish writer')
  | (_, Err e) => Err e
  end.
