(* ===== verification/CborDecoder.v ===== *)
(** * The CBOR decoder (packages/protocol/src/cbor/decoder.ts)

    The reader's state is its offset into the input.  The recursion of [readItem]
    carries the same step bound as the encoder's.  Objects are built with
    [Object.defineProperty], so a key such as [__proto__] is an ordinary key. *)
From S2P Require Import Prelude JsNumber JsText JsValue CborEncoder.

Definition R := M Z js_error.

Section reader.
Variable input : bytes.
Variable options : ResolvedCborOptions.

Definition truncated : js_error := CborError "Truncated CBOR payload".

Definition readByte : R Z :=
  offset ← get;
  match at_index input offset with
  | None => throw truncated
  | Some value => put (offset + 1);; mret value
  end.

Definition readBytes (length : Z) : R bytes :=
  offset ← get;
  throw_if (zlen input - offset <? length) truncated;;
  put (offset + length);;
  mret (take (Z.to_nat length) (drop (Z.to_nat offset) input)).

(** The big-endian value of bytes. *)
Definition be_value (b : bytes) : Z := foldl (fun a x => a * 256 + x) 0 b.

Definition readUint32 : R Z := b ← readBytes 4; mret (be_value b).

Definition safe_error : js_error :=
  CborError "Decoded CBOR integer or length is outside the safe range".

Definition readArgument (additionalInformation : Z) : R Z :=
  if additionalInformation <? 24 then mret additionalInformation
  else if additionalInformation =? 24 then readByte
  else if additionalInformation =? 25 then b ← readBytes 2; mret (be_value b)
  else if additionalInformation =? 26 then readUint32
  else if additionalInformation =? 27 then
    high ← readUint32;
    low ← readUint32;
    throw_if (2097151 <? high) safe_error;;
    mret (high * UINT32_BASE + low)
  else if additionalInformation =? 31 then
    throw (CborError "Indefinite-length CBOR items are not supported")
  else throw (CborError "Malformed CBOR additional information").

Definition readLength (additionalInformation : Z) (kind : string) (limit : Z) : R Z :=
  throw_if (additionalInformation =? 31)
    (CborError ("Indefinite-length CBOR " +:+ kind +:+ "s are not supported"));;
  length ← readArgument additionalInformation;
  throw_if (limit <? length)
    (CborError ("CBOR " +:+ kind +:+ " length exceeds configured limit of " +:+ pretty limit));;
  mret length.

Definition safe_integer_error : js_error :=
  CborError "Decoded CBOR integer is outside the safe range".

Definition readSimple (additionalInformation : Z) : R cval :=
  if additionalInformation =? 20 then mret (CBool false)
  else if additionalInformation =? 21 then mret (CBool true)
  else if additionalInformation =? 22 then mret CNull
  else if additionalInformation =? 27 then
    b ← readBytes 8;
    let value := num_of_bits (be_value b) in
    throw_if (negb (num_is_finite value)) (CborError "Decoded CBOR number must be finite");;
    throw_if (num_is_integer value && negb (num_is_safe_integer value)) safe_integer_error;;
    mret (CNumber value)
  else if additionalInformation =? 31 then throw (CborError "CBOR break marker is not supported")
  else throw (CborError "Unsupported CBOR simple value or floating-point width").

(** [for (let index = 0; index < n; index++) result.push(f())] *)
Fixpoint read_n {A} (n : nat) (f : R A) : R (list A) :=
  match n with
  | O => mret []
  | S n' => x ← f; xs ← read_n n' f; mret (x :: xs)
  end.

(** The loop over the entries of a map; [keys] are those already read. *)
Fixpoint read_entries (n : nat) (keys : list jsstring) (item : R cval)
  : R (list (jsstring * cval)) :=
  match n with
  | O => mret []
  | S n' =>
      key ← item;
      match key with
      | CString k =>
          throw_if (bool_decide (k ∈ keys)) (CborError "CBOR map contains a duplicate key");;
          v ← item;
          rest ← read_entries n' (k :: keys) item;
          mret ((k, v) :: rest)
      | _ => throw (CborError "CBOR map keys must be strings")
      end
  end.

Fixpoint readItem (fuel : nat) (depth : Z) : R cval :=
  match fuel with
  | O => throw StepBound
  | S fuel' =>
      throw_if (maxDepth options <? depth)
        (CborError ("CBOR nesting depth exceeds configured limit of " +:+ pretty (maxDepth options)));;
      initial ← readByte;
      let majorType := Z.shiftr initial 5 in
      let additionalInformation := Z.land initial 31 in
      if majorType =? 0 then
        value ← readArgument additionalInformation;
        mret (CNumber (num_of_Z value))
      else if majorType =? 1 then
        argument ← readArgument additionalInformation;
        let value := -1 - argument in
        throw_if (negb (Z.abs value <=? MAX_SAFE_INTEGER)) safe_integer_error;;
        mret (CNumber (num_of_Z value))
      else if majorType =? 2 then
        length ← readLength additionalInformation "byte string" (maxByteLength options);
        b ← readBytes length;
        mret (CBytes b)
      else if majorType =? 3 then
        length ← readLength additionalInformation "text string" (maxByteLength options);
        b ← readBytes length;
        match text_decode b with
        | Some s => mret (CString s)
        | None => throw (CborError "CBOR text string contains invalid UTF-8")
        end
      else if majorType =? 4 then
        length ← readLength additionalInformation "array" (maxContainerLength options);
        items ← read_n (Z.to_nat length) (readItem fuel' (depth + 1));
        mret (CArray items)
      else if majorType =? 5 then
        length ← readLength additionalInformation "map" (maxContainerLength options);
        props ← read_entries (Z.to_nat length) [] (readItem fuel' (depth + 1));
        mret (CMap (own_order props))
      else if majorType =? 6 then throw (CborError "CBOR tags are not supported")
      else if majorType =? 7 then readSimple additionalInformation
      else throw (CborError "Malformed CBOR major type")
  end.

Definition decode : R cval :=
  value ← readItem (depth_fuel options) 0;
  offset ← get;
  throw_if (negb (offset =? zlen input)) (CborError "CBOR payload contains trailing data");;
  mret value.
End reader.

Definition decodeCbor (input : bytes) (options : CborOptions) : result js_error cval :=
  resolved ← resolveOptions options;
  if maxByteLength resolved <? zlen input
  then Err (CborError ("CBOR byte length exceeds configured limit of " +:+ pretty (maxByteLength resolved)))
  else snd (decode input resolved 0).
