(* ===== verification/CborWriter.v ===== *)
(** * The writer appends, within its limit

    [writes f o]: the method [f] appends the bytes [o] to the content, or throws
    when they do not fit; [writes f None]: it always throws.  Everything the
    encoder does is described this way, so the buffer, its growth and the store
    offsets disappear from the encoder's own proofs. *)
From S2P Require Import Prelude JsNumber JsText JsValue CborEncoder.

#[local] Ltac Zify.zify_post_hook ::= Z.to_euclidean_division_equations.

Record writer_ok (w : CborWriter) : Prop := {
  wo_offset : 0 <= w_offset w <= zlen (w_buffer w);
  wo_max : zlen (w_buffer w) <= w_maxByteLength w;
  wo_bytes : Forall byte_ok (w_buffer w) }.

Definition written (w : CborWriter) : bytes := finish w.

Lemma zlen_content w : writer_ok w -> zlen (written w) = w_offset w.
Proof.
  intros [H _ _]. unfold written, finish, zlen in *. rewrite length_take. lia.
Qed.

Definition fails {A} (r : CborWriter * result js_error A) : Prop :=
  exists w' e, r = (w', Err e) /\ e <> StepBound.

Definition writes (f : W unit) (o : option bytes) : Prop :=
  forall w, writer_ok w ->
  match o with
  | Some bs =>
      if zlen (written w) + zlen bs <=? w_maxByteLength w
      then exists w', f w = (w', Ok tt) /\ writer_ok w' /\ written w' = written w ++ bs /\
                      w_maxByteLength w' = w_maxByteLength w
      else fails (f w)
  | None => fails (f w)
  end.

(** ** Combining methods *)

Lemma writes_ret : writes (mret tt) (Some []).
Proof.
  intros w Hw. rewrite zlen_nil, Z.add_0_r, zlen_content by done.
  rewrite (proj2 (Z.leb_le _ _)) by (destruct Hw; lia). exists w. by rewrite app_nil_r.
Qed.
Lemma writes_throw e : e <> StepBound -> writes (throw e) None.
Proof. intros He w Hw. by exists w, e. Qed.
Lemma writes_seq (f g : W unit) a o :
  writes f (Some a) -> writes g o -> writes (f;; g) ((fun b => a ++ b) <$> o).
Proof.
  intros Hf Hg w Hw. specialize (Hf w Hw). cbv beta iota in Hf. mrun.
  destruct (zlen (written w) + zlen a <=? w_maxByteLength w) eqn:Hfit.
  - destruct Hf as (w1 & -> & Hw1 & Hc1 & Hm1). specialize (Hg w1 Hw1).
    destruct o as [b|]; simpl; [|exact Hg]. rewrite Hc1, Hm1, zlen_app, <-(assoc_L (++)) in Hg.
    rewrite zlen_app.
    replace (zlen (written w) + (zlen a + zlen b)) with (zlen (written w) + zlen a + zlen b) by lia.
    exact Hg.
  - destruct Hf as (w1 & e & -> & He).
    assert (Hfail : fails (w1, @Err js_error unit e)) by by exists w1, e.
    destruct o as [b|]; simpl; [|exact Hfail].
    apply Z.leb_gt in Hfit. rewrite zlen_app, (proj2 (Z.leb_gt _ _)); [exact Hfail|].
    pose proof (zlen_nonneg b). lia.
Qed.
Lemma writes_none (f g : W unit) : writes f None -> writes (f;; g) None.
Proof. intros Hf w Hw. destruct (Hf w Hw) as (w' & e & Hr & He). mrun. rewrite Hr. by exists w', e. Qed.
Lemma writes_guard c e (f : W unit) o :
  e <> StepBound -> writes f o -> writes (throw_if c e;; f) (if c then None else o).
Proof.
  intros He Hf w Hw. mrun. destruct c; [by exists w, e|]. exact (Hf w Hw).
Qed.
Lemma writes_eq f o o' : writes f o -> o = o' -> writes f o'.
Proof. by intros ? <-. Qed.

(** ** Stores *)

Lemma length_u8_store b i v : length (u8_store b i v) = length b.
Proof. unfold u8_store. destruct (_ && _); [apply length_insert|done]. Qed.

Lemma u8_set_app buffer i source :
  0 <= i -> i + zlen source <= zlen buffer -> Forall byte_ok source ->
  u8_set buffer i source
  = take (Z.to_nat i) buffer ++ source ++ drop (Z.to_nat (i + zlen source)) buffer.
Proof.
  revert buffer i. induction source as [|b source IH]; intros buffer i Hi Hlen Hb; simpl.
  - rewrite zlen_nil, Z.add_0_r. by rewrite take_drop.
  - apply Forall_cons in Hb as [Hb Hbs]. rewrite zlen_cons in Hlen. pose proof (zlen_nonneg source).
    assert (Hst : u8_store buffer i b = <[Z.to_nat i := b]> buffer).
    { unfold u8_store. rewrite (proj2 (Z.leb_le _ _)), (proj2 (Z.ltb_lt _ _)) by lia. simpl.
      unfold byte_ok in Hb. by rewrite Z.mod_small. }
    rewrite IH; [|lia|unfold zlen in *; rewrite length_u8_store; lia|done]. rewrite Hst, zlen_cons.
    unfold zlen in Hlen.
    assert (Hlt : (Z.to_nat i < length buffer)%nat) by lia.
    replace (Z.to_nat (i + 1)) with (S (Z.to_nat i)) by lia.
    rewrite (take_S_r _ _ b) by by apply list_lookup_insert_eq.
    rewrite take_insert_ge, drop_insert_lt by lia. rewrite <-(assoc_L (++)). simpl.
    do 3 f_equal. f_equal. lia.
Qed.

Lemma length_u8_set buffer i source : length (u8_set buffer i source) = length buffer.
Proof.
  revert buffer i. induction source as [|b source IH]; intros buffer i; simpl; [done|].
  by rewrite IH, length_u8_store.
Qed.

(** ** Growth *)

Lemma zlen_repeat {A} (x : A) n : zlen (repeat x n) = Z.of_nat n.
Proof. unfold zlen. by rewrite repeat_length. Qed.
Lemma repeat_bytes n : Forall byte_ok (repeat 0 n).
Proof. induction n; simpl; constructor; [unfold byte_ok; lia|done]. Qed.

Lemma grow_spec max required capacity :
  0 <= required <= max -> 0 < capacity -> capacity < required ->
  exists c, grow 2 max required capacity = Some c /\ required <= c <= max.
Proof.
  intros Hr Hc Hlt. simpl. rewrite (proj2 (Z.ltb_lt _ _)) by lia.
  rewrite (proj2 (Z.ltb_ge (Z.min max (Z.max required (capacity * 2))) required)) by lia.
  eexists. split; [done|]. lia.
Qed.

Lemma ensureCapacity_spec n w :
  writer_ok w -> 0 <= n ->
  if w_offset w + n <=? w_maxByteLength w
  then exists w', ensureCapacity n w = (w', Ok tt) /\ writer_ok w' /\ written w' = written w /\
         w_offset w' = w_offset w /\ w_maxByteLength w' = w_maxByteLength w /\
         w_offset w + n <= zlen (w_buffer w')
  else fails (ensureCapacity n w).
Proof.
  intros Hw Hn. pose proof Hw as [Ho Hm Hb]. unfold ensureCapacity. mrun.
  destruct (Z.leb_spec (w_offset w + n) (w_maxByteLength w)) as [Hle|Hgt].
  - rewrite (proj2 (Z.ltb_ge _ _)) by lia.
    destruct (Z.leb_spec (w_offset w + n) (zlen (w_buffer w))) as [Hfit|Hgrow].
    + exists w. split_and!; done.
    + assert (Hmax : Z.max 1 (zlen (w_buffer w)) < w_offset w + n \/ w_offset w + n <= 1) by lia.
      destruct (decide (Z.max 1 (zlen (w_buffer w)) < w_offset w + n)) as [Hlt|Hnlt].
      * destruct (grow_spec (w_maxByteLength w) (w_offset w + n) (Z.max 1 (zlen (w_buffer w))))
          as (c & -> & Hc); [lia|lia|done|].
        eexists. split; [done|]. unfold with_buffer, written, finish. simpl.
        assert (Hset : u8_set (repeat 0 (Z.to_nat c)) 0 (w_buffer w)
          = w_buffer w ++ drop (Z.to_nat (0 + zlen (w_buffer w))) (repeat 0 (Z.to_nat c))).
        { rewrite u8_set_app; [done|lia|rewrite zlen_repeat; lia|done]. }
        rewrite Hset. unfold zlen in *.
        split_and!; [constructor; simpl|by rewrite take_app_le by lia|done|done|].
        -- unfold zlen. rewrite length_app, length_drop, repeat_length. lia.
        -- unfold zlen. rewrite length_app, length_drop, repeat_length. lia.
        -- apply Forall_app. split; [done|]. apply Forall_drop, repeat_bytes.
        -- rewrite length_app, length_drop, repeat_length. lia.
      * assert (Hempty : w_buffer w = []).
        { destruct (w_buffer w); [done|]. rewrite zlen_cons in *. unfold zlen in *. lia. }
        rewrite Hempty in *. rewrite zlen_nil in *. simpl.
        rewrite (proj2 (Z.ltb_ge (1 `max` 0) (w_offset w + n))) by lia. cbv beta iota.
        eexists. split; [done|]. unfold with_buffer, written, finish. rewrite Hempty. simpl.
        split_and!; [constructor; simpl|by replace (Z.to_nat (w_offset w)) with 0%nat by lia|done|done|].
        -- unfold zlen. simpl. lia.
        -- unfold zlen. simpl. lia.
        -- repeat constructor; unfold byte_ok; lia.
        -- unfold zlen. simpl. lia.
  - rewrite (proj2 (Z.ltb_lt _ _)) by lia. by eexists _, _.
Qed.

(** A method that reserves room for [bs] and stores it at the offset. *)
Lemma writes_store bs (f : CborWriter -> bytes) :
  Forall byte_ok bs ->
  (forall w, f w = u8_set (w_buffer w) (w_offset w) bs) ->
  writes (ensureCapacity (zlen bs);; modify (fun w => with_buffer w (f w) (w_offset w + zlen bs)))
    (Some bs).
Proof.
  intros Hbs Hf w Hw. pose proof (ensureCapacity_spec (zlen bs) w Hw (zlen_nonneg bs)) as He.
  rewrite zlen_content by done. mrun.
  destruct (w_offset w + zlen bs <=? w_maxByteLength w).
  - destruct He as (w1 & -> & Hw1 & Hc1 & Ho1 & Hm1 & Hroom). pose proof Hw1 as [Ho Hmx Hb].
    pose proof (zlen_nonneg bs).
    eexists. split; [done|]. rewrite Hf, u8_set_app by (done || lia).
    unfold with_buffer. split_and!; simpl; [constructor; simpl| |done].
    + unfold zlen in *. rewrite !length_app, length_take, length_drop. lia.
    + unfold zlen in *. rewrite !length_app, length_take, length_drop. lia.
    + apply Forall_app. split; [by apply Forall_take|]. apply Forall_app.
      split; [done|by apply Forall_drop].
    + unfold written, finish in *. simpl. rewrite <-Hc1, (assoc_L (++)), take_app_le.
      * rewrite take_ge; [done|]. unfold zlen in *. rewrite length_app, length_take. lia.
      * unfold zlen in *. rewrite length_app, length_take. lia.
  - destruct He as (w1 & e & -> & He). by exists w1, e.
Qed.

Lemma u8_store_mod b i v : u8_store b i v = u8_store b i (v mod 256).
Proof. unfold u8_store. destruct (_ && _); [|done]. f_equal. lia. Qed.

(** ** The writer's methods *)

Lemma mod_byte v : byte_ok (v mod 256).
Proof. unfold byte_ok. lia. Qed.

Lemma writes_writeByte v : writes (writeByte v) (Some [v mod 256]).
Proof.
  apply (writes_store [v mod 256]); [repeat constructor; apply mod_byte|].
  intros w. simpl. by rewrite u8_store_mod.
Qed.
Lemma writes_writeBytes b : Forall byte_ok b -> writes (writeBytes b) (Some b).
Proof. intros Hb. by apply (writes_store b). Qed.

Definition be2 (v : Z) : bytes := [v / 256 mod 256; v mod 256].
Definition be4 (v : Z) : bytes :=
  [v / 16777216 mod 256; v / 65536 mod 256; v / 256 mod 256; v mod 256].
Definition be8 (v : Z) : bytes := be4 (v / UINT32_BASE) ++ be4 (v mod UINT32_BASE).

Lemma writes_writeUint16 v : writes (writeUint16 v) (Some (be2 v)).
Proof.
  apply (writes_store (be2 v)); [repeat constructor; apply mod_byte|].
  intros w. simpl. rewrite Z.shiftr_div_pow2 by lia. change (2 ^ 8) with 256.
  by rewrite (u8_store_mod _ _ (v / 256)), (u8_store_mod _ _ v).
Qed.
Lemma writes_writeUint32 v : writes (writeUint32 v) (Some (be4 v)).
Proof.
  apply (writes_store (be4 v)); [repeat constructor; apply mod_byte|].
  intros w. simpl. rewrite !Z.shiftr_div_pow2 by lia.
  change (2 ^ 8) with 256. change (2 ^ 16) with 65536. change (2 ^ 24) with 16777216.
  rewrite (u8_store_mod _ _ (v / 16777216)), (u8_store_mod _ _ (v / 65536)),
    (u8_store_mod _ _ (v / 256)), (u8_store_mod _ _ v).
  rewrite <-!Z.add_assoc. done.
Qed.
Lemma writes_writeUint64 v : writes (writeUint64 v) (Some (be8 v)).
Proof.
  unfold writeUint64. eapply writes_eq; [apply writes_seq; apply writes_writeUint32|].
  unfold be8. replace (v mod UINT32_BASE) with (v - v / UINT32_BASE * UINT32_BASE); [done|].
  unfold UINT32_BASE. lia.
Qed.

Lemma be_bytes_8 v : be_bytes 8 v = be8 v.
Proof.
  unfold be_bytes, be8, be4, UINT32_BASE. cbn [seq fmap list_fmap app].
  change (256 ^ Z.of_nat (8 - 1 - 0)) with 72057594037927936.
  change (256 ^ Z.of_nat (8 - 1 - 1)) with 281474976710656.
  change (256 ^ Z.of_nat (8 - 1 - 2)) with 1099511627776.
  change (256 ^ Z.of_nat (8 - 1 - 3)) with 4294967296.
  change (256 ^ Z.of_nat (8 - 1 - 4)) with 16777216.
  change (256 ^ Z.of_nat (8 - 1 - 5)) with 65536.
  change (256 ^ Z.of_nat (8 - 1 - 6)) with 256.
  change (256 ^ Z.of_nat (8 - 1 - 7)) with 1.
  rewrite !Z.div_div by lia. rewrite Z.div_1_r.
  repeat (f_equal; try lia).
Qed.
Lemma be4_bytes v : Forall byte_ok (be4 v).
Proof. repeat constructor; apply mod_byte. Qed.
Lemma be8_bytes v : Forall byte_ok (be8 v).
Proof. apply Forall_app. split; apply be4_bytes. Qed.

Lemma writes_writeFloat64 n : writes (writeFloat64 n) (Some (251 :: be8 (num_to_bits n))).
Proof.
  unfold writeFloat64. rewrite be_bytes_8.
  apply (writes_store (251 :: be8 (num_to_bits n)));
    [constructor; [unfold byte_ok; lia|apply be8_bytes]|done].
Qed.

(** The head of an item: major type and argument, in its shortest form. *)
Definition head_bytes (major value : Z) : bytes :=
  if value <? 24 then [major * 32 + value]
  else if value <=? 255 then [major * 32 + 24; value]
  else if value <=? 65535 then (major * 32 + 25) :: be2 value
  else if value <=? MAX_UINT32 then (major * 32 + 26) :: be4 value
  else (major * 32 + 27) :: be8 value.

Lemma prefix_lor major v : 0 <= major < 8 -> 0 <= v < 32 ->
  Z.lor (Z.shiftl major 5) v mod 256 = major * 32 + v.
Proof.
  intros Hm Hv. rewrite Z.shiftl_mul_pow2 by lia. change (2 ^ 5) with 32.
  assert (Hl : Z.lor (major * 32) v = major * 32 + v).
  { symmetry. rewrite <-Z.lxor_lor; [apply Z.add_nocarry_lxor|].
    all: apply Z.bits_inj'; intros i Hi; rewrite Z.land_spec, Z.bits_0;
      replace (major * 32) with (Z.shiftl major 5) by (rewrite Z.shiftl_mul_pow2 by lia; done);
      destruct (decide (i < 5)) as [Hlt|Hge];
      [by rewrite Z.shiftl_spec_low by lia|];
      rewrite (Z.bits_above_log2 v i), andb_false_r; try done; try lia;
      destruct (decide (v = 0)) as [->|]; [simpl; lia|];
      assert (Z.log2 v < 5); [apply Z.log2_lt_pow2; simpl; lia|lia]. }
  rewrite Hl. apply Z.mod_small. lia.
Qed.

Lemma writes_writeArgument major v : 0 <= major < 8 -> 0 <= v ->
  writes (writeArgument major v) (Some (head_bytes major v)).
Proof.
  intros Hm Hv. unfold writeArgument, head_bytes.
  assert (Hb : forall a, 0 <= a < 32 ->
    writes (writeByte (Z.lor (Z.shiftl major 5) a)) (Some [major * 32 + a])).
  { intros a Ha. eapply writes_eq; [apply writes_writeByte|]. by rewrite prefix_lor. }
  destruct (Z.ltb_spec v 24); [apply Hb; lia|].
  destruct (Z.leb_spec v 255).
  { eapply writes_eq; [apply writes_seq; [apply Hb; lia|apply writes_writeByte]|].
    simpl. by rewrite Z.mod_small by lia. }
  destruct (Z.leb_spec v 65535).
  { eapply writes_eq; [apply writes_seq; [apply Hb; lia|apply writes_writeUint16]|done]. }
  destruct (Z.leb_spec v MAX_UINT32);
    (eapply writes_eq; [apply writes_seq; [apply Hb; lia|]|];
      [first [apply writes_writeUint32|apply writes_writeUint64]|done]).
Qed.
