(* ===== verification/CborEncoding.v ===== *)
(** * What the CBOR encoder writes

    Sample object graphs, and the encoder against the wire form. *)
From S2P Require Import Prelude JsNumber JsText JsValue CborEncoder CborWriter.

(** [[1, "hi", {a: -500, b: undefined}]] at location 1. *)
Definition sample_heap : js_heap :=
  <[1%nat := OArray [Some (VNumber (num_of_Z 1)); Some (VString [104; 105]); Some (VObject 2%nat)]]>
  (<[2%nat := OPlain false false [([97], VNumber (num_of_Z (-500))); ([98], VUndefined)]]> ∅).
(** An object whose property [self] is the object. *)
Definition cyclic_heap : js_heap :=
  {[1%nat := OPlain false false [([115; 101; 108; 102], VObject 1%nat)]]}.

Lemma sample_heap_wf : heap_wf sample_heap.
Proof.
  unfold heap_wf, sample_heap. intros l ob. rewrite !lookup_insert, lookup_empty. repeat case_decide; try done.
  - intros [= <-]. simpl. intros v Hv. rewrite !elem_of_cons in Hv.
    destruct Hv as [[= ->]|[[= ->]|[[= ->]|Hv]]]; simpl; [done| |done|by apply not_elem_of_nil in Hv].
    repeat constructor; lia.
  - intros [= <-]. split_and!; [by apply (bool_decide_unpack _); vm_compute|done|].
    intros k v Hkv. rewrite !elem_of_cons in Hkv.
    destruct Hkv as [[= -> ->]|[[= -> ->]|Hv]]; [| |by apply not_elem_of_nil in Hv];
      (split; [repeat constructor; lia|done]).
Qed.
Lemma cyclic_heap_wf : heap_wf cyclic_heap.
Proof.
  unfold heap_wf, cyclic_heap. intros l ob. rewrite lookup_singleton. case_decide; [|done].
  intros [= <-]. split_and!; [by apply (bool_decide_unpack _); vm_compute|done|].
  intros k v Hkv. apply list_elem_of_singleton in Hkv as [= -> ->].
  split; [repeat constructor; lia|done].
Qed.

(** * The encoder against its specification

    [enc] is the wire form of a finite value, [unfolds] relates a reference into
    the heap to the finite value it denotes, and [fits] states the limits.  The
    encoder is correct when it succeeds exactly on the values that unfold to one
    that fits, with the wire form of it. *)

(** ** The wire form *)

Definition enc_number (n : number) : bytes :=
  match num_to_Z n with
  | Some z => if num_is_neg_zero n then 251 :: be8 (num_to_bits n)
              else if 0 <=? z then head_bytes 0 z else head_bytes 1 (-1 - z)
  | None => 251 :: be8 (num_to_bits n)
  end.
Definition enc_text (s : jsstring) : bytes :=
  head_bytes 3 (zlen (text_encode s)) ++ text_encode s.

Fixpoint enc (t : cval) : bytes :=
  match t with
  | CNull => [246]
  | CBool b => [if b then 245 else 244]
  | CNumber n => enc_number n
  | CString s => enc_text s
  | CBytes b => head_bytes 2 (zlen b) ++ b
  | CArray items => head_bytes 4 (zlen items) ++ concat (List.map enc items)
  | CMap props => head_bytes 5 (zlen props) ++
                  concat (List.map (fun kv => enc_text kv.1 ++ enc kv.2) props)
  end.

(** ** The limits *)

Definition number_ok (n : number) : Prop :=
  num_wf n = true /\ num_is_finite n = true /\
  (num_is_integer n = true -> num_is_safe_integer n = true).
Definition text_ok (o : ResolvedCborOptions) (s : jsstring) : Prop :=
  well_formed s /\ zlen (text_encode s) <= maxByteLength o.

Inductive fits (o : ResolvedCborOptions) : Z -> cval -> Prop :=
| fits_null d : d <= maxDepth o -> fits o d CNull
| fits_bool d b : d <= maxDepth o -> fits o d (CBool b)
| fits_number d n : d <= maxDepth o -> number_ok n -> fits o d (CNumber n)
| fits_string d s : d <= maxDepth o -> text_ok o s -> fits o d (CString s)
| fits_bytes d b : d <= maxDepth o -> Forall byte_ok b -> zlen b <= maxByteLength o ->
    fits o d (CBytes b)
| fits_array d items : d <= maxDepth o -> zlen items <= maxContainerLength o ->
    (forall t, t ∈ items -> fits o (d + 1) t) -> fits o d (CArray items)
| fits_map d props : d <= maxDepth o -> zlen props <= maxContainerLength o ->
    NoDup props.*1 -> own_order props = props ->
    (forall k t, (k, t) ∈ props -> text_ok o k /\ fits o (d + 1) t) -> fits o d (CMap props).

(** ** The value a reference denotes *)

Inductive unfolds (h : js_heap) : jsval -> cval -> Prop :=
| unfolds_null : unfolds h VNull CNull
| unfolds_bool b : unfolds h (VBool b) (CBool b)
| unfolds_number n : unfolds h (VNumber n) (CNumber n)
| unfolds_string s : unfolds h (VString s) (CString s)
| unfolds_bytes b : unfolds h (VBytes b) (CBytes b)
| unfolds_array l items ts : deref h l = OArray items -> unfolds_items h items ts ->
    unfolds h (VObject l) (CArray ts)
| unfolds_map l np props kvs : deref h l = OPlain np false props ->
    unfolds_props h (defined_entries props) kvs -> unfolds h (VObject l) (CMap kvs)
with unfolds_items (h : js_heap) : list (option jsval) -> list cval -> Prop :=
| unfolds_nil : unfolds_items h [] []
| unfolds_cons v t items ts : unfolds h v t -> unfolds_items h items ts ->
    unfolds_items h (Some v :: items) (t :: ts)
with unfolds_props (h : js_heap) : list (jsstring * jsval) -> list (jsstring * cval) -> Prop :=
| unfolds_pnil : unfolds_props h [] []
| unfolds_pcons k v t props kvs : unfolds h v t -> unfolds_props h props kvs ->
    unfolds_props h ((k, v) :: props) ((k, t) :: kvs).

Scheme unfolds_mut := Induction for unfolds Sort Prop
  with unfolds_items_mut := Induction for unfolds_items Sort Prop
  with unfolds_props_mut := Induction for unfolds_props Sort Prop.

Section unfolding.
Variable h : js_heap.

Lemma unfolds_det v t t' : unfolds h v t -> unfolds h v t' -> t = t'.
Proof.
  intros H. revert t'. revert v t H.
  apply (unfolds_mut h (fun v t _ => forall t', unfolds h v t' -> t = t')
    (fun items ts _ => forall ts', unfolds_items h items ts' -> ts = ts')
    (fun props kvs _ => forall kvs', unfolds_props h props kvs' -> kvs = kvs')).
  - by intros t' H; inversion H.
  - by intros b t' H; inversion H.
  - by intros n t' H; inversion H.
  - by intros s t' H; inversion H.
  - by intros b t' H; inversion H.
  - intros l items ts Hl _ IH t' H. inversion H; subst; [|congruence].
    f_equal. apply IH. congruence.
  - intros l np props kvs Hl _ IH t' H. inversion H; subst; [congruence|].
    f_equal. apply IH. congruence.
  - by intros ts' H; inversion H.
  - intros v t items ts _ IH _ IHs ts' H. inversion H; subst. f_equal; auto.
  - by intros kvs' H; inversion H.
  - intros k v t props kvs _ IH _ IHs kvs' H. inversion H; subst. f_equal; [f_equal|]; auto.
Qed.

(** The size of a finite value, by which a cyclic reference cannot unfold. *)
Fixpoint csize (t : cval) : nat :=
  match t with
  | CArray items => S (list_sum (List.map csize items))
  | CMap props => S (list_sum (List.map (fun kv => csize kv.2) props))
  | _ => 1
  end.

Definition children (l : js_loc) : list jsval :=
  match deref h l with
  | OArray items => omap id items
  | OPlain _ _ props => (defined_entries props).*2
  | OExotic => []
  end.

Lemma unfolds_items_child items ts v :
  unfolds_items h items ts -> v ∈ omap id items ->
  exists t, unfolds h v t /\ (csize t <= list_sum (List.map csize ts))%nat.
Proof.
  induction 1 as [|u t items ts Hu H IH]; simpl; [by intros ?%not_elem_of_nil|].
  intros [->|Hv]%elem_of_cons; [exists t; split; [done|lia]|].
  destruct (IH Hv) as (t' & ? & ?). exists t'. split; [done|lia].
Qed.
Lemma unfolds_props_child props kvs v :
  unfolds_props h props kvs -> v ∈ props.*2 ->
  exists t, unfolds h v t /\ (csize t <= list_sum (List.map (fun kv => csize kv.2) kvs))%nat.
Proof.
  induction 1 as [|k u t props kvs Hu H IH]; csimpl; [by intros ?%not_elem_of_nil|].
  intros [->|Hv]%elem_of_cons; [exists t; split; [done|lia]|].
  destruct (IH Hv) as (t' & ? & ?). exists t'. split; [done|lia].
Qed.

(** [reaches l v]: [v] lies strictly below the object [l]. *)
Inductive reaches : js_loc -> jsval -> Prop :=
| reaches_child l v : v ∈ children l -> reaches l v
| reaches_step l m v : reaches l (VObject m) -> v ∈ children m -> reaches l v.

Lemma child_smaller l v t :
  v ∈ children l -> unfolds h (VObject l) t ->
  exists t', unfolds h v t' /\ (csize t' < csize t)%nat.
Proof.
  unfold children. intros Hv H. inversion H as [| | | | |? items ts Hl Hi|? np props kvs Hl Hp]; subst;
    rewrite Hl in Hv.
  - destruct (unfolds_items_child _ _ _ Hi Hv) as (t' & ? & ?). exists t'. split; [done|simpl; lia].
  - destruct (unfolds_props_child _ _ _ Hp Hv) as (t' & ? & ?). exists t'. split; [done|simpl; lia].
Qed.
Lemma reaches_smaller l v t :
  reaches l v -> unfolds h (VObject l) t -> exists t', unfolds h v t' /\ (csize t' < csize t)%nat.
Proof.
  intros H Ht. induction H as [l v Hv|l m v H IH Hv].
  - by eapply child_smaller.
  - destruct (IH Ht) as (t1 & Hu & Hlt). destruct (child_smaller _ _ _ Hv Hu) as (t2 & ? & ?).
    exists t2. split; [done|lia].
Qed.
Lemma cyclic_never_unfolds l t : reaches l (VObject l) -> ~ unfolds h (VObject l) t.
Proof.
  intros Hr Hu. destruct (reaches_smaller _ _ _ Hr Hu) as (t' & Hu' & Hlt).
  rewrite (unfolds_det _ _ _ Hu Hu') in Hlt. lia.
Qed.

Lemma unfolds_props_keys props kvs : unfolds_props h props kvs -> kvs.*1 = props.*1.
Proof. induction 1; csimpl; congruence. Qed.
Lemma unfolds_props_length props kvs : unfolds_props h props kvs -> zlen kvs = zlen props.
Proof. intros H. apply unfolds_props_keys in H. unfold zlen. by rewrite <-(length_fmap fst kvs), H, length_fmap. Qed.
Lemma unfolds_items_length items ts : unfolds_items h items ts -> zlen ts = zlen items.
Proof. induction 1; [done|]. by rewrite !zlen_cons, IHunfolds_items. Qed.
End unfolding.

(** ** Primitive values *)

Lemma head_bytes_ok major v : 0 <= major < 8 -> 0 <= v -> Forall byte_ok (head_bytes major v).
Proof.
  intros Hm Hv. unfold head_bytes, byte_ok.
  destruct (Z.ltb_spec v 24); [repeat constructor; lia|].
  destruct (Z.leb_spec v 255); [repeat constructor; lia|].
  destruct (Z.leb_spec v 65535); [constructor; [lia|repeat constructor; apply mod_byte]|].
  destruct (Z.leb_spec v MAX_UINT32); constructor; first [lia|apply be4_bytes|apply be8_bytes].
Qed.

Lemma writes_encodeText o s :
  Forall (fun u => 0 <= u < 65536) s ->
  exists r : option bytes, writes (encodeText s o) r /\
    (forall bs, r = Some bs <-> text_ok o s /\ bs = enc_text s).
Proof.
  intros Hs. unfold encodeText. eexists. split.
  - apply writes_guard; [done|]. apply writes_guard; [done|].
    apply writes_seq; [apply writes_writeArgument; [lia|apply zlen_nonneg]|].
    by apply writes_writeBytes, text_encode_bytes.
  - intros bs. unfold text_ok, well_formed, enc_text. rewrite text_decode_encode by done.
    destruct (Z.ltb_spec (maxByteLength o) (zlen (text_encode s))); [split; [done|lia]|].
    case_bool_decide as Heq; simpl.
    + injection Heq as Heq. split; [intros [= <-]; done|by intros [_ ->]].
    + split; [done|]. intros [[[_ Hu] _] _]. by rewrite Hu in Heq.
Qed.

Lemma writes_encodeNumber n :
  num_wf n = true ->
  exists r : option bytes, writes (encodeNumber n) r /\
    (forall bs, r = Some bs <-> number_ok n /\ bs = enc_number n).
Proof.
  intros Hwf. unfold encodeNumber, number_ok, enc_number, num_is_integer, num_is_safe_integer.
  destruct (num_is_finite n) eqn:Hfin; simpl.
  2: { eexists. split; [by apply writes_throw|]. intros bs. split; [done|naive_solver]. }
  destruct (num_to_Z n) as [z|] eqn:Hz.
  - destruct (num_is_neg_zero n) eqn:Hneg.
    + eexists. split; [apply writes_writeFloat64|]. intros bs.
      assert (Z.abs z <= MAX_SAFE_INTEGER) as Hz0.
      { destruct n as [[]| | |]; try done. injection Hz as <-. by vm_compute. }
      rewrite (proj2 (Z.leb_le _ _) Hz0). naive_solver.
    + eexists. split.
      * apply (writes_guard _ _ (if 0 <=? z then writeArgument 0 z else writeArgument 1 (-1 - z))
          (Some (if 0 <=? z then head_bytes 0 z else head_bytes 1 (-1 - z)))); [done|].
        destruct (Z.leb_spec 0 z); apply writes_writeArgument; lia.
      * intros bs. destruct (Z.abs z <=? MAX_SAFE_INTEGER); simpl; naive_solver.
  - eexists. split; [apply writes_writeFloat64|]. intros bs. naive_solver.
Qed.

(** ** Property order is kept *)

Definition ranked {A} (props : list (jsstring * A)) : Prop :=
  StronglySorted (key_le (fun kv : jsstring * A => key_rank kv.1)) props.

Lemma own_order_ranked {A} (props : list (jsstring * A)) : own_order props = props <-> ranked props.
Proof.
  unfold own_order, ranked. split.
  - intros Heq. rewrite <-Heq. apply sort_by_sorted.
  - apply sort_by_id.
Qed.
Lemma ranked_keys {A B} (l : list (jsstring * A)) (k : list (jsstring * B)) :
  l.*1 = k.*1 -> ranked l -> ranked k.
Proof.
  unfold ranked. revert k. induction l as [|[x a] l IH]; intros [|[y b] k]; csimpl; try done;
    [by constructor|].
  intros [= -> Hk] [Hs Hall]%StronglySorted_inv. constructor; [by apply IH|].
  rewrite Forall_forall in Hall. apply Forall_forall. intros [z c] Hz. unfold key_le. simpl.
  assert (Hin : z ∈ l.*1) by (rewrite Hk; by apply (list_elem_of_fmap_2 fst _ (z, c))).
  apply list_elem_of_fmap in Hin as ([z' a'] & -> & Hin). exact (Hall _ Hin).
Qed.

Lemma deref_wf h l o : heap_wf h -> deref h l = o -> o <> OExotic -> object_wf o.
Proof. unfold deref. intros Hh <- Hne. destruct (h !! l) as [o|] eqn:Hl; simpl in *; [by eapply Hh|done]. Qed.

Lemma defined_keys props : NoDup props.*1 -> NoDup (defined_entries props).*1.
Proof.
  unfold defined_entries. induction props as [|[k v] props IH]; csimpl; [done|].
  intros [Hni Hnd]%NoDup_cons. destruct (match v with VUndefined => _ | _ => _ end); [|by apply IH].
  csimpl. apply NoDup_cons. split; [|by apply IH].
  intros Hin. apply Hni. apply list_elem_of_fmap in Hin as ([k' v'] & -> & Hin).
  apply elem_of_keep in Hin as [Hin _]. apply list_elem_of_fmap. by exists (k', v').
Qed.

(** ** The recursion *)

Section encoder.
Context (h : js_heap) (o : ResolvedCborOptions) (Hh : heap_wf h).

(** [f] writes what the finite value of [v] demands, or throws. *)
Definition encodes (f : W unit) (v : jsval) (depth : Z) : Prop :=
  exists r : option bytes, writes f r /\
    forall bs, r = Some bs <-> exists t, unfolds h v t /\ fits o depth t /\ bs = enc t.

Lemma encodes_items items depth (f : option jsval -> W unit) :
  (forall v, Some v ∈ items -> encodes (f (Some v)) v depth) ->
  (None ∈ items -> writes (f None) None) ->
  exists r : option bytes, writes (forM_ items f) r /\
    forall bs, r = Some bs <-> exists ts, unfolds_items h items ts /\
      (forall t, t ∈ ts -> fits o depth t) /\ bs = concat (List.map enc ts).
Proof.
  induction items as [|it items IH]; intros Hv Hn; simpl.
  - exists (Some []). split; [apply writes_ret|]. intros bs. split.
    + intros [= <-]. exists []. split_and!; [constructor|by intros t ?%not_elem_of_nil|done].
    + intros (ts & H & _ & ->). by inversion H.
  - destruct it as [v|].
    2: { exists None. split; [apply writes_none, Hn; by left|]. intros bs. split; [done|].
         intros (ts & H & _). inversion H. }
    destruct IH as (rs & Hrs & Hspec); [intros; apply Hv; by right|intros; apply Hn; by right|].
    destruct (Hv v) as (r & Hr & Hrspec); [by left|].
    destruct r as [b|].
    + exists ((fun c => b ++ c) <$> rs). split; [by apply writes_seq|]. intros bs.
      destruct (proj1 (Hrspec b) eq_refl) as (t & Hu & Hf & Hb). split.
      * destruct rs as [c|]; [|done]. intros [= <-].
        destruct (proj1 (Hspec c) eq_refl) as (ts & Hts & Hfs & ->).
        exists (t :: ts). split_and!; [by constructor| |by subst b].
        intros x [->|Hx]%elem_of_cons; auto.
      * intros (ts & H & Hfs & ->). inversion H as [|? t' ? ts' Hu' Hts']; subst.
        rewrite <-(unfolds_det h _ _ _ Hu Hu') in *.
        assert (Hrest : forall x, x ∈ ts' -> fits o depth x) by (intros x Hx; apply Hfs; by right).
        by rewrite (proj2 (Hspec _) (ex_intro _ ts' (conj Hts' (conj Hrest eq_refl)))).
    + exists None. split; [by apply writes_none|]. intros bs. split; [done|].
      intros (ts & H & Hfs & _). inversion H as [|? t' ? ts' Hu' Hts']; subst.
      discriminate (proj2 (Hrspec (enc t')) (ex_intro _ t' (conj Hu' (conj (Hfs t' ltac:(by left)) eq_refl)))).
Qed.

Lemma encodes_props props depth (f : jsval -> W unit) :
  (forall k v, (k, v) ∈ props -> Forall (fun u => 0 <= u < 65536) k /\ encodes (f v) v depth) ->
  exists r : option bytes, writes (forM_ props (fun kv => encodeText kv.1 o;; f kv.2)) r /\
    forall bs, r = Some bs <-> exists kvs, unfolds_props h props kvs /\
      (forall k t, (k, t) ∈ kvs -> text_ok o k /\ fits o depth t) /\
      bs = concat (List.map (fun kv => enc_text kv.1 ++ enc kv.2) kvs).
Proof.
  induction props as [|[k v] props IH]; intros Hv; simpl.
  - exists (Some []). split; [apply writes_ret|]. intros bs. split.
    + intros [= <-]. exists []. split_and!; [constructor|by intros ?? ?%not_elem_of_nil|done].
    + intros (ts & H & _ & ->). by inversion H.
  - destruct IH as (rs & Hrs & Hspec); [intros; apply Hv; by right|].
    destruct (Hv k v) as [Hk (r & Hr & Hrspec)]; [by left|].
    destruct (writes_encodeText o k Hk) as (rk & Hwk & Hkspec).
    destruct rk as [bk|].
    2: { exists None. split; [by do 2 apply writes_none|]. intros bs. split; [done|].
         intros (kvs & H & Hf & _). inversion H; subst.
         destruct (Hf k t) as [Htk _]; [by left|].
         discriminate (proj2 (Hkspec (enc_text k)) (conj Htk eq_refl)). }
    destruct (proj1 (Hkspec bk) eq_refl) as [Htk ->].
    destruct r as [b|].
    + exists ((fun c => (enc_text k ++ b) ++ c) <$> rs).
      split.
      { apply writes_seq; [|done]. apply (writes_seq (encodeText k o) (f v) (enc_text k) (Some b)); done. }
      intros bs. destruct (proj1 (Hrspec b) eq_refl) as (t & Hu & Hf & Hb). split.
      * destruct rs as [c|]; [|done]. intros [= <-].
        destruct (proj1 (Hspec c) eq_refl) as (kvs & Hts & Hfs & ->).
        exists ((k, t) :: kvs). split_and!; [by constructor| |by subst b].
        intros k' x [[= -> ->]|Hx]%elem_of_cons; auto.
      * intros (kvs & H & Hfs & ->). inversion H as [|? ? t' ? ts' Hu' Hts']; subst.
        rewrite <-(unfolds_det h _ _ _ Hu Hu') in *.
        assert (Hrest : forall k' x, (k', x) ∈ ts' -> text_ok o k' /\ fits o depth x)
          by (intros k' x Hx; apply Hfs; by right).
        rewrite (proj2 (Hspec _) (ex_intro _ ts' (conj Hts' (conj Hrest eq_refl)))). done.
    + exists None. split.
      { apply writes_none. apply (writes_seq (encodeText k o) (f v) (enc_text k) None); done. }
      intros bs. split; [done|].
      intros (kvs & H & Hfs & _). inversion H as [|? ? t' ? ts' Hu' Hts']; subst.
      destruct (Hfs k t') as [_ Hft]; [by left|].
      discriminate (proj2 (Hrspec (enc t')) (ex_intro _ t' (conj Hu' (conj Hft eq_refl)))).
Qed.

Lemma reaches_child_of anc l v :
  (forall a, a ∈ anc -> reaches h a (VObject l)) -> v ∈ children h l ->
  forall a, a ∈ ({[l]} ∪ anc : gset js_loc) -> reaches h a v.
Proof.
  intros Hanc Hv a [->%elem_of_singleton|Ha]%elem_of_union; [by constructor|].
  eapply reaches_step; [by apply Hanc|done].
Qed.

(** A throwing method encodes what has no admissible unfolding. *)
Lemma encodes_none f v depth :
  writes f None -> (forall t, unfolds h v t -> ~ fits o depth t) -> encodes f v depth.
Proof.
  intros Hf Hno. exists None. split; [done|]. intros bs. split; [done|].
  intros (t & Hu & Hfit & _). by destruct (Hno t Hu).
Qed.
Lemma encodes_some f v depth t :
  writes f (Some (enc t)) -> unfolds h v t -> fits o depth t -> encodes f v depth.
Proof.
  intros Hf Hu Hfit. exists (Some (enc t)). split; [done|]. intros bs. split.
  - intros [= <-]. by exists t.
  - intros (t' & Hu' & _ & ->). by rewrite (unfolds_det h _ _ _ Hu Hu').
Qed.
Lemma encodes_guard c e f v depth :
  e <> StepBound -> (c = true -> forall t, unfolds h v t -> ~ fits o depth t) ->
  (c = false -> encodes f v depth) -> encodes (throw_if c e;; f) v depth.
Proof.
  intros He Hc Hf. destruct c.
  - apply encodes_none; [|by apply Hc]. apply writes_none, writes_throw, He.
  - exact (Hf eq_refl).
Qed.

Lemma fits_depth d t : fits o d t -> d <= maxDepth o.
Proof. by intros []. Qed.

Lemma encodeValue_spec fuel v depth anc :
  maxDepth o + 2 - depth <= Z.of_nat fuel -> depth <= maxDepth o + 1 -> prim_wf v ->
  (forall a, a ∈ anc -> reaches h a v) ->
  encodes (encodeValue fuel h o v depth anc) v depth.
Proof.
  revert v depth anc. induction fuel as [|fuel IH]; intros v depth anc Hfuel Hdepth Hv Hanc; [lia|].
  cbn [encodeValue]. apply encodes_guard; [done| |].
  { intros Hd%Z.ltb_lt t _ Hf%fits_depth. lia. }
  intros Hd%Z.ltb_ge.
  assert (Hchild : forall l u, (forall a, a ∈ anc -> reaches h a (VObject l)) -> u ∈ children h l ->
    prim_wf u -> encodes (encodeValue fuel h o u (depth + 1) ({[l]} ∪ anc)) u (depth + 1)).
  { intros l u Hal Hu Hwf. apply IH; [lia|lia|done|by apply reaches_child_of]. }
  destruct v as [| |b|n|s|b|l|t].
  - apply encodes_none; [by apply writes_throw|]. intros t H. inversion H.
  - apply (encodes_some _ _ _ CNull); [apply writes_writeByte|constructor|by constructor].
  - apply (encodes_some _ _ _ (CBool b)); [|constructor|by constructor].
    eapply writes_eq; [apply writes_writeByte|by destruct b].
  - destruct (writes_encodeNumber n Hv) as (r & Hr & Hspec). exists r. split; [done|].
    intros bs. rewrite Hspec. split.
    + intros [Hok ->]. exists (CNumber n). split_and!; [constructor|by constructor|done].
    + intros (t & Hu & Hf & ->). inversion Hu; subst. by inversion Hf.
  - destruct (writes_encodeText o s Hv) as (r & Hr & Hspec). exists r. split; [done|].
    intros bs. rewrite Hspec. split.
    + intros [Hok ->]. exists (CString s). split_and!; [constructor|by constructor|done].
    + intros (t & Hu & Hf & ->). inversion Hu; subst. by inversion Hf.
  - apply encodes_guard; [done| |].
    { intros Hl%Z.ltb_lt t Hu Hf. inversion Hu; subst. inversion Hf; subst. lia. }
    intros Hl%Z.ltb_ge. apply (encodes_some _ _ _ (CBytes b)); [|constructor|by constructor].
    apply (writes_seq _ _ _ (Some b)); [apply writes_writeArgument; [lia|apply zlen_nonneg]|].
    by apply writes_writeBytes.
  - destruct (deref h l) as [items|np symbols props|] eqn:Hl.
    + pose proof (deref_wf h l _ Hh Hl ltac:(done)) as Hwf. simpl in Hwf.
      apply encodes_guard; [done| |].
      { intros Hin%bool_decide_eq_true t Hu _. by destruct (cyclic_never_unfolds h l t (Hanc l Hin)). }
      intros _. apply encodes_guard; [done| |].
      { intros Hlen%Z.ltb_lt t Hu Hf. inversion Hu; subst; [|congruence]. inversion Hf; subst.
        simplify_eq. rewrite Hl in *. simplify_eq.
        match goal with H : unfolds_items _ _ _ |- _ => apply unfolds_items_length in H end. lia. }
      intros Hlen%Z.ltb_ge.
      destruct (encodes_items items (depth + 1) (fun item =>
        match item with
        | None | Some VUndefined =>
            throw (CborError "CBOR arrays must not contain holes or undefined values")
        | Some v => encodeValue fuel h o v (depth + 1) ({[l]} ∪ anc)
        end)) as (r & Hr & Hspec).
      { intros v Hin. assert (Hu : v ∈ children h l).
        { unfold children. rewrite Hl. apply list_elem_of_omap. by exists (Some v). }
        specialize (Hchild l v Hanc Hu (Hwf v Hin)).
        destruct v; try done. apply encodes_none; [by apply writes_throw|]. intros t H. inversion H. }
      { intros _. by apply writes_throw. }
      exists ((fun c => head_bytes 4 (zlen items) ++ c) <$> r). split.
      { apply writes_seq; [apply writes_writeArgument; [lia|apply zlen_nonneg]|done]. }
      intros bs. split.
      * destruct r as [c|]; [|done]. intros [= <-].
        destruct (proj1 (Hspec c) eq_refl) as (ts & Hts & Hfs & ->).
        exists (CArray ts). pose proof (unfolds_items_length h _ _ Hts) as Hlts.
        split_and!; [by eapply unfolds_array| |simpl; by rewrite Hlts].
        apply fits_array; [done|lia|done].
      * intros (t & Hu & Hf & ->). inversion Hu; subst; [|congruence]. inversion Hf; subst.
        rewrite Hl in *. simplify_eq.
        match goal with Hts : unfolds_items h _ ?ts, Hfs : forall t, t ∈ ?ts -> _ |- _ =>
          rewrite (proj2 (Hspec _) (ex_intro _ ts (conj Hts (conj Hfs eq_refl))));
          simpl; by rewrite (unfolds_items_length h _ _ Hts) end.
    + pose proof (deref_wf h l _ Hh Hl ltac:(done)) as (Hnd & Hord & Hwf).
      apply encodes_guard; [done| |].
      { intros Hin%bool_decide_eq_true t Hu _. by destruct (cyclic_never_unfolds h l t (Hanc l Hin)). }
      intros _. apply encodes_guard; [done| |].
      { intros -> t Hu _. inversion Hu; subst; congruence. }
      intros ->. apply encodes_guard; [done| |].
      { intros Hlen%Z.ltb_lt t Hu Hf. inversion Hu; subst; [congruence|]. inversion Hf; subst.
        rewrite Hl in *. simplify_eq.
        match goal with H : unfolds_props _ _ _ |- _ => apply unfolds_props_length in H end. lia. }
      intros Hlen%Z.ltb_ge.
      destruct (encodes_props (defined_entries props) (depth + 1)
        (fun v => encodeValue fuel h o v (depth + 1) ({[l]} ∪ anc))) as (r & Hr & Hspec).
      { intros k v Hin. assert (Hin' := Hin). unfold defined_entries in Hin'.
        apply elem_of_keep in Hin' as [Hin' _]. destruct (Hwf k v Hin') as [Hk Hpv]. split; [done|].
        apply Hchild; [done| |done]. unfold children. rewrite Hl.
        by apply (list_elem_of_fmap_2 snd _ (k, v)). }
      exists ((fun c => head_bytes 5 (zlen (defined_entries props)) ++ c) <$> r). split.
      { apply writes_seq; [apply writes_writeArgument; [lia|apply zlen_nonneg]|done]. }
      intros bs. split.
      * destruct r as [c|]; [|done]. intros [= <-].
        destruct (proj1 (Hspec c) eq_refl) as (kvs & Hts & Hfs & ->).
        exists (CMap kvs). pose proof (unfolds_props_length h _ _ Hts) as Hlts.
        pose proof (unfolds_props_keys h _ _ Hts) as Hkeys.
        split_and!; [by eapply unfolds_map| |simpl; by rewrite Hlts].
        apply fits_map; [done|lia|rewrite Hkeys; by apply defined_keys| |done].
        apply own_order_ranked. apply own_order_ranked in Hord.
        eapply ranked_keys; [symmetry; exact Hkeys|]. by apply keep_sorted.
      * intros (t & Hu & Hf & ->). inversion Hu; subst; [congruence|]. inversion Hf; subst.
        rewrite Hl in *. simplify_eq.
        match goal with Hts : unfolds_props h _ ?ts, Hfs : forall k t, (k, t) ∈ ?ts -> _ |- _ =>
          rewrite (proj2 (Hspec _) (ex_intro _ ts (conj Hts (conj Hfs eq_refl))));
          simpl; by rewrite (unfolds_props_length h _ _ Hts) end.
    + apply encodes_none; [by apply writes_throw|]. intros t H. inversion H; congruence.
  - apply encodes_none; [by apply writes_throw|]. intros t' H. inversion H.
Qed.
End encoder.

(** ** [encodeCbor] *)

Lemma new_writer_ok max : 0 <= max -> writer_ok (new_CborWriter max) /\ written (new_CborWriter max) = [].
Proof.
  intros Hm. split; [constructor; simpl|done].
  - rewrite zlen_repeat. lia.
  - rewrite zlen_repeat. lia.
  - apply repeat_bytes.
Qed.

Lemma encodeCbor_iff h v o bs :
  heap_wf h -> prim_wf v ->
  encodeCbor h v o = Ok bs <->
  exists r t, resolveOptions o = Ok r /\ unfolds h v t /\ fits r 0 t /\ bs = enc t /\
    zlen bs <= maxByteLength r.
Proof.
  intros Hh Hv. unfold encodeCbor. mrun.
  destruct (resolveOptions o) as [r|e] eqn:Hr; [|split; [done|by intros (? & ? & [=] & _)]].
  pose proof (resolveOptions_ok _ _ Hr) as (Hb & _ & Hd).
  destruct (new_writer_ok (maxByteLength r)) as [Hw Hc]; [lia|].
  destruct (encodeValue_spec h r Hh (depth_fuel r) v 0 ∅) as (ob & Hob & Hspec);
    [unfold depth_fuel; lia|lia|done|by intros a ?%elem_of_empty|].
  specialize (Hob _ Hw). destruct ob as [b|].
  - destruct (proj1 (Hspec b) eq_refl) as (t & Hu & Hf & Hbt).
    rewrite Hc, zlen_nil, Z.add_0_l in Hob. simpl in Hob. revert Hob.
    destruct (Z.leb_spec (zlen b) (maxByteLength r)); intros Hob.
    + destruct Hob as (w' & -> & _ & Hcw & _). change (finish w') with (written w').
      rewrite Hcw. simpl. split.
      * intros [= <-]. by exists r, t.
      * intros (r' & t' & [= <-] & Hu' & _ & -> & _). by rewrite Hbt, (unfolds_det h _ _ _ Hu Hu').
    + destruct Hob as (w' & e & -> & _). split; [done|].
      intros (r' & t' & [= <-] & Hu' & _ & -> & Hlen).
      rewrite <-(unfolds_det h _ _ _ Hu Hu'), <-Hbt in Hlen. lia.
  - destruct Hob as (w' & e & -> & _). split; [done|].
    intros (r' & t' & [= <-] & Hu' & Hf' & _).
    discriminate (proj2 (Hspec (enc t')) (ex_intro _ t' (conj Hu' (conj Hf' eq_refl)))).
Qed.

(** The encoder is correct and complete: for every object graph it succeeds
    exactly when the value denotes a finite tree (no cycle, hole, undefined
    element, symbol key or exotic object) whose depth, containers, numbers and
    strings are within the limits and whose wire form fits the byte limit, and it
    then returns that wire form. *)
Theorem encodeCbor_correct h v o bs :
  heap_wf h -> prim_wf v ->
  encodeCbor h v o = Ok bs <->
  exists r t, resolveOptions o = Ok r /\ unfolds h v t /\ fits r 0 t /\ bs = enc t /\
    zlen bs <= maxByteLength r.
Proof. apply encodeCbor_iff. Qed.

Lemma encodeCbor_correct_witness :
  encodeCbor sample_heap (VObject 1%nat) no_cbor_options
    = Ok [131; 1; 98; 104; 105; 161; 97; 97; 57; 1; 243] <->
  exists r t, resolveOptions no_cbor_options = Ok r /\ unfolds sample_heap (VObject 1%nat) t /\
    fits r 0 t /\ [131; 1; 98; 104; 105; 161; 97; 97; 57; 1; 243] = enc t /\
    zlen [131; 1; 98; 104; 105; 161; 97; 97; 57; 1; 243] <= maxByteLength r.
Proof. apply encodeCbor_correct; [exact sample_heap_wf|exact I]. Defined.

Lemma encodeCbor_not_bound h v o :
  heap_wf h -> prim_wf v -> encodeCbor h v o <> Err StepBound.
Proof.
  intros Hh Hv. unfold encodeCbor. mrun. destruct (resolveOptions o) as [r|e] eqn:Hr.
  - pose proof (resolveOptions_ok _ _ Hr) as (Hb & _ & Hd).
    destruct (new_writer_ok (maxByteLength r)) as [Hw Hc]; [lia|].
    destruct (encodeValue_spec h r Hh (depth_fuel r) v 0 ∅) as (ob & Hob & Hspec);
      [unfold depth_fuel; lia|lia|done|by intros a ?%elem_of_empty|].
    specialize (Hob _ Hw). destruct ob as [b|]; cbv beta iota in Hob;
      [revert Hob; destruct (_ <=? _); intros Hob|].
    + by destruct Hob as (w' & -> & _).
    + destruct Hob as (w' & e & -> & He). congruence.
    + destruct Hob as (w' & e & -> & He). congruence.
  - pose proof (resolveOptions_not_bound o) as Hnb. rewrite Hr in Hnb. congruence.
Qed.

(** The encoder's recursion is bounded by the depth limit on every graph,
    cyclic ones included: the step bound is never exhausted, and a reference that
    reaches itself is always rejected. *)
Theorem encodeCbor_terminates h v o :
  heap_wf h -> prim_wf v ->
  encodeCbor h v o <> Err StepBound /\
  (forall l, v = VObject l -> reaches h l v -> exists e, encodeCbor h v o = Err e).
Proof.
  intros Hh Hv. split; [by apply encodeCbor_not_bound|].
  intros l -> Hreach. destruct (encodeCbor h (VObject l) o) as [bs|e] eqn:He; [|by eexists].
  apply encodeCbor_iff in He as (r & t & _ & Hu & _); [|done|done].
  by apply cyclic_never_unfolds in Hu.
Qed.
Lemma encodeCbor_terminates_witness :
  reaches cyclic_heap 1%nat (VObject 1%nat) /\
  (encodeCbor cyclic_heap (VObject 1%nat) no_cbor_options <> Err StepBound /\
   (forall l, VObject 1%nat = VObject l -> reaches cyclic_heap l (VObject 1%nat) ->
      exists e, encodeCbor cyclic_heap (VObject 1%nat) no_cbor_options = Err e)).
Proof.
  split; [apply reaches_child; left|].
  apply (encodeCbor_terminates cyclic_heap (VObject 1%nat)); [exact cyclic_heap_wf|exact I].
Defined.
