(* ===== verification/CborSound.v ===== *)
(** * The decoder against the wire form

    [readItem] reads back every wire form [enc t] of a value that fits, wherever
    it stands in the input; conversely whatever the decoder accepts fits the
    limits and has a wire form no longer than the input. *)
From S2P Require Import Prelude JsNumber JsText JsValue CborEncoder CborDecoder CborWriter CborEncoding.

#[local] Ltac Zify.zify_post_hook ::= Z.to_euclidean_division_equations.

(** [f] reads [n] bytes at [pre] and returns [a]. *)
Definition reads {A} (f : R A) (pre n : Z) (a : A) : Prop := f pre = (pre + n, Ok a).

Lemma reads_bind {A B} (f : R A) (k : A -> R B) pre n m a b :
  reads f pre n a -> reads (k a) (pre + n) m b -> reads (f ≫= k) pre (n + m) b.
Proof. unfold reads. mrun. intros -> ->. by rewrite Z.add_assoc. Qed.
Lemma reads_ret {A} (a : A) pre : reads (mret a) pre 0 a.
Proof. unfold reads. mrun. by rewrite Z.add_0_r. Qed.
Lemma reads_then {A B} (f : R A) (k : A -> R B) pre n a b :
  reads f pre n a -> reads (k a) (pre + n) 0 b -> reads (f ≫= k) pre n b.
Proof. intros. rewrite <-(Z.add_0_r n). by eapply reads_bind. Qed.
Lemma reads_guard {B} (c : bool) e (k : R B) pre n b :
  c = false -> reads k pre n b -> reads (throw_if c e;; k) pre n b.
Proof. by intros ->. Qed.

(** ** Bytes and arguments *)

Lemma readByte_at input pre b post :
  input = pre ++ b :: post -> reads (readByte input) (zlen pre) 1 b.
Proof.
  intros ->. unfold reads, readByte. mrun. unfold zlen. rewrite at_index_nat.
  by rewrite list_lookup_middle.
Qed.
Lemma readBytes_at input pre bs post :
  input = pre ++ bs ++ post -> reads (readBytes input (zlen bs)) (zlen pre) (zlen bs) bs.
Proof.
  intros ->. unfold reads, readBytes. mrun. rewrite !zlen_app. pose proof (zlen_nonneg post).
  rewrite (proj2 (Z.ltb_ge _ _)) by lia. unfold zlen. rewrite !Nat2Z.id, drop_app_length.
  by rewrite take_app_length.
Qed.
Lemma readBytes_n input pre bs post n :
  n = zlen bs -> input = pre ++ bs ++ post -> reads (readBytes input n) (zlen pre) n bs.
Proof. intros ->. apply readBytes_at. Qed.

Lemma be2_value v : 0 <= v < 65536 -> be_value (be2 v) = v.
Proof. intros Hv. unfold be_value, be2. simpl. lia. Qed.
Lemma be4_value v : 0 <= v < UINT32_BASE -> be_value (be4 v) = v.
Proof. unfold UINT32_BASE. intros Hv. unfold be_value, be4. simpl. lia. Qed.
Lemma be8_value v : 0 <= v < 2 ^ 64 -> be_value (be8 v) = v.
Proof.
  intros Hv. unfold be8, be_value. rewrite foldl_app. fold (be_value (be4 (v / UINT32_BASE))).
  rewrite be4_value by (unfold UINT32_BASE; lia). unfold be4, UINT32_BASE. simpl. lia.
Qed.

Lemma readUint32_at input pre v post :
  0 <= v < UINT32_BASE -> input = pre ++ be4 v ++ post ->
  reads (readUint32 input) (zlen pre) 4 v.
Proof.
  intros Hv Hin. unfold readUint32. apply (reads_bind _ _ _ 4 0 (be4 v)).
  - by apply (readBytes_n _ _ _ post).
  - rewrite be4_value by done. apply reads_ret.
Qed.

(** The additional information and the argument bytes of a head. *)
Lemma head_bytes_split major v :
  0 <= major < 8 -> 0 <= v <= MAX_SAFE_INTEGER ->
  exists ai tail, head_bytes major v = (major * 32 + ai) :: tail /\ 0 <= ai < 31 /\
    forall input pre post, input = pre ++ tail ++ post ->
      reads (readArgument input ai) (zlen pre) (zlen tail) v.
Proof.
  unfold MAX_SAFE_INTEGER. intros Hm Hv. unfold head_bytes.
  destruct (Z.ltb_spec v 24).
  { exists v, []. split_and!; [done|lia|lia|]. intros input pre post _. unfold readArgument.
    rewrite (proj2 (Z.ltb_lt v 24)) by done. apply reads_ret. }
  destruct (Z.leb_spec v 255).
  { exists 24, [v]. split_and!; [done|lia|lia|]. intros input pre post ->. by eapply readByte_at. }
  destruct (Z.leb_spec v 65535).
  { exists 25, (be2 v). split_and!; [done|lia|lia|]. intros input pre post Hin. unfold readArgument. simpl.
    apply (reads_bind _ _ _ 2 0 (be2 v)); [by apply (readBytes_n _ _ _ post)|].
    rewrite be2_value by lia. apply reads_ret. }
  unfold MAX_UINT32. destruct (Z.leb_spec v 4294967295).
  { exists 26, (be4 v). split_and!; [done|lia|lia|]. intros input pre post Hin.
    apply (readUint32_at _ _ _ post); [unfold UINT32_BASE; lia|done]. }
  exists 27, (be8 v). split_and!; [done|lia|lia|]. intros input pre post Hin. unfold readArgument. simpl.
  change (zlen (be8 v)) with (4 + (4 + 0)). unfold be8 in Hin. rewrite <-(assoc_L (++)) in Hin.
  apply (reads_bind _ _ _ 4 (4 + 0) (v / UINT32_BASE)).
  { apply (readUint32_at _ _ _ (be4 (v mod UINT32_BASE) ++ post)); [unfold UINT32_BASE; lia|done]. }
  replace (zlen pre + 4) with (zlen (pre ++ be4 (v / UINT32_BASE))) by (rewrite zlen_app; done).
  apply (reads_bind _ _ _ 4 0 (v mod UINT32_BASE)).
  { apply (readUint32_at _ _ _ post); [unfold UINT32_BASE; lia|by rewrite <-(assoc_L (++))]. }
  apply reads_guard; [apply Z.ltb_ge; unfold UINT32_BASE; lia|].
  replace (v / UINT32_BASE * UINT32_BASE + v mod UINT32_BASE) with v by (unfold UINT32_BASE; lia).
  apply reads_ret.
Qed.

Lemma initial_split major ai :
  0 <= major < 8 -> 0 <= ai < 32 ->
  Z.shiftr (major * 32 + ai) 5 = major /\ Z.land (major * 32 + ai) 31 = ai.
Proof.
  intros Hm Ha. rewrite Z.shiftr_div_pow2 by lia. change (2 ^ 5) with 32.
  change 31 with (Z.ones 5). rewrite Z.land_ones by lia. change (2 ^ 5) with 32. lia.
Qed.

Lemma readLength_at input pre n ai kind limit v :
  ai < 31 -> v <= limit -> reads (readArgument input ai) pre n v ->
  reads (readLength input ai kind limit) pre n v.
Proof.
  intros Ha Hv Hr. unfold readLength. apply reads_guard; [apply Z.eqb_neq; lia|].
  eapply reads_then; [exact Hr|]. apply reads_guard; [apply Z.ltb_ge; lia|apply reads_ret].
Qed.

(** ** Reading back a wire form *)

Section decoder.
Context (o : ResolvedCborOptions) (Ho : options_ok o).

Lemma options_safe v : v <= maxByteLength o \/ v <= maxContainerLength o -> v <= MAX_SAFE_INTEGER.
Proof. destruct Ho as (H1 & H2 & _). unfold MAX_UINT32, MAX_SAFE_INTEGER in *. lia. Qed.

(** The first byte of an item selects the branch of [readItem]. *)
Lemma readItem_head input pre major ai rest depth fuel n t :
  0 <= major < 8 -> 0 <= ai < 32 -> depth <= maxDepth o ->
  input = pre ++ (major * 32 + ai) :: rest ->
  reads (let pre' := zlen pre + 1 in
    if major =? 0 then
      value ← readArgument input ai; mret (CNumber (num_of_Z value))
    else if major =? 1 then
      argument ← readArgument input ai;
      throw_if (negb (Z.abs (-1 - argument) <=? MAX_SAFE_INTEGER)) safe_integer_error;;
      mret (CNumber (num_of_Z (-1 - argument)))
    else if major =? 2 then
      length ← readLength input ai "byte string" (maxByteLength o);
      b ← readBytes input length; mret (CBytes b)
    else if major =? 3 then
      length ← readLength input ai "text string" (maxByteLength o);
      b ← readBytes input length;
      match text_decode b with
      | Some s => mret (CString s)
      | None => throw (CborError "CBOR text string contains invalid UTF-8")
      end
    else if major =? 4 then
      length ← readLength input ai "array" (maxContainerLength o);
      items ← read_n (Z.to_nat length) (readItem input o fuel (depth + 1));
      mret (CArray items)
    else if major =? 5 then
      length ← readLength input ai "map" (maxContainerLength o);
      props ← read_entries (Z.to_nat length) [] (readItem input o fuel (depth + 1));
      mret (CMap (own_order props))
    else if major =? 6 then throw (CborError "CBOR tags are not supported")
    else if major =? 7 then readSimple input ai
    else throw (CborError "Malformed CBOR major type")) (zlen pre + 1) n t ->
  reads (readItem input o (S fuel) depth) (zlen pre) (1 + n) t.
Proof.
  intros Hm Ha Hd Hin Hrest. cbn [readItem]. apply reads_guard; [apply Z.ltb_ge; lia|].
  eapply reads_bind; [by eapply readByte_at|]. cbv zeta.
  destruct (initial_split major ai Hm Ha) as [-> ->]. exact Hrest.
Qed.

Lemma readItem_number n input pre post depth fuel :
  number_ok n -> depth <= maxDepth o -> input = pre ++ enc_number n ++ post ->
  reads (readItem input o (S fuel) depth) (zlen pre) (zlen (enc_number n)) (CNumber n).
Proof.
  intros (Hwf & Hfin & Hsafe) Hd Hin. unfold num_is_integer, num_is_safe_integer in Hsafe.
  assert (Hfloat : input = pre ++ (251 :: be8 (num_to_bits n)) ++ post ->
    (num_is_integer n = true -> num_is_safe_integer n = true) ->
    reads (readItem input o (S fuel) depth) (zlen pre) (zlen (251 :: be8 (num_to_bits n))) (CNumber n)).
  { intros Hf Hs. change (251 :: be8 (num_to_bits n)) with ((7 * 32 + 27) :: be8 (num_to_bits n)) in Hf |- *.
    rewrite zlen_cons. eapply (readItem_head _ _ 7 27); [lia|lia|done|exact Hf|]. simpl. unfold readSimple. simpl.
    replace (zlen pre + 1) with (zlen (pre ++ [251])) by (rewrite zlen_app; done).
    change (zlen (be8 (num_to_bits n))) with (8 + 0).
    apply (reads_bind _ _ _ 8 0 (be8 (num_to_bits n))).
    { apply (readBytes_n _ _ _ post); [done|]. rewrite Hf. by rewrite <-(assoc_L (++)). }
    rewrite be8_value by by apply num_to_bits_range. rewrite num_of_bits_to_bits by done.
    apply reads_guard; [by rewrite Hfin|]. apply reads_guard; [|apply reads_ret].
    destruct (num_is_integer n) eqn:Hi; [|done]. by rewrite Hs. }
  unfold enc_number in *. destruct (num_to_Z n) as [z|] eqn:Hz.
  2: { apply Hfloat; [done|]. unfold num_is_integer. by rewrite Hz. }
  destruct (num_is_neg_zero n) eqn:Hneg.
  { apply Hfloat; [done|]. unfold num_is_integer, num_is_safe_integer. by rewrite Hz. }
  specialize (Hsafe eq_refl). apply Z.leb_le in Hsafe.
  pose proof (num_of_Z_to_Z n z Hwf Hneg Hz Hsafe) as Hback.
  destruct (Z.leb_spec 0 z) as [Hpos|Hlt].
  - destruct (head_bytes_split 0 z) as (ai & tail & Hh & Hai & Harg); [lia|lia|].
    rewrite Hh in *. rewrite zlen_cons. eapply (readItem_head _ _ 0 ai); [lia|lia|done|exact Hin|]. simpl.
    replace (zlen pre + 1) with (zlen (pre ++ [ai])) by (rewrite zlen_app; done).
    eapply reads_then.
    { apply (Harg input _ post). rewrite Hin. by rewrite <-(assoc_L (++)). }
    rewrite Hback. apply reads_ret.
  - destruct (head_bytes_split 1 (-1 - z)) as (ai & tail & Hh & Hai & Harg); [lia|lia|].
    rewrite Hh in *. rewrite zlen_cons. eapply (readItem_head _ _ 1 ai); [lia|lia|done|exact Hin|]. simpl.
    replace (zlen pre + 1) with (zlen (pre ++ [1 * 32 + ai])) by (rewrite zlen_app; done).
    eapply reads_then.
    { apply (Harg input _ post). rewrite Hin. by rewrite <-(assoc_L (++)). }
    replace (-1 - (-1 - z)) with z by lia. apply reads_guard; [|rewrite Hback; apply reads_ret].
    apply negb_false_iff, Z.leb_le. lia.
Qed.

(** An item whose payload follows a length: byte and text strings. *)
Lemma head_payload major payload input pre post :
  0 <= major < 8 -> zlen payload <= MAX_SAFE_INTEGER ->
  input = pre ++ (head_bytes major (zlen payload) ++ payload) ++ post ->
  exists ai tail, head_bytes major (zlen payload) = (major * 32 + ai) :: tail /\ 0 <= ai < 31 /\
    input = pre ++ (major * 32 + ai) :: tail ++ payload ++ post /\
    reads (readArgument input ai) (zlen pre + 1) (zlen tail) (zlen payload) /\
    reads (readBytes input (zlen payload)) (zlen pre + 1 + zlen tail) (zlen payload) payload.
Proof.
  intros Hm Hl Hin.
  destruct (head_bytes_split major (zlen payload)) as (ai & tail & Hh & Hai & Harg);
    [done|pose proof (zlen_nonneg payload); lia|].
  exists ai, tail. rewrite Hh in Hin. simpl in Hin.
  assert (Hin' : input = (pre ++ [major * 32 + ai]) ++ tail ++ payload ++ post).
  { rewrite Hin, <-!(assoc_L (++)). simpl. done. }
  split_and!; [done|lia|lia|by rewrite Hin, <-!(assoc_L (++))|..].
  - replace (zlen pre + 1) with (zlen (pre ++ [major * 32 + ai])) by (rewrite zlen_app; done).
    by apply (Harg _ _ (payload ++ post)).
  - replace (zlen pre + 1 + zlen tail) with (zlen ((pre ++ [major * 32 + ai]) ++ tail))
      by (rewrite !zlen_app; done).
    apply (readBytes_at _ _ _ post). by rewrite Hin', <-!(assoc_L (++)).
Qed.

Lemma readItem_text s input pre post depth fuel :
  text_ok o s -> depth <= maxDepth o -> input = pre ++ enc_text s ++ post ->
  reads (readItem input o (S fuel) depth) (zlen pre) (zlen (enc_text s)) (CString s).
Proof.
  intros [Hwf Hlen] Hd Hin. unfold enc_text in *.
  destruct (head_payload 3 (text_encode s) input pre post) as (ai & tail & Hh & Hai & Hin' & Harg & Hb);
    [lia|by apply options_safe; left|done|].
  rewrite Hh. simpl. rewrite zlen_cons, zlen_app.
  eapply (readItem_head _ _ 3 ai); [lia|lia|done|exact Hin'|]. simpl.
  eapply reads_bind; [apply readLength_at; [lia|exact Hlen|exact Harg]|].
  eapply reads_then; [exact Hb|].
  rewrite text_decode_encode_wf by done. apply reads_ret.
Qed.

Lemma readItem_bytes b input pre post depth fuel :
  zlen b <= maxByteLength o -> depth <= maxDepth o ->
  input = pre ++ (head_bytes 2 (zlen b) ++ b) ++ post ->
  reads (readItem input o (S fuel) depth) (zlen pre) (zlen (head_bytes 2 (zlen b) ++ b)) (CBytes b).
Proof.
  intros Hlen Hd Hin.
  destruct (head_payload 2 b input pre post) as (ai & tail & Hh & Hai & Hin' & Harg & Hb);
    [lia|by apply options_safe; left|done|].
  rewrite Hh. simpl. rewrite zlen_cons, zlen_app.
  eapply (readItem_head _ _ 2 ai); [lia|lia|done|exact Hin'|]. simpl.
  eapply reads_bind; [apply readLength_at; [lia|exact Hlen|exact Harg]|].
  eapply reads_then; [exact Hb|apply reads_ret].
Qed.
Lemma readItem_simple ai t input pre post depth fuel :
  (ai = 20 /\ t = CBool false) \/ (ai = 21 /\ t = CBool true) \/ (ai = 22 /\ t = CNull) ->
  depth <= maxDepth o -> input = pre ++ [7 * 32 + ai] ++ post ->
  reads (readItem input o (S fuel) depth) (zlen pre) 1 t.
Proof.
  intros Ht Hd Hin. apply (readItem_head _ _ 7 ai post _ _ 0); [lia|lia|done|exact Hin|].
  simpl. destruct Ht as [[-> ->]|[[-> ->]|[-> ->]]]; apply reads_ret.
Qed.

(** ** Containers *)

Lemma reads_items input (item : R cval) ts pre post :
  input = pre ++ concat (List.map enc ts) ++ post ->
  (forall t pre post, t ∈ ts -> input = pre ++ enc t ++ post ->
     reads item (zlen pre) (zlen (enc t)) t) ->
  reads (read_n (length ts) item) (zlen pre) (zlen (concat (List.map enc ts))) ts.
Proof.
  revert pre. induction ts as [|t ts IH]; intros pre Hin Hitem; simpl; [apply reads_ret|].
  simpl in Hin. rewrite <-(assoc_L (++)) in Hin. rewrite zlen_app. eapply reads_bind.
  { eapply Hitem; [by left|exact Hin]. }
  rewrite <-zlen_app. eapply reads_then; [|apply reads_ret]. apply IH.
  - by rewrite Hin, (assoc_L (++)).
  - intros t' pre' post' Ht'. apply Hitem. by right.
Qed.

Lemma reads_props input (item : R cval) kvs keys pre post :
  NoDup kvs.*1 -> (forall k, k ∈ kvs.*1 -> k ∉ keys) ->
  input = pre ++ concat (List.map (fun kv => enc_text kv.1 ++ enc kv.2) kvs) ++ post ->
  (forall k t pre post, (k, t) ∈ kvs -> input = pre ++ enc_text k ++ post ->
     reads item (zlen pre) (zlen (enc_text k)) (CString k)) ->
  (forall k t pre post, (k, t) ∈ kvs -> input = pre ++ enc t ++ post ->
     reads item (zlen pre) (zlen (enc t)) t) ->
  reads (read_entries (length kvs) keys item) (zlen pre)
    (zlen (concat (List.map (fun kv => enc_text kv.1 ++ enc kv.2) kvs))) kvs.
Proof.
  revert keys pre. induction kvs as [|[k t] kvs IH]; intros keys pre Hnd Hkeys Hin Hk Ht; simpl;
    [apply reads_ret|].
  csimpl in Hnd. apply NoDup_cons in Hnd as [Hni Hnd]. simpl in Hin.
  rewrite <-!(assoc_L (++)) in Hin. rewrite <-(assoc_L (++)), !zlen_app.
  eapply reads_bind; [eapply Hk; [by left|exact Hin]|]. rewrite <-zlen_app.
  apply reads_guard; [apply bool_decide_eq_false, Hkeys; by left|].
  rewrite (assoc_L (++)) in Hin.
  eapply reads_bind; [eapply Ht; [by left|exact Hin]|]. rewrite <-zlen_app.
  rewrite (assoc_L (++)) in Hin.
  eapply reads_then; [|apply reads_ret]. apply IH; [done| |exact Hin|..].
  - intros k' Hk' [->|Hin']%elem_of_cons; [done|]. apply (Hkeys k'); [by right|done].
  - intros k' t' pre' post' Hin'. apply (Hk k' t'). by right.
  - intros k' t' pre' post' Hin'. apply (Ht k' t'). by right.
Qed.

(** Every value that fits is read back from its wire form. *)
Lemma readItem_enc t : forall input pre post depth fuel,
  fits o depth t -> maxDepth o - depth < Z.of_nat fuel -> input = pre ++ enc t ++ post ->
  reads (readItem input o fuel depth) (zlen pre) (zlen (enc t)) t.
Proof.
  induction t as [|b|n|s|b|items IH|props IH] using cval_nested_ind;
    intros input pre post depth fuel Hf Hfuel; inversion Hf; subst;
    (destruct fuel as [|fuel]; [lia|]); intros Hin.
  - apply (readItem_simple 22 _ _ _ post); [by do 2 right|done|done].
  - destruct b; [apply (readItem_simple 21 _ _ _ post)|apply (readItem_simple 20 _ _ _ post)];
      [by right; left|done|done|by left|done|done].
  - by apply (readItem_number _ _ _ post).
  - by apply (readItem_text _ _ _ post).
  - by apply (readItem_bytes _ _ _ post).
  - assert (Hl : zlen items <= MAX_SAFE_INTEGER) by by apply options_safe; right.
    rewrite Forall_forall in IH. cbn [enc].
    destruct (head_bytes_split 4 (zlen items)) as (ai & tail & Hh & Hai & Harg);
      [lia|pose proof (zlen_nonneg items); lia|].
    cbn [enc] in Hin. rewrite Hh in Hin |- *. cbn [app] in Hin |- *. rewrite zlen_cons, zlen_app.
    eapply (readItem_head _ _ 4 ai); [lia|lia|done|exact Hin|]. simpl.
    replace (zlen pre + 1) with (zlen (pre ++ [4 * 32 + ai])) by (rewrite zlen_app; done).
    assert (Hin' : input = (pre ++ [4 * 32 + ai]) ++ tail ++ concat (List.map enc items) ++ post)
      by (rewrite Hin; by rewrite <-!(assoc_L (++))).
    eapply reads_bind; [apply readLength_at; [lia|eassumption|by apply (Harg _ _ (concat (List.map enc items) ++ post))]|].
    rewrite <-zlen_app. unfold zlen at 1. rewrite Nat2Z.id.
    eapply reads_then; [|apply reads_ret]. apply (reads_items input _ _ _ post).
    + by rewrite Hin', <-!(assoc_L (++)).
    + intros t pre' post' Ht Ht'. eapply IH; [done|by eauto|lia|exact Ht'].
  - assert (Hl : zlen props <= MAX_SAFE_INTEGER) by by apply options_safe; right.
    rewrite Forall_forall in IH. cbn [enc].
    destruct (head_bytes_split 5 (zlen props)) as (ai & tail & Hh & Hai & Harg);
      [lia|pose proof (zlen_nonneg props); lia|].
    cbn [enc] in Hin. rewrite Hh in Hin |- *. cbn [app] in Hin |- *. rewrite zlen_cons, zlen_app.
    eapply (readItem_head _ _ 5 ai); [lia|lia|done|exact Hin|]. simpl.
    replace (zlen pre + 1) with (zlen (pre ++ [5 * 32 + ai])) by (rewrite zlen_app; done).
    assert (Hin' : input = (pre ++ [5 * 32 + ai]) ++ tail ++
        concat (List.map (fun kv => enc_text kv.1 ++ enc kv.2) props) ++ post)
      by (rewrite Hin; by rewrite <-!(assoc_L (++))).
    eapply reads_bind; [apply readLength_at; [lia|eassumption|by apply (Harg _ _ (concat (List.map (fun kv => enc_text kv.1 ++ enc kv.2) props) ++ post))]|].
    rewrite <-zlen_app. unfold zlen at 1. rewrite Nat2Z.id.
    eapply reads_then.
    2: { match goal with H : own_order props = props |- _ => rewrite H end. apply reads_ret. }
    apply (reads_props input _ _ _ _ post).
    + done.
    + by intros k _ ?%not_elem_of_nil.
    + by rewrite Hin', <-!(assoc_L (++)).
    + intros k t pre' post' Ht Heq. destruct fuel as [|fuel].
      { match goal with H : forall k t, _ -> text_ok _ _ /\ _ |- _ => destruct (H _ _ Ht) as [_ Hft] end.
        inversion Hft; lia. }
      match goal with H : forall k t, _ -> text_ok _ _ /\ _ |- _ => destruct (H _ _ Ht) as [Hk Hft] end.
      apply (readItem_text _ _ _ post'); [done|inversion Hft; lia|done].
    + intros k t pre' post' Ht Heq.
      match goal with H : forall k t, _ -> text_ok _ _ /\ _ |- _ => destruct (H _ _ Ht) as [Hk Hft] end.
      eapply (IH (k, t)); [done|exact Hft|lia|exact Heq].
Qed.
End decoder.

(** * What the decoder accepts

    On arbitrary bytes the decoder returns a value within the limits, whose wire
    form is no longer than the input, or an error; it never exhausts its step
    bound.  With the round trip above this makes decoding a retraction onto the wire
    form. *)

#[local] Ltac Zify.zify_post_hook ::= Z.to_euclidean_division_equations.

(** Opens one step of a reader that returned. *)
Tactic Notation "step" hyp(H) "as" ident(x) ident(E) :=
  let s := fresh "s" in apply M_bind_Ok in H as (s & x & E & H).
Ltac cond H :=
  let s := fresh "s" in let u := fresh "u" in let C := fresh "C" in
  apply M_bind_Ok in H as (s & u & [C ->]%throw_if_Ok & H).

Section reader.
Context (input : bytes) (Hin : Forall byte_ok input).

Lemma readByte_sound pre post b :
  0 <= pre -> readByte input pre = (post, Ok b) -> byte_ok b /\ post = pre + 1 /\ post <= zlen input.
Proof.
  intros Hp. unfold readByte. mrun. destruct (at_index input pre) as [v|] eqn:Hv; [|done].
  intros [= <- <-]. unfold at_index in Hv. destruct (pre <? 0); [done|].
  pose proof (lookup_lt_Some _ _ _ Hv) as Hlt. rewrite Forall_lookup in Hin.
  split; [by eapply Hin|]. unfold zlen. lia.
Qed.
Lemma readBytes_sound n pre post b :
  0 <= pre -> 0 <= n -> readBytes input n pre = (post, Ok b) ->
  Forall byte_ok b /\ zlen b = n /\ post = pre + n /\ post <= zlen input.
Proof.
  intros Hp Hn. unfold readBytes. mrun. destruct (Z.ltb_spec (zlen input - pre) n); [done|].
  intros [= <- <-]. split; [by apply Forall_take, Forall_drop|].
  unfold zlen in *. rewrite length_take, length_drop. lia.
Qed.

Lemma be_value_bound b : Forall byte_ok b -> 0 <= be_value b < 256 ^ zlen b.
Proof.
  unfold be_value. intros Hb.
  assert (Hgen : forall l a n, Forall byte_ok l -> 0 <= n -> 0 <= a < 256 ^ n ->
    0 <= foldl (fun a x => a * 256 + x) a l < 256 ^ (n + zlen l)).
  { clear Hin input. induction l as [|x l IH]; intros a n Hl Hn Ha.
    - unfold zlen. simpl. by rewrite Z.add_0_r.
    - apply Forall_cons in Hl as [Hx Hl]. unfold byte_ok in Hx. rewrite zlen_cons, Z.add_assoc.
      apply IH; [done|lia|]. rewrite Z.pow_add_r by lia. nia. }
  apply (Hgen b 0 0); [done|lia|lia].
Qed.

Lemma readUint32_sound pre post v :
  0 <= pre -> readUint32 input pre = (post, Ok v) ->
  0 <= v < UINT32_BASE /\ post = pre + 4 /\ post <= zlen input.
Proof.
  intros Hp H. unfold readUint32 in H. step H as b Hr.
  apply readBytes_sound in Hr as (Hb & Hl & -> & Hle); [|lia|lia].
  apply M_ret_Ok in H as [-> ->]. pose proof (be_value_bound _ Hb) as Hv. rewrite Hl in Hv.
  unfold UINT32_BASE. lia.
Qed.

(** An argument is a safe integer, and its shortest head is no longer than what
    was read. *)
Lemma head_bytes_length major v :
  zlen (head_bytes major v) =
  if v <? 24 then 1 else if v <=? 255 then 2 else if v <=? 65535 then 3
  else if v <=? MAX_UINT32 then 5 else 9.
Proof. unfold head_bytes. by repeat case_match. Qed.

Lemma readArgument_sound major ai pre post v :
  0 <= pre <= zlen input -> 0 <= ai < 32 -> readArgument input ai pre = (post, Ok v) ->
  0 <= v <= MAX_SAFE_INTEGER /\ pre + zlen (head_bytes major v) <= post + 1 /\
  pre <= post <= zlen input.
Proof.
  intros Hp Ha H. unfold readArgument in H. rewrite head_bytes_length.
  unfold MAX_SAFE_INTEGER, MAX_UINT32.
  destruct (Z.ltb_spec ai 24).
  { apply M_ret_Ok in H as [-> ->]. rewrite (proj2 (Z.ltb_lt ai 24)) by done. lia. }
  destruct (ai =? 24).
  { apply readByte_sound in H as (Hb & -> & Hle); [|lia]. unfold byte_ok in Hb.
    rewrite (proj2 (Z.leb_le v 255)) by lia. destruct (v <? 24); lia. }
  destruct (ai =? 25).
  { step H as b Hr. apply M_ret_Ok in H as [-> ->].
    apply readBytes_sound in Hr as (Hb & Hl & -> & Hle); [|lia|lia].
    pose proof (be_value_bound _ Hb) as Hv. rewrite Hl in Hv.
    change (256 ^ 2) with 65536 in Hv. rewrite (proj2 (Z.leb_le (be_value b) 65535)) by lia.
    destruct (be_value b <? 24), (be_value b <=? 255); lia. }
  destruct (ai =? 26).
  { apply readUint32_sound in H as (Hv & -> & Hle); [|lia]. unfold UINT32_BASE in Hv.
    rewrite (proj2 (Z.leb_le v 4294967295)) by lia.
    destruct (v <? 24), (v <=? 255), (v <=? 65535); lia. }
  destruct (ai =? 27); [|by destruct (ai =? 31)].
  step H as hi Hh. step H as lo Hl. cond H. apply M_ret_Ok in H as [-> ->].
  apply readUint32_sound in Hh as (? & -> & ?); [|lia].
  apply readUint32_sound in Hl as (? & -> & ?); [|lia].
  unfold UINT32_BASE in *. rewrite Z.ltb_ge in *.
  set (v := _ + _). assert (0 <= v <= 2 ^ 53 - 1) by lia.
  destruct (v <? 24), (v <=? 255), (v <=? 65535), (v <=? 4294967295); lia.
Qed.

Lemma readLength_sound major ai kind limit pre post v :
  0 <= pre <= zlen input -> 0 <= ai < 32 -> readLength input ai kind limit pre = (post, Ok v) ->
  0 <= v <= limit /\ pre + zlen (head_bytes major v) <= post + 1 /\ pre <= post <= zlen input.
Proof.
  intros Hp Ha H. unfold readLength in H. cond H. step H as n Hr. cond H. apply M_ret_Ok in H as [-> ->].
  apply (readArgument_sound major) in Hr as (? & ? & ?); [|done|done].
  rewrite Z.ltb_ge in *. lia.
Qed.
End reader.

(** ** Numbers *)

Lemma number_of_Z_ok z :
  Z.abs z <= MAX_SAFE_INTEGER ->
  number_ok (num_of_Z z) /\
  enc_number (num_of_Z z) = if 0 <=? z then head_bytes 0 z else head_bytes 1 (-1 - z).
Proof.
  intros Hz. pose proof (num_to_Z_of_Z z Hz) as Hback. split.
  - unfold number_ok, num_is_integer, num_is_safe_integer. rewrite Hback.
    split_and!; [by apply num_of_Z_wf|by destruct (num_of_Z z)|]. intros _. by apply Z.leb_le.
  - unfold enc_number. rewrite Hback. destruct (num_is_neg_zero (num_of_Z z)) eqn:Hneg; [|done].
    destruct (num_of_Z z) as [[]| | |] eqn:Hn; try done. injection Hback as <-. done.
Qed.

Lemma enc_number_length n : number_ok n -> zlen (enc_number n) <= 9.
Proof.
  intros (_ & _ & Hsafe). unfold enc_number, num_is_integer, num_is_safe_integer in *.
  destruct (num_to_Z n) as [z|]; [|done].
  destruct (num_is_neg_zero n); [done|].
  destruct (0 <=? z); rewrite head_bytes_length; repeat case_match; lia.
Qed.

(** ** Property order *)

Lemma own_order_perm {A} (props : list (jsstring * A)) : own_order props ≡ₚ props.
Proof. apply sort_by_perm. Qed.
Lemma own_order_idem {A} (props : list (jsstring * A)) : own_order (own_order props) = own_order props.
Proof. apply own_order_ranked, sort_by_sorted. Qed.
Lemma zlen_perm {A} (l k : list A) : l ≡ₚ k -> zlen l = zlen k.
Proof. unfold zlen. by intros ->. Qed.
Lemma zlen_concat_perm {A B} (f : A -> list B) l k :
  l ≡ₚ k -> zlen (concat (List.map f l)) = zlen (concat (List.map f k)).
Proof. induction 1; simpl; rewrite ?zlen_app; lia. Qed.

Section items.
Context (input : bytes) (Hin : Forall byte_ok input).
Context (o : ResolvedCborOptions).

(** [item] returns only values that fit at [depth] and consumes at least their
    wire form. *)
Definition sound_item (depth : Z) (item : R cval) : Prop :=
  forall pre post t, 0 <= pre <= zlen input -> item pre = (post, Ok t) ->
  fits o depth t /\ pre + zlen (enc t) <= post /\ pre <= post <= zlen input.

Lemma read_n_sound depth item n pre post ts :
  sound_item depth item -> 0 <= pre <= zlen input -> read_n n item pre = (post, Ok ts) ->
  length ts = n /\ (forall t, t ∈ ts -> fits o depth t) /\
  pre + zlen (concat (List.map enc ts)) <= post /\ pre <= post <= zlen input.
Proof.
  intros Hitem. revert pre post ts. induction n as [|n IH]; intros pre post ts Hp H; cbn [read_n] in H.
  - apply M_ret_Ok in H as [-> ->]. split_and!; [done|by intros t ?%not_elem_of_nil|simpl; rewrite zlen_nil; lia|lia..].
  - step H as t Ht. step H as rest Hr. apply M_ret_Ok in H as [-> ->].
    apply Hitem in Ht as (Hf & Hle & Hrange); [|done].
    apply IH in Hr as (Hlen & Hfs & Hle' & Hrange'); [|lia].
    simpl. rewrite zlen_app. split_and!; [by rewrite Hlen| |lia..].
    intros x [->|Hx]%elem_of_cons; auto.
Qed.

Lemma read_entries_sound depth item n keys pre post kvs :
  sound_item depth item -> 0 <= pre <= zlen input ->
  read_entries n keys item pre = (post, Ok kvs) ->
  length kvs = n /\ NoDup kvs.*1 /\ (forall k, k ∈ kvs.*1 -> k ∉ keys) /\
  (forall k t, (k, t) ∈ kvs -> text_ok o k /\ fits o depth t) /\
  pre + zlen (concat (List.map (fun kv => enc_text kv.1 ++ enc kv.2) kvs)) <= post /\
  pre <= post <= zlen input.
Proof.
  intros Hitem. revert keys pre post kvs.
  induction n as [|n IH]; intros keys pre post kvs Hp H; cbn [read_entries] in H.
  - apply M_ret_Ok in H as [-> ->]. simpl. rewrite zlen_nil.
    split_and!; [done|constructor|by intros k ?%not_elem_of_nil|by intros k t ?%not_elem_of_nil|lia..].
  - step H as key Hk. apply Hitem in Hk as (Hfk & Hle & Hrange); [|done].
    destruct key as [| | |k| | |]; try done. cond H. step H as v Hv. step H as rest Hr.
    apply M_ret_Ok in H as [-> ->].
    apply Hitem in Hv as (Hf & Hle' & Hrange'); [|lia].
    apply IH in Hr as (Hlen & Hnd & Hfresh & Hfs & Hle'' & Hrange''); [|lia].
    apply bool_decide_eq_false in C. csimpl. rewrite !zlen_app. simpl in Hle.
    split_and!; [by rewrite Hlen| | | |lia..].
    + apply NoDup_cons. split; [|done]. intros Hin'. apply (Hfresh k Hin'). by left.
    + intros k' [->|Hk']%elem_of_cons; [done|]. intros Hin'. apply (Hfresh k' Hk'). by right.
    + intros k' t' [[= -> ->]|Hin']%elem_of_cons; [|by apply Hfs].
      split; [by inversion Hfk|done].
Qed.

Lemma readSimple_sound depth ai pre post t :
  depth <= maxDepth o -> 0 <= pre <= zlen input -> readSimple input ai pre = (post, Ok t) ->
  fits o depth t /\ pre + zlen (enc t) <= post + 1 /\ pre <= post <= zlen input.
Proof.
  intros Hd Hp H. unfold readSimple in H.
  destruct (ai =? 20); [apply M_ret_Ok in H as [-> ->]; split_and!; [by constructor|simpl; rewrite zlen_cons, zlen_nil; lia|lia..]|].
  destruct (ai =? 21); [apply M_ret_Ok in H as [-> ->]; split_and!; [by constructor|simpl; rewrite zlen_cons, zlen_nil; lia|lia..]|].
  destruct (ai =? 22); [apply M_ret_Ok in H as [-> ->]; split_and!; [by constructor|simpl; rewrite zlen_cons, zlen_nil; lia|lia..]|].
  destruct (ai =? 27); [|by destruct (ai =? 31)].
  step H as b Hb. cond H. cond H. apply M_ret_Ok in H as [-> ->].
  apply readBytes_sound in Hb as (_ & _ & -> & Hle); [|done|lia|lia].
  assert (Hok : number_ok (num_of_bits (be_value b))).
  { split_and!; [apply num_of_bits_wf|by apply negb_false_iff|]. intros Hi. rewrite Hi in C0.
    by apply negb_false_iff in C0. }
  pose proof (enc_number_length _ Hok). split_and!; [by constructor|simpl; lia|lia..].
Qed.

Lemma initial_range b : byte_ok b -> 0 <= Z.land b 31 < 32.
Proof. intros _. change 31 with (Z.ones 5). rewrite Z.land_ones by lia. change (2 ^ 5) with 32. lia. Qed.

Lemma readItem_sound fuel depth : sound_item depth (readItem input o fuel depth).
Proof.
  revert depth. induction fuel as [|fuel IH]; intros depth pre post t Hp H; cbn [readItem] in H; [done|].
  cond H. rename C into Hd. apply Z.ltb_ge in Hd. step H as b Hb.
  apply readByte_sound in Hb as (Hb & -> & Hle); [|done|lia]. cbv zeta in H.
  pose proof (initial_range b Hb) as Hai. set (ai := Z.land b 31) in *.
  destruct (Z.shiftr b 5 =? 0).
  { step H as v Hv. apply M_ret_Ok in H as [-> ->].
    apply (readArgument_sound _ Hin 0) in Hv as (Hv & Hl & Hr); [|lia|done].
    destruct (number_of_Z_ok v) as [Hok Henc]; [lia|]. split_and!; [by constructor| |lia..].
    simpl. rewrite Henc, (proj2 (Z.leb_le 0 v)) by lia. lia. }
  destruct (Z.shiftr b 5 =? 1).
  { step H as v Hv. cond H. apply M_ret_Ok in H as [-> ->]. apply negb_false_iff, Z.leb_le in C.
    apply (readArgument_sound _ Hin 1) in Hv as (Hv & Hl & Hr); [|lia|done].
    destruct (number_of_Z_ok (-1 - v)) as [Hok Henc]; [lia|]. split_and!; [by constructor| |lia..].
    simpl. rewrite Henc, (proj2 (Z.leb_gt 0 (-1 - v))) by lia.
    replace (-1 - (-1 - v)) with v by lia. lia. }
  destruct (Z.shiftr b 5 =? 2).
  { step H as n Hn. step H as bs Hbs. apply M_ret_Ok in H as [-> ->].
    apply (readLength_sound _ Hin 2) in Hn as (Hn & Hl & Hr); [|lia|done].
    apply readBytes_sound in Hbs as (Hbs & <- & -> & Hle'); [|done|lia|lia].
    split_and!; [constructor; [done|done|lia]| |lia..]. simpl. rewrite zlen_app. lia. }
  destruct (Z.shiftr b 5 =? 3).
  { step H as n Hn. step H as bs Hbs. destruct (text_decode bs) as [str|] eqn:Hs; [|done].
    apply M_ret_Ok in H as [-> ->].
    apply (readLength_sound _ Hin 3) in Hn as (Hn & Hl & Hr); [|lia|done].
    apply readBytes_sound in Hbs as (Hbs & <- & -> & Hle'); [|done|lia|lia].
    apply text_decode_sound in Hs as [Hwf Henc]; [|done].
    split_and!; [constructor; [done|split; [done|rewrite Henc; lia]]| |lia..].
    simpl. unfold enc_text. rewrite Henc, zlen_app. lia. }
  destruct (Z.shiftr b 5 =? 4).
  { step H as n Hn. step H as ts Hts. apply M_ret_Ok in H as [-> ->].
    apply (readLength_sound _ Hin 4) in Hn as (Hn & Hl & Hr); [|lia|done].
    apply (read_n_sound (depth + 1)) in Hts as (Hlen & Hfs & Hle' & Hr'); [|apply IH|lia].
    assert (Hz : zlen ts = n) by (unfold zlen; lia). subst n.
    split_and!; [constructor; [done|lia|done]| |lia..]. simpl. rewrite zlen_app. lia. }
  destruct (Z.shiftr b 5 =? 5).
  { step H as n Hn. step H as kvs Hts. apply M_ret_Ok in H as [-> ->].
    apply (readLength_sound _ Hin 5) in Hn as (Hn & Hl & Hr); [|lia|done].
    apply (read_entries_sound (depth + 1)) in Hts as (Hlen & Hnd & _ & Hfs & Hle' & Hr'); [|apply IH|lia].
    assert (Hz : zlen kvs = n) by (unfold zlen; lia). subst n.
    pose proof (own_order_perm kvs) as Hperm. pose proof (zlen_perm _ _ Hperm) as Hzl.
    split_and!; [apply fits_map; [done|lia| |apply own_order_idem|]| |lia..].
    - by rewrite Hperm.
    - intros k x Hx. apply Hfs. by rewrite <-Hperm.
    - simpl. rewrite zlen_app, Hzl, (zlen_concat_perm _ _ _ Hperm). lia. }
  destruct (Z.shiftr b 5 =? 6); [done|]. destruct (Z.shiftr b 5 =? 7); [|done].
  apply (readSimple_sound depth) in H as (Hf & Hl & Hr); [|done|lia]. split_and!; [done|lia..].
Qed.
End items.

(** ** The step bound is never exhausted *)

(** [f] never reports an exhausted step bound. *)
Definition bounded {A} (f : R A) : Prop := forall s, snd (f s) <> Err StepBound.

Lemma bounded_ret {A} (a : A) : bounded (mret a).
Proof. done. Qed.
Lemma bounded_throw {A} e : e <> StepBound -> bounded (A := A) (throw e).
Proof. intros He s. simpl. congruence. Qed.
Lemma bounded_bind {A B} (f : R A) (k : A -> R B) :
  bounded f -> (forall a, bounded (k a)) -> bounded (f ≫= k).
Proof.
  intros Hf Hk s. specialize (Hf s). unfold mbind, M_bind.
  destruct (f s) as [s1 [a|e]]; [apply Hk|]. simpl in *. congruence.
Qed.
Lemma bounded_if (c : bool) {A} (f g : R A) : bounded f -> bounded g -> bounded (if c then f else g).
Proof. by destruct c. Qed.
Lemma bounded_guard c e : e <> StepBound -> bounded (throw_if c e).
Proof. intros He. unfold throw_if. by apply bounded_if; [apply bounded_throw|apply bounded_ret]. Qed.

Create HintDb bounded.
#[export] Hint Resolve bounded_ret bounded_if bounded_bind : bounded.
#[export] Hint Extern 2 (bounded (throw _)) => by apply bounded_throw : bounded.
#[export] Hint Extern 2 (bounded (throw_if _ _)) => by apply bounded_guard : bounded.

Section bounded.
Variable input : bytes.
Variable o : ResolvedCborOptions.

Lemma bounded_readByte : bounded (readByte input).
Proof. intros s. unfold readByte. mrun. by destruct (at_index input s). Qed.
Lemma bounded_readBytes n : bounded (readBytes input n).
Proof. intros s. unfold readBytes. mrun. by destruct (_ <? _). Qed.
#[local] Hint Resolve bounded_readByte bounded_readBytes : bounded.

Lemma bounded_readUint32 : bounded (readUint32 input).
Proof. unfold readUint32. auto with bounded. Qed.
#[local] Hint Resolve bounded_readUint32 : bounded.
Lemma bounded_readArgument ai : bounded (readArgument input ai).
Proof. unfold readArgument. auto 12 with bounded. Qed.
#[local] Hint Resolve bounded_readArgument : bounded.
Lemma bounded_readLength ai kind limit : bounded (readLength input ai kind limit).
Proof. unfold readLength. auto with bounded. Qed.
Lemma bounded_readSimple ai : bounded (readSimple input ai).
Proof. unfold readSimple. cbv zeta. auto 12 with bounded. Qed.
#[local] Hint Resolve bounded_readLength bounded_readSimple : bounded.

Lemma bounded_read_n {A} n (f : R A) : bounded f -> bounded (read_n n f).
Proof. intros Hf. induction n; cbn [read_n]; auto with bounded. Qed.
Lemma bounded_read_entries n keys item : bounded item -> bounded (read_entries n keys item).
Proof.
  intros Hf. revert keys. induction n; intros keys; cbn [read_entries]; [auto with bounded|].
  apply bounded_bind; [done|]. intros [| | |k| | |]; auto with bounded.
Qed.

Lemma bounded_readItem fuel depth :
  depth <= maxDepth o + 1 -> maxDepth o + 1 - depth < Z.of_nat fuel ->
  bounded (readItem input o fuel depth).
Proof.
  revert depth. induction fuel as [|fuel IH]; intros depth Hd Hfuel; cbn [readItem]; [lia|].
  destruct (Z.ltb_spec (maxDepth o) depth) as [|Hle]; [by intros s|].
  apply bounded_bind; [by intros s|]. intros _. apply bounded_bind; [apply bounded_readByte|].
  intros b. cbv zeta.
  assert (Hitem : bounded (readItem input o fuel (depth + 1))) by (apply IH; lia).
  repeat apply bounded_if; auto using bounded_read_n, bounded_read_entries with bounded.
  apply bounded_bind; [auto with bounded|]. intros n. apply bounded_bind; [auto with bounded|].
  intros bs. destruct (text_decode bs); auto with bounded.
Qed.
End bounded.

(** ** [decodeCbor] *)

Lemma decodeCbor_Ok bs o t :
  decodeCbor bs o = Ok t <->
  exists r, resolveOptions o = Ok r /\ zlen bs <= maxByteLength r /\
    readItem bs r (depth_fuel r) 0 0 = (zlen bs, Ok t).
Proof.
  unfold decodeCbor, decode. destruct (resolveOptions o) as [r|e]; simpl; [|split; naive_solver].
  destruct (Z.ltb_spec (maxByteLength r) (zlen bs)).
  { split; [done|]. intros (? & [= <-] & ? & _). lia. }
  mrun. destruct (readItem bs r (depth_fuel r) 0 0) as [offset [x|e]] eqn:Hr; simpl.
  2: { split; [done|]. intros (? & [= <-] & _ & Hr'). congruence. }
  destruct (Z.eqb_spec offset (zlen bs)) as [->|Hne]; simpl.
  - split; [intros [= ->]; by exists r|]. intros (? & [= <-] & _ & Hr'). congruence.
  - split; [done|]. intros (? & [= <-] & _ & Hr'). congruence.
Qed.

Lemma decodeCbor_enc o r t :
  resolveOptions o = Ok r -> fits r 0 t -> zlen (enc t) <= maxByteLength r ->
  decodeCbor (enc t) o = Ok t.
Proof.
  intros Hr Hf Hlen. apply decodeCbor_Ok. exists r. split_and!; [done|done|].
  pose proof (resolveOptions_ok _ _ Hr) as Hok. destruct (Hok) as (_ & _ & Hd).
  apply (readItem_enc r Hok t (enc t) [] [] 0); [done|unfold depth_fuel; lia|].
  by rewrite app_nil_r.
Qed.

Lemma decodeCbor_not_bound bs o : decodeCbor bs o <> Err StepBound.
Proof.
  unfold decodeCbor, decode. pose proof (resolveOptions_not_bound o) as Hnb.
  destruct (resolveOptions o) as [r|e] eqn:Hr; simpl; [|congruence].
  pose proof (resolveOptions_ok _ _ Hr) as (_ & _ & Hd).
  destruct (_ <? _); [done|]. apply bounded_bind.
  - apply bounded_readItem; [lia|unfold depth_fuel; lia].
  - intros a. apply bounded_bind; [by intros s|]. auto with bounded.
Qed.

(** Round trip: decoding the bytes of an encoded object graph, under the same
    limits, gives the finite value the graph denotes, with strings, byte arrays,
    numbers (-0 and fractions included) and key order intact. *)
Theorem decodeCbor_roundtrip h v o bs :
  heap_wf h -> prim_wf v -> encodeCbor h v o = Ok bs ->
  exists t, unfolds h v t /\ decodeCbor bs o = Ok t.
Proof.
  intros Hh Hv (r & t & Hr & Hu & Hf & -> & Hlen)%encodeCbor_iff; [|done|done].
  exists t. split; [done|]. by eapply decodeCbor_enc.
Qed.

Lemma decodeCbor_roundtrip_witness :
  exists t, unfolds sample_heap (VObject 1%nat) t /\
    decodeCbor [131; 1; 98; 104; 105; 161; 97; 97; 57; 1; 243] no_cbor_options = Ok t.
Proof.
  apply decodeCbor_roundtrip; [exact sample_heap_wf|exact I|vm_compute; reflexivity].
Defined.

(** C40. Decoding arbitrary bytes terminates within the depth limit with an error
    or a value; a value is within every limit, its shortest wire form is no longer
    than the input, and decoding that form gives the value again. *)
Theorem decodeCbor_sound bs o :
  Forall byte_ok bs ->
  match decodeCbor bs o with
  | Ok t => exists r, resolveOptions o = Ok r /\ zlen bs <= maxByteLength r /\ fits r 0 t /\
              zlen (enc t) <= zlen bs /\ decodeCbor (enc t) o = Ok t
  | Err e => e <> StepBound
  end.
Proof.
  intros Hb. pose proof (decodeCbor_not_bound bs o) as Hnb.
  destruct (decodeCbor bs o) as [t|e] eqn:Hd; [|congruence].
  apply decodeCbor_Ok in Hd as (r & Hr & Hlen & Hread).
  apply (readItem_sound bs Hb r) in Hread as (Hf & Hle & _); [|pose proof (zlen_nonneg bs); lia].
  exists r. split_and!; [done|done|done|lia|]. eapply decodeCbor_enc; [done|done|lia].
Qed.
Lemma decodeCbor_sound_witness :
  match decodeCbor [24; 1] no_cbor_options with
  | Ok t => exists r, resolveOptions no_cbor_options = Ok r /\ zlen [24; 1] <= maxByteLength r /\
              fits r 0 t /\ zlen (enc t) <= zlen [24; 1] /\ decodeCbor (enc t) no_cbor_options = Ok t
  | Err e => e <> StepBound
  end.
Proof. apply decodeCbor_sound. repeat constructor; lia. Defined.
