(* ===== verification/Framing.v ===== *)
(** * Length-prefixed frames (packages/protocol/src/framing.ts)

    [encodeFrame], [assertCompleteFrame] and the incremental [FrameDecoder].
    [currentPayloadBlock] is a reference to a block that is also in
    [payloadBlocks]: it is the position of that block, so a write through it is
    seen in the list.  Both loops of [push] consume a byte per round at least, so
    they take a step bound of one more than the length of the chunk. *)
From S2P Require Import Prelude JsNumber JsText JsValue CborEncoder CborDecoder.

Definition FRAME_HEADER_LENGTH : Z := 4.
Definition PAYLOAD_BLOCK_SIZE : Z := 64 * 1024.
Definition DEFAULT_MAX_FRAME_LENGTH : Z := 16 * 1024 * 1024.

(** [options?.maxFrameLength], when given. *)
Definition FrameDecoderOptions := option number.

Definition resolveMaxFrameLength (options : FrameDecoderOptions) : result js_error Z :=
  let value := default (num_of_Z DEFAULT_MAX_FRAME_LENGTH) options in
  let e := Err (RangeError ("maxFrameLength must be an integer between 0 and " +:+ pretty MAX_UINT32)) in
  if negb (num_is_safe_integer value) then e else
  match num_to_Z value with
  | Some z => if (z <? 0) || (MAX_UINT32 <? z) then e else Ok z
  | None => e
  end.

Definition encodeFrame (payload : bytes) : result js_error bytes :=
  let length := zlen payload in
  if MAX_UINT32 <? length
  then Err (RangeError "Frame payload exceeds the unsigned 32-bit length limit") else
  let frame := repeat 0 (Z.to_nat (FRAME_HEADER_LENGTH + length)) in
  let frame := u8_store frame 0 (Z.shiftr length 24) in
  let frame := u8_store frame 1 (Z.shiftr length 16) in
  let frame := u8_store frame 2 (Z.shiftr length 8) in
  let frame := u8_store frame 3 length in
  Ok (u8_set frame FRAME_HEADER_LENGTH payload).

Definition length_error (length max : Z) : js_error :=
  FrameError ("Frame length " +:+ pretty length +:+ " exceeds configured limit of " +:+ pretty max).

(** The big-endian length in the first four bytes. *)
Definition header_value (b : bytes) : Z := be_value (take 4 b).

Definition assertCompleteFrame (frame : bytes) (options : FrameDecoderOptions) : result js_error unit :=
  if zlen frame <? FRAME_HEADER_LENGTH
  then Err (FrameError "Frame does not contain a complete length prefix") else
  let length := header_value frame in
  maxFrameLength ← resolveMaxFrameLength options;
  if maxFrameLength <? length then Err (length_error length maxFrameLength) else
  if negb (zlen frame =? FRAME_HEADER_LENGTH + length)
  then Err (FrameError "Frame must contain exactly one complete payload")
  else Ok tt.

(** ** The decoder *)

Inductive DecoderState := DOpen | DEnded | DFailed.

Record FrameDecoder := {
  fd_header : bytes;
  fd_headerLength : Z;
  fd_maxFrameLength : Z;
  fd_payloadBlocks : list bytes;
  fd_currentPayloadBlock : option nat;
  fd_currentPayloadBlockLength : Z;
  fd_expectedPayloadLength : option Z;
  fd_payloadLength : Z;
  fd_state : DecoderState }.

Definition new_FrameDecoder (options : FrameDecoderOptions) : result js_error FrameDecoder :=
  max ← resolveMaxFrameLength options;
  Ok {| fd_header := repeat 0 4; fd_headerLength := 0; fd_maxFrameLength := max;
        fd_payloadBlocks := []; fd_currentPayloadBlock := None; fd_currentPayloadBlockLength := 0;
        fd_expectedPayloadLength := None; fd_payloadLength := 0; fd_state := DOpen |}.

Definition with_header (header : bytes) (headerLength : Z) (d : FrameDecoder) : FrameDecoder :=
  {| fd_header := header; fd_headerLength := headerLength; fd_maxFrameLength := fd_maxFrameLength d;
     fd_payloadBlocks := fd_payloadBlocks d; fd_currentPayloadBlock := fd_currentPayloadBlock d;
     fd_currentPayloadBlockLength := fd_currentPayloadBlockLength d;
     fd_expectedPayloadLength := fd_expectedPayloadLength d;
     fd_payloadLength := fd_payloadLength d; fd_state := fd_state d |}.
Definition with_payload (blocks : list bytes) (current : option nat) (currentLength : Z)
    (expected : option Z) (payloadLength : Z) (d : FrameDecoder) : FrameDecoder :=
  {| fd_header := fd_header d; fd_headerLength := fd_headerLength d;
     fd_maxFrameLength := fd_maxFrameLength d; fd_payloadBlocks := blocks;
     fd_currentPayloadBlock := current; fd_currentPayloadBlockLength := currentLength;
     fd_expectedPayloadLength := expected; fd_payloadLength := payloadLength;
     fd_state := fd_state d |}.
Definition with_state (s : DecoderState) (d : FrameDecoder) : FrameDecoder :=
  {| fd_header := fd_header d; fd_headerLength := fd_headerLength d;
     fd_maxFrameLength := fd_maxFrameLength d; fd_payloadBlocks := fd_payloadBlocks d;
     fd_currentPayloadBlock := fd_currentPayloadBlock d;
     fd_currentPayloadBlockLength := fd_currentPayloadBlockLength d;
     fd_expectedPayloadLength := fd_expectedPayloadLength d;
     fd_payloadLength := fd_payloadLength d; fd_state := s |}.

Definition D := M FrameDecoder js_error.

Definition fail {A} (message : js_error) : D A :=
  modify (with_state DFailed);;
  modify (fun d => with_header (fd_header d) 0 d);;
  modify (with_payload [] None 0 None 0);;
  throw message.

Definition subarray (chunk : bytes) (from to : Z) : bytes :=
  take (Z.to_nat (to - from)) (drop (Z.to_nat from) chunk).

(** The block to write to, its position, the blocks and the bytes already in it:
    a new block when there is none or it is full. *)
Definition payload_block (d : FrameDecoder) (expected : Z) : nat * bytes * list bytes * Z :=
  let fresh := repeat 0 (Z.to_nat (Z.min PAYLOAD_BLOCK_SIZE (expected - fd_payloadLength d))) in
  let blocks := fd_payloadBlocks d in
  let allocate := (length blocks, fresh, blocks ++ [fresh], 0) in
  match fd_currentPayloadBlock d with
  | Some i =>
      match blocks !! i with
      | Some block => if fd_currentPayloadBlockLength d =? zlen block then allocate
                      else (i, block, blocks, fd_currentPayloadBlockLength d)
      | None => allocate
      end
  | None => allocate
  end.

Fixpoint fill_payload (fuel : nat) (chunk : bytes) (expected chunkOffset : Z) : D Z :=
  match fuel with
  | O => throw StepBound
  | S fuel' =>
      d ← get;
      if (chunkOffset <? zlen chunk) && (fd_payloadLength d <? expected) then
        let '(i, block, blocks, used) := payload_block d expected in
        let payloadBytes := Z.min (zlen block - used) (zlen chunk - chunkOffset) in
        let written := u8_set block used (subarray chunk chunkOffset (chunkOffset + payloadBytes)) in
        put (with_payload (<[i := written]> blocks) (Some i) (used + payloadBytes)
               (fd_expectedPayloadLength d) (fd_payloadLength d + payloadBytes) d);;
        fill_payload fuel' chunk expected (chunkOffset + payloadBytes)
      else mret chunkOffset
  end.

(** The payload of a complete frame: its only block, or the blocks copied one
    after the other into a new array. *)
Definition join_blocks (expected : Z) (blocks : list bytes) : bytes :=
  match blocks with
  | [block] => block
  | _ => (foldl (fun (acc : bytes * Z) (block : bytes) => (u8_set acc.1 acc.2 block, acc.2 + zlen block))
            (repeat 0 (Z.to_nat expected), 0) blocks).1
  end.

(** The part of the loop that reads a header: the new offset and the frame of
    length zero it may complete. *)
Definition read_header (chunk : bytes) (chunkOffset : Z) : D (Z * list bytes) :=
  d ← get;
  let headerBytes := Z.min (FRAME_HEADER_LENGTH - fd_headerLength d) (zlen chunk - chunkOffset) in
  let header := u8_set (fd_header d) (fd_headerLength d)
                  (subarray chunk chunkOffset (chunkOffset + headerBytes)) in
  let headerLength := fd_headerLength d + headerBytes in
  put (with_header header headerLength d);;
  if headerLength <? FRAME_HEADER_LENGTH then mret (chunkOffset + headerBytes, []) else
  let frameLength := header_value header in
  modify (with_header header 0);;
  if fd_maxFrameLength d <? frameLength then fail (length_error frameLength (fd_maxFrameLength d)) else
  if frameLength =? 0 then mret (chunkOffset + headerBytes, [[]]) else
  modify (with_payload [] None 0 (Some frameLength) 0);;
  mret (chunkOffset + headerBytes, []).

(** The part that reads payload, when a length is expected. *)
Definition read_payload (chunk : bytes) (chunkOffset : Z) : D (Z * list bytes) :=
  d ← get;
  match fd_expectedPayloadLength d with
  | None => mret (chunkOffset, [])
  | Some expected =>
      chunkOffset ← fill_payload (S (length chunk)) chunk expected chunkOffset;
      d ← get;
      if fd_payloadLength d =? expected then
        let frame := join_blocks expected (fd_payloadBlocks d) in
        modify (with_payload [] None 0 None 0);;
        mret (chunkOffset, [frame])
      else mret (chunkOffset, [])
  end.

Fixpoint push_loop (fuel : nat) (chunk : bytes) (chunkOffset : Z) (frames : list bytes) : D (list bytes) :=
  match fuel with
  | O => throw StepBound
  | S fuel' =>
      if chunkOffset <? zlen chunk then
        d ← get;
        a ← match fd_expectedPayloadLength d with
            | None => read_header chunk chunkOffset
            | Some _ => mret (chunkOffset, [])
            end;
        b ← read_payload chunk a.1;
        push_loop fuel' chunk b.1 (frames ++ a.2 ++ b.2)
      else mret frames
  end.

Definition check_open : D unit :=
  d ← get;
  match fd_state d with
  | DEnded => throw (FrameError "Frame decoder has ended")
  | DFailed => throw (FrameError "Frame decoder has failed")
  | DOpen => mret tt
  end.

Definition push (chunk : bytes) : D (list bytes) :=
  check_open;;
  push_loop (S (length chunk)) chunk 0 [].

Definition end_ : D unit :=
  check_open;;
  d ← get;
  (if negb (fd_headerLength d =? 0) || bool_decide (is_Some (fd_expectedPayloadLength d))
   then fail (FrameError "Truncated frame at end of stream") else mret tt);;
  modify (with_state DEnded).

(** A stream: its chunks pushed one after the other. *)
Fixpoint push_all (chunks : list bytes) : D (list bytes) :=
  match chunks with
  | [] => mret []
  | chunk :: chunks' => fs ← push chunk; gs ← push_all chunks'; mret (fs ++ gs)
  end.
