(* ===== verification/FramingTheorems.v ===== *)
(** * The frame decoder against its specification

    [split_frames] cuts a whole byte sequence into the payloads of its complete
    frames and the incomplete rest.  [pending] is the part of the stream a decoder
    holds.  Pushing a chunk is splitting [pending ++ chunk]; from that follow the
    independence of the chunking and the round trip of a stream of frames. *)
From S2P Require Import Prelude JsNumber JsText JsValue CborEncoder CborDecoder CborWriter CborSound Framing.

#[local] Ltac Zify.zify_post_hook ::= Z.to_euclidean_division_equations.

(** ** Specification *)

Fixpoint split_frames (fuel : nat) (max : Z) (bs : bytes) : result js_error (list bytes * bytes) :=
  match fuel with
  | O => Ok ([], bs)
  | S fuel' =>
      if zlen bs <? 4 then Ok ([], bs) else
      let n := header_value bs in
      if max <? n then Err (length_error n max) else
      if zlen bs - 4 <? n then Ok ([], bs) else
      match split_frames fuel' max (drop (Z.to_nat (4 + n)) bs) with
      | Ok (fs, rest) => Ok (take (Z.to_nat n) (drop 4 bs) :: fs, rest)
      | Err e => Err e
      end
  end.
Definition split (max : Z) (bs : bytes) := split_frames (S (length bs)) max bs.

Definition frame (payload : bytes) : bytes := be4 (zlen payload) ++ payload.

Lemma header_value_bound b : Forall byte_ok b -> 0 <= header_value b <= MAX_UINT32.
Proof.
  intros Hb. unfold header_value. pose proof (be_value_bound (take 4 b) (Forall_take _ _ _ Hb)) as H.
  assert (zlen (take 4 b) <= 4) by (unfold zlen; rewrite length_take; lia).
  assert (256 ^ zlen (take 4 b) <= 256 ^ 4) by (apply Z.pow_le_mono_r; lia).
  unfold MAX_UINT32. change (256 ^ 4) with 4294967296 in *. lia.
Qed.
Lemma header_value_be4 n rest : 0 <= n <= MAX_UINT32 -> header_value (be4 n ++ rest) = n.
Proof.
  unfold MAX_UINT32. intros Hn. unfold header_value. change (take 4 (be4 n ++ rest)) with (be4 n).
  apply be4_value. unfold UINT32_BASE. lia.
Qed.
Lemma header_value_app a b : 4 <= zlen a -> header_value (a ++ b) = header_value a.
Proof. unfold zlen. intros Ha. unfold header_value. by rewrite take_app_le by lia. Qed.

(** The bytes are the header they denote, followed by the rest. *)
Lemma header_bytes b : Forall byte_ok b -> 4 <= zlen b -> b = be4 (header_value b) ++ drop 4 b.
Proof.
  intros Hb Hlen. destruct b as [|a [|c [|d [|e b]]]]; unfold zlen in Hlen; simpl in Hlen; try lia.
  rewrite !Forall_cons in Hb. destruct Hb as (Ha & Hc & Hd & He & _). unfold byte_ok in *.
  unfold header_value, be_value, be4. simpl. do 3 (f_equal; [lia|]). f_equal. lia.
Qed.

Lemma split_frames_fuel max fuel fuel' bs :
  Forall byte_ok bs -> (length bs < fuel)%nat -> (length bs < fuel')%nat ->
  split_frames fuel max bs = split_frames fuel' max bs.
Proof.
  revert fuel' bs. induction fuel as [|fuel IH]; intros [|fuel'] bs Hb H1 H2; try lia. simpl.
  destruct (Z.ltb_spec (zlen bs) 4); [done|]. pose proof (header_value_bound bs Hb).
  destruct (_ <? _); [done|]. destruct (Z.ltb_spec (zlen bs - 4) (header_value bs)); [done|].
  rewrite (IH fuel'); [done|by apply Forall_drop|..]; rewrite length_drop; unfold zlen in *; lia.
Qed.

(** One frame of the specification. *)
Lemma split_step max bs :
  Forall byte_ok bs ->
  split max bs =
    if zlen bs <? 4 then Ok ([], bs) else
    if max <? header_value bs then Err (length_error (header_value bs) max) else
    if zlen bs - 4 <? header_value bs then Ok ([], bs) else
    match split max (drop (Z.to_nat (4 + header_value bs)) bs) with
    | Ok (fs, rest) => Ok (take (Z.to_nat (header_value bs)) (drop 4 bs) :: fs, rest)
    | Err e => Err e
    end.
Proof.
  intros Hb. unfold split at 1. cbn [split_frames].
  destruct (Z.ltb_spec (zlen bs) 4); [done|]. pose proof (header_value_bound bs Hb). cbv zeta.
  destruct (_ <? _); [done|]. destruct (Z.ltb_spec (zlen bs - 4) (header_value bs)); [done|].
  unfold split. erewrite (split_frames_fuel _ _ _ (drop _ bs)); [reflexivity|by apply Forall_drop|..];
    rewrite length_drop; unfold zlen in *; lia.
Qed.

Lemma split_frame max payload rest :
  Forall byte_ok (payload ++ rest) -> zlen payload <= max -> zlen payload <= MAX_UINT32 ->
  split max (frame payload ++ rest) =
  match split max rest with Ok (fs, r) => Ok (payload :: fs, r) | Err e => Err e end.
Proof.
  intros Hb Hmax Hlen. pose proof (zlen_nonneg payload). pose proof (zlen_nonneg rest).
  unfold frame. rewrite <-(assoc_L (++)). rewrite split_step by by apply Forall_app; split; [apply be4_bytes|].
  rewrite header_value_be4 by lia. rewrite !zlen_app. change (zlen (be4 (zlen payload))) with 4.
  rewrite (proj2 (Z.ltb_ge _ 4)), (proj2 (Z.ltb_ge max _)), (proj2 (Z.ltb_ge _ (zlen payload))) by lia.
  replace (Z.to_nat (4 + zlen payload)) with (4 + length payload)%nat by (unfold zlen; lia).
  replace (Z.to_nat (zlen payload)) with (length payload) by (unfold zlen; lia).
  simpl. by rewrite drop_0, drop_app_length, take_app_length.
Qed.

Lemma split_short max bs :
  Forall byte_ok bs -> zlen bs < 4 \/ (header_value bs <= max /\ zlen bs - 4 < header_value bs) ->
  split max bs = Ok ([], bs).
Proof.
  intros Hb Hs. rewrite split_step by done.
  destruct (Z.ltb_spec (zlen bs) 4); [done|]. destruct (Z.ltb_spec max (header_value bs)); [lia|].
  destruct (Z.ltb_spec (zlen bs - 4) (header_value bs)); [done|lia].
Qed.

(** What was cut off stays cut off when more bytes arrive. *)
Lemma split_app max a b :
  Forall byte_ok (a ++ b) ->
  split max (a ++ b) =
  match split max a with
  | Ok (fs, rest) => match split max (rest ++ b) with Ok (gs, r) => Ok (fs ++ gs, r) | Err e => Err e end
  | Err e => Err e
  end.
Proof.
  remember (length a) as n eqn:Hn. revert a Hn.
  induction n as [n IH] using lt_wf_ind. intros a -> Hab.
  pose proof Hab as [Ha Hb]%Forall_app. rewrite (split_step _ a) by done.
  destruct (Z.ltb_spec (zlen a) 4); [destruct (split max (a ++ b)) as [[]|]; done|].
  pose proof (header_value_bound a Ha).
  destruct (Z.ltb_spec max (header_value a)).
  { rewrite split_step by done. pose proof (zlen_nonneg b).
    rewrite zlen_app, header_value_app by lia. rewrite (proj2 (Z.ltb_ge _ 4)) by lia.
    by rewrite (proj2 (Z.ltb_lt max _)). }
  destruct (Z.ltb_spec (zlen a - 4) (header_value a)); [destruct (split max (a ++ b)) as [[]|]; done|].
  rewrite (split_step _ (a ++ b)) by done. pose proof (zlen_nonneg b).
  rewrite zlen_app, header_value_app by lia.
  rewrite (proj2 (Z.ltb_ge _ 4)), (proj2 (Z.ltb_ge max _)), (proj2 (Z.ltb_ge _ (header_value a))) by lia.
  assert (Hd : (Z.to_nat (4 + header_value a) <= length a)%nat) by (unfold zlen in *; lia).
  rewrite drop_app_le by done. rewrite (IH (length (drop (Z.to_nat (4 + header_value a)) a))).
  - rewrite drop_app_le by (unfold zlen in *; lia).
    rewrite take_app_le by (rewrite length_drop; unfold zlen in *; lia).
    destruct (split max (drop _ a)) as [[fs rest]|e]; [|done].
    by destruct (split max (rest ++ b)) as [[gs r]|e].
  - rewrite length_drop. unfold zlen in *. lia.
  - done.
  - apply Forall_app. split; [by apply Forall_drop|done].
Qed.

(** ** Subarrays *)

Lemma zlen_subarray chunk from to :
  0 <= from <= to -> to <= zlen chunk -> zlen (subarray chunk from to) = to - from.
Proof. unfold subarray, zlen. rewrite length_take, length_drop. lia. Qed.
Lemma subarray_bytes chunk from to : Forall byte_ok chunk -> Forall byte_ok (subarray chunk from to).
Proof. intros H. by apply Forall_take, Forall_drop. Qed.
Lemma subarray_app chunk a b c :
  0 <= a <= b -> b <= c -> subarray chunk a b ++ subarray chunk b c = subarray chunk a c.
Proof.
  intros Hab Hbc. unfold subarray.
  replace (Z.to_nat (c - a)) with (Z.to_nat (b - a) + Z.to_nat (c - b))%nat by lia.
  rewrite <-take_take_drop. f_equal. rewrite drop_drop. do 2 f_equal. lia.
Qed.
Lemma subarray_empty chunk a : subarray chunk a a = [].
Proof. unfold subarray. by rewrite Z.sub_diag. Qed.
Lemma subarray_to_end chunk a :
  0 <= a -> subarray chunk a (zlen chunk) = drop (Z.to_nat a) chunk.
Proof. intros Ha. unfold subarray. apply take_ge. rewrite length_drop. unfold zlen. lia. Qed.

(** ** The payload blocks *)

(** The decoder waits for [n] bytes and holds [content]. *)
Record payload_rep (d : FrameDecoder) (n : Z) (content : bytes) : Prop := {
  pr_expected : fd_expectedPayloadLength d = Some n;
  pr_length : fd_payloadLength d = zlen content;
  pr_bound : zlen content <= n;
  pr_bytes : Forall (Forall byte_ok) (fd_payloadBlocks d);
  pr_blocks :
    (fd_payloadBlocks d = [] /\ fd_currentPayloadBlock d = None /\ content = []) \/
    (exists full block, fd_payloadBlocks d = full ++ [block] /\
       fd_currentPayloadBlock d = Some (length full) /\
       0 <= fd_currentPayloadBlockLength d <= zlen block /\
       zlen (concat (fd_payloadBlocks d)) <= n /\
       content = concat full ++ take (Z.to_nat (fd_currentPayloadBlockLength d)) block) }.

(** The rest of the decoder. *)
Definition same_frame (d d' : FrameDecoder) : Prop :=
  fd_header d' = fd_header d /\ fd_headerLength d' = fd_headerLength d /\
  fd_maxFrameLength d' = fd_maxFrameLength d /\ fd_state d' = fd_state d.

Lemma content_bytes d n content : payload_rep d n content -> Forall byte_ok content.
Proof.
  intros [_ _ _ Hb [(_ & _ & ->)|(full & block & Hbl & _ & _ & _ & ->)]]; [constructor|].
  rewrite Hbl in Hb. apply Forall_app in Hb as [Hf Hblk]. rewrite Forall_singleton in Hblk.
  apply Forall_app. split; [by apply Forall_concat|by apply Forall_take].
Qed.

(** The block a payload write goes to has room, and ends the content. *)
Lemma payload_block_spec d n content :
  payload_rep d n content -> zlen content < n ->
  exists full block used, payload_block d n = (length full, block, full ++ [block], used) /\
    Forall (Forall byte_ok) (full ++ [block]) /\ 0 <= used < zlen block /\
    zlen (concat (full ++ [block])) <= n /\ content = concat full ++ take (Z.to_nat used) block.
Proof.
  intros [_ Hl _ Hb Hblocks] Hlt.
  assert (Hfresh : exists k, repeat 0 (Z.to_nat (Z.min PAYLOAD_BLOCK_SIZE (n - fd_payloadLength d)))
      = repeat 0 k /\ (0 < k)%nat /\ zlen content + Z.of_nat k <= n).
  { eexists. split; [done|]. rewrite Hl. unfold PAYLOAD_BLOCK_SIZE. lia. }
  unfold payload_block. destruct Hfresh as (k & -> & Hk & Hkn).
  destruct Hblocks as [(-> & -> & ->)|(full & block & Hbl & -> & Hcl & Hle & ->)].
  { exists [], (repeat 0 k), 0. simpl. rewrite app_nil_r, zlen_repeat, zlen_nil in *.
    split_and!; [done|by apply Forall_singleton, repeat_bytes|lia|lia|lia|done]. }
  rewrite Hbl in *. rewrite list_lookup_middle by done.
  destruct (Z.eqb_spec (fd_currentPayloadBlockLength d) (zlen block)) as [Heq|Hne].
  - exists (full ++ [block]), (repeat 0 k), 0.
    rewrite Heq in Hkn. unfold zlen in Hkn. rewrite Nat2Z.id, take_ge in Hkn by lia.
    rewrite !concat_app, !zlen_app in *. simpl. rewrite !app_nil_r, zlen_repeat in *.
    fold (zlen (concat full ++ block)) in Hkn. rewrite zlen_app in Hkn.
    split_and!; [done|apply Forall_app; split; [done|by apply Forall_singleton, repeat_bytes]|lia|lia|lia|].
    rewrite Heq. unfold zlen. by rewrite Nat2Z.id, take_ge by lia.
  - exists full, block, (fd_currentPayloadBlockLength d). split_and!; [done|done|lia|lia|done|done].
Qed.

Lemma fill_payload_spec chunk n fuel d content off :
  Forall byte_ok chunk -> payload_rep d n content ->
  0 <= off <= zlen chunk -> zlen chunk - off < Z.of_nat fuel ->
  let off' := off + Z.min (n - zlen content) (zlen chunk - off) in
  exists d', fill_payload fuel chunk n off d = (d', Ok off') /\ same_frame d d' /\
    payload_rep d' n (content ++ subarray chunk off off').
Proof.
  intros Hc. revert d content off. induction fuel as [|fuel IH]; intros d content off Hrep Hoff Hfuel; [lia|].
  pose proof (pr_bound _ _ _ Hrep) as Hbound. cbv zeta. cbn [fill_payload]. mrun. rewrite (pr_length _ _ _ Hrep).
  destruct (Z.ltb_spec off (zlen chunk)) as [Hlt|Hge]; simpl.
  2: { exists d. replace (Z.min _ _) with 0 by lia. rewrite Z.add_0_r, subarray_empty, app_nil_r.
       split_and!; [done|by repeat split|done]. }
  destruct (Z.ltb_spec (zlen content) n) as [Hroom|Hfull]; simpl.
  2: { exists d. replace (Z.min _ _) with 0 by lia. rewrite Z.add_0_r, subarray_empty, app_nil_r.
       split_and!; [done|by repeat split|done]. }
  destruct (payload_block_spec d n content Hrep Hroom)
    as (full & block & used & -> & Hbytes & Hused & Hn & Hcontent).
  set (k := Z.min (zlen block - used) (zlen chunk - off)). assert (Hk : 0 < k) by lia.
  pose proof (zlen_subarray chunk off (off + k) ltac:(lia) ltac:(lia)) as Hsub.
  set (sub := subarray chunk off (off + k)) in *.
  assert (Hsubb : Forall byte_ok sub) by by apply subarray_bytes.
  assert (Hcl : zlen content = zlen (concat full) + used).
  { rewrite Hcontent, zlen_app. unfold zlen at 2. rewrite length_take. unfold zlen in *. lia. }
  rewrite concat_app, zlen_app in Hn. simpl in Hn. rewrite app_nil_r in Hn.
  set (written := u8_set block used sub).
  assert (Hw : zlen written = zlen block) by (unfold zlen, written; by rewrite length_u8_set).
  assert (Hwb : Forall byte_ok written /\ take (Z.to_nat (used + k)) written = take (Z.to_nat used) block ++ sub).
  { unfold written. rewrite u8_set_app by (done || lia). apply Forall_app in Hbytes as [_ Hblk].
    rewrite Forall_singleton in Hblk. split.
    - apply Forall_app. split; [by apply Forall_take|]. apply Forall_app. split; [done|by apply Forall_drop].
    - rewrite (assoc_L (++)). apply take_app_length'. rewrite length_app, length_take. unfold zlen in *. lia. }
  destruct Hwb as [Hwb Hwt].
  destruct (IH (with_payload (<[length full := written]> (full ++ [block])) (Some (length full)) (used + k)
      (fd_expectedPayloadLength d) (zlen content + k) d) (content ++ sub) (off + k)) as (d' & Hd & Hsame & Hrep').
  - rewrite insert_app_r_alt, Nat.sub_diag by lia. cbn [insert list_insert].
    constructor; simpl; [by apply pr_expected in Hrep|by rewrite zlen_app, Hsub; lia|rewrite zlen_app; lia| |].
    + apply Forall_app in Hbytes as [Hf _]. apply Forall_app. split; [done|by apply Forall_singleton].
    + right. exists full, written. split_and!; [done|done|lia|lia| |].
      * rewrite concat_app, zlen_app. simpl. rewrite app_nil_r. lia.
      * rewrite Hwt, Hcontent. by rewrite (assoc_L (++)).
  - lia.
  - lia.
  - exists d'. rewrite Hd. rewrite zlen_app, Hsub in *.
    replace (off + k + Z.min (n - (zlen content + (off + k - off))) (zlen chunk - (off + k)))
      with (off + Z.min (n - zlen content) (zlen chunk - off)) in * by lia.
    split_and!; [done|by apply Hsame|]. revert Hrep'. rewrite <-(assoc_L (++)). unfold sub.
    rewrite subarray_app by lia. done.
Qed.

(** The completed payload is the content, whatever the blocks. *)
Lemma join_blocks_spec d n content :
  payload_rep d n content -> zlen content = n -> join_blocks n (fd_payloadBlocks d) = content.
Proof.
  intros [_ _ _ Hb Hblocks] Hn.
  assert (Hcat : concat (fd_payloadBlocks d) = content).
  { destruct Hblocks as [(-> & _ & ->)|(full & block & -> & _ & Hcl & Hle & ->)]; [done|].
    rewrite concat_app, zlen_app in Hle. simpl in Hle |- *. rewrite app_nil_r in *.
    rewrite zlen_app in Hn. unfold zlen in Hn at 2. rewrite length_take in Hn.
    rewrite concat_app. simpl. rewrite app_nil_r, take_ge; [done|]. unfold zlen in *. lia. }
  assert (Hfold : forall blocks done todo, Forall (Forall byte_ok) blocks ->
    zlen todo = zlen (concat blocks) ->
    (foldl (fun (acc : bytes * Z) block => (u8_set acc.1 acc.2 block, acc.2 + zlen block))
       (done ++ todo, zlen done) blocks).1 = done ++ concat blocks).
  { induction blocks as [|b blocks IH]; intros dn todo Hbs Hlen; simpl in *.
    - destruct todo; [done|]. rewrite zlen_cons, zlen_nil in Hlen. pose proof (zlen_nonneg todo). lia.
    - apply Forall_cons in Hbs as [Hbb Hbs]. rewrite zlen_app in Hlen.
      pose proof (zlen_nonneg (concat blocks)). pose proof (zlen_nonneg dn). pose proof (zlen_nonneg b).
      rewrite u8_set_app; [|lia|rewrite zlen_app; lia|done].
      replace (Z.to_nat (zlen dn)) with (length dn) by (unfold zlen; lia). rewrite take_app_length.
      rewrite <-zlen_app, (assoc_L (++)), IH; [by rewrite <-(assoc_L (++))|done|].
      unfold zlen in *. rewrite length_drop, !length_app. lia. }
  specialize (Hfold (fd_payloadBlocks d) [] (repeat 0 (Z.to_nat n)) Hb).
  rewrite Hcat in Hfold. rewrite zlen_repeat in Hfold. simpl in Hfold. change (zlen []) with 0 in Hfold.
  unfold join_blocks. destruct (fd_payloadBlocks d) as [|b [|b' bs]].
  - apply Hfold. rewrite Hn. pose proof (zlen_nonneg content). lia.
  - simpl in Hcat. by rewrite app_nil_r in Hcat.
  - apply Hfold. rewrite Hn. pose proof (zlen_nonneg content). lia.
Qed.

(** ** The decoder between two bytes *)

Record fd_ok (d : FrameDecoder) : Prop := {
  ok_state : fd_state d = DOpen;
  ok_header : zlen (fd_header d) = 4 /\ Forall byte_ok (fd_header d);
  ok_headerLength : 0 <= fd_headerLength d < 4;
  ok_max : 0 <= fd_maxFrameLength d <= MAX_UINT32;
  ok_payload : forall n, fd_expectedPayloadLength d = Some n ->
    fd_headerLength d = 0 /\ 0 < n <= fd_maxFrameLength d /\
    exists content, payload_rep d n content /\ zlen content < n;
  ok_idle : fd_expectedPayloadLength d = None -> fd_payloadBlocks d = [] }.

(** The bytes of the stream the decoder holds. *)
Definition pending (d : FrameDecoder) : bytes :=
  match fd_expectedPayloadLength d with
  | None => take (Z.to_nat (fd_headerLength d)) (fd_header d)
  | Some n => be4 n ++ take (Z.to_nat (fd_payloadLength d)) (concat (fd_payloadBlocks d))
  end.

Lemma rep_content d n content :
  payload_rep d n content ->
  take (Z.to_nat (fd_payloadLength d)) (concat (fd_payloadBlocks d)) = content.
Proof.
  intros [_ Hl _ _ Hblocks]. rewrite Hl. unfold zlen. rewrite Nat2Z.id.
  destruct Hblocks as [(-> & _ & ->)|(full & block & -> & _ & Hcl & _ & ->)]; [done|].
  rewrite concat_app. simpl. rewrite app_nil_r, length_app, length_take, take_app, take_ge by lia.
  f_equal. f_equal. unfold zlen in *. lia.
Qed.
Lemma pending_payload d n content : payload_rep d n content -> pending d = be4 n ++ content.
Proof. intros Hrep. unfold pending. rewrite (pr_expected _ _ _ Hrep). by rewrite (rep_content _ _ _ Hrep). Qed.
Lemma zlen_pending_header d :
  fd_ok d -> fd_expectedPayloadLength d = None -> zlen (pending d) = fd_headerLength d.
Proof.
  intros Hok He. unfold pending. rewrite He. pose proof (ok_headerLength d Hok).
  destruct (ok_header d Hok). unfold zlen in *. rewrite length_take. lia.
Qed.
Lemma pending_bytes d : fd_ok d -> Forall byte_ok (pending d).
Proof.
  intros Hok. destruct (fd_expectedPayloadLength d) as [n|] eqn:He.
  - destruct (ok_payload d Hok n He) as (_ & _ & content & Hrep & _).
    rewrite (pending_payload _ _ _ Hrep). apply Forall_app. split; [apply be4_bytes|by eapply content_bytes].
  - unfold pending. rewrite He. apply Forall_take, (ok_header d Hok).
Qed.

(** What a decoder holds contains no complete frame. *)
Lemma split_pending d : fd_ok d -> split (fd_maxFrameLength d) (pending d) = Ok ([], pending d).
Proof.
  intros Hok. apply split_short; [by apply pending_bytes|].
  destruct (fd_expectedPayloadLength d) as [n|] eqn:He.
  - destruct (ok_payload d Hok n He) as (_ & Hn & content & Hrep & Hlt). pose proof (ok_max d Hok). right.
    rewrite (pending_payload _ _ _ Hrep), header_value_be4 by lia. rewrite zlen_app.
    change (zlen (be4 n)) with 4. lia.
  - left. rewrite zlen_pending_header by done. apply (ok_headerLength d Hok).
Qed.

Definition prepend (fs : list bytes) (r : result js_error (list bytes * bytes)) :=
  match r with Ok (gs, rest) => Ok (fs ++ gs, rest) | Err e => Err e end.
Lemma prepend_nil r : prepend [] r = r.
Proof. by destruct r as [[]|]. Qed.
Lemma prepend_app fs gs r : prepend fs (prepend gs r) = prepend (fs ++ gs) r.
Proof. destruct r as [[]|]; simpl; [by rewrite (assoc_L (++))|done]. Qed.

(** A part of the loop that went from [off] to [off'] and emitted [fs]. *)
Record advanced (chunk : bytes) (d : FrameDecoder) (off : Z) (d' : FrameDecoder) (off' : Z)
    (fs : list bytes) : Prop := {
  adv_ok : fd_ok d';
  adv_max : fd_maxFrameLength d' = fd_maxFrameLength d;
  adv_off : off <= off' <= zlen chunk;
  adv_split : split (fd_maxFrameLength d) (pending d ++ drop (Z.to_nat off) chunk)
    = prepend fs (split (fd_maxFrameLength d) (pending d' ++ drop (Z.to_nat off') chunk)) }.

Lemma advanced_refl chunk d off :
  fd_ok d -> 0 <= off <= zlen chunk -> advanced chunk d off d off [].
Proof. intros Hok Hoff. constructor; [done|done|lia|by rewrite prepend_nil]. Qed.
Lemma advanced_trans chunk d off d1 off1 fs d2 off2 gs :
  advanced chunk d off d1 off1 fs -> advanced chunk d1 off1 d2 off2 gs ->
  advanced chunk d off d2 off2 (fs ++ gs).
Proof.
  intros [H1 H2 H3 H4] [K1 K2 K3 K4]. constructor; [done|congruence|lia|].
  rewrite H2 in K4. by rewrite H4, K4, prepend_app.
Qed.

Lemma drop_subarray chunk a b :
  0 <= a <= b -> drop (Z.to_nat a) chunk = subarray chunk a b ++ drop (Z.to_nat b) chunk.
Proof.
  intros Hab. unfold subarray. replace (Z.to_nat b) with (Z.to_nat a + Z.to_nat (b - a))%nat by lia.
  by rewrite <-drop_drop, take_drop.
Qed.

Lemma fd_ok_cleared d d' :
  fd_ok d -> same_frame d d' -> fd_headerLength d' = 0 -> fd_ok (with_payload [] None 0 None 0 d').
Proof.
  intros [H1 H2 H3 H4 _ _] (E1 & E2 & E3 & E4) Hz. constructor; simpl; try done.
  - congruence.
  - by rewrite E1.
  - lia.
  - by rewrite E3.
Qed.

Lemma read_payload_spec chunk d off :
  fd_ok d -> Forall byte_ok chunk -> 0 <= off <= zlen chunk ->
  exists d' off' fs, read_payload chunk off d = (d', Ok (off', fs)) /\ advanced chunk d off d' off' fs /\
    (off < zlen chunk -> is_Some (fd_expectedPayloadLength d) -> off < off').
Proof.
  intros Hok Hc Hoff. unfold read_payload. mrun.
  destruct (fd_expectedPayloadLength d) as [n|] eqn:He.
  2: { exists d, off, []. split_and!; [done|by apply advanced_refl|by intros _ []]. }
  destruct (ok_payload d Hok n He) as (Hhl & Hn & content & Hrep & Hlt).
  destruct (fill_payload_spec chunk n (S (length chunk)) d content off) as (d' & Hd & Hsame & Hrep');
    [done|done|done|unfold zlen; lia|].
  rewrite Hd. set (off' := off + Z.min (n - zlen content) (zlen chunk - off)) in *.
  pose proof (ok_max d Hok) as Hmax. pose proof Hsame as (E1 & E2 & E3 & E4).
  pose proof (zlen_subarray chunk off off' ltac:(lia) ltac:(lia)) as Hsub.
  rewrite (pr_length _ _ _ Hrep'). pose proof (zlen_nonneg content).
  assert (Hpend : pending d ++ drop (Z.to_nat off) chunk
    = be4 n ++ (content ++ subarray chunk off off') ++ drop (Z.to_nat off') chunk).
  { rewrite (pending_payload _ _ _ Hrep), (drop_subarray chunk off off') by lia. by rewrite <-!(assoc_L (++)). }
  destruct (Z.eqb_spec (zlen (content ++ subarray chunk off off')) n) as [Hfull|Hpart].
  - rewrite (join_blocks_spec _ _ _ Hrep' Hfull). eexists _, _, _. split; [done|].
    split; [|intros; lia]. constructor; [apply (fd_ok_cleared d); [done|done|congruence]|done|lia|].
    assert (Hcleared : pending (with_payload [] None 0 None 0 d') = []).
    { unfold pending. simpl. by replace (fd_headerLength d') with 0 by lia. }
    rewrite Hpend, Hcleared.
    pose proof (split_frame (fd_maxFrameLength d) (content ++ subarray chunk off off')
      (drop (Z.to_nat off') chunk)) as Hs.
    unfold frame in Hs. rewrite Hfull in Hs. rewrite (assoc_L (++) (be4 n)), Hs; [| |lia|lia].
    + by destruct (split _ _) as [[]|].
    + apply Forall_app. split; [by eapply content_bytes|by apply Forall_drop].
  - exists d', off', []. split; [done|]. pose proof (pr_bound _ _ _ Hrep').
    rewrite zlen_app, Hsub in *. split; [|intros; lia]. constructor; [| done|lia|].
    + destruct Hok as [H1 H2 H3 H4 _ _]. constructor; [congruence|by rewrite E1|lia|by rewrite E3| |].
      2: { intros Hn'. by rewrite (pr_expected _ _ _ Hrep') in Hn'. }
      intros m Hm. rewrite (pr_expected _ _ _ Hrep') in Hm. injection Hm as <-.
      split_and!; [lia|lia|lia|]. eexists. split; [done|]. rewrite zlen_app. lia.
    + rewrite prepend_nil, Hpend, (pending_payload _ _ _ Hrep'). by rewrite <-!(assoc_L (++)).
Qed.

Lemma read_header_spec chunk d off :
  fd_ok d -> fd_expectedPayloadLength d = None -> Forall byte_ok chunk -> 0 <= off < zlen chunk ->
  (exists d' off' fs, read_header chunk off d = (d', Ok (off', fs)) /\
     advanced chunk d off d' off' fs /\ off < off') \/
  (exists d' e, read_header chunk off d = (d', Err e) /\ fd_state d' = DFailed /\
     split (fd_maxFrameLength d) (pending d ++ drop (Z.to_nat off) chunk) = Err e).
Proof.
  intros Hok He Hc Hoff. pose proof Hok as [Hstate [Hhl Hhb] Hlen Hmax _ Hidle].
  unfold read_header, FRAME_HEADER_LENGTH. mrun.
  set (k := Z.min (4 - fd_headerLength d) (zlen chunk - off)). assert (Hk : 0 < k) by lia.
  pose proof (zlen_subarray chunk off (off + k) ltac:(lia) ltac:(lia)) as Hsub.
  pose proof (subarray_bytes chunk off (off + k) Hc) as Hsubb.
  pose proof (drop_subarray chunk off (off + k) ltac:(lia)) as Hdrop.
  set (sub := subarray chunk off (off + k)) in *. set (header := u8_set (fd_header d) (fd_headerLength d) sub).
  assert (Hpre : take (Z.to_nat (fd_headerLength d + k)) header = pending d ++ sub).
  { unfold header. rewrite u8_set_app by (done || lia). unfold pending. rewrite He, (assoc_L (++)).
    apply take_app_length'. rewrite length_app, length_take. unfold zlen in *. lia. }
  assert (Hh : zlen header = 4 /\ Forall byte_ok header).
  { split; [by unfold zlen, header; rewrite length_u8_set|]. unfold header. rewrite u8_set_app by (done || lia).
    apply Forall_app. split; [by apply Forall_take|]. apply Forall_app. split; [done|by apply Forall_drop]. }
  destruct Hh as [Hh4 Hhbytes].
  assert (Hok' : forall l, 0 <= l < 4 -> fd_ok (with_header header l d)).
  { intros l Hl. constructor; simpl; [done|done|done|done| |done]. by rewrite He. }
  assert (Hph : forall l, pending (with_header header l d) = take (Z.to_nat l) header)
    by (intros l; unfold pending; simpl; by rewrite He).
  destruct (Z.ltb_spec (fd_headerLength d + k) 4) as [Hshort|Hfull].
  { left. eexists _, _, _. split; [done|]. split; [|lia]. constructor; [apply Hok'; lia|done|lia|].
    rewrite prepend_nil, Hph, Hpre, Hdrop. by rewrite <-(assoc_L (++)). }
  assert (Hhead : pending d ++ sub = be4 (header_value header)).
  { rewrite <-Hpre, take_ge by (unfold zlen in *; lia). rewrite (header_bytes header) at 1 by (done || lia).
    rewrite drop_ge, app_nil_r; [done|unfold zlen in *; lia]. }
  pose proof (header_value_bound header Hhbytes) as Hv. set (n := header_value header) in *.
  assert (Hstream : pending d ++ drop (Z.to_nat off) chunk = be4 n ++ drop (Z.to_nat (off + k)) chunk)
    by (by rewrite Hdrop, (assoc_L (++)), Hhead).
  assert (Hrest : Forall byte_ok (be4 n ++ drop (Z.to_nat (off + k)) chunk))
    by (apply Forall_app; split; [apply be4_bytes|by apply Forall_drop]).
  destruct (Z.ltb_spec (fd_maxFrameLength d) n) as [Hbig|Hfits].
  { right. eexists _, _. split; [unfold fail; mrun; reflexivity|]. split; [done|].
    rewrite Hstream, split_step by done. rewrite zlen_app, header_value_be4 by lia. change (zlen (be4 n)) with 4.
    pose proof (zlen_nonneg (drop (Z.to_nat (off + k)) chunk)).
    rewrite (proj2 (Z.ltb_ge _ 4)) by lia. by rewrite (proj2 (Z.ltb_lt _ n)). }
  destruct (Z.eqb_spec n 0) as [Hzero|Hnz].
  - left. eexists _, _, _. split; [done|]. split; [|lia]. constructor; [|done|lia|].
    + constructor; simpl; [done|done|lia|done| |done]. by rewrite He.
    + rewrite Hstream. change (pending _) with (pending (with_header header 0 d)). rewrite Hph, Hzero. cbn [Z.to_nat take app]. change (be4 0) with (be4 (zlen (@nil Z))).
      pose proof (split_frame (fd_maxFrameLength d) [] (drop (Z.to_nat (off + k)) chunk)) as Hs.
      unfold frame in Hs. rewrite app_nil_r in Hs. rewrite Hs; [by destruct (split _ _) as [[]|]| | |];
        [by apply Forall_drop|rewrite zlen_nil; lia|rewrite zlen_nil; lia].
  - left. eexists _, _, _. split; [done|]. split; [|lia]. constructor; [|done|lia|].
    + constructor; simpl; [done|done|lia|done| |done]. intros m [= <-]. split_and!; [done|lia|lia|].
      exists []. split; [|rewrite zlen_nil; lia]. constructor; simpl; [done|done|rewrite zlen_nil; lia|done|by left].
    + rewrite prepend_nil, Hstream. change (pending _) with (be4 n ++ []). by rewrite app_nil_r.
Qed.

(** ** Pushing a chunk *)

(** The state [fail] leaves: nothing is buffered. *)
Definition fd_failed (d : FrameDecoder) : Prop :=
  fd_state d = DFailed /\ fd_payloadBlocks d = [] /\ fd_headerLength d = 0 /\
  fd_expectedPayloadLength d = None.

Definition splits_to (r : FrameDecoder * result js_error (list bytes)) (d : FrameDecoder)
    (frames : list bytes) (s : result js_error (list bytes * bytes)) : Prop :=
  match s with
  | Ok (fs, rest) => exists d', r = (d', Ok (frames ++ fs)) /\ fd_ok d' /\
      fd_maxFrameLength d' = fd_maxFrameLength d /\ pending d' = rest
  | Err e => exists d', r = (d', Err e) /\ fd_failed d'
  end.

Lemma splits_to_prepend r d d1 frames fs s :
  fd_maxFrameLength d1 = fd_maxFrameLength d ->
  splits_to r d1 (frames ++ fs) s -> splits_to r d frames (prepend fs s).
Proof.
  intros Hm. destruct s as [[gs rest]|e]; simpl; [|done].
  rewrite (assoc_L (++)), <-Hm. done.
Qed.

Lemma push_loop_spec fuel chunk d off frames :
  fd_ok d -> Forall byte_ok chunk -> 0 <= off <= zlen chunk -> zlen chunk - off < Z.of_nat fuel ->
  splits_to (push_loop fuel chunk off frames d) d frames
    (split (fd_maxFrameLength d) (pending d ++ drop (Z.to_nat off) chunk)).
Proof.
  intros Hok Hc. revert d off frames Hok.
  induction fuel as [|fuel IH]; intros d off frames Hok Hoff Hfuel; [lia|]. cbn [push_loop].
  destruct (Z.ltb_spec off (zlen chunk)) as [Hlt|Hge].
  2: { rewrite drop_ge, app_nil_r by (unfold zlen in *; lia). rewrite split_pending by done.
       exists d. by rewrite app_nil_r. }
  mrun.
  assert (Hpayload : forall d1 off1 fs1, advanced chunk d off d1 off1 fs1 ->
    off < off1 \/ is_Some (fd_expectedPayloadLength d1) ->
    splits_to (let '(s', r) := read_payload chunk off1 d1 in
       match r with
       | Ok b => push_loop fuel chunk b.1 (frames ++ fs1 ++ b.2) s'
       | Err e => (s', Err e)
       end) d frames (split (fd_maxFrameLength d) (pending d ++ drop (Z.to_nat off) chunk))).
  { intros d1 off1 fs1 Hadv Hprog. pose proof (adv_off _ _ _ _ _ _ Hadv) as Hoff1.
    destruct (read_payload_spec chunk d1 off1) as (d2 & off2 & fs2 & -> & Hadv2 & Hprog2);
      [by eapply adv_ok|done|lia|].
    pose proof (adv_off _ _ _ _ _ _ Hadv2). pose proof (advanced_trans _ _ _ _ _ _ _ _ _ Hadv Hadv2) as [H2 Hm Ho Hs].
    rewrite Hs. simpl. apply (splits_to_prepend _ _ d2); [done|]. rewrite <-Hm. apply IH; [done|lia|].
    destruct (decide (off1 = off2)) as [Heq|]; [|lia]. destruct Hprog as [|Hp]; [lia|].
    destruct (decide (off1 < zlen chunk)); [specialize (Hprog2 ltac:(done) Hp)|]; lia. }
  destruct (fd_expectedPayloadLength d) as [n|] eqn:He.
  - apply (Hpayload d off []); [by apply advanced_refl|right; by rewrite He].
  - destruct (read_header_spec chunk d off) as [(d1 & off1 & fs1 & Hr & Hadv & Hlt1)|(d1 & e & Hr & Hf & Hs)];
      [done|done|done|lia|rewrite Hr; apply (Hpayload d1 off1 fs1); [done|by left]|].
    rewrite Hr, Hs. simpl. exists d1. split; [done|]. revert Hr. unfold read_header, fail. mrun.
    repeat case_match; intros; simplify_eq. done.
Qed.

Lemma push_spec chunk d :
  fd_ok d -> Forall byte_ok chunk ->
  splits_to (push chunk d) d [] (split (fd_maxFrameLength d) (pending d ++ chunk)).
Proof.
  intros Hok Hc. unfold push, check_open. mrun. rewrite (ok_state d Hok).
  apply (push_loop_spec _ chunk d 0 []); [done|done|pose proof (zlen_nonneg chunk); lia|unfold zlen; lia].
Qed.

Lemma push_all_spec chunks d :
  fd_ok d -> Forall (Forall byte_ok) chunks ->
  splits_to (push_all chunks d) d [] (split (fd_maxFrameLength d) (pending d ++ concat chunks)).
Proof.
  intros Hok Hcs. revert d Hok. induction Hcs as [|c chunks Hc Hcs IH]; intros d Hok; simpl.
  { rewrite app_nil_r, split_pending by done. by exists d. }
  assert (Hb : Forall byte_ok (pending d ++ c)) by (apply Forall_app; split; [by apply pending_bytes|done]).
  rewrite (assoc_L (++)), split_app.
  2: { apply Forall_app. split; [done|by apply Forall_concat]. }
  pose proof (push_spec c d Hok Hc) as Hpush. mrun.
  destruct (split (fd_maxFrameLength d) (pending d ++ c)) as [[fs rest]|e]; simpl in *.
  2: { destruct Hpush as (d1 & -> & Hf). by exists d1. }
  destruct Hpush as (d1 & -> & Hok1 & Hm1 & <-). specialize (IH d1 Hok1). rewrite Hm1 in IH.
  destruct (split (fd_maxFrameLength d) (pending d1 ++ concat chunks)) as [[gs r]|e]; simpl in *.
  - destruct IH as (d2 & -> & Hok2 & Hm2 & Hp2). exists d2. split_and!; [done|done|congruence|done].
  - destruct IH as (d2 & -> & Hf). by exists d2.
Qed.

(** ** Encoding frames *)

Lemma encodeFrame_frame payload :
  Forall byte_ok payload -> zlen payload <= MAX_UINT32 -> encodeFrame payload = Ok (frame payload).
Proof.
  intros Hb Hl. unfold encodeFrame. rewrite (proj2 (Z.ltb_ge _ _)) by done. f_equal.
  pose proof (zlen_nonneg payload). unfold FRAME_HEADER_LENGTH.
  replace (Z.to_nat (4 + zlen payload)) with (4 + length payload)%nat by (unfold zlen; lia).
  rewrite !Z.shiftr_div_pow2 by lia.
  change (2 ^ 8) with 256. change (2 ^ 16) with 65536. change (2 ^ 24) with 16777216.
  set (buf := repeat 0 (length payload)).
  assert (Hst : u8_store (u8_store (u8_store (u8_store (repeat 0 (4 + length payload)) 0 (zlen payload / 16777216)) 1
      (zlen payload / 65536)) 2 (zlen payload / 256)) 3 (zlen payload) = be4 (zlen payload) ++ buf).
  { change (repeat 0 (4 + length payload)) with ([0; 0; 0; 0] ++ buf). pose proof (zlen_nonneg buf).
    unfold u8_store at 4. rewrite zlen_app, (proj2 (Z.ltb_lt _ _)) by (change (zlen [0; 0; 0; 0]) with 4; lia). simpl.
    unfold u8_store at 3. rewrite !zlen_cons, (proj2 (Z.ltb_lt _ _)) by lia. simpl.
    unfold u8_store at 2. rewrite !zlen_cons, (proj2 (Z.ltb_lt _ _)) by lia. simpl.
    unfold u8_store at 1. rewrite !zlen_cons, (proj2 (Z.ltb_lt _ _)) by lia. done. }
  rewrite Hst, u8_set_app; [|lia|rewrite zlen_app; unfold buf; rewrite zlen_repeat; change (zlen (be4 (zlen payload))) with 4; unfold zlen; lia|done].
  unfold frame. simpl. do 4 f_equal. rewrite drop_ge, ?app_nil_r; [done|].
  unfold buf. simpl. rewrite repeat_length. unfold zlen. lia.
Qed.

Lemma new_decoder_ok options d :
  new_FrameDecoder options = Ok d -> fd_ok d /\ pending d = [] /\ resolveMaxFrameLength options = Ok (fd_maxFrameLength d).
Proof.
  unfold new_FrameDecoder. mrun. destruct (resolveMaxFrameLength options) as [max|] eqn:Hr; [|done].
  intros [= <-]. split; [|done]. constructor; simpl; try done.
  - split; [done|repeat constructor; unfold byte_ok; lia].
  - revert Hr. unfold resolveMaxFrameLength. destruct (negb _); [done|]. destruct (num_to_Z _) as [z|]; [|done].
    destruct (Z.ltb_spec z 0), (Z.ltb_spec MAX_UINT32 z); simpl; try done. intros [= <-]. lia.
Qed.

Lemma split_all max payloads :
  Forall (Forall byte_ok) payloads -> Forall (fun p => zlen p <= max) payloads -> max <= MAX_UINT32 ->
  split max (concat (frame <$> payloads)) = Ok (payloads, []).
Proof.
  intros Hb Hl Hmax. induction payloads as [|p payloads IH]; [done|]. rewrite fmap_cons. cbn [concat].
  apply Forall_cons in Hb as [Hbp Hb], Hl as [Hlp Hl]. rewrite split_frame; [by rewrite IH| |done|lia].
  apply Forall_app. split; [done|]. clear IH Hl. induction Hb as [|q ps Hq Hps IH]; [constructor|]. rewrite fmap_cons. cbn [concat].
  apply Forall_app. split; [|done]. apply Forall_app. split; [apply be4_bytes|done].
Qed.

Lemma split_result max bs :
  Forall byte_ok bs ->
  match split max bs with
  | Ok (fs, _) => Forall (fun p => zlen p <= max) fs
  | Err e => e <> StepBound
  end.
Proof.
  unfold split. generalize (S (length bs)) as fuel. intros fuel. revert bs.
  induction fuel as [|fuel IH]; intros bs Hb; simpl; [constructor|].
  destruct (_ <? 4); [constructor|].
  destruct (Z.ltb_spec max (header_value bs)); [done|]. destruct (_ <? _); [constructor|].
  pose proof (header_value_bound bs Hb).
  specialize (IH (drop (Z.to_nat (4 + header_value bs)) bs) (Forall_drop _ _ _ Hb)).
  destruct (split_frames fuel _ _) as [[fs rest]|e]; [|done]. constructor; [|done].
  unfold zlen. rewrite length_take. lia.
Qed.

(** ** Properties *)

(** A decoder with the default limit, for concrete streams. *)
Definition sample_decoder : FrameDecoder :=
  {| fd_header := [0; 0; 0; 0]; fd_headerLength := 0; fd_maxFrameLength := 16777216;
     fd_payloadBlocks := []; fd_currentPayloadBlock := None; fd_currentPayloadBlockLength := 0;
     fd_expectedPayloadLength := None; fd_payloadLength := 0; fd_state := DOpen |}.
Lemma sample_decoder_new : new_FrameDecoder None = Ok sample_decoder.
Proof. by vm_compute. Qed.
Lemma sample_decoder_ok : fd_ok sample_decoder.
Proof. by destruct (new_decoder_ok None _ sample_decoder_new). Qed.
Ltac sample_bytes := repeat first [constructor | unfold byte_ok; lia].

(** C14. The incremental decoder implements the splitting of the byte stream: from
    any state between two chunks, pushing a chunk returns the payloads of the
    frames that the bytes held so far and the chunk complete, keeps the rest, and
    latches the failed state exactly when the next length exceeds the limit. *)
Theorem push_refines_split chunk d :
  fd_ok d -> Forall byte_ok chunk ->
  match split (fd_maxFrameLength d) (pending d ++ chunk) with
  | Ok (fs, rest) => exists d', push chunk d = (d', Ok fs) /\ fd_ok d' /\
      fd_maxFrameLength d' = fd_maxFrameLength d /\ pending d' = rest
  | Err e => exists d', push chunk d = (d', Err e) /\ fd_failed d'
  end.
Proof. apply push_spec. Qed.

Lemma push_refines_split_witness :
  match split (fd_maxFrameLength sample_decoder) (pending sample_decoder ++ [0; 0; 0; 1; 7; 0; 0]) with
  | Ok (fs, rest) => exists d', push [0; 0; 0; 1; 7; 0; 0] sample_decoder = (d', Ok fs) /\ fd_ok d' /\
      fd_maxFrameLength d' = fd_maxFrameLength sample_decoder /\ pending d' = rest
  | Err e => exists d', push [0; 0; 0; 1; 7; 0; 0] sample_decoder = (d', Err e) /\ fd_failed d'
  end.
Proof. apply push_refines_split; [exact sample_decoder_ok|sample_bytes]. Defined.

(** The chunking of a stream is irrelevant: pushing its chunks one by one and
    pushing their concatenation return the same payloads and leave the decoder
    holding the same bytes, or fail with the same error. *)
Theorem push_chunking chunks d :
  fd_ok d -> Forall (Forall byte_ok) chunks ->
  match push_all chunks d, push (concat chunks) d with
  | (d1, Ok fs), (d2, Ok gs) => fs = gs /\ pending d1 = pending d2
  | (_, Err e), (_, Err e') => e = e'
  | _, _ => False
  end.
Proof.
  intros Hok Hc. pose proof (push_all_spec chunks d Hok Hc) as H1.
  pose proof (push_spec (concat chunks) d Hok (proj2 (Forall_concat _ _) Hc)) as H2.
  destruct (split _ _) as [[fs rest]|e]; simpl in *.
  - destruct H1 as (d1 & -> & _ & _ & H1), H2 as (d2 & -> & _ & _ & H2). split; congruence.
  - by destruct H1 as (d1 & -> & _), H2 as (d2 & -> & _).
Qed.

Lemma push_chunking_witness :
  match push_all [[0; 0; 0]; [1; 7; 0; 0]] sample_decoder,
        push (concat [[0; 0; 0]; [1; 7; 0; 0]]) sample_decoder with
  | (d1, Ok fs), (d2, Ok gs) => fs = gs /\ pending d1 = pending d2
  | (_, Err e), (_, Err e') => e = e'
  | _, _ => False
  end.
Proof. apply push_chunking; [exact sample_decoder_ok|sample_bytes]. Defined.

(** Stream round trip: however the frames [encodeFrame] produced for payloads
    within the limit are cut into chunks, a new decoder returns exactly these
    payloads in order and [end] accepts; when the stream stops inside a frame,
    [end] reports the truncation and latches the failure. *)
Theorem frames_roundtrip options d payloads chunks tail_payload k :
  new_FrameDecoder options = Ok d ->
  Forall (Forall byte_ok) payloads -> Forall (fun p => zlen p <= fd_maxFrameLength d) payloads ->
  Forall byte_ok tail_payload -> zlen tail_payload <= fd_maxFrameLength d ->
  (k < length (frame tail_payload))%nat ->
  Forall (Forall byte_ok) chunks ->
  concat chunks = concat (frame <$> payloads) ++ take k (frame tail_payload) ->
  Forall (fun p => encodeFrame p = Ok (frame p)) payloads /\
  exists d', push_all chunks d = (d', Ok payloads) /\
    (k = 0%nat -> exists d'', end_ d' = (d'', Ok tt) /\ fd_state d'' = DEnded) /\
    (k <> 0%nat -> exists d'', end_ d' = (d'', Err (FrameError "Truncated frame at end of stream")) /\
                               fd_failed d'').
Proof.
  intros Hnew Hb Hl Htb Htl Hk Hcb Hcat.
  destruct (new_decoder_ok _ _ Hnew) as (Hok & Hp & _). pose proof (ok_max d Hok) as Hmax. split.
  { rewrite Forall_forall in Hb, Hl |- *. intros p Hin. specialize (Hl p Hin). cbv beta in Hl.
    apply encodeFrame_frame; [by apply Hb|lia]. }
  pose proof (push_all_spec chunks d Hok Hcb) as H. rewrite Hp, Hcat in H. cbn [app] in H.
  assert (Hfb : Forall byte_ok (frame tail_payload)) by (apply Forall_app; split; [apply be4_bytes|done]).
  assert (Hrest : split (fd_maxFrameLength d) (take k (frame tail_payload)) = Ok ([], take k (frame tail_payload))).
  { apply split_short; [by apply Forall_take|]. unfold zlen. rewrite length_take.
    destruct (decide (k < 4)%nat); [left; lia|right].
    assert (Hh : header_value (take k (frame tail_payload)) = zlen tail_payload).
    { unfold header_value. rewrite take_take. replace (4 `min` k)%nat with 4%nat by lia.
      pose proof (header_value_be4 (zlen tail_payload) tail_payload) as Hv. unfold header_value in Hv.
      pose proof (zlen_nonneg tail_payload). unfold frame. rewrite Hv; [done|lia]. }
    rewrite Hh. split; [done|]. unfold frame in Hk. rewrite length_app in Hk. simpl in Hk. unfold zlen. lia. }
  rewrite split_app in H.
  2: { rewrite <-Hcat. by apply Forall_concat. }
  rewrite split_all in H by (done || lia).
  cbn [app] in H. rewrite Hrest in H. destruct H as (d' & Hpush & Hok' & _ & Hpend).
  rewrite app_nil_r in Hpush. exists d'. split; [done|].
  unfold end_, check_open. mrun. rewrite (ok_state d' Hok'). split.
  - intros ->. change (pending d' = []) in Hpend.
    destruct (fd_expectedPayloadLength d') as [n|] eqn:He.
    { unfold pending in Hpend. by rewrite He in Hpend. }
    pose proof (zlen_pending_header d' Hok' He) as Hz. rewrite Hpend, zlen_nil in Hz. rewrite <-Hz. simpl.
    by eexists.
  - intros Hk0. assert (Hne : pending d' <> []).
    { rewrite Hpend. destruct k; [done|]. unfold frame. done. }
    replace (negb _ || _) with true; [eexists; split; [done|]; by repeat split|].
    symmetry. destruct (fd_expectedPayloadLength d') as [n|] eqn:He.
    { rewrite orb_true_iff. right. by apply bool_decide_eq_true. }
    rewrite orb_true_iff. left. apply negb_true_iff, Z.eqb_neq. intros Hz.
    pose proof (zlen_pending_header d' Hok' He) as Hl'. destruct (pending d') as [|x xs] eqn:Hpd; [done|].
    rewrite zlen_cons in Hl'. pose proof (zlen_nonneg xs). lia.
Qed.

Lemma frames_roundtrip_witness :
  Forall (fun p => encodeFrame p = Ok (frame p)) [[7]; []] /\
  exists d', push_all [[0; 0; 0]; [1; 7; 0; 0; 0; 0; 0; 0]] sample_decoder = (d', Ok [[7]; []]) /\
    (2%nat = 0%nat -> exists d'', end_ d' = (d'', Ok tt) /\ fd_state d'' = DEnded) /\
    (2%nat <> 0%nat -> exists d'', end_ d' = (d'', Err (FrameError "Truncated frame at end of stream")) /\
                               fd_failed d'').
Proof.
  apply (frames_roundtrip None sample_decoder [[7]; []] [[0; 0; 0]; [1; 7; 0; 0; 0; 0; 0; 0]] [9] 2).
  - exact sample_decoder_new.
  - sample_bytes.
  - repeat constructor; vm_compute; done.
  - sample_bytes.
  - by vm_compute.
  - apply (bool_decide_unpack _). by vm_compute.
  - sample_bytes.
  - reflexivity.
Defined.

(** C39. Bounded buffering and latching: whatever bytes a peer sends, every payload
    returned and the payload buffered between chunks stay within the configured
    limit; after a failure nothing is buffered, and every later [push] and [end]
    throws and changes nothing. *)
Theorem decoder_bounded options d chunks :
  new_FrameDecoder options = Ok d -> Forall (Forall byte_ok) chunks ->
  match push_all chunks d with
  | (d', Ok fs) => Forall (fun p => zlen p <= fd_maxFrameLength d) fs /\
      zlen (concat (fd_payloadBlocks d')) <= fd_maxFrameLength d
  | (d', Err e) => e <> StepBound /\ fd_payloadBlocks d' = [] /\
      forall chunk, push chunk d' = (d', Err (FrameError "Frame decoder has failed")) /\
                    end_ d' = (d', Err (FrameError "Frame decoder has failed"))
  end.
Proof.
  intros Hnew Hcb. destruct (new_decoder_ok _ _ Hnew) as (Hok & Hp & _).
  pose proof (push_all_spec chunks d Hok Hcb) as H. rewrite Hp in H. cbn [app] in H.
  assert (Hb : Forall byte_ok (concat chunks)) by by apply Forall_concat.
  pose proof (split_result (fd_maxFrameLength d) (concat chunks) Hb) as Hsplit.
  destruct (split _ _) as [[fs rest]|e]; simpl in H.
  - destruct H as (d' & -> & Hok' & Hm & _). split; [done|]. rewrite <-Hm.
    pose proof (ok_max d' Hok').
    destruct (fd_expectedPayloadLength d') as [n|] eqn:He.
    + destruct (ok_payload d' Hok' n He) as (_ & Hn & content & Hrep & _).
      destruct Hrep as [_ _ _ _ [(-> & _)|(full & block & -> & _ & _ & Hle & _)]]; [simpl; rewrite zlen_nil; lia|lia].
    + rewrite (ok_idle d' Hok' He). simpl. rewrite zlen_nil. lia.
  - destruct H as (d' & -> & Hs & Hbl & _). split_and!; [done|done|]. intros chunk.
    unfold push, end_, check_open. mrun. by rewrite Hs.
Qed.
Lemma decoder_bounded_witness :
  match push_all [[255; 0]; [0; 0; 1]] sample_decoder with
  | (d', Ok fs) => Forall (fun p => zlen p <= fd_maxFrameLength sample_decoder) fs /\
      zlen (concat (fd_payloadBlocks d')) <= fd_maxFrameLength sample_decoder
  | (d', Err e) => e <> StepBound /\ fd_payloadBlocks d' = [] /\
      forall chunk, push chunk d' = (d', Err (FrameError "Frame decoder has failed")) /\
                    end_ d' = (d', Err (FrameError "Frame decoder has failed"))
  end.
Proof. apply (decoder_bounded None sample_decoder); [exact sample_decoder_new|sample_bytes]. Defined.
