(* ===== verification/Codec.v ===== *)
(** * Protocol messages (packages/protocol/src/codec.ts)

    Validation, encoding and incremental decoding of framed messages.  The schema
    check is the [Check] function of the typebox package: it is the parameter
    [Check] of this file, one function per schema.  A decoded value is built in a
    fresh heap ([materialize]), so that decoded and local values are validated by
    the same functions.  [isProtocolValue] recurses over a graph and takes one
    level per object of the heap, plus one. *)
From S2P Require Import Prelude JsNumber JsText JsValue CborEncoder CborDecoder Framing.

(** ** Decoded values as objects *)

Section alloc_list.
Context {A : Type} (alloc : A -> nat * js_heap -> (nat * js_heap) * jsval).
Fixpoint alloc_list (l : list A) (st : nat * js_heap) : (nat * js_heap) * list jsval :=
  match l with
  | [] => (st, [])
  | x :: l' =>
      let '(st1, v) := alloc x st in
      let '(st2, vs) := alloc_list l' st1 in
      (st2, v :: vs)
  end.
End alloc_list.

(** The arrays and objects of a decoded value get the locations from [st.1] on. *)
Fixpoint alloc (t : cval) (st : nat * js_heap) : (nat * js_heap) * jsval :=
  match t with
  | CNull => (st, VNull)
  | CBool b => (st, VBool b)
  | CNumber n => (st, VNumber n)
  | CString s => (st, VString s)
  | CBytes b => (st, VBytes b)
  | CArray items =>
      let '((n, h), vs) := alloc_list alloc items st in
      ((S n, <[n := OArray (Some <$> vs)]> h), VObject n)
  | CMap props =>
      let '((n, h), vs) := alloc_list (fun kv => alloc kv.2) props st in
      ((S n, <[n := OPlain false false (zip props.*1 vs)]> h), VObject n)
  end.

(** A value together with the heap it lives in. *)
Definition message : Type := js_heap * jsval.
Definition materialize (t : cval) : message :=
  let '((_, h), v) := alloc t (0%nat, ∅) in (h, v).

(** ** Validation *)

(** [array.every(f)] *)
Fixpoint every {A} (f : A -> option bool) (l : list A) : option bool :=
  match l with
  | [] => Some true
  | x :: l' => match f x with Some true => every f l' | r => r end
  end.

Fixpoint isProtocolValue (fuel : nat) (h : js_heap) (value : jsval) (optionalProperty : bool)
    (ancestors : gset js_loc) : option bool :=
  match fuel with
  | O => None
  | S fuel' =>
      match value with
      | VUndefined => Some optionalProperty
      | VNull | VBool _ | VNumber _ | VString _ => Some true
      | VBytes _ | VOther _ => Some false
      | VObject l =>
          if bool_decide (l ∈ ancestors) then Some false else
          match deref h l with
          | OArray items =>
              every (fun item => match item with
                                 | None => Some true
                                 | Some v => isProtocolValue fuel' h v false ({[l]} ∪ ancestors)
                                 end) items
          | OPlain null_prototype _ props =>
              if null_prototype then Some false else
              every (fun kv => isProtocolValue fuel' h kv.2 true ({[l]} ∪ ancestors)) props
          | OExotic => Some false
          end
      end
  end.
Definition value_fuel (h : js_heap) : nat := S (size (dom h)).

(** [parseClientMessage] and [parseServerMessage]: [kind] and the schema differ. *)
Definition parse_message (kind : string) (Check : js_heap -> jsval -> bool) (m : message)
  : result js_error message :=
  match isProtocolValue (value_fuel m.1) m.1 m.2 false ∅ with
  | None => Err StepBound
  | Some valid =>
      if negb valid || negb (Check m.1 m.2)
      then Err (ProtocolValidationError ("Invalid " +:+ kind +:+ " protocol message"))
      else Ok m
  end.
Definition parseClientMessage := parse_message "client".
Definition parseServerMessage := parse_message "server".

(** ** Errors *)

Definition error_message (e : js_error) : string :=
  match e with
  | CborError m | FrameError m | RangeError m | TypeError m | ProtocolValidationError m => m
  | StepBound => ""
  end.

Definition boundedErrorMessage (e : js_error) : string :=
  let m := error_message e in
  if (String.length m <=? 500)%nat then m else String.substring 0 497 m +:+ "...".

(** The [catch] clauses: a validation error is thrown on, any other is wrapped. *)
Definition wrap_error (prefix : string) (e : js_error) : js_error :=
  match e with
  | ProtocolValidationError _ | StepBound => e
  | _ => ProtocolValidationError (prefix +:+ boundedErrorMessage e)
  end.

(** ** Encoding *)

Definition frame_limit (options : FrameDecoderOptions) : number :=
  default (num_of_Z DEFAULT_MAX_FRAME_LENGTH) options.
Definition byte_limit (options : FrameDecoderOptions) : CborOptions :=
  {| opt_maxByteLength := Some (frame_limit options); opt_maxContainerLength := None;
     opt_maxDepth := None |}.

Definition encodeProtocolMessage (m : message) (parse : message -> result js_error message)
    (kind : string) (options : FrameDecoderOptions) : result js_error bytes :=
  validated ← parse m;
  match (payload ← encodeCbor validated.1 validated.2 (byte_limit options);
         frame ← encodeFrame payload;
         _ ← assertCompleteFrame frame (Some (frame_limit options));
         Ok frame) with
  | Ok frame => Ok frame
  | Err e => Err (wrap_error ("Unable to encode " +:+ kind +:+ " protocol message: ") e)
  end.
Definition encodeClientMessage Check (m : message) (options : FrameDecoderOptions) :=
  encodeProtocolMessage m (parseClientMessage Check) "client" options.
Definition encodeServerMessage Check (m : message) (options : FrameDecoderOptions) :=
  encodeProtocolMessage m (parseServerMessage Check) "server" options.

(** ** Decoding *)

Record ValidatedMessageDecoder := {
  md_failed : bool;
  md_frames : FrameDecoder;
  md_kind : string;
  md_options : FrameDecoderOptions }.

Definition new_MessageDecoder (kind : string) (options : FrameDecoderOptions)
  : result js_error ValidatedMessageDecoder :=
  frames ← new_FrameDecoder options;
  Ok {| md_failed := false; md_frames := frames; md_kind := kind; md_options := options |}.
Definition createClientMessageDecoder := new_MessageDecoder "client".
Definition createServerMessageDecoder := new_MessageDecoder "server".

Definition with_frames (d : ValidatedMessageDecoder) (frames : FrameDecoder) : ValidatedMessageDecoder :=
  {| md_failed := md_failed d; md_frames := frames; md_kind := md_kind d; md_options := md_options d |}.
Definition with_failed (d : ValidatedMessageDecoder) : ValidatedMessageDecoder :=
  {| md_failed := true; md_frames := md_frames d; md_kind := md_kind d; md_options := md_options d |}.

(** The loop over the completed frames. *)
Fixpoint decode_frames (parse : message -> result js_error message) (options : FrameDecoderOptions)
    (frames : list bytes) : result js_error (list message) :=
  match frames with
  | [] => Ok []
  | frame :: frames' =>
      value ← decodeCbor frame (byte_limit options);
      m ← parse (materialize value);
      rest ← decode_frames parse options frames';
      Ok (m :: rest)
  end.

Definition MD := M ValidatedMessageDecoder js_error.

(** A call on the inner frame decoder, which keeps its state when it throws. *)
Definition on_frames {A} (f : D A) : MD A := fun d =>
  let '(frames, r) := f (md_frames d) in (with_frames d frames, r).

(** [try { f } catch (error) { this.failed = true; throw wrapped }] *)
Definition latching {A} (prefix : string) (f : MD A) : MD A := fun d =>
  match f d with
  | (d', Ok a) => (d', Ok a)
  | (d', Err e) => (with_failed d', Err (wrap_error prefix e))
  end.

Definition failed_error (d : ValidatedMessageDecoder) : js_error :=
  ProtocolValidationError (md_kind d +:+ " message decoder has failed").

Definition push_message (parse : message -> result js_error message) (chunk : bytes) : MD (list message) :=
  d ← get;
  throw_if (md_failed d) (failed_error d);;
  latching ("Invalid " +:+ md_kind d +:+ " protocol frame: ")
    (frames ← on_frames (push chunk);
     lift (decode_frames parse (md_options d) frames)).

Definition end_messages : MD unit :=
  d ← get;
  throw_if (md_failed d) (failed_error d);;
  latching ("Invalid " +:+ md_kind d +:+ " protocol framing: ") (on_frames end_).

(** A stream: its chunks pushed one after the other. *)
Fixpoint push_messages (parse : message -> result js_error message) (chunks : list bytes)
  : MD (list message) :=
  match chunks with
  | [] => mret []
  | chunk :: chunks' =>
      ms ← push_message parse chunk; rest ← push_messages parse chunks'; mret (ms ++ rest)
  end.

(** ** Versions *)

Definition PROTOCOL_VERSION : Z := 1.
Definition isSupportedProtocolVersion (version : number) : bool :=
  num_is_integer version && num_eq_Z version PROTOCOL_VERSION.
