(* ===== verification/CodecTheorems.v ===== *)
(** * Validated messages over a framed stream

    [isProtocolValue] decides, on finite values, the absence of byte arrays; a
    decoded value lives in a heap of its own and unfolds to what was decoded.  The
    client of the frame and CBOR layers is correct by their specifications alone:
    [push_all_spec], [encodeCbor_iff], [decodeCbor_enc]. *)
From S2P Require Import Prelude JsNumber JsText JsValue CborEncoder CborDecoder CborWriter CborEncoding.
From S2P Require Import CborSound Framing FramingTheorems Codec.

(** ** [every] *)

Section every.
Context {A : Type} (f : A -> option bool).
Lemma every_total l : (forall x, x ∈ l -> f x <> None) -> every f l <> None.
Proof.
  induction l as [|x l IH]; intros H; simpl; [done|]. pose proof (H x ltac:(by left)).
  destruct (f x) as [[]|]; [|done|done]. apply IH. intros y Hy. apply H. by right.
Qed.
Lemma every_not_false l : (forall x, x ∈ l -> f x <> Some false) -> every f l <> Some false.
Proof.
  induction l as [|x l IH]; intros H; simpl; [done|]. pose proof (H x ltac:(by left)).
  destruct (f x) as [[]|]; [|done|done]. apply IH. intros y Hy. apply H. by right.
Qed.
Lemma every_true l : every f l = Some true -> forall x, x ∈ l -> f x = Some true.
Proof.
  induction l as [|x l IH]; simpl; [by intros _ x ?%not_elem_of_nil|].
  destruct (f x) as [[]|] eqn:Hx; try done. intros H y [->|Hy]%elem_of_cons; auto.
Qed.
End every.

(** ** Validation terminates *)

Lemma isProtocolValue_total fuel h v opt anc :
  anc ⊆ dom h -> (size (dom h) < size anc + fuel)%nat -> isProtocolValue fuel h v opt anc <> None.
Proof.
  revert v opt anc. induction fuel as [|fuel IH]; intros v opt anc Hsub Hsize.
  { apply subseteq_size in Hsub. lia. }
  destruct v as [| |b|n|s|b|l|ty]; cbn [isProtocolValue]; try done.
  case_bool_decide as Hin; [done|].
  assert (Hrec : forall v opt, deref h l <> OExotic -> isProtocolValue fuel h v opt ({[l]} ∪ anc) <> None).
  { intros v' opt' Hne. apply IH.
    - assert (l ∈ dom h); [|set_solver]. apply elem_of_dom. unfold deref in Hne.
      destruct (h !! l) as [ob|] eqn:Hl; [by exists ob|by destruct Hne].
    - rewrite size_union by set_solver. rewrite size_singleton. lia. }
  destruct (deref h l) as [items|np sy props|]; [|destruct np; [done|]|done].
  - apply every_total. intros [v|] _; [by apply Hrec|done].
  - apply every_total. intros kv _. by apply Hrec.
Qed.

(** ** What validation means on finite values *)

Fixpoint no_bytes (t : cval) : bool :=
  match t with
  | CBytes _ => false
  | CArray items => forallb no_bytes items
  | CMap props => forallb (fun kv => no_bytes kv.2) props
  | _ => true
  end.

Lemma forallb_elem {A} (p : A -> bool) l : forallb p l = true <-> forall x, x ∈ l -> p x = true.
Proof. rewrite forallb_forall. split; intros H x Hx; apply H; by apply list_elem_of_In. Qed.

Section unfold_members.
Variable h : js_heap.
Lemma unfolds_items_in items ts :
  unfolds_items h items ts ->
  (forall it, it ∈ items -> exists v t, it = Some v /\ t ∈ ts /\ unfolds h v t) /\
  (forall t, t ∈ ts -> exists v, Some v ∈ items /\ unfolds h v t).
Proof.
  induction 1 as [|v t items ts Hu H [IH1 IH2]].
  - split; [by intros it ?%not_elem_of_nil|by intros t ?%not_elem_of_nil].
  - split.
    + intros it [->|Hin]%elem_of_cons; [exists v, t; split_and!; [done|by left|done]|].
      destruct (IH1 it Hin) as (v' & t' & ? & ? & ?). exists v', t'. split_and!; [done|by right|done].
    + intros t' [->|Hin]%elem_of_cons; [exists v; split; [by left|done]|].
      destruct (IH2 t' Hin) as (v' & ? & ?). exists v'. split; [by right|done].
Qed.
Lemma unfolds_props_in props kvs :
  unfolds_props h props kvs ->
  (forall kv, kv ∈ props -> exists t, (kv.1, t) ∈ kvs /\ unfolds h kv.2 t) /\
  (forall kt, kt ∈ kvs -> exists v, (kt.1, v) ∈ props /\ unfolds h v kt.2).
Proof.
  induction 1 as [|k v t props kvs Hu H [IH1 IH2]].
  - split; [by intros it ?%not_elem_of_nil|by intros t ?%not_elem_of_nil].
  - split.
    + intros kv [->|Hin]%elem_of_cons; [exists t; split; [by left|done]|].
      destruct (IH1 kv Hin) as (t' & ? & ?). exists t'. split; [by right|done].
    + intros kt [->|Hin]%elem_of_cons; [exists v; split; [by left|done]|].
      destruct (IH2 kt Hin) as (v' & ? & ?). exists v'. split; [by right|done].
Qed.

Lemma isProtocolValue_sound t : forall fuel v opt anc,
  unfolds h v t -> isProtocolValue fuel h v opt anc = Some true -> no_bytes t = true.
Proof.
  induction t as [|b|n|s|b|items IH|props IH] using cval_nested_ind; intros fuel v opt anc Hu H; try done;
    destruct fuel as [|fuel]; try done; inversion Hu; subst; cbn [isProtocolValue] in H; try done;
    case_bool_decide; try done; match goal with Hl : deref h _ = _ |- _ => rewrite Hl in H end;
    rewrite Forall_forall in IH; cbn [no_bytes]; apply forallb_elem.
  - intros t Ht. match goal with Hi : unfolds_items _ _ _ |- _ => apply unfolds_items_in in Hi as [_ Hi];
      destruct (Hi t Ht) as (v & Hv & Hut) end.
    eapply (IH t Ht); [exact Hut|]. exact (every_true _ _ H (Some v) Hv).
  - destruct np; [done|]. intros kt Ht.
    match goal with Hi : unfolds_props _ _ _ |- _ => apply unfolds_props_in in Hi as [_ Hi];
      destruct (Hi kt Ht) as (v & Hv & Hut) end.
    eapply (IH kt Ht); [exact Hut|]. apply elem_of_keep in Hv as [Hv _].
    exact (every_true _ _ H (kt.1, v) Hv).
Qed.

(** A finite value without byte arrays is never rejected, when no object of the
    heap has a null prototype. *)
Lemma isProtocolValue_complete t : (forall l sy props, deref h l <> OPlain true sy props) ->
  forall fuel v opt anc, unfolds h v t -> no_bytes t = true -> (forall a, a ∈ anc -> reaches h a v) ->
  isProtocolValue fuel h v opt anc <> Some false.
Proof.
  intros Hnp. induction t as [|b|n|s|b|items IH|props IH] using cval_nested_ind;
    intros [|fuel] v opt anc Hu Hnb Hanc; try done; inversion Hu; subst; cbn [isProtocolValue]; try done;
    cbn [no_bytes] in Hnb; rewrite forallb_elem in Hnb; rewrite Forall_forall in IH;
    (case_bool_decide as Hin; [by destruct (cyclic_never_unfolds h l _ (Hanc l Hin) Hu)|]);
    match goal with Hl : deref h _ = _ |- _ => rewrite Hl; rename Hl into Hder end.
  - apply every_not_false. intros it Hit.
    match goal with Hi : unfolds_items _ _ _ |- _ => apply unfolds_items_in in Hi as [Hi _];
      destruct (Hi it Hit) as (v & t & -> & Ht & Hut) end.
    apply (IH t Ht); [done|by apply Hnb|]. intros a Ha.
    assert (Hchild : v ∈ children h l)
      by (unfold children; rewrite Hder; apply list_elem_of_omap; by exists (Some v)).
    apply elem_of_union in Ha as [->%elem_of_singleton|Ha]; [by apply reaches_child|].
    eapply reaches_step; [by apply Hanc|done].
  - destruct np; [by apply Hnp in Hder|]. apply every_not_false. intros kv Hkv.
    destruct (match kv.2 with VUndefined => false | _ => true end) eqn:Hdef.
    2: { destruct fuel; [done|]. by destruct (kv.2). }
    assert (Hd : kv ∈ defined_entries props0) by by apply elem_of_keep.
    match goal with Hi : unfolds_props _ _ _ |- _ => apply unfolds_props_in in Hi as [Hi _];
      destruct (Hi kv Hd) as (t & Ht & Hut) end.
    apply (IH _ Ht); [done|by apply (Hnb _ Ht)|]. intros a Ha.
    assert (Hchild : kv.2 ∈ children h l)
      by (unfold children; rewrite Hder; by apply list_elem_of_fmap_2).
    apply elem_of_union in Ha as [->%elem_of_singleton|Ha]; [by apply reaches_child|].
    eapply reaches_step; [by apply Hanc|done].
Qed.
End unfold_members.

(** ** Decoded values in their heap *)

Lemma deref_mono h h' l o : h ⊆ h' -> deref h l = o -> o <> OExotic -> deref h' l = o.
Proof.
  unfold deref. intros Hsub <- Hne. destruct (h !! l) as [o|] eqn:Hl; [|by destruct Hne].
  by rewrite (lookup_weaken _ _ _ _ Hl Hsub).
Qed.

Lemma unfolds_mono h h' v t : h ⊆ h' -> unfolds h v t -> unfolds h' v t.
Proof.
  intros Hsub H. revert v t H.
  apply (unfolds_mut h (fun v t _ => unfolds h' v t) (fun items ts _ => unfolds_items h' items ts)
    (fun props kvs _ => unfolds_props h' props kvs)); try (intros; by econstructor).
  - intros l items ts Hl _ IH. eapply unfolds_array; [by eapply deref_mono|done].
  - intros l np props kvs Hl _ IH. eapply unfolds_map; [by eapply deref_mono|done].
Qed.

(** The state between two allocations: the locations from [st.1] on are free and
    every object has the ordinary prototype. *)
Definition alloc_ok (st : nat * js_heap) : Prop :=
  (forall l, (st.1 <= l)%nat -> st.2 !! l = None) /\
  (forall l sy props, deref st.2 l <> OPlain true sy props).

Lemma alloc_ok_insert n h o :
  alloc_ok (n, h) -> (forall sy props, o <> OPlain true sy props) ->
  alloc_ok (S n, <[n := o]> h) /\ h ⊆ <[n := o]> h /\ deref (<[n := o]> h) n = o.
Proof.
  intros [Hfree Hnp] Ho. cbn [fst snd] in *. unfold alloc_ok, deref in *. split_and!.
  - intros l Hl. cbn [fst snd] in Hl |- *. rewrite lookup_insert_ne by lia. apply Hfree. lia.
  - intros l sy props. cbn [fst snd]. destruct (decide (n = l)) as [<-|Hne].
    + rewrite lookup_insert_eq. apply Ho.
    + rewrite lookup_insert_ne by done. apply Hnp.
  - apply insert_subseteq. apply Hfree. lia.
  - by rewrite lookup_insert_eq.
Qed.

Definition alloc_result (st st' : nat * js_heap) (v : jsval) (t : cval) : Prop :=
  alloc_ok st' /\ st.2 ⊆ st'.2 /\ unfolds st'.2 v t /\ v <> VUndefined.

Lemma alloc_list_spec {A} (f : A -> cval) (l : list A) st :
  (forall x, x ∈ l -> forall st, alloc_ok st ->
     alloc_result st (alloc (f x) st).1 (alloc (f x) st).2 (f x)) ->
  alloc_ok st ->
  let r := alloc_list (fun x => alloc (f x)) l st in
  alloc_ok r.1 /\ st.2 ⊆ r.1.2 /\
  Forall2 (fun v x => unfolds r.1.2 v (f x) /\ v <> VUndefined) r.2 l.
Proof.
  revert st. induction l as [|x l IH]; intros st Hx Hst; cbn [alloc_list]; [split_and!; [done|done|constructor]|].
  destruct (Hx x ltac:(by left) st Hst) as (H1 & H2 & H3 & H4).
  destruct (alloc (f x) st) as [st1 v]. simpl in *.
  destruct (IH st1) as (K1 & K2 & K3); [intros; apply Hx; [by right|done]|done|].
  destruct (alloc_list _ l st1) as [st2 vs]. simpl in *.
  split_and!; [done|by etrans|]. constructor; [|done]. split; [by eapply unfolds_mono|done].
Qed.

Lemma alloc_spec t : forall st, alloc_ok st -> alloc_result st (alloc t st).1 (alloc t st).2 t.
Proof.
  induction t as [|b|n|s|b|items IH|props IH] using cval_nested_ind; intros st Hst; cbn [alloc];
    try (split_and!; [done|done|constructor|done]); rewrite Forall_forall in IH.
  - assert (Hl : let r := alloc_list alloc items st in alloc_ok r.1 /\ st.2 ⊆ r.1.2 /\
      Forall2 (fun v x => unfolds r.1.2 v x /\ v <> VUndefined) r.2 items)
      by exact (alloc_list_spec id items st IH Hst).
    destruct (alloc_list alloc items st) as [[n h] vs]. destruct Hl as (H1 & H2 & H3).
    cbn [fst snd] in *.
    destruct (alloc_ok_insert n h (OArray (Some <$> vs)) H1 ltac:(done)) as (K1 & K2 & K3).
    split_and!; [done|by etrans| |done]. eapply unfolds_array; [exact K3|]. clear -H3 K2.
    revert K2. generalize (<[n := OArray (Some <$> vs)]> h) as h'. intros h' K2.
    induction H3 as [|v t vs ts [Hv _] _ IHs]; csimpl; [constructor|].
    constructor; [by eapply unfolds_mono|done].
  - pose proof (alloc_list_spec snd props st IH Hst) as Hl. cbv zeta in Hl.
    destruct (alloc_list _ props st) as [[n h] vs]. destruct Hl as (H1 & H2 & H3).
    cbn [fst snd] in *.
    destruct (alloc_ok_insert n h (OPlain false false (zip props.*1 vs)) H1 ltac:(done)) as (K1 & K2 & K3).
    split_and!; [done|by etrans| |done]. eapply unfolds_map; [exact K3|]. clear -H3 K2.
    revert K2. generalize (<[n := OPlain false false (zip props.*1 vs)]> h) as h'. intros h' K2.
    induction H3 as [|v [k t] vs ts [Hv Hne] _ IHs]; csimpl; [constructor|].
    unfold defined_entries. cbn [keep]. destruct v; try done; constructor; try done; by eapply unfolds_mono.
Qed.

Lemma materialize_spec t :
  unfolds (materialize t).1 (materialize t).2 t /\
  (forall l sy props, deref (materialize t).1 l <> OPlain true sy props).
Proof.
  destruct (alloc_spec t (0%nat, ∅)) as (H1 & _ & H3 & _).
  { split; [done|]. intros l sy props. unfold deref. simpl. by rewrite lookup_empty. }
  unfold materialize. destruct (alloc t (0%nat, ∅)) as [[n h] v]. simpl in *. split; [done|apply H1].
Qed.

(** A decoded value is accepted by [isProtocolValue] exactly when it holds no byte
    array. *)
Lemma isProtocolValue_materialize t :
  isProtocolValue (value_fuel (materialize t).1) (materialize t).1 (materialize t).2 false ∅
  = Some (no_bytes t).
Proof.
  destruct (materialize_spec t) as [Hu Hnp]. set (m := materialize t) in *.
  pose proof (isProtocolValue_total (value_fuel m.1) m.1 m.2 false ∅) as Htot.
  unfold value_fuel in *. rewrite size_empty in Htot. specialize (Htot ltac:(set_solver) ltac:(lia)).
  destruct (isProtocolValue _ m.1 m.2 false ∅) as [[]|] eqn:Hr; [| |done].
  - f_equal. symmetry. by eapply isProtocolValue_sound.
  - destruct (no_bytes t) eqn:Hnb; [|done].
    destruct (isProtocolValue_complete m.1 t Hnp (S (size (dom m.1))) m.2 false ∅ Hu Hnb); [|done].
    by intros a ?%elem_of_empty.
Qed.

(** ** Encoding *)

Lemma enc_number_bytes n : Forall byte_ok (enc_number n).
Proof.
  unfold enc_number.
  assert (Hf : Forall byte_ok (251 :: be8 (num_to_bits n)))
    by (constructor; [unfold byte_ok; lia|apply be8_bytes]).
  destruct (num_to_Z n) as [z|]; [|done]. destruct (num_is_neg_zero n); [done|].
  destruct (Z.leb_spec 0 z); apply head_bytes_ok; lia.
Qed.
Lemma enc_text_bytes s : well_formed s -> Forall byte_ok (enc_text s).
Proof.
  intros [Hs _]. apply Forall_app. split; [apply head_bytes_ok; [lia|apply zlen_nonneg]|by apply text_encode_bytes].
Qed.
Lemma enc_bytes o t : forall d, fits o d t -> Forall byte_ok (enc t).
Proof.
  induction t as [|b|n|s|b|items IH|props IH] using cval_nested_ind; intros d Hf; inversion Hf; subst; cbn [enc].
  - repeat constructor; lia.
  - destruct b; repeat constructor; lia.
  - apply enc_number_bytes.
  - match goal with H : text_ok _ _ |- _ => destruct H end. by apply enc_text_bytes.
  - apply Forall_app. split; [apply head_bytes_ok; [lia|apply zlen_nonneg]|done].
  - apply Forall_app. split; [apply head_bytes_ok; [lia|apply zlen_nonneg]|].
    apply Forall_concat. rewrite Forall_forall in IH. apply Forall_forall. intros x Hx.
    apply list_elem_of_In, in_map_iff in Hx as (t & <- & Ht%list_elem_of_In). eauto.
  - apply Forall_app. split; [apply head_bytes_ok; [lia|apply zlen_nonneg]|].
    apply Forall_concat. rewrite Forall_forall in IH. apply Forall_forall. intros x Hx.
    apply list_elem_of_In, in_map_iff in Hx as ([k t] & <- & Ht%list_elem_of_In).
    match goal with H : forall k t, _ -> text_ok _ _ /\ _ |- _ => destruct (H _ _ Ht) as [[Hk _] Hft] end.
    apply Forall_app. split; [by apply enc_text_bytes|by eapply (IH _ Ht)].
Qed.

Lemma byte_limit_resolves options r :
  resolveOptions (byte_limit options) = Ok r ->
  resolveMaxFrameLength options = Ok (maxByteLength r).
Proof.
  unfold resolveOptions, byte_limit, resolveMaxFrameLength, resolveLimit, frame_limit. simpl. mrun.
  set (n := default _ options). destruct (negb (num_is_safe_integer n)); [done|].
  destruct (num_to_Z n) as [z|]; [|done]. destruct (_ || _); [done|]. by intros [= <-].
Qed.
Lemma resolveMaxFrameLength_not_bound options : resolveMaxFrameLength options <> Err StepBound.
Proof. unfold resolveMaxFrameLength. by repeat case_match. Qed.

Lemma assertCompleteFrame_frame payload options :
  zlen payload <= MAX_UINT32 ->
  assertCompleteFrame (frame payload) options =
  match resolveMaxFrameLength options with
  | Ok max => if max <? zlen payload then Err (length_error (zlen payload) max) else Ok tt
  | Err e => Err e
  end.
Proof.
  intros Hl. pose proof (zlen_nonneg payload). unfold assertCompleteFrame, FRAME_HEADER_LENGTH. mrun.
  unfold frame at 1 2 3 4 5. rewrite header_value_be4 by lia. rewrite zlen_app.
  change (zlen (be4 (zlen payload))) with 4. rewrite (proj2 (Z.ltb_ge _ 4)) by lia.
  destruct (resolveMaxFrameLength options) as [max|]; [|done]. destruct (max <? zlen payload); [done|].
  by rewrite Z.eqb_refl.
Qed.

Section codec.
Context (kind : string) (Check : js_heap -> jsval -> bool).

(** A message [parse] accepts. *)
Definition accepted (m : message) : Prop :=
  isProtocolValue (value_fuel m.1) m.1 m.2 false ∅ = Some true /\ Check m.1 m.2 = true.

Lemma parse_message_Ok m m' : parse_message kind Check m = Ok m' <-> m' = m /\ accepted m.
Proof.
  unfold parse_message, accepted. destruct (isProtocolValue _ _ _ _ _) as [[]|]; simpl;
    [|split; [done|naive_solver]..].
  destruct (Check m.1 m.2); simpl; split; naive_solver.
Qed.
Lemma parse_message_Err m e : parse_message kind Check m = Err e -> exists s, e = ProtocolValidationError s.
Proof.
  unfold parse_message. pose proof (isProtocolValue_total (value_fuel m.1) m.1 m.2 false ∅) as Ht.
  unfold value_fuel in *. rewrite size_empty in Ht. specialize (Ht ltac:(set_solver) ltac:(lia)).
  destruct (isProtocolValue _ _ _ _ _); [|done]. destruct (_ || _); [|done]. intros [= <-]. by eexists.
Qed.

Lemma wrap_error_validation prefix e :
  e <> StepBound -> exists s, wrap_error prefix e = ProtocolValidationError s.
Proof. destruct e; intros He; try done; by eexists. Qed.

Lemma encode_spec m options :
  heap_wf m.1 -> prim_wf m.2 ->
  (forall f, encodeProtocolMessage m (parse_message kind Check) kind options = Ok f <->
     accepted m /\ exists r t, resolveOptions (byte_limit options) = Ok r /\ unfolds m.1 m.2 t /\
       fits r 0 t /\ zlen (enc t) <= maxByteLength r /\ f = frame (enc t)) /\
  (forall e, encodeProtocolMessage m (parse_message kind Check) kind options = Err e ->
     exists s, e = ProtocolValidationError s).
Proof.
  intros Hh Hv. unfold encodeProtocolMessage. mrun.
  destruct (parse_message kind Check m) as [m'|e] eqn:Hp.
  2: { split; [|intros e' [= <-]; by eapply parse_message_Err]. intros f. split; [done|].
       intros [Ha _]. by rewrite (proj2 (parse_message_Ok m m) (conj eq_refl Ha)) in Hp. }
  apply parse_message_Ok in Hp as [-> Ha].
  destruct (encodeCbor m.1 m.2 (byte_limit options)) as [payload|e] eqn:He.
  2: { pose proof (encodeCbor_not_bound m.1 m.2 (byte_limit options) Hh Hv) as Hnb. rewrite He in Hnb.
       split; [|intros e' [= <-]; apply wrap_error_validation; congruence]. intros f. split; [done|].
       intros (_ & r & t & Hr & Hu & Hf & Hl & _).
       by rewrite (proj2 (encodeCbor_iff _ _ _ (enc t) Hh Hv) (ex_intro _ r (ex_intro _ t
         (conj Hr (conj Hu (conj Hf (conj eq_refl Hl))))))) in He. }
  pose proof He as He'. apply encodeCbor_iff in He' as (r & t & Hr & Hu & Hf & -> & Hl); [|done|done].
  pose proof (byte_limit_resolves _ _ Hr) as Hmax. destruct (resolveOptions_ok _ _ Hr) as (Hb & _ & _).
  rewrite encodeFrame_frame; [|by eapply enc_bytes|lia]. rewrite assertCompleteFrame_frame by lia.
  change (resolveMaxFrameLength (Some (frame_limit options))) with (resolveMaxFrameLength options).
  rewrite Hmax, (proj2 (Z.ltb_ge _ _)) by lia. split; [|done]. intros f. split.
  - intros [= <-]. split; [done|]. by exists r, t.
  - intros (_ & r' & t' & _ & Hu' & _ & _ & ->). by rewrite (unfolds_det _ _ _ _ Hu Hu').
Qed.

(** ** Decoding *)

Lemma decode_frames_app options fs gs :
  decode_frames (parse_message kind Check) options (fs ++ gs) =
  match decode_frames (parse_message kind Check) options fs with
  | Ok ms => match decode_frames (parse_message kind Check) options gs with
             | Ok ns => Ok (ms ++ ns) | Err e => Err e end
  | Err e => Err e
  end.
Proof.
  induction fs as [|f fs IH]; simpl.
  { by destruct (decode_frames _ options gs). }
  mrun. destruct (decodeCbor f _); [|done]. destruct (parse_message _ _ _); [|done]. rewrite IH.
  destruct (decode_frames _ options fs); [|done]. by destruct (decode_frames _ options gs).
Qed.

Lemma push_messages_Ok chunks d frames fs ms :
  md_failed d = false -> push_all chunks (md_frames d) = (frames, Ok fs) ->
  decode_frames (parse_message kind Check) (md_options d) fs = Ok ms ->
  push_messages (parse_message kind Check) chunks d = (with_frames d frames, Ok ms).
Proof.
  revert d fs ms. induction chunks as [|c chunks IH]; intros d fs ms Hd Hp Hms; cbn [push_all push_messages] in *.
  - apply M_ret_Ok in Hp as [-> ->]. simpl in Hms. injection Hms as <-. by destruct d.
  - apply M_bind_Ok in Hp as (f1 & gs & Hg & Hp). apply M_bind_Ok in Hp as (f2 & hs & Hh & Hp).
    apply M_ret_Ok in Hp as [-> ->]. rewrite decode_frames_app in Hms.
    destruct (decode_frames _ (md_options d) gs) as [ms1|] eqn:H1; [|done].
    destruct (decode_frames _ (md_options d) hs) as [ms2|] eqn:H2; [|done]. injection Hms as <-.
    unfold push_message, latching, on_frames. mrun. rewrite Hd. simpl. rewrite Hg, H1.
    by rewrite (IH (with_frames d f1) hs ms2 Hd Hh H2).
Qed.

Lemma decode_frames_enc options r ts :
  resolveOptions (byte_limit options) = Ok r ->
  (forall t, t ∈ ts -> fits r 0 t /\ zlen (enc t) <= maxByteLength r /\ accepted (materialize t)) ->
  decode_frames (parse_message kind Check) options (enc <$> ts) = Ok (materialize <$> ts).
Proof.
  intros Hr. induction ts as [|t ts IH]; intros Hts; [done|]. rewrite !fmap_cons. cbn [decode_frames]. mrun.
  destruct (Hts t) as (Hf & Hl & Ha); [by left|]. rewrite (decodeCbor_enc _ r) by done.
  rewrite (proj2 (parse_message_Ok _ (materialize t)) (conj eq_refl Ha)).
  rewrite IH; [done|]. intros x Hx. apply Hts. by right.
Qed.
(** What a decoder may return: a decoded value within the limits that was
    validated. *)
Definition delivered (options : FrameDecoderOptions) (m : message) : Prop :=
  accepted m /\ exists r t, resolveOptions (byte_limit options) = Ok r /\ m = materialize t /\ fits r 0 t.

Lemma decode_frames_spec options fs :
  Forall (Forall byte_ok) fs ->
  match decode_frames (parse_message kind Check) options fs with
  | Ok ms => Forall (delivered options) ms
  | Err e => e <> StepBound
  end.
Proof.
  induction 1 as [|f fs Hf Hfs IH]; cbn [decode_frames]; [constructor|]. mrun.
  pose proof (decodeCbor_not_bound f (byte_limit options)) as Hnb.
  destruct (decodeCbor f (byte_limit options)) as [t|e] eqn:Hd; [|congruence].
  apply decodeCbor_Ok in Hd as (r & Hr & _ & Hread).
  apply (readItem_sound f Hf r) in Hread as (Hfit & _ & _); [|pose proof (zlen_nonneg f); lia].
  destruct (parse_message kind Check (materialize t)) as [m|e] eqn:Hp.
  2: { by destruct (parse_message_Err _ _ Hp) as [s ->]. }
  apply parse_message_Ok in Hp as [-> Ha].
  destruct (decode_frames _ options fs) as [ms|e]; [|done]. constructor; [|done].
  split; [done|]. by exists r, t.
Qed.

Lemma split_bytes max bs fs rest :
  Forall byte_ok bs -> split max bs = Ok (fs, rest) -> Forall (Forall byte_ok) fs.
Proof.
  unfold split. generalize (S (length bs)) as fuel. intros fuel. revert bs fs rest.
  induction fuel as [|fuel IH]; intros bs fs rest Hb; simpl; [by intros [= <- _]|].
  destruct (_ <? 4); [by intros [= <- _]|]. destruct (_ <? _); [done|]. destruct (_ <? _); [by intros [= <- _]|].
  destruct (split_frames fuel max _) as [[gs r]|] eqn:Hs; [|done]. intros [= <- _].
  constructor; [by apply Forall_take, Forall_drop|]. eapply IH; [|exact Hs]. by apply Forall_drop.
Qed.

(** The decoder is between two chunks. *)
Definition md_ok (options : FrameDecoderOptions) (d : ValidatedMessageDecoder) : Prop :=
  fd_ok (md_frames d) /\ md_failed d = false /\ md_options d = options.

(** The decoder has failed for good. *)
Definition md_latched (d : ValidatedMessageDecoder) : Prop :=
  md_failed d = true /\
  (forall chunk, push_message (parse_message kind Check) chunk d = (d, Err (failed_error d))) /\
  end_messages d = (d, Err (failed_error d)).
Lemma with_failed_latched d : md_latched (with_failed d).
Proof. by repeat split. Qed.

Definition md_outcome (options : FrameDecoderOptions)
    (r : ValidatedMessageDecoder * result js_error (list message)) : Prop :=
  match r with
  | (d', Ok ms) => md_ok options d' /\ Forall (delivered options) ms
  | (d', Err e) => (exists s, e = ProtocolValidationError s) /\ md_latched d'
  end.

Lemma push_message_spec options chunk d :
  md_ok options d -> Forall byte_ok chunk ->
  md_outcome options (push_message (parse_message kind Check) chunk d).
Proof.
  intros (Hok & Hd & Hopt) Hc. unfold push_message, latching, on_frames. mrun. rewrite Hd, Hopt. simpl.
  assert (Hb : Forall byte_ok (pending (md_frames d) ++ chunk))
    by (apply Forall_app; split; [by apply pending_bytes|done]).
  pose proof (push_spec chunk (md_frames d) Hok Hc) as Hp.
  pose proof (split_result (fd_maxFrameLength (md_frames d)) _ Hb) as Hs.
  destruct (split _ _) as [[fs rest]|e] eqn:Hsp; simpl in Hp.
  - destruct Hp as (f' & -> & Hok' & _ & _).
    pose proof (decode_frames_spec options fs (split_bytes _ _ _ _ Hb Hsp)) as Hdec.
    destruct (decode_frames _ options fs) as [ms|e]; simpl; [done|].
    split; [by apply wrap_error_validation|apply with_failed_latched].
  - destruct Hp as (f' & -> & _). simpl. split; [by apply wrap_error_validation|apply with_failed_latched].
Qed.

Lemma push_messages_spec options chunks d :
  md_ok options d -> Forall (Forall byte_ok) chunks ->
  md_outcome options (push_messages (parse_message kind Check) chunks d).
Proof.
  intros Hd Hcs. revert d Hd. induction Hcs as [|c chunks Hc Hcs IH]; intros d Hd; cbn [push_messages].
  { by split; [|constructor]. }
  mrun. pose proof (push_message_spec options c d Hd Hc) as Hp.
  destruct (push_message _ c d) as [d1 [ms|e]]; [|done]. destruct Hp as [Hd1 Hms].
  specialize (IH d1 Hd1). destruct (push_messages _ chunks d1) as [d2 [ns|e]]; [|done].
  destruct IH as [Hd2 Hns]. split; [done|]. by apply Forall_app.
Qed.

Lemma new_MessageDecoder_ok options d :
  new_MessageDecoder kind options = Ok d -> md_ok options d /\ new_FrameDecoder options = Ok (md_frames d).
Proof.
  unfold new_MessageDecoder. mrun. destruct (new_FrameDecoder options) as [f|] eqn:Hf; [|done].
  intros [= <-]. destruct (new_decoder_ok _ _ Hf) as (Hok & _ & _). by split.
Qed.

(** Encoding a message: [encodeClientMessage] and [encodeServerMessage] return
    a frame exactly when the message validates and denotes a finite value within
    the limits, and the frame is then that of its wire form; in every other case
    they throw a [ProtocolValidationError]. *)
Theorem encode_message_spec m options :
  heap_wf m.1 -> prim_wf m.2 ->
  (forall f, encodeProtocolMessage m (parse_message kind Check) kind options = Ok f <->
     accepted m /\ exists r t, resolveOptions (byte_limit options) = Ok r /\ unfolds m.1 m.2 t /\
       fits r 0 t /\ zlen (enc t) <= maxByteLength r /\ f = frame (enc t)) /\
  (forall e, encodeProtocolMessage m (parse_message kind Check) kind options = Err e ->
     exists s, e = ProtocolValidationError s).
Proof. apply encode_spec. Qed.

(** C10. End to end: messages encoded with [encodeClientMessage] (or
    [encodeServerMessage]) and cut into chunks anywhere are delivered by the
    matching decoder in order, each a fresh copy denoting the same finite value,
    and the stream ends cleanly.  The schema check is the typebox package's; it is
    only required to accept a copy of what it accepts. *)
Theorem message_stream_roundtrip options d (sent : list (message * bytes)) chunks :
  (forall h v t, unfolds h v t -> no_bytes t = true -> Check h v = true ->
     Check (materialize t).1 (materialize t).2 = true) ->
  new_MessageDecoder kind options = Ok d ->
  Forall (fun mf => heap_wf mf.1.1 /\ prim_wf mf.1.2 /\
    encodeProtocolMessage mf.1 (parse_message kind Check) kind options = Ok mf.2) sent ->
  Forall (Forall byte_ok) chunks -> concat chunks = concat sent.*2 ->
  exists ts d', push_messages (parse_message kind Check) chunks d = (d', Ok (materialize <$> ts)) /\
    Forall2 (fun mf t => unfolds mf.1.1 mf.1.2 t) sent ts /\
    exists d'', end_messages d' = (d'', Ok tt).
Proof.
  intros Hcopy Hnew Hsent Hcb Hcat.
  destruct (new_MessageDecoder_ok _ _ Hnew) as [(Hok & Hfail & Hopt) Hnewf].
  destruct (new_decoder_ok _ _ Hnewf) as (_ & Hpend & Hmax).
  assert (Hts : exists ts, sent.*2 = frame <$> (enc <$> ts) /\
    Forall2 (fun mf t => unfolds mf.1.1 mf.1.2 t) sent ts /\
    forall t, t ∈ ts -> exists r, resolveOptions (byte_limit options) = Ok r /\
      fits r 0 t /\ zlen (enc t) <= maxByteLength r /\ accepted (materialize t)).
  { clear Hcat. induction Hsent as [|[m f] sent (Hh & Hv & He) Hsent IH].
    { exists []. split_and!; [done|constructor|by intros t ?%not_elem_of_nil]. }
    simpl in Hh, Hv, He. destruct IH as (ts & Hfr & H2 & H3).
    apply encode_spec in He as ([Hpv Hck] & r & t & Hr & Hu & Hf & Hl & ->); [|done|done].
    exists (t :: ts). split_and!; [by rewrite !fmap_cons, Hfr|by constructor|]. intros x [->|Hx]%elem_of_cons; [|by apply H3].
    exists r. pose proof (isProtocolValue_sound _ _ _ _ _ _ Hu Hpv) as Hnb.
    split_and!; [done|done|done|]. split; [by rewrite isProtocolValue_materialize, Hnb|by eapply Hcopy]. }
  destruct Hts as (ts & Hframes & Hun & Hts).
  pose proof (push_all_spec chunks (md_frames d) Hok Hcb) as Hp. rewrite Hpend, Hcat, Hframes in Hp.
  rewrite Hframes in Hcat. cbn [app] in Hp. pose proof (ok_max _ Hok).
  assert (Hr : forall t, t ∈ ts -> exists r, resolveOptions (byte_limit options) = Ok r /\
    maxByteLength r = fd_maxFrameLength (md_frames d)).
  { intros t (r & Hr & _)%Hts. exists r. split; [done|]. apply byte_limit_resolves in Hr. congruence. }
  rewrite split_all in Hp; [..|lia].
  2: { apply Forall_forall. intros p (t & -> & Ht)%list_elem_of_fmap. destruct (Hts t Ht) as (r & _ & Hf & _).
       by eapply enc_bytes. }
  2: { apply Forall_forall. intros p (t & -> & Ht)%list_elem_of_fmap.
       destruct (Hts t Ht) as (r & Hr1 & _ & Hl & _). destruct (Hr t Ht) as (r' & Hr2 & <-). congruence. }
  simpl in Hp. destruct Hp as (f' & Hpush & Hok' & _ & Hpend').
  exists ts, (with_frames d f'). split_and!; [|done|].
  - apply (push_messages_Ok chunks d f' (enc <$> ts)); [done|done|]. rewrite Hopt.
    destruct ts as [|t0 ts0]; [done|]. destruct (Hr t0 ltac:(by left)) as (r & Hr0 & _).
    apply (decode_frames_enc options r); [done|]. intros t Ht. destruct (Hts t Ht) as (r' & Hr' & H').
    congruence.
  - unfold end_messages, latching, on_frames, end_, check_open. mrun. simpl. rewrite Hfail. simpl. rewrite (ok_state f' Hok').
    destruct (fd_expectedPayloadLength f') as [n|] eqn:He.
    { unfold pending in Hpend'. by rewrite He in Hpend'. }
    pose proof (zlen_pending_header f' Hok' He) as Hz. rewrite Hpend', zlen_nil in Hz. rewrite <-Hz.
    simpl. by eexists.
Qed.

(** C13. Nothing unvalidated gets through: on arbitrary bytes, every message a
    decoder delivers passed [isProtocolValue] and the schema and is a decoded value
    within the limits; every failure is a [ProtocolValidationError] and latches the
    decoder, so that all later calls throw and deliver nothing. *)
Theorem decoder_delivers_validated options d chunks :
  new_MessageDecoder kind options = Ok d -> Forall (Forall byte_ok) chunks ->
  match push_messages (parse_message kind Check) chunks d with
  | (d', Ok ms) => Forall (delivered options) ms
  | (d', Err e) => (exists s, e = ProtocolValidationError s) /\ md_latched d'
  end.
Proof.
  intros Hnew Hcb. destruct (new_MessageDecoder_ok _ _ Hnew) as [Hok _].
  pose proof (push_messages_spec options chunks d Hok Hcb) as H.
  destruct (push_messages _ chunks d) as [d' [ms|e]]; [by destruct H|done].
Qed.
End codec.

Definition any_schema (h : js_heap) (v : jsval) : bool := true.
Definition sample_message_decoder : ValidatedMessageDecoder :=
  {| md_failed := false; md_frames := sample_decoder; md_kind := "client"; md_options := None |}.
Definition sample_frame : bytes := [0; 0; 0; 11; 131; 1; 98; 104; 105; 161; 97; 97; 57; 1; 243].

Lemma encode_message_spec_witness :
  (forall f, encodeProtocolMessage (sample_heap, VObject 1%nat) (parse_message "client" any_schema) "client" None = Ok f <->
     accepted any_schema (sample_heap, VObject 1%nat) /\
     exists r t, resolveOptions (byte_limit None) = Ok r /\ unfolds sample_heap (VObject 1%nat) t /\
       fits r 0 t /\ zlen (enc t) <= maxByteLength r /\ f = frame (enc t)) /\
  (forall e, encodeProtocolMessage (sample_heap, VObject 1%nat) (parse_message "client" any_schema) "client" None = Err e ->
     exists s, e = ProtocolValidationError s).
Proof.
  apply (encode_message_spec "client" any_schema (sample_heap, VObject 1%nat) None);
    [exact sample_heap_wf|exact I].
Defined.

Lemma message_stream_roundtrip_witness :
  exists ts d', push_messages (parse_message "client" any_schema)
      [take 6 sample_frame; drop 6 sample_frame] sample_message_decoder = (d', Ok (materialize <$> ts)) /\
    Forall2 (fun mf t => unfolds mf.1.1 mf.1.2 t) [((sample_heap, VObject 1%nat), sample_frame)] ts /\
    exists d'', end_messages d' = (d'', Ok tt).
Proof.
  apply (message_stream_roundtrip "client" any_schema None).
  - done.
  - by vm_compute.
  - constructor; [|constructor]. split; [exact sample_heap_wf|]. split; [exact I|]. by vm_compute.
  - sample_bytes.
  - reflexivity.
Defined.

Lemma decoder_delivers_validated_witness :
  match push_messages (parse_message "client" any_schema) [[0; 0; 0; 1]; [255]] sample_message_decoder with
  | (d', Ok ms) => Forall (delivered any_schema None) ms
  | (d', Err e) => (exists s, e = ProtocolValidationError s) /\ md_latched "client" any_schema d'
  end.
Proof.
  apply (decoder_delivers_validated "client" any_schema None); [by vm_compute|sample_bytes].
Defined.
