(* ===== verification/ResourceScheduler.v ===== *)
(** * Execution slots and resource keys (packages/agent/src/resource-scheduler.ts)

    The scheduler's heap: the leases handed out whose [released] flag is still
    false, the promises [acquire] returned, and the abort listeners, in the order
    they were registered.  A waiter is identified by its promise.  An abort signal
    is a number; [rs_aborted] holds the signals that have fired. *)
From S2P Require Import Prelude JsNumber.

Inductive ResourceAccessMode := Shared | Exclusive.
#[export] Instance ResourceAccessMode_eq_dec : EqDecision ResourceAccessMode.
Proof. solve_decision. Defined.

Record ResourceRequest := { rq_key : option string; rq_mode : option ResourceAccessMode }.

(** [if (request.key)]: the empty string counts as no key. *)
Definition request_key (r : ResourceRequest) : option string :=
  k ← rq_key r; if decide (k = "") then None else Some k.
(** [request.mode ?? "exclusive"] *)
Definition request_mode (r : ResourceRequest) : ResourceAccessMode := default Exclusive (rq_mode r).

Record Waiter := { w_promise : nat; w_request : ResourceRequest; w_signal : option nat }.

(** What a promise was resolved with: a lease, or [undefined]. *)
Inductive PromiseState := Pending | Resolved (lease : option nat).
#[export] Instance PromiseState_eq_dec : EqDecision PromiseState.
Proof. solve_decision. Defined.

Record ResourceScheduler := {
  rs_maxConcurrency : Z;
  rs_activeCount : Z;
  rs_activeKeys : jsmap string (list ResourceAccessMode);
  rs_waiters : list Waiter;
  rs_unreleased : list (nat * ResourceRequest);
  rs_nextLease : nat;
  rs_promises : list PromiseState;
  rs_listeners : list (nat * nat);
  rs_aborted : gset nat }.

Definition new_ResourceScheduler (maxConcurrency : number) : result string ResourceScheduler :=
  match num_to_Z maxConcurrency with
  | Some n =>
      if n <? 1 then Err "ResourceScheduler maxConcurrency must be a positive integer" else
      Ok {| rs_maxConcurrency := n; rs_activeCount := 0; rs_activeKeys := []; rs_waiters := [];
            rs_unreleased := []; rs_nextLease := 0; rs_promises := []; rs_listeners := [];
            rs_aborted := ∅ |}
  | None => Err "ResourceScheduler maxConcurrency must be a positive integer"
  end.

Definition pendingCount (s : ResourceScheduler) : Z := zlen (rs_waiters s).
Definition runningCount (s : ResourceScheduler) : Z := rs_activeCount s.

Definition is_shared (m : ResourceAccessMode) : bool := bool_decide (m = Shared).

Definition canStart (s : ResourceScheduler) (request : ResourceRequest) : bool :=
  if rs_maxConcurrency s <=? rs_activeCount s then false else
  match request_key request with
  | None => true
  | Some key =>
      let activeModes := default [] (jm_get key (rs_activeKeys s)) in
      if bool_decide (activeModes = []) then true
      else is_shared (request_mode request) && forallb is_shared activeModes
  end.

Definition set_active (count : Z) (keys : jsmap string (list ResourceAccessMode))
    (unreleased : list (nat * ResourceRequest)) (next : nat) (s : ResourceScheduler) : ResourceScheduler :=
  {| rs_maxConcurrency := rs_maxConcurrency s; rs_activeCount := count; rs_activeKeys := keys;
     rs_waiters := rs_waiters s; rs_unreleased := unreleased; rs_nextLease := next;
     rs_promises := rs_promises s; rs_listeners := rs_listeners s; rs_aborted := rs_aborted s |}.
Definition set_waiters (waiters : list Waiter) (listeners : list (nat * nat)) (s : ResourceScheduler)
  : ResourceScheduler :=
  {| rs_maxConcurrency := rs_maxConcurrency s; rs_activeCount := rs_activeCount s;
     rs_activeKeys := rs_activeKeys s; rs_waiters := waiters; rs_unreleased := rs_unreleased s;
     rs_nextLease := rs_nextLease s; rs_promises := rs_promises s; rs_listeners := listeners;
     rs_aborted := rs_aborted s |}.
Definition set_promises (promises : list PromiseState) (s : ResourceScheduler) : ResourceScheduler :=
  {| rs_maxConcurrency := rs_maxConcurrency s; rs_activeCount := rs_activeCount s;
     rs_activeKeys := rs_activeKeys s; rs_waiters := rs_waiters s; rs_unreleased := rs_unreleased s;
     rs_nextLease := rs_nextLease s; rs_promises := promises; rs_listeners := rs_listeners s;
     rs_aborted := rs_aborted s |}.
Definition set_aborted (signal : nat) (listeners : list (nat * nat)) (s : ResourceScheduler)
  : ResourceScheduler :=
  {| rs_maxConcurrency := rs_maxConcurrency s; rs_activeCount := rs_activeCount s;
     rs_activeKeys := rs_activeKeys s; rs_waiters := rs_waiters s; rs_unreleased := rs_unreleased s;
     rs_nextLease := rs_nextLease s; rs_promises := rs_promises s; rs_listeners := listeners;
     rs_aborted := {[signal]} ∪ rs_aborted s |}.

(** [resolve]: a promise that is already resolved stays as it is. *)
Definition resolve (promise : nat) (lease : option nat) (s : ResourceScheduler) : ResourceScheduler :=
  match rs_promises s !! promise with
  | Some Pending => set_promises (<[promise := Resolved lease]> (rs_promises s)) s
  | _ => s
  end.

Definition start (request : ResourceRequest) (s : ResourceScheduler) : ResourceScheduler * nat :=
  let keys := match request_key request with
              | Some key => jm_set key (default [] (jm_get key (rs_activeKeys s)) ++ [request_mode request])
                              (rs_activeKeys s)
              | None => rs_activeKeys s
              end in
  let lease := rs_nextLease s in
  (set_active (rs_activeCount s + 1) keys (rs_unreleased s ++ [(lease, request)]) (S lease) s, lease).

Definition signal_aborted (s : ResourceScheduler) (signal : option nat) : bool :=
  match signal with Some sg => bool_decide (sg ∈ rs_aborted s) | None => false end.

(** [this.waiters.splice(index, 1)] *)
Definition splice (index : nat) (l : list Waiter) : list Waiter := take index l ++ drop (S index) l.

(** [removeEventListener] for the listener of a waiter. *)
Definition unlisten (promise : nat) (l : list (nat * nat)) : list (nat * nat) :=
  keep (fun sp => negb (sp.2 =? promise)%nat) l.

(** The loop of [schedule]: a round drops a waiter or advances the index, so one
    round more than there are waiters is enough. *)
Fixpoint schedule_from (fuel index : nat) (s : ResourceScheduler) : ResourceScheduler :=
  match fuel with
  | O => s
  | S fuel' =>
      match rs_waiters s !! index with
      | None => s
      | Some waiter =>
          if signal_aborted s (w_signal waiter) then
            let s := set_waiters (splice index (rs_waiters s)) (rs_listeners s) s in
            schedule_from fuel' index (resolve (w_promise waiter) None s)
          else if negb (canStart s (w_request waiter)) then schedule_from fuel' (S index) s
          else
            let listeners := match w_signal waiter with
                             | Some _ => unlisten (w_promise waiter) (rs_listeners s)
                             | None => rs_listeners s
                             end in
            let s := set_waiters (splice index (rs_waiters s)) listeners s in
            let '(s, lease) := start (w_request waiter) s in
            schedule_from fuel' index (resolve (w_promise waiter) (Some lease) s)
      end
  end.
Definition schedule (s : ResourceScheduler) : ResourceScheduler :=
  schedule_from (S (length (rs_waiters s))) 0 s.

(** [acquire] returns the promise it creates. *)
Definition acquire (request : ResourceRequest) (signal : option nat) (s : ResourceScheduler)
  : ResourceScheduler * nat :=
  let promise := length (rs_promises s) in
  if signal_aborted s signal then (set_promises (rs_promises s ++ [Resolved None]) s, promise)
  else if canStart s request then
    let '(s, lease) := start request s in
    (set_promises (rs_promises s ++ [Resolved (Some lease)]) s, promise)
  else
    let waiter := {| w_promise := promise; w_request := request; w_signal := signal |} in
    let listeners := match signal with
                     | Some sg => rs_listeners s ++ [(sg, promise)]
                     | None => rs_listeners s
                     end in
    (set_promises (rs_promises s ++ [Pending]) (set_waiters (rs_waiters s ++ [waiter]) listeners s), promise).

(** The [release] closure of a lease: [rs_unreleased] lists the leases whose flag
    is false. *)
Definition release (lease : nat) (s : ResourceScheduler) : ResourceScheduler :=
  match list_find (fun lr => lr.1 = lease) (rs_unreleased s) with
  | None => s
  | Some (i, (_, request)) =>
      let keys := match request_key request with
                  | Some key =>
                      let modes := removelast (default [] (jm_get key (rs_activeKeys s))) in
                      if bool_decide (modes = []) then jm_delete key (rs_activeKeys s)
                      else jm_set key modes (rs_activeKeys s)
                  | None => rs_activeKeys s
                  end in
      schedule (set_active (rs_activeCount s - 1) keys (delete i (rs_unreleased s)) (rs_nextLease s) s)
  end.

(** A listener: [onAbort] of the waiter. *)
Definition onAbort (promise : nat) (s : ResourceScheduler) : ResourceScheduler :=
  let s := match list_find (fun w => w_promise w = promise) (rs_waiters s) with
           | Some (index, _) => set_waiters (splice index (rs_waiters s)) (rs_listeners s) s
           | None => s
           end in
  resolve promise None s.

(** [controller.abort()]: the first call fires the listeners in order. *)
Definition abort (signal : nat) (s : ResourceScheduler) : ResourceScheduler :=
  if bool_decide (signal ∈ rs_aborted s) then s else
  let firing := keep (fun sp => (sp.1 =? signal)%nat) (rs_listeners s) in
  let s := set_aborted signal (keep (fun sp => negb (sp.1 =? signal)%nat) (rs_listeners s)) s in
  foldl (fun s sp => onAbort sp.2 s) s firing.

(** ** What clients can do *)

Inductive scheduler_step : ResourceScheduler -> ResourceScheduler -> Prop :=
| step_acquire s request signal : scheduler_step s (acquire request signal s).1
| step_release s lease : scheduler_step s (release lease s)
| step_abort s signal : scheduler_step s (abort signal s).

Inductive reachable : ResourceScheduler -> Prop :=
| reachable_new n s : new_ResourceScheduler n = Ok s -> reachable s
| reachable_step s s' : reachable s -> scheduler_step s s' -> reachable s'.
