(* ===== verification/SchedulerTheorems.v ===== *)
(** * Safety and liveness of the resource scheduler

    [core] relates the counters and the key table to the leases that are out,
    [queue] relates waiters, promises and abort listeners.  Both hold in every
    reachable state, and there no waiter could be started. *)
From S2P Require Import Prelude JsNumber ResourceScheduler.

(** The modes of the leases out on a key. *)
Definition modes_of (k : string) (l : list (nat * ResourceRequest)) : list ResourceAccessMode :=
  omap (fun lr => if decide (request_key lr.2 = Some k) then Some (request_mode lr.2) else None) l.

Definition compatible (ms : list ResourceAccessMode) : Prop :=
  ms = [Exclusive] \/ Forall (fun m => m = Shared) ms.

Record core (s : ResourceScheduler) : Prop := {
  co_count : rs_activeCount s = zlen (rs_unreleased s);
  co_max : rs_activeCount s <= rs_maxConcurrency s;
  co_ids : NoDup (rs_unreleased s).*1 /\ Forall (fun i => (i < rs_nextLease s)%nat) (rs_unreleased s).*1;
  co_nodup : NoDup (jm_keys (rs_activeKeys s));
  co_keys : forall k, default [] (jm_get k (rs_activeKeys s)) ≡ₚ modes_of k (rs_unreleased s);
  co_compat : forall k, compatible (modes_of k (rs_unreleased s)) }.

Definition lease_of (p : PromiseState) : option nat :=
  match p with Resolved (Some l) => Some l | _ => None end.

Record queue (s : ResourceScheduler) : Prop := {
  qu_nodup : NoDup (w_promise <$> rs_waiters s);
  qu_pending : forall p, rs_promises s !! p = Some Pending <-> p ∈ w_promise <$> rs_waiters s;
  qu_listeners : forall sg p, (sg, p) ∈ rs_listeners s <->
    (sg ∉ rs_aborted s) /\ (exists w, w ∈ rs_waiters s /\ w_promise w = p /\ w_signal w = Some sg);
  qu_leases : omap lease_of (rs_promises s) ≡ₚ seq 0 (rs_nextLease s) }.

Definition live (s : ResourceScheduler) : Prop :=
  forall w, w ∈ rs_waiters s -> signal_aborted s (w_signal w) = false.
Definition no_lost_wakeup (s : ResourceScheduler) : Prop :=
  forall w, w ∈ rs_waiters s -> canStart s (w_request w) = false.

(** ** Modes *)

Lemma modes_of_app k l1 l2 : modes_of k (l1 ++ l2) = modes_of k l1 ++ modes_of k l2.
Proof. apply omap_app. Qed.
Lemma modes_of_single k id r :
  modes_of k [(id, r)] = if decide (request_key r = Some k) then [request_mode r] else [].
Proof. unfold modes_of. simpl. by case_decide. Qed.

(** The order in which leases were created does not matter. *)
#[export] Instance modes_of_proper k : Proper ((≡ₚ) ==> (≡ₚ)) (modes_of k).
Proof. intros l1 l2 Hp. unfold modes_of. by rewrite Hp. Qed.

Lemma forallb_shared ms : forallb is_shared ms = true <-> Forall (fun m => m = Shared) ms.
Proof.
  unfold is_shared. induction ms as [|m ms IH]; simpl; [split; [constructor|done]|].
  rewrite andb_true_iff, bool_decide_eq_true, IH, Forall_cons. done.
Qed.
Lemma compatible_perm ms ms' : ms ≡ₚ ms' -> compatible ms -> compatible ms'.
Proof.
  intros Hp [->|H]; [left; by apply Permutation_singleton_l in Hp|right; by rewrite <-Hp].
Qed.

(** What [canStart] decides, in terms of the leases out. *)
Lemma canStart_spec s r :
  core s ->
  canStart s r = true <->
  rs_activeCount s < rs_maxConcurrency s /\
  forall k, request_key r = Some k -> modes_of k (rs_unreleased s) = [] \/
    (request_mode r = Shared /\ Forall (fun m => m = Shared) (modes_of k (rs_unreleased s))).
Proof.
  intros Hc. unfold canStart. destruct (Z.leb_spec (rs_maxConcurrency s) (rs_activeCount s)); [split; [done|lia]|].
  destruct (request_key r) as [k|]; [|split; [by intros _|done]].
  pose proof (co_keys s Hc k) as Hk. case_bool_decide as He.
  - rewrite He in Hk. apply Permutation_nil_l in Hk. split; [|done]. intros _. split; [done|].
    intros k' [= <-]. by left.
  - rewrite andb_true_iff, forallb_shared. unfold is_shared. rewrite bool_decide_eq_true, Hk. split.
    + intros [H1 H2]. split; [done|]. intros k' [= <-]. by right.
    + intros [_ Hm]. destruct (Hm k eq_refl) as [Hn|]; [|done]. rewrite Hn in Hk.
      by apply Permutation_nil_r in Hk.
Qed.

(** ** Starting and ending a lease *)

Lemma start_core s r : core s -> canStart s r = true -> core (start r s).1.
Proof.
  intros Hc Hs. apply canStart_spec in Hs as [Hlt Hkey]; [|done].
  destruct Hc as [H1 H2 [H3 H3'] H4 H5 H6]. constructor; simpl.
  - rewrite zlen_app, H1. done.
  - lia.
  - rewrite fmap_app. simpl. split.
    + apply NoDup_app. split_and!; [done| |apply NoDup_singleton].
      intros i Hi ->%list_elem_of_singleton. rewrite Forall_forall in H3'. specialize (H3' _ Hi). lia.
    + apply Forall_app. split; [|constructor; [lia|constructor]].
      eapply Forall_impl; [exact H3'|]. simpl. intros; lia.
  - destruct (request_key r); [by apply jm_keys_set_NoDup|done].
  - intros k. rewrite modes_of_app, modes_of_single. destruct (request_key r) as [key|].
    + rewrite jm_get_set. destruct (decide (k = key)) as [->|Hne].
      * rewrite decide_True by done. simpl. by rewrite H5.
      * rewrite decide_False by congruence. by rewrite app_nil_r, H5.
    + by rewrite app_nil_r, H5.
  - intros k. rewrite modes_of_app, modes_of_single. destruct (decide (request_key r = Some k)) as [Hk|].
    + destruct (Hkey k Hk) as [->|[-> Hall]].
      * destruct (request_mode r); [right; by repeat constructor|by left].
      * right. apply Forall_app. split; [done|by repeat constructor].
    + by rewrite app_nil_r.
Qed.

(** Starting a lease enables nothing. *)
Lemma start_antitone s r r' :
  core s -> canStart s r = true -> canStart s r' = false -> canStart (start r s).1 r' = false.
Proof.
  intros Hc Hs Hno. apply not_true_is_false. intros Hyes.
  apply canStart_spec in Hyes as [Hlt Hkey]; [|by apply start_core].
  assert (canStart s r' = true); [|congruence]. apply canStart_spec; [done|]. simpl in *.
  split; [lia|]. intros k Hk. specialize (Hkey k Hk). rewrite modes_of_app in Hkey.
  destruct Hkey as [Hn|[Hm Hall]]; [left; by apply app_eq_nil in Hn as [? _]|].
  right. split; [done|]. by apply Forall_app in Hall as [? _].
Qed.

Lemma removelast_perm (ms : list ResourceAccessMode) m rest :
  compatible ms -> ms ≡ₚ m :: rest -> removelast ms ≡ₚ rest.
Proof.
  intros Hc Hp. destruct Hc as [->|Hall].
  - apply Permutation_singleton_l in Hp. simplify_eq. reflexivity.
  - assert (Hne : ms <> []) by (intros ->; by apply Permutation_nil_l in Hp).
    pose proof (app_removelast_last Shared Hne) as Heq.
    assert (Hlast : List.last ms Shared = Shared).
    { rewrite Forall_forall in Hall. apply Hall. rewrite Heq at 2. apply elem_of_app. right. by left. }
    assert (m = Shared) as ->.
    { rewrite Hp in Hall. by apply Forall_cons in Hall as [? _]. }
    rewrite Hlast in Heq. revert Hp. rewrite Heq at 1. rewrite Permutation_app_comm. simpl. intros Hp.
    by apply Permutation_cons_inv in Hp.
Qed.

Lemma compatible_cons m ms : compatible (m :: ms) -> compatible ms.
Proof.
  intros [[= -> ->]|Hall]; [right; constructor|]. right. by apply Forall_cons in Hall as [_ ?].
Qed.

Lemma release_core s i lease request :
  core s -> rs_unreleased s !! i = Some (lease, request) ->
  let keys := match request_key request with
              | Some key =>
                  let modes := removelast (default [] (jm_get key (rs_activeKeys s))) in
                  if bool_decide (modes = []) then jm_delete key (rs_activeKeys s)
                  else jm_set key modes (rs_activeKeys s)
              | None => rs_activeKeys s
              end in
  core (set_active (rs_activeCount s - 1) keys (delete i (rs_unreleased s)) (rs_nextLease s) s).
Proof.
  intros [H1 H2 [H3 H3'] H4 H5 H6] Hi keys.
  pose proof (delete_Permutation _ _ _ Hi) as Hperm.
  assert (Hmodes : forall k, modes_of k (rs_unreleased s)
    ≡ₚ modes_of k [(lease, request)] ++ modes_of k (delete i (rs_unreleased s))).
  { intros k. rewrite <-modes_of_app. simpl. unfold modes_of. by rewrite Hperm at 1. }
  assert (Hids : (rs_unreleased s).*1 ≡ₚ lease :: (delete i (rs_unreleased s)).*1)
    by (rewrite Hperm at 1; done).
  constructor; simpl.
  - apply Permutation_length in Hperm. unfold zlen in *. simpl in Hperm. lia.
  - lia.
  - rewrite Hids in H3, H3'. apply NoDup_cons in H3 as [_ H3]. by apply Forall_cons in H3' as [_ ?].
  - unfold keys. destruct (request_key request); [|done].
    case_bool_decide; [by apply jm_keys_delete_NoDup|by apply jm_keys_set_NoDup].
  - intros k. specialize (H5 k). specialize (H6 k). specialize (Hmodes k). rewrite modes_of_single in Hmodes.
    unfold keys. destruct (request_key request) as [key|].
    2: { rewrite decide_False in Hmodes by done. by rewrite H5, Hmodes. }
    destruct (decide (k = key)) as [->|Hne].
    + rewrite decide_True in Hmodes by done. rewrite <-H5 in Hmodes.
      assert (Hpop : removelast (default [] (jm_get key (rs_activeKeys s))) ≡ₚ modes_of key (delete i (rs_unreleased s))).
      { eapply removelast_perm; [|exact Hmodes]. eapply compatible_perm; [symmetry; exact H5|done]. }
      case_bool_decide as He.
      * rewrite jm_get_delete_eq by done. by rewrite <-Hpop, He.
      * rewrite jm_get_set_eq. simpl. exact Hpop.
    + rewrite decide_False in Hmodes by congruence.
      case_bool_decide; [rewrite jm_get_delete_ne by done|rewrite jm_get_set_ne by done]; by rewrite H5, Hmodes.
  - intros k. specialize (H6 k). eapply compatible_perm in H6; [|apply Hmodes].
    rewrite modes_of_single in H6. case_decide; [by apply compatible_cons in H6|done].
Qed.

(** ** Promises *)

Lemma resolve_promises p v s q :
  rs_promises (resolve p v s) !! q =
  if decide (p = q /\ rs_promises s !! q = Some Pending) then Some (Resolved v) else rs_promises s !! q.
Proof.
  unfold resolve. destruct (rs_promises s !! p) as [[|l]|] eqn:Hp; simpl.
  - destruct (decide (p = q)) as [<-|Hne].
    + rewrite decide_True by done. apply list_lookup_insert_eq. by eapply lookup_lt_Some.
    + rewrite decide_False by tauto. by apply list_lookup_insert_ne.
  - rewrite decide_False; [done|]. intros [<- H]. congruence.
  - rewrite decide_False; [done|]. intros [<- H]. congruence.
Qed.
Lemma resolve_frame p v s :
  rs_maxConcurrency (resolve p v s) = rs_maxConcurrency s /\ rs_activeCount (resolve p v s) = rs_activeCount s /\
  rs_activeKeys (resolve p v s) = rs_activeKeys s /\ rs_waiters (resolve p v s) = rs_waiters s /\
  rs_unreleased (resolve p v s) = rs_unreleased s /\ rs_nextLease (resolve p v s) = rs_nextLease s /\
  rs_listeners (resolve p v s) = rs_listeners s /\ rs_aborted (resolve p v s) = rs_aborted s.
Proof. unfold resolve. by repeat case_match. Qed.
Lemma resolve_core p v s : core s -> core (resolve p v s).
Proof. unfold resolve. intros [H1 H2 H3 H4 H5 H6]. by repeat case_match; constructor. Qed.
Lemma resolve_canStart p v s r : canStart (resolve p v s) r = canStart s r.
Proof. unfold resolve. by repeat case_match. Qed.

(** The leases among the promises when a pending one is resolved. *)
Lemma omap_resolve (l : list PromiseState) p v :
  l !! p = Some Pending ->
  omap lease_of (<[p := Resolved v]> l) ≡ₚ option_list v ++ omap lease_of l.
Proof.
  intros Hp. rewrite <-(take_drop_middle _ _ _ Hp) at 2. rewrite insert_take_drop by by eapply lookup_lt_Some.
  rewrite !omap_app. simpl. destruct v as [l'|]; simpl; [|done]. by rewrite Permutation_middle.
Qed.

Lemma splice_middle pre w post : splice (length pre) (pre ++ w :: post) = pre ++ post.
Proof.
  unfold splice. rewrite take_app_length. f_equal. rewrite drop_app_ge by lia.
  by replace (S (length pre) - length pre)%nat with 1%nat by lia.
Qed.

(** A waiter leaves the queue and its promise is resolved with [v]; the leases
    created meanwhile are [v]'s, and no listener of a signal that has not fired is
    left for it. *)
Lemma queue_dequeue s s' pre w post v :
  queue s -> rs_waiters s = pre ++ w :: post -> rs_waiters s' = pre ++ post ->
  rs_promises s' = rs_promises s -> rs_aborted s' = rs_aborted s ->
  seq 0 (rs_nextLease s') ≡ₚ option_list v ++ seq 0 (rs_nextLease s) ->
  (forall sg p, (sg, p) ∈ rs_listeners s' <->
     (sg, p) ∈ rs_listeners s /\ (p <> w_promise w)) ->
  queue (resolve (w_promise w) v s').
Proof.
  intros [Hnd Hpend Hlis Hlea] Hw Hw' Hp' Ha Hnext Hl.
  destruct (resolve_frame (w_promise w) v s') as (_ & _ & _ & Ew & _ & En & El & Ea).
  assert (Hpw : rs_promises s !! w_promise w = Some Pending).
  { apply Hpend. rewrite Hw, fmap_app. apply elem_of_app. right. by left. }
  rewrite Hw, fmap_app in Hnd. csimpl in Hnd. rewrite <-Permutation_middle in Hnd.
  apply NoDup_cons in Hnd as [Hni Hnd]. constructor.
  - by rewrite Ew, Hw', fmap_app.
  - intros p. rewrite resolve_promises, Ew, Hw', fmap_app, Hp'.
    destruct (decide (w_promise w = p)) as [<-|Hne].
    + rewrite decide_True by done. split; [done|]. by intros Hin.
    + rewrite decide_False by tauto. rewrite Hpend, Hw, fmap_app. csimpl.
      rewrite !elem_of_app, elem_of_cons. intuition congruence.
  - intros sg p. rewrite El, Ea, Ew, Hw', Hl, Hlis, Ha, Hw. split.
    + intros [[Hsg (w0 & Hin & <- & Hs)] Hne]. split; [done|]. exists w0. split; [|done].
      apply elem_of_app in Hin as [Hin|[->|Hin]%elem_of_cons]; [apply elem_of_app; by left|done|apply elem_of_app; by right].
    + intros [Hsg (w0 & Hin & <- & Hs)]. split.
      * split; [done|]. exists w0. split; [|done]. apply elem_of_app in Hin as [Hin|Hin]; apply elem_of_app;
          [by left|right; by right].
      * intros Heq. apply Hni. rewrite <-Heq, <-fmap_app. by apply list_elem_of_fmap_2.
  - unfold resolve. rewrite Hp', Hpw. simpl. rewrite omap_resolve by done. by rewrite Hnext, Hlea.
Qed.

(** ** The loop of [schedule] *)

Lemma schedule_from_spec fuel pre post s :
  core s -> queue s -> live s -> rs_waiters s = pre ++ post -> (length post < fuel)%nat ->
  (forall w, w ∈ pre -> canStart s (w_request w) = false) ->
  let s' := schedule_from fuel (length pre) s in
  core s' /\ queue s' /\ live s' /\ no_lost_wakeup s'.
Proof.
  revert pre post s. induction fuel as [|fuel IH]; intros pre post s Hc Hq Hl Hw Hf Hpre; [lia|].
  cbn [schedule_from]. rewrite Hw. destruct post as [|w post].
  { rewrite lookup_ge_None_2 by (rewrite app_nil_r; lia). cbv zeta. split_and!; [done..|].
    intros w Hin. apply Hpre. by rewrite Hw, app_nil_r in Hin. }
  rewrite list_lookup_middle by done. rewrite (Hl w) by (rewrite Hw; apply elem_of_app; right; by left).
  destruct (canStart s (w_request w)) eqn:Hcan; simpl.
  2: { specialize (IH (pre ++ [w]) post s). rewrite length_app, Nat.add_1_r in IH. simpl in Hf.
       apply IH; [done..|by rewrite <-(assoc_L (++))|lia|].
       intros x [Hx| ->%list_elem_of_singleton]%elem_of_app; [by apply Hpre|done]. }
  rewrite splice_middle.
  set (listeners := match w_signal w with Some _ => _ | None => _ end).
  set (s1 := set_waiters (pre ++ post) listeners s).
  assert (Hc1 : core s1) by (destruct Hc; by constructor).
  destruct (start (w_request w) s1) as [s2 lease] eqn:Hstart.
  assert (Hs2 : s2 = (start (w_request w) s1).1 /\ lease = rs_nextLease s) by (rewrite Hstart; by inversion Hstart).
  destruct Hs2 as [-> ->].
  assert (Hlistener : forall sg p, (sg, p) ∈ listeners <-> (sg, p) ∈ rs_listeners s /\ p <> w_promise w).
  { intros sg p. unfold listeners. destruct (w_signal w) as [sg0|] eqn:Hsig.
    - unfold unlisten. rewrite elem_of_keep. simpl. rewrite negb_true_iff, Nat.eqb_neq. done.
    - split; [|by intros [? _]]. intros Hin. split; [done|]. intros ->.
      apply (qu_listeners s Hq) in Hin as [_ (w0 & Hin & Hpw & Hs0)].
      assert (w0 = w); [|congruence]. pose proof (qu_nodup s Hq) as Hnd. rewrite Hw in Hin, Hnd.
      rewrite fmap_app in Hnd. csimpl in Hnd. rewrite <-Permutation_middle in Hnd.
      apply NoDup_cons in Hnd as [Hni _].
      apply elem_of_app in Hin as [Hin|[->|Hin]%elem_of_cons]; [|done|]; destruct Hni; rewrite <-Hpw;
        apply elem_of_app; [left|right]; by apply list_elem_of_fmap_2. }
  set (s3 := resolve (w_promise w) (Some (rs_nextLease s)) (start (w_request w) s1).1).
  assert (Hw3 : rs_waiters s3 = pre ++ post)
    by (unfold s3; destruct (resolve_frame (w_promise w) (Some (rs_nextLease s)) (start (w_request w) s1).1) as (_ & _ & _ & -> & _); done).
  assert (Ha3 : rs_aborted s3 = rs_aborted s)
    by (unfold s3; destruct (resolve_frame (w_promise w) (Some (rs_nextLease s)) (start (w_request w) s1).1) as (_ & _ & _ & _ & _ & _ & _ & ->); done).
  apply (IH pre post s3).
  - apply resolve_core. apply (start_core s1 (w_request w) Hc1). exact Hcan.
  - eapply queue_dequeue; [exact Hq|exact Hw|done|done|done| |exact Hlistener].
    change (rs_nextLease (start (w_request w) s1).1) with (S (rs_nextLease s)).
    rewrite seq_S. simpl. by rewrite Permutation_app_comm.
  - intros x Hx. rewrite Hw3 in Hx. unfold signal_aborted. rewrite Ha3. apply (Hl x). rewrite Hw.
    apply elem_of_app in Hx as [?|?]; apply elem_of_app; [by left|right; by right].
  - exact Hw3.
  - simpl in Hf. lia.
  - intros x Hx. unfold s3. rewrite resolve_canStart. apply (start_antitone s1); [done|exact Hcan|].
    exact (Hpre x Hx).
Qed.

Lemma schedule_spec s :
  core s -> queue s -> live s ->
  core (schedule s) /\ queue (schedule s) /\ live (schedule s) /\ no_lost_wakeup (schedule s).
Proof.
  intros Hc Hq Hl. apply (schedule_from_spec _ [] (rs_waiters s)); [done..|lia|by intros w ?%not_elem_of_nil].
Qed.

(** ** Every step keeps the invariant *)

Definition scheduler_inv (s : ResourceScheduler) : Prop :=
  core s /\ queue s /\ live s /\ no_lost_wakeup s.

Lemma waiter_unique (ws : list Waiter) w w' :
  NoDup (w_promise <$> ws) -> w ∈ ws -> w' ∈ ws -> w_promise w = w_promise w' -> w = w'.
Proof.
  intros Hnd (i & Hi)%list_elem_of_lookup (j & Hj)%list_elem_of_lookup Heq.
  assert (i = j) as ->; [|congruence].
  eapply (NoDup_lookup _ _ _ (w_promise w) Hnd); rewrite list_lookup_fmap; [by rewrite Hi|by rewrite Hj, Heq].
Qed.

Lemma new_inv n s : new_ResourceScheduler n = Ok s -> scheduler_inv s.
Proof.
  unfold new_ResourceScheduler. destruct (num_to_Z n) as [z|]; [|done].
  destruct (Z.ltb_spec z 1); [done|]. intros [= <-]. split_and!.
  - constructor; simpl; try done; [lia|split; constructor|constructor|]. by right; constructor.
  - constructor; simpl; [constructor| |split|done].
    + intros p. split; [done|]. by intros ?%not_elem_of_nil.
    + by intros ?%not_elem_of_nil.
    + by intros (_ & w & ?%not_elem_of_nil & _).
  - by intros w ?%not_elem_of_nil.
  - by intros w ?%not_elem_of_nil.
Qed.

Lemma acquire_inv request signal s : scheduler_inv s -> scheduler_inv (acquire request signal s).1.
Proof.
  intros (Hc & Hq & Hl & Hn). unfold acquire.
  assert (Hold : forall st, st <> Pending -> forall p,
    (rs_promises s ++ [st]) !! p = Some Pending <-> rs_promises s !! p = Some Pending).
  { intros st Hst p. destruct (decide (p < length (rs_promises s))%nat).
    - by rewrite lookup_app_l by lia.
    - rewrite lookup_app_r, (lookup_ge_None_2 (rs_promises s)) by lia.
      split; [|done]. intros Hp. apply list_elem_of_lookup_2, list_elem_of_singleton in Hp. congruence. }
  destruct (signal_aborted s signal) eqn:Hab; [|destruct (canStart s request) eqn:Hcan].
  - split_and!; [destruct Hc; by constructor| |exact Hl|exact Hn].
    destruct Hq as [H1 H2 H3 H4]. constructor; simpl; [done| |done|].
    + intros p. by rewrite Hold.
    + by rewrite omap_app, app_nil_r.
  - pose proof (start_core s request Hc Hcan) as Hc'.
    destruct (start request s) as [s' lease] eqn:Hs. unfold start in Hs. injection Hs as <- <-.
    simpl in *. split_and!; [destruct Hc'; by constructor| |exact Hl|].
    + destruct Hq as [H1 H2 H3 H4]. constructor; cbn [set_promises set_active rs_waiters rs_promises
        rs_listeners rs_aborted rs_nextLease]; [done| |done|].
      * intros p. by rewrite Hold.
      * rewrite omap_app, seq_S. simpl. by rewrite H4.
    + intros w Hw. exact (start_antitone s request (w_request w) Hc Hcan (Hn w Hw)).
  - simpl. split_and!; [destruct Hc; by constructor| | |].
    + destruct Hq as [H1 H2 H3 H4].
      assert (Hfresh : length (rs_promises s) ∉ w_promise <$> rs_waiters s).
      { intros Hin. apply H2, lookup_lt_Some in Hin. lia. }
      constructor; cbn [set_promises set_waiters rs_waiters rs_promises rs_listeners rs_aborted rs_nextLease].
      * rewrite fmap_app. apply NoDup_app. split_and!; [done| |apply NoDup_singleton].
        intros p Hp ->%list_elem_of_singleton. by apply Hfresh.
      * intros p. rewrite fmap_app, elem_of_app, <-H2. csimpl. rewrite list_elem_of_singleton.
        destruct (decide (p < length (rs_promises s))%nat).
        -- rewrite lookup_app_l by lia. intuition lia.
        -- rewrite lookup_app_r, (lookup_ge_None_2 (rs_promises s)) by lia. split.
           ++ intros Hp. right. apply lookup_lt_Some in Hp. simpl in Hp. lia.
           ++ intros [?| ->]; [done|]. by rewrite Nat.sub_diag.
      * intros sg p. transitivity ((sg, p) ∈ rs_listeners s \/ signal = Some sg /\ p = length (rs_promises s)).
        { destruct signal as [sg0|]; [|intuition congruence].
          rewrite elem_of_app, list_elem_of_singleton. intuition congruence. }
        rewrite H3. split.
        -- intros [[Hsg (w & Hw & Hr)]|[-> ->]].
           ++ split; [done|]. exists w. split; [apply elem_of_app; by left|done].
           ++ split; [by apply bool_decide_eq_false in Hab|]. eexists. split; [apply elem_of_app; right; by left|done].
        -- intros [Hsg (w & [Hw| ->%list_elem_of_singleton]%elem_of_app & Hp & Hs)]; [left; by eauto|right; by split].
      * by rewrite omap_app, app_nil_r.
    + intros w [Hw| ->%list_elem_of_singleton]%elem_of_app; [by apply Hl|exact Hab].
    + intros w [Hw| ->%list_elem_of_singleton]%elem_of_app; [by apply Hn|exact Hcan].
Qed.

Lemma release_inv lease s : scheduler_inv s -> scheduler_inv (release lease s).
Proof.
  intros (Hc & Hq & Hl & Hn). unfold release.
  destruct (list_find _ (rs_unreleased s)) as [[i [id request]]|] eqn:Hf; [|done].
  apply list_find_Some in Hf as (Hi & _ & _). apply schedule_spec.
  - by apply (release_core s i id request).
  - destruct Hq. by constructor.
  - exact Hl.
Qed.

(** Between two listeners of a signal that fired: the waiters it aborts are those
    whose listeners are still to run. *)
Definition aborting (s : ResourceScheduler) (rest : list nat) : Prop :=
  core s /\ queue s /\ no_lost_wakeup s /\
  forall w, w ∈ rs_waiters s -> signal_aborted s (w_signal w) = true <-> w_promise w ∈ rest.

Lemma onAbort_aborting p rest s :
  aborting s (p :: rest) -> aborting (onAbort p s) rest.
Proof.
  intros (Hc & Hq & Hn & Hsig). unfold onAbort.
  destruct (list_find (fun w => w_promise w = p) (rs_waiters s)) as [[i w]|] eqn:Hf.
  - apply list_find_Some in Hf as (Hi & Hwp & _). pose proof (take_drop_middle _ _ _ Hi) as Hsplit.
    assert (Hlen : length (take i (rs_waiters s)) = i)
      by (apply length_take_le; apply lookup_lt_Some in Hi; lia).
    assert (Hw : w ∈ rs_waiters s) by by eapply list_elem_of_lookup_2.
    set (s1 := set_waiters (splice i (rs_waiters s)) (rs_listeners s) s).
    assert (Hs1 : rs_waiters s1 = take i (rs_waiters s) ++ drop (S i) (rs_waiters s)) by done.
    destruct (resolve_frame p None s1) as (_ & _ & _ & Ew & _ & _ & _ & Ea).
    assert (Hsub : forall x, x ∈ rs_waiters s1 -> x ∈ rs_waiters s /\ w_promise x <> p).
    { intros x Hx. rewrite <-Hsplit. rewrite Hs1 in Hx. split.
      { apply elem_of_app in Hx as [?|?]; apply elem_of_app; [by left|right; by right]. }
      intros Heq. pose proof (qu_nodup s Hq) as Hnd. rewrite <-Hsplit, fmap_app in Hnd. csimpl in Hnd.
      rewrite <-Permutation_middle in Hnd. apply NoDup_cons in Hnd as [Hni _]. apply Hni.
      rewrite Hwp, <-Heq, <-fmap_app. by apply list_elem_of_fmap_2. }
    split; [apply resolve_core; destruct Hc; by constructor|]. split; [|split].
    + rewrite <-Hwp. eapply queue_dequeue; [exact Hq|symmetry; exact Hsplit|exact Hs1|done..|].
      intros sg q. split; [|by intros [? _]]. intros Hin. split; [done|]. intros ->.
      apply (qu_listeners s Hq) in Hin as [Hna (w0 & Hw0 & Hp0 & Hs0)].
      assert (w0 = w) as -> by (eapply waiter_unique; [apply Hq|done..]).
      assert (Hab : signal_aborted s (w_signal w) = true) by (apply Hsig; [done|rewrite Hwp; by left]).
      rewrite Hs0 in Hab. by apply bool_decide_eq_true in Hab.
    + intros x Hx. rewrite Ew in Hx. rewrite resolve_canStart. exact (Hn x (proj1 (Hsub x Hx))).
    + intros x Hx. rewrite Ew in Hx. destruct (Hsub x Hx) as [Hx' Hne].
      assert (signal_aborted (resolve p None s1) (w_signal x) = signal_aborted s (w_signal x)) as ->
        by (unfold signal_aborted; by rewrite Ea).
      rewrite (Hsig x Hx'), elem_of_cons. intuition congruence.
  - assert (Hnone : forall w, w ∈ rs_waiters s -> w_promise w <> p).
    { apply list_find_None in Hf. by rewrite Forall_forall in Hf. }
    assert (Hid : resolve p None s = s).
    { unfold resolve. destruct (rs_promises s !! p) as [[|]|] eqn:Hpp; try done.
      apply (qu_pending s Hq) in Hpp. apply list_elem_of_fmap in Hpp as (w & -> & Hw). by destruct (Hnone w Hw). }
    rewrite Hid. split_and!; [done..|]. intros w Hw. rewrite (Hsig w Hw), elem_of_cons.
    pose proof (Hnone w Hw). intuition congruence.
Qed.

Lemma abort_inv signal s : scheduler_inv s -> scheduler_inv (abort signal s).
Proof.
  intros (Hc & Hq & Hl & Hn). unfold abort. case_bool_decide as Hin; [done|].
  set (firing := keep (fun sp : nat * nat => (sp.1 =? signal)%nat) (rs_listeners s)). set (s0 := set_aborted signal _ s).
  assert (Hfire : forall w, w ∈ rs_waiters s -> w_signal w = Some signal <-> w_promise w ∈ firing.*2).
  { intros w Hw. split.
    - intros Hs. apply list_elem_of_fmap. exists (signal, w_promise w). split; [done|].
      apply elem_of_keep. split; [|simpl; apply Nat.eqb_refl]. apply (qu_listeners s Hq). split; [done|by exists w].
    - intros ([sg p] & Hp & [Hlis Heq]%elem_of_keep)%list_elem_of_fmap. simpl in *.
      apply Nat.eqb_eq in Heq as ->. subst p. apply (qu_listeners s Hq) in Hlis as [_ (w0 & Hw0 & Hp0 & Hs0)].
      by rewrite <-(waiter_unique _ _ _ (qu_nodup s Hq) Hw0 Hw Hp0). }
  assert (H0 : aborting s0 firing.*2).
  { split; [destruct Hc; by constructor|]. split; [|split; [exact Hn|]].
    - destruct Hq as [H1 H2 H3 H4]. constructor; simpl; [done|done| |done]. intros sg p.
      rewrite elem_of_keep, H3, negb_true_iff, Nat.eqb_neq, not_elem_of_union, not_elem_of_singleton. simpl.
      tauto.
    - intros w Hw. rewrite <-Hfire by exact Hw. specialize (Hl w Hw). unfold signal_aborted in *. simpl.
      destruct (w_signal w) as [sg|]; [|done]. rewrite bool_decide_eq_true, elem_of_union, elem_of_singleton.
      apply bool_decide_eq_false in Hl. split; [|by intros [= ->]; left]. intros [->|?]; done. }
  clearbody s0 firing. clear -H0. revert s0 H0. induction firing as [|[sg p] firing IH]; intros s0 H0; simpl.
  - destruct H0 as (Hc & Hq & Hn & Hsig). split_and!; [done|done| |done]. intros w Hw.
    apply not_true_is_false. intros Hab. apply (Hsig w Hw) in Hab. by apply not_elem_of_nil in Hab.
  - apply IH. by apply onAbort_aborting.
Qed.

Lemma reachable_inv s : reachable s -> scheduler_inv s.
Proof.
  induction 1 as [n s Hs|s s' _ IH Hstep]; [by eapply new_inv|].
  destruct Hstep; [by apply acquire_inv|by apply release_inv|by apply abort_inv].
Qed.

(** ** Promises settle once *)

Definition settled_le (s s' : ResourceScheduler) : Prop :=
  forall p v, rs_promises s !! p = Some (Resolved v) -> rs_promises s' !! p = Some (Resolved v).
#[local] Instance settled_le_preorder : PreOrder settled_le.
Proof. split; [by intros s p v|]. intros s1 s2 s3 H1 H2 p v H. by apply H2, H1. Qed.

Lemma resolve_settled p v s : settled_le s (resolve p v s).
Proof. intros q w Hq. rewrite resolve_promises, decide_False; [done|]. intros [_ H]. congruence. Qed.
Lemma schedule_from_settled fuel index s : settled_le s (schedule_from fuel index s).
Proof.
  revert index s. induction fuel as [|fuel IH]; intros index s; cbn [schedule_from]; [done|].
  destruct (rs_waiters s !! index) as [w|]; [|done]. destruct (signal_aborted _ _).
  { etrans; [|apply IH]. intros p v Hp. by apply resolve_settled. }
  destruct (negb _); [apply IH|]. destruct (start _ _) as [s' lease] eqn:Hs.
  etrans; [|apply IH]. intros p v Hp. apply resolve_settled. unfold start in Hs. by injection Hs as <- _.
Qed.
Lemma step_settled s s' : scheduler_step s s' -> settled_le s s'.
Proof.
  intros [s0 request signal|s0 lease|s0 signal] p v Hp.
  - unfold acquire. destruct (signal_aborted s0 signal); [by apply lookup_app_l_Some|].
    destruct (canStart s0 request); [|by apply lookup_app_l_Some]. by apply lookup_app_l_Some.
  - unfold release. destruct (list_find _ _) as [[i [id request]]|]; [|done]. by apply schedule_from_settled.
  - unfold abort. case_bool_decide; [done|].
    set (firing := keep (fun sp : nat * nat => (sp.1 =? signal)%nat) _). set (s1 := set_aborted _ _ _).
    assert (Hp1 : rs_promises s1 !! p = Some (Resolved v)) by done. clearbody s1 firing. clear Hp. revert s1 Hp1.
    induction firing as [|sp firing IH]; intros s1 Hp1; simpl; [done|]. apply IH. unfold onAbort.
    apply resolve_settled. by destruct (list_find _ _) as [[]|].
Qed.

Lemma schedule_from_ids fuel index s i :
  i ∈ (rs_unreleased (schedule_from fuel index s)).*1 ->
  i ∈ (rs_unreleased s).*1 \/ (rs_nextLease s <= i)%nat.
Proof.
  revert index s. induction fuel as [|fuel IH]; intros index s; cbn [schedule_from]; [by left|].
  destruct (rs_waiters s !! index) as [w|]; [|by left]. destruct (signal_aborted _ _).
  { intros Hi. apply IH in Hi.
    destruct (resolve_frame (w_promise w) None (set_waiters (splice index (rs_waiters s)) (rs_listeners s) s))
      as (_ & _ & _ & _ & Eu & En & _). rewrite Eu, En in Hi. exact Hi. }
  destruct (negb _); [apply IH|].
  set (s1 := set_waiters _ _ s). intros Hi. unfold start in Hi. apply IH in Hi.
  match type of Hi with _ ∈ (rs_unreleased (resolve ?p ?v ?s2)).*1 \/ _ =>
    destruct (resolve_frame p v s2) as (_ & _ & _ & _ & Eu & En & _) end.
  rewrite Eu, En in Hi. simpl in Hi. rewrite fmap_app, elem_of_app in Hi. simpl in Hi.
  rewrite list_elem_of_singleton in Hi. destruct Hi as [[?| ->]|?]; [by left|right; lia|right; lia].
Qed.

(** A second call of the same [release] closure does nothing, whatever was started
    by the first. *)
Lemma release_twice s lease :
  reachable s -> release lease (release lease s) = release lease s.
Proof.
  intros (Hc & _)%reachable_inv. unfold release at 2 3.
  destruct (list_find _ (rs_unreleased s)) as [[i [id request]]|] eqn:Hf.
  2: { unfold release. by rewrite Hf. }
  apply list_find_Some in Hf as (Hi & Hid & _). simpl in Hid. subst id.
  set (s1 := set_active _ _ _ _ s).
  assert (Hnone : lease ∉ (rs_unreleased (schedule s1)).*1).
  { destruct (co_ids s Hc) as [Hnd Hlt]. intros [Hin|Hge]%schedule_from_ids.
    - assert (Hids : (rs_unreleased s).*1 ≡ₚ lease :: (delete i (rs_unreleased s)).*1)
        by (rewrite (delete_Permutation _ _ _ Hi) at 1; done).
      rewrite Hids in Hnd. by apply NoDup_cons in Hnd as [? _].
    - simpl in Hge. rewrite Forall_forall in Hlt.
      assert (lease < rs_nextLease s)%nat; [|lia]. apply Hlt.
      apply (list_elem_of_fmap_2 fst _ (lease, request)). by eapply list_elem_of_lookup_2. }
  unfold release. rewrite (proj2 (list_find_None _ _)); [done|].
  apply Forall_forall. intros lr Hlr Heq. apply Hnone. rewrite <-Heq. by apply list_elem_of_fmap_2.
Qed.

(** ** Properties *)

(** C36. Mutual exclusion: in every state clients can reach, the number of running
    executions is the number of leases not yet released and never exceeds the
    limit, and two leases out on the same key are both shared. *)
Theorem scheduler_exclusion s :
  reachable s ->
  runningCount s = zlen (rs_unreleased s) /\ 0 <= runningCount s <= rs_maxConcurrency s /\
  forall i j li lj ri rj k,
    rs_unreleased s !! i = Some (li, ri) -> rs_unreleased s !! j = Some (lj, rj) -> i <> j ->
    request_key ri = Some k -> request_key rj = Some k ->
    request_mode ri = Shared /\ request_mode rj = Shared.
Proof.
  intros (Hc & _)%reachable_inv. unfold runningCount. pose proof (co_count s Hc) as Hcount.
  pose proof (co_max s Hc). pose proof (zlen_nonneg (rs_unreleased s)). split_and!; [done|lia|lia|].
  intros i j li lj ri rj k Hi Hj Hne Hki Hkj. pose proof (co_compat s Hc k) as Hcompat.
  assert (Hperm : modes_of k (rs_unreleased s) ≡ₚ request_mode ri :: modes_of k (delete i (rs_unreleased s))).
  { rewrite (delete_Permutation _ _ _ Hi) at 1. unfold modes_of. simpl. by rewrite decide_True. }
  assert (Hin : request_mode rj ∈ modes_of k (delete i (rs_unreleased s))).
  { apply list_elem_of_omap. exists (lj, rj). split; [|simpl; by rewrite decide_True].
    assert (Hd : (lj, rj) ∈ (li, ri) :: delete i (rs_unreleased s))
      by (rewrite <-(delete_Permutation _ _ _ Hi); by eapply list_elem_of_lookup_2).
    apply elem_of_cons in Hd as [[= -> ->]|Hd]; [|done]. destruct Hne.
    destruct (co_ids s Hc) as [Hnd _].
    eapply (NoDup_lookup _ _ _ li Hnd); rewrite list_lookup_fmap; [by rewrite Hi|by rewrite Hj]. }
  apply (compatible_perm _ _ Hperm) in Hcompat as [[= _ Hnil]|Hall].
  - rewrite Hnil in Hin. by apply not_elem_of_nil in Hin.
  - apply Forall_cons in Hall as [Hm Hall]. rewrite Forall_forall in Hall. auto.
Qed.

(** C37. No lost wakeup: in every state clients can reach, no waiting request could
    be started, none waits on a signal that has fired, and the waiters are exactly
    the promises not yet resolved. *)
Theorem scheduler_no_lost_wakeup s :
  reachable s ->
  (forall w, w ∈ rs_waiters s -> canStart s (w_request w) = false /\ signal_aborted s (w_signal w) = false) /\
  (forall p, rs_promises s !! p = Some Pending <-> p ∈ w_promise <$> rs_waiters s).
Proof.
  intros (_ & Hq & Hl & Hn)%reachable_inv. split; [|apply Hq]. intros w Hw. split; [by apply Hn|by apply Hl].
Qed.

(** Every promise settles at most once, every lease is handed to exactly one
    caller and ended at most once: a step never changes the outcome of a resolved
    promise, the leases delivered through promises are all the leases created,
    without repetition, and a second call of a [release] closure does nothing. *)
Theorem scheduler_settles_once s :
  reachable s ->
  (forall s' p v, scheduler_step s s' -> rs_promises s !! p = Some (Resolved v) ->
     rs_promises s' !! p = Some (Resolved v)) /\
  omap lease_of (rs_promises s) ≡ₚ seq 0 (rs_nextLease s) /\
  (forall lease, release lease (release lease s) = release lease s).
Proof.
  intros Hr. split; [by intros s' p v Hstep; apply step_settled|]. split.
  - apply reachable_inv in Hr as (_ & Hq & _). apply Hq.
  - intros lease. by apply release_twice.
Qed.

(** A run: two exclusive requests for one key, the second waiting with a signal. *)
Definition sample_request : ResourceRequest := {| rq_key := Some "file"; rq_mode := None |}.
Definition sample_scheduler : ResourceScheduler :=
  match new_ResourceScheduler (num_of_Z 4) with
  | Ok s => (acquire sample_request (Some 0%nat) (acquire sample_request None s).1).1
  | Err _ => set_active 0 [] [] 0 {| rs_maxConcurrency := 1; rs_activeCount := 0; rs_activeKeys := [];
      rs_waiters := []; rs_unreleased := []; rs_nextLease := 0; rs_promises := []; rs_listeners := [];
      rs_aborted := ∅ |}
  end.
Lemma sample_reachable : reachable sample_scheduler.
Proof.
  unfold sample_scheduler. destruct (new_ResourceScheduler (num_of_Z 4)) as [s|] eqn:Hs; [|by vm_compute in Hs].
  eapply reachable_step; [|apply step_acquire]. eapply reachable_step; [|apply step_acquire].
  by eapply reachable_new.
Qed.

Lemma scheduler_exclusion_witness :
  runningCount sample_scheduler = zlen (rs_unreleased sample_scheduler) /\
  0 <= runningCount sample_scheduler <= rs_maxConcurrency sample_scheduler /\
  forall i j li lj ri rj k,
    rs_unreleased sample_scheduler !! i = Some (li, ri) ->
    rs_unreleased sample_scheduler !! j = Some (lj, rj) -> i <> j ->
    request_key ri = Some k -> request_key rj = Some k ->
    request_mode ri = Shared /\ request_mode rj = Shared.
Proof. apply scheduler_exclusion. exact sample_reachable. Defined.
Lemma scheduler_no_lost_wakeup_witness :
  pendingCount sample_scheduler = 1 /\
  (forall w, w ∈ rs_waiters sample_scheduler ->
     canStart sample_scheduler (w_request w) = false /\ signal_aborted sample_scheduler (w_signal w) = false) /\
  (forall p, rs_promises sample_scheduler !! p = Some Pending <-> p ∈ w_promise <$> rs_waiters sample_scheduler).
Proof. split; [by vm_compute|]. apply scheduler_no_lost_wakeup. exact sample_reachable. Defined.
Lemma scheduler_settles_once_witness :
  rs_promises (release 0 sample_scheduler) = [Resolved (Some 0%nat); Resolved (Some 1%nat)] /\
  (forall s' p v, scheduler_step sample_scheduler s' ->
     rs_promises sample_scheduler !! p = Some (Resolved v) -> rs_promises s' !! p = Some (Resolved v)) /\
  omap lease_of (rs_promises sample_scheduler) ≡ₚ seq 0 (rs_nextLease sample_scheduler) /\
  (forall lease, release lease (release lease sample_scheduler) = release lease sample_scheduler).
Proof.
  split; [by vm_compute|]. apply scheduler_settles_once. exact sample_reachable.
Defined.
