(* ===== verification/Truncate.v ===== *)
(** * Truncation of tool output (packages/agent/src/harness/utils/truncate.ts)

    Strings are UTF-16 code units.  The limits are integers; the Buffer global,
    which some runtimes lack, is the parameter [runtimeBuffer] (its [byteLength]
    for "utf8", when present).  [lines[0]] of an empty array is [undefined], on
    which the byte count throws. *)
From S2P Require Import Prelude JsNumber JsText JsValue.

Definition LF : Z := 10.
Definition DEFAULT_MAX_LINES : Z := 2000.
Definition DEFAULT_MAX_BYTES : Z := 50 * 1024.
Definition GREP_MAX_LINE_LENGTH : Z := 500.

Inductive TruncatedBy := ByLines | ByBytes.

Record TruncationResult := {
  tr_content : jsstring;
  tr_truncated : bool;
  tr_truncatedBy : option TruncatedBy;
  tr_totalLines : Z;
  tr_totalBytes : Z;
  tr_outputLines : Z;
  tr_outputBytes : Z;
  tr_lastLinePartial : bool;
  tr_firstLineExceedsLimit : bool;
  tr_maxLines : Z;
  tr_maxBytes : Z }.

Record TruncationOptions := { to_maxLines : option Z; to_maxBytes : option Z }.

(** [content.split("\n")] and [lines.join("\n")] *)
Fixpoint split_lf (s : jsstring) : list jsstring :=
  match s with
  | [] => [[]]
  | u :: s' =>
      if u =? LF then [] :: split_lf s'
      else match split_lf s' with
           | l :: ls => (u :: l) :: ls
           | [] => [[u]]
           end
  end.
Fixpoint join_lf (lines : list jsstring) : jsstring :=
  match lines with
  | [] => []
  | [l] => l
  | l :: lines' => l ++ LF :: join_lf lines'
  end.

Definition ends_with_lf (s : jsstring) : bool :=
  match last s with Some u => u =? LF | None => false end.

Definition splitLinesForCounting (content : jsstring) : list jsstring :=
  match content with
  | [] => []
  | _ => let lines := split_lf content in
         if ends_with_lf content then removelast lines else lines
  end.

(** The loop of the fallback byte count, from the first non-ASCII unit on. *)
Fixpoint count_utf8 (s : jsstring) : Z :=
  match s with
  | [] => 0
  | code :: s' =>
      if code <=? 127 then 1 + count_utf8 s'
      else if code <=? 2047 then 2 + count_utf8 s'
      else if is_high code then
        match s' with
        | next :: s'' => if is_low next then 4 + count_utf8 s'' else 3 + count_utf8 s'
        | [] => 3
        end
      else 3 + count_utf8 s'
  end.

Definition is_ascii (u : Z) : bool := (0 <=? u) && (u <=? 127).
(** [content.search(nonAsciiPattern)], or the length. *)
Fixpoint ascii_prefix (s : jsstring) : nat :=
  match s with
  | u :: s' => if is_ascii u then S (ascii_prefix s') else 0%nat
  | [] => 0%nat
  end.

Fixpoint replaceUnpairedSurrogates (s : jsstring) : jsstring :=
  match s with
  | [] => []
  | code :: s' =>
      if is_high code then
        match s' with
        | next :: s'' => if is_low next then code :: next :: replaceUnpairedSurrogates s''
                         else 65533 :: replaceUnpairedSurrogates s'
        | [] => [65533]
        end
      else if is_low code then 65533 :: replaceUnpairedSurrogates s'
      else code :: replaceUnpairedSurrogates s'
  end.

(** [str.slice(0, end)] *)
Definition slice_to (s : jsstring) (e : Z) : jsstring :=
  take (Z.to_nat (if e <? 0 then Z.max 0 (zlen s + e) else e)) s.

(** The loop of [truncateStringToBytesFromEnd]: the start of the output and
    whether it holds an unpaired surrogate. *)
Fixpoint from_end_loop (fuel : nat) (str : jsstring) (maxBytes i outputBytes start : Z)
    (needsReplacement : bool) : Z * bool :=
  match fuel with
  | O => (start, needsReplacement)
  | S fuel' =>
      if 0 <? i then
        match at_index str (i - 1) with
        | None => (start, needsReplacement)
        | Some code =>
            let '(characterStart, characterBytes, unpaired) :=
              if is_low code && (0 <? i - 1) then
                match at_index str (i - 1 - 1) with
                | Some previous => if is_high previous then (i - 1 - 1, 4, false) else (i - 1, 3, true)
                | None => (i - 1, 3, true)
                end
              else if (55296 <=? code) && (code <=? 57343) then (i - 1, 3, true)
              else (i - 1, if code <=? 127 then 1 else if code <=? 2047 then 2 else 3, false) in
            if maxBytes <? outputBytes + characterBytes then (start, needsReplacement)
            else from_end_loop fuel' str maxBytes characterStart (outputBytes + characterBytes)
                   characterStart (needsReplacement || unpaired)
        end
      else (start, needsReplacement)
  end.

Definition truncateStringToBytesFromEnd (str : jsstring) (maxBytes : Z) : jsstring :=
  if maxBytes <=? 0 then [] else
  let '(start, needsReplacement) := from_end_loop (length str) str maxBytes (zlen str) 0 (zlen str) false in
  let output := drop (Z.to_nat start) str in
  if needsReplacement then replaceUnpairedSurrogates output else output.

Section truncate.
Variable runtimeBuffer : option (jsstring -> Z).

Definition utf8ByteLength (content : jsstring) : Z :=
  match runtimeBuffer with
  | Some byteLength => byteLength content
  | None =>
      let firstNonAscii := ascii_prefix content in
      if (firstNonAscii =? length content)%nat then zlen content
      else Z.of_nat firstNonAscii + count_utf8 (drop firstNonAscii content)
  end.

Definition not_truncated (content : jsstring) (totalLines totalBytes maxLines maxBytes : Z) : TruncationResult :=
  {| tr_content := content; tr_truncated := false; tr_truncatedBy := None; tr_totalLines := totalLines;
     tr_totalBytes := totalBytes; tr_outputLines := totalLines; tr_outputBytes := totalBytes;
     tr_lastLinePartial := false; tr_firstLineExceedsLimit := false; tr_maxLines := maxLines;
     tr_maxBytes := maxBytes |}.

(** The loop that collects complete lines from the head; [output] is what it has
    collected, one line per round. *)
Fixpoint head_loop (lines : list jsstring) (maxLines maxBytes : Z) (output : list jsstring)
    (outputBytes : Z) : list jsstring * Z * TruncatedBy :=
  match lines with
  | [] => (output, outputBytes, ByLines)
  | line :: lines' =>
      if zlen output <? maxLines then
        let lineBytes := utf8ByteLength line + (if 0 <? zlen output then 1 else 0) in
        if maxBytes <? outputBytes + lineBytes then (output, outputBytes, ByBytes)
        else head_loop lines' maxLines maxBytes (output ++ [line]) (outputBytes + lineBytes)
      else (output, outputBytes, ByLines)
  end.

Definition truncateHead (content : jsstring) (options : TruncationOptions) : result js_error TruncationResult :=
  let maxLines := default DEFAULT_MAX_LINES (to_maxLines options) in
  let maxBytes := default DEFAULT_MAX_BYTES (to_maxBytes options) in
  let totalBytes := utf8ByteLength content in
  let lines := splitLinesForCounting content in
  let totalLines := zlen lines in
  if (totalLines <=? maxLines) && (totalBytes <=? maxBytes)
  then Ok (not_truncated content totalLines totalBytes maxLines maxBytes) else
  match lines with
  | [] => Err (TypeError "Cannot read properties of undefined")
  | firstLine :: _ =>
      if maxBytes <? utf8ByteLength firstLine then
        Ok {| tr_content := []; tr_truncated := true; tr_truncatedBy := Some ByBytes;
              tr_totalLines := totalLines; tr_totalBytes := totalBytes; tr_outputLines := 0;
              tr_outputBytes := 0; tr_lastLinePartial := false; tr_firstLineExceedsLimit := true;
              tr_maxLines := maxLines; tr_maxBytes := maxBytes |}
      else
        let '(output, outputBytes, by_) := head_loop lines maxLines maxBytes [] 0 in
        let by_ := if (maxLines <=? zlen output) && (outputBytes <=? maxBytes) then ByLines else by_ in
        let outputContent := join_lf output in
        Ok {| tr_content := outputContent; tr_truncated := true; tr_truncatedBy := Some by_;
              tr_totalLines := totalLines; tr_totalBytes := totalBytes; tr_outputLines := zlen output;
              tr_outputBytes := utf8ByteLength outputContent; tr_lastLinePartial := false;
              tr_firstLineExceedsLimit := false; tr_maxLines := maxLines; tr_maxBytes := maxBytes |}
  end.

(** The loop that collects lines from the tail; it runs over the lines from the
    last one on.  The last component is [lastLinePartial]. *)
Fixpoint tail_loop (reversed : list jsstring) (maxLines maxBytes : Z) (output : list jsstring)
    (outputBytes : Z) : list jsstring * Z * TruncatedBy * bool :=
  match reversed with
  | [] => (output, outputBytes, ByLines, false)
  | line :: reversed' =>
      if zlen output <? maxLines then
        let lineBytes := utf8ByteLength line + (if 0 <? zlen output then 1 else 0) in
        if maxBytes <? outputBytes + lineBytes then
          if zlen output =? 0 then
            let truncatedLine := truncateStringToBytesFromEnd line maxBytes in
            (truncatedLine :: output, utf8ByteLength truncatedLine, ByBytes, true)
          else (output, outputBytes, ByBytes, false)
        else tail_loop reversed' maxLines maxBytes (line :: output) (outputBytes + lineBytes)
      else (output, outputBytes, ByLines, false)
  end.

Definition truncateTail (content : jsstring) (options : TruncationOptions) : TruncationResult :=
  let maxLines := default DEFAULT_MAX_LINES (to_maxLines options) in
  let maxBytes := default DEFAULT_MAX_BYTES (to_maxBytes options) in
  let totalBytes := utf8ByteLength content in
  let lines := splitLinesForCounting content in
  let totalLines := zlen lines in
  if (totalLines <=? maxLines) && (totalBytes <=? maxBytes)
  then not_truncated content totalLines totalBytes maxLines maxBytes else
  let '(output, outputBytes, by_, lastLinePartial) := tail_loop (reverse lines) maxLines maxBytes [] 0 in
  let by_ := if (maxLines <=? zlen output) && (outputBytes <=? maxBytes) then ByLines else by_ in
  let outputContent := join_lf output in
  {| tr_content := outputContent; tr_truncated := true; tr_truncatedBy := Some by_;
     tr_totalLines := totalLines; tr_totalBytes := totalBytes; tr_outputLines := zlen output;
     tr_outputBytes := utf8ByteLength outputContent; tr_lastLinePartial := lastLinePartial;
     tr_firstLineExceedsLimit := false; tr_maxLines := maxLines; tr_maxBytes := maxBytes |}.
End truncate.

(** "... [truncated]" *)
Definition truncation_mark : jsstring :=
  [46; 46; 46; 32; 91; 116; 114; 117; 110; 99; 97; 116; 101; 100; 93].
Definition truncateLine (line : jsstring) (maxChars : option Z) : jsstring * bool :=
  let maxChars := default GREP_MAX_LINE_LENGTH maxChars in
  if zlen line <=? maxChars then (line, false) else (slice_to line maxChars ++ truncation_mark, true).
