(* ===== verification/TruncateTheorems.v ===== *)
(** * What truncation keeps

    [blen] is the length in UTF-8.  Head truncation keeps the longest prefix of
    complete lines within both limits, tail truncation the longest suffix, or the
    longest end of the last line that starts at a code point. *)
From S2P Require Import Prelude JsNumber JsText JsValue Truncate.

#[local] Ltac Zify.zify_post_hook ::= Z.to_euclidean_division_equations.

Definition valid_units (s : jsstring) : Prop := Forall (fun u => 0 <= u < 65536) s.
Definition blen (s : jsstring) : Z := zlen (text_encode s).

(** ** Code points of a concatenation *)

Lemma surrogate_disjoint u : is_high u = true -> is_low u = false.
Proof. unfold is_high, is_low. intros H. apply andb_true_iff in H. rewrite !Z.leb_le in H. bool_lia. Qed.

Definition ends_high (s : jsstring) : bool := match last s with Some u => is_high u | None => false end.
Definition starts_low (s : jsstring) : bool := match s with u :: _ => is_low u | [] => false end.

Lemma scalars_app l r :
  ends_high l && starts_low r = false -> scalars (l ++ r) = scalars l ++ scalars r.
Proof.
  assert (Hgen : forall n l, (length l <= n)%nat -> ends_high l && starts_low r = false ->
    scalars (l ++ r) = scalars l ++ scalars r); [|by apply (Hgen (length l))].
  clear l. induction n as [|n IH]; intros [|a l] Hn Hb; try done; simpl in Hn; [lia|].
  assert (Hrec : l <> [] \/ ends_high (a :: l) = is_high a) by (destruct l; [by right|by left]).
  rewrite <-app_comm_cons, !scalars_cons. destruct (is_high a) eqn:Ha.
  - destruct l as [|b l]; cbn [app].
    + unfold ends_high in Hb. simpl in Hb. rewrite Ha in Hb. simpl in Hb. destruct r as [|b r]; [done|].
      simpl in Hb. simpl. by rewrite Hb.
    + simpl in Hn. destruct (is_low b) eqn:Hlb.
      * rewrite IH; [done|lia|]. destruct l as [|c l]; [done|]. exact Hb.
      * change (scalars (b :: l ++ r)) with (scalars ((b :: l) ++ r)). rewrite IH; [done|simpl; lia|]. exact Hb.
  - assert (Hl : scalars (l ++ r) = scalars l ++ scalars r).
    { apply IH; [lia|]. destruct l as [|b l]; [done|]. exact Hb. }
    destruct (is_low a); by rewrite Hl.
Qed.

Lemma blen_app l r : ends_high l && starts_low r = false -> blen (l ++ r) = blen l + blen r.
Proof.
  intros H. unfold blen, text_encode, utf8. rewrite scalars_app by done.
  by rewrite fmap_app, concat_app, zlen_app.
Qed.
Lemma blen_nonneg s : 0 <= blen s.
Proof. apply zlen_nonneg. Qed.
Lemma blen_line l r : blen (l ++ LF :: r) = blen l + 1 + blen r.
Proof.
  rewrite blen_app by (simpl; apply andb_false_r).
  assert (blen (LF :: r) = 1 + blen r); [|lia].
  change (LF :: r) with ([LF] ++ r). by rewrite blen_app.
Qed.

(** ** The fallback byte count *)

Lemma utf8_of_length c :
  zlen (utf8_of c) = if c <? 128 then 1 else if c <? 2048 then 2 else if c <? 65536 then 3 else 4.
Proof. unfold utf8_of. by repeat case_match. Qed.
Lemma blen_scalars s : blen s = zlen (utf8 (scalars s)).
Proof. done. Qed.
Lemma utf8_cons c cs : zlen (utf8 (c :: cs)) = zlen (utf8_of c) + zlen (utf8 cs).
Proof. unfold utf8. csimpl. by rewrite zlen_app. Qed.

Lemma count_utf8_spec s : valid_units s -> count_utf8 s = blen s.
Proof.
  assert (Hgen : forall n s, (length s <= n)%nat -> valid_units s -> count_utf8 s = blen s);
    [|by apply (Hgen (length s))].
  clear s. induction n as [|n IH]; intros [|a s] Hn Hs; try done; simpl in Hn; [lia|].
  apply Forall_cons in Hs as [Ha Hs]. pose proof (IH s ltac:(lia) Hs) as Hrec.
  assert (Hsur : is_high a = true \/ is_low a = true -> 55296 <= a <= 57343)
    by (unfold is_high, is_low; rewrite !andb_true_iff, !Z.leb_le; lia).
  rewrite blen_scalars, scalars_cons. cbn [count_utf8]. rewrite blen_scalars in Hrec.
  destruct (Z.leb_spec a 127).
  { destruct (is_high a); [by destruct Hsur; auto; lia|]. destruct (is_low a); [by destruct Hsur; auto; lia|].
    rewrite utf8_cons, utf8_of_length, Hrec, (proj2 (Z.ltb_lt _ _)) by lia. done. }
  destruct (Z.leb_spec a 2047).
  { destruct (is_high a); [by destruct Hsur; auto; lia|]. destruct (is_low a); [by destruct Hsur; auto; lia|].
    rewrite utf8_cons, utf8_of_length, Hrec, (proj2 (Z.ltb_ge _ _)), (proj2 (Z.ltb_lt _ _)) by lia. done. }
  destruct (is_high a) eqn:Hh.
  - destruct s as [|b s]; [done|]. apply Forall_cons in Hs as [Hb Hs]. destruct (is_low b) eqn:Hl.
    + simpl in Hn. rewrite utf8_cons, utf8_of_length. rewrite (IH s ltac:(lia) Hs), <-blen_scalars.
      specialize (Hsur (or_introl eq_refl)). unfold is_low in Hl. apply andb_true_iff in Hl.
      rewrite !Z.leb_le in Hl. unfold is_high in Hh. apply andb_true_iff in Hh. rewrite !Z.leb_le in Hh.
      rewrite (proj2 (Z.ltb_ge _ 128)), (proj2 (Z.ltb_ge _ 2048)), (proj2 (Z.ltb_ge _ 65536)) by lia. done.
    + by rewrite utf8_cons, Hrec.
  - destruct (is_low a); rewrite utf8_cons, Hrec; [done|].
    rewrite utf8_of_length, (proj2 (Z.ltb_ge _ 128)), (proj2 (Z.ltb_ge _ 2048)), (proj2 (Z.ltb_lt _ 65536)) by lia.
    done.
Qed.

Lemma count_utf8_ascii s : count_utf8 s = Z.of_nat (ascii_prefix s) + count_utf8 (drop (ascii_prefix s) s).
Proof.
  induction s as [|u s IH]; [done|]. cbn [ascii_prefix]. destruct (is_ascii u) eqn:Hu; [|done].
  unfold is_ascii in Hu. apply andb_true_iff in Hu as [_ Hu]. cbn [count_utf8]. rewrite Hu.
  cbn [drop]. rewrite IH at 1. lia.
Qed.

(** The documented behaviour of [Buffer.byteLength(s, "utf8")]. *)
Definition buffer_ok (runtimeBuffer : option (jsstring -> Z)) : Prop :=
  forall f, runtimeBuffer = Some f -> forall s, valid_units s -> f s = blen s.

Lemma utf8ByteLength_blen rb s : buffer_ok rb -> valid_units s -> utf8ByteLength rb s = blen s.
Proof.
  intros Hrb Hs. unfold utf8ByteLength. destruct rb as [f|]; [by apply Hrb|].
  transitivity (count_utf8 s); [|by apply count_utf8_spec]. rewrite (count_utf8_ascii s).
  destruct (Nat.eqb_spec (ascii_prefix s) (length s)) as [Heq|]; [|done].
  rewrite Heq, drop_all. unfold zlen. simpl. lia.
Qed.

(** ** Lines *)

Lemma split_lf_nonempty s : split_lf s <> [].
Proof. destruct s as [|u s]; simpl; [done|]. destruct (u =? LF); [done|]. by destruct (split_lf s). Qed.
Lemma join_split s : join_lf (split_lf s) = s.
Proof.
  induction s as [|u s IH]; [done|]. simpl. pose proof (split_lf_nonempty s) as Hne.
  destruct (Z.eqb_spec u LF) as [->|]; destruct (split_lf s) as [|l ls]; try done.
  - simpl. f_equal. exact IH.
  - rewrite <-IH. by destruct ls.
Qed.
Lemma join_snoc ls l : ls <> [] -> join_lf (ls ++ [l]) = join_lf ls ++ LF :: l.
Proof.
  induction ls as [|k ls IH]; [done|]. intros _. destruct ls as [|k' ls]; [done|].
  change (join_lf ((k :: k' :: ls) ++ [l])) with (k ++ LF :: join_lf ((k' :: ls) ++ [l])).
  rewrite IH by done. change (join_lf (k :: k' :: ls)) with (k ++ LF :: join_lf (k' :: ls)).
  by rewrite <-(assoc_L (++)).
Qed.

Lemma split_lf_snoc s : split_lf (s ++ [LF]) = split_lf s ++ [[]].
Proof.
  induction s as [|u s IH]; [done|]. simpl. rewrite IH. pose proof (split_lf_nonempty s).
  destruct (u =? LF); [done|]. by destruct (split_lf s).
Qed.

(** The lines are the content without its final newline, if it has one. *)
Lemma splitLines_join s :
  s = join_lf (splitLinesForCounting s) ++ (if ends_with_lf s then [LF] else []).
Proof.
  unfold splitLinesForCounting. destruct s as [|u s]; [done|].
  destruct (ends_with_lf (u :: s)) eqn:He.
  - unfold ends_with_lf in He. destruct (last (u :: s)) as [x|] eqn:Hl; [|done]. apply Z.eqb_eq in He as ->.
    apply last_Some in Hl as [s' Hs']. rewrite Hs', split_lf_snoc, removelast_last, join_split. done.
  - by rewrite join_split, app_nil_r.
Qed.

Lemma lines_valid s : valid_units s -> Forall valid_units (splitLinesForCounting s).
Proof.
  intros Hs. assert (Hsplit : Forall valid_units (split_lf s)).
  { induction Hs as [|u s Hu Hs IH]; simpl; [by repeat constructor|].
    destruct (u =? LF); [constructor; [constructor|done]|].
    pose proof (split_lf_nonempty s). destruct (split_lf s) as [|l ls]; [done|].
    apply Forall_cons in IH as [Hl IH]. constructor; [by constructor|done]. }
  unfold splitLinesForCounting. destruct s as [|u s]; [constructor|].
  destruct (ends_with_lf (u :: s)); [|done].
  pose proof (app_removelast_last [] (split_lf_nonempty (u :: s))) as Heq. rewrite Heq in Hsplit.
  by apply Forall_app in Hsplit as [? _].
Qed.
Lemma join_valid ls : Forall valid_units ls -> valid_units (join_lf ls).
Proof.
  induction 1 as [|l ls Hl Hls IH]; [constructor|]. destruct ls as [|k ls]; [done|].
  change (join_lf (l :: k :: ls)) with (l ++ LF :: join_lf (k :: ls)).
  apply Forall_app. split; [done|]. constructor; [unfold LF; lia|done].
Qed.

(** The byte length of joined lines grows by a line and its newline. *)
Lemma blen_join_snoc ls l : blen (join_lf (ls ++ [l])) = blen (join_lf ls) + blen l + (if 0 <? zlen ls then 1 else 0).
Proof.
  destruct ls as [|k ls].
  { change (blen (join_lf ([] ++ [l]))) with (blen l). change (blen (join_lf [])) with 0. simpl. lia. }
  rewrite join_snoc, blen_line by done. rewrite (proj2 (Z.ltb_lt 0 _)); [lia|].
  rewrite zlen_cons. pose proof (zlen_nonneg ls). lia.
Qed.
Lemma blen_join_cons l ls : blen (join_lf (l :: ls)) = blen l + blen (join_lf ls) + (if 0 <? zlen ls then 1 else 0).
Proof.
  destruct ls as [|k ls].
  { change (blen (join_lf [l])) with (blen l). change (blen (join_lf [])) with 0. simpl. lia. }
  change (join_lf (l :: k :: ls)) with (l ++ LF :: join_lf (k :: ls)). rewrite blen_line.
  rewrite (proj2 (Z.ltb_lt 0 _)); [lia|]. rewrite zlen_cons. pose proof (zlen_nonneg ls). lia.
Qed.
Lemma blen_join_prefix l1 l2 : blen (join_lf l1) <= blen (join_lf (l1 ++ l2)).
Proof.
  induction l2 as [|x l2 IH] using rev_ind; [by rewrite app_nil_r|].
  rewrite (assoc_L (++)), blen_join_snoc. pose proof (blen_nonneg x). destruct (_ <? _); lia.
Qed.
Lemma blen_join_suffix l1 l2 : blen (join_lf l2) <= blen (join_lf (l1 ++ l2)).
Proof.
  induction l1 as [|x l1 IH]; [done|]. simpl app. rewrite blen_join_cons.
  pose proof (blen_nonneg x). destruct (_ <? _); lia.
Qed.

Section loops.
Context (rb : option (jsstring -> Z)) (Hrb : buffer_ok rb) (maxLines maxBytes : Z).

Lemma head_loop_spec lines output :
  Forall valid_units lines -> zlen output <= Z.max 0 maxLines ->
  let '(out, bytes, by_) := head_loop rb lines maxLines maxBytes output (blen (join_lf output)) in
  exists taken rest, lines = taken ++ rest /\ out = output ++ taken /\ bytes = blen (join_lf out) /\
    zlen out <= Z.max 0 maxLines /\ (taken <> [] -> bytes <= maxBytes) /\
    match rest with
    | [] => by_ = ByLines
    | x :: _ => (maxLines <= zlen out /\ by_ = ByLines) \/
                (maxBytes < blen (join_lf (out ++ [x])) /\ by_ = ByBytes)
    end.
Proof.
  intros Hv. revert output. induction Hv as [|line lines Hl Hls IH]; intros output Hout; cbn [head_loop].
  { exists [], []. rewrite !app_nil_r. split_and!; first [done|by intros []]. }
  destruct (Z.ltb_spec (zlen output) maxLines) as [Hlt|Hge].
  2: { exists [], (line :: lines). rewrite app_nil_r. split_and!; try first [done|by intros []]. by left. }
  rewrite utf8ByteLength_blen by done.
  replace (blen (join_lf output) + (blen line + (if 0 <? zlen output then 1 else 0)))
    with (blen (join_lf (output ++ [line]))) by (rewrite blen_join_snoc; lia).
  destruct (Z.ltb_spec maxBytes (blen (join_lf (output ++ [line])))) as [Hbig|Hfits].
  { exists [], (line :: lines). rewrite app_nil_r. split_and!; try first [done|by intros []]. by right. }
  specialize (IH (output ++ [line])). rewrite zlen_app in IH. change (zlen [line]) with 1 in IH.
  specialize (IH ltac:(lia)).
  destruct (head_loop rb lines maxLines maxBytes _ _) as [[out bytes] by_].
  destruct IH as (taken & rest & -> & -> & Hbytes & Hz & Hb & Hrest).
  exists (line :: taken), rest. rewrite <-(assoc_L (++)) in *. split_and!; try done.
  intros _. destruct taken as [|t taken]; [rewrite Hbytes; done|by apply Hb].
Qed.

(** The lines the tail loop keeps, in the order of the content. *)
Lemma tail_loop_spec reversed output :
  Forall valid_units reversed -> zlen output <= Z.max 0 maxLines ->
  let '(out, bytes, by_, partial) := tail_loop rb reversed maxLines maxBytes output (blen (join_lf output)) in
  if partial then
    exists line rest, reversed = line :: rest /\ output = [] /\ 0 < maxLines /\ maxBytes < blen line /\
      out = [truncateStringToBytesFromEnd line maxBytes] /\ by_ = ByBytes
  else
    exists taken rest, reversed = taken ++ rest /\ out = reverse taken ++ output /\
      bytes = blen (join_lf out) /\ zlen out <= Z.max 0 maxLines /\ (taken <> [] -> bytes <= maxBytes) /\
      match rest with
      | [] => True
      | x :: _ => maxLines <= zlen out \/ maxBytes < blen (join_lf (x :: out))
      end.
Proof.
  intros Hv. revert output. induction Hv as [|line lines Hl Hls IH]; intros output Hout; cbn [tail_loop].
  { exists [], []. split_and!; first [done|by intros []]. }
  destruct (Z.ltb_spec (zlen output) maxLines) as [Hlt|Hge].
  2: { exists [], (line :: lines). split_and!; try first [done|by intros []]. by left. }
  rewrite utf8ByteLength_blen by done.
  replace (blen (join_lf output) + (blen line + (if 0 <? zlen output then 1 else 0)))
    with (blen (join_lf (line :: output))) by (rewrite blen_join_cons; lia).
  destruct (Z.ltb_spec maxBytes (blen (join_lf (line :: output)))) as [Hbig|Hfits].
  { destruct (Z.eqb_spec (zlen output) 0) as [Hz|Hnz].
    - assert (output = []) as -> by (destruct output; [done|]; rewrite zlen_cons in Hz; pose proof (zlen_nonneg output); lia).
      exists line, lines. by split_and!.
    - exists [], (line :: lines). split_and!; try first [done|by intros []]. by right. }
  specialize (IH (line :: output)). rewrite zlen_cons in IH. specialize (IH ltac:(lia)).
  destruct (tail_loop rb lines maxLines maxBytes _ _) as [[[out bytes] by_] []].
  { destruct IH as (? & ? & _ & [=] & _). }
  destruct IH as (taken & rest & -> & -> & Hbytes & Hz & Hb & Hrest).
  exists (line :: taken), rest. rewrite reverse_cons, <-(assoc_L (++)). split_and!; try done.
  intros _. destruct taken as [|t taken]; [rewrite Hbytes; done|by apply Hb].
Qed.
End loops.

(** ** The end of a line *)

Lemma replace_spec s : valid_units s -> replaceUnpairedSurrogates s = units (scalars s).
Proof.
  assert (Hgen : forall n s, (length s <= n)%nat -> valid_units s ->
    replaceUnpairedSurrogates s = units (scalars s)); [|by apply (Hgen (length s))].
  clear s. induction n as [|n IH]; intros [|a s] Hn Hs; try done; simpl in Hn; [lia|].
  apply Forall_cons in Hs as [Ha Hs]. pose proof (IH s ltac:(lia) Hs) as Hrec.
  rewrite scalars_cons. cbn [replaceUnpairedSurrogates].
  assert (Hcons : forall c, 0 <= c < 65536 -> units (c :: scalars s) = c :: units (scalars s)).
  { intros c Hc. unfold units. rewrite fmap_cons. unfold units_of at 1. by rewrite (proj2 (Z.ltb_lt _ _)) by lia. }
  destruct (is_high a) eqn:Hh.
  - destruct s as [|b s]; [done|]. destruct (is_low b) eqn:Hl; [|by rewrite Hcons, Hrec by lia].
    apply Forall_cons in Hs as [Hb Hs]. simpl in Hn. rewrite (IH s ltac:(lia) Hs).
    unfold is_high, is_low in Hh, Hl. apply andb_true_iff in Hh, Hl. rewrite !Z.leb_le in Hh, Hl.
    unfold units. rewrite fmap_cons. unfold units_of at 2. rewrite (proj2 (Z.ltb_ge _ _)) by lia.
    simpl. f_equal; [lia|]. f_equal. lia.
  - destruct (is_low a); by rewrite Hcons, Hrec by lia.
Qed.

(** A cut of a string at a code point boundary. *)
Record cut (str pre suf : jsstring) : Prop := {
  cut_app : str = pre ++ suf;
  cut_boundary : ends_high pre && starts_low suf = false }.
Lemma cut_scalars str pre suf : cut str pre suf -> scalars str = scalars pre ++ scalars suf.
Proof. intros [-> H]. by apply scalars_app. Qed.

(** The character before position [zlen pre], as the loop of
    [truncateStringToBytesFromEnd] determines it. *)
Lemma last_character pre :
  valid_units pre -> pre <> [] ->
  exists pre' ch c, pre = pre' ++ ch /\ ch <> [] /\ scalars ch = [c] /\
    ends_high pre' && starts_low ch = false /\
    forall suf, ends_high pre && starts_low suf = false ->
    match at_index (pre ++ suf) (zlen pre - 1) with
    | None => False
    | Some code =>
        (if is_low code && (0 <? zlen pre - 1) then
           match at_index (pre ++ suf) (zlen pre - 1 - 1) with
           | Some previous => if is_high previous then (zlen pre - 1 - 1, 4, false) else (zlen pre - 1, 3, true)
           | None => (zlen pre - 1, 3, true)
           end
         else if (55296 <=? code) && (code <=? 57343) then (zlen pre - 1, 3, true)
         else (zlen pre - 1, if code <=? 127 then 1 else if code <=? 2047 then 2 else 3, false))
        = (zlen pre', zlen (utf8_of c), negb (bool_decide (units [c] = ch)))
    end.
Proof.
  intros Hv Hne. destruct pre as [|code pre1 _] using rev_ind; [done|].
  apply Forall_app in Hv as [Hv1 Hcode]. rewrite Forall_singleton in Hcode.
  assert (Hz : zlen (pre1 ++ [code]) - 1 = zlen pre1) by (rewrite zlen_app; change (zlen [code]) with 1; lia).
  assert (Hat : forall suf, at_index ((pre1 ++ [code]) ++ suf) (zlen pre1) = Some code).
  { intros suf. unfold zlen. rewrite at_index_nat, <-(assoc_L (++)). by apply list_lookup_middle. }
  assert (Hone : zlen (utf8_of 65533) = 3) by done.
  (* an unpaired surrogate *)
  assert (Hlone : 55296 <= code <= 57343 -> scalars [code] = [65533] /\ units [65533] <> [code]).
  { intros Hr. split; [|intros [=]; lia]. rewrite scalars_cons. destruct (is_high code) eqn:Hh; [done|].
    replace (is_low code) with true; [done|]. unfold is_high, is_low in *. symmetry. bool_lia. }
  destruct (is_low code) eqn:Hlow.
  - assert (Hr : 55296 <= code <= 57343) by (unfold is_low in Hlow; apply andb_true_iff in Hlow; lia).
    assert (Hrb : (55296 <=? code) && (code <=? 57343) = true) by bool_lia.
    destruct (Hlone Hr) as [Hsc Hun].
    destruct pre1 as [|prev pre2 _] using rev_ind.
    + exists [], [code], 65533. split_and!; try done. intros suf _.
      rewrite Hz, Hat, Hlow. change (zlen (@nil Z)) with 0. cbn [andb Z.ltb Z.compare]. rewrite Hrb, bool_decide_false by done. done.
    + assert (Hz2 : zlen (pre2 ++ [prev]) - 1 = zlen pre2) by (rewrite zlen_app; change (zlen [prev]) with 1; lia).
      assert (Hpos : (0 <? zlen (pre2 ++ [prev])) = true) by (apply Z.ltb_lt; pose proof (zlen_nonneg pre2); lia).
      assert (Hat2 : forall suf, at_index (((pre2 ++ [prev]) ++ [code]) ++ suf) (zlen pre2) = Some prev).
      { intros suf. unfold zlen. rewrite at_index_nat, <-!(assoc_L (++)). by apply list_lookup_middle. }
      destruct (is_high prev) eqn:Hhigh.
      * exists pre2, [prev; code], (65536 + (prev - 55296) * 1024 + (code - 56320)).
        apply Forall_app in Hv1 as [_ Hprev]. rewrite Forall_singleton in Hprev.
        assert (Hu : units [65536 + (prev - 55296) * 1024 + (code - 56320)] = [prev; code]).
        { unfold is_high in Hhigh. unfold is_low in Hlow. apply andb_true_iff in Hhigh, Hlow.
          rewrite !Z.leb_le in Hhigh, Hlow. unfold units, units_of. simpl.
          rewrite (proj2 (Z.ltb_ge _ _)) by lia. simpl. f_equal; [lia|]. f_equal. lia. }
        split_and!; [by rewrite <-(assoc_L (++))|done|rewrite scalars_cons, Hhigh, Hlow; done| |].
        { simpl. rewrite (surrogate_disjoint prev Hhigh). apply andb_false_r. }
        intros suf _. rewrite Hz, Hat, Hlow, Hpos, Hz2, Hat2, Hhigh, bool_decide_true by done. simpl.
        rewrite utf8_of_length. unfold is_high in Hhigh. unfold is_low in Hlow.
        apply andb_true_iff in Hhigh, Hlow. rewrite !Z.leb_le in Hhigh, Hlow.
        rewrite (proj2 (Z.ltb_ge _ 128)), (proj2 (Z.ltb_ge _ 2048)), (proj2 (Z.ltb_ge _ 65536)) by lia. done.
      * exists (pre2 ++ [prev]), [code], 65533. split_and!; try done.
        { unfold ends_high. rewrite last_snoc. by rewrite Hhigh. }
        intros suf _. rewrite Hz, Hat, Hlow, Hpos, Hz2, Hat2, Hhigh, bool_decide_false by done. done.
  - destruct ((55296 <=? code) && (code <=? 57343)) eqn:Hrb.
    + assert (Hr : 55296 <= code <= 57343) by (apply andb_true_iff in Hrb; lia).
      destruct (Hlone Hr) as [Hsc Hun]. exists pre1, [code], 65533. split_and!; try done.
      { simpl. rewrite Hlow. apply andb_false_r. }
      intros suf _. rewrite Hz, Hat, Hlow, Hrb, bool_decide_false by done. done.
    + assert (Hh : is_high code = false).
      { unfold is_high. apply andb_false_iff in Hrb. bool_lia. }
      exists pre1, [code], code. split_and!; try done.
      { by rewrite scalars_cons, Hh, Hlow. }
      { simpl. rewrite Hlow. apply andb_false_r. }
      intros suf _. rewrite Hz, Hat, Hlow, Hrb. simpl. rewrite bool_decide_true.
      2: { unfold units, units_of. simpl. by rewrite (proj2 (Z.ltb_lt _ _)) by lia. }
      rewrite utf8_of_length. f_equal. f_equal.
      destruct (Z.leb_spec code 127); [by rewrite (proj2 (Z.ltb_lt code 128)) by lia|].
      rewrite (proj2 (Z.ltb_ge code 128)) by lia.
      destruct (Z.leb_spec code 2047); [by rewrite (proj2 (Z.ltb_lt code 2048)) by lia|].
      by rewrite (proj2 (Z.ltb_ge code 2048)), (proj2 (Z.ltb_lt code 65536)) by lia.
Qed.

Lemma units_app a b : units (a ++ b) = units a ++ units b.
Proof. unfold units. by rewrite fmap_app, concat_app. Qed.
Lemma ends_high_app a b : b <> [] -> ends_high (a ++ b) = ends_high b.
Proof.
  intros Hb. destruct b as [|x b _] using rev_ind; [done|]. unfold ends_high.
  by rewrite (assoc_L (++)), !last_snoc.
Qed.

Lemma from_end_loop_spec fuel str pre suf maxBytes needs :
  valid_units str -> cut str pre suf -> (length pre <= fuel)%nat -> blen suf <= maxBytes ->
  (needs = false -> units (scalars suf) = suf) ->
  let '(start, needs') := from_end_loop fuel str maxBytes (zlen pre) (blen suf) (zlen pre) needs in
  exists pre' suf', cut str pre' suf' /\ start = zlen pre' /\ blen suf' <= maxBytes /\
    (needs' = false -> units (scalars suf') = suf') /\
    (pre' = [] \/ exists cs c, scalars pre' = cs ++ [c] /\ maxBytes < zlen (utf8_of c) + blen suf').
Proof.
  intros Hv. revert pre suf needs. induction fuel as [|fuel IH]; intros pre suf needs Hcut Hf Hle Hneeds;
    cbn [from_end_loop].
  { exists pre, suf. split_and!; try done. left. by destruct pre; [|simpl in Hf; lia]. }
  destruct (decide (pre = [])) as [->|Hne].
  { exists [], suf. by split_and!; try done; left. }
  assert (Hpos : (0 <? zlen pre) = true).
  { apply Z.ltb_lt. destruct pre; [done|]. rewrite zlen_cons. pose proof (zlen_nonneg pre). lia. }
  rewrite Hpos. destruct Hcut as [Happ Hb]. rewrite Happ in Hv. apply Forall_app in Hv as [Hvp Hvs].
  destruct (last_character pre Hvp Hne) as (pre0 & ch & c & Hpre & Hch & Hsc & Hb0 & Hread).
  specialize (Hread suf Hb). rewrite <-Happ in Hread. destruct (at_index str (zlen pre - 1)) as [code|]; [|done].
  rewrite Hread.
  assert (Hbch : ends_high ch && starts_low suf = false) by (rewrite Hpre, ends_high_app in Hb; done).
  assert (Hnew : blen (ch ++ suf) = blen suf + zlen (utf8_of c)).
  { rewrite blen_app by done. unfold blen at 1, text_encode. rewrite Hsc. unfold utf8. simpl.
    rewrite app_nil_r. lia. }
  destruct (Z.ltb_spec maxBytes (blen suf + zlen (utf8_of c))) as [Hbig|Hfits].
  - exists pre, suf. split_and!; try done. right. exists (scalars pre0), c. split; [|lia].
    rewrite Hpre, scalars_app by done. by rewrite Hsc.
  - rewrite <-Hnew in *. apply IH.
    + constructor; [by rewrite Happ, Hpre, <-(assoc_L (++))|]. destruct ch; [done|]. exact Hb0.
    + rewrite Hpre, length_app in Hf. destruct ch; [done|]. simpl in Hf. lia.
    + done.
    + intros [Hn Hu]%orb_false_iff. apply negb_false_iff, bool_decide_eq_true in Hu.
      rewrite scalars_app, units_app, Hsc, Hu by done. by rewrite Hneeds.
Qed.

Lemma blen_units cs : Forall (fun c => is_scalar c = true) cs -> blen (units cs) = zlen (utf8 cs).
Proof. intros Hcs. unfold blen, text_encode. by rewrite scalars_units. Qed.
Lemma utf8_suffix a b : zlen (utf8 b) <= zlen (utf8 (a ++ b)).
Proof. unfold utf8. rewrite fmap_app, concat_app, zlen_app. pose proof (zlen_nonneg (concat (utf8_of <$> a))). lia. Qed.

(** The longest end of the string that starts at a code point and fits. *)
Lemma truncateString_spec s maxBytes :
  valid_units s -> 0 <= maxBytes ->
  exists k, truncateStringToBytesFromEnd s maxBytes = units (drop k (scalars s)) /\
    blen (units (drop k (scalars s))) <= maxBytes /\
    forall j, (j < k)%nat -> (k <= length (scalars s))%nat /\ maxBytes < zlen (utf8 (drop j (scalars s))).
Proof.
  intros Hv Hm. pose proof (scalars_valid s Hv) as Hcs. unfold truncateStringToBytesFromEnd.
  destruct (Z.leb_spec maxBytes 0).
  { assert (maxBytes = 0) as -> by lia. exists (length (scalars s)). rewrite drop_all.
    split_and!; [done|done|]. intros j Hj. split; [done|].
    destruct (lookup_lt_is_Some_2 _ _ Hj) as [c Hc]. rewrite (drop_S _ _ _ Hc), utf8_cons, utf8_of_length.
    pose proof (zlen_nonneg (utf8 (drop (S j) (scalars s)))). repeat case_match; lia. }
  pose proof (from_end_loop_spec (length s) s s [] maxBytes false Hv) as Hloop.
  change (blen []) with 0 in Hloop.
  specialize (Hloop ltac:(constructor; [by rewrite app_nil_r|apply andb_false_r]) ltac:(lia) ltac:(lia) ltac:(done)).
  destruct (from_end_loop _ _ _ _ _ _ _) as [start needs].
  destruct Hloop as (pre & suf & Hcut & -> & Hle & Hneeds & Hmax).
  pose proof (cut_scalars _ _ _ Hcut) as Hsc. destruct Hcut as [Happ Hb].
  assert (Hdrop : drop (length (scalars pre)) (scalars s) = scalars suf) by (rewrite Hsc; apply drop_app_length).
  assert (Hout : drop (Z.to_nat (zlen pre)) s = suf).
  { rewrite Happ. unfold zlen. rewrite Nat2Z.id. apply drop_app_length. }
  assert (Hvsuf : valid_units suf) by (rewrite Happ in Hv; by apply Forall_app in Hv as [_ ?]).
  exists (length (scalars pre)). rewrite Hdrop, Hout. split_and!.
  - destruct needs; [by apply replace_spec|by rewrite Hneeds].
  - rewrite blen_units; [exact Hle|by apply scalars_valid].
  - intros j Hj. rewrite Hsc, length_app. split; [lia|]. destruct Hmax as [->|(cs & c & Hpre & Hbig)].
    { simpl in Hj. lia. }
    rewrite Hpre in *. rewrite length_app in Hj. simpl in Hj. rewrite drop_app_le by (rewrite length_app; simpl; lia).
    rewrite drop_app_le by lia. rewrite <-(assoc_L (++)).
    eapply Z.lt_le_trans; [|apply utf8_suffix]. simpl app. rewrite utf8_cons, <-blen_scalars. lia.
Qed.

(** ** Properties *)

(** Head truncation returns the content unchanged exactly when it is within
    both limits, and otherwise the longest prefix of complete lines within both:
    the reported counts are those of the result, every longer prefix exceeds a
    limit, and the first-line flag says that not even one line fits. *)
Theorem truncateHead_spec rb content options maxLines maxBytes :
  buffer_ok rb -> valid_units content ->
  maxLines = default DEFAULT_MAX_LINES (to_maxLines options) ->
  maxBytes = default DEFAULT_MAX_BYTES (to_maxBytes options) ->
  0 <= maxLines -> 0 <= maxBytes ->
  let lines := splitLinesForCounting content in
  exists r, truncateHead rb content options = Ok r /\
    tr_totalLines r = zlen lines /\ tr_totalBytes r = blen content /\
    (tr_truncated r = false -> tr_content r = content /\ zlen lines <= maxLines /\ blen content <= maxBytes) /\
    (tr_truncated r = true ->
      (maxLines < zlen lines \/ maxBytes < blen content) /\
      exists k, (k <= length lines)%nat /\ tr_content r = join_lf (take k lines) /\
        tr_outputLines r = Z.of_nat k /\ tr_outputBytes r = blen (tr_content r) /\
        Z.of_nat k <= maxLines /\ blen (tr_content r) <= maxBytes /\
        (forall j, (k < j <= length lines)%nat -> maxLines < Z.of_nat j \/ maxBytes < blen (join_lf (take j lines))) /\
        (tr_firstLineExceedsLimit r = true -> k = 0%nat /\ forall l, head lines = Some l -> maxBytes < blen l)).
Proof.
  intros Hrb Hv Hml Hmb HL HB lines. pose proof (lines_valid content Hv) as Hlv. fold lines in Hlv.
  unfold truncateHead. rewrite <-Hml, <-Hmb, (utf8ByteLength_blen rb content) by done. fold lines.
  destruct (_ && _) eqn:Hfit.
  { apply andb_true_iff in Hfit as [H1%Z.leb_le H2%Z.leb_le]. by eexists. }
  assert (Hover : maxLines < zlen lines \/ maxBytes < blen content)
    by (apply andb_false_iff in Hfit as [?%Z.leb_gt|?%Z.leb_gt]; [by left|by right]).
  destruct lines as [|firstLine rest] eqn:Hlines.
  { exfalso. assert (content = []) as ->; [|destruct Hover as [Ho|Ho]; [rewrite zlen_nil in Ho|change (blen []) with 0 in Ho]; lia].
    unfold lines, splitLinesForCounting in Hlines. destruct content as [|u c]; [done|].
    destruct (ends_with_lf (u :: c)) eqn:He; [|by destruct (split_lf_nonempty (u :: c))].
    unfold ends_with_lf in He. destruct (last (u :: c)) as [x|] eqn:Hl; [|done]. apply Z.eqb_eq in He as ->.
    apply last_Some in Hl as [s' Hs']. rewrite Hs', split_lf_snoc, removelast_last in Hlines.
    by destruct (split_lf_nonempty s'). }
  pose proof Hlv as [Hvf _]%Forall_cons. rewrite (utf8ByteLength_blen rb firstLine) by done.
  destruct (Z.ltb_spec maxBytes (blen firstLine)) as [Hfirst|Hfirst].
  { eexists. split; [done|]. simpl. split_and!; try done. intros _. split; [done|]. exists 0%nat.
    split_and!; try done; try lia.
    - intros j Hj. right. destruct j as [|j]; [lia|]. eapply Z.lt_le_trans; [exact Hfirst|].
      apply (blen_join_prefix [firstLine] (take j rest)).
    - intros _. split; [done|]. by intros l [= <-]. }
  pose proof (head_loop_spec rb Hrb maxLines maxBytes (firstLine :: rest) [] Hlv) as Hloop.
  change (blen (join_lf [])) with 0 in Hloop. specialize (Hloop ltac:(rewrite zlen_nil; lia)).
  destruct (head_loop _ _ _ _ _ _) as [[out bytes] by_].
  destruct Hloop as (taken & left & Hsplit & -> & -> & Hz & Hb & Hleft). cbn [app] in *.
  eexists. split; [done|]. simpl tr_truncated. split_and!; try done. intros _. split; [done|].
  exists (length taken). rewrite Hsplit, take_app_length, length_app. simpl.
  assert (Hvt : valid_units (join_lf taken)).
  { apply join_valid. rewrite Hsplit in Hlv. by apply Forall_app in Hlv as [? _]. }
  split_and!; try done; try (unfold zlen in Hz; lia); [by apply utf8ByteLength_blen| |].
  - destruct taken as [|t taken]; [change (blen (join_lf [])) with 0; lia|by apply Hb].
  - intros j Hj. destruct left as [|x left]; [simpl in Hj; lia|]. destruct Hleft as [[Hge _]|[Hbig _]].
    + left. unfold zlen in Hge. lia.
    + right. eapply Z.lt_le_trans; [exact Hbig|]. rewrite take_app_ge by lia.
      replace (j - length taken)%nat with (S (j - length taken - 1)) by lia. simpl.
      match goal with |- _ <= blen (join_lf (taken ++ x :: ?l)) => rewrite (app_cons_snoc taken x l) end.
      apply blen_join_prefix.
Qed.

(** Tail truncation keeps the end: the longest suffix of complete lines within
    both limits, or, when not even the last line fits, the longest end of it that
    starts at a code point, unpaired surrogates replaced; the result always fits
    the byte limit. *)
Theorem truncateTail_spec rb content options maxLines maxBytes :
  buffer_ok rb -> valid_units content ->
  maxLines = default DEFAULT_MAX_LINES (to_maxLines options) ->
  maxBytes = default DEFAULT_MAX_BYTES (to_maxBytes options) ->
  0 <= maxLines -> 0 <= maxBytes ->
  let lines := splitLinesForCounting content in
  let r := truncateTail rb content options in
  (tr_truncated r = false -> tr_content r = content /\ zlen lines <= maxLines /\ blen content <= maxBytes) /\
  (tr_truncated r = true ->
    tr_outputBytes r = blen (tr_content r) /\ blen (tr_content r) <= maxBytes /\
    if tr_lastLinePartial r then
      exists init l k, lines = init ++ [l] /\ maxBytes < blen l /\ tr_outputLines r = 1 /\
        tr_content r = units (drop k (scalars l)) /\
        forall j, (j < k)%nat -> maxBytes < zlen (utf8 (drop j (scalars l)))
    else
      exists init kept, lines = init ++ kept /\ tr_content r = join_lf kept /\
        tr_outputLines r = zlen kept /\ zlen kept <= maxLines /\
        (forall init' x, init = init' ++ [x] -> maxLines <= zlen kept \/ maxBytes < blen (join_lf (x :: kept)))).
Proof.
  intros Hrb Hv Hml Hmb HL HB lines r. pose proof (lines_valid content Hv) as Hlv. fold lines in Hlv.
  unfold r, truncateTail. rewrite <-Hml, <-Hmb, (utf8ByteLength_blen rb content) by done. fold lines.
  destruct (_ && _) eqn:Hfit.
  { apply andb_true_iff in Hfit as [H1%Z.leb_le H2%Z.leb_le]. by split. }
  assert (Hrv : Forall valid_units (reverse lines)) by (by rewrite reverse_Permutation).
  pose proof (tail_loop_spec rb Hrb maxLines maxBytes (reverse lines) [] Hrv) as Hloop.
  change (blen (join_lf [])) with 0 in Hloop. specialize (Hloop ltac:(rewrite zlen_nil; lia)).
  destruct (tail_loop _ _ _ _ _ _) as [[[out bytes] by_] []]; (split; [done|]); intros _; simpl.
  - destruct Hloop as (l & rest & Hrev & _ & _ & Hbig & -> & _).
    rewrite Hrev in Hrv. apply Forall_cons in Hrv as [Hvl _].
    destruct (truncateString_spec l maxBytes Hvl HB) as (k & -> & Hle & Hmax). simpl.
    assert (Hvu : valid_units (units (drop k (scalars l))))
      by (apply units_range, Forall_drop; by apply scalars_valid).
    split_and!; [by apply utf8ByteLength_blen|done|]. exists (reverse rest), l, k.
    split_and!; [|done|done|done|intros j Hj; by apply Hmax].
    rewrite <-reverse_cons, <-Hrev. by rewrite reverse_involutive.
  - destruct Hloop as (taken & rest & Hrev & Hout & -> & Hz & Hb & Hrest). rewrite app_nil_r in Hout.
    assert (Hlines : lines = reverse rest ++ out).
    { rewrite <-(reverse_involutive lines), Hrev, reverse_app, Hout. done. }
    assert (Hvo : valid_units (join_lf out)).
    { apply join_valid. rewrite Hlines in Hlv. by apply Forall_app in Hlv as [_ ?]. }
    split_and!; [by apply utf8ByteLength_blen| |].
    { destruct taken as [|t taken]; [rewrite Hout; change (blen (join_lf (reverse []))) with 0; lia|by apply Hb]. }
    exists (reverse rest), out. split_and!; [done|done|done|lia|]. intros init' x Hx.
    destruct rest as [|y rest]; [by destruct init'|].
    rewrite reverse_cons in Hx. by apply app_inj_tail in Hx as [_ <-].
Qed.

(** The fallback byte count of runtimes without Buffer is the length of the
    UTF-8 encoding, unpaired surrogates included. *)
Lemma utf8ByteLength_fallback content :
  valid_units content -> utf8ByteLength None content = zlen (text_encode content).
Proof. by apply utf8ByteLength_blen. Qed.

(** A content that only exceeds the byte limit by its final newline is reported as
    truncated by the line limit. *)
Lemma truncateHead_final_newline :
  truncateHead None [97; 98; 10] {| to_maxLines := None; to_maxBytes := Some 2 |} =
  Ok {| tr_content := [97; 98]; tr_truncated := true; tr_truncatedBy := Some ByLines;
        tr_totalLines := 1; tr_totalBytes := 3; tr_outputLines := 1; tr_outputBytes := 2;
        tr_lastLinePartial := false; tr_firstLineExceedsLimit := false; tr_maxLines := 2000;
        tr_maxBytes := 2 |}.
Proof. by vm_compute. Qed.

Definition sample_text : jsstring := [97; 10; 233; 55357; 56832; 10].
Lemma sample_text_valid : valid_units sample_text.
Proof. repeat constructor; lia. Qed.
Lemma no_buffer_ok : buffer_ok None.
Proof. by intros f. Qed.

Lemma truncateHead_spec_witness :
  let lines := splitLinesForCounting sample_text in
  exists r, truncateHead None sample_text {| to_maxLines := Some 1; to_maxBytes := None |} = Ok r /\
    tr_totalLines r = zlen lines /\ tr_totalBytes r = blen sample_text /\
    (tr_truncated r = false -> tr_content r = sample_text /\ zlen lines <= 1 /\ blen sample_text <= 51200) /\
    (tr_truncated r = true ->
      (1 < zlen lines \/ 51200 < blen sample_text) /\
      exists k, (k <= length lines)%nat /\ tr_content r = join_lf (take k lines) /\
        tr_outputLines r = Z.of_nat k /\ tr_outputBytes r = blen (tr_content r) /\
        Z.of_nat k <= 1 /\ blen (tr_content r) <= 51200 /\
        (forall j, (k < j <= length lines)%nat -> 1 < Z.of_nat j \/ 51200 < blen (join_lf (take j lines))) /\
        (tr_firstLineExceedsLimit r = true -> k = 0%nat /\ forall l, head lines = Some l -> 51200 < blen l)).
Proof.
  apply (truncateHead_spec None sample_text {| to_maxLines := Some 1; to_maxBytes := None |} 1 51200);
    [exact no_buffer_ok|exact sample_text_valid|reflexivity|reflexivity|lia|lia].
Defined.

Lemma truncateTail_spec_witness :
  let lines := splitLinesForCounting sample_text in
  let r := truncateTail None sample_text {| to_maxLines := None; to_maxBytes := Some 4 |} in
  (tr_truncated r = false -> tr_content r = sample_text /\ zlen lines <= 2000 /\ blen sample_text <= 4) /\
  (tr_truncated r = true ->
    tr_outputBytes r = blen (tr_content r) /\ blen (tr_content r) <= 4 /\
    if tr_lastLinePartial r then
      exists init l k, lines = init ++ [l] /\ 4 < blen l /\ tr_outputLines r = 1 /\
        tr_content r = units (drop k (scalars l)) /\
        forall j, (j < k)%nat -> 4 < zlen (utf8 (drop j (scalars l)))
    else
      exists init kept, lines = init ++ kept /\ tr_content r = join_lf kept /\
        tr_outputLines r = zlen kept /\ zlen kept <= 2000 /\
        (forall init' x, init = init' ++ [x] -> 2000 <= zlen kept \/ 4 < blen (join_lf (x :: kept)))).
Proof.
  apply (truncateTail_spec None sample_text {| to_maxLines := None; to_maxBytes := Some 4 |} 2000 4);
    [exact no_buffer_ok|exact sample_text_valid|reflexivity|reflexivity|lia|lia].
Defined.
