(* ===== verification/Subagent.v ===== *)
(** * Token budgets and task ordering of sub-agent runs
    (packages/subagent/src/budget.ts, packages/subagent/src/dag-scheduler.ts)

    Token counts are integers.  [Math.floor(a / b)] and [Math.ceil(a / 10)] of safe
    integers are the integer quotients: the rounding error of the binary64 division
    is smaller than the distance to the next integer. *)
From S2P Require Import Prelude JsNumber.

(** ** Budgets *)

Record SubagentBudget := { maxTokens : Z }.
Record BudgetUsage := { bu_turns : Z; bu_totalTokens : Z }.

Definition remainingBudget (budget : SubagentBudget) (used : BudgetUsage) : SubagentBudget :=
  {| maxTokens := Z.max 0 (maxTokens budget - bu_totalTokens used) |}.

(** [Math.ceil(n / 10)] *)
Definition ceil_tenth (n : Z) : Z := - (- n / 10).

Definition remainingSoftTokenLimit (budget : SubagentBudget) (used : BudgetUsage) : option Z :=
  let threshold := maxTokens budget - ceil_tenth (maxTokens budget) in
  if threshold <=? bu_totalTokens used then None else Some (threshold - bu_totalTokens used).

(** The count of claims and the remaining tokens are checked, so they are numbers. *)
Definition safe_count (n : number) : option Z :=
  if num_is_safe_integer n then
    z ← num_to_Z n; if z <? 0 then None else Some z
  else None.

Definition allocateConcurrentBudgets (remaining claimCount : number) : result string (list SubagentBudget) :=
  match safe_count remaining with
  | None => Err "remaining maxTokens must be a non-negative safe integer"
  | Some tokens =>
      match safe_count claimCount with
      | None => Err "claimCount must be a non-negative safe integer"
      | Some count =>
          if count =? 0 then Ok [] else
          let tokensPerClaim := tokens / count in
          let claimsWithExtraToken := tokens - tokensPerClaim * count in
          Ok ((fun index => {| maxTokens := tokensPerClaim +
                  (if Z.of_nat index <? claimsWithExtraToken then 1 else 0) |})
              <$> seq 0 (Z.to_nat count))
      end
  end.

Definition budgetExhausted (budget : SubagentBudget) : bool := maxTokens budget <? 1.

(** ** Task order *)

Record DagTaskContract := { task_id : string; dependsOn : list string }.

Inductive dag_error := CycleOrUnknown | UnknownDependency (task dependency : string).

Definition ready (completed : list string) (task : DagTaskContract) : bool :=
  negb (bool_decide (task_id task ∈ completed)) &&
  forallb (fun d => bool_decide (d ∈ completed)) (dependsOn task).

(** [tasks.find(p)] *)
Fixpoint find_task (p : DagTaskContract -> bool) (tasks : list DagTaskContract) : option DagTaskContract :=
  match tasks with
  | [] => None
  | t :: tasks' => if p t then Some t else find_task p tasks'
  end.

(** The loop; [completed] is the set of the ids of [ordered].  A round adds a task,
    so as many rounds as there are tasks are left. *)
Fixpoint topo_loop (rounds : nat) (tasks : list DagTaskContract) (byId : gset string)
    (completed : list string) (ordered : list DagTaskContract) : result dag_error (list DagTaskContract) :=
  match rounds with
  | O => Ok ordered
  | S rounds' =>
      match find_task (ready completed) tasks with
      | None => Err CycleOrUnknown
      | Some next =>
          match list_find (fun d => d ∉ byId) (dependsOn next) with
          | Some (_, d) => Err (UnknownDependency (task_id next) d)
          | None => topo_loop rounds' tasks byId (completed ++ [task_id next]) (ordered ++ [next])
          end
      end
  end.

Definition stableTopologicalTasks (tasks : list DagTaskContract) : result dag_error (list DagTaskContract) :=
  topo_loop (length tasks) tasks (list_to_set (task_id <$> tasks)) [] [].

(** ** Progress *)

Inductive DagTaskStatus := TPending | TRunning | TSucceeded | TFailed | TCancelled | TBlocked.
#[export] Instance DagTaskStatus_eq_dec : EqDecision DagTaskStatus.
Proof. solve_decision. Defined.

Record DagProgressCounts := {
  pc_total : Z; pc_completed : Z; pc_pending : Z; pc_running : Z; pc_succeeded : Z;
  pc_failed : Z; pc_cancelled : Z; pc_blocked : Z }.

Definition count_status (status : DagTaskStatus) (tasks : list DagTaskStatus) : Z :=
  zlen (keep (fun s => bool_decide (s = status)) tasks).

Definition progressCounts (tasks : list DagTaskStatus) : DagProgressCounts :=
  {| pc_total := zlen tasks;
     pc_pending := count_status TPending tasks;
     pc_running := count_status TRunning tasks;
     pc_succeeded := count_status TSucceeded tasks;
     pc_failed := count_status TFailed tasks;
     pc_cancelled := count_status TCancelled tasks;
     pc_blocked := count_status TBlocked tasks;
     pc_completed := zlen (keep (fun s => negb (bool_decide (s ∈ [TPending; TRunning]))) tasks) |}.

(** ** Theorems *)

#[local] Ltac Zify.zify_post_hook ::= Z.to_euclidean_division_equations.

Lemma progressCounts_partition tasks :
  let c := progressCounts tasks in
  pc_total c = pc_pending c + pc_running c + pc_completed c /\
  pc_completed c = pc_succeeded c + pc_failed c + pc_cancelled c + pc_blocked c.
Proof.
  unfold progressCounts, count_status. simpl. induction tasks as [|t tasks [IH1 IH2]]; [done|].
  destruct t; simpl; rewrite ?zlen_cons; lia.
Qed.

Definition total (l : list SubagentBudget) : Z := foldr (fun b a => maxTokens b + a) 0 l.

Lemma total_app l k : total (l ++ k) = total l + total k.
Proof. unfold total. induction l as [|b l IH]; simpl; lia. Qed.

(** Partitioning a budget among concurrent claims loses and invents no token:
    every claim gets the quotient or one token more, earlier claims first, and the
    shares add up to what remained. *)
Theorem allocate_partition remaining claimCount budgets :
  allocateConcurrentBudgets remaining claimCount = Ok budgets ->
  exists tokens count, safe_count remaining = Some tokens /\ safe_count claimCount = Some count /\
    zlen budgets = count /\ (count <> 0 -> total budgets = tokens) /\
    forall i j bi bj, budgets !! i = Some bi -> budgets !! j = Some bj -> (i <= j)%nat ->
      maxTokens bj <= maxTokens bi <= maxTokens bj + 1.
Proof.
  unfold allocateConcurrentBudgets. destruct (safe_count remaining) as [tokens|] eqn:Ht; [|done].
  destruct (safe_count claimCount) as [count|] eqn:Hc; [|done].
  assert (Hpos : 0 <= tokens /\ 0 <= count).
  { unfold safe_count in *. destruct (num_is_safe_integer remaining), (num_is_safe_integer claimCount); try done.
    destruct (num_to_Z remaining) as [z1|], (num_to_Z claimCount) as [z2|]; try done. simpl in *.
    destruct (Z.ltb_spec z1 0), (Z.ltb_spec z2 0); simplify_eq. lia. }
  destruct (Z.eqb_spec count 0) as [->|Hnz]; intros [= <-]; exists tokens; eexists; split_and!; try done.
  { unfold zlen. rewrite length_fmap, length_seq. lia. }
  - intros _. set (q := tokens / count). set (e := tokens - q * count).
    assert (Hq : 0 <= e < count) by (unfold e, q; pose proof (Z.div_mod tokens count Hnz); pose proof (Z.mod_pos_bound tokens count ltac:(lia)); lia).
    assert (Hsum : forall n, total ((fun index => {| maxTokens := q + (if Z.of_nat index <? e then 1 else 0) |}) <$> seq 0 n)
      = q * Z.of_nat n + Z.min e (Z.of_nat n)).
    { induction n as [|n IH]; [simpl; lia|]. rewrite seq_S, fmap_app, total_app, IH. simpl.
      destruct (Z.ltb_spec (Z.of_nat n) e); lia. }
    rewrite Hsum, Z2Nat.id, Z.min_l by lia. unfold e. lia.
  - intros i j bi bj Hi Hj Hij. rewrite list_lookup_fmap in Hi, Hj.
    apply fmap_Some in Hi as (x & [-> _]%lookup_seq & ->). apply fmap_Some in Hj as (y & [-> _]%lookup_seq & ->).
    simpl. destruct (Z.ltb_spec (Z.of_nat i) (tokens - tokens / count * count)),
      (Z.ltb_spec (Z.of_nat j) (tokens - tokens / count * count)); lia.
Qed.
Lemma allocate_partition_witness :
  exists tokens count, safe_count (num_of_Z 10) = Some tokens /\ safe_count (num_of_Z 3) = Some count /\
    zlen [{| maxTokens := 4 |}; {| maxTokens := 3 |}; {| maxTokens := 3 |}] = count /\
    (count <> 0 -> total [{| maxTokens := 4 |}; {| maxTokens := 3 |}; {| maxTokens := 3 |}] = tokens) /\
    forall i j bi bj, [{| maxTokens := 4 |}; {| maxTokens := 3 |}; {| maxTokens := 3 |}] !! i = Some bi ->
      [{| maxTokens := 4 |}; {| maxTokens := 3 |}; {| maxTokens := 3 |}] !! j = Some bj -> (i <= j)%nat ->
      maxTokens bj <= maxTokens bi <= maxTokens bj + 1.
Proof. apply allocate_partition. vm_compute. reflexivity. Defined.

(** ** Topological order *)

Lemma find_task_Some p tasks t :
  find_task p tasks = Some t -> exists pre post, tasks = pre ++ t :: post /\ p t = true /\
    forall x, x ∈ pre -> p x = false.
Proof.
  induction tasks as [|x tasks IH]; simpl; [done|]. destruct (p x) eqn:Hp.
  - intros [= ->]. exists [], tasks. split_and!; [done|done|by intros y ?%not_elem_of_nil].
  - intros (pre & post & -> & Ht & Hpre)%IH. exists (x :: pre), post. split_and!; [done|done|].
    intros y [->|Hy]%elem_of_cons; auto.
Qed.
Lemma find_task_None p tasks : find_task p tasks = None -> forall x, x ∈ tasks -> p x = false.
Proof.
  induction tasks as [|x tasks IH]; simpl; [by intros _ x ?%not_elem_of_nil|].
  destruct (p x) eqn:Hp; [done|]. intros Hn y [->|Hy]%elem_of_cons; auto.
Qed.

Lemma ready_spec completed t :
  ready completed t = true <-> (task_id t ∉ completed) /\ forall d, d ∈ dependsOn t -> d ∈ completed.
Proof.
  unfold ready. rewrite andb_true_iff, negb_true_iff, bool_decide_eq_false, forallb_forall. split.
  - intros [H1 H2]. split; [done|]. intros d Hd. apply list_elem_of_In, H2 in Hd. by apply bool_decide_eq_true in Hd.
  - intros [H1 H2]. split; [done|]. intros d Hd%list_elem_of_In. by apply bool_decide_eq_true, H2.
Qed.

(** An order in which every task comes after its dependencies and no id repeats. *)
Definition valid_order (ordered : list DagTaskContract) : Prop :=
  NoDup (task_id <$> ordered) /\
  forall pre t post, ordered = pre ++ t :: post -> forall d, d ∈ dependsOn t -> d ∈ task_id <$> pre.

Lemma valid_order_snoc ordered t :
  valid_order ordered -> ready (task_id <$> ordered) t = true -> valid_order (ordered ++ [t]).
Proof.
  intros [Hnd Hdeps] [Hni Hd]%ready_spec. split.
  - rewrite fmap_app. apply NoDup_app. split_and!; [done| |apply NoDup_singleton].
    intros i Hi ->%list_elem_of_singleton. done.
  - intros pre x post Heq d Hin. destruct post as [|y post _] using rev_ind.
    + apply app_inj_tail in Heq as [<- <-]. by apply Hd.
    + rewrite app_comm_cons, (assoc_L (++)) in Heq. apply app_inj_tail in Heq as [Heq _]. by eapply Hdeps.
Qed.

(** The loop's invariant: an order of distinct tasks of the request, all of whose
    dependencies are known. *)
Lemma topo_loop_sound rounds tasks byId ordered result :
  valid_order ordered -> (forall t, t ∈ ordered -> t ∈ tasks) ->
  topo_loop rounds tasks byId (task_id <$> ordered) ordered = Ok result ->
  valid_order result /\ (forall t, t ∈ result -> t ∈ tasks) /\ length result = (rounds + length ordered)%nat.
Proof.
  revert ordered. induction rounds as [|rounds IH]; intros ordered Hv Hsub; cbn [topo_loop].
  { intros [= <-]. by split_and!. }
  destruct (find_task _ tasks) as [next|] eqn:Hf; [|done].
  destruct (list_find _ (dependsOn next)) as [[]|]; [done|]. intros H.
  apply find_task_Some in Hf as (pre & post & Htasks & Hr & _).
  change [task_id next] with (task_id <$> [next]) in H. rewrite <-fmap_app in H. apply IH in H.
  - destruct H as (H1 & H2 & H3). split_and!; [done|done|]. rewrite H3, length_app. simpl. lia.
  - by apply valid_order_snoc.
  - intros t [Ht| ->%list_elem_of_singleton]%elem_of_app; [by apply Hsub|]. rewrite Htasks.
    apply elem_of_app. right. by left.
Qed.

(** While a valid order of all tasks exists, the first of it that is not done yet
    is ready. *)
Lemma some_task_ready tasks reference completed :
  valid_order reference -> reference ≡ₚ tasks -> (exists t, t ∈ tasks /\ task_id t ∉ completed) ->
  exists t, t ∈ tasks /\ ready completed t = true.
Proof.
  intros [Hnd Hdeps] Hperm (t0 & Ht0 & Hni).
  assert (Hgen : forall pre post, reference = pre ++ post -> (forall x, x ∈ task_id <$> pre -> x ∈ completed) ->
    (exists t, t ∈ post /\ task_id t ∉ completed) -> exists t, t ∈ tasks /\ ready completed t = true).
  { intros pre post. revert pre. induction post as [|x post IH]; intros pre Heq Hpre (t & Ht & Hn);
      [by apply not_elem_of_nil in Ht|].
    destruct (decide (task_id x ∈ completed)) as [Hx|Hx].
    - apply (IH (pre ++ [x])); [by rewrite <-(assoc_L (++))| |].
      + intros y. rewrite fmap_app, elem_of_app. intros [Hy|Hy]; [by apply Hpre|].
        apply list_elem_of_singleton in Hy as ->. done.
      + exists t. apply elem_of_cons in Ht as [->|Ht]; done.
    - exists x. split; [rewrite <-Hperm, Heq; apply elem_of_app; right; by left|].
      apply ready_spec. split; [done|]. intros d Hd. apply Hpre. by eapply Hdeps. }
  apply (Hgen [] reference); [done|by intros x ?%not_elem_of_nil|]. exists t0. by rewrite Hperm.
Qed.

Lemma topo_loop_complete rounds tasks reference byId ordered :
  valid_order reference -> reference ≡ₚ tasks -> byId = list_to_set (task_id <$> tasks) ->
  valid_order ordered -> (forall t, t ∈ ordered -> t ∈ tasks) ->
  length tasks = (rounds + length ordered)%nat ->
  exists result, topo_loop rounds tasks byId (task_id <$> ordered) ordered = Ok result.
Proof.
  intros Href Hperm ->. revert ordered. induction rounds as [|rounds IH]; intros ordered Hv Hsub Hlen; cbn [topo_loop].
  { by eexists. }
  destruct (find_task _ tasks) as [next|] eqn:Hf.
  - apply find_task_Some in Hf as (pre & post & Htasks & Hr & _).
    destruct (list_find _ (dependsOn next)) as [[i d]|] eqn:Hd.
    { apply list_find_Some in Hd as (Hi & Hd & _). destruct Hd. rewrite elem_of_list_to_set.
      apply ready_spec in Hr as [_ Hr]. apply list_elem_of_lookup_2, Hr in Hi.
      apply list_elem_of_fmap in Hi as (t & -> & Ht). apply list_elem_of_fmap_2. by apply Hsub. }
    change [task_id next] with (task_id <$> [next]). rewrite <-fmap_app. apply IH.
    + by apply valid_order_snoc.
    + intros t [Ht| ->%list_elem_of_singleton]%elem_of_app; [by apply Hsub|]. rewrite Htasks.
      apply elem_of_app. right. by left.
    + rewrite length_app. simpl. lia.
  - exfalso. destruct (some_task_ready tasks reference (task_id <$> ordered)) as (t & Ht & Hr); [done|done| |].
    + destruct Href as [Hnd _]. rewrite Hperm in Hnd.
      destruct (decide (Forall (fun t => task_id t ∈ task_id <$> ordered) tasks)) as [Hall|Hex].
      * exfalso. assert (Hle : (length (task_id <$> tasks) <= length (task_id <$> ordered))%nat).
        { apply submseteq_length, NoDup_submseteq; [done|]. intros x (t & -> & Ht)%list_elem_of_fmap.
          rewrite Forall_forall in Hall. by apply Hall. }
        rewrite !length_fmap in Hle. lia.
      * apply not_Forall_Exists in Hex; [|apply _]. apply Exists_exists in Hex as (t & Ht & Hn). by exists t.
    + by rewrite (find_task_None _ _ Hf t Ht) in Hr.
Qed.

(** Topological ordering is sound and complete: it succeeds exactly when the
    tasks can be ordered with distinct ids and every task after its dependencies,
    and then returns such an order of the same tasks; otherwise it reports a cycle
    or unknown dependency. *)
Theorem stableTopologicalTasks_correct tasks :
  (forall ordered, stableTopologicalTasks tasks = Ok ordered -> valid_order ordered /\ ordered ≡ₚ tasks) /\
  ((exists reference, valid_order reference /\ reference ≡ₚ tasks) ->
   exists ordered, stableTopologicalTasks tasks = Ok ordered).
Proof.
  assert (Hnil : valid_order []) by (split; [constructor|by intros [|? ?] t post [=]]).
  split.
  - intros ordered H. unfold stableTopologicalTasks in H.
    apply (topo_loop_sound _ _ _ []) in H as ([Hnd Hdeps] & Hsub & Hlen);
      [|done|by intros t ?%not_elem_of_nil].
    split; [by split|]. rewrite Nat.add_0_r in Hlen. apply submseteq_length_Permutation; [|lia].
    apply NoDup_submseteq; [by apply NoDup_fmap_1 in Hnd|done].
  - intros (reference & Href & Hperm).
    apply (topo_loop_complete _ tasks reference _ []); [done|done|done|done|by intros t ?%not_elem_of_nil|simpl; lia].
Qed.
