(* ===== verification/JsonPayload.v ===== *)
(** * Durable payloads: what [assertJsonSerializable] sees and decides
    (packages/agent/src/harness/session/session.ts)

    A payload is a value of unknown type: a graph of objects with their property
    descriptors.  [json_tree] is the finite JSON value a payload denotes, if it
    denotes one. *)
From S2P Require Import Prelude JsNumber SessionTypes JsText JsValue SessionState.

(** An own property: a data property or an accessor. *)
Inductive descriptor :=
| DataProperty (v : jsval)
| AccessorProperty.

(** [items]: the elements of an array, [None] where it has no own property;
    [extra_names]: how many own string keys it has besides indices and [length];
    [symbols]: it has own symbol keys.  The properties of a plain object come with
    their [enumerable] flag. *)
Inductive payload_object :=
| PayloadArray (standard_prototype symbols : bool) (extra_names : nat) (items : list (option descriptor))
| PayloadObject (plain_prototype symbols : bool) (props : list (jsstring * bool * descriptor)).

Abbreviation payload_heap := (gmap nat payload_object) (only parsing).
(** A location outside the heap stands for an object of a class. *)
Definition payload_at (h : payload_heap) (l : nat) : payload_object :=
  default (PayloadObject false false []) (h !! l).

Definition invalidPayload (reason : string) : SessionError :=
  sessionError invalid_payload ("Durable payload " +:+ reason).

Inductive JsonValidationFrame :=
| FrameValue (v : jsval)
| FrameExit (l : nat).

(** [Object.getOwnPropertyNames(array).length] *)
Definition own_names (extra_names : nat) (items : list (option descriptor)) : nat :=
  (length (keep (fun i : option descriptor => bool_decide (is_Some i)) items) + extra_names + 1)%nat.

(** The loop that pushes the elements, from the last one to the first. *)
Fixpoint array_values (items : list (option descriptor)) : result SessionError (list jsval) :=
  match items with
  | [] => Ok []
  | item :: items' =>
      values ← array_values items';
      match item with
      | None => Err (invalidPayload "contains a sparse array")
      | Some AccessorProperty => Err (invalidPayload "contains an array accessor")
      | Some (DataProperty v) => Ok (v :: values)
      end
  end.

(** The loop that pushes the values of the enumerable properties. *)
Fixpoint object_values (props : list (jsstring * bool * descriptor)) : result SessionError (list jsval) :=
  match props with
  | [] => Ok []
  | (_, _, d) :: props' =>
      values ← object_values props';
      match d with
      | AccessorProperty => Err (invalidPayload "contains an accessor")
      | DataProperty v => Ok (v :: values)
      end
  end.

(** What an object contributes to the stack. *)
Definition payload_children (o : payload_object) : result SessionError (list jsval) :=
  match o with
  | PayloadArray standard_prototype symbols extra_names items =>
      if negb standard_prototype then Err (invalidPayload "contains a non-standard array")
      else if symbols || negb (own_names extra_names items =? length items + 1)%nat
      then Err (invalidPayload "contains an array with unsupported properties")
      else array_values items
  | PayloadObject plain_prototype symbols props =>
      if negb plain_prototype then Err (invalidPayload "contains a non-plain object")
      else if symbols then Err (invalidPayload "contains a symbol-keyed property")
      else
        let keys := keep (fun p => p.1.2) props in
        if negb (length props =? length keys)%nat
        then Err (invalidPayload "contains a non-enumerable property")
        else object_values keys
  end.

(** The loop.  [None]: more iterations than [fuel]. *)
Fixpoint validation_loop (fuel : nat) (h : payload_heap) (active : gset nat)
    (stack : list JsonValidationFrame) : option (result SessionError unit) :=
  match fuel with
  | O => None
  | S fuel' =>
      match stack with
      | [] => Some (Ok tt)
      | FrameExit l :: stack' => validation_loop fuel' h (active ∖ {[l]}) stack'
      | FrameValue candidate :: stack' =>
          match candidate with
          | VNull | VString _ | VBool _ => validation_loop fuel' h active stack'
          | VNumber n =>
              if num_is_finite n then validation_loop fuel' h active stack'
              else Some (Err (invalidPayload "contains a non-finite number"))
          | VUndefined => Some (Err (invalidPayload "contains undefined"))
          | VOther typeof => Some (Err (invalidPayload ("contains " +:+ typeof)))
          | VBytes _ => Some (Err (invalidPayload "contains a non-plain object"))
          | VObject l =>
              if bool_decide (l ∈ active) then Some (Err (invalidPayload "contains a cycle"))
              else match payload_children (payload_at h l) with
                   | Err e => Some (Err e)
                   | Ok values =>
                       validation_loop fuel' h ({[l]} ∪ active)
                         ((FrameValue <$> values) ++ FrameExit l :: stack')
                   end
          end
      end
  end.

Definition assertJsonSerializable (fuel : nat) (h : payload_heap) (value : jsval)
  : option (result SessionError unit) :=
  validation_loop fuel h ∅ [FrameValue value].

(** ** The value a payload denotes *)


Inductive json_tree (h : payload_heap) : jsval -> cval -> Prop :=
| tree_null : json_tree h VNull CNull
| tree_bool b : json_tree h (VBool b) (CBool b)
| tree_number n : num_is_finite n = true -> json_tree h (VNumber n) (CNumber n)
| tree_string s : json_tree h (VString s) (CString s)
| tree_array l items ts :
    payload_at h l = PayloadArray true false 0 ((fun v => Some (DataProperty v)) <$> items) ->
    json_trees h items ts -> json_tree h (VObject l) (CArray ts)
| tree_object l props ts :
    payload_at h l = PayloadObject true false ((fun kv => (kv.1, true, DataProperty kv.2)) <$> props) ->
    json_trees h props.*2 ts -> json_tree h (VObject l) (CMap (zip props.*1 ts))
with json_trees (h : payload_heap) : list jsval -> list cval -> Prop :=
| trees_nil : json_trees h [] []
| trees_cons v vs t ts : json_tree h v t -> json_trees h vs ts -> json_trees h (v :: vs) (t :: ts).

Scheme json_tree_mut := Induction for json_tree Sort Prop
  with json_trees_mut := Induction for json_trees Sort Prop.
Combined Scheme json_tree_mutind from json_tree_mut, json_trees_mut.

(** ** Shapes *)

Definition data (v : jsval) : option descriptor := Some (DataProperty v).
Definition enumerable (kv : jsstring * jsval) : jsstring * bool * descriptor :=
  (kv.1, true, DataProperty kv.2).
#[export] Instance data_inj : Inj (=) (=) data.
Proof. by intros ? ? [= ->]. Qed.
#[export] Instance enumerable_inj : Inj (=) (=) enumerable.
Proof. intros [] []. unfold enumerable. simpl. by intros [= -> ->]. Qed.

Lemma array_values_spec items vs : array_values items = Ok vs <-> items = data <$> vs.
Proof.
  revert vs. induction items as [|item items IH]; intros vs; simpl.
  - split; [by intros [= <-]|]. intros H. by apply symmetry, fmap_nil_inv in H as ->.
  - unfold mbind, result_bind. destruct (array_values items) as [vs'|e] eqn:Hv.
    + assert (items = data <$> vs') as -> by by apply IH.
      destruct item as [[v|]|]; split; try done.
      * by intros [= <-].
      * destruct vs as [|v0 vs]; [done|]. rewrite fmap_cons. intros [= <- Heq].
        by apply (inj (fmap data)) in Heq as ->.
      * destruct vs; done.
      * destruct vs; done.
    + split; [done|]. destruct vs as [|v0 vs]; [done|]. rewrite fmap_cons. intros [= _ Heq].
      apply IH in Heq. done.
Qed.

Lemma object_values_spec props vs :
  object_values props = Ok vs <->
  Forall2 (fun p v => p.2 = DataProperty v) props vs.
Proof.
  revert vs. induction props as [|[[k b] d] props IH]; intros vs; simpl.
  - split; [by intros [= <-]; constructor|by inversion 1].
  - unfold mbind, result_bind. destruct (object_values props) as [vs'|e] eqn:Hv.
    + destruct d as [v|]; split.
      * intros [= <-]. constructor; [done|by apply IH].
      * inversion 1 as [|? v0 ? vs0 Heq Hf]; subst. simpl in Heq. apply IH in Hf. congruence.
      * done.
      * inversion 1 as [|? v0 ? vs0 Heq Hf]; subst. done.
    + split; [done|]. inversion 1 as [|? v0 ? vs0 Heq Hf]; subst. apply IH in Hf. done.
Qed.

Lemma keep_same_length {A} (p : A -> bool) l :
  length (keep p l) = length l -> forall x, x ∈ l -> p x = true.
Proof.
  induction l as [|y l IH]; simpl; [by intros _ x ?%not_elem_of_nil|].
  pose proof (keep_length p l). destruct (p y) eqn:Hy; simpl; intros Hlen; [|lia].
  intros x [->|Hx]%elem_of_cons; [done|]. apply IH; [lia|done].
Qed.

(** The two shapes an accepted object can have. *)
Lemma payload_children_spec o vs :
  payload_children o = Ok vs <->
  o = PayloadArray true false 0 (data <$> vs) \/
  exists props, o = PayloadObject true false (enumerable <$> props) /\ vs = props.*2.
Proof.
  destruct o as [std sym extra items|plain sym props]; unfold payload_children.
  - destruct std; simpl; [|by split; [|intros [|(? & ? & ?)]]].
    destruct sym; simpl; [by split; [|intros [|(? & ? & ?)]]|].
    unfold own_names. destruct (Nat.eqb_spec (length (keep (fun i : option descriptor => bool_decide (is_Some i)) items) + extra + 1)
      (length items + 1)) as [Hn|Hn]; simpl.
    + rewrite array_values_spec. split.
      * intros ->. left. rewrite length_fmap in Hn.
        assert (Hk : keep (fun i : option descriptor => bool_decide (is_Some i)) (data <$> vs) = data <$> vs).
        { apply keep_all. intros i (v & -> & _)%list_elem_of_fmap. by apply bool_decide_eq_true. }
        rewrite Hk, length_fmap in Hn. assert (extra = 0%nat) as -> by lia. done.
      * intros [[= -> ->]|(? & ? & ?)]; done.
    + split; [done|]. intros [[= -> ->]|(? & ? & ?)]; [|done]. destruct Hn.
      rewrite keep_all; [lia|]. intros i (v & -> & _)%list_elem_of_fmap. by apply bool_decide_eq_true.
  - destruct plain; simpl; [|by split; [|intros [|(? & ? & ?)]]].
    destruct sym; simpl; [by split; [|intros [|(? & ? & ?)]]|].
    destruct (Nat.eqb_spec (length props) (length (keep (fun p => p.1.2) props))) as [Hn|Hn]; simpl.
    + assert (Hall : forall p, p ∈ props -> p.1.2 = true) by by apply (keep_same_length (fun p => p.1.2)).
      rewrite keep_all by done. rewrite object_values_spec. split.
      * intros Hf. right. exists (zip (fst ∘ fst <$> props) vs). split.
        -- f_equal. clear Hn. induction Hf as [|[[k b] d] v props vs Hd Hf IH]; [done|].
           simpl in Hd. subst d.
           change ((k, b, DataProperty v) :: props = enumerable (k, v) :: (enumerable <$> zip (fst ∘ fst <$> props) vs)).
           f_equal; [|apply IH; intros p Hp; apply Hall; by right].
           specialize (Hall _ ltac:(by left)). simpl in Hall. by rewrite Hall.
        -- rewrite snd_zip; [done|]. apply Forall2_length in Hf. rewrite length_fmap. lia.
      * intros [|(props' & [= ->] & ->)]; [done|]. clear. induction props' as [|[k v] props' IH]; [constructor|].
        simpl. constructor; [done|exact IH].
    + split; [done|]. intros [|(props' & [= ->] & ->)]; [done|]. destruct Hn.
      rewrite keep_all; [done|]. by intros p (kv & -> & _)%list_elem_of_fmap.
Qed.

Lemma payload_children_error o e : payload_children o = Err e -> se_code e = invalid_payload.
Proof.
  assert (Ha : forall items, array_values items = Err e -> se_code e = invalid_payload).
  { induction items as [|item items IH]; simpl; [done|]. unfold mbind, result_bind.
    destruct (array_values items); [|by intros [= ->]; apply IH]. destruct item as [[]|]; by intros [= <-]. }
  assert (Hp : forall props, object_values props = Err e -> se_code e = invalid_payload).
  { induction props as [|[[k b] d] props IH]; simpl; [done|]. unfold mbind, result_bind.
    destruct (object_values props); [|by intros [= ->]; apply IH]. destruct d; by intros [= <-]. }
  unfold payload_children. destruct o; repeat (case_match; [by intros [= <-]|]);
    [apply Ha|apply Hp].
Qed.

(** ** The value is unique *)

Lemma json_trees_length h vs ts : json_trees h vs ts -> length vs = length ts.
Proof. induction 1; simpl; congruence. Qed.

Lemma json_tree_det h :
  (forall v t, json_tree h v t -> forall t', json_tree h v t' -> t = t') /\
  (forall vs ts, json_trees h vs ts -> forall ts', json_trees h vs ts' -> ts = ts').
Proof.
  apply json_tree_mutind; try by (intros; match goal with H : json_tree _ _ _ |- _ => inversion H end).
  - intros l items ts Hl _ IH t' Ht'. inversion Ht' as [| | | |? items' ts' Hl' Hts'|? props' ts' Hl' Hts']; subst;
      rewrite Hl in Hl'; [|done]. injection Hl' as Hi. f_equal. apply IH.
    by apply (inj (fmap data)) in Hi as ->.
  - intros l props ts Hl _ IH t' Ht'. inversion Ht' as [| | | |? items' ts' Hl' Hts'|? props' ts' Hl' Hts']; subst;
      rewrite Hl in Hl'; [done|]. injection Hl' as Hi.
    apply (inj (fmap enumerable)) in Hi as ->. f_equal. f_equal. by apply IH.
  - intros ts' Hts'. by inversion Hts'.
  - intros v vs t ts _ IH1 _ IH2 ts' Hts'. inversion Hts'; subst. f_equal; [by apply IH1|by apply IH2].
Qed.

(** ** Runs of the loop *)

Section runs.
Context (h : payload_heap).

(** The loop pops the frames of [frames] and goes on with the rest of the stack. *)
Definition passes (active : gset nat) (frames : list JsonValidationFrame) (n : nat) : Prop :=
  forall fuel stack, validation_loop (n + fuel) h active (frames ++ stack) = validation_loop fuel h active stack.
(** The loop fails while it works on [frames]. *)
Definition fails (active : gset nat) (frames : list JsonValidationFrame) (n : nat) : Prop :=
  exists e, se_code e = invalid_payload /\
    forall fuel stack, validation_loop (n + fuel) h active (frames ++ stack) = Some (Err e).

Lemma passes_nil active : passes active [] 0.
Proof. by intros fuel stack. Qed.
Lemma passes_app active f1 f2 n1 n2 :
  passes active f1 n1 -> passes active f2 n2 -> passes active (f1 ++ f2) (n1 + n2).
Proof. intros H1 H2 fuel stack. by rewrite <-(assoc_L (++)), <-Nat.add_assoc, H1, H2. Qed.
Lemma fails_l active f1 f2 n : fails active f1 n -> fails active (f1 ++ f2) n.
Proof. intros (e & He & H). exists e. split; [done|]. intros fuel stack. by rewrite <-(assoc_L (++)), H. Qed.
Lemma fails_r active f1 f2 n1 n2 : passes active f1 n1 -> fails active f2 n2 -> fails active (f1 ++ f2) (n1 + n2).
Proof.
  intros H1 (e & He & H). exists e. split; [done|]. intros fuel stack.
  by rewrite <-(assoc_L (++)), <-Nat.add_assoc, H1, H.
Qed.

(** An object whose children pass passes. *)
Lemma passes_object active l vs n :
  l ∉ active -> payload_children (payload_at h l) = Ok vs ->
  passes ({[l]} ∪ active) (FrameValue <$> vs) n ->
  passes active [FrameValue (VObject l)] (S (n + 1)).
Proof.
  intros Hl Hvs Hn fuel stack. cbn [app plus validation_loop]. rewrite bool_decide_eq_false_2, Hvs by done.
  rewrite <-Nat.add_assoc, Hn. cbn [plus validation_loop]. f_equal. set_solver.
Qed.
Lemma fails_object active l vs n :
  l ∉ active -> payload_children (payload_at h l) = Ok vs ->
  fails ({[l]} ∪ active) (FrameValue <$> vs) n -> fails active [FrameValue (VObject l)] (S n).
Proof.
  intros Hl Hvs (e & He & Hn). exists e. split; [done|]. intros fuel stack. cbn [app plus validation_loop].
  by rewrite bool_decide_eq_false_2, Hvs, Hn by done.
Qed.

Lemma tree_of_children l vs ts :
  payload_children (payload_at h l) = Ok vs -> json_trees h vs ts -> exists t, json_tree h (VObject l) t.
Proof.
  intros [Ho|(props & Ho & ->)]%payload_children_spec Hts; eexists; [by apply (tree_array h l vs)|].
  by apply (tree_object h l props).
Qed.
Lemma children_of_tree l t :
  json_tree h (VObject l) t -> exists vs ts, payload_children (payload_at h l) = Ok vs /\ json_trees h vs ts.
Proof.
  inversion 1 as [| | | |? items ts Hl Hts|? props ts Hl Hts]; subst.
  - exists items, ts. split; [|done]. apply payload_children_spec. by left.
  - exists props.*2, ts. split; [|done]. apply payload_children_spec. right. by exists props.
Qed.

(** Every value either denotes a tree and passes, or fails: the objects in progress
    exclude each other, so the recursion is bounded by the size of the heap. *)
Definition settles (active : gset nat) (v : jsval) : Prop :=
  exists n, (passes active [FrameValue v] n /\ exists t, json_tree h v t) \/ fails active [FrameValue v] n.

Lemma settles_list active vs :
  (forall v, settles active v) ->
  exists n, (passes active (FrameValue <$> vs) n /\ exists ts, json_trees h vs ts) \/
            fails active (FrameValue <$> vs) n.
Proof.
  intros Hv. induction vs as [|v vs (n2 & IH)].
  - exists 0%nat. left. split; [apply passes_nil|]. exists []. constructor.
  - destruct (Hv v) as (n1 & [[H1 [t Ht]]|H1]).
    + exists (n1 + n2)%nat. destruct IH as [[H2 [ts Hts]]|H2].
      * left. split; [by apply (passes_app _ [_])|]. exists (t :: ts). by constructor.
      * right. by apply (fails_r _ [_]).
    + exists n1. right. by apply (fails_l _ [_]).
Qed.

Lemma fails_now active v e :
  (forall fuel stack, validation_loop (S fuel) h active (FrameValue v :: stack) = Some (Err e)) ->
  se_code e = invalid_payload -> settles active v.
Proof. intros H He. exists 1%nat. right. exists e. split; [done|]. intros fuel stack. apply H. Qed.
Lemma passes_now active v t :
  (forall fuel stack, validation_loop (S fuel) h active (FrameValue v :: stack) = validation_loop fuel h active stack) ->
  json_tree h v t -> settles active v.
Proof. intros H Ht. exists 1%nat. left. split; [|by exists t]. intros fuel stack. apply H. Qed.

Lemma value_settles k active v : (size (dom h ∖ active) <= k)%nat -> settles active v.
Proof.
  revert active v. induction k as [k IH] using lt_wf_ind. intros active v Hk.
  destruct v as [| |b|n|s|b|l|typeof].
  - by eapply fails_now; [intros fuel stack; reflexivity|].
  - by eapply passes_now; [intros fuel stack; reflexivity|constructor].
  - by eapply passes_now; [intros fuel stack; reflexivity|constructor].
  - destruct (num_is_finite n) eqn:Hn.
    + eapply passes_now; [intros fuel stack; simpl; by rewrite Hn|by constructor].
    + by eapply fails_now; [intros fuel stack; simpl; by rewrite Hn|].
  - by eapply passes_now; [intros fuel stack; reflexivity|constructor].
  - by eapply fails_now; [intros fuel stack; reflexivity|].
  - destruct (decide (l ∈ active)) as [Ha|Ha].
    { by eapply fails_now; [intros fuel stack; cbn [validation_loop]; by rewrite bool_decide_eq_true_2 by done|]. }
    destruct (payload_children (payload_at h l)) as [vs|e] eqn:Hvs.
    2: { eapply fails_now; [intros fuel stack; cbn [validation_loop]; by rewrite bool_decide_eq_false_2, Hvs by done|].
         by eapply payload_children_error. }
    assert (Hin : l ∈ dom h).
    { destruct (h !! l) eqn:Hl; [by eapply elem_of_dom_2|]. unfold payload_at in Hvs. rewrite Hl in Hvs. done. }
    assert (Hlt : (size (dom h ∖ ({[l]} ∪ active)) < size (dom h ∖ active))%nat).
    { apply subset_size. set_solver. }
    destruct (settles_list ({[l]} ∪ active) vs) as (n & [[Hn [ts Hts]]|Hn]).
    + intros v. eapply IH; [|done]. lia.
    + exists (S (n + 1)). left. split; [by eapply passes_object|by eapply tree_of_children].
    + exists (S n). right. by eapply fails_object.
  - by eapply fails_now; [intros fuel stack; reflexivity|].
Qed.
End runs.

(** ** Values that denote a tree are accepted *)

Fixpoint weight (t : cval) : nat :=
  match t with
  | CArray items => S (sum_list_with weight items)
  | CMap props => S (sum_list_with (fun kv => weight kv.2) props)
  | _ => 1
  end.

Lemma weight_item t ts : t ∈ ts -> (weight t <= sum_list_with weight ts)%nat.
Proof. induction ts as [|x ts IH]; [by intros ?%not_elem_of_nil|]. intros [->|Ht%IH]%elem_of_cons; simpl; lia. Qed.
Lemma weight_zip (ks : list jsstring) ts :
  length ks = length ts -> sum_list_with (fun kv => weight kv.2) (zip ks ts) = sum_list_with weight ts.
Proof.
  revert ts. induction ks as [|k ks IH]; intros [|t ts]; simpl; [done|done|done|]. intros [= H]. by rewrite <-IH.
Qed.

Section accepts.
Context (h : payload_heap).

(** The objects in progress denote values larger than [w]. *)
Definition outer (active : gset nat) (w : nat) : Prop :=
  forall l, l ∈ active -> exists t, json_tree h (VObject l) t /\ (w < weight t)%nat.

Lemma object_passes active l t ts vs :
  json_tree h (VObject l) t -> payload_children (payload_at h l) = Ok vs -> json_trees h vs ts ->
  (forall x, x ∈ ts -> (weight x < weight t)%nat) -> outer active (weight t) ->
  (forall active', (forall x, x ∈ ts -> outer active' (weight x)) -> exists n, passes h active' (FrameValue <$> vs) n) ->
  exists n, passes h active [FrameValue (VObject l)] n.
Proof.
  intros Ht Hvs Hts Hw Ho IH. assert (Hl : l ∉ active).
  { intros (t' & Ht' & Hlt)%Ho. rewrite (proj1 (json_tree_det h) _ _ Ht _ Ht') in Hlt. lia. }
  destruct (IH ({[l]} ∪ active)) as [n Hn].
  - intros x Hx l' [->%elem_of_singleton|Hl']%elem_of_union; [exists t; auto|].
    destruct (Ho l' Hl') as (t' & Ht' & Hlt). exists t'. split; [done|]. specialize (Hw x Hx). lia.
  - eexists. by eapply passes_object.
Qed.

Lemma tree_passes :
  (forall v t, json_tree h v t -> forall active, outer active (weight t) -> exists n, passes h active [FrameValue v] n) /\
  (forall vs ts, json_trees h vs ts -> forall active, (forall t, t ∈ ts -> outer active (weight t)) ->
     exists n, passes h active (FrameValue <$> vs) n).
Proof.
  apply json_tree_mutind; try (intros; exists 1%nat; intros fuel stack; done).
  - intros n Hn active _. exists 1%nat. intros fuel stack. simpl. by rewrite Hn.
  - intros l items ts Hl Hts IH active Ho. eapply (object_passes _ _ _ ts items); [by eapply tree_array| |done| |done|done].
    + apply payload_children_spec. by left.
    + intros x Hx%weight_item. simpl. lia.
  - intros l props ts Hl Hts IH active Ho. eapply (object_passes _ _ _ ts props.*2); [by eapply tree_object| |done| |done|done].
    + apply payload_children_spec. right. by exists props.
    + intros x Hx%weight_item. simpl. rewrite weight_zip; [lia|].
      apply json_trees_length in Hts. rewrite !length_fmap in *. done.
  - intros active _. exists 0%nat. apply passes_nil.
  - intros v vs t ts _ IH1 _ IH2 active Ho. destruct (IH1 active) as [n1 H1]; [apply Ho; by left|].
    destruct (IH2 active) as [n2 H2]; [intros x Hx; apply Ho; by right|].
    exists (n1 + n2)%nat. by apply (passes_app _ _ [_]).
Qed.

(** The outcome does not depend on the number of iterations allowed. *)
Lemma accepted v n fuel :
  passes h ∅ [FrameValue v] n -> (n < fuel)%nat -> assertJsonSerializable fuel h v = Some (Ok tt).
Proof.
  intros H Hlt. replace fuel with (n + S (fuel - n - 1))%nat by lia. unfold assertJsonSerializable.
  change [FrameValue v] with ([FrameValue v] ++ []). by rewrite H.
Qed.
Lemma rejected v n :
  fails h ∅ [FrameValue v] n ->
  exists e, se_code e = invalid_payload /\
    forall fuel, (n <= fuel)%nat -> assertJsonSerializable fuel h v = Some (Err e).
Proof.
  intros (e & He & H). exists e. split; [done|]. intros fuel Hle. replace fuel with (n + (fuel - n))%nat by lia.
  unfold assertJsonSerializable. change [FrameValue v] with ([FrameValue v] ++ []). by rewrite H.
Qed.
End accepts.

(** C34. [assertJsonSerializable] always returns, and accepts exactly the payloads
    that denote a finite JSON value: no cycle (sharing is allowed), no holes,
    accessors, symbol-keyed or hidden properties, objects of a class, or values
    JSON cannot express; every other payload is refused as an invalid payload. *)
Theorem assertJsonSerializable_correct h v :
  exists r, eventually (fun fuel => assertJsonSerializable fuel h v = Some r) /\
    match r with
    | Ok _ => exists t, json_tree h v t
    | Err e => se_code e = invalid_payload /\ ~ exists t, json_tree h v t
    end.
Proof.
  destruct (value_settles h (size (dom h ∖ (∅ : gset nat))) ∅ v) as (n & [[Hn Ht]|Hn]); [done| |].
  - exists (Ok tt). split; [|done]. exists (S n). intros fuel Hle. eapply accepted; [done|lia].
  - destruct (rejected h v n Hn) as (e & He & Hr). exists (Err e). split; [by exists n|]. split; [done|].
    intros [t Ht]. destruct (proj1 (tree_passes h) v t Ht ∅) as [m Hm]; [by intros l ?%not_elem_of_empty|].
    assert (H1 := Hr (n + S m)%nat ltac:(lia)). by rewrite (accepted h v m) in H1 by (done || lia).
Qed.
