(* ===== verification/SessionService.v ===== *)
(** * The session service (packages/agent/src/harness/session/session.ts)

    [Session] is the facade over a [SessionStorage]: it refuses durable payloads
    that are not JSON and queries that are malformed before the storage sees them,
    resolves default lanes, and hands out lane-scoped views.  A call runs on the
    state of the storage; the identifiers [idGenerator.next()] returns are
    arguments.

    The input of a write is the object the caller passes: its graph, which is
    checked, and its content read at its declared type, which is what
    [structuredClone] hands to the storage. *)
From S2P Require Import Prelude JsNumber SessionTypes JsText JsValue JsonText SessionState SessionInvariant.
From S2P Require Import SessionTheorems SessionFork MemoryStorage JsonPayload.

(** An argument of type [T] as the engine holds it. *)
Record Payload (T : Type) := { p_heap : payload_heap; p_value : jsval; p_content : T }.
Arguments p_heap {T}. Arguments p_value {T}. Arguments p_content {T}.

Definition with_limit (query : EntryQuery) (limit : option number) : EntryQuery :=
  {| q_type := q_type query; q_customType := q_customType query; q_order := q_order query;
     q_limit := limit; q_cursor := q_cursor query |}.

Definition no_query : EntryQuery :=
  {| q_type := None; q_customType := None; q_order := None; q_limit := None; q_cursor := None |}.
Definition no_record_query : RecordQuery :=
  {| rq_lane := None; rq_type := None; rq_runId := None; rq_operationKind := None; rq_afterSeq := None;
     rq_order := None; rq_limit := None |}.

(** The object literal around a payload, at a location the payload does not use. *)
Definition wrap_payload {T U} (strings : list (jsstring * jsstring)) (field : jsstring) (p : Payload T) (u : U)
  : Payload U :=
  let l := fresh (dom (p_heap p)) in
  {| p_heap := <[l := PayloadObject true false
                   (((fun kv => (kv.1, true, DataProperty (VString kv.2))) <$> strings)
                    ++ [(field, true, DataProperty (p_value p))])]> (p_heap p);
     p_value := VObject l; p_content := u |}.
Definition strings_payload {U} (strings : list (jsstring * jsstring)) (u : U) : Payload U :=
  {| p_heap := {[ 0%nat := PayloadObject true false
                    ((fun kv => (kv.1, true, DataProperty (VString kv.2))) <$> strings) ]};
     p_value := VObject 0; p_content := u |}.

(** ** The operations *)

Module Session.
Section service.
Context {St : Type} `{SessionStorage St}.

(** [fuel] bounds the iterations of the payload check. *)
Context (fuel : nat).

(** A read of the storage. *)
Definition query_storage {A} (f : SessionState -> result SessionError A) : M St SessionError A :=
  fun st => (st, f (storage_view st)).
Definition read_storage {A} (f : SessionState -> A) : M St SessionError A :=
  query_storage (fun s => Ok (f s)).

Definition out_of_iterations : SessionError := sessionError storage_error "out of iterations".
Definition check_payload {T} (p : Payload T) : M St SessionError unit :=
  match assertJsonSerializable fuel (p_heap p) (p_value p) with
  | Some r => lift r
  | None => throw out_of_iterations
  end.

Definition commitEntry (now : Z) (entry : Payload ProvisionedEntry) (lane : string) : M St SessionError storage_reply :=
  check_payload entry;; storage_run now (CallAppendEntry (p_content entry) lane).
Definition commitRecord (now : Z) (record : Payload NewRecord) : M St SessionError storage_reply :=
  check_payload record;; storage_run now (CallAppendRecord (p_content record)).

(** [entry.id] of the committed entry. *)
Definition reply_id (r : storage_reply) : string :=
  match r with ReplyEntry e => e_id e | ReplyRecord r => lr_id r | ReplyVoid => "" end.

Definition appendMessageToLane (now : Z) (id lane : string) (message : Payload AgentMessage) : M St SessionError string :=
  entry ← commitEntry now
    (wrap_payload [(js "type", js "message"); (js "id", js id)] (js "message") message
       {| pe_id := id; pe_body := MessageEntry (p_content message) false |}) lane;
  mret (reply_id entry).

Definition appendCustomEntryToLane (now : Z) (id lane customType : string) (data : option (Payload json))
  : M St SessionError string :=
  let strings := [(js "type", js "custom"); (js "id", js id); (js "customType", js customType)] in
  entry ← commitEntry now
    match data with
    | None => strings_payload strings {| pe_id := id; pe_body := CustomEntry customType None |}
    | Some d => wrap_payload strings (js "data") d
                  {| pe_id := id; pe_body := CustomEntry customType (Some (p_content d)) |}
    end lane;
  mret (reply_id entry).

Definition getLanes : M St SessionError (list LanePointer) := read_storage SessionState.getLanes.

Definition getLeafIdForLane (lane : string) : M St SessionError (option string) :=
  pointers ← getLanes;
  match list_find (fun candidate => lp_lane candidate = lane) pointers with
  | Some (_, pointer) => mret (lp_leafId pointer)
  | None => throw (sessionError invalid_lane ("Lane not found: " +:+ lane))
  end.

(** [resultLimit = query.limit]: the parameter's default. *)
Definition limited (query : EntryQuery) (resultLimit : option number) : EntryQuery :=
  match resultLimit with Some limit => with_limit query (Some limit) | None => query end.

Definition queryEntries (query : option EntryQuery) (resultLimit : option number) : M St SessionError (list Entry) :=
  let query := default no_query query in
  lift (assertValidLimit (q_limit query));;
  lift (assertValidCursor (q_cursor query));;
  query_storage (findEntries (limited query resultLimit)).

(** A branch query: the entry query, the bounds and [start]. *)
Record BranchQuery := { bq_query : EntryQuery; bq_bounds : BranchBounds; bq_start : option string }.
Definition no_branch_query : BranchQuery :=
  {| bq_query := no_query; bq_bounds := no_bounds; bq_start := None |}.

Definition queryBranchEntries (defaultLane : string) (query : option BranchQuery) (resultLimit : option number)
  : M St SessionError (list Entry) :=
  let query := default no_branch_query query in
  lift (assertValidLimit (q_limit (bq_query query)));;
  lift (assertValidCursor (q_cursor (bq_query query)));;
  start ← match bq_start query with
          | Some start => mret (Some start)
          | None => getLeafIdForLane defaultLane
          end;
  match start with
  | None => mret []
  | Some start =>
      query_storage (findEntriesOnBranch (limited (bq_query query) resultLimit) (bq_bounds query) start)
  end.

Definition queryRecords (query : option RecordQuery) : M St SessionError (list LaneRecord) :=
  let query := default no_record_query query in
  lift (assertValidLimit (rq_limit query));;
  lift (assertValidCursor (rq_afterSeq query));;
  throw_if (bool_decide (is_Some (rq_operationKind query)) &&
            negb (bool_decide (rq_type query = Some TyOperationStarted)))
    (sessionError invalid_query "operationKind requires type operation_started");;
  query_storage (findRecords query).

Definition queryLog (options : option LogOptions) : M St SessionError (list LogItem) :=
  let options := default {| lo_afterSeq := None; lo_limit := None |} options in
  lift (assertValidLimit (lo_limit options));;
  lift (assertValidCursor (lo_afterSeq options));;
  query_storage (getLog options).

Definition findOpenOperations (lane : string) (limit : option number) : M St SessionError (list OperationStartedRecord) :=
  lift (assertValidLimit limit);;
  query_storage (SessionState.findOpenOperations lane limit).

Definition one : option number := Some (num_of_Z 1).

(** ** Views *)

(** [SessionTree]: what a lane-scoped view offers. *)
Record SessionTree := {
  tree_getLeafId : M St SessionError (option string);
  tree_getEntry : string -> M St SessionError (option Entry);
  tree_getStats : M St SessionError SessionStats;
  tree_getName : M St SessionError (option string);
  tree_setName : Z -> option string -> M St SessionError unit;
  tree_getLabel : string -> M St SessionError (option string);
  tree_setLabel : Z -> string -> option string -> M St SessionError unit;
  tree_findEntries : option EntryQuery -> M St SessionError (list Entry);
  tree_findEntry : option EntryQuery -> M St SessionError (option Entry);
  tree_findEntriesOnBranch : option BranchQuery -> M St SessionError (list Entry);
  tree_findEntryOnBranch : option BranchQuery -> M St SessionError (option Entry);
  tree_appendMessage : Z -> string -> Payload AgentMessage -> M St SessionError string;
  tree_appendCustomEntry : Z -> string -> string -> option (Payload json) -> M St SessionError string }.

Definition getEntry (id : string) : M St SessionError (option Entry) := read_storage (SessionState.getEntry id).
Definition getStats : M St SessionError SessionStats := read_storage SessionState.getStats.
Definition getName : M St SessionError (option string) := read_storage SessionState.getName.
Definition getLabel (targetId : string) : M St SessionError (option string) :=
  read_storage (SessionState.getLabel targetId).
Definition setName (now : Z) (name : option string) : M St SessionError unit :=
  storage_run now (CallSetName name);; mret tt.
Definition setLabel (now : Z) (targetId : string) (label : option string) : M St SessionError unit :=
  storage_run now (CallSetLabel targetId label);; mret tt.
Definition createLane (now : Z) (lane : string) (at_ : option string) : M St SessionError unit :=
  storage_run now (CallCreateLane lane at_);; mret tt.
Definition moveLane (now : Z) (lane : string) (to : option string) : M St SessionError unit :=
  storage_run now (CallMoveLane lane to);; mret tt.

Definition first {A} (f : M St SessionError (list A)) : M St SessionError (option A) :=
  l ← f; mret (l !! 0%nat).

(** The session itself is the view of the lane "main". *)
Definition view (lane : string) : SessionTree := {|
  tree_getLeafId := getLeafIdForLane lane;
  tree_getEntry := getEntry;
  tree_getStats := getStats;
  tree_getName := getName;
  tree_setName := setName;
  tree_getLabel := getLabel;
  tree_setLabel := setLabel;
  tree_findEntries := fun query => queryEntries query None;
  tree_findEntry := fun query => first (queryEntries query one);
  tree_findEntriesOnBranch := fun query => queryBranchEntries lane query None;
  tree_findEntryOnBranch := fun query => first (queryBranchEntries lane query one);
  tree_appendMessage := fun now id message => appendMessageToLane now id lane message;
  tree_appendCustomEntry := fun now id customType data => appendCustomEntryToLane now id lane customType data |}.
End service.
End Session.
