(* ===== verification/SessionServiceTheorems.v ===== *)
(** * What the session service guarantees, for every conforming storage *)
From S2P Require Import Prelude JsNumber SessionTypes JsText JsValue JsonText SessionState SessionInvariant.
From S2P Require Import SessionTheorems SessionFork MemoryStorage MemoryTheorems JsonPayload SessionService.

(** ** Object literals around a payload *)

Definition denotes {T} (p : Payload T) : Prop := exists t, json_tree (p_heap p) (p_value p) t.

(** A larger heap gives the same value to what the smaller one gives a value. *)
Lemma json_tree_mono h h' :
  h ⊆ h' ->
  (forall v t, json_tree h v t -> json_tree h' v t) /\ (forall vs ts, json_trees h vs ts -> json_trees h' vs ts).
Proof.
  intros Hsub.
  assert (Hat : forall l o, payload_at h l = o -> o <> PayloadObject false false [] -> payload_at h' l = o).
  { unfold payload_at. intros l o <- Hne. destruct (h !! l) as [o|] eqn:Hl; [|done].
    pose proof (lookup_weaken _ _ _ _ Hl Hsub) as Hl'. by rewrite Hl'. }
  apply json_tree_mutind; intros; try (constructor; done).
  - by eapply tree_array; [apply Hat|].
  - by eapply tree_object; [apply Hat|].
Qed.

(** What lies below a new object has the value it had before. *)
Lemma json_tree_below h l o t :
  json_tree (<[l := o]> h) (VObject l) t ->
  (forall v t', json_tree (<[l := o]> h) v t' -> (weight t' < weight t)%nat -> json_tree h v t') /\
  (forall vs ts, json_trees (<[l := o]> h) vs ts -> (forall t', t' ∈ ts -> (weight t' < weight t)%nat) -> json_trees h vs ts).
Proof.
  intros Ht.
  assert (Hat : forall l' t', json_tree (<[l := o]> h) (VObject l') t' -> (weight t' < weight t)%nat ->
    payload_at (<[l := o]> h) l' = payload_at h l').
  { intros l' t' Ht' Hlt. unfold payload_at. rewrite lookup_insert_ne; [done|]. intros <-.
    rewrite (proj1 (json_tree_det _) _ _ Ht _ Ht') in Hlt. lia. }
  apply json_tree_mutind; intros; try (constructor; done).
  - match goal with Hl : payload_at _ ?l' = _, Hts : json_trees _ _ ?ts, Hlt : (_ < _)%nat |- _ =>
      rewrite (Hat l' (CArray ts)) in Hl by (done || by eapply tree_array); simpl in Hlt end.
    eapply tree_array; [done|]. match goal with H : _ -> json_trees _ _ _ |- _ => apply H end.
    intros t' Hin%weight_item. lia.
  - match goal with Hl : payload_at _ ?l' = _, Hts : json_trees _ _ ?ts, Hlt : (_ < _)%nat |- _ =>
      pose proof (json_trees_length _ _ _ Hts) as Hlen;
      rewrite (Hat l' (CMap (zip props.*1 ts))) in Hl by (done || by eapply tree_object);
      simpl in Hlt; rewrite weight_zip in Hlt by (rewrite !length_fmap in *; done) end.
    eapply tree_object; [done|]. match goal with H : _ -> json_trees _ _ _ |- _ => apply H end.
    intros t' Hin%weight_item. lia.
  - constructor.
    + match goal with H : _ -> json_tree _ _ _ |- _ => apply H end.
      match goal with H : forall t', _ |- _ => apply H; by left end.
    + match goal with H : _ -> json_trees _ _ _ |- _ => apply H end. intros t' Hin.
      match goal with H : forall t', _ |- _ => apply H; by right end.
Qed.

Lemma json_trees_app h vs1 vs2 ts :
  json_trees h (vs1 ++ vs2) ts -> exists ts1 ts2, ts = ts1 ++ ts2 /\ json_trees h vs1 ts1 /\ json_trees h vs2 ts2.
Proof.
  revert ts. induction vs1 as [|v vs1 IH]; intros ts H; [exists [], ts; by split_and!; [|constructor|]|].
  inversion H as [|? ? t ts' Ht Hts]; subst. apply IH in Hts as (ts1 & ts2 & -> & H1 & H2).
  exists (t :: ts1), ts2. by split_and!; [|constructor|].
Qed.
Lemma json_trees_strings h (strings : list (jsstring * jsstring)) vs ts :
  json_trees h vs ts ->
  json_trees h (((fun kv => VString kv.2) <$> strings) ++ vs) (((fun kv => CString kv.2) <$> strings) ++ ts).
Proof. intros H. induction strings as [|kv strings IH]; [done|]. constructor; [constructor|exact IH]. Qed.

Definition literal_props (strings : list (jsstring * jsstring)) (last : list (jsstring * jsval)) : list (jsstring * jsval) :=
  ((fun kv => (kv.1, VString kv.2)) <$> strings) ++ last.
Lemma literal_values strings last :
  (literal_props strings last).*2 = ((fun kv => VString kv.2) <$> strings) ++ last.*2.
Proof. unfold literal_props. rewrite fmap_app. f_equal. by rewrite <-list_fmap_compose. Qed.

Lemma wrap_denotes {T U} strings field (p : Payload T) (u : U) :
  denotes (wrap_payload strings field p u) <-> denotes p.
Proof.
  unfold denotes, wrap_payload. set (l := fresh (dom (p_heap p))). set (o := PayloadObject _ _ _). simpl.
  assert (Ho : o = PayloadObject true false (enumerable <$> literal_props strings [(field, p_value p)])).
  { unfold o, literal_props. rewrite fmap_app, <-list_fmap_compose. done. }
  assert (Hat : payload_at (<[l := o]> (p_heap p)) l = o) by (unfold payload_at; by rewrite lookup_insert_eq).
  assert (Hfresh : p_heap p !! l = None) by (apply not_elem_of_dom; apply is_fresh).
  split; intros [t Ht].
  - destruct (json_tree_below _ _ _ _ Ht) as [Hbelow _].
    apply children_of_tree in Ht as Hc. destruct Hc as (vs & ts & Hvs & Hts).
    inversion Ht as [| | | |? items ts' Hl' Hts'|? props ts' Hl' Hts']; subst.
    { rewrite Hat, Ho in Hl'. done. }
    rewrite Hat, Ho in Hl'. injection Hl' as Hprops. apply (inj (fmap enumerable)) in Hprops. subst props. pose proof (json_trees_length _ _ _ Hts') as Hlen.
    rewrite literal_values in Hts'. apply json_trees_app in Hts' as (ts1 & ts2 & -> & _ & H2).
    inversion H2 as [|? ? t2 ? Ht2 Hnil]; subst. exists t2. apply Hbelow; [done|]. simpl.
    rewrite weight_zip by (rewrite !length_fmap in *; done).
    apply Nat.lt_succ_r, weight_item, elem_of_app. right. by left.
  - eexists. eapply tree_object; [rewrite Hat; exact Ho|]. rewrite literal_values.
    apply json_trees_strings. simpl. constructor; [|constructor].
    apply (proj1 (json_tree_mono _ _ (insert_subseteq _ _ o Hfresh)) _ _ Ht).
Qed.

Lemma strings_denote {U} strings (u : U) : denotes (strings_payload strings u).
Proof.
  eexists. simpl. eapply (tree_object _ _ (literal_props strings [])).
  - unfold payload_at, strings_payload. simpl. rewrite lookup_singleton_eq. simpl. f_equal.
    unfold literal_props. by rewrite app_nil_r, <-list_fmap_compose.
  - rewrite literal_values. apply json_trees_strings. constructor.
Qed.

(** ** Writes *)

Definition map_ok {E A B} (f : A -> B) (r : result E A) : result E B :=
  match r with Ok a => Ok (f a) | Err e => Err e end.

Section writes.
Context {St : Type} `{SessionStorageLaws St}.

(** The outcome [out] of a write of [p] that issues the call [c]: refused without
    touching the storage unless the payload is JSON, else the storage's own step. *)
Definition checked {T A} (now : Z) (c : storage_call) (reply : storage_reply -> A) (p : Payload T) (st : St)
    (out : St * result SessionError A) : Prop :=
  (~ denotes p -> out.1 = st /\ exists e, out.2 = Err e /\ se_code e = invalid_payload) /\
  (denotes p -> (storage_view out.1, out.2) =
     let '(s', r) := storage_step now c (storage_view st) in (s', map_ok reply r)).

Lemma check_payload_spec {T} (p : Payload T) :
  eventually (fun fuel =>
    (denotes p /\ forall st : St, Session.check_payload fuel p st = (st, Ok tt)) \/
    (~ denotes p /\ exists e, se_code e = invalid_payload /\
       forall st : St, Session.check_payload fuel p st = (st, Err e))).
Proof.
  destruct (value_settles (p_heap p) (size (dom (p_heap p) ∖ (∅ : gset nat))) ∅ (p_value p)) as (n & [[Hn Ht]|Hn]); [done| |].
  - exists (S n). intros fuel Hle. left. split; [done|]. intros st. unfold Session.check_payload.
    rewrite (accepted _ _ n) by (done || lia). done.
  - destruct (rejected _ _ _ Hn) as (e & He & Hr). exists n. intros fuel Hle. right. split.
    + intros [t Ht]. destruct (proj1 (tree_passes _) _ t Ht ∅) as [m Hm]; [by intros l ?%not_elem_of_empty|].
      assert (H1 := Hr (n + S m)%nat ltac:(lia)). by rewrite (accepted _ _ m) in H1 by (done || lia).
    + exists e. split; [done|]. intros st. unfold Session.check_payload. by rewrite Hr.
Qed.

Lemma commit_spec {T A} now c (reply : storage_reply -> A) (p : Payload T) (st : St) :
  state_wf (storage_view st) ->
  eventually (fun fuel =>
    checked now c reply p st ((Session.check_payload fuel p;; r ← storage_run now c; mret (reply r)) st)).
Proof.
  intros Hwf. eapply eventually_mono; [|apply (check_payload_spec p)].
  intros fuel [[Hd Hc]|(Hd & e & He & Hc)]; split; try done.
  - intros _. mrun. rewrite Hc. pose proof (storage_refines now c st Hwf) as Hs.
    destruct (storage_run now c st) as [st' [r|e]]; cbn [fst snd] in *; by rewrite <-Hs.
  - intros _. mrun. rewrite Hc. split; [done|]. by exists e.
Qed.

Lemma checked_reply {T A B} now c (reply : storage_reply -> A) (f : A -> B) (p : Payload T) (st : St) out :
  checked now c reply p st out -> checked now c (f ∘ reply) p st (let '(st', r) := out in (st', map_ok f r)).
Proof.
  intros [H1 H2]. destruct out as [st' r]. split.
  - intros Hn. destruct (H1 Hn) as (E1 & e & E2 & He). cbn [fst snd] in *. subst. eauto.
  - intros Hd. specialize (H2 Hd). simpl in *. destruct (storage_step now c (storage_view st)) as [s' r'].
    injection H2 as -> ->. by destruct r'.
Qed.
Lemma checked_payload {T U A} now c (reply : storage_reply -> A) (p : Payload T) (q : Payload U) (st : St) out :
  (denotes q <-> denotes p) -> checked now c reply q st out -> checked now c reply p st out.
Proof. unfold checked. intros ->. done. Qed.

(** The reply to an appended entry carries its identifier. *)
Lemma append_reply_id now entry lane s s' r :
  storage_step now (CallAppendEntry entry lane) s = (s', Ok r) -> Session.reply_id r = pe_id entry.
Proof.
  unfold storage_step, storage_spec. mrun. destruct (requireLane lane s); [|done].
  destruct (validateUnusedId (pe_id entry) s); [|done]. by intros [= <- <-].
Qed.

(** An append of a wrapped payload that returns the identifier of the entry. *)
Lemma append_wrapped {T} now entry lane (p : Payload T) (w : Payload ProvisionedEntry) (st : St) :
  state_wf (storage_view st) -> p_content w = entry -> (denotes w <-> denotes p) ->
  eventually (fun fuel =>
    checked now (CallAppendEntry entry lane) (fun _ => pe_id entry) p st
      ((e ← Session.commitEntry fuel now w lane; mret (Session.reply_id e)) st)).
Proof.
  intros Hwf <- Hd. eapply eventually_mono; [|exact (commit_spec now (CallAppendEntry (p_content w) lane) Session.reply_id w st Hwf)].
  intros fuel Hb. apply (checked_payload _ _ _ p w) in Hb; [|done].
  assert (Heq : forall s' r, storage_step now (CallAppendEntry (p_content w) lane) (storage_view st) = (s', r) ->
    map_ok Session.reply_id r = map_ok (fun _ => pe_id (p_content w)) r).
  { intros s' [r|e] Hs; [|done]. simpl. f_equal. by eapply append_reply_id. }
  destruct Hb as [H1 H2]. unfold Session.commitEntry.
  assert (Hrun : ((e ← (Session.check_payload fuel w;; storage_run now (CallAppendEntry (p_content w) lane));
                   mret (Session.reply_id e)) : M St SessionError string) st =
                 (Session.check_payload fuel w;; r ← storage_run now (CallAppendEntry (p_content w) lane);
                  mret (Session.reply_id r)) st).
  { mrun. by destruct (Session.check_payload fuel w st) as [st' [[]|e]]. }
  rewrite Hrun. split; [done|]. intros Hp. rewrite (H2 Hp).
  destruct (storage_step _ _ _) as [s' r] eqn:Hs. by rewrite (Heq s' r).
Qed.

Lemma commit_plain {T} now c (p : Payload T) (st : St) :
  state_wf (storage_view st) ->
  eventually (fun fuel => checked now c id p st ((Session.check_payload fuel p;; storage_run now c) st)).
Proof.
  intros Hwf. eapply eventually_mono; [|exact (commit_spec now c id p st Hwf)]. intros fuel. mrun. destruct (Session.check_payload fuel p st) as [st' [[]|e]]; [|done].
  by destruct (storage_run now c st') as [st'' [r|e]].
Qed.
End writes.

(** C31. Every write of the session service is guarded: over any conforming storage,
    an entry, a record, a message or a custom entry whose payload is not a finite
    JSON value is refused as an invalid payload and leaves the storage as it is;
    any other payload has exactly the effect and the outcome the storage specifies,
    and appending through a view returns the identifier of the new entry. *)
Theorem session_writes_checked {St : Type} `{SessionStorageLaws St} (st : St) now lane :
  state_wf (storage_view st) ->
  (forall entry : Payload ProvisionedEntry, eventually (fun fuel =>
     checked now (CallAppendEntry (p_content entry) lane) id entry st (Session.commitEntry fuel now entry lane st))) /\
  (forall record : Payload NewRecord, eventually (fun fuel =>
     checked now (CallAppendRecord (p_content record)) id record st (Session.commitRecord fuel now record st))) /\
  (forall (message : Payload AgentMessage) i, eventually (fun fuel =>
     checked now (CallAppendEntry {| pe_id := i; pe_body := MessageEntry (p_content message) false |} lane)
       (fun _ => i) message st (Session.tree_appendMessage (Session.view fuel lane) now i message st))) /\
  (forall (data : Payload json) i customType, eventually (fun fuel =>
     checked now (CallAppendEntry {| pe_id := i; pe_body := CustomEntry customType (Some (p_content data)) |} lane)
       (fun _ => i) data st
       (Session.tree_appendCustomEntry (Session.view fuel lane) now i customType (Some data) st))).
Proof.
  intros Hwf. split_and!.
  - intros entry. by apply commit_plain.
  - intros record. by apply commit_plain.
  - intros message i.
    apply (append_wrapped now {| pe_id := i; pe_body := MessageEntry (p_content message) false |}); [done|done|].
    apply wrap_denotes.
  - intros data i customType.
    apply (append_wrapped now {| pe_id := i; pe_body := CustomEntry customType (Some (p_content data)) |}); [done|done|].
    apply wrap_denotes.
Qed.

(** ** Queries *)

Definition invalid_query_outcome {St A} (st : St) (out : St * result SessionError A) : Prop :=
  exists e, out = (st, Err e) /\ se_code e = invalid_query.

Lemma assertValidLimit_cases limit :
  (limit_ok limit /\ assertValidLimit limit = Ok tt) \/
  (~ limit_ok limit /\ exists e, assertValidLimit limit = Err e /\ se_code e = invalid_query).
Proof.
  rewrite <-assertValidLimit_ok. destruct (assertValidLimit limit) as [[]|e] eqn:Hl; [by left|right].
  split; [done|]. exists e. split; [done|]. revert Hl. unfold assertValidLimit.
  repeat case_match; by intros [= <-].
Qed.
Lemma assertValidCursor_cases cursor :
  (cursor_ok cursor /\ assertValidCursor cursor = Ok tt) \/
  (~ cursor_ok cursor /\ exists e, assertValidCursor cursor = Err e /\ se_code e = invalid_query).
Proof.
  rewrite <-assertValidCursor_ok. destruct (assertValidCursor cursor) as [[]|e] eqn:Hl; [by left|right].
  split; [done|]. exists e. split; [done|]. revert Hl. unfold assertValidCursor.
  repeat case_match; by intros [= <-].
Qed.

(** The guard in front of a query. *)
Lemma query_guard {St A} limit cursor (k : M St SessionError A) (st : St) :
  (limit_ok limit /\ cursor_ok cursor /\
   (lift (assertValidLimit limit);; lift (assertValidCursor cursor);; k) st = k st) \/
  (~ (limit_ok limit /\ cursor_ok cursor) /\
   invalid_query_outcome st ((lift (assertValidLimit limit);; lift (assertValidCursor cursor);; k) st)).
Proof.
  unfold invalid_query_outcome. mrun.
  destruct (assertValidLimit_cases limit) as [[H1 ->]|(H1 & e & -> & He)]; [|right; split; [tauto|eauto]].
  destruct (assertValidCursor_cases cursor) as [[H2 ->]|(H2 & e & -> & He)]; [by left|right; split; [tauto|eauto]].
Qed.

Lemma limit_one {A} (l : list A) : limit_take Session.one l = take 1 l.
Proof. done. Qed.
Lemma one_ok : limit_ok Session.one.
Proof. exists 1. split; [by vm_compute|lia]. Qed.
Lemma matches_with_limit e q n : matchesEntryQuery e (with_limit q n) = matchesEntryQuery e q.
Proof. done. Qed.
Lemma lookup_take_one {A} (l : list A) : take 1 l !! 0%nat = l !! 0%nat.
Proof. by destruct l. Qed.

Section queries.
Context {St : Type} `{SessionStorageLaws St}.

(** The leaf of a lane, as the pointers of [getLanes] give it. *)
Lemma getLeafId_spec lane (st : St) :
  Session.getLeafIdForLane lane st =
  (st, match jm_get lane (lanes (storage_view st)) with
       | Some leafId => Ok leafId
       | None => Err (sessionError invalid_lane ("Lane not found: " +:+ lane))
       end).
Proof.
  unfold Session.getLeafIdForLane, Session.getLanes, Session.read_storage, Session.query_storage, getLanes. mrun.
  induction (lanes (storage_view st)) as [|[k v] l IH]; [done|]. rewrite fmap_cons. cbn [list_find jm_get].
  destruct (decide (lane = k)) as [->|Hne]; [by rewrite decide_True|]. rewrite decide_False by (simpl; congruence).
  destruct (list_find _ _) as [[i p]|]; exact IH.
Qed.

Lemma queryEntries_spec q limit (st : St) :
  (limit_ok (q_limit q) /\ cursor_ok (q_cursor q) ->
   Session.queryEntries (Some q) limit st = (st, findEntries (Session.limited q limit) (storage_view st))) /\
  (~ (limit_ok (q_limit q) /\ cursor_ok (q_cursor q)) ->
   invalid_query_outcome st (Session.queryEntries (Some q) limit st)).
Proof.
  unfold Session.queryEntries. cbn [from_option]. unfold id.
  destruct (query_guard (q_limit q) (q_cursor q) (Session.query_storage (findEntries (Session.limited q limit))) st)
    as [(Hl & Hc & E)|[Hn E]]; split.
  - intros _. exact E.
  - intros Hn. by destruct Hn.
  - intros Hok. by destruct Hn.
  - intros _. exact E.
Qed.
Lemma queryRecords_spec q (st : St) :
  let ok := limit_ok (rq_limit q) /\ cursor_ok (rq_afterSeq q) /\
    (is_Some (rq_operationKind q) -> rq_type q = Some TyOperationStarted) in
  (ok -> Session.queryRecords (Some q) st =
     (st, Ok (limit_take (rq_limit q) (keep (fun r => matchesRecordQuery r q)
                (ordered (records (storage_view st)) (rq_order q)))))) /\
  (~ ok -> invalid_query_outcome st (Session.queryRecords (Some q) st)).
Proof.
  intros ok. unfold ok, Session.queryRecords. cbn [from_option]. unfold id.
  match goal with |- context [(lift _;; lift _;; ?k) st] =>
    destruct (query_guard (rq_limit q) (rq_afterSeq q) k st) as [(Hl & Hc & E)|[Hn E]] end.
  2: { split; [tauto|]. intros _. exact E. }
  rewrite E. clear E.
  assert (Hkind : (bool_decide (is_Some (rq_operationKind q)) && negb (bool_decide (rq_type q = Some TyOperationStarted)))
    = negb (bool_decide (is_Some (rq_operationKind q) -> rq_type q = Some TyOperationStarted))).
  { repeat case_bool_decide; simpl; tauto. }
  rewrite Hkind. clear Hkind.
  destruct (bool_decide_reflect (is_Some (rq_operationKind q) -> rq_type q = Some TyOperationStarted)) as [Hk|Hk];
    cbn [negb]; split.
  - intros _. unfold Session.query_storage, findRecords. mrun. rewrite (proj2 (assertValidLimit_ok _) Hl), (proj2 (assertValidCursor_ok _) Hc). by rewrite collect_spec.
  - intros Hn. by destruct Hn.
  - intros (_ & _ & Hk'). done.
  - intros _. eexists. split; [reflexivity|done].
Qed.

(** The lane of a branch query decides where it starts. *)
Lemma branch_from_leaf lane q b limit (st : St) :
  limit_ok (q_limit q) -> cursor_ok (q_cursor q) ->
  Session.queryBranchEntries lane (Some {| Session.bq_query := q; Session.bq_bounds := b; Session.bq_start := None |}) limit st =
  (st, match jm_get lane (lanes (storage_view st)) with
       | None => Err (sessionError invalid_lane ("Lane not found: " +:+ lane))
       | Some None => Ok []
       | Some (Some leaf) => findEntriesOnBranch (Session.limited q limit) b leaf (storage_view st)
       end).
Proof.
  intros Hl Hc. unfold Session.queryBranchEntries. cbn [from_option Session.bq_query Session.bq_bounds Session.bq_start].
  unfold id. cbn [Session.bq_query Session.bq_bounds Session.bq_start].
  apply assertValidLimit_ok in Hl. apply assertValidCursor_ok in Hc.
  unfold Session.query_storage. mrun. rewrite Hl, Hc, getLeafId_spec.
  by destruct (jm_get lane (lanes (storage_view st))) as [[leaf|]|].
Qed.
End queries.

(** Queries are guarded and mean what the storage means by them: an invalid
    limit, an invalid cursor or an operation kind without the record type
    "operation_started" is refused as an invalid query; a valid entry or record
    query returns the matching items in the requested order up to the limit, and a
    single-entry query returns the first of them whatever the limit is. *)
Theorem session_queries_spec {St : Type} `{SessionStorageLaws St} (st : St) fuel lane q rq :
  let s := storage_view st in
  let matching := keep (fun e => matchesEntryQuery e q) (ordered (entries s) (q_order q)) in
  let query_ok := limit_ok (q_limit q) /\ cursor_ok (q_cursor q) in
  let records_ok := limit_ok (rq_limit rq) /\ cursor_ok (rq_afterSeq rq) /\
    (is_Some (rq_operationKind rq) -> rq_type rq = Some TyOperationStarted) in
  (query_ok ->
     Session.tree_findEntries (Session.view fuel lane) (Some q) st = (st, Ok (limit_take (q_limit q) matching)) /\
     Session.tree_findEntry (Session.view fuel lane) (Some q) st = (st, Ok (matching !! 0%nat))) /\
  (~ query_ok ->
     invalid_query_outcome st (Session.tree_findEntries (Session.view fuel lane) (Some q) st) /\
     invalid_query_outcome st (Session.tree_findEntry (Session.view fuel lane) (Some q) st)) /\
  (records_ok -> Session.queryRecords (Some rq) st =
     (st, Ok (limit_take (rq_limit rq) (keep (fun r => matchesRecordQuery r rq) (ordered (records s) (rq_order rq)))))) /\
  (~ records_ok -> invalid_query_outcome st (Session.queryRecords (Some rq) st)).
Proof.
  intros s matching query_ok records_ok.
  destruct (queryEntries_spec q None st) as [H1 H2]. destruct (queryEntries_spec q Session.one st) as [H3 H4].
  destruct (queryRecords_spec rq st) as [H5 H6].
  unfold Session.view, Session.tree_findEntries, Session.tree_findEntry, Session.first. split_and!; [| |done|done].
  - intros Hok. rewrite (H1 Hok). destruct Hok as [Hl Hc]. simpl Session.limited.
    split; [by rewrite findEntries_eq|]. revert H3. mrun. intros ->; [|done].
    rewrite findEntries_eq by (apply one_ok || done). cbn [q_limit Session.limited]. rewrite limit_one, lookup_take_one. done.
  - intros Hok. split; [by apply H2|]. destruct (H4 Hok) as (e & He & Hcode). exists e. split; [|done]. mrun. by rewrite He.
Qed.

(** A lane-scoped view reads its lane's branch: a branch query without a start
    scans the chain of parents from the lane's leaf, an empty lane has no entries, an
    unknown lane is an error, and the single-entry query returns the first entry the
    query would return, whatever its limit. *)
Theorem view_branch_spec {St : Type} `{SessionStorageLaws St} (st : St) fuel lane q b :
  let s := storage_view st in
  let query := Some {| Session.bq_query := q; Session.bq_bounds := b; Session.bq_start := None |} in
  let all := Session.tree_findEntriesOnBranch (Session.view fuel lane) query st in
  let single := Session.tree_findEntryOnBranch (Session.view fuel lane) query st in
  state_wf s -> limit_ok (q_limit q) -> cursor_ok (q_cursor q) ->
  match jm_get lane (lanes s) with
  | None => exists e, all = (st, Err e) /\ single = (st, Err e) /\ se_code e = invalid_lane
  | Some None => all = (st, Ok []) /\ single = (st, Ok None)
  | Some (Some leaf) => exists e path,
      entriesById s !! leaf = Some e /\ root_path (entriesById s) e path /\
      let found := keep (fun x => matchesEntryQuery x q) (upto (bound_hit b) (branch_view q path)) in
      all = (st, Ok (limit_take (q_limit q) found)) /\ single = (st, Ok (found !! 0%nat))
  end.
Proof.
  intros s query all single Hwf Hl Hc.
  assert (Hall : all = (st, match jm_get lane (lanes s) with
    | None => Err (sessionError invalid_lane ("Lane not found: " +:+ lane))
    | Some None => Ok []
    | Some (Some leaf) => findEntriesOnBranch q b leaf s end)) by by apply branch_from_leaf.
  assert (Hsingle : single = (st, map_ok (fun l => l !! 0%nat) match jm_get lane (lanes s) with
    | None => Err (sessionError invalid_lane ("Lane not found: " +:+ lane))
    | Some None => Ok []
    | Some (Some leaf) => findEntriesOnBranch (with_limit q Session.one) b leaf s end)).
  { unfold single, query, Session.view, Session.tree_findEntryOnBranch, Session.first. mrun.
    rewrite (branch_from_leaf lane q b Session.one st Hl Hc). fold s.
    destruct (jm_get lane (lanes s)) as [[leaf|]|]; [|done|done].
    change (Session.limited q Session.one) with (with_limit q Session.one).
    by destruct (findEntriesOnBranch (with_limit q Session.one) b leaf s). }
  destruct (jm_get lane (lanes s)) as [[leaf|]|] eqn:Hlane.
  - destruct (wf_leaves s Hwf _ _ Hlane) as [e He].
    destruct (findEntriesOnBranch_eq s q b leaf e Hwf He Hl Hc) as (path & Hpath & E1).
    destruct (findEntriesOnBranch_eq s (with_limit q Session.one) b leaf e Hwf He one_ok Hc) as (path' & Hpath' & E2).
    rewrite <-(root_path_det _ _ _ _ Hpath Hpath') in E2.
    exists e, path. split_and!; [done|done|]. split; [by rewrite Hall, E1|].
    rewrite Hsingle, E2. cbn [map_ok q_limit with_limit]. by rewrite limit_one, lookup_take_one.
  - done.
  - eexists. by split_and!.
Qed.

(** ** The theorems at the sample session *)

Definition sample_message : Payload AgentMessage :=
  {| p_heap := {[ 7%nat := PayloadObject true false [(js "role", true, DataProperty (VString (js "user")));
                            (js "content", true, DataProperty (VString (js "hello")))] ]};
     p_value := VObject 7; p_content := UserMsg (PlainText "hello") num_zero |}.
Definition cyclic_message : Payload AgentMessage :=
  {| p_heap := {[ 7%nat := PayloadObject true false [(js "content", true, DataProperty (VObject 7))] ]};
     p_value := VObject 7; p_content := UserMsg (PlainText "hello") num_zero |}.
Example sample_message_checked : assertJsonSerializable 10 (p_heap sample_message) (p_value sample_message) = Some (Ok tt).
Proof. by vm_compute. Qed.
Example cyclic_message_checked :
  assertJsonSerializable 10 (p_heap cyclic_message) (p_value cyclic_message) = Some (Err (invalidPayload "contains a cycle")).
Proof. by vm_compute. Qed.

Lemma sample_storage_wf : state_wf (storage_view sample_storage).
Proof. exact sample_wf. Qed.

Lemma all_query_limit : limit_ok (q_limit all_query).
Proof. exists 2. split; [by vm_compute|lia]. Qed.

Lemma session_writes_checked_witness :
  eventually (fun fuel =>
    checked 5 (CallAppendEntry {| pe_id := "e9"; pe_body := MessageEntry (p_content sample_message) false |} "side")
      (fun _ => "e9") sample_message sample_storage
      (Session.tree_appendMessage (Session.view fuel "side") 5 "e9" sample_message sample_storage)) /\
  exists e, (Session.commitRecord 10 5 {| p_heap := p_heap cyclic_message; p_value := VObject 7;
    p_content := {| nr_id := "r"; nr_lane := "main"; nr_body := RAbortRequested "op2" |} |} sample_storage).2 = Err e.
Proof.
  destruct (session_writes_checked sample_storage 5 "side" sample_storage_wf) as (_ & _ & H & _).
  split; [apply H|eexists; vm_compute; reflexivity].
Defined.

Lemma session_queries_spec_witness :
  exists e, Session.tree_findEntry (Session.view 0 "main") (Some all_query) sample_storage = (sample_storage, Ok (Some e)) /\
    e_id e = "e4".
Proof.
  destruct (session_queries_spec sample_storage 0 "main" all_query no_record_query) as [H _].
  destruct (H (conj all_query_limit I)) as [_ H2].
  exists (sample_entry "e4" 10 (Some "e2") "last").
  split; [etransitivity; [exact H2|vm_compute; reflexivity]|reflexivity].
Defined.

Lemma view_branch_spec_witness :
  exists e path, entriesById sample !! "e3" = Some e /\ root_path (entriesById sample) e path /\
    (Session.tree_findEntryOnBranch (Session.view 0 "side") (Some {| Session.bq_query := all_query;
       Session.bq_bounds := no_bounds; Session.bq_start := None |}) sample_storage).2 =
    Ok (keep (fun x => matchesEntryQuery x all_query) (upto (bound_hit no_bounds) (branch_view all_query path)) !! 0%nat).
Proof.
  assert (Hlane : jm_get "side" (lanes (storage_view sample_storage)) = Some (Some "e3")) by (vm_compute; reflexivity).
  pose proof (view_branch_spec sample_storage 0 "side" all_query no_bounds sample_storage_wf
    all_query_limit I) as H.
  rewrite Hlane in H. destruct H as (e & path & He & Hpath & _ & H). exists e, path. split_and!; [done|done|]. by rewrite H.
Defined.
