(* ===== verification/ToolExecution.v ===== *)
(** * Admission and outcome of effects
    (packages/agent/src/run-scope.ts, packages/agent/src/tool-outcome.ts,
    packages/agent/src/harness/tools/bash-outcome.ts)

    [RunScope] decides whether an effect of a run may still start;
    [getToolErrorOutcome] decides what is known about an effect that failed. *)
From Stdlib Require Import SpecFloat.
From S2P Require Import Prelude JsNumber SessionTypes JsonText.

(** ** Run scopes *)

Module RunScope.
Inductive RunScopeState := Reserved | Active | Settling | Settled.
#[export] Instance RunScopeState_eq_dec : EqDecision RunScopeState.
Proof. solve_decision. Defined.

(** [aborted]: the controller's signal; [resolved]: the settled promise. *)
Record RunScope := {
  runId : string;
  generation : Z;
  state : RunScopeState;
  cancelRequested : bool;
  aborted : bool;
  resolved : bool }.

Definition new_RunScope (runId : string) (generation : Z) : RunScope :=
  {| runId := runId; generation := generation; state := Reserved; cancelRequested := false;
     aborted := false; resolved := false |}.

Definition set_state (st : RunScopeState) (s : RunScope) : RunScope :=
  {| runId := runId s; generation := generation s; state := st; cancelRequested := cancelRequested s;
     aborted := aborted s; resolved := resolved s |}.
Definition set_cancelRequested (s : RunScope) : RunScope :=
  {| runId := runId s; generation := generation s; state := state s; cancelRequested := true;
     aborted := aborted s; resolved := resolved s |}.
(** [controller.abort()] *)
Definition abort (s : RunScope) : RunScope :=
  {| runId := runId s; generation := generation s; state := state s;
     cancelRequested := cancelRequested s; aborted := true; resolved := resolved s |}.
Definition resolveSettled (s : RunScope) : RunScope :=
  {| runId := runId s; generation := generation s; state := state s;
     cancelRequested := cancelRequested s; aborted := aborted s; resolved := true |}.

Definition state_name (st : RunScopeState) : string :=
  match st with Reserved => "reserved" | Active => "active" | Settling => "settling" | Settled => "settled" end.

Definition activate : M RunScope string unit :=
  s ← get;
  throw_if (negb (bool_decide (state s = Reserved)))
    ("Cannot activate run scope in state " +:+ state_name (state s));;
  modify (set_state Active).

Definition requestCancel (s : RunScope) : RunScope :=
  if bool_decide (state s = Settled) then s else abort (set_cancelRequested s).

(** The generation defaults to the scope's own. *)
Definition canAdmit (g : option Z) (s : RunScope) : bool :=
  bool_decide (state s = Active) && negb (cancelRequested s) && negb (aborted s) &&
  (default (generation s) g =? generation s).

Definition settle (s : RunScope) : RunScope :=
  if bool_decide (state s = Settled) then s
  else resolveSettled (set_state Settled (set_state Settling s)).

(** What the owner of a scope and the holders of its controller can do. *)
Inductive scope_op := OpActivate | OpCancel | OpAbort | OpSettle.
#[export] Instance scope_op_eq_dec : EqDecision scope_op.
Proof. solve_decision. Defined.

(** An operation; an activation that throws leaves the scope as it is. *)
Definition run_op (s : RunScope) (o : scope_op) : RunScope :=
  match o with
  | OpActivate => (activate s).1
  | OpCancel => requestCancel s
  | OpAbort => abort s
  | OpSettle => settle s
  end.
Definition run (ops : list scope_op) (s : RunScope) : RunScope := foldl run_op s ops.

(** Whether an operation occurred. *)
Definition has (o : scope_op) (ops : list scope_op) : bool := bool_decide (o ∈ ops).

Lemma has_snoc o ops o' : has o (ops ++ [o']) = has o ops || bool_decide (o = o').
Proof.
  unfold has. apply eq_true_iff_eq. rewrite orb_true_iff, !bool_decide_eq_true, elem_of_app, list_elem_of_singleton.
  naive_solver.
Qed.
Lemma has_true o ops : has o ops = true <-> o ∈ ops.
Proof. apply bool_decide_eq_true. Qed.

(** The fields of a scope, from its history; the flags of a settled scope no longer
    matter. *)
Definition state_after (ops : list scope_op) : RunScopeState :=
  if has OpSettle ops then Settled else if has OpActivate ops then Active else Reserved.
Definition flags_after (ops : list scope_op) (s : RunScope) : bool :=
  has OpSettle ops ||
  (eqb (cancelRequested s) (has OpCancel ops) && eqb (aborted s) (has OpCancel ops || has OpAbort ops)).

Lemma run_history id g ops :
  let s := run ops (new_RunScope id g) in
  generation s = g /\ state s = state_after ops /\ resolved s = has OpSettle ops /\ flags_after ops s = true.
Proof.
  induction ops as [|o ops IH] using rev_ind; [done|].
  unfold run in *. rewrite foldl_app. cbn [foldl]. set (s := foldl _ _ ops) in *. clearbody s. revert IH.
  destruct s as [i g' st c a r]. unfold state_after, flags_after. cbn [generation state resolved cancelRequested aborted].
  rewrite !has_snoc.
  intros (-> & -> & -> & Hf); revert Hf.
  destruct (has OpSettle ops), (has OpActivate ops), (has OpCancel ops), (has OpAbort ops), c, a; cbn;
    try done; destruct o; done.
Qed.

(** An effect is admitted exactly while its run is under way: after any sequence
    of operations a scope admits an effect if and only if it was activated, and was
    neither cancelled, aborted through its controller, nor settled, and the effect
    belongs to its generation; the promise of settlement is resolved exactly when
    the scope was settled. *)
Theorem run_scope_admission id g ops request :
  let s := run ops (new_RunScope id g) in
  (canAdmit request s = true <->
     OpActivate ∈ ops /\ (OpCancel ∉ ops) /\ (OpAbort ∉ ops) /\ (OpSettle ∉ ops) /\ default g request = g) /\
  (resolved s = true <-> OpSettle ∈ ops).
Proof.
  intros s. destruct (run_history id g ops) as (H1 & H2 & H3 & H4). fold s in H1, H2, H3, H4. clearbody s.
  split; [|by rewrite H3, has_true].
  rewrite <-!has_true. unfold canAdmit, state_after, flags_after in *. rewrite H2, H1. revert H4.
  rewrite !andb_true_iff, Z.eqb_eq.
  destruct (has OpSettle ops), (has OpActivate ops), (has OpCancel ops), (has OpAbort ops), (cancelRequested s), (aborted s);
    cbn; naive_solver.
Qed.
End RunScope.

(** ** Outcomes of failed tool calls *)

Inductive ToolExecutionOutcome := NotStarted | Confirmed | Unknown.
Inductive SideEffects := SideEffectsNone | SideEffectsFilesystem | SideEffectsProcess | SideEffectsExternal.

(** The fields of [ToolContract] the classification reads. *)
Record ToolContract := { tc_readOnly : option bool; tc_idempotent : option bool; tc_sideEffects : option SideEffects }.
Record ReplaySafeToolLike := { rst_contract : option ToolContract; rst_orchestratesTools : option bool }.

(** [AgentToolError]: what its constructor stores of its options. *)
Record AgentToolErrorOptions := { eo_nestedUnknown : bool; eo_executionOutcome : option ToolExecutionOutcome }.
Record AgentToolError := {
  te_details : json; te_executionOutcome : ToolExecutionOutcome; te_nestedUnknown : bool }.
Definition new_AgentToolError (details : json) (options : option AgentToolErrorOptions) : AgentToolError :=
  {| te_details := details;
     te_executionOutcome := default Unknown (o ← options; eo_executionOutcome o);
     te_nestedUnknown := match options with Some o => eo_nestedUnknown o | None => false end |}.

Definition is_object (v : json) : bool :=
  match v with JsonObject _ | JsonArray _ => true | _ => false end.

Definition is_string (v : option json) : bool := match v with Some (JsonString _) => true | _ => false end.
Definition is_false (v : option json) : bool := match v with Some (JsonBool false) => true | _ => false end.
Definition is_null (v : option json) : bool := match v with Some JsonNull => true | _ => false end.
(** [value >= 0] *)
Definition num_nonneg (n : number) : bool :=
  match n with
  | S754_zero _ => true
  | S754_finite s _ _ | S754_infinity s => negb s
  | S754_nan => false
  end.

Definition hasConfirmedBashExit (toolName : string) (details : json) : bool :=
  if negb (bool_decide (toolName = "bash")) || negb (is_object details) then false
  else
    is_string (prop details "command") &&
    is_string (prop details "cwd") &&
    match prop details "terminationReason" with Some (JsonString r) => bool_decide (r = "exit") | _ => false end &&
    match prop details "exitCode" with Some (JsonNumber n) => num_is_safe_integer n && num_nonneg n | _ => false end &&
    is_null (prop details "signal") &&
    is_false (prop details "terminationRequested") &&
    is_false (prop details "timedOut") &&
    negb (bool_decide (is_Some (prop details "backgroundTaskId"))) &&
    match prop details "durationMs" with Some (JsonNumber n) => num_is_finite n && num_nonneg n | _ => false end.

Definition isReplaySafeTool (tool : option ReplaySafeToolLike) : bool :=
  match tool with
  | None => false
  | Some t =>
      if default false (rst_orchestratesTools t) then false else
      match rst_contract t with
      | None => false
      | Some contract =>
          default false (tc_readOnly contract) || default false (tc_idempotent contract) ||
          match tc_sideEffects contract with Some SideEffectsNone => true | _ => false end
      end
  end.

(** [error]: an [AgentToolError], or another exception. *)
Definition getToolErrorOutcome (error : option AgentToolError) (toolName : string) (args : json)
    (tool : option ReplaySafeToolLike) : ToolExecutionOutcome :=
  let by_contract := if isReplaySafeTool tool then Confirmed else Unknown in
  match error with
  | None => by_contract
  | Some e =>
      if te_nestedUnknown e then Unknown else
      match te_executionOutcome e with
      | NotStarted => NotStarted
      | Confirmed => Confirmed
      | Unknown =>
          if hasConfirmedBashExit toolName (te_details e) && is_object args &&
             match prop (te_details e) "command", prop args "command" with
             | Some (JsonString c), Some (JsonString c') => bool_decide (c = c')
             | _, _ => false
             end
          then Confirmed else by_contract
      end
  end.

(** A composed effect whose outcome is unknown is never downgraded, and an
    orchestrator's own contract confirms nothing. *)
Lemma nested_unknown_stays error toolName args tool :
  te_nestedUnknown error = true -> getToolErrorOutcome (Some error) toolName args tool = Unknown.
Proof. unfold getToolErrorOutcome. by intros ->. Qed.
Lemma orchestrator_unknown toolName args contract :
  getToolErrorOutcome None toolName args
    (Some {| rst_contract := contract; rst_orchestratesTools := Some true |}) = Unknown.
Proof. done. Qed.
