(* ===== verification/Validation.v ===== *)
(** * Validation of durable values (packages/agent/src/harness/session/validation.ts)

    The validators read a value of unknown type; [None] is [undefined].  An [Err]
    is the message of the error they throw. *)
From S2P Require Import Prelude JsNumber SessionTypes JsonText.

Definition V := result string unit.

Definition requireValue (valid : bool) (field : string) : V :=
  if valid then Ok tt else Err ("Invalid durable " +:+ field).

(** [object]: returns its argument. *)
Definition object (value : option json) (field : string) : result string json :=
  match value with
  | Some (JsonObject props) => Ok (JsonObject props)
  | _ => Err ("Invalid durable " +:+ field)
  end.

Definition string_ (value : option json) (field : string) : V :=
  requireValue match value with Some (JsonString _) => true | _ => false end field.
Definition number_ (value : option json) (field : string) : V :=
  requireValue match value with Some (JsonNumber n) => num_is_finite n | _ => false end field.
Definition integer (value : option json) (minimum : Z) (field : string) : V :=
  requireValue match value with
               | Some (JsonNumber n) =>
                   num_is_safe_integer n && match num_to_Z n with Some z => minimum <=? z | None => false end
               | _ => false
               end field.
Definition boolean (value : option json) (field : string) : V :=
  requireValue match value with Some (JsonBool _) => true | _ => false end field.
Definition nullableId (value : option json) (field : string) : V :=
  match value with Some JsonNull => Ok tt | _ => string_ value field end.

(** [value === s] *)
Definition is_str (value : option json) (s : string) : bool :=
  match value with Some (JsonString t) => String.eqb t s | _ => false end.
Definition is_true (value : option json) : bool := match value with Some (JsonBool true) => true | _ => false end.
Definition is_undefined (value : option json) : bool := match value with None => true | _ => false end.

Definition oneOf (value : option json) (values : list string) (field : string) : V :=
  requireValue (existsb (is_str value) values) field.

(** [for (const item of items) f(item)] *)
Fixpoint for_each {A} (f : A -> V) (items : list A) : V :=
  match items with
  | [] => Ok tt
  | item :: items' => _ ← f item; for_each f items'
  end.
Definition array (value : option json) (field : string) (validate : option json -> string -> V) : V :=
  match value with
  | Some (JsonArray items) => for_each (fun item => validate (Some item) field) items
  | _ => Err ("Invalid durable " +:+ field)
  end.
Definition optional (value : option json) (field : string) (validate : option json -> string -> V) : V :=
  match value with None => Ok tt | Some _ => validate value field end.

Definition usage (value : option json) (field : string) : V :=
  data ← object value field;
  _ ← for_each (fun key => number_ (prop data key) (field +:+ "." +:+ key))
    ["input"; "output"; "cacheRead"; "cacheWrite"; "totalTokens"];
  _ ← for_each (fun key => optional (prop data key) (field +:+ "." +:+ key) number_) ["cacheWrite1h"; "reasoning"];
  cost ← object (prop data "cost") (field +:+ ".cost");
  for_each (fun key => number_ (prop cost key) (field +:+ ".cost." +:+ key))
    ["input"; "output"; "cacheRead"; "cacheWrite"; "total"].

(** The callback of [message_content]. *)
Definition content_block (allowed : list string) (item : option json) : V :=
  block ← object item "content block";
  let type := prop block "type" in
  _ ← oneOf type allowed "content type";
  if is_str type "text" then string_ (prop block "text") "text"
  else if is_str type "image" then
    _ ← string_ (prop block "data") "image data";
    string_ (prop block "mimeType") "image mimeType"
  else if is_str type "thinking" then string_ (prop block "thinking") "thinking"
  else if is_str type "toolCall" then
    _ ← string_ (prop block "id") "tool call id";
    _ ← string_ (prop block "name") "tool call name";
    _ ← object (prop block "arguments") "tool call arguments";
    Ok tt
  else Ok tt.
Definition message_content (value : option json) (allowed : list string) : V :=
  array value "message.content" (fun item _ => content_block allowed item).

Definition userContent (value : option json) : V :=
  match value with
  | Some (JsonString _) => Ok tt
  | _ => message_content value ["text"; "image"]
  end.

Definition stop_reasons : list string := ["pending"; "stop"; "length"; "toolUse"; "error"; "aborted"; "deferred"].

Definition assistant_fields (data : json) : V :=
  _ ← message_content (prop data "content") ["text"; "thinking"; "toolCall"];
  _ ← for_each (fun key => string_ (prop data key) key) ["api"; "provider"; "model"];
  _ ← usage (prop data "usage") "message usage";
  _ ← oneOf (prop data "stopReason") stop_reasons "stopReason";
  _ ← (if is_undefined (prop data "isResponseCheckpoint") then Ok tt
       else requireValue (is_true (prop data "isResponseCheckpoint")) "isResponseCheckpoint");
  if is_undefined (prop data "deferred") then Ok tt
  else
    deferred ← object (prop data "deferred") "deferred handle";
    _ ← for_each (fun key => string_ (prop deferred key) ("deferred." +:+ key)) ["provider"; "modelId"; "api"; "id"];
    _ ← optional (prop deferred "expiresAt") "deferred.expiresAt" number_;
    optional (prop deferred "pollAfterMs") "deferred.pollAfterMs" number_.

Definition toolResult_fields (data : json) : V :=
  _ ← string_ (prop data "toolCallId") "toolCallId";
  _ ← string_ (prop data "toolName") "toolName";
  _ ← message_content (prop data "content") ["text"; "image"];
  _ ← boolean (prop data "isError") "isError";
  optional (prop data "usage") "tool usage" usage.

Definition bashExecution_fields (data : json) : V :=
  _ ← string_ (prop data "command") "command";
  _ ← string_ (prop data "output") "output";
  _ ← optional (prop data "exitCode") "exitCode" number_;
  _ ← boolean (prop data "cancelled") "cancelled";
  boolean (prop data "truncated") "truncated".

Definition custom_fields (data : json) : V :=
  _ ← string_ (prop data "customType") "customType";
  _ ← userContent (prop data "content");
  boolean (prop data "display") "display".

Definition branchSummary_fields (data : json) : V :=
  _ ← string_ (prop data "summary") "summary";
  string_ (prop data "fromId") "fromId".

Definition compactionSummary_fields (data : json) : V :=
  _ ← string_ (prop data "summary") "summary";
  number_ (prop data "tokensBefore") "tokensBefore".

(** The fields the core owns of a message with this role; [None]: an application
    message. *)
Definition message_fields (role : option json) (data : json) : option V :=
  if is_str role "user" then Some (userContent (prop data "content"))
  else if is_str role "assistant" then Some (assistant_fields data)
  else if is_str role "toolResult" then Some (toolResult_fields data)
  else if is_str role "bashExecution" then Some (bashExecution_fields data)
  else if is_str role "custom" then Some (custom_fields data)
  else if is_str role "branchSummary" then Some (branchSummary_fields data)
  else if is_str role "compactionSummary" then Some (compactionSummary_fields data)
  else None.

Definition stored_message (value : option json) : V :=
  data ← object value "message";
  _ ← string_ (prop data "role") "message role";
  match message_fields (prop data "role") data with
  | None => Ok tt
  | Some fields => _ ← fields; number_ (prop data "timestamp") "message timestamp"
  end.

Definition assertDurableEntry (value : option json) : V :=
  entry ← object value "entry";
  _ ← string_ (prop entry "id") "entry id";
  let type := prop entry "type" in
  if is_str type "message" then
    _ ← stored_message (prop entry "message");
    if is_undefined (prop entry "terminate") then Ok tt
    else requireValue (is_true (prop entry "terminate")) "terminate"
  else if is_str type "model_change" then
    _ ← string_ (prop entry "provider") "provider";
    string_ (prop entry "modelId") "modelId"
  else if is_str type "thinking_level_change" then string_ (prop entry "thinkingLevel") "thinkingLevel"
  else if is_str type "active_tools_change" then array (prop entry "activeToolNames") "activeToolNames" string_
  else if is_str type "compaction" then
    _ ← string_ (prop entry "summary") "summary";
    _ ← array (prop entry "retainedTail") "retainedTail" (fun item _ => stored_message item);
    _ ← number_ (prop entry "tokensBefore") "tokensBefore";
    optional (prop entry "usage") "compaction usage" usage
  else if is_str type "branch_summary" then
    _ ← string_ (prop entry "fromId") "fromId";
    _ ← string_ (prop entry "summary") "summary";
    optional (prop entry "usage") "branch summary usage" usage
  else if is_str type "custom" then string_ (prop entry "customType") "customType"
  else Err "Invalid durable entry type".

(** The intent of an [operation_started] record. *)
Definition intent_fields (value : option json) : V :=
  intent ← object value "intent";
  let kind := prop intent "kind" in
  if is_str kind "run" then
    _ ← array (prop intent "originalPrompt") "originalPrompt" (fun item _ => stored_message item);
    _ ← array (prop intent "initialMessages") "initialMessages" (fun item _ => assertDurableEntry item);
    _ ← optional (prop intent "systemPromptOverride") "systemPromptOverride" string_;
    optional (prop intent "resumeData") "resumeData" (fun v f => _ ← object v f; Ok tt)
  else if is_str kind "compaction" then
    _ ← string_ (prop intent "resultEntryId") "resultEntryId";
    optional (prop intent "customInstructions") "customInstructions" string_
  else if is_str kind "navigation" then
    _ ← nullableId (prop intent "targetId") "targetId";
    _ ← boolean (prop intent "summarize") "summarize";
    for_each (fun key => optional (prop intent key) key string_) ["customInstructions"; "label"; "summaryEntryId"]
  else Err "Invalid durable operation kind".

Definition checkpoint_fields (record : json) : V :=
  _ ← string_ (prop record "resultEntryId") "resultEntryId";
  _ ← integer (prop record "attempt") 1 "attempt";
  _ ← stored_message (prop record "message");
  checkpoint ← object (prop record "message") "checkpoint";
  _ ← requireValue (is_str (prop checkpoint "role") "assistant" && is_true (prop checkpoint "isResponseCheckpoint"))
        "assistant checkpoint";
  _ ← (if is_undefined (prop record "continuationFailure") then Ok tt
       else
         _ ← stored_message (prop record "continuationFailure");
         failure ← object (prop record "continuationFailure") "continuationFailure";
         requireValue (is_str (prop failure "role") "assistant") "continuationFailure role");
  if is_undefined (prop record "retryAttempt") then Ok tt else integer (prop record "retryAttempt") 1 "retryAttempt".

Definition same_string (a b : option json) : bool :=
  match a, b with Some (JsonString s), Some (JsonString t) => String.eqb s t | _, _ => false end.

Definition reconciliation_fields (record : json) : V :=
  _ ← string_ (prop record "toolCallId") "toolCallId";
  _ ← string_ (prop record "resultEntryId") "resultEntryId";
  if is_str (prop record "type") "tool_reconciliation" then
    _ ← string_ (prop record "reason") "reason";
    if is_undefined (prop record "diagnostic") then Ok tt
    else
      _ ← stored_message (prop record "diagnostic");
      diagnostic ← object (prop record "diagnostic") "diagnostic";
      requireValue (is_str (prop diagnostic "role") "toolResult" &&
                    same_string (prop diagnostic "toolCallId") (prop record "toolCallId")) "tool diagnostic identity"
  else Ok tt.

Definition usage_fields (record : json) : V :=
  _ ← usage (prop record "usage") "usage";
  _ ← oneOf (prop record "cause")
        ["assistant"; "compaction"; "branch_summary"; "deferred_fetch"; "tool"; "hook"; "adjustment"] "usage cause";
  if is_str (prop record "cause") "adjustment" then
    _ ← optional (prop record "runId") "runId" string_;
    optional (prop record "entryId") "entryId" string_
  else
    _ ← string_ (prop record "runId") "runId";
    _ ← string_ (prop record "entryId") "entryId";
    if is_str (prop record "cause") "tool" then string_ (prop record "toolCallId") "toolCallId"
    else if is_str (prop record "cause") "hook" then Ok tt
    else
      _ ← integer (prop record "attempt") 1 "attempt";
      oneOf (prop record "stopReason") ["stop"; "length"; "toolUse"; "error"; "aborted"; "deferred"] "usage stopReason".

Definition assertDurableRecord (value : option json) : V :=
  record ← object value "record";
  _ ← string_ (prop record "id") "record id";
  _ ← string_ (prop record "lane") "record lane";
  let type := prop record "type" in
  _ ← (if negb (is_str type "operation_started") && negb (is_str type "queue_enqueued") &&
          negb (is_str type "queue_cancelled") && negb (is_str type "usage")
       then string_ (prop record "runId") "runId" else Ok tt);
  if is_str type "operation_started" then
    _ ← nullableId (prop record "sourceLeafId") "sourceLeafId";
    intent_fields (prop record "intent")
  else if is_str type "abort_requested" || is_str type "pause_requested" || is_str type "pause_cleared" then Ok tt
  else if is_str type "operation_finished" then
    _ ← oneOf (prop record "outcome") ["completed"; "aborted"; "failed"; "declined"] "outcome";
    if is_undefined (prop record "error") then Ok tt
    else
      error ← object (prop record "error") "operation error";
      _ ← string_ (prop error "code") "error code";
      string_ (prop error "message") "error message"
  else if is_str type "step_attempt" then
    _ ← oneOf (prop record "step") ["assistant"; "branch_summary"; "compaction"] "step";
    _ ← integer (prop record "attempt") 1 "attempt";
    _ ← string_ (prop record "resultEntryId") "resultEntryId";
    if is_str (prop record "step") "compaction"
    then oneOf (prop record "compactionReason") ["manual"; "threshold"; "overflow"] "compactionReason" else Ok tt
  else if is_str type "tool_started" then
    _ ← for_each (fun key => string_ (prop record key) key) ["assistantEntryId"; "toolCallId"; "toolName"; "resultEntryId"];
    _ ← integer (prop record "toolIndex") 0 "toolIndex";
    _ ← object (prop record "effectiveArgs") "effectiveArgs";
    _ ← optional (prop record "operationId") "operationId" string_;
    oneOf (prop record "replay") ["never"; "safe"] "replay"
  else if is_str type "tool_reconciliation" || is_str type "tool_reconciled" then reconciliation_fields record
  else if is_str type "assistant_checkpoint" then checkpoint_fields record
  else if is_str type "queue_enqueued" then
    _ ← oneOf (prop record "queue") ["nextRun"; "steer"; "followUp"] "queue";
    _ ← (if is_str (prop record "queue") "nextRun" then requireValue (is_undefined (prop record "runId")) "nextRun runId"
         else string_ (prop record "runId") "runId");
    assertDurableEntry (prop record "target")
  else if is_str type "queue_cancelled" then
    _ ← optional (prop record "runId") "runId" string_;
    string_ (prop record "entryId") "entryId"
  else if is_str type "write_deferred" then assertDurableEntry (prop record "target")
  else if is_str type "usage" then usage_fields record
  else Err "Invalid durable record type".
