(* ===== verification/DurableJson.v ===== *)
(** * The JSON form of durable values

    How the objects of the session data model (SessionTypes) look as JSON objects,
    property by property in the order the program creates them, and how a JSON value
    is read at its declared TypeScript type.  A value reads only if every property has
    its declared type; an optional one may be absent. *)
From S2P Require Import Prelude JsNumber SessionTypes JsonText Validation.

(** ** Building objects *)

Definition fields := list (string * json).
Definition str (k s : string) : string * json := (k, JsonString s).
Definition num (k : string) (n : number) : string * json := (k, JsonNumber n).
Definition int (k : string) (z : Z) : string * json := (k, JsonNumber (num_of_Z z)).
Definition boo (k : string) (b : bool) : string * json := (k, JsonBool b).
Definition arr (k : string) (l : list json) : string * json := (k, JsonArray l).

(** A property that is left out when it is [undefined]. *)
Definition opt {A} (k : string) (f : A -> json) (o : option A) : fields :=
  match o with Some a => [(k, f a)] | None => [] end.
(** [k?: true] *)
Definition flag (k : string) (b : bool) : fields := if b then [boo k true] else [].
(** [string | null] *)
Definition nullable (o : option string) : json := match o with Some s => JsonString s | None => JsonNull end.

Definition enc_cost (c : UsageCost) : json := JsonObject
  [num "input" (cost_input c); num "output" (cost_output c); num "cacheRead" (cost_cacheRead c);
   num "cacheWrite" (cost_cacheWrite c); num "total" (cost_total c)].
Definition enc_usage (u : Usage) : json := JsonObject (
  [num "input" (usage_input u); num "output" (usage_output u); num "cacheRead" (usage_cacheRead u);
   num "cacheWrite" (usage_cacheWrite u)] ++
  opt "cacheWrite1h" JsonNumber (usage_cacheWrite1h u) ++ opt "reasoning" JsonNumber (usage_reasoning u) ++
  [num "totalTokens" (usage_totalTokens u); ("cost", enc_cost (usage_cost u))]).

Definition stop_reason_name (s : StopReason) : string :=
  match s with
  | StopPending => "pending" | StopStop => "stop" | StopLength => "length" | StopToolUse => "toolUse"
  | StopError => "error" | StopAborted => "aborted" | StopDeferred => "deferred"
  end.

Definition enc_content (c : SessionTypes.content) : json :=
  match c with
  | TextContent text signature =>
      JsonObject ([str "type" "text"; str "text" text] ++ opt "textSignature" JsonString signature)
  | ThinkingContent thinking signature redacted =>
      JsonObject ([str "type" "thinking"; str "thinking" thinking] ++
        opt "thinkingSignature" JsonString signature ++ opt "redacted" JsonBool redacted)
  | ImageContent data mimeType => JsonObject [str "type" "image"; str "data" data; str "mimeType" mimeType]
  | ToolCallContent call =>
      JsonObject ([str "type" "toolCall"; str "id" (tc_id call); str "name" (tc_name call);
                   ("arguments", tc_arguments call)] ++
        opt "thoughtSignature" JsonString (tc_thoughtSignature call) ++
        opt "namespace" JsonString (tc_namespace call))
  end.
Definition enc_user_content (c : user_content) : json :=
  match c with PlainText s => JsonString s | Blocks l => JsonArray (enc_content <$> l) end.

Definition enc_deferred (d : DeferredHandle) : json := JsonObject (
  [str "provider" (dh_provider d); str "modelId" (dh_modelId d); str "api" (dh_api d); str "id" (dh_id d)] ++
  opt "expiresAt" JsonNumber (dh_expiresAt d) ++ opt "pollAfterMs" JsonNumber (dh_pollAfterMs d) ++
  opt "data" id (dh_data d)).

Definition enc_assistant (m : AssistantMessage) : json := JsonObject (
  [str "role" "assistant"; arr "content" (enc_content <$> am_content m); str "api" (am_api m);
   str "provider" (am_provider m); str "model" (am_model m)] ++
  opt "responseModel" JsonString (am_responseModel m) ++ opt "responseId" JsonString (am_responseId m) ++
  opt "serviceTier" id (am_serviceTier m) ++ opt "diagnostics" id (am_diagnostics m) ++
  [("usage", enc_usage (am_usage m)); str "stopReason" (stop_reason_name (am_stopReason m))] ++
  flag "isResponseCheckpoint" (am_isResponseCheckpoint m) ++ opt "deferred" enc_deferred (am_deferred m) ++
  opt "errorMessage" JsonString (am_errorMessage m) ++ opt "rawStopReason" JsonString (am_rawStopReason m) ++
  opt "endTurn" JsonBool (am_endTurn m) ++ [num "timestamp" (am_timestamp m)]).

Definition enc_strings (l : list string) : json := JsonArray (JsonString <$> l).

Definition enc_tool_result (m : ToolResultMessage) : json := JsonObject (
  [str "role" "toolResult"; str "toolCallId" (tr_toolCallId m); str "toolName" (tr_toolName m);
   arr "content" (enc_content <$> tr_content m)] ++
  opt "details" id (tr_details m) ++ opt "usage" enc_usage (tr_usage m) ++
  opt "addedToolNames" enc_strings (tr_addedToolNames m) ++ opt "structuredContent" id (tr_structuredContent m) ++
  opt "nestedCalls" id (tr_nestedCalls m) ++ opt "nestedExecutionOutcome" JsonString (tr_nestedExecutionOutcome m) ++
  [boo "isError" (tr_isError m); num "timestamp" (tr_timestamp m)]).

Definition enc_bash (m : BashExecutionMessage) : json := JsonObject (
  [str "role" "bashExecution"; str "command" (bx_command m); str "output" (bx_output m)] ++
  opt "exitCode" JsonNumber (bx_exitCode m) ++
  [boo "cancelled" (bx_cancelled m); boo "truncated" (bx_truncated m)] ++
  opt "fullOutputPath" JsonString (bx_fullOutputPath m) ++ [num "timestamp" (bx_timestamp m)] ++
  opt "excludeFromContext" JsonBool (bx_excludeFromContext m)).

(** An application message is its role and its own properties. *)
Definition object_props (v : json) : fields := match v with JsonObject props => props | _ => [] end.

Definition enc_message (m : AgentMessage) : json :=
  match m with
  | UserMsg c timestamp =>
      JsonObject [str "role" "user"; ("content", enc_user_content c); num "timestamp" timestamp]
  | AssistantMsg m => enc_assistant m
  | ToolResultMsg m => enc_tool_result m
  | BashExecutionMsg m => enc_bash m
  | CustomMsg customType c display details timestamp =>
      JsonObject ([str "role" "custom"; str "customType" customType; ("content", enc_user_content c);
                   boo "display" display] ++ opt "details" id details ++ [num "timestamp" timestamp])
  | BranchSummaryMsg summary fromId timestamp =>
      JsonObject [str "role" "branchSummary"; str "summary" summary; str "fromId" fromId; num "timestamp" timestamp]
  | CompactionSummaryMsg summary tokensBefore estimatedTokensAfter timestamp =>
      JsonObject ([str "role" "compactionSummary"; str "summary" summary; num "tokensBefore" tokensBefore] ++
        opt "estimatedTokensAfter" JsonNumber estimatedTokensAfter ++ [num "timestamp" timestamp])
  | AppMsg role payload => JsonObject (str "role" role :: object_props payload)
  end.

Definition enc_body (b : entry_body) : fields :=
  match b with
  | MessageEntry m terminate => ("message", enc_message m) :: flag "terminate" terminate
  | ModelChangeEntry provider modelId => [str "provider" provider; str "modelId" modelId]
  | ThinkingLevelEntry level => [str "thinkingLevel" level]
  | ActiveToolsEntry names => [("activeToolNames", enc_strings names)]
  | CompactionEntry summary retainedTail tokensBefore details u =>
      [str "summary" summary; arr "retainedTail" (enc_message <$> retainedTail); num "tokensBefore" tokensBefore] ++
      opt "details" id details ++ opt "usage" enc_usage u
  | BranchSummaryEntry fromId summary details u =>
      [str "fromId" fromId; str "summary" summary] ++ opt "details" id details ++ opt "usage" enc_usage u
  | CustomEntry customType data => str "customType" customType :: opt "data" id data
  end.
Definition entry_type_name (t : entry_type) : string :=
  match t with
  | TMessage => "message" | TModelChange => "model_change" | TThinkingLevelChange => "thinking_level_change"
  | TActiveToolsChange => "active_tools_change" | TCompaction => "compaction"
  | TBranchSummary => "branch_summary" | TCustom => "custom"
  end.
Definition enc_provisioned (e : ProvisionedEntry) : fields :=
  str "type" (entry_type_name (body_type (pe_body e))) :: str "id" (pe_id e) :: enc_body (pe_body e).
Definition enc_entry (e : Entry) : fields :=
  enc_provisioned {| pe_id := e_id e; pe_body := e_body e |} ++
  [("parentId", nullable (e_parentId e)); int "seq" (e_seq e); int "timestamp" (e_timestamp e)].

(** ** Records *)

Definition enc_intent (i : intent) : json :=
  match i with
  | IntentRun originalPrompt initialMessages systemPromptOverride resumeData =>
      JsonObject ([str "kind" "run"; arr "originalPrompt" (enc_message <$> originalPrompt);
                   arr "initialMessages" ((fun e => JsonObject (enc_provisioned e)) <$> initialMessages)] ++
        opt "systemPromptOverride" JsonString systemPromptOverride ++ opt "resumeData" id resumeData)
  | IntentCompaction customInstructions resultEntryId =>
      JsonObject (str "kind" "compaction" :: opt "customInstructions" JsonString customInstructions ++
        [str "resultEntryId" resultEntryId])
  | IntentNavigation targetId summarize customInstructions label summaryEntryId =>
      JsonObject ([str "kind" "navigation"; ("targetId", nullable targetId); boo "summarize" summarize] ++
        opt "customInstructions" JsonString customInstructions ++ opt "label" JsonString label ++
        opt "summaryEntryId" JsonString summaryEntryId)
  end.

Definition outcome_name (o : outcome) : string :=
  match o with OutCompleted => "completed" | OutAborted => "aborted" | OutFailed => "failed" | OutDeclined => "declined" end.
Definition step_name (s : step_kind) : string :=
  match s with StepAssistant => "assistant" | StepBranchSummary => "branch_summary" | StepCompaction => "compaction" end.
Definition replay_name (r : replay) : string := match r with ReplayNever => "never" | ReplaySafe => "safe" end.
Definition queue_name (q : queue_kind) : string :=
  match q with QSteer => "steer" | QFollowUp => "followUp" | QNextRun => "nextRun" end.
Definition usage_kind_name (k : usage_kind) : string :=
  match k with
  | UAssistant => "assistant" | UCompaction => "compaction" | UBranchSummary => "branch_summary"
  | UDeferredFetch => "deferred_fetch"
  end.

Definition enc_cause (c : usage_cause) : fields :=
  match c with
  | CauseStep kind runId entryId attempt stop =>
      [str "cause" (usage_kind_name kind); str "runId" runId; str "entryId" entryId; int "attempt" attempt;
       str "stopReason" (stop_reason_name stop)]
  | CauseTool runId entryId toolCallId =>
      [str "cause" "tool"; str "runId" runId; str "entryId" entryId; str "toolCallId" toolCallId]
  | CauseHook runId entryId => [str "cause" "hook"; str "runId" runId; str "entryId" entryId]
  | CauseAdjustment runId entryId details =>
      str "cause" "adjustment" :: opt "runId" JsonString runId ++ opt "entryId" JsonString entryId ++ opt "details" id details
  end.

Definition enc_error (e : string * string) : json := JsonObject [str "code" e.1; str "message" e.2].

Definition enc_record_body (b : record_body) : fields :=
  match b with
  | ROperationStarted r => [("sourceLeafId", nullable (os_sourceLeafId r)); ("intent", enc_intent (os_intent r))]
  | RAbortRequested runId | RPauseRequested runId | RPauseCleared runId => [str "runId" runId]
  | ROperationFinished r =>
      [str "runId" (of_runId r); str "outcome" (outcome_name (of_outcome r))] ++ opt "error" enc_error (of_error r)
  | RStepAttempt r =>
      [str "runId" (sa_runId r); str "step" (step_name (sa_step r)); int "attempt" (sa_attempt r);
       str "resultEntryId" (sa_resultEntryId r)] ++ opt "compactionReason" JsonString (sa_compactionReason r)
  | RToolStarted r =>
      [str "runId" (ts_runId r); str "assistantEntryId" (ts_assistantEntryId r); int "toolIndex" (ts_toolIndex r);
       str "toolCallId" (ts_toolCallId r); str "toolName" (ts_toolName r); ("effectiveArgs", ts_effectiveArgs r);
       str "resultEntryId" (ts_resultEntryId r)] ++ opt "operationId" JsonString (ts_operationId r) ++
      [str "replay" (replay_name (ts_replay r))]
  | RToolReconciliation r =>
      [str "runId" (tl_runId r); str "toolCallId" (tl_toolCallId r); str "resultEntryId" (tl_resultEntryId r);
       str "reason" (tl_reason r)] ++ opt "diagnostic" enc_tool_result (tl_diagnostic r)
  | RToolReconciled r =>
      [str "runId" (td_runId r); str "toolCallId" (td_toolCallId r); str "resultEntryId" (td_resultEntryId r)]
  | RAssistantCheckpoint r =>
      [str "runId" (ac_runId r); str "resultEntryId" (ac_resultEntryId r); int "attempt" (ac_attempt r);
       ("message", enc_assistant (ac_message r))] ++
      opt "continuationFailure" enc_assistant (ac_continuationFailure r) ++
      opt "retryAttempt" (fun z => JsonNumber (num_of_Z z)) (ac_retryAttempt r)
  | RQueueEnqueued r =>
      str "queue" (queue_name (qe_queue r)) :: opt "runId" JsonString (qe_runId r) ++
      [("target", JsonObject (enc_provisioned (qe_target r)))]
  | RQueueCancelled r => opt "runId" JsonString (qc_runId r) ++ [str "entryId" (qc_entryId r)]
  | RWriteDeferred r => [str "runId" (wd_runId r); ("target", JsonObject (enc_provisioned (wd_target r)))]
  | RUsage r => ("usage", enc_usage (ur_usage r)) :: enc_cause (ur_cause r)
  end.
Definition record_type_name (b : record_body) : string :=
  match b with
  | ROperationStarted _ => "operation_started" | RAbortRequested _ => "abort_requested"
  | RPauseRequested _ => "pause_requested" | RPauseCleared _ => "pause_cleared"
  | ROperationFinished _ => "operation_finished" | RStepAttempt _ => "step_attempt"
  | RToolStarted _ => "tool_started" | RToolReconciliation _ => "tool_reconciliation"
  | RToolReconciled _ => "tool_reconciled" | RAssistantCheckpoint _ => "assistant_checkpoint"
  | RQueueEnqueued _ => "queue_enqueued" | RQueueCancelled _ => "queue_cancelled"
  | RWriteDeferred _ => "write_deferred" | RUsage _ => "usage"
  end.
Definition enc_record (r : LaneRecord) : fields :=
  [str "id" (lr_id r); str "lane" (lr_lane r); str "type" (record_type_name (lr_body r))] ++
  enc_record_body (lr_body r) ++ [int "seq" (lr_seq r); int "timestamp" (r_timestamp (lr_base r))].

(** ** Reading *)

Definition as_string (v : json) : option string := match v with JsonString s => Some s | _ => None end.
Definition as_number (v : json) : option number := match v with JsonNumber n => Some n | _ => None end.
Definition as_bool (v : json) : option bool := match v with JsonBool b => Some b | _ => None end.
Definition as_array (v : json) : option (list json) := match v with JsonArray l => Some l | _ => None end.
Definition as_Z (v : json) : option Z := n ← as_number v; num_to_Z n.
(** [string | null] *)
Definition as_nullable (v : json) : option (option string) :=
  match v with JsonNull => Some None | JsonString s => Some (Some s) | _ => None end.

Definition as_object (v : json) : option json := match v with JsonObject _ => Some v | _ => None end.

(** A required property. *)
Definition req {A} (v : json) (k : string) (f : json -> option A) : option A := p ← prop v k; f p.
(** An optional property, which has its type when it is present. *)
Definition checked {A} (v : json) (k : string) (f : json -> option A) : option (option A) :=
  match prop v k with None => Some None | Some p => Some <$> f p end.
(** [k?: true] *)
Definition switch (v : json) (k : string) : option bool :=
  match prop v k with None => Some false | Some (JsonBool true) => Some true | _ => None end.

Definition read_cost (v : json) : option UsageCost :=
  i ← req v "input" as_number; o ← req v "output" as_number; cr ← req v "cacheRead" as_number;
  cw ← req v "cacheWrite" as_number; t ← req v "total" as_number;
  Some {| cost_input := i; cost_output := o; cost_cacheRead := cr; cost_cacheWrite := cw; cost_total := t |}.
Definition read_usage (v : json) : option Usage :=
  i ← req v "input" as_number; o ← req v "output" as_number; cr ← req v "cacheRead" as_number;
  cw ← req v "cacheWrite" as_number; t ← req v "totalTokens" as_number; c ← req v "cost" read_cost;
  h ← checked v "cacheWrite1h" as_number; r ← checked v "reasoning" as_number;
  Some {| usage_input := i; usage_output := o; usage_cacheRead := cr; usage_cacheWrite := cw;
          usage_cacheWrite1h := h; usage_reasoning := r;
          usage_totalTokens := t; usage_cost := c |}.

Definition stop_reason_of (v : json) : option StopReason :=
  s ← as_string v;
  if String.eqb s "pending" then Some StopPending else if String.eqb s "stop" then Some StopStop
  else if String.eqb s "length" then Some StopLength else if String.eqb s "toolUse" then Some StopToolUse
  else if String.eqb s "error" then Some StopError else if String.eqb s "aborted" then Some StopAborted
  else if String.eqb s "deferred" then Some StopDeferred else None.

(** A block of one of the types [allowed]. *)
Definition read_content (allowed : list string) (v : json) : option SessionTypes.content :=
  let type := prop v "type" in
  if negb (existsb (is_str type) allowed) then None
  else if is_str type "text" then
    t ← req v "text" as_string; s ← checked v "textSignature" as_string; Some (TextContent t s)
  else if is_str type "thinking" then
    t ← req v "thinking" as_string; s ← checked v "thinkingSignature" as_string; r ← checked v "redacted" as_bool;
    Some (ThinkingContent t s r)
  else if is_str type "image" then
    d ← req v "data" as_string; m ← req v "mimeType" as_string; Some (ImageContent d m)
  else if is_str type "toolCall" then
    i ← req v "id" as_string; n ← req v "name" as_string; a ← req v "arguments" as_object;
    s ← checked v "thoughtSignature" as_string; ns ← checked v "namespace" as_string;
    Some (ToolCallContent {| tc_id := i; tc_name := n; tc_arguments := a; tc_thoughtSignature := s; tc_namespace := ns |})
  else None.
Definition read_contents (allowed : list string) (v : json) : option (list SessionTypes.content) :=
  l ← as_array v; mapM (read_content allowed) l.
Definition user_blocks : list string := ["text"; "image"].
Definition assistant_blocks : list string := ["text"; "thinking"; "toolCall"].
Definition read_user_content (v : json) : option user_content :=
  match v with JsonString s => Some (PlainText s) | _ => Blocks <$> read_contents user_blocks v end.

Definition read_deferred (v : json) : option DeferredHandle :=
  p ← req v "provider" as_string; m ← req v "modelId" as_string; a ← req v "api" as_string; i ← req v "id" as_string;
  e ← checked v "expiresAt" as_number; w ← checked v "pollAfterMs" as_number;
  Some {| dh_provider := p; dh_modelId := m; dh_api := a; dh_id := i; dh_expiresAt := e; dh_pollAfterMs := w;
          dh_data := prop v "data" |}.

Definition read_assistant (v : json) : option AssistantMessage :=
  c ← req v "content" (read_contents assistant_blocks); api ← req v "api" as_string; p ← req v "provider" as_string;
  m ← req v "model" as_string; u ← req v "usage" read_usage; s ← req v "stopReason" stop_reason_of;
  d ← checked v "deferred" read_deferred; t ← req v "timestamp" as_number; k ← switch v "isResponseCheckpoint";
  rm ← checked v "responseModel" as_string; ri ← checked v "responseId" as_string;
  em ← checked v "errorMessage" as_string; rs ← checked v "rawStopReason" as_string; et ← checked v "endTurn" as_bool;
  Some {| am_content := c; am_api := api; am_provider := p; am_model := m;
          am_responseModel := rm; am_responseId := ri;
          am_serviceTier := prop v "serviceTier"; am_diagnostics := prop v "diagnostics"; am_usage := u;
          am_stopReason := s; am_isResponseCheckpoint := k; am_deferred := d; am_errorMessage := em; am_rawStopReason := rs;
          am_endTurn := et; am_timestamp := t |}.

Definition read_strings (v : json) : option (list string) := l ← as_array v; mapM as_string l.

Definition read_tool_result (v : json) : option ToolResultMessage :=
  i ← req v "toolCallId" as_string; n ← req v "toolName" as_string; c ← req v "content" (read_contents user_blocks);
  u ← checked v "usage" read_usage; e ← req v "isError" as_bool; t ← req v "timestamp" as_number;
  ns ← checked v "addedToolNames" read_strings; o ← checked v "nestedExecutionOutcome" as_string;
  Some {| tr_toolCallId := i; tr_toolName := n; tr_content := c; tr_details := prop v "details"; tr_usage := u;
          tr_addedToolNames := ns; tr_structuredContent := prop v "structuredContent";
          tr_nestedCalls := prop v "nestedCalls"; tr_nestedExecutionOutcome := o;
          tr_isError := e; tr_timestamp := t |}.

Definition read_bash (v : json) : option BashExecutionMessage :=
  c ← req v "command" as_string; o ← req v "output" as_string; ca ← req v "cancelled" as_bool;
  tr ← req v "truncated" as_bool; t ← req v "timestamp" as_number; x ← checked v "exitCode" as_number;
  p ← checked v "fullOutputPath" as_string; e ← checked v "excludeFromContext" as_bool;
  Some {| bx_command := c; bx_output := o; bx_exitCode := x; bx_cancelled := ca; bx_truncated := tr;
          bx_fullOutputPath := p; bx_timestamp := t; bx_excludeFromContext := e |}.

Definition core_roles : list string :=
  ["user"; "assistant"; "toolResult"; "bashExecution"; "custom"; "branchSummary"; "compactionSummary"].
Definition without (k : string) (props : fields) : fields := keep (fun kv => negb (String.eqb kv.1 k)) props.

Definition read_message (v : json) : option AgentMessage :=
  let role := prop v "role" in
  if is_str role "user" then
    c ← req v "content" read_user_content; t ← req v "timestamp" as_number; Some (UserMsg c t)
  else if is_str role "assistant" then AssistantMsg <$> read_assistant v
  else if is_str role "toolResult" then ToolResultMsg <$> read_tool_result v
  else if is_str role "bashExecution" then BashExecutionMsg <$> read_bash v
  else if is_str role "custom" then
    ct ← req v "customType" as_string; c ← req v "content" read_user_content; d ← req v "display" as_bool;
    t ← req v "timestamp" as_number; Some (CustomMsg ct c d (prop v "details") t)
  else if is_str role "branchSummary" then
    s ← req v "summary" as_string; f ← req v "fromId" as_string; t ← req v "timestamp" as_number;
    Some (BranchSummaryMsg s f t)
  else if is_str role "compactionSummary" then
    s ← req v "summary" as_string; tb ← req v "tokensBefore" as_number; t ← req v "timestamp" as_number;
    ea ← checked v "estimatedTokensAfter" as_number; Some (CompactionSummaryMsg s tb ea t)
  else r ← req v "role" as_string; Some (AppMsg r (JsonObject (without "role" (object_props v)))).
Definition read_messages (v : json) : option (list AgentMessage) := l ← as_array v; mapM read_message l.

Definition read_body (v : json) : option entry_body :=
  let type := prop v "type" in
  if is_str type "message" then
    m ← req v "message" read_message; t ← switch v "terminate"; Some (MessageEntry m t)
  else if is_str type "model_change" then
    p ← req v "provider" as_string; m ← req v "modelId" as_string; Some (ModelChangeEntry p m)
  else if is_str type "thinking_level_change" then ThinkingLevelEntry <$> req v "thinkingLevel" as_string
  else if is_str type "active_tools_change" then ActiveToolsEntry <$> req v "activeToolNames" read_strings
  else if is_str type "compaction" then
    s ← req v "summary" as_string; r ← req v "retainedTail" read_messages; t ← req v "tokensBefore" as_number;
    u ← checked v "usage" read_usage; Some (CompactionEntry s r t (prop v "details") u)
  else if is_str type "branch_summary" then
    f ← req v "fromId" as_string; s ← req v "summary" as_string; u ← checked v "usage" read_usage;
    Some (BranchSummaryEntry f s (prop v "details") u)
  else if is_str type "custom" then c ← req v "customType" as_string; Some (CustomEntry c (prop v "data"))
  else None.
Definition read_provisioned (v : json) : option ProvisionedEntry :=
  i ← req v "id" as_string; b ← read_body v; Some {| pe_id := i; pe_body := b |}.

Definition read_intent (v : json) : option intent :=
  let kind := prop v "kind" in
  if is_str kind "run" then
    o ← req v "originalPrompt" read_messages;
    i ← req v "initialMessages" (fun a => l ← as_array a; mapM read_provisioned l);
    s ← checked v "systemPromptOverride" as_string; d ← checked v "resumeData" as_object; Some (IntentRun o i s d)
  else if is_str kind "compaction" then
    r ← req v "resultEntryId" as_string; c ← checked v "customInstructions" as_string; Some (IntentCompaction c r)
  else if is_str kind "navigation" then
    t ← req v "targetId" as_nullable; s ← req v "summarize" as_bool;
    c ← checked v "customInstructions" as_string; l ← checked v "label" as_string;
    e ← checked v "summaryEntryId" as_string; Some (IntentNavigation t s c l e)
  else None.

Definition outcome_of (v : json) : option outcome :=
  s ← as_string v;
  if String.eqb s "completed" then Some OutCompleted else if String.eqb s "aborted" then Some OutAborted
  else if String.eqb s "failed" then Some OutFailed else if String.eqb s "declined" then Some OutDeclined else None.
Definition step_of (v : json) : option step_kind :=
  s ← as_string v;
  if String.eqb s "assistant" then Some StepAssistant else if String.eqb s "branch_summary" then Some StepBranchSummary
  else if String.eqb s "compaction" then Some StepCompaction else None.
Definition replay_of (v : json) : option replay :=
  s ← as_string v;
  if String.eqb s "never" then Some ReplayNever else if String.eqb s "safe" then Some ReplaySafe else None.
Definition queue_of (v : json) : option queue_kind :=
  s ← as_string v;
  if String.eqb s "steer" then Some QSteer else if String.eqb s "followUp" then Some QFollowUp
  else if String.eqb s "nextRun" then Some QNextRun else None.
Definition usage_kind_of (v : json) : option usage_kind :=
  s ← as_string v;
  if String.eqb s "assistant" then Some UAssistant else if String.eqb s "compaction" then Some UCompaction
  else if String.eqb s "branch_summary" then Some UBranchSummary
  else if String.eqb s "deferred_fetch" then Some UDeferredFetch else None.

Definition read_cause (v : json) : option usage_cause :=
  let cause := prop v "cause" in
  if is_str cause "adjustment" then
    r ← checked v "runId" as_string; e ← checked v "entryId" as_string; Some (CauseAdjustment r e (prop v "details"))
  else
    r ← req v "runId" as_string; e ← req v "entryId" as_string;
    if is_str cause "tool" then t ← req v "toolCallId" as_string; Some (CauseTool r e t)
    else if is_str cause "hook" then Some (CauseHook r e)
    else
      k ← req v "cause" usage_kind_of; a ← req v "attempt" as_Z; s ← req v "stopReason" stop_reason_of;
      Some (CauseStep k r e a s).

Definition read_error (v : json) : option (string * string) :=
  c ← req v "code" as_string; m ← req v "message" as_string; Some (c, m).
(** A message that must be an assistant message, or a tool result. *)
Definition assistant_of (m : AgentMessage) : option AssistantMessage :=
  match m with AssistantMsg m => Some m | _ => None end.
Definition tool_result_of (m : AgentMessage) : option ToolResultMessage :=
  match m with ToolResultMsg m => Some m | _ => None end.
Definition read_as {A} (f : AgentMessage -> option A) (v : json) : option A := m ← read_message v; f m.

Definition read_record_body (v : json) : option record_body :=
  let type := prop v "type" in
  if is_str type "operation_started" then
    s ← req v "sourceLeafId" as_nullable; i ← req v "intent" read_intent;
    Some (ROperationStarted {| os_sourceLeafId := s; os_intent := i |})
  else if is_str type "abort_requested" then RAbortRequested <$> req v "runId" as_string
  else if is_str type "pause_requested" then RPauseRequested <$> req v "runId" as_string
  else if is_str type "pause_cleared" then RPauseCleared <$> req v "runId" as_string
  else if is_str type "operation_finished" then
    r ← req v "runId" as_string; o ← req v "outcome" outcome_of; e ← checked v "error" read_error;
    Some (ROperationFinished {| of_runId := r; of_outcome := o; of_error := e |})
  else if is_str type "step_attempt" then
    r ← req v "runId" as_string; s ← req v "step" step_of; a ← req v "attempt" as_Z;
    e ← req v "resultEntryId" as_string; c ← checked v "compactionReason" as_string;
    Some (RStepAttempt {| sa_runId := r; sa_step := s; sa_attempt := a; sa_resultEntryId := e; sa_compactionReason := c |})
  else if is_str type "tool_started" then
    r ← req v "runId" as_string; a ← req v "assistantEntryId" as_string; i ← req v "toolIndex" as_Z;
    c ← req v "toolCallId" as_string; n ← req v "toolName" as_string; g ← prop v "effectiveArgs";
    e ← req v "resultEntryId" as_string; p ← req v "replay" replay_of; o ← checked v "operationId" as_string;
    Some (RToolStarted {| ts_runId := r; ts_assistantEntryId := a; ts_toolIndex := i; ts_toolCallId := c;
                          ts_toolName := n; ts_effectiveArgs := g; ts_resultEntryId := e;
                          ts_operationId := o; ts_replay := p |})
  else if is_str type "tool_reconciliation" then
    r ← req v "runId" as_string; c ← req v "toolCallId" as_string; e ← req v "resultEntryId" as_string;
    w ← req v "reason" as_string; d ← checked v "diagnostic" (read_as tool_result_of);
    Some (RToolReconciliation {| tl_runId := r; tl_toolCallId := c; tl_resultEntryId := e; tl_reason := w;
                                 tl_diagnostic := d |})
  else if is_str type "tool_reconciled" then
    r ← req v "runId" as_string; c ← req v "toolCallId" as_string; e ← req v "resultEntryId" as_string;
    Some (RToolReconciled {| td_runId := r; td_toolCallId := c; td_resultEntryId := e |})
  else if is_str type "assistant_checkpoint" then
    r ← req v "runId" as_string; e ← req v "resultEntryId" as_string; a ← req v "attempt" as_Z;
    m ← req v "message" (read_as assistant_of); f ← checked v "continuationFailure" (read_as assistant_of);
    y ← checked v "retryAttempt" as_Z;
    Some (RAssistantCheckpoint {| ac_runId := r; ac_resultEntryId := e; ac_attempt := a; ac_message := m;
                                  ac_continuationFailure := f; ac_retryAttempt := y |})
  else if is_str type "queue_enqueued" then
    q ← req v "queue" queue_of; t ← req v "target" read_provisioned; r ← checked v "runId" as_string;
    Some (RQueueEnqueued {| qe_queue := q; qe_runId := r; qe_target := t |})
  else if is_str type "queue_cancelled" then
    e ← req v "entryId" as_string; r ← checked v "runId" as_string;
    Some (RQueueCancelled {| qc_runId := r; qc_entryId := e |})
  else if is_str type "write_deferred" then
    r ← req v "runId" as_string; t ← req v "target" read_provisioned;
    Some (RWriteDeferred {| wd_runId := r; wd_target := t |})
  else if is_str type "usage" then
    u ← req v "usage" read_usage; c ← read_cause v; Some (RUsage {| ur_usage := u; ur_cause := c |})
  else None.
