(* ===== verification/DurableReading.v ===== *)
(** * What durable validation guarantees
    (packages/agent/src/harness/session/validation.ts)

    The validators look at most properties of a durable value and leave some optional ones
    alone.  A value they accept can be read at its declared type if those it leaves alone
    have their declared type too ([declared]): [Reads] and [Types] relate a validator to
    the reader of the type it asserts. *)
From S2P Require Import Prelude JsNumber SessionTypes JsonText Validation DurableJson.

(** ** The properties the validators do not look at *)

Definition one_of (names : list string) (k : string) : bool := existsb (String.eqb k) names.
(** Optional properties the types of messages, content and records declare as strings,
    booleans, numbers or arrays of strings. *)
Definition string_keys : list string :=
  ["textSignature"; "thinkingSignature"; "thoughtSignature"; "namespace"; "responseModel"; "responseId"; "errorMessage";
   "rawStopReason"; "nestedExecutionOutcome"; "fullOutputPath"; "compactionReason"].
Definition boolean_keys : list string := ["redacted"; "endTurn"; "excludeFromContext"].
Definition number_keys : list string := ["estimatedTokensAfter"].
Definition strings_keys : list string := ["addedToolNames"].
(** Properties whose content the model keeps as it is. *)
Definition opaque : string -> bool :=
  one_of ["arguments"; "effectiveArgs"; "details"; "data"; "structuredContent"; "nestedCalls"; "serviceTier"; "diagnostics";
          "resumeData"].

Definition property_declared (k : string) (p : json) : bool :=
  if one_of string_keys k then bool_decide (is_Some (as_string p))
  else if one_of boolean_keys k then bool_decide (is_Some (as_bool p))
  else if one_of number_keys k then bool_decide (is_Some (as_number p))
  else if one_of strings_keys k then bool_decide (is_Some (read_strings p))
  else true.
(** Throughout the value they have the type they are declared with, when present. *)
Fixpoint declared (v : json) : bool :=
  match v with
  | JsonArray items => forallb declared items
  | JsonObject props => forallb (fun '(k, p) => property_declared k p && (opaque k || declared p)) props
  | _ => true
  end.

Lemma find_prop_In k props p : find_prop k props = Some p -> In (k, p) props.
Proof.
  induction props as [|[k' p'] props IH]; [done|]. cbn [find_prop]. destruct (String.eqb k k') eqn:E.
  - apply String.eqb_eq in E as <-. intros [= ->]. by left.
  - intros H. right. by apply IH.
Qed.
Lemma declared_prop v k p :
  declared v = true -> prop v k = Some p -> property_declared k p = true /\ (opaque k = false -> declared p = true).
Proof.
  destruct v as [| | | | |props]; try done. intros Hd Hp. cbn [declared] in Hd. rewrite forallb_forall in Hd.
  apply find_prop_In, Hd, andb_prop in Hp as [Hk Ho]. split; [done|]. intros Hf. by rewrite Hf in Ho.
Qed.
Lemma declared_items items x : declared (JsonArray items) = true -> In x items -> declared x = true.
Proof. cbn [declared]. rewrite forallb_forall. auto. Qed.

(** A validator that accepts a value guarantees that the value reads. *)
Class Reads {A} (validate : option json -> string -> V) (read : json -> option A) : Prop :=
  reads value field : validate value field = Ok tt -> exists p, value = Some p /\ is_Some (read p).
(** It does if what it does not look at has its declared type. *)
Class Types {A} (validate : option json -> string -> V) (read : json -> option A) : Prop :=
  types value field : validate value field = Ok tt -> exists p, value = Some p /\ (declared p = true -> is_Some (read p)).
#[export] Instance reads_types {A} validate (read : json -> option A) : Reads validate read -> Types validate read.
Proof. intros Hr v f (p & -> & Hp)%Hr. eauto. Qed.

(** ** Inverting validators *)

Lemma requireValue_Ok c field : requireValue c field = Ok tt -> c = true.
Proof. by destruct c. Qed.
Lemma object_Ok value field j : object value field = Ok j -> value = Some j.
Proof. by destruct value as [[| | | | |]|]; intros [= <-]. Qed.
Lemma is_str_true value s : is_str value s = true -> value = Some (JsonString s).
Proof. destruct value as [[| | |t| |]|]; try done. by intros ->%String.eqb_eq. Qed.
Lemma oneOf_Ok value values field :
  oneOf value values field = Ok tt -> exists s, value = Some (JsonString s) /\ In s values.
Proof. intros (s & Hin & Hs%is_str_true)%requireValue_Ok%existsb_exists. eauto. Qed.
Lemma is_undefined_false value : is_undefined value = false -> is_Some value.
Proof. by destruct value. Qed.

Lemma is_Some_bind {A B} (m : option A) (k : A -> option B) :
  is_Some m -> (forall a, m = Some a -> is_Some (k a)) -> is_Some (m ≫= k).
Proof. intros [a ->] Hk. by apply Hk. Qed.
Lemma is_Some_fmap {A B} (f : A -> B) m : is_Some m -> is_Some (f <$> m).
Proof. intros [a ->]. by eexists. Qed.

(** ** The readers of each shape *)

#[export] Instance reads_string : Reads string_ as_string.
Proof. intros [[]|] f; try done. intros _. by eexists. Qed.
#[export] Instance reads_number : Reads number_ as_number.
Proof. intros [[]|] f; try done. intros _. by eexists. Qed.
#[export] Instance reads_boolean : Reads boolean as_bool.
Proof. intros [[]|] f; try done. intros _. by eexists. Qed.
#[export] Instance reads_nullableId : Reads nullableId as_nullable.
Proof. intros [[]|] f; try done; intros _; by eexists. Qed.
#[export] Instance reads_integer minimum : Reads (fun v => integer v minimum) as_Z.
Proof.
  intros [[| |n| | |]|] f; try done. intros [_ Hn]%requireValue_Ok%andb_prop. exists (JsonNumber n).
  split; [done|]. unfold as_Z. simpl. by destruct (num_to_Z n).
Qed.
#[export] Instance reads_object : Reads (fun v f => _ ← object v f; Ok tt) as_object.
Proof. intros [[]|] f; try done. intros _. by eexists. Qed.

(** A choice among literals. *)
Lemma reads_choice {A} values (read : json -> option A) :
  Forall (fun s => is_Some (read (JsonString s))) values -> Reads (fun v f => oneOf v values f) read.
Proof.
  intros H v f (s & -> & Hin)%oneOf_Ok. exists (JsonString s). split; [done|].
  rewrite Forall_forall in H. apply H. by apply list_elem_of_In.
Qed.
Ltac choice := apply reads_choice; repeat (constructor; [by eexists|]); constructor.
#[export] Instance reads_stop_reason : Reads (fun v f => oneOf v stop_reasons f) stop_reason_of.
Proof. choice. Qed.
#[export] Instance reads_usage_stop :
  Reads (fun v f => oneOf v ["stop"; "length"; "toolUse"; "error"; "aborted"; "deferred"] f) stop_reason_of.
Proof. choice. Qed.
#[export] Instance reads_outcome :
  Reads (fun v f => oneOf v ["completed"; "aborted"; "failed"; "declined"] f) outcome_of.
Proof. choice. Qed.
#[export] Instance reads_step : Reads (fun v f => oneOf v ["assistant"; "branch_summary"; "compaction"] f) step_of.
Proof. choice. Qed.
#[export] Instance reads_replay : Reads (fun v f => oneOf v ["never"; "safe"] f) replay_of.
Proof. choice. Qed.
#[export] Instance reads_queue : Reads (fun v f => oneOf v ["nextRun"; "steer"; "followUp"] f) queue_of.
Proof. choice. Qed.

Definition read_list {A} (read : json -> option A) (v : json) : option (list A) := l ← as_array v; mapM read l.
#[export] Instance types_array {A} validate (read : json -> option A) :
  Types validate read -> Types (fun v f => array v f validate) (read_list read).
Proof.
  intros Hr [[| | | |items|]|] f; try done. intros H. exists (JsonArray items). split; [done|]. intros Hd.
  unfold read_list. cbn [as_array mbind option_bind]. induction items as [|x items IH]; [by eexists|].
  cbn [array for_each mapM] in *. cbn [declared forallb] in Hd. apply andb_prop in Hd as [Hdx Hd].
  apply bind_Ok in H as ([] & Hx & H). destruct (types _ _ Hx) as (p & [= <-] & Hp).
  destruct (Hp Hdx) as [y Hy]. destruct (IH H Hd) as [ys Hys]. rewrite Hy. simpl. rewrite Hys. by eexists.
Qed.

(** ** Properties of an object *)

Lemma read_req {A} validate (read : json -> option A) `{Reads A validate read} v k f :
  validate (prop v k) f = Ok tt -> is_Some (req v k read).
Proof. intros (p & Hp & Hr)%reads. unfold req. by rewrite Hp. Qed.
Lemma read_checked {A} validate (read : json -> option A) `{Reads A validate read} v k f :
  optional (prop v k) f validate = Ok tt -> is_Some (checked v k read).
Proof.
  unfold optional, checked. destruct (prop v k) as [p|]; [|by eexists].
  intros (p' & [= <-] & Hr)%reads. by apply is_Some_fmap.
Qed.
Lemma read_typed {A} validate (read : json -> option A) `{Types A validate read} v k f :
  declared v = true -> opaque k = false -> validate (prop v k) f = Ok tt -> is_Some (req v k read).
Proof.
  intros Hd Ho (p & Hp & Hr)%types. unfold req. rewrite Hp. apply Hr. by apply (declared_prop v k p).
Qed.
Lemma read_object v k f j : object (prop v k) f = Ok j -> is_Some (req v k as_object).
Proof. unfold req. by destruct (prop v k) as [[]|]. Qed.
Lemma switch_accepted v k f :
  (if is_undefined (prop v k) then Ok tt else requireValue (is_true (prop v k)) f) = Ok tt -> is_Some (switch v k).
Proof. unfold switch. by destruct (prop v k) as [[|[]| | | |]|]. Qed.

Lemma switch_true v k b : is_true (prop v k) = true -> switch v k = Some b -> b = true.
Proof. unfold switch. destruct (prop v k) as [[|[]| | | |]|]; try done. by intros _ [= <-]. Qed.

(** An optional property no validator looks at. *)
Lemma read_unvalidated {A} v k (read : json -> option A) :
  (forall p, property_declared k p = bool_decide (is_Some (read p))) -> declared v = true -> is_Some (checked v k read).
Proof.
  intros Hk Hd. unfold checked. destruct (prop v k) as [p|] eqn:Hp; [|by eexists].
  apply is_Some_fmap. destruct (declared_prop v k p Hd Hp) as [Ht _]. rewrite Hk in Ht. by apply bool_decide_eq_true in Ht.
Qed.
Lemma checked_absent {A} v k (read : json -> option A) : is_undefined (prop v k) = true -> is_Some (checked v k read).
Proof. unfold checked. destruct (prop v k); [done|]. by eexists. Qed.
Lemma checked_present {A} v k (read : json -> option A) : is_Some (req v k read) -> is_Some (checked v k read).
Proof. unfold checked, req. destruct (prop v k) as [p|]; [|by intros [? [=]]]. simpl. apply is_Some_fmap. Qed.

(** Inverts what a validator accepted into facts about the properties it checked, and
    closes the reading of the same properties. *)
Create HintDb durable.
#[export] Hint Resolve is_Some_fmap checked_absent checked_present : durable.
Ltac accepted_step :=
  match goal with
  | H : (_ ≫= _) = Ok tt |- _ => let Hm := fresh "Hm" in apply bind_Ok in H as (? & Hm & H); cbn beta in H
  | u : unit |- _ => destruct u
  | H : object (prop ?v ?k) _ = Ok ?j |- _ =>
      let Ho := fresh "Ho" in pose proof (read_object _ _ _ _ H) as Ho; apply object_Ok in H
  | H : (if is_undefined (prop ?v ?k) then Ok tt else requireValue (is_true (prop ?v ?k)) ?f) = Ok tt |- _ =>
      apply (switch_accepted v k f) in H
  | H : object (Some ?v) _ = Ok ?j |- _ => apply object_Ok in H; simplify_eq
  | H : string_ (prop ?v ?k) _ = Ok tt |- _ => apply (read_req string_ as_string) in H
  | H : number_ (prop ?v ?k) _ = Ok tt |- _ => apply (read_req number_ as_number) in H
  | H : boolean (prop ?v ?k) _ = Ok tt |- _ => apply (read_req boolean as_bool) in H
  | H : nullableId (prop ?v ?k) _ = Ok tt |- _ => apply (read_req nullableId as_nullable) in H
  | H : integer (prop ?v ?k) ?m _ = Ok tt |- _ => apply (read_req (fun v => integer v m) as_Z) in H
  | H : optional (prop ?v ?k) _ string_ = Ok tt |- _ => apply (read_checked string_ as_string) in H
  | H : optional (prop ?v ?k) _ number_ = Ok tt |- _ => apply (read_checked number_ as_number) in H
  | H : optional (prop ?v ?k) ?field (fun x f => _ ← object x f; Ok tt) = Ok tt |- _ =>
      apply (read_checked (fun x f => _ ← object x f; Ok tt) as_object v k field) in H
  | H : for_each _ (_ :: _) = Ok tt |- _ => cbn [for_each] in H
  | H : (if ?c then _ else _) = Ok tt |- _ => let Hc := fresh "Hc" in destruct c eqn:Hc
  | H : Err _ = Ok _ |- _ => done
  | H : Ok _ = Ok _ |- _ => clear H
  end.
Ltac readable :=
  repeat first
    [ progress (cbn beta)
    | match goal with
      | |- is_Some (Some _) => by eexists
      | |- is_Some (_ ≫= _) => apply is_Some_bind; [|intros ? _]
      | H : prop ?v ?k = Some _ |- is_Some (prop ?v ?k) => by rewrite H
      | |- is_Some (_ <$> _) => apply is_Some_fmap
      | H : declared ?v = true |- is_Some (checked ?v _ _) => solve [apply read_unvalidated; done]
      end
    | assumption | solve [eauto with durable] ].
Ltac accepted := repeat accepted_step; readable.

(** ** Messages *)

#[export] Instance reads_usage : Reads usage read_usage.
Proof.
  intros v f H. apply bind_Ok in H as (j & ->%object_Ok & H). exists j. split; [done|]. cbn beta in H.
  unfold read_usage. assert (Hcost : forall c, prop j "cost" = Some c -> is_Some (read_cost c) -> is_Some (req j "cost" read_cost)).
  { intros c Hc Hr. unfold req. by rewrite Hc. }
  repeat accepted_step. eapply Hcost in Hm1; [|unfold read_cost; readable]. readable.
Qed.

Definition content_types : list string := ["text"; "image"; "thinking"; "toolCall"].
Lemma types_content_block allowed :
  allowed ⊆ content_types -> Types (fun item _ => content_block allowed item) (read_content allowed).
Proof.
  intros Hsub v f H. unfold content_block in H. apply bind_Ok in H as (j & ->%object_Ok & H). exists j. split; [done|].
  intros Hd. cbn beta in H. apply bind_Ok in H as ([] & Htype%requireValue_Ok & H).
  assert (Hin := Htype). apply existsb_exists in Hin as (s & Hin & Hs%is_str_true).
  apply list_elem_of_In, Hsub in Hin. unfold read_content. cbn zeta. rewrite Htype. rewrite Hs in *. clear Htype.
  repeat (apply elem_of_cons in Hin as [->|Hin]); [..|by apply elem_of_nil in Hin]; cbn [is_str String.eqb Ascii.eqb] in *;
    simpl in H |- *; accepted.
Qed.
Lemma types_content allowed :
  allowed ⊆ content_types -> Types (fun v _ => message_content v allowed) (read_contents allowed).
Proof. intros Hsub v f. exact (types_array _ _ (types_content_block allowed Hsub) v "message.content"). Qed.
#[export] Instance types_user_blocks : Types (fun v _ => message_content v ["text"; "image"]) (read_contents ["text"; "image"]).
Proof. apply types_content. set_solver. Qed.
#[export] Instance types_assistant_blocks :
  Types (fun v _ => message_content v ["text"; "thinking"; "toolCall"]) (read_contents ["text"; "thinking"; "toolCall"]).
Proof. apply types_content. set_solver. Qed.
#[export] Instance types_userContent : Types (fun v _ => userContent v) read_user_content.
Proof.
  intros v f H. destruct v as [[| | |s|items|]|]; try done; [exists (JsonString s); by split; [|eexists]|].
  destruct (types_user_blocks _ "" H) as (p & [= <-] & Hr). exists (JsonArray items). split; [done|].
  intros Hd. by apply is_Some_fmap, Hr.
Qed.

Ltac accepted_deep :=
  match goal with
  | H : usage (prop _ _) _ = Ok tt |- _ => apply (read_req usage read_usage) in H
  | Hd : declared ?v = true, H : userContent (prop ?v ?k) = Ok tt |- _ =>
      apply (read_typed (fun v _ => userContent v) read_user_content v k "" Hd eq_refl) in H
  | Hd : declared ?v = true, H : message_content (prop ?v ?k) ?l = Ok tt |- _ =>
      apply (read_typed (fun v _ => message_content v l) (read_contents l) v k "" Hd eq_refl) in H
  | H : oneOf (prop _ _) ?l ?field = Ok tt |- _ => let Hr := fresh "Hr" in pose proof (read_req (fun v f => oneOf v l f) _ _ _ field H) as Hr; clear H
  | H : optional (prop _ _) _ usage = Ok tt |- _ => apply (read_checked usage read_usage) in H
  end.
Ltac accepted ::= repeat first [accepted_step | accepted_deep]; readable.

Lemma read_nested {A} v k j (read : json -> option A) :
  prop v k = Some j -> is_Some (read j) -> is_Some (req v k read).
Proof. unfold req. by intros ->. Qed.

Lemma reads_assistant data :
  declared data = true -> assistant_fields data = Ok tt -> is_Some (req data "timestamp" as_number) -> is_Some (read_assistant data).
Proof.
  intros Hd H Ht. unfold assistant_fields in H. unfold read_assistant. repeat first [accepted_step | accepted_deep]; readable.
  all: apply checked_present; eapply read_nested; [done|]; unfold read_deferred; readable.
Qed.
Lemma reads_tool_result data :
  declared data = true -> toolResult_fields data = Ok tt -> is_Some (req data "timestamp" as_number) -> is_Some (read_tool_result data).
Proof. intros Hd H Ht. unfold toolResult_fields in H. unfold read_tool_result. accepted. Qed.

#[export] Instance types_message : Types (fun v _ => stored_message v) read_message.
Proof.
  intros v f H. unfold stored_message in H. apply bind_Ok in H as (data & ->%object_Ok & H). exists data. split; [done|].
  intros Hd. cbn beta in H.
  apply bind_Ok in H as ([] & Hrole & H). apply (read_req string_ as_string) in Hrole.
  unfold message_fields in H. unfold read_message. cbn beta zeta.
  destruct (is_str _ "user"); [accepted|]. destruct (is_str _ "assistant"); [|].
  { apply bind_Ok in H as ([] & H & Ht). apply is_Some_fmap, reads_assistant; [done..|]. accepted. }
  destruct (is_str _ "toolResult").
  { apply bind_Ok in H as ([] & H & Ht). apply is_Some_fmap, reads_tool_result; [done..|]. accepted. }
  destruct (is_str _ "bashExecution"); [unfold bashExecution_fields in H; unfold read_bash; accepted|].
  destruct (is_str _ "custom"); [unfold custom_fields in H; accepted|].
  destruct (is_str _ "branchSummary"); [unfold branchSummary_fields in H; accepted|].
  destruct (is_str _ "compactionSummary"); [unfold compactionSummary_fields in H; accepted|].
  accepted.
Qed.

(** ** Entries *)

#[export] Instance types_messages field :
  Types (fun v f => array v field (fun item _ => stored_message item)) read_messages.
Proof. intros v f. exact (types_array _ _ types_message v field). Qed.
#[export] Instance types_strings : Types (fun v f => array v f string_) read_strings.
Proof. intros v f. exact (types_array _ _ (reads_types _ _ reads_string) v f). Qed.

Ltac accepted_messages :=
  match goal with
  | Hd : declared ?v = true, H : stored_message (prop ?v ?k) = Ok tt |- _ =>
      apply (read_typed (fun v _ => stored_message v) read_message v k "" Hd eq_refl) in H
  | Hd : declared ?v = true, H : array (prop ?v ?k) ?field (fun item _ => stored_message item) = Ok tt |- _ =>
      apply (read_typed (fun v _ => array v field (fun item _ => stored_message item)) read_messages v k "" Hd eq_refl) in H
  | Hd : declared ?v = true, H : array (prop ?v ?k) ?field string_ = Ok tt |- _ =>
      apply (read_typed (fun v f => array v f string_) read_strings v k field Hd eq_refl) in H
  end.
Ltac accepted ::= repeat first [accepted_step | accepted_deep | accepted_messages]; readable.

#[export] Instance types_entry : Types (fun v _ => assertDurableEntry v) read_provisioned.
Proof.
  intros v f H. unfold assertDurableEntry in H. apply bind_Ok in H as (e & ->%object_Ok & H). exists e. split; [done|].
  intros Hd. apply bind_Ok in H as ([] & Hid & H). apply (read_req string_ as_string) in Hid. cbn beta zeta in H.
  unfold read_provisioned. apply is_Some_bind; [done|]. intros id _. apply is_Some_bind; [|by eexists].
  unfold read_body. cbn beta zeta. accepted.
Qed.

(** ** Records *)

Lemma read_message_assistant j m :
  is_str (prop j "role") "assistant" = true -> read_message j = Some m -> exists a, m = AssistantMsg a /\ read_assistant j = Some a.
Proof.
  intros Hr%is_str_true. unfold read_message. rewrite Hr. simpl. destruct (read_assistant j) as [a|]; [|done].
  intros [= <-]. eauto.
Qed.
Lemma read_message_tool_result j m :
  is_str (prop j "role") "toolResult" = true -> read_message j = Some m -> exists r, m = ToolResultMsg r /\ read_tool_result j = Some r.
Proof.
  intros Hr%is_str_true. unfold read_message. rewrite Hr. simpl. destruct (read_tool_result j) as [a|]; [|done].
  intros [= <-]. eauto.
Qed.
Lemma read_as_assistant v k j :
  declared v = true -> opaque k = false -> stored_message (prop v k) = Ok tt -> prop v k = Some j ->
  is_str (prop j "role") "assistant" = true -> is_Some (req v k (read_as assistant_of)).
Proof.
  intros Hd Ho Hm Hj Hr. destruct (read_typed _ _ v k "" Hd Ho Hm) as [m Hm']. unfold req, read_as in *.
  rewrite Hj in *. cbn [mbind option_bind] in *. destruct (read_message_assistant j m Hr Hm') as (a & -> & _).
  rewrite Hm'. by eexists.
Qed.
Lemma read_as_tool_result v k j :
  declared v = true -> opaque k = false -> stored_message (prop v k) = Ok tt -> prop v k = Some j ->
  is_str (prop j "role") "toolResult" = true -> is_Some (req v k (read_as tool_result_of)).
Proof.
  intros Hd Ho Hm Hj Hr. destruct (read_typed _ _ v k "" Hd Ho Hm) as [m Hm']. unfold req, read_as in *.
  rewrite Hj in *. cbn [mbind option_bind] in *. destruct (read_message_tool_result j m Hr Hm') as (a & -> & _).
  rewrite Hm'. by eexists.
Qed.

#[export] Instance types_entries field :
  Types (fun v f => array v field (fun item _ => assertDurableEntry item)) (fun a => l ← as_array a; mapM read_provisioned l).
Proof. intros v f. exact (types_array _ _ types_entry v field). Qed.
#[export] Instance types_intent : Types (fun v _ => intent_fields v) read_intent.
Proof.
  intros v f H. unfold intent_fields in H. apply bind_Ok in H as (i & ->%object_Ok & H). exists i. split; [done|].
  intros Hd. unfold read_intent. cbn beta zeta in *. repeat first [accepted_step | accepted_deep | accepted_messages];
    try match goal with
    | H : array (prop _ ?k) ?field (fun item _ => assertDurableEntry item) = Ok tt |- _ =>
        apply (read_typed (fun v _ => array v field (fun item _ => assertDurableEntry item)) _ _ k "" Hd eq_refl) in H
    end; readable.
Qed.

Lemma reads_error v : is_undefined (prop v "error") = false -> forall e, prop v "error" = Some e ->
  is_Some (req e "code" as_string) -> is_Some (req e "message" as_string) -> is_Some (checked v "error" read_error).
Proof.
  intros _ e He Hc Hm. apply checked_present. eapply read_nested; [done|]. unfold read_error. readable.
Qed.

Lemma checkpoint_message v :
  checkpoint_fields v = Ok tt ->
  exists j, prop v "message" = Some j /\ is_str (prop j "role") "assistant" && is_true (prop j "isResponseCheckpoint") = true.
Proof.
  intros H. unfold checkpoint_fields in H. do 3 (apply bind_Ok in H as ([] & _ & H); cbn beta in H).
  apply bind_Ok in H as (j & H4%object_Ok & H). cbn beta in H. apply bind_Ok in H as ([] & H5%requireValue_Ok & _). eauto.
Qed.
Lemma checkpoint_reads v :
  declared v = true -> checkpoint_fields v = Ok tt ->
  is_Some (req v "resultEntryId" as_string) /\ is_Some (req v "attempt" as_Z) /\
  is_Some (req v "message" (read_as assistant_of)) /\
  is_Some (checked v "continuationFailure" (read_as assistant_of)) /\ is_Some (checked v "retryAttempt" as_Z).
Proof.
  intros Hd H. destruct (checkpoint_message v H) as (j & Hj & [Hr _]%andb_prop).
  unfold checkpoint_fields in H. apply bind_Ok in H as ([] & H1 & H). cbn beta in H.
  apply bind_Ok in H as ([] & H2 & H). cbn beta in H. apply bind_Ok in H as ([] & H3 & H). cbn beta in H.
  apply bind_Ok in H as (? & _ & H). cbn beta in H. apply bind_Ok in H as ([] & _ & H).
  cbn beta in H. apply bind_Ok in H as ([] & H6 & H). cbn beta in H. split_and!.
  - by apply (read_req string_ as_string) in H1.
  - by apply (read_req (fun v => integer v 1) as_Z) in H2.
  - by eapply read_as_assistant.
  - destruct (is_undefined (prop v "continuationFailure")) eqn:Hu; [by apply checked_absent|].
    apply bind_Ok in H6 as ([] & H7 & H6). cbn beta in H6. apply bind_Ok in H6 as (g & H8%object_Ok & H6%requireValue_Ok).
    apply checked_present. by eapply read_as_assistant.
  - destruct (is_undefined (prop v "retryAttempt")) eqn:Hu; [by apply checked_absent|].
    apply checked_present. by apply (read_req (fun v => integer v 1) as_Z) in H.
Qed.

Lemma usage_kind_reads v s :
  prop v "cause" = Some (JsonString s) ->
  In s ["assistant"; "compaction"; "branch_summary"; "deferred_fetch"; "tool"; "hook"; "adjustment"] ->
  is_str (prop v "cause") "adjustment" = false -> is_str (prop v "cause") "tool" = false ->
  is_str (prop v "cause") "hook" = false -> is_Some (req v "cause" usage_kind_of).
Proof.
  intros H Hin. unfold req. rewrite H. simpl. repeat (destruct Hin as [<-|Hin]); try done; intros; by eexists.
Qed.
Lemma usage_reads v : usage_fields v = Ok tt -> is_Some (req v "usage" read_usage) /\ is_Some (read_cause v).
Proof.
  intros H. unfold usage_fields in H. apply bind_Ok in H as ([] & H1%(read_req usage read_usage) & H). cbn beta in H.
  split; [done|]. apply bind_Ok in H as ([] & Hc & H). cbn beta in H. apply oneOf_Ok in Hc as (s & Hs & Hin).
  pose proof (usage_kind_reads v s Hs Hin) as Hk. unfold read_cause. accepted.
Qed.
Lemma reconciliation_reads v :
  declared v = true -> reconciliation_fields v = Ok tt -> is_Some (req v "toolCallId" as_string) /\ is_Some (req v "resultEntryId" as_string) /\
    (is_str (prop v "type") "tool_reconciliation" = true ->
       is_Some (req v "reason" as_string) /\ is_Some (checked v "diagnostic" (read_as tool_result_of))).
Proof.
  intros Hd H. unfold reconciliation_fields in H. apply bind_Ok in H as ([] & H1%(read_req string_ as_string) & H). cbn beta in H.
  apply bind_Ok in H as ([] & H2%(read_req string_ as_string) & H). cbn beta in H. split_and!; [done|done|].
  intros Ht. rewrite Ht in H. apply bind_Ok in H as ([] & H3%(read_req string_ as_string) & H). cbn beta in H. split; [done|].
  destruct (is_undefined (prop v "diagnostic")) eqn:Hu; [by apply checked_absent|].
  apply bind_Ok in H as ([] & H4 & H). cbn beta in H. apply bind_Ok in H as (j & Hj%object_Ok & H%requireValue_Ok%andb_prop).
  apply checked_present. eapply read_as_tool_result; [done..|]. apply H.
Qed.

(** The case of a literal. *)
Ltac literal ty s :=
  let E := fresh "E" in
  destruct (String.eqb ty s) eqn:E; cbn [orb negb andb] in *;
  [apply String.eqb_eq in E; subst ty; cbn [String.eqb Ascii.eqb Bool.eqb negb andb orb] in *|].

Lemma reads_record v : declared v = true -> assertDurableRecord (Some v) = Ok tt ->
  is_Some (req v "id" as_string) /\ is_Some (req v "lane" as_string) /\ is_Some (read_record_body v).
Proof.
  intros Hd H. unfold assertDurableRecord in H. apply bind_Ok in H as (r & [= <-]%object_Ok & H). cbn beta zeta in H.
  apply bind_Ok in H as ([] & H1%(read_req string_ as_string) & H). cbn beta in H.
  apply bind_Ok in H as ([] & H2%(read_req string_ as_string) & H). cbn beta in H. split_and!; [done|done|].
  apply bind_Ok in H as ([] & Hrun & H). cbn beta in H. unfold read_record_body. cbn beta zeta.
  destruct (prop v "type") as [[| | |ty| |]|] eqn:Hty; try done. cbn [is_str] in *.
  literal ty "operation_started"; [apply bind_Ok in H as ([] & H3%(read_req nullableId as_nullable) & H);
    cbn beta in H; apply (read_typed (fun v _ => intent_fields v) read_intent _ "intent" "" Hd eq_refl) in H; readable|].
  apply (read_req string_ as_string) in Hrun || idtac.
  literal ty "abort_requested"; [accepted|]. literal ty "pause_requested"; [accepted|].
  literal ty "pause_cleared"; [accepted|].
  literal ty "operation_finished"; [repeat first [accepted_step | accepted_deep]; readable;
    apply checked_present; eapply read_nested; [done|]; unfold read_error; readable|].
  literal ty "step_attempt"; [accepted|]. literal ty "tool_started"; [accepted|].
  literal ty "tool_reconciliation".
  { apply (reconciliation_reads _ Hd) in H as (H3 & H4 & H5). rewrite Hty in H5. destruct (H5 eq_refl). accepted. }
  literal ty "tool_reconciled"; [apply (reconciliation_reads _ Hd) in H as (H3 & H4 & _); accepted|].
  literal ty "assistant_checkpoint"; [apply (checkpoint_reads _ Hd) in H as (H3 & H4 & H5 & H6 & H7); accepted|].
  literal ty "queue_enqueued".
  { repeat first [accepted_step | accepted_deep];
      apply (read_typed (fun v _ => assertDurableEntry v) read_provisioned _ "target" "" Hd eq_refl) in H;
      try apply requireValue_Ok in Hm0; readable. }
  literal ty "queue_cancelled"; [accepted|].
  literal ty "write_deferred"; [apply (read_typed (fun v _ => assertDurableEntry v) read_provisioned _ "target" "" Hd eq_refl) in H; accepted|].
  literal ty "usage"; [apply usage_reads in H as [H3 H4]; readable|done].
Qed.

(** The refinements of the record types the validator enforces. *)
Definition record_typed (b : record_body) : Prop :=
  match b with
  | RStepAttempt r =>
      1 <= sa_attempt r /\
      (sa_step r = StepCompaction -> exists reason, sa_compactionReason r = Some reason /\
                                                  In reason ["manual"; "threshold"; "overflow"])
  | RToolStarted r => 0 <= ts_toolIndex r /\ exists props, ts_effectiveArgs r = JsonObject props
  | RToolReconciliation r => forall d, tl_diagnostic r = Some d -> tr_toolCallId d = tl_toolCallId r
  | RAssistantCheckpoint r =>
      1 <= ac_attempt r /\ am_isResponseCheckpoint (ac_message r) = true /\
      forall n, ac_retryAttempt r = Some n -> 1 <= n
  | RQueueEnqueued r => qe_queue r = QNextRun <-> qe_runId r = None
  | RUsage r =>
      match ur_cause r with
      | CauseStep _ _ _ attempt stop => 1 <= attempt /\ stop <> StopPending
      | _ => True
      end
  | _ => True
  end.

Lemma integer_least v k minimum f z :
  integer (prop v k) minimum f = Ok tt -> req v k as_Z = Some z -> minimum <= z.
Proof.
  unfold integer, req. destruct (prop v k) as [[| |n| | |]|]; try done. intros [_ H]%requireValue_Ok%andb_prop.
  unfold as_Z. simpl. destruct (num_to_Z n); [|done]. intros [= <-]. by apply Z.leb_le.
Qed.
Lemma req_string v k s : prop v k = Some (JsonString s) <-> req v k as_string = Some s.
Proof. unfold req. destruct (prop v k) as [[]|]; simpl; split; congruence. Qed.
Lemma string_Ok v k f : string_ (prop v k) f = Ok tt -> exists s, prop v k = Some (JsonString s).
Proof. unfold string_. destruct (prop v k) as [[]|]; try done. eauto. Qed.

Ltac read_inv :=
  repeat match goal with
  | H : (_ ≫= _) = Some _ |- _ => apply bind_Some in H as (? & ? & H); cbn beta in H
  | H : Some _ = Some _ |- _ => injection H as <-
  end.

Lemma step_refined v f r :
  is_str (prop v "step") "compaction" = true -> oneOf (prop v "compactionReason") ["manual"; "threshold"; "overflow"] f = Ok tt ->
  checked v "compactionReason" as_string = Some r -> exists reason, r = Some reason /\ In reason ["manual"; "threshold"; "overflow"].
Proof.
  intros _ (s & Hs & Hin)%oneOf_Ok Hr. exists s. split; [|done]. unfold checked in Hr. rewrite Hs in Hr. by injection Hr.
Qed.
Lemma step_of_compaction v : req v "step" step_of = Some StepCompaction -> is_str (prop v "step") "compaction" = true.
Proof.
  unfold req. destruct (prop v "step") as [[| | |s| |]|]; try done. unfold step_of.
  cbn [is_str as_string mbind option_bind]. literal s "assistant"; [done|]. literal s "branch_summary"; [done|].
  by destruct (String.eqb s "compaction").
Qed.

Lemma diagnostic_refined v j d c :
  prop v "diagnostic" = Some j -> is_str (prop j "role") "toolResult" = true ->
  same_string (prop j "toolCallId") (prop v "toolCallId") = true ->
  checked v "diagnostic" (read_as tool_result_of) = Some (Some d) -> req v "toolCallId" as_string = Some c ->
  tr_toolCallId d = c.
Proof.
  intros Hj Hr Hs Hd Hc%req_string. unfold checked in Hd. rewrite Hj in Hd. rewrite Hc in Hs. unfold read_as in Hd.
  destruct (read_message j) as [m|] eqn:Hm; [|done]. destruct (read_message_tool_result j m Hr Hm) as (d' & -> & Hd').
  simpl in Hd. injection Hd as ->. unfold read_tool_result in Hd'. read_inv.
  destruct (prop j "toolCallId") as [[| | |s| |]|] eqn:Hi; try done. apply String.eqb_eq in Hs. subst.
  cbn [tr_toolCallId]. apply req_string in Hi. congruence.
Qed.

Lemma checkpoint_refined v j m :
  prop v "message" = Some j -> is_str (prop j "role") "assistant" && is_true (prop j "isResponseCheckpoint") = true ->
  req v "message" (read_as assistant_of) = Some m -> am_isResponseCheckpoint m = true.
Proof.
  intros Hj [Hr Hc]%andb_prop Hm. unfold req, read_as in Hm. rewrite Hj in Hm. simpl in Hm.
  destruct (read_message j) as [m'|] eqn:Hm'; [|done]. destruct (read_message_assistant j m' Hr Hm') as (a & -> & Ha).
  simpl in Hm. injection Hm as ->. unfold read_assistant in Ha. read_inv.
  cbn [am_isResponseCheckpoint]. by eapply switch_true.
Qed.

Lemma usage_stop_refined v f s :
  oneOf (prop v "stopReason") ["stop"; "length"; "toolUse"; "error"; "aborted"; "deferred"] f = Ok tt ->
  req v "stopReason" stop_reason_of = Some s -> s <> StopPending.
Proof.
  intros (x & Hx & Hin)%oneOf_Ok. unfold req. rewrite Hx. simpl.
  repeat (destruct Hin as [<-|Hin]); try done; intros [= <-]; done.
Qed.

Lemma queue_refined v q r :
  (if is_str (prop v "queue") "nextRun" then requireValue (is_undefined (prop v "runId")) "nextRun runId"
   else string_ (prop v "runId") "runId") = Ok tt ->
  req v "queue" queue_of = Some q -> checked v "runId" as_string = Some r -> q = QNextRun <-> r = None.
Proof.
  intros H Hq Hr. unfold req in Hq. destruct (prop v "queue") as [[| | |s| |]|]; try done. unfold queue_of in Hq.
  cbn [is_str as_string mbind option_bind] in *. unfold checked in Hr.
  literal s "steer"; [injection Hq as <-; apply string_Ok in H as [x Hx]; rewrite Hx in Hr; by simplify_eq/=|].
  literal s "followUp"; [injection Hq as <-; apply string_Ok in H as [x Hx]; rewrite Hx in Hr; by simplify_eq/=|].
  literal s "nextRun"; [|done]. injection Hq as <-. apply requireValue_Ok in H. destruct (prop v "runId"); [done|].
  by injection Hr as <-.
Qed.

Lemma usage_refined v c :
  usage_fields v = Ok tt -> read_cause v = Some c ->
  match c with CauseStep _ _ _ attempt stop => 1 <= attempt /\ stop <> StopPending | _ => True end.
Proof.
  intros H Hc. unfold read_cause in Hc. cbn beta zeta in Hc. unfold usage_fields in H.
  destruct (is_str (prop v "cause") "adjustment") eqn:Ha; [read_inv; done|]. read_inv.
  destruct (is_str (prop v "cause") "tool") eqn:Ht; [read_inv; done|].
  destruct (is_str (prop v "cause") "hook") eqn:Hh; [read_inv; done|]. read_inv.
  repeat (apply bind_Ok in H as ([] & ? & H); cbn beta in H).
  split; [by eapply integer_least|by eapply usage_stop_refined].
Qed.

(** One branch of the record validator: the checks, and the value read. *)
Ltac branch H :=
  repeat (apply bind_Ok in H as (? & ? & H); cbn beta in H);
  repeat match goal with u : unit |- _ => destruct u | H' : object _ _ = Ok _ |- _ => apply object_Ok in H' end; read_inv.

Lemma record_refined v b : assertDurableRecord (Some v) = Ok tt -> read_record_body v = Some b -> record_typed b.
Proof.
  intros H Hb. unfold assertDurableRecord in H. apply bind_Ok in H as (r & [= <-]%object_Ok & H). cbn beta zeta in H.
  do 3 (apply bind_Ok in H as ([] & ? & H); cbn beta in H). unfold read_record_body in Hb. cbn beta zeta in Hb.
  destruct (prop v "type") as [[| | |ty| |]|] eqn:Hty; try done. cbn [is_str] in *.
  literal ty "operation_started"; [read_inv; done|].
  literal ty "abort_requested"; [by destruct (req v "runId" as_string); simplify_eq/=|].
  literal ty "pause_requested"; [by destruct (req v "runId" as_string); simplify_eq/=|].
  literal ty "pause_cleared"; [by destruct (req v "runId" as_string); simplify_eq/=|].
  literal ty "operation_finished"; [read_inv; done|].
  literal ty "step_attempt".
  { branch H. split; [by eapply integer_least|]. intros Hs. cbn [sa_step] in Hs. subst.
    assert (Hc : is_str (prop v "step") "compaction" = true) by by apply step_of_compaction.
    rewrite Hc in H. by eapply step_refined. }
  literal ty "tool_started".
  { unfold object in H. branch H. split; [by eapply integer_least|].
    destruct (prop v "effectiveArgs") as [[]|]; simplify_eq. eauto. }
  literal ty "tool_reconciliation".
  { unfold reconciliation_fields in H. rewrite Hty in H. branch H. intros d Hd. cbn [tl_diagnostic tl_toolCallId] in *. subst.
    destruct (is_undefined (prop v "diagnostic")) eqn:Hu; [by unfold checked in *; destruct (prop v "diagnostic")|].
    branch H. apply requireValue_Ok, andb_prop in H as [??]. by eapply diagnostic_refined. }
  literal ty "tool_reconciled"; [read_inv; done|].
  literal ty "assistant_checkpoint".
  { destruct (checkpoint_message v H) as (j & Hj & Hc).
    unfold checkpoint_fields in H. branch H.
    split_and!; [by eapply integer_least|by eapply checkpoint_refined|]. intros n Hn. cbn [ac_retryAttempt] in Hn. subst.
    unfold checked in *. destruct (prop v "retryAttempt") as [p|] eqn:Hp; [|done]. cbn [is_undefined] in H.
    rewrite <-Hp in H. eapply integer_least; [done|]. unfold req. rewrite Hp. simpl. by destruct (as_Z p); simplify_eq/=. }
  literal ty "queue_enqueued"; [branch H; by eapply queue_refined|].
  literal ty "queue_cancelled"; [read_inv; done|]. literal ty "write_deferred"; [read_inv; done|].
  literal ty "usage"; [|done]. read_inv. by eapply usage_refined.
Qed.

(** ** The assertion of the validators *)

(** C30. Validation is a sound type check of the properties it looks at.  Take a value in
    which the optional properties the validators leave alone ([declared]: signatures,
    provider identifiers, error messages and the like) have the type they are declared
    with when present.  If [assertDurableEntry] accepts it, it is an entry: every property
    of the entry, of its messages, content blocks and usage has its declared type, the
    optional ones included.  If [assertDurableRecord] accepts it, it has an identifier, a
    lane and a record body, in which attempts are at least one, tool indices are not
    negative, tool arguments are an object, a compaction step has one of the three
    reasons, a diagnostic belongs to its call, a checkpoint message is marked as one, only
    the next-run queue has no run, and no usage is charged to a pending response. *)
Theorem durable_values_typed v :
  declared v = true ->
  (assertDurableEntry (Some v) = Ok tt -> exists e, read_provisioned v = Some e) /\
  (assertDurableRecord (Some v) = Ok tt ->
     exists id lane b, prop v "id" = Some (JsonString id) /\ prop v "lane" = Some (JsonString lane) /\
       read_record_body v = Some b /\ record_typed b).
Proof.
  intros Hd. split.
  - intros (p & [= <-] & Hp)%(types_entry _ ""). destruct (Hp Hd) as [e He]. eauto.
  - intros H. destruct (reads_record v Hd H) as ([id Hid%req_string] & [lane Hlane%req_string] & b & Hb).
    exists id, lane, b. split_and!; [done..|]. by eapply record_refined.
Qed.

(** An entry that holds a tool result with a text block signed [signature]. *)
Definition signed_entry (signature : json) : json := JsonObject
  [str "type" "message"; str "id" "e1";
   ("message", JsonObject
     [str "role" "toolResult"; str "toolCallId" "c1"; str "toolName" "read";
      arr "content" [JsonObject [str "type" "text"; str "text" "hi"; ("textSignature", signature)]];
      ("usage", JsonObject
        [int "input" 1; int "output" 2; int "cacheRead" 0; int "cacheWrite" 0; int "totalTokens" 3; int "reasoning" 1;
         ("cost", JsonObject [int "input" 0; int "output" 0; int "cacheRead" 0; int "cacheWrite" 0; int "total" 0])]);
      boo "isError" false; int "timestamp" 1])].
Definition sample_record_json : json := JsonObject
  [str "id" "r1"; str "lane" "main"; str "type" "step_attempt"; str "runId" "run"; str "step" "compaction";
   int "attempt" 1; str "resultEntryId" "e2"; str "compactionReason" "manual"].
Lemma durable_values_typed_witness :
  (exists e, read_provisioned (signed_entry (JsonString "sig")) = Some e) /\
  (exists id lane b, prop sample_record_json "id" = Some (JsonString id) /\
     prop sample_record_json "lane" = Some (JsonString lane) /\
     read_record_body sample_record_json = Some b /\ record_typed b).
Proof.
  split.
  - apply (durable_values_typed (signed_entry (JsonString "sig"))); vm_compute; reflexivity.
  - apply (durable_values_typed sample_record_json); vm_compute; reflexivity.
Defined.

(** The condition is needed: the validators do not look at [textSignature], so they accept
    a signature that is a number, which is not an entry (packages/ai/src/types.ts:
    [textSignature?: string]). *)
Example unchecked_signature :
  assertDurableEntry (Some (signed_entry (JsonNumber (num_of_Z 7)))) = Ok tt /\
  read_provisioned (signed_entry (JsonNumber (num_of_Z 7))) = None.
Proof. split; vm_compute; reflexivity. Qed.
