(* ===== verification/DurableRoundtrip.v ===== *)
(** * Reading back what was written

    The readers of DurableJson return the value whose JSON object they are given. *)
From S2P Require Import Prelude JsNumber SessionTypes JsonText Validation DurableJson.

(** ** Looking up the properties of a literal object *)

Definition orelse {A} (a b : option A) : option A := match a with Some x => Some x | None => b end.
Lemma orelse_None {A} (a : option A) : orelse a None = a.
Proof. by destruct a. Qed.
Lemma find_prop_app k l1 l2 : find_prop k (l1 ++ l2) = orelse (find_prop k l1) (find_prop k l2).
Proof. induction l1 as [|[k' v] l1 IH]; simpl; [done|]. by destruct (String.eqb k k'). Qed.
Lemma find_prop_opt {A} k k' (f : A -> json) o : find_prop k (opt k' f o) = if String.eqb k k' then f <$> o else None.
Proof. destruct o; simpl; by destruct (String.eqb k k'). Qed.
Lemma find_prop_flag k k' b : find_prop k (flag k' b) = if String.eqb k k' && b then Some (JsonBool true) else None.
Proof. destruct b; simpl; by destruct (String.eqb k k'). Qed.

Lemma bind_fmap {A B} (f : A -> json) (r : json -> option B) (o : option A) (g : A -> B) :
  (forall a, o = Some a -> r (f a) = Some (g a)) -> (f <$> o) ≫= r = g <$> o.
Proof. destruct o as [a|]; simpl; [|done]. intros H. by rewrite H. Qed.
Lemma checked_opt {A} (f : A -> json) (r : json -> option A) o :
  (forall a, o = Some a -> r (f a) = Some a) ->
  match f <$> o with None => Some None | Some p => Some <$> r p end = Some o.
Proof. destruct o as [a|]; simpl; [|done]. intros H. by rewrite H. Qed.
Lemma switch_flag (b : bool) :
  match (if b then Some (JsonBool true) else None) with
  | None => Some false | Some (JsonBool true) => Some true | _ => None
  end = Some b.
Proof. by destruct b. Qed.
Lemma fmap_id_opt {A} (o : option A) : id <$> o = o.
Proof. by destruct o. Qed.
Lemma is_true_flag (b : bool) : is_true (if b then Some (JsonBool true) else None) = b.
Proof. by destruct b. Qed.
Lemma mapM_fmap {A} (f : A -> json) (r : json -> option A) l :
  (forall a, a ∈ l -> r (f a) = Some a) -> mapM r (f <$> l) = Some l.
Proof.
  induction l as [|a l IH]; [done|]. intros H. rewrite fmap_cons. cbn [mapM]. rewrite H by by left. cbn [mbind option_bind].
  rewrite IH; [done|]. intros b Hb. apply H. by right.
Qed.

(** Evaluates the properties of literal objects. *)
Ltac lookups :=
  unfold req, checked, switch;
  repeat progress (
    cbn [prop find_prop app str num int boo arr String.eqb Ascii.eqb Bool.eqb fst snd orelse andb
         is_str is_true as_string as_number as_bool as_array as_nullable nullable mbind option_bind
         object_props as_object existsb negb orb];
    rewrite ?find_prop_app, ?find_prop_opt, ?find_prop_flag, ?orelse_None, ?fmap_id_opt, ?is_true_flag, ?switch_flag).

Lemma read_enc_usage u : read_usage (enc_usage u) = Some u.
Proof.
  destruct u as [i o cr cw h r t [ci co ccr ccw ct]]. unfold read_usage, enc_usage, enc_cost, read_cost. lookups.
  rewrite !checked_opt by done. done.
Qed.
Lemma stop_reason_of_name s : stop_reason_of (JsonString (stop_reason_name s)) = Some s.
Proof. by destruct s. Qed.
Definition content_type_name (c : SessionTypes.content) : string :=
  match c with
  | TextContent _ _ => "text" | ThinkingContent _ _ _ => "thinking" | ImageContent _ _ => "image"
  | ToolCallContent _ => "toolCall"
  end.
(** A block of an allowed type; the arguments of a call are an object. *)
Definition content_shape (allowed : list string) (c : SessionTypes.content) : bool :=
  existsb (String.eqb (content_type_name c)) allowed &&
  match c with ToolCallContent call => bool_decide (is_Some (as_object (tc_arguments call))) | _ => true end.
Lemma enc_content_type c : prop (enc_content c) "type" = Some (JsonString (content_type_name c)).
Proof. by destruct c. Qed.
Lemma read_enc_content allowed c : content_shape allowed c = true -> read_content allowed (enc_content c) = Some c.
Proof.
  intros [Ha Ho]%andb_prop. unfold read_content. rewrite enc_content_type. cbn zeta.
  change (existsb (is_str (Some (JsonString (content_type_name c)))) allowed)
    with (existsb (String.eqb (content_type_name c)) allowed).
  rewrite Ha. destruct c as [t s|t s r|d m|[i n a s ns]]; unfold enc_content, content_type_name;
    cbn [tc_id tc_name tc_arguments tc_thoughtSignature tc_namespace negb is_str] in *;
    lookups; rewrite ?checked_opt by done; try done.
  apply bool_decide_eq_true in Ho as [o Ho]. destruct a; try done; by lookups.
Qed.

Definition contents_shape (allowed : list string) (l : list SessionTypes.content) : bool := forallb (content_shape allowed) l.
Lemma read_enc_contents allowed l :
  contents_shape allowed l = true -> read_contents allowed (JsonArray (enc_content <$> l)) = Some l.
Proof.
  intros H. unfold read_contents. cbn [as_array mbind option_bind]. apply mapM_fmap. intros c Hc. apply read_enc_content.
  unfold contents_shape in H. rewrite forallb_forall in H. by apply H, list_elem_of_In.
Qed.
Definition user_content_shape (c : user_content) : bool :=
  match c with PlainText _ => true | Blocks l => contents_shape user_blocks l end.
Lemma read_enc_user_content c : user_content_shape c = true -> read_user_content (enc_user_content c) = Some c.
Proof. destruct c as [s|l]; [done|]. cbn [enc_user_content read_user_content]. intros H. by rewrite read_enc_contents. Qed.
Lemma read_enc_strings l : read_strings (enc_strings l) = Some l.
Proof. unfold read_strings, enc_strings. cbn [as_array mbind option_bind]. by apply mapM_fmap. Qed.
Lemma read_enc_deferred d : read_deferred (enc_deferred d) = Some d.
Proof. destruct d. unfold read_deferred, enc_deferred. lookups. by rewrite !checked_opt. Qed.

Lemma read_enc_assistant m : contents_shape assistant_blocks (am_content m) = true -> read_assistant (enc_assistant m) = Some m.
Proof.
  destruct m. intros H. unfold read_assistant, enc_assistant. lookups.
  rewrite read_enc_contents by done. lookups. rewrite read_enc_usage. lookups. rewrite stop_reason_of_name. lookups.
  rewrite (checked_opt enc_deferred) by (intros; apply read_enc_deferred). lookups. by rewrite !checked_opt.
Qed.
Lemma read_enc_tool_result m : contents_shape user_blocks (tr_content m) = true -> read_tool_result (enc_tool_result m) = Some m.
Proof.
  destruct m. intros H. unfold read_tool_result, enc_tool_result. lookups. rewrite read_enc_contents by done. lookups.
  rewrite (checked_opt enc_usage) by (intros; apply read_enc_usage). lookups.
  rewrite (checked_opt enc_strings) by (intros; apply read_enc_strings). lookups. by rewrite !checked_opt.
Qed.
Lemma read_enc_bash m : read_bash (enc_bash m) = Some m.
Proof. destruct m. unfold read_bash, enc_bash. lookups. by rewrite !checked_opt. Qed.

(** ** Messages *)

(** An application message has a role of its own and an object as its content. *)
Definition app_shape (m : AgentMessage) : bool :=
  match m with
  | AppMsg role (JsonObject props) =>
      negb (existsb (String.eqb role) core_roles) && negb (existsb (fun kv => String.eqb kv.1 "role") props)
  | AppMsg _ _ => false
  | _ => true
  end.
(** The content of a message is of the types of the message. *)
Definition message_shape (m : AgentMessage) : bool :=
  match m with
  | UserMsg c _ | CustomMsg _ c _ _ _ => user_content_shape c
  | AssistantMsg m => contents_shape assistant_blocks (am_content m)
  | ToolResultMsg m => contents_shape user_blocks (tr_content m)
  | m => app_shape m
  end.

Lemma without_absent k (props : fields) :
  existsb (fun kv => String.eqb kv.1 k) props = false -> without k props = props.
Proof.
  intros H. apply keep_all. intros kv Hin. apply negb_true_iff. destruct (String.eqb kv.1 k) eqn:E; [|done].
  apply list_elem_of_In in Hin. rewrite <-H. symmetry. apply existsb_exists. eauto.
Qed.

Lemma read_enc_app role props :
  message_shape (AppMsg role (JsonObject props)) = true ->
  read_message (enc_message (AppMsg role (JsonObject props))) = Some (AppMsg role (JsonObject props)).
Proof.
  intros [Hr%negb_true_iff Hp%negb_true_iff]%andb_prop. unfold core_roles in Hr.
  cbn [existsb] in Hr. rewrite !orb_false_iff in Hr. destruct Hr as (H1 & H2 & H3 & H4 & H5 & H6 & H7 & _).
  unfold read_message, enc_message. lookups. rewrite H1, H2, H3, H4, H5, H6, H7. lookups.
  unfold without. cbn [keep fst String.eqb Ascii.eqb Bool.eqb negb].
  fold (without "role" props). by rewrite without_absent.
Qed.
Lemma role_assistant m : read_message (enc_assistant m) = AssistantMsg <$> read_assistant (enc_assistant m).
Proof. done. Qed.
Lemma role_tool_result m : read_message (enc_tool_result m) = ToolResultMsg <$> read_tool_result (enc_tool_result m).
Proof. done. Qed.
Lemma role_bash m : read_message (enc_bash m) = BashExecutionMsg <$> read_bash (enc_bash m).
Proof. done. Qed.
Lemma read_enc_message m : message_shape m = true -> read_message (enc_message m) = Some m.
Proof.
  destruct m as [c t|m|m|m|ct c d o t|s i t|s tb e t|role p].
  - intros H. unfold read_message, enc_message. lookups. by rewrite read_enc_user_content.
  - intros H. cbn [enc_message]. by rewrite role_assistant, read_enc_assistant.
  - intros H. cbn [enc_message]. by rewrite role_tool_result, read_enc_tool_result.
  - intros _. cbn [enc_message]. by rewrite role_bash, read_enc_bash.
  - intros H. unfold read_message, enc_message. lookups. by rewrite read_enc_user_content.
  - intros _. unfold read_message, enc_message. lookups. done.
  - intros _. unfold read_message, enc_message. lookups. by rewrite checked_opt.
  - destruct p as [| | | | |props]; try done. apply read_enc_app.
Qed.
Lemma read_enc_messages l : forallb message_shape l = true -> read_messages (JsonArray (enc_message <$> l)) = Some l.
Proof.
  intros H. unfold read_messages. cbn [as_array mbind option_bind]. apply mapM_fmap. intros m Hm. apply read_enc_message.
  rewrite forallb_forall in H. by apply H, list_elem_of_In.
Qed.

(** ** Entries *)

Definition body_shape (b : entry_body) : bool :=
  match b with
  | MessageEntry m _ => message_shape m
  | CompactionEntry _ tail _ _ _ => forallb message_shape tail
  | _ => true
  end.
Definition body_keys : list string :=
  ["type"; "id"; "message"; "terminate"; "provider"; "modelId"; "thinkingLevel"; "activeToolNames"; "summary";
   "retainedTail"; "tokensBefore"; "usage"; "details"; "fromId"; "customType"; "data"].

(** The reader looks at these properties only. *)
Lemma read_provisioned_ext v v' :
  (forall k, In k body_keys -> prop v k = prop v' k) -> read_provisioned v = read_provisioned v'.
Proof.
  intros H. unfold read_provisioned, read_body, req, checked, switch.
  repeat match goal with |- context [prop v ?k] => rewrite (H k) by (cbn; tauto) end. done.
Qed.

Lemma read_enc_provisioned e :
  body_shape (pe_body e) = true -> read_provisioned (JsonObject (enc_provisioned e)) = Some e.
Proof.
  destruct e as [i [m t|p m|l|ns|s tail tb d u|f s d u|c d]]; unfold read_provisioned, read_body, enc_provisioned;
    cbn [pe_id pe_body enc_body body_type entry_type_name body_shape]; intros Hs; lookups; try done.
  - by rewrite read_enc_message.
  - by rewrite read_enc_strings.
  - rewrite read_enc_messages by done. lookups. by rewrite (checked_opt enc_usage) by (intros; apply read_enc_usage).
  - by rewrite (checked_opt enc_usage) by (intros; apply read_enc_usage).
Qed.
Lemma read_enc_provisioneds l :
  forallb (fun e => body_shape (pe_body e)) l = true ->
  mapM read_provisioned ((fun e => JsonObject (enc_provisioned e)) <$> l) = Some l.
Proof.
  intros H. apply mapM_fmap. intros e He. apply read_enc_provisioned. rewrite forallb_forall in H. by apply H, list_elem_of_In.
Qed.

(** ** Records *)

Definition safe (z : Z) : bool := Z.abs z <=? MAX_SAFE_INTEGER.
Lemma as_Z_safe z : safe z = true -> as_Z (JsonNumber (num_of_Z z)) = Some z.
Proof. intros H. apply num_to_Z_of_Z. by apply Z.leb_le in H. Qed.

Definition object_shape (v : option json) : bool :=
  match v with Some v => bool_decide (is_Some (as_object v)) | None => true end.
Definition intent_shape (i : intent) : bool :=
  match i with
  | IntentRun o ms _ d => forallb message_shape o && forallb (fun e => body_shape (pe_body e)) ms && object_shape d
  | _ => true
  end.
Definition cause_shape (c : usage_cause) : bool :=
  match c with CauseStep _ _ _ attempt _ => safe attempt | _ => true end.
Definition record_shape (b : record_body) : bool :=
  match b with
  | ROperationStarted r => intent_shape (os_intent r)
  | RStepAttempt r => safe (sa_attempt r)
  | RToolStarted r => safe (ts_toolIndex r)
  | RToolReconciliation r =>
      match tl_diagnostic r with Some m => contents_shape user_blocks (tr_content m) | None => true end
  | RAssistantCheckpoint r =>
      safe (ac_attempt r) && match ac_retryAttempt r with Some z => safe z | None => true end &&
      contents_shape assistant_blocks (am_content (ac_message r)) &&
      match ac_continuationFailure r with Some m => contents_shape assistant_blocks (am_content m) | None => true end
  | RQueueEnqueued r => body_shape (pe_body (qe_target r))
  | RWriteDeferred r => body_shape (pe_body (wd_target r))
  | RUsage r => cause_shape (ur_cause r)
  | _ => true
  end.

Lemma read_enc_intent i : intent_shape i = true -> read_intent (enc_intent i) = Some i.
Proof.
  destruct i as [o ms s r|c e|t s c l e]; unfold read_intent, enc_intent; cbn [intent_shape]; intros Hs; lookups.
  - apply andb_prop in Hs as [[Ho Hm]%andb_prop Hd]. rewrite read_enc_messages by done. lookups.
    rewrite read_enc_provisioneds by done. lookups. rewrite checked_opt by done. lookups.
    destruct r as [d|]; [|done]. apply bool_decide_eq_true in Hd as [? Hd]. by destruct d.
  - by rewrite checked_opt.
  - destruct t; lookups; rewrite !checked_opt by done; done.
Qed.

Lemma usage_kind_of_name k : usage_kind_of (JsonString (usage_kind_name k)) = Some k.
Proof. by destruct k. Qed.
Lemma outcome_of_name o : outcome_of (JsonString (outcome_name o)) = Some o.
Proof. by destruct o. Qed.
Lemma step_of_name s : step_of (JsonString (step_name s)) = Some s.
Proof. by destruct s. Qed.
Lemma replay_of_name r : replay_of (JsonString (replay_name r)) = Some r.
Proof. by destruct r. Qed.
Lemma queue_of_name q : queue_of (JsonString (queue_name q)) = Some q.
Proof. by destruct q. Qed.

Lemma read_enc_error e : read_error (enc_error e) = Some e.
Proof. by destruct e. Qed.
Lemma read_as_assistant_enc m :
  contents_shape assistant_blocks (am_content m) = true -> read_as assistant_of (enc_assistant m) = Some m.
Proof. intros H. unfold read_as. by rewrite role_assistant, read_enc_assistant. Qed.
Lemma read_as_tool_result_enc m :
  contents_shape user_blocks (tr_content m) = true -> read_as tool_result_of (enc_tool_result m) = Some m.
Proof. intros H. unfold read_as. by rewrite role_tool_result, read_enc_tool_result. Qed.

Definition record_keys : list string :=
  ["type"; "runId"; "sourceLeafId"; "intent"; "outcome"; "error"; "step"; "attempt"; "resultEntryId"; "compactionReason";
   "assistantEntryId"; "toolIndex"; "toolCallId"; "toolName"; "effectiveArgs"; "operationId"; "replay"; "reason";
   "diagnostic"; "message"; "continuationFailure"; "retryAttempt"; "queue"; "target"; "entryId"; "usage"; "cause";
   "stopReason"; "details"].
Lemma read_record_body_ext v v' :
  (forall k, In k record_keys -> prop v k = prop v' k) -> read_record_body v = read_record_body v'.
Proof.
  intros H. unfold read_record_body, read_cause, req, checked.
  repeat match goal with |- context [prop v ?k] => rewrite (H k) by (cbn; tauto) end. done.
Qed.

Definition typed_record (b : record_body) : json := JsonObject (str "type" (record_type_name b) :: enc_record_body b).

Lemma read_enc_usage_record r :
  cause_shape (ur_cause r) = true -> read_record_body (typed_record (RUsage r)) = Some (RUsage r).
Proof.
  destruct r as [u [k ri e a s|ri e t|ri e|ri e d]]; unfold read_record_body, typed_record; cbn [ur_cause cause_shape];
    intros Hs; cbn [enc_record_body record_type_name ur_usage ur_cause]; lookups; rewrite read_enc_usage; lookups;
    unfold read_cause, enc_cause; lookups; try done.
  - rewrite usage_kind_of_name, as_Z_safe by done. lookups. rewrite stop_reason_of_name. destruct k; done.
  - by rewrite !checked_opt.
Qed.

Lemma read_enc_record b : record_shape b = true -> read_record_body (typed_record b) = Some b.
Proof.
  destruct b as [[l i]| | | |[r o e]|[r s a e c]|[r a i c n g e p y]|[r c e w d]|[r c e]|[r e a m f y]|[q r t]|[r e]|[r t]|u].
  14: apply read_enc_usage_record.
  all: unfold read_record_body, typed_record; cbn [record_shape os_intent sa_attempt ts_toolIndex ac_attempt ac_retryAttempt
         qe_target wd_target]; intros Hs; cbn [enc_record_body record_type_name os_sourceLeafId os_intent of_runId of_outcome of_error
         sa_runId sa_step sa_attempt sa_resultEntryId sa_compactionReason ts_runId ts_assistantEntryId ts_toolIndex
         ts_toolCallId ts_toolName ts_effectiveArgs ts_resultEntryId ts_operationId ts_replay tl_runId tl_toolCallId
         tl_resultEntryId tl_reason tl_diagnostic td_runId td_toolCallId td_resultEntryId ac_runId ac_resultEntryId
         ac_attempt ac_message ac_continuationFailure ac_retryAttempt qe_queue qe_runId qe_target qc_runId qc_entryId
         wd_runId wd_target]; lookups; try done.
  - destruct l; lookups; by rewrite read_enc_intent.
  - rewrite outcome_of_name. lookups. by rewrite (checked_opt enc_error) by (intros; apply read_enc_error).
  - rewrite step_of_name, as_Z_safe by done. lookups. by rewrite checked_opt.
  - rewrite as_Z_safe by done. lookups. rewrite replay_of_name. lookups. by rewrite checked_opt.
  - rewrite (checked_opt enc_tool_result); [done|]. intros m Hm. apply read_as_tool_result_enc. cbn in Hs. by rewrite Hm in Hs.
  - apply andb_prop in Hs as [[[Ha Hy]%andb_prop Hm]%andb_prop Hf]. rewrite as_Z_safe by done. lookups.
    rewrite read_as_assistant_enc by done. lookups.
    rewrite (checked_opt enc_assistant) by (intros ? ->; by apply read_as_assistant_enc). lookups.
    rewrite (checked_opt (fun z => JsonNumber (num_of_Z z))); [done|]. intros z ->. by apply as_Z_safe.
  - rewrite queue_of_name. lookups. rewrite read_enc_provisioned by done. lookups. by rewrite checked_opt.
  - by rewrite checked_opt.
  - by rewrite read_enc_provisioned.
Qed.

(** ** The shape of accepted values

    What validation and the shapes above have in common: a value the validators accept
    has content of the types of its messages.  What is left is that its application
    messages have a role of their own ([app_shape]) and that its integers are numbers. *)

Definition body_messages (b : entry_body) : list AgentMessage :=
  match b with MessageEntry m _ => [m] | CompactionEntry _ tail _ _ _ => tail | _ => [] end.
Definition intent_messages (i : intent) : list AgentMessage :=
  match i with
  | IntentRun o ms _ _ => o ++ concat ((fun e => body_messages (pe_body e)) <$> ms)
  | _ => []
  end.
Definition messages_of_record (b : record_body) : list AgentMessage :=
  match b with
  | ROperationStarted r => intent_messages (os_intent r)
  | RToolReconciliation r => option_list (ToolResultMsg <$> tl_diagnostic r)
  | RAssistantCheckpoint r => AssistantMsg (ac_message r) :: option_list (AssistantMsg <$> ac_continuationFailure r)
  | RQueueEnqueued r => body_messages (pe_body (qe_target r))
  | RWriteDeferred r => body_messages (pe_body (wd_target r))
  | _ => []
  end.
(** The integers of a record are exact. *)
Definition record_exact (b : record_body) : bool :=
  match b with
  | RStepAttempt r => safe (sa_attempt r)
  | RToolStarted r => safe (ts_toolIndex r)
  | RAssistantCheckpoint r => safe (ac_attempt r) && match ac_retryAttempt r with Some z => safe z | None => true end
  | RUsage r => cause_shape (ur_cause r)
  | _ => true
  end.

Lemma for_each_Ok {A} (f : A -> V) (l : list A) x : for_each f l = Ok tt -> x ∈ l -> f x = Ok tt.
Proof.
  intros H Hx. revert H. induction Hx as [y l|y z l _ IH]; cbn [for_each]; intros ([] & Hy & H)%bind_Ok; auto.
Qed.
Lemma requireValue_true c field : requireValue c field = Ok tt -> c = true.
Proof. by destruct c. Qed.
Lemma object_self v field j : object (Some v) field = Ok j -> j = v.
Proof. destruct v; try done. by intros [= <-]. Qed.
Lemma content_accepted allowed c : content_block allowed (Some (enc_content c)) = Ok tt -> content_shape allowed c = true.
Proof.
  intros H. unfold content_block in H. apply bind_Ok in H as (j & Hj & H). cbn beta zeta in H.
  apply object_self in Hj as ->. rewrite enc_content_type in H.
  apply bind_Ok in H as ([] & Ht%requireValue_true & H). unfold content_shape. apply andb_true_iff. split; [exact Ht|].
  destruct c as [| | |[i n a s ns]]; try done. cbn [content_type_name is_str String.eqb Ascii.eqb Bool.eqb] in H.
  apply bind_Ok in H as ([] & _ & ([] & _ & (args & Hargs & _)%bind_Ok)%bind_Ok). revert Hargs.
  cbn [enc_content tc_id tc_name tc_arguments]. lookups. intros Hargs. apply bool_decide_eq_true. by destruct a.
Qed.
Lemma contents_accepted allowed l :
  message_content (Some (JsonArray (enc_content <$> l))) allowed = Ok tt -> contents_shape allowed l = true.
Proof.
  intros H. apply forallb_forall. intros c Hc. apply content_accepted. unfold message_content, array in H.
  refine (for_each_Ok _ _ (enc_content c) H _). apply list_elem_of_fmap_2. by apply list_elem_of_In.
Qed.
Lemma user_content_accepted c : userContent (Some (enc_user_content c)) = Ok tt -> user_content_shape c = true.
Proof. destruct c as [s|l]; [done|]. apply contents_accepted. Qed.

Lemma stored_message_fields props : stored_message (Some (JsonObject props)) = Ok tt ->
  match message_fields (find_prop "role" props) (JsonObject props) with Some fields => fields = Ok tt | None => True end.
Proof.
  intros H. unfold stored_message in H. apply bind_Ok in H as (j & [= <-] & H). cbn beta in H.
  apply bind_Ok in H as ([] & _ & H). cbn [prop] in H. destruct (message_fields _ _) as [fields|]; [|done].
  by apply bind_Ok in H as ([] & H & _).
Qed.
Lemma message_accepted m : app_shape m = true -> stored_message (Some (enc_message m)) = Ok tt -> message_shape m = true.
Proof.
  intros Ha. destruct m as [c t|m|m|m|ct c d o t|s i t|s tb e t|role p]; try done; intros H%stored_message_fields.
  - revert H. unfold message_fields. lookups. apply user_content_accepted.
  - revert H. unfold message_fields. cbn [enc_message]. lookups. unfold assistant_fields. lookups.
    intros ([] & H & _)%bind_Ok. by apply contents_accepted.
  - revert H. unfold message_fields. cbn [enc_message]. lookups. unfold toolResult_fields. lookups.
    intros ([] & _ & ([] & _ & ([] & H & _)%bind_Ok)%bind_Ok)%bind_Ok. by apply contents_accepted.
  - revert H. unfold message_fields. lookups. unfold custom_fields. lookups.
    intros ([] & _ & ([] & H & _)%bind_Ok)%bind_Ok. by apply user_content_accepted.
Qed.
Lemma messages_accepted l field :
  forallb app_shape l = true -> array (Some (JsonArray (enc_message <$> l))) field (fun item _ => stored_message item) = Ok tt ->
  forallb message_shape l = true.
Proof.
  intros Ha H. apply forallb_forall. intros m Hm. rewrite forallb_forall in Ha. apply message_accepted; [by apply Ha|].
  refine (for_each_Ok _ _ (enc_message m) H _). apply list_elem_of_fmap_2. by apply list_elem_of_In.
Qed.

Ltac agree H k := rewrite (H k) in * by (cbn; tauto).
Lemma body_accepted v e :
  (forall k, In k body_keys -> prop v k = prop (JsonObject (enc_provisioned e)) k) ->
  forallb app_shape (body_messages (pe_body e)) = true -> assertDurableEntry (Some v) = Ok tt ->
  body_shape (pe_body e) = true.
Proof.
  intros Hv Ha H. unfold assertDurableEntry in H. apply bind_Ok in H as (j & Hj & H).
  apply object_self in Hj as ->. cbn beta zeta in H.
  apply bind_Ok in H as ([] & _ & H). agree Hv "type".
  destruct e as [i [m t|p m|l|ns|s tail tb d u|f s d u|c d]]; try done; unfold enc_provisioned in *; revert H; lookups;
    cbn [pe_body body_type entry_type_name body_shape body_messages] in *.
  - intros ([] & H & _)%bind_Ok. agree Hv "message". revert H. lookups. apply message_accepted.
    cbn [forallb] in Ha. by rewrite andb_true_r in Ha.
  - intros ([] & _ & ([] & H & _)%bind_Ok)%bind_Ok. agree Hv "retainedTail". revert H. lookups. by apply messages_accepted.
Qed.
Lemma provisioned_accepted e :
  forallb app_shape (body_messages (pe_body e)) = true -> assertDurableEntry (Some (JsonObject (enc_provisioned e))) = Ok tt ->
  body_shape (pe_body e) = true.
Proof. by apply body_accepted. Qed.
Lemma intent_accepted i :
  forallb app_shape (intent_messages i) = true -> intent_fields (Some (enc_intent i)) = Ok tt -> intent_shape i = true.
Proof.
  destruct i as [o ms s r|c e|t s c l e]; try done. cbn [intent_messages intent_shape]. rewrite forallb_app.
  intros [Ho Hm]%andb_prop H. unfold intent_fields in H. apply bind_Ok in H as (j & [= <-] & H). revert H. cbn beta zeta. lookups.
  intros ([] & H1 & ([] & H2 & ([] & _ & H3)%bind_Ok)%bind_Ok)%bind_Ok. rewrite !andb_true_iff. split_and!.
  - by apply (messages_accepted _ "originalPrompt").
  - apply forallb_forall. intros e He. apply provisioned_accepted.
    + rewrite forallb_forall in Hm |- *. intros m Hin. apply Hm, in_concat. exists (body_messages (pe_body e)).
      split; [|done]. apply list_elem_of_In, (list_elem_of_fmap_2 (fun e => body_messages (pe_body e))). by apply list_elem_of_In.
    + refine (for_each_Ok _ _ (JsonObject (enc_provisioned e)) H2 _).
      apply (list_elem_of_fmap_2 (fun e => JsonObject (enc_provisioned e))). by apply list_elem_of_In.
  - destruct r as [r|]; [|done]. cbn [optional fmap option_fmap option_map opt] in H3. apply bool_decide_eq_true. by destruct r.
Qed.

(** A message the validator has seen in place of an assistant message or a tool result. *)
Lemma assistant_accepted m : stored_message (Some (enc_assistant m)) = Ok tt -> contents_shape assistant_blocks (am_content m) = true.
Proof. by apply (message_accepted (AssistantMsg m)). Qed.
Lemma tool_result_accepted m : stored_message (Some (enc_tool_result m)) = Ok tt -> contents_shape user_blocks (tr_content m) = true.
Proof. by apply (message_accepted (ToolResultMsg m)). Qed.

Lemma checkpoint_accepted v r :
  (forall k, In k record_keys -> prop v k = prop (typed_record (RAssistantCheckpoint r)) k) ->
  checkpoint_fields v = Ok tt ->
  contents_shape assistant_blocks (am_content (ac_message r)) = true /\
  match ac_continuationFailure r with Some m => contents_shape assistant_blocks (am_content m) = true | None => True end.
Proof.
  intros Hv H. unfold checkpoint_fields in H. do 2 (apply bind_Ok in H as ([] & _ & H); cbn beta in H).
  apply bind_Ok in H as ([] & H1 & (? & _ & ([] & _ & ([] & H2 & _)%bind_Ok)%bind_Ok)%bind_Ok).
  agree Hv "message". agree Hv "continuationFailure". revert H1 H2. unfold typed_record. cbn [enc_record_body]. lookups.
  intros H1 H2. split; [by apply assistant_accepted|]. destruct (ac_continuationFailure r) as [m|]; [|done].
  cbn [fmap option_fmap option_map is_undefined] in H2. apply bind_Ok in H2 as ([] & H2 & _). by apply assistant_accepted.
Qed.
Lemma reconciliation_accepted v r :
  (forall k, In k record_keys -> prop v k = prop (typed_record (RToolReconciliation r)) k) ->
  reconciliation_fields v = Ok tt -> record_shape (RToolReconciliation r) = true.
Proof.
  intros Hv H. unfold reconciliation_fields in H. do 2 (apply bind_Ok in H as ([] & _ & H); cbn beta in H).
  agree Hv "type". agree Hv "diagnostic". revert H. unfold typed_record. cbn [enc_record_body record_type_name]. lookups.
  intros ([] & _ & H)%bind_Ok. cbn [record_shape]. destruct (tl_diagnostic r) as [m|]; [|done].
  cbn [fmap option_fmap option_map is_undefined] in H. apply bind_Ok in H as ([] & H & _). by apply tool_result_accepted.
Qed.
Lemma record_accepted v b :
  (forall k, In k record_keys -> prop v k = prop (typed_record b) k) ->
  forallb app_shape (messages_of_record b) = true -> record_exact b = true -> assertDurableRecord (Some v) = Ok tt ->
  record_shape b = true.
Proof.
  intros Hv Ha He H. unfold assertDurableRecord in H. apply bind_Ok in H as (j & Hj & H).
  apply object_self in Hj as ->. cbn beta zeta in H.
  do 3 (apply bind_Ok in H as ([] & _ & H); cbn beta in H). rewrite (Hv "type") in H by (cbn; tauto).
  change (prop (typed_record b) "type") with (Some (JsonString (record_type_name b))) in H.
  destruct b as [r|r|r|r|r|r|r|r|r|r|r|r|r|r]; try done;
    cbn [record_type_name is_str String.eqb Ascii.eqb Bool.eqb orb messages_of_record record_exact] in *.
  - apply bind_Ok in H as ([] & _ & H). agree Hv "intent". revert H. unfold typed_record. cbn [enc_record_body]. lookups.
    by apply intent_accepted.
  - by eapply reconciliation_accepted.
  - destruct (checkpoint_accepted v r Hv H) as [H1 H2]. cbn [record_shape]. rewrite He, H1.
    by destruct (ac_continuationFailure r).
  - apply bind_Ok in H as ([] & _ & ([] & _ & H)%bind_Ok). agree Hv "target". revert H. unfold typed_record.
    cbn [enc_record_body]. lookups. by apply provisioned_accepted.
  - agree Hv "target". revert H. unfold typed_record. cbn [enc_record_body]. lookups. by apply provisioned_accepted.
Qed.
