(* ===== verification/JsonlCodec.v ===== *)
(** * The JSONL session codec
    (packages/agent/src/harness/session/jsonl/codec.ts and errors.ts)

    A session file is a header line and one line per mutation.  A decoded payload is the
    JSON object read at the type its validator asserts.  DurableReading shows that a
    validated object reads, if its optional properties that the validators do not look at
    have their declared type; the code casts any validated object and would keep such a
    property as it is, so the lines in which one is ill-typed are outside the data model
    and are refused here. *)
From S2P Require Import Prelude JsNumber SessionTypes JsText JsonText SessionState Validation DurableJson.

(** [JsonlDecodeError] *)
Inductive DecodeKind := syntax | schema.
#[export] Instance DecodeKind_eq_dec : EqDecision DecodeKind.
Proof. solve_decision. Defined.
Record JsonlDecodeError := { de_kind : DecodeKind; de_message : string }.
Definition decodeError (kind : DecodeKind) (message : string) : JsonlDecodeError :=
  {| de_kind := kind; de_message := message |}.

(** A decoding step. *)
Abbreviation D := (result JsonlDecodeError) (only parsing).
Definition reject {A} (message : string) : D A := Err (decodeError schema message).

Definition validatePayload (value : json) (validate : option json -> V) : D unit :=
  match validate (Some value) with
  | Ok _ => Ok tt
  | Err message => reject message
  end.

Definition isObject (value : json) : bool := match value with JsonObject _ => true | _ => false end.

Definition parseObject (line : jsstring) : D json :=
  match JSON_parse line with
  | None => Err (decodeError syntax "is not valid JSON")
  | Some value => if isObject value then Ok value else reject "is not a JSON object"
  end.

Definition requireString (value : option json) (field : string) : D string :=
  match value with Some (JsonString s) => Ok s | _ => reject ("has invalid " +:+ field) end.

(** A safe integer that is at least [minimum]. *)
Definition requireSafe (minimum : Z) (value : option json) (message : string) : D Z :=
  match value with
  | Some (JsonNumber n) =>
      match num_to_Z n with
      | Some z => if num_is_safe_integer n && (minimum <=? z) then Ok z else reject message
      | None => reject message
      end
  | _ => reject message
  end.
Definition requireSequence (value : option json) : D Z := requireSafe 1 value "has invalid seq".
Definition requireTimestamp (value : option json) : D Z := requireSafe 0 value "has invalid timestamp".

Definition requireNullableId (value : option json) (field : string) : D (option string) :=
  match value with
  | Some JsonNull => Ok None
  | Some (JsonString s) => Ok (Some s)
  | _ => reject ("has invalid " +:+ field)
  end.
(** [value !== undefined && typeof value !== "string"] is an error. *)
Definition optionalString (value : option json) (field : string) : D (option string) :=
  match value with
  | None => Ok None
  | Some (JsonString s) => Ok (Some s)
  | _ => reject ("has invalid " +:+ field)
  end.

(** ** The header *)

Record JsonlV4Header := {
  h_id : string;
  h_createdAt : Z;
  h_cwd : string;
  h_parentSessionId : option string;
  h_legacyParentSessionPath : option string;
  h_metadata : option json }.

Definition is_version_4 (value : option json) : bool :=
  match value with Some (JsonNumber n) => num_eq_Z n 4 | _ => false end.

Definition decodeHeader (line : jsstring) : D JsonlV4Header :=
  value ← parseObject line;
  if negb (is_str (prop value "kind") "header") then reject "is not a header" else
  if negb (is_version_4 (prop value "version")) then reject "has unsupported session version" else
  parentSessionId ← optionalString (prop value "parentSessionId") "parentSessionId";
  legacyParentSessionPath ← optionalString (prop value "legacyParentSessionPath") "legacyParentSessionPath";
  if bool_decide (is_Some parentSessionId) && bool_decide (is_Some legacyParentSessionPath)
  then reject "has both parentSessionId and legacyParentSessionPath" else
  if match prop value "metadata" with Some metadata => negb (isObject metadata) | None => false end
  then reject "has invalid metadata" else
  id ← requireString (prop value "id") "id";
  createdAt ← requireTimestamp (prop value "createdAt");
  cwd ← requireString (prop value "cwd") "cwd";
  mret {| h_id := id; h_createdAt := createdAt; h_cwd := cwd; h_parentSessionId := parentSessionId;
          h_legacyParentSessionPath := legacyParentSessionPath; h_metadata := prop value "metadata" |}.
Definition parseHeader (line : jsstring) : D JsonlV4Header := decodeHeader line.

Definition header_json (header : JsonlV4Header) : json := JsonObject (
  [str "kind" "header"; int "version" 4; str "id" (h_id header); int "createdAt" (h_createdAt header);
   str "cwd" (h_cwd header)] ++
  opt "parentSessionId" JsonString (h_parentSessionId header) ++
  opt "legacyParentSessionPath" JsonString (h_legacyParentSessionPath header) ++
  opt "metadata" id (h_metadata header)).
Definition encodeHeader (header : JsonlV4Header) : jsstring := JSON_stringify (header_json header) ++ [10].

Record JsonlSessionMetadata := {
  jm_id : string;
  jm_createdAt : Z;
  jm_cwd : string;
  jm_path : string;
  jm_modifiedAt : number;
  jm_sourceFormat : Z;
  jm_parentSessionId : option string;
  jm_legacyParentSessionPath : option string;
  jm_metadata : option json }.
Definition metadataFromHeader (header : JsonlV4Header) (path : string) (modifiedAt : number) : JsonlSessionMetadata :=
  {| jm_id := h_id header; jm_createdAt := h_createdAt header; jm_cwd := h_cwd header; jm_path := path;
     jm_modifiedAt := modifiedAt; jm_sourceFormat := 4; jm_parentSessionId := h_parentSessionId header;
     jm_legacyParentSessionPath := h_legacyParentSessionPath header; jm_metadata := h_metadata header |}.

(** ** Mutations *)

(** A validated object, read at its type ([as unknown as Entry] in the code). *)
Definition cast {A} (value : option A) : D A :=
  match value with Some a => Ok a | None => reject "has invalid payload" end.

Definition parseEntryMutation (value : json) (seq : Z) : D SessionMutation :=
  lane ← match prop value "lane" with
         | None => mret None
         | Some l => lane ← requireString (Some l) "lane"; mret (Some lane)
         end;
  id ← requireString (prop value "id") "id";
  _ ← requireString (prop value "type") "entry type";
  _ ← validatePayload value assertDurableEntry;
  parentId ← requireNullableId (prop value "parentId") "parentId";
  timestamp ← requireTimestamp (prop value "timestamp");
  entryFields ← cast (read_provisioned value);
  mret (MutEntry lane {| e_id := id; e_seq := seq; e_parentId := parentId; e_timestamp := timestamp;
                         e_body := pe_body entryFields |}).

Definition parseRecordMutation (value : json) (seq : Z) : D SessionMutation :=
  id ← requireString (prop value "id") "id";
  lane ← requireString (prop value "lane") "lane";
  _ ← requireString (prop value "type") "record type";
  _ ← validatePayload value assertDurableRecord;
  timestamp ← requireTimestamp (prop value "timestamp");
  recordFields ← cast (read_record_body value);
  mret (MutRecord {| lr_base := {| r_id := id; r_seq := seq; r_lane := lane; r_timestamp := timestamp |};
                     lr_body := recordFields |}).

Definition parseLaneMutation (value : json) (seq : Z) : D SessionMutation :=
  lane ← requireString (prop value "lane") "lane";
  leafId ← requireNullableId (prop value "leafId") "leafId";
  mret (MutLane seq lane leafId).

Definition parseFactMutation (value : json) (seq : Z) : D SessionMutation :=
  if is_str (prop value "fact") "name" then
    name ← optionalString (prop value "name") "name";
    mret (MutName seq name)
  else if is_str (prop value "fact") "label" then
    label ← optionalString (prop value "label") "label";
    targetId ← requireString (prop value "targetId") "targetId";
    mret (MutLabel seq targetId label)
  else reject "has unknown fact type".

Definition decodeMutation (line : jsstring) : D SessionMutation :=
  value ← parseObject line;
  seq ← requireSequence (prop value "seq");
  let kind := prop value "kind" in
  if is_str kind "entry" then parseEntryMutation value seq
  else if is_str kind "record" then parseRecordMutation value seq
  else if is_str kind "lane" then parseLaneMutation value seq
  else if is_str kind "fact" then parseFactMutation value seq
  else reject "has unknown mutation kind".
Definition parseMutation (line : jsstring) : D SessionMutation := decodeMutation line.

(** The object of a line. *)
Definition mutation_fields (mutation : SessionMutation) : fields :=
  match mutation with
  | MutEntry lane entry => str "kind" "entry" :: opt "lane" JsonString lane ++ enc_entry entry
  | MutRecord record => str "kind" "record" :: enc_record record
  | MutLane seq lane leafId => [str "kind" "lane"; int "seq" seq; str "lane" lane; ("leafId", nullable leafId)]
  | MutName seq name => [str "kind" "fact"; int "seq" seq; str "fact" "name"] ++ opt "name" JsonString name
  | MutLabel seq targetId label =>
      [str "kind" "fact"; int "seq" seq; str "fact" "label"; str "targetId" targetId] ++ opt "label" JsonString label
  end.
Definition encodeMutation (mutation : SessionMutation) : jsstring :=
  JSON_stringify (JsonObject (mutation_fields mutation)) ++ [10].
