(* ===== verification/JsonlCodecTheorems.v ===== *)
(** * The JSONL codec reads back what it writes
    (packages/agent/src/harness/session/jsonl/codec.ts) *)
From S2P Require Import Prelude JsNumber SessionTypes JsText JsonText JsonTextTheorems SessionState Validation.
From S2P Require Import DurableJson DurableReading DurableRoundtrip JsonlCodec.

(** ** What can be written durably *)

(** A positive (non-negative) integer JSON numbers represent. *)
Definition counts (minimum z : Z) : bool := (minimum <=? z) && safe z.

(** The object of a mutation is a JSON value: its numbers are finite and not -0, its
    counters are exact, and its application messages have a role of their own. *)
Definition represented (m : SessionMutation) : bool :=
  json_ok (JsonObject (mutation_fields m)) && counts 1 (mutation_seq m) &&
  match m with
  | MutEntry _ e => counts 0 (e_timestamp e) && forallb app_shape (body_messages (e_body e))
  | MutRecord r =>
      counts 0 (r_timestamp (lr_base r)) && forallb app_shape (messages_of_record (lr_body r)) && record_exact (lr_body r)
  | _ => true
  end.
(** Its payload passes the validation a loader applies. *)
Definition payload_valid (m : SessionMutation) : bool :=
  let object := Some (JsonObject (mutation_fields m)) in
  match m with
  | MutEntry _ _ => is_ok (assertDurableEntry object)
  | MutRecord _ => is_ok (assertDurableRecord object)
  | _ => true
  end.
Definition mutation_ok (m : SessionMutation) : bool := represented m && payload_valid m.
(** ** The object of a mutation *)

Lemma body_other_keys b k : In k ["kind"; "lane"; "id"; "type"; "parentId"; "seq"; "timestamp"] -> find_prop k (enc_body b) = None.
Proof.
  intros Hk. repeat (destruct Hk as [<-|Hk]); try done; destruct b; unfold enc_body; lookups; done.
Qed.
Lemma record_other_keys b k : In k ["kind"; "lane"; "id"; "type"; "seq"; "timestamp"] -> find_prop k (enc_record_body b) = None.
Proof.
  intros Hk. repeat (destruct Hk as [<-|Hk]); try done;
    destruct b as [| | | | | | | | | | | | |[u [| | |]]]; unfold enc_record_body, enc_cause; cbn [ur_cause]; lookups; done.
Qed.

(** Everything the reader looks at comes from the object of the value itself. *)
Lemma entry_object_props lane e k :
  In k body_keys ->
  prop (JsonObject (mutation_fields (MutEntry lane e))) k =
  prop (JsonObject (enc_provisioned {| pe_id := e_id e; pe_body := e_body e |})) k.
Proof.
  intros Hk. unfold mutation_fields, enc_entry. cbn [pe_id pe_body].
  cbn [prop]. rewrite app_comm_cons, !find_prop_app. cbn [find_prop]. rewrite find_prop_opt.
  repeat (destruct Hk as [<-|Hk]); try done; lookups; done.
Qed.
Lemma entry_object_read lane e :
  forallb app_shape (body_messages (e_body e)) = true -> payload_valid (MutEntry lane e) = true ->
  read_provisioned (JsonObject (mutation_fields (MutEntry lane e))) = Some {| pe_id := e_id e; pe_body := e_body e |}.
Proof.
  intros Ha Hv. etransitivity; [apply read_provisioned_ext; intros k Hk; by apply (entry_object_props lane e k)|].
  apply read_enc_provisioned. unfold payload_valid in Hv. cbn [pe_body].
  destruct (assertDurableEntry _) as [[]|] eqn:E; [|done].
  by apply (body_accepted _ {| pe_id := e_id e; pe_body := e_body e |}) in E; [|intros k; apply entry_object_props|].
Qed.
Lemma record_object_props r k :
  In k record_keys -> prop (JsonObject (mutation_fields (MutRecord r))) k = prop (typed_record (lr_body r)) k.
Proof.
  intros Hk. unfold mutation_fields, enc_record, typed_record. cbn [prop].
  rewrite app_comm_cons, !find_prop_app. cbn [find_prop].
  repeat (destruct Hk as [<-|Hk]); try done; lookups; done.
Qed.

Lemma record_object_read r :
  forallb app_shape (messages_of_record (lr_body r)) = true -> record_exact (lr_body r) = true ->
  payload_valid (MutRecord r) = true ->
  read_record_body (JsonObject (mutation_fields (MutRecord r))) = Some (lr_body r).
Proof.
  intros Ha He Hv. etransitivity; [apply read_record_body_ext; intros k Hk; by apply (record_object_props r k)|].
  apply read_enc_record. unfold payload_valid in Hv. destruct (assertDurableRecord _) as [[]|] eqn:E; [|done].
  by apply (record_accepted _ (lr_body r)) in E; [|intros k; apply record_object_props|..].
Qed.

(** ** Reading back *)

Definition header_ok (h : JsonlV4Header) : bool :=
  json_ok (header_json h) && counts 0 (h_createdAt h) &&
  negb (bool_decide (is_Some (h_parentSessionId h)) && bool_decide (is_Some (h_legacyParentSessionPath h))) &&
  match h_metadata h with Some metadata => isObject metadata | None => true end.

Lemma requireSafe_int minimum z message :
  counts minimum z = true -> requireSafe minimum (Some (JsonNumber (num_of_Z z))) message = Ok z.
Proof.
  intros [Hle Hs]%andb_prop. unfold requireSafe, num_is_safe_integer.
  rewrite num_to_Z_of_Z by by apply Z.leb_le in Hs. unfold safe in Hs. by rewrite Hs, Hle.
Qed.
Lemma requireNullableId_enc o field : requireNullableId (Some (nullable o)) field = Ok o.
Proof. by destruct o. Qed.
Lemma optionalString_opt o field : optionalString (JsonString <$> o) field = Ok o.
Proof. by destruct o. Qed.
Lemma parseObject_text props :
  json_ok (JsonObject props) = true -> parseObject (JSON_stringify (JsonObject props)) = Ok (JsonObject props).
Proof. intros H. unfold parseObject. by rewrite parse_stringify. Qed.
Lemma validated value (validate : option json -> V) :
  is_ok (validate (Some value)) = true -> validatePayload value validate = Ok tt.
Proof. unfold validatePayload. by destruct (validate (Some value)). Qed.

Ltac results := cbn [mbind mret result_bind result_ret requireString optionalString].

Lemma entry_reads_back lane e :
  mutation_ok (MutEntry lane e) = true ->
  parseEntryMutation (JsonObject (mutation_fields (MutEntry lane e))) (e_seq e) = Ok (MutEntry lane e).
Proof.
  unfold mutation_ok, represented. rewrite !andb_true_iff. intros [[_ [Ht Hs]] Hv]. unfold parseEntryMutation.
  rewrite entry_object_read by done. set (v := JsonObject _) in *.
  assert (Hlane : prop v "lane" = JsonString <$> lane).
  { unfold v, mutation_fields, enc_entry, enc_provisioned. lookups. rewrite body_other_keys by (cbn; tauto). by lookups. }
  assert (Hid : prop v "id" = Some (JsonString (e_id e))) by (unfold v, mutation_fields, enc_entry, enc_provisioned; by lookups).
  assert (Htype : prop v "type" = Some (JsonString (entry_type_name (body_type (e_body e)))))
    by (unfold v, mutation_fields, enc_entry, enc_provisioned; by lookups).
  assert (Hparent : prop v "parentId" = Some (nullable (e_parentId e))).
  { unfold v, mutation_fields, enc_entry, enc_provisioned. lookups. rewrite body_other_keys by (cbn; tauto). by lookups. }
  assert (Htime : prop v "timestamp" = Some (JsonNumber (num_of_Z (e_timestamp e)))).
  { unfold v, mutation_fields, enc_entry, enc_provisioned, int. lookups. rewrite body_other_keys by (cbn; tauto). by lookups. }
  rewrite Hlane, Hid, Htype, Hparent, Htime, requireNullableId_enc, (validated v assertDurableEntry Hv). unfold requireTimestamp.
  rewrite requireSafe_int by done. destruct lane, e; done.
Qed.
Lemma record_reads_back r :
  mutation_ok (MutRecord r) = true ->
  parseRecordMutation (JsonObject (mutation_fields (MutRecord r))) (lr_seq r) = Ok (MutRecord r).
Proof.
  unfold mutation_ok, represented. rewrite !andb_true_iff. intros [[_ [[Ht Hs] He]] Hv]. unfold parseRecordMutation.
  rewrite record_object_read by done. set (v := JsonObject _) in *.
  assert (Hid : prop v "id" = Some (JsonString (lr_id r))) by (unfold v, mutation_fields, enc_record; by lookups).
  assert (Hlane : prop v "lane" = Some (JsonString (lr_lane r))) by (unfold v, mutation_fields, enc_record; by lookups).
  assert (Htype : prop v "type" = Some (JsonString (record_type_name (lr_body r))))
    by (unfold v, mutation_fields, enc_record; by lookups).
  assert (Htime : prop v "timestamp" = Some (JsonNumber (num_of_Z (r_timestamp (lr_base r))))).
  { unfold v, mutation_fields, enc_record, int. lookups. rewrite record_other_keys by (cbn; tauto). by lookups. }
  rewrite Hid, Hlane, Htype, Htime, (validated v assertDurableRecord Hv). unfold requireTimestamp.
  rewrite requireSafe_int by done. destruct r as [[] ?]; done.
Qed.

Lemma mutation_reads_back m :
  mutation_ok m = true -> parseMutation (JSON_stringify (JsonObject (mutation_fields m))) = Ok m.
Proof.
  intros Hm. assert (Hok := Hm). unfold mutation_ok, represented in Hok. rewrite !andb_true_iff in Hok.
  destruct Hok as [[[Hj Hq] _] _]. unfold parseMutation, decodeMutation. rewrite parseObject_text by done.
  cbn [mbind result_bind]. set (v := JsonObject _).
  assert (Hseq : prop v "seq" = Some (JsonNumber (num_of_Z (mutation_seq m)))).
  { unfold v. destruct m as [lane e|r|q l f|q n|q t l]; unfold mutation_fields, enc_entry, enc_provisioned, enc_record, int; lookups;
      rewrite ?body_other_keys, ?record_other_keys by (cbn; tauto); by lookups. }
  rewrite Hseq. unfold requireSequence. rewrite requireSafe_int by done. results. cbn zeta.
  destruct m as [lane e|r|q l f|q n|q t l].
  - change (prop v "kind") with (Some (JsonString "entry")). by apply entry_reads_back.
  - change (prop v "kind") with (Some (JsonString "record")). by apply record_reads_back.
  - unfold v, parseLaneMutation, mutation_fields. lookups. results. by rewrite requireNullableId_enc.
  - unfold v, parseFactMutation, mutation_fields. lookups. results. by rewrite optionalString_opt.
  - unfold v, parseFactMutation, mutation_fields. lookups. results. by rewrite optionalString_opt.
Qed.

Lemma header_reads_back h : header_ok h = true -> parseHeader (JSON_stringify (header_json h)) = Ok h.
Proof.
  unfold header_ok. rewrite !andb_true_iff. intros [[[Hj Hc] Hp] Hm]. unfold parseHeader, decodeHeader, header_json in *.
  rewrite parseObject_text by done. destruct h as [i c w p l m]. cbn [h_id h_createdAt h_cwd h_parentSessionId
    h_legacyParentSessionPath h_metadata] in *. results. unfold int. lookups.
  assert (Hm' : match m with Some metadata => negb (isObject metadata) | None => false end = false).
  { destruct m as [m|]; [|done]. by rewrite Hm. }
  change (is_version_4 _) with true. rewrite !optionalString_opt. results. cbn [negb].
  apply negb_true_iff in Hp. rewrite Hp, Hm'. results. unfold requireTimestamp. by rewrite requireSafe_int.
Qed.

(** A line holds no line feed, and is not JSON when its end is missing. *)
Lemma object_line props :
  json_ok (JsonObject props) = true ->
  let line := JSON_stringify (JsonObject props) in
  (10 ∉ line) /\ (forall p q, line = p ++ q -> q <> [] -> parseObject p = Err (decodeError syntax "is not valid JSON")).
Proof.
  intros Hok line. split.
  - intros Hin. pose proof (stringify_printable _ Hok) as H. rewrite Forall_forall in H.
    specialize (H _ Hin). unfold printable in H. lia.
  - intros p q Heq Hq. unfold parseObject. by rewrite (torn_object_syntax props p q).
Qed.
Lemma mutation_represented m : mutation_ok m = true -> represented m = true.
Proof. unfold mutation_ok. rewrite andb_true_iff. tauto. Qed.
Lemma represented_json_ok m : represented m = true -> json_ok (JsonObject (mutation_fields m)) = true.
Proof. unfold represented. rewrite !andb_true_iff. tauto. Qed.
Lemma mutation_json_ok m : mutation_ok m = true -> json_ok (JsonObject (mutation_fields m)) = true.
Proof. intros H. by apply represented_json_ok, mutation_represented. Qed.
Lemma header_json_ok h : header_ok h = true -> json_ok (header_json h) = true.
Proof. unfold header_ok. rewrite !andb_true_iff. tauto. Qed.
Lemma torn_mutation p : parseObject p = Err (decodeError syntax "is not valid JSON") ->
  parseMutation p = Err (decodeError syntax "is not valid JSON").
Proof. unfold parseMutation, decodeMutation. by intros ->. Qed.

(** C29. A durable mutation and a valid header survive their line: the line holds no
    line feed, decoding it gives the value back, and no part of a mutation's line that
    stops before its end decodes, even when the cut fell inside a character; it is
    always a syntax error, never a different mutation. *)
Theorem jsonl_line_roundtrip m h :
  (mutation_ok m = true -> exists line, encodeMutation m = line ++ [10] /\ (10 ∉ line) /\ parseMutation line = Ok m /\
     forall p q n, line = p ++ q -> q <> [] ->
       exists e, parseMutation (p ++ replicate n REPLACEMENT) = Err e /\ de_kind e = syntax) /\
  (header_ok h = true -> exists line, encodeHeader h = line ++ [10] /\ (10 ∉ line) /\ parseHeader line = Ok h).
Proof.
  split.
  - intros Hm. eexists. split; [done|]. split; [by apply (object_line _ (mutation_json_ok m Hm))|].
    split; [by apply mutation_reads_back|]. intros p q n Heq Hq. eexists. split; [apply torn_mutation|done].
    unfold parseObject. by rewrite (torn_object_replaced _ p q n (mutation_json_ok m Hm) Heq Hq).
  - intros Hh. eexists. split; [done|]. split; [by apply (object_line _ (header_json_ok h Hh))|]. by apply header_reads_back.
Qed.

Definition sample_entry : SessionMutation :=
  MutEntry (Some "main")
    {| e_id := "e1"; e_seq := 1; e_parentId := None; e_timestamp := 1700000000000;
       e_body := MessageEntry (UserMsg (PlainText "hello") (num_of_Z 1700000000000)) false |}.
Definition sample_v4_header : JsonlV4Header :=
  {| h_id := "s1"; h_createdAt := 1700000000000; h_cwd := "/work"; h_parentSessionId := Some "s0";
     h_legacyParentSessionPath := None; h_metadata := None |}.
Lemma jsonl_line_roundtrip_witness :
  (exists line, encodeMutation sample_entry = line ++ [10] /\ parseMutation line = Ok sample_entry) /\
  (exists line, encodeHeader sample_v4_header = line ++ [10] /\ parseHeader line = Ok sample_v4_header).
Proof.
  split.
  - destruct (proj1 (jsonl_line_roundtrip sample_entry sample_v4_header) ltac:(vm_compute; reflexivity))
      as (line & Hl & _ & Hp & _). by exists line.
  - destruct (proj2 (jsonl_line_roundtrip sample_entry sample_v4_header) ltac:(vm_compute; reflexivity))
      as (line & Hl & _ & Hp). by exists line.
Defined.

(** ** What a decoded line is *)

Lemma requireSafe_Ok minimum value message z : requireSafe minimum value message = Ok z -> counts minimum z = true.
Proof.
  unfold requireSafe, num_is_safe_integer. destruct value as [[| |n| | |]|]; try done. destruct (num_to_Z n) as [z'|]; [|done].
  destruct (_ && _) eqn:E; [|done]. intros [= ->]. unfold counts, safe. by rewrite andb_comm.
Qed.
Lemma requireSafe_Err minimum value message e : requireSafe minimum value message = Err e -> de_kind e = schema.
Proof.
  unfold requireSafe, num_is_safe_integer. destruct value as [[| |n| | |]|]; try (by intros [= <-]).
  destruct (num_to_Z n) as [z'|]; [|by intros [= <-]]. destruct (_ && _); [done|by intros [= <-]].
Qed.
Lemma validatePayload_Ok value validate : validatePayload value validate = Ok tt -> exists u, validate (Some value) = Ok u.
Proof. unfold validatePayload. destruct (validate (Some value)); [eauto|done]. Qed.

(** A step of a decoder that only refuses what does not have the schema. *)
Definition schema_only {A} (d : result JsonlDecodeError A) : Prop := forall e, d = Err e -> de_kind e = schema.
Lemma schema_bind {A B} (d : result JsonlDecodeError A) (k : A -> result JsonlDecodeError B) :
  schema_only d -> (forall a, d = Ok a -> schema_only (k a)) -> schema_only (d ≫= k).
Proof. destruct d as [a|e]; intros Hd Hk; [by apply Hk|]. intros e' [= <-]. by apply Hd. Qed.
Lemma schema_ok {A} (a : A) : schema_only (Ok a).
Proof. done. Qed.
Lemma schema_reject {A} message : schema_only (@reject A message).
Proof. by intros e [= <-]. Qed.
Lemma schema_string value field : schema_only (requireString value field).
Proof. destruct value as [[]|]; first [apply schema_reject|done]. Qed.
Lemma schema_optional value field : schema_only (optionalString value field).
Proof. destruct value as [[]|]; first [apply schema_reject|done]. Qed.
Lemma schema_nullable value field : schema_only (requireNullableId value field).
Proof. destruct value as [[]|]; first [apply schema_reject|done]. Qed.
Lemma schema_safe minimum value message : schema_only (requireSafe minimum value message).
Proof. intros e. apply requireSafe_Err. Qed.
Lemma schema_validate value validate : schema_only (validatePayload value validate).
Proof. unfold validatePayload. destruct (validate (Some value)); [done|apply schema_reject]. Qed.
Lemma schema_cast {A} (o : option A) : schema_only (cast o).
Proof. destruct o; [done|apply schema_reject]. Qed.
Create HintDb schema.
#[export] Hint Resolve schema_ok schema_reject schema_string schema_optional schema_nullable schema_safe schema_validate
  schema_cast : schema.
Ltac schema_steps :=
  repeat first [ apply schema_bind; [|intros ? _] | solve [auto with schema]
               | match goal with |- schema_only (if ?c then _ else _) => destruct c end
               | match goal with |- schema_only (match ?o with Some _ => _ | None => _ end) => destruct o end ].
Lemma schema_mutation value seq :
  schema_only (parseEntryMutation value seq) /\ schema_only (parseRecordMutation value seq) /\
  schema_only (parseLaneMutation value seq) /\ schema_only (parseFactMutation value seq).
Proof.
  unfold parseEntryMutation, parseRecordMutation, parseLaneMutation, parseFactMutation, requireTimestamp, mret, result_ret.
  split_and!; schema_steps.
Qed.

Ltac decode_inv H :=
  repeat (apply bind_Ok in H as (? & ? & H); cbn beta in H); injection H as <-.

(** Decoding a line is total and classifies its failures: a line that is not JSON
    is a syntax error and nothing else is; any other refusal is a schema error; and a
    mutation that is returned has a positive sequence number and a non-negative
    timestamp, both exact, and its record body satisfies the refinements of its type. *)
Theorem parseMutation_classified line :
  match parseMutation line with
  | Ok m => counts 1 (mutation_seq m) = true /\
      match m with
      | MutEntry _ e => counts 0 (e_timestamp e) = true
      | MutRecord r => counts 0 (r_timestamp (lr_base r)) = true /\ record_typed (lr_body r)
      | _ => True
      end
  | Err e => de_kind e = syntax <-> JSON_parse line = None
  end.
Proof.
  unfold parseMutation, decodeMutation, parseObject. destruct (JSON_parse line) as [value|] eqn:Hp; [|done].
  destruct (isObject value); [|done]. cbn [mbind result_bind].
  destruct (requireSequence (prop value "seq")) as [seq|e] eqn:Hseq; [|results; by rewrite (requireSafe_Err _ _ _ _ Hseq)].
  results.
  cbn zeta. pose proof (requireSafe_Ok _ _ _ _ Hseq) as Hc. destruct (schema_mutation value seq) as (S1 & S2 & S3 & S4).
  repeat match goal with
  | |- context [is_str (prop value "kind") ?k] => destruct (is_str (prop value "kind") k)
  end; try done.
  - destruct (parseEntryMutation value seq) as [m|e] eqn:Hm; [|cbn iota; by rewrite (S1 _ eq_refl)].
    unfold parseEntryMutation in Hm. decode_inv Hm. split; [done|]. by eapply requireSafe_Ok.
  - destruct (parseRecordMutation value seq) as [m|e] eqn:Hm; [|cbn iota; by rewrite (S2 _ eq_refl)].
    unfold parseRecordMutation in Hm. decode_inv Hm. cbn [lr_base lr_body r_timestamp mutation_seq lr_seq r_seq].
    split; [done|]. split; [by eapply requireSafe_Ok|].
    match goal with Hv : validatePayload _ _ = Ok ?u |- _ => destruct u; destruct (validatePayload_Ok _ _ Hv) as [[] Hd] end.
    match goal with Hb : cast (read_record_body value) = Ok _ |- _ => destruct (read_record_body value) eqn:Hr; [|done]; injection Hb as -> end.
    by eapply record_refined.
  - destruct (parseLaneMutation value seq) as [m|e] eqn:Hm; [|cbn iota; by rewrite (S3 _ eq_refl)].
    unfold parseLaneMutation in Hm. decode_inv Hm. done.
  - destruct (parseFactMutation value seq) as [m|e] eqn:Hm; [|cbn iota; by rewrite (S4 _ eq_refl)].
    unfold parseFactMutation in Hm. destruct (is_str _ "name"); [decode_inv Hm; done|].
    destruct (is_str _ "label"); [decode_inv Hm; done|done].
Qed.

(** The line of a mutation whose payload the loader's validation refuses is refused, and
    not as a syntax error. *)
Lemma invalid_payload_refused m :
  represented m = true -> payload_valid m = false ->
  exists message, parseMutation (JSON_stringify (JsonObject (mutation_fields m))) = Err (decodeError schema message).
Proof.
  intros Hm Hv. pose proof (parseMutation_classified (JSON_stringify (JsonObject (mutation_fields m)))) as Hc.
  rewrite (parse_stringify _ (represented_json_ok m Hm)) in Hc.
  destruct (parseMutation _) as [m'|[kind message]] eqn:Hp.
  - exfalso. unfold parseMutation, decodeMutation in Hp. rewrite (parseObject_text _ (represented_json_ok m Hm)) in Hp.
    cbn [mbind result_bind] in Hp. apply bind_Ok in Hp as (seq & _ & Hp). cbn beta zeta in Hp.
    destruct m as [lane e|r|q l f|q n|q t l]; try done.
    + change (prop _ "kind") with (Some (JsonString "entry")) in Hp. cbn [is_str String.eqb Ascii.eqb Bool.eqb] in Hp.
      unfold parseEntryMutation in Hp. do 3 (apply bind_Ok in Hp as (? & _ & Hp); cbn beta in Hp).
      apply bind_Ok in Hp as ([] & Hval & _). apply validatePayload_Ok in Hval as [? Hval].
      unfold payload_valid in Hv. by rewrite Hval in Hv.
    + change (prop _ "kind") with (Some (JsonString "record")) in Hp. cbn [is_str String.eqb Ascii.eqb Bool.eqb] in Hp.
      unfold parseRecordMutation in Hp. do 3 (apply bind_Ok in Hp as (? & _ & Hp); cbn beta in Hp).
      apply bind_Ok in Hp as ([] & Hval & _). apply validatePayload_Ok in Hval as [? Hval].
      unfold payload_valid in Hv. by rewrite Hval in Hv.
  - exists message. by destruct kind; [destruct Hc as [Hc _]; specialize (Hc eq_refl)|].
Qed.
