(* ===== verification/JsonlStorage.v ===== *)
(** * The JSONL session storage
    (packages/agent/src/harness/session/jsonl/storage.ts)

    A storage whose state is an append-only file: every accepted mutation is appended
    as a line before it is applied, and loading a file replays its lines.  The file
    system is the interface of packages/agent/src/harness/types.ts: a type class over
    the state [W] of the outside world with a law for what its documentation says.

    The promise chain [tail] runs the operations of a storage one after the other, so
    an operation is one step here; reads between its append and its application see
    the state before it. *)
From S2P Require Import Prelude JsNumber SessionTypes JsText JsonText SessionState SessionInvariant SessionFork.
From S2P Require Import MemoryStorage Truncate JsonPayload SessionService JsonlCodec.

(** ** The file system *)

Inductive FileErrorCode :=
| aborted | file_not_found | permission_denied | not_directory | is_directory | invalid | not_supported | unknown.
Record FileError := { fe_code : FileErrorCode; fe_message : string }.

(** [H]: a [DurableFileWriter]. *)
Class FileSystem (W H : Type) := {
  durableFiles : W -> bool;
  file_claim : string -> M W FileError H;
  file_append : H -> jsstring -> M W FileError unit;
  file_replace : H -> jsstring -> bool -> M W FileError unit;
  file_release : H -> M W FileError unit;
  readTextFile : string -> M W FileError jsstring;
  fileInfo_mtime : string -> M W FileError number }.

Definition is_not_found (c : FileErrorCode) : bool := match c with file_not_found => true | _ => false end.

(** [fileResult] *)
Definition fileResult {W A} (f : M W FileError A) (message : string) : M W SessionError A :=
  fun w => match f w with
           | (w', Ok a) => (w', Ok a)
           | (w', Err e) =>
               (w', Err (sessionError (if is_not_found (fe_code e) then not_found else storage_error)
                           (message +:+ ": " +:+ fe_message e)))
           end.
Definition invalidFile (path : string) (line : nat) (cause : string) : SessionError :=
  sessionError invalid_entry ("Invalid JSONL v4 session " +:+ path +:+ ": line " +:+ pretty line +:+ " " +:+ cause).

(** ** The storage *)

(** [jss_releasePromise]: the outcome of the release, once it was requested. *)
Record JsonlSessionStorage (H : Type) := {
  jss_metadata : JsonlSessionMetadata;
  jss_state : SessionState;
  jss_writer : option H;
  jss_closing : bool;
  jss_releasePromise : option (result SessionError unit);
  jss_writeFailure : option SessionError;
  jss_releaseCallback : bool }.
Arguments jss_metadata {H}. Arguments jss_state {H}. Arguments jss_writer {H}. Arguments jss_closing {H}.
Arguments jss_releasePromise {H}. Arguments jss_writeFailure {H}. Arguments jss_releaseCallback {H}.

Definition new_JsonlSessionStorage {H} (metadata : JsonlSessionMetadata) (writer : option H) : JsonlSessionStorage H :=
  {| jss_metadata := metadata; jss_state := initial_state; jss_writer := writer; jss_closing := false;
     jss_releasePromise := None; jss_writeFailure := None; jss_releaseCallback := false |}.

Section setters.
Context {H : Type} (s : JsonlSessionStorage H).
Definition set_jss_state v : JsonlSessionStorage H := {|
  jss_metadata := jss_metadata s; jss_state := v; jss_writer := jss_writer s; jss_closing := jss_closing s;
  jss_releasePromise := jss_releasePromise s; jss_writeFailure := jss_writeFailure s;
  jss_releaseCallback := jss_releaseCallback s |}.
Definition set_jss_closing : JsonlSessionStorage H := {|
  jss_metadata := jss_metadata s; jss_state := jss_state s; jss_writer := jss_writer s; jss_closing := true;
  jss_releasePromise := jss_releasePromise s; jss_writeFailure := jss_writeFailure s;
  jss_releaseCallback := jss_releaseCallback s |}.
Definition set_jss_releasePromise v : JsonlSessionStorage H := {|
  jss_metadata := jss_metadata s; jss_state := jss_state s; jss_writer := jss_writer s; jss_closing := jss_closing s;
  jss_releasePromise := Some v; jss_writeFailure := jss_writeFailure s;
  jss_releaseCallback := jss_releaseCallback s |}.
Definition set_jss_writeFailure v : JsonlSessionStorage H := {|
  jss_metadata := jss_metadata s; jss_state := jss_state s; jss_writer := jss_writer s; jss_closing := jss_closing s;
  jss_releasePromise := jss_releasePromise s; jss_writeFailure := Some v;
  jss_releaseCallback := jss_releaseCallback s |}.
Definition set_jss_releaseCallback v : JsonlSessionStorage H := {|
  jss_metadata := jss_metadata s; jss_state := jss_state s; jss_writer := jss_writer s; jss_closing := jss_closing s;
  jss_releasePromise := jss_releasePromise s; jss_writeFailure := jss_writeFailure s;
  jss_releaseCallback := v |}.
End setters.

Module Jsonl.
Section storage.
Context {W H : Type} `{FileSystem W H}.

(** A method runs on the outside world and its storage. *)
Definition J := M (W * JsonlSessionStorage H) SessionError.
Definition on_world {A} (f : M W SessionError A) : J A :=
  fun ws => let '(w', r) := f ws.1 in ((w', ws.2), r).
Definition on_storage {A} (f : SessionState -> result SessionError A) : J A :=
  fun ws => (ws, f (jss_state ws.2)).
Definition update (f : JsonlSessionStorage H -> JsonlSessionStorage H) : J unit :=
  fun ws => ((ws.1, f ws.2), Ok tt).

Definition path_of (s : JsonlSessionStorage H) : string := jm_path (jss_metadata s).

Definition read_only_error : SessionError := sessionError storage_error "JSONL session is read-only".
Definition closed_error : SessionError := sessionError storage_error "JSONL session writer is closed".

Definition enqueue {A} (operation : J A) : J A :=
  ws ← get;
  throw_if (match jss_writer ws.2 with None => true | Some _ => false end) read_only_error;;
  throw_if (jss_closing ws.2) closed_error;;
  match jss_writeFailure ws.2 with
  | Some e => throw e
  | None => operation
  end.

(** A failed append is remembered. *)
Definition appendMutation (mutation : SessionMutation) : J unit :=
  fun ws =>
    let failed (ws : W * JsonlSessionStorage H) (e : SessionError) := ((ws.1, set_jss_writeFailure ws.2 e), Err e) in
    match jss_writer ws.2 with
    | None => failed ws read_only_error
    | Some writer =>
        match on_world (fileResult (file_append writer (encodeMutation mutation))
                          ("Failed to append session " +:+ path_of ws.2)) ws with
        | (ws', Ok u) => (ws', Ok u)
        | (ws', Err e) => failed ws' e
        end
    end.

(** [this.state.applyMutation(mutation)] *)
Definition applyMutation (mutation : SessionMutation) : J unit :=
  fun ws => let '(s', r) := SessionState.applyMutation invalidMutation mutation (jss_state ws.2) in
            ((ws.1, set_jss_state ws.2 s'), r).
Definition next_sequence : J Z := on_storage (fun s => Ok (nextSequence s)).

Definition createLane (lane : string) (at_ : option string) : J unit := enqueue (
  on_storage (validateNewLane lane);;
  on_storage (validateTarget at_);;
  seq ← next_sequence;
  let mutation := MutLane seq lane at_ in
  appendMutation mutation;;
  applyMutation mutation).

Definition moveLane (lane : string) (to : option string) : J unit := enqueue (
  on_storage (requireLane lane);;
  on_storage (validateTarget to);;
  seq ← next_sequence;
  let mutation := MutLane seq lane to in
  appendMutation mutation;;
  applyMutation mutation).

(** The check of a payload, before the operation is queued; [fuel] bounds it. *)
Definition check_input {T} (fuel : nat) (input : Payload T) : J unit :=
  match assertJsonSerializable fuel (p_heap input) (p_value input) with
  | Some r => lift r
  | None => throw Session.out_of_iterations
  end.

Definition append_entry (now : Z) (newEntry : ProvisionedEntry) (lane : string) : J Entry := enqueue (
  parentId ← on_storage (requireLane lane);
  on_storage (validateUnusedId (pe_id newEntry));;
  seq ← next_sequence;
  let entry := {| e_id := pe_id newEntry; e_seq := seq; e_parentId := parentId; e_timestamp := now;
                  e_body := pe_body newEntry |} in
  let mutation := MutEntry (Some lane) entry in
  appendMutation mutation;;
  applyMutation mutation;;
  mret entry).
Definition appendEntry (fuel : nat) (now : Z) (input : Payload ProvisionedEntry) (lane : string) : J Entry :=
  check_input fuel input;; append_entry now (p_content input) lane.

Definition append_record (now : Z) (newRecord : NewRecord) : J LaneRecord := enqueue (
  on_storage (requireLane (nr_lane newRecord));;
  on_storage (validateUnusedId (nr_id newRecord));;
  openOperations ← on_storage (SessionState.findOpenOperations (nr_lane newRecord) (Some (num_of_Z 1)));
  match starts_operation (nr_body newRecord), osr_id <$> openOperations !! 0%nat with
  | true, Some currentOpenOperationId => throw (open_operation_error (nr_lane newRecord) currentOpenOperationId)
  | _, _ => mret tt
  end;;
  seq ← next_sequence;
  let record := {| lr_base := {| r_id := nr_id newRecord; r_seq := seq; r_lane := nr_lane newRecord;
                                 r_timestamp := now |};
                   lr_body := nr_body newRecord |} in
  let mutation := MutRecord record in
  appendMutation mutation;;
  applyMutation mutation;;
  mret record).
Definition appendRecord (fuel : nat) (now : Z) (input : Payload NewRecord) : J LaneRecord :=
  check_input fuel input;; append_record now (p_content input).

Definition setName (name : option string) : J unit := enqueue (
  seq ← next_sequence;
  let mutation := MutName seq name in
  appendMutation mutation;;
  applyMutation mutation).

Definition setLabel (id : string) (label : option string) : J unit := enqueue (
  on_storage (validateTarget (Some id));;
  seq ← next_sequence;
  let mutation := MutLabel seq id label in
  appendMutation mutation;;
  applyMutation mutation).

(** A call whose payload passed the check. *)
Definition run (now : Z) (c : storage_call) : J storage_reply :=
  match c with
  | CallCreateLane lane at_ => createLane lane at_;; mret ReplyVoid
  | CallMoveLane lane to => moveLane lane to;; mret ReplyVoid
  | CallAppendEntry newEntry lane => e ← append_entry now newEntry lane; mret (ReplyEntry e)
  | CallAppendRecord newRecord => r ← append_record now newRecord; mret (ReplyRecord r)
  | CallSetName name => setName name;; mret ReplyVoid
  | CallSetLabel id label => setLabel id label;; mret ReplyVoid
  end.

(** Reads clone what the state answers. *)
Definition getMetadata (s : JsonlSessionStorage H) : JsonlSessionMetadata := jss_metadata s.
Definition getLanes (s : JsonlSessionStorage H) : list LanePointer := SessionState.getLanes (jss_state s).
Definition getEntry (id : string) (s : JsonlSessionStorage H) : option Entry := SessionState.getEntry id (jss_state s).
Definition findEntries (query : option EntryQuery) (s : JsonlSessionStorage H) : result SessionError (list Entry) :=
  SessionState.findEntries (default no_query query) (jss_state s).
Definition findEntriesOnBranch (query : EntryQuery) (bounds : BranchBounds) (start : string) (s : JsonlSessionStorage H)
  : result SessionError (list Entry) := SessionState.findEntriesOnBranch query bounds start (jss_state s).
Definition findRecords (query : option RecordQuery) (s : JsonlSessionStorage H) : result SessionError (list LaneRecord) :=
  SessionState.findRecords (default no_record_query query) (jss_state s).
Definition findOpenOperations (lane : string) (limit : option number) (s : JsonlSessionStorage H)
  : result SessionError (list OperationStartedRecord) := SessionState.findOpenOperations lane limit (jss_state s).
Definition getLog (options : option LogOptions) (s : JsonlSessionStorage H) : result SessionError (list LogItem) :=
  SessionState.getLog (default {| lo_afterSeq := None; lo_limit := None |} options) (jss_state s).
Definition getName (s : JsonlSessionStorage H) : option string := SessionState.getName (jss_state s).
Definition getLabel (id : string) (s : JsonlSessionStorage H) : option string := SessionState.getLabel id (jss_state s).
Definition getStats (s : JsonlSessionStorage H) : SessionStats := SessionState.getStats (jss_state s).

(** The first call releases the writer; later calls return the same promise. *)
Definition release : J unit :=
  update set_jss_closing;;
  ws ← get;
  match jss_releasePromise ws.2 with
  | Some r => lift r
  | None => fun ws =>
      let '(ws', r) :=
        match jss_writer ws.2 with
        | Some writer => on_world (fileResult (file_release writer) ("Failed to release session " +:+ path_of ws.2)) ws
        | None => (ws, Ok tt)
        end in
      let s' := set_jss_releasePromise ws'.2 r in
      ((ws'.1, match r with Ok _ => set_jss_releaseCallback s' false | Err _ => s' end), r)
  end.
Definition setReleaseCallback : J unit := update (fun s => set_jss_releaseCallback s true).
Definition isReleased (s : JsonlSessionStorage H) : bool := jss_closing s.

(** ** Creating, loading, forking *)

Definition claimJsonlWriter (path : string) : M W SessionError H :=
  w ← get;
  throw_if (negb (durableFiles w))
    (sessionError storage_error "JSONL sessions require durable file writes and exclusive writer ownership");;
  fileResult (file_claim path) ("Failed to claim session writer " +:+ path).

(** [try { body } catch (error) { await writer.release(); throw error; }] *)
Definition releasing {A} (writer : H) (body : M W SessionError A) : M W SessionError A :=
  fun w => match body w with
           | (w', Ok a) => (w', Ok a)
           | (w', Err e) => ((file_release writer w').1, Err e)
           end.

Definition create (path : string) (header : JsonlV4Header) : M W SessionError (JsonlSessionStorage H) :=
  writer ← claimJsonlWriter path;
  releasing writer (
    fileResult (file_replace writer (encodeHeader header) true) ("Failed to initialize session " +:+ path);;
    mtime ← fileResult (fileInfo_mtime path) ("Failed to read session metadata " +:+ path);
    mret (new_JsonlSessionStorage (metadataFromHeader header path mtime) (Some writer))).

(** [content.split], without the empty line after a final line feed. *)
Definition physical_lines (content : jsstring) : list jsstring :=
  let lines := split_lf content in
  match last lines with Some [] => removelast lines | _ => lines end.

(** The loop over the lines from [index] on. *)
Fixpoint load_lines (path : string) (content : jsstring) (physicalLines : list jsstring) (index : nat)
    (lines : list jsstring) (storage : JsonlSessionStorage H) : M W SessionError (JsonlSessionStorage H) :=
  match lines with
  | [] =>
      match jss_writer storage with
      | Some writer =>
          if negb (ends_with_lf content)
          then fileResult (file_append writer [LF]) ("Failed to repair unterminated session tail " +:+ path);; mret storage
          else mret storage
      | None => mret storage
      end
  | line :: lines' =>
      match parseMutation line with
      | Err e =>
          let isTornTail := negb (ends_with_lf content) && (index =? length physicalLines - 1)%nat &&
                            bool_decide (de_kind e = syntax) in
          if isTornTail then
            let validPrefix := join_lf (take index physicalLines) ++ [LF] in
            match jss_writer storage with
            | Some writer => fileResult (file_replace writer validPrefix false) ("Failed to repair torn tail " +:+ path);; mret storage
            | None => mret storage
            end
          else throw (invalidFile path (index + 1) (de_message e))
      | Ok mutation =>
          match SessionState.applyMutation invalidMutation mutation (jss_state storage) with
          | (s', Ok _) => load_lines path content physicalLines (S index) lines' (set_jss_state storage s')
          | (_, Err e) =>
              throw match se_code e with
                    | invalid_entry => invalidFile path (index + 1) (se_message e)
                    | _ => e
                    end
          end
      end
  end.

Definition loadOwned (path : string) (writer : option H) : M W SessionError (JsonlSessionStorage H) :=
  content ← fileResult (readTextFile path) ("Failed to read session " +:+ path);
  let physicalLines := physical_lines content in
  match physicalLines with
  | [] | [] :: _ => throw (invalidFile path 1 "is missing a header")
  | first :: rest =>
      match parseHeader first with
      | Err e => throw (invalidFile path 1 (de_message e))
      | Ok header =>
          mtime ← fileResult (fileInfo_mtime path) ("Failed to read session metadata " +:+ path);
          load_lines path content physicalLines 1 rest
            (new_JsonlSessionStorage (metadataFromHeader header path mtime) writer)
      end
  end.

Definition load (path : string) : M W SessionError (JsonlSessionStorage H) :=
  writer ← claimJsonlWriter path;
  releasing writer (loadOwned path (Some writer)).

Definition openReadOnly (path expectedId : string) : M W SessionError (JsonlSessionStorage H) :=
  storage ← loadOwned path None;
  throw_if (negb (String.eqb (jm_id (jss_metadata storage)) expectedId))
    (sessionError invalid_entry ("Session id does not match header: " +:+ expectedId));;
  mret storage.
Definition inspect (path expectedId : string) : M W SessionError (option string) :=
  storage ← openReadOnly path expectedId;
  mret (getName storage).

Definition fork (path : string) (header : JsonlV4Header) (options : ForkOptions) (st : JsonlSessionStorage H)
  : M W SessionError (JsonlSessionStorage H) :=
  mutations ← lift (createForkMutations options (jss_state st));
  writer ← claimJsonlWriter path;
  releasing writer (
    fileResult (file_replace writer (encodeHeader header ++ concat (encodeMutation <$> mutations)) true)
      ("Failed to publish fork " +:+ path);;
    loadOwned path (Some writer)).
End storage.
End Jsonl.
