(* ===== verification/JsonlLoading.v ===== *)
(** * Loading a session file
    (packages/agent/src/harness/session/jsonl/storage.ts)

    [FileSystemLaws] is the contract of the file system interface; [journal] is the
    file a storage writes.  Loading a journal, or a journal whose last append was cut
    short, replays it. *)
From S2P Require Import Prelude JsNumber SessionTypes JsText JsonText JsonTextTheorems SessionState.
From S2P Require Import SessionInvariant SessionFork MemoryStorage Truncate TruncateTheorems Validation.
From S2P Require Import DurableJson JsonlCodec JsonlCodecTheorems JsonlStorage.

(** ** The contract of the file system *)

(** What is left of a text whose append failed: a part of it, where the bytes of a
    character that was cut read as replacement characters; a character that takes one
    byte is not cut. *)
Definition torn (text left : jsstring) : Prop :=
  exists p q n, text = p ++ q /\ left = p ++ replicate n REPLACEMENT /\
    (n = 0%nat \/ exists u q', q = u :: q' /\ 128 <= u).

(** The text of each file, and the file a live writer owns. *)
Class FileModel (W H : Type) := {
  contents : W -> string -> option jsstring;
  owns : W -> H -> option string }.

Section laws.
Context {W H : Type} `{FileSystem W H, FileModel W H}.

(** Only the text of the file [p] changed, to [text]. *)
Definition wrote (p : string) (text : jsstring) (w w' : W) : Prop :=
  contents w' p = Some text /\ forall q, q <> p -> contents w' q = contents w q.
Definition same_files (w w' : W) : Prop := forall q, contents w' q = contents w q.
Definition same_owners (w w' : W) : Prop := forall h, owns w' h = owns w h.
End laws.

Class FileSystemLaws (W H : Type) `{FileSystem W H, FileModel W H} := {
  law_claim p (w w' : W) (r : result FileError H) : file_claim p w = (w', r) ->
    same_files w w' /\
    match r with
    | Ok h => owns w' h = Some p /\ forall h', owns w h' <> Some p
    | Err _ => same_owners w w'
    end;
  law_append (h : H) p t c (w w' : W) r :
    owns w h = Some p -> contents w p = Some c -> file_append h t w = (w', r) ->
    same_owners w w' /\
    match r with
    | Ok _ => wrote p (c ++ t) w w'
    | Err _ => exists left, torn t left /\ wrote p (c ++ left) w w'
    end;
  law_replace (h : H) p t exclusive (w w' : W) r :
    owns w h = Some p -> file_replace h t exclusive w = (w', r) ->
    same_owners w w' /\
    match r with
    | Ok _ => wrote p t w w' /\ (exclusive = true -> contents w p = None)
    | Err _ => same_files w w' \/ wrote p t w w'
    end;
  law_release (h : H) (w w' : W) r : file_release h w = (w', r) -> same_files w w';
  law_read p (w w' : W) r : readTextFile p w = (w', r) ->
    same_files w w' /\ same_owners w w' /\ match r with Ok t => contents w p = Some t | Err _ => True end;
  law_mtime p (w w' : W) r : fileInfo_mtime p w = (w', r) -> same_files w w' /\ same_owners w w' }.

(** ** The file of a session *)

Definition mutation_line (m : SessionMutation) : jsstring := JSON_stringify (JsonObject (mutation_fields m)).
Definition header_line (h : JsonlV4Header) : jsstring := JSON_stringify (header_json h).
Definition journal (h : JsonlV4Header) (ms : list SessionMutation) : jsstring :=
  encodeHeader h ++ concat (encodeMutation <$> ms).

Lemma journal_snoc h ms m : journal h (ms ++ [m]) = journal h ms ++ encodeMutation m.
Proof. unfold journal. rewrite fmap_app, concat_app. cbn [fmap list_fmap concat]. by rewrite app_nil_r, (assoc_L (++)). Qed.

(** ** Splitting a file into its lines *)

Lemma split_lf_line l s : 10 ∉ l -> split_lf (l ++ LF :: s) = l :: split_lf s.
Proof.
  induction l as [|u l IH]; intros Hl; [done|]. apply not_elem_of_cons in Hl as [Hu Hl]. cbn [app split_lf].
  rewrite (proj2 (Z.eqb_neq u LF)) by (unfold LF; congruence). by rewrite IH.
Qed.
Lemma split_lf_last l : 10 ∉ l -> split_lf l = [l].
Proof.
  induction l as [|u l IH]; intros Hl; [done|]. apply not_elem_of_cons in Hl as [Hu Hl]. cbn [split_lf].
  rewrite (proj2 (Z.eqb_neq u LF)) by (unfold LF; congruence). by rewrite IH.
Qed.
Definition as_lines (ls : list jsstring) : jsstring := concat ((fun l => l ++ [LF]) <$> ls).
Lemma split_lf_lines ls x : Forall (fun l => 10 ∉ l) ls -> 10 ∉ x -> split_lf (as_lines ls ++ x) = ls ++ [x].
Proof.
  unfold as_lines. induction 1 as [|l ls Hl _ IH]; intros Hx; [by apply split_lf_last|].
  rewrite fmap_cons. cbn [concat]. rewrite <-!(assoc_L (++)). cbn [app]. rewrite split_lf_line by done. by rewrite IH.
Qed.
Lemma physical_lines_lines ls x :
  Forall (fun l => 10 ∉ l) ls -> 10 ∉ x ->
  Jsonl.physical_lines (as_lines ls ++ x) = match x with [] => ls | _ => ls ++ [x] end.
Proof.
  intros Hls Hx. unfold Jsonl.physical_lines. rewrite split_lf_lines by done. rewrite last_snoc.
  destruct x; [apply removelast_last|done].
Qed.
Lemma ends_with_lf_lines ls x : ls <> [] -> 10 ∉ x -> ends_with_lf (as_lines ls ++ x) = match x with [] => true | _ => false end.
Proof.
  intros Hls Hx. unfold ends_with_lf. destruct x as [|u x _] using rev_ind.
  - rewrite app_nil_r. destruct ls as [|l ls _] using rev_ind; [done|]. unfold as_lines.
    rewrite fmap_app, concat_app. cbn [fmap list_fmap concat]. rewrite app_nil_r, (assoc_L (++)), last_snoc. done.
  - rewrite (assoc_L (++)), last_snoc. apply not_elem_of_app in Hx as [_ Hu]. rewrite not_elem_of_cons in Hu.
    rewrite (proj2 (Z.eqb_neq u LF)) by (unfold LF; naive_solver). by destruct (x ++ [u]) eqn:E; [apply app_nil in E as [_ ?]|].
Qed.
Lemma join_lf_lines ls : ls <> [] -> join_lf ls ++ [LF] = as_lines ls.
Proof.
  unfold as_lines. induction ls as [|l ls IH]; [done|]. intros _. destruct ls as [|k ls]; [cbn; by rewrite app_nil_r|].
  rewrite fmap_cons. cbn [concat]. rewrite <-IH by done. cbn [join_lf]. by rewrite <-!(assoc_L (++)).
Qed.
Lemma journal_lines h ms : journal h ms = as_lines (header_line h :: (mutation_line <$> ms)).
Proof.
  unfold journal, as_lines. rewrite fmap_cons. cbn [concat]. f_equal. by rewrite <-list_fmap_compose.
Qed.

(** ** The text a cut append leaves *)

Lemma torn_nil text : torn text [].
Proof. exists [], text, 0%nat. split_and!; [done|done|by left]. Qed.

Lemma torn_line props left :
  json_ok (JsonObject props) = true ->
  torn (JSON_stringify (JsonObject props) ++ [LF]) left ->
  left = JSON_stringify (JsonObject props) ++ [LF] \/ left = JSON_stringify (JsonObject props) \/
  (JSON_parse left = None /\ 10 ∉ left).
Proof.
  intros Hok (p & q & n & Heq & -> & Hn).
  destruct q as [|u q _] using rev_ind.
  { left. destruct Hn as [->|(u & q & [=] & _)]. rewrite Heq. by rewrite !app_nil_r. }
  rewrite (assoc_L (++)) in Heq. apply app_inj_tail in Heq as [Heq <-].
  destruct q as [|v q].
  { right. left. rewrite app_nil_r in Heq. subst p. destruct Hn as [->|(u & q & [= <- _] & Hu)]; [by rewrite app_nil_r|].
    unfold LF in Hu. lia. }
  right. right. split; [by eapply torn_object_replaced|].
  pose proof (proj1 (object_line props Hok)) as Hlf. cbn zeta in Hlf. rewrite Heq in Hlf.
  apply not_elem_of_app in Hlf as [Hp _]. apply not_elem_of_app. split; [done|].
  intros [Hr _]%elem_of_replicate. done.
Qed.

(** ** Replaying lines *)

Lemma represented_lines h ms :
  header_ok h = true -> Forall (fun m => represented m = true) ms ->
  Forall (fun l : jsstring => 10 ∉ l) (header_line h :: (mutation_line <$> ms)).
Proof.
  intros Hh Hms. constructor; [by apply (object_line _ (header_json_ok h Hh))|].
  apply Forall_fmap. eapply Forall_impl; [exact Hms|]. intros m Hm. by apply (object_line _ (represented_json_ok m Hm)).
Qed.
Lemma journal_lines_ok h ms :
  header_ok h = true -> Forall (fun m => mutation_ok m = true) ms ->
  Forall (fun l : jsstring => 10 ∉ l) (header_line h :: (mutation_line <$> ms)).
Proof. intros Hh Hms. apply represented_lines; [done|]. eapply Forall_impl; [exact Hms|]. apply mutation_represented. Qed.

Section loading.
Context {W H : Type} `{FileSystemLaws W H}.

Definition io_error (e : SessionError) : Prop := se_code e = not_found \/ se_code e = storage_error.

Lemma same_files_refl (w : W) : same_files w w.
Proof. done. Qed.
Lemma same_files_trans (w1 w2 w3 : W) : same_files w1 w2 -> same_files w2 w3 -> same_files w1 w3.
Proof. intros Ha Hb q. by rewrite Hb. Qed.
Lemma same_owners_trans (w1 w2 w3 : W) : same_owners w1 w2 -> same_owners w2 w3 -> same_owners w1 w3.
Proof. intros Ha Hb q. by rewrite Hb. Qed.
Lemma wrote_after p t (w1 w2 w3 : W) : same_files w1 w2 -> wrote p t w2 w3 -> wrote p t w1 w3.
Proof. intros Ha [Hb Hc]. split; [done|]. intros q Hq. by rewrite Hc, Ha. Qed.

(** A file operation of the storage succeeds as the file system did, or fails with an
    I/O error. *)
Lemma fileResult_cases {A} (f : M W FileError A) message (w w' : W) r :
  fileResult f message w = (w', r) ->
  (exists a, r = Ok a /\ f w = (w', Ok a)) \/ (exists e fe, r = Err e /\ io_error e /\ f w = (w', Err fe)).
Proof.
  unfold fileResult. destruct (f w) as [w1 [a|fe]] eqn:Hf; intros [= <- <-]; [by left; eauto|right].
  eexists _, fe. split; [done|]. split; [|done]. unfold io_error. simpl. destruct (is_not_found (fe_code fe)); auto.
Qed.

Lemma set_state_same (storage : JsonlSessionStorage H) : set_jss_state storage (jss_state storage) = storage.
Proof. by destruct storage. Qed.
Lemma set_state_twice (storage : JsonlSessionStorage H) s s' :
  set_jss_state (set_jss_state storage s) s' = set_jss_state storage s'.
Proof. by destruct storage. Qed.

Lemma load_replay path content lines ms index rest (storage : JsonlSessionStorage H) s' (w : W) :
  Forall (fun m => mutation_ok m = true) ms -> guarded (jss_state storage) ms s' ->
  Jsonl.load_lines path content lines index ((mutation_line <$> ms) ++ rest) storage w =
  Jsonl.load_lines path content lines (index + length ms) rest (set_jss_state storage s') w.
Proof.
  intros Hok Hg. revert index storage Hg. induction Hok as [|m ms Hm _ IH]; intros index storage Hg.
  - inversion Hg; subst. rewrite set_state_same. by rewrite Nat.add_0_r.
  - inversion Hg as [|? ? ? ? Hguard Hrest]; subst. rewrite fmap_cons. cbn [app Jsonl.load_lines].
    unfold mutation_line at 1. rewrite mutation_reads_back by done. rewrite applyMutation_ok by done.
    rewrite IH by done. rewrite set_state_twice. cbn [length]. f_equal. lia.
Qed.

(** Reading the header. *)
Lemma loadOwned_lines path writer (w w' : W) r h ls x :
  header_ok h = true -> Forall (fun l : jsstring => 10 ∉ l) (header_line h :: ls) -> 10 ∉ x ->
  contents w path = Some (as_lines (header_line h :: ls) ++ x) ->
  Jsonl.loadOwned path writer w = (w', r) ->
  (exists e, r = Err e /\ io_error e /\ same_files w w') \/
  (exists w1 mtime, same_files w w1 /\ same_owners w w1 /\
     let content := as_lines (header_line h :: ls) ++ x in
     let rest := match x with [] => ls | _ => ls ++ [x] end in
     Jsonl.load_lines path content (header_line h :: rest) 1 rest
       (new_JsonlSessionStorage (metadataFromHeader h path mtime) writer) w1 = (w', r)).
Proof.
  intros Hh Hls Hx Hc Hload. unfold Jsonl.loadOwned in Hload. revert Hload. cbv [mbind M_bind].
  destruct (fileResult (readTextFile path) _ w) as [w1 r1] eqn:Hread.
  destruct (fileResult_cases _ _ _ _ _ Hread) as [(content & -> & Hr)|(e & fe & -> & He & Hr)];
    destruct (law_read _ _ _ _ Hr) as (Hsame & Hown & Hcontent); [|intros [= <- <-]; left; eauto].
  rewrite Hc in Hcontent. apply (inj Some) in Hcontent as <-. cbn zeta.
  rewrite physical_lines_lines by done.
  assert (Hphys : match x with [] => header_line h :: ls | _ => (header_line h :: ls) ++ [x] end =
                  header_line h :: match x with [] => ls | _ => ls ++ [x] end) by by destruct x.
  rewrite Hphys. destruct (header_line h) as [|u l] eqn:Hline; [by unfold header_line, header_json in Hline|].
  rewrite <-Hline in *. pose proof (header_reads_back h Hh) as Hp. change (parseHeader (header_line h) = Ok h) in Hp.
  rewrite Hp. clear Hp.
  destruct (fileResult (fileInfo_mtime path) _ w1) as [w2 r2] eqn:Hinfo.
  destruct (fileResult_cases _ _ _ _ _ Hinfo) as [(mtime & -> & Hm)|(e & fe & -> & He & Hm)];
    destruct (law_mtime _ _ _ _ Hm) as [Hsame2 Hown2].
  - intros Hl. right. exists w2, mtime. split_and!; [by eapply same_files_trans|by eapply same_owners_trans|].
    cbn zeta. rewrite Hline in *. done.
  - intros [= <- <-]. left. exists e. split_and!; [done|done|by eapply same_files_trans].
Qed.

(** The storage a load returns: the mutations [kept] replayed, and, if it may write,
    exactly their lines in the file. *)
Definition loaded (path : string) (writer : option H) (h : JsonlV4Header) (kept : list SessionMutation)
    (w w' : W) (st : JsonlSessionStorage H) : Prop :=
  exists s mtime, guarded initial_state kept s /\
    st = set_jss_state (new_JsonlSessionStorage (metadataFromHeader h path mtime) writer) s /\
    same_owners w w' /\
    match writer with Some _ => wrote path (journal h kept) w w' | None => same_files w w' end.
Definition load_outcome (path : string) (writer : option H) (h : JsonlV4Header) (kept : list SessionMutation)
    (w w' : W) (r : result SessionError (JsonlSessionStorage H)) : Prop :=
  match r with
  | Ok st => loaded path writer h kept w w' st
  | Err e => io_error e
  end.

Context (path : string) (writer : option H) (h : JsonlV4Header) (ms : list SessionMutation) (s : SessionState).
Context (Hh : header_ok h = true) (Hms : Forall (fun m => mutation_ok m = true) ms) (Hreplay : guarded initial_state ms s).

Lemma load_clean (w w' : W) r :
  contents w path = Some (journal h ms) -> Jsonl.loadOwned path writer w = (w', r) ->
  load_outcome path writer h ms w w' r.
Proof.
  intros Hc Hload. rewrite journal_lines in Hc. rewrite <-(app_nil_r (as_lines _)) in Hc.
  destruct (loadOwned_lines _ _ _ _ _ _ _ _ Hh (journal_lines_ok h ms Hh Hms) (not_elem_of_nil _) Hc Hload)
    as [(e & -> & He & _)|(w1 & mtime & Hsame & Hown & Hl)]; [done|]. cbn zeta in Hl.
  match type of Hl with Jsonl.load_lines _ ?c ?l _ _ ?st _ = _ =>
    pose proof (load_replay path c l ms 1 [] st s w1 Hms Hreplay) as Hrun end.
  rewrite (app_nil_r (mutation_line <$> ms)) in Hrun. rewrite Hrun in Hl. clear Hrun.
  cbn [Jsonl.load_lines] in Hl. rewrite ends_with_lf_lines in Hl by (done || apply not_elem_of_nil). cbn [negb] in Hl.
  assert (Hr : (w', r) = (w1, Ok (set_jss_state (new_JsonlSessionStorage (metadataFromHeader h path mtime) writer) s))).
  { rewrite <-Hl. by destruct writer. }
  injection Hr as -> ->. exists s, mtime. split_and!; [done|done|done|]. destruct writer; [|done].
  split; [|intros q _; apply Hsame]. rewrite Hsame, Hc, journal_lines. by rewrite app_nil_r.
Qed.

Lemma journal_prefix left : join_lf (take (1 + length ms) (header_line h :: (mutation_line <$> ms) ++ [left])) ++ [LF] = journal h ms.
Proof.
  cbn [Nat.add take]. rewrite take_app_le by (rewrite length_fmap; lia).
  rewrite take_ge by (rewrite length_fmap; lia). rewrite join_lf_lines by done. by rewrite journal_lines.
Qed.

(** A part of the last line: it is dropped. *)
Lemma load_torn left (w w' : W) r :
  contents w path = Some (journal h ms ++ left) -> left <> [] -> JSON_parse left = None -> 10 ∉ left ->
  (forall wr, writer = Some wr -> owns w wr = Some path) ->
  Jsonl.loadOwned path writer w = (w', r) -> load_outcome path writer h ms w w' r.
Proof.
  intros Hc Hne Hp Hlf Hown Hload. rewrite journal_lines in Hc.
  destruct (loadOwned_lines _ _ _ _ _ _ _ _ Hh (journal_lines_ok h ms Hh Hms) Hlf Hc Hload)
    as [(e & -> & He & _)|(w1 & mtime & Hsame & Howners & Hl)]; [done|]. cbn zeta in Hl.
  destruct left as [|u left]; [done|]. cbn iota in Hl.
  match type of Hl with Jsonl.load_lines _ ?c ?l _ _ ?st _ = _ =>
    pose proof (load_replay path c l ms 1 [u :: left] st s w1 Hms Hreplay) as Hrun end.
  rewrite Hrun in Hl. clear Hrun. cbn [Jsonl.load_lines] in Hl.
  rewrite (torn_mutation (u :: left)) in Hl by (unfold parseObject; by rewrite Hp). cbn [de_kind decodeError] in Hl.
  rewrite ends_with_lf_lines in Hl by done. cbn iota in Hl.
  rewrite (proj2 (Nat.eqb_eq _ _)) in Hl by (cbn [length]; rewrite length_app, length_fmap; cbn [length]; lia).
  rewrite bool_decide_true in Hl by done. cbn [negb andb] in Hl. rewrite journal_prefix in Hl.
  cbn [jss_writer set_jss_state new_JsonlSessionStorage] in Hl. destruct writer as [wr|].
  - revert Hl. cbv [mbind M_bind]. destruct (fileResult (file_replace wr _ false) _ w1) as [w2 r2] eqn:Hrep.
    assert (Hwr : owns w1 wr = Some path) by (rewrite Howners; auto).
    destruct (fileResult_cases _ _ _ _ _ Hrep) as [([] & -> & Hf)|(e & fe & -> & He & Hf)]; intros [= <- <-]; [|done].
    destruct (law_replace _ _ _ _ _ _ _ Hwr Hf) as (Ho & Hw & _). exists s, mtime.
    split_and!; [done|done|by eapply same_owners_trans|by eapply wrote_after].
  - injection Hl as <- <-. exists s, mtime. by split_and!.
Qed.

(** A complete last line without its line feed: it is kept, and terminated. *)
Lemma load_unterminated m (w w' : W) r :
  mutation_ok m = true -> mutation_guard s m = true ->
  contents w path = Some (journal h ms ++ mutation_line m) ->
  (forall wr, writer = Some wr -> owns w wr = Some path) ->
  Jsonl.loadOwned path writer w = (w', r) -> load_outcome path writer h (ms ++ [m]) w w' r.
Proof.
  intros Hm Hg Hc Hown Hload.
  pose proof (proj1 (object_line _ (mutation_json_ok m Hm))) as Hlf. fold (mutation_line m) in Hlf.
  assert (Hline : exists u l, mutation_line m = u :: l) by by eexists _, _.
  assert (Hmsm : Forall (fun m => mutation_ok m = true) (ms ++ [m])) by (apply Forall_app; auto).
  assert (Hg' : guarded initial_state (ms ++ [m]) (mutation_effect s m)).
  { eapply guarded_app; [done|]. econstructor; [done|constructor]. }
  rewrite journal_lines in Hc.
  destruct (loadOwned_lines _ _ _ _ _ _ _ _ Hh (journal_lines_ok h ms Hh Hms) Hlf Hc Hload)
    as [(e & -> & He & _)|(w1 & mtime & Hsame & Howners & Hl)]; [done|]. cbn zeta in Hl.
  destruct Hline as (u & l & Hul). rewrite Hul in Hl. cbn iota in Hl. rewrite <-Hul in Hl.
  assert (Hsnoc : (mutation_line <$> ms) ++ [mutation_line m] = mutation_line <$> (ms ++ [m])) by by rewrite fmap_app.
  match type of Hl with Jsonl.load_lines _ ?c ?l _ _ ?st _ = _ =>
    pose proof (load_replay path c l (ms ++ [m]) 1 [] st (mutation_effect s m) w1 Hmsm Hg') as Hrun end.
  rewrite app_nil_r in Hrun. rewrite <-Hsnoc in Hrun. apply (eq_trans (eq_sym Hrun)) in Hl. clear Hrun. cbn [Jsonl.load_lines] in Hl.
  rewrite ends_with_lf_lines in Hl by done. rewrite Hul in Hl. cbn iota in Hl. cbn [negb] in Hl.
  cbn [jss_writer set_jss_state new_JsonlSessionStorage] in Hl. destruct writer as [wr|].
  - revert Hl. cbv [mbind M_bind]. destruct (fileResult (file_append wr _) _ w1) as [w2 r2] eqn:Happ.
    assert (Hwr : owns w1 wr = Some path) by (rewrite Howners; auto).
    destruct (fileResult_cases _ _ _ _ _ Happ) as [([] & -> & Hf)|(e & fe & -> & He & Hf)]; intros [= <- <-]; [|done].
    rewrite <-Hsame in Hc. destruct (law_append _ _ _ _ _ _ _ Hwr Hc Hf) as (Ho & Hw).
    exists (mutation_effect s m), mtime. split_and!; [done|done|by eapply same_owners_trans|]. eapply wrote_after; [done|].
    rewrite journal_snoc, journal_lines. unfold encodeMutation. fold (mutation_line m). by rewrite (assoc_L (++)).
  - injection Hl as <- <-. exists (mutation_effect s m), mtime. by split_and!.
Qed.

End loading.

(** Whatever part of an append reached the file, loading keeps the mutation or drops it. *)
Lemma load_cut {W H : Type} `{FileSystemLaws W H} path (writer : option H) h ms s m left (w w' : W) r :
  header_ok h = true -> Forall (fun m => mutation_ok m = true) ms -> guarded initial_state ms s ->
  mutation_ok m = true -> mutation_guard s m = true -> torn (encodeMutation m) left ->
  contents w path = Some (journal h ms ++ left) ->
  (forall wr, writer = Some wr -> owns w wr = Some path) ->
  Jsonl.loadOwned path writer w = (w', r) ->
  load_outcome path writer h ms w w' r \/ load_outcome path writer h (ms ++ [m]) w w' r.
Proof.
  intros Hh Hms Hreplay Hm Hg Ht Hc Hown Hload.
  destruct (torn_line _ _ (mutation_json_ok m Hm) Ht) as [->|[->|[Hp Hlf]]].
  - right. assert (Hmsm : Forall (fun m => mutation_ok m = true) (ms ++ [m])) by (apply Forall_app; auto).
    eapply (load_clean path writer h (ms ++ [m]) (mutation_effect s m)); try done.
    + eapply guarded_app; [done|]. econstructor; [done|constructor].
    + by rewrite journal_snoc.
  - right. by eapply load_unterminated.
  - left. destruct left as [|u left]; [rewrite app_nil_r in Hc; by eapply load_clean|]. by eapply load_torn.
Qed.

(** ** Files with payloads that do not pass validation *)

(** Loading was refused, and no file changed. *)
Definition load_refused {W H A : Type} `{FileSystem W H, FileModel W H} (w w' : W) (r : result SessionError A) : Prop :=
  exists e, r = Err e /\ (io_error e \/ se_code e = invalid_entry) /\ same_files w w'.

Lemma first_invalid ms :
  Forall (fun m => represented m = true) ms ->
  Forall (fun m => mutation_ok m = true) ms \/
  exists pre bad post, ms = pre ++ bad :: post /\ Forall (fun m => mutation_ok m = true) pre /\
    represented bad = true /\ payload_valid bad = false.
Proof.
  induction 1 as [|m ms Hm _ IH]; [left; constructor|]. destruct (payload_valid m) eqn:Hv.
  - assert (Hok : mutation_ok m = true) by (unfold mutation_ok; by rewrite Hm, Hv).
    destruct IH as [IH|(pre & bad & post & -> & Hpre & Hb)]; [left; by constructor|].
    right. exists (m :: pre), bad, post. split; [done|]. split; [by constructor|done].
  - right. exists [], m, ms. split_and!; [done|constructor|done..].
Qed.
Lemma guarded_prefix s ms1 ms2 s' : guarded s (ms1 ++ ms2) s' -> exists s1, guarded s ms1 s1.
Proof.
  revert s. induction ms1 as [|m ms1 IH]; intros s Hg; [exists s; constructor|].
  inversion Hg as [|? ? ? ? Hm Hr]; subst. destruct (IH _ Hr) as [s1 Hs1]. exists s1. by econstructor.
Qed.

Section refused.
Context {W H : Type} `{FileSystemLaws W H}.

(** The first line with such a payload ends the load. *)
Lemma load_stops path (writer : option H) h ls x pre bad tail s (w w' : W) r :
  header_ok h = true -> Forall (fun l : jsstring => 10 ∉ l) (header_line h :: ls) -> 10 ∉ x ->
  contents w path = Some (as_lines (header_line h :: ls) ++ x) ->
  match x with [] => ls | _ => ls ++ [x] end = (mutation_line <$> pre) ++ mutation_line bad :: tail ->
  Forall (fun m => mutation_ok m = true) pre -> guarded initial_state pre s ->
  represented bad = true -> payload_valid bad = false ->
  Jsonl.loadOwned path writer w = (w', r) -> load_refused w w' r.
Proof.
  intros Hh Hls Hx Hc Hrest Hpre Hg Hb Hv Hload.
  destruct (loadOwned_lines _ _ _ _ _ _ _ _ Hh Hls Hx Hc Hload)
    as [(e & -> & He & Hsame)|(w1 & mtime & Hsame & _ & Hl)]; [exists e; auto|]. cbn zeta in Hl. rewrite Hrest in Hl.
  match type of Hl with Jsonl.load_lines _ ?c ?l _ _ ?st _ = _ =>
    pose proof (load_replay path c l pre 1 (mutation_line bad :: tail) st s w1 Hpre Hg) as Hrun end.
  apply (eq_trans (eq_sym Hrun)) in Hl. clear Hrun. cbn [Jsonl.load_lines] in Hl.
  destruct (invalid_payload_refused bad Hb Hv) as [message Hp]. unfold mutation_line at 1 in Hl. rewrite Hp in Hl.
  cbn [de_kind decodeError] in Hl. rewrite (bool_decide_false (schema = syntax)), andb_false_r in Hl by done.
  injection Hl as <- <-. eexists. split; [done|]. split; [by right|done].
Qed.

Lemma load_any path (writer : option H) h ms s (w w' : W) r :
  header_ok h = true -> Forall (fun m => represented m = true) ms -> guarded initial_state ms s ->
  contents w path = Some (journal h ms) -> Jsonl.loadOwned path writer w = (w', r) ->
  (Forall (fun m => mutation_ok m = true) ms /\ load_outcome path writer h ms w w' r) \/
  (load_refused w w' r /\ exists m, m ∈ ms /\ payload_valid m = false).
Proof.
  intros Hh Hms Hg Hc Hload. destruct (first_invalid ms Hms) as [Hok|(pre & bad & post & Hsplit & Hpre & Hb & Hv)].
  - left. split; [done|]. by eapply load_clean.
  - right. split; [|exists bad; split; [rewrite Hsplit; apply elem_of_app; right; by left|done]].
    rewrite journal_lines, <-(app_nil_r (as_lines _)) in Hc. assert (Hg' := Hg). rewrite Hsplit in Hg'.
    apply guarded_prefix in Hg' as [s1 Hs1].
    eapply (load_stops path writer h (mutation_line <$> ms) [] pre bad (mutation_line <$> post)); try done.
    + by apply represented_lines.
    + apply not_elem_of_nil.
    + by rewrite Hsplit, fmap_app.
Qed.

(** The same after a cut append of [m]. *)
Lemma load_any_cut path (writer : option H) h ms s m left (w w' : W) r :
  header_ok h = true -> Forall (fun m => represented m = true) ms -> guarded initial_state ms s ->
  represented m = true -> mutation_guard s m = true -> torn (encodeMutation m) left ->
  contents w path = Some (journal h ms ++ left) ->
  (forall wr, writer = Some wr -> owns w wr = Some path) ->
  Jsonl.loadOwned path writer w = (w', r) ->
  (Forall (fun m => mutation_ok m = true) ms /\ load_outcome path writer h ms w w' r) \/
  (Forall (fun m => mutation_ok m = true) (ms ++ [m]) /\ load_outcome path writer h (ms ++ [m]) w w' r) \/
  (load_refused w w' r /\ exists m', m' ∈ ms ++ [m] /\ payload_valid m' = false).
Proof.
  intros Hh Hms Hg Hm Hguard Ht Hc Hown Hload.
  destruct (torn_line _ _ (represented_json_ok m Hm) Ht) as [->|Hleft].
  { right. change (JSON_stringify _ ++ [LF]) with (encodeMutation m) in Hc. rewrite <-journal_snoc in Hc.
    eapply load_any; try done; [apply Forall_app; auto|]. eapply guarded_app; [done|]. econstructor; [done|constructor]. }
  assert (Hlf : 10 ∉ left) by (destruct Hleft as [->|[_ ?]]; [apply (object_line _ (represented_json_ok m Hm))|done]).
  destruct (first_invalid ms Hms) as [Hok|(pre & bad & post & Hsplit & Hpre & Hb & Hv)].
  - destruct Hleft as [->|[Hp _]].
    + fold (mutation_line m) in *. destruct (payload_valid m) eqn:Hv.
      * assert (Hmok : mutation_ok m = true) by (unfold mutation_ok; by rewrite Hm, Hv).
        right. left. split; [apply Forall_app; auto|]. by eapply load_unterminated.
      * right. right. split; [|exists m; split; [apply elem_of_app; right; by left|done]]. rewrite journal_lines in Hc.
        eapply (load_stops path writer h (mutation_line <$> ms) (mutation_line m) ms m []); try done.
        by apply represented_lines.
    + left. split; [done|]. destruct left as [|u left]; [rewrite app_nil_r in Hc; by eapply load_clean|]. by eapply load_torn.
  - right. right. split; [|exists bad; split; [|done]; apply elem_of_app; left; rewrite Hsplit; apply elem_of_app; right; by left].
    rewrite journal_lines in Hc. assert (Hg' := Hg). rewrite Hsplit in Hg'. apply guarded_prefix in Hg' as [s1 Hs1].
    eapply (load_stops path writer h (mutation_line <$> ms) left pre bad
      ((mutation_line <$> post) ++ match left with [] => [] | _ => [left] end)); try done; [by apply represented_lines|].
    rewrite Hsplit, fmap_app. destruct left; [by rewrite app_nil_r|]. by rewrite <-(assoc_L (++)).
Qed.
End refused.
