(* ===== verification/JsonlTheorems.v ===== *)
(** * The JSONL storage implements the storage interface and survives crashes
    (packages/agent/src/harness/session/jsonl/storage.ts)

    A file system for samples, at which the theorems are instantiated, is at the end. *)
From S2P Require Import Prelude JsNumber SessionTypes JsText JsonText JsonTextTheorems SessionState.
From S2P Require Import SessionInvariant SessionTheorems SessionFork MemoryStorage MemoryTheorems Truncate.
From S2P Require Import Validation DurableJson JsonlCodec JsonlCodecTheorems JsonlStorage JsonlLoading.

(** ** One call *)

Section calls.
Context {W H : Type} `{FileSystem W H}.

(** What a call does once it runs: an error of the specification, or an append and,
    if that succeeds, the mutation. *)
Definition run_spec (now : Z) (c : storage_call) (writer : H) (w : W) (st : JsonlSessionStorage H)
  : (W * JsonlSessionStorage H) * result SessionError storage_reply :=
  match storage_spec now c (jss_state st) with
  | Err e => ((w, st), Err e)
  | Ok (m, reply) =>
      match fileResult (file_append writer (encodeMutation m)) ("Failed to append session " +:+ Jsonl.path_of st) w with
      | (w', Ok _) => ((w', set_jss_state st (mutation_effect (jss_state st) m)), Ok reply)
      | (w', Err e) => ((w', set_jss_writeFailure st e), Err e)
      end
  end.

Lemma append_eq m writer w (st : JsonlSessionStorage H) :
  jss_writer st = Some writer ->
  Jsonl.appendMutation m (w, st) =
  match fileResult (file_append writer (encodeMutation m)) ("Failed to append session " +:+ Jsonl.path_of st) w with
  | (w', Ok _) => ((w', st), Ok tt)
  | (w', Err e) => ((w', set_jss_writeFailure st e), Err e)
  end.
Proof.
  intros Hw. unfold Jsonl.appendMutation, Jsonl.on_world. cbn [snd fst]. rewrite Hw. cbn [snd fst].
  by destruct (fileResult _ _ w) as [w' [[]|e]].
Qed.
Lemma apply_eq m (w : W) (st : JsonlSessionStorage H) :
  mutation_guard (jss_state st) m = true ->
  Jsonl.applyMutation m (w, st) = ((w, set_jss_state st (mutation_effect (jss_state st) m)), Ok tt).
Proof. intros Hg. unfold Jsonl.applyMutation. cbn [fst snd]. by rewrite applyMutation_ok. Qed.
Lemma enqueue_eq {A} (operation : Jsonl.J A) (w : W) (st : JsonlSessionStorage H) writer :
  jss_writer st = Some writer -> jss_closing st = false -> jss_writeFailure st = None ->
  Jsonl.enqueue operation (w, st) = operation (w, st).
Proof. intros H1 H2 H3. unfold Jsonl.enqueue. mrun. cbn [snd]. rewrite H1, H2. by rewrite H3. Qed.

Ltac jsonl_commit Hw Hg :=
  rewrite (append_eq _ _ _ _ Hw); destruct (fileResult _ _ _) as [? [[]|?]]; [|done];
  rewrite apply_eq by (eapply Hg; reflexivity); done.

Lemma run_eq now c writer (w : W) (st : JsonlSessionStorage H) :
  state_wf (jss_state st) -> jss_writer st = Some writer -> jss_closing st = false -> jss_writeFailure st = None ->
  Jsonl.run now c (w, st) = run_spec now c writer w st.
Proof.
  intros Hwf Hw Hc Hf. unfold run_spec. pose proof (fun m reply => storage_spec_guard now c (jss_state st) m reply Hwf) as Hg.
  unfold storage_spec in *. destruct c as [lane at_|lane to|ne lane|nr|n|id label]; cbn [Jsonl.run];
    [unfold Jsonl.createLane|unfold Jsonl.moveLane|unfold Jsonl.append_entry|unfold Jsonl.append_record
    |unfold Jsonl.setName|unfold Jsonl.setLabel];
    unfold mbind at 1, M_bind at 1; rewrite (enqueue_eq _ _ _ _ Hw Hc Hf);
    unfold Jsonl.next_sequence, Jsonl.on_storage; revert Hg; mrun; cbn [fst snd].
  - destruct (validateNewLane lane _) as [[]|]; [|done]. destruct (validateTarget at_ _) as [[]|]; [|done].
    intros Hg. jsonl_commit Hw Hg.
  - destruct (requireLane lane _) as [leaf|]; [|done]. destruct (validateTarget to _) as [[]|]; [|done].
    intros Hg. jsonl_commit Hw Hg.
  - destruct (requireLane lane _) as [leaf|]; [|done]. destruct (validateUnusedId (pe_id ne) _) as [[]|]; [|done].
    intros Hg. jsonl_commit Hw Hg.
  - destruct (requireLane (nr_lane nr) _) as [leaf|]; [|done]. destruct (validateUnusedId (nr_id nr) _) as [[]|]; [|done].
    destruct (newest_open_operation (jss_state st) (nr_lane nr) Hwf) as (ops & -> & ->).
    destruct (last (unfinished (nr_lane nr) (records (jss_state st)))) as [o|]; simpl;
      destruct (starts_operation (nr_body nr)); try done; intros Hg; jsonl_commit Hw Hg.
  - intros Hg. jsonl_commit Hw Hg.
  - destruct (validateTarget (Some id) _) as [[]|]; [|done]. intros Hg. jsonl_commit Hw Hg.
Qed.
End calls.

(** ** The storage and its file *)

Lemma guarded_det s ms s1 s2 : guarded s ms s1 -> guarded s ms s2 -> s1 = s2.
Proof. intros H1%guarded_applyAll H2%guarded_applyAll. congruence. Qed.

Section storage.
Context {W H : Type} `{FileSystemLaws W H}.

(** The file of a storage holds the lines of the mutations it applied, and after a
    failed append possibly a part of the next one; all of them satisfy [P]. *)
Record in_step_on (P : SessionMutation -> Prop) (path : string) (h : JsonlV4Header) (writer : H)
    (ms : list SessionMutation) (w : W) (st : JsonlSessionStorage H) : Prop := {
  st_header : header_ok h = true;
  st_durable : Forall P ms;
  st_replay : guarded initial_state ms (jss_state st);
  st_writer : jss_writer st = Some writer;
  st_owner : owns w writer = Some path;
  st_file : match jss_writeFailure st with
            | None => contents w path = Some (journal h ms)
            | Some _ => exists m left, P m /\ mutation_guard (jss_state st) m = true /\
                torn (encodeMutation m) left /\ contents w path = Some (journal h ms ++ left)
            end }.
End storage.
(** A file that holds durable mutations only (JsonlCodecTheorems). *)
Abbreviation in_step := (in_step_on (fun m => mutation_ok m = true)).

(** What the call would write satisfies [P]; it is durable. *)
Definition writes (P : SessionMutation -> Prop) (now : Z) (c : storage_call) (s : SessionState) : Prop :=
  match storage_spec now c s with Ok (m, _) => P m | Err _ => True end.
Abbreviation durable := (writes (fun m => mutation_ok m = true)).

Section calls_in_step.
Context {W H : Type} `{FileSystemLaws W H}.

Lemma in_step_wf P path h writer ms (w : W) (st : JsonlSessionStorage H) :
  in_step_on P path h writer ms w st -> state_wf (jss_state st).
Proof. intros Hs. eapply guarded_wf; [apply (st_replay _ _ _ _ _ _ _ Hs)|apply initial_wf]. Qed.
Lemma in_step_impl (P Q : SessionMutation -> Prop) path h writer ms (w : W) (st : JsonlSessionStorage H) :
  (forall m, P m -> Q m) -> in_step_on P path h writer ms w st -> in_step_on Q path h writer ms w st.
Proof.
  intros Himp [Hh Hms Hrep Hw Hown Hfile]. constructor; try done; [by eapply Forall_impl|].
  destruct (jss_writeFailure st); [|done]. destruct Hfile as (m & left & Hm & Hrest). exists m, left. auto.
Qed.
Lemma run_closed now c (w : W) (st : JsonlSessionStorage H) writer :
  jss_writer st = Some writer -> jss_closing st = true -> Jsonl.run now c (w, st) = ((w, st), Err Jsonl.closed_error).
Proof.
  intros Hw Hc. destruct c; cbn [Jsonl.run];
    unfold Jsonl.createLane, Jsonl.moveLane, Jsonl.append_entry, Jsonl.append_record, Jsonl.setName, Jsonl.setLabel,
      Jsonl.enqueue; mrun; cbn [snd]; by rewrite Hw, Hc.
Qed.
Lemma run_failed now c (w : W) (st : JsonlSessionStorage H) writer e :
  jss_writer st = Some writer -> jss_closing st = false -> jss_writeFailure st = Some e ->
  Jsonl.run now c (w, st) = ((w, st), Err e).
Proof.
  intros Hw Hc Hf. destruct c; cbn [Jsonl.run];
    unfold Jsonl.createLane, Jsonl.moveLane, Jsonl.append_entry, Jsonl.append_record, Jsonl.setName, Jsonl.setLabel,
      Jsonl.enqueue; mrun; cbn [snd]; rewrite Hw, Hc; by rewrite Hf.
Qed.
Lemma run_read_only now c (w : W) (st : JsonlSessionStorage H) :
  jss_writer st = None -> Jsonl.run now c (w, st) = ((w, st), Err Jsonl.read_only_error).
Proof.
  intros Hw. destruct c; cbn [Jsonl.run];
    unfold Jsonl.createLane, Jsonl.moveLane, Jsonl.append_entry, Jsonl.append_record, Jsonl.setName, Jsonl.setLabel,
      Jsonl.enqueue; mrun; cbn [snd]; by rewrite Hw.
Qed.

(** A call of an open storage that has not failed. *)
Lemma run_in_step P path h writer ms now c (w w' : W) (st st' : JsonlSessionStorage H) r :
  in_step_on P path h writer ms w st -> jss_closing st = false -> jss_writeFailure st = None ->
  writes P now c (jss_state st) -> Jsonl.run now c (w, st) = ((w', st'), r) ->
  ((jss_state st', r) = storage_step now c (jss_state st) /\ jss_writeFailure st' = None /\
   exists added, in_step_on P path h writer (ms ++ added) w' st' /\
     match r with Ok _ => length added = 1%nat | Err _ => added = [] end) \/
  (exists e, r = Err e /\ io_error e /\ jss_state st' = jss_state st /\ jss_writeFailure st' = Some e /\
   in_step_on P path h writer ms w' st').
Proof.
  intros Hs Hc Hf Hd Hrun. pose proof (in_step_wf _ _ _ _ _ _ _ Hs) as Hwf.
  assert (Hin := Hs). destruct Hs as [Hh Hms Hrep Hw Hown Hfile]. rewrite Hf in Hfile.
  rewrite (run_eq now c writer w st Hwf Hw Hc Hf) in Hrun. unfold run_spec in Hrun. unfold storage_step, writes in *.
  destruct (storage_spec now c (jss_state st)) as [[m reply]|e] eqn:Hspec.
  2: { injection Hrun as <- <- <-. left. split_and!; [done|done|]. exists []. by rewrite app_nil_r. }
  assert (Hg : mutation_guard (jss_state st) m = true) by by eapply storage_spec_guard.
  destruct (fileResult (file_append writer (encodeMutation m)) _ w) as [w1 r1] eqn:Happ.
  destruct (fileResult_cases _ _ _ _ _ Happ) as [([] & -> & Ha)|(e & fe & -> & He & Ha)];
    destruct (law_append _ _ _ _ _ _ _ Hown Hfile Ha) as [Ho Hwrite]; injection Hrun as <- <- <-.
  - left. cbn [jss_state set_jss_state]. split_and!; [done|done|]. exists [m]. split; [|done]. constructor; try done.
    + apply Forall_app. auto.
    + eapply guarded_app; [done|]. econstructor; [done|constructor].
    + by rewrite Ho.
    + cbn [jss_writeFailure set_jss_state]. rewrite Hf, journal_snoc. apply Hwrite.
  - right. exists e. split_and!; [done..|]. destruct Hwrite as (left & Ht & Hc' & _). constructor; try done.
    + by rewrite Ho.
    + cbn [jss_writeFailure set_jss_writeFailure jss_state]. exists m, left. by split_and!.
Qed.

(** The mutation a call asks for. *)
Definition requested (now : Z) (c : storage_call) (s : SessionState) : list SessionMutation :=
  match storage_spec now c s with Ok (m, _) => [m] | Err _ => [] end.

(** The calls of a session, with anything else happening to the outside world that
    leaves its file and its ownership alone; [sent]: what they asked for, in order. *)
Inductive session_run (path : string) (writer : option H) (start : W * JsonlSessionStorage H)
  : W * JsonlSessionStorage H -> list SessionMutation -> Prop :=
| run_start : session_run path writer start start []
| run_call w st sent now c w' st' r :
    session_run path writer start (w, st) sent -> Forall (fun m => represented m = true) (requested now c (jss_state st)) ->
    Jsonl.run now c (w, st) = ((w', st'), r) ->
    session_run path writer start (w', st') (sent ++ requested now c (jss_state st))
| run_other w st sent w' :
    session_run path writer start (w, st) sent -> contents w' path = contents w path ->
    (forall wr, writer = Some wr -> owns w' wr = owns w wr) -> session_run path writer start (w', st) sent.

(** A mutation the model represents, among those sent. *)
Definition sent_ok (sent : list SessionMutation) (m : SessionMutation) : Prop := represented m = true /\ m ∈ sent.
Lemma sent_ok_app sent more m : sent_ok sent m -> sent_ok (sent ++ more) m.
Proof. intros [Hr Hm]. split; [done|]. apply elem_of_app. by left. Qed.
Lemma requested_ok sent now c s :
  Forall (fun m => represented m = true) (requested now c s) -> writes (sent_ok (sent ++ requested now c s)) now c s.
Proof.
  unfold requested, writes. destruct (storage_spec now c s) as [[m reply]|]; [|done]. intros Hr%Forall_inv.
  split; [done|]. apply elem_of_app. right. by left.
Qed.

Lemma session_in_step path h writer w0 st0 (w : W) (st : JsonlSessionStorage H) sent :
  in_step_on (sent_ok []) path h writer [] w0 st0 -> session_run path (Some writer) (w0, st0) (w, st) sent ->
  exists ms, in_step_on (sent_ok sent) path h writer ms w st.
Proof.
  intros Hs Hrun. remember (w, st) as x eqn:Hx. revert w st Hx.
  induction Hrun as [|w st sent now c w' st' r _ IH Hd Hr|w st sent w' _ IH Hc Ho]; intros w1 st1 [= <- <-]; [eauto|..].
  - destruct (IH w st eq_refl) as [ms Hs0]. pose proof (st_writer _ _ _ _ _ _ _ Hs0) as Hw.
    apply (in_step_impl _ _ _ _ _ _ _ _ (fun m => sent_ok_app sent (requested now c (jss_state st)) m)) in Hs0.
    destruct (jss_closing st) eqn:Hclose.
    { rewrite (run_closed now c w st writer Hw Hclose) in Hr. injection Hr as <- <- <-. eauto. }
    destruct (jss_writeFailure st) as [e|] eqn:Hf.
    { rewrite (run_failed now c w st writer e Hw Hclose Hf) in Hr. injection Hr as <- <- <-. eauto. }
    destruct (run_in_step _ _ _ _ _ _ _ _ _ _ _ _ Hs0 Hclose Hf (requested_ok sent now c _ Hd) Hr)
      as [(_ & _ & added & Hin & _)|(e & _ & _ & _ & _ & Hin)]; eauto.
  - destruct (IH w st eq_refl) as [ms []]. exists ms. constructor; try done.
    + rewrite Ho by done. done.
    + by rewrite Hc.
Qed.

(** ** Creating and reopening *)

Lemma claim_cases path (w w' : W) r :
  Jsonl.claimJsonlWriter path w = (w', r) ->
  same_files w w' /\ match r with Ok writer => owns w' writer = Some path | Err e => io_error e end.
Proof.
  unfold Jsonl.claimJsonlWriter. mrun. destruct (durableFiles w); cbn [negb]; [|intros [= <- <-]; split; [done|by right]].
  intros Hclaim. destruct (fileResult_cases _ _ _ _ _ Hclaim) as [(writer & -> & Hf)|(e & fe & -> & He & Hf)];
    destruct (law_claim _ _ _ _ Hf) as [Hsame Hown]; split; try done. apply Hown.
Qed.
Lemma releasing_cases {A} (writer : H) (body : M W SessionError A) (w w' : W) r :
  Jsonl.releasing writer body w = (w', r) ->
  (exists a, r = Ok a /\ body w = (w', Ok a)) \/ (exists e w1, r = Err e /\ body w = (w1, Err e)).
Proof. unfold Jsonl.releasing. destruct (body w) as [w1 [a|e]]; intros [= <- <-]; eauto. Qed.

Lemma create_in_step P path h (w w' : W) (st : JsonlSessionStorage H) :
  header_ok h = true -> Jsonl.create path h w = (w', Ok st) ->
  exists writer, in_step_on P path h writer [] w' st /\ jss_closing st = false /\ jss_writeFailure st = None /\
    contents w path = None.
Proof.
  intros Hh Hc. unfold Jsonl.create in Hc. apply M_bind_Ok in Hc as (w1 & writer & Hclaim & Hc).
  destruct (claim_cases _ _ _ _ Hclaim) as [Hsame Hown].
  destruct (releasing_cases _ _ _ _ _ Hc) as [(? & [= <-] & Hb)|(? & ? & [=] & _)].
  apply M_bind_Ok in Hb as (w2 & [] & Hrep & Hb). apply M_bind_Ok in Hb as (w3 & mtime & Hinfo & Hb).
  apply M_ret_Ok in Hb as [<- ->]. destruct (fileResult_cases _ _ _ _ _ Hrep) as [(? & _ & Hr)|(? & ? & [=] & _)].
  destruct (fileResult_cases _ _ _ _ _ Hinfo) as [(? & _ & Hi)|(? & ? & [=] & _)].
  destruct (law_replace _ _ _ _ _ _ _ Hown Hr) as (Ho & [Hw _] & Hex). destruct (law_mtime _ _ _ _ Hi) as [Hsame3 Hown3].
  exists writer. split_and!; [|done|done|rewrite <-Hsame; auto].
  constructor; [done|constructor|constructor|done|by rewrite Hown3, Ho|].
  cbn [jss_writeFailure new_JsonlSessionStorage]. rewrite Hsame3, Hw. unfold journal. cbn. by rewrite app_nil_r.
Qed.

Lemma load_in_step path h ms writer (w w' : W) r :
  header_ok h = true -> Forall (fun m => mutation_ok m = true) ms -> owns w writer = Some path ->
  load_outcome path (Some writer) h ms w w' r ->
  match r with
  | Ok st => in_step path h writer ms w' st /\ jss_writeFailure st = None
  | Err e => io_error e
  end.
Proof.
  intros Hh Hms Hown. destruct r as [st|e]; [|done]. intros (s & mtime & Hg & -> & Ho & Hw). split; [|done].
  constructor; try done; [by rewrite Ho|]. apply Hw.
Qed.

(** Reopening the file of a storage, whatever a failed append left in it. *)
Definition reopened (sent ms : list SessionMutation) (path : string) (h : JsonlV4Header) (st : JsonlSessionStorage H)
    (w w' : W) (r : result SessionError (JsonlSessionStorage H)) : Prop :=
  match r with
  | Ok st' =>
      Forall (fun m => payload_valid m = true) ms /\
      exists writer ms', in_step path h writer ms' w' st' /\ jss_writeFailure st' = None /\
        (jss_state st' = jss_state st \/
         (is_Some (jss_writeFailure st) /\ exists m, m ∈ sent /\ mutation_guard (jss_state st) m = true /\
            jss_state st' = mutation_effect (jss_state st) m))
  | Err e => io_error e \/ (se_code e = invalid_entry /\ same_files w w' /\ exists m, m ∈ sent /\ payload_valid m = false)
  end.

Lemma payloads_valid ms : Forall (fun m => mutation_ok m = true) ms -> Forall (fun m => payload_valid m = true) ms.
Proof. intros Hms. eapply Forall_impl; [exact Hms|]. intros m Hm. by apply andb_prop in Hm as [_ ?]. Qed.
Lemma reopened_loaded sent path h writer ms (st st' : JsonlSessionStorage H) (w0 w w' : W) extra :
  header_ok h = true -> guarded initial_state ms (jss_state st) -> owns w writer = Some path ->
  Forall (fun m => mutation_ok m = true) (ms ++ extra) ->
  match extra with
  | [] => True
  | m :: extra => extra = [] /\ is_Some (jss_writeFailure st) /\ m ∈ sent /\ mutation_guard (jss_state st) m = true
  end ->
  load_outcome path (Some writer) h (ms ++ extra) w w' (Ok st') -> reopened sent ms path h st w0 w' (Ok st').
Proof.
  intros Hh Hrep Hown Hok Hextra Ho. destruct (load_in_step _ _ _ _ _ _ _ Hh Hok Hown Ho) as [Hin Hnf].
  split; [apply payloads_valid; by apply Forall_app in Hok as [? _]|].
  exists writer, (ms ++ extra). split_and!; [done|done|]. destruct extra as [|m extra].
  - left. rewrite app_nil_r in Hin. eapply guarded_det; [apply (st_replay _ _ _ _ _ _ _ Hin)|done].
  - destruct Hextra as (-> & Hf & Hm & Hg). right. split; [done|]. exists m. split_and!; [done|done|].
    eapply guarded_det; [apply (st_replay _ _ _ _ _ _ _ Hin)|]. eapply guarded_app; [done|]. econstructor; [done|constructor].
Qed.

(** The three ways a load of such a file ends. *)
Lemma load_in_step_on sent path h writer0 ms w0 (st : JsonlSessionStorage H) writer (w w' : W) r :
  in_step_on (sent_ok sent) path h writer0 ms w0 st -> contents w path = contents w0 path ->
  owns w writer = Some path -> Jsonl.loadOwned path (Some writer) w = (w', r) ->
  (exists extra, Forall (fun m => mutation_ok m = true) (ms ++ extra) /\ load_outcome path (Some writer) h (ms ++ extra) w w' r /\
     match extra with
     | [] => True
     | m :: extra => extra = [] /\ is_Some (jss_writeFailure st) /\ m ∈ sent /\ mutation_guard (jss_state st) m = true
     end) \/
  (load_refused w w' r /\ exists m, m ∈ sent /\ payload_valid m = false).
Proof.
  intros [Hh Hms Hrep _ _ Hfile] Hc Hown Hload. rewrite <-Hc in Hfile.
  assert (Hr : Forall (fun m => represented m = true) ms) by (eapply Forall_impl; [exact Hms|]; by intros m []).
  rewrite Forall_forall in Hms. destruct (jss_writeFailure st) as [e|].
  - destruct Hfile as (m & left & [Hm Hsent] & Hg & Ht & Hcont).
    destruct (load_any_cut path (Some writer) h ms (jss_state st) m left w w' r)
      as [[Hok Ho]|[[Hok Ho]|[Href (m' & Hin & Hv)]]]; try done; [by intros ? [= <-]|..].
    + left. exists []. by rewrite app_nil_r.
    + left. exists [m]. by split_and!.
    + right. split; [done|]. exists m'. split; [|done].
      apply elem_of_app in Hin as [Hin|Hin%list_elem_of_singleton]; [by apply Hms|by subst].
  - destruct (load_any path (Some writer) h ms (jss_state st) w w' r) as [[Hok Ho]|[Href (m' & Hin & Hv)]]; try done.
    + left. exists []. by rewrite app_nil_r.
    + right. split; [done|]. exists m'. split; [by apply Hms|done].
Qed.

Lemma reopen sent path h writer0 ms w0 (st : JsonlSessionStorage H) (w w' : W) r :
  in_step_on (sent_ok sent) path h writer0 ms w0 st -> contents w path = contents w0 path ->
  Jsonl.load path w = (w', r) -> reopened sent ms path h st w w' r.
Proof.
  intros Hs Hc Hload. unfold Jsonl.load in Hload. revert Hload. cbv [mbind M_bind].
  destruct (Jsonl.claimJsonlWriter path w) as [w1 r1] eqn:Hclaim. destruct (claim_cases _ _ _ _ Hclaim) as [Hsame Hown].
  destruct r1 as [writer|e]; [|by intros [= <- <-]; left]. unfold Jsonl.releasing.
  destruct (Jsonl.loadOwned path (Some writer) w1) as [w2 r2] eqn:Hl.
  assert (Hc1 : contents w1 path = contents w0 path) by by rewrite Hsame.
  destruct (load_in_step_on _ _ _ _ _ _ _ _ _ _ _ Hs Hc1 Hown Hl) as [(extra & Hok & Ho & Hx)|[(e & -> & He & Hfiles) Hm]].
  - destruct r2 as [st'|e]; intros [= <- <-]; [|by left].
    eapply reopened_loaded; [apply (st_header _ _ _ _ _ _ _ Hs)|apply (st_replay _ _ _ _ _ _ _ Hs)|done..].
  - intros [= <- <-]. destruct He as [He|He]; [by left|right]. split_and!; [done| |done].
    destruct (file_release writer w2) as [w3 r3] eqn:Hrel. eapply same_files_trans; [exact Hsame|].
    eapply same_files_trans; [exact Hfiles|]. exact (law_release _ _ _ _ Hrel).
Qed.
End calls_in_step.

(** C7. The JSONL storage refines the storage interface up to I/O failures: a call on
    a storage that is in step with its file is the step of the specification and
    adds exactly the line of the committed mutation to the file (none when the call
    is refused), or the append fails, the state stays as it was and the failure is
    remembered; after a failed append every call fails with that same error and
    touches neither state nor file, and after a release every call is refused. *)
Theorem jsonl_refines_storage {W H : Type} `{FileSystemLaws W H} path h writer ms now c (w w' : W) (st st' : JsonlSessionStorage H) r :
  in_step path h writer ms w st -> durable now c (jss_state st) ->
  Jsonl.run now c (w, st) = ((w', st'), r) ->
  if jss_closing st then w' = w /\ st' = st /\ r = Err Jsonl.closed_error
  else match jss_writeFailure st with
  | Some e => w' = w /\ st' = st /\ r = Err e
  | None =>
      ((jss_state st', r) = storage_step now c (jss_state st) /\ jss_writeFailure st' = None /\
       exists added, in_step path h writer (ms ++ added) w' st' /\
         match r with Ok _ => length added = 1%nat | Err _ => added = [] end) \/
      (exists e, r = Err e /\ io_error e /\ jss_state st' = jss_state st /\ jss_writeFailure st' = Some e /\
       in_step path h writer ms w' st')
  end.
Proof.
  intros Hs Hd Hrun. pose proof (st_writer _ _ _ _ _ _ _ Hs) as Hw. destruct (jss_closing st) eqn:Hc.
  - rewrite (run_closed now c w st writer Hw Hc) in Hrun. by injection Hrun as <- <- <-.
  - destruct (jss_writeFailure st) as [e|] eqn:Hf.
    + rewrite (run_failed now c w st writer e Hw Hc Hf) in Hrun. by injection Hrun as <- <- <-.
    + by eapply run_in_step.
Qed.

(** C4. What the file of a session brings back after a crash.  Create a session and run
    any calls on it, some of whose appends fail or are cut short, and let the process
    stop at any point; [sent] are the mutations the calls asked for, whose payloads need
    only be JSON values of the data model ([represented]: finite numbers, but no -0, which
    JSON text does not tell from 0; exact counters; application messages with a role of
    their own).  [ms] are the mutations that were acknowledged: the state of the session is
    their replay.  Loading the file again has one of three outcomes.  It returns a storage
    in step with its file, whose state is the state the session had, or that state with
    the one mutation whose append was never confirmed; then the payload of every
    acknowledged mutation passes the loader's validation.  Or it fails with an I/O error.
    Or it is refused with [invalid_entry] and no file is changed; then some call wrote a
    payload that does not pass the loader's validation, which writing does not apply.  So
    nothing that was acknowledged is lost, and a session whose payloads are valid can be
    loaded up to I/O errors. *)
Theorem jsonl_crash_recovery {W H : Type} `{FileSystemLaws W H} path h sent (w0 w1 w2 w3 w4 : W) (st0 st : JsonlSessionStorage H) r :
  header_ok h = true -> Jsonl.create path h w0 = (w1, Ok st0) ->
  session_run path (jss_writer st0) (w1, st0) (w2, st) sent ->
  contents w3 path = contents w2 path -> Jsonl.load path w3 = (w4, r) ->
  exists ms, guarded initial_state ms (jss_state st) /\ (forall m, m ∈ ms -> m ∈ sent) /\
  match r with
  | Ok st' =>
      Forall (fun m => payload_valid m = true) ms /\
      exists writer ms', in_step path h writer ms' w4 st' /\ jss_writeFailure st' = None /\
        (jss_state st' = jss_state st \/
         (is_Some (jss_writeFailure st) /\ exists m, m ∈ sent /\ mutation_guard (jss_state st) m = true /\
            jss_state st' = mutation_effect (jss_state st) m))
  | Err e => io_error e \/ (se_code e = invalid_entry /\ same_files w3 w4 /\ exists m, m ∈ sent /\ payload_valid m = false)
  end.
Proof.
  intros Hh Hcreate Hrun Hcrash Hload. destruct (create_in_step (sent_ok []) _ _ _ _ _ Hh Hcreate) as (writer & Hs & _).
  rewrite (st_writer _ _ _ _ _ _ _ Hs) in Hrun. destruct (session_in_step _ _ _ _ _ _ _ _ Hs Hrun) as [ms Hs2].
  exists ms. split; [apply (st_replay _ _ _ _ _ _ _ Hs2)|]. split.
  - intros m Hm. pose proof (st_durable _ _ _ _ _ _ _ Hs2) as Hd. rewrite Forall_forall in Hd. by apply Hd.
  - by eapply reopen.
Qed.

(** ** Forking *)

Lemma applyAll_guarded ms s s' u : applyAll ms s = (s', Ok u) -> guarded s ms s'.
Proof.
  revert s. induction ms as [|m ms IH]; intros s; unfold applyAll in *; simpl; mrun; [intros [= <-]; constructor|].
  destruct (mutation_guard s m) eqn:Hg.
  - rewrite applyMutation_ok by done. intros Hr. econstructor; [done|by apply IH].
  - by destruct (applyMutation_err invalidMutation m s Hg) as [msg ->].
Qed.

(** Forking to a file refines forking in memory: a fork the session state refuses
    is refused with the same error before any file is touched; otherwise the fork is
    published to a file that did not exist, in one write, and the storage read back
    from it has exactly the state an in-memory fork has, in step with its file; the
    only other outcome is an I/O error. *)
Theorem jsonl_fork_refines {W H : Type} `{FileSystemLaws W H} path h options (w w' : W) (st : JsonlSessionStorage H) metadata r :
  state_wf (jss_state st) -> header_ok h = true ->
  (forall ms, createForkMutations options (jss_state st) = Ok ms -> Forall (fun m => mutation_ok m = true) ms) ->
  Jsonl.fork path h options st w = (w', r) ->
  match Memory.fork metadata options {| ims_metadata := metadata; ims_state := jss_state st |}, r with
  | Err e, _ => r = Err e /\ w' = w
  | Ok forked, Ok st' =>
      jss_state st' = ims_state forked /\ contents w path = None /\
      exists writer ms, in_step path h writer ms w' st' /\ jss_writeFailure st' = None
  | Ok _, Err e => io_error e
  end.
Proof.
  intros Hwf Hh Hdur Hfork. unfold Jsonl.fork, Memory.fork, on_state in *. cbn [ims_state new_InMemorySessionStorage].
  revert Hfork. mrun. destruct (createForkMutations options (jss_state st)) as [ms|e] eqn:Hms; [|by intros [= <- <-]].
  assert (Hok := Hdur ms eq_refl). clear Hdur.
  destruct (applyAll ms initial_state) as [s' [u|e]] eqn:Happ.
  2: { exfalso. unfold createForkMutations in Hms. apply bind_Ok in Hms as ([es ps] & Hsel & [= <-]).
       destruct (fork_selection_replays _ _ _ _ Hwf Hsel) as [Hpf Hps].
       destruct (fork_replay es ps (jss_state st) Hpf Hps) as (s1 & Ha & _). by rewrite Ha in Happ. }
  apply applyAll_guarded in Happ. cbn [ims_state].
  destruct (Jsonl.claimJsonlWriter path w) as [w1 r1] eqn:Hclaim. destruct (claim_cases _ _ _ _ Hclaim) as [Hsame Hown].
  destruct r1 as [writer|e]; [|by intros [= <- <-]]. intros Hrel.
  assert (Hbody : forall w2 r2, (fileResult (file_replace writer (encodeHeader h ++ concat (encodeMutation <$> ms)) true)
      ("Failed to publish fork " +:+ path);; Jsonl.loadOwned path (Some writer)) w1 = (w2, r2) ->
    match r2 with
    | Ok st' => jss_state st' = s' /\ contents w path = None /\
        exists writer ms, in_step path h writer ms w2 st' /\ jss_writeFailure st' = None
    | Err e => io_error e
    end).
  { intros w2 r2. mrun. destruct (fileResult _ _ w1) as [w3 r3] eqn:Hrep.
    destruct (fileResult_cases _ _ _ _ _ Hrep) as [([] & -> & Hf)|(e & fe & -> & He & Hf)]; [|by intros [= <- <-]].
    destruct (law_replace _ _ _ _ _ _ _ Hown Hf) as (Ho & [Hw _] & Hex). intros Hload.
    assert (Howner : owns w3 writer = Some path) by by rewrite Ho.
    pose proof (load_in_step path h ms writer w3 w2 r2 Hh Hok Howner
      (load_clean path (Some writer) h ms s' Hh Hok Happ w3 w2 r2 Hw Hload)) as Hin.
    destruct r2 as [st'|e]; [|done]. destruct Hin as [Hin Hnf].
    split; [eapply guarded_det; [apply (st_replay _ _ _ _ _ _ _ Hin)|done]|].
    split; [rewrite <-Hsame; by apply Hex|]. by exists writer, ms. }
  destruct (releasing_cases _ _ _ _ _ Hrel) as [(st' & -> & Hb)|(e & w2 & -> & Hb)]; by apply Hbody in Hb.
Qed.

(** * A file system for the samples, and the JSONL theorems at a concrete session

    [MemoryFiles] keeps its files in memory and cuts the appends its schedule tells it
    to cut; it satisfies the contract of the file system interface. *)

(** [mf_writers]: the file of each writer, until it is released; [mf_cuts]: for the
    appends to come, whether and where they are cut. *)
Record MemoryFiles := {
  mf_files : gmap string jsstring;
  mf_writers : list (option string);
  mf_cuts : list (option nat) }.

Definition mf_error (code : FileErrorCode) : FileError := {| fe_code := code; fe_message := "failed" |}.
Definition mf_path (h : nat) (w : MemoryFiles) : option string :=
  match mf_writers w !! h with Some p => p | None => None end.
Definition mf_write (p : string) (t : jsstring) (cuts : list (option nat)) (w : MemoryFiles) : MemoryFiles :=
  {| mf_files := <[p := t]> (mf_files w); mf_writers := mf_writers w; mf_cuts := cuts |}.

(** A missing file is empty. *)
Definition mf_read (p : string) (w : MemoryFiles) : jsstring := default [] (mf_files w !! p).

Definition mf_claim (p : string) : M MemoryFiles FileError nat := fun w =>
  if bool_decide (Some p ∈ mf_writers w) then (w, Err (mf_error permission_denied))
  else ({| mf_files := mf_files w; mf_writers := mf_writers w ++ [Some p]; mf_cuts := mf_cuts w |},
        Ok (length (mf_writers w))).
Definition mf_append (h : nat) (t : jsstring) : M MemoryFiles FileError unit := fun w =>
  match mf_path h w with
  | None => (w, Err (mf_error invalid))
  | Some p =>
      let c := mf_read p w in
      match mf_cuts w with
      | Some n :: cuts => (mf_write p (c ++ take n t) cuts w, Err (mf_error unknown))
      | None :: cuts => (mf_write p (c ++ t) cuts w, Ok tt)
      | [] => (mf_write p (c ++ t) [] w, Ok tt)
      end
  end.
Definition mf_replace (h : nat) (t : jsstring) (exclusive : bool) : M MemoryFiles FileError unit := fun w =>
  match mf_path h w with
  | None => (w, Err (mf_error invalid))
  | Some p =>
      if exclusive && bool_decide (is_Some (mf_files w !! p)) then (w, Err (mf_error invalid))
      else (mf_write p t (mf_cuts w) w, Ok tt)
  end.
Definition mf_release (h : nat) : M MemoryFiles FileError unit := fun w =>
  ({| mf_files := mf_files w; mf_writers := <[h := None]> (mf_writers w); mf_cuts := mf_cuts w |}, Ok tt).
Definition mf_lookup {A} (p : string) (f : jsstring -> A) : M MemoryFiles FileError A := fun w =>
  (w, match mf_files w !! p with Some t => Ok (f t) | None => Err (mf_error file_not_found) end).

#[export] Instance memory_files : FileSystem MemoryFiles nat := {|
  durableFiles := fun _ => true;
  file_claim := mf_claim;
  file_append := mf_append;
  file_replace := mf_replace;
  file_release := mf_release;
  readTextFile := fun p => mf_lookup p id;
  fileInfo_mtime := fun p => mf_lookup p (fun _ => num_zero) |}.
#[export] Instance memory_model : FileModel MemoryFiles nat := {|
  contents := fun w p => mf_files w !! p;
  owns := fun w h => mf_path h w |}.

Lemma mf_write_spec p t cuts w : wrote p t w (mf_write p t cuts w).
Proof.
  split; cbn [contents memory_model mf_files mf_write]; [apply lookup_insert_eq|].
  intros q Hq. by apply lookup_insert_ne.
Qed.
Lemma mf_read_eq p w c : contents w p = Some c -> mf_read p w = c.
Proof. intros Hc. exact (f_equal (from_option id []) Hc). Qed.
#[export] Instance memory_files_laws : FileSystemLaws MemoryFiles nat.
Proof.
  split; cbn [file_claim file_append file_replace file_release readTextFile fileInfo_mtime memory_files contents owns memory_model].
  - intros p w w' r. unfold mf_claim. case_bool_decide as Hp; intros [= <- <-]; split; try done. split.
    + unfold owns, memory_model, mf_path. cbn [mf_writers]. by rewrite list_lookup_middle.
    + unfold owns, memory_model, mf_path. intros h' Hh. apply Hp. destruct (mf_writers w !! h') as [q|] eqn:E; [|done].
      subst. by apply list_elem_of_lookup_2 in E.
  - intros h p t c w w' r Hown Hc. unfold mf_append. rewrite Hown, (mf_read_eq p w c Hc).
    destruct (mf_cuts w) as [|[n|] cuts]; intros [= <- <-]; split; try done; try apply mf_write_spec.
    exists (take n t). split; [|apply mf_write_spec]. exists (take n t), (drop n t), 0%nat.
    rewrite take_drop, app_nil_r. split_and!; [done|done|by left].
  - intros h p t exclusive w w' r Hown. unfold mf_replace. rewrite Hown.
    destruct (exclusive && bool_decide (is_Some (mf_files w !! p))) eqn:E; intros [= <- <-]; split; try done; [by left|].
    split; [apply mf_write_spec|]. intros ->. cbn [andb] in E. apply bool_decide_eq_false in E.
    cbn. by apply eq_None_not_Some.
  - intros h w w' r [= <- <-]. done.
  - intros p w w' r. unfold mf_lookup. destruct (mf_files w !! p) as [t|] eqn:E; intros [= <- <-]; split_and!; done.
  - intros p w w' r. unfold mf_lookup. by intros [= <- <-].
Qed.

(** ** A session that crashes *)

Definition sample_path : string := "s.jsonl".
Definition sample_header : JsonlV4Header :=
  {| h_id := "s1"; h_createdAt := 1700000000000; h_cwd := "/work"; h_parentSessionId := None;
     h_legacyParentSessionPath := None; h_metadata := Some (JsonObject [str "title" "demo"]) |}.
Definition user_entry (i text : string) : ProvisionedEntry :=
  {| pe_id := i; pe_body := MessageEntry (UserMsg (PlainText text) (num_of_Z 1700000000001)) false |}.

(** The second append is cut after forty characters. *)
Definition empty_files : MemoryFiles := {| mf_files := ∅; mf_writers := []; mf_cuts := [None; Some 40%nat] |}.
Definition created := Jsonl.create sample_path sample_header empty_files.
Definition unwrap {E A} (d : A) (r : result E A) : A := match r with Ok a => a | Err _ => d end.
Definition storage0 : JsonlSessionStorage nat :=
  unwrap (new_JsonlSessionStorage (metadataFromHeader sample_header sample_path num_zero) None) created.2.
Definition call1 := Jsonl.run 1700000000002 (CallAppendEntry (user_entry "e1" "hello") "main") (created.1, storage0).
Definition call2 := Jsonl.run 1700000000003 (CallAppendEntry (user_entry "e2" "lost") "main") call1.1.
(** The crash: every writer is gone. *)
Definition crash (w : MemoryFiles) : MemoryFiles := {| mf_files := mf_files w; mf_writers := []; mf_cuts := [] |}.
Lemma crash_contents w p : contents (crash w) p = contents w p.
Proof. done. Qed.
Definition crashed : MemoryFiles := crash call2.1.1.
Definition reloaded := Jsonl.load sample_path crashed.

Example sample_mutation_ok : mutation_ok (MutEntry (Some "main") (stamped_entry 5 initial_state (user_entry "e1" "hello") None)) = true.
Proof. vm_compute. reflexivity. Qed.
Example reloaded_state :
  (exists st, reloaded.2 = Ok st /\ (e_id <$> entries (jss_state st)) = ["e1"]) /\ is_ok call1.2 = true /\ is_ok call2.2 = false.
Proof. split_and!; [eexists; split|..]; vm_compute; reflexivity. Qed.

Lemma pairs {A B C} (x : A * B * C) : x = ((x.1.1, x.1.2), x.2).
Proof. by destruct x as [[]]. Qed.
Definition append1 := CallAppendEntry (user_entry "e1" "hello") "main".
Definition append2 := CallAppendEntry (user_entry "e2" "lost") "main".
Lemma call1_eq : Jsonl.run 1700000000002 append1 (created.1, storage0) = ((call1.1.1, call1.1.2), call1.2).
Proof. apply (pairs call1). Qed.
Lemma call2_eq : Jsonl.run 1700000000003 append2 (call1.1.1, call1.1.2) = ((call2.1.1, call2.1.2), call2.2).
Proof. rewrite <-surjective_pairing. apply (pairs call2). Qed.
Lemma sample_header_ok : header_ok sample_header = true.
Proof. vm_compute. reflexivity. Qed.
Lemma created_eq : Jsonl.create sample_path sample_header empty_files = (created.1, Ok storage0).
Proof. vm_compute. reflexivity. Qed.
Lemma reloaded_eq : Jsonl.load sample_path crashed = (reloaded.1, reloaded.2).
Proof. apply surjective_pairing. Qed.
Lemma append1_durable : durable 1700000000002 append1 (jss_state storage0).
Proof. vm_compute. reflexivity. Qed.
Lemma append2_durable : durable 1700000000003 append2 (jss_state call1.1.2).
Proof. vm_compute. reflexivity. Qed.

Lemma in_step_created P : in_step_on P sample_path sample_header 0%nat [] created.1 storage0.
Proof.
  destruct (create_in_step P sample_path sample_header empty_files created.1 storage0 sample_header_ok created_eq)
    as (writer & Hs & _).
  assert (Hw : Some writer = Some 0%nat).
  { rewrite <-(st_writer _ _ _ _ _ _ _ Hs). vm_compute. reflexivity. }
  by injection Hw as ->.
Qed.
Lemma storage0_open : jss_closing storage0 = false /\ jss_writeFailure storage0 = None /\ is_ok call1.2 = true.
Proof. vm_compute. split_and!; reflexivity. Qed.
Lemma same_contents : contents crashed sample_path = contents call2.1.1 sample_path.
Proof. apply crash_contents. Qed.
Lemma reloaded_ok : is_ok reloaded.2 = true.
Proof. vm_compute. reflexivity. Qed.
(** What the two calls asked for. *)
Definition sent1 : list SessionMutation := [] ++ requested 1700000000002 append1 (jss_state storage0).
Definition sent2 : list SessionMutation := sent1 ++ requested 1700000000003 append2 (jss_state call1.1.2).
Lemma sent_represented : Forall (fun m => represented m = true) sent2.
Proof.
  apply Forall_forall. intros m Hm. assert (H : forallb represented sent2 = true) by (vm_compute; reflexivity).
  rewrite forallb_forall in H. by apply H, list_elem_of_In.
Qed.
Lemma call1_run : session_run sample_path (jss_writer storage0) (created.1, storage0) (call1.1.1, call1.1.2) sent1.
Proof.
  eapply run_call; [apply run_start| |exact call1_eq]. pose proof sent_represented as H. by apply Forall_app in H as [H _].
Qed.
Lemma sample_run : session_run sample_path (jss_writer storage0) (created.1, storage0) (call2.1.1, call2.1.2) sent2.
Proof.
  eapply run_call; [exact call1_run| |exact call2_eq]. pose proof sent_represented as H. by apply Forall_app in H as [_ H].
Qed.

Lemma jsonl_refines_storage_witness :
  (jss_state call1.1.2, call1.2) = storage_step 1700000000002 append1 (jss_state storage0).
Proof.
  pose proof (jsonl_refines_storage sample_path sample_header 0%nat [] 1700000000002 append1 created.1 call1.1.1 storage0
    call1.1.2 call1.2 (in_step_created _) append1_durable call1_eq) as Hrun.
  destruct storage0_open as (Hc & Hf & Hok). rewrite Hc, Hf in Hrun.
  destruct Hrun as [[Hstep _]|(e & He & _)]; [exact Hstep|]. by rewrite He in Hok.
Defined.

Lemma jsonl_crash_recovery_witness :
  exists st, reloaded.2 = Ok st /\
    (jss_state st = jss_state call2.1.2 \/
     exists m, mutation_guard (jss_state call2.1.2) m = true /\ jss_state st = mutation_effect (jss_state call2.1.2) m).
Proof.
  destruct (jsonl_crash_recovery sample_path sample_header sent2 empty_files created.1 call2.1.1 crashed reloaded.1 storage0
    call2.1.2 reloaded.2 sample_header_ok created_eq sample_run same_contents reloaded_eq) as (acknowledged & _ & _ & Hload).
  pose proof reloaded_ok as Hok. destruct reloaded.2 as [st|e]; [|done].
  exists st. split; [done|]. destruct Hload as (_ & writer & ms & _ & _ & [->|(_ & m & _ & Hm)]); [by left|right; eauto].
Defined.

(** An accepted write the loader refuses: the record of a first attempt numbered 0.  It
    is JSON, so writing accepts it; the file cannot be loaded again. *)
Definition attempt0 : NewRecord :=
  {| nr_id := "r1"; nr_lane := "main";
     nr_body := RStepAttempt {| sa_runId := "run"; sa_step := StepAssistant; sa_attempt := 0; sa_resultEntryId := "e9";
                                sa_compactionReason := None |} |}.
Definition uncut (w : MemoryFiles) : MemoryFiles :=
  {| mf_files := mf_files w; mf_writers := mf_writers w; mf_cuts := [] |}.
Definition unchecked := Jsonl.run 1700000000003 (CallAppendRecord attempt0) (uncut call1.1.1, call1.1.2).
Example accepted_not_loadable :
  is_ok unchecked.2 = true /\
  match (Jsonl.load sample_path (crash unchecked.1.1)).2 with Ok _ => False | Err e => se_code e = invalid_entry end.
Proof. vm_compute. split; reflexivity. Qed.

(** ** A fork of the session *)

Definition fork_path : string := "f.jsonl".
Definition fork_header : JsonlV4Header :=
  {| h_id := "s2"; h_createdAt := 1700000000009; h_cwd := "/work"; h_parentSessionId := Some "s1";
     h_legacyParentSessionPath := None; h_metadata := None |}.
Definition forked := Jsonl.fork fork_path fork_header ForkTree call1.1.2 call1.1.1.
Definition fork_metadata : SessionMetadata := {| sm_id := "s2"; sm_createdAt := 0; sm_parentSessionId := None |}.

Lemma call1_wf : state_wf (jss_state call1.1.2).
Proof.
  destruct (session_in_step sample_path sample_header 0%nat created.1 storage0 call1.1.1 call1.1.2 sent1 (in_step_created _))
    as [ms Hs]; [exact call1_run|by eapply in_step_wf].
Qed.
Lemma fork_durable ms :
  createForkMutations ForkTree (jss_state call1.1.2) = Ok ms -> Forall (fun m => mutation_ok m = true) ms.
Proof.
  intros Hms. apply Forall_forall. intros m Hm.
  assert (Hall : match createForkMutations ForkTree (jss_state call1.1.2) with Ok ms => forallb mutation_ok ms | Err _ => true end = true)
    by (vm_compute; reflexivity).
  rewrite Hms in Hall. rewrite forallb_forall in Hall. by apply Hall, list_elem_of_In.
Qed.
Lemma forked_eq : Jsonl.fork fork_path fork_header ForkTree call1.1.2 call1.1.1 = (forked.1, forked.2).
Proof. apply surjective_pairing. Qed.
Lemma fork_header_ok : header_ok fork_header = true.
Proof. vm_compute. reflexivity. Qed.
Lemma forked_ok : is_ok forked.2 = true.
Proof. vm_compute. reflexivity. Qed.

Lemma jsonl_fork_refines_witness :
  exists st f, forked.2 = Ok st /\
    Memory.fork fork_metadata ForkTree {| ims_metadata := fork_metadata; ims_state := jss_state call1.1.2 |} = Ok f /\
    jss_state st = ims_state f.
Proof.
  pose proof (jsonl_fork_refines fork_path fork_header ForkTree call1.1.1 forked.1 call1.1.2 fork_metadata forked.2
    call1_wf fork_header_ok fork_durable forked_eq) as Hf.
  pose proof forked_ok as Hok. destruct (Memory.fork _ _ _) as [f|e].
  - destruct forked.2 as [st|e]; [|done]. exists st, f. split_and!; [done|done|apply Hf].
  - destruct Hf as [Hf _]. by rewrite Hf in Hok.
Defined.
