(* ===== verification/Compaction.v ===== *)
(** * Choosing what a compaction summarizes
    (packages/agent/src/harness/compaction/compaction.ts and utils.ts)

    Token estimates, the cut point between the history that is summarized and the
    tail that is kept, the files the summarized messages touched, and
    [prepareCompaction].  Indices are natural numbers; -1 is [None].  A sum of string
    lengths is an integer (it is far below 2^53), token totals are numbers, added in
    the order of the loops. *)
From S2P Require Import Prelude JsNumber SessionTypes JsText JsonText Reducer ReducerValidation Context.

(** ** Files touched *)

(** A [Set<string>]: its elements in the order they were added. *)
Definition set_add (x : string) (s : list string) : list string :=
  if bool_decide (x ∈ s) then s else s ++ [x].
Definition set_add_all (xs s : list string) : list string := foldl (fun s x => set_add x s) s xs.

Record FileOperations := { fo_read : list string; fo_written : list string; fo_edited : list string }.
Definition createFileOps : FileOperations := {| fo_read := []; fo_written := []; fo_edited := [] |}.

Definition add_read (f : string) (o : FileOperations) : FileOperations :=
  {| fo_read := set_add f (fo_read o); fo_written := fo_written o; fo_edited := fo_edited o |}.
Definition add_written (f : string) (o : FileOperations) : FileOperations :=
  {| fo_read := fo_read o; fo_written := set_add f (fo_written o); fo_edited := fo_edited o |}.
Definition add_edited (f : string) (o : FileOperations) : FileOperations :=
  {| fo_read := fo_read o; fo_written := fo_written o; fo_edited := set_add f (fo_edited o) |}.

(** [args.path] when it is a non-empty string. *)
Definition path_argument (args : json) : option string :=
  match prop args "path" with Some (JsonString path) => truthy (Some path) | _ => None end.
Definition extract_block (fileOps : FileOperations) (block : content) : FileOperations :=
  match block with
  | ToolCallContent call =>
      match path_argument (tc_arguments call) with
      | Some path =>
          if String.eqb (tc_name call) "read" then add_read path fileOps
          else if String.eqb (tc_name call) "write" then add_written path fileOps
          else if String.eqb (tc_name call) "edit" then add_edited path fileOps
          else fileOps
      | None => fileOps
      end
  | _ => fileOps
  end.
Definition extractFileOpsFromMessage (fileOps : FileOperations) (message : AgentMessage) : FileOperations :=
  match message with
  | AssistantMsg m => foldl extract_block fileOps (am_content m)
  | _ => fileOps
  end.

(** [details.readFiles] and [details.modifiedFiles] of what an earlier summary stored:
    lists of file names, as [compact] writes them. *)
Definition file_names (details : json) (field : string) : list string :=
  match prop details field with
  | Some (JsonArray items) => omap (fun v => match v with JsonString f => Some f | _ => None end) items
  | _ => []
  end.
Definition add_details (details : option json) (fileOps : FileOperations) : FileOperations :=
  match details with
  | Some d => {| fo_read := set_add_all (file_names d "readFiles") (fo_read fileOps);
                 fo_written := fo_written fileOps;
                 fo_edited := set_add_all (file_names d "modifiedFiles") (fo_edited fileOps) |}
  | None => fileOps
  end.

Definition extractFileOperations (messages : list AgentMessage) (entries : list Entry)
    (prevCompactionIndex : option nat) : FileOperations :=
  let fileOps := match prevCompactionIndex ≫= fun i => entries !! i with
                 | Some prev => match e_body prev with
                                | CompactionEntry _ _ _ details _ => add_details details createFileOps
                                | _ => createFileOps
                                end
                 | None => createFileOps
                 end in
  foldl extractFileOpsFromMessage fileOps messages.

(** [Array.prototype.sort] orders strings by their UTF-16 code units. *)
Fixpoint units_leb (a b : jsstring) : bool :=
  match a, b with
  | [], _ => true
  | _ :: _, [] => false
  | x :: a', y :: b' => if x <? y then true else if y <? x then false else units_leb a' b'
  end.
Definition string_le (a b : string) : Prop := units_leb (js a) (js b) = true.
#[export] Instance string_le_dec : RelDecision string_le.
Proof. intros a b. unfold string_le. apply _. Defined.

Definition computeFileLists (fileOps : FileOperations) : list string * list string :=
  let modified := set_add_all (fo_written fileOps) (set_add_all (fo_edited fileOps) []) in
  let readOnly := merge_sort string_le (keep (fun f => negb (bool_decide (f ∈ modified))) (fo_read fileOps)) in
  let modifiedFiles := merge_sort string_le modified in
  (readOnly, modifiedFiles).

(** ** Token estimates *)

Definition str_length (s : string) : Z := zlen (js s).

Definition calculateContextTokens (usage : Usage) : number :=
  if num_truthy (usage_totalTokens usage) then usage_totalTokens usage
  else num_add (num_add (num_add (usage_input usage) (usage_output usage)) (usage_cacheRead usage))
         (usage_cacheWrite usage).

Definition getAssistantUsage (msg : AgentMessage) : option Usage :=
  match msg with
  | AssistantMsg m =>
      if negb (bool_decide (am_stopReason m = StopAborted)) && negb (bool_decide (am_stopReason m = StopError))
         && num_ltb num_zero (calculateContextTokens (am_usage m))
      then Some (am_usage m) else None
  | _ => None
  end.

(** The loop from the end. *)
Fixpoint last_usage_entry (fuel : nat) (entries : list Entry) : option Usage :=
  match fuel with
  | O => None
  | S i => match (entries !! i ≫= entry_message) ≫= getAssistantUsage with
           | Some usage => Some usage
           | None => last_usage_entry i entries
           end
  end.
Definition getLastAssistantUsage (entries : list Entry) : option Usage :=
  last_usage_entry (length entries) entries.
Fixpoint last_usage_message (fuel : nat) (messages : list AgentMessage) : option (Usage * nat) :=
  match fuel with
  | O => None
  | S i => match messages !! i ≫= getAssistantUsage with
           | Some usage => Some (usage, i)
           | None => last_usage_message i messages
           end
  end.
Definition getLastAssistantUsageInfo (messages : list AgentMessage) : option (Usage * nat) :=
  last_usage_message (length messages) messages.

Definition ESTIMATED_IMAGE_CHARS : Z := 4800.
Definition block_chars (block : content) : Z :=
  match block with
  | TextContent text _ => str_length text
  | ImageContent _ _ => ESTIMATED_IMAGE_CHARS
  | _ => 0
  end.
Definition estimateTextAndImageContentChars (c : user_content) : Z :=
  match c with
  | PlainText s => str_length s
  | Blocks blocks => foldl (fun chars block => chars + block_chars block) 0 blocks
  end.

(** [safeJsonStringify]: an argument value always has a JSON text. *)
Definition safeJsonStringify (v : json) : jsstring := JSON_stringify v.

Definition assistant_chars (block : content) : Z :=
  match block with
  | TextContent text _ => str_length text
  | ThinkingContent thinking _ _ => str_length thinking
  | ToolCallContent call => str_length (tc_name call) + zlen (safeJsonStringify (tc_arguments call))
  | _ => 0
  end.

(** [Math.ceil(chars / 4)] *)
Definition ceil_quarter (chars : Z) : Z := (chars + 3) / 4.
Definition estimateTokens (message : AgentMessage) : Z :=
  match message with
  | UserMsg c _ => ceil_quarter (estimateTextAndImageContentChars c)
  | AssistantMsg m => ceil_quarter (foldl (fun chars block => chars + assistant_chars block) 0 (am_content m))
  | CustomMsg _ c _ _ _ => ceil_quarter (estimateTextAndImageContentChars c)
  | ToolResultMsg m => ceil_quarter (estimateTextAndImageContentChars (Blocks (tr_content m)))
  | BashExecutionMsg m => ceil_quarter (str_length (bx_command m) + str_length (bx_output m))
  | BranchSummaryMsg summary _ _ | CompactionSummaryMsg summary _ _ _ => ceil_quarter (str_length summary)
  | AppMsg _ _ => 0
  end.

Definition add_tokens (total : number) (message : AgentMessage) : number :=
  num_add total (num_of_Z (estimateTokens message)).

Record ContextUsageEstimate := {
  ce_tokens : number; ce_usageTokens : number; ce_trailingTokens : number; ce_lastUsageIndex : option nat }.
Definition estimateContextTokens (messages : list AgentMessage) : ContextUsageEstimate :=
  match getLastAssistantUsageInfo messages with
  | None =>
      let estimated := foldl add_tokens num_zero messages in
      {| ce_tokens := estimated; ce_usageTokens := num_zero; ce_trailingTokens := estimated;
         ce_lastUsageIndex := None |}
  | Some (usage, index) =>
      let usageTokens := calculateContextTokens usage in
      let trailingTokens := foldl add_tokens num_zero (drop (S index) messages) in
      {| ce_tokens := num_add usageTokens trailingTokens; ce_usageTokens := usageTokens;
         ce_trailingTokens := trailingTokens; ce_lastUsageIndex := Some index |}
  end.

Record CompactionSettings := { enabled : bool; reserveTokens : number; keepRecentTokens : number }.
Definition DEFAULT_COMPACTION_SETTINGS : CompactionSettings :=
  {| enabled := true; reserveTokens := num_of_Z 16384; keepRecentTokens := num_of_Z 20000 |}.
Definition shouldCompact (contextTokens contextWindow : number) (settings : CompactionSettings) : bool :=
  if negb (enabled settings) then false
  else num_ltb (num_sub contextWindow (reserveTokens settings)) contextTokens.

(** ** The cut point *)

(** An entry a kept tail may start with: any message but a tool result (and but the
    messages of unknown roles), or a branch summary. *)
Definition is_cut_point (entry : Entry) : bool :=
  match e_body entry with
  | MessageEntry message _ =>
      match message_role message with
      | RoleBashExecution | RoleCustom | RoleBranchSummary | RoleCompactionSummary | RoleUser | RoleAssistant => true
      | RoleToolResult | RoleApp _ => false
      end
  | BranchSummaryEntry _ _ _ _ => true
  | _ => false
  end.
Definition findValidCutPoints (entries : list Entry) (startIndex endIndex : nat) : list nat :=
  keep (fun i => match entries !! i with Some entry => is_cut_point entry | None => false end)
    (seq startIndex (endIndex - startIndex)).

Definition starts_turn (entry : Entry) : bool :=
  match e_body entry with
  | BranchSummaryEntry _ _ _ _ => true
  | MessageEntry message _ =>
      match message_role message with RoleUser | RoleBashExecution => true | _ => false end
  | _ => false
  end.
(** [n] is one more than the index looked at next. *)
Fixpoint turn_start_below (n : nat) (entries : list Entry) (startIndex : nat) : option nat :=
  match n with
  | O => None
  | S i => if (i <? startIndex)%nat then None
           else match entries !! i with
                | Some entry => if starts_turn entry then Some i else turn_start_below i entries startIndex
                | None => None
                end
  end.
Definition findTurnStartIndex (entries : list Entry) (entryIndex startIndex : nat) : option nat :=
  turn_start_below (S entryIndex) entries startIndex.

Record CutPointResult := { firstKeptEntryIndex : nat; turnStartIndex : option nat; isSplitTurn : bool }.

(** The loop from the end that adds up tokens until the budget is reached. *)
Fixpoint budget_index (n : nat) (entries : list Entry) (startIndex : nat) (keepRecent acc : number) : option nat :=
  match n with
  | O => None
  | S i =>
      if (i <? startIndex)%nat then None
      else match entries !! i ≫= entry_message with
           | Some message =>
               let acc := add_tokens acc message in
               if num_leb keepRecent acc then Some i else budget_index i entries startIndex keepRecent acc
           | None => budget_index i entries startIndex keepRecent acc
           end
  end.
(** The first cut point at or after an index. *)
Fixpoint first_from (i : nat) (cutPoints : list nat) : option nat :=
  match cutPoints with
  | [] => None
  | c :: cutPoints' => if (i <=? c)%nat then Some c else first_from i cutPoints'
  end.
(** The loop that moves the cut before the entries that are not messages. *)
Fixpoint retreat (cutIndex : nat) (entries : list Entry) (startIndex : nat) : nat :=
  match cutIndex with
  | O => O
  | S prev =>
      if (startIndex <? cutIndex)%nat then
        match entries !! prev with
        | Some prevEntry => if is_type TCompaction prevEntry || is_type TMessage prevEntry then cutIndex
                            else retreat prev entries startIndex
        | None => cutIndex
        end
      else cutIndex
  end.
Definition is_user_message (entry : Entry) : bool :=
  match e_body entry with MessageEntry (UserMsg _ _) _ => true | _ => false end.

Definition findCutPoint (entries : list Entry) (startIndex endIndex : nat) (keepRecent : number) : CutPointResult :=
  let cutPoints := findValidCutPoints entries startIndex endIndex in
  match cutPoints with
  | [] => {| firstKeptEntryIndex := startIndex; turnStartIndex := None; isSplitTurn := false |}
  | first :: _ =>
      let chosen := match budget_index endIndex entries startIndex keepRecent num_zero with
                    | Some i => default first (first_from i cutPoints)
                    | None => first
                    end in
      let cutIndex := retreat chosen entries startIndex in
      let isUserMessage := match entries !! cutIndex with Some e => is_user_message e | None => false end in
      let turnStart := if isUserMessage then None else findTurnStartIndex entries cutIndex startIndex in
      {| firstKeptEntryIndex := cutIndex; turnStartIndex := turnStart;
         isSplitTurn := negb isUserMessage && bool_decide (is_Some turnStart) |}
  end.

(** ** Preparing a compaction *)

Definition getMessageFromEntry (entry : Entry) : option AgentMessage :=
  match e_body entry with
  | MessageEntry message _ => Some message
  | BranchSummaryEntry fromId summary _ _ =>
      Some (createBranchSummaryMessage summary fromId (num_of_Z (e_timestamp entry)))
  | CompactionEntry summary _ tokensBefore _ _ =>
      Some (createCompactionSummaryMessage summary tokensBefore (num_of_Z (e_timestamp entry)))
  | _ => None
  end.
Definition getMessageFromEntryForCompaction (entry : Entry) : option AgentMessage :=
  if is_type TCompaction entry then None else getMessageFromEntry entry.

Inductive CompactionErrorCode := compaction_aborted | summarization_failed.
Record CompactionError := { ce_code : CompactionErrorCode; ce_message : string }.

Record CompactionPreparation := {
  messagesToSummarize : list AgentMessage;
  turnPrefixMessages : list AgentMessage;
  retainedTail : list AgentMessage;
  cp_isSplitTurn : bool;
  tokensBefore : number;
  previousSummary : option string;
  fileOps : FileOperations;
  cp_settings : CompactionSettings }.

(** The entries that stand for the messages an earlier compaction retained.  Nothing
    reads the timestamp of such an entry; it is the sequence number here. *)
Definition retained_id (id : string) (index : Z) : string := id +:+ ":retained:" +:+ pretty index.
Definition virtual_entry (prev : Entry) (index : Z) (message : AgentMessage) : Entry :=
  {| e_id := retained_id (e_id prev) index; e_seq := e_seq prev;
     e_parentId := Some (if index =? 0 then e_id prev else retained_id (e_id prev) (index - 1));
     e_timestamp := e_seq prev; e_body := MessageEntry message false |}.
Definition compactable_entries (pathEntries : list Entry) (prev : option (Entry * nat)) : list Entry :=
  match prev with
  | None => pathEntries
  | Some (prevCompaction, index) =>
      match e_body prevCompaction with
      | CompactionEntry _ tail _ _ _ => map_index (virtual_entry prevCompaction) 0 tail ++ drop (S index) pathEntries
      | _ => pathEntries
      end
  end.
Definition previous_summary (prev : option (Entry * nat)) : option string :=
  match prev with
  | Some (p, _) => match e_body p with CompactionEntry summary _ _ _ _ => Some summary | _ => None end
  | None => None
  end.
(** [for (let i = from; i < to; i++)] over the messages of entries. *)
Definition messages_between (from to : nat) (entries : list Entry) : list AgentMessage :=
  omap getMessageFromEntryForCompaction (take (to - from) (drop from entries)).

Definition prepareCompaction (pathEntries : list Entry) (settings : CompactionSettings)
  : result CompactionError (option CompactionPreparation) :=
  match last pathEntries with
  | None => Ok None
  | Some newest =>
      if is_type TCompaction newest then Ok None
      else
        let prev := find_compaction (length pathEntries) pathEntries in
        let entries := compactable_entries pathEntries prev in
        let boundaryEnd := length entries in
        let before := ce_tokens (estimateContextTokens (ctx_messages (buildSessionContext pathEntries no_options))) in
        let cut := findCutPoint entries 0 boundaryEnd (keepRecentTokens settings) in
        let kept := firstKeptEntryIndex cut in
        let turnStart := default kept (turnStartIndex cut) in
        let historyEnd := if isSplitTurn cut then turnStart else kept in
        let toSummarize := messages_between 0 historyEnd entries in
        let turnPrefix := if isSplitTurn cut then messages_between turnStart kept entries else [] in
        let ops := extractFileOperations toSummarize pathEntries (snd <$> prev) in
        Ok (Some {| messagesToSummarize := toSummarize;
                    turnPrefixMessages := turnPrefix;
                    retainedTail := messages_between kept boundaryEnd entries;
                    cp_isSplitTurn := isSplitTurn cut;
                    tokensBefore := before;
                    previousSummary := previous_summary prev;
                    fileOps := if isSplitTurn cut then foldl extractFileOpsFromMessage ops turnPrefix else ops;
                    cp_settings := settings |})
  end.
