(* ===== verification/CompactionTheorems.v ===== *)
(** * What a compaction keeps and what it summarizes

    The messages, the cut, and the files a compaction reports. *)
From S2P Require Import Prelude JsNumber SessionTypes JsText JsonText Reducer ReducerValidation Context.
From S2P Require Import Compaction.

(** ** The messages a compaction is about *)

(** The messages a path stands for since its newest compaction: what that compaction
    retained, and the messages after it. *)
Definition live_message (live : list AgentMessage) (entry : Entry) : list AgentMessage :=
  match e_body entry with
  | CompactionEntry _ tail _ _ _ => tail
  | _ => live ++ option_list (getMessageFromEntry entry)
  end.
Definition live_messages (path : list Entry) : list AgentMessage := foldl live_message [] path.

(** A message a kept tail may open with, and one that opens a turn. *)
Definition tail_opener (m : AgentMessage) : bool :=
  match message_role m with RoleToolResult | RoleApp _ => false | _ => true end.
Definition turn_opener (m : AgentMessage) : bool :=
  match message_role m with RoleUser | RoleBashExecution | RoleBranchSummary => true | _ => false end.

Lemma cut_point_message e :
  is_cut_point e = true <-> exists m, getMessageFromEntryForCompaction e = Some m /\ tail_opener m = true.
Proof.
  unfold is_cut_point, getMessageFromEntryForCompaction, is_type, e_type, getMessageFromEntry, tail_opener.
  destruct (e_body e) as [m t| | | | | |]; simpl; split; naive_solver.
Qed.
Lemma turn_start_message e :
  starts_turn e = true -> exists m, getMessageFromEntryForCompaction e = Some m /\ turn_opener m = true.
Proof.
  unfold starts_turn, getMessageFromEntryForCompaction, is_type, e_type, getMessageFromEntry, turn_opener.
  destruct (e_body e) as [m t| | | | | |]; simpl; try done; [|by eauto].
  intros H. exists m. split; [done|]. by destruct (message_role m).
Qed.
(** An entry that is neither a message nor a compaction gives a branch summary or nothing. *)
Lemma silent_entry e m :
  is_type TCompaction e = false -> is_type TMessage e = false ->
  getMessageFromEntryForCompaction e = Some m -> tail_opener m = true.
Proof.
  unfold getMessageFromEntryForCompaction, is_type, e_type, getMessageFromEntry.
  destruct (e_body e); simpl; try done. by intros _ _ [= <-].
Qed.

(** ** Loops *)

Definition cut_at (entries : list Entry) (i : nat) : Prop := exists e, entries !! i = Some e /\ is_cut_point e = true.

Lemma elem_of_cut_points entries s e i :
  i ∈ findValidCutPoints entries s e <-> (s <= i < e)%nat /\ cut_at entries i.
Proof.
  unfold findValidCutPoints, cut_at. rewrite elem_of_keep.
  assert (i ∈ seq s (e - s) <-> (s <= i < e)%nat) as -> by (rewrite elem_of_seq; lia).
  destruct (entries !! i) as [x|]; split.
  - intros [? ?]. eauto.
  - intros (? & ? & [= <-] & ?). done.
  - by intros [_ ?].
  - by intros (_ & ? & ? & _).
Qed.

Lemma seq_sorted a n : StronglySorted lt (seq a n).
Proof.
  revert a. induction n as [|n IH]; intros a; simpl; constructor; [done|].
  apply Forall_forall. intros y Hy%elem_of_seq. lia.
Qed.
Lemma cut_points_sorted entries s e : StronglySorted lt (findValidCutPoints entries s e).
Proof. apply keep_sorted, seq_sorted. Qed.

Lemma first_from_spec i l :
  StronglySorted lt l ->
  match first_from i l with
  | Some c => c ∈ l /\ (i <= c)%nat /\ forall c', c' ∈ l -> (c' < c)%nat -> (c' < i)%nat
  | None => forall c, c ∈ l -> (c < i)%nat
  end.
Proof.
  induction 1 as [|x l Hs IH Hall]; simpl; [intros c Hc; inversion Hc|].
  rewrite Forall_forall in Hall. destruct (Nat.leb_spec i x).
  - split_and!; [by left|done|]. intros c' [->|Hc]%elem_of_cons Hlt; [lia|].
    specialize (Hall c' Hc). lia.
  - destruct (first_from i l) as [c|].
    + destruct IH as (H1 & H2 & H3). split_and!; [by right|done|].
      intros c' [->|Hc]%elem_of_cons; [lia|by apply H3].
    + intros c [->|Hc]%elem_of_cons; [done|by apply IH].
Qed.

(** An entry the cut may move over. *)
Definition passed (entries : list Entry) (i : nat) : Prop :=
  exists e, entries !! i = Some e /\ is_type TCompaction e = false /\ is_type TMessage e = false.

Lemma retreat_spec cut entries s :
  (s <= cut)%nat ->
  (s <= retreat cut entries s <= cut)%nat /\
  forall j, (retreat cut entries s <= j < cut)%nat -> passed entries j.
Proof.
  induction cut as [|prev IH]; intros Hs; cbn [retreat]; [split; intros; lia|].
  destruct (Nat.ltb_spec s (S prev)); [|split; [lia|intros; lia]].
  destruct (entries !! prev) as [e|] eqn:He; [|split; [lia|intros; lia]].
  destruct (is_type TCompaction e || is_type TMessage e) eqn:Ht; [split; [lia|intros; lia]|].
  apply orb_false_iff in Ht as [Hc Hm]. destruct (IH ltac:(lia)) as [IH1 IH2]. split; [lia|].
  intros j Hj. destruct (decide (j = prev)) as [->|]; [by exists e|apply IH2; lia].
Qed.

(** The tokens of the messages from an index on, added up from the end as the loop does. *)
Definition tokens_from (entries : list Entry) (endIndex i : nat) : number :=
  foldr (fun m acc => add_tokens acc m) num_zero (omap entry_message (drop i (take endIndex entries))).
Definition message_at (entries : list Entry) (i : nat) : Prop := is_Some (entries !! i ≫= entry_message).

Lemma tokens_from_step entries n i :
  (i < n)%nat ->
  tokens_from entries n i =
  match entries !! i ≫= entry_message with
  | Some m => add_tokens (tokens_from entries n (S i)) m
  | None => tokens_from entries n (S i)
  end.
Proof.
  intros Hi. unfold tokens_from. destruct (entries !! i) as [e|] eqn:He; simpl.
  - rewrite (drop_S (take n entries) e i) by (rewrite lookup_take; by rewrite decide_True). csimpl.
    by destruct (entry_message e).
  - apply lookup_ge_None in He. rewrite !drop_ge; [done|..]; rewrite length_take; lia.
Qed.

Lemma budget_index_spec n i0 entries s keepRecent :
  (i0 <= n)%nat ->
  match budget_index i0 entries s keepRecent (tokens_from entries n i0) with
  | Some i => (s <= i < i0)%nat /\ message_at entries i /\ num_leb keepRecent (tokens_from entries n i) = true /\
              forall j, (i < j < i0)%nat -> message_at entries j -> num_leb keepRecent (tokens_from entries n j) = false
  | None => forall j, (s <= j < i0)%nat -> message_at entries j -> num_leb keepRecent (tokens_from entries n j) = false
  end.
Proof.
  induction i0 as [|i IH]; intros Hn; cbn [budget_index]; [intros; lia|].
  destruct (Nat.ltb_spec i s); [intros; lia|].
  pose proof (tokens_from_step entries n i ltac:(lia)) as Hstep. unfold message_at in *.
  destruct (entries !! i ≫= entry_message) as [m|] eqn:Hm.
  - rewrite <-Hstep. destruct (num_leb keepRecent (tokens_from entries n i)) eqn:Hr.
    + split_and!; [lia|lia|by rewrite Hm|done|]. intros; lia.
    + specialize (IH ltac:(lia)). destruct (budget_index _ _ _ _ _) as [k|].
      * destruct IH as (? & ? & ? & IH). split_and!; [lia|lia|done|done|].
        intros j Hj. destruct (decide (j = i)) as [->|]; [done|apply IH; lia].
      * intros j Hj. destruct (decide (j = i)) as [->|]; [done|apply IH; lia].
  - rewrite <-Hstep. specialize (IH ltac:(lia)). destruct (budget_index _ _ _ _ _) as [k|].
    + destruct IH as (? & ? & ? & IH). split_and!; [lia|lia|done|done|].
      intros j Hj Hs. destruct (decide (j = i)) as [->|]; [rewrite Hm in Hs; by destruct Hs|apply IH; [lia|done]].
    + intros j Hj Hs. destruct (decide (j = i)) as [->|]; [rewrite Hm in Hs; by destruct Hs|apply IH; [lia|done]].
Qed.
Lemma tokens_from_end entries n : tokens_from entries n n = num_zero.
Proof. unfold tokens_from. by rewrite drop_ge by (rewrite length_take; lia). Qed.

Lemma turn_start_spec n entries s :
  (n <= length entries)%nat ->
  match turn_start_below n entries s with
  | Some t => (s <= t < n)%nat /\ (exists e, entries !! t = Some e /\ starts_turn e = true) /\
              forall j e, (t < j < n)%nat -> entries !! j = Some e -> starts_turn e = false
  | None => forall j e, (s <= j < n)%nat -> entries !! j = Some e -> starts_turn e = false
  end.
Proof.
  induction n as [|i IH]; intros Hn; cbn [turn_start_below]; [intros; lia|].
  destruct (Nat.ltb_spec i s); [intros; lia|].
  destruct (lookup_lt_is_Some_2 entries i) as [e He]; [lia|]. rewrite He.
  destruct (starts_turn e) eqn:Ht; [split_and!; [lia|lia|eauto|intros; lia]|].
  specialize (IH ltac:(lia)). destruct (turn_start_below i entries s) as [t|].
  - destruct IH as (? & ? & IH). split_and!; [lia|lia|done|]. intros j x Hj Hx.
    destruct (decide (j = i)) as [->|]; [by simplify_eq|]. apply (IH j x); [lia|done].
  - intros j x Hj Hx. destruct (decide (j = i)) as [->|]; [by simplify_eq|]. apply (IH j x); [lia|done].
Qed.

(** ** The cut point *)

Definition reaches (entries : list Entry) (n : nat) (keepRecent : number) (i : nat) : Prop :=
  message_at entries i /\ num_leb keepRecent (tokens_from entries n i) = true.

(** The cut point the budget selects: every earlier one lies before a message from which
    on the budget is reached; no later message reaches it, unless the messages that reach
    it have no cut point after them, and then it is the oldest one. *)
Definition budget_cut (entries : list Entry) (s n : nat) (keepRecent : number) (anchor : nat) : Prop :=
  (s <= anchor < n)%nat /\ cut_at entries anchor /\
  (forall c, (s <= c < anchor)%nat -> cut_at entries c ->
     exists i, (c < i <= anchor)%nat /\ reaches entries n keepRecent i) /\
  ((forall j, (anchor < j < n)%nat -> ~ reaches entries n keepRecent j) \/
   (forall c, (s <= c < anchor)%nat -> ~ cut_at entries c) /\
   exists i, (anchor < i < n)%nat /\ reaches entries n keepRecent i /\
     forall c, (i <= c < n)%nat -> ~ cut_at entries c).

Lemma choose_cut entries s n keepRecent first rest :
  findValidCutPoints entries s n = first :: rest ->
  budget_cut entries s n keepRecent
    (match budget_index n entries s keepRecent num_zero with
     | Some i => default first (first_from i (first :: rest))
     | None => first
     end).
Proof.
  intros Hcuts.
  assert (Hmem : forall c, c ∈ first :: rest <-> (s <= c < n)%nat /\ cut_at entries c)
    by (intros c; rewrite <-Hcuts; apply elem_of_cut_points).
  pose proof (cut_points_sorted entries s n) as Hs. rewrite Hcuts in Hs.
  assert (Hmin : forall c, c ∈ first :: rest -> (first <= c)%nat).
  { intros c [->|Hc]%elem_of_cons; [done|]. apply StronglySorted_inv in Hs as [_ Hall].
    rewrite Forall_forall in Hall. specialize (Hall c Hc). lia. }
  assert (Hfirst : forall c, (s <= c < first)%nat -> ~ cut_at entries c).
  { intros c Hc Hcut. assert (c ∈ first :: rest) as Hin%Hmin.
    { apply Hmem. destruct (proj1 (Hmem first) (list_elem_of_here _ _)). split; [lia|done]. } lia. }
  destruct (proj1 (Hmem first) (list_elem_of_here _ _)) as [Hrange Hcut].
  pose proof (budget_index_spec n n entries s keepRecent ltac:(lia)) as Hb. rewrite tokens_from_end in Hb.
  destruct (budget_index n entries s keepRecent num_zero) as [i|].
  - destruct Hb as (Hi & Hm & Hr & Hlater). pose proof (first_from_spec i _ Hs) as Hf.
    destruct (first_from i (first :: rest)) as [c|]; cbn [default from_option id].
    + destruct Hf as (Hc & Hic & Hbefore). apply Hmem in Hc as [Hc Hcutc]. split_and!; [lia|lia|done| |].
      * intros c' Hc' Hcut'. exists i. split; [|done]. split; [|lia].
        apply Hbefore; [|lia]. apply Hmem. split; [lia|done].
      * left. intros j Hj [Hjm Hjr]. rewrite Hlater in Hjr; [done|lia|done].
    + split_and!; [lia|lia|done| |].
      * intros c' Hc' Hcut'. by destruct (Hfirst c' Hc').
      * right. split; [done|]. exists i. pose proof (Hf first ltac:(apply Hmem; done)). split_and!; [lia|lia|done..|].
        intros c Hc Hcutc. assert (c ∈ first :: rest) as Hin%Hf by (apply Hmem; split; [lia|done]). lia.
  - split_and!; [lia|lia|done| |].
    + intros c' Hc' Hcut'. by destruct (Hfirst c' Hc').
    + left. intros j Hj [Hjm Hjr]. rewrite Hb in Hjr; [done|lia|done].
Qed.

Lemma findCutPoint_none entries s n keepRecent :
  (forall i, (s <= i < n)%nat -> ~ cut_at entries i) ->
  findCutPoint entries s n keepRecent =
  {| firstKeptEntryIndex := s; turnStartIndex := None; isSplitTurn := false |}.
Proof.
  intros Hno. unfold findCutPoint. destruct (findValidCutPoints entries s n) as [|c l] eqn:Hc; [done|].
  assert (c ∈ findValidCutPoints entries s n) as [? ?]%elem_of_cut_points by (rewrite Hc; left).
  by destruct (Hno c).
Qed.
Lemma findCutPoint_anchor entries s n keepRecent c0 :
  (s <= c0 < n)%nat -> cut_at entries c0 ->
  exists anchor, budget_cut entries s n keepRecent anchor /\
    let k := firstKeptEntryIndex (findCutPoint entries s n keepRecent) in
    (s <= k <= anchor)%nat /\ forall j, (k <= j < anchor)%nat -> passed entries j.
Proof.
  intros Hc0 Hcut0. unfold findCutPoint. destruct (findValidCutPoints entries s n) as [|c l] eqn:Hc.
  { assert (c0 ∈ findValidCutPoints entries s n) as Hin by by apply elem_of_cut_points.
    rewrite Hc in Hin. inversion Hin. }
  pose proof (choose_cut entries s n keepRecent c l Hc) as Hbc. eexists. split; [exact Hbc|].
  cbn [firstKeptEntryIndex]. apply retreat_spec. apply Hbc.
Qed.
(** The kept index is a position of the range, or its start. *)
Lemma findCutPoint_bounds entries s n keepRecent :
  (s <= n)%nat ->
  let k := firstKeptEntryIndex (findCutPoint entries s n keepRecent) in (s <= k <= n)%nat.
Proof.
  intros Hsn. cbv zeta. destruct (findValidCutPoints entries s n) as [|c l] eqn:Hc.
  - unfold findCutPoint. rewrite Hc. simpl. lia.
  - assert (c ∈ findValidCutPoints entries s n) as [Hr Hcut]%elem_of_cut_points by (rewrite Hc; left).
    destruct (findCutPoint_anchor entries s n keepRecent c Hr Hcut) as (a & (Ha & _) & Hk & _).
    cbv zeta in Hk. lia.
Qed.
Lemma findCutPoint_turn entries s n keepRecent :
  (s <= n <= length entries)%nat ->
  let r := findCutPoint entries s n keepRecent in
  match turnStartIndex r with
  | Some t => isSplitTurn r = true /\ (s <= t <= firstKeptEntryIndex r)%nat /\
      (exists e, entries !! t = Some e /\ starts_turn e = true) /\
      (forall j e, (t < j <= firstKeptEntryIndex r)%nat -> entries !! j = Some e -> starts_turn e = false)
  | None => isSplitTurn r = false
  end.
Proof.
  intros Hn r. subst r. pose proof (findCutPoint_bounds entries s n keepRecent ltac:(lia)) as Hb. cbv zeta in Hb.
  revert Hb. unfold findCutPoint. destruct (findValidCutPoints entries s n) as [|c l] eqn:Hc; [done|].
  cbn [firstKeptEntryIndex turnStartIndex isSplitTurn].
  pose proof (choose_cut entries s n keepRecent c l Hc) as (Hch & _). revert Hch.
  set (chosen := match budget_index _ _ _ _ _ with Some _ => _ | None => _ end). intros Hch.
  destruct (retreat_spec chosen entries s ltac:(lia)) as [Hk _]. intros _.
  set (k := retreat chosen entries s) in *.
  destruct (match entries !! k with Some e => is_user_message e | None => false end); cbn [negb andb]; [done|].
  unfold findTurnStartIndex. pose proof (turn_start_spec (S k) entries s ltac:(lia)) as Ht.
  destruct (turn_start_below (S k) entries s) as [t|]; [|done].
  destruct Ht as (Htr & Hte & Hlater). split_and!; [done|lia|lia|done|]. intros j e Hj. apply Hlater. lia.
Qed.

(** The cut point keeps about the requested budget of recent tokens: with no
    admissible cut everything is kept; otherwise the kept part opens with entries that are
    neither messages nor compactions and then an admissible one, messages after that one
    stay below the budget (unless the messages that reach the budget have no admissible
    entry among or after them, and then the cut is the oldest admissible entry), every earlier admissible
    entry would reach it, and a turn is split exactly at its newest opening before the
    cut. *)
Theorem findCutPoint_spec entries s n keepRecent :
  (s <= n <= length entries)%nat ->
  let r := findCutPoint entries s n keepRecent in
  let k := firstKeptEntryIndex r in
  ((forall i, (s <= i < n)%nat -> ~ cut_at entries i) -> k = s /\ isSplitTurn r = false) /\
  ((exists i, (s <= i < n)%nat /\ cut_at entries i) ->
   exists anchor, budget_cut entries s n keepRecent anchor /\ (s <= k <= anchor)%nat /\
     forall j, (k <= j < anchor)%nat -> passed entries j) /\
  match turnStartIndex r with
  | Some t => isSplitTurn r = true /\ (s <= t <= k)%nat /\
      (exists e, entries !! t = Some e /\ starts_turn e = true) /\
      (forall j e, (t < j <= k)%nat -> entries !! j = Some e -> starts_turn e = false)
  | None => isSplitTurn r = false
  end.
Proof.
  intros Hn r k. split_and!; [| |by apply findCutPoint_turn].
  - intros Hno. unfold k, r. by rewrite findCutPoint_none.
  - intros (i & Hi & Hcut). by apply (findCutPoint_anchor entries s n keepRecent i).
Qed.

(** ** Preparing a compaction *)

Lemma live_after post live :
  no_compaction post -> foldl live_message live post = live ++ omap getMessageFromEntryForCompaction post.
Proof.
  revert live. induction post as [|e post IH]; intros live Hno; simpl; [by rewrite app_nil_r|].
  rewrite IH by (intros x Hx; apply Hno; by right). pose proof (Hno e ltac:(left)) as He.
  unfold live_message, getMessageFromEntryForCompaction at 2. rewrite He.
  unfold is_type, e_type in He. unfold getMessageFromEntry.
  destruct (e_body e); simpl in *; by rewrite <-?(assoc_L (++)), ?app_nil_r.
Qed.
Lemma find_compaction_none path : no_compaction path -> find_compaction (length path) path = None.
Proof.
  intros Hno. pose proof (find_compaction_spec (length path) path ltac:(lia)) as H.
  destruct (find_compaction _ _) as [[c i]|]; [|done]. destruct H as (_ & Hl & Ht & _).
  apply list_elem_of_lookup_2 in Hl. by rewrite (Hno c Hl) in Ht.
Qed.
Lemma find_compaction_at pre c post :
  is_type TCompaction c = true -> no_compaction post ->
  find_compaction (length (pre ++ c :: post)) (pre ++ c :: post) = Some (c, length pre).
Proof.
  intros Hc Hno. pose proof (find_compaction_spec (length (pre ++ c :: post)) (pre ++ c :: post) ltac:(lia)) as H.
  assert (Hat : (pre ++ c :: post) !! length pre = Some c) by by apply list_lookup_middle.
  assert (Hlen : (length pre < length (pre ++ c :: post))%nat) by (rewrite length_app; simpl; lia).
  destruct (find_compaction _ _) as [[c' i]|]; [|by rewrite (H _ _ Hlen Hat) in Hc].
  destruct H as (Hi & Hl & Ht & Hrest). destruct (lt_eq_lt_dec i (length pre)) as [[Hlt| ->]|Hgt].
  - by rewrite (Hrest _ c (conj Hlt Hlen) Hat) in Hc.
  - rewrite Hat in Hl. by injection Hl as ->.
  - exfalso. rewrite lookup_app_r in Hl by lia. destruct (i - length pre)%nat as [|j] eqn:Hj; [lia|]. simpl in Hl.
    apply list_elem_of_lookup_2 in Hl. by rewrite (Hno c' Hl) in Ht.
Qed.
Lemma virtual_messages prev i tail :
  omap getMessageFromEntryForCompaction (map_index (virtual_entry prev) i tail) = tail.
Proof. revert i. induction tail as [|m tail IH]; intros i; [done|]. csimpl. by rewrite IH. Qed.

(** The entries a compaction works on carry exactly the live messages of the path. *)
Lemma compactable_live path :
  omap getMessageFromEntryForCompaction (compactable_entries path (find_compaction (length path) path)) =
  live_messages path.
Proof.
  destruct (compaction_cases path) as [Hno|(pre & c & post & -> & Hc & Hno)].
  - rewrite find_compaction_none by done. unfold live_messages. by rewrite live_after.
  - rewrite find_compaction_at by done. unfold live_messages. rewrite foldl_app. cbn [foldl].
    rewrite live_after by done. unfold compactable_entries, live_message, is_type, e_type in *.
    destruct (e_body c); try done. rewrite omap_app, virtual_messages. f_equal. f_equal.
    rewrite drop_app_ge by lia. by replace (S (length pre) - length pre)%nat with 1%nat by lia.
Qed.

Lemma messages_between_app a b c l :
  (a <= b <= c)%nat -> messages_between a b l ++ messages_between b c l = messages_between a c l.
Proof.
  intros H. unfold messages_between. rewrite <-omap_app. f_equal.
  replace (drop b l) with (drop (b - a) (drop a l)) by (rewrite drop_drop; f_equal; lia).
  replace (c - a)%nat with ((b - a) + (c - b))%nat by lia. by rewrite take_take_drop.
Qed.
Lemma messages_between_all l : messages_between 0 (length l) l = omap getMessageFromEntryForCompaction l.
Proof. unfold messages_between. rewrite Nat.sub_0_r, drop_0. by rewrite take_ge. Qed.

(** The first message at or after an index: the indices passed over give none that may
    not open a tail. *)
Lemma first_message (p : AgentMessage -> bool) l k a to e m :
  (k <= a < to)%nat ->
  (forall j x y, (k <= j < a)%nat -> l !! j = Some x -> getMessageFromEntryForCompaction x = Some y -> p y = true) ->
  l !! a = Some e -> getMessageFromEntryForCompaction e = Some m -> p m = true ->
  exists y rest, messages_between k to l = y :: rest /\ p y = true.
Proof.
  intros Hka Hpass Ha Hm Hp. remember (a - k)%nat as d eqn:Hd. revert k Hka Hpass Hd.
  induction d as [|d IH]; intros k Hka Hpass Hd; unfold messages_between.
  - assert (k = a) as -> by lia. rewrite (drop_S l e a Ha). destruct (to - a)%nat eqn:?; [lia|].
    csimpl. rewrite Hm. eauto.
  - destruct (lookup_lt_is_Some_2 l k) as [x Hx].
    { apply lookup_lt_Some in Ha. lia. }
    rewrite (drop_S l x k Hx). destruct (to - k)%nat as [|n] eqn:Hn; [lia|]. csimpl.
    destruct (getMessageFromEntryForCompaction x) as [y|] eqn:Hy.
    { do 2 eexists. split; [done|]. by apply (Hpass k x y); [lia|..]. }
    replace n with (to - S k)%nat by lia. apply IH; [lia| |lia]. intros j x' y' Hj. apply Hpass. lia.
Qed.

(** C32. A compaction loses nothing and splits the conversation well: it is not
    applicable exactly to an empty path and to one that ends with a compaction; otherwise
    the summarized history, the summarized turn prefix and the retained tail are, in
    order, the messages live on the path (what the previous compaction retained and the
    messages after it); a tail opens with a message that may open one (never a tool
    result) as soon as some live message may; and a turn prefix is there only when a turn
    is split, and opens with the message that started the turn. *)
Theorem prepareCompaction_partition path settings :
  match prepareCompaction path settings with
  | Ok None => path = [] \/ exists pre c, path = pre ++ [c] /\ is_type TCompaction c = true
  | Ok (Some p) =>
      (exists pre e, path = pre ++ [e] /\ is_type TCompaction e = false) /\
      messagesToSummarize p ++ turnPrefixMessages p ++ retainedTail p = live_messages path /\
      ((exists m, m ∈ live_messages path /\ tail_opener m = true) ->
       exists m rest, retainedTail p = m :: rest /\ tail_opener m = true) /\
      (turnPrefixMessages p <> [] -> cp_isSplitTurn p = true /\
       exists m rest, turnPrefixMessages p = m :: rest /\ turn_opener m = true)
  | Err _ => False
  end.
Proof.
  unfold prepareCompaction. destruct (last path) as [e|] eqn:Hlast; [|left; by apply last_None].
  apply last_Some in Hlast as [pre Hpath].
  destruct (is_type TCompaction e) eqn:He; [right; by exists pre, e|].
  pose proof (compactable_live path) as Hlive.
  set (prev := find_compaction (length path) path) in *. set (l := compactable_entries path prev) in *.
  pose proof (findCutPoint_bounds l 0 (length l) (keepRecentTokens settings) ltac:(lia)) as Hk.
  pose proof (findCutPoint_turn l 0 (length l) (keepRecentTokens settings) ltac:(lia)) as Ht.
  pose proof (findCutPoint_anchor l 0 (length l) (keepRecentTokens settings)) as Ha. cbv zeta in *.
  set (cut := findCutPoint l 0 (length l) (keepRecentTokens settings)) in *.
  cbn [messagesToSummarize turnPrefixMessages retainedTail cp_isSplitTurn].
  split_and!.
  - by exists pre, e.
  - rewrite <-Hlive, <-messages_between_all. destruct (turnStartIndex cut) as [t|]; cbn [default from_option id].
    + destruct Ht as (-> & Ht & _). rewrite !messages_between_app by lia. done.
    + rewrite Ht. by rewrite app_nil_l, messages_between_app by lia.
  - intros (m & Hm & Hop). rewrite <-Hlive in Hm. apply list_elem_of_omap in Hm as (x & Hx & Hxm).
    apply list_elem_of_lookup in Hx as [c0 Hc0].
    destruct (Ha c0) as (a & (Har & (y & Hy & Hcy) & _) & Hka & Hpass).
    { split; [lia|by eapply lookup_lt_Some]. }
    { exists x. split; [done|]. apply cut_point_message. eauto. }
    apply cut_point_message in Hcy as (z & Hz & Hzop).
    eapply (first_message tail_opener l _ a); [lia| |done..].
    intros j x' y' Hj Hx' Hy'. destruct (Hpass j Hj) as (e' & He' & Hc1 & Hc2). simplify_eq.
    by eapply silent_entry.
  - intros Hne. destruct (turnStartIndex cut) as [t|]; cbn [default from_option id] in *; [|by rewrite Ht in Hne].
    destruct Ht as (Hs & Htk & (x & Hx & Hst) & _). rewrite Hs in *. split; [done|].
    destruct (turn_start_message x Hst) as (m & Hm & Hop).
    destruct (decide (t = firstKeptEntryIndex cut)) as [Heq|].
    { rewrite Heq in Hne. unfold messages_between in Hne. by rewrite Nat.sub_diag in Hne. }
    eapply (first_message turn_opener l t t); [lia|intros; lia|done..].
Qed.

(** * The files a compaction reports *)

(** ** Sets of strings *)

Lemma elem_of_set_add x y s : x ∈ set_add y s <-> x = y \/ x ∈ s.
Proof. unfold set_add. case_bool_decide; [set_solver|]. rewrite elem_of_app, list_elem_of_singleton. tauto. Qed.
Lemma elem_of_set_add_all x ys s : x ∈ set_add_all ys s <-> x ∈ ys \/ x ∈ s.
Proof.
  unfold set_add_all. revert s. induction ys as [|y ys IH]; intros s; simpl; [set_solver|].
  rewrite IH, elem_of_set_add. set_solver.
Qed.
Lemma set_add_NoDup y s : NoDup s -> NoDup (set_add y s).
Proof.
  unfold set_add. case_bool_decide; [done|]. intros Hs. apply NoDup_app. split_and!; [done| |apply NoDup_singleton].
  intros x Hx ->%list_elem_of_singleton. done.
Qed.
Lemma set_add_all_NoDup ys s : NoDup s -> NoDup (set_add_all ys s).
Proof.
  unfold set_add_all. revert s. induction ys as [|y ys IH]; intros s Hs; [done|]. simpl. by apply IH, set_add_NoDup.
Qed.

(** ** The order of strings *)

Lemma units_leb_total a b : units_leb a b = true \/ units_leb b a = true.
Proof.
  revert b. induction a as [|x a IH]; intros [|y b]; simpl; auto.
  destruct (Z.ltb_spec x y), (Z.ltb_spec y x); auto; lia.
Qed.
Lemma units_leb_trans a b c : units_leb a b = true -> units_leb b c = true -> units_leb a c = true.
Proof.
  revert b c. induction a as [|x a IH]; intros [|y b] [|z c]; simpl; try done.
  destruct (Z.ltb_spec x y), (Z.ltb_spec y x), (Z.ltb_spec y z), (Z.ltb_spec z y), (Z.ltb_spec x z), (Z.ltb_spec z x);
    try done; try lia. apply IH.
Qed.
#[export] Instance string_le_total : Total string_le.
Proof. intros a b. apply units_leb_total. Qed.
#[export] Instance string_le_trans : Transitive string_le.
Proof. intros a b c. apply units_leb_trans. Qed.

(** ** What the tool calls touched *)

Definition op_set (tool : string) (o : FileOperations) : list string :=
  if String.eqb tool "read" then fo_read o else if String.eqb tool "write" then fo_written o else fo_edited o.
Definition file_tool (tool : string) : Prop := tool ∈ ["read"; "write"; "edit"].

Definition call_touches (tool f : string) (call : AgentToolCall) : Prop :=
  tc_name call = tool /\ path_argument (tc_arguments call) = Some f.
(** Some message has a call of the tool on the file. *)
Definition touches (tool : string) (messages : list AgentMessage) (f : string) : Prop :=
  exists m call, AssistantMsg m ∈ messages /\ call ∈ tool_calls m /\ call_touches tool f call.

Lemma extract_block_spec tool f o b :
  file_tool tool ->
  f ∈ op_set tool (extract_block o b) <->
  f ∈ op_set tool o \/ exists call, tool_call_of b = Some call /\ call_touches tool f call.
Proof.
  intros Ht. unfold extract_block, call_touches. destruct b as [| | |call]; simpl; [naive_solver..|].
  transitivity (f ∈ op_set tool o \/ (tc_name call = tool /\ path_argument (tc_arguments call) = Some f));
    [|split; [naive_solver|intros [?|(? & [= <-] & ?)]; auto]].
  destruct (path_argument (tc_arguments call)) as [p|]; [|naive_solver].
  unfold file_tool in Ht. rewrite !elem_of_cons, elem_of_nil in Ht.
  assert (Hp : forall s, f ∈ set_add p s <-> f ∈ s \/ Some p = Some f).
  { intros s. rewrite elem_of_set_add. naive_solver. }
  unfold op_set, add_read, add_written, add_edited.
  destruct (String.eqb_spec (tc_name call) "read") as [E1|E1]; [|destruct (String.eqb_spec (tc_name call) "write") as [E2|E2];
    [|destruct (String.eqb_spec (tc_name call) "edit") as [E3|E3]]];
    destruct Ht as [->|[->|[->|[]]]]; simpl; rewrite ?Hp; intuition congruence.
Qed.
Lemma extract_message_spec tool f o m :
  file_tool tool ->
  f ∈ op_set tool (extractFileOpsFromMessage o m) <-> f ∈ op_set tool o \/ touches tool [m] f.
Proof.
  intros Ht. unfold touches. destruct m as [|m| | | | | |]; try (split; [by left|intros [?|(? & ? & Hin & _)]; [done|]]);
    try (by apply list_elem_of_singleton in Hin).
  transitivity (f ∈ op_set tool o \/ exists call, call ∈ tool_calls m /\ call_touches tool f call).
  2: { split; (intros [?|H]; [by left|right]).
       - destruct H as (call & H). exists m, call. split; [by left|done].
       - destruct H as (m' & call & Hin & H). apply list_elem_of_singleton in Hin as [= ->]. by exists call. }
  simpl. unfold tool_calls. generalize (am_content m) as blocks. intros blocks. revert o.
  induction blocks as [|b blocks IH]; intros o; simpl; [set_solver|].
  rewrite IH, extract_block_spec by done. destruct (tool_call_of b) as [call|]; set_solver.
Qed.
Lemma extract_messages_spec tool f o ms :
  file_tool tool ->
  f ∈ op_set tool (foldl extractFileOpsFromMessage o ms) <-> f ∈ op_set tool o \/ touches tool ms f.
Proof.
  intros Ht. revert o. induction ms as [|m ms IH]; intros o; simpl; [unfold touches; set_solver|].
  rewrite IH, extract_message_spec by done. unfold touches. set_solver.
Qed.

Definition ops_wf (o : FileOperations) : Prop := NoDup (fo_read o) /\ NoDup (fo_written o) /\ NoDup (fo_edited o).
Lemma extract_wf o ms : ops_wf o -> ops_wf (foldl extractFileOpsFromMessage o ms).
Proof.
  revert o. induction ms as [|m ms IH]; intros o Ho; [done|]. simpl. apply IH. clear IH.
  destruct m as [|m| | | | | |]; try done. simpl. generalize (am_content m) as blocks. intros blocks. revert o Ho.
  induction blocks as [|b blocks IH]; intros o Ho; [done|]. simpl. apply IH.
  unfold extract_block. destruct b; try done. destruct (path_argument _); [|done]. destruct Ho as (? & ? & ?).
  repeat case_match; split_and!; simpl; auto using set_add_NoDup.
Qed.

(** ** The lists *)

Lemma computeFileLists_spec o :
  ops_wf o ->
  let '(readFiles, modifiedFiles) := computeFileLists o in
  (forall f, f ∈ modifiedFiles <-> f ∈ fo_written o \/ f ∈ fo_edited o) /\
  (forall f, f ∈ readFiles <-> f ∈ fo_read o /\ f ∉ modifiedFiles) /\
  StronglySorted string_le readFiles /\ StronglySorted string_le modifiedFiles /\
  NoDup readFiles /\ NoDup modifiedFiles.
Proof.
  intros (Hr & _ & _). unfold computeFileLists.
  set (modified := set_add_all _ _).
  assert (Hm : forall f, f ∈ modified <-> f ∈ fo_written o \/ f ∈ fo_edited o).
  { intros f. unfold modified. rewrite !elem_of_set_add_all. set_solver. }
  pose proof (merge_sort_Permutation string_le modified) as Pm.
  pose proof (merge_sort_Permutation string_le (keep (fun f => negb (bool_decide (f ∈ modified))) (fo_read o))) as Pr.
  split_and!.
  - intros f. by rewrite Pm.
  - intros f. rewrite Pr, Pm, elem_of_keep, negb_true_iff, bool_decide_eq_false. done.
  - by apply (StronglySorted_merge_sort string_le).
  - by apply (StronglySorted_merge_sort string_le).
  - rewrite Pr. by apply NoDup_keep.
  - rewrite Pm. apply set_add_all_NoDup, set_add_all_NoDup, NoDup_nil_2.
Qed.

(** ** The files of a prepared compaction *)

(** What the newest compaction of the path stored. *)
Definition stored_files (path : list Entry) (field : string) : list string :=
  match find_compaction (length path) path with
  | Some (c, _) => match e_body c with
                   | CompactionEntry _ _ _ (Some details) _ => file_names details field
                   | _ => []
                   end
  | None => []
  end.

Lemma extractFileOperations_eq ms path :
  extractFileOperations ms path (snd <$> find_compaction (length path) path) =
  foldl extractFileOpsFromMessage
    {| fo_read := set_add_all (stored_files path "readFiles") []; fo_written := [];
       fo_edited := set_add_all (stored_files path "modifiedFiles") [] |} ms.
Proof.
  unfold extractFileOperations, stored_files. f_equal.
  pose proof (find_compaction_spec (length path) path ltac:(lia)) as H.
  destruct (find_compaction _ _) as [[c i]|]; [|done]. destruct H as (_ & Hc & _). simpl. rewrite Hc.
  destruct (e_body c) as [| | | |? ? ? details ?| |]; try done. by destruct details.
Qed.

(** The file lists stored with a compaction are complete and exact: a file is listed
    as modified when the previous compaction listed it or a summarized tool call wrote or
    edited it, as read when the previous compaction listed it or a summarized call read
    it and it is not listed as modified; both lists are sorted without repetitions. *)
Theorem compaction_files_spec path settings p :
  prepareCompaction path settings = Ok (Some p) ->
  let summarized := messagesToSummarize p ++ turnPrefixMessages p in
  let '(readFiles, modifiedFiles) := computeFileLists (fileOps p) in
  (forall f, f ∈ modifiedFiles <->
     f ∈ stored_files path "modifiedFiles" \/ touches "write" summarized f \/ touches "edit" summarized f) /\
  (forall f, f ∈ readFiles <->
     (f ∈ stored_files path "readFiles" \/ touches "read" summarized f) /\ f ∉ modifiedFiles) /\
  StronglySorted string_le readFiles /\ StronglySorted string_le modifiedFiles /\
  NoDup readFiles /\ NoDup modifiedFiles.
Proof.
  intros Hp summarized.
  assert (Hops : fileOps p = foldl extractFileOpsFromMessage
    {| fo_read := set_add_all (stored_files path "readFiles") []; fo_written := [];
       fo_edited := set_add_all (stored_files path "modifiedFiles") [] |} summarized).
  { revert Hp. unfold summarized, prepareCompaction. destruct (last path) as [e|]; [|done].
    destruct (is_type TCompaction e); [done|]. intros [= <-].
    cbn [fileOps messagesToSummarize turnPrefixMessages]. rewrite extractFileOperations_eq, foldl_app.
    by destruct (isSplitTurn _). }
  assert (Hwf : ops_wf (fileOps p)).
  { rewrite Hops. apply extract_wf. split_and!; simpl; try apply set_add_all_NoDup; apply NoDup_nil_2. }
  pose proof (computeFileLists_spec _ Hwf) as H. destruct (computeFileLists (fileOps p)) as [rs ws].
  destruct H as (Hm & Hr & H). split_and!; [intros f|intros f|apply H..].
  - rewrite Hm. pose proof (extract_messages_spec "write" f) as Hw. pose proof (extract_messages_spec "edit" f) as He.
    unfold op_set in *. simpl in Hw, He. rewrite Hops, Hw, He by (unfold file_tool; set_solver). simpl.
    rewrite elem_of_set_add_all. set_solver.
  - rewrite Hr. pose proof (extract_messages_spec "read" f) as Hd. unfold op_set in *. simpl in Hd.
    rewrite Hops, Hd by (unfold file_tool; set_solver). simpl. rewrite elem_of_set_add_all. set_solver.
Qed.
