(* ===== verification/Retry.v ===== *)
(** * Retrying assistant calls (packages/ai/src/utils/retry.ts)

    The classification of provider failures by regular expressions, and the bounded
    retry loop with capped exponential backoff.  A regular expression of the source is a
    value of [regex], matched by backtracking as the language specifies; all of them are
    case-insensitive and their letters are ASCII.  The theorems about the loop follow. *)
From Stdlib Require Import SpecFloat.
From S2P Require Import Prelude JsNumber SessionTypes JsText JsonNumber JsonText Reducer.

(** ** Regular expressions *)

Inductive regex :=
| RClass (p : Z -> bool)
| REmpty
| RSeq (a b : regex)
| RAlt (a b : regex)
| ROpt (a : regex)
| RStar (p : Z -> bool)
| RStart
| REnd
| RBoundary
| RLook (a : regex)
| RGroup (n : nat) (a : regex).

Definition captures := jsmap nat jsstring.

(** Upper case of an ASCII letter: no other unit folds to one. *)
Definition fold_case (u : Z) : Z := if (97 <=? u) && (u <=? 122) then u - 32 else u.
Definition is_word (u : Z) : bool :=
  is_dec u || ((65 <=? u) && (u <=? 90)) || ((97 <=? u) && (u <=? 122)) || (u =? 95).
(** [\s], and what [String.prototype.trim] removes. *)
Definition is_space (u : Z) : bool :=
  ((9 <=? u) && (u <=? 13)) || (u =? 32) || (u =? 160) || (u =? 5760) || ((8192 <=? u) && (u <=? 8202))
  || (u =? 8232) || (u =? 8233) || (u =? 8239) || (u =? 8287) || (u =? 12288) || (u =? 65279).
Definition not_newline (u : Z) : bool :=
  negb ((u =? 10) || (u =? 13) || (u =? 8232) || (u =? 8233)).

Definition word_at (u : option Z) : bool := match u with Some u => is_word u | None => false end.

(** The continuation gets the unit before, the rest of the input and the captures. *)
Definition matcher := option Z -> jsstring -> captures -> option captures.

Fixpoint star (p : Z -> bool) (prev : option Z) (rest : jsstring) (caps : captures) (k : matcher) : option captures :=
  match rest with
  | u :: rest' =>
      if p u then match star p (Some u) rest' caps k with
                  | Some r => Some r
                  | None => k prev rest caps
                  end
      else k prev rest caps
  | [] => k prev rest caps
  end.
Fixpoint match_here (r : regex) (prev : option Z) (rest : jsstring) (caps : captures) (k : matcher)
  : option captures :=
  match r with
  | RClass p => match rest with
                | u :: rest' => if p u then k (Some u) rest' caps else None
                | [] => None
                end
  | REmpty => k prev rest caps
  | RSeq a b => match_here a prev rest caps (fun prev rest caps => match_here b prev rest caps k)
  | RAlt a b => match match_here a prev rest caps k with
                | Some c => Some c
                | None => match_here b prev rest caps k
                end
  | ROpt a => match match_here a prev rest caps k with
              | Some c => Some c
              | None => k prev rest caps
              end
  | RStar p => star p prev rest caps k
  | RStart => match prev with None => k prev rest caps | Some _ => None end
  | REnd => match rest with [] => k prev rest caps | _ => None end
  | RBoundary => if xorb (word_at prev) (word_at (head rest)) then k prev rest caps else None
  | RLook a => match match_here a prev rest caps (fun _ _ caps => Some caps) with
               | Some caps => k prev rest caps
               | None => None
               end
  | RGroup n a =>
      match_here a prev rest caps (fun prev' rest' caps' =>
        k prev' rest' (jm_set n (take (length rest - length rest') rest) caps'))
  end.
Fixpoint search (r : regex) (prev : option Z) (s : jsstring) : option captures :=
  match match_here r prev s [] (fun _ _ caps => Some caps) with
  | Some caps => Some caps
  | None => match s with u :: s' => search r (Some u) s' | [] => None end
  end.
(** [r.exec(s)] and [r.test(s)] *)
Definition regex_exec (r : regex) (s : jsstring) : option captures := search r None s.
Definition regex_test (r : regex) (s : jsstring) : bool := bool_decide (is_Some (regex_exec r s)).

Definition unit_class (c : Z) : regex := RClass (fun u => fold_case u =? fold_case c).
Definition sq (rs : list regex) : regex := foldr RSeq REmpty rs.
Definition text (s : string) : regex := sq (unit_class <$> js s).
Fixpoint any_of (rs : list regex) : regex :=
  match rs with
  | [] => RClass (fun _ => false)
  | [r] => r
  | r :: rs' => RAlt r (any_of rs')
  end.
(** [.?], [\d], [\s*], [\s+], [[45]\d{2}] *)
Definition dot_opt : regex := ROpt (RClass not_newline).
Definition digit : regex := RClass is_dec.
Definition spaces : regex := RStar is_space.
Definition spaces1 : regex := RSeq (RClass is_space) (RStar is_space).
Definition error_code : regex := sq [RClass (fun u => (u =? 52) || (u =? 53)); digit; digit].

(** ** The patterns *)

Definition buildProviderErrorPattern (patterns : list regex) : regex := any_of patterns.

Definition PERMANENT_PROVIDER_ERROR_PATTERN : regex :=
  RAlt (sq [RBoundary;
            any_of (text <$> ["invalid_request_error"; "invalid_function_parameters"; "invalid_value";
                              "authentication_error"; "permission_error"; "not_found_error"]);
            RBoundary])
       (sq [RStart; text "Validation error:"]).
Definition TRANSIENT_PROVIDER_ERROR_TYPE_PATTERN : regex :=
  sq [RStart;
      any_of (text <$> ["overloaded_error"; "server_busy"; "rate_limit_error"; "server_error"; "internal_error";
                        "internal_server_error"; "service_unavailable"; "ResourceExhausted"]);
      REnd].
Definition NON_RETRYABLE_PROVIDER_LIMIT_ERROR_PATTERN : regex :=
  buildProviderErrorPattern (text <$>
    ["GoUsageLimitError"; "FreeUsageLimitError"; "Monthly usage limit reached"; "available balance";
     "insufficient_quota"; "out of budget"; "quota exceeded"; "billing"]).
Definition NETWORK_PROVIDER_ERROR_PATTERN : regex :=
  buildProviderErrorPattern
    [sq [text "network"; dot_opt; text "error"];
     sq [text "connection"; dot_opt; text "error"];
     sq [text "connection"; dot_opt; text "refused"];
     sq [text "connection"; dot_opt; text "lost"];
     text "other side closed"; text "fetch failed"; text "getaddrinfo"; text "ENOTFOUND"; text "EAI_AGAIN";
     text "ECONNRESET";
     sq [text "upstream"; dot_opt; text "connect"];
     text "reset before headers"; text "socket hang up"; text "socket connection was closed";
     sq [text "time"; ROpt (text "d"); text " out"];
     sq [RBoundary;
         any_of [text "request"; sq [text "connect"; ROpt (text "ion")]; text "socket"; text "fetch"; text "stream";
                 text "read"];
         text " timeout"; RBoundary];
     sq [RStart; text "timeout"; any_of [text " error"; text " exceeded"; REnd]];
     text "operation was aborted due to timeout";
     sq [text "websocket"; dot_opt; text "closed"];
     sq [text "websocket"; dot_opt; text "error"];
     text "ended without"; text "stream ended before message_stop";
     text "stream ended before a terminal response event";
     text "connection closed by proxy server before the response completed";
     text "http2 request did not get a response"; text "pending stream has been canceled"].
Definition RETRYABLE_PROVIDER_ERROR_PATTERN : regex :=
  buildProviderErrorPattern
    [text "overloaded"; text "server_busy"; text "servers are currently busy";
     sq [text "rate"; dot_opt; text "limit"];
     text "too many requests";
     sq [text "service"; dot_opt; text "unavailable"];
     sq [text "server"; dot_opt; text "error"];
     sq [text "internal"; dot_opt; text "error"];
     sq [text "provider"; dot_opt; text "returned"; dot_opt; text "error"];
     text "exceeded request buffer limit while retrying upstream"; text "terminated"; text "retry delay";
     text "you can retry your request"; text "try your request again"; text "please retry your request";
     text "ResourceExhausted"].

(** The three groups hold the status of the three display forms
    (extractFormattedProviderErrorStatus of utils/error-body.ts). *)
Definition FORMATTED_STATUS_PATTERN : regex :=
  sq [RStart;
      ROpt (sq [text "Error:"; spaces]);
      any_of
        [sq [any_of [text "OpenAI API error"; text "Azure OpenAI API error"]; text " ("; RGroup 1 error_code; text "):"];
         sq [text "HTTP"; ROpt (sq [text "/"; digit; ROpt (sq [text "."; digit])]);
             ROpt (sq [spaces1; any_of [sq [text "status"; ROpt (text " code")]; text "error"]]);
             spaces1; RGroup 2 error_code; RBoundary];
         sq [RGroup 3 error_code;
             RLook (any_of
               [sq [text ":"; spaces];
                sq [spaces1; RClass (fun u => (u =? 123) || (u =? 91))];
                sq [spaces1;
                    any_of (text <$>
                      ["status code"; "bad request"; "unauthorized"; "forbidden"; "not found"; "request timeout";
                       "conflict"; "unprocessable entity"; "too many requests"; "internal server error";
                       "not implemented"; "bad gateway"; "service unavailable"; "gateway timeout"; "origin timeout"]);
                    RBoundary]])]]].

(** ** Classification *)

Fixpoint skip_space (s : jsstring) : jsstring :=
  match s with u :: s' => if is_space u then skip_space s' else s | [] => [] end.
Definition trim (s : jsstring) : jsstring := reverse (skip_space (reverse (skip_space s))).

Definition decimal (s : jsstring) : Z := foldl (fun n u => 10 * n + (u - 48)) 0 s.
Definition extractFormattedProviderErrorStatus (message : jsstring) : option Z :=
  match regex_exec FORMATTED_STATUS_PATTERN (trim message) with
  | Some caps =>
      let group n := jm_get n caps in
      decimal <$> match group 1%nat with
                  | Some s => Some s
                  | None => match group 2%nat with Some s => Some s | None => group 3%nat end
                  end
  | None => None
  end.

Definition getHttpErrorStatus (value : option json) : option Z :=
  match value with
  | Some (JsonNumber n) => match num_to_Z n with
                           | Some v => if (400 <=? v) && (v <=? 599) then Some v else None
                           | None => None
                           end
  | _ => None
  end.

Record ProviderErrorDetails := {
  pd_status : option Z; pd_text : jsstring; pd_errorType : option jsstring; pd_providerBody : bool }.
Definition plain_details (text : jsstring) (status : option Z) : ProviderErrorDetails :=
  {| pd_status := status; pd_text := text; pd_errorType := None; pd_providerBody := false |}.

Definition is_string_json (v : option json) : option jsstring :=
  match v with Some (JsonString s) => Some (js s) | _ => None end.
(** The first diagnostic of the type; [diagnostics] is an array of objects. *)
Definition bedrock_status (diagnostics : option json) : option json :=
  match diagnostics with
  | Some (JsonArray items) =>
      match list_find (fun d => is_string_json (prop d "type") = Some (js "bedrock_response_failure")) items with
      | Some (_, d) => prop d "details" ≫= fun details => prop details "status"
      | None => None
      end
  | _ => None
  end.

Definition opens_json (s : jsstring) : bool :=
  match s with u :: _ => (u =? 91) || (u =? 123) || (u =? 34) | [] => false end.
Definition find_string (p : jsstring -> bool) (l : list jsstring) : option jsstring :=
  snd <$> list_find (fun s => p s = true) l.

Definition getProviderErrorDetails (message : AssistantMessage) (errorMessage : string) : ProviderErrorDetails :=
  let text := trim (js errorMessage) in
  let status := match getHttpErrorStatus (bedrock_status (am_diagnostics message)) with
                | Some s => Some s
                | None => extractFormattedProviderErrorStatus text
                end in
  if bool_decide (is_Some status) then plain_details text status
  else if negb (opens_json text) then plain_details text None
  else match JSON_parse text with
       | Some (JsonString parsed) => plain_details (js parsed) (extractFormattedProviderErrorStatus (js parsed))
       | Some (JsonObject _ as envelope) =>
           let error := match prop envelope "error" with
                        | Some (JsonObject _ as e) | Some (JsonArray _ as e) => e
                        | _ => envelope
                        end in
           let types := omap is_string_json [prop error "type"; prop error "code"] in
           {| pd_status := None;
              pd_text := default [] (is_string_json (prop error "message"));
              pd_errorType := match find_string (regex_test PERMANENT_PROVIDER_ERROR_PATTERN) types with
                              | Some t => Some t
                              | None => find_string (regex_test TRANSIENT_PROVIDER_ERROR_TYPE_PATTERN) types
                              end;
              pd_providerBody := true |}
       | _ => plain_details [] None
       end.

(** [stopReason === "error" && typeof errorMessage === "string"], and no account limit. *)
Definition failure_text (message : AssistantMessage) : option string :=
  match am_errorMessage message with
  | Some e => if bool_decide (am_stopReason message = StopError)
                 && negb (regex_test NON_RETRYABLE_PROVIDER_LIMIT_ERROR_PATTERN (js e))
              then Some e else None
  | None => None
  end.
Definition is_permanent (d : ProviderErrorDetails) : bool :=
  regex_test PERMANENT_PROVIDER_ERROR_PATTERN (default [] (pd_errorType d))
  || regex_test PERMANENT_PROVIDER_ERROR_PATTERN (pd_text d).

Definition isRetryableAssistantError (message : AssistantMessage) : bool :=
  match failure_text message with
  | None => false
  | Some e =>
      let d := getProviderErrorDetails message e in
      match pd_status d with
      | Some status => (status =? 408) || (status =? 409) || (status =? 429) || (500 <=? status)
      | None =>
          if is_permanent d then false
          else regex_test TRANSIENT_PROVIDER_ERROR_TYPE_PATTERN (default [] (pd_errorType d))
               || regex_test RETRYABLE_PROVIDER_ERROR_PATTERN (pd_text d)
               || (negb (pd_providerBody d) && regex_test NETWORK_PROVIDER_ERROR_PATTERN (pd_text d))
      end
  end.
Definition isNetworkAssistantError (message : AssistantMessage) : bool :=
  match failure_text message with
  | None => false
  | Some e =>
      let d := getProviderErrorDetails message e in
      if bool_decide (is_Some (pd_status d)) || pd_providerBody d || is_permanent d then false
      else regex_test NETWORK_PROVIDER_ERROR_PATTERN (pd_text d)
  end.

(** ** The retry loop *)

Record RetryPolicy := { rp_enabled : bool; rp_maxRetries : number; rp_baseDelayMs : number }.

(** What an awaited call may throw; [OutOfFuel] is the bound on iterations. *)
Inductive exn (E : Type) := OutOfFuel | Thrown (e : E).
Arguments OutOfFuel {E}. Arguments Thrown {E} e.

(** An absent callback does nothing. *)
Record RetryCallbacks (W E : Type) := {
  onRetryScheduled : Z -> number -> number -> string -> M W (exn E) unit;
  onRetryAttemptStart : M W (exn E) unit;
  onRetryFinished : bool -> Z -> option string -> M W (exn E) unit }.
Arguments onRetryScheduled {W E}. Arguments onRetryAttemptStart {W E}. Arguments onRetryFinished {W E}.

Definition aborted_copy (response : AssistantMessage) : AssistantMessage :=
  {| am_content := am_content response; am_api := am_api response; am_provider := am_provider response;
     am_model := am_model response; am_responseModel := am_responseModel response;
     am_responseId := am_responseId response; am_serviceTier := am_serviceTier response;
     am_diagnostics := am_diagnostics response; am_usage := am_usage response; am_stopReason := StopAborted;
     am_isResponseCheckpoint := am_isResponseCheckpoint response; am_deferred := am_deferred response;
     am_errorMessage := None; am_rawStopReason := am_rawStopReason response;
     am_endTurn := am_endTurn response; am_timestamp := am_timestamp response |}.

(** The delay before a retry: [min(base * 2 ** min(attempt - 1, 30), max(base, 30000))]. *)
Definition retry_delay (baseDelayMs : number) (attempt : Z) : number :=
  let exponent := Z.min (attempt - 1) 30 in
  num_min (num_mul baseDelayMs (num_of_Z (2 ^ exponent))) (num_max baseDelayMs (num_of_Z 30000)).

Section retry.
Context {W E : Type}.

(** The call that is retried, and [sleep]: whether the signal aborted it. *)
Variable produce : M W (exn E) AssistantMessage.
Variable sleep : number -> M W (exn E) bool.

Definition finished (callbacks : RetryCallbacks W E) (lastRetry : option Z) (success : bool) (finalError : option string)
  : M W (exn E) unit :=
  match lastRetry with
  | Some attempt => onRetryFinished callbacks success attempt finalError
  | None => mret tt
  end.

Fixpoint retry_loop (fuel : nat) (policy : option RetryPolicy) (callbacks : RetryCallbacks W E)
    (attempt : Z) (lastRetry : option Z) : M W (exn E) AssistantMessage :=
  match fuel with
  | O => throw OutOfFuel
  | S fuel' =>
      response ← produce;
      if bool_decide (am_stopReason response = StopAborted) then
        finished callbacks lastRetry false None;; mret response
      else if negb (bool_decide (am_stopReason response = StopError)) then
        finished callbacks lastRetry true None;; mret response
      else
        match policy with
        | Some p =>
            if negb (rp_enabled p) || negb (isRetryableAssistantError response)
               || num_leb (rp_maxRetries p) (num_of_Z attempt) then
              finished callbacks lastRetry false (am_errorMessage response);; mret response
            else
              let attempt := attempt + 1 in
              let errorMessage := default "Unknown error" (truthy (am_errorMessage response)) in
              let delayMs := retry_delay (rp_baseDelayMs p) attempt in
              onRetryScheduled callbacks attempt (rp_maxRetries p) delayMs errorMessage;;
              aborted ← sleep delayMs;
              if (aborted : bool) then
                onRetryFinished callbacks false attempt (Some errorMessage);; mret (aborted_copy response)
              else
                onRetryAttemptStart callbacks;;
                retry_loop fuel' policy callbacks attempt (Some attempt)
        | None => finished callbacks lastRetry false (am_errorMessage response);; mret response
        end
  end.
Definition retryAssistantCall (fuel : nat) (policy : option RetryPolicy) (callbacks : RetryCallbacks W E)
  : M W (exn E) AssistantMessage :=
  retry_loop fuel policy callbacks 0 None.
End retry.

(** * The retry loop is bounded, and its classification coherent *)

(** ** A scripted world

    The calls answer [responses 0], [responses 1], ...; the sleeps are aborted as
    [aborts] says; the log holds what the callbacks were given and what was slept. *)
Inductive RetryEvent :=
| Scheduled (attempt : Z) (maxAttempts delayMs : number) (errorMessage : string)
| Slept (delayMs : number)
| AttemptStart
| Finished (success : bool) (attempt : Z) (finalError : option string).
Record Script := { sc_calls : nat; sc_sleeps : nat; sc_log : list RetryEvent }.
Definition new_script : Script := {| sc_calls := 0; sc_sleeps := 0; sc_log := [] |}.

Definition script_log (e : RetryEvent) : M Script (exn Empty_set) unit :=
  fun s => ({| sc_calls := sc_calls s; sc_sleeps := sc_sleeps s; sc_log := sc_log s ++ [e] |}, Ok tt).
Definition script_callbacks : RetryCallbacks Script Empty_set := {|
  onRetryScheduled := fun a m d e => script_log (Scheduled a m d e);
  onRetryAttemptStart := script_log AttemptStart;
  onRetryFinished := fun b a e => script_log (Finished b a e) |}.

Section script.
Context (responses : nat -> AssistantMessage) (aborts : nat -> bool).

Definition script_produce : M Script (exn Empty_set) AssistantMessage := fun s =>
  ({| sc_calls := S (sc_calls s); sc_sleeps := sc_sleeps s; sc_log := sc_log s |}, Ok (responses (sc_calls s))).
Definition script_sleep (delayMs : number) : M Script (exn Empty_set) bool := fun s =>
  ({| sc_calls := sc_calls s; sc_sleeps := S (sc_sleeps s); sc_log := sc_log s ++ [Slept delayMs] |},
   Ok (aborts (sc_sleeps s))).
Definition run_script (fuel : nat) (policy : option RetryPolicy) : Script * result (exn Empty_set) AssistantMessage :=
  retryAssistantCall script_produce script_sleep fuel policy script_callbacks new_script.

(** The retries the policy allows. *)
Definition retry_budget (policy : option RetryPolicy) : Z :=
  match policy with
  | Some p => if rp_enabled p then Z.max 0 (default 0 (num_to_Z (rp_maxRetries p))) else 0
  | None => 0
  end.
(** An enabled policy has an integer number of retries. *)
Definition policy_ok (policy : option RetryPolicy) : Prop :=
  match policy with
  | Some p => rp_enabled p = true ->
      num_wf (rp_maxRetries p) = true /\ num_is_safe_integer (rp_maxRetries p) = true
  | None => True
  end.

(** A failure that is worth a retry. *)
Definition transient (m : AssistantMessage) : Prop :=
  am_stopReason m = StopError /\ isRetryableAssistantError m = true.
Definition scheduled_message (m : AssistantMessage) : string := default "Unknown error" (truthy (am_errorMessage m)).

Section with_policy.
Context (p : RetryPolicy).
Definition schedule_events (i : nat) : list RetryEvent :=
  let delayMs := retry_delay (rp_baseDelayMs p) (Z.of_nat i + 1) in
  [Scheduled (Z.of_nat i + 1) (rp_maxRetries p) delayMs (scheduled_message (responses i)); Slept delayMs].
Definition retry_events (n : nat) : list RetryEvent :=
  concat ((fun i => schedule_events i ++ [AttemptStart]) <$> seq 0 n).
End with_policy.

Definition finish_events (n : nat) (success : bool) (finalError : option string) : list RetryEvent :=
  match n with O => [] | _ => [Finished success (Z.of_nat n) finalError] end.
Definition final_error (m : AssistantMessage) : option string :=
  match am_stopReason m with StopError => am_errorMessage m | _ => None end.
Definition succeeded (m : AssistantMessage) : bool :=
  negb (bool_decide (am_stopReason m = StopError)) && negb (bool_decide (am_stopReason m = StopAborted)).

(** The call ends with its [n]-th retry. *)
Definition ends_after (policy : option RetryPolicy) (n : nat) (out : Script * result (exn Empty_set) AssistantMessage) : Prop :=
  exists response, out.2 = Ok response /\ sc_calls out.1 = S n /\ Z.of_nat n <= retry_budget policy /\
  (forall i, (i < n)%nat -> transient (responses i) /\ aborts i = false) /\
  ((response = responses n /\ (transient (responses n) -> Z.of_nat n = retry_budget policy) /\
    sc_log out.1 = match policy with Some p => retry_events p n | None => [] end
      ++ finish_events n (succeeded response) (final_error response)) \/
   (exists p, policy = Some p /\ transient (responses n) /\ Z.of_nat n < retry_budget policy /\ aborts n = true /\
    response = aborted_copy (responses n) /\
    sc_log out.1 = retry_events p n ++ schedule_events p n
      ++ [Finished false (Z.of_nat n + 1) (Some (scheduled_message (responses n)))])).

Lemma retry_events_S p n : retry_events p (S n) = retry_events p n ++ schedule_events p n ++ [AttemptStart].
Proof. unfold retry_events. by rewrite seq_S, fmap_app, concat_app. Qed.

Lemma budget_reached p n :
  policy_ok (Some p) -> Z.of_nat n <= retry_budget (Some p) -> retry_budget (Some p) <= MAX_SAFE_INTEGER ->
  negb (rp_enabled p) || num_leb (rp_maxRetries p) (num_of_Z (Z.of_nat n)) =
  bool_decide (Z.of_nat n = retry_budget (Some p)).
Proof.
  unfold policy_ok, retry_budget, num_is_safe_integer. destruct (rp_enabled p); intros Hok Hn Hb; simpl.
  - destruct (Hok eq_refl) as [Hwf Hsafe]. destruct (num_to_Z (rp_maxRetries p)) as [k|] eqn:Hk; [|done].
    apply Z.leb_le in Hsafe. simpl in *. rewrite (num_leb_nat _ k) by (done || lia).
    case_bool_decide; [apply Z.leb_le|apply Z.leb_gt]; lia.
  - symmetry. apply bool_decide_eq_true. lia.
Qed.

(** The loop after [n] retries. *)
Definition after_retries (policy : option RetryPolicy) (n : nat) : Script :=
  {| sc_calls := n; sc_sleeps := n; sc_log := match policy with Some p => retry_events p n | None => [] end |}.
Definition last_retry (n : nat) : option Z := match n with O => None | _ => Some (Z.of_nat n) end.

Lemma finished_script n success e s :
  finished script_callbacks (last_retry n) success e s =
  ({| sc_calls := sc_calls s; sc_sleeps := sc_sleeps s; sc_log := sc_log s ++ finish_events n success e |}, Ok tt).
Proof. destruct n; [|done]. simpl. rewrite app_nil_r. by destruct s. Qed.

Lemma retry_loop_spec policy n fuel :
  policy_ok policy -> retry_budget policy <= MAX_SAFE_INTEGER ->
  (forall i, (i < n)%nat -> transient (responses i) /\ aborts i = false) ->
  Z.of_nat n <= retry_budget policy -> retry_budget policy < Z.of_nat (n + fuel) ->
  exists n', ends_after policy n'
    (retry_loop script_produce script_sleep fuel policy script_callbacks (Z.of_nat n) (last_retry n)
       (after_retries policy n)).
Proof.
  intros Hok Hsafe. revert n. induction fuel as [|fuel IH]; intros n Hbefore Hn Hfuel; [lia|].
  cbn [retry_loop]. unfold mbind, M_bind, script_produce at 1. cbn [after_retries sc_calls sc_sleeps sc_log].
  set (m := responses n).
  assert (Hend : forall success e, success = succeeded m -> e = final_error m ->
    (transient m -> Z.of_nat n = retry_budget policy) ->
    exists n', ends_after policy n'
      ({| sc_calls := S n; sc_sleeps := n;
          sc_log := match policy with Some p => retry_events p n | None => [] end ++ finish_events n success e |}, Ok m)).
  { intros success e -> -> Hlast. exists n, m. split_and!; [done..|]. left. by split_and!. }
  case_bool_decide as Ha.
  { rewrite finished_script. cbn. apply Hend; unfold succeeded, final_error, transient; rewrite Ha; [done|done|].
    by intros [? _]. }
  case_bool_decide as He; cbn [negb].
  2: { rewrite finished_script. cbn. apply Hend; unfold succeeded, final_error, transient.
       - by rewrite !bool_decide_eq_false_2.
       - by destruct (am_stopReason m).
       - by intros [? _]. }
  destruct policy as [p|].
  2: { rewrite finished_script. cbn. apply Hend; unfold succeeded, final_error; [by rewrite He|by rewrite He|].
       intros _. cbn in *. lia. }
  pose proof (budget_reached p n Hok Hn Hsafe) as Hb.
  destruct (isRetryableAssistantError m) eqn:Hr; cbn [negb].
  2: { rewrite orb_true_r. cbn [orb]. rewrite finished_script. cbn.
       apply Hend; unfold succeeded, final_error, transient; [by rewrite He|by rewrite He|]. rewrite Hr. by intros [_ ?]. }
  rewrite orb_false_r, Hb. case_bool_decide as Hlast.
  { rewrite finished_script. cbn. apply Hend; unfold succeeded, final_error; [by rewrite He|by rewrite He|done]. }
  cbn [onRetryScheduled onRetryAttemptStart onRetryFinished script_callbacks script_log].
  unfold script_log, script_sleep at 1. cbn [sc_calls sc_sleeps sc_log].
  destruct (aborts n) eqn:Hab.
  - assert (Z.of_nat n < retry_budget (Some p)) by lia. exists n, (aborted_copy m). cbn.
    split_and!; [done..|]. right. exists p. split_and!; try done. by rewrite <-!(assoc_L (++)).
  - specialize (IH (S n)). replace (Z.of_nat n + 1) with (Z.of_nat (S n)) by lia.
    assert (Hafter : after_retries (Some p) (S n) =
      {| sc_calls := S n; sc_sleeps := S n;
         sc_log := ((retry_events p n ++ [Scheduled (Z.of_nat (S n)) (rp_maxRetries p)
           (retry_delay (rp_baseDelayMs p) (Z.of_nat (S n))) (scheduled_message m)])
           ++ [Slept (retry_delay (rp_baseDelayMs p) (Z.of_nat (S n)))]) ++ [AttemptStart] |}).
    { unfold after_retries. rewrite retry_events_S, <-!(assoc_L (++)). f_equal. unfold schedule_events.
      replace (Z.of_nat n + 1) with (Z.of_nat (S n)) by lia. done. }
    rewrite Hafter in IH. apply IH; [|lia|lia].
    intros i Hi. destruct (decide (i = n)) as [->|]; [by split|apply Hbefore; lia].
Qed.
End script.

(** ** Delays *)

Lemma SFcompare_swap a b : SFcompare b a = CompOpp <$> SFcompare a b.
Proof.
  assert (Hswap : forall p q, Pos.compare_cont Eq q p = CompOpp (Pos.compare_cont Eq p q))
    by (intros p q; apply Pos.compare_antisym).
  destruct a as [sa|sa| |sa ma ea], b as [sb|sb| |sb mb eb]; simpl; try done; try by destruct sa; try destruct sb.
  all: destruct sa, sb; simpl; try done; rewrite (Z.compare_antisym eb ea); destruct (eb ?= ea); simpl; try done;
    by rewrite (Hswap mb ma); destruct (Pos.compare_cont Eq mb ma).
Qed.
Lemma num_ltb_asym a b : num_ltb a b = true -> num_ltb b a = false.
Proof.
  unfold num_ltb, SFltb. rewrite (SFcompare_swap a b). by destruct (SFcompare a b) as [[]|].
Qed.
Lemma num_ltb_irrefl a : num_ltb a a = false.
Proof. destruct (num_ltb a a) eqn:H; [|done]. rewrite <-H. by apply num_ltb_asym. Qed.
(** [Math.min] is at most its second argument. *)
Lemma num_min_le a b : num_ltb b (num_min a b) = false.
Proof.
  unfold num_min. destruct (num_is_nan a || num_is_nan b) eqn:Hn; [by destruct b as [[]|[]| |[]]|].
  destruct (num_ltb a b) eqn:Hab; [by apply num_ltb_asym|]. destruct (num_ltb b a) eqn:Hba; [apply num_ltb_irrefl|].
  by destruct (num_is_neg_zero a); [|apply num_ltb_irrefl].
Qed.

(** C33. A retried call always ends, within the policy's budget: whatever the provider
    answers and wherever a sleep is aborted, some [n] at most the number of allowed
    retries is such that the call was made [n + 1] times; all earlier answers were
    transient failures, slept on without an abort; and the answer returned is the last one,
    which is a transient failure only when the budget is exhausted, or its aborted copy
    when the sleep after it was aborted.  The callbacks saw exactly these retries, each
    delay slept is the one announced, and no delay exceeds 30 seconds, or the base delay
    when that is larger. *)
Theorem retryAssistantCall_spec responses aborts policy :
  policy_ok policy ->
  eventually (fun fuel => exists n, ends_after responses aborts policy n (run_script responses aborts fuel policy)) /\
  forall baseDelayMs attempt,
    num_ltb (num_max baseDelayMs (num_of_Z 30000)) (retry_delay baseDelayMs attempt) = false.
Proof.
  intros Hok. split; [|intros b a; apply num_min_le].
  exists (S (Z.to_nat (retry_budget policy))). intros fuel Hfuel.
  assert (0 <= retry_budget policy <= MAX_SAFE_INTEGER).
  { unfold retry_budget, policy_ok, num_is_safe_integer in *. destruct policy as [p|]; [|unfold MAX_SAFE_INTEGER; lia].
    destruct (rp_enabled p); [|unfold MAX_SAFE_INTEGER; lia]. destruct (Hok eq_refl) as [_ Hs].
    destruct (num_to_Z (rp_maxRetries p)); [|done]. apply Z.leb_le in Hs. simpl. lia. }
  pose proof (retry_loop_spec responses aborts policy 0 fuel Hok) as H0.
  assert (Hstart : after_retries responses policy 0 = new_script) by by destruct policy.
  rewrite Hstart in H0. apply H0; [lia|intros; lia|simpl; lia|simpl; lia].
Qed.

(** A network failure is one the retry loop retries. *)
Theorem network_errors_retried message :
  isNetworkAssistantError message = true -> isRetryableAssistantError message = true.
Proof.
  unfold isNetworkAssistantError, isRetryableAssistantError. destruct (failure_text message) as [e|]; [|done].
  destruct (getProviderErrorDetails message e) as [[s|] t ty body]; simpl; [done|].
  destruct (is_permanent _); [by rewrite orb_true_r|]. rewrite orb_false_r. destruct body; [done|]. simpl.
  intros ->. by rewrite orb_true_r.
Qed.

(** ** A concrete run *)

Definition sample_cost : UsageCost :=
  {| cost_input := num_zero; cost_output := num_zero; cost_cacheRead := num_zero; cost_cacheWrite := num_zero;
     cost_total := num_zero |}.
Definition sample_usage : Usage :=
  {| usage_input := num_zero; usage_output := num_zero; usage_cacheRead := num_zero; usage_cacheWrite := num_zero;
     usage_cacheWrite1h := None; usage_reasoning := None; usage_totalTokens := num_zero; usage_cost := sample_cost |}.
Definition sample_answer (stop : StopReason) (error : option string) (blocks : list content) : AssistantMessage :=
  {| am_content := blocks; am_api := "api"; am_provider := "provider"; am_model := "model"; am_responseModel := None;
     am_responseId := None; am_serviceTier := None; am_diagnostics := None; am_usage := sample_usage;
     am_stopReason := stop; am_isResponseCheckpoint := false; am_deferred := None; am_errorMessage := error;
     am_rawStopReason := None; am_endTurn := None; am_timestamp := num_zero |}.

(** Two transient failures, then an answer. *)
Definition sample_responses (i : nat) : AssistantMessage :=
  match i with
  | 0%nat => sample_answer StopError (Some "429 too many requests") []
  | 1%nat => sample_answer StopError (Some "socket hang up") []
  | _ => sample_answer StopStop None [TextContent "done" None]
  end.
Definition sample_policy : RetryPolicy :=
  {| rp_enabled := true; rp_maxRetries := num_of_Z 3; rp_baseDelayMs := num_of_Z 20000 |}.

Lemma retryAssistantCall_spec_witness :
  (exists fuel n, ends_after sample_responses (fun _ => false) (Some sample_policy) n
     (run_script sample_responses (fun _ => false) fuel (Some sample_policy))) /\
  (run_script sample_responses (fun _ => false) 4 (Some sample_policy)).2 = Ok (sample_responses 2) /\
  num_to_Z <$> (retry_delay (num_of_Z 20000) <$> [1; 2; 3]) = [Some 20000; Some 30000; Some 30000].
Proof.
  split; [|split; vm_compute; reflexivity].
  apply eventually_exists, (retryAssistantCall_spec sample_responses (fun _ => false) (Some sample_policy)).
  intros _. split; vm_compute; reflexivity.
Defined.
