(* ===== verification/Summarization.v ===== *)
(** * Generating a compaction (packages/agent/src/harness/compaction/compaction.ts and utils.ts)

    The conversation serialized for the summarizer, the prompts, the one or two model
    calls of a compaction and the result that is stored.  The provider collection, the
    clock, the identifiers and the timer are parameters; the signal is part of their
    world. *)
From S2P Require Import Prelude JsNumber SessionTypes JsText JsonNumber JsonText Reducer ReducerValidation.
From S2P Require Import Context Compaction Retry.

(** ** Serializing a conversation *)

(** packages/ai/src/utils/text.ts *)
Definition text_of (block : content) : option string :=
  match block with TextContent text _ => Some text | _ => None end.
Definition contentText (blocks : list content) (separator : string) : string :=
  String.concat separator (omap text_of blocks).
Definition user_contentText (c : user_content) (separator : string) : string :=
  match c with PlainText s => s | Blocks blocks => contentText blocks separator end.

Definition TOOL_RESULT_MAX_CHARS : Z := 2000.
Definition truncateForSummary (text : string) (maxChars : Z) : string :=
  let units := js text in
  if zlen units <=? maxChars then text
  else of_js (take (Z.to_nat maxChars) units) +:+ nl +:+ nl +:+ "[... " +:+ pretty (zlen units - maxChars)
         +:+ " more characters truncated]".

(** [Object.entries(args)]: the arguments of a call are an object. *)
Definition object_entries (v : json) : list (string * json) :=
  match v with JsonObject props => props | _ => [] end.
Definition serialize_call (call : AgentToolCall) : string :=
  tc_name call +:+ "("
    +:+ String.concat ", " ((fun kv => kv.1 +:+ "=" +:+ of_js (safeJsonStringify kv.2)) <$> object_entries (tc_arguments call))
    +:+ ")".

Definition nonempty {A B} (l : list A) (x : B) : list B := match l with [] => [] | _ => [x] end.
Definition serialize_message (msg : AgentMessage) : list string :=
  match msg with
  | UserMsg c _ =>
      match truthy (Some (user_contentText c "")) with
      | Some content => ["[User]: " +:+ content]
      | None => []
      end
  | AssistantMsg m =>
      let thinkingParts := omap (fun b => match b with ThinkingContent t _ _ => Some t | _ => None end) (am_content m) in
      let toolCalls := serialize_call <$> tool_calls m in
      nonempty thinkingParts ("[Assistant thinking]: " +:+ String.concat nl thinkingParts)
      ++ nonempty (omap text_of (am_content m)) ("[Assistant]: " +:+ contentText (am_content m) nl)
      ++ nonempty toolCalls ("[Assistant tool calls]: " +:+ String.concat "; " toolCalls)
  | ToolResultMsg m =>
      match truthy (Some (contentText (tr_content m) "")) with
      | Some content => ["[Tool result]: " +:+ truncateForSummary content TOOL_RESULT_MAX_CHARS]
      | None => []
      end
  | _ => []
  end.
Definition serializeConversation (messages : list AgentMessage) : string :=
  String.concat (nl +:+ nl) (concat (serialize_message <$> messages)).

Definition tagged (tag body : string) : string := "<" +:+ tag +:+ ">" +:+ nl +:+ body +:+ nl +:+ "</" +:+ tag +:+ ">".
Definition formatFileOperations (readFiles modifiedFiles : list string) : string :=
  let sections := nonempty readFiles (tagged "read-files" (String.concat nl readFiles))
               ++ nonempty modifiedFiles (tagged "modified-files" (String.concat nl modifiedFiles)) in
  match sections with
  | [] => ""
  | _ => nl +:+ nl +:+ String.concat (nl +:+ nl) sections
  end.

(** ** Prompts *)

Definition dq : string := String (Ascii.ascii_of_nat 34) EmptyString.
Definition SUMMARIZATION_SYSTEM_PROMPT : string :=
  "You are a context summarization assistant. Your task is to read a conversation between a user and an AI assistant, then produce a structured summary following the exact format specified.

Do NOT continue the conversation. Do NOT respond to any questions in the conversation. ONLY output the structured summary.".
Definition SUMMARIZATION_PROMPT : string :=
  "The messages above are a conversation to summarize. Create a structured context checkpoint summary that another LLM will use to continue the work.

Use this EXACT format:

## Goal
[What is the user trying to accomplish? Can be multiple items if the session covers different tasks.]

## Constraints & Preferences
- [Any constraints, preferences, or requirements mentioned by user]
- [Or " +:+ dq +:+
  "(none)" +:+ dq +:+
  " if none were mentioned]

## Progress
### Done
- [x] [Completed tasks/changes]

### In Progress
- [ ] [Current work]

### Blocked
- [Issues preventing progress, if any]

## Key Decisions
- **[Decision]**: [Brief rationale]

## Next Steps
1. [Ordered list of what should happen next]

## Critical Context
- [Any data, examples, or references needed to continue]
- [Or " +:+ dq +:+
  "(none)" +:+ dq +:+
  " if not applicable]

Keep each section concise. Preserve exact file paths, function names, and error messages.".
Definition UPDATE_SUMMARIZATION_PROMPT : string :=
  "The messages above are NEW conversation messages to incorporate into the existing summary provided in <previous-summary> tags.

Update the existing structured summary with new information. RULES:
- PRESERVE all existing information from the previous summary
- ADD new progress, decisions, and context from the new messages
- UPDATE the Progress section: move items from " +:+ dq +:+
  "In Progress" +:+ dq +:+
  " to " +:+ dq +:+
  "Done" +:+ dq +:+
  " when completed
- UPDATE " +:+ dq +:+
  "Next Steps" +:+ dq +:+
  " based on what was accomplished
- PRESERVE exact file paths, function names, and error messages
- If something is no longer relevant, you may remove it

Use this EXACT format:

## Goal
[Preserve existing goals, add new ones if the task expanded]

## Constraints & Preferences
- [Preserve existing, add new ones discovered]

## Progress
### Done
- [x] [Include previously done items AND newly completed items]

### In Progress
- [ ] [Current work - update based on progress]

### Blocked
- [Current blockers - remove if resolved]

## Key Decisions
- **[Decision]**: [Brief rationale] (preserve all previous, add new)

## Next Steps
1. [Update based on current state]

## Critical Context
- [Preserve important context, add new if needed]

Keep each section concise. Preserve exact file paths, function names, and error messages.".
Definition TURN_PREFIX_SUMMARIZATION_PROMPT : string :=
  "This is the PREFIX of a turn that was too large to keep. The SUFFIX (recent work) is retained.

Summarize the prefix to provide context for the retained suffix:

## Original Request
[What did the user ask for in this turn?]

## Early Progress
- [Key decisions and work done in the prefix]

## Context for Suffix
- [Information needed to understand the retained recent work]

Be concise. Focus on what's needed to understand the kept suffix.".

(** ** Usage *)

Definition add_optional (a b : option number) : option number :=
  match a, b with
  | None, None => None
  | _, _ => Some (num_add (default num_zero a) (default num_zero b))
  end.
Definition combineUsage (first second : Usage) : Usage :=
  let sum f := num_add (f first) (f second) in
  let cost f := num_add (f (usage_cost first)) (f (usage_cost second)) in
  {| usage_input := sum usage_input; usage_output := sum usage_output; usage_cacheRead := sum usage_cacheRead;
     usage_cacheWrite := sum usage_cacheWrite;
     usage_cacheWrite1h := add_optional (usage_cacheWrite1h first) (usage_cacheWrite1h second);
     usage_reasoning := add_optional (usage_reasoning first) (usage_reasoning second);
     usage_totalTokens := sum usage_totalTokens;
     usage_cost := {| cost_input := cost cost_input; cost_output := cost cost_output;
                      cost_cacheRead := cost cost_cacheRead; cost_cacheWrite := cost cost_cacheWrite;
                      cost_total := cost cost_total |} |}.

(** ** Model calls *)

(** What is read of a [Model], the options set here and a [Context]. *)
Record Model := { m_reasoning : bool; m_maxTokens : number; m_contextWindow : number }.
Record SimpleStreamOptions := {
  so_maxTokens : number; so_reasoning : option string; so_cacheRetention : option string;
  so_sessionId : option string }.
Record LlmContext := { lc_systemPrompt : string; lc_messages : list AgentMessage }.

(** The numbers 0.8 and 0.5. *)
Definition num_0_8 : number := num_of_bits 4605380978949069210.
Definition num_0_5 : number := num_of_bits 4602678819172646912.

Definition summary_max_tokens (share reserve : number) (model : Model) : number :=
  num_min (num_floor (num_mul share reserve))
    (if num_ltb num_zero (m_maxTokens model) then m_maxTokens model else SpecFloat.S754_infinity false).
Definition completion_options (maxTokens : number) (model : Model) (thinkingLevel : option string) : SimpleStreamOptions :=
  {| so_maxTokens := maxTokens;
     so_reasoning := match truthy thinkingLevel with
                     | Some level => if m_reasoning model && negb (String.eqb level "off") then Some level else None
                     | None => None
                     end;
     so_cacheRetention := None; so_sessionId := None |}.

Definition conversation_text (messages : list AgentMessage) : string :=
  tagged "conversation" (serializeConversation (convertToLlm messages)) +:+ nl +:+ nl.
Definition summary_prompt (currentMessages : list AgentMessage) (customInstructions previousSummary : option string)
  : string :=
  let basePrompt := match truthy previousSummary with
                    | Some _ => UPDATE_SUMMARIZATION_PROMPT
                    | None => SUMMARIZATION_PROMPT
                    end in
  let basePrompt := match truthy customInstructions with
                    | Some i => basePrompt +:+ nl +:+ nl +:+ "Additional focus: " +:+ i
                    | None => basePrompt
                    end in
  conversation_text currentMessages
    +:+ match truthy previousSummary with
        | Some s => tagged "previous-summary" s +:+ nl +:+ nl
        | None => ""
        end
    +:+ basePrompt.
Definition turn_prefix_prompt (messages : list AgentMessage) : string :=
  conversation_text messages +:+ TURN_PREFIX_SUMMARIZATION_PROMPT.

Record CompactResult := {
  cr_summary : string; cr_tokensBefore : number; cr_usage : Usage; cr_retainedTail : list AgentMessage;
  cr_readFiles : list string; cr_modifiedFiles : list string }.

(** The summary text with the file lists. *)
Definition with_files (text : string) (lists : list string * list string) : string :=
  text +:+ formatFileOperations lists.1 lists.2.

Section summarize.
Context {W E : Type}.

Variable completeSimple : Model -> LlmContext -> SimpleStreamOptions -> M W (exn E) AssistantMessage.
Variable sleep : number -> M W (exn E) bool.
Variable uuidv7 : M W (exn E) string.
Variable Date_now : M W (exn E) number.

(** [fuel] bounds the iterations of a retry loop. *)
Context (fuel : nat) (retry : option RetryPolicy) (callbacks : RetryCallbacks W E).

Definition completeSimpleWithRetries (model : Model) (context : LlmContext) (options : SimpleStreamOptions)
  : M W (exn E) AssistantMessage :=
  sessionId ← uuidv7;
  let requestOptions :=
    {| so_maxTokens := so_maxTokens options; so_reasoning := so_reasoning options;
       so_cacheRetention := Some "none"; so_sessionId := Some sessionId |} in
  retryAssistantCall (completeSimple model context requestOptions) sleep fuel retry callbacks.

(** What both summary calls make of the response. *)
Definition summary_outcome (abortedText failedText : string) (response : AssistantMessage)
  : result CompactionError (string * Usage) :=
  match am_stopReason response with
  | StopAborted =>
      Err {| ce_code := compaction_aborted;
             ce_message := default abortedText (truthy (am_errorMessage response)) |}
  | StopError =>
      Err {| ce_code := summarization_failed;
             ce_message := failedText +:+ default "Unknown error" (truthy (am_errorMessage response)) |}
  | _ => Ok (contentText (am_content response) nl, am_usage response)
  end.

Definition ask (promptText : string) (model : Model) (options : SimpleStreamOptions) : M W (exn E) AssistantMessage :=
  now ← Date_now;
  completeSimpleWithRetries model
    {| lc_systemPrompt := SUMMARIZATION_SYSTEM_PROMPT; lc_messages := [user_text promptText now] |} options.

Definition generateSummaryWithUsage (currentMessages : list AgentMessage) (model : Model) (reserve : number)
    (customInstructions previousSummary thinkingLevel : option string)
  : M W (exn E) (result CompactionError (string * Usage)) :=
  response ← ask (summary_prompt currentMessages customInstructions previousSummary) model
    (completion_options (summary_max_tokens num_0_8 reserve model) model thinkingLevel);
  mret (summary_outcome "Summarization aborted" "Summarization failed: " response).
Definition generateSummary (currentMessages : list AgentMessage) (model : Model) (reserve : number)
    (customInstructions previousSummary thinkingLevel : option string)
  : M W (exn E) (result CompactionError string) :=
  result ← generateSummaryWithUsage currentMessages model reserve customInstructions previousSummary thinkingLevel;
  mret (match result with Ok (text, _) => Ok text | Err e => Err e end).
Definition generateTurnPrefixSummary (messages : list AgentMessage) (model : Model) (reserve : number)
    (thinkingLevel : option string) : M W (exn E) (result CompactionError (string * Usage)) :=
  response ← ask (turn_prefix_prompt messages) model
    (completion_options (summary_max_tokens num_0_5 reserve model) model thinkingLevel);
  mret (summary_outcome "Turn prefix summarization aborted" "Turn prefix summarization failed: " response).

Definition finish_compaction (preparation : CompactionPreparation) (text : string) (usage : Usage) : CompactResult :=
  let lists := computeFileLists (fileOps preparation) in
  {| cr_summary := with_files text lists; cr_tokensBefore := tokensBefore preparation; cr_usage := usage;
     cr_retainedTail := retainedTail preparation; cr_readFiles := lists.1; cr_modifiedFiles := lists.2 |}.

Definition compact (preparation : CompactionPreparation) (model : Model)
    (customInstructions thinkingLevel : option string) : M W (exn E) (result CompactionError CompactResult) :=
  let reserve := reserveTokens (cp_settings preparation) in
  let summarize_history := generateSummaryWithUsage (messagesToSummarize preparation) model reserve
    customInstructions (previousSummary preparation) thinkingLevel in
  match cp_isSplitTurn preparation, turnPrefixMessages preparation with
  | true, _ :: _ =>
      history ← match messagesToSummarize preparation with
                | [] => mret (Ok ("No prior history.", None))
                | _ => r ← summarize_history;
                       mret (match r with Ok (text, usage) => Ok (text, Some usage) | Err e => Err e end)
                end;
      match history with
      | Err e => mret (Err e)
      | Ok (historyText, historyUsage) =>
          prefix ← generateTurnPrefixSummary (turnPrefixMessages preparation) model reserve thinkingLevel;
          mret (match prefix with
                | Err e => Err e
                | Ok (prefixText, prefixUsage) =>
                    Ok (finish_compaction preparation
                      (historyText +:+ nl +:+ nl +:+ "---" +:+ nl +:+ nl +:+ "**Turn Context (split turn):**"
                         +:+ nl +:+ nl +:+ prefixText)
                      (match historyUsage with Some u => combineUsage u prefixUsage | None => prefixUsage end))
                end)
      end
  | _, _ =>
      r ← summarize_history;
      mret (match r with
            | Ok (text, usage) => Ok (finish_compaction preparation text usage)
            | Err e => Err e
            end)
  end.
End summarize.
