(* ===== verification/SummarizationTheorems.v ===== *)
(** * The model calls of a compaction

    What each answer of the model leads to, and compactions of a small conversation. *)
From S2P Require Import Prelude JsNumber SessionTypes JsText JsonNumber JsonText Reducer ReducerValidation.
From S2P Require Import Context Compaction CompactionTheorems Retry Summarization.

(** ** What a compaction should do

    Stated without the functions of Summarization that do it: which calls are made on
    the world [W] of the provider, what an answer amounts to, and what is stored. *)

(** The texts of an answer, one per line. *)
Fixpoint text_lines (blocks : list content) : list string :=
  match blocks with
  | [] => []
  | TextContent text _ :: blocks => text :: text_lines blocks
  | _ :: blocks => text_lines blocks
  end.
(** An answer that is neither an error nor aborted is taken as it is, even when it was cut
    by its length or asks for tools. *)
Definition answers_with (a : AssistantMessage) (text : string) (u : Usage) : Prop :=
  am_stopReason a <> StopAborted /\ am_stopReason a <> StopError /\
  text = String.concat nl (text_lines (am_content a)) /\ u = am_usage a.
(** What the provider said of the failure, if it said something. *)
Definition said (a : AssistantMessage) (otherwise : string) : string :=
  match am_errorMessage a with
  | Some EmptyString | None => otherwise
  | Some message => message
  end.
Definition refuses_with (what : string) (a : AssistantMessage) (e : CompactionError) : Prop :=
  (am_stopReason a = StopAborted /\ ce_code e = compaction_aborted /\ ce_message e = said a (what +:+ " aborted")) \/
  (am_stopReason a = StopError /\ ce_code e = summarization_failed /\
   ce_message e = (what +:+ " failed: ") +:+ said a "Unknown error").

(** Every counter of [u] is the sum of those of [u1] and [u2]. *)
Definition optional_sum (n1 n2 n : option number) : Prop :=
  match n1, n2 with
  | None, None => n = None
  | Some x, None => n = Some (num_add x num_zero)
  | None, Some y => n = Some (num_add num_zero y)
  | Some x, Some y => n = Some (num_add x y)
  end.
Definition usage_sum (u1 u2 u : Usage) : Prop :=
  let added (f : Usage -> number) := f u = num_add (f u1) (f u2) in
  added usage_input /\ added usage_output /\ added usage_cacheRead /\ added usage_cacheWrite /\ added usage_totalTokens /\
  optional_sum (usage_cacheWrite1h u1) (usage_cacheWrite1h u2) (usage_cacheWrite1h u) /\
  optional_sum (usage_reasoning u1) (usage_reasoning u2) (usage_reasoning u) /\
  added (fun u => cost_input (usage_cost u)) /\ added (fun u => cost_output (usage_cost u)) /\
  added (fun u => cost_cacheRead (usage_cost u)) /\ added (fun u => cost_cacheWrite (usage_cost u)) /\
  added (fun u => cost_total (usage_cost u)).

(** The sections with the file lists, behind an empty line. *)
Definition file_section (reads writes : list string) : string :=
  let read_section := "<read-files>" +:+ nl +:+ String.concat nl reads +:+ nl +:+ "</read-files>" in
  let write_section := "<modified-files>" +:+ nl +:+ String.concat nl writes +:+ nl +:+ "</modified-files>" in
  match reads, writes with
  | [], [] => ""
  | _, [] => nl +:+ nl +:+ read_section
  | [], _ => nl +:+ nl +:+ write_section
  | _, _ => nl +:+ nl +:+ read_section +:+ nl +:+ nl +:+ write_section
  end.
Definition stores (p : CompactionPreparation) (text : string) (u : Usage) (r : CompactResult) : Prop :=
  cr_readFiles r = (computeFileLists (fileOps p)).1 /\ cr_modifiedFiles r = (computeFileLists (fileOps p)).2 /\
  cr_summary r = text +:+ file_section (cr_readFiles r) (cr_modifiedFiles r) /\
  cr_usage r = u /\ cr_retainedTail r = retainedTail p /\ cr_tokensBefore r = tokensBefore p.

Definition splits_turn (p : CompactionPreparation) : Prop := cp_isSplitTurn p = true /\ turnPrefixMessages p <> [].

Section compaction.
Context {W E : Type}.
Context (completeSimple : Model -> LlmContext -> SimpleStreamOptions -> M W (exn E) AssistantMessage).
Context (sleep : number -> M W (exn E) bool) (uuidv7 : M W (exn E) string) (Date_now : M W (exn E) number).
Context (fuel : nat) (retry : option RetryPolicy) (callbacks : RetryCallbacks W E).
Context (model : Model) (custom level : option string).

(** One model call: the prompt is the only message and is stamped with the current time;
    the request, and every retry of it, is in a session of its own that was just created
    and leaves nothing in the prompt cache. *)
Inductive model_call (promptText : string) (maxTokens : number) (w : W) : W -> result (exn E) AssistantMessage -> Prop :=
| call_clock w1 x : Date_now w = (w1, Err x) -> model_call promptText maxTokens w w1 (Err x)
| call_session w1 now w2 x :
    Date_now w = (w1, Ok now) -> uuidv7 w1 = (w2, Err x) -> model_call promptText maxTokens w w2 (Err x)
| call_answered w1 now w2 sessionId w3 r :
    Date_now w = (w1, Ok now) -> uuidv7 w1 = (w2, Ok sessionId) ->
    retryAssistantCall
      (completeSimple model
         {| lc_systemPrompt := SUMMARIZATION_SYSTEM_PROMPT; lc_messages := [user_text promptText now] |}
         {| so_maxTokens := maxTokens; so_reasoning := so_reasoning (completion_options maxTokens model level);
            so_cacheRetention := Some "none"; so_sessionId := Some sessionId |})
      sleep fuel retry callbacks w2 = (w3, r) ->
    model_call promptText maxTokens w w3 r.

Definition history_call (p : CompactionPreparation) : W -> W -> result (exn E) AssistantMessage -> Prop :=
  model_call (summary_prompt (messagesToSummarize p) custom (previousSummary p))
    (summary_max_tokens num_0_8 (reserveTokens (cp_settings p)) model).
Definition prefix_call (p : CompactionPreparation) : W -> W -> result (exn E) AssistantMessage -> Prop :=
  model_call (turn_prefix_prompt (turnPrefixMessages p))
    (summary_max_tokens num_0_5 (reserveTokens (cp_settings p)) model).

(** A compaction of a conversation whose cut splits no turn summarizes the history.  One
    that splits a turn summarizes the history, if there is one, and then the prefix of
    the turn; the first call that throws or is refused ends it. *)
Inductive compaction (p : CompactionPreparation) (w : W) : W -> result (exn E) (result CompactionError CompactResult) -> Prop :=
| history_threw w' x :
    (splits_turn p -> messagesToSummarize p <> []) -> history_call p w w' (Err x) -> compaction p w w' (Err x)
| history_refused w' a e :
    (splits_turn p -> messagesToSummarize p <> []) -> history_call p w w' (Ok a) -> refuses_with "Summarization" a e ->
    compaction p w w' (Ok (Err e))
| history_stored w' a text u r :
    ~ splits_turn p -> history_call p w w' (Ok a) -> answers_with a text u -> stores p text u r ->
    compaction p w w' (Ok (Ok r))
| prefix_threw w1 w' x history :
    splits_turn p -> history_part p w w1 history -> prefix_call p w1 w' (Err x) -> compaction p w w' (Err x)
| prefix_refused w1 w' a e history :
    splits_turn p -> history_part p w w1 history -> prefix_call p w1 w' (Ok a) ->
    refuses_with "Turn prefix summarization" a e -> compaction p w w' (Ok (Err e))
| prefix_stored w1 w' a text u r historyText historyUsage total :
    splits_turn p -> history_part p w w1 (historyText, historyUsage) -> prefix_call p w1 w' (Ok a) -> answers_with a text u ->
    match historyUsage with None => total = u | Some u0 => usage_sum u0 u total end ->
    stores p (historyText +:+ nl +:+ nl +:+ "---" +:+ nl +:+ nl +:+ "**Turn Context (split turn):**" +:+ nl +:+ nl +:+ text)
      total r ->
    compaction p w w' (Ok (Ok r))
(** What comes before the prefix call: nothing, when there is no history. *)
with history_part (p : CompactionPreparation) (w : W) : W -> string * option Usage -> Prop :=
| no_history : messagesToSummarize p = [] -> history_part p w w ("No prior history.", None)
| some_history w' a text u :
    messagesToSummarize p <> [] -> history_call p w w' (Ok a) -> answers_with a text u ->
    history_part p w w' (text, Some u).

(** ** It does *)

Definition summarizing (promptText : string) (maxTokens : number) : M W (exn E) AssistantMessage :=
  ask completeSimple sleep uuidv7 Date_now fuel retry callbacks promptText model (completion_options maxTokens model level).

Lemma model_call_iff promptText maxTokens w w' r :
  summarizing promptText maxTokens w = (w', r) <-> model_call promptText maxTokens w w' r.
Proof.
  unfold summarizing, ask, completeSimpleWithRetries. mrun. split.
  - destruct (Date_now w) as [w1 [now|x]] eqn:Hd; [|intros [= <- <-]; by apply call_clock].
    destruct (uuidv7 w1) as [w2 [sessionId|x]] eqn:Hu; [|intros [= <- <-]; by eapply call_session].
    intros H. by eapply call_answered.
  - intros [w1 x Hd|w1 now w2 x Hd Hu|w1 now w2 sessionId w3 r' Hd Hu Hr]; rewrite Hd; [done|by rewrite Hu|]. rewrite Hu. exact Hr.
Qed.

Lemma text_lines_eq blocks : omap text_of blocks = text_lines blocks.
Proof. induction blocks as [|[] blocks IH]; [done|cbn; by f_equal|exact IH..]. Qed.
Lemma said_eq a otherwise : default otherwise (truthy (am_errorMessage a)) = said a otherwise.
Proof. unfold said, truthy. destruct (am_errorMessage a) as [[|c m]|]; [done|by case_bool_decide|done]. Qed.

Lemma outcome_Ok aborted failed a text u : summary_outcome aborted failed a = Ok (text, u) <-> answers_with a text u.
Proof.
  unfold summary_outcome, answers_with, contentText. rewrite text_lines_eq.
  destruct (am_stopReason a); split; intros H; try (by destruct H as (H1 & H2 & _)); try done;
    first [by injection H as <- <-|destruct H as (_ & _ & -> & ->); done].
Qed.
Lemma outcome_Err what a e :
  summary_outcome (what +:+ " aborted") (what +:+ " failed: ") a = Err e <-> refuses_with what a e.
Proof.
  unfold summary_outcome, refuses_with. rewrite !said_eq. destruct e as [code message], (am_stopReason a);
    cbn [ce_code ce_message]; split; intros H; try (by destruct H as [[H _]|[H _]]); try done.
  - right. by injection H as <- <-.
  - by destruct H as [[H _]|(_ & -> & ->)].
  - left. by injection H as <- <-.
  - destruct H as [(_ & -> & ->)|[H _]]; done.
Qed.

Lemma add_optional_sum a b c : add_optional a b = c <-> optional_sum a b c.
Proof. by destruct a, b; simpl; split; intros H. Qed.
Lemma combineUsage_sum u1 u2 u : combineUsage u1 u2 = u <-> usage_sum u1 u2 u.
Proof.
  unfold usage_sum. cbn zeta. rewrite <-!add_optional_sum. destruct u as [i o cr cw h r t [ci co ccr ccw ct]]. unfold combineUsage.
  cbn [usage_input usage_output usage_cacheRead usage_cacheWrite usage_cacheWrite1h usage_reasoning usage_totalTokens
    usage_cost cost_input cost_output cost_cacheRead cost_cacheWrite cost_total].
  split; [by intros [= <- <- <- <- <- <- <- <- <- <- <- <-]|]. intros (-> & -> & -> & -> & -> & <- & <- & -> & -> & -> & -> & ->).
  done.
Qed.
Lemma file_section_eq reads writes : formatFileOperations reads writes = file_section reads writes.
Proof.
  unfold formatFileOperations, file_section, tagged. destruct reads, writes; cbn [nonempty app String.concat]; done.
Qed.
Lemma finish_stores p text u r : finish_compaction p text u = r <-> stores p text u r.
Proof.
  unfold finish_compaction, stores, with_files. rewrite file_section_eq. destruct r as [s tb u' tail rs ws].
  cbn [cr_summary cr_tokensBefore cr_usage cr_retainedTail cr_readFiles cr_modifiedFiles]. split.
  - by intros [= <- <- <- <- <- <-].
  - by intros (-> & -> & -> & -> & -> & ->).
Qed.

Definition run_compact (p : CompactionPreparation) : M W (exn E) (result CompactionError CompactResult) :=
  compact completeSimple sleep uuidv7 Date_now fuel retry callbacks p model custom level.
Definition run_history (p : CompactionPreparation) : M W (exn E) AssistantMessage :=
  summarizing (summary_prompt (messagesToSummarize p) custom (previousSummary p))
    (summary_max_tokens num_0_8 (reserveTokens (cp_settings p)) model).
Definition run_prefix (p : CompactionPreparation) : M W (exn E) AssistantMessage :=
  summarizing (turn_prefix_prompt (turnPrefixMessages p))
    (summary_max_tokens num_0_5 (reserveTokens (cp_settings p)) model).
Definition history_result (a : AssistantMessage) : result CompactionError (string * Usage) :=
  summary_outcome "Summarization aborted" "Summarization failed: " a.
Definition prefix_result (a : AssistantMessage) : result CompactionError (string * Usage) :=
  summary_outcome "Turn prefix summarization aborted" "Turn prefix summarization failed: " a.

Lemma splits_turn_dec p : splits_turn p \/ ~ splits_turn p.
Proof. unfold splits_turn. destruct (cp_isSplitTurn p), (turnPrefixMessages p); naive_solver. Qed.
Lemma run_history_eq p w :
  generateSummaryWithUsage completeSimple sleep uuidv7 Date_now fuel retry callbacks
    (messagesToSummarize p) model (reserveTokens (cp_settings p)) custom (previousSummary p) level w =
  match run_history p w with (w', Ok a) => (w', Ok (history_result a)) | (w', Err x) => (w', Err x) end.
Proof. done. Qed.
Lemma run_prefix_eq p w :
  generateTurnPrefixSummary completeSimple sleep uuidv7 Date_now fuel retry callbacks
    (turnPrefixMessages p) model (reserveTokens (cp_settings p)) level w =
  match run_prefix p w with (w', Ok a) => (w', Ok (prefix_result a)) | (w', Err x) => (w', Err x) end.
Proof. done. Qed.
Lemma compact_whole p w : ~ splits_turn p ->
  run_compact p w =
  match run_history p w with
  | (w', Err x) => (w', Err x)
  | (w', Ok a) =>
      (w', Ok match history_result a with Ok (text, u) => Ok (finish_compaction p text u) | Err e => Err e end)
  end.
Proof.
  unfold splits_turn. intros Hno. unfold run_compact, compact.
  destruct (cp_isSplitTurn p), (turnPrefixMessages p) as [|m tp]; try (exfalso; naive_solver);
    mrun; rewrite run_history_eq; destruct (run_history p w) as [w1 [answer|x]]; try done;
    by destruct (history_result answer) as [[]|].
Qed.
Definition history_then (p : CompactionPreparation) (w : W) : W * result (exn E) (result CompactionError (string * option Usage)) :=
  match messagesToSummarize p with
  | [] => (w, Ok (Ok ("No prior history.", None)))
  | _ =>
      match run_history p w with
      | (w', Err x) => (w', Err x)
      | (w', Ok a) => (w', Ok match history_result a with Ok (text, u) => Ok (text, Some u) | Err e => Err e end)
      end
  end.
Definition prefix_text (historyText text : string) : string :=
  historyText +:+ nl +:+ nl +:+ "---" +:+ nl +:+ nl +:+ "**Turn Context (split turn):**" +:+ nl +:+ nl +:+ text.
Lemma compact_split p w : splits_turn p ->
  run_compact p w =
  match history_then p w with
  | (w', Err x) => (w', Err x)
  | (w', Ok (Err e)) => (w', Ok (Err e))
  | (w1, Ok (Ok (historyText, historyUsage))) =>
      match run_prefix p w1 with
      | (w', Err x) => (w', Err x)
      | (w', Ok a) =>
          (w', Ok match prefix_result a with
                  | Err e => Err e
                  | Ok (text, u) =>
                      Ok (finish_compaction p (prefix_text historyText text)
                            (match historyUsage with Some u0 => combineUsage u0 u | None => u end))
                  end)
      end
  end.
Proof.
  intros [Hs Htp]. unfold run_compact, compact, history_then. rewrite Hs.
  destruct (turnPrefixMessages p) as [|m tp] eqn:Htpe; [done|]. rewrite <-Htpe. clear Htp Htpe m tp.
  destruct (messagesToSummarize p) as [|m ms] eqn:Hmse.
  - mrun. rewrite run_prefix_eq. destruct (run_prefix p w) as [w' [a|x]]; [|done]. by destruct (prefix_result a) as [[]|].
  - rewrite <-Hmse in *. mrun. rewrite run_history_eq. destruct (run_history p w) as [w1 [a|x]]; [|done].
    destruct (history_result a) as [[t u]|e]; [|done]. rewrite run_prefix_eq. destruct (run_prefix p w1) as [w' [a'|x]]; [|done].
    by destruct (prefix_result a') as [[]|].
Qed.

Lemma history_then_Ok p w w1 text ou :
  history_then p w = (w1, Ok (Ok (text, ou))) <-> history_part p w w1 (text, ou).
Proof.
  unfold history_then. split.
  - destruct (messagesToSummarize p) as [|m ms] eqn:Hmse; [intros [= <- <- <-]; by constructor|].
    destruct (run_history p w) as [w' [a|x]] eqn:Hrun; [|done]. destruct (history_result a) as [[t u]|e] eqn:Ho; [|done].
    intros [= <- <- <-]. apply outcome_Ok in Ho. eapply some_history; [by rewrite Hmse| |exact Ho].
    by apply model_call_iff.
  - intros [Hm|w' a t u Hm Hcall%model_call_iff Ha%(outcome_Ok "Summarization aborted" "Summarization failed: ")]; [by rewrite Hm|].
    destruct (messagesToSummarize p) as [|m ms] eqn:Hmse; [done|]. rewrite <-Hmse in *. unfold run_history. rewrite Hcall.
    unfold history_result. by rewrite Ha.
Qed.

Lemma compact_sound p w w' r : run_compact p w = (w', r) -> compaction p w w' r.
Proof.
  destruct (splits_turn_dec p) as [Hs|Hno].
  - rewrite compact_split by done. destruct (history_then p w) as [w1 [[[ht hu]|e]|x]] eqn:Hh.
    + apply history_then_Ok in Hh. destruct (run_prefix p w1) as [w2 [a|x]] eqn:Hp; apply model_call_iff in Hp;
        [|intros [= <- <-]; by eapply prefix_threw].
      destruct (prefix_result a) as [[t u]|e] eqn:Ho; intros [= <- <-].
      * apply outcome_Ok in Ho. eapply prefix_stored; [done..| |by apply finish_stores].
        destruct hu; [by apply combineUsage_sum|done].
      * apply (outcome_Err "Turn prefix summarization") in Ho. by eapply prefix_refused.
    + intros [= <- <-]. unfold history_then in Hh. destruct (messagesToSummarize p) as [|m ms] eqn:Hm; [done|].
      destruct (run_history p w) as [w2 [a|x]] eqn:Hr; [|done]. destruct (history_result a) as [[t u]|e'] eqn:Ho; [done|].
      injection Hh as <- <-. apply (outcome_Err "Summarization") in Ho. apply model_call_iff in Hr. eapply history_refused; [|done..]. by rewrite Hm.
    + intros [= <- <-]. unfold history_then in Hh. destruct (messagesToSummarize p) as [|m ms] eqn:Hm; [done|].
      destruct (run_history p w) as [w2 [a|x']] eqn:Hr; [by destruct (history_result a) as [[]|]|].
      injection Hh as <- <-. apply model_call_iff in Hr. eapply history_threw; [|done]. by rewrite Hm.
  - rewrite compact_whole by done. destruct (run_history p w) as [w1 [a|x]] eqn:Hr; apply model_call_iff in Hr;
      [|intros [= <- <-]; by eapply history_threw].
    destruct (history_result a) as [[t u]|e] eqn:Ho; intros [= <- <-].
    + apply outcome_Ok in Ho. eapply history_stored; [done..|by apply finish_stores].
    + apply (outcome_Err "Summarization") in Ho. by eapply history_refused.
Qed.

(** A history call that ends the compaction. *)
Lemma history_ends p w w' r :
  (splits_turn p -> messagesToSummarize p <> []) -> history_call p w w' r ->
  match r with Err x => True | Ok a => exists e, history_result a = Err e end ->
  run_compact p w =
  (w', match r with
       | Err x => Err x
       | Ok a => match history_result a with Err e => Ok (Err e) | Ok _ => Err OutOfFuel end
       end).
Proof.
  intros Hm Hcall%model_call_iff Hr. change (run_history p w = (w', r)) in Hcall. destruct (splits_turn_dec p) as [Hs|Hno].
  - rewrite compact_split by done. unfold history_then. specialize (Hm Hs).
    destruct (messagesToSummarize p) as [|m ms]; [done|]. rewrite Hcall. destruct r as [a|x]; [|done].
    by destruct Hr as [e ->].
  - rewrite compact_whole by done. rewrite Hcall. destruct r as [a|x]; [|done]. by destruct Hr as [e ->].
Qed.
Lemma compact_complete p w w' r : compaction p w w' r -> run_compact p w = (w', r).
Proof.
  intros [w1 x Hm Hc|w1 a e Hm Hc Ho%outcome_Err|w1 a t u r' Hno Hc%model_call_iff Ho Hst%finish_stores
    |w1 w2 x [ht hu] Hs Hh%history_then_Ok Hp%model_call_iff|w1 w2 a e [ht hu] Hs Hh%history_then_Ok Hp%model_call_iff Ho%outcome_Err
    |w1 w2 a t u r' ht hu total Hs Hh%history_then_Ok Hp%model_call_iff Ho Hu Hst%finish_stores].
  - by rewrite (history_ends p w w1 (Err x) Hm Hc).
  - change (history_result a = Err e) in Ho. rewrite (history_ends p w w1 (Ok a) Hm Hc) by eauto. by rewrite Ho.
  - rewrite compact_whole by done. change (run_history p w = (w1, Ok a)) in Hc. rewrite Hc.
    apply (outcome_Ok "Summarization aborted" "Summarization failed: ") in Ho. unfold history_result. by rewrite Ho, Hst.
  - rewrite compact_split, Hh by done. change (run_prefix p w1 = (w2, Err x)) in Hp. by rewrite Hp.
  - rewrite compact_split, Hh by done. change (run_prefix p w1 = (w2, Ok a)) in Hp. rewrite Hp. change (prefix_result a = Err e) in Ho. by rewrite Ho.
  - rewrite compact_split, Hh by done. change (run_prefix p w1 = (w2, Ok a)) in Hp. rewrite Hp. unfold prefix_result.
    apply (outcome_Ok "Turn prefix summarization aborted" "Turn prefix summarization failed: ") in Ho. rewrite Ho.
    unfold prefix_text. destruct hu as [u0|]; [apply combineUsage_sum in Hu; by rewrite Hu, Hst|by rewrite <-Hu, Hst].
Qed.
End compaction.

(** C38. The runs of [compact] are exactly those of [compaction], whatever the provider,
    the timer, the clock and the callbacks do and whatever retry policy applies: one
    history call when no turn is split; when one is, the history call, if there is a
    history, and then the turn prefix call.  Each call has a fresh session and leaves no
    cache entry.  What a call throws ends the compaction, and so does an answer that
    stopped with an error or was aborted, with the matching error; every other answer
    gives its text and usage.  What is stored has the text of the summary, or of both
    joined, with the file lists, the usage or the sum of both, and the tail and token
    count that were prepared.  When a split turn has no history, the summary of the
    previous compaction is neither sent nor kept. *)
Theorem compact_spec {W E : Type} (completeSimple : Model -> LlmContext -> SimpleStreamOptions -> M W (exn E) AssistantMessage)
    sleep uuidv7 Date_now fuel retry callbacks p model custom level w w' r :
  (compact completeSimple sleep uuidv7 Date_now fuel retry callbacks p model custom level w = (w', r) <->
   compaction completeSimple sleep uuidv7 Date_now fuel retry callbacks model custom level p w w' r) /\
  (splits_turn p -> messagesToSummarize p = [] ->
   compact completeSimple sleep uuidv7 Date_now fuel retry callbacks p model custom level w =
   compact completeSimple sleep uuidv7 Date_now fuel retry callbacks
     {| messagesToSummarize := []; turnPrefixMessages := turnPrefixMessages p; retainedTail := retainedTail p;
        cp_isSplitTurn := cp_isSplitTurn p; tokensBefore := tokensBefore p; previousSummary := None;
        fileOps := fileOps p; cp_settings := cp_settings p |} model custom level w).
Proof.
  split.
  - split; [apply compact_sound|apply compact_complete].
  - intros [Hs Htp] Hm. unfold compact.
    cbn [messagesToSummarize turnPrefixMessages cp_isSplitTurn cp_settings previousSummary retainedTail tokensBefore fileOps].
    rewrite Hs, Hm. destruct (turnPrefixMessages p) as [|m tp]; done.
Qed.

(** * Compactions of a small conversation *)

Definition msg_entry (id : string) (seq : Z) (m : AgentMessage) : Entry :=
  {| e_id := id; e_seq := seq; e_parentId := None; e_timestamp := seq; e_body := MessageEntry m false |}.
Definition user_says (text : string) : AgentMessage := UserMsg (PlainText text) num_zero.
Definition file_call (tool path : string) : content :=
  ToolCallContent {| tc_id := "call"; tc_name := tool; tc_arguments := JsonObject [("path", JsonString path)];
                     tc_thoughtSignature := None; tc_namespace := None |}.
Definition assistant_says (blocks : list content) : AgentMessage := AssistantMsg (sample_answer StopStop None blocks).
Definition tool_answers (text : string) : AgentMessage :=
  ToolResultMsg {| tr_toolCallId := "call"; tr_toolName := "read"; tr_content := [TextContent text None];
    tr_details := None; tr_usage := None; tr_addedToolNames := None; tr_structuredContent := None;
    tr_nestedCalls := None; tr_nestedExecutionOutcome := None; tr_isError := false; tr_timestamp := num_zero |}.

Definition sample_conversation : list Entry :=
  [msg_entry "m1" 1 (user_says "hello");
   msg_entry "m2" 2 (assistant_says [file_call "read" "b.ts"; file_call "edit" "a.ts"; file_call "read" "a.ts"]);
   msg_entry "m3" 3 (tool_answers "text");
   msg_entry "m4" 4 (assistant_says [TextContent "done" None])].
Definition sample_settings (keep : Z) : CompactionSettings :=
  {| enabled := true; reserveTokens := num_of_Z 1000; keepRecentTokens := num_of_Z keep |}.

Lemma findCutPoint_spec_witness :
  (4 <= length sample_conversation)%nat /\
  let r := findCutPoint sample_conversation 0 4 (num_of_Z 1) in
  firstKeptEntryIndex r = 3%nat /\
  exists anchor, budget_cut sample_conversation 0 4 (num_of_Z 1) anchor.
Proof.
  split; [simpl; lia|]. split; [vm_compute; reflexivity|].
  destruct (findCutPoint_spec sample_conversation 0 4 (num_of_Z 1) ltac:(simpl; lia)) as (_ & H & _).
  destruct H as (a & Ha & _); [|exists a; exact Ha].
  exists 0%nat. split; [lia|]. eexists. split; [reflexivity|reflexivity].
Defined.

Definition sample_preparation : CompactionPreparation :=
  match prepareCompaction sample_conversation (sample_settings 1) with
  | Ok (Some p) => p
  | _ => {| messagesToSummarize := []; turnPrefixMessages := []; retainedTail := []; cp_isSplitTurn := false;
            tokensBefore := num_zero; previousSummary := None; fileOps := createFileOps;
            cp_settings := sample_settings 1 |}
  end.
Lemma sample_prepared : prepareCompaction sample_conversation (sample_settings 1) = Ok (Some sample_preparation).
Proof. vm_compute. reflexivity. Qed.

Lemma compaction_files_spec_witness :
  computeFileLists (fileOps sample_preparation) = (["b.ts"], ["a.ts"]) /\
  forall f, f ∈ (computeFileLists (fileOps sample_preparation)).2 <->
    f ∈ stored_files sample_conversation "modifiedFiles" \/
    touches "write" (messagesToSummarize sample_preparation ++ turnPrefixMessages sample_preparation) f \/
    touches "edit" (messagesToSummarize sample_preparation ++ turnPrefixMessages sample_preparation) f.
Proof.
  split; [vm_compute; reflexivity|]. intros f.
  pose proof (compaction_files_spec sample_conversation (sample_settings 1) sample_preparation sample_prepared) as H.
  cbv zeta in H. destruct (computeFileLists (fileOps sample_preparation)) as [rs ws]. exact (proj1 H f).
Defined.

Definition sample_model : Model :=
  {| m_reasoning := true; m_maxTokens := num_of_Z 500; m_contextWindow := num_of_Z 100000 |}.
(** A provider that remembers its requests and answers each with the same text; the
    identifiers count the requests. *)
Record Request := { rq_context : LlmContext; rq_options : SimpleStreamOptions }.
Definition script_complete (model : Model) (context : LlmContext) (options : SimpleStreamOptions)
  : M (list Request) (exn Empty_set) AssistantMessage := fun log =>
  (log ++ [{| rq_context := context; rq_options := options |}], Ok (sample_answer StopStop None [TextContent "summary" None])).
Definition script_uuid : M (list Request) (exn Empty_set) string := fun log => (log, Ok ("s" +:+ pretty (length log))).
Definition script_callbacks : RetryCallbacks (list Request) Empty_set :=
  {| onRetryScheduled := fun _ _ _ _ => mret tt; onRetryAttemptStart := mret tt;
     onRetryFinished := fun _ _ _ => mret tt |}.
Definition sample_compaction (p : CompactionPreparation) :=
  compact script_complete (fun _ => mret false) script_uuid (mret num_zero) 1 None script_callbacks p sample_model None None [].
Definition compacted (p : CompactionPreparation) : CompactResult :=
  match (sample_compaction p).2 with
  | Ok (Ok r) => r
  | _ => finish_compaction p "" (am_usage (sample_answer StopStop None []))
  end.
Lemma sample_compaction_eq :
  sample_compaction sample_preparation = ((sample_compaction sample_preparation).1, Ok (Ok (compacted sample_preparation))).
Proof. vm_compute. reflexivity. Qed.

Lemma compact_spec_witness :
  compaction script_complete (fun _ => mret false) script_uuid (mret num_zero) 1 None script_callbacks sample_model None None
    sample_preparation [] (sample_compaction sample_preparation).1 (Ok (Ok (compacted sample_preparation))) /\
  cr_retainedTail (compacted sample_preparation) = [assistant_says [TextContent "done" None]] /\
  (fun q => so_sessionId (rq_options q)) <$> (sample_compaction sample_preparation).1 = [Some "s0"].
Proof.
  destruct (compact_spec script_complete (fun _ => mret false) script_uuid (mret num_zero) 1 None script_callbacks
    sample_preparation sample_model None None [] (sample_compaction sample_preparation).1
    (Ok (Ok (compacted sample_preparation)))) as [[Hrun _] _].
  split; [exact (Hrun sample_compaction_eq)|]. split; vm_compute; reflexivity.
Defined.

(** When the newest messages that reach the budget are tool results, no admissible entry
    follows them and the cut falls back to the oldest one: nothing is summarized. *)
Example trailing_tool_results_keep_all :
  let path := sample_conversation ++
    [msg_entry "m5" 5 (user_says "again"); msg_entry "m6" 6 (assistant_says [file_call "read" "c.ts"]);
     msg_entry "m7" 7 (tool_answers "a result over the budget")] in
  match prepareCompaction path (sample_settings 5) with
  | Ok (Some p) => messagesToSummarize p = [] /\ turnPrefixMessages p = [] /\ retainedTail p = live_messages path
  | _ => False
  end.
Proof. vm_compute. done. Qed.
