(* ===== verification/BranchSummary.v ===== *)
(** * Summarizing an abandoned branch
    (packages/agent/src/harness/compaction/branch-summarization.ts)

    The collection of the branch, the selection and the summary call, with their theorems. *)
From S2P Require Import Prelude JsNumber SessionTypes JsText JsonNumber JsonText SessionState SessionInvariant.
From S2P Require Import SessionTheorems MemoryStorage MemoryTheorems Reducer ReducerValidation Context.
From S2P Require Import SessionService SessionServiceTheorems Compaction Retry Summarization.

(** ** The entries that are left behind *)

Record CollectEntriesResult := { ces_entries : list Entry; ces_commonAncestorId : option string }.

Section collect.
Context {St : Type} `{SessionStorage St}.
Variable session : Session.SessionTree (St := St).

Definition branch_from (start : string) : option Session.BranchQuery :=
  Some {| Session.bq_query := no_query; Session.bq_bounds := no_bounds; Session.bq_start := Some start |}.

(** The walk from the old leaf to the common ancestor; [fuel] bounds its steps. *)
Fixpoint collect_entries (fuel : nat) (current commonAncestorId : option string) (entries : list Entry)
  : M St SessionError (list Entry) :=
  match fuel with
  | O => throw (sessionError storage_error "out of iterations")
  | S fuel' =>
      match truthy current with
      | None => mret entries
      | Some id =>
          if bool_decide (Some id = commonAncestorId) then mret entries
          else
            entry ← Session.tree_getEntry session id;
            match entry with
            | None => throw (sessionError invalid_entry ("Entry " +:+ id +:+ " not found"))
            | Some e => collect_entries fuel' (e_parentId e) commonAncestorId (entries ++ [e])
            end
      end
  end.

Definition collectEntriesForBranchSummary (fuel : nat) (oldLeafId : option string) (targetId : string)
  : M St SessionError CollectEntriesResult :=
  match truthy oldLeafId with
  | None => mret {| ces_entries := []; ces_commonAncestorId := None |}
  | Some leaf =>
      old ← Session.tree_findEntriesOnBranch session (branch_from leaf);
      let oldPath := e_id <$> old in
      targetPath ← Session.tree_findEntriesOnBranch session (branch_from targetId);
      let commonAncestorId := (fun ie => e_id ie.2) <$> list_find (fun entry => e_id entry ∈ oldPath) targetPath in
      entries ← collect_entries fuel (Some leaf) commonAncestorId [];
      mret {| ces_entries := reverse entries; ces_commonAncestorId := commonAncestorId |}
  end.
End collect.

(** ** Selecting messages within the budget *)

Module Branch.
Definition getMessageFromEntry (entry : Entry) : option AgentMessage :=
  match e_body entry with
  | MessageEntry (ToolResultMsg _) _ => None
  | MessageEntry message _ => Some message
  | BranchSummaryEntry fromId summary _ _ =>
      Some (createBranchSummaryMessage summary fromId (num_of_Z (e_timestamp entry)))
  | CompactionEntry summary _ tokensBefore _ _ =>
      Some (createCompactionSummaryMessage summary tokensBefore (num_of_Z (e_timestamp entry)))
  | _ => None
  end.
End Branch.

Record BranchPreparation := {
  bp_messages : list AgentMessage; bp_fileOps : FileOperations; bp_totalTokens : number }.

(** The file lists earlier branch summaries stored. *)
Definition add_branch_details (fileOps : FileOperations) (entry : Entry) : FileOperations :=
  match e_body entry with
  | BranchSummaryEntry _ _ details _ => add_details details fileOps
  | _ => fileOps
  end.

(** The number 0.9. *)
Definition num_0_9 : number := num_of_bits 4606281698874543309.

Definition take_message (message : AgentMessage) (p : BranchPreparation) : BranchPreparation :=
  {| bp_messages := message :: bp_messages p; bp_fileOps := bp_fileOps p;
     bp_totalTokens := add_tokens (bp_totalTokens p) message |}.
Definition is_summary_entry (entry : Entry) : bool := is_type TCompaction entry || is_type TBranchSummary entry.

(** The loop from the newest entry, on the entries newest first. *)
Fixpoint select_messages (newestFirst : list Entry) (tokenBudget : number) (p : BranchPreparation) : BranchPreparation :=
  match newestFirst with
  | [] => p
  | entry :: older =>
      match Branch.getMessageFromEntry entry with
      | None => select_messages older tokenBudget p
      | Some message =>
          let p := {| bp_messages := bp_messages p; bp_fileOps := extractFileOpsFromMessage (bp_fileOps p) message;
                      bp_totalTokens := bp_totalTokens p |} in
          if num_ltb num_zero tokenBudget && num_ltb tokenBudget (add_tokens (bp_totalTokens p) message) then
            if is_summary_entry entry && num_ltb (bp_totalTokens p) (num_mul tokenBudget num_0_9)
            then take_message message p else p
          else select_messages older tokenBudget (take_message message p)
      end
  end.
Definition prepareBranchEntries (entries : list Entry) (tokenBudget : number) : BranchPreparation :=
  select_messages (reverse entries) tokenBudget
    {| bp_messages := []; bp_fileOps := foldl add_branch_details createFileOps entries; bp_totalTokens := num_zero |}.

(** ** Generating the summary *)

Definition BRANCH_SUMMARY_PREAMBLE : string :=
  "The user explored a different conversation branch before returning here.
Summary of that exploration:

".
Definition BRANCH_SUMMARY_PROMPT : string :=
  "Create a structured summary of this conversation branch for context when returning later.

Use this EXACT format:

## Goal
[What was the user trying to accomplish in this branch?]

## Constraints & Preferences
- [Any constraints, preferences, or requirements mentioned]
- [Or " +:+ dq +:+
  "(none)" +:+ dq +:+
  " if none were mentioned]

## Progress
### Done
- [x] [Completed tasks/changes]

### In Progress
- [ ] [Work that was started but not finished]

### Blocked
- [Issues preventing progress, if any]

## Key Decisions
- **[Decision]**: [Brief rationale]

## Next Steps
1. [What should happen next to continue this work]

Keep each section concise. Preserve exact file paths, function names, and error messages.".

Inductive BranchSummaryErrorCode := branch_aborted | branch_summarization_failed.
Record BranchSummaryError := { bse_code : BranchSummaryErrorCode; bse_message : string }.
Record BranchSummaryResult := {
  bsr_summary : string; bsr_usage : option Usage; bsr_readFiles : list string; bsr_modifiedFiles : list string }.

Definition branch_instructions (customInstructions : option string) (replaceInstructions : bool) : string :=
  match truthy customInstructions with
  | Some i => if replaceInstructions then i
              else BRANCH_SUMMARY_PROMPT +:+ nl +:+ nl +:+ "Additional focus: " +:+ i
  | None => BRANCH_SUMMARY_PROMPT
  end.
Definition branch_budget (model : Model) (reserve : option number) : number :=
  let contextWindow := if num_truthy (m_contextWindow model) then m_contextWindow model else num_of_Z 128000 in
  num_sub contextWindow (default (num_of_Z 16384) reserve).

Section generate.
Context {W E : Type}.
Variable completeSimple : Model -> LlmContext -> SimpleStreamOptions -> M W (exn E) AssistantMessage.
Variable sleep : number -> M W (exn E) bool.
Variable uuidv7 : M W (exn E) string.
Variable Date_now : M W (exn E) number.
Context (fuel : nat) (retry : option RetryPolicy) (callbacks : RetryCallbacks W E).

Definition branch_outcome (lists : list string * list string) (response : AssistantMessage)
  : result BranchSummaryError BranchSummaryResult :=
  match am_stopReason response with
  | StopAborted =>
      Err {| bse_code := branch_aborted;
             bse_message := default "Branch summary aborted" (truthy (am_errorMessage response)) |}
  | StopError =>
      Err {| bse_code := branch_summarization_failed;
             bse_message := "Branch summary failed: " +:+ default "Unknown error" (truthy (am_errorMessage response)) |}
  | _ =>
      let summary := with_files (BRANCH_SUMMARY_PREAMBLE +:+ contentText (am_content response) nl) lists in
      Ok {| bsr_summary := default "No summary generated" (truthy (Some summary));
            bsr_usage := Some (am_usage response); bsr_readFiles := lists.1; bsr_modifiedFiles := lists.2 |}
  end.

Definition generateBranchSummary (entries : list Entry) (model : Model) (customInstructions : option string)
    (replaceInstructions : bool) (reserve : option number)
  : M W (exn E) (result BranchSummaryError BranchSummaryResult) :=
  let prepared := prepareBranchEntries entries (branch_budget model reserve) in
  match bp_messages prepared with
  | [] => mret (Ok {| bsr_summary := "No content to summarize"; bsr_usage := None;
                      bsr_readFiles := []; bsr_modifiedFiles := [] |})
  | messages =>
      response ← ask completeSimple sleep uuidv7 Date_now fuel retry callbacks
        (conversation_text messages +:+ branch_instructions customInstructions replaceInstructions) model
        {| so_maxTokens := num_of_Z 2048; so_reasoning := None; so_cacheRetention := None; so_sessionId := None |};
      mret (branch_outcome (computeFileLists (bp_fileOps prepared)) response)
  end.
End generate.

(** * The branch that is summarized is the one that is left *)

(** ** Paths to the root *)

Lemma root_path_suffix byId e l1 x l2 :
  root_path byId e (l1 ++ x :: l2) -> root_path byId x (x :: l2).
Proof.
  revert e. induction l1 as [|y l1 IH]; intros e H; simpl in H.
  - inversion H; subst; done.
  - inversion H as [|? p pe ? _ _ H']; subst; [by destruct l1|]. by apply (IH pe).
Qed.
Lemma upto_never {A} (p : A -> bool) l : (forall x, p x = false) -> upto p l = l.
Proof. intros Hp. induction l as [|x l IH]; [done|]. simpl. by rewrite Hp, IH. Qed.

Section collect.
Context {St : Type} `{SessionStorageLaws St}.

Lemma branch_from_start lane (st : St) id e path :
  state_wf (storage_view st) -> entriesById (storage_view st) !! id = Some e ->
  root_path (entriesById (storage_view st)) e path ->
  Session.tree_findEntriesOnBranch (Session.view 0 lane) (branch_from id) st = (st, Ok path).
Proof.
  intros Hwf He Hpath.
  transitivity (st, findEntriesOnBranch no_query no_bounds id (storage_view st)); [reflexivity|].
  destruct (findEntriesOnBranch_eq (storage_view st) no_query no_bounds id e Hwf He I I) as (p & Hp & Heq).
  rewrite (root_path_det _ _ _ _ Hp Hpath) in Heq. rewrite Heq. simpl limit_take.
  rewrite upto_never, keep_all; done.
Qed.

(** The walk collects the part of the path before the common ancestor. *)
Lemma collect_entries_path lane (st : St) e mine shared fuel acc :
  state_wf (storage_view st) -> entriesById (storage_view st) !! "" = None ->
  entriesById (storage_view st) !! e_id e = Some e ->
  root_path (entriesById (storage_view st)) e (mine ++ shared) ->
  (forall x, x ∈ mine -> Some (e_id x) <> e_id <$> head shared) ->
  (length mine < fuel)%nat ->
  collect_entries (Session.view 0 lane) fuel (Some (e_id e)) (e_id <$> head shared) acc st = (st, Ok (acc ++ mine)).
Proof.
  intros Hwf Hempty. revert e mine acc. induction fuel as [|fuel IH]; intros e mine acc He Hpath Hne Hfuel; [lia|].
  assert (Hid : forall x, entriesById (storage_view st) !! e_id x = Some x -> truthy (Some (e_id x)) = Some (e_id x)).
  { intros x Hx. unfold truthy. rewrite bool_decide_eq_false_2; [done|]. intros Heq. rewrite Heq in Hx. congruence. }
  cbn [collect_entries]. rewrite (Hid e He). destruct mine as [|x mine].
  - simpl in Hpath. rewrite bool_decide_eq_true_2; [by rewrite app_nil_r|]. by inversion Hpath; subst.
  - assert (x = e) as -> by (by inversion Hpath).
    rewrite bool_decide_eq_false_2 by (apply Hne; by left).
    unfold mbind, M_bind, Session.view at 1, Session.tree_getEntry, Session.getEntry, Session.read_storage,
      Session.query_storage, getEntry. rewrite He.
    rewrite (app_cons_snoc acc e mine). inversion Hpath as [? Hroot|? p pe l Hp Hpe Hrest]; subst.
    + rewrite Hroot. destruct mine; [|done]. destruct fuel; [simpl in Hfuel; lia|]. by rewrite app_nil_r.
    + rewrite Hp. assert (e_id pe = p) as <- by (by apply (wf_byId_id _ Hwf)).
      apply IH; [done|done| |simpl in Hfuel; lia]. intros y Hy. apply Hne. by right.
Qed.

(** Two chains of parents share exactly an end, which starts at the first entry of one
    that is on the other. *)
Lemma branches_split s eo et po pt :
  state_wf s -> eo ∈ entries s -> root_path (entriesById s) eo po ->
  et ∈ entries s -> root_path (entriesById s) et pt ->
  exists mine theirs shared,
    po = mine ++ shared /\ pt = theirs ++ shared /\ (forall e, e ∈ mine -> e ∉ pt) /\
    (forall x, x ∈ mine -> Some (e_id x) <> e_id <$> head shared) /\
    (e_id <$> head shared) = (fun ie => e_id ie.2) <$> list_find (fun entry => e_id entry ∈ e_id <$> po) pt.
Proof.
  intros Hwf Hoin Hpo Htin Hpt. pose proof (root_path_ids s Hwf eo po Hoin Hpo) as Hnd.
  destruct (root_path_spec s Hwf eo po Hoin Hpo) as [_ Hoall]. destruct (root_path_spec s Hwf et pt Htin Hpt) as [_ Htall].
  rewrite Forall_forall in Hoall, Htall.
  assert (Hsame : forall x y, x ∈ po -> y ∈ pt -> e_id x = e_id y -> x = y).
  { intros x y Hx Hy Heq. destruct (Hoall x Hx) as [Hxin _], (Htall y Hy) as [Hyin _].
    pose proof (wf_elem_byId s Hwf x Hxin) as H1. pose proof (wf_elem_byId s Hwf y Hyin) as H2.
    rewrite Heq in H1. congruence. }
  destruct (list_find (fun entry => e_id entry ∈ e_id <$> po) pt) as [[i x]|] eqn:Hfind.
  - apply list_find_Some in Hfind as (Hx & (y & Hxy & Hyin)%list_elem_of_fmap & Hbefore).
    assert (y = x) as -> by (apply Hsame; [done|by eapply list_elem_of_lookup_2|done]).
    apply list_elem_of_split in Hyin as (mine & rest & Hpo_eq). pose proof (take_drop_middle pt i x Hx) as Hpt_eq.
    assert (drop (S i) pt = rest) as Hrest.
    { rewrite <-Hpt_eq in Hpt. rewrite Hpo_eq in Hpo. apply root_path_suffix in Hpo, Hpt.
      pose proof (root_path_det _ _ _ _ Hpt Hpo) as [= ->]. done. }
    rewrite Hrest in Hpt_eq. rewrite Hpo_eq, fmap_app in Hnd. apply NoDup_app in Hnd as (_ & Hdis & _).
    exists mine, (take i pt), (x :: rest). split_and!; [done|done| | |done].
    + intros e He Hept. rewrite <-Hpt_eq in Hept. apply elem_of_app in Hept as [Hlt|Hge].
      * apply list_elem_of_lookup in Hlt as [j [Hj Hji]%lookup_take_Some].
        apply (Hbefore j e Hj Hji). apply list_elem_of_fmap. exists e. split; [done|].
        rewrite Hpo_eq. apply elem_of_app. by left.
      * apply (Hdis (e_id e)); by apply list_elem_of_fmap_2.
    + intros z Hz [= Heq]. apply (Hdis (e_id z)); [by apply list_elem_of_fmap_2|]. rewrite Heq. by left.
  - apply list_find_None in Hfind. rewrite Forall_forall in Hfind. exists po, pt, []. rewrite !app_nil_r.
    split_and!; [done|done| |done|done]. intros e He Hept. apply (Hfind e Hept). by apply list_elem_of_fmap_2.
Qed.

(** The entries to summarize before a navigation are exactly the part of the old
    branch that the target's branch does not share, oldest first, and the common
    ancestor is the deepest entry of both: the chain of parents of the old leaf is the
    collected part followed by the shared part, the target's chain ends with the same
    shared part, nothing collected is on the target's branch, and the walk ends. *)
Theorem collectEntriesForBranchSummary_spec lane (st : St) oldLeafId targetId eo et po pt :
  let s := storage_view st in
  state_wf s -> entriesById s !! "" = None ->
  entriesById s !! oldLeafId = Some eo -> root_path (entriesById s) eo po ->
  entriesById s !! targetId = Some et -> root_path (entriesById s) et pt ->
  exists mine theirs shared,
    po = mine ++ shared /\ pt = theirs ++ shared /\ (forall e, e ∈ mine -> e ∉ pt) /\
    eventually (fun fuel =>
      collectEntriesForBranchSummary (Session.view 0 lane) fuel (Some oldLeafId) targetId st =
      (st, Ok {| ces_entries := reverse mine; ces_commonAncestorId := e_id <$> head shared |})).
Proof.
  intros s Hwf Hempty Ho Hpo Ht Hpt.
  destruct (wf_byId_elem s Hwf _ _ Ho) as [Hoin <-]. destruct (wf_byId_elem s Hwf _ _ Ht) as [Htin _].
  destruct (branches_split s eo et po pt Hwf Hoin Hpo Htin Hpt) as (mine & theirs & shared & Hpo_eq & Hpt_eq & Hdis & Hne & Hfind).
  exists mine, theirs, shared. split_and!; [done|done|done|]. exists (S (length mine)). intros fuel Hfuel.
  unfold collectEntriesForBranchSummary.
  assert (truthy (Some (e_id eo)) = Some (e_id eo)) as ->.
  { unfold truthy. rewrite bool_decide_eq_false_2; [done|]. intros Hz. rewrite Hz in Ho. congruence. }
  unfold mbind, M_bind. rewrite (branch_from_start lane st _ eo po), (branch_from_start lane st _ et pt) by done.
  rewrite <-Hfind. rewrite (collect_entries_path lane st eo mine shared fuel []); [done|done|done|done| |done|lia].
  by rewrite <-Hpo_eq.
Qed.
End collect.

(** Leaving "e4" for "e3": both come from "e1". *)
Lemma sample_path id :
  is_Some (entriesById sample !! id) ->
  exists e path, entriesById sample !! id = Some e /\ root_path (entriesById sample) e path.
Proof.
  intros [e He]. destruct (wf_byId_elem sample sample_wf id e He) as [Hin _].
  destruct (root_path_exists sample sample_wf e Hin) as [path Hp]. eauto.
Qed.
Lemma collectEntriesForBranchSummary_spec_witness :
  (exists mine shared, exists fuel,
    collectEntriesForBranchSummary (Session.view 0 "main") fuel (Some "e4") "e3" sample_storage =
    (sample_storage, Ok {| ces_entries := reverse mine; ces_commonAncestorId := e_id <$> head shared |})) /\
  match (collectEntriesForBranchSummary (Session.view 0 "main") 5 (Some "e4") "e3" sample_storage).2 with
  | Ok r => e_id <$> ces_entries r = ["e2"; "e4"] /\ ces_commonAncestorId r = Some "e1"
  | Err _ => False
  end.
Proof.
  split; [|split; vm_compute; reflexivity].
  destruct (sample_path "e4") as (eo & po & Ho & Hpo); [vm_compute; eauto|].
  destruct (sample_path "e3") as (et & pt & Ht & Hpt); [vm_compute; eauto|].
  assert (entriesById sample !! "" = None) as Hempty by (vm_compute; reflexivity).
  destruct (collectEntriesForBranchSummary_spec "main" sample_storage "e4" "e3" eo et po pt
              sample_storage_wf Hempty Ho Hpo Ht Hpt) as (mine & theirs & shared & _ & _ & _ & H).
  apply eventually_exists in H as [fuel H]. exists mine, shared, fuel. exact H.
Defined.
