(* ===== verification/ToolPipeline.v ===== *)
(** * Executing tool calls (packages/agent/src/agent-loop.ts)

    The pipeline of one tool call: preparation, admission, scheduling, dispatch,
    execution, finalization and persistence, and the two batch disciplines.  The host's
    hooks, the tools and the event listeners are computations on the state [W] of the
    outside world, which may throw.  Durations and the constant run and step identities of
    the execution events are left out.  [validateToolArguments] converts and checks with
    the typebox package and is a parameter. *)
From S2P Require Import Prelude JsNumber SessionTypes JsonNumber JsonText ResourceScheduler ToolExecution.

(** ** Data *)

Record AgentToolResult := {
  ar_content : option (list content); ar_details : option json; ar_usage : option Usage;
  ar_structuredContent : option json; ar_nestedCalls : option json; ar_nestedExecutionOutcome : option string;
  ar_addedToolNames : option (list string); ar_terminate : option bool }.

(** A thrown value: its message, and what an [AgentToolError] carries. *)
Record Failure := {
  fl_message : string; fl_toolError : option AgentToolError; fl_structuredContent : option json;
  fl_nestedCalls : option json; fl_usage : option Usage }.
Definition plain_failure (message : string) : Failure :=
  {| fl_message := message; fl_toolError := None; fl_structuredContent := None; fl_nestedCalls := None;
     fl_usage := None |}.

(** [createErrorToolResult]: the details default to an empty object. *)
Definition createErrorToolResult (message : string) (details : option json) : AgentToolResult :=
  {| ar_content := Some [TextContent message None]; ar_details := Some (default (JsonObject []) details);
     ar_usage := None; ar_structuredContent := None; ar_nestedCalls := None; ar_nestedExecutionOutcome := None;
     ar_addedToolNames := None; ar_terminate := None |}.
Definition set_terminate (v : option bool) (r : AgentToolResult) : AgentToolResult :=
  {| ar_content := ar_content r; ar_details := ar_details r; ar_usage := ar_usage r;
     ar_structuredContent := ar_structuredContent r; ar_nestedCalls := ar_nestedCalls r;
     ar_nestedExecutionOutcome := ar_nestedExecutionOutcome r; ar_addedToolNames := ar_addedToolNames r;
     ar_terminate := v |}.

Inductive ToolExecutionMode := Sequential | Parallel.

(** What a running tool does: acts on the world, reports a partial result, settles. *)
Inductive tool_run (W : Type) :=
| Settles (outcome : result Failure AgentToolResult)
| Reports (partialResult : AgentToolResult) (rest : tool_run W)
| Acts (act : W -> W * tool_run W).
Arguments Settles {W}. Arguments Reports {W}. Arguments Acts {W}.

Record AgentTool (W : Type) := {
  at_name : string; at_executionMode : option ToolExecutionMode; at_orchestratesTools : bool;
  at_contract : option ToolContract; at_executionResource : option ResourceRequest;
  at_prepareArguments : option (json -> result Failure json);
  at_execute : string -> json -> tool_run W }.
Arguments at_name {W}. Arguments at_executionMode {W}. Arguments at_orchestratesTools {W}.
Arguments at_contract {W}. Arguments at_executionResource {W}. Arguments at_prepareArguments {W}.
Arguments at_execute {W}.

(** What a provider's response stream yields. *)
Inductive AssistantMessageEvent :=
| StreamStart (partial : AssistantMessage)
| TextStart (contentIndex : nat) (partial : AssistantMessage)
| TextDelta (contentIndex : nat) (delta : string) (partial : AssistantMessage)
| TextEnd (contentIndex : nat) (content : string) (partial : AssistantMessage) (itemComplete : option bool)
| ThinkingStart (contentIndex : nat) (partial : AssistantMessage)
| ThinkingDelta (contentIndex : nat) (delta : string) (partial : AssistantMessage)
| ThinkingEnd (contentIndex : nat) (content : string) (partial : AssistantMessage) (itemComplete : option bool)
| ToolCallStart (contentIndex : nat) (partial : AssistantMessage)
| ToolCallDelta (contentIndex : nat) (delta : string) (partial : AssistantMessage)
| ToolCallEnd (contentIndex : nat) (toolCall : AgentToolCall) (partial : AssistantMessage) (itemComplete : option bool)
| StreamDone (reason : StopReason) (message : AssistantMessage)
| StreamError (reason : StopReason) (error : AssistantMessage).

Inductive AgentEvent :=
| EvAgentStart
| EvAgentEnd (messages : list AgentMessage)
| EvTurnStart
| EvTurnEnd (message : AgentMessage) (toolResults : list ToolResultMessage)
| EvMessageStart (message : AgentMessage)
| EvMessageUpdate (message : AgentMessage) (assistantMessageEvent : AssistantMessageEvent)
| EvMessageEnd (message : AgentMessage)
| EvToolStart (toolCallId toolName : string) (args : json) (parentToolCallId : option string)
| EvToolUpdate (toolCallId toolName : string) (args : json) (partialResult : AgentToolResult)
               (parentToolCallId : option string)
| EvToolEnd (toolCallId toolName : string) (result : AgentToolResult) (isError : bool)
            (parentToolCallId : option string).

Inductive ExecutionPhase := ProviderRequest | ToolAdmission | SchedulerWait | ToolExecuting | ExecutionResult.
Inductive PhaseOutcome := PhStarted | PhSucceeded | PhFailed | PhDenied | PhCancelled.
Record ExecutionEvent := {
  ee_phase : ExecutionPhase; ee_toolCallId : option string; ee_toolName : option string; ee_outcome : PhaseOutcome;
  ee_reason : option string }.

Record BeforeToolCallResult := { bt_block : bool; bt_reason : option string; bt_terminate : option bool }.
Record AfterToolCallResult := {
  af_content : option (list content); af_structuredContent : option json; af_details : option json;
  af_isError : option bool; af_usage : option Usage; af_terminate : option bool }.
Record ToolAdmissionResult := { ad_allow : option bool; ad_reason : option string }.

Record PreparedToolCall (W : Type) := { pc_toolCall : AgentToolCall; pc_tool : AgentTool W; pc_args : json }.
Arguments pc_toolCall {W}. Arguments pc_tool {W}. Arguments pc_args {W}.
Inductive preparation (W : Type) :=
| Prepared (p : PreparedToolCall W)
| Immediate (result : AgentToolResult) (isError : bool).
Arguments Prepared {W}. Arguments Immediate {W}.

Record ExecutedToolCallOutcome := {
  ex_result : AgentToolResult; ex_isError : bool; ex_executionOutcome : ToolExecutionOutcome }.
Record FinalizedToolCallOutcome := {
  fz_toolCall : AgentToolCall; fz_result : AgentToolResult; fz_isError : bool;
  fz_executionOutcome : ToolExecutionOutcome; fz_message : option ToolResultMessage }.
Record ExecutedToolCallBatch := { eb_messages : list ToolResultMessage; eb_terminate : bool }.

(** [bindings] of a plan is a view of its tools: the last one of each name. *)
Record ToolPlan (W : Type) := { tp_revision : nat; tp_identity : string; tp_tools : list (AgentTool W) }.
Arguments tp_revision {W}. Arguments tp_identity {W}. Arguments tp_tools {W}.
Record AgentContext (W : Type) := {
  cx_systemPrompt : string; cx_messages : list AgentMessage; cx_tools : option (list (AgentTool W));
  cx_toolPlan : option (ToolPlan W) }.
Arguments cx_systemPrompt {W}. Arguments cx_messages {W}. Arguments cx_tools {W}. Arguments cx_toolPlan {W}.

(** ** The host *)

(** The hooks of [AgentLoopConfig] the pipeline calls; an absent hook is [None].  [L] is
    the type of leases.  [beforeToolCall] may mutate the arguments it is given: it
    returns what they are afterwards.  The hooks of a dispatch are given the identity of the
    calling tool, when the call is host-issued. *)
Record ToolHost (W L : Type) := {
  emit : AgentEvent -> M W Failure unit;
  report : ExecutionEvent -> W -> W;
  aborted_now : W -> bool;
  Date_now : W -> number;
  toolExecution : option ToolExecutionMode;
  parentToolCallId : option string;
  validateToolArguments : AgentTool W -> AgentToolCall -> result Failure json;
  beforeToolCall : option (AgentContext W -> AssistantMessage -> AgentToolCall -> json ->
                           M W Failure (json * option BeforeToolCallResult));
  afterToolCall : option (AgentContext W -> AssistantMessage -> AgentToolCall -> json -> AgentToolResult -> bool ->
                          M W Failure (option AfterToolCallResult));
  onToolResult : option (ToolResultMessage -> AgentToolCall -> bool -> ToolExecutionOutcome -> M W Failure unit);
  beforeToolDispatch : option (option string -> PreparedToolCall W -> M W Failure unit);
  admitEffect : option (M W Failure bool);
  admitToolCall : option (option string -> PreparedToolCall W -> M W Failure (option ToolAdmissionResult));
  acquire_lease : option (option ResourceRequest -> M W Failure (option L));
  release_lease : L -> W -> W }.
Arguments emit {W L}. Arguments report {W L}. Arguments aborted_now {W L}. Arguments Date_now {W L}.
Arguments toolExecution {W L}. Arguments parentToolCallId {W L}. Arguments validateToolArguments {W L}.
Arguments beforeToolCall {W L}. Arguments afterToolCall {W L}. Arguments onToolResult {W L}.
Arguments beforeToolDispatch {W L}. Arguments admitEffect {W L}. Arguments admitToolCall {W L}.
Arguments acquire_lease {W L}. Arguments release_lease {W L}.

(** [try { f } catch (error) { handler }] *)
Definition try_catch {W E A} (f : M W E A) (handler : E -> M W E A) : M W E A :=
  fun w => match f w with
           | (w', Err e) => handler e w'
           | r => r
           end.
(** [a ?? b] *)
Definition coalesce {A} (a b : option A) : option A := match a with Some _ => a | None => b end.
(** [tools?.find((t) => t.name === name)] *)
Definition find_tool {W} (name : string) (tools : list (AgentTool W)) : option (AgentTool W) :=
  snd <$> list_find (fun t => at_name t = name) tools.
(** [createToolPlan]: one tool per name, the last of its name in the place of the first.
    The copies it freezes are the same values. *)
Definition createToolPlan {W} (tools : list (AgentTool W)) (revision : nat) (identity : option string) : ToolPlan W :=
  {| tp_revision := revision;
     tp_identity := default ("tool-plan-" +:+ pretty (Z.of_nat revision)) identity;
     tp_tools := jm_values (jm_of_list ((fun t => (at_name t, t)) <$> tools)) |}.
(** [plan.bindings[name]] *)
Definition bindings {W} (plan : ToolPlan W) (name : string) : option (AgentTool W) :=
  find_tool name (reverse (tp_tools plan)).
Definition context_tool {W} (ctx : AgentContext W) (name : string) : option (AgentTool W) :=
  coalesce (cx_toolPlan ctx ≫= fun plan => bindings plan name) (cx_tools ctx ≫= find_tool name).

Section pipeline.
Context {W L : Type} (host : ToolHost W L).

Definition HostM := M W Failure.
Definition aborted : HostM bool := fun w => (w, Ok (aborted_now host w)).

(** ** Preparation *)

Definition prepareToolCallArguments (tool : AgentTool W) (toolCall : AgentToolCall) : result Failure AgentToolCall :=
  match at_prepareArguments tool with
  | None => Ok toolCall
  | Some prepare => args ← prepare (tc_arguments toolCall);
                    Ok {| tc_id := tc_id toolCall; tc_name := tc_name toolCall; tc_arguments := args;
                          tc_thoughtSignature := tc_thoughtSignature toolCall; tc_namespace := tc_namespace toolCall |}
  end.
Definition with_arguments (toolCall : AgentToolCall) (args : json) : AgentToolCall :=
  {| tc_id := tc_id toolCall; tc_name := tc_name toolCall; tc_arguments := args;
     tc_thoughtSignature := tc_thoughtSignature toolCall; tc_namespace := tc_namespace toolCall |}.

Definition abort_immediately : preparation W := Immediate (createErrorToolResult "Operation aborted" None) true.
Definition blocked (before : BeforeToolCallResult) : preparation W :=
  let reason := match bt_reason before with
                | Some r => if bool_decide (r = "") then "Tool execution was blocked" else r
                | None => "Tool execution was blocked"
                end in
  let result := createErrorToolResult reason None in
  Immediate (if bool_decide (bt_terminate before = Some true) then set_terminate (Some true) result else result) true.

Definition prepareToolCall (ctx : AgentContext W) (assistantMessage : AssistantMessage) (toolCall : AgentToolCall)
  : HostM (preparation W) :=
  match context_tool ctx (tc_name toolCall) with
  | None => mret (Immediate (createErrorToolResult ("Tool " +:+ tc_name toolCall +:+ " not found") None) true)
  | Some tool =>
      let ready args := Prepared {| pc_toolCall := toolCall; pc_tool := tool; pc_args := args |} in
      try_catch
        (preparedToolCall ← lift (prepareToolCallArguments tool toolCall);
         validatedArgs ← lift (validateToolArguments host tool preparedToolCall);
         match beforeToolCall host with
         | Some hook =>
             '(args, beforeResult) ← hook ctx assistantMessage toolCall validatedArgs;
             stop ← aborted;
             if (stop : bool) then mret abort_immediately
             else match beforeResult with
                  | Some b =>
                      if bt_block b then mret (blocked b)
                      else revalidatedArgs ← lift (validateToolArguments host tool (with_arguments toolCall args));
                           stop ← aborted;
                           mret (if (stop : bool) then abort_immediately else ready revalidatedArgs)
                  | None =>
                      revalidatedArgs ← lift (validateToolArguments host tool (with_arguments toolCall args));
                      stop ← aborted;
                      mret (if (stop : bool) then abort_immediately else ready revalidatedArgs)
                  end
         | None => stop ← aborted;
                   mret (if (stop : bool) then abort_immediately else ready validatedArgs)
         end)
        (fun error => mret (Immediate (createErrorToolResult (fl_message error) None) true))
  end.

(** ** Execution *)

Definition observe (call : AgentToolCall) (phase : ExecutionPhase) (outcome : PhaseOutcome) (reason : option string)
  : HostM unit :=
  modify (report host {| ee_phase := phase; ee_toolCallId := Some (tc_id call); ee_toolName := Some (tc_name call);
                         ee_outcome := outcome; ee_reason := reason |}).

(** The run of a tool; the first failure of an update's listener is kept for later. *)
Fixpoint run_tool (parent : option string) (call : AgentToolCall) (t : tool_run W) (failed : option Failure) (w : W)
  : W * (option Failure * result Failure AgentToolResult) :=
  match t with
  | Settles outcome => (w, (failed, outcome))
  | Reports partialResult rest =>
      let '(w, r) := emit host (EvToolUpdate (tc_id call) (tc_name call) (tc_arguments call) partialResult
                                  parent) w in
      run_tool parent call rest (match failed, r with None, Err e => Some e | _, _ => failed end) w
  | Acts act => match act w with (w', t') => run_tool parent call t' failed w' end
  end.

Definition refused (message : string) : ExecutedToolCallOutcome :=
  {| ex_result := createErrorToolResult message None; ex_isError := true; ex_executionOutcome := NotStarted |}.

(** [await admitToolCall?.(...)]: the refusal, if there is one. *)
Definition admission (parent : option string) (prepared : PreparedToolCall W) : HostM (option string) :=
  let call := pc_toolCall prepared in
  match admitToolCall host with
  | None => mret None
  | Some admits =>
      observe call ToolAdmission PhStarted None;;
      decision ← try_catch (admits parent prepared)
        (fun error => observe call ToolAdmission PhFailed (Some "tool admission failed");; throw error);
      match decision with
      | Some d =>
          if bool_decide (ad_allow d = Some false) then
            let reason := default "Tool execution was denied" (ad_reason d) in
            observe call ToolAdmission PhDenied (Some reason);;
            observe call ExecutionResult PhDenied (Some reason);;
            mret (Some reason)
          else observe call ToolAdmission PhSucceeded None;; mret None
      | None => observe call ToolAdmission PhSucceeded None;; mret None
      end
  end.

(** The lease, when there is a scheduler; [Ok None]: cancelled while waiting. *)
Definition scheduling (prepared : PreparedToolCall W) : HostM (option (option L)) :=
  let call := pc_toolCall prepared in
  match acquire_lease host with
  | Some acquire =>
      if at_orchestratesTools (pc_tool prepared) then mret (Some None)
      else
        observe call SchedulerWait PhStarted None;;
        lease ← acquire (at_executionResource (pc_tool prepared));
        match lease with
        | None =>
            let reason := Some "cancelled while waiting for execution resources" in
            observe call SchedulerWait PhCancelled reason;;
            observe call ExecutionResult PhCancelled reason;;
            mret None
        | Some l => observe call SchedulerWait PhSucceeded None;; mret (Some (Some l))
        end
  | None => mret (Some None)
  end.
Definition release_all (lease : option L) : HostM unit :=
  match lease with Some l => modify (release_lease host l) | None => mret tt end.

Definition replay_like (tool : AgentTool W) : ReplaySafeToolLike :=
  {| rst_contract := at_contract tool; rst_orchestratesTools := Some (at_orchestratesTools tool) |}.
Definition failed_result (error : Failure) : AgentToolResult :=
  let base := createErrorToolResult (fl_message error) (te_details <$> fl_toolError error) in
  match fl_toolError error with
  | None => base
  | Some e =>
      {| ar_content := ar_content base; ar_details := ar_details base; ar_usage := fl_usage error;
         ar_structuredContent := fl_structuredContent error; ar_nestedCalls := fl_nestedCalls error;
         ar_nestedExecutionOutcome := if te_nestedUnknown e then Some "unknown" else None;
         ar_addedToolNames := None; ar_terminate := None |}
  end.

(** The try block around [tool.execute], without its [finally]. *)
Definition execution (parent : option string) (prepared : PreparedToolCall W) : HostM ExecutedToolCallOutcome := fun w =>
  let call := pc_toolCall prepared in
  let '(w, (updates, outcome)) := run_tool parent call (at_execute (pc_tool prepared) (tc_id call) (pc_args prepared)) None w in
  let fails error :=
    (match updates with Some u => throw u | None => mret tt end);;
    observe call ExecutionResult PhFailed (Some "tool execution failed");;
    mret {| ex_result := failed_result error; ex_isError := true;
            ex_executionOutcome := getToolErrorOutcome (fl_toolError error) (tc_name call) (pc_args prepared)
                                     (Some (replay_like (pc_tool prepared))) |} in
  match outcome, updates with
  | Ok result, None =>
      (observe call ExecutionResult PhSucceeded None;;
       mret {| ex_result := result; ex_isError := false; ex_executionOutcome := Confirmed |}) w
  | Ok _, Some error | Err error, _ => fails error w
  end.
(** [try { f } finally { lease?.release() }] *)
Definition with_lease {A} (lease : option L) (f : HostM A) : HostM A :=
  fun w => let '(w, r) := f w in ((release_all lease w).1, r).

(** The last durable decision before the effect, skipped in an aborted run. *)
Definition dispatching (parent : option string) (prepared : PreparedToolCall W) (lease : option L) : HostM unit :=
  try_catch
    (stop ← aborted;
     if (stop : bool) then mret tt
     else match beforeToolDispatch host with Some dispatch => dispatch parent prepared | None => mret tt end)
    (fun error => release_all lease;; throw error).
Definition effect_gate : HostM bool := match admitEffect host with Some admits => admits | None => mret true end.
(** What follows a lease. *)
Definition leased_call (parent : option string) (prepared : PreparedToolCall W) (lease : option L)
  : HostM ExecutedToolCallOutcome :=
  let call := pc_toolCall prepared in
  dispatching parent prepared lease;;
  admitted ← effect_gate;
  stop ← aborted;
  if stop || negb admitted then
    release_all lease;;
    observe call ExecutionResult PhCancelled
      (Some (if (stop : bool) then "Operation aborted" else "Execution admission denied"));;
    mret (refused "Operation aborted")
  else
    observe call ToolExecuting PhStarted None;;
    with_lease lease (execution parent prepared).

Definition executePreparedToolCall (parent : option string) (prepared : PreparedToolCall W) : HostM ExecutedToolCallOutcome :=
  if at_orchestratesTools (pc_tool prepared) && bool_decide (is_Some (at_executionResource (pc_tool prepared))) then
    mret (refused "Orchestrators must leave execution resources to their nested tools")
  else
    denied ← admission parent prepared;
    match denied with
    | Some reason => mret (refused reason)
    | None =>
        leased ← scheduling prepared;
        match leased with
        | None => mret (refused "Operation aborted")
        | Some lease => leased_call parent prepared lease
        end
    end.

(** ** Finalization *)

(** [a ?? b] of JSON values: null is replaced too. *)
Definition nullish_or (a b : option json) : option json :=
  match a with None | Some JsonNull => b | Some _ => a end.
Definition merge_result (result : AgentToolResult) (after : AfterToolCallResult) : AgentToolResult :=
  {| ar_content := coalesce (af_content after) (ar_content result);
     ar_details := nullish_or (af_details after) (ar_details result);
     ar_usage := coalesce (af_usage after) (ar_usage result);
     ar_structuredContent := nullish_or (af_structuredContent after) (ar_structuredContent result);
     ar_nestedCalls := ar_nestedCalls result; ar_nestedExecutionOutcome := ar_nestedExecutionOutcome result;
     ar_addedToolNames := ar_addedToolNames result;
     ar_terminate := coalesce (af_terminate after) (ar_terminate result) |}.

Definition finalizeExecutedToolCall (ctx : AgentContext W) (assistantMessage : AssistantMessage) (prepared : PreparedToolCall W)
    (executed : ExecutedToolCallOutcome) : HostM FinalizedToolCallOutcome :=
  let finalized result isError :=
    {| fz_toolCall := pc_toolCall prepared; fz_result := result; fz_isError := isError;
       fz_executionOutcome := ex_executionOutcome executed; fz_message := None |} in
  match afterToolCall host with
  | None => mret (finalized (ex_result executed) (ex_isError executed))
  | Some hook =>
      try_catch
        (after ← hook ctx assistantMessage (pc_toolCall prepared) (pc_args prepared) (ex_result executed) (ex_isError executed);
         mret (match after with
               | Some a => finalized (merge_result (ex_result executed) a) (default (ex_isError executed) (af_isError a))
               | None => finalized (ex_result executed) (ex_isError executed)
               end))
        (fun error => mret (finalized (createErrorToolResult (fl_message error) None) true))
  end.

(** [createToolResultMessage] of a call that has no message yet. *)
Definition new_tool_result (finalized : FinalizedToolCallOutcome) (timestamp : number) : ToolResultMessage :=
  let result := fz_result finalized in
  {| tr_toolCallId := tc_id (fz_toolCall finalized); tr_toolName := tc_name (fz_toolCall finalized);
     tr_content := default [] (ar_content result); tr_details := ar_details result; tr_usage := ar_usage result;
     tr_addedToolNames := match ar_addedToolNames result with Some (_ :: _) => ar_addedToolNames result | _ => None end;
     tr_structuredContent := ar_structuredContent result; tr_nestedCalls := ar_nestedCalls result;
     tr_nestedExecutionOutcome := ar_nestedExecutionOutcome result; tr_isError := fz_isError finalized;
     tr_timestamp := timestamp |}.
Definition createToolResultMessage (finalized : FinalizedToolCallOutcome) : HostM ToolResultMessage :=
  fun w => (w, Ok (match fz_message finalized with
                   | Some message => message
                   | None => new_tool_result finalized (Date_now host w)
                   end)).
Definition set_message (message : ToolResultMessage) (f : FinalizedToolCallOutcome) : FinalizedToolCallOutcome :=
  {| fz_toolCall := fz_toolCall f; fz_result := fz_result f; fz_isError := fz_isError f;
     fz_executionOutcome := fz_executionOutcome f; fz_message := Some message |}.
Definition terminates (f : FinalizedToolCallOutcome) : bool := bool_decide (ar_terminate (fz_result f) = Some true).

(** The finalized call, with its message. *)
Definition persistToolResult (finalized : FinalizedToolCallOutcome) : HostM FinalizedToolCallOutcome :=
  message ← createToolResultMessage finalized;
  match onToolResult host with
  | Some hook => hook message (fz_toolCall finalized) (terminates finalized) (fz_executionOutcome finalized)
  | None => mret tt
  end;;
  mret (set_message message finalized).

Definition emitToolExecutionEnd (f : FinalizedToolCallOutcome) : HostM unit :=
  emit host (EvToolEnd (tc_id (fz_toolCall f)) (tc_name (fz_toolCall f)) (fz_result f) (fz_isError f) None).
Definition emitToolResultMessage (message : ToolResultMessage) : HostM unit :=
  emit host (EvMessageStart (ToolResultMsg message));; emit host (EvMessageEnd (ToolResultMsg message)).

(** ** Batches *)

Definition shouldTerminateToolBatch (finalizedCalls : list FinalizedToolCallOutcome) : bool :=
  match finalizedCalls with [] => false | _ => forallb terminates finalizedCalls end.

Definition emitToolStart (call : AgentToolCall) : HostM unit :=
  emit host (EvToolStart (tc_id call) (tc_name call) (tc_arguments call) None).
Definition immediately (call : AgentToolCall) (result : AgentToolResult) (isError : bool) : FinalizedToolCallOutcome :=
  {| fz_toolCall := call; fz_result := result; fz_isError := isError; fz_executionOutcome := NotStarted;
     fz_message := None |}.
Definition execute_and_finalize (ctx : AgentContext W) (assistantMessage : AssistantMessage) (prepared : PreparedToolCall W)
  : HostM FinalizedToolCallOutcome :=
  executed ← executePreparedToolCall None prepared;
  finalizeExecutedToolCall ctx assistantMessage prepared executed.

Definition quote_mark : string := String (Ascii.ascii_of_nat 34) EmptyString.
Definition truncated_message (name : string) : string :=
  "Tool call " +:+ quote_mark +:+ name +:+ quote_mark
    +:+ " was not executed: the response hit the output token limit, so its arguments may be truncated. Re-issue the tool call with complete arguments.".

(** The tail of each call's turn: persist, report the end, publish the message. *)
Definition publish (finalized : FinalizedToolCallOutcome) : HostM FinalizedToolCallOutcome :=
  finalized ← persistToolResult finalized;
  emitToolExecutionEnd finalized;;
  message ← createToolResultMessage finalized;
  emitToolResultMessage message;;
  mret finalized.
Definition batch (finalizedCalls : list FinalizedToolCallOutcome) (terminate : bool) : ExecutedToolCallBatch :=
  {| eb_messages := omap fz_message finalizedCalls; eb_terminate := terminate |}.

Fixpoint fail_truncated (toolCalls : list AgentToolCall) (done : list FinalizedToolCallOutcome)
  : HostM (list FinalizedToolCallOutcome) :=
  match toolCalls with
  | [] => mret done
  | call :: toolCalls' =>
      emitToolStart call;;
      finalized ← publish (immediately call (createErrorToolResult (truncated_message (tc_name call)) None) true);
      fail_truncated toolCalls' (done ++ [finalized])
  end.
Definition failToolCallsFromTruncatedMessage (toolCalls : list AgentToolCall) : HostM ExecutedToolCallBatch :=
  finalized ← fail_truncated toolCalls [];
  mret (batch finalized false).

Section with_context.
Context (ctx : AgentContext W) (assistantMessage : AssistantMessage).

Fixpoint sequential_calls (toolCalls : list AgentToolCall) (done : list FinalizedToolCallOutcome)
  : HostM (list FinalizedToolCallOutcome) :=
  match toolCalls with
  | [] => mret done
  | call :: toolCalls' =>
      emitToolStart call;;
      preparation ← prepareToolCall ctx assistantMessage call;
      finalized ← match preparation with
                  | Immediate result isError => mret (immediately call result isError)
                  | Prepared prepared => execute_and_finalize ctx assistantMessage prepared
                  end;
      finalized ← publish finalized;
      stop ← aborted;
      if (stop : bool) then mret (done ++ [finalized])
      else sequential_calls toolCalls' (done ++ [finalized])
  end.
Definition executeToolCallsSequential (toolCalls : list AgentToolCall) : HostM ExecutedToolCallBatch :=
  finalizedCalls ← sequential_calls toolCalls [];
  mret (batch finalizedCalls (shouldTerminateToolBatch finalizedCalls)).

(** The preflight of the parallel discipline: refused calls are finalized at once, the
    others become entries to run. *)
Definition entry : Type := FinalizedToolCallOutcome + PreparedToolCall W.
Fixpoint preflight (toolCalls : list AgentToolCall) (entries : list entry) : HostM (list entry) :=
  match toolCalls with
  | [] => mret entries
  | call :: toolCalls' =>
      emitToolStart call;;
      preparation ← prepareToolCall ctx assistantMessage call;
      added ← match preparation with
              | Immediate result isError =>
                  finalized ← persistToolResult (immediately call result isError);
                  emitToolExecutionEnd finalized;;
                  mret (inl finalized)
              | Prepared prepared => mret (inr prepared)
              end;
      stop ← aborted;
      if (stop : bool) then mret (entries ++ [added]) else preflight toolCalls' (entries ++ [added])
  end.
Definition run_entry (e : entry) : HostM FinalizedToolCallOutcome :=
  match e with
  | inl finalized => mret finalized
  | inr prepared =>
      finalized ← execute_and_finalize ctx assistantMessage prepared;
      finalized ← persistToolResult finalized;
      emitToolExecutionEnd finalized;;
      mret finalized
  end.

(** [Promise.allSettled]: the entries run concurrently and each settles once.  [order] is
    the order in which they complete; an entry runs as one step. *)
Fixpoint settle_entries (order : list nat) (entries : list entry)
    (outcomes : gmap nat (result Failure FinalizedToolCallOutcome)) (w : W)
  : W * gmap nat (result Failure FinalizedToolCallOutcome) :=
  match order with
  | [] => (w, outcomes)
  | i :: order' =>
      match entries !! i with
      | Some e => let '(w, r) := run_entry e w in settle_entries order' entries (<[i := r]> outcomes) w
      | None => settle_entries order' entries outcomes w
      end
  end.
(** The outcomes in source order; the first rejection is rethrown. *)
Fixpoint collect_outcomes (outcomes : list (option (result Failure FinalizedToolCallOutcome)))
  : result Failure (list FinalizedToolCallOutcome) :=
  match outcomes with
  | [] => Ok []
  | Some (Ok f) :: outcomes' => rest ← collect_outcomes outcomes'; Ok (f :: rest)
  | Some (Err e) :: _ => Err e
  | None :: outcomes' => collect_outcomes outcomes'
  end.
Fixpoint publish_messages (finalizedCalls : list FinalizedToolCallOutcome) (messages : list ToolResultMessage)
  : HostM (list ToolResultMessage) :=
  match finalizedCalls with
  | [] => mret messages
  | f :: finalizedCalls' =>
      message ← createToolResultMessage f;
      emitToolResultMessage message;;
      publish_messages finalizedCalls' (messages ++ [message])
  end.

Definition executeToolCallsParallel (order : list nat) (toolCalls : list AgentToolCall) : HostM ExecutedToolCallBatch :=
  entries ← preflight toolCalls [];
  outcomes ← (fun w => let '(w, outcomes) := settle_entries order entries ∅ w in
                       (w, Ok ((fun i => outcomes !! i) <$> seq 0 (length entries))));
  ordered ← lift (collect_outcomes outcomes);
  messages ← publish_messages ordered [];
  mret {| eb_messages := messages; eb_terminate := shouldTerminateToolBatch ordered |}.

Definition is_sequential (m : option ToolExecutionMode) : bool := match m with Some Sequential => true | _ => false end.
Definition executeToolCalls (order : list nat) (recoveredCalls : option (list AgentToolCall)) : HostM ExecutedToolCallBatch :=
  let toolCalls := default (tool_calls assistantMessage) recoveredCalls in
  let hasSequentialToolCall :=
    existsb (fun tc => is_sequential (context_tool ctx (tc_name tc) ≫= at_executionMode)) toolCalls in
  if is_sequential (toolExecution host) || hasSequentialToolCall
  then executeToolCallsSequential toolCalls
  else executeToolCallsParallel order toolCalls.

(** One host-issued call; a refusal of the pipeline is a failed outcome. *)
Definition runToolCall (toolCall : AgentToolCall) : HostM FinalizedToolCallOutcome :=
  emit host (EvToolStart (tc_id toolCall) (tc_name toolCall) (tc_arguments toolCall) (parentToolCallId host));;
  preparation ← prepareToolCall ctx assistantMessage toolCall;
  finalized ← match preparation with
              | Immediate result isError => mret (immediately toolCall result isError)
              | Prepared prepared =>
                  executed ← try_catch (executePreparedToolCall (parentToolCallId host) prepared) (fun error =>
                    mret {| ex_result := createErrorToolResult (fl_message error) (te_details <$> fl_toolError error);
                            ex_isError := true;
                            ex_executionOutcome := match te_executionOutcome <$> fl_toolError error with
                                                   | Some NotStarted => NotStarted
                                                   | _ => Unknown
                                                   end |});
                  finalizeExecutedToolCall ctx assistantMessage prepared executed
              end;
  persistToolResult finalized;;
  emit host (EvToolEnd (tc_id toolCall) (tc_name toolCall) (fz_result finalized) (fz_isError finalized)
               (parentToolCallId host));;
  mret finalized.
End with_context.
End pipeline.
