(* ===== verification/ToolPipelineTheorems.v ===== *)
(** * What the tool pipeline guarantees

    The hooks of a host are observed through a log: [observes] says what each of them
    adds to it.  The theorems hold for every host and every tool. *)
From S2P Require Import Prelude JsNumber SessionTypes JsonNumber JsonText ResourceScheduler ToolExecution.
From S2P Require Import ToolPipeline.

(** ** Observation *)

(** What a hook did; [ActExecute] records whether the run was aborted when the tool
    started, and the failure with which the tool ended, if it failed. *)
Inductive action (L : Type) :=
| ActAdmit (allowed : bool)
| ActAcquire (lease : option L)
| ActDispatch
| ActGate (admitted : bool)
| ActGateThrew
| ActExecute (aborted : bool) (failure : option Failure)
| ActRelease (lease : L).
Arguments ActAdmit {L}. Arguments ActAcquire {L}. Arguments ActDispatch {L}. Arguments ActGate {L}.
Arguments ActGateThrew {L}. Arguments ActExecute {L}. Arguments ActRelease {L}.

(** How a call of a tool ended, from the first failure of its updates and its own outcome. *)
Definition settlement (updates : option Failure) (outcome : result Failure AgentToolResult) : option Failure :=
  match outcome, updates with
  | Ok _, None => None
  | Ok _, Some error | Err error, _ => Some error
  end.
(** The tool itself declares that it had not started. *)
Definition declares_not_started (failure : Failure) : Prop :=
  exists e, fl_toolError failure = Some e /\ te_nestedUnknown e = false /\ te_executionOutcome e = NotStarted.

Definition allows (d : option ToolAdmissionResult) : bool :=
  match d with Some d => negb (bool_decide (ad_allow d = Some false)) | None => true end.

Section observation.
Context {W L : Type} (host : ToolHost W L) (log : W -> list (action L)).

(** A hook that returns adds what [entry] says; one that throws adds [thrown]. *)
Definition adds {A} (f : M W Failure A) (entry : A -> list (action L)) (thrown : list (action L)) : Prop :=
  forall w, log (f w).1 = log w ++ match (f w).2 with Ok a => entry a | Err _ => thrown end.

Record observes (tool : AgentTool W) : Prop := {
  ob_report : forall e w, log (report host e w) = log w;
  ob_admit : forall admits parent p, admitToolCall host = Some admits -> adds (admits parent p) (fun d => [ActAdmit (allows d)]) [];
  ob_acquire : forall acquire r, acquire_lease host = Some acquire -> adds (acquire r) (fun l => [ActAcquire l]) [];
  ob_dispatch : forall dispatch parent p, beforeToolDispatch host = Some dispatch ->
    adds (dispatch parent p) (fun _ => [ActDispatch]) [];
  ob_gate : forall gate, admitEffect host = Some gate -> adds gate (fun b => [ActGate b]) [ActGateThrew];
  ob_signal : forall gate w, admitEffect host = Some gate -> aborted_now host w = true ->
    aborted_now host (gate w).1 = true;
  ob_release : forall l w, log (release_lease host l w) = log w ++ [ActRelease l];
  ob_execute : forall parent call args w,
    let '(w', (updates, outcome)) := run_tool host parent call (at_execute tool (tc_id call) args) None w in
    log w' = log w ++ [ActExecute (aborted_now host w) (settlement updates outcome)] }.

(** ** The abstract pipeline *)

Definition is_allow (a : action L) : bool := match a with ActAdmit b => b | _ => false end.
Definition is_leased (a : action L) : bool := match a with ActAcquire (Some _) => true | _ => false end.
Definition is_dispatch (a : action L) : bool := match a with ActDispatch => true | _ => false end.
Definition is_gate (a : action L) : bool := match a with ActGate b => b | _ => false end.
Definition is_execute (a : action L) : bool := match a with ActExecute _ _ => true | _ => false end.
Definition is_gate_threw (a : action L) : bool := match a with ActGateThrew => true | _ => false end.
Definition failure_of (a : action L) : option (option Failure) := match a with ActExecute _ f => Some f | _ => None end.
Definition acquired_of (a : action L) : option L := match a with ActAcquire l => l | _ => None end.
Definition released_of (a : action L) : option L := match a with ActRelease l => Some l | _ => None end.

(** Each [q] of the trace comes after some [p]. *)
Fixpoint precedes (p q : action L -> bool) (seen : bool) (tr : list (action L)) : bool :=
  match tr with
  | [] => true
  | a :: tr' => (negb (q a) || seen) && precedes p q (seen || p a) tr'
  end.

(** An observer of execution events does not abort the run. *)
Definition observers_keep_running : Prop := forall e w, aborted_now host (report host e w) = aborted_now host w.

Record pipeline_ok (prepared : PreparedToolCall W) (tr : list (action L))
    (r : result Failure ExecutedToolCallOutcome) : Prop := {
  pk_once : (length (keep is_execute tr) <= 1)%nat;
  pk_unaborted : observers_keep_running -> forall f, ActExecute true f ∉ tr;
  pk_admitted : is_Some (admitToolCall host) -> precedes is_allow is_execute false tr = true;
  pk_leased : is_Some (acquire_lease host) -> at_orchestratesTools (pc_tool prepared) = false ->
    precedes is_leased is_execute false tr = true;
  pk_dispatched : is_Some (beforeToolDispatch host) -> precedes is_dispatch is_execute false tr = true;
  pk_gated : is_Some (admitEffect host) -> precedes is_gate is_execute false tr = true;
  pk_released : omap released_of tr = if existsb is_gate_threw tr then [] else omap acquired_of tr;
  pk_outcome : forall o, r = Ok o ->
    match omap failure_of tr with
    | [] => ex_isError o = true /\ ex_executionOutcome o = NotStarted
    | None :: _ => ex_isError o = false /\ ex_executionOutcome o = Confirmed
    | Some failure :: _ =>
        ex_isError o = true /\ (ex_executionOutcome o = NotStarted <-> declares_not_started failure)
    end }.
End observation.

(** ** The stages *)

Section stages.
Context {W L : Type} (host : ToolHost W L) (log : W -> list (action L)) (prepared : PreparedToolCall W).
Context (Hobs : observes host log (pc_tool prepared)).

Lemma observe_silent call phase outcome reason w :
  exists w', observe host call phase outcome reason w = (w', Ok tt) /\ log w' = log w.
Proof. eexists. split; [reflexivity|]. apply (ob_report _ _ _ Hobs). Qed.

Lemma log_report e w : log (report host e w) = log w.
Proof. apply (ob_report _ _ _ Hobs). Qed.

(** Evaluates the reports of a stage and their effect on the log. *)
Ltac reported := cbn -[report release_lease]; rewrite ?log_report.

Lemma admission_spec parent w :
  match admission host parent prepared w with
  | (w', Ok None) => log w' = log w ++ (if admitToolCall host is Some _ then [ActAdmit true] else [])
  | (w', Ok (Some _)) => log w' = log w ++ [ActAdmit false]
  | (w', Err _) => log w' = log w
  end.
Proof.
  unfold admission. destruct (admitToolCall host) as [admits|] eqn:Ha; [|simpl; by rewrite app_nil_r].
  unfold mbind, M_bind, try_catch. cbn -[report].
  set (w0 := report _ _ w). pose proof (ob_admit _ _ _ Hobs admits parent prepared Ha w0) as Had.
  destruct (admits parent prepared w0) as [w1 [d|e]]; simpl in Had; [|reported].
  2: { rewrite Had, app_nil_r. apply log_report. }
  unfold allows in Had. destruct d as [d|]; [case_bool_decide as Hd|]; reported;
    rewrite Had; subst w0; by rewrite log_report.
Qed.

Definition scheduled : bool :=
  match acquire_lease host with Some _ => negb (at_orchestratesTools (pc_tool prepared)) | None => false end.
Lemma scheduling_spec w :
  match scheduling host prepared w with
  | (w', Ok (Some lease)) => log w' = log w ++ (if scheduled then [ActAcquire lease] else []) /\
                            (if scheduled then is_Some lease else lease = None)
  | (w', Ok None) => log w' = log w ++ [ActAcquire None]
  | (w', Err _) => log w' = log w
  end.
Proof.
  unfold scheduling, scheduled. destruct (acquire_lease host) as [acquire|] eqn:Ha; [|simpl; by rewrite app_nil_r].
  destruct (at_orchestratesTools _); simpl; [by rewrite app_nil_r|].
  unfold mbind, M_bind. cbn -[report].
  set (w0 := report _ _ w). pose proof (ob_acquire _ _ _ Hobs acquire (at_executionResource (pc_tool prepared)) Ha w0) as Had.
  destruct (acquire _ w0) as [w1 [[l|]|e]]; simpl in Had; reported; rewrite Had; subst w0; rewrite log_report; eauto.
  by rewrite app_nil_r.
Qed.

Definition released (lease : option L) : list (action L) := match lease with Some l => [ActRelease l] | None => [] end.
Lemma release_all_log lease w :
  log (release_all host lease w).1 = log w ++ released lease /\
  (release_all host lease w).2 = Ok tt.
Proof.
  destruct lease as [l|]; simpl; [|by rewrite app_nil_r]. split; [|done]. apply (ob_release _ _ _ Hobs).
Qed.

(** The outcome reported for a tool that was entered. *)
Definition outcome_says (failure : option Failure) (o : ExecutedToolCallOutcome) : Prop :=
  match failure with
  | None => ex_isError o = false /\ ex_executionOutcome o = Confirmed
  | Some failure => ex_isError o = true /\ (ex_executionOutcome o = NotStarted <-> declares_not_started failure)
  end.
Lemma error_outcome_not_started error toolName args tool :
  getToolErrorOutcome (fl_toolError error) toolName args (Some tool) = NotStarted <-> declares_not_started error.
Proof.
  unfold getToolErrorOutcome, declares_not_started. destruct (fl_toolError error) as [e|].
  2: { split; [by destruct (isReplaySafeTool _)|by intros (? & [=] & _)]. }
  destruct (te_nestedUnknown e) eqn:Hn; [split; [done|]; intros (? & [= <-] & ? & _); congruence|].
  destruct (te_executionOutcome e) eqn:He.
  - split; [by eauto|done].
  - split; [done|]. intros (? & [= <-] & _ & ?). congruence.
  - split; [|intros (? & [= <-] & _ & ?); congruence]. destruct (_ && _); [done|]. by destruct (isReplaySafeTool _).
Qed.

Lemma execution_spec parent w :
  match execution host parent prepared w with
  | (w', r) => exists failure, log w' = log w ++ [ActExecute (aborted_now host w) failure] /\
               forall o, r = Ok o -> outcome_says failure o
  end.
Proof.
  unfold execution. pose proof (ob_execute _ _ _ Hobs parent (pc_toolCall prepared) (pc_args prepared) w) as He.
  destruct (run_tool _ _ _ _ _ _) as [w1 [updates outcome]].
  unfold mbind, M_bind.
  destruct outcome as [res|e], updates as [u|]; reported; (eexists; split; [exact He|]); intros o Ho; simplify_eq/=;
    first [done | split; [done|apply error_outcome_not_started]].
Qed.

Definition dispatched : list (action L) := if beforeToolDispatch host is Some _ then [ActDispatch] else [].
Definition gated : list (action L) := if admitEffect host is Some _ then [ActGate true] else [].

Lemma dispatching_spec parent lease w :
  match dispatching host parent prepared lease w with
  | (w', Ok _) => exists d, log w' = log w ++ d /\ (d = [] \/ d = [ActDispatch]) /\
                            (aborted_now host w' = false -> d = dispatched)
  | (w', Err _) => log w' = log w ++ released lease
  end.
Proof.
  unfold dispatching, dispatched, try_catch. change (aborted host ≫= ?f) with (fun w => f (aborted_now host w) w).
  cbv beta. destruct (aborted_now host w) eqn:Hs.
  { exists []. rewrite app_nil_r. simpl. split_and!; [done|by left|congruence]. }
  destruct (beforeToolDispatch host) as [dispatch|] eqn:Hd.
  2: { exists []. rewrite app_nil_r. simpl. eauto. }
  pose proof (ob_dispatch _ _ _ Hobs dispatch parent prepared Hd w) as Ha.
  destruct (dispatch parent prepared w) as [w1 [[]|e]]; simpl in Ha; [by eauto 10|].
  unfold mbind, M_bind. cbn -[release_all]. destruct (release_all_log lease w1) as [Hl Hr].
  destruct (release_all host lease w1) as [w2 r]. simpl in *. subst r. simpl. by rewrite Hl, Ha, app_nil_r.
Qed.

Lemma effect_gate_spec w :
  match effect_gate host w with
  | (w', Ok b) => log w' = log w ++ (if admitEffect host is Some _ then [ActGate b] else []) /\
                  (admitEffect host = None -> b = true)
  | (w', Err _) => log w' = log w ++ [ActGateThrew]
  end /\ (aborted_now host w = true -> aborted_now host (effect_gate host w).1 = true).
Proof.
  unfold effect_gate. destruct (admitEffect host) as [gate|] eqn:Hg; [|simpl; by rewrite app_nil_r].
  pose proof (ob_gate _ _ _ Hobs gate Hg w) as Ha. pose proof (ob_signal _ _ _ Hobs gate w Hg) as Hs.
  by destruct (gate w) as [w1 [b|e]].
Qed.

(** What a leased call adds to the log, and its outcome. *)
Inductive leased_trace (lease : option L) : list (action L) -> result Failure ExecutedToolCallOutcome -> Prop :=
| DispatchThrew e : leased_trace lease (released lease) (Err e)
| GateThrew d e : (d = [] \/ d = [ActDispatch]) -> leased_trace lease (d ++ [ActGateThrew]) (Err e)
| Withdrawn d g : (d = [] \/ d = [ActDispatch]) -> (g = [] \/ exists b, g = [ActGate b]) ->
    leased_trace lease (d ++ g ++ released lease) (Ok (refused "Operation aborted"))
| Executed b failure r : (observers_keep_running host -> b = false) -> (forall o, r = Ok o -> outcome_says failure o) ->
    leased_trace lease (dispatched ++ gated ++ ActExecute b failure :: released lease) r.

Lemma leased_call_spec parent lease w :
  match leased_call host parent prepared lease w with
  | (w', r) => exists tr, log w' = log w ++ tr /\ leased_trace lease tr r
  end.
Proof.
  unfold leased_call. unfold mbind at 1, M_bind at 1. pose proof (dispatching_spec parent lease w) as Hd.
  destruct (dispatching host parent prepared lease w) as [w1 [[]|e]]; [|by eauto using leased_trace].
  destruct Hd as (d & Hlog & Hcase & Hd). unfold mbind at 1, M_bind at 1.
  pose proof (effect_gate_spec w1) as [Hg Hs]. destruct (effect_gate host w1) as [w2 [b|e]]; simpl in Hs.
  2: { exists (d ++ [ActGateThrew]). rewrite Hg, Hlog, app_assoc. eauto using leased_trace. }
  change (aborted host ≫= ?f) with (fun w => f (aborted_now host w) w). cbv beta.
  destruct Hg as [Hg Hb]. destruct (aborted_now host w2 || negb b) eqn:Hstop.
  - unfold mbind, M_bind. destruct (release_all_log lease w2) as [Hl Hr].
    destruct (release_all host lease w2) as [w3 r]. simpl in Hl, Hr. subst r. cbn -[report]. eexists. split.
    + rewrite log_report, Hl, Hg, Hlog, <- !app_assoc. reflexivity.
    + apply Withdrawn; [done|]. destruct (admitEffect host); eauto.
  - apply orb_false_iff in Hstop as [Hab Hadm]. apply negb_false_iff in Hadm. subst b.
    unfold mbind, M_bind, with_lease. cbn -[report execution release_all]. set (w3 := report _ _ _).
    pose proof (execution_spec parent w3) as He. destruct (execution host parent prepared w3) as [w4 r].
    destruct He as (failure & He & Hr). destruct (release_all_log lease w4) as [Hl _].
    eexists. split; [|apply (Executed _ (aborted_now host w3) failure); [intros Hk; subst w3; by rewrite Hk|exact Hr]].
    rewrite Hl, He. subst w3. rewrite log_report, Hg, Hlog, Hd, <- !app_assoc; [done|].
    destruct (aborted_now host w1); [|done]. by rewrite Hs in Hab.
Qed.
End stages.

Section gate_order.
Context {W L : Type} (host : ToolHost W L) (log : W -> list (action L)) (prepared : PreparedToolCall W).
Context (Hobs : observes host log (pc_tool prepared)).

(** A trace in which the tool never started. *)
Lemma not_started_ok tr r :
  existsb is_execute tr = false ->
  omap released_of tr = (if existsb is_gate_threw tr then [] else omap acquired_of tr) ->
  (forall o, r = Ok o -> ex_isError o = true /\ ex_executionOutcome o = NotStarted) ->
  pipeline_ok host prepared tr r.
Proof.
  intros Hex Hrel Hout.
  assert (forall p seen, precedes p is_execute seen tr = true) as Hpre.
  { clear Hrel. induction tr as [|a tr IH]; [done|]. intros p seen. simpl in *.
    apply orb_false_iff in Hex as [-> Hex]. simpl. by apply IH. }
  assert (keep is_execute tr = [] /\ omap failure_of tr = []) as [Hkeep Hnone].
  { clear Hrel Hpre. induction tr as [|a tr IH]; [done|]. simpl in Hex. apply orb_false_iff in Hex as [Ha Hex].
    destruct (IH Hex) as [H1 H2]. unfold keep in *. simpl. rewrite Ha. split; [done|]. by destruct a. }
  split; rewrite ?Hkeep; simpl; try lia; eauto.
  - intros _ f Hin%list_elem_of_In. enough (existsb is_execute tr = true) by congruence.
    apply existsb_exists. by exists (ActExecute true f).
  - by rewrite Hnone.
Qed.

(** The trace of a call that entered its tool. *)
Ltac executed_unaborted Hb :=
  let Hk := fresh in let Hin := fresh in intros Hk ? Hin;
  repeat (apply elem_of_cons in Hin as [Hin|Hin];
          [first [discriminate Hin | injection Hin as Hin _; by rewrite (Hb Hk) in Hin]|]); by apply elem_of_nil in Hin.

Ltac destruct_lease H := lazymatch type of H with is_Some _ => destruct H as [? H]; subst | _ => subst end.

Lemma leased_ok a lease tr r :
  a = (if admitToolCall host is Some _ then [ActAdmit true] else []) ->
  (if scheduled host prepared then is_Some lease else lease = None) ->
  leased_trace host lease tr r ->
  pipeline_ok host prepared (a ++ (if scheduled host prepared then [ActAcquire lease] else []) ++ tr) r.
Proof.
  intros -> Hlease Htr. unfold scheduled in *. destruct Htr as [e|d e Hd|d g Hd Hg|b failure o Hb Ho].
  1-3: apply not_started_ok; [| |by intros ? [= <-]];
    try (destruct Hd as [-> | ->]); try (destruct Hg as [->|Hg]; [|destruct Hg as [? ->]]);
    destruct (admitToolCall host), (acquire_lease host), (at_orchestratesTools (pc_tool prepared)); simpl in *;
    destruct_lease Hlease; done.
  unfold dispatched, gated.
  destruct (admitToolCall host) eqn:Ea, (acquire_lease host) eqn:El, (at_orchestratesTools (pc_tool prepared)) eqn:Eo,
    (beforeToolDispatch host) eqn:Ed, (admitEffect host) eqn:Eg; simpl in *; destruct_lease Hlease.
  all: split; simpl; rewrite ?Ea, ?El, ?Eo, ?Ed, ?Eg;
    first [done | lia | by intros [? [=]] | executed_unaborted Hb | intros x Hx; specialize (Ho x Hx); by destruct failure].
Qed.

(** C25. One call of a tool, for every host and tool whose hooks do what the log notes: the
    tool starts at most once, and only after admission, a lease, the dispatch hook and the
    effect gate where the host has them; never in an aborted run, provided that the observers
    of execution events do not themselves abort it.  Every acquired lease is released once,
    unless the effect gate threw, and then it is never released.  A call that returns reports
    [NotStarted], as an error, when the tool was not entered; when it was entered it reports
    [Confirmed] for a tool that succeeded, and for one that failed an error that is
    [NotStarted] exactly if the tool's own error declares so. *)
Theorem executePreparedToolCall_gate parent w :
  exists tr, log (executePreparedToolCall host parent prepared w).1 = log w ++ tr /\
    pipeline_ok host prepared tr (executePreparedToolCall host parent prepared w).2.
Proof.
  enough (match executePreparedToolCall host parent prepared w with
          | (w', r) => exists tr, log w' = log w ++ tr /\ pipeline_ok host prepared tr r
          end) by (by destruct (executePreparedToolCall _ _ _ _)).
  unfold executePreparedToolCall. destruct (_ && _).
  { exists []. rewrite app_nil_r. split; [reflexivity|]. apply not_started_ok; [done|done|intros o Ho; by inversion Ho]. }
  unfold mbind at 1, M_bind at 1. pose proof (admission_spec host log prepared Hobs parent w) as Ha.
  destruct (admission host parent prepared w) as [w1 [[reason|]|e]].
  - eexists. split; [exact Ha|]. apply not_started_ok; [done|done|intros o Ho; by inversion Ho].
  - unfold mbind, M_bind. pose proof (scheduling_spec host log prepared Hobs w1) as Hs.
    destruct (scheduling host prepared w1) as [w2 [[lease|]|e]].
    + destruct Hs as [Hs Hl]. pose proof (leased_call_spec host log prepared Hobs parent lease w2) as Hc.
      destruct (leased_call host parent prepared lease w2) as [w3 r]. destruct Hc as (tr & Hc & Ht).
      eexists. split; [|by apply leased_ok; [reflexivity| |]]. simpl. by rewrite Hc, Hs, Ha, <- !app_assoc.
    + eexists. simpl. rewrite Hs, Ha, <- app_assoc. split; [reflexivity|].
      apply not_started_ok; [by destruct (admitToolCall host)|by destruct (admitToolCall host)|intros o Ho; by inversion Ho].
    + eexists. simpl. rewrite Hs, Ha. split; [reflexivity|]. apply not_started_ok; [by destruct (admitToolCall host)|by destruct (admitToolCall host)|done].
  - exists []. simpl. rewrite app_nil_r. split; [done|]. apply not_started_ok; [done|done|done].
Qed.
End gate_order.
