(* ===== verification/ToolBatch.v ===== *)
(** * What a batch of tool calls produces

    The two disciplines of agent-loop.ts give one result message per processed call, in
    the order of the calls, whatever the order in which parallel calls complete.  Hosts are
    observed through the events they are sent, progress updates left out. *)
From S2P Require Import Prelude JsNumber SessionTypes JsonNumber JsonText ResourceScheduler ToolExecution.
From S2P Require Import ToolPipeline.

(** ** Quiet computations and triples *)

(** The events a world has received, if it records them, and then some more. *)
Definition and_then (seen : option (list AgentEvent)) (evs : list AgentEvent) : option (list AgentEvent) :=
  (fun l => l ++ evs) <$> seen.
Infix "⊳" := and_then (at level 60, right associativity).
Lemma and_then_nil seen : seen ⊳ [] = seen.
Proof. destruct seen; simpl; [by rewrite app_nil_r|done]. Qed.
Lemma and_then_app seen evs evs' : and_then (seen ⊳ evs) evs' = seen ⊳ (evs ++ evs').
Proof. destruct seen; simpl; [by rewrite app_assoc|done]. Qed.

Section triples.
Context {W : Type} (events : W -> option (list AgentEvent)).

(** [f] sends no event, whether it returns or throws. *)
Definition quiet {A} (f : M W Failure A) : Prop := forall w, events (f w).1 = events w.
(** When [f] returns [a], it has sent [evs] and [Q a evs] holds. *)
Definition sends {A} (f : M W Failure A) (Q : A -> list AgentEvent -> Prop) : Prop :=
  forall w w' a, f w = (w', Ok a) -> exists evs, events w' = events w ⊳ evs /\ Q a evs.

Lemma quiet_ret {A} (a : A) : quiet (mret a).
Proof. done. Qed.
Lemma quiet_lift {A} (r : result Failure A) : quiet (lift r).
Proof. done. Qed.
Lemma quiet_throw {A} e : quiet (throw (A:=A) e).
Proof. done. Qed.
Lemma quiet_bind {A B} (f : M W Failure A) (k : A -> M W Failure B) :
  quiet f -> (forall a, quiet (k a)) -> quiet (f ≫= k).
Proof.
  intros Hf Hk w. unfold mbind, M_bind. pose proof (Hf w) as H. destruct (f w) as [w1 [a|e]]; [|done].
  by rewrite (Hk a w1).
Qed.
Lemma quiet_try {A} (f : M W Failure A) (h : Failure -> M W Failure A) :
  quiet f -> (forall e, quiet (h e)) -> quiet (try_catch f h).
Proof.
  intros Hf Hh w. unfold try_catch. pose proof (Hf w) as H. destruct (f w) as [w1 [a|e]]; [done|].
  by rewrite (Hh e w1).
Qed.

Lemma sends_quiet {A} (f : M W Failure A) (Q : A -> list AgentEvent -> Prop) :
  quiet f -> (forall w w' a, f w = (w', Ok a) -> Q a []) -> sends f Q.
Proof.
  intros Hf HQ w w' a H. exists []. rewrite and_then_nil. split; [|by eapply HQ].
  pose proof (Hf w) as Hq. by rewrite H in Hq.
Qed.
Lemma sends_ret {A} (a : A) (Q : A -> list AgentEvent -> Prop) : Q a [] -> sends (mret a) Q.
Proof. intros HQ. apply sends_quiet; [done|]. by intros w w' b [_ ->]%M_ret_Ok. Qed.
Lemma sends_weaken {A} (f : M W Failure A) (P Q : A -> list AgentEvent -> Prop) :
  sends f P -> (forall a evs, P a evs -> Q a evs) -> sends f Q.
Proof. intros Hf HPQ w w' a H. destruct (Hf w w' a H) as (evs & He & HP). eauto. Qed.
Lemma sends_bind {A B} (f : M W Failure A) (k : A -> M W Failure B) (P : A -> list AgentEvent -> Prop)
    (Q : B -> list AgentEvent -> Prop) :
  sends f P -> (forall a evs, P a evs -> sends (k a) (fun b evs' => Q b (evs ++ evs'))) -> sends (f ≫= k) Q.
Proof.
  intros Hf Hk w w' b (w1 & a & H1 & H2)%M_bind_Ok. destruct (Hf _ _ _ H1) as (evs & He & HP).
  destruct (Hk a evs HP _ _ _ H2) as (evs' & He' & HQ). exists (evs ++ evs'). by rewrite He', He, and_then_app.
Qed.
(** The first computation is quiet. *)
Lemma sends_after {A B} (f : M W Failure A) (k : A -> M W Failure B) (P : A -> Prop)
    (Q : B -> list AgentEvent -> Prop) :
  quiet f -> (forall w w' a, f w = (w', Ok a) -> P a) -> (forall a, P a -> sends (k a) Q) -> sends (f ≫= k) Q.
Proof.
  intros Hf HP Hk. apply (sends_bind _ _ (fun a evs => P a /\ evs = [])).
  - apply sends_quiet; [done|]. eauto.
  - intros a evs [Ha ->]. by apply Hk.
Qed.
End triples.
Create HintDb quiet.
#[export] Hint Resolve quiet_ret quiet_lift quiet_throw quiet_bind quiet_try : quiet.

(** The tool of a call is one of the context's. *)
Lemma context_tool_Forall {W} (P : AgentTool W -> Prop) ctx name tool :
  Forall P (default [] (cx_tools ctx)) -> Forall P (default [] (tp_tools <$> cx_toolPlan ctx)) ->
  context_tool ctx name = Some tool -> P tool.
Proof.
  assert (forall (tools : list (AgentTool W)) t, find_tool name tools = Some t -> t ∈ tools) as Hfind.
  { intros tools t. unfold find_tool. destruct (list_find _ tools) as [[i t']|] eqn:H; [|done]. intros [= <-].
    apply list_find_Some in H as (H & _). by eapply list_elem_of_lookup_2. }
  rewrite !Forall_forall. unfold context_tool, bindings. intros H1 H2.
  destruct (cx_toolPlan ctx) as [plan|]; simpl in *; [destruct (find_tool name (reverse (tp_tools plan))) as [t|] eqn:Hf; simpl|].
  { intros [= <-]. apply Hfind in Hf. apply H2. by rewrite elem_of_reverse in Hf. }
  all: destruct (cx_tools ctx); simpl in *; [|done]; intros Ht%Hfind; by apply H1.
Qed.

(** ** Observed hosts *)

Definition is_update (e : AgentEvent) : bool := match e with EvToolUpdate _ _ _ _ _ | EvMessageUpdate _ _ => true | _ => false end.

Section batches.
Context {W L : Type} (host : ToolHost W L) (ctx : AgentContext W) (assistantMessage : AssistantMessage)
  (events : W -> option (list AgentEvent)).

(** The log of events: only [emit] writes to it, when no listener throws; progress updates are
    left out. *)
Record records_events : Prop := {
  re_emit : forall e w w', emit host e w = (w', Ok tt) -> events w' = events w ⊳ (if is_update e then [] else [e]);
  re_report : forall e w, events (report host e w) = events w;
  re_release : forall l w, events (release_lease host l w) = events w;
  re_before : forall f x m c args, beforeToolCall host = Some f -> quiet events (f x m c args);
  re_after : forall f x m c args r isError, afterToolCall host = Some f -> quiet events (f x m c args r isError);
  re_result : forall f m c t o, onToolResult host = Some f -> quiet events (f m c t o);
  re_dispatch : forall f parent p, beforeToolDispatch host = Some f -> quiet events (f parent p);
  re_gate : forall f, admitEffect host = Some f -> quiet events f;
  re_admit : forall f parent p, admitToolCall host = Some f -> quiet events (f parent p);
  re_acquire : forall f r, acquire_lease host = Some f -> quiet events (f r);
  re_tools : forall name tool parent call args w, context_tool ctx name = Some tool ->
    events (run_tool host parent call (at_execute tool (tc_id call) args) None w).1 = events w }.
Context (Hrec : records_events).

Lemma quiet_aborted : quiet events (aborted host).
Proof. done. Qed.
Lemma quiet_observe call phase outcome reason : quiet events (observe host call phase outcome reason).
Proof. intros w. apply (re_report Hrec). Qed.
Lemma quiet_release lease : quiet events (release_all host lease).
Proof. intros w. destruct lease; [apply (re_release Hrec)|done]. Qed.
Lemma quiet_createToolResultMessage f : quiet events (createToolResultMessage host f).
Proof. done. Qed.
Hint Resolve quiet_aborted quiet_observe quiet_release quiet_createToolResultMessage : quiet.

(** Follows the structure of a computation. *)
Ltac quietly :=
  repeat first
    [ progress intros
    | apply quiet_bind | apply quiet_try
    | solve [eauto with quiet]
    | case_match ].

Lemma prepareToolCall_quiet call : quiet events (prepareToolCall host ctx assistantMessage call).
Proof.
  pose proof (re_before Hrec). unfold prepareToolCall. quietly.
Qed.

Lemma execution_quiet parent p name :
  context_tool ctx name = Some (pc_tool p) -> quiet events (execution host parent p).
Proof.
  intros Ht w. unfold execution. pose proof (re_tools Hrec _ _ parent (pc_toolCall p) (pc_args p) w Ht) as H.
  destruct (run_tool _ _ _ _ _ _) as [w1 [updates outcome]]. simpl in H. rewrite <- H.
  destruct outcome, updates; match goal with |- events (?f w1).1 = _ => change (events (f w1).1) with (events (f w1).1); enough (quiet events f) as Hq by apply Hq end; quietly.
Qed.

Lemma executePreparedToolCall_quiet parent p name :
  context_tool ctx name = Some (pc_tool p) -> quiet events (executePreparedToolCall host parent p).
Proof.
  intros Ht. pose proof (re_dispatch Hrec). pose proof (re_gate Hrec). pose proof (re_admit Hrec).
  pose proof (re_acquire Hrec).
  assert (forall lease, quiet events (with_lease host lease (execution host parent p))) as Hex.
  { intros lease w. unfold with_lease. pose proof (execution_quiet parent p name Ht w) as He.
    destruct (execution host parent p w) as [w1 r]. simpl in *. by rewrite quiet_release. }
  unfold executePreparedToolCall, admission, scheduling, leased_call, dispatching, effect_gate. quietly.
Qed.

Lemma finalizeExecutedToolCall_quiet p executed :
  quiet events (finalizeExecutedToolCall host ctx assistantMessage p executed).
Proof. pose proof (re_after Hrec). unfold finalizeExecutedToolCall. quietly. Qed.
Lemma persistToolResult_quiet f : quiet events (persistToolResult host f).
Proof. pose proof (re_result Hrec). unfold persistToolResult. quietly. Qed.

(** ** One call *)

(** A finalized call that has no message yet, and one that has been answered. *)
Definition pending (call : AgentToolCall) (f : FinalizedToolCallOutcome) : Prop :=
  fz_toolCall f = call /\ fz_message f = None.
Definition answers (call : AgentToolCall) (f : FinalizedToolCallOutcome) : Prop :=
  fz_toolCall f = call /\ exists m, fz_message f = Some m /\ tr_toolCallId m = tc_id call /\
    tr_toolName m = tc_name call /\ tr_isError m = fz_isError f.
Definition prepared_for (call : AgentToolCall) (p : PreparedToolCall W) : Prop :=
  pc_toolCall p = call /\ context_tool ctx (tc_name call) = Some (pc_tool p).

Lemma try_catch_Ok {A} (f : M W Failure A) (h : Failure -> M W Failure A) w w' a :
  try_catch f h w = (w', Ok a) -> f w = (w', Ok a) \/ exists w1 e, f w = (w1, Err e) /\ h e w1 = (w', Ok a).
Proof. unfold try_catch. destruct (f w) as [w1 [b|e]]; [by left|right; eauto]. Qed.

Lemma prepareToolCall_prepared call w w' p :
  prepareToolCall host ctx assistantMessage call w = (w', Ok (Prepared p)) -> prepared_for call p.
Proof.
  unfold prepareToolCall, prepared_for. destruct (context_tool ctx (tc_name call)) as [tool|]; [|done].
  intros [H|(w1 & e & _ & [=])]%try_catch_Ok.
  apply M_bind_Ok in H as (w1 & c & _ & H). apply M_bind_Ok in H as (w2 & args & _ & H).
  destruct (beforeToolCall host) as [hook|].
  - apply M_bind_Ok in H as (w3 & [args' before] & _ & H). apply M_bind_Ok in H as (w4 & stop & _ & H).
    destruct stop; [by apply M_ret_Ok in H as [_ [=]]|].
    assert (forall w w', (revalidatedArgs ← lift (validateToolArguments host tool (with_arguments call args'));
              stop ← aborted host;
              mret (if (stop : bool) then abort_immediately
                    else Prepared {| pc_toolCall := call; pc_tool := tool; pc_args := revalidatedArgs |})) w =
            (w', Ok (Prepared p)) -> pc_toolCall p = call /\ Some tool = Some (pc_tool p)) as Hready.
    { intros v v' (v1 & args'' & _ & (v2 & stop & _ & [_ Hr]%M_ret_Ok)%M_bind_Ok)%M_bind_Ok.
      destruct stop; by inversion Hr. }
    destruct before as [b|]; [|by apply Hready in H].
    destruct (bt_block b); [|by apply Hready in H]. by apply M_ret_Ok in H as [_ [=]].
  - apply M_bind_Ok in H as (w3 & stop & _ & [_ Hr]%M_ret_Ok). destruct stop; by inversion Hr.
Qed.

Lemma finalizeExecutedToolCall_pending p executed w w' f :
  finalizeExecutedToolCall host ctx assistantMessage p executed w = (w', Ok f) -> pending (pc_toolCall p) f.
Proof.
  unfold finalizeExecutedToolCall, pending. destruct (afterToolCall host) as [hook|]; [|by intros [_ ->]%M_ret_Ok].
  intros [H|(w1 & e & _ & [_ ->]%M_ret_Ok)]%try_catch_Ok; [|done].
  apply M_bind_Ok in H as (w1 & after & _ & [_ ->]%M_ret_Ok). by destruct after.
Qed.

Lemma persistToolResult_answers call f w w' f' :
  pending call f -> persistToolResult host f w = (w', Ok f') ->
  answers call f' /\ fz_result f' = fz_result f /\ fz_isError f' = fz_isError f.
Proof.
  intros [Hc Hm] (w1 & m & Hnew & H)%M_bind_Ok. apply M_bind_Ok in H as (w2 & u & _ & [_ ->]%M_ret_Ok).
  unfold createToolResultMessage in Hnew. rewrite Hm in Hnew. injection Hnew as <- <-. subst call.
  split; [|done]. split; [done|]. eexists. split; [reflexivity|done].
Qed.

(** Whether a run's signal never fires. *)
Definition unaborted : Prop := forall w, aborted_now host w = false.
Lemma aborted_Ok w w' stop : aborted host w = (w', Ok stop) -> unaborted -> stop = false.
Proof. intros [= <- <-] H. apply H. Qed.

(** ** Events *)

Definition start_of (c : AgentToolCall) : AgentEvent := EvToolStart (tc_id c) (tc_name c) (tc_arguments c) None.
Definition end_of (f : FinalizedToolCallOutcome) : AgentEvent :=
  EvToolEnd (tc_id (fz_toolCall f)) (tc_name (fz_toolCall f)) (fz_result f) (fz_isError f) None.
Definition published (m : ToolResultMessage) : list AgentEvent :=
  [EvMessageStart (ToolResultMsg m); EvMessageEnd (ToolResultMsg m)].
Definition published_of (f : FinalizedToolCallOutcome) : list AgentEvent := from_option published [] (fz_message f).

Lemma emit_sends e : sends events (emit host e) (fun _ evs => evs = if is_update e then [] else [e]).
Proof.
  intros w w' [] H. eexists. split; [|reflexivity]. by eapply (re_emit Hrec).
Qed.
Lemma then_emit {B} e (k : M W Failure B) (Q : B -> list AgentEvent -> Prop) :
  is_update e = false -> sends events k (fun b evs => Q b (e :: evs)) -> sends events (emit host e;; k) Q.
Proof.
  intros He Hk. eapply sends_bind; [apply emit_sends|]. rewrite He. intros a evs ->. apply Hk.
Qed.
Lemma emitToolResultMessage_sends m : sends events (emitToolResultMessage host m) (fun _ evs => evs = published m).
Proof. apply then_emit; [done|]. eapply sends_weaken; [apply emit_sends|]. by intros a evs ->. Qed.

Lemma execute_and_finalize_sends call p :
  prepared_for call p ->
  sends events (execute_and_finalize host ctx assistantMessage p) (fun f evs => pending call f /\ evs = []).
Proof.
  intros [<- Ht]. apply sends_quiet.
  - apply quiet_bind; [by eapply executePreparedToolCall_quiet|intros a; apply finalizeExecutedToolCall_quiet].
  - intros w w' f (w1 & a & _ & H)%M_bind_Ok. split; [|done]. by eapply finalizeExecutedToolCall_pending.
Qed.
Lemma persist_sends call f :
  pending call f ->
  sends events (persistToolResult host f) (fun f' evs => (answers call f' /\ fz_result f' = fz_result f /\
    fz_isError f' = fz_isError f) /\ evs = []).
Proof.
  intros Hp. apply sends_quiet; [apply persistToolResult_quiet|]. intros w w' f' H. split; [|done].
  by eapply persistToolResult_answers.
Qed.
Lemma publish_sends call f :
  pending call f ->
  sends events (publish host f) (fun f' evs => answers call f' /\ evs = end_of f' :: published_of f').
Proof.
  intros Hp. eapply sends_bind; [by apply persist_sends|]. intros f' evs [[Ha _] ->].
  apply then_emit; [done|]. destruct Ha as [Hc (m & Hm & Ha)].
  eapply sends_bind with (P := fun m' evs => m' = m /\ evs = []).
  { apply sends_quiet; [done|]. unfold createToolResultMessage. rewrite Hm. by intros w w' m' [= _ <-]. }
  intros m' evs' [-> ->]. eapply sends_bind; [apply emitToolResultMessage_sends|]. intros _ evs' ->.
  apply sends_ret. split; [by split; [|exists m]|]. unfold published_of. rewrite Hm. simpl. by rewrite ?app_nil_r.
Qed.
Lemma prepare_sends call :
  sends events (prepareToolCall host ctx assistantMessage call)
    (fun p evs => match p with Prepared p => prepared_for call p | _ => True end /\ evs = []).
Proof.
  apply sends_quiet; [apply prepareToolCall_quiet|]. intros w w' [p|] H; [|done].
  split; [|done]. by eapply prepareToolCall_prepared.
Qed.

(** ** The sequential discipline *)

Definition turn_events (t : AgentToolCall * FinalizedToolCallOutcome) : list AgentEvent :=
  start_of t.1 :: end_of t.2 :: published_of t.2.

(** A batch processed a prefix of the calls, all of them unless the signal fired. *)
Definition answered (calls : list AgentToolCall) (fs : list FinalizedToolCallOutcome) : Prop :=
  Forall2 answers (take (length fs) calls) fs /\ (unaborted -> length fs = length calls).
Lemma answered_cons call calls f fs : answers call f -> answered calls fs -> answered (call :: calls) (f :: fs).
Proof. intros Hf [Hfs Hlen]. split; simpl; [by constructor|]. intros Hun. by rewrite Hlen. Qed.
Lemma answered_stop call calls f : answers call f -> ~ unaborted -> answered (call :: calls) [f].
Proof. intros Hf Hun. split; [simpl; rewrite take_0; by constructor|done]. Qed.

Definition sequential_turns (calls : list AgentToolCall) (done : list FinalizedToolCallOutcome)
    (res : list FinalizedToolCallOutcome) (evs : list AgentEvent) : Prop :=
  exists fs, res = done ++ fs /\ answered calls fs /\ evs = (zip calls fs ≫= turn_events).

Lemma sequential_turns_cons call calls done f res evs :
  answers call f -> sequential_turns calls (done ++ [f]) res evs ->
  sequential_turns (call :: calls) done res (start_of call :: (end_of f :: published_of f) ++ evs).
Proof.
  intros Hf (fs & -> & Hfs & ->). exists (f :: fs). split_and!.
  - by rewrite <- app_assoc.
  - by apply answered_cons.
  - done.
Qed.
Lemma sequential_turns_stop call calls done f :
  answers call f -> ~ unaborted ->
  sequential_turns (call :: calls) done (done ++ [f]) (start_of call :: (end_of f :: published_of f) ++ []).
Proof.
  intros Hf Hun. exists [f]. split_and!; [done|by apply answered_stop|]. simpl. by destruct calls.
Qed.

Lemma fail_truncated_sends calls done :
  sends events (fail_truncated host calls done)
    (fun res evs => exists fs, res = done ++ fs /\ Forall2 answers calls fs /\ evs = (zip calls fs ≫= turn_events)).
Proof.
  revert done. induction calls as [|call calls IH]; intros done; simpl.
  { apply sends_ret. exists []. by rewrite app_nil_r. }
  apply then_emit; [done|]. eapply sends_bind; [by apply (publish_sends call)|]. intros f evs [Hf ->].
  eapply sends_weaken; [apply IH|]. intros res evs (fs & -> & Hfs & ->). exists (f :: fs).
  split_and!; [by rewrite <- app_assoc|by constructor|done].
Qed.

Lemma sequential_calls_sends calls done :
  sends events (sequential_calls host ctx assistantMessage calls done) (sequential_turns calls done).
Proof.
  revert done. induction calls as [|call calls IH]; intros done; simpl.
  { apply sends_ret. exists []. by rewrite app_nil_r. }
  apply then_emit; [done|]. eapply sends_bind; [apply (prepare_sends call)|]. intros preparation evs [Hp ->].
  eapply sends_bind with (P := fun f evs => pending call f /\ evs = []).
  { destruct preparation as [p|res isError]; [by apply execute_and_finalize_sends|by apply sends_ret]. }
  intros f evs [Hf ->]. eapply sends_bind; [by apply (publish_sends call)|]. intros f' evs [Hf' ->].
  apply (sends_after _ _ _ (fun stop => unaborted -> stop = false)); [done|intros ? ? ?; apply aborted_Ok|].
  intros stop Hstop. simpl app. destruct stop.
  - apply sends_ret. apply sequential_turns_stop; [done|]. intros Hun. by specialize (Hstop Hun).
  - eapply sends_weaken; [apply IH|]. intros res evs Hevs. by apply sequential_turns_cons.
Qed.

(** ** The parallel discipline *)

#[local] Abbreviation entry := (@ToolPipeline.entry W).
Definition entry_for (call : AgentToolCall) (e : entry) : Prop :=
  match e with inl f => answers call f | inr p => prepared_for call p end.
(** The final outcome of an entry. *)
Definition settled_as (e : entry) (f : FinalizedToolCallOutcome) : Prop :=
  match e with inl f' => f' = f | inr p => answers (pc_toolCall p) f end.
Definition preflight_events (t : AgentToolCall * entry) : list AgentEvent :=
  start_of t.1 :: (match t.2 with inl f => [end_of f] | inr _ => [] end).

Lemma preflight_sends calls entries :
  sends events (preflight host ctx assistantMessage calls entries)
    (fun res evs => exists es, res = entries ++ es /\ Forall2 entry_for (take (length es) calls) es /\
       (unaborted -> length es = length calls) /\ evs = (zip calls es ≫= preflight_events)).
Proof.
  revert entries. induction calls as [|call calls IH]; intros entries; simpl.
  { apply sends_ret. exists []. by rewrite app_nil_r. }
  apply then_emit; [done|]. eapply sends_bind; [apply (prepare_sends call)|]. intros preparation evs [Hp ->].
  eapply sends_bind with (P := fun e evs => entry_for call e /\
    evs = match e with inl f => [end_of f] | inr _ => [] end).
  { destruct preparation as [p|r isError]; [by apply sends_ret|].
    eapply sends_bind; [by apply (persist_sends call)|]. intros f evs [[Hf _] ->].
    apply then_emit; [done|]. by apply sends_ret. }
  intros e evs [He ->].
  apply (sends_after _ _ _ (fun stop => unaborted -> stop = false)); [done|intros ? ? ?; apply aborted_Ok|].
  intros stop Hstop. destruct stop.
  - apply sends_ret. exists [e]. split_and!; [done|simpl; rewrite take_0; by constructor| |].
    + intros Hun. by specialize (Hstop Hun).
    + unfold preflight_events. simpl. by destruct calls; rewrite ?app_nil_r.
  - eapply sends_weaken; [apply IH|]. intros res evs (es & -> & Hes & Hlen & ->). exists (e :: es).
    split_and!; [by rewrite <- app_assoc|by constructor| |done]. intros Hun. simpl. by rewrite Hlen.
Qed.

Lemma run_entry_sends call e :
  entry_for call e ->
  sends events (run_entry host ctx assistantMessage e)
    (fun f evs => settled_as e f /\ evs = match e with inl _ => [] | inr _ => [end_of f] end).
Proof.
  destruct e as [f|p]; simpl; intros He; [by apply sends_ret|].
  eapply sends_bind; [by apply execute_and_finalize_sends|]. intros f evs [Hf ->].
  eapply sends_bind; [by apply persist_sends|]. intros f' evs [[Hf' _] ->].
  destruct He as [Hc _]. rewrite Hc. apply then_emit; [done|]. by apply sends_ret.
Qed.

(** What entry [i] sends once it runs. *)
Definition late_event (entries : list entry) (outcomes : gmap nat (result Failure FinalizedToolCallOutcome))
  (i : nat) : option AgentEvent :=
  match @lookup nat entry (list entry) _ i entries, outcomes !! i with
  | Some (inr _), Some (Ok f) => Some (end_of f)
  | _, _ => None
  end.

Lemma settle_other order entries outcomes w i :
  i ∉ order -> (settle_entries host ctx assistantMessage order entries outcomes w).2 !! i = outcomes !! i.
Proof.
  revert outcomes w. induction order as [|j order IH]; intros outcomes w Hi; [done|].
  apply not_elem_of_cons in Hi as [Hij Hi]. simpl. destruct (entries !! j) as [e|]; [|by apply IH].
  destruct (run_entry host ctx assistantMessage e w) as [w1 r]. rewrite (IH _ _ Hi). by apply lookup_insert_ne.
Qed.

(** Entries whose runs all succeed are settled, and send their events in the order in which
    they complete. *)
Lemma settle_spec order entries outcomes w :
  NoDup order -> (forall i e, entries !! i = Some e -> exists call, entry_for call e) ->
  match settle_entries host ctx assistantMessage order entries outcomes w with
  | (w', out) =>
      (forall i, i ∈ order -> is_Some (entries !! i) -> exists f, out !! i = Some (Ok f)) ->
      events w' = events w ⊳ omap (late_event entries out) order /\
      (forall i e f, i ∈ order -> entries !! i = Some e -> out !! i = Some (Ok f) -> settled_as e f)
  end.
Proof.
  intros Hnd He. revert outcomes w. induction Hnd as [|i order Hi Hnd IH]; intros outcomes w; simpl.
  { intros _. rewrite and_then_nil. split; [done|]. intros i e f H. by apply elem_of_nil in H. }
  destruct (entries !! i) as [e|] eqn:Hie.
  - destruct (run_entry host ctx assistantMessage e w) as [w1 r] eqn:Hrun. specialize (IH (<[i:=r]> outcomes) w1).
    pose proof (settle_other order entries (<[i:=r]> outcomes) w1 i Hi) as Hri. rewrite lookup_insert_eq in Hri.
    destruct (settle_entries _ _ _ _ _ _ w1) as [w' out]. simpl in Hri. intros Hok.
    destruct (Hok i) as [f Hf]; [by left|by rewrite Hie|]. rewrite Hri in Hf. injection Hf as ->.
    destruct (He i e Hie) as [call Hcall]. destruct (run_entry_sends call e Hcall _ _ _ Hrun) as (evs & Hevs & Hs & ->).
    destruct IH as [IHe IHs]; [intros j Hj; apply Hok; by right|]. split.
    + assert (late_event entries out i = match e with inl _ => None | inr _ => Some (end_of f) end) as Hl
        by (unfold late_event; rewrite Hie, Hri; by destruct e).
      rewrite IHe, Hevs, and_then_app. simpl. rewrite Hl. by destruct e.
    + intros j e' f' [->|Hj]%elem_of_cons He' Hf'; [|by eapply IHs]. by simplify_eq.
  - specialize (IH outcomes w). destruct (settle_entries _ _ _ _ _ outcomes w) as [w' out]. intros Hok.
    destruct IH as [IHe IHs]; [intros j Hj; apply Hok; by right|]. split.
    + assert (late_event entries out i = None) as Hl by (unfold late_event; by rewrite Hie).
      rewrite IHe. simpl. by rewrite Hl.
    + intros j e' f' [->|Hj]%elem_of_cons He' Hf'; [|by eapply IHs]. by simplify_eq.
Qed.

Lemma publish_messages_sends fs messages :
  (forall f, f ∈ fs -> is_Some (fz_message f)) ->
  sends events (publish_messages host fs messages)
    (fun res evs => res = messages ++ omap fz_message fs /\ evs = (fs ≫= published_of)).
Proof.
  revert messages. induction fs as [|f fs IH]; intros messages Hfs; simpl.
  { apply sends_ret. by rewrite app_nil_r. }
  destruct (Hfs f) as [m Hm]; [by left|]. rewrite Hm.
  eapply sends_bind with (P := fun m' evs => m' = m /\ evs = []).
  { apply sends_quiet; [done|]. unfold createToolResultMessage. rewrite Hm. by intros w w' m' [= _ <-]. }
  intros m' evs [-> ->]. eapply sends_bind; [apply emitToolResultMessage_sends|]. intros _ evs ->.
  eapply sends_weaken; [apply IH; intros f' Hf'; apply Hfs; by right|]. intros res evs [-> ->].
  unfold published_of at 2. rewrite Hm. by rewrite <- app_assoc.
Qed.
End batches.

(** * The events of a batch of tool calls

    Both disciplines of agent-loop.ts produce the same picture: every processed call is
    started, ended and answered once, in an order in which an end follows its start and a
    message follows its end. *)

(** ** Orderly event logs *)

(** What [e] requires of the events before it. *)
Definition justified (before : list AgentEvent) (e : AgentEvent) : Prop :=
  match e with
  | EvToolEnd id name _ _ None => exists args, EvToolStart id name args None ∈ before
  | EvMessageStart (ToolResultMsg m) =>
      exists result, EvToolEnd (tr_toolCallId m) (tr_toolName m) result (tr_isError m) None ∈ before
  | EvMessageEnd m => EvMessageStart m ∈ before
  | _ => True
  end.
Fixpoint orderly (before evs : list AgentEvent) : Prop :=
  match evs with
  | [] => True
  | e :: evs' => justified before e /\ orderly (before ++ [e]) evs'
  end.

Lemma justified_weaken before before' e : before ⊆ before' -> justified before e -> justified before' e.
Proof. intros Hs. destruct e as [| | | |[]| |?| | |? ? ? ? []]; simpl; naive_solver. Qed.
Lemma orderly_weaken before before' evs : before ⊆ before' -> orderly before evs -> orderly before' evs.
Proof.
  revert before before'. induction evs as [|e evs IH]; intros before before' Hs; simpl; [done|].
  intros [He Hevs]. split; [by eapply justified_weaken|]. eapply IH, Hevs. set_solver.
Qed.
Lemma orderly_app before evs evs' : orderly before evs -> orderly (before ++ evs) evs' -> orderly before (evs ++ evs').
Proof.
  revert before. induction evs as [|e evs IH]; intros before; simpl; [by rewrite app_nil_r|].
  intros [He Hevs] H'. split; [done|]. apply IH; [done|]. by rewrite <- app_assoc.
Qed.
Lemma orderly_bind {A} (g : A -> list AgentEvent) l before :
  (forall x, x ∈ l -> orderly before (g x)) -> orderly before (l ≫= g).
Proof.
  revert before. induction l as [|x l IH]; intros before H; [done|]. apply orderly_app; [apply H; by left|].
  apply IH. intros y Hy. eapply orderly_weaken, H; [set_solver|by right].
Qed.
Lemma orderly_each before evs : (forall e, e ∈ evs -> justified before e) -> orderly before evs.
Proof.
  revert before. induction evs as [|e evs IH]; intros before H; simpl; [done|]. split; [apply H; by left|].
  apply IH. intros e' He'. eapply justified_weaken, H; [set_solver|by right].
Qed.

Definition is_start (e : AgentEvent) : bool := match e with EvToolStart _ _ _ _ => true | _ => false end.
Definition is_end (e : AgentEvent) : bool := match e with EvToolEnd _ _ _ _ _ => true | _ => false end.
Definition is_message (e : AgentEvent) : bool :=
  match e with EvMessageStart _ | EvMessageEnd _ => true | _ => false end.

(** *** The phases of a run *)

(** [InMessage true]: a message within a turn; [InMessage false]: between two turns. *)
Inductive phase := Outside | Running | InTurn | InMessage (turn : bool) | Ended.
Definition phase_step (p : phase) (e : AgentEvent) : option phase :=
  match p, e with
  | Outside, EvAgentStart => Some Running
  | Running, EvTurnStart => Some InTurn
  | InTurn, EvTurnEnd _ _ => Some Running
  | Running, EvMessageStart _ => Some (InMessage false)
  | InTurn, EvMessageStart _ => Some (InMessage true)
  | InMessage turn, EvMessageEnd _ => Some (if turn then InTurn else Running)
  | InTurn, EvToolStart _ _ _ _ | InTurn, EvToolEnd _ _ _ _ _ => Some InTurn
  | Running, EvAgentEnd _ => Some Ended
  | _, _ => None
  end.
Fixpoint phases (p : phase) (evs : list AgentEvent) : option phase :=
  match evs with [] => Some p | e :: evs' => p' ← phase_step p e; phases p' evs' end.
Lemma phases_app p evs evs' : phases p (evs ++ evs') = (p' ← phases p evs; phases p' evs').
Proof. revert p. induction evs as [|e evs IH]; intros p; [done|]. simpl. destruct (phase_step p e) as [p'|]; simpl; [apply IH|done]. Qed.
Lemma phases_after p p' evs evs' r : phases p evs = Some p' -> phases p' evs' = r -> phases p (evs ++ evs') = r.
Proof. intros H H'. by rewrite phases_app, H. Qed.
Lemma phases_bind {A} p (g : A -> list AgentEvent) l :
  (forall x, x ∈ l -> phases p (g x) = Some p) -> phases p (l ≫= g) = Some p.
Proof.
  induction l as [|x l IH]; intros H; [done|]. change (phases p (g x ++ (l ≫= g)) = Some p).
  eapply phases_after; [apply H; by left|]. apply IH. intros y Hy. apply H. by right.
Qed.
Lemma phases_each p evs : (forall e, e ∈ evs -> phase_step p e = Some p) -> phases p evs = Some p.
Proof.
  induction evs as [|e evs IH]; intros H; [done|]. simpl. rewrite H by by left. apply IH. intros e' He'. apply H. by right.
Qed.
Lemma phases_published f : phases InTurn (published_of f) = Some InTurn.
Proof. unfold published_of. by destruct (fz_message f). Qed.

(** The events of a batch that finalized [fs] for [calls]. *)
Record batch_events (calls : list AgentToolCall) (fs : list FinalizedToolCallOutcome) (evs : list AgentEvent) : Prop := {
  be_starts : keep is_start evs = start_of <$> calls;
  be_ends : keep is_end evs ≡ₚ end_of <$> fs;
  be_messages : keep is_message evs = (fs ≫= published_of);
  be_order : orderly [] evs;
  be_phases : phases InTurn evs = Some InTurn;
  be_within : Forall (fun e => is_start e || is_end e || is_message e) evs }.

Lemma within_bind {A} (g : A -> list AgentEvent) l :
  (forall x e, x ∈ l -> e ∈ g x -> is_start e || is_end e || is_message e) ->
  Forall (fun e => is_start e || is_end e || is_message e) (l ≫= g).
Proof. intros H. apply Forall_forall. intros e (x & He & Hx)%list_elem_of_bind. by eapply H. Qed.
Lemma within_published f e : e ∈ published_of f -> is_start e || is_end e || is_message e.
Proof. unfold published_of. destruct (fz_message f) as [m|]; simpl; [|by intros ?%elem_of_nil]. set_unfold. naive_solver. Qed.

Lemma keep_bind {A} (p : AgentEvent -> bool) (g : A -> list AgentEvent) l : keep p (l ≫= g) = (l ≫= fun x => keep p (g x)).
Proof. induction l as [|x l IH]; [done|]. simpl. change (keep p (g x ++ (l ≫= g)) = keep p (g x) ++ (l ≫= fun x => keep p (g x))). by rewrite keep_app, IH. Qed.

(** ** Shapes *)

Lemma zip_prefix {A B} (l : list A) (k : list B) : zip l k = zip (take (length k) l) k.
Proof. revert l. induction k as [|y k IH]; intros [|x l]; simpl; [done..|]. by rewrite (IH l). Qed.

Lemma zip_related {A B} (R : A -> B -> Prop) l k x y : Forall2 R l k -> (x, y) ∈ zip l k -> R x y.
Proof.
  induction 1 as [|a b l k Hab H IH]; simpl; [by intros ?%elem_of_nil|].
  intros [[= -> ->]|Hin]%elem_of_cons; [done|by apply IH].
Qed.

Lemma zip_partner {A B} (R : A -> B -> Prop) l k y : Forall2 R l k -> y ∈ k -> exists x, (x, y) ∈ zip l k /\ R x y.
Proof.
  induction 1 as [|a b l k Hab H IH]; simpl; [by intros ?%elem_of_nil|].
  intros [->|Hin]%elem_of_cons; [exists a; split; [by left|done]|].
  destruct (IH Hin) as (x & Hx & Hr). exists x. split; [by right|done].
Qed.

Lemma keep_published p f : (forall e, is_message e = true -> p e = false) -> keep p (published_of f) = [].
Proof.
  intros Hp. apply keep_none. unfold published_of. destruct (fz_message f) as [m|]; simpl; [|set_solver].
  intros e He. apply Hp. set_solver.
Qed.
Lemma keep_messages_published f : keep is_message (published_of f) = published_of f.
Proof. unfold published_of. by destruct (fz_message f). Qed.
Lemma answers_end call f :
  answers call f -> end_of f = EvToolEnd (tc_id call) (tc_name call) (fz_result f) (fz_isError f) None.
Proof. by intros [<- _]. Qed.
Lemma justified_end call f before : answers call f -> start_of call ∈ before -> justified before (end_of f).
Proof. intros Hf Hin. rewrite (answers_end call f Hf). simpl. by eexists. Qed.
Lemma orderly_published call f before : answers call f -> end_of f ∈ before -> orderly before (published_of f).
Proof.
  intros Hf Hin. rewrite (answers_end call f Hf) in Hin. destruct Hf as (_ & m & Hm & Hid & Hname & Herr).
  unfold published_of. rewrite Hm. simpl. rewrite Hid, Hname, Herr. split_and!; [by eexists|set_solver|done].
Qed.

Lemma turns_events calls fs :
  Forall2 answers calls fs -> batch_events calls fs (zip calls fs ≫= turn_events).
Proof.
  intros Hfs. split.
  - rewrite keep_bind. induction Hfs as [|c f calls fs Hf Hfs IH]; [done|]. simpl.
    rewrite (keep_published is_start) by (by intros []). simpl. f_equal. apply IH.
  - rewrite keep_bind. induction Hfs as [|c f calls fs Hf Hfs IH]; [done|]. simpl.
    rewrite (keep_published is_end) by (by intros []). simpl. f_equiv. apply IH.
  - rewrite keep_bind. induction Hfs as [|c f calls fs Hf Hfs IH]; [done|]. simpl.
    rewrite keep_messages_published. f_equal. apply IH.
  - apply orderly_bind. intros [c f] Hin. pose proof (zip_related _ _ _ _ _ Hfs Hin) as Hf.
    split; [done|]. split; [by eapply (justified_end c); [|set_solver]|].
    apply (orderly_published c); [done|set_solver].
  - apply phases_bind. intros [c f] _. apply phases_published.
  - apply within_bind. intros [c f] e _. unfold turn_events. simpl.
    intros [->|[->|He]%elem_of_cons]%elem_of_cons; [done|done|by eapply within_published].
Qed.

(** ** Parallel entries *)

Section entries.
Context {W : Type} (ctx : AgentContext W).
#[local] Abbreviation entry := (@ToolPipeline.entry W).
Implicit Types (es : list entry) (out : gmap nat (result Failure FinalizedToolCallOutcome)).

(** The end events sent during the preflight, and those sent while the entries run. *)
Definition early_end (e : entry) : option AgentEvent := match e with inl f => Some (end_of f) | inr _ => None end.
Definition late_end (t : entry * FinalizedToolCallOutcome) : option AgentEvent :=
  match t.1 with inl _ => None | inr _ => Some (end_of t.2) end.

Lemma ends_Permutation es fs :
  Forall2 settled_as es fs -> omap early_end es ++ omap late_end (zip es fs) ≡ₚ end_of <$> fs.
Proof.
  induction 1 as [|e f es fs He Hes IH]; [done|]. destruct e as [f'|p]; simpl in *.
  - rewrite He. by constructor.
  - rewrite <- Permutation_middle. by constructor.
Qed.

Lemma collect_outcomes_Ok (outs : list (option (result Failure FinalizedToolCallOutcome))) fs :
  collect_outcomes outs = Ok fs -> Forall is_Some outs -> outs = (fun f => Some (Ok f)) <$> fs.
Proof.
  revert fs. induction outs as [|[[f|e]|] outs IH]; intros fs H Hall; simpl in *.
  - by injection H as <-.
  - apply bind_Ok in H as (rest & Hr & [= <-]). apply Forall_cons in Hall as [_ Hall]. simpl. f_equal. by apply IH.
  - done.
  - by apply Forall_cons in Hall as [[? ?] _].
Qed.

Lemma late_seq es fs out n :
  length fs = length es -> (forall i f, fs !! i = Some f -> out !! i = Some (Ok f)) -> (length es <= n)%nat ->
  omap (late_event es out) (seq 0 n) = omap late_end (zip es fs).
Proof.
  assert (forall (late : nat -> option AgentEvent) es fs k n, length fs = length es -> (length es <= n)%nat ->
    (forall i, late (k + i)%nat = match es !! i, fs !! i with Some e, Some f => late_end (e, f) | _, _ => None end) ->
    omap late (seq k n) = omap late_end (zip es fs)) as H.
  { clear. intros late es. induction es as [|e es IH]; intros [|f fs] k n Hlen Hn Hlate; simpl in *; try lia.
    - clear Hn. revert k Hlate. induction n as [|n IHn]; intros k Hlate; [done|]. simpl.
      pose proof (Hlate 0%nat) as H0. rewrite Nat.add_0_r in H0. rewrite H0. simpl. apply IHn. intros i.
      transitivity (late (k + S i)%nat); [f_equal; lia|apply (Hlate (S i))].
    - destruct n as [|n]; [lia|]. pose proof (Hlate 0%nat) as H0. rewrite Nat.add_0_r in H0. simpl in *. rewrite H0.
      enough (omap late (seq (S k) n) = omap late_end (zip es fs)) as IH' by (unfold omap in IH'; by rewrite IH').
      apply IH; [lia|lia|]. intros i.
      transitivity (late (k + S i)%nat); [f_equal; lia|apply (Hlate (S i))]. }
  intros Hlen Hout Hn. apply H; [done|done|]. intros i. simpl. unfold late_event.
  destruct (es !! i) as [e|] eqn:He; [|done].
  destruct (fs !! i) as [f|] eqn:Hf; [by rewrite (Hout i f Hf); destruct e|].
  apply lookup_ge_None in Hf. apply lookup_lt_Some in He. lia.
Qed.

Lemma settle_is_Some {L} (host : ToolHost W L) m order es out w i :
  i ∈ order -> is_Some (es !! i) -> NoDup order -> is_Some ((settle_entries host ctx m order es out w).2 !! i).
Proof.
  intros Hi He Hnd. revert out w. induction Hnd as [|j order Hj Hnd IH]; intros out w; [by apply elem_of_nil in Hi|].
  simpl. apply elem_of_cons in Hi as [->|Hi].
  - destruct He as [e ->]. destruct (run_entry host ctx m e w) as [w1 r]. rewrite settle_other by done.
    by rewrite lookup_insert_eq.
  - destruct (es !! j) as [e|]; [|by apply IH]. destruct (run_entry host ctx m e w) as [w1 r]. by apply IH.
Qed.

Lemma preflight_batch calls es fs order out :
  Forall2 (entry_for ctx) calls es -> Forall2 settled_as es fs -> Forall2 answers calls fs ->
  omap (late_event es out) order ≡ₚ omap late_end (zip es fs) ->
  batch_events calls fs
    ((zip calls es ≫= preflight_events) ++ omap (late_event es out) order ++ (fs ≫= published_of)).
Proof.
  intros Hes Hset Hans Hlate.
  assert (forall p, (forall f, p (end_of f) = false) -> keep p (omap (late_event es out) order) = []) as Hnone.
  { intros p Hp. apply keep_none. intros e. rewrite Hlate. intros ([e' f] & _ & He)%list_elem_of_omap.
    unfold late_end in He. destruct e'; simplify_eq/=. apply Hp. }
  assert (forall p, (forall e, is_message e = true -> p e = false) -> keep p (fs ≫= published_of) = []) as Hpub.
  { intros p Hp. rewrite keep_bind. clear -Hp. induction fs as [|f fs IH]; [done|]. simpl. by rewrite keep_published. }
  split.
  - rewrite !keep_app, (Hnone is_start), (Hpub is_start), app_nil_r by (by intros []). rewrite keep_bind.
    clear -Hes. induction Hes as [|c e calls es He Hes IH]; [done|].
    destruct e; simpl; f_equal; exact IH.
  - rewrite !keep_app, (Hpub is_end), app_nil_r by (by intros []).
    rewrite (keep_all is_end (omap _ order)), Hlate, <- (ends_Permutation es fs Hset).
    2: { intros e. rewrite Hlate. intros ([e' f] & _ & He)%list_elem_of_omap. unfold late_end in He. by destruct e'; simplify_eq/=. }
    f_equiv. rewrite keep_bind.
    clear -Hes. induction Hes as [|c e calls es He Hes IH]; [done|].
    destruct e; simpl; [by constructor|exact IH].
  - rewrite !keep_app, (Hnone is_message), (keep_bind is_message published_of) by done.
    rewrite (keep_none is_message (zip calls es ≫= _)).
    2: { intros e ([c e'] & He & _)%list_elem_of_bind. destruct e'; set_solver. }
    simpl. clear. induction fs as [|f fs IH]; [done|]. simpl. rewrite keep_messages_published. by f_equal.
  - apply orderly_app; [|apply orderly_app].
    + apply orderly_bind. intros [c e] Hin. pose proof (zip_related _ _ _ _ _ Hes Hin) as He. split; [done|].
      destruct e as [f|p]; [|done]. split; [by eapply (justified_end c); [|set_solver]|done].
    + apply orderly_each. intros e. rewrite Hlate. intros ([e' f] & Hin & He)%list_elem_of_omap.
      destruct (zip_partner _ _ _ _ Hes (elem_of_zip_l _ _ _ _ Hin)) as (c & Hc & Hce). unfold late_end in He.
      destruct e' as [f'|p]; simplify_eq/=. apply (justified_end c).
      * pose proof (zip_related _ _ _ _ _ Hset Hin) as Hf. destruct Hce as [<- _]. exact Hf.
      * apply list_elem_of_bind. exists (c, inr p). split; [by left|exact Hc].
    + apply orderly_bind. intros f Hf. destruct (zip_partner _ _ _ _ Hans Hf) as (c & Hc & Hcf).
      apply (orderly_published c); [done|]. apply elem_of_app.
      enough (end_of f ∈ omap early_end es ++ omap late_end (zip es fs)) as [He|He]%elem_of_app.
      * left. apply list_elem_of_omap in He as (e & He & Hef).
        destruct (zip_partner _ _ _ _ Hes He) as (c' & Hc' & _).
        apply list_elem_of_bind. exists (c', e). split; [|done]. unfold preflight_events.
        destruct e as [f'|p]; [|done]. pose proof (Some_inj _ _ Hef) as Heq. simpl. rewrite Heq. by right; left.
      * right. by rewrite Hlate.
      * rewrite (ends_Permutation es fs Hset). by apply list_elem_of_fmap_2.
  - eapply phases_after; [|eapply phases_after].
    + apply phases_bind. by intros [c [f|p]] _.
    + apply phases_each. intros e. rewrite Hlate. intros ([e' f] & _ & He)%list_elem_of_omap.
      unfold late_end in He. by destruct e'; simplify_eq/=.
    + apply phases_bind. intros f _. apply phases_published.
  - rewrite !Forall_app. split_and!.
    + apply within_bind. intros [c e'] e _. unfold preflight_events. simpl.
      intros [->|He]%elem_of_cons; [done|]. destruct e'; set_unfold; naive_solver.
    + apply Forall_forall. intros e. rewrite Hlate. intros ([e' f] & _ & He)%list_elem_of_omap.
      unfold late_end in He. by destruct e'; simplify_eq/=.
    + apply within_bind. intros f e _. apply within_published.
Qed.
End entries.

(** ** Both disciplines *)

Section disciplines.
Context {W L : Type} (host : ToolHost W L) (ctx : AgentContext W) (m : AssistantMessage) (events : W -> option (list AgentEvent)).
Context (Hrec : records_events host ctx events).

(** What a returned batch of [calls] is: the finalized calls [fs] are a prefix, all of the
    calls in a run whose signal never fires. *)
Definition batch_of (calls : list AgentToolCall) (b : ExecutedToolCallBatch) (evs : list AgentEvent) : Prop :=
  exists fs, (unaborted host -> length fs = length calls) /\
    Forall2 answers (take (length fs) calls) fs /\
    eb_messages b = omap fz_message fs /\
    eb_terminate b = negb (bool_decide (fs = [])) && forallb terminates fs /\
    batch_events (take (length fs) calls) fs evs.

Lemma shouldTerminate_spec fs : shouldTerminateToolBatch fs = negb (bool_decide (fs = [])) && forallb terminates fs.
Proof. by destruct fs. Qed.

Lemma sequential_batch calls :
  sends events (executeToolCallsSequential host ctx m calls) (batch_of calls).
Proof.
  eapply sends_bind; [by apply (sequential_calls_sends host ctx m events Hrec calls [])|].
  intros fs evs (fs' & -> & [Hfs Hlen] & ->). apply sends_ret. exists fs'. simpl. rewrite app_nil_r.
  split_and!; [done|done|done|apply shouldTerminate_spec|]. rewrite zip_prefix. by apply turns_events.
Qed.

Lemma answers_settled calls es fs :
  Forall2 (entry_for ctx) calls es -> Forall2 settled_as es fs -> Forall2 answers calls fs.
Proof.
  intros Hes. revert fs. induction Hes as [|c e calls es He Hes IH]; intros fs Hset; inversion Hset; subst; constructor.
  - destruct e as [f|p]; simpl in *; [by subst|]. destruct He as [<- _]. done.
  - by apply IH.
Qed.

Lemma parallel_batch calls order :
  order ≡ₚ seq 0 (length calls) -> sends events (executeToolCallsParallel host ctx m order calls) (batch_of calls).
Proof.
  intros Horder w w' b H. apply M_bind_Ok in H as (w1 & es & Hpre & H).
  destruct (preflight_sends host ctx m events Hrec calls [] _ _ _ Hpre) as (evs1 & He1 & es' & -> & Hes & Hlen & ->).
  simpl in Hes, H. set (es := es') in *. apply M_bind_Ok in H as (w2 & outs & Hset & H).
  assert (NoDup order) as Hnd by (rewrite Horder; apply NoDup_seq).
  assert (length es <= length calls)%nat as Hle by (apply Forall2_length in Hes; rewrite length_take in Hes; lia).
  assert (forall i, (i < length es)%nat -> i ∈ order) as Hin.
  { intros i Hi. rewrite Horder. apply elem_of_seq. lia. }
  pose proof (settle_spec host ctx m events Hrec order es ∅ w1 Hnd) as Hs.
  pose proof (fun i Hi He => settle_is_Some ctx host m order es ∅ w1 i Hi He Hnd) as Hdef.
  destruct (settle_entries host ctx m order es ∅ w1) as [w2' out] eqn:Hsettle. injection Hset as -> <-. simpl in Hdef.
  apply M_bind_Ok in H as (w3 & fs & [= <- Hcol] & H).
  assert (forall i e, es !! i = Some e -> exists call, entry_for ctx call e) as Hentry.
  { intros i e Hi. destruct (Forall2_lookup_r _ _ _ _ _ Hes Hi) as (c & _ & Hc). by exists c. }
  apply collect_outcomes_Ok in Hcol.
  2: { apply Forall_fmap, Forall_forall. intros i Hi. apply elem_of_seq in Hi. apply Hdef; [apply Hin; lia|].
       apply lookup_lt_is_Some. lia. }
  assert (length fs = length es) as Hfs.
  { apply (f_equal length) in Hcol. by rewrite !length_fmap, length_seq in Hcol. }
  assert (forall i f, fs !! i = Some f -> out !! i = Some (Ok f)) as Hout.
  { intros i f Hi. pose proof (lookup_lt_Some _ _ _ Hi) as Hlt. apply (f_equal (.!! i)) in Hcol.
    rewrite !list_lookup_fmap, Hi, lookup_seq_lt in Hcol by lia. simpl in Hcol. by injection Hcol. }
  destruct Hs as [Hev Hsettled]; [done| |].
  { intros i _ [e He]. apply lookup_lt_Some in He. rewrite <- Hfs in He. apply lookup_lt_is_Some in He as [f Hf].
    exists f. by apply Hout. }
  assert (Forall2 settled_as es fs) as Hset.
  { apply Forall2_same_length_lookup_2; [done|]. intros i e f He Hf.
    apply (Hsettled i e f); [|done|by apply Hout]. apply Hin. by apply lookup_lt_Some in He. }
  pose proof (answers_settled _ _ _ Hes Hset) as Hans.
  assert (sends events (messages ← publish_messages host fs [];
      mret {| eb_messages := messages; eb_terminate := shouldTerminateToolBatch fs |})
      (fun b evs => b = {| eb_messages := omap fz_message fs; eb_terminate := shouldTerminateToolBatch fs |} /\
                    evs = (fs ≫= published_of))) as Hpub.
  { eapply sends_bind; [apply (publish_messages_sends host ctx events Hrec fs [])|].
    - intros f Hf. destruct (zip_partner _ _ _ _ Hans Hf) as (c & _ & _ & m' & Hm & _). by rewrite Hm.
    - intros messages evs [-> ->]. apply sends_ret. by rewrite app_nil_r. }
  destruct (Hpub _ _ _ H) as (evs3 & He3 & -> & ->).
  exists ((zip calls es ≫= preflight_events) ++ omap (late_event es out) order ++ (fs ≫= published_of)). split.
  { by rewrite He3, Hev, He1, !and_then_app, app_assoc. }
  exists fs. rewrite Hfs. split_and!; [done|done|done|apply shouldTerminate_spec|]. rewrite (zip_prefix calls es).
  apply (preflight_batch ctx); [done|done|done|]. by rewrite Horder, (late_seq es fs out).
Qed.

Lemma executeToolCalls_sends order recoveredCalls :
  let calls := default (tool_calls m) recoveredCalls in
  order ≡ₚ seq 0 (length calls) ->
  sends events (executeToolCalls host ctx m order recoveredCalls) (batch_of calls).
Proof.
  intros calls Horder. unfold executeToolCalls. fold calls. destruct (_ || _).
  - apply sequential_batch.
  - by apply parallel_batch.
Qed.
(** C27. A batch of tool calls, sequential or parallel, whatever the order in which parallel
    calls complete: the result messages answer a prefix of the calls in the order of the
    calls, one each with the call's id and name, and all of them when the run is not
    aborted; the batch terminates the run exactly when it is not empty and every result
    says so; each processed call is started once in order, ended once after its start, and
    its message is published once after its end. *)
Theorem executeToolCalls_batch order recoveredCalls w w' b before :
  let calls := default (tool_calls m) recoveredCalls in
  events w = Some before -> order ≡ₚ seq 0 (length calls) ->
  executeToolCalls host ctx m order recoveredCalls w = (w', Ok b) ->
  exists evs, events w' = Some (before ++ evs) /\ batch_of calls b evs.
Proof.
  intros calls Hw Horder H. destruct (executeToolCalls_sends order recoveredCalls Horder _ _ _ H) as (evs & He & Hb).
  exists evs. by rewrite He, Hw.
Qed.
End disciplines.
