(* ===== verification/AgentLoop.v ===== *)
(** * The agent loop (packages/agent/src/agent-loop.ts, no-progress.ts, step-snapshot.ts)

    A run alternates provider responses and tool batches until nothing is left to do.  The
    provider, the hooks and the listeners are computations on the state [W] of the outside
    world.  A hook that is handed the context returns what the code reads of its answer; the
    partial message that the context holds while a response streams is left out. *)
From S2P Require Import Prelude JsNumber SessionTypes JsText JsonNumber JsonText Reducer Context.
From S2P Require Import ResourceScheduler ToolExecution DurableJson Retry ToolPipeline.

(** ** Progress (no-progress.ts) *)

Definition NO_PROGRESS_REPEAT_LIMIT : nat := 3.
Definition given {A} (name : string) (f : A -> json) (v : option A) : list (string * json) :=
  match v with Some a => [(name, f a)] | None => [] end.
(** Only the requested actions count. *)
Definition fingerprintAssistantTurn (message : AssistantMessage) : jsstring :=
  JSON_stringify (JsonObject (
    [("stopReason", JsonString (stop_reason_name (am_stopReason message)))] ++
    given "errorMessage" JsonString (am_errorMessage message) ++
    [("calls", JsonArray ((fun call => JsonObject (
        [("name", JsonString (tc_name call)); ("arguments", tc_arguments call)] ++
        given "namespace" JsonString (tc_namespace call))) <$> tool_calls message))])).
Definition fingerprint_block (b : content) : json :=
  match b with
  | TextContent text _ => JsonObject [("type", JsonString "text"); ("text", JsonString text)]
  | ImageContent data mimeType =>
      JsonObject [("type", JsonString "image"); ("mimeType", JsonString mimeType); ("data", JsonString data)]
  | ThinkingContent _ _ _ => JsonObject [("type", JsonString "thinking")]
  | ToolCallContent _ => JsonObject [("type", JsonString "toolCall")]
  end.
Definition fingerprintToolResult (message : ToolResultMessage) : jsstring :=
  JSON_stringify (JsonObject [("toolName", JsonString (tr_toolName message)); ("isError", JsonBool (tr_isError message));
                              ("content", JsonArray (fingerprint_block <$> tr_content message))]).
(** [[...].join("\n")] *)
Fixpoint join_lines (parts : list jsstring) : jsstring :=
  match parts with [] => [] | [p] => p | p :: parts' => p ++ 10 :: join_lines parts' end.
Definition turn_fingerprint (message : AssistantMessage) (toolResults : list ToolResultMessage) : jsstring :=
  join_lines (fingerprintAssistantTurn message :: (fingerprintToolResult <$> toolResults)).

(** ** Data *)

(** The fields of [Model] the loop reads, and the others. *)
Record LoopModel := { md_api : string; md_provider : string; md_id : string; md_other : json }.
Record Routing := { ro_promptCacheKey : option string; ro_cacheAffinityId : option string; ro_transport : option string }.
(** The part of [AgentLoopConfig] that changes during a run. *)
Record LoopConfig := {
  lc_model : LoopModel; lc_reasoning : option string; lc_routing : Routing; lc_stepId : option string;
  lc_toolPlanRevision : option nat }.
Record AgentLoopTurnUpdate (W : Type) := {
  tu_context : option (AgentContext W); tu_model : option LoopModel; tu_thinkingLevel : option string }.
Arguments tu_context {W}. Arguments tu_model {W}. Arguments tu_thinkingLevel {W}.
(** [ShouldStopAfterTurnContext], [PrepareNextTurnContext] *)
Record CompletedTurn (W : Type) := {
  ct_message : AssistantMessage; ct_toolResults : list ToolResultMessage; ct_context : AgentContext W;
  ct_newMessages : list AgentMessage }.
Arguments ct_message {W}. Arguments ct_toolResults {W}. Arguments ct_context {W}. Arguments ct_newMessages {W}.
(** [Context] of a provider request. *)
Record ProviderContext (W : Type) := {
  px_systemPrompt : string; px_messages : list AgentMessage; px_tools : option (list (AgentTool W)) }.
Arguments px_systemPrompt {W}. Arguments px_messages {W}. Arguments px_tools {W}.

(** The events of a response; awaiting one may act on the world. *)
Inductive response_stream (W : Type) :=
| StreamExhausted
| StreamThrows (error : Failure)
| StreamYields (event : AssistantMessageEvent) (rest : response_stream W)
| StreamActs (act : W -> W * response_stream W).
Arguments StreamExhausted {W}. Arguments StreamThrows {W}. Arguments StreamYields {W}. Arguments StreamActs {W}.
Record Response (W : Type) := { rs_events : response_stream W; rs_result : M W Failure AssistantMessage }.
Arguments rs_events {W}. Arguments rs_result {W}.

(** The hooks of [AgentLoopConfig] the loop itself calls.  [completion_order] settles in
    which order the calls of a parallel batch complete. *)
Record LoopHost (W L : Type) := {
  tool_host : ToolHost W L;
  completion_order : list AgentToolCall -> W -> list nat;
  runId : option string;
  apiKey : option string;
  streamFunction : LoopModel -> ProviderContext W -> LoopConfig -> option string -> M W Failure (Response W);
  convertToLlm : list AgentMessage -> M W Failure (list AgentMessage);
  transformContext : option (list AgentMessage -> M W Failure (list AgentMessage));
  getSystemPrompt : option (M W Failure string);
  onProviderContext : option (LoopModel -> ProviderContext W -> M W Failure unit);
  getApiKey : option (string -> M W Failure (option string));
  onCompletedOutputItem : option (option string -> nat -> content -> AssistantMessage -> M W Failure unit);
  getSteeringMessages : option (M W Failure (list AgentMessage));
  getFollowUpMessages : option (M W Failure (list AgentMessage));
  prepareNextTurn : option (CompletedTurn W -> M W Failure (option (AgentLoopTurnUpdate W)));
  prepareRequest : option (AgentContext W -> LoopModel -> string -> M W Failure (option (AgentLoopTurnUpdate W)));
  getRequestRouting : option (M W Failure Routing);
  shouldStopAfterTurn : option (CompletedTurn W -> M W Failure bool) }.
Arguments tool_host {W L}. Arguments completion_order {W L}. Arguments runId {W L}. Arguments apiKey {W L}.
Arguments streamFunction {W L}. Arguments convertToLlm {W L}. Arguments transformContext {W L}.
Arguments getSystemPrompt {W L}. Arguments onProviderContext {W L}. Arguments getApiKey {W L}.
Arguments onCompletedOutputItem {W L}. Arguments getSteeringMessages {W L}. Arguments getFollowUpMessages {W L}.
Arguments prepareNextTurn {W L}. Arguments prepareRequest {W L}. Arguments getRequestRouting {W L}.
Arguments shouldStopAfterTurn {W L}.

Definition set_messages {W} (messages : list AgentMessage) (c : AgentContext W) : AgentContext W :=
  {| cx_systemPrompt := cx_systemPrompt c; cx_messages := messages; cx_tools := cx_tools c; cx_toolPlan := cx_toolPlan c |}.
Definition add_messages {W} (messages : list AgentMessage) (c : AgentContext W) : AgentContext W :=
  set_messages (cx_messages c ++ messages) c.
Definition set_systemPrompt {W} (prompt : string) (c : AgentContext W) : AgentContext W :=
  {| cx_systemPrompt := prompt; cx_messages := cx_messages c; cx_tools := cx_tools c; cx_toolPlan := cx_toolPlan c |}.

(** [{ ...config, model: update.model ?? ..., reasoning: ... }] *)
Definition update_config {W} (update : AgentLoopTurnUpdate W) (c : LoopConfig) : LoopConfig :=
  {| lc_model := default (lc_model c) (tu_model update);
     lc_reasoning := match tu_thinkingLevel update with
                     | None => lc_reasoning c
                     | Some level => if bool_decide (level = "off") then None else Some level
                     end;
     lc_routing := lc_routing c; lc_stepId := lc_stepId c; lc_toolPlanRevision := lc_toolPlanRevision c |}.
Definition set_routing (routing : Routing) (c : LoopConfig) : LoopConfig :=
  {| lc_model := lc_model c; lc_reasoning := lc_reasoning c; lc_routing := routing; lc_stepId := lc_stepId c;
     lc_toolPlanRevision := lc_toolPlanRevision c |}.

Definition no_usage : Usage :=
  {| usage_input := num_zero; usage_output := num_zero; usage_cacheRead := num_zero; usage_cacheWrite := num_zero;
     usage_cacheWrite1h := None; usage_reasoning := None; usage_totalTokens := num_zero;
     usage_cost := {| cost_input := num_zero; cost_output := num_zero; cost_cacheRead := num_zero;
                      cost_cacheWrite := num_zero; cost_total := num_zero |} |}.
(** A message the loop makes itself. *)
Definition loop_message (model : LoopModel) (text errorMessage : string) (stopReason : StopReason) (timestamp : number)
  : AssistantMessage :=
  {| am_content := [TextContent text None]; am_api := md_api model; am_provider := md_provider model;
     am_model := md_id model; am_responseModel := None; am_responseId := None; am_serviceTier := None;
     am_diagnostics := None; am_usage := no_usage; am_stopReason := stopReason; am_isResponseCheckpoint := false;
     am_deferred := None; am_errorMessage := Some errorMessage; am_rawStopReason := None; am_endTurn := None;
     am_timestamp := timestamp |}.
Definition noProgressStopMessage (model : LoopModel) (toolCalls : list AgentToolCall) (timestamp : number) : AssistantMessage :=
  let names := String.concat ", " (jm_keys (jm_of_list ((fun call => (tc_name call, tt)) <$> toolCalls))) in
  let text := "Stopped: no progress. " +:+ names +:+ " returned identical results to identical arguments "
              +:+ pretty (Z.of_nat NO_PROGRESS_REPEAT_LIMIT)
              +:+ " turns in a row. The agent is stuck in a loop; change the approach or the arguments." in
  loop_message model text text StopError timestamp.
Definition createAbortedAssistantMessage (model : LoopModel) (timestamp : number) : AssistantMessage :=
  loop_message model "" "Operation aborted" StopAborted timestamp.
(** [{ ...message, stopReason: "aborted", errorMessage }] *)
Definition with_abort (errorMessage : string) (m : AssistantMessage) : AssistantMessage :=
  {| am_content := am_content m; am_api := am_api m; am_provider := am_provider m; am_model := am_model m;
     am_responseModel := am_responseModel m; am_responseId := am_responseId m; am_serviceTier := am_serviceTier m;
     am_diagnostics := am_diagnostics m; am_usage := am_usage m; am_stopReason := StopAborted;
     am_isResponseCheckpoint := am_isResponseCheckpoint m; am_deferred := am_deferred m;
     am_errorMessage := Some errorMessage; am_rawStopReason := am_rawStopReason m; am_endTurn := am_endTurn m;
     am_timestamp := am_timestamp m |}.
Definition with_content (blocks : list content) (m : AssistantMessage) : AssistantMessage :=
  {| am_content := blocks; am_api := am_api m; am_provider := am_provider m; am_model := am_model m;
     am_responseModel := am_responseModel m; am_responseId := am_responseId m; am_serviceTier := am_serviceTier m;
     am_diagnostics := am_diagnostics m; am_usage := am_usage m; am_stopReason := am_stopReason m;
     am_isResponseCheckpoint := am_isResponseCheckpoint m; am_deferred := am_deferred m;
     am_errorMessage := am_errorMessage m; am_rawStopReason := am_rawStopReason m; am_endTurn := am_endTurn m;
     am_timestamp := am_timestamp m |}.

(** The completed items of a failed response, kept as progress. *)
Definition checkpoint_of (blocks : list content) (m : AssistantMessage) : AssistantMessage :=
  {| am_content := blocks; am_api := am_api m; am_provider := am_provider m; am_model := am_model m;
     am_responseModel := am_responseModel m; am_responseId := None; am_serviceTier := am_serviceTier m;
     am_diagnostics := None; am_usage := no_usage;
     am_stopReason := if existsb (fun b => bool_decide (is_Some (tool_call_of b))) blocks then StopToolUse else StopStop;
     am_isResponseCheckpoint := true; am_deferred := None; am_errorMessage := None; am_rawStopReason := None;
     am_endTurn := None; am_timestamp := am_timestamp m |}.
Definition is_thinking (b : content) : bool := match b with ThinkingContent _ _ _ => true | _ => false end.
Fixpoint drop_thinking (reversed : list (nat * content)) : list (nat * content) :=
  match reversed with
  | (i, b) :: reversed' => if is_thinking b then drop_thinking reversed' else reversed
  | [] => []
  end.
(** The completed blocks in the order of their index, less trailing reasoning. *)
Definition retained_blocks (completedBlocks : jsmap nat content) : list (nat * content) :=
  reverse (drop_thinking (reverse (sort_by (fun kv => Z.of_nat kv.1) completedBlocks))).
Fixpoint without_indexes (retained : list nat) (index : nat) (blocks : list content) : list content :=
  match blocks with
  | [] => []
  | b :: blocks' => if bool_decide (index ∈ retained) then without_indexes retained (S index) blocks'
                    else b :: without_indexes retained (S index) blocks'
  end.

(** The block an event completes, when the provider marked it complete. *)
Definition completed_item (event : AssistantMessageEvent) : option (nat * content * AssistantMessage) :=
  match event with
  | TextEnd i _ partial (Some true) | ThinkingEnd i _ partial (Some true) =>
      b ← am_content partial !! i; Some (i, b, partial)
  | ToolCallEnd i toolCall partial (Some true) => Some (i, ToolCallContent toolCall, partial)
  | _ => None
  end.
Definition event_partial (event : AssistantMessageEvent) : option AssistantMessage :=
  match event with
  | TextStart _ p | TextDelta _ _ p | TextEnd _ _ p _ | ThinkingStart _ p | ThinkingDelta _ _ p | ThinkingEnd _ _ p _
  | ToolCallStart _ p | ToolCallDelta _ _ p | ToolCallEnd _ _ p _ => Some p
  | StreamStart _ | StreamDone _ _ | StreamError _ _ => None
  end.

Record StreamedAssistantResponse := { sr_message : AssistantMessage; sr_checkpoint : option AssistantMessage }.

Section agent_loop.
Context {W L : Type} (host : LoopHost W L).
#[local] Abbreviation HostM := (M W Failure).

Definition resolveSystemPrompt (snapshot : string) : HostM string :=
  match getSystemPrompt host with
  | Some resolve => try_catch resolve (fun _ => mret snapshot)
  | None => mret snapshot
  end.
Definition buildProviderContext (context : AgentContext W) : HostM (ProviderContext W) :=
  messages ← match transformContext host with
             | Some transform => transform (cx_messages context)
             | None => mret (cx_messages context)
             end;
  llmMessages ← convertToLlm host messages;
  mret {| px_systemPrompt := cx_systemPrompt context; px_messages := llmMessages; px_tools := cx_tools context |}.

Definition report_provider (outcome : PhaseOutcome) (reason : option string) : HostM unit :=
  modify (report (tool_host host) {| ee_phase := ProviderRequest; ee_toolCallId := None; ee_toolName := None;
                                     ee_outcome := outcome; ee_reason := reason |}).
Definition reportProviderResult (message : AssistantMessage) : HostM unit :=
  match am_stopReason message with
  | StopAborted => report_provider PhCancelled (Some "provider aborted")
  | StopError => report_provider PhFailed (Some "provider error")
  | _ => report_provider PhSucceeded None
  end.

(** The events of a response until it is done: whether a partial message was announced, and
    the completed blocks. *)
Fixpoint readResponse (stepId : option string) (stream : response_stream W) (addedPartial : bool)
    (completedBlocks : jsmap nat content) (w : W) : W * result Failure (bool * jsmap nat content) :=
  match stream with
  | StreamExhausted => (w, Ok (addedPartial, completedBlocks))
  | StreamThrows error => (w, Err error)
  | StreamActs act => match act w with (w', rest) => readResponse stepId rest addedPartial completedBlocks w' end
  | StreamYields (StreamStart partial) rest =>
      (emit (tool_host host) (EvMessageStart (AssistantMsg partial));;
       readResponse stepId rest true completedBlocks) w
  | StreamYields (StreamDone _ _) _ | StreamYields (StreamError _ _) _ => (w, Ok (addedPartial, completedBlocks))
  | StreamYields event rest =>
      (completedBlocks ←
         match completed_item event with
         | Some (contentIndex, block, partial) =>
             match onCompletedOutputItem host with
             | Some hook => hook stepId contentIndex block partial
             | None => mret tt
             end;;
             mret (jm_set contentIndex block completedBlocks)
         | None => mret completedBlocks
         end;
       match event_partial event with
       | Some partial =>
           if addedPartial then emit (tool_host host) (EvMessageUpdate (AssistantMsg partial) event) else mret tt
       | None => mret tt
       end;;
       readResponse stepId rest addedPartial completedBlocks) w
  end.

(** What is kept of the completed blocks of a response that failed and may be retried. *)
Definition split_response (stop : bool) (completedBlocks : jsmap nat content) (finalMessage : AssistantMessage)
  : StreamedAssistantResponse :=
  let completed := retained_blocks completedBlocks in
  if negb stop && isRetryableAssistantError finalMessage && negb (bool_decide (completed = [])) then
    {| sr_checkpoint := Some (checkpoint_of completed.*2 finalMessage);
       sr_message := with_content (without_indexes completed.*1 0 (am_content finalMessage)) finalMessage |}
  else {| sr_message := finalMessage; sr_checkpoint := None |}.

Definition now : HostM number := fun w => (w, Ok (Date_now (tool_host host) w)).

Definition streamAssistantResponse (context : AgentContext W) (config : LoopConfig) : HostM StreamedAssistantResponse :=
  built ← buildProviderContext context;
  systemPrompt ← resolveSystemPrompt (px_systemPrompt built);
  let llmContext := {| px_systemPrompt := systemPrompt; px_messages := px_messages built; px_tools := px_tools built |} in
  match onProviderContext host with
  | Some hook => try_catch (hook (lc_model config) llmContext) (fun _ => mret tt)
  | None => mret tt
  end;;
  resolved ← match getApiKey host with Some hook => hook (md_provider (lc_model config)) | None => mret None end;
  let resolvedApiKey := match resolved with
                        | Some key => if bool_decide (key = "") then apiKey host else Some key
                        | None => apiKey host
                        end in
  stop ← aborted (tool_host host);
  refused ← (if (stop : bool) then mret true else admitted ← effect_gate (tool_host host); mret (negb admitted));
  if (refused : bool) then
    timestamp ← now;
    let abortedMessage := createAbortedAssistantMessage (lc_model config) timestamp in
    report_provider PhCancelled (Some "cancelled before provider request");;
    emit (tool_host host) (EvMessageStart (AssistantMsg abortedMessage));;
    mret {| sr_message := abortedMessage; sr_checkpoint := None |}
  else
    report_provider PhStarted None;;
    response ← try_catch (streamFunction host (lc_model config) llmContext config resolvedApiKey)
      (fun error => report_provider PhFailed (Some "provider request failed");; throw error);
    '(addedPartial, completedBlocks) ← readResponse (lc_stepId config) (rs_events response) false [];
    finalResult ← rs_result response;
    stop ← aborted (tool_host host);
    let finalMessage := if stop && bool_decide (am_stopReason finalResult = StopError)
                        then with_abort "Operation aborted" finalResult else finalResult in
    reportProviderResult finalMessage;;
    (if (addedPartial : bool) then mret tt else emit (tool_host host) (EvMessageStart (AssistantMsg finalMessage)));;
    stop ← aborted (tool_host host);
    mret (split_response stop completedBlocks finalMessage).

(** ** Steps (step-snapshot.ts) *)

Definition step_identity (stepNumber : nat) : string :=
  default "run" (runId host) +:+ "-step-" +:+ pretty (Z.of_nat stepNumber).
(** [createStepSnapshot]: the context and configuration of one provider step. *)
Definition createStepSnapshot (context : AgentContext W) (config : LoopConfig) (stepNumber : nat)
  : AgentContext W * LoopConfig :=
  let tools := default [] (coalesce (cx_tools context) (tp_tools <$> cx_toolPlan context)) in
  let plan := createToolPlan tools stepNumber (Some (step_identity stepNumber)) in
  ({| cx_systemPrompt := cx_systemPrompt context; cx_messages := cx_messages context;
      cx_tools := Some (tp_tools plan); cx_toolPlan := Some plan |},
   {| lc_model := lc_model config; lc_reasoning := lc_reasoning config; lc_routing := lc_routing config;
      lc_stepId := Some (step_identity stepNumber); lc_toolPlanRevision := Some (tp_revision plan) |}).

(** ** The loop *)

(** The variables of [runLoop]. *)
Record LoopState := {
  ls_context : AgentContext W; ls_config : LoopConfig; ls_lastCompletedTurn : option (CompletedTurn W);
  ls_lastTurnFingerprint : option jsstring; ls_turnFingerprintRepeats : nat; ls_stepNumber : nat;
  ls_pendingMessages : list AgentMessage; ls_newMessages : list AgentMessage }.

Definition set_context (context : AgentContext W) (s : LoopState) : LoopState :=
  {| ls_context := context; ls_config := ls_config s; ls_lastCompletedTurn := ls_lastCompletedTurn s;
     ls_lastTurnFingerprint := ls_lastTurnFingerprint s; ls_turnFingerprintRepeats := ls_turnFingerprintRepeats s;
     ls_stepNumber := ls_stepNumber s; ls_pendingMessages := ls_pendingMessages s; ls_newMessages := ls_newMessages s |}.
Definition set_config (config : LoopConfig) (s : LoopState) : LoopState :=
  {| ls_context := ls_context s; ls_config := config; ls_lastCompletedTurn := ls_lastCompletedTurn s;
     ls_lastTurnFingerprint := ls_lastTurnFingerprint s; ls_turnFingerprintRepeats := ls_turnFingerprintRepeats s;
     ls_stepNumber := ls_stepNumber s; ls_pendingMessages := ls_pendingMessages s; ls_newMessages := ls_newMessages s |}.
Definition set_pending (pending : list AgentMessage) (s : LoopState) : LoopState :=
  {| ls_context := ls_context s; ls_config := ls_config s; ls_lastCompletedTurn := ls_lastCompletedTurn s;
     ls_lastTurnFingerprint := ls_lastTurnFingerprint s; ls_turnFingerprintRepeats := ls_turnFingerprintRepeats s;
     ls_stepNumber := ls_stepNumber s; ls_pendingMessages := pending; ls_newMessages := ls_newMessages s |}.
(** The progress fingerprint and its repetitions. *)
Definition set_progress (fingerprint : option jsstring) (repeats : nat) (s : LoopState) : LoopState :=
  {| ls_context := ls_context s; ls_config := ls_config s; ls_lastCompletedTurn := ls_lastCompletedTurn s;
     ls_lastTurnFingerprint := fingerprint; ls_turnFingerprintRepeats := repeats;
     ls_stepNumber := ls_stepNumber s; ls_pendingMessages := ls_pendingMessages s; ls_newMessages := ls_newMessages s |}.
Definition set_lastCompletedTurn (t : CompletedTurn W) (s : LoopState) : LoopState :=
  {| ls_context := ls_context s; ls_config := ls_config s; ls_lastCompletedTurn := Some t;
     ls_lastTurnFingerprint := ls_lastTurnFingerprint s; ls_turnFingerprintRepeats := ls_turnFingerprintRepeats s;
     ls_stepNumber := ls_stepNumber s; ls_pendingMessages := ls_pendingMessages s; ls_newMessages := ls_newMessages s |}.
(** [currentContext.messages.push(...messages); newMessages.push(...messages)] *)
Definition record_messages (messages : list AgentMessage) (s : LoopState) : LoopState :=
  {| ls_context := add_messages messages (ls_context s); ls_config := ls_config s;
     ls_lastCompletedTurn := ls_lastCompletedTurn s; ls_lastTurnFingerprint := ls_lastTurnFingerprint s;
     ls_turnFingerprintRepeats := ls_turnFingerprintRepeats s; ls_stepNumber := ls_stepNumber s;
     ls_pendingMessages := ls_pendingMessages s; ls_newMessages := ls_newMessages s ++ messages |}.

Definition apply_update (update : option (AgentLoopTurnUpdate W)) (s : LoopState) : LoopState :=
  match update with
  | Some u => set_config (update_config u (ls_config s)) (set_context (default (ls_context s) (tu_context u)) s)
  | None => s
  end.
Definition poll (queue : option (HostM (list AgentMessage))) : HostM (list AgentMessage) :=
  match queue with Some poll => poll | None => mret [] end.
Definition announce (message : AgentMessage) : HostM unit :=
  emit (tool_host host) (EvMessageStart message);; emit (tool_host host) (EvMessageEnd message).

(** What precedes every turn but the first. *)
Definition prepare_turn (s : LoopState) : HostM LoopState :=
  match ls_lastCompletedTurn s with
  | None => mret s
  | Some turn =>
      update ← match prepareNextTurn host with Some hook => hook turn | None => mret None end;
      let s := apply_update update s in
      pending ← match ls_pendingMessages s with
                | [] => poll (getSteeringMessages host)
                | pending => mret pending
                end;
      emit (tool_host host) EvTurnStart;;
      mret (set_pending pending s)
  end.

Fixpoint inject_messages (messages : list AgentMessage) (s : LoopState) : HostM LoopState :=
  match messages with
  | [] => mret s
  | message :: messages' => announce message;; inject_messages messages' (record_messages [message] s)
  end.
(** Pending messages enter the transcript and count as progress. *)
Definition inject_pending (s : LoopState) : HostM LoopState :=
  match ls_pendingMessages s with
  | [] => mret s
  | pending =>
      s ← inject_messages pending (set_progress None 0 s);
      let s := set_pending [] s in
      prompt ← resolveSystemPrompt (cx_systemPrompt (ls_context s));
      mret (set_context (set_systemPrompt prompt (ls_context s)) s)
  end.

(** The last updates before the request, and the step they are bound to. *)
Definition bind_step (s : LoopState) : HostM LoopState :=
  update ← match prepareRequest host with
           | Some hook => hook (ls_context s) (lc_model (ls_config s)) (default "off" (lc_reasoning (ls_config s)))
           | None => mret None
           end;
  let s := apply_update update s in
  s ← match getRequestRouting host with
      | Some hook => routing ← hook; mret (set_config (set_routing routing (ls_config s)) s)
      | None => mret s
      end;
  let stepNumber := S (ls_stepNumber s) in
  let '(context, config) := createStepSnapshot (ls_context s) (ls_config s) stepNumber in
  mret {| ls_context := context; ls_config := config; ls_lastCompletedTurn := ls_lastCompletedTurn s;
          ls_lastTurnFingerprint := ls_lastTurnFingerprint s;
          ls_turnFingerprintRepeats := ls_turnFingerprintRepeats s; ls_stepNumber := stepNumber;
          ls_pendingMessages := ls_pendingMessages s; ls_newMessages := ls_newMessages s |}.

Definition run_batch (context : AgentContext W) (message : AssistantMessage) (calls : option (list AgentToolCall))
  : HostM ExecutedToolCallBatch :=
  fun w => executeToolCalls (tool_host host) context message
             (completion_order host (default (tool_calls message) calls) w) calls w.

(** A response that failed after completed items: they are kept, and their calls executed,
    before the failure is recorded.  The results of those calls, and the final message. *)
Definition recover_checkpoint (streamed : StreamedAssistantResponse) (s : LoopState)
  : HostM (LoopState * AssistantMessage * list ToolResultMessage) :=
  match sr_checkpoint streamed with
  | None => mret (s, sr_message streamed, [])
  | Some checkpoint =>
      let s := record_messages [AssistantMsg checkpoint] s in
      emit (tool_host host) (EvMessageEnd (AssistantMsg checkpoint));;
      '(s, recoveredToolResults, terminate) ←
         match tool_calls checkpoint with
         | [] => mret (s, [], false)
         | _ =>
             batch ← run_batch (ls_context s) checkpoint None;
             mret (record_messages (ToolResultMsg <$> eb_messages batch) s, eb_messages batch, eb_terminate batch)
         end;
      stop ← aborted (tool_host host);
      let message := if stop || terminate then with_abort "Interrupted response recovery stopped" (sr_message streamed)
                     else sr_message streamed in
      emit (tool_host host) (EvMessageStart (AssistantMsg message));;
      mret (s, message, recoveredToolResults)
  end.

(** The tool calls of a response: the results, and whether the loop goes on with them. *)
Definition answer_calls (message : AssistantMessage) (s : LoopState) : HostM (LoopState * list ToolResultMessage * bool) :=
  match tool_calls message with
  | [] => mret (s, [], false)
  | toolCalls =>
      batch ← (if bool_decide (am_stopReason message = StopLength)
               then failToolCallsFromTruncatedMessage (tool_host host) toolCalls
               else run_batch (ls_context s) message None);
      mret (record_messages (ToolResultMsg <$> eb_messages batch) s, eb_messages batch, negb (eb_terminate batch))
  end.

(** The no-progress guard: the state after this turn, and whether the loop is stuck. *)
Definition note_progress (message : AssistantMessage) (toolResults : list ToolResultMessage) (hasMoreToolCalls : bool)
    (s : LoopState) : LoopState * bool :=
  if hasMoreToolCalls && negb (bool_decide (tool_calls message = [])) then
    let fingerprint := turn_fingerprint message toolResults in
    let repeats := if bool_decide (ls_lastTurnFingerprint s = Some fingerprint)
                   then S (ls_turnFingerprintRepeats s) else 1%nat in
    (set_progress (Some fingerprint) repeats s, (NO_PROGRESS_REPEAT_LIMIT <=? repeats)%nat)
  else (set_progress None 0 s, false).

(** How a turn ends: the run is over, or the loop continues. *)
Inductive turn_result :=
| Returned (newMessages : list AgentMessage)
| Continues (hasMoreToolCalls : bool) (s : LoopState).
Definition end_run (newMessages : list AgentMessage) : HostM turn_result :=
  emit (tool_host host) (EvAgentEnd newMessages);; mret (Returned newMessages).

(** The turn after its response: the tool calls, the guard and the hooks that end a run. *)
Definition finish_turn (message : AssistantMessage) (recoveredToolResults : list ToolResultMessage) (s : LoopState)
  : HostM turn_result :=
  let s := record_messages [AssistantMsg message] s in
  emit (tool_host host) (EvMessageEnd (AssistantMsg message));;
  if bool_decide (am_stopReason message = StopError) || bool_decide (am_stopReason message = StopAborted) then
    emit (tool_host host) (EvTurnEnd (AssistantMsg message) recoveredToolResults);;
    end_run (ls_newMessages s)
  else
    '(s, toolResults, hasMoreToolCalls) ← answer_calls message s;
    emit (tool_host host) (EvTurnEnd (AssistantMsg message) toolResults);;
    let completed := {| ct_message := message; ct_toolResults := toolResults; ct_context := ls_context s;
                        ct_newMessages := ls_newMessages s |} in
    let '(s, stuck) := note_progress message toolResults hasMoreToolCalls (set_lastCompletedTurn completed s) in
    if (stuck : bool) then
      timestamp ← now;
      let stopMessage := AssistantMsg (noProgressStopMessage (lc_model (ls_config s)) (tool_calls message) timestamp) in
      let s := record_messages [stopMessage] s in
      announce stopMessage;;
      end_run (ls_newMessages s)
    else
      stop ← match shouldStopAfterTurn host with Some hook => hook completed | None => mret false end;
      if (stop : bool) then end_run (ls_newMessages s)
      else
        pending ← poll (getSteeringMessages host);
        mret (Continues hasMoreToolCalls (set_pending pending s)).

(** The body of the inner loop. *)
Definition turn (s : LoopState) : HostM turn_result :=
  s ← prepare_turn s;
  s ← inject_pending s;
  s ← bind_step s;
  streamed ← streamAssistantResponse (ls_context s) (ls_config s);
  '(s, message, recoveredToolResults) ← recover_checkpoint streamed s;
  finish_turn message recoveredToolResults s.

(** Both loops; [None] when the fuel, one unit per turn or poll of the follow-up queue, runs out. *)
Fixpoint loop (fuel : nat) (hasMoreToolCalls : bool) (s : LoopState) : HostM (option (list AgentMessage)) :=
  match fuel with
  | O => mret None
  | S fuel' =>
      if hasMoreToolCalls || negb (bool_decide (ls_pendingMessages s = [])) then
        result ← turn s;
        match result with
        | Returned newMessages => mret (Some newMessages)
        | Continues hasMoreToolCalls s => loop fuel' hasMoreToolCalls s
        end
      else
        followUpMessages ← poll (getFollowUpMessages host);
        match followUpMessages with
        | [] => emit (tool_host host) (EvAgentEnd (ls_newMessages s));; mret (Some (ls_newMessages s))
        | _ => loop fuel' true (set_pending followUpMessages s)
        end
  end.
Definition runLoop (fuel : nat) (context : AgentContext W) (config : LoopConfig) (newMessages : list AgentMessage)
    (recoveredTurn : option (CompletedTurn W)) : HostM (option (list AgentMessage)) :=
  pending ← poll (getSteeringMessages host);
  loop fuel true {| ls_context := context; ls_config := config; ls_lastCompletedTurn := recoveredTurn;
                    ls_lastTurnFingerprint := None; ls_turnFingerprintRepeats := 0; ls_stepNumber := 0;
                    ls_pendingMessages := pending; ls_newMessages := newMessages |}.

(** ** Entry points *)

Fixpoint announce_all (messages : list AgentMessage) : HostM unit :=
  match messages with [] => mret tt | message :: messages' => announce message;; announce_all messages' end.
Definition runAgentLoop (fuel : nat) (prompts : list AgentMessage) (context : AgentContext W) (config : LoopConfig)
  : HostM (option (list AgentMessage)) :=
  let currentContext := add_messages prompts context in
  emit (tool_host host) EvAgentStart;;
  emit (tool_host host) EvTurnStart;;
  announce_all prompts;;
  prompt ← resolveSystemPrompt (cx_systemPrompt currentContext);
  runLoop fuel (set_systemPrompt prompt currentContext) config prompts None.

(** A completed response cannot be continued. *)
Definition continuable (context : AgentContext W) : result Failure unit :=
  match last (cx_messages context) with
  | None => Err (plain_failure "Cannot continue: no messages in context")
  | Some (AssistantMsg m) =>
      if am_isResponseCheckpoint m && bool_decide (am_stopReason m = StopStop) then Ok tt
      else Err (plain_failure "Cannot continue from message role: assistant")
  | Some _ => Ok tt
  end.
Definition runAgentLoopContinue (fuel : nat) (context : AgentContext W) (config : LoopConfig)
  : HostM (option (list AgentMessage)) :=
  lift (continuable context);;
  emit (tool_host host) EvAgentStart;;
  emit (tool_host host) EvTurnStart;;
  runLoop fuel context config [] None.

(** [Map] of the results by call. *)
Definition by_call (results : list ToolResultMessage) : jsmap string ToolResultMessage :=
  jm_of_list ((fun r => (tr_toolCallId r, r)) <$> results).
Definition unresolved (completed : jsmap string ToolResultMessage) (calls : list AgentToolCall) : list AgentToolCall :=
  keep (fun call => negb (jm_has (tc_id call) completed)) calls.
(** [calls.flatMap]: the results in the order of the calls. *)
Definition ordered_results (completed : jsmap string ToolResultMessage) (calls : list AgentToolCall) : list ToolResultMessage :=
  omap (fun call => jm_get (tc_id call) completed) calls.
(** [assistantIndex]: where the context holds the assistant message, by identity. *)
Definition recoverable (assistantIndex : option nat) (assistant : AssistantMessage) (completedResults : list ToolResultMessage)
  : result Failure nat :=
  let calls := tool_calls assistant in
  match assistantIndex with
  | None => Err (plain_failure "Invalid recovery assistant")
  | Some index =>
      if bool_decide (calls = []) || negb (bool_decide (NoDup (tc_id <$> calls)))
      then Err (plain_failure "Invalid recovery assistant")
      else if negb (bool_decide (NoDup (tr_toolCallId <$> completedResults)))
              || existsb (fun r => negb (existsb (fun call => bool_decide (tc_id call = tr_toolCallId r)
                                                              && bool_decide (tc_name call = tr_toolName r)) calls))
                   completedResults
      then Err (plain_failure "Invalid recovered tool results")
      else match am_stopReason assistant with
           | StopError | StopAborted | StopLength =>
               Err (plain_failure "Cannot execute tools from an incomplete assistant response")
           | _ => Ok index
           end
  end.
Definition runAgentLoopResumeTools (fuel : nat) (context : AgentContext W) (assistantIndex : option nat)
    (assistant : AssistantMessage) (completedResults : list ToolResultMessage) (config : LoopConfig)
  : HostM (option (list AgentMessage)) :=
  index ← lift (recoverable assistantIndex assistant completedResults);
  let calls := tool_calls assistant in
  let completed := by_call completedResults in
  emit (tool_host host) EvAgentStart;;
  emit (tool_host host) EvTurnStart;;
  batch ← run_batch context assistant (Some (unresolved completed calls));
  let ordered := ordered_results (foldl (fun m r => jm_set (tr_toolCallId r) r m) completed (eb_messages batch)) calls in
  let currentContext := set_messages (take (S index) (cx_messages context) ++ (ToolResultMsg <$> ordered)) context in
  let newMessages := ToolResultMsg <$> eb_messages batch in
  emit (tool_host host) (EvTurnEnd (AssistantMsg assistant) ordered);;
  let turn := {| ct_message := assistant; ct_toolResults := ordered; ct_context := currentContext;
                 ct_newMessages := newMessages |} in
  stop ← aborted (tool_host host);
  over ← (if stop || eb_terminate batch then mret true
          else match shouldStopAfterTurn host with Some hook => hook turn | None => mret false end);
  if (over : bool) then
    emit (tool_host host) (EvAgentEnd newMessages);;
    mret (Some newMessages)
  else runLoop fuel currentContext config newMessages (Some turn).
End agent_loop.
