(* ===== verification/AgentLoopTheorems.v ===== *)
(** * The events and the transcript of a run

    Hosts are observed through the log of their events, as in ToolBatch. *)
From S2P Require Import Prelude JsNumber SessionTypes JsText JsonNumber JsonText Reducer Context.
From S2P Require Import ResourceScheduler ToolExecution DurableJson Retry ToolPipeline ToolBatch AgentLoop.

(** The messages that ended, in the order of their events. *)
Definition ended_message (e : AgentEvent) : option AgentMessage := match e with EvMessageEnd m => Some m | _ => None end.
Definition ended (evs : list AgentEvent) : list AgentMessage := omap ended_message evs.
Lemma ended_app evs evs' : ended (evs ++ evs') = ended evs ++ ended evs'.
Proof. apply omap_app. Qed.

Lemma last_app_r {A} (l k : list A) x : last k = Some x -> last (l ++ k) = Some x.
Proof. intros H. by rewrite last_app, H. Qed.
Lemma last_cons_r {A} (y : A) k x : last k = Some x -> last (y :: k) = Some x.
Proof. intros H. by rewrite last_cons, H. Qed.
Ltac ends_with := repeat first [reflexivity | apply last_app_r | apply last_cons_r].

(** Induction on streams. *)
Lemma response_stream_induction {W} (P : response_stream W -> Prop) :
  P StreamExhausted -> (forall e, P (StreamThrows e)) ->
  (forall event rest, P rest -> P (StreamYields event rest)) ->
  (forall act, (forall w, P (act w).2) -> P (StreamActs act)) ->
  forall stream, P stream.
Proof.
  intros Hex Hth Hy Ha. fix IH 1. intros [|e|event rest|act]; [done|done|by apply Hy|].
  apply Ha. intros w. destruct (act w) as [w' rest]. apply IH.
Qed.

Lemma createToolPlan_tools {W} (tools : list (AgentTool W)) revision identity :
  tp_tools (createToolPlan tools revision identity) ⊆ tools.
Proof.
  simpl. unfold jm_values, jm_of_list. assert (forall (m : jsmap string (AgentTool W)),
    (foldl (fun m kv => jm_set kv.1 kv.2 m) m ((fun t => (at_name t, t)) <$> tools)).*2 ⊆ m.*2 ++ tools) as H.
  { induction tools as [|t tools IH]; intros m; simpl; [set_solver|]. etrans; [apply IH|].
    assert ((jm_set (at_name t) t m).*2 ⊆ m.*2 ++ [t]) as Hset; [|set_solver].
    clear. induction m as [|[k v] m IHm]; simpl; [set_solver|]. case_decide; simpl; set_solver. }
  apply H.
Qed.

Section run.
Context {W L : Type} (host : LoopHost W L) (events : W -> option (list AgentEvent)).

(** ** Observed runs *)

Definition quiet_tool (tool : AgentTool W) : Prop :=
  forall parent call args w, events (run_tool (tool_host host) parent call (at_execute tool (tc_id call) args) None w).1 = events w.
(** A context whose tools write no events of their own. *)
Definition trusted (context : AgentContext W) : Prop :=
  Forall quiet_tool (default [] (cx_tools context)) /\
  Forall quiet_tool (default [] (tp_tools <$> cx_toolPlan context)).
Definition trusted_update (update : option (AgentLoopTurnUpdate W)) : Prop :=
  forall u c, update = Some u -> tu_context u = Some c -> trusted c.

(** A response that announces its partial message at most once. *)
Fixpoint orderly_stream (started : bool) (stream : response_stream W) : Prop :=
  match stream with
  | StreamExhausted | StreamThrows _ => True
  | StreamActs act => forall w, events (act w).1 = events w /\ orderly_stream started (act w).2
  | StreamYields (StreamStart _) rest => started = false /\ orderly_stream true rest
  | StreamYields (StreamDone _ _) _ | StreamYields (StreamError _ _) _ => True
  | StreamYields _ rest => orderly_stream started rest
  end.
Definition orderly_response (r : Response W) : Prop :=
  orderly_stream false (rs_events r) /\ quiet events (rs_result r).

(** What is assumed of the host: only [emit] writes to the log, every provider response is
    orderly, and every call of a parallel batch completes once. *)
Record observed_run : Prop := {
  or_host : forall context, trusted context -> records_events (tool_host host) context events;
  or_order : forall calls w, completion_order host calls w ≡ₚ seq 0 (length calls);
  or_stream : forall model context config key, quiet events (streamFunction host model context config key);
  or_response : forall model context config key w w' r,
    streamFunction host model context config key w = (w', Ok r) -> orderly_response r;
  or_convert : forall messages, quiet events (convertToLlm host messages);
  or_transform : forall f messages, transformContext host = Some f -> quiet events (f messages);
  or_prompt : forall f, getSystemPrompt host = Some f -> quiet events f;
  or_observer : forall f model context, onProviderContext host = Some f -> quiet events (f model context);
  or_key : forall f provider, getApiKey host = Some f -> quiet events (f provider);
  or_item : forall f stepId i block m, onCompletedOutputItem host = Some f -> quiet events (f stepId i block m);
  or_steering : forall f, getSteeringMessages host = Some f -> quiet events f;
  or_followUp : forall f, getFollowUpMessages host = Some f -> quiet events f;
  or_next : forall f t, prepareNextTurn host = Some f -> quiet events (f t);
  or_next_trusted : forall f t w w' u, prepareNextTurn host = Some f -> f t w = (w', Ok u) -> trusted_update u;
  or_request : forall f c m t, prepareRequest host = Some f -> quiet events (f c m t);
  or_request_trusted : forall f c m t w w' u, prepareRequest host = Some f -> f c m t w = (w', Ok u) -> trusted_update u;
  or_routing : forall f, getRequestRouting host = Some f -> quiet events f;
  or_stop : forall f t, shouldStopAfterTurn host = Some f -> quiet events (f t) }.
Context (Hrun : observed_run).

Lemma host_of_trusted context : trusted context -> records_events (tool_host host) context events.
Proof. apply (or_host Hrun). Qed.
Lemma trusted_empty : trusted {| cx_systemPrompt := ""; cx_messages := []; cx_tools := None; cx_toolPlan := None |}.
Proof. split; constructor. Qed.
(** The laws that do not depend on the context. *)
Lemma loop_emit e : sends events (emit (tool_host host) e) (fun _ evs => evs = if is_update e then [] else [e]).
Proof. eapply emit_sends, host_of_trusted, trusted_empty. Qed.
Lemma loop_then_emit {B} e (k : M W Failure B) (Q : B -> list AgentEvent -> Prop) :
  is_update e = false -> sends events k (fun b evs => Q b (e :: evs)) -> sends events (emit (tool_host host) e;; k) Q.
Proof. eapply then_emit, host_of_trusted, trusted_empty. Qed.
Lemma report_provider_quiet outcome reason : quiet events (report_provider host outcome reason).
Proof. intros w. apply (re_report _ _ _ (host_of_trusted _ trusted_empty)). Qed.
Lemma reportProviderResult_quiet m : quiet events (reportProviderResult host m).
Proof. unfold reportProviderResult. destruct (am_stopReason m); apply report_provider_quiet. Qed.
Lemma gate_quiet : quiet events (effect_gate (tool_host host)).
Proof.
  unfold effect_gate. destruct (admitEffect (tool_host host)) as [f|] eqn:Hf; [|done].
  by eapply (re_gate _ _ _ (host_of_trusted _ trusted_empty)).
Qed.
Lemma resolve_quiet snapshot : quiet events (resolveSystemPrompt host snapshot).
Proof.
  unfold resolveSystemPrompt. destruct (getSystemPrompt host) as [f|] eqn:Hf; [|done].
  apply quiet_try; [by eapply or_prompt|done].
Qed.
Lemma now_quiet : quiet events (now host).
Proof. done. Qed.
Lemma stop_quiet : quiet events (aborted (tool_host host)).
Proof. done. Qed.
Lemma poll_steering : quiet events (poll (getSteeringMessages host)).
Proof. destruct (getSteeringMessages host) eqn:Hf; [|done]. by eapply or_steering. Qed.
Lemma poll_followUp : quiet events (poll (getFollowUpMessages host)).
Proof. destruct (getFollowUpMessages host) eqn:Hf; [|done]. by eapply or_followUp. Qed.
Hint Resolve report_provider_quiet reportProviderResult_quiet gate_quiet resolve_quiet now_quiet stop_quiet
  poll_steering poll_followUp : quiet.

Lemma buildProviderContext_quiet context : quiet events (buildProviderContext host context).
Proof.
  unfold buildProviderContext. apply quiet_bind; [|intros messages; apply quiet_bind; [by apply or_convert|done]].
  destruct (transformContext host) eqn:Hf; [by eapply or_transform|done].
Qed.

(** A quiet step of a longer computation. *)
Lemma sends_skip {A B} (f : M W Failure A) (k : A -> M W Failure B) (Q : B -> list AgentEvent -> Prop) :
  quiet events f -> (forall a, sends events (k a) Q) -> sends events (f ≫= k) Q.
Proof. intros Hf Hk. apply (sends_after _ _ _ (fun _ => True)); [done|done|]. intros a _. apply Hk. Qed.

Definition call_of (call : AgentToolCall) : string * string := (tc_id call, tc_name call).
Definition answer_of (m : ToolResultMessage) : string * string := (tr_toolCallId m, tr_toolName m).
(** In a run whose signal never fires, a response that did not fail ends its turn with one
    result per call, in the order of the calls. *)
Definition turn_answered (e : AgentEvent) : Prop :=
  match e with
  | EvTurnEnd (AssistantMsg m) results =>
      am_stopReason m <> StopError -> am_stopReason m <> StopAborted -> unaborted (tool_host host) ->
      answer_of <$> results = call_of <$> tool_calls m
  | _ => True
  end.
(** Events that lead from one phase to another. *)
Definition stage (p p' : phase) (evs : list AgentEvent) : Prop := phases p evs = Some p' /\ Forall turn_answered evs.
Lemma stage_nil p : stage p p [].
Proof. by split. Qed.
Lemma stage_app p p' p'' evs evs' : stage p p' evs -> stage p' p'' evs' -> stage p p'' (evs ++ evs').
Proof. intros [H1 H2] [H1' H2']. split; [by eapply phases_after|by apply Forall_app]. Qed.
Lemma stage_cons p p' p'' e evs : phase_step p e = Some p' -> turn_answered e -> stage p' p'' evs -> stage p p'' (e :: evs).
Proof. intros H Ha [H1 H2]. split; [simpl; by rewrite H|by constructor]. Qed.
Lemma stage_turn_start : stage Running InTurn [EvTurnStart].
Proof. by apply (stage_cons _ InTurn); [|constructor|apply stage_nil]. Qed.
Lemma stage_announced m : stage InTurn InTurn [EvMessageStart m; EvMessageEnd m].
Proof. by repeat econstructor. Qed.
Lemma stage_batch calls fs evs : batch_events calls fs evs -> stage InTurn InTurn evs.
Proof.
  intros [_ _ _ _ Hp Hw]. split; [done|]. eapply Forall_impl; [exact Hw|]. by intros [].
Qed.

(** ** A response *)

Lemma readResponse_sends stepId stream added blocks :
  orderly_stream added stream ->
  sends events (readResponse host stepId stream added blocks)
    (fun r evs => if r.1 then if added then evs = [] else exists m, evs = [EvMessageStart m]
                  else added = false /\ evs = []).
Proof.
  revert added blocks. induction stream as [|e|ev rest IH|act IH] using response_stream_induction; intros added blocks Hs.
  - apply sends_quiet; [done|]. intros w w' a [= <- <-]. by destruct added.
  - intros w w' a [=].
  - assert (forall complete, quiet events complete ->
      orderly_stream added rest ->
      sends events (blocks ← complete;
        (match event_partial ev with
         | Some partial => if added then emit (tool_host host) (EvMessageUpdate (AssistantMsg partial) ev) else mret tt
         | None => mret tt
         end);;
        readResponse host stepId rest added blocks)
      (fun r evs => if r.1 then if added then evs = [] else exists m, evs = [EvMessageStart m]
                    else added = false /\ evs = [])) as Hblock.
    { intros complete Hq Hrest. apply sends_skip; [done|]. intros blocks'.
      eapply sends_bind with (P := fun _ evs => evs = []); [|intros _ evs ->; by apply IH].
      destruct (event_partial ev); [destruct added|]; try by apply sends_ret.
      eapply sends_weaken; [apply loop_emit|]. by intros _ evs ->. }
    assert (quiet events
      (match completed_item ev with
       | Some (contentIndex, block, partial) =>
           match onCompletedOutputItem host with
           | Some hook => hook stepId contentIndex block partial
           | None => mret tt
           end;;
           mret (jm_set contentIndex block blocks)
       | None => mret blocks
       end)) as Hq.
    { destruct (completed_item ev) as [[[i b] m]|]; [|done]. apply quiet_bind; [|done].
      destruct (onCompletedOutputItem host) eqn:Hf; [by eapply or_item|done]. }
    destruct ev; try (apply Hblock; [exact Hq|exact Hs]).
    + destruct Hs as [-> Hs]. apply loop_then_emit; [done|]. eapply sends_weaken; [by apply IH|].
      intros [[] blocks'] evs; simpl; [intros ->; by eexists|by intros [? _]].
    + apply sends_ret. by destruct added.
    + apply sends_ret. by destruct added.
  - intros w w' a H. simpl in H, Hs. destruct (Hs w) as [Hq Hr]. pose proof (IH w added blocks Hr) as IHw.
    destruct (act w) as [w1 s1]. simpl in *. destruct (IHw w1 w' a H) as (evs & He & HQ). exists evs. by rewrite He, Hq.
Qed.

(** Whatever the provider does, one message is announced. *)
Lemma streamAssistantResponse_sends context config :
  sends events (streamAssistantResponse host context config) (fun _ evs => exists m, evs = [EvMessageStart m]).
Proof.
  unfold streamAssistantResponse. apply sends_skip; [apply buildProviderContext_quiet|]. intros built.
  apply sends_skip; [apply resolve_quiet|]. intros prompt. apply sends_skip.
  { destruct (onProviderContext host) eqn:Hf; [|done]. apply quiet_try; [by eapply or_observer|done]. }
  intros _. apply sends_skip.
  { destruct (getApiKey host) eqn:Hf; [by eapply or_key|done]. }
  intros resolved. apply sends_skip; [done|]. intros stop. apply sends_skip.
  { destruct stop; [done|]. apply quiet_bind; [apply gate_quiet|done]. }
  intros [].
  - apply sends_skip; [done|]. intros timestamp. apply sends_skip; [apply report_provider_quiet|]. intros _.
    apply loop_then_emit; [done|]. apply sends_ret. by eexists.
  - apply sends_skip; [apply report_provider_quiet|]. intros _.
    apply (sends_after _ _ _ orderly_response).
    { apply quiet_try; [apply (or_stream Hrun)|]. intros e. by apply quiet_bind; [apply report_provider_quiet|]. }
    { intros w w' r [H|(w1 & e & _ & H)]%try_catch_Ok; [by eapply or_response|].
      apply M_bind_Ok in H as (w2 & u & _ & [=]). }
    intros response [Hstream Hresult]. eapply sends_bind; [by apply readResponse_sends|].
    intros [added blocks] evs Hevs. simpl in Hevs. apply sends_skip; [done|]. intros finalResult.
    apply sends_skip; [done|]. intros stopped. apply sends_skip; [apply reportProviderResult_quiet|]. intros _.
    destruct added.
    + destruct Hevs as [m ->]. apply sends_quiet; [done|]. intros w w' a _. by exists m.
    + destruct Hevs as [_ ->]. apply loop_then_emit; [done|]. apply sends_quiet; [done|]. by eexists.
Qed.

(** ** The stages of a turn *)

Lemma announce_sends m : sends events (announce host m) (fun _ evs => evs = [EvMessageStart m; EvMessageEnd m]).
Proof. apply loop_then_emit; [done|]. eapply sends_weaken; [apply loop_emit|]. by intros a evs ->. Qed.

(** What a stage may change of the state: [s'] holds a trusted context and the new messages
    of [s] followed by those of the events. *)
Record follows (s s' : @LoopState W) (evs : list AgentEvent) : Prop := {
  fo_trusted : trusted (ls_context s) -> trusted (ls_context s');
  fo_messages : ls_newMessages s' = ls_newMessages s ++ ended evs;
  fo_last : ls_lastCompletedTurn s' = ls_lastCompletedTurn s }.
Lemma follows_trans s1 s2 s3 evs evs' : follows s1 s2 evs -> follows s2 s3 evs' -> follows s1 s3 (evs ++ evs').
Proof. intros [A B C] [A' B' C']. split; [auto| |congruence]. by rewrite B', B, ended_app, app_assoc. Qed.
Lemma follows_refl s : follows s s [].
Proof. split; [done| |done]. by rewrite app_nil_r. Qed.
Lemma follows_silently s s' :
  (trusted (ls_context s) -> trusted (ls_context s')) -> ls_newMessages s' = ls_newMessages s ->
  ls_lastCompletedTurn s' = ls_lastCompletedTurn s -> follows s s' [].
Proof. intros Ht Hm Hl. split; [done| |done]. by rewrite Hm, app_nil_r. Qed.
Lemma record_follows messages s evs : ended evs = messages -> follows s (record_messages messages s) evs.
Proof. intros <-. by split. Qed.

Lemma apply_update_follows u s : trusted_update u -> follows s (apply_update u s) [].
Proof.
  intros Hu. destruct u as [u|]; [|apply follows_refl]. apply follows_silently; [|done|done].
  simpl. destruct (tu_context u) eqn:Hc; [|done]. intros _. by eapply Hu.
Qed.

(** The phase in which a turn begins. *)
Definition turn_phase (s : @LoopState W) : phase := if ls_lastCompletedTurn s is Some _ then Running else InTurn.

Lemma prepare_turn_sends s :
  sends events (prepare_turn host s)
    (fun s' evs => follows s s' evs /\ stage (turn_phase s) InTurn evs).
Proof.
  unfold prepare_turn, turn_phase. destruct (ls_lastCompletedTurn s) as [t|] eqn:Hl.
  2: { apply sends_ret. split; [apply follows_refl|apply stage_nil]. }
  apply (sends_after _ _ _ trusted_update).
  { destruct (prepareNextTurn host) eqn:Hf; [by eapply or_next|done]. }
  { intros w w' u H. destruct (prepareNextTurn host) eqn:Hf; [by eapply or_next_trusted|].
    by apply M_ret_Ok in H as [_ ->]. }
  intros u Hu. apply sends_skip.
  { destruct (ls_pendingMessages _); [apply poll_steering|done]. }
  intros pending. apply loop_then_emit; [done|]. apply sends_ret. split; [|apply stage_turn_start].
  destruct (apply_update_follows u s Hu) as [A B C]. split; [exact A|exact B|exact C].
Qed.

Lemma inject_messages_sends messages s :
  sends events (inject_messages host messages s)
    (fun s' evs => follows s s' evs /\ stage InTurn InTurn evs).
Proof.
  revert s. induction messages as [|m messages IH]; intros s; simpl.
  { apply sends_ret. split; [apply follows_refl|apply stage_nil]. }
  eapply sends_bind; [apply announce_sends|]. intros _ evs ->. eapply sends_weaken; [apply IH|].
  intros s' evs [Hf Hp]. split; [|by eapply stage_app; [apply stage_announced|]]. eapply follows_trans, Hf. by apply record_follows.
Qed.
Lemma inject_pending_sends s :
  sends events (inject_pending host s) (fun s' evs => follows s s' evs /\ stage InTurn InTurn evs).
Proof.
  unfold inject_pending. destruct (ls_pendingMessages s) as [|m messages].
  { apply sends_ret. split; [apply follows_refl|apply stage_nil]. }
  eapply sends_bind; [apply inject_messages_sends|]. intros s1 evs [[A B C] Hp]. apply sends_skip; [apply resolve_quiet|].
  intros prompt. apply sends_ret. rewrite app_nil_r. by split.
Qed.

Lemma bind_step_sends s : sends events (bind_step host s) (fun s' evs => follows s s' evs /\ evs = []).
Proof.
  unfold bind_step. apply (sends_after _ _ _ trusted_update).
  { destruct (prepareRequest host) eqn:Hf; [by eapply or_request|done]. }
  { intros w w' u H. destruct (prepareRequest host) eqn:Hf; [by eapply or_request_trusted|].
    by apply M_ret_Ok in H as [_ ->]. }
  intros u Hu. pose proof (apply_update_follows u s Hu) as Hf. set (s1 := apply_update u s) in *.
  apply (sends_after _ _ _ (fun s2 => follows s1 s2 [])).
  { destruct (getRequestRouting host) eqn:Hr; [|done]. apply quiet_bind; [by eapply or_routing|done]. }
  { intros w w' s2 H. destruct (getRequestRouting host).
    - apply M_bind_Ok in H as (w1 & r & _ & [_ ->]%M_ret_Ok). by apply follows_silently.
    - apply M_ret_Ok in H as [_ ->]. apply follows_refl. }
  intros s2 Hs2. apply sends_ret. split; [|done]. apply (follows_trans _ _ _ _ _ Hf).
  apply (follows_trans _ _ _ _ [] Hs2), follows_silently; [|done|done]. intros [Ht Hp].
  enough (Forall quiet_tool (tp_tools (createToolPlan (default [] (coalesce (cx_tools (ls_context s2))
    (tp_tools <$> cx_toolPlan (ls_context s2)))) (S (ls_stepNumber s2)) (Some (step_identity host (S (ls_stepNumber s2)))))))
    by by split.
  rewrite Forall_forall in *. intros t Hin%createToolPlan_tools. destruct (cx_tools (ls_context s2)); simpl in *; auto.
Qed.

(** ** Tool calls *)

Lemma ended_keep evs : ended (keep is_message evs) = ended evs.
Proof. induction evs as [|e evs IH]; [done|]. unfold ended in *. destruct e; simpl; first [exact IH | f_equal; exact IH]. Qed.
Lemma ended_published fs : ended (fs ≫= published_of) = ToolResultMsg <$> omap fz_message fs.
Proof.
  induction fs as [|f fs IH]; [done|]. change (fs ≫= published_of) with (mbind published_of fs) in *.
  simpl. rewrite ended_app. change (list_bind _ _ published_of fs) with (fs ≫= published_of). rewrite IH.
  unfold published_of. by destruct (fz_message f).
Qed.


(** The results [messages] of a batch of [calls], and its events. *)
Definition answered_batch (calls : list AgentToolCall) (messages : list ToolResultMessage) (evs : list AgentEvent) : Prop :=
  stage InTurn InTurn evs /\ ended evs = ToolResultMsg <$> messages /\
  answer_of <$> messages = call_of <$> take (length messages) calls /\
  (unaborted (tool_host host) -> length messages = length calls).

Lemma answers_messages calls fs :
  Forall2 answers calls fs -> answer_of <$> omap fz_message fs = call_of <$> calls /\ length (omap fz_message fs) = length fs.
Proof.
  induction 1 as [|c f calls fs (Hc & m & Hm & Hid & Hname & _) H [IH IHl]]; [done|]. simpl. rewrite Hm. simpl.
  unfold answer_of at 1, call_of at 1. rewrite Hid, Hname. split; [by f_equal|by f_equal].
Qed.
Lemma batch_of_answered calls b evs :
  batch_of (tool_host host) calls b evs -> answered_batch calls (eb_messages b) evs.
Proof.
  intros (fs & Hlen & Hfs & -> & _ & Hev). destruct (answers_messages _ _ Hfs) as [Ha Hl].
  pose proof (be_messages _ _ _ Hev) as Hm. split_and!; [by eapply stage_batch| | |].
  - by rewrite <- ended_keep, Hm, ended_published.
  - by rewrite Hl.
  - intros Hun. by rewrite Hl, Hlen.
Qed.

Lemma run_batch_sends context m calls :
  trusted context ->
  sends events (run_batch host context m calls) (fun b evs => answered_batch (default (tool_calls m) calls) (eb_messages b) evs).
Proof.
  intros Ht w w' b H. eapply executeToolCalls_sends in H as (evs & He & Hb); [| by apply host_of_trusted|apply (or_order Hrun)].
  exists evs. split; [done|by apply batch_of_answered].
Qed.
Lemma truncated_batch_sends calls :
  sends events (failToolCallsFromTruncatedMessage (tool_host host) calls)
    (fun b evs => answered_batch calls (eb_messages b) evs).
Proof.
  eapply sends_bind; [by eapply (fail_truncated_sends _ _ _ (host_of_trusted _ trusted_empty) calls [])|].
  intros res evs (fs & -> & Hfs & ->). apply sends_ret. rewrite app_nil_r. simpl.
  destruct (answers_messages _ _ Hfs) as [Ha Hl]. pose proof (Forall2_length _ _ _ Hfs) as Hlen.
  pose proof (turns_events _ _ Hfs) as Hev. pose proof (be_messages _ _ _ Hev) as Hm.
  split_and!; [by eapply stage_batch| | |].
  - by rewrite <- ended_keep, Hm, ended_published.
  - by rewrite Hl, <- Hlen, firstn_all.
  - by rewrite Hl.
Qed.

Lemma answer_calls_sends m s :
  trusted (ls_context s) ->
  sends events (answer_calls host m s)
    (fun r evs => follows s r.1.1 evs /\ answered_batch (tool_calls m) r.1.2 evs).
Proof.
  intros Ht. unfold answer_calls. destruct (tool_calls m) as [|c cs] eqn:Hc.
  { apply sends_ret. split; [apply follows_refl|]. split; [apply stage_nil|done]. }
  eapply sends_bind with (P := fun b evs => answered_batch (c :: cs) (eb_messages b) evs).
  { case_bool_decide; [apply truncated_batch_sends|]. eapply sends_weaken; [by apply run_batch_sends|].
    simpl. by rewrite Hc. }
  intros b evs Hb. apply sends_ret. rewrite app_nil_r. split; [|done]. apply record_follows. apply Hb.
Qed.

Lemma recover_checkpoint_sends streamed s m :
  trusted (ls_context s) ->
  sends events (recover_checkpoint host streamed s)
    (fun r evs => follows s r.1.1 evs /\ stage InTurn (InMessage true) (EvMessageStart m :: evs)).
Proof.
  intros Ht. unfold recover_checkpoint. destruct (sr_checkpoint streamed) as [c|].
  2: { apply sends_ret. split; [apply follows_refl|]. by eapply stage_cons; [| |apply stage_nil]. }
  apply loop_then_emit; [done|].
  eapply sends_bind with (P := fun r evs => follows (record_messages [AssistantMsg c] s) r.1.1 evs /\
    stage InTurn InTurn evs).
  { destruct (tool_calls c); [apply sends_ret; split; [apply follows_refl|apply stage_nil]|].
    eapply sends_bind; [by apply run_batch_sends|]. intros b evs Hb. apply sends_ret. rewrite app_nil_r.
    split; [apply record_follows|]; apply Hb. }
  intros [[s' results] terminate] evs [Hf Hp]. apply sends_skip; [done|]. intros stop.
  apply loop_then_emit; [done|]. apply sends_ret. split.
  - change (follows s s' ([EvMessageEnd (AssistantMsg c)] ++ evs ++ [EvMessageStart (AssistantMsg
      (if stop || terminate then with_abort "Interrupted response recovery stopped" (sr_message streamed) else sr_message streamed))])).
    eapply follows_trans; [by apply record_follows|]. eapply follows_trans; [exact Hf|].
    split; [done| |done]. simpl. by rewrite app_nil_r.
  - eapply stage_cons; [done|done|]. eapply stage_cons; [done|done|]. eapply stage_app; [exact Hp|].
    by eapply stage_cons; [| |apply stage_nil].
Qed.

(** ** Turns *)

(** What a turn leaves: the run has ended with its new messages, or a state from which the
    next turn starts. *)
Definition turn_outcome (s : @LoopState W) (r : @turn_result W) (evs : list AgentEvent) : Prop :=
  match r with
  | Returned messages =>
      messages = ls_newMessages s ++ ended evs /\ stage (turn_phase s) Ended evs /\
      last evs = Some (EvAgentEnd messages)
  | Continues _ s' =>
      ls_newMessages s' = ls_newMessages s ++ ended evs /\ stage (turn_phase s) Running evs /\
      is_Some (ls_lastCompletedTurn s') /\ trusted (ls_context s')
  end.

Lemma answered_turn calls results evs :
  answered_batch calls results evs -> unaborted (tool_host host) -> answer_of <$> results = call_of <$> calls.
Proof. intros (_ & _ & Ha & Hl) Hun. by rewrite Ha, Hl, firstn_all. Qed.

Lemma end_run_sends messages : sends events (end_run host messages) (fun r evs => r = Returned messages /\ evs = [EvAgentEnd messages]).
Proof. apply loop_then_emit; [done|]. by apply sends_ret. Qed.

Lemma note_progress_state m results more (s : @LoopState W) :
  ls_newMessages (note_progress m results more s).1 = ls_newMessages s /\
  ls_context (note_progress m results more s).1 = ls_context s /\
  ls_lastCompletedTurn (note_progress m results more s).1 = ls_lastCompletedTurn s.
Proof. unfold note_progress. by destruct (_ && _). Qed.

Lemma finish_turn_sends m recovered s s0 pre :
  trusted (ls_context s0) -> follows s0 s pre -> stage (turn_phase s0) (InMessage true) pre ->
  sends events (finish_turn host m recovered s) (fun r evs => turn_outcome s0 r (pre ++ evs)).
Proof.
  intros Ht Hf Hp. unfold finish_turn. apply loop_then_emit; [done|].
  assert (follows s0 (record_messages [AssistantMsg m] s) (pre ++ [EvMessageEnd (AssistantMsg m)])) as Hf1
    by (eapply follows_trans; [exact Hf|by apply record_follows]).
  destruct (_ || _) eqn:Hfail.
  - apply loop_then_emit; [done|]. eapply sends_weaken; [apply end_run_sends|]. intros r evs [-> ->]. split_and!.
    + rewrite (fo_messages _ _ _ Hf1), !ended_app. by simpl.
    + eapply stage_app; [exact Hp|]. eapply stage_cons; [done|done|]. eapply stage_cons; [done| |].
      { simpl. intros He Ha. apply orb_true_iff in Hfail as [?%bool_decide_eq_true|?%bool_decide_eq_true]; done. }
      eapply stage_cons; [done|done|apply stage_nil].
    + ends_with.
  - eapply sends_bind; [apply answer_calls_sends; by apply (fo_trusted _ _ _ Hf1)|].
    intros [[s2 results] more] evs2 [Hf2 Hb]. simpl in Hf2, Hb.
    pose proof (follows_trans _ _ _ _ _ Hf1 Hf2) as Hf3. apply loop_then_emit; [done|].
    set (completed := {| ct_message := m |}).
    destruct (note_progress_state m results more (set_lastCompletedTurn completed s2)) as (Hn & Hc & Hl).
    destruct (note_progress m results more (set_lastCompletedTurn completed s2)) as [s3 stuck]. simpl in Hn, Hc, Hl.
    assert (forall evs p, stage Running p evs ->
      stage (turn_phase s0) p (pre ++ EvMessageEnd (AssistantMsg m) :: evs2 ++ EvTurnEnd (AssistantMsg m) results :: evs)) as Hstage.
    { intros evs p Hevs. eapply stage_app; [exact Hp|]. eapply stage_cons; [done|done|].
      eapply stage_app; [apply Hb|]. eapply stage_cons; [done| |exact Hevs]. intros _ _ Hun.
      by eapply answered_turn. }
    assert (ls_newMessages s3 = ls_newMessages s0 ++ ended (pre ++ EvMessageEnd (AssistantMsg m) :: evs2)) as Hmsg.
    { rewrite Hn, (fo_messages _ _ _ Hf3), <- app_assoc. done. }
    assert (forall tail, ended (pre ++ EvMessageEnd (AssistantMsg m) :: evs2 ++ EvTurnEnd (AssistantMsg m) results :: tail) =
                         ended (pre ++ EvMessageEnd (AssistantMsg m) :: evs2) ++ ended tail) as Hend.
    { intros tail. rewrite app_comm_cons, app_assoc, ended_app. done. }
    destruct stuck.
    + apply sends_skip; [done|]. intros timestamp. eapply sends_bind; [apply announce_sends|]. intros _ evs ->.
      eapply sends_weaken; [apply end_run_sends|]. intros r evs [-> ->]. split_and!.
      * simpl. rewrite Hend, Hmsg, <- app_assoc. done.
      * apply Hstage. by repeat econstructor.
      * ends_with.
    + apply sends_skip.
      { destruct (shouldStopAfterTurn host) eqn:Hs; [by eapply or_stop|done]. }
      intros []; [eapply sends_weaken; [apply end_run_sends|]; intros r evs [-> ->]; split_and!|].
      * simpl. rewrite Hend, Hmsg. by rewrite app_nil_r.
      * apply Hstage. by repeat econstructor.
      * ends_with.
      * apply sends_skip; [apply poll_steering|]. intros pending. apply sends_ret. split_and!.
        -- simpl. rewrite Hend, Hmsg. by rewrite app_nil_r.
        -- apply Hstage, stage_nil.
        -- simpl. by rewrite Hl.
        -- simpl. rewrite Hc. by apply (fo_trusted _ _ _ Hf3).
Qed.

Lemma turn_sends s : trusted (ls_context s) -> sends events (turn host s) (turn_outcome s).
Proof.
  intros Ht. unfold turn. eapply sends_bind; [apply prepare_turn_sends|]. intros s1 evs1 [F1 P1].
  eapply sends_bind; [apply inject_pending_sends|]. intros s2 evs2 [F2 P2].
  eapply sends_bind; [apply bind_step_sends|]. intros s3 evs3 [F3 ->].
  eapply sends_bind; [apply streamAssistantResponse_sends|]. intros streamed evs4 [m ->].
  pose proof (follows_trans _ _ _ _ _ (follows_trans _ _ _ _ _ F1 F2) F3) as F.
  eapply sends_bind; [apply (recover_checkpoint_sends streamed s3 m); by apply (fo_trusted _ _ _ F)|].
  intros [[s4 message] recovered] evs5 [F5 P5]. simpl in F5.
  eapply sends_weaken; [apply (finish_turn_sends message recovered s4 s (evs1 ++ evs2 ++ EvMessageStart m :: evs5)); [done| |]|].
  - rewrite app_nil_r in F. pose proof (follows_trans _ _ _ _ _ F F5) as F'.
    split; [apply F'| |apply F']. rewrite (fo_messages _ _ _ F'), !ended_app, <- app_assoc. done.
  - eapply stage_app; [exact P1|]. eapply stage_app; [exact P2|exact P5].
  - intros r evs H. cbv beta in H. rewrite <- !app_assoc in H. exact H.
Qed.

(** ** Runs *)

(** The events [evs] of a run from phase [p] that returns [messages] after [before]. *)
Definition run_outcome (p : phase) (before : list AgentMessage) (r : option (list AgentMessage)) (evs : list AgentEvent) : Prop :=
  match r with
  | None => True
  | Some messages =>
      messages = before ++ ended evs /\ stage p Ended evs /\ last evs = Some (EvAgentEnd messages)
  end.
Lemma run_outcome_app p p' before r evs evs' :
  stage p p' evs -> run_outcome p' (before ++ ended evs) r evs' -> run_outcome p before r (evs ++ evs').
Proof.
  intros Hp. destruct r as [ms|]; [|done]. intros (-> & H1 & H2). split_and!.
  - by rewrite ended_app, app_assoc.
  - by eapply stage_app.
  - by apply last_app_r.
Qed.

Lemma loop_sends fuel more s :
  trusted (ls_context s) -> more = true \/ is_Some (ls_lastCompletedTurn s) ->
  sends events (loop host fuel more s) (run_outcome (turn_phase s) (ls_newMessages s)).
Proof.
  revert more s. induction fuel as [|fuel IH]; intros more s Ht Hmore; simpl; [by apply sends_ret|].
  destruct (more || _) eqn:Hgo.
  - eapply sends_bind; [by apply turn_sends|]. intros [ms|more' s'] evs Hr; simpl in Hr.
    + apply sends_ret. by rewrite app_nil_r.
    + destruct Hr as (Hm & Hp & Hl & Ht'). eapply sends_weaken; [apply IH; auto|]. intros r evs' Hr.
      eapply run_outcome_app; [exact Hp|]. rewrite <- Hm. unfold turn_phase in Hr. by destruct Hl as [t Hl]; rewrite Hl in Hr.
  - apply orb_false_iff in Hgo as [-> _]. destruct Hmore as [|Hl]; [done|].
    apply sends_skip; [apply poll_followUp|]. intros [|m ms].
    + apply loop_then_emit; [done|]. apply sends_ret. split_and!; [by rewrite app_nil_r| |done].
      unfold turn_phase. destruct Hl as [t ->]. by eapply stage_cons; [| |apply stage_nil].
    + eapply sends_weaken; [apply IH; [done|by left]|]. done.
Qed.
Lemma runLoop_sends fuel context config before recovered :
  trusted context ->
  sends events (runLoop host fuel context config before recovered)
    (run_outcome (if recovered is Some _ then Running else InTurn) before).
Proof. intros Ht. apply sends_skip; [apply poll_steering|]. intros pending. by eapply loop_sends; [|left]. Qed.

Lemma announce_all_sends messages :
  sends events (announce_all host messages) (fun _ evs => stage InTurn InTurn evs /\ ended evs = messages).
Proof.
  induction messages as [|m messages IH]; simpl; [apply sends_ret; split; [apply stage_nil|done]|].
  eapply sends_bind; [apply announce_sends|]. intros _ evs ->. eapply sends_weaken; [apply IH|].
  intros _ evs [Hp He]. split; [eapply stage_app; [apply stage_announced|done]|simpl; by f_equal].
Qed.

Lemma runAgentLoop_sends fuel prompts context config :
  trusted context ->
  sends events (runAgentLoop host fuel prompts context config)
    (fun r evs => run_outcome Outside [] r evs /\ (forall ms, r = Some ms -> prompts `prefix_of` ms)).
Proof.
  intros Ht. do 2 (apply loop_then_emit; [done|]). eapply sends_bind; [apply announce_all_sends|].
  intros _ evs [Hp He]. apply sends_skip; [apply resolve_quiet|]. intros prompt.
  eapply sends_weaken; [by apply runLoop_sends|]. intros r evs' Hr.
  assert (stage Outside InTurn (EvAgentStart :: EvTurnStart :: evs)) as Hstage
    by (by eapply stage_cons; [| |eapply stage_cons]).
  assert (run_outcome Outside [] r ((EvAgentStart :: EvTurnStart :: evs) ++ evs')) as Hout.
  { eapply run_outcome_app; [exact Hstage|]. simpl. by rewrite He. }
  split; [exact Hout|]. intros ms ->. destruct Hr as [-> _]. by eexists.
Qed.
Lemma runAgentLoopContinue_sends fuel context config :
  trusted context ->
  sends events (runAgentLoopContinue host fuel context config) (run_outcome Outside []).
Proof.
  intros Ht. apply sends_skip; [done|]. intros _. do 2 (apply loop_then_emit; [done|]).
  eapply sends_weaken; [by apply runLoop_sends|]. intros r evs Hr.
  apply (run_outcome_app Outside InTurn [] r [EvAgentStart; EvTurnStart] evs); [|exact Hr].
  by eapply stage_cons; [| |eapply stage_cons; [| |apply stage_nil]].
Qed.

(** C16. The transcript of a run: a run that returns has sent one well-formed sequence of
    events (the agent starts, turns and messages open and close in order, tool events fall
    within turns) that ends with [agent_end]; the messages it returns, and announces there,
    are exactly those whose end was announced, in that order and starting with the prompts;
    and when the signal never fires, every turn whose response did not fail ends with one
    result per tool call, in the order of the calls. *)
Theorem runAgentLoop_transcript fuel prompts context config w w' messages before :
  trusted context -> events w = Some before ->
  runAgentLoop host fuel prompts context config w = (w', Ok (Some messages)) \/
    prompts = [] /\ runAgentLoopContinue host fuel context config w = (w', Ok (Some messages)) ->
  exists evs, events w' = Some (before ++ evs) /\ phases Outside evs = Some Ended /\
    last evs = Some (EvAgentEnd messages) /\ ended evs = messages /\ prompts `prefix_of` messages /\
    Forall turn_answered evs.
Proof.
  intros Ht Hw [H|[-> H]].
  - destruct (runAgentLoop_sends fuel prompts context config Ht _ _ _ H) as (evs & He & (Hm & [Hp Ha] & Hl) & Hpre).
    exists evs. rewrite He, Hw. split_and!; try done. by apply Hpre.
  - destruct (runAgentLoopContinue_sends fuel context config Ht _ _ _ H) as (evs & He & Hm & [Hp Ha] & Hl).
    exists evs. rewrite He, Hw. split_and!; try done. apply prefix_nil.
Qed.
End run.
