(* ===== verification/AgentLoopProgress.v ===== *)
(** * How a run stops

    Two ways in which agent-loop.ts bounds a run: an aborted run ends with its next turn,
    and the no-progress guard ends a run that repeats itself. *)
From S2P Require Import Prelude JsNumber SessionTypes JsText JsonNumber JsonText Reducer Context.
From S2P Require Import ResourceScheduler ToolExecution DurableJson Retry ToolPipeline ToolBatch AgentLoop.
From S2P Require Import AgentLoopTheorems.

(** ** After the signal *)

Create HintDb stays.

Section aborted_run.
Context {W L : Type} (host : LoopHost W L).

Definition fired (w : W) : Prop := aborted_now (tool_host host) w = true.
(** Once the signal has fired it stays so through [f], which then returns only [Q]. *)
Definition under_abort {A} (f : M W Failure A) (Q : A -> Prop) : Prop :=
  forall w, fired w -> fired (f w).1 /\ forall a, (f w).2 = Ok a -> Q a.
Definition stays {A} (f : M W Failure A) : Prop := under_abort f (fun _ => True).

(** No hook un-fires the signal. *)
Record signal_stays : Prop := {
  ss_emit : forall e, stays (emit (tool_host host) e);
  ss_report : forall e w, fired w -> fired (report (tool_host host) e w);
  ss_gate : forall f, admitEffect (tool_host host) = Some f -> stays f;
  ss_convert : forall messages, stays (convertToLlm host messages);
  ss_transform : forall f messages, transformContext host = Some f -> stays (f messages);
  ss_prompt : forall f, getSystemPrompt host = Some f -> stays f;
  ss_observer : forall f model context, onProviderContext host = Some f -> stays (f model context);
  ss_key : forall f provider, getApiKey host = Some f -> stays (f provider);
  ss_steering : forall f, getSteeringMessages host = Some f -> stays f;
  ss_followUp : forall f, getFollowUpMessages host = Some f -> stays f;
  ss_next : forall f t, prepareNextTurn host = Some f -> stays (f t);
  ss_request : forall f c m t, prepareRequest host = Some f -> stays (f c m t);
  ss_routing : forall f, getRequestRouting host = Some f -> stays f }.
Context (Hsig : signal_stays).

Lemma under_ret {A} (a : A) (Q : A -> Prop) : Q a -> under_abort (mret a) Q.
Proof. intros HQ w Hw. split; [done|]. by intros b [= <-]. Qed.
Lemma under_bind {A B} (f : M W Failure A) (k : A -> M W Failure B) (P : A -> Prop) (Q : B -> Prop) :
  under_abort f P -> (forall a, P a -> under_abort (k a) Q) -> under_abort (f ≫= k) Q.
Proof.
  intros Hf Hk w Hw. unfold mbind, M_bind. destruct (Hf w Hw) as [H1 H2].
  destruct (f w) as [w1 [a|e]]; simpl in *; [apply (Hk a); [by apply H2|done]|]. by split.
Qed.
Lemma under_stays {A B} (f : M W Failure A) (k : A -> M W Failure B) (Q : B -> Prop) :
  stays f -> (forall a, under_abort (k a) Q) -> under_abort (f ≫= k) Q.
Proof. intros Hf Hk. eapply under_bind; [exact Hf|]. intros a _. apply Hk. Qed.
Lemma stays_bind {A B} (f : M W Failure A) (k : A -> M W Failure B) : stays f -> (forall a, stays (k a)) -> stays (f ≫= k).
Proof. apply under_stays. Qed.
Lemma stays_ret {A} (a : A) : stays (mret a).
Proof. by apply under_ret. Qed.
Lemma stays_lift {A} (r : result Failure A) : stays (lift r).
Proof. by intros w Hw. Qed.
Lemma stays_throw {A} e : stays (throw (A:=A) e).
Proof. by intros w Hw. Qed.
Lemma stays_try {A} (f : M W Failure A) h : stays f -> (forall e, stays (h e)) -> stays (try_catch f h).
Proof.
  intros Hf Hh w Hw. unfold try_catch. destruct (Hf w Hw) as [H1 _]. destruct (f w) as [w1 [a|e]]; [done|].
  by apply Hh.
Qed.
Lemma stays_report outcome reason : stays (report_provider host outcome reason).
Proof. intros w Hw. split; [by apply (ss_report Hsig)|done]. Qed.
Lemma stays_now : stays (now host).
Proof. by intros w Hw. Qed.
Lemma stays_announce m : stays (announce host m).
Proof. by apply stays_bind; [apply ss_emit|intros _; apply ss_emit]. Qed.
Lemma stays_poll_steering : stays (poll (getSteeringMessages host)).
Proof. destruct (getSteeringMessages host) eqn:Hf; [by eapply ss_steering|apply stays_ret]. Qed.
Lemma stays_poll_followUp : stays (poll (getFollowUpMessages host)).
Proof. destruct (getFollowUpMessages host) eqn:Hf; [by eapply ss_followUp|apply stays_ret]. Qed.
Lemma stays_resolve snapshot : stays (resolveSystemPrompt host snapshot).
Proof.
  unfold resolveSystemPrompt. destruct (getSystemPrompt host) eqn:Hf; [|apply stays_ret].
  apply stays_try; [by eapply ss_prompt|intros e; apply stays_ret].
Qed.
Lemma stays_gate : stays (effect_gate (tool_host host)).
Proof. unfold effect_gate. destruct (admitEffect (tool_host host)) eqn:Hf; [by eapply ss_gate|apply stays_ret]. Qed.
#[local] Hint Resolve stays_ret stays_lift stays_throw stays_report stays_now stays_announce stays_poll_steering
  stays_poll_followUp stays_resolve stays_gate : stays.
Ltac staying := repeat first [apply stays_bind; [|intros ?] | solve [eauto with stays] | apply (ss_emit Hsig) | case_match].

Lemma prepare_turn_stays s : stays (prepare_turn host s).
Proof. pose proof (ss_next Hsig). unfold prepare_turn. staying. Qed.
Lemma inject_messages_stays messages s : stays (inject_messages host messages s).
Proof. revert s. induction messages; intros s; simpl; staying; auto. Qed.
Lemma inject_pending_stays s : stays (inject_pending host s).
Proof. pose proof inject_messages_stays. unfold inject_pending. staying. Qed.
Lemma bind_step_stays s : stays (bind_step host s).
Proof.
  pose proof (ss_request Hsig). pose proof (ss_routing Hsig). unfold bind_step. staying.
Qed.

(** A request of an aborted run is answered without the provider. *)
Lemma streamAssistantResponse_aborted context config :
  under_abort (streamAssistantResponse host context config)
    (fun r => am_stopReason (sr_message r) = StopAborted /\ sr_checkpoint r = None).
Proof.
  pose proof (ss_convert Hsig). pose proof (ss_transform Hsig). pose proof (ss_observer Hsig). pose proof (ss_key Hsig).
  unfold streamAssistantResponse. apply under_stays; [unfold buildProviderContext; staying|]. intros built.
  apply under_stays; [staying|]. intros prompt. apply under_stays.
  { destruct (onProviderContext host) eqn:Hf; [|apply stays_ret]. apply stays_try; [eauto|staying]. }
  intros _. apply under_stays; [staying|]. intros resolved.
  eapply (under_bind _ _ (fun stop => stop = true)).
  { intros w Hw. split; [done|]. intros b [= <-]. exact Hw. }
  intros ? ->. eapply (under_bind _ _ (fun refused => refused = true)); [by apply under_ret|]. intros ? ->.
  apply under_stays; [staying|]. intros timestamp. apply under_stays; [staying|]. intros _.
  apply under_stays; [staying|]. intros _. by apply under_ret.
Qed.

(** A turn of an aborted run ends the run with an aborted response. *)
Definition ends_aborted (messages : list AgentMessage) : Prop :=
  exists m, last messages = Some (AssistantMsg m) /\ am_stopReason m = StopAborted.
Lemma turn_aborted s :
  under_abort (turn host s) (fun r => match r with Returned ms => ends_aborted ms | Continues _ _ => False end).
Proof.
  unfold turn. apply under_stays; [apply prepare_turn_stays|]. intros s1.
  apply under_stays; [apply inject_pending_stays|]. intros s2. apply under_stays; [apply bind_step_stays|]. intros s3.
  eapply under_bind; [apply streamAssistantResponse_aborted|]. intros [m checkpoint] [Hm Hc]. simpl in Hm, Hc. subst checkpoint.
  eapply (under_bind _ _ (fun r => r = (s3, m, []))); [by apply under_ret|]. intros ? ->.
  unfold finish_turn. rewrite Hm. simpl. apply under_stays; [staying|]. intros _. apply under_stays; [staying|]. intros _.
  apply under_stays; [staying|]. intros _. apply under_ret. exists m. split; [|done]. by rewrite last_app.
Qed.
Lemma loop_aborted fuel more s :
  under_abort (loop host (S (S fuel)) more s)
    (fun r => exists ms, r = Some ms /\ (ends_aborted ms \/ ms = ls_newMessages s)).
Proof.
  assert (forall fuel s, under_abort (loop host (S fuel) true s)
    (fun r => exists ms, r = Some ms /\ ends_aborted ms)) as Hturn.
  { intros fuel' s'. simpl. eapply under_bind; [apply turn_aborted|]. intros [ms|? ?] Hr; [|done].
    apply under_ret. eauto. }
  assert (forall fuel s, under_abort (loop host (S fuel) true s)
    (fun r => exists ms, r = Some ms /\ (ends_aborted ms \/ ms = ls_newMessages s))) as Hturn'.
  { intros fuel' s' w Hw. destruct (Hturn fuel' s' w Hw) as [H1 H2]. split; [done|]. intros a Ha.
    destruct (H2 a Ha) as (ms & -> & Hms). eauto. }
  change (loop host (S (S fuel)) more s) with
    (if more || negb (bool_decide (ls_pendingMessages s = [])) then
       result ← turn host s;
       match result with
       | Returned newMessages => mret (Some newMessages)
       | Continues hasMoreToolCalls s => loop host (S fuel) hasMoreToolCalls s
       end
     else
       followUpMessages ← poll (getFollowUpMessages host);
       match followUpMessages with
       | [] => emit (tool_host host) (EvAgentEnd (ls_newMessages s));; mret (Some (ls_newMessages s))
       | _ => loop host (S fuel) true (set_pending followUpMessages s)
       end).
  destruct (more || _); [exact (Hturn' (S fuel) s)|].
  apply under_stays; [staying|]. intros [|m ms].
  - apply under_stays; [staying|]. intros _. apply under_ret. eauto.
  - exact (Hturn' fuel (set_pending (m :: ms) s)).
Qed.

(** Cancellation is prompt: once the signal has fired, whatever the state of the loop,
    two units of fuel suffice: unless a hook throws, the loop returns, and what it returns is
    its messages as they are or a list that ends with an aborted response. *)
Theorem loop_cancelled fuel more s w :
  fired w ->
  match (loop host (S (S fuel)) more s w).2 with
  | Ok r => exists messages, r = Some messages /\ (ends_aborted messages \/ messages = ls_newMessages s)
  | Err _ => True
  end.
Proof.
  intros Hw. destruct (loop_aborted fuel more s w Hw) as [_ H].
  destruct ((loop host (S (S fuel)) more s w).2) as [r|e]; [by apply H|done].
Qed.
End aborted_run.

(** ** The no-progress guard *)

Section guard.
Context {W : Type}.

(** What the guard sees of a turn: whether messages were injected before it, its response
    and results, and whether the loop goes on with its tool calls. *)
Record GuardedTurn := {
  gt_injected : bool; gt_message : AssistantMessage; gt_results : list ToolResultMessage; gt_more : bool }.
Definition acts (t : GuardedTurn) : bool := gt_more t && negb (bool_decide (tool_calls (gt_message t) = [])).
Definition fingerprint_of (t : GuardedTurn) : jsstring := turn_fingerprint (gt_message t) (gt_results t).
(** The guard's steps of one turn, and of a run. *)
Definition guard_turn (t : GuardedTurn) (s : @LoopState W) : LoopState * bool :=
  note_progress (gt_message t) (gt_results t) (gt_more t) (if gt_injected t then set_progress None 0 s else s).
Fixpoint guard_run (turns : list GuardedTurn) (s : @LoopState W) (stuck : bool) : LoopState * bool :=
  match turns with
  | [] => (s, stuck)
  | t :: turns' => let '(s, stuck) := guard_turn t s in guard_run turns' s stuck
  end.

(** How many of the latest turns (the latest first) repeat the same calls and results,
    nothing having been injected between them. *)
Fixpoint streak (latest : list GuardedTurn) : nat :=
  match latest with
  | [] => 0
  | t :: earlier =>
      if acts t then
        match earlier with
        | t' :: _ => if negb (gt_injected t) && acts t' && bool_decide (fingerprint_of t' = fingerprint_of t)
                     then S (streak earlier) else 1
        | [] => 1
        end
      else 0
  end%nat.
Definition latest_fingerprint (latest : list GuardedTurn) : option jsstring :=
  match latest with t :: _ => if acts t then Some (fingerprint_of t) else None | [] => None end.

Lemma note_progress_act m results more (s : @LoopState W) :
  more && negb (bool_decide (tool_calls m = [])) = true ->
  note_progress m results more s =
  (let fingerprint := turn_fingerprint m results in
   let repeats := if bool_decide (ls_lastTurnFingerprint s = Some fingerprint)
                  then S (ls_turnFingerprintRepeats s) else 1%nat in
   (set_progress (Some fingerprint) repeats s, (NO_PROGRESS_REPEAT_LIMIT <=? repeats)%nat)).
Proof. intros H. unfold note_progress. by rewrite H. Qed.

Definition tracks (latest : list GuardedTurn) (s : @LoopState W) : Prop :=
  ls_lastTurnFingerprint s = latest_fingerprint latest /\ ls_turnFingerprintRepeats s = streak latest.
Lemma guard_turn_tracks t latest s :
  tracks latest s ->
  match guard_turn t s with
  | (s', stuck) => tracks (t :: latest) s' /\ stuck = (NO_PROGRESS_REPEAT_LIMIT <=? streak (t :: latest))%nat
  end.
Proof.
  intros [Hf Hr]. unfold guard_turn. destruct (acts t) eqn:Ha.
  - rewrite note_progress_act by exact Ha. cbv zeta.
    assert ((if bool_decide (ls_lastTurnFingerprint (if gt_injected t then set_progress None 0 s else s) =
                             Some (turn_fingerprint (gt_message t) (gt_results t)))
             then S (ls_turnFingerprintRepeats (if gt_injected t then set_progress None 0 s else s)) else 1%nat) =
            streak (t :: latest)) as ->.
    { simpl. rewrite Ha. destruct (gt_injected t); simpl; [by destruct latest|].
      rewrite Hf, Hr. destruct latest as [|t' latest]; [done|]. simpl. destruct (acts t'); simpl; [|done].
      unfold fingerprint_of at 1. case_bool_decide as H1; case_bool_decide as H2; try done;
        exfalso; [apply H2; by injection H1|apply H1; by f_equal]. }
    split; [|done]. split; [|done]. simpl. by rewrite Ha.
  - unfold note_progress. unfold acts in Ha. rewrite Ha. split; [|simpl; unfold acts; by rewrite Ha].
    split; simpl; unfold acts; by rewrite Ha.
Qed.
Lemma guard_run_tracks turns latest s stuck :
  tracks latest s -> stuck = (NO_PROGRESS_REPEAT_LIMIT <=? streak latest)%nat ->
  (guard_run turns s stuck).2 = (NO_PROGRESS_REPEAT_LIMIT <=? streak (reverse turns ++ latest))%nat.
Proof.
  revert latest s stuck. induction turns as [|t turns IH]; intros latest s stuck Ht Hs; [done|].
  simpl. pose proof (guard_turn_tracks t latest s Ht) as H. destruct (guard_turn t s) as [s' stuck'].
  destruct H as [Ht' Hs']. rewrite (IH _ _ _ Ht' Hs'). by rewrite reverse_cons, <- app_assoc.
Qed.

(** The latest three turns are the same, with nothing injected between them. *)
Definition repeated (turns : list GuardedTurn) : Prop :=
  exists earlier t1 t2 t3, turns = earlier ++ [t1; t2; t3] /\
    acts t1 = true /\ acts t2 = true /\ acts t3 = true /\ gt_injected t2 = false /\ gt_injected t3 = false /\
    fingerprint_of t1 = fingerprint_of t2 /\ fingerprint_of t2 = fingerprint_of t3.
Lemma streak_three latest :
  (3 <= streak latest)%nat <-> exists t1 t2 t3 earlier, latest = t3 :: t2 :: t1 :: earlier /\
    acts t1 = true /\ acts t2 = true /\ acts t3 = true /\ gt_injected t2 = false /\ gt_injected t3 = false /\
    fingerprint_of t1 = fingerprint_of t2 /\ fingerprint_of t2 = fingerprint_of t3.
Proof.
  split.
  - destruct latest as [|t3 [|t2 [|t1 earlier]]]; simpl; repeat case_match; try lia; intros _;
      repeat match goal with H : _ && _ = true |- _ => apply andb_true_iff in H as [? ?] end;
      repeat match goal with H : negb _ = true |- _ => apply negb_true_iff in H end;
      repeat match goal with H : bool_decide _ = true |- _ => apply bool_decide_eq_true in H end;
      try lia; naive_solver.
  - intros (t1 & t2 & t3 & earlier & -> & A1 & A2 & A3 & I2 & I3 & F1 & F2). simpl.
    rewrite A1, A2, A3, I2, I3, F1, F2. rewrite !bool_decide_true by done. simpl.
    destruct earlier as [|t0 earlier]; [lia|]. case_match; lia.
Qed.

(** The guard is exact: over any sequence of turns that starts a run, it reports a stuck
    loop after a turn exactly when the latest three turns requested the same calls and got
    the same results, all of them with calls to go on with, and no message was injected
    between them. *)
Theorem no_progress_exact turns (s : @LoopState W) :
  ls_lastTurnFingerprint s = None -> ls_turnFingerprintRepeats s = 0%nat ->
  (guard_run turns s false).2 = true <-> repeated turns.
Proof.
  intros Hf Hr. rewrite (guard_run_tracks turns [] s false) by done. rewrite app_nil_r, Nat.leb_le. rewrite streak_three.
  unfold repeated. split.
  - intros (t1 & t2 & t3 & earlier & He & H). exists (reverse earlier), t1, t2, t3. split; [|done].
    apply (f_equal reverse) in He. rewrite reverse_involutive, !reverse_cons, <- !app_assoc in He. exact He.
  - intros (earlier & t1 & t2 & t3 & -> & H). exists t1, t2, t3, (reverse earlier). split; [|done].
    by rewrite reverse_app.
Qed.
End guard.

(** * Resuming a batch of tool calls

    [runAgentLoopResumeTools] of agent-loop.ts executes only the calls a persisted response
    still waits for, and goes on with one result per call. *)

Section results.
Implicit Types (rs : list ToolResultMessage) (m : jsmap string ToolResultMessage).

Definition set_results rs m : jsmap string ToolResultMessage := foldl (fun m r => jm_set (tr_toolCallId r) r m) m rs.
Lemma by_call_results rs : by_call rs = set_results rs [].
Proof. unfold by_call, jm_of_list, set_results. by rewrite foldl_fmap. Qed.
Lemma get_other rs m id : id ∉ tr_toolCallId <$> rs -> jm_get id (set_results rs m) = jm_get id m.
Proof.
  revert m. induction rs as [|r rs IH]; intros m Hid; [done|]. apply not_elem_of_cons in Hid as [Hne Hid].
  simpl. rewrite IH by done. by apply jm_get_set_ne.
Qed.
Lemma get_result rs m r : NoDup (tr_toolCallId <$> rs) -> r ∈ rs -> jm_get (tr_toolCallId r) (set_results rs m) = Some r.
Proof.
  revert m. induction rs as [|r' rs IH]; intros m Hnd Hr; [by apply elem_of_nil in Hr|].
  apply NoDup_cons in Hnd as [Hn Hnd]. apply elem_of_cons in Hr as [->|Hr]; simpl; [|by apply IH].
  rewrite get_other by done. apply jm_get_set_eq.
Qed.
Lemma get_has id rs : jm_has id (by_call rs) = bool_decide (id ∈ tr_toolCallId <$> rs).
Proof.
  rewrite by_call_results. unfold jm_has. case_bool_decide as Hin; [|by rewrite get_other].
  enough (forall m, is_Some (jm_get id (set_results rs m))) as H by (by destruct (H []) as [? ->]).
  induction rs as [|r rs IH]; intros m; [by apply elem_of_nil in Hin|]. simpl.
  destruct (decide (id ∈ tr_toolCallId <$> rs)) as [Hrs|Hrs]; [by apply IH|].
  rewrite get_other by done. apply elem_of_cons in Hin as [->|]; [|done]. rewrite jm_get_set_eq. by eexists.
Qed.
End results.

(** ** Recoverable responses *)

Section recovery.
Context (assistant : AssistantMessage) (completedResults : list ToolResultMessage).
Let calls := tool_calls assistant.

Lemma recoverable_Ok assistantIndex index :
  recoverable assistantIndex assistant completedResults = Ok index ->
  NoDup (tc_id <$> calls) /\ NoDup (tr_toolCallId <$> completedResults) /\
  forall r, r ∈ completedResults -> exists call, call ∈ calls /\ call_of call = answer_of r.
Proof.
  unfold recoverable. fold calls. destruct assistantIndex as [i|]; [|done].
  destruct (_ || _) eqn:H1; [done|]. apply orb_false_iff in H1 as [_ H1%negb_false_iff%bool_decide_eq_true].
  destruct (_ || existsb _ _) eqn:H2; [done|]. apply orb_false_iff in H2 as [H2%negb_false_iff%bool_decide_eq_true H3].
  intros _. split_and!; [done|done|]. intros r Hr.
  assert (existsb (fun call => bool_decide (tc_id call = tr_toolCallId r) && bool_decide (tc_name call = tr_toolName r)) calls = true)
    as (call & Hc%list_elem_of_In & Hcr)%existsb_exists.
  { apply negb_false_iff. apply not_true_is_false. intros Hn. enough (existsb (fun r => negb (existsb (fun call =>
      bool_decide (tc_id call = tr_toolCallId r) && bool_decide (tc_name call = tr_toolName r)) calls)) completedResults = true)
      by congruence. apply existsb_exists. exists r. split; [by apply list_elem_of_In|done]. }
  apply andb_true_iff in Hcr as [?%bool_decide_eq_true ?%bool_decide_eq_true]. exists call. split; [done|].
  unfold call_of, answer_of. by f_equal.
Qed.

Lemma unresolved_spec call :
  call ∈ unresolved (by_call completedResults) calls <-> call ∈ calls /\ tc_id call ∉ tr_toolCallId <$> completedResults.
Proof. unfold unresolved. rewrite elem_of_keep, get_has, negb_true_iff, bool_decide_eq_false. done. Qed.

Lemma unresolved_ids_NoDup : NoDup (tc_id <$> calls) -> NoDup (tc_id <$> unresolved (by_call completedResults) calls).
Proof.
  unfold unresolved. generalize (by_call completedResults) as m. intros m. induction calls as [|c cs IH]; [done|].
  simpl. intros [Hn Hnd]%NoDup_cons. destruct (negb _); [|by apply IH]. simpl. apply NoDup_cons. split; [|by apply IH].
  intros (c' & Hid & Hc')%list_elem_of_fmap. apply elem_of_keep in Hc' as [Hc' _]. apply Hn. rewrite Hid.
  by apply list_elem_of_fmap_2.
Qed.

(** The result a call ends with, when some of the unresolved calls have one. *)
Section merged.
Context (messages : list ToolResultMessage) (n : nat).
Let results := set_results messages (by_call completedResults).
Context (Hnd : NoDup (tc_id <$> calls)) (Hndr : NoDup (tr_toolCallId <$> completedResults)).
Context (Hres : forall r, r ∈ completedResults -> exists call, call ∈ calls /\ call_of call = answer_of r).
Context (Hmsg : answer_of <$> messages = call_of <$> take n (unresolved (by_call completedResults) calls)).

Lemma answered_ids : tr_toolCallId <$> messages = tc_id <$> take n (unresolved (by_call completedResults) calls).
Proof. pose proof (f_equal (fmap fst) Hmsg) as H. rewrite <- !list_fmap_compose in H. exact H. Qed.
Lemma answered_unresolved id : id ∈ tr_toolCallId <$> messages -> id ∉ tr_toolCallId <$> completedResults.
Proof.
  rewrite answered_ids. intros (c & -> & Hu)%list_elem_of_fmap. apply subseteq_take, unresolved_spec in Hu. apply Hu.
Qed.
Lemma same_call c call : c ∈ calls -> call ∈ calls -> tc_id c = tc_id call -> c = call.
Proof.
  intros [i Hi]%list_elem_of_lookup [j Hj]%list_elem_of_lookup Hid.
  assert (i = j) as -> by (eapply (NoDup_lookup _ _ _ (tc_id c) Hnd); rewrite list_lookup_fmap; [by rewrite Hi|by rewrite Hj, Hid]).
  congruence.
Qed.
Lemma completed_result call :
  call ∈ calls -> tc_id call ∈ tr_toolCallId <$> completedResults ->
  exists r, jm_get (tc_id call) results = Some r /\ answer_of r = call_of call /\ r ∈ completedResults.
Proof.
  intros Hcall Hin. pose proof Hin as (r & Hid & Hr)%list_elem_of_fmap. exists r. split_and!; [| |done].
  - unfold results. rewrite get_other; [by rewrite by_call_results, Hid, get_result|]. intros Hu%answered_unresolved. done.
  - destruct (Hres r Hr) as (c & Hc & Heq). rewrite <- Heq. f_equal. apply same_call; [done|done|].
    rewrite Hid. by injection Heq.
Qed.
Lemma new_result call :
  call ∈ calls -> tc_id call ∉ tr_toolCallId <$> completedResults ->
  match jm_get (tc_id call) results with
  | Some r => answer_of r = call_of call
  | None => call_of call ∉ answer_of <$> messages
  end.
Proof.
  intros Hcall Hin. unfold results. destruct (decide (tc_id call ∈ tr_toolCallId <$> messages)) as [Ha|Ha].
  - pose proof Ha as (r & Hr & Hrm)%list_elem_of_fmap. rewrite Hr, get_result; [|rewrite answered_ids|done].
    + assert (answer_of r ∈ answer_of <$> messages) as Hans by (by apply list_elem_of_fmap_2).
      rewrite Hmsg in Hans. apply list_elem_of_fmap in Hans as (c & Hc & Hu). rewrite Hc. f_equal.
      apply subseteq_take, unresolved_spec in Hu as [Hu _]. apply same_call; [done|done|]. rewrite Hr. by injection Hc.
    + pose proof (unresolved_ids_NoDup Hnd) as Hu. rewrite <- (take_drop n (unresolved _ _)), fmap_app in Hu. by apply NoDup_app in Hu as [Hu _].
  - rewrite get_other by done. assert (jm_get (tc_id call) (by_call completedResults) = None) as ->.
    { pose proof (get_has (tc_id call) completedResults) as Hh. unfold jm_has in Hh. rewrite bool_decide_eq_false_2 in Hh by done.
      by destruct (jm_get _ _). }
    intros (r & Hr & Hrm)%list_elem_of_fmap. apply Ha. apply list_elem_of_fmap. exists r. split; [by injection Hr|done].
Qed.

(** The ordered results answer calls in the order of the calls, the completed ones among
    them; they answer every call when every unresolved call was answered. *)
Lemma ordered_results_spec :
  let ordered := ordered_results results calls in
  answer_of <$> ordered `sublist_of` call_of <$> calls /\ completedResults ⊆ ordered /\
  (length (unresolved (by_call completedResults) calls) <= n -> answer_of <$> ordered = call_of <$> calls)%nat.
Proof.
  intros ordered. split_and!.
  - subst ordered. unfold ordered_results. pose proof completed_result as H1. pose proof new_result as H2.
    revert H1 H2. generalize calls as cs. intros cs. generalize results. intros m H1 H2. induction cs as [|c cs IH]; [constructor|].
    simpl. destruct (jm_get (tc_id c) m) as [r|] eqn:Hr; simpl.
    + assert (answer_of r = call_of c) as ->.
      { destruct (decide (tc_id c ∈ tr_toolCallId <$> completedResults)) as [Hin|Hin].
        - destruct (H1 c) as (r' & Hr' & Ha & _); [by left|done|]. congruence.
        - pose proof (H2 c ltac:(by left) Hin) as Ha. by rewrite Hr in Ha. }
      constructor. apply IH; intros; [apply H1|apply H2]; by try right.
    + constructor. apply IH; intros; [apply H1|apply H2]; by try right.
  - intros r Hr. destruct (Hres r Hr) as (c & Hc & Heq). assert (tc_id c = tr_toolCallId r) as Hid by (by injection Heq).
    destruct (completed_result c Hc) as (r' & Hr' & _ & Hin'); [rewrite Hid; by apply list_elem_of_fmap_2|].
    apply list_elem_of_omap. exists c. split; [done|]. rewrite Hr'. f_equal. unfold results in Hr'.
    rewrite Hid, get_other in Hr' by (intros Hu%answered_unresolved; apply Hu; by apply list_elem_of_fmap_2).
    rewrite by_call_results, get_result in Hr' by done. by injection Hr'.
  - intros Hn. pose proof Hmsg as Hm. rewrite firstn_all2 in Hm by done. subst ordered. unfold ordered_results.
    assert (forall c, c ∈ calls -> exists r, jm_get (tc_id c) results = Some r /\ answer_of r = call_of c) as Hall.
    { intros c Hc. destruct (decide (tc_id c ∈ tr_toolCallId <$> completedResults)) as [Hin|Hin].
      - destruct (completed_result c Hc Hin) as (r & ? & ? & _). by exists r.
      - pose proof (new_result c Hc Hin) as Hnew. destruct (jm_get (tc_id c) results) as [r|]; [by exists r|].
        destruct Hnew. rewrite Hm. apply list_elem_of_fmap_2. by apply unresolved_spec. }
    revert Hall. generalize calls as cs, results as m. intros cs m Hall. induction cs as [|c cs IH]; [done|].
    destruct (Hall c) as (r & Hr & Ha); [by left|]. simpl. rewrite Hr. simpl. f_equal; [done|]. apply IH.
    intros c' Hc'. apply Hall. by right.
Qed.
End merged.
End recovery.

(** ** The resumed run *)

Section resumed.
Context {W L : Type} (host : LoopHost W L) (events : W -> option (list AgentEvent)) (Hrun : observed_run host events).

(** What a resumed batch sends: only the unresolved calls are started. *)
Lemma resumed_batch_sends context assistant unresolvedCalls :
  trusted host events context ->
  sends events (run_batch host context assistant (Some unresolvedCalls))
    (fun b evs => answered_batch host unresolvedCalls (eb_messages b) evs /\
       exists n, keep is_start evs = start_of <$> take n unresolvedCalls /\
         (unaborted (tool_host host) -> keep is_start evs = start_of <$> unresolvedCalls) /\
         Forall (fun e => is_start e || is_end e || is_message e) evs).
Proof.
  intros Ht w w' b H. eapply executeToolCalls_sends in H as (evs & He & Hb);
    [| by apply (host_of_trusted host events Hrun)|apply (or_order _ _ Hrun)].
  exists evs. split; [done|]. split; [by apply batch_of_answered|].
  destruct Hb as (fs & Hlen & _ & _ & _ & Hev). exists (length fs). split_and!; [apply Hev| |apply Hev].
  intros Hun. by rewrite (be_starts _ _ _ Hev), Hlen, firstn_all.
Qed.

(** The events [evs] of a resumed run that returns [r]. *)
Definition resumed_outcome (assistant : AssistantMessage) (completedResults : list ToolResultMessage)
    (r : option (list AgentMessage)) (evs : list AgentEvent) : Prop :=
  forall messages, r = Some messages ->
  let waiting := unresolved (by_call completedResults) (tool_calls assistant) in
  exists batch ordered rest,
    evs = EvAgentStart :: EvTurnStart :: batch ++ EvTurnEnd (AssistantMsg assistant) ordered :: rest /\
    phases Outside evs = Some Ended /\ last evs = Some (EvAgentEnd messages) /\ ended evs = messages /\
    Forall (fun e => is_start e || is_end e || is_message e) batch /\
    (exists n, keep is_start batch = start_of <$> take n waiting) /\
    answer_of <$> ordered `sublist_of` call_of <$> tool_calls assistant /\ completedResults ⊆ ordered /\
    (unaborted (tool_host host) ->
      keep is_start batch = start_of <$> waiting /\ answer_of <$> ordered = call_of <$> tool_calls assistant).

Lemma runAgentLoopResumeTools_sends fuel context assistantIndex assistant completedResults config :
  trusted host events context ->
  sends events (runAgentLoopResumeTools host fuel context assistantIndex assistant completedResults config)
    (resumed_outcome assistant completedResults).
Proof.
  intros Ht. unfold runAgentLoopResumeTools.
  apply (sends_after _ _ _ (fun _ => NoDup (tc_id <$> tool_calls assistant) /\ NoDup (tr_toolCallId <$> completedResults) /\
    forall r, r ∈ completedResults -> exists call, call ∈ tool_calls assistant /\ call_of call = answer_of r)); [done| |].
  { intros w w' index [= _ Hrec]. by eapply recoverable_Ok. }
  intros index (Hnd & Hndr & Hres). do 2 (apply (loop_then_emit host events Hrun); [done|]).
  eapply sends_bind; [by apply resumed_batch_sends|]. intros b batch [(Hp & He & Ha & Hl) (n & Hn & Hall & Hwithin)].
  set (ordered := ordered_results _ _). apply (loop_then_emit host events Hrun); [done|].
  assert (forall r rest, run_outcome host Running (ToolResultMsg <$> eb_messages b) r rest ->
    resumed_outcome assistant completedResults r
      (EvAgentStart :: EvTurnStart :: batch ++ EvTurnEnd (AssistantMsg assistant) ordered :: rest)) as Hout.
  { intros r rest Hr ms -> waiting. destruct Hr as (Hms & [Hp' _] & Hlast). exists batch, ordered, rest.
    destruct (ordered_results_spec assistant completedResults (eb_messages b) _ Hnd Hndr Hres Ha) as (Hsub & Hin & Hcomplete).
    split_and!; [done| | | |done|by eexists|done|done|].
    - simpl. eapply phases_after; [apply Hp|]. simpl. exact Hp'.
    - do 2 apply last_cons_r. apply last_app_r. by apply last_cons_r.
    - simpl. rewrite Hms. change (ended (batch ++ EvTurnEnd (AssistantMsg assistant) ordered :: rest) =
        (ToolResultMsg <$> eb_messages b) ++ ended rest). rewrite ended_app, He. done.
    - intros Hun. split; [by apply Hall|]. apply Hcomplete. by rewrite Hl. }
  apply (sends_skip events); [done|]. intros stop. apply (sends_skip events).
  { destruct (stop || eb_terminate b); [done|]. destruct (shouldStopAfterTurn host) eqn:Hs; [by eapply or_stop|done]. }
  intros [].
  - apply (loop_then_emit host events Hrun); [done|]. apply sends_ret. apply Hout. split_and!; [by rewrite app_nil_r| |done].
    by eapply stage_cons; [| |apply stage_nil].
  - eapply sends_weaken; [apply (runLoop_sends host events Hrun)|intros r rest; apply Hout]. by destruct Ht.
Qed.

(** C17. Resuming a run executes no call twice: a resumed run that returns starts only calls
    of the persisted response that have no result yet, in their order; when the signal never
    fires it starts all of those, and the turn ends with exactly one result per call of the
    response; in any case the turn ends with results of distinct calls, in the order of the
    calls, the given results among them; its events are well
    formed and the messages it returns are those that ended during it. *)
Theorem runAgentLoopResumeTools_spec fuel context assistantIndex assistant completedResults config w w' messages before :
  trusted host events context -> events w = Some before ->
  runAgentLoopResumeTools host fuel context assistantIndex assistant completedResults config w =
    (w', Ok (Some messages)) ->
  let waiting := unresolved (by_call completedResults) (tool_calls assistant) in
  exists batch ordered rest,
    let evs := EvAgentStart :: EvTurnStart :: batch ++ EvTurnEnd (AssistantMsg assistant) ordered :: rest in
    events w' = Some (before ++ evs) /\ phases Outside evs = Some Ended /\ last evs = Some (EvAgentEnd messages) /\
    ended evs = messages /\
    (exists n, keep is_start batch = start_of <$> take n waiting) /\
    answer_of <$> ordered `sublist_of` call_of <$> tool_calls assistant /\ completedResults ⊆ ordered /\
    (unaborted (tool_host host) ->
      keep is_start batch = start_of <$> waiting /\ answer_of <$> ordered = call_of <$> tool_calls assistant).
Proof.
  intros Ht Hw H waiting. eapply runAgentLoopResumeTools_sends in H as (evs & Hev & HQ); [|exact Ht].
  destruct (HQ _ eq_refl) as (batch & ordered & rest & -> & Hp & Hl & He & _ & Hn & Hsub & Hin & Hun). exists batch, ordered, rest.
  by rewrite Hev, Hw.
Qed.
End resumed.
