(* ===== verification/AgentLoopSamples.v ===== *)
(** * A concrete host

    A world that records its events and actions and answers requests from a script; the
    theorems about tool calls and runs are applied to it. *)
From S2P Require Import Prelude JsNumber SessionTypes JsText JsonNumber JsonText Reducer Context.
From S2P Require Import ResourceScheduler ToolExecution DurableJson Retry ToolPipeline ToolPipelineTheorems.
From S2P Require Import ToolBatch AgentLoop AgentLoopTheorems AgentLoopProgress.

Record SampleWorld := {
  sw_events : list AgentEvent; sw_log : list (action nat); sw_aborted : bool; sw_script : list AssistantMessage }.
Definition with_event (e : AgentEvent) (w : SampleWorld) : SampleWorld :=
  if is_update e then w
  else {| sw_events := sw_events w ++ [e]; sw_log := sw_log w; sw_aborted := sw_aborted w; sw_script := sw_script w |}.
Definition with_action (a : action nat) (w : SampleWorld) : SampleWorld :=
  {| sw_events := sw_events w; sw_log := sw_log w ++ [a]; sw_aborted := sw_aborted w; sw_script := sw_script w |}.
Definition logged {A} (a : action nat) (v : A) : M SampleWorld Failure A := fun w => (with_action a w, Ok v).

Definition sample_result : AgentToolResult :=
  {| ar_content := Some [TextContent "ok" None]; ar_details := None; ar_usage := None; ar_structuredContent := None;
     ar_nestedCalls := None; ar_nestedExecutionOutcome := None; ar_addedToolNames := None; ar_terminate := None |}.
Definition echo : AgentTool SampleWorld :=
  {| at_name := "echo"; at_executionMode := None; at_orchestratesTools := false; at_contract := None;
     at_executionResource := None; at_prepareArguments := None;
     at_execute := fun _ _ => Acts (fun w => (with_action (ActExecute (sw_aborted w) None) w, Settles (Ok sample_result))) |}.
Definition sample_host : ToolHost SampleWorld nat :=
  {| emit := fun e w => (with_event e w, Ok tt); report := fun _ w => w; aborted_now := sw_aborted;
     Date_now := fun _ => num_of_Z 7; toolExecution := None; parentToolCallId := None;
     validateToolArguments := fun _ call => Ok (tc_arguments call); beforeToolCall := None; afterToolCall := None;
     onToolResult := None; beforeToolDispatch := Some (fun _ _ => logged ActDispatch tt);
     admitEffect := Some (fun w => logged (ActGate (negb (sw_aborted w))) (negb (sw_aborted w)) w);
     admitToolCall := Some (fun _ _ => logged (ActAdmit true) None);
     acquire_lease := Some (fun _ => logged (ActAcquire (Some 1%nat)) (Some 1%nat));
     release_lease := fun l => with_action (ActRelease l) |}.
Definition start_world (script : list AssistantMessage) : SampleWorld :=
  {| sw_events := []; sw_log := []; sw_aborted := false; sw_script := script |}.

Definition echo_call (id : string) : AgentToolCall :=
  {| tc_id := id; tc_name := "echo"; tc_arguments := JsonObject []; tc_thoughtSignature := None; tc_namespace := None |}.
Definition sample_model : LoopModel := {| md_api := "api"; md_provider := "p"; md_id := "m"; md_other := JsonNull |}.
Definition reply (blocks : list content) (reason : StopReason) : AssistantMessage :=
  {| am_content := blocks; am_api := "api"; am_provider := "p"; am_model := "m"; am_responseModel := None;
     am_responseId := None; am_serviceTier := None; am_diagnostics := None; am_usage := no_usage;
     am_stopReason := reason; am_isResponseCheckpoint := false; am_deferred := None; am_errorMessage := None;
     am_rawStopReason := None; am_endTurn := None; am_timestamp := num_zero |}.
Definition calling (ids : list string) : AssistantMessage :=
  reply ((fun id => ToolCallContent (echo_call id)) <$> ids) StopToolUse.
Definition saying (text : string) : AssistantMessage := reply [TextContent text None] StopStop.

(** ** One call *)

Definition sample_prepared : PreparedToolCall SampleWorld :=
  {| pc_toolCall := echo_call "a"; pc_tool := echo; pc_args := JsonObject [] |}.
Lemma sample_observes : observes sample_host sw_log echo.
Proof. split; try (intros; simplify_eq/=; intros ?; done); by intros; simplify_eq/=. Qed.
Lemma executePreparedToolCall_gate_witness :
  exists tr, sw_log (executePreparedToolCall sample_host None sample_prepared (start_world [])).1 = [] ++ tr /\
    pipeline_ok sample_host sample_prepared tr (executePreparedToolCall sample_host None sample_prepared (start_world [])).2.
Proof. exact (executePreparedToolCall_gate sample_host sw_log sample_prepared sample_observes None (start_world [])). Defined.
Example sample_call_log :
  sw_log (executePreparedToolCall sample_host None sample_prepared (start_world [])).1 =
  [ActAdmit true; ActAcquire (Some 1%nat); ActDispatch; ActGate true; ActExecute false None; ActRelease 1%nat].
Proof. reflexivity. Qed.

(** ** Batches *)

Definition sample_context : AgentContext SampleWorld :=
  {| cx_systemPrompt := "be brief"; cx_messages := []; cx_tools := Some [echo]; cx_toolPlan := None |}.
(** The log of a world. *)
Definition sample_log (w : SampleWorld) : option (list AgentEvent) := Some (sw_events w).
Lemma sample_records context :
  (forall name tool, context_tool context name = Some tool -> tool = echo) -> records_events sample_host context sample_log.
Proof.
  intros Hc. split; try (intros; simplify_eq/=; intros ?; done).
  - intros e w w' [= <-]. unfold with_event. destruct (is_update e); [by rewrite and_then_nil|done].
  - done.
  - done.
  - intros name tool parent call args w H. by rewrite (Hc _ _ H).
Qed.
Lemma sample_context_tool name tool : context_tool sample_context name = Some tool -> tool = echo.
Proof. unfold context_tool. simpl. unfold find_tool. simpl. case_decide; by intros [= <-]. Qed.
Definition two_calls : AssistantMessage := calling ["a"; "b"].
Definition two_calls_result := executeToolCalls sample_host sample_context two_calls [1; 0]%nat None (start_world []).
Definition two_calls_batch : ExecutedToolCallBatch :=
  match two_calls_result.2 with Ok b => b | Err _ => {| eb_messages := []; eb_terminate := false |} end.
Lemma two_calls_returns :
  executeToolCalls sample_host sample_context two_calls [1; 0]%nat None (start_world []) =
  (two_calls_result.1, Ok two_calls_batch).
Proof. vm_compute. reflexivity. Qed.
Lemma executeToolCalls_batch_witness :
  exists evs, sample_log two_calls_result.1 = Some ([] ++ evs) /\ batch_of sample_host (tool_calls two_calls) two_calls_batch evs.
Proof.
  refine (executeToolCalls_batch sample_host sample_context two_calls sample_log (sample_records _ sample_context_tool)
    [1; 0]%nat None (start_world []) two_calls_result.1 two_calls_batch [] eq_refl _ two_calls_returns).
  apply perm_swap.
Defined.

(** ** Runs *)

Definition stream_of (m : AssistantMessage) : Response SampleWorld :=
  {| rs_events := StreamYields (StreamStart m) (StreamYields (StreamDone (am_stopReason m) m) StreamExhausted);
     rs_result := mret m |}.
Definition next_reply (script : list AssistantMessage) : AssistantMessage := default (saying "done") (head script).
Definition sample_loop : LoopHost SampleWorld nat :=
  {| tool_host := sample_host; completion_order := fun calls _ => reverse (seq 0 (length calls)); runId := Some "run";
     apiKey := None;
     streamFunction := fun _ _ _ _ w =>
       ({| sw_events := sw_events w; sw_log := sw_log w; sw_aborted := sw_aborted w; sw_script := tail (sw_script w) |},
        Ok (stream_of (next_reply (sw_script w))));
     convertToLlm := fun messages => mret messages; transformContext := None; getSystemPrompt := None;
     onProviderContext := None; getApiKey := None; onCompletedOutputItem := None; getSteeringMessages := None;
     getFollowUpMessages := None; prepareNextTurn := None; prepareRequest := None; getRequestRouting := None;
     shouldStopAfterTurn := None |}.
Definition sample_config : LoopConfig :=
  {| lc_model := sample_model; lc_reasoning := None;
     lc_routing := {| ro_promptCacheKey := None; ro_cacheAffinityId := None; ro_transport := None |};
     lc_stepId := None; lc_toolPlanRevision := None |}.

Lemma sample_script_quiet model context config key : quiet sample_log (streamFunction sample_loop model context config key).
Proof. by intros w. Qed.
Lemma trusted_echo context :
  (forall name tool, context_tool context name = Some tool -> quiet_tool sample_loop sample_log tool) ->
  records_events sample_host context sample_log.
Proof.
  intros Hc. split; try (intros; simplify_eq/=; intros ?; done).
  - intros e w w' [= <-]. unfold with_event. destruct (is_update e); [by rewrite and_then_nil|done].
  - done.
  - done.
  - intros name tool parent call args w H. by apply (Hc name tool H).
Qed.
Lemma trusted_tools context name tool :
  trusted sample_loop sample_log context -> context_tool context name = Some tool -> quiet_tool sample_loop sample_log tool.
Proof. intros [H1 H2]. by apply context_tool_Forall. Qed.
Lemma sample_run_observed : observed_run sample_loop sample_log.
Proof.
  split; try (intros; simplify_eq/=; done).
  - intros context Ht. apply trusted_echo. intros name tool. by apply trusted_tools.
  - intros calls w. simpl. apply reverse_Permutation.
Qed.
Lemma sample_trusted : trusted sample_loop sample_log sample_context.
Proof. split; [|constructor]. constructor; [|constructor]. by intros parent call args w. Qed.

(** A prompt, a response with two calls, a last response. *)
Definition sample_run := runAgentLoop sample_loop 5 [UserMsg (PlainText "hi") num_zero] sample_context sample_config
  (start_world [two_calls; saying "bye"]).
Definition returned_messages (r : result Failure (option (list AgentMessage))) : list AgentMessage :=
  match r with Ok (Some messages) => messages | _ => [] end.
Lemma sample_run_returns :
  runAgentLoop sample_loop 5 [UserMsg (PlainText "hi") num_zero] sample_context sample_config
    (start_world [two_calls; saying "bye"]) = (sample_run.1, Ok (Some (returned_messages sample_run.2))).
Proof. vm_compute. reflexivity. Qed.
Example sample_run_messages : (message_role <$> returned_messages sample_run.2) =
  [RoleUser; RoleAssistant; RoleToolResult; RoleToolResult; RoleAssistant].
Proof. vm_compute. reflexivity. Qed.
Lemma runAgentLoop_transcript_witness :
  exists evs, sample_log sample_run.1 = Some ([] ++ evs) /\ phases Outside evs = Some Ended /\
    last evs = Some (EvAgentEnd (returned_messages sample_run.2)) /\ ended evs = returned_messages sample_run.2 /\
    [UserMsg (PlainText "hi") num_zero] `prefix_of` returned_messages sample_run.2 /\
    Forall (turn_answered sample_loop) evs.
Proof.
  exact (runAgentLoop_transcript sample_loop sample_log sample_run_observed 5 [UserMsg (PlainText "hi") num_zero]
    sample_context sample_config (start_world [two_calls; saying "bye"]) sample_run.1 (returned_messages sample_run.2)
    [] sample_trusted eq_refl (or_introl sample_run_returns)).
Defined.

(** A provider that repeats itself is stopped after three turns, however much fuel is left. *)
Definition stuck_run := runAgentLoop sample_loop 10 [] sample_context sample_config
  (start_world [calling ["a"]; calling ["b"]; calling ["c"]; calling ["d"]; calling ["e"]]).
Example stuck_run_stops : (message_role <$> returned_messages stuck_run.2) =
  [RoleAssistant; RoleToolResult; RoleAssistant; RoleToolResult; RoleAssistant; RoleToolResult; RoleAssistant].
Proof. vm_compute. reflexivity. Qed.

(** ** Cancellation *)

Definition aborted_world : SampleWorld :=
  {| sw_events := []; sw_log := []; sw_aborted := true; sw_script := [two_calls] |}.
Definition sample_state : LoopState :=
  {| ls_context := sample_context; ls_config := sample_config; ls_lastCompletedTurn := None;
     ls_lastTurnFingerprint := None; ls_turnFingerprintRepeats := 0; ls_stepNumber := 0; ls_pendingMessages := [];
     ls_newMessages := [] |}.
Lemma sample_signal_stays : signal_stays sample_loop.
Proof.
  split; try (intros; simplify_eq/=; done).
  - intros e w Hw. split; [|done]. unfold fired in *. simpl in *. unfold with_event. by destruct (is_update e).
Qed.
Lemma loop_cancelled_witness :
  match (loop sample_loop 2 true sample_state aborted_world).2 with
  | Ok r => exists messages, r = Some messages /\ (ends_aborted messages \/ messages = [])
  | Err _ => True
  end.
Proof. exact (loop_cancelled sample_loop sample_signal_stays 0 true sample_state aborted_world eq_refl). Defined.

(** ** The guard *)

Definition sample_turns (ids : list string) : list GuardedTurn :=
  (fun id => {| gt_injected := false; gt_message := calling [id]; gt_results := []; gt_more := true |}) <$> ids.
Lemma no_progress_exact_witness :
  (guard_run (sample_turns ["a"; "b"; "c"]) sample_state false).2 = true <-> repeated (sample_turns ["a"; "b"; "c"]).
Proof. exact (no_progress_exact (sample_turns ["a"; "b"; "c"]) sample_state eq_refl eq_refl). Defined.

(** ** Resumption *)

Definition sample_answer : ToolResultMessage :=
  {| tr_toolCallId := "a"; tr_toolName := "echo"; tr_content := []; tr_details := None; tr_usage := None;
     tr_addedToolNames := None; tr_structuredContent := None; tr_nestedCalls := None;
     tr_nestedExecutionOutcome := None; tr_isError := false; tr_timestamp := num_zero |}.
Definition interrupted_context : AgentContext SampleWorld := set_messages [AssistantMsg two_calls] sample_context.
Definition resumed_run := runAgentLoopResumeTools sample_loop 5 interrupted_context (Some 0%nat) two_calls [sample_answer]
  sample_config (start_world [saying "bye"]).
Lemma resumed_run_returns :
  runAgentLoopResumeTools sample_loop 5 interrupted_context (Some 0%nat) two_calls [sample_answer]
    sample_config (start_world [saying "bye"]) = (resumed_run.1, Ok (Some (returned_messages resumed_run.2))).
Proof. vm_compute. reflexivity. Qed.
(** Only the second call is executed. *)
Example resumed_run_executes : (tr_toolCallId <$> omap (fun m => match m with ToolResultMsg r => Some r | _ => None end)
  (returned_messages resumed_run.2)) = ["b"].
Proof. vm_compute. reflexivity. Qed.
Lemma runAgentLoopResumeTools_spec_witness :
  let waiting := unresolved (by_call [sample_answer]) (tool_calls two_calls) in
  exists batch ordered rest,
    let evs := EvAgentStart :: EvTurnStart :: batch ++ EvTurnEnd (AssistantMsg two_calls) ordered :: rest in
    sample_log resumed_run.1 = Some ([] ++ evs) /\ phases Outside evs = Some Ended /\
    last evs = Some (EvAgentEnd (returned_messages resumed_run.2)) /\ ended evs = returned_messages resumed_run.2 /\
    (exists n, keep is_start batch = start_of <$> take n waiting) /\
    answer_of <$> ordered `sublist_of` call_of <$> tool_calls two_calls /\ [sample_answer] ⊆ ordered /\
    (unaborted sample_host ->
      keep is_start batch = start_of <$> waiting /\ answer_of <$> ordered = call_of <$> tool_calls two_calls).
Proof.
  exact (runAgentLoopResumeTools_spec sample_loop sample_log sample_run_observed 5 interrupted_context (Some 0%nat) two_calls
    [sample_answer] sample_config (start_world [saying "bye"]) resumed_run.1 (returned_messages resumed_run.2)
    [] sample_trusted eq_refl resumed_run_returns).
Defined.
