(* ===== verification/LoopFrame.v ===== *)
(** * What a run cannot do to the world

    A run acts on the world only through the host: whatever relation every hook, listener
    and tool respects is respected by the tool pipeline and the loop, whether they return or
    throw. *)
From S2P Require Import Prelude JsNumber SessionTypes JsText JsonNumber JsonText Reducer Context.
From S2P Require Import ResourceScheduler ToolExecution DurableJson Retry ToolPipeline ToolBatch AgentLoop.
From S2P Require Import AgentLoopTheorems.

(** ** Triples *)

Section frame.
Context {W : Type} (R : relation W) `{HR : !PreOrder R}.

(** [f] moves the world along [R] even when it throws; what it returns satisfies [Q]. *)
Definition moves {A} (f : M W Failure A) (Q : A -> Prop) : Prop :=
  forall w, R w (f w).1 /\ match (f w).2 with Ok a => Q a | Err _ => True end.
Definition steady {A} (f : M W Failure A) : Prop := moves f (fun _ => True).

Lemma moves_pure {A} (r : result Failure A) (Q : A -> Prop) :
  match r with Ok a => Q a | Err _ => True end -> moves (fun w => (w, r)) Q.
Proof. intros HQ w. by split. Qed.
Lemma moves_ret {A} (a : A) (Q : A -> Prop) : Q a -> moves (mret a) Q.
Proof. intros HQ w. by split. Qed.
Lemma moves_lift {A} (r : result Failure A) (Q : A -> Prop) : (forall a, r = Ok a -> Q a) -> moves (lift r) Q.
Proof. intros HQ. apply moves_pure. destruct r; auto. Qed.
Lemma moves_throw {A} e (Q : A -> Prop) : moves (throw e) Q.
Proof. intros w. by split. Qed.
Lemma moves_weaken {A} (f : M W Failure A) (P Q : A -> Prop) : moves f P -> (forall a, P a -> Q a) -> moves f Q.
Proof. intros Hf HPQ w. destruct (Hf w) as [H1 H2]. split; [done|]. destruct (f w).2; auto. Qed.
Lemma moves_bind {A B} (f : M W Failure A) (k : A -> M W Failure B) (P : A -> Prop) (Q : B -> Prop) :
  moves f P -> (forall a, P a -> moves (k a) Q) -> moves (f ≫= k) Q.
Proof.
  intros Hf Hk w. unfold mbind, M_bind. destruct (Hf w) as [H1 H2]. destruct (f w) as [w1 [a|e]]; simpl in *; [|done].
  destruct (Hk a H2 w1) as [H3 H4]. split; [by etrans|done].
Qed.
Lemma moves_try {A} (f : M W Failure A) (h : Failure -> M W Failure A) (Q : A -> Prop) :
  moves f Q -> (forall e, moves (h e) Q) -> moves (try_catch f h) Q.
Proof.
  intros Hf Hh w. unfold try_catch. destruct (Hf w) as [H1 H2]. destruct (f w) as [w1 [a|e]]; simpl in *; [done|].
  destruct (Hh e w1) as [H3 H4]. split; [by etrans|done].
Qed.
Lemma moves_modify f (Q : unit -> Prop) : (forall w, R w (f w)) -> Q tt -> moves (modify f) Q.
Proof. intros Hf HQ w. by split; [apply Hf|]. Qed.
Lemma steady_weaken {A} (f : M W Failure A) (P : A -> Prop) : moves f P -> steady f.
Proof. intros Hf. by eapply moves_weaken. Qed.
Lemma steady_bind {A B} (f : M W Failure A) (k : A -> M W Failure B) (Q : B -> Prop) :
  steady f -> (forall a, moves (k a) Q) -> moves (f ≫= k) Q.
Proof. intros Hf Hk. eapply moves_bind; [exact Hf|]. auto. Qed.
Lemma steady_ret {A} (a : A) : steady (mret a).
Proof. by apply moves_ret. Qed.
Lemma steady_lift {A} (r : result Failure A) : steady (lift r).
Proof. by apply moves_lift. Qed.
End frame.
Create HintDb moves.
#[export] Hint Resolve moves_throw steady_ret steady_lift : moves.

(** Follows the structure of a computation whose results do not matter. *)
Ltac moving :=
  repeat first
    [ progress intros
    | match goal with |- moves ?R ?f (fun _ => True) => change (steady R f) end
    | solve [eauto with moves]
    | apply steady_bind; [done| |]
    | apply moves_try; [done| |]
    | case_match ].

Lemma tool_run_induction {W} (P : tool_run W -> Prop) :
  (forall outcome, P (Settles outcome)) -> (forall partial rest, P rest -> P (Reports partial rest)) ->
  (forall act, (forall w, P (act w).2) -> P (Acts act)) -> forall t, P t.
Proof.
  intros Hs Hr Ha. fix IH 1. intros [outcome|partial rest|act]; [done|by apply Hr|].
  apply Ha. intros w. destruct (act w) as [w' t]. apply IH.
Qed.

Section loop.
Context {W L : Type} (R : relation W) `{HR : !PreOrder R} (host : LoopHost W L).
#[local] Abbreviation th := (tool_host host).
#[local] Abbreviation steady := (steady R).

(** What a running tool does to the world. *)
Fixpoint steady_run (t : tool_run W) : Prop :=
  match t with
  | Settles _ => True
  | Reports _ rest => steady_run rest
  | Acts act => forall w, R w (act w).1 /\ steady_run (act w).2
  end.
Definition steady_tool (tool : AgentTool W) : Prop := forall id args, steady_run (at_execute tool id args).
Fixpoint steady_stream (stream : response_stream W) : Prop :=
  match stream with
  | StreamExhausted | StreamThrows _ => True
  | StreamActs act => forall w, R w (act w).1 /\ steady_stream (act w).2
  | StreamYields _ rest => steady_stream rest
  end.
Definition steady_response (r : Response W) : Prop := steady_stream (rs_events r) /\ steady (rs_result r).
Definition steady_context (context : AgentContext W) : Prop :=
  Forall steady_tool (default [] (cx_tools context)) /\
  Forall steady_tool (default [] (tp_tools <$> cx_toolPlan context)).
Definition steady_update (update : option (AgentLoopTurnUpdate W)) : Prop :=
  forall u c, update = Some u -> tu_context u = Some c -> steady_context c.

(** Every hook moves the world along [R]. *)
Record steady_tools_host : Prop := {
  st_emit : forall e, steady (emit th e);
  st_report : forall e w, R w (report th e w);
  st_release : forall l w, R w (release_lease th l w);
  st_before : forall f x m c args, beforeToolCall th = Some f -> steady (f x m c args);
  st_after : forall f x m c args r isError, afterToolCall th = Some f -> steady (f x m c args r isError);
  st_result : forall f m c t o, onToolResult th = Some f -> steady (f m c t o);
  st_dispatch : forall f parent p, beforeToolDispatch th = Some f -> steady (f parent p);
  st_gate : forall f, admitEffect th = Some f -> steady f;
  st_admit : forall f parent p, admitToolCall th = Some f -> steady (f parent p);
  st_acquire : forall f r, acquire_lease th = Some f -> steady (f r) }.
Record steady_host : Prop := {
  sh_tools : steady_tools_host;
  sh_stream : forall model context config key, moves R (streamFunction host model context config key) steady_response;
  sh_convert : forall messages, steady (convertToLlm host messages);
  sh_transform : forall f messages, transformContext host = Some f -> steady (f messages);
  sh_prompt : forall f, getSystemPrompt host = Some f -> steady f;
  sh_observer : forall f model context, onProviderContext host = Some f -> steady (f model context);
  sh_key : forall f provider, getApiKey host = Some f -> steady (f provider);
  sh_item : forall f stepId i block m, onCompletedOutputItem host = Some f -> steady (f stepId i block m);
  sh_steering : forall f, getSteeringMessages host = Some f -> steady f;
  sh_followUp : forall f, getFollowUpMessages host = Some f -> steady f;
  sh_next : forall f t, prepareNextTurn host = Some f -> moves R (f t) steady_update;
  sh_request : forall f c m t, prepareRequest host = Some f -> moves R (f c m t) steady_update;
  sh_routing : forall f, getRequestRouting host = Some f -> steady f;
  sh_stop : forall f t, shouldStopAfterTurn host = Some f -> steady (f t) }.
End loop.
Arguments st_emit {W L R host}. Arguments st_report {W L R host}. Arguments st_release {W L R host}.
Arguments st_before {W L R host}. Arguments st_after {W L R host}. Arguments st_result {W L R host}.
Arguments st_dispatch {W L R host}. Arguments st_gate {W L R host}. Arguments st_admit {W L R host}.
Arguments st_acquire {W L R host}. Arguments sh_tools {W L R host}. Arguments sh_stream {W L R host}.
Arguments sh_convert {W L R host}. Arguments sh_transform {W L R host}. Arguments sh_prompt {W L R host}.
Arguments sh_observer {W L R host}. Arguments sh_key {W L R host}. Arguments sh_item {W L R host}.
Arguments sh_steering {W L R host}. Arguments sh_followUp {W L R host}. Arguments sh_next {W L R host}.
Arguments sh_request {W L R host}. Arguments sh_routing {W L R host}. Arguments sh_stop {W L R host}.

(** A relation that holds of fewer worlds is respected by fewer hosts. *)
Section monotone.
Context {W : Type} (R R' : relation W) (HR : forall w w', R w w' -> R' w w').

Lemma moves_mono {A} (f : M W Failure A) (P Q : A -> Prop) : moves R f P -> (forall a, P a -> Q a) -> moves R' f Q.
Proof. intros Hf HPQ w. destruct (Hf w) as [H1 H2]. split; [auto|]. destruct (f w).2; auto. Qed.
Lemma steady_mono {A} (f : M W Failure A) : steady R f -> steady R' f.
Proof. intros Hf. by eapply moves_mono. Qed.
Lemma steady_run_mono t : steady_run R t -> steady_run R' t.
Proof.
  induction t as [|partial rest IH|act IH] using tool_run_induction; [done|exact IH|].
  intros Ht w. destruct (Ht w). auto.
Qed.
Lemma steady_stream_mono s : steady_stream R s -> steady_stream R' s.
Proof.
  induction s as [| |event rest IH|act IH] using response_stream_induction; [done|done|exact IH|].
  intros Hs w. destruct (Hs w). auto.
Qed.
Lemma steady_response_mono r : steady_response R r -> steady_response R' r.
Proof. intros [Hs Hr]. split; [by apply steady_stream_mono|by apply steady_mono]. Qed.
Lemma steady_context_mono c : steady_context R c -> steady_context R' c.
Proof. intros [H1 H2]. split; eapply Forall_impl; eauto; intros t Ht id args; apply steady_run_mono, Ht. Qed.
Lemma steady_update_mono u : steady_update R u -> steady_update R' u.
Proof. intros Hu v c Hv Hc. by eapply steady_context_mono, Hu. Qed.
End monotone.

Section loop.
Context {W L : Type} (R : relation W) `{HR : !PreOrder R} (host : LoopHost W L).
#[local] Abbreviation th := (tool_host host).
#[local] Abbreviation steady := (steady R).
#[local] Abbreviation steady_tool := (steady_tool R).
#[local] Abbreviation steady_context := (steady_context R).
#[local] Abbreviation steady_run := (steady_run R).
#[local] Abbreviation steady_stream := (steady_stream R).
#[local] Abbreviation steady_response := (steady_response R).
#[local] Abbreviation steady_update := (steady_update R).
Context (Hhost : steady_host R host).
Let Htools := sh_tools Hhost.

(** ** Tool calls *)

Lemma steady_modify f : (forall w, R w (f w)) -> steady (modify f).
Proof. intros Hf. by apply moves_modify. Qed.
Lemma steady_observe call phase outcome reason : steady (observe th call phase outcome reason).
Proof. apply steady_modify. intros w. apply (st_report Htools). Qed.
Lemma steady_emit e : steady (emit th e).
Proof. apply (st_emit Htools). Qed.
Lemma steady_aborted : steady (aborted th).
Proof. intros w. by split. Qed.
Lemma steady_release lease : steady (release_all th lease).
Proof. destruct lease; [|by apply moves_ret]. apply steady_modify. intros w. apply (st_release Htools). Qed.
Lemma steady_message f : steady (createToolResultMessage th f).
Proof. intros w. by split. Qed.
Lemma steady_now : steady (now host).
Proof. intros w. by split. Qed.
Hint Resolve steady_observe steady_emit steady_aborted steady_release steady_message steady_now : moves.

Lemma steady_run_tool parent call t failed w : steady_run t -> R w (run_tool th parent call t failed w).1.
Proof.
  revert failed w. induction t as [outcome|partial rest IH|act IH] using tool_run_induction; intros failed w Ht; simpl.
  - done.
  - destruct (steady_emit (EvToolUpdate (tc_id call) (tc_name call) (tc_arguments call) partial parent) w) as [H _].
    destruct (emit _ _ w) as [w1 r]. simpl in H. etrans; [exact H|]. by apply IH.
  - destruct (Ht w) as [H1 H2]. pose proof (IH w) as IHw. destruct (act w) as [w1 t1]. simpl in *.
    etrans; [exact H1|]. by apply IHw.
Qed.
Lemma steady_context_tool context name tool :
  steady_context context -> context_tool context name = Some tool -> steady_tool tool.
Proof.
  intros [H1 H2]. by apply context_tool_Forall.
Qed.

(** A prepared call runs a tool of the context. *)
Definition steady_preparation (p : preparation W) : Prop :=
  match p with Prepared prepared => steady_tool (pc_tool prepared) | Immediate _ _ => True end.
Lemma prepareToolCall_steady context m call :
  steady_context context -> moves R (prepareToolCall th context m call) steady_preparation.
Proof.
  intros Hc. pose proof (st_before Htools) as Hbefore. unfold prepareToolCall.
  destruct (context_tool context (tc_name call)) as [tool|] eqn:Ht; [|by apply moves_ret].
  pose proof (steady_context_tool _ _ _ Hc Ht) as Htool. apply moves_try; [done| |intros e; by apply moves_ret].
  moving; try (apply moves_ret; by repeat case_match).
Qed.
Lemma execution_steady parent p : steady_tool (pc_tool p) -> steady (execution th parent p).
Proof.
  intros Ht w. unfold execution.
  pose proof (steady_run_tool parent (pc_toolCall p) _ None w (Ht (tc_id (pc_toolCall p)) (pc_args p))) as H.
  destruct (run_tool _ _ _ _ _ _) as [w1 [updates outcome]]. simpl in H.
  assert (forall {A} (f : M W Failure A), steady f -> R w (f w1).1 /\ match (f w1).2 with Ok _ => True | Err _ => True end) as Hf.
  { intros A f Hf. destruct (Hf w1) as [Hf1 _]. split; [by etrans|by destruct (f w1).2]. }
  destruct outcome, updates; apply Hf; moving.
Qed.
Lemma executePreparedToolCall_steady parent p :
  steady_tool (pc_tool p) -> steady (executePreparedToolCall th parent p).
Proof.
  intros Ht. pose proof (st_dispatch Htools). pose proof (st_gate Htools). pose proof (st_admit Htools).
  pose proof (st_acquire Htools). pose proof (execution_steady parent p Ht) as Hex.
  assert (forall lease, steady (with_lease th lease (execution th parent p))) as Hlease.
  { intros lease w. unfold with_lease. destruct (Hex w) as [Hw1 _]. destruct (execution th parent p w) as [w1 r].
    simpl in *. destruct (steady_release lease w1) as [Hw2 _]. split; [by etrans|by destruct r]. }
  unfold executePreparedToolCall, admission, scheduling, leased_call, dispatching, effect_gate. moving.
Qed.
Lemma finalizeExecutedToolCall_steady context m p executed :
  steady (finalizeExecutedToolCall th context m p executed).
Proof. pose proof (st_after Htools). unfold finalizeExecutedToolCall. moving. Qed.
Lemma persistToolResult_steady f : steady (persistToolResult th f).
Proof. pose proof (st_result Htools). unfold persistToolResult. moving. Qed.
Lemma emitToolResultMessage_steady m : steady (emitToolResultMessage th m).
Proof. unfold emitToolResultMessage. moving. Qed.
Lemma publish_steady f : steady (publish th f).
Proof. pose proof persistToolResult_steady. pose proof emitToolResultMessage_steady. unfold publish, emitToolExecutionEnd. moving. Qed.
Hint Resolve executePreparedToolCall_steady finalizeExecutedToolCall_steady persistToolResult_steady
  emitToolResultMessage_steady publish_steady : moves.

(** ** Batches *)

Section batch.
Context (context : AgentContext W) (m : AssistantMessage) (Hcontext : steady_context context).

Lemma emitToolStart_steady call : steady (emitToolStart th call).
Proof. apply steady_emit. Qed.
Lemma emitToolExecutionEnd_steady f : steady (emitToolExecutionEnd th f).
Proof. apply steady_emit. Qed.
Lemma execute_and_finalize_steady p : steady_tool (pc_tool p) -> steady (execute_and_finalize th context m p).
Proof. intros Hp. unfold execute_and_finalize. moving. Qed.
Hint Resolve emitToolStart_steady emitToolExecutionEnd_steady execute_and_finalize_steady : moves.

Lemma fail_truncated_steady calls done : steady (fail_truncated th calls done).
Proof. revert done. induction calls as [|call calls IH]; intros done; simpl; moving. Qed.
Lemma failToolCallsFromTruncatedMessage_steady calls : steady (failToolCallsFromTruncatedMessage th calls).
Proof. pose proof fail_truncated_steady. unfold failToolCallsFromTruncatedMessage. moving. Qed.

Lemma sequential_calls_steady calls done : steady (sequential_calls th context m calls done).
Proof.
  revert done. induction calls as [|call calls IH]; intros done; simpl; [by apply moves_ret|].
  apply steady_bind; [done|apply emitToolStart_steady|]. intros _.
  eapply moves_bind; [done|by apply prepareToolCall_steady|]. intros [p|result isError] Hp; simpl in Hp; moving.
Qed.

(** Every prepared entry runs a tool of the context. *)
Definition steady_entry (e : entry) : Prop := match e with inl _ => True | inr p => steady_tool (pc_tool p) end.
Lemma preflight_steady calls entries :
  Forall steady_entry entries -> moves R (preflight th context m calls entries) (Forall steady_entry).
Proof.
  revert entries. induction calls as [|call calls IH]; intros entries Hes; simpl; [by apply moves_ret|].
  apply steady_bind; [done|apply emitToolStart_steady|]. intros _.
  eapply moves_bind; [done|by apply prepareToolCall_steady|]. intros prep Hp.
  eapply (moves_bind _ _ _ steady_entry).
  - destruct prep as [p|result isError]; [by apply moves_ret|]. moving; by apply moves_ret.
  - intros added Hadded. assert (Forall steady_entry (entries ++ [added])) by (apply Forall_app; auto).
    apply steady_bind; [done|apply steady_aborted|]. intros []; [by apply moves_ret|by apply IH].
Qed.
Lemma run_entry_steady e : steady_entry e -> steady (run_entry th context m e).
Proof. intros He. unfold run_entry. destruct e; simpl in He; moving. Qed.
Lemma settle_entries_steady order entries outcomes w :
  Forall steady_entry entries -> R w (settle_entries th context m order entries outcomes w).1.
Proof.
  intros Hes. revert outcomes w. induction order as [|i order IH]; intros outcomes w; simpl; [done|].
  destruct (entries !! i) as [e|] eqn:He; [|apply IH]. rewrite Forall_lookup in Hes.
  destruct (run_entry_steady e (Hes _ _ He) w) as [H1 _]. destruct (run_entry _ _ _ e w) as [w1 r].
  simpl in H1. etrans; [exact H1|apply IH].
Qed.
Lemma publish_messages_steady fs messages : steady (publish_messages th fs messages).
Proof. revert messages. induction fs as [|f fs IH]; intros messages; simpl; moving. Qed.

Lemma executeToolCalls_steady order recovered : steady (executeToolCalls th context m order recovered).
Proof.
  unfold executeToolCalls. case_match.
  - pose proof sequential_calls_steady. unfold executeToolCallsSequential. moving.
  - unfold executeToolCallsParallel. eapply moves_bind; [done|by apply preflight_steady|]. intros entries Hes.
    apply steady_bind; [done| |].
    + intros w. pose proof (settle_entries_steady order entries ∅ w Hes) as Hw.
      destruct (settle_entries _ _ _ _ _ _ w). by split.
    + pose proof publish_messages_steady. moving.
Qed.
End batch.
Hint Resolve failToolCallsFromTruncatedMessage_steady executeToolCalls_steady : moves.

(** ** A response *)

Lemma report_provider_steady outcome reason : steady (report_provider host outcome reason).
Proof. apply steady_modify. intros w. apply (st_report Htools). Qed.
Lemma reportProviderResult_steady message : steady (reportProviderResult host message).
Proof. unfold reportProviderResult. destruct (am_stopReason message); apply report_provider_steady. Qed.
Lemma resolveSystemPrompt_steady snapshot : steady (resolveSystemPrompt host snapshot).
Proof. pose proof (sh_prompt Hhost). unfold resolveSystemPrompt. moving. Qed.
Lemma poll_steering_steady : steady (poll (getSteeringMessages host)).
Proof. destruct (getSteeringMessages host) eqn:Hf; [by apply (sh_steering Hhost)|by apply moves_ret]. Qed.
Lemma poll_followUp_steady : steady (poll (getFollowUpMessages host)).
Proof. destruct (getFollowUpMessages host) eqn:Hf; [by apply (sh_followUp Hhost)|by apply moves_ret]. Qed.
Lemma announce_steady message : steady (announce host message).
Proof. unfold announce. moving. Qed.
Hint Resolve report_provider_steady reportProviderResult_steady resolveSystemPrompt_steady poll_steering_steady
  poll_followUp_steady announce_steady : moves.

Lemma readResponse_steady stepId stream added blocks : steady_stream stream -> steady (readResponse host stepId stream added blocks).
Proof.
  pose proof (sh_item Hhost) as Hitem. revert added blocks.
  induction stream as [|e|event rest IH|act IH] using response_stream_induction; intros added blocks Hs; simpl in Hs.
  - by apply moves_pure.
  - by apply moves_pure.
  - pose proof (fun added blocks => IH added blocks Hs).
    destruct event; first [by apply moves_pure | intros w; simpl; match goal with |- R w (?f w).1 /\ _ => enough (steady f) as Hk by apply Hk end; moving].
  - intros w. simpl. destruct (Hs w) as [H1 H2]. specialize (IH w added blocks H2). destruct (act w) as [w1 rest].
    simpl in *. destruct (IH w1) as [H3 H4]. split; [by etrans|done].
Qed.
Lemma streamAssistantResponse_steady context config : steady (streamAssistantResponse host context config).
Proof.
  pose proof (sh_transform Hhost). pose proof (sh_convert Hhost). pose proof (sh_observer Hhost).
  pose proof (sh_key Hhost). pose proof (st_gate Htools).
  unfold streamAssistantResponse.
  do 4 (apply steady_bind; [done|unfold buildProviderContext; moving|intros ?]).
  match goal with |- context [streamFunction host _ _ _ ?k] => set (key := k) end. clearbody key.
  apply steady_bind; [done|moving|intros stop].
  apply steady_bind; [done|unfold effect_gate; moving|intros refused]. destruct refused; [moving|].
  apply steady_bind; [done|moving|intros _]. eapply (moves_bind _ _ _ steady_response).
  { apply moves_try; [done|by apply sh_stream|]. intros e. eapply steady_bind; [done|apply report_provider_steady|].
    intros _. by apply moves_throw. }
  intros response [Hs Hr]. pose proof (fun stepId => readResponse_steady stepId (rs_events response) false [] Hs). moving.
Qed.

(** ** Turns and runs *)

(** A state whose context holds only tools that respect [R]. *)
Definition steady_state (s : @LoopState W) : Prop := steady_context (ls_context s).
Lemma apply_update_steady u s : steady_update u -> steady_state s -> steady_state (apply_update u s).
Proof.
  intros Hu Hs. destruct u as [u|]; [|done]. unfold steady_state. simpl.
  destruct (tu_context u) eqn:Hc; [by eapply Hu|done].
Qed.

Lemma prepare_turn_steady s : steady_state s -> moves R (prepare_turn host s) steady_state.
Proof.
  intros Hs. unfold prepare_turn. destruct (ls_lastCompletedTurn s) as [t|]; [|by apply moves_ret].
  apply (moves_bind _ _ _ steady_update).
  { destruct (prepareNextTurn host) eqn:Hf; [by apply (sh_next Hhost)|by apply moves_ret]. }
  intros u Hu. apply steady_bind; [done|moving|intros pending]. apply steady_bind; [done|moving|intros _].
  apply moves_ret; [done|]. by apply apply_update_steady.
Qed.
Lemma inject_messages_steady messages s : steady_state s -> moves R (inject_messages host messages s) steady_state.
Proof.
  revert s. induction messages as [|message messages IH]; intros s Hs; simpl; [by apply moves_ret|].
  apply steady_bind; [done|moving|intros _]. by apply IH.
Qed.
Lemma inject_pending_steady s : steady_state s -> moves R (inject_pending host s) steady_state.
Proof.
  intros Hs. unfold inject_pending. destruct (ls_pendingMessages s); [by apply moves_ret|].
  eapply moves_bind; [done|by apply inject_messages_steady|]. intros s' Hs'.
  apply steady_bind; [done|moving|intros prompt]. by apply moves_ret.
Qed.
Lemma bind_step_steady s : steady_state s -> moves R (bind_step host s) steady_state.
Proof.
  intros Hs. unfold bind_step. apply (moves_bind _ _ _ steady_update).
  { destruct (prepareRequest host) eqn:Hf; [by apply (sh_request Hhost)|by apply moves_ret]. }
  intros u Hu. apply (moves_bind _ _ _ steady_state).
  { pose proof (apply_update_steady u s Hu Hs). pose proof (sh_routing Hhost).
    destruct (getRequestRouting host); [|by apply moves_ret].
    apply steady_bind; [done|moving|intros routing]. by apply moves_ret. }
  intros s' [Ht Hp]. apply moves_ret; [done|]. rewrite Forall_forall in Ht, Hp.
  split; apply Forall_forall; intros t Hin%(createToolPlan_tools _ 0 None); destruct (cx_tools (ls_context s')); simpl in *; auto.
Qed.

Lemma recover_checkpoint_steady streamed s :
  steady_state s -> moves R (recover_checkpoint host streamed s) (fun r => steady_state r.1.1).
Proof.
  intros Hs. unfold recover_checkpoint, run_batch. destruct (sr_checkpoint streamed) as [c|]; [|by apply moves_ret].
  apply steady_bind; [done|moving|intros _]. eapply (moves_bind _ _ _ (fun r => steady_state r.1.1)).
  { destruct (tool_calls c); [by apply moves_ret|]. apply steady_bind; [done| |intros batch; by apply moves_ret].
    intros w. by apply executeToolCalls_steady. }
  intros [[s' results] terminate] Hs'. simpl in Hs'. apply steady_bind; [done|moving|intros stop].
  apply steady_bind; [done|moving|intros _]. by apply moves_ret.
Qed.
Lemma answer_calls_steady message s :
  steady_state s -> moves R (answer_calls host message s) (fun r => steady_state r.1.1).
Proof.
  intros Hs. unfold answer_calls, run_batch. destruct (tool_calls message) as [|c cs]; [by apply moves_ret|].
  apply steady_bind; [done| |intros batch; by apply moves_ret].
  case_match; [moving|]. intros w. by apply executeToolCalls_steady.
Qed.
Definition steady_result (r : @turn_result W) : Prop := match r with Returned _ => True | Continues _ s => steady_state s end.
Lemma end_run_steady messages : moves R (end_run host messages) steady_result.
Proof. unfold end_run. apply steady_bind; [done|moving|intros _]. by apply moves_ret. Qed.
Lemma note_progress_context message results more (s : @LoopState W) :
  ls_context (note_progress message results more s).1 = ls_context s.
Proof. unfold note_progress. by case_match. Qed.
Lemma finish_turn_steady message recovered s :
  steady_state s -> moves R (finish_turn host message recovered s) steady_result.
Proof.
  intros Hs. pose proof (sh_stop Hhost). unfold finish_turn. apply steady_bind; [done|moving|intros _]. case_match.
  { apply steady_bind; [done|moving|intros _]. apply end_run_steady. }
  eapply moves_bind; [done|by apply answer_calls_steady|]. intros [[s1 results] more] Hs1. simpl in Hs1.
  apply steady_bind; [done|moving|intros _]. pose proof (note_progress_context message results more) as Hctx.
  match goal with |- context [note_progress _ _ _ ?s2] => specialize (Hctx s2) end.
  destruct (note_progress _ _ _ _) as [s3 stuck]. simpl in Hctx.
  assert (steady_state s3) as Hs3 by (unfold steady_state; by rewrite Hctx). destruct stuck.
  { apply steady_bind; [done|moving|intros ?]. apply steady_bind; [done|moving|intros _]. apply end_run_steady. }
  apply steady_bind; [done|moving|intros []]; [apply end_run_steady|].
  apply steady_bind; [done|moving|intros pending]. by apply moves_ret.
Qed.
Lemma turn_steady s : steady_state s -> moves R (turn host s) steady_result.
Proof.
  intros Hs. unfold turn. eapply moves_bind; [done|by apply prepare_turn_steady|]. intros s1 Hs1.
  eapply moves_bind; [done|by apply inject_pending_steady|]. intros s2 Hs2.
  eapply moves_bind; [done|by apply bind_step_steady|]. intros s3 Hs3.
  apply steady_bind; [done|apply streamAssistantResponse_steady|]. intros streamed.
  eapply moves_bind; [done|by apply recover_checkpoint_steady|]. intros [[s4 message] results] Hs4.
  by apply finish_turn_steady.
Qed.

Lemma loop_steady fuel more s : steady_state s -> steady (loop host fuel more s).
Proof.
  revert more s. induction fuel as [|fuel IH]; intros more s Hs; simpl; [by apply moves_ret|]. case_match.
  - eapply moves_bind; [done|by apply turn_steady|]. intros [ms|more' s'] Hr; [by apply moves_ret|by apply IH].
  - apply steady_bind; [done|moving|]. intros [|m ms]; [moving|by apply IH].
Qed.
Lemma runLoop_steady fuel context config before recovered :
  steady_context context -> steady (runLoop host fuel context config before recovered).
Proof. intros Hc. unfold runLoop. apply steady_bind; [done|moving|]. intros pending. by apply loop_steady. Qed.
Lemma announce_all_steady messages : steady (announce_all host messages).
Proof. induction messages; simpl; moving. Qed.

Lemma runAgentLoop_steady fuel prompts context config :
  steady_context context -> steady (runAgentLoop host fuel prompts context config).
Proof.
  intros Hc. pose proof announce_all_steady. unfold runAgentLoop. do 4 (apply steady_bind; [done|moving|intros ?]).
  by apply runLoop_steady.
Qed.
Lemma runAgentLoopContinue_steady fuel context config :
  steady_context context -> steady (runAgentLoopContinue host fuel context config).
Proof.
  intros Hc. unfold runAgentLoopContinue. do 3 (apply steady_bind; [done|moving|intros ?]). by apply runLoop_steady.
Qed.
Lemma runAgentLoopResumeTools_steady fuel context index assistant completed config :
  steady_context context -> steady (runAgentLoopResumeTools host fuel context index assistant completed config).
Proof.
  intros Hc. pose proof (sh_stop Hhost). unfold runAgentLoopResumeTools, run_batch.
  do 3 (apply steady_bind; [done|moving|intros ?]).
  apply steady_bind; [done|intros w; by apply executeToolCalls_steady|intros batch].
  apply steady_bind; [done|moving|intros _]. apply steady_bind; [done|moving|intros stop].
  apply steady_bind; [done|moving|intros over]. destruct over; [moving|by apply runLoop_steady].
Qed.
End loop.
