(* ===== verification/Agent.v ===== *)
(** * The stateful agent (packages/agent/src/agent.ts)

    [Agent] owns the transcript, the queues of pending messages and the active run, and
    drives the loop of AgentLoop with a configuration that reads its state.  Tools and
    listeners are references, kept in the state, to what [AgentOptions] says of them; the
    state [X] of the rest of the world is the listeners' and the hooks' own.  The signal
    the hooks receive is that of the active run, which they can read in the world. *)
From stdpp Require Import gmap.
From S2P Require Import Prelude JsNumber SessionTypes JsonNumber JsonText Reducer Context ResourceScheduler.
From S2P Require Import ToolExecution DurableJson Retry ToolPipeline AgentLoop.

(** ** Queues *)

Inductive QueueMode := ModeAll | OneAtATime.
#[export] Instance QueueMode_eq_dec : EqDecision QueueMode.
Proof. solve_decision. Defined.
Record PendingMessageQueue := { groups : list (list AgentMessage); mode : QueueMode }.
Definition new_queue (m : QueueMode) : PendingMessageQueue := {| groups := []; mode := m |}.
(** A single message is a group of one. *)
Definition enqueue (group : list AgentMessage) (q : PendingMessageQueue) : PendingMessageQueue :=
  match group with [] => q | _ => {| groups := groups q ++ [group]; mode := mode q |} end.
Definition hasItems (q : PendingMessageQueue) : bool := negb (bool_decide (groups q = [])).
Definition drain (q : PendingMessageQueue) : PendingMessageQueue * list AgentMessage :=
  match mode q, groups q with
  | ModeAll, gs => ({| groups := []; mode := mode q |}, concat gs)
  | OneAtATime, [] => (q, [])
  | OneAtATime, first :: rest => ({| groups := rest; mode := mode q |}, first)
  end.
Definition clear (q : PendingMessageQueue) : PendingMessageQueue := {| groups := []; mode := mode q |}.
Definition set_mode (m : QueueMode) (q : PendingMessageQueue) : PendingMessageQueue := {| groups := groups q; mode := m |}.

(** ** State *)

(** The part of [AgentState] that runs change. *)
Record AgentView := {
  vw_messages : list AgentMessage; vw_isStreaming : bool; vw_streamingMessage : option AgentMessage;
  vw_pendingToolCalls : gset string; vw_errorMessage : option string }.
(** The part its owner changes, and the routing fields of [Agent]. *)
Record AgentSettings (T : Type) := {
  se_systemPrompt : string; se_model : LoopModel; se_thinkingLevel : string; se_tools : list T; se_routing : Routing }.
Arguments se_systemPrompt {T}. Arguments se_model {T}. Arguments se_thinkingLevel {T}. Arguments se_tools {T}.
Arguments se_routing {T}.
(** The runs: the active one, the counters, and two variables that closures of the active
    run share, [skipInitialSteeringPoll] of [createLoopConfig] and, for a resumed run, the
    index of the response until its turn ends.  [ru_finished]: the scopes of the finished
    runs, whose promises callers of [waitForIdle] may hold. *)
Record AgentRuns := {
  ru_activeRun : option RunScope.RunScope; ru_nextRunGeneration : Z; ru_nextToolPlanRevision : nat;
  ru_skipInitialSteeringPoll : bool; ru_recovering : option nat; ru_finished : list RunScope.RunScope }.
Record Agent (T Ls : Type) := {
  ag_view : AgentView; ag_settings : AgentSettings T; ag_listeners : list Ls;
  ag_steeringQueue : PendingMessageQueue; ag_followUpQueue : PendingMessageQueue; ag_runs : AgentRuns }.
Arguments ag_view {T Ls}. Arguments ag_settings {T Ls}. Arguments ag_listeners {T Ls}.
Arguments ag_steeringQueue {T Ls}. Arguments ag_followUpQueue {T Ls}. Arguments ag_runs {T Ls}.

Definition set_view {T Ls} (v : AgentView) (a : Agent T Ls) : Agent T Ls :=
  {| ag_view := v; ag_settings := ag_settings a; ag_listeners := ag_listeners a;
     ag_steeringQueue := ag_steeringQueue a; ag_followUpQueue := ag_followUpQueue a; ag_runs := ag_runs a |}.
Definition set_listeners {T Ls} (l : list Ls) (a : Agent T Ls) : Agent T Ls :=
  {| ag_view := ag_view a; ag_settings := ag_settings a; ag_listeners := l;
     ag_steeringQueue := ag_steeringQueue a; ag_followUpQueue := ag_followUpQueue a; ag_runs := ag_runs a |}.
Definition set_queues {T Ls} (steering followUp : PendingMessageQueue) (a : Agent T Ls) : Agent T Ls :=
  {| ag_view := ag_view a; ag_settings := ag_settings a; ag_listeners := ag_listeners a;
     ag_steeringQueue := steering; ag_followUpQueue := followUp; ag_runs := ag_runs a |}.
Definition set_runs {T Ls} (r : AgentRuns) (a : Agent T Ls) : Agent T Ls :=
  {| ag_view := ag_view a; ag_settings := ag_settings a; ag_listeners := ag_listeners a;
     ag_steeringQueue := ag_steeringQueue a; ag_followUpQueue := ag_followUpQueue a; ag_runs := r |}.
Definition set_view_messages (messages : list AgentMessage) (v : AgentView) : AgentView :=
  {| vw_messages := messages; vw_isStreaming := vw_isStreaming v; vw_streamingMessage := vw_streamingMessage v;
     vw_pendingToolCalls := vw_pendingToolCalls v; vw_errorMessage := vw_errorMessage v |}.
Definition set_streaming (m : option AgentMessage) (v : AgentView) : AgentView :=
  {| vw_messages := vw_messages v; vw_isStreaming := vw_isStreaming v; vw_streamingMessage := m;
     vw_pendingToolCalls := vw_pendingToolCalls v; vw_errorMessage := vw_errorMessage v |}.
Definition set_pendingToolCalls (ids : gset string) (v : AgentView) : AgentView :=
  {| vw_messages := vw_messages v; vw_isStreaming := vw_isStreaming v; vw_streamingMessage := vw_streamingMessage v;
     vw_pendingToolCalls := ids; vw_errorMessage := vw_errorMessage v |}.
Definition set_errorMessage (e : option string) (v : AgentView) : AgentView :=
  {| vw_messages := vw_messages v; vw_isStreaming := vw_isStreaming v; vw_streamingMessage := vw_streamingMessage v;
     vw_pendingToolCalls := vw_pendingToolCalls v; vw_errorMessage := e |}.
Definition set_activeRun (scope : option RunScope.RunScope) (r : AgentRuns) : AgentRuns :=
  {| ru_activeRun := scope; ru_nextRunGeneration := ru_nextRunGeneration r;
     ru_nextToolPlanRevision := ru_nextToolPlanRevision r; ru_skipInitialSteeringPoll := ru_skipInitialSteeringPoll r;
     ru_recovering := ru_recovering r; ru_finished := ru_finished r |}.
Definition set_skipInitialSteeringPoll (skip : bool) (r : AgentRuns) : AgentRuns :=
  {| ru_activeRun := ru_activeRun r; ru_nextRunGeneration := ru_nextRunGeneration r;
     ru_nextToolPlanRevision := ru_nextToolPlanRevision r; ru_skipInitialSteeringPoll := skip;
     ru_recovering := ru_recovering r; ru_finished := ru_finished r |}.
Definition set_recovering (index : option nat) (r : AgentRuns) : AgentRuns :=
  {| ru_activeRun := ru_activeRun r; ru_nextRunGeneration := ru_nextRunGeneration r;
     ru_nextToolPlanRevision := ru_nextToolPlanRevision r; ru_skipInitialSteeringPoll := ru_skipInitialSteeringPoll r;
     ru_recovering := index; ru_finished := ru_finished r |}.

(** A new agent: [createMutableAgentState] and the constructor. *)
Definition new_Agent {T Ls} (settings : AgentSettings T) (messages : list AgentMessage) (steeringMode followUpMode : option QueueMode)
  : Agent T Ls :=
  {| ag_view := {| vw_messages := messages; vw_isStreaming := false; vw_streamingMessage := None;
                   vw_pendingToolCalls := ∅; vw_errorMessage := None |};
     ag_settings := settings; ag_listeners := [];
     ag_steeringQueue := new_queue (default OneAtATime steeringMode);
     ag_followUpQueue := new_queue (default OneAtATime followUpMode);
     ag_runs := {| ru_activeRun := None; ru_nextRunGeneration := 0; ru_nextToolPlanRevision := 0;
                   ru_skipInitialSteeringPoll := false; ru_recovering := None; ru_finished := [] |} |}.

(** ** Operations between and during runs *)

Section operations.
Context {T Ls : Type} `{EqDecision Ls}.
Implicit Types (a : Agent T Ls).

(** [Set.add], [Set.delete] *)
Definition subscribe (listener : Ls) a : Agent T Ls :=
  if decide (listener ∈ ag_listeners a) then a else set_listeners (ag_listeners a ++ [listener]) a.
Definition unsubscribe (listener : Ls) a : Agent T Ls :=
  set_listeners (keep (fun l => negb (bool_decide (l = listener))) (ag_listeners a)) a.
Definition steer (group : list AgentMessage) a : Agent T Ls :=
  set_queues (enqueue group (ag_steeringQueue a)) (ag_followUpQueue a) a.
Definition followUp (group : list AgentMessage) a : Agent T Ls :=
  set_queues (ag_steeringQueue a) (enqueue group (ag_followUpQueue a)) a.
Definition clearSteeringQueue a : Agent T Ls := set_queues (clear (ag_steeringQueue a)) (ag_followUpQueue a) a.
Definition clearFollowUpQueue a : Agent T Ls := set_queues (ag_steeringQueue a) (clear (ag_followUpQueue a)) a.
Definition clearAllQueues a : Agent T Ls := clearFollowUpQueue (clearSteeringQueue a).
Definition set_steeringMode (m : QueueMode) a : Agent T Ls :=
  set_queues (set_mode m (ag_steeringQueue a)) (ag_followUpQueue a) a.
Definition set_followUpMode (m : QueueMode) a : Agent T Ls :=
  set_queues (ag_steeringQueue a) (set_mode m (ag_followUpQueue a)) a.
Definition hasQueuedMessages a : bool := hasItems (ag_steeringQueue a) || hasItems (ag_followUpQueue a).
(** The identity of the current run. *)
Definition agent_runId a : option string := RunScope.runId <$> ru_activeRun (ag_runs a).
(** [signal.aborted] of the current run. *)
Definition run_aborted a : bool := match ru_activeRun (ag_runs a) with Some s => RunScope.aborted s | None => false end.
Definition agent_abort a : Agent T Ls :=
  set_runs (set_activeRun (RunScope.requestCancel <$> ru_activeRun (ag_runs a)) (ag_runs a)) a.

Definition reset : M (Agent T Ls) Failure unit :=
  a ← get;
  throw_if (bool_decide (is_Some (ru_activeRun (ag_runs a))))
    (plain_failure "Agent is already processing. Wait for completion before resetting.");;
  modify (set_view {| vw_messages := []; vw_isStreaming := false; vw_streamingMessage := None;
                      vw_pendingToolCalls := ∅; vw_errorMessage := None |});;
  modify clearFollowUpQueue;;
  modify clearSteeringQueue.
End operations.

(** ** The world of a run *)

Record AgentWorld (T Ls X : Type) := { agent : Agent T Ls; outside : X }.
Arguments agent {T Ls X}. Arguments outside {T Ls X}.
Definition on_agent {T Ls X} (f : Agent T Ls -> Agent T Ls) (w : AgentWorld T Ls X) : AgentWorld T Ls X :=
  {| agent := f (agent w); outside := outside w |}.

(** [AgentOptions], the tools and listeners that references stand for, and what the loop
    takes from its surroundings (ToolPipeline, AgentLoop).  The two [prepareNextTurn] hooks
    are [op_prepareNextTurn] (without the context) and [op_prepareNextTurnWithContext]. *)
Record AgentOptions (T Ls X L : Type) := {
  op_tool : T -> AgentTool (AgentWorld T Ls X);
  op_listener : Ls -> AgentEvent -> M (AgentWorld T Ls X) Failure unit;
  op_convertToLlm : option (list AgentMessage -> M (AgentWorld T Ls X) Failure (list AgentMessage));
  op_transformContext : option (list AgentMessage -> M (AgentWorld T Ls X) Failure (list AgentMessage));
  op_streamFn : LoopModel -> ProviderContext (AgentWorld T Ls X) -> LoopConfig -> option string ->
                M (AgentWorld T Ls X) Failure (Response (AgentWorld T Ls X));
  op_getApiKey : option (string -> M (AgentWorld T Ls X) Failure (option string));
  op_onProviderContext : option (LoopModel -> ProviderContext (AgentWorld T Ls X) -> M (AgentWorld T Ls X) Failure unit);
  op_onExecutionEvent : ExecutionEvent -> AgentWorld T Ls X -> AgentWorld T Ls X;
  op_onCompletedOutputItem : option (option string -> nat -> content -> AssistantMessage -> M (AgentWorld T Ls X) Failure unit);
  op_onToolResult : option (ToolResultMessage -> AgentToolCall -> bool -> ToolExecutionOutcome -> M (AgentWorld T Ls X) Failure unit);
  op_beforeToolDispatch : option (option string -> PreparedToolCall (AgentWorld T Ls X) -> M (AgentWorld T Ls X) Failure unit);
  op_beforeToolCall : option (AgentContext (AgentWorld T Ls X) -> AssistantMessage -> AgentToolCall -> json ->
                              M (AgentWorld T Ls X) Failure (json * option BeforeToolCallResult));
  op_afterToolCall : option (AgentContext (AgentWorld T Ls X) -> AssistantMessage -> AgentToolCall -> json -> AgentToolResult -> bool ->
                             M (AgentWorld T Ls X) Failure (option AfterToolCallResult));
  op_admitToolCall : option (option string -> PreparedToolCall (AgentWorld T Ls X) -> M (AgentWorld T Ls X) Failure (option ToolAdmissionResult));
  op_acquire_lease : option (option ResourceRequest -> M (AgentWorld T Ls X) Failure (option L));
  op_release_lease : L -> AgentWorld T Ls X -> AgentWorld T Ls X;
  op_shouldStopAfterTurn : option (CompletedTurn (AgentWorld T Ls X) -> M (AgentWorld T Ls X) Failure bool);
  op_prepareRequest : option (AgentContext (AgentWorld T Ls X) -> LoopModel -> string ->
                              M (AgentWorld T Ls X) Failure (option (AgentLoopTurnUpdate (AgentWorld T Ls X))));
  op_prepareNextTurn : option (M (AgentWorld T Ls X) Failure (option (AgentLoopTurnUpdate (AgentWorld T Ls X))));
  op_prepareNextTurnWithContext : option (CompletedTurn (AgentWorld T Ls X) ->
                              M (AgentWorld T Ls X) Failure (option (AgentLoopTurnUpdate (AgentWorld T Ls X))));
  op_toolExecution : option ToolExecutionMode;
  op_validateToolArguments : AgentTool (AgentWorld T Ls X) -> AgentToolCall -> result Failure json;
  op_completion_order : list AgentToolCall -> AgentWorld T Ls X -> list nat;
  op_Date_now : AgentWorld T Ls X -> number }.
Arguments op_tool {T Ls X L}. Arguments op_listener {T Ls X L}. Arguments op_convertToLlm {T Ls X L}.
Arguments op_transformContext {T Ls X L}. Arguments op_streamFn {T Ls X L}. Arguments op_getApiKey {T Ls X L}.
Arguments op_onProviderContext {T Ls X L}. Arguments op_onExecutionEvent {T Ls X L}.
Arguments op_onCompletedOutputItem {T Ls X L}. Arguments op_onToolResult {T Ls X L}.
Arguments op_beforeToolDispatch {T Ls X L}. Arguments op_beforeToolCall {T Ls X L}.
Arguments op_afterToolCall {T Ls X L}. Arguments op_admitToolCall {T Ls X L}. Arguments op_acquire_lease {T Ls X L}.
Arguments op_release_lease {T Ls X L}. Arguments op_shouldStopAfterTurn {T Ls X L}.
Arguments op_prepareRequest {T Ls X L}. Arguments op_prepareNextTurn {T Ls X L}.
Arguments op_prepareNextTurnWithContext {T Ls X L}. Arguments op_toolExecution {T Ls X L}.
Arguments op_validateToolArguments {T Ls X L}. Arguments op_completion_order {T Ls X L}. Arguments op_Date_now {T Ls X L}.

(** [defaultConvertToLlm] *)
Definition defaultConvertToLlm (messages : list AgentMessage) : list AgentMessage :=
  keep (fun m => match m with UserMsg _ _ | AssistantMsg _ | ToolResultMsg _ => true | _ => false end) messages.

(** [prompt]'s argument *)
Inductive PromptInput :=
| PromptText (input : string) (images : list content)
| PromptMessage (input : AgentMessage)
| PromptMessages (input : list AgentMessage).

(** What an event does to the visible state. *)
Definition reduce_event (event : AgentEvent) (v : AgentView) : AgentView :=
  match event with
  | EvMessageStart message | EvMessageUpdate message _ => set_streaming (Some message) v
  | EvMessageEnd message => set_view_messages (vw_messages v ++ [message]) (set_streaming None v)
  | EvToolStart toolCallId _ _ _ => set_pendingToolCalls ({[toolCallId]} ∪ vw_pendingToolCalls v) v
  | EvToolEnd toolCallId _ _ _ _ => set_pendingToolCalls (vw_pendingToolCalls v ∖ {[toolCallId]}) v
  | EvTurnEnd (AssistantMsg m) _ =>
      match am_errorMessage m with
      | Some e => if bool_decide (e = "") then v else set_errorMessage (Some e) v
      | None => v
      end
  | EvAgentEnd _ => set_streaming None v
  | _ => v
  end.

Section agent.
Context {T Ls X L : Type} (options : AgentOptions T Ls X L).
#[local] Abbreviation W := (AgentWorld T Ls X).
#[local] Abbreviation HostM := (M W Failure).

Definition view : HostM AgentView := fun w => (w, Ok (ag_view (agent w))).
Definition update (f : Agent T Ls -> Agent T Ls) : HostM unit := modify (on_agent f).
Definition agent_now : HostM number := fun w => (w, Ok (op_Date_now options w)).

(** ** Events *)

Fixpoint call_listeners (listeners : list Ls) (event : AgentEvent) : HostM unit :=
  match listeners with
  | [] => mret tt
  | listener :: listeners' => op_listener options listener event;; call_listeners listeners' event
  end.
(** The set of listeners is the one at the start of the delivery. *)
Definition deliver (event : AgentEvent) : HostM unit := fun w =>
  match ru_activeRun (ag_runs (agent w)) with
  | None => (w, Err (plain_failure "Agent listener invoked outside active run"))
  | Some _ => call_listeners (ag_listeners (agent w)) event w
  end.
Definition processEvents (event : AgentEvent) : HostM unit :=
  update (fun a => set_view (reduce_event event (ag_view a)) a);; deliver event.
(** The sink of a resumed run: when the turn of the recovered response ends, its results
    replace what follows the response.  That turn is the first to end. *)
Definition recover_event (event : AgentEvent) (a : Agent T Ls) : Agent T Ls :=
  match ru_recovering (ag_runs a), event with
  | Some index, EvTurnEnd _ toolResults =>
      set_runs (set_recovering None (ag_runs a))
        (set_view (set_view_messages (take (S index) (vw_messages (ag_view a)) ++ (ToolResultMsg <$> toolResults)) (ag_view a)) a)
  | _, _ => a
  end.
Definition processRecoveryEvents (event : AgentEvent) : HostM unit :=
  update (recover_event event);; processEvents event.

(** ** Configuration *)

Definition createContextSnapshot : HostM (AgentContext W) := fun w =>
  let a := agent w in
  let revision := S (ru_nextToolPlanRevision (ag_runs a)) in
  let w := on_agent (set_runs
    {| ru_activeRun := ru_activeRun (ag_runs a); ru_nextRunGeneration := ru_nextRunGeneration (ag_runs a);
       ru_nextToolPlanRevision := revision; ru_skipInitialSteeringPoll := ru_skipInitialSteeringPoll (ag_runs a);
       ru_recovering := ru_recovering (ag_runs a); ru_finished := ru_finished (ag_runs a) |}) w in
  let toolPlan := createToolPlan (op_tool options <$> se_tools (ag_settings a)) revision (agent_runId a) in
  (w, Ok {| cx_systemPrompt := se_systemPrompt (ag_settings a); cx_messages := vw_messages (ag_view a);
            cx_tools := Some (tp_tools toolPlan); cx_toolPlan := Some toolPlan |}).

Definition admit_effect : HostM bool := fun w =>
  (w, Ok (match ru_activeRun (ag_runs (agent w)) with Some scope => RunScope.canAdmit None scope | None => false end)).
(** Without the poll that [continue] has done itself. *)
Definition getSteering : HostM (list AgentMessage) := fun w =>
  let a := agent w in
  if ru_skipInitialSteeringPoll (ag_runs a) then
    (on_agent (set_runs (set_skipInitialSteeringPoll false (ag_runs a))) w, Ok [])
  else let '(q, drained) := drain (ag_steeringQueue a) in (on_agent (set_queues q (ag_followUpQueue a)) w, Ok drained).
Definition getFollowUp : HostM (list AgentMessage) := fun w =>
  let '(q, drained) := drain (ag_followUpQueue (agent w)) in
  (on_agent (set_queues (ag_steeringQueue (agent w)) q) w, Ok drained).

Definition agent_tool_host (sink : AgentEvent -> HostM unit) (stopped : W -> bool) (parent : option string)
    (dispatch : option (option string -> PreparedToolCall W -> HostM unit))
    (admission_hook : option (option string -> PreparedToolCall W -> HostM (option ToolAdmissionResult))) : ToolHost W L :=
  {| emit := sink; report := op_onExecutionEvent options; aborted_now := stopped; Date_now := op_Date_now options;
     toolExecution := Some (default Parallel (op_toolExecution options)); parentToolCallId := parent;
     validateToolArguments := op_validateToolArguments options; beforeToolCall := op_beforeToolCall options;
     afterToolCall := op_afterToolCall options; onToolResult := op_onToolResult options;
     beforeToolDispatch := dispatch; admitEffect := Some admit_effect; admitToolCall := admission_hook;
     acquire_lease := op_acquire_lease options; release_lease := op_release_lease options |}.
(** [createLoopConfig]: the hooks of a run that sends its events to [sink], and the
    configuration it starts with. *)
Definition loop_host (sink : AgentEvent -> HostM unit) (id : option string) : LoopHost W L :=
  {| tool_host := agent_tool_host sink (fun w => run_aborted (agent w)) None (op_beforeToolDispatch options)
                    (op_admitToolCall options);
     completion_order := op_completion_order options; runId := id; apiKey := None;
     streamFunction := op_streamFn options;
     convertToLlm := default (fun messages => mret (defaultConvertToLlm messages)) (op_convertToLlm options);
     transformContext := op_transformContext options;
     getSystemPrompt := Some (fun w => (w, Ok (se_systemPrompt (ag_settings (agent w)))));
     onProviderContext := op_onProviderContext options; getApiKey := op_getApiKey options;
     onCompletedOutputItem := op_onCompletedOutputItem options;
     getSteeringMessages := Some getSteering; getFollowUpMessages := Some getFollowUp;
     prepareNextTurn := match op_prepareNextTurnWithContext options, op_prepareNextTurn options with
                        | Some hook, _ => Some hook
                        | None, Some hook => Some (fun _ => hook)
                        | None, None => None
                        end;
     prepareRequest := op_prepareRequest options;
     getRequestRouting := Some (fun w => (w, Ok (se_routing (ag_settings (agent w)))));
     shouldStopAfterTurn := op_shouldStopAfterTurn options |}.
Definition createLoopConfig (skipInitialSteeringPoll : bool) : HostM LoopConfig := fun w =>
  let settings := ag_settings (agent w) in
  (on_agent (fun a => set_runs (set_skipInitialSteeringPoll skipInitialSteeringPoll (ag_runs a)) a) w,
   Ok {| lc_model := se_model settings;
         lc_reasoning := if bool_decide (se_thinkingLevel settings = "off") then None else Some (se_thinkingLevel settings);
         lc_routing := se_routing settings; lc_stepId := None; lc_toolPlanRevision := None |}).

(** ** Runs *)

Definition failure_message (error : Failure) (aborted : bool) (model : LoopModel) (timestamp : number) : AgentMessage :=
  AssistantMsg (loop_message model "" (fl_message error) (if aborted then StopAborted else StopError) timestamp).
Definition handleRunFailure (error : Failure) (aborted : bool) : HostM unit := fun w =>
  let message := failure_message error aborted (se_model (ag_settings (agent w))) (op_Date_now options w) in
  (processEvents (EvMessageStart message);;
   processEvents (EvMessageEnd message);;
   processEvents (EvTurnEnd message []);;
   processEvents (EvAgentEnd [message])) w.

Definition finishRun (a : Agent T Ls) : Agent T Ls :=
  let r := ag_runs a in
  set_view {| vw_messages := vw_messages (ag_view a); vw_isStreaming := false; vw_streamingMessage := None;
              vw_pendingToolCalls := ∅; vw_errorMessage := vw_errorMessage (ag_view a) |}
    (set_runs {| ru_activeRun := None; ru_nextRunGeneration := ru_nextRunGeneration r;
                 ru_nextToolPlanRevision := ru_nextToolPlanRevision r;
                 ru_skipInitialSteeringPoll := ru_skipInitialSteeringPoll r; ru_recovering := ru_recovering r;
                 ru_finished := ru_finished r ++ option_list (RunScope.settle <$> ru_activeRun r) |} a).

Definition startRun (a : Agent T Ls) : Agent T Ls :=
  let generation := ru_nextRunGeneration (ag_runs a) + 1 in
  let scope := (RunScope.activate (RunScope.new_RunScope ("run-" +:+ pretty generation) generation)).1 in
  set_view {| vw_messages := vw_messages (ag_view a); vw_isStreaming := true; vw_streamingMessage := None;
              vw_pendingToolCalls := vw_pendingToolCalls (ag_view a); vw_errorMessage := None |}
    (set_runs {| ru_activeRun := Some scope; ru_nextRunGeneration := generation;
                 ru_nextToolPlanRevision := ru_nextToolPlanRevision (ag_runs a);
                 ru_skipInitialSteeringPoll := ru_skipInitialSteeringPoll (ag_runs a);
                 ru_recovering := ru_recovering (ag_runs a); ru_finished := ru_finished (ag_runs a) |} a).

Definition busy (a : Agent T Ls) : bool := bool_decide (is_Some (ru_activeRun (ag_runs a))).
Definition refuse_when_busy (message : string) : HostM unit :=
  fun w => (w, if busy (agent w) then Err (plain_failure message) else Ok tt).

(** The [try] of [runWithLifecycle].  An executor that returns [None] has run out of fuel: its
    run is not over. *)
Definition run_to_end {A} (executor : HostM (option A)) : HostM (option unit) := fun w =>
  match executor w with
  | (w, Ok None) => (w, Ok None)
  | (w, Ok (Some _)) => (on_agent finishRun w, Ok (Some tt))
  | (w, Err error) =>
      let '(w, r) := handleRunFailure error (run_aborted (agent w)) w in
      (on_agent finishRun w, match r with Ok _ => Ok (Some tt) | Err e => Err e end)
  end.
Definition runWithLifecycle {A} (executor : HostM (option A)) : HostM (option unit) :=
  refuse_when_busy "Agent is already processing.";;
  update startRun;;
  run_to_end executor.

Definition current_runId : HostM (option string) := fun w => (w, Ok (agent_runId (agent w))).
Definition runPromptMessages (fuel : nat) (messages : list AgentMessage) (skipInitialSteeringPoll : bool) : HostM (option unit) :=
  runWithLifecycle (
    context ← createContextSnapshot;
    config ← createLoopConfig skipInitialSteeringPoll;
    id ← current_runId;
    runAgentLoop (loop_host processEvents id) fuel messages context config).
Definition runContinuation (fuel : nat) : HostM (option unit) :=
  runWithLifecycle (
    context ← createContextSnapshot;
    config ← createLoopConfig false;
    id ← current_runId;
    runAgentLoopContinue (loop_host processEvents id) fuel context config).

Definition normalizePromptInput (input : PromptInput) : HostM (list AgentMessage) := fun w =>
  (w, Ok (match input with
          | PromptText text images => [UserMsg (Blocks (TextContent text None :: images)) (op_Date_now options w)]
          | PromptMessage message => [message]
          | PromptMessages messages => messages
          end)).
Definition prompt (fuel : nat) (input : PromptInput) : HostM (option unit) :=
  refuse_when_busy "Agent is already processing a prompt. Use steer() or followUp() to queue messages, or wait for completion.";;
  messages ← normalizePromptInput input;
  runPromptMessages fuel messages false.

(** Whether the transcript ends with a response that only queued messages can follow. *)
Definition needs_messages (messages : list AgentMessage) : bool :=
  match last messages with
  | Some (AssistantMsg m) => negb (am_isResponseCheckpoint m && bool_decide (am_stopReason m = StopStop))
  | _ => false
  end.
Definition drain_steering : HostM (list AgentMessage) := fun w =>
  let '(q, drained) := drain (ag_steeringQueue (agent w)) in
  (on_agent (set_queues q (ag_followUpQueue (agent w))) w, Ok drained).
Definition continue (fuel : nat) : HostM (option unit) :=
  refuse_when_busy "Agent is already processing. Wait for completion before continuing.";;
  v ← view;
  if bool_decide (vw_messages v = []) then throw (plain_failure "No messages to continue from")
  else if needs_messages (vw_messages v) then
    queuedSteering ← drain_steering;
    match queuedSteering with
    | _ :: _ => runPromptMessages fuel queuedSteering true
    | [] =>
        queuedFollowUps ← getFollowUp;
        match queuedFollowUps with
        | _ :: _ => runPromptMessages fuel queuedFollowUps false
        | [] => throw (plain_failure "Cannot continue from message role: assistant")
        end
    end
  else runContinuation fuel.

(** [assistantIndex]: where the transcript holds the response, by identity. *)
Definition check_recovery (assistantIndex : option nat) (assistant : AssistantMessage)
    (completedResults : list ToolResultMessage) (messages : list AgentMessage) : result Failure nat :=
  match assistantIndex with
  | None => Err (plain_failure "Recovery assistant is not in the transcript")
  | Some index =>
      let after := drop (S index) messages in
      let calls := tool_calls assistant in
      let ids := tr_toolCallId <$> completedResults in
      if existsb (fun m => match m with ToolResultMsg _ => false | _ => true end) after
      then Err (plain_failure "Recovery assistant has subsequent conversation messages")
      else if bool_decide (calls = []) || negb (bool_decide (NoDup (tc_id <$> calls))) ||
              match am_stopReason assistant with StopError | StopAborted | StopLength => true | _ => false end
      then Err (plain_failure "Invalid recovery assistant")
      else if negb (bool_decide (NoDup ids)) ||
              existsb (fun r => negb (existsb (fun call => bool_decide (tc_id call = tr_toolCallId r)
                                                           && bool_decide (tc_name call = tr_toolName r)) calls)) completedResults ||
              existsb (fun m => match m with ToolResultMsg r => negb (bool_decide (tr_toolCallId r ∈ ids)) | _ => false end) after
      then Err (plain_failure "Invalid recovered tool results")
      else Ok index
  end.
(** The transcript a resumed run starts from. *)
Definition recovered_state (index : nat) (completedResults : list ToolResultMessage) (a : Agent T Ls) : Agent T Ls :=
  set_runs (set_recovering (Some index) (ag_runs a))
    (set_view (set_view_messages (take (S index) (vw_messages (ag_view a)) ++ (ToolResultMsg <$> completedResults)) (ag_view a)) a).
Definition resumeToolCalls (fuel : nat) (assistantIndex : option nat) (assistant : AssistantMessage)
    (completedResults : list ToolResultMessage) : HostM (option unit) :=
  refuse_when_busy "Agent is already processing.";;
  v ← view;
  index ← lift (check_recovery assistantIndex assistant completedResults (vw_messages v));
  update (recovered_state index completedResults);;
  runWithLifecycle (
    context ← createContextSnapshot;
    config ← createLoopConfig false;
    id ← current_runId;
    runAgentLoopResumeTools (loop_host processRecoveryEvents id) fuel context (Some index) assistant completedResults config).

(** ** Host-issued calls *)

(** A failure before the target's [execute] started. *)
Definition before_execution (error : Failure) : Failure :=
  {| fl_message := fl_message error;
     fl_toolError := Some (new_AgentToolError (JsonObject [])
       (Some {| eo_nestedUnknown := false; eo_executionOutcome := Some NotStarted |}));
     fl_structuredContent := None; fl_nestedCalls := None; fl_usage := None |}.
Definition not_started {A} (f : HostM A) : HostM A := try_catch f (fun error => throw (before_execution error)).
Definition last_assistant (messages : list AgentMessage) : option AssistantMessage :=
  head (omap (fun m => match m with AssistantMsg m => Some m | _ => None end) (reverse messages)).
Definition no_active_run (toolCall : AgentToolCall) : FinalizedToolCallOutcome :=
  {| fz_toolCall := toolCall; fz_result := createErrorToolResult "Nested tools require an active agent run" None;
     fz_isError := true; fz_executionOutcome := NotStarted; fz_message := None |}.
Definition nested_failure (toolCall : AgentToolCall) (tools : list (AgentTool W)) (error : Failure) : FinalizedToolCallOutcome :=
  {| fz_toolCall := toolCall;
     fz_result := createErrorToolResult (fl_message error) (te_details <$> fl_toolError error); fz_isError := true;
     fz_executionOutcome := getToolErrorOutcome (fl_toolError error) (tc_name toolCall) (tc_arguments toolCall)
                              (replay_like <$> find_tool (tc_name toolCall) tools);
     fz_message := None |}.
(** [stopped] reads the caller's signal. *)
Definition agent_runToolCall (toolCall : AgentToolCall) (tools : list (AgentTool W)) (parentId : string) (stopped : W -> bool)
    (onUpdate : option (AgentToolResult -> HostM unit)) : HostM FinalizedToolCallOutcome := fun w =>
  let a := agent w in
  match ru_activeRun (ag_runs a), last_assistant (vw_messages (ag_view a)) with
  | Some _, Some assistant =>
      let sink event :=
        match event, onUpdate with
        | EvToolUpdate _ _ _ partialResult _, Some hook => hook partialResult
        | _, _ => mret tt
        end;;
        processEvents event in
      let dispatch parent prepared :=
        match op_beforeToolDispatch options with Some hook => not_started (hook parent prepared) | None => mret tt end in
      let host := agent_tool_host sink stopped (Some parentId) (Some dispatch)
                    ((fun hook parent prepared => not_started (hook parent prepared)) <$> op_admitToolCall options) in
      let context := {| cx_systemPrompt := se_systemPrompt (ag_settings a); cx_messages := vw_messages (ag_view a);
                        cx_tools := Some tools; cx_toolPlan := None |} in
      try_catch (runToolCall host context assistant toolCall) (fun error => mret (nested_failure toolCall tools error)) w
  | _, _ => (w, Ok (no_active_run toolCall))
  end.
End agent.
