(* ===== verification/AgentTheorems.v ===== *)
(** * What the agent promises (packages/agent/src/agent.ts)

    The queues of pending messages first, then the runs and what the agent shows of them.

    [PendingMessageQueue] delivers what is queued in order and exactly once, and never splits
    a group. *)
From stdpp Require Import gmap.
From S2P Require Import Prelude JsNumber SessionTypes JsonNumber JsonText Reducer Context ResourceScheduler.
From S2P Require Import ToolExecution DurableJson Retry ToolPipeline ToolBatch AgentLoop AgentLoopTheorems.
From S2P Require Import AgentLoopProgress LoopFrame Agent.

Inductive queue_op :=
| QueueEnqueue (group : list AgentMessage)
| QueueDrain
| QueueClear
| QueueMode_set (m : QueueMode).

(** A queue with what it delivered. *)
Definition run_queue_op (st : PendingMessageQueue * list (list AgentMessage)) (op : queue_op)
  : PendingMessageQueue * list (list AgentMessage) :=
  match op with
  | QueueEnqueue group => (enqueue group st.1, st.2)
  | QueueDrain => let '(q, drained) := drain st.1 in (q, st.2 ++ [drained])
  | QueueClear => (clear st.1, st.2)
  | QueueMode_set m => (set_mode m st.1, st.2)
  end.
Definition run_queue (m : QueueMode) (ops : list queue_op) : PendingMessageQueue * list (list AgentMessage) :=
  foldl run_queue_op (new_queue m, []) ops.

(** The groups that were queued, the empty ones left out. *)
Definition queued_group (op : queue_op) : option (list AgentMessage) :=
  match op with QueueEnqueue (m :: ms) => Some (m :: ms) | _ => None end.
Definition queued (ops : list queue_op) : list (list AgentMessage) := omap queued_group ops.
Definition sets_all (m : QueueMode) (ops : list queue_op) : Prop :=
  m = ModeAll \/ QueueMode_set ModeAll ∈ ops.

(** What a history of operations leaves: the groups of every delivery, then those pending. *)
Record delivered (m : QueueMode) (ops : list queue_op) (q : PendingMessageQueue) (gss : list (list (list AgentMessage))) : Prop := {
  de_order : concat gss ++ groups q `sublist_of` queued ops;
  de_all : QueueClear ∉ ops -> concat gss ++ groups q = queued ops;
  de_nonempty : Forall (fun g => g <> []) (groups q);
  de_atomic : ~ sets_all m ops -> mode q = OneAtATime /\ Forall (fun gs => (length gs <= 1)%nat) gss }.

Lemma queued_snoc ops op : queued (ops ++ [op]) = queued ops ++ option_list (queued_group op).
Proof. unfold queued. rewrite omap_app. simpl. by destruct (queued_group op). Qed.
Lemma sets_all_snoc m ops op : sets_all m ops -> sets_all m (ops ++ [op]).
Proof. intros [H|H]; [by left|right]. apply elem_of_app. by left. Qed.
Lemma clear_snoc ops op : QueueClear ∉ (ops ++ [op]) -> (QueueClear ∉ ops) /\ op <> QueueClear.
Proof. rewrite elem_of_app, list_elem_of_singleton. naive_solver. Qed.

Section step.
Context (m : QueueMode) (ops : list queue_op) (q : PendingMessageQueue) (gss : list (list (list AgentMessage))).
Context (D : delivered m ops q gss).

(** An operation that delivers nothing and leaves the mode. *)
Lemma delivered_pending op q' :
  groups q' = groups q ++ option_list (queued_group op) -> mode q' = mode q -> op <> QueueClear ->
  delivered m (ops ++ [op]) q' gss.
Proof.
  destruct D as [A B C E]. intros Hg Hm Hc. split.
  - rewrite Hg, queued_snoc, app_assoc. by apply sublist_app.
  - intros [Hn _]%clear_snoc. by rewrite Hg, queued_snoc, app_assoc, B.
  - rewrite Hg. apply Forall_app. split; [done|]. destruct op as [[|x xs]| | |]; by repeat constructor.
  - intros Hs. rewrite Hm. apply E. by intros H%(sets_all_snoc _ _ op).
Qed.
Lemma delivered_drain : exists gs, (drain q).2 = concat gs /\ delivered m (ops ++ [QueueDrain]) (drain q).1 (gss ++ [gs]).
Proof.
  destruct D as [A B C E]. assert (exists gs, (drain q).2 = concat gs /\ gs ++ groups (drain q).1 = groups q /\
    mode (drain q).1 = mode q /\ (mode q = OneAtATime -> length gs <= 1)%nat) as (gs & Hd & Hg & Hm & Hl).
  { unfold drain. destruct (mode q) eqn:Hm; [exists (groups q); rewrite app_nil_r; split_and!; done|].
    destruct (groups q) as [|g rest] eqn:Hg; [by exists []; simpl; rewrite Hg; split_and!; auto|]. exists [g]. simpl. rewrite app_nil_r. split_and!; auto. }
  exists gs. split; [done|].
  assert (concat (gss ++ [gs]) ++ groups (drain q).1 = concat gss ++ groups q) as Heq
    by (rewrite concat_app; simpl; by rewrite app_nil_r, <- app_assoc, Hg).
  split; rewrite ?Heq, ?queued_snoc; simpl; rewrite ?app_nil_r; [done| | |].
  - intros [Hn _]%clear_snoc. auto.
  - rewrite <- Hg in C. by apply Forall_app in C as [_ C].
  - intros Hs. destruct E as [E1 E2]; [by intros H%(sets_all_snoc _ _ QueueDrain)|]. rewrite Hm. split; [done|].
    apply Forall_app. split; [done|]. constructor; [auto|done].
Qed.
Lemma delivered_step op drained :
  exists gss', (run_queue_op (q, drained) op).2 = drained ++ (@concat AgentMessage <$> drop (length gss) gss') /\
    take (length gss) gss' = gss /\ delivered m (ops ++ [op]) (run_queue_op (q, drained) op).1 gss'.
Proof.
  destruct op as [g| | |m'].
  - exists gss. rewrite drop_all, firstn_all, app_nil_r. split_and!; [done|done|].
    apply delivered_pending; [|by destruct g|done]. destruct g; simpl; by rewrite ?app_nil_r.
  - destruct delivered_drain as (gs & Hd & HD). exists (gss ++ [gs]). rewrite drop_app_length, take_app_length. simpl.
    destruct (drain q) as [q' d]. simpl in *. by rewrite Hd.
  - exists gss. rewrite drop_all, firstn_all, app_nil_r. split_and!; [done|done|]. destruct D as [A B C E].
    split; simpl; rewrite ?queued_snoc; simpl; rewrite ?app_nil_r; [|by intros [_ ?]%clear_snoc|done|].
    + etrans; [|exact A]. by apply sublist_inserts_r.
    + intros Hs. apply E. by intros H%(sets_all_snoc _ _ QueueClear).
  - exists gss. rewrite drop_all, firstn_all, app_nil_r. split_and!; [done|done|]. destruct D as [A B C E].
    split; simpl; rewrite ?queued_snoc; simpl; rewrite ?app_nil_r; [done|by intros [? _]%clear_snoc; auto|done|].
    intros Hs. destruct E as [_ E]; [by intros H%(sets_all_snoc _ _ (QueueMode_set m'))|]. split; [|done].
    destruct m'; [|done]. destruct Hs. right. apply elem_of_app. right. by left.
Qed.
End step.

(** The queues lose, duplicate, reorder and split nothing: after any sequence of
    operations on a queue, every delivery is the concatenation of whole queued groups, the
    groups delivered and then those pending are a subsequence of the queued ones, and all of
    them when the queue was never cleared; a delivery holds at most one group unless the
    mode [all] was chosen; and a queue with pending groups delivers something. *)
Theorem pending_queue_delivery m ops :
  let '(q, deliveries) := run_queue m ops in
  exists gss, deliveries = @concat AgentMessage <$> gss /\ delivered m ops q gss /\ (hasItems q = true <-> (drain q).2 <> []).
Proof.
  destruct (run_queue m ops) as [q deliveries] eqn:Hq.
  assert (exists gss, deliveries = @concat AgentMessage <$> gss /\ delivered m ops q gss) as (gss & Hd & D).
  { revert q deliveries Hq. induction ops as [|op ops IH] using rev_ind; intros q deliveries Hq.
    - injection Hq as <- <-. exists []. split; [done|]. split; [done|done|constructor|]. intros Hs.
      split; [|constructor]. destruct m; [by destruct Hs; left|done].
    - unfold run_queue in Hq. rewrite foldl_app in Hq. simpl in Hq. fold (run_queue m ops) in Hq.
      destruct (run_queue m ops) as [q0 d0]. destruct (IH _ _ eq_refl) as (gss & -> & D).
      destruct (delivered_step m ops q0 gss D op (@concat AgentMessage <$> gss)) as (gss' & H2 & Ht & D'). rewrite Hq in H2, D'. simpl in *.
      exists gss'. split; [|done]. rewrite H2, <- fmap_app. f_equal. rewrite <- Ht at 1. by rewrite take_drop. }
  exists gss. split_and!; [done|done|]. destruct D as [_ _ Hne _]. unfold hasItems, drain.
  rewrite negb_true_iff, bool_decide_eq_false. destruct (mode q), (groups q) as [|g gs]; simpl; try done.
  - apply Forall_cons in Hne as [Hg _]. by destruct g.
  - apply Forall_cons in Hne as [Hg _]. done.
Qed.

(** * What the agent shows of its runs

    A listener that subscribed first and records every event sees the whole of a run: the
    visible state of [Agent] is a function of the events, and the agent is idle again
    whatever happened. *)

(** ** The view as a function of the events *)

(** The view, and the index a resumed run has still to replace. *)
Definition recover_view (event : AgentEvent) (st : AgentView * option nat) : AgentView * option nat :=
  match st.2, event with
  | Some index, EvTurnEnd _ toolResults =>
      (set_view_messages (take (S index) (vw_messages st.1) ++ (ToolResultMsg <$> toolResults)) st.1, None)
  | _, _ => st
  end.
Definition view_step (recovery : bool) (st : AgentView * option nat) (event : AgentEvent) : AgentView * option nat :=
  let st := if recovery then recover_view event st else st in (reduce_event event st.1, st.2).
Definition view_of (recovery : bool) (evs : list AgentEvent) (st : AgentView * option nat) : AgentView * option nat :=
  foldl (view_step recovery) st evs.

Lemma reduce_messages event v :
  vw_messages (reduce_event event v) = vw_messages v ++ option_list (ended_message event).
Proof. destruct event as [| | |[]| | | | | |]; simpl; rewrite ?app_nil_r; try done. by repeat case_match. Qed.
(** Without recovery, the transcript grows by the messages that end. *)
Lemma view_messages evs st : vw_messages (view_of false evs st).1 = vw_messages st.1 ++ ended evs.
Proof.
  unfold view_of. revert st. induction evs as [|e evs IH]; intros st; simpl; [by rewrite app_nil_r|].
  rewrite IH. simpl. rewrite reduce_messages, <- app_assoc. f_equal. unfold ended. simpl. by destruct (ended_message e).
Qed.
Lemma view_of_app recovery evs evs' st : view_of recovery (evs ++ evs') st = view_of recovery evs' (view_of recovery evs st).
Proof. apply foldl_app. Qed.
(** A recovery is over once its turn ends, and does nothing before. *)
Lemma recovered_view evs st : st.2 = None -> view_of true evs st = view_of false evs st.
Proof.
  unfold view_of. revert st. induction evs as [|e evs IH]; intros [v r] Hr; simpl in *; [done|]. subst r.
  change (foldl (view_step true) (reduce_event e v, None) evs = foldl (view_step false) (reduce_event e v, None) evs).
  by apply IH.
Qed.
Lemma recovering_view evs v index :
  Forall (fun e => match e with EvTurnEnd _ _ => False | _ => True end) evs ->
  view_of true evs (v, Some index) = ((view_of false evs (v, Some index)).1, Some index).
Proof.
  unfold view_of. revert v. induction evs as [|e evs IH]; intros v Hevs; [done|].
  apply Forall_cons in Hevs as [He Hevs]. simpl.
  assert (recover_view e (v, Some index) = (v, Some index)) as Hrec by (destruct e; done).
  unfold view_step at 2 4. rewrite Hrec. by apply IH.
Qed.

Section runs.
Context {T Ls X L : Type} `{EqDecision Ls} (options : AgentOptions T Ls X L) (recorder : Ls) (log : X -> list AgentEvent).
#[local] Abbreviation W := (AgentWorld T Ls X).
Implicit Types (w : W).

Definition logged_events w : list AgentEvent := log (outside w).
Definition view_state w : AgentView * option nat := (ag_view (agent w), ru_recovering (ag_runs (agent w))).
(** A scope that may only have been cancelled. *)
Definition same_scope (s s' : RunScope.RunScope) : Prop :=
  RunScope.runId s' = RunScope.runId s /\ RunScope.generation s' = RunScope.generation s /\
  RunScope.state s' = RunScope.state s /\ RunScope.resolved s' = RunScope.resolved s.
Definition same_run (s s' : option RunScope.RunScope) : Prop :=
  match s, s' with Some s, Some s' => same_scope s s' | None, None => True | _, _ => False end.
#[export] Instance same_run_preorder : PreOrder same_run.
Proof.
  split.
  - intros [s|]; [by split|done].
  - intros [s1|] [s2|] [s3|]; simpl; unfold same_scope; [|done..]. intros (? & ? & ? & ?) (? & ? & ? & ?). split_and!; congruence.
Qed.

(** What neither events nor hooks change during a run. *)
Record same_bookkeeping w w' : Prop := {
  sb_listeners : ag_listeners (agent w') = ag_listeners (agent w);
  sb_generation : ru_nextRunGeneration (ag_runs (agent w')) = ru_nextRunGeneration (ag_runs (agent w));
  sb_finished : ru_finished (ag_runs (agent w')) = ru_finished (ag_runs (agent w));
  sb_run : same_run (ru_activeRun (ag_runs (agent w))) (ru_activeRun (ag_runs (agent w'))) }.
#[export] Instance same_bookkeeping_preorder : PreOrder same_bookkeeping.
Proof.
  split; [by split|]. intros w1 w2 w3 [A B C D] [A' B' C' D']. split; [congruence..|by etrans].
Qed.

(** What a hook may do: queue messages, cancel the run, change the settings, act outside. *)
Record undisturbed w w' : Prop := {
  un_log : logged_events w' = logged_events w;
  un_view : view_state w' = view_state w;
  un_book : same_bookkeeping w w' }.
#[export] Instance undisturbed_preorder : PreOrder undisturbed.
Proof.
  split; [by split|]. intros w1 w2 w3 [A B C] [A' B' C']. split; [congruence..|by etrans].
Qed.

(** The recorder is the first listener, and a run is active. *)
Definition recorded w : Prop :=
  is_Some (ru_activeRun (ag_runs (agent w))) /\ exists rest, ag_listeners (agent w) = recorder :: rest /\ recorder ∉ rest.
#[export] Instance recorded_dec w : Decision (recorded w).
Proof.
  destruct (ru_activeRun (ag_runs (agent w))) as [s|] eqn:Hs; [|right; intros [[s ?] _]; congruence].
  destruct (ag_listeners (agent w)) as [|l rest] eqn:Hl; [right; intros [_ (rest & ? & _)]; congruence|].
  destruct (decide (l = recorder /\ recorder ∉ rest)) as [[-> Hn]|Hn].
  - left. split; [by eexists|by exists rest].
  - right. intros [_ (rest' & H & Hn')]. rewrite Hl in H. injection H as -> ->. by apply Hn.
Defined.
(** What is sent to a recorded agent is logged, and its view follows the log. *)
Definition follows_log (recovery : bool) w w' : Prop :=
  recorded w -> exists evs, logged_events w' = logged_events w ++ evs /\
    view_state w' = view_of recovery evs (view_state w) /\ same_bookkeeping w w'.

Lemma same_bookkeeping_recorded w w' : same_bookkeeping w w' -> recorded w -> recorded w'.
Proof.
  intros [A B C D] [[s Hs] (rest & Hl & Hn)]. rewrite Hs in D. split; [|exists rest; by rewrite A].
  destruct (ru_activeRun (ag_runs (agent w'))); [by eexists|done].
Qed.
Lemma same_bookkeeping_sym w w' : same_bookkeeping w w' -> same_bookkeeping w' w.
Proof.
  intros [A B C D]. split; [done..|]. revert D. clear.
  destruct (ru_activeRun (ag_runs (agent w))), (ru_activeRun (ag_runs (agent w'))); simpl; [|done..].
  intros (? & ? & ? & ?). by split_and!.
Qed.
#[export] Instance follows_log_preorder recovery : PreOrder (follows_log recovery).
Proof.
  split.
  - intros w _. exists []. by rewrite app_nil_r.
  - intros w1 w2 w3 H H' Hr. destruct (H Hr) as (evs & Hl & Hv & Hb).
    destruct (H' (same_bookkeeping_recorded _ _ Hb Hr)) as (evs' & Hl' & Hv' & Hb'). exists (evs ++ evs').
    split_and!; [by rewrite Hl', Hl, app_assoc|by rewrite Hv', Hv, view_of_app|by etrans].
Qed.
Lemma undisturbed_follows recovery w w' : undisturbed w w' -> follows_log recovery w w'.
Proof. intros [A B C] _. exists []. by rewrite app_nil_r. Qed.

(** ** Laws of the options *)

(** The recorder appends to the log; no other listener, hook or tool touches the log, the
    view, the listeners or the bookkeeping of runs.  The hooks are those of the loop with
    silent listeners. *)
Record lawful : Prop := {
  lw_recorder : forall e w, exists x, op_listener options recorder e w = ({| agent := agent w; outside := x |}, Ok tt) /\
    log x = logged_events w ++ [e];
  lw_listeners : forall l e, l <> recorder -> steady undisturbed (op_listener options l e);
  lw_host : forall id, steady_host undisturbed (loop_host options (fun _ => mret tt) id);
  lw_tools : forall t, steady_tool undisturbed (op_tool options t) }.
Context (Hlaw : lawful).

Definition sink (recovery : bool) : AgentEvent -> M W Failure unit :=
  if recovery then processRecoveryEvents options else processEvents options.

Lemma call_listeners_steady listeners e :
  recorder ∉ listeners -> steady undisturbed (call_listeners options listeners e).
Proof.
  induction listeners as [|l ls IH]; intros Hn; simpl; [by apply (moves_ret _)|]. apply not_elem_of_cons in Hn as [Hne Hn].
  apply steady_bind; [apply _|by apply (lw_listeners Hlaw), not_eq_sym|intros _; by apply IH].
Qed.
Lemma deliver_recorded e w :
  recorded w -> let w' := (deliver options e w).1 in
  logged_events w' = logged_events w ++ [e] /\ view_state w' = view_state w /\ same_bookkeeping w w'.
Proof.
  intros [[s Hs] (rest & Hl & Hn)]. unfold deliver. rewrite Hs, Hl. simpl. unfold mbind, M_bind.
  destruct (lw_recorder Hlaw e w) as (x & -> & Hx). set (w1 := {| agent := agent w; outside := x |}).
  destruct (call_listeners_steady rest e Hn w1) as [[A B []] _]. split_and!; [by rewrite A|done|by split].
Qed.
Definition reduced (recovery : bool) (e : AgentEvent) w : W :=
  on_agent (fun a => set_view (reduce_event e (ag_view a)) a) (if recovery then on_agent (recover_event e) w else w).
Lemma sink_delivers recovery e w : sink recovery e w = deliver options e (reduced recovery e w).
Proof. by destruct recovery. Qed.
Lemma reduced_view recovery e w :
  logged_events (reduced recovery e w) = logged_events w /\
  view_state (reduced recovery e w) = view_step recovery (view_state w) e /\ same_bookkeeping w (reduced recovery e w).
Proof.
  destruct recovery; [|by split_and!; [..|split]].
  unfold reduced, view_step, view_state, recover_view, recover_event. simpl.
  destruct (ru_recovering (ag_runs (agent w))) as [i|] eqn:Hi; [destruct e|]; simpl; rewrite ?Hi;
    (split_and!; [done|done|split; simpl; rewrite ?Hi; reflexivity]).
Qed.
Lemma sink_steady recovery e : steady (follows_log recovery) (sink recovery e).
Proof.
  intros w. split; [|by destruct (sink recovery e w).2]. intros Hr. exists [e]. rewrite sink_delivers.
  destruct (reduced_view recovery e w) as (Hl & Hv & Hb).
  destruct (deliver_recorded e _ (same_bookkeeping_recorded _ _ Hb Hr)) as (Hl' & Hv' & Hb').
  split_and!; [by rewrite Hl', Hl|by rewrite Hv', Hv|by etrans].
Qed.

(** ** The loop of a run *)

Lemma loop_host_follows recovery id : steady_host (follows_log recovery) (loop_host options (sink recovery) id).
Proof.
  pose proof (undisturbed_follows recovery) as Hmono. destruct (lw_host Hlaw id) as [[] ?].
  split; [split|..]; simpl in *; intros; eauto using steady_mono, sink_steady.
  all: eapply moves_mono; [exact Hmono|by eauto|intros r]; eauto using steady_response_mono, steady_update_mono.
Qed.

(** ** Lifecycles *)

(** The scope of the next run, which starts with no hook called yet. *)
Definition started w : W := on_agent startRun w.
Lemma started_recorded w rest : ag_listeners (agent w) = recorder :: rest -> recorder ∉ rest -> recorded (started w).
Proof. intros Hl Hn. split; [by eexists|by exists rest]. Qed.
Definition finished_view (v : AgentView) : AgentView :=
  {| vw_messages := vw_messages v; vw_isStreaming := false; vw_streamingMessage := None; vw_pendingToolCalls := ∅;
     vw_errorMessage := vw_errorMessage v |}.
Definition started_view (v : AgentView) : AgentView :=
  {| vw_messages := vw_messages v; vw_isStreaming := true; vw_streamingMessage := None;
     vw_pendingToolCalls := vw_pendingToolCalls v; vw_errorMessage := None |}.

(** What remains of a run that is over: its events are logged, the view is [v] with nothing
    pending, no run is active, and its scope is settled. *)
Record run_over w w' (evs : list AgentEvent) (v : AgentView) : Prop := {
  ro_log : logged_events w' = logged_events w ++ evs;
  ro_view : ag_view (agent w') = finished_view v;
  ro_listeners : ag_listeners (agent w') = ag_listeners (agent w);
  ro_idle : ru_activeRun (ag_runs (agent w')) = None;
  ro_generation : ru_nextRunGeneration (ag_runs (agent w')) = ru_nextRunGeneration (ag_runs (agent w)) + 1;
  ro_settled : exists s, ru_finished (ag_runs (agent w')) = ru_finished (ag_runs (agent w)) ++ [s] /\
    RunScope.runId s = "run-" +:+ pretty (ru_nextRunGeneration (ag_runs (agent w)) + 1) /\
    RunScope.state s = RunScope.Settled /\ RunScope.resolved s = true }.

Lemma finishRun_over w w1 evs v :
  logged_events w1 = logged_events w ++ evs -> ag_view (agent w1) = v -> same_bookkeeping (started w) w1 ->
  run_over w (on_agent finishRun w1) evs v.
Proof.
  intros Hl <- [A B C D]. simpl in A, B, C, D. destruct (ru_activeRun (ag_runs (agent w1))) as [s|] eqn:Hs; [|done].
  destruct D as (Hid & Hg & Hst & Hres). simpl in Hst. split; simpl; [done..|].
  exists (RunScope.settle s). rewrite Hs, C. split; [done|]. unfold RunScope.settle. rewrite Hst. by split_and!.
Qed.

(** The events of a failure. *)
Definition failure_events (message : AgentMessage) : list AgentEvent :=
  [EvMessageStart message; EvMessageEnd message; EvTurnEnd message []; EvAgentEnd [message]].
Definition is_failure (m : AgentMessage) : Prop :=
  exists error aborted model timestamp, m = failure_message error aborted model timestamp.

(** Every event of a sequence is logged, when none of the listeners throws. *)
Definition logs {A} (f : M W Failure A) (evs : list AgentEvent) : Prop :=
  forall w w' a, recorded w -> f w = (w', Ok a) -> logged_events w' = logged_events w ++ evs /\
    view_state w' = view_of false evs (view_state w) /\ same_bookkeeping w w'.
Lemma logs_event e : logs (processEvents options e) [e].
Proof.
  intros w w' a Hr H. destruct (reduced_view false e w) as (Hl & Hv & Hb).
  destruct (deliver_recorded e _ (same_bookkeeping_recorded _ _ Hb Hr)) as (Hl' & Hv' & Hb').
  rewrite <- sink_delivers in Hl', Hv', Hb'. change (sink false) with (processEvents options) in Hl', Hv', Hb'.
  rewrite H in Hl', Hv', Hb'. cbn [fst] in Hl', Hv', Hb'.
  split_and!; [by rewrite Hl', Hl|by rewrite Hv', Hv|by etrans].
Qed.
Lemma logs_then {A B} (f : M W Failure A) (g : M W Failure B) evs evs' : logs f evs -> logs g evs' -> logs (f;; g) (evs ++ evs').
Proof.
  intros Hf Hg w w' b Hr (w1 & a & H1 & H2)%M_bind_Ok. destruct (Hf _ _ _ Hr H1) as (Hl & Hv & Hb).
  destruct (Hg _ _ _ (same_bookkeeping_recorded _ _ Hb Hr) H2) as (Hl' & Hv' & Hb').
  split_and!; [by rewrite Hl', Hl, app_assoc|by rewrite Hv', Hv, view_of_app|by etrans].
Qed.

Lemma handleRunFailure_logs error aborted w w' r :
  recorded w -> handleRunFailure options error aborted w = (w', r) ->
  exists evs, logged_events w' = logged_events w ++ evs /\ view_state w' = view_of false evs (view_state w) /\
    same_bookkeeping w w' /\ (r = Ok tt -> exists m, is_failure m /\ evs = failure_events m).
Proof.
  intros Hr H. unfold handleRunFailure in H. set (m := failure_message _ _ _ _) in H.
  assert (is_failure m) as Hm by (by repeat eexists). clearbody m. destruct r as [[]|e].
  - match type of H with ?f w = _ => assert (logs f (failure_events m)) as Hf end.
    { do 3 (apply (logs_then _ _ [_]); [apply logs_event|]). apply logs_event. }
    destruct (Hf _ _ _ Hr H) as (Hl & Hv & Hb). exists (failure_events m). split_and!; [done..|]. intros _. by exists m.
  - match type of H with ?f w = _ => assert (steady (follows_log false) f) as Hf end.
    { do 3 (apply steady_bind; [apply _|apply (sink_steady false)|intros _]). apply (sink_steady false). }
    destruct (Hf w) as [Hw _]. rewrite H in Hw. destruct (Hw Hr) as (evs & ?). exists evs. split_and!; naive_solver.
Qed.

(** A run of any executor that acts on the world through its sink ends, unless the fuel runs
    out, with the agent idle and the view that its events make. *)
Lemma runWithLifecycle_over {A} (executor : M W Failure (option A)) recovery w w' r rest :
  ru_activeRun (ag_runs (agent w)) = None -> ag_listeners (agent w) = recorder :: rest -> recorder ∉ rest ->
  (forall w w' r, recorded w -> executor w = (w', r) -> follows_log recovery w w') ->
  runWithLifecycle options executor w = (w', r) -> r <> Ok None ->
  exists evs fevs, run_over w w' (evs ++ fevs) (view_of false fevs (view_of recovery evs (view_state (started w)))).1 /\
    (r = Ok (Some tt) ->
      fevs = [] /\ (exists w1 a, executor (started w) = (w1, Ok (Some a)) /\ logged_events w1 = logged_events w ++ evs) \/
      exists m, is_failure m /\ fevs = failure_events m).
Proof.
  intros Hidle Hl Hn Hex H Hfuel. pose proof (started_recorded w rest Hl Hn) as Hrec.
  unfold runWithLifecycle, refuse_when_busy, busy in H. unfold mbind at 1, M_bind at 1 in H. rewrite Hidle in H.
  change (run_to_end options executor (started w) = (w', r)) in H. unfold run_to_end in H.
  destruct (executor (started w)) as [w1 r1] eqn:H1. destruct (Hex _ _ _ Hrec H1 Hrec) as (evs & Hlog & Hv & Hb).
  destruct r1 as [[a|]|error]; [| |].
  - injection H as <- <-. exists evs, []. split.
    + apply finishRun_over; [by rewrite app_nil_r| |done]. by rewrite <- Hv.
    + intros _. left. split; [done|]. by exists w1, a.
  - injection H as <- <-. done.
  - destruct (handleRunFailure _ _ _ w1) as [w2 r2] eqn:H2. injection H as <- <-.
    destruct (handleRunFailure_logs _ _ _ _ _ (same_bookkeeping_recorded _ _ Hb Hrec) H2) as (fevs & Hl2 & Hv2 & Hb2 & Hok).
    exists evs, fevs. split.
    + apply finishRun_over; [by rewrite Hl2, Hlog, app_assoc| |by etrans]. by rewrite <- Hv, <- Hv2.
    + intros Hr. right. apply Hok. by destruct r2 as [[]|].
Qed.

(** ** The loop under a recorder *)

(** The events the recorder saw, progress updates left out. *)
Definition shown (evs : list AgentEvent) : list AgentEvent := keep (fun e => negb (is_update e)) evs.
Definition visible w : option (list AgentEvent) := if decide (recorded w) then Some (shown (logged_events w)) else None.

Lemma visible_recorded w : recorded w -> visible w = Some (shown (logged_events w)).
Proof. intros Hr. unfold visible. by rewrite decide_True. Qed.
Lemma visible_unrecorded w : ~ recorded w -> visible w = None.
Proof. intros Hr. unfold visible. by rewrite decide_False. Qed.
Lemma ended_shown evs : ended (shown evs) = ended evs.
Proof. induction evs as [|e evs IH]; [done|]. unfold ended in *. destruct e; simpl; first [exact IH | f_equal; exact IH]. Qed.

Lemma undisturbed_visible w w' : undisturbed w w' -> visible w' = visible w.
Proof.
  intros [A B C]. destruct (decide (recorded w)) as [Hr|Hr].
  - rewrite !visible_recorded by (done || by eapply same_bookkeeping_recorded). by rewrite A.
  - rewrite !visible_unrecorded; [done..|]. intros Hr'. by eapply Hr, same_bookkeeping_recorded, Hr'; apply same_bookkeeping_sym.
Qed.
Lemma undisturbed_quiet {A} (f : M W Failure A) : steady undisturbed f -> quiet visible f.
Proof. intros Hf w. apply undisturbed_visible, Hf. Qed.
Lemma sink_bookkeeping recovery e w : same_bookkeeping w (sink recovery e w).1.
Proof.
  rewrite sink_delivers. destruct (reduced_view recovery e w) as (_ & _ & Hb). etrans; [exact Hb|].
  generalize (reduced recovery e w) as w1. clear Hb. intros w1. unfold deliver.
  destruct (ru_activeRun _) as [s|]; [|done]. generalize (ag_listeners (agent w1)) as ls. intros ls.
  enough (steady same_bookkeeping (call_listeners options ls e)) as Hs by apply Hs.
  induction ls as [|l ls IH]; simpl; [by apply (moves_ret _)|]. apply steady_bind; [apply _| |intros _; exact IH].
  destruct (decide (l = recorder)) as [->|Hl].
  - intros v. destruct (lw_recorder Hlaw e v) as (x & -> & _). by split; [split|].
  - eapply steady_mono, (lw_listeners Hlaw), Hl. by intros v v' [].
Qed.
Lemma sink_visible recovery e w : visible (sink recovery e w).1 = visible w ⊳ (if is_update e then [] else [e]).
Proof.
  pose proof (sink_bookkeeping recovery e w) as Hb. destruct (decide (recorded w)) as [Hr|Hr].
  - rewrite !visible_recorded by (done || by eapply same_bookkeeping_recorded).
    destruct (reduced_view recovery e w) as (Hl & _ & Hb').
    destruct (deliver_recorded e _ (same_bookkeeping_recorded _ _ Hb' Hr)) as (Hl' & _ & _).
    rewrite sink_delivers, Hl', Hl. unfold shown. rewrite keep_app. simpl. by destruct (is_update e).
  - rewrite !visible_unrecorded; [done..|]. intros Hr'. by eapply Hr, same_bookkeeping_recorded, Hr'; apply same_bookkeeping_sym.
Qed.

(** What is still assumed of the options: the provider announces one partial message per
    response, and every call of a parallel batch completes once. *)
Record orderly_options : Prop := {
  oo_order : forall calls w, op_completion_order options calls w ≡ₚ seq 0 (length calls);
  oo_response : forall model context config key w w' r,
    op_streamFn options model context config key w = (w', Ok r) -> orderly_response visible r }.
Context (Horderly : orderly_options).

Lemma steady_tool_quiet recovery id tool :
  steady_tool undisturbed tool -> quiet_tool (loop_host options (sink recovery) id) visible tool.
Proof.
  intros Ht parent call args w. pose proof (Ht (tc_id call) args) as Hrun. generalize (@None Failure) as failed. revert w.
  induction (at_execute tool (tc_id call) args) as [outcome|partial t IH|act IH] using tool_run_induction; intros w failed; [done| |].
  - simpl. pose proof (sink_visible recovery (EvToolUpdate (tc_id call) (tc_name call) (tc_arguments call) partial parent) w) as He.
    simpl in He. rewrite and_then_nil in He. destruct (sink _ _ _) as [w1 r]. simpl in He. rewrite <- He. by apply IH.
  - simpl. destruct (Hrun w) as [H1 H2]. pose proof (IH w H2 (act w).1 failed) as IHw. destruct (act w) as [w1 t1].
    simpl in *. rewrite IHw. by apply undisturbed_visible.
Qed.
Lemma steady_context_trusted recovery id context :
  steady_context undisturbed context -> trusted (loop_host options (sink recovery) id) visible context.
Proof. intros [H1 H2]. split; (eapply Forall_impl; [eassumption|]); intros t; apply steady_tool_quiet. Qed.

Lemma moves_returns {A} (f : M W Failure A) (Q : A -> Prop) w w' a : moves undisturbed f Q -> f w = (w', Ok a) -> Q a.
Proof. intros Hf H. destruct (Hf w) as [_ HQ]. by rewrite H in HQ. Qed.
Lemma steady_update_trusted recovery id u :
  steady_update undisturbed u -> trusted_update (loop_host options (sink recovery) id) visible u.
Proof. intros Hu v c Hv Hc. by eapply steady_context_trusted, Hu. Qed.

Lemma loop_host_records recovery id context :
  trusted (loop_host options (sink recovery) id) visible context ->
  records_events (tool_host (loop_host options (sink recovery) id)) context visible.
Proof.
  intros [Ht Hp]. destruct (sh_tools (lw_host Hlaw id)). simpl in *.
  split; simpl; intros; simplify_eq/=; eauto using undisturbed_quiet, undisturbed_visible.
  - pose proof (sink_visible recovery e w) as He. by rewrite H in He.
  - by eapply (context_tool_Forall (quiet_tool (loop_host options (sink recovery) id) visible)).
Qed.
Lemma loop_host_observed recovery id : observed_run (loop_host options (sink recovery) id) visible.
Proof.
  destruct (lw_host Hlaw id). simpl in *. split; simpl; intros; simplify_eq/=; eauto using undisturbed_quiet.
  - by apply (loop_host_records recovery id).
  - by apply (oo_order Horderly).
  - by eapply undisturbed_quiet, steady_weaken, sh_stream.
  - by eapply (oo_response Horderly).
  - by eapply undisturbed_quiet, steady_weaken, sh_next.
  - by eapply steady_update_trusted, moves_returns; eauto.
  - by eapply undisturbed_quiet, steady_weaken, sh_request.
  - by eapply steady_update_trusted, moves_returns; eauto.
Qed.

(** ** What precedes the loop *)

Definition prepared_context w : AgentContext W :=
  let plan := createToolPlan (op_tool options <$> se_tools (ag_settings (agent w)))
                (S (ru_nextToolPlanRevision (ag_runs (agent w)))) (agent_runId (agent w)) in
  {| cx_systemPrompt := se_systemPrompt (ag_settings (agent w)); cx_messages := vw_messages (ag_view (agent w));
     cx_tools := Some (tp_tools plan); cx_toolPlan := Some plan |}.
Lemma prepared_context_steady w : steady_context undisturbed (prepared_context w).
Proof.
  assert (forall tool, tool ∈ op_tool options <$> se_tools (ag_settings (agent w)) -> steady_tool undisturbed tool) as Ht.
  { intros tool (t & -> & _)%list_elem_of_fmap. apply (lw_tools Hlaw). }
  split; apply Forall_forall; intros tool Hin%(createToolPlan_tools _ 0 None); by apply Ht.
Qed.
(** The context and the configuration of a run are taken from the state without disturbing it. *)
Lemma prepare_run {A} skip (k : AgentContext W -> LoopConfig -> option string -> M W Failure A) w w' r :
  (context ← createContextSnapshot options; config ← createLoopConfig skip; id ← current_runId; k context config id) w = (w', r) ->
  exists w0 config id, undisturbed w w0 /\ k (prepared_context w) config id w0 = (w', r).
Proof. intros H. cbn in H. do 3 eexists. split; [|exact H]. by split; [..|split]. Qed.

Lemma loop_executor {A} skip (k : AgentContext W -> LoopConfig -> option string -> M W Failure A) recovery w w' r :
  (forall w0 config id, steady (follows_log recovery) (k (prepared_context w0) config id)) ->
  recorded w ->
  (context ← createContextSnapshot options; config ← createLoopConfig skip; id ← current_runId; k context config id) w = (w', r) ->
  follows_log recovery w w'.
Proof.
  intros Hk Hr H. apply prepare_run in H as (w0 & config & id & Hu & H). etrans; [by apply undisturbed_follows|].
  destruct (Hk w config id w0) as [Hw _]. by rewrite H in Hw.
Qed.

(** ** Prompts and continuations *)

(** No run is active, and the recorder is the first listener. *)
Definition idle w : Prop :=
  ru_activeRun (ag_runs (agent w)) = None /\ exists rest, ag_listeners (agent w) = recorder :: rest /\ recorder ∉ rest.
(** The events of a run of the loop that returned. *)
Definition complete_run (given : list AgentMessage) (evs : list AgentEvent) : Prop :=
  phases Outside (shown evs) = Some Ended /\ last (shown evs) = Some (EvAgentEnd (ended evs)) /\
  given `prefix_of` ended evs.
(** A run that settled: the transcript grew by the messages that ended, and either the loop
    returned or its failure was reported. *)
Definition settled (given : list AgentMessage) w w' (r : result Failure (option unit)) : Prop :=
  exists evs fevs,
    run_over w w' (evs ++ fevs) (view_of false (evs ++ fevs) (view_state (started w))).1 /\
    vw_messages (ag_view (agent w')) = vw_messages (ag_view (agent w)) ++ ended (evs ++ fevs) /\
    (r = Ok (Some tt) -> fevs = [] /\ complete_run given evs \/ exists m, is_failure m /\ fevs = failure_events m).

Lemma visible_grows w w' evs evs' :
  recorded w -> visible w' = visible w ⊳ evs' -> logged_events w' = logged_events w ++ evs -> shown evs = evs'.
Proof.
  intros Hr Hv Hl. rewrite (visible_recorded w) in Hv by done. unfold visible in Hv.
  destruct (decide (recorded w')); [|done]. simpl in Hv. injection Hv as Hv. rewrite Hl in Hv.
  unfold shown in Hv at 1. rewrite keep_app in Hv. by apply app_inv_head in Hv.
Qed.
(** The loop, started in a recorded world. *)
Lemma loop_complete (k : AgentContext W -> LoopConfig -> option string -> M W Failure (option (list AgentMessage)))
    (Q : option (list AgentMessage) -> list AgentEvent -> Prop) skip w w' messages evs :
  (forall w0 config id, sends visible (k (prepared_context w0) config id) Q) -> recorded w ->
  (context ← createContextSnapshot options; config ← createLoopConfig skip; id ← current_runId; k context config id) w =
    (w', Ok messages) ->
  logged_events w' = logged_events w ++ evs -> Q messages (shown evs).
Proof.
  intros Hk Hr H Hl. apply prepare_run in H as (w0 & config & id & Hu & H).
  destruct (Hk w config id _ _ _ H) as (evs' & Hv & HQ). rewrite (undisturbed_visible _ _ Hu) in Hv.
  by rewrite (visible_grows _ _ _ _ Hr Hv Hl).
Qed.

Lemma loop_settles given skip (k : AgentContext W -> LoopConfig -> option string -> M W Failure (option (list AgentMessage))) w w' r :
  (forall w0 config id, steady (follows_log false) (k (prepared_context w0) config id)) ->
  (forall w0 config id, sends visible (k (prepared_context w0) config id)
     (fun messages evs => forall ms, messages = Some ms ->
        phases Outside evs = Some Ended /\ last evs = Some (EvAgentEnd ms) /\ ended evs = ms /\ given `prefix_of` ms)) ->
  idle w ->
  runWithLifecycle options (context ← createContextSnapshot options; config ← createLoopConfig skip;
                            id ← current_runId; k context config id) w = (w', r) ->
  r <> Ok None -> settled given w w' r.
Proof.
  intros Hk Hs [Hidle (rest & Hl & Hn)] H Hfuel. pose proof (started_recorded w rest Hl Hn) as Hrec.
  eapply (runWithLifecycle_over _ false) in H as (evs & fevs & Hover & Hr);
    [|done|exact Hl|done|intros v v' r' Hv Hex; by eapply loop_executor|done].
  exists evs, fevs. rewrite view_of_app. split_and!; [done| |].
  - rewrite (ro_view _ _ _ _ Hover). simpl. rewrite !view_messages, ended_app, app_assoc. done.
  - intros Hok. destruct (Hr Hok) as [[Hf (w1 & ms & Hex & Hlog)]|]; [left|by right]. split; [done|].
    pose proof (loop_complete _ _ _ _ _ _ _ Hs Hrec Hex Hlog ms eq_refl) as (Hp & Hlast & Hend & Hpre).
    rewrite ended_shown in Hend. unfold complete_run. by rewrite Hend.
Qed.

Lemma runPromptMessages_settles fuel messages skip w w' r :
  idle w -> runPromptMessages options fuel messages skip w = (w', r) -> r <> Ok None -> settled messages w w' r.
Proof.
  apply loop_settles; intros w0 config id.
  - apply runAgentLoop_steady; [apply _|apply (loop_host_follows false)|].
    eapply steady_context_mono, prepared_context_steady. apply undisturbed_follows.
  - eapply sends_weaken; [apply (runAgentLoop_sends _ _ (loop_host_observed false id))|].
    { apply (steady_context_trusted false id), prepared_context_steady. }
    intros messages' evs [Hrun Hpre] ms ->. destruct Hrun as (-> & [Hp _] & Hlast). split_and!; eauto.
Qed.
Lemma runContinuation_settles fuel w w' r :
  idle w -> runContinuation options fuel w = (w', r) -> r <> Ok None -> settled [] w w' r.
Proof.
  apply loop_settles; intros w0 config id.
  - apply runAgentLoopContinue_steady; [apply _|apply (loop_host_follows false)|].
    eapply steady_context_mono, prepared_context_steady. apply undisturbed_follows.
  - eapply sends_weaken; [apply (runAgentLoopContinue_sends _ _ (loop_host_observed false id))|].
    { apply (steady_context_trusted false id), prepared_context_steady. }
    intros messages' evs Hrun ms ->. destruct Hrun as (-> & [Hp _] & Hlast). split_and!; [done..|apply prefix_nil].
Qed.

(** ** Requests *)

Lemma not_busy w : idle w -> busy (agent w) = false.
Proof. intros [H _]. unfold busy. by rewrite H. Qed.
Lemma idle_goes_on {A} message (k : M W Failure A) w : idle w -> (refuse_when_busy message;; k) w = k w.
Proof. intros Hw. unfold refuse_when_busy, mbind, M_bind. by rewrite (not_busy w Hw). Qed.

(** What precedes a run may queue and drain messages. *)
Lemma undisturbed_idle w w0 : undisturbed w w0 -> idle w -> idle w0.
Proof.
  intros [_ _ [A _ _ D]] [Hi (rest & Hl & Hn)]. rewrite Hi in D. split; [by destruct (ru_activeRun (ag_runs (agent w0)))|].
  exists rest. by rewrite A.
Qed.
Lemma settled_undisturbed given w w0 w' r : undisturbed w w0 -> settled given w0 w' r -> settled given w w' r.
Proof.
  intros [A B [C D E _]] (evs & fevs & [] & Hm & Hr). injection B as B1 B2. exists evs, fevs. split_and!; [|by rewrite <- B1|done].
  split; try congruence.
  - rewrite ro_view0. by unfold view_state; simpl; rewrite B1, B2.
  - rewrite E, D in ro_settled0. done.
Qed.

(** C18. A prompt to an idle agent settles: unless it runs for ever, the agent is idle again
    when it returns or throws, its scope settled, nothing pending, and its visible state is
    the fold of the recorded events; the transcript has grown by exactly the messages that
    ended; and when it returns, either the loop has returned after a well-formed sequence of
    events whose messages begin with the prompts, or the failure was announced as one last
    assistant message. *)
Theorem prompt_settles fuel input w w' r :
  idle w -> prompt options fuel input w = (w', r) -> r <> Ok None ->
  exists messages, normalizePromptInput options input w = (w, Ok messages) /\ settled messages w w' r.
Proof.
  intros Hw H Hfuel. unfold prompt in H. rewrite (idle_goes_on _ _ _ Hw) in H.
  assert (exists messages, normalizePromptInput options input w = (w, Ok messages)) as [messages Hm] by (by eexists).
  unfold mbind, M_bind in H. rewrite Hm in H. exists messages. split; [done|]. by eapply runPromptMessages_settles.
Qed.

(** Continuing takes queued messages only when nothing else can follow the transcript:
    from an empty transcript it fails; after a completed response it runs with the steering
    messages, or the follow-up messages when there are none, as prompts, and fails when both
    queues are empty; otherwise it continues without prompts.  A failure of these kinds
    leaves the agent as it was, and a run settles as a prompt does. *)
Theorem continue_settles fuel w w' r :
  idle w -> continue options fuel w = (w', r) -> r <> Ok None ->
  let messages := vw_messages (ag_view (agent w)) in
  let steering := (drain (ag_steeringQueue (agent w))).2 in
  let followUps := (drain (ag_followUpQueue (agent w))).2 in
  if decide (messages = []) then undisturbed w w' /\ is_ok r = false
  else if needs_messages messages then
    match steering, followUps with
    | _ :: _, _ => settled steering w w' r
    | [], _ :: _ => settled followUps w w' r
    | [], [] => undisturbed w w' /\ is_ok r = false
    end
  else settled [] w w' r.
Proof.
  intros Hw H Hfuel messages steering followUps. unfold continue in H. rewrite (idle_goes_on _ _ _ Hw) in H.
  unfold view in H. unfold mbind at 1, M_bind at 1 in H. fold messages in H.
  destruct (decide (messages = [])) as [Hm|Hm].
  { rewrite bool_decide_eq_true_2 in H by done. injection H as <- <-. by split. }
  rewrite bool_decide_eq_false_2 in H by done. destruct (needs_messages messages).
  2: by eapply runContinuation_settles.
  unfold drain_steering in H. unfold mbind at 1, M_bind at 1 in H.
  destruct (drain (ag_steeringQueue (agent w))) as [q1 drained1] eqn:Hd1. simpl in steering. subst steering.
  match type of H with context [on_agent ?f w] => set (w1 := on_agent f w) in H end.
  assert (undisturbed w w1) as Hu1 by (by split; [..|split]).
  destruct drained1 as [|m1 ms1].
  2: { eapply settled_undisturbed, runPromptMessages_settles; [exact Hu1| |exact H|done]. by eapply undisturbed_idle. }
  unfold getFollowUp in H. unfold mbind at 1, M_bind at 1 in H.
  change (ag_followUpQueue (agent w1)) with (ag_followUpQueue (agent w)) in H.
  destruct (drain (ag_followUpQueue (agent w))) as [q2 drained2] eqn:Hd2. simpl in followUps. subst followUps.
  match type of H with context [on_agent ?f w1] => set (w2 := on_agent f w1) in H end.
  assert (undisturbed w w2) as Hu2 by (etrans; [exact Hu1|]; by split; [..|split]).
  destruct drained2 as [|m2 ms2]; [by injection H as <- <-|].
  eapply settled_undisturbed, runPromptMessages_settles; [exact Hu2| |exact H|done]. by eapply undisturbed_idle.
Qed.

(** ** Resumed runs *)

Lemma keep_split {A} (p : A -> bool) l a x b :
  keep p l = a ++ x :: b -> exists l1 l2, l = l1 ++ x :: l2 /\ keep p l1 = a /\ keep p l2 = b.
Proof.
  revert a. induction l as [|y l IH]; intros a H; [by destruct a|]. simpl in H. destruct (p y) eqn:Hy.
  - destruct a as [|y' a]; [injection H as -> H; by exists [], l|]. injection H as -> H.
    destruct (IH a H) as (l1 & l2 & -> & <- & <-). exists (y' :: l1), l2. simpl. by rewrite Hy.
  - destruct (IH a H) as (l1 & l2 & -> & <- & <-). exists (y :: l1), l2. simpl. by rewrite Hy.
Qed.

(** The first turn of a resumed run ends with [ordered] after [batch]; [rest] follows. *)
Definition resumed_events (assistant : AssistantMessage) (batch : list AgentEvent) (ordered : list ToolResultMessage)
    (rest : list AgentEvent) : list AgentEvent :=
  EvAgentStart :: EvTurnStart :: batch ++ EvTurnEnd (AssistantMsg assistant) ordered :: rest.

(** What the recorder saw of a resumed run that returned [messages]. *)
Record resumption (assistant : AssistantMessage) (completedResults : list ToolResultMessage) (evs : list AgentEvent)
    (messages : list AgentMessage) (ordered : list ToolResultMessage) (rest : list AgentEvent) : Prop := {
  rr_events : exists batch, evs = resumed_events assistant batch ordered rest /\
    Forall (fun e => is_start e || is_end e || is_message e) batch /\
    exists n, keep is_start batch = start_of <$> take n (unresolved (by_call completedResults) (tool_calls assistant));
  rr_phases : phases Outside evs = Some Ended;
  rr_last : last evs = Some (EvAgentEnd messages);
  rr_ended : ended evs = messages;
  rr_answers : answer_of <$> ordered `sublist_of` call_of <$> tool_calls assistant;
  rr_given : completedResults ⊆ ordered }.

Lemma turn_end_view message results v index :
  exists v', view_step true (v, Some index) (EvTurnEnd message results) = (v', None) /\
    vw_messages v' = take (S index) (vw_messages v) ++ (ToolResultMsg <$> results).
Proof. eexists. split; [reflexivity|]. rewrite reduce_messages. simpl. by rewrite app_nil_r. Qed.
Lemma resumed_view index assistant batch ordered rest evs v :
  shown evs = resumed_events assistant batch ordered rest ->
  Forall (fun e => is_start e || is_end e || is_message e) batch -> (index < length (vw_messages v))%nat ->
  vw_messages (view_of true evs (v, Some index)).1 =
  take (S index) (vw_messages v) ++ (ToolResultMsg <$> ordered) ++ ended rest.
Proof.
  intros Hs Hbatch Hi.
  destruct (keep_split _ evs (EvAgentStart :: EvTurnStart :: batch) _ rest Hs) as (evs1 & evs2 & -> & H1 & H2).
  rewrite view_of_app, recovering_view.
  - destruct (turn_end_view (AssistantMsg assistant) ordered (view_of false evs1 (v, Some index)).1 index) as (v' & Hv' & Hm').
    match goal with |- context [view_of true (?e :: evs2) ?st] =>
      change (view_of true (e :: evs2) st) with (view_of true evs2 (view_step true st e)) end.
    rewrite Hv', recovered_view, view_messages by done. simpl. rewrite Hm', view_messages, take_app_le by (simpl; lia).
    by rewrite <- app_assoc, <- H2, ended_shown.
  - apply Forall_forall. intros e He. destruct e; try done.
    assert (EvTurnEnd message toolResults ∈ shown evs1) as Hin by (unfold shown; by apply elem_of_keep).
    unfold shown in Hin. rewrite H1 in Hin. rewrite !elem_of_cons in Hin. destruct Hin as [|[|Hin]]; [done|done|].
    rewrite Forall_forall in Hbatch. by apply Hbatch in Hin.
Qed.

(** C20. Resuming the tool calls of a persisted response: the request is refused and changes
    nothing, or the agent settles as after a prompt; when the loop returned, the transcript is
    the old one up to the response, one result per answered call in the order of the calls
    (the given results among them), and the messages that ended afterwards. *)
Theorem resume_settles fuel index assistant completedResults w w' r :
  idle w -> vw_messages (ag_view (agent w)) !! index = Some (AssistantMsg assistant) ->
  resumeToolCalls options fuel (Some index) assistant completedResults w = (w', r) -> r <> Ok None ->
  w' = w /\ is_ok r = false \/
  exists evs fevs v, run_over w w' (evs ++ fevs) v /\
    (r = Ok (Some tt) -> (exists m, is_failure m /\ fevs = failure_events m) \/
      fevs = [] /\ exists ordered rest,
        resumption assistant completedResults (shown evs) (ended evs) ordered rest /\
        vw_messages (ag_view (agent w')) =
          take (S index) (vw_messages (ag_view (agent w))) ++ (ToolResultMsg <$> ordered) ++ ended rest).
Proof.
  intros Hw Hat H Hfuel. unfold resumeToolCalls in H. rewrite (idle_goes_on _ _ _ Hw) in H.
  unfold view, lift in H. unfold mbind at 1 2, M_bind at 1 2 in H.
  destruct (check_recovery _ _ _ _) as [index'|e] eqn:Hcheck; [|injection H as <- <-; by left]. right.
  assert (index' = index) as -> by (unfold check_recovery in Hcheck; repeat case_match; congruence).
  set (w1 := on_agent (recovered_state index completedResults) w).
  assert (idle w1) as [Hidle (rest & Hl & Hn)] by exact Hw. pose proof (started_recorded w1 rest Hl Hn) as Hrec.
  eapply (runWithLifecycle_over _ true w1) in H as (evs & fevs & Hover & Hr);
    [|done|exact Hl|done| |done].
  2: { intros v v' r' Hv Hex. eapply loop_executor; [|exact Hv|exact Hex]. intros w0 config id.
       apply runAgentLoopResumeTools_steady; [apply _|apply (loop_host_follows true)|].
       eapply steady_context_mono, prepared_context_steady. apply undisturbed_follows. }
  exists evs, fevs, (view_of false fevs (view_of true evs (view_state (started w1)))).1. split; [by destruct Hover|].
  intros Hok. destruct (Hr Hok) as [[-> (w2 & ms & Hex & Hlog)]|]; [right|by left]. split; [done|].
  eapply (loop_complete _ (fun messages evs => forall ms, messages = Some ms ->
    exists ordered rest, resumption assistant completedResults evs ms ordered rest)) in Hex;
    [| |exact Hrec|exact Hlog|reflexivity].
  2: { intros w0 config id. eapply sends_weaken; [apply (runAgentLoopResumeTools_sends _ _ (loop_host_observed true id));
         apply (steady_context_trusted true id), prepared_context_steady|].
       intros messages evs' Hout ms' ->. destruct (Hout ms' eq_refl) as (batch & ordered & rest' & Hs & ? & ? & ? & ? & ? & ? & ? & _).
       exists ordered, rest'. split; eauto. }
  destruct Hex as (ordered & rest' & Hrun). exists ordered, rest'.
  pose proof (rr_ended _ _ _ _ _ _ Hrun) as Hend. rewrite ended_shown in Hend. split; [by rewrite Hend|].
  destruct (rr_events _ _ _ _ _ _ Hrun) as (batch & Hs & Hwithin & _).
  rewrite (ro_view _ _ _ _ Hover). simpl. pose proof (lookup_lt_Some _ _ _ Hat) as Hlt.
  change (view_state (started w1)) with (started_view (ag_view (agent w1)), Some index).
  rewrite (resumed_view index _ _ _ _ _ _ Hs Hwithin).
  - simpl. rewrite take_app_le by (rewrite length_take; lia). by rewrite take_take, Nat.min_id.
  - simpl. rewrite length_app, length_take. lia.
Qed.

(** Runs exclude each other: while a run is active, a prompt, a continuation, a resumed
    batch and a reset are refused, and change nothing. *)
Theorem busy_agent_refuses fuel input index assistant completedResults w :
  is_Some (ru_activeRun (ag_runs (agent w))) ->
  Forall (fun request => exists e, request w = (w, Err e))
    [prompt options fuel input; continue options fuel; resumeToolCalls options fuel index assistant completedResults] /\
  exists e, reset (agent w) = (agent w, Err e).
Proof.
  intros Hw. assert (busy (agent w) = true) as Hb by (by apply bool_decide_eq_true).
  assert (forall {A} message (k : M W Failure A), (refuse_when_busy message;; k) w = (w, Err (plain_failure message))) as Hrefuse.
  { intros A message k. unfold refuse_when_busy, mbind, M_bind. by rewrite Hb. }
  split.
  - repeat apply Forall_cons_2; [..|constructor]; eexists; apply Hrefuse.
  - unfold reset, get, throw_if, mbind, M_bind. fold (busy (agent w)). rewrite Hb. by eexists.
Qed.

(** What the owner of an agent may do at any time, also while a run is active. *)
Lemma owner_undisturbed group m w :
  Forall (fun f => undisturbed w (on_agent f w))
    [steer group; followUp group; clearSteeringQueue; clearFollowUpQueue; clearAllQueues; set_steeringMode m;
     set_followUpMode m; agent_abort].
Proof.
  assert (forall f, ag_view (f (agent w)) = ag_view (agent w) -> ag_listeners (f (agent w)) = ag_listeners (agent w) ->
    ag_runs (f (agent w)) = ag_runs (agent w) -> undisturbed w (on_agent f w)) as Hf.
  { intros f Hv Hl Hr. unfold on_agent. split; [done|unfold view_state; simpl; by rewrite Hv, Hr|]. by split; simpl; rewrite ?Hr. }
  repeat apply Forall_cons_2; [apply Hf; done..| |constructor]. split; [done|done|]. split; [done..|]. simpl.
  destruct (ru_activeRun (ag_runs (agent w))) as [s|]; [|done]. simpl. unfold RunScope.requestCancel. case_match; by split_and!.
Qed.
(** A host-issued call always returns an outcome, and starts nothing outside a run. *)
Lemma agent_runToolCall_returns toolCall tools parentId stopped onUpdate w :
  exists w' outcome, agent_runToolCall options toolCall tools parentId stopped onUpdate w = (w', Ok outcome) /\
    (ru_activeRun (ag_runs (agent w)) = None -> w' = w /\ outcome = no_active_run toolCall).
Proof.
  unfold agent_runToolCall. destruct (ru_activeRun _) as [s|]; [|by exists w, (no_active_run toolCall)].
  destruct (last_assistant _) as [assistant|]; [|by do 2 eexists]. unfold try_catch.
  match goal with |- context [runToolCall ?h ?c ?a ?t w] => destruct (runToolCall h c a t w) as [w1 [o|e]] end; by do 2 eexists.
Qed.
End runs.
