(* ===== verification/AgentSamples.v ===== *)
(** * A concrete agent

    Options whose provider answers from a script and whose second listener steers when a run
    starts; the theorems about the agent are applied to it. *)
From stdpp Require Import gmap.
From S2P Require Import Prelude JsNumber SessionTypes JsonNumber JsonText Reducer Context ResourceScheduler.
From S2P Require Import ToolExecution DurableJson Retry ToolPipeline ToolBatch AgentLoop AgentLoopTheorems.
From S2P Require Import AgentLoopProgress AgentLoopSamples LoopFrame Agent AgentTheorems.

Record Outside := { ou_events : list AgentEvent; ou_script : list AssistantMessage }.
(** One tool, and two listeners: [true] records, [false] steers. *)
#[local] Abbreviation AW := (AgentWorld unit bool Outside).
Definition record_event (e : AgentEvent) (w : AW) : AW :=
  {| agent := agent w; outside := {| ou_events := ou_events (outside w) ++ [e]; ou_script := ou_script (outside w) |} |}.
Definition also : AgentMessage := UserMsg (PlainText "also this") num_zero.
Definition sample_listener (listener : bool) (e : AgentEvent) : M AW Failure unit :=
  match listener, e with
  | true, _ => modify (record_event e)
  | false, EvAgentStart => modify (on_agent (steer [also]))
  | false, _ => mret tt
  end.
Definition agent_echo : AgentTool AW :=
  {| at_name := "echo"; at_executionMode := None; at_orchestratesTools := false; at_contract := None;
     at_executionResource := None; at_prepareArguments := None;
     at_execute := fun _ _ => Reports sample_result (Settles (Ok sample_result)) |}.
Definition agent_stream (m : AssistantMessage) : Response AW :=
  {| rs_events := StreamYields (StreamStart m) (StreamYields (StreamDone (am_stopReason m) m) StreamExhausted);
     rs_result := mret m |}.
Definition sample_options : AgentOptions unit bool Outside unit :=
  {| op_tool := fun _ => agent_echo; op_listener := sample_listener; op_convertToLlm := None; op_transformContext := None;
     op_streamFn := fun _ _ _ _ w =>
       ({| agent := agent w;
           outside := {| ou_events := ou_events (outside w); ou_script := tail (ou_script (outside w)) |} |},
        Ok (agent_stream (next_reply (ou_script (outside w)))));
     op_getApiKey := None; op_onProviderContext := None; op_onExecutionEvent := fun _ w => w;
     op_onCompletedOutputItem := None; op_onToolResult := None; op_beforeToolDispatch := None; op_beforeToolCall := None;
     op_afterToolCall := None; op_admitToolCall := None; op_acquire_lease := None; op_release_lease := fun _ w => w;
     op_shouldStopAfterTurn := None; op_prepareRequest := None; op_prepareNextTurn := None;
     op_prepareNextTurnWithContext := None; op_toolExecution := None;
     op_validateToolArguments := fun _ call => Ok (tc_arguments call);
     op_completion_order := fun calls _ => reverse (seq 0 (length calls)); op_Date_now := fun _ => num_of_Z 7 |}.

Lemma modify_undisturbed f : (forall w, undisturbed ou_events w (f w)) -> steady (undisturbed (T:=unit) (Ls:=bool) ou_events) (modify f).
Proof. intros Hf. by apply moves_modify. Qed.
Lemma pure_undisturbed {A} (f : AW -> result Failure A) : steady (undisturbed ou_events) (fun w => (w, f w)).
Proof. intros w. by split; [split; [..|split]|destruct (f w)]. Qed.

Lemma sample_lawful : lawful sample_options true ou_events.
Proof.
  split.
  - intros e w. by eexists.
  - intros [] e Hl; [done|]. destruct e; try by apply pure_undisturbed. apply modify_undisturbed. by split; [..|split].
  - intros id. split; [split|..]; simpl; intros; simplify_eq/=; try by apply pure_undisturbed.
    all: try done.
    + intros w. unfold getSteering. destruct (ru_skipInitialSteeringPoll _); [|destruct (drain _)];
        by split; [split; [..|split]|].
    + intros w. unfold getFollowUp. destruct (drain _). by split; [split; [..|split]|].
  - intros [] id args. done.
Qed.
Lemma sample_orderly : orderly_options sample_options true ou_events.
Proof.
  split; [intros calls w; apply reverse_Permutation|].
  intros model context config key w w' r [= _ <-]. by split.
Qed.

Definition sample_settings : AgentSettings unit :=
  {| se_systemPrompt := "be brief"; se_model := sample_model; se_thinkingLevel := "off"; se_tools := [tt];
     se_routing := {| ro_promptCacheKey := None; ro_cacheAffinityId := None; ro_transport := None |} |}.
Definition sample_agent (messages : list AgentMessage) : Agent unit bool :=
  subscribe false (subscribe true (new_Agent sample_settings messages None None)).
Definition sample_world (messages : list AgentMessage) (script : list AssistantMessage) : AW :=
  {| agent := sample_agent messages; outside := {| ou_events := []; ou_script := script |} |}.
Lemma sample_idle messages script : idle true (sample_world messages script).
Proof. split; [done|]. exists [false]. split; [done|]. by intros ?%list_elem_of_singleton. Qed.

(** ** A prompt *)

Definition prompted_world : AW := sample_world [] [two_calls; saying "bye"].
Definition prompted := prompt sample_options 9 (PromptText "hi" []) prompted_world.
Example prompted_roles : prompted.2 = Ok (Some tt) /\
  (message_role <$> vw_messages (ag_view (agent prompted.1))) =
    [RoleUser; RoleUser; RoleAssistant; RoleToolResult; RoleToolResult; RoleAssistant].
Proof. vm_compute. done. Qed.
Lemma prompted_returns : prompt sample_options 9 (PromptText "hi" []) prompted_world = (prompted.1, Ok (Some tt)).
Proof. vm_compute. reflexivity. Qed.
Lemma prompt_settles_witness :
  exists messages, normalizePromptInput sample_options (PromptText "hi" []) prompted_world = (prompted_world, Ok messages) /\
    settled ou_events messages prompted_world prompted.1 (Ok (Some tt)).
Proof.
  refine (prompt_settles sample_options true ou_events sample_lawful sample_orderly 9 (PromptText "hi" []) prompted_world
    prompted.1 (Ok (Some tt)) (sample_idle _ _) prompted_returns _). done.
Defined.

(** ** A continuation *)

(** The transcript ends with a completed response, and a message waits. *)
Definition waiting_world : AW := on_agent (steer [also]) (sample_world [AssistantMsg (saying "done?")] [saying "bye"]).
Definition continued := continue sample_options 9 waiting_world.
Example continued_roles : (message_role <$> vw_messages (ag_view (agent continued.1))) =
  [RoleAssistant; RoleUser; RoleAssistant; RoleUser; RoleAssistant].
Proof. vm_compute. done. Qed.
Lemma continued_returns : continue sample_options 9 waiting_world = (continued.1, Ok (Some tt)).
Proof. vm_compute. reflexivity. Qed.
Lemma waiting_idle : idle true waiting_world.
Proof. exact (sample_idle [AssistantMsg (saying "done?")] [saying "bye"]). Qed.
Lemma continue_settles_witness : settled ou_events [also] waiting_world continued.1 (Ok (Some tt)).
Proof.
  refine (continue_settles sample_options true ou_events sample_lawful sample_orderly 9 waiting_world continued.1
    (Ok (Some tt)) waiting_idle continued_returns _). done.
Defined.

(** ** A resumed batch *)

Definition interrupted_world : AW :=
  sample_world [also; AssistantMsg two_calls; ToolResultMsg sample_answer] [saying "bye"].
Definition recovered := resumeToolCalls sample_options 9 (Some 1%nat) two_calls [sample_answer] interrupted_world.
Example recovered_roles : (message_role <$> vw_messages (ag_view (agent recovered.1))) =
  [RoleUser; RoleAssistant; RoleToolResult; RoleToolResult; RoleUser; RoleAssistant].
Proof. vm_compute. done. Qed.
Lemma recovered_returns :
  resumeToolCalls sample_options 9 (Some 1%nat) two_calls [sample_answer] interrupted_world = (recovered.1, Ok (Some tt)).
Proof. vm_compute. reflexivity. Qed.
Lemma resume_settles_witness :
  recovered.1 = interrupted_world /\ is_ok (Ok (E:=Failure) (Some tt)) = false \/
  exists evs fevs v, run_over ou_events interrupted_world recovered.1 (evs ++ fevs) v /\
    (Ok (E:=Failure) (Some tt) = Ok (Some tt) -> (exists m, is_failure m /\ fevs = failure_events m) \/
      fevs = [] /\ exists ordered rest,
        resumption two_calls [sample_answer] (shown evs) (ended evs) ordered rest /\
        vw_messages (ag_view (agent recovered.1)) =
          take 2 (vw_messages (ag_view (agent interrupted_world))) ++ (ToolResultMsg <$> ordered) ++ ended rest).
Proof.
  refine (resume_settles sample_options true ou_events sample_lawful sample_orderly 9 1%nat two_calls [sample_answer]
    interrupted_world recovered.1 (Ok (Some tt)) (sample_idle _ _) eq_refl recovered_returns _). done.
Defined.

(** ** A busy agent *)

Definition busy_world : AW := on_agent startRun prompted_world.
Lemma busy_agent_refuses_witness :
  Forall (fun request => exists e, request busy_world = (busy_world, Err e))
    [prompt sample_options 9 (PromptText "hi" []); continue sample_options 9;
     resumeToolCalls sample_options 9 (Some 0%nat) two_calls []] /\
  exists e, reset (agent busy_world) = (agent busy_world, Err e).
Proof.
  apply (busy_agent_refuses sample_options 9 (PromptText "hi" []) (Some 0%nat) two_calls [] busy_world). by eexists.
Defined.
