(* ===== verification/MutationJournal.v ===== *)
(** * The journal of external mutations (packages/permissions/src/external-mutation-journal.ts)

    A child process that may write outside its worktree records every write in an append-only
    file before the tool runs and again after it; the controller reads the file while the
    child works and after a crash.  The file is its bytes.  The functions of node:path are a
    [JournalHost]; what the file system answers during one call is a [JournalFiles], and what
    the calls of one append answer a [disk].  [observe] awaits the state of the written file,
    so its two halves are operations of their own. *)
From Stdlib Require Import SpecFloat.
From S2P Require Import Prelude JsNumber SessionTypes JsText JsonNumber JsonText Truncate Validation.
From S2P Require Import DurableJson RetryPolicy.

(** ** Data *)

Definition EXTERNAL_MUTATION_JOURNAL_VERSION : Z := 1.
Definition MAX_EXTERNAL_MUTATIONS_PER_ATTEMPT : Z := 256.
Definition MAX_JOURNAL_BYTES : Z := 2 * 1024 * 1024.
Definition MAX_PATH_CHARS : Z := 4096.
Definition MAX_ID_CHARS : Z := 256.

Inductive mutation_operation := WriteOperation | EditOperation.
Inductive mutation_result := MutationSucceeded | MutationFailed.
#[export] Instance mutation_result_eq_dec : EqDecision mutation_result.
Proof. solve_decision. Defined.
Inductive unavailable_reason := Missing | NotRegularFile | ChangedDuringObservation | ReadError.
Inductive ExternalMutationPostState :=
| Confirmed (size mode : Z) (modifiedAtMs : number) (sha256 : string)
| Unavailable (reason : unavailable_reason).

(** [authorizationStatus] is always ["authorized"]. *)
Record ExternalMutationRecord := {
  em_mutationId : string; em_runId : string; em_taskId : string; em_attemptId : string;
  em_attemptNumber : Z; em_authorizationSequence : Z; em_toolCallId : string;
  em_operation : mutation_operation; em_path : string; em_authorizedAt : Z;
  em_toolResult : option mutation_result; em_observedAt : option Z;
  em_postState : option ExternalMutationPostState }.

Record ExternalMutationJournalPolicy := {
  jp_version : Z; jp_path : string; jp_runId : string; jp_taskId : string; jp_attemptId : string;
  jp_attemptNumber : Z }.

Inductive ExternalMutationJournalEvent :=
| Authorized (journalSequence : Z) (mutation : ExternalMutationRecord)
| Observed (journalSequence : Z) (mutationId : string) (toolResult : mutation_result) (observedAt : Z)
    (postState : ExternalMutationPostState).
Definition ev_sequence (e : ExternalMutationJournalEvent) : Z :=
  match e with Authorized n _ | Observed n _ _ _ _ => n end.

(** ** The JSON text of an event *)

Definition operation_name (o : mutation_operation) : string :=
  match o with WriteOperation => "write" | EditOperation => "edit" end.
Definition result_name (r : mutation_result) : string :=
  match r with MutationSucceeded => "succeeded" | MutationFailed => "failed" end.
Definition reason_name (r : unavailable_reason) : string :=
  match r with
  | Missing => "missing" | NotRegularFile => "not_regular_file"
  | ChangedDuringObservation => "changed_during_observation" | ReadError => "read_error"
  end.
Definition post_state_json (p : ExternalMutationPostState) : json :=
  match p with
  | Confirmed size mode modifiedAtMs sha256 => JsonObject
      [str "status" "confirmed"; str "fileType" "regular"; int "size" size; int "mode" mode;
       num "modifiedAtMs" modifiedAtMs; str "sha256" sha256]
  | Unavailable reason => JsonObject [str "status" "unavailable"; str "reason" (reason_name reason)]
  end.
Definition mutation_json (m : ExternalMutationRecord) : json := JsonObject (
  [str "mutationId" (em_mutationId m); str "runId" (em_runId m); str "taskId" (em_taskId m);
   str "attemptId" (em_attemptId m); int "attemptNumber" (em_attemptNumber m);
   int "authorizationSequence" (em_authorizationSequence m); str "toolCallId" (em_toolCallId m);
   str "operation" (operation_name (em_operation m)); str "path" (em_path m);
   str "authorizationStatus" "authorized"; int "authorizedAt" (em_authorizedAt m)] ++
  opt "toolResult" (JsonString ∘ result_name) (em_toolResult m) ++
  opt "observedAt" (JsonNumber ∘ num_of_Z) (em_observedAt m) ++
  opt "postState" post_state_json (em_postState m)).
Definition event_fields (e : ExternalMutationJournalEvent) : fields :=
  match e with
  | Authorized n m => [int "journalVersion" EXTERNAL_MUTATION_JOURNAL_VERSION; int "journalSequence" n;
                       str "type" "authorized"; ("mutation", mutation_json m)]
  | Observed n id r t p => [int "journalVersion" EXTERNAL_MUTATION_JOURNAL_VERSION; int "journalSequence" n;
                            str "type" "observed"; str "mutationId" id; str "toolResult" (result_name r);
                            int "observedAt" t; ("postState", post_state_json p)]
  end.
(** [Buffer.from(`${JSON.stringify(event)}\n`, "utf8")] *)
Definition event_line (e : ExternalMutationJournalEvent) : jsstring := JSON_stringify (JsonObject (event_fields e)).
Definition event_bytes (e : ExternalMutationJournalEvent) : bytes := text_encode (event_line e ++ [LF]).

(** ** Checks *)

(** [Number.isSafeInteger(value)] *)
Definition safe_field (value : option json) : option Z :=
  match value with
  | Some (JsonNumber n) => if num_is_safe_integer n then num_to_Z n else None
  | _ => None
  end.
Definition is_int (value : option json) (z : Z) : bool :=
  match value with Some (JsonNumber n) => num_eq_Z n z | _ => false end.
Definition validId (s : string) : bool :=
  (0 <? zlen (js s)) && (zlen (js s) <=? MAX_ID_CHARS) && negb (existsb control_or_format (code_points (js s))).
Definition validTimestamp (value : option json) : option Z :=
  z ← safe_field value; if 0 <=? z then Some z else None.

Definition lower_hex (u : Z) : bool := ((97 <=? u) && (u <=? 102)) || is_dec u.
(** [/^[a-f0-9]{64}$/.test(s)] *)
Definition is_sha256 (s : string) : bool := (zlen (js s) =? 64) && forallb lower_hex (js s).

(** ** Files *)

Record Stats := {
  st_isFile : bool; st_isDirectory : bool; st_isSymbolicLink : bool; st_mode : Z; st_size : Z;
  st_ino : Z; st_mtimeMs : number }.
Record JournalHost := {
  isAbsolute : string -> bool; resolve : string -> string; dirname : string -> string;
  basename : string -> string; join : string -> string -> string }.
Record JournalFiles := {
  lstatSync : string -> option Stats; realpathSync : string -> option string;
  readFileSync : string -> option bytes }.

Abbreviation journal_result := (result string) (only parsing).
Definition refuse {A} (c : bool) (message : string) (k : journal_result A) : journal_result A :=
  if c then Err message else k.
(** A call of the file system that throws. *)
Definition or_throw {A} (o : option A) : journal_result A :=
  match o with Some a => Ok a | None => Err "file system error" end.

Section journal.
Variables (host : JournalHost) (files : JournalFiles).

(** Absolute and normalized. *)
Definition normalized (path : string) : bool := isAbsolute host path && String.eqb (resolve host path) path.
Definition private_mode (s : Stats) : bool := Z.land (st_mode s) 63 =? 0.

Definition assertPrivateJournalFile (path : string) : journal_result string :=
  refuse (negb (normalized path && negb (existsb (Z.eqb 0) (js path))))
    "External mutation journal path must be a normalized absolute path" (
  let parent := dirname host path in
  parentMetadata ← or_throw (lstatSync files parent);
  refuse (negb (st_isDirectory parentMetadata) || st_isSymbolicLink parentMetadata || negb (private_mode parentMetadata))
    "External mutation journal parent must be a private real directory" (
  real ← or_throw (realpathSync files parent);
  refuse (negb (String.eqb real parent)) "External mutation journal parent path is not canonical" (
  metadata ← or_throw (lstatSync files path);
  refuse (negb (st_isFile metadata) || st_isSymbolicLink metadata || negb (private_mode metadata))
    "External mutation journal must be a private regular file" (
  Ok (join host parent (basename host path)))))).

Definition validateExternalMutationJournalPolicy (value : ExternalMutationJournalPolicy)
  : journal_result ExternalMutationJournalPolicy :=
  refuse (negb (jp_version value =? EXTERNAL_MUTATION_JOURNAL_VERSION))
    "Unsupported external mutation journal policy version" (
  refuse (negb (validId (jp_runId value) && validId (jp_taskId value) && validId (jp_attemptId value)))
    "External mutation journal identity is invalid" (
  refuse (negb ((Z.abs (jp_attemptNumber value) <=? MAX_SAFE_INTEGER) && (1 <=? jp_attemptNumber value)))
    "External mutation journal attemptNumber must be a positive safe integer" (
  path ← assertPrivateJournalFile (jp_path value);
  Ok {| jp_version := EXTERNAL_MUTATION_JOURNAL_VERSION; jp_path := path; jp_runId := jp_runId value;
        jp_taskId := jp_taskId value; jp_attemptId := jp_attemptId value;
        jp_attemptNumber := jp_attemptNumber value |}))).

(** ** Reading one record *)

Definition parsePostState (value : option json) : journal_result ExternalMutationPostState :=
  match value with
  | Some (JsonObject _ as v) =>
      if is_str (prop v "status") "unavailable" then
        if is_str (prop v "reason") "missing" then Ok (Unavailable Missing) else
        if is_str (prop v "reason") "not_regular_file" then Ok (Unavailable NotRegularFile) else
        if is_str (prop v "reason") "changed_during_observation" then Ok (Unavailable ChangedDuringObservation) else
        if is_str (prop v "reason") "read_error" then Ok (Unavailable ReadError) else
        Err "External mutation unavailable reason is invalid"
      else if is_str (prop v "status") "confirmed" then
        let bad := Err "External mutation confirmed post-state is invalid" in
        match safe_field (prop v "size"), safe_field (prop v "mode"), prop v "modifiedAtMs", prop v "sha256" with
        | Some size, Some mode, Some (JsonNumber modifiedAtMs), Some (JsonString sha256) =>
            if is_str (prop v "fileType") "regular" && (0 <=? size) && (0 <=? mode)
               && num_is_finite modifiedAtMs && is_sha256 sha256
            then Ok (Confirmed size mode modifiedAtMs sha256) else bad
        | _, _, _, _ => bad
        end
      else Err "External mutation post-state is invalid"
  | _ => Err "External mutation post-state is invalid"
  end.

Definition read_operation (value : option json) : option mutation_operation :=
  if is_str value "write" then Some WriteOperation else
  if is_str value "edit" then Some EditOperation else None.
Definition read_result (value : option json) : option mutation_result :=
  if is_str value "succeeded" then Some MutationSucceeded else
  if is_str value "failed" then Some MutationFailed else None.
(** A value that [validId] accepts. *)
Definition read_id (value : option json) : option string :=
  match value with Some (JsonString s) => if validId s then Some s else None | _ => None end.
Definition read_path (value : option json) : option string :=
  match value with
  | Some (JsonString s) =>
      if (1 <=? zlen (js s)) && (zlen (js s) <=? MAX_PATH_CHARS) && normalized s then Some s else None
  | _ => None
  end.

Definition parseMutation (value : option json) (policy : ExternalMutationJournalPolicy)
  : journal_result ExternalMutationRecord :=
  match value with
  | Some (JsonObject _ as v) =>
      let accepted :=
        mutationId ← read_id (prop v "mutationId");
        sequence ← safe_field (prop v "authorizationSequence");
        toolCallId ← read_id (prop v "toolCallId");
        operation ← read_operation (prop v "operation");
        path ← read_path (prop v "path");
        authorizedAt ← validTimestamp (prop v "authorizedAt");
        if is_str (prop v "runId") (jp_runId policy) && is_str (prop v "taskId") (jp_taskId policy)
           && is_str (prop v "attemptId") (jp_attemptId policy)
           && is_int (prop v "attemptNumber") (jp_attemptNumber policy)
           && (1 <=? sequence) && (sequence <=? MAX_EXTERNAL_MUTATIONS_PER_ATTEMPT)
           && is_str (prop v "authorizationStatus") "authorized"
        then Some {| em_mutationId := mutationId; em_runId := jp_runId policy; em_taskId := jp_taskId policy;
                     em_attemptId := jp_attemptId policy; em_attemptNumber := jp_attemptNumber policy;
                     em_authorizationSequence := sequence; em_toolCallId := toolCallId;
                     em_operation := operation; em_path := path; em_authorizedAt := authorizedAt;
                     em_toolResult := None; em_observedAt := None; em_postState := None |}
        else None
      in match accepted with
         | Some m => Ok m
         | None => Err "External mutation authorization record is invalid"
         end
  | _ => Err "External mutation authorization must be an object"
  end.

(** [`${attemptId}:${sequence}`] *)
Definition mutation_id (attemptId : string) (sequence : Z) : string := attemptId +:+ ":" +:+ pretty sequence.

(** ** Reading the file *)

(** The loop variables of the parser. *)
Record ParseState := {
  ps_events : list ExternalMutationJournalEvent; ps_mutations : jsmap string ExternalMutationRecord;
  ps_observed : list string; ps_expected : Z }.
Definition parse_start : ParseState :=
  {| ps_events := []; ps_mutations := []; ps_observed := []; ps_expected := 1 |}.

Definition parse_authorized (policy : ExternalMutationJournalPolicy) (v : json) (journalSequence : Z)
    (st : ParseState) : journal_result ParseState :=
  mutation ← parseMutation (prop v "mutation") policy;
  refuse (negb (em_authorizationSequence mutation =? ps_expected st))
    "External mutation authorization sequence is not contiguous" (
  refuse (negb (String.eqb (em_mutationId mutation) (mutation_id (jp_attemptId policy) (em_authorizationSequence mutation))))
    "External mutation ID does not match its attempt and sequence" (
  refuse (jm_has (em_mutationId mutation) (ps_mutations st)) "External mutation ID is duplicated" (
  Ok {| ps_events := ps_events st ++ [Authorized journalSequence mutation];
        ps_mutations := jm_set (em_mutationId mutation) mutation (ps_mutations st);
        ps_observed := ps_observed st; ps_expected := ps_expected st + 1 |}))).

Definition parse_observed (v : json) (journalSequence : Z) (st : ParseState) : journal_result ParseState :=
  match (if is_str (prop v "type") "observed" then read_id (prop v "mutationId") else None) with
  | Some mutationId =>
      refuse (negb (jm_has mutationId (ps_mutations st))) "External mutation observation has no authorization" (
      refuse (bool_decide (mutationId ∈ ps_observed st)) "External mutation has multiple post-state observations" (
      match read_result (prop v "toolResult"), validTimestamp (prop v "observedAt") with
      | None, _ => Err "External mutation tool result is invalid"
      | _, None => Err "External mutation observation timestamp is invalid"
      | Some toolResult, Some observedAt =>
          postState ← parsePostState (prop v "postState");
          Ok {| ps_events := ps_events st ++ [Observed journalSequence mutationId toolResult observedAt postState];
                ps_mutations := ps_mutations st; ps_observed := ps_observed st ++ [mutationId];
                ps_expected := ps_expected st |}
      end))
  | None => Err "External mutation observation has no authorization"
  end.

Definition parse_record (policy : ExternalMutationJournalPolicy) (journalSequence : Z) (line : jsstring)
    (st : ParseState) : journal_result ParseState :=
  match JSON_parse line with
  | Some (JsonObject _ as v) =>
      refuse (negb (is_int (prop v "journalVersion") EXTERNAL_MUTATION_JOURNAL_VERSION))
        "External mutation journal record has an invalid version" (
      refuse (negb (is_int (prop v "journalSequence") journalSequence))
        "External mutation journal sequence is not contiguous" (
      if is_str (prop v "type") "authorized" then parse_authorized policy v journalSequence st
      else parse_observed v journalSequence st))
  | Some _ => Err "External mutation journal record has an invalid version"
  | None => Err "External mutation journal record is not valid JSON"
  end.
Fixpoint parse_records (policy : ExternalMutationJournalPolicy) (index : Z) (lines : list jsstring)
    (st : ParseState) : journal_result ParseState :=
  match lines with
  | [] => Ok st
  | line :: lines' => st' ← parse_record policy (index + 1) line st; parse_records policy (index + 1) lines' st'
  end.

(** How many bytes of a malformed sequence are replaced by one U+FFFD: the longest part that
    begins a code point, or one byte. *)
Definition malformed_length (bs : bytes) : nat :=
  match bs with
  | a :: b :: r =>
      let second :=
        if a =? 224 then (160 <=? b) && (b <=? 191)
        else if a =? 237 then (128 <=? b) && (b <=? 159)
        else if (225 <=? a) && (a <=? 239) then is_cont b
        else if a =? 240 then (144 <=? b) && (b <=? 191)
        else if a =? 244 then (128 <=? b) && (b <=? 143)
        else if (241 <=? a) && (a <=? 243) then is_cont b
        else false in
      if second then
        match r with
        | c :: _ => if (240 <=? a) && is_cont c then 3%nat else 2%nat
        | [] => 2%nat
        end
      else 1%nat
  | _ => 1%nat
  end.
Fixpoint replacing (fuel : nat) (bs : bytes) : list Z :=
  match bs with
  | [] => []
  | _ => match fuel with
         | O => []
         | S fuel' =>
             match utf8_next bs with
             | Some (c, rest) => c :: replacing fuel' rest
             | None => 65533 :: replacing fuel' (drop (malformed_length bs) bs)
             end
         end
  end.
(** [content.toString("utf8")] *)
Definition utf8_text (bs : bytes) : jsstring := units (replacing (length bs) bs).

(** [text.slice(0, text.lastIndexOf("\n") + 1)] *)
Fixpoint through_last_lf (s : jsstring) : jsstring :=
  match s with
  | [] => []
  | u :: s' => match through_last_lf s' with
               | [] => if u =? LF then [u] else []
               | t => u :: t
               end
  end.
(** [text.split("\n").filter((line) => line.length > 0)] *)
Definition record_lines (text : jsstring) : list jsstring := keep (fun l => negb (zlen l =? 0)) (split_lf text).

(** The text of the complete records. *)
Definition complete_text (allowIncompleteTail : bool) (text : jsstring) : journal_result jsstring :=
  if (0 <? zlen text) && negb (ends_with_lf text) then
    if allowIncompleteTail then Ok (through_last_lf text)
    else Err "External mutation journal has an incomplete record"
  else Ok text.
Definition parse_content (policy : ExternalMutationJournalPolicy) (allowIncompleteTail : bool) (content : bytes)
  : journal_result (list ExternalMutationJournalEvent) :=
  refuse (MAX_JOURNAL_BYTES <? zlen content) "External mutation journal exceeds its size limit" (
  text ← complete_text allowIncompleteTail (utf8_text content);
  st ← parse_records policy 0 (record_lines text) parse_start;
  Ok (ps_events st)).
Definition parseExternalMutationJournal (policy : ExternalMutationJournalPolicy) (allowIncompleteTail : bool)
  : journal_result (list ExternalMutationJournalEvent) :=
  validated ← validateExternalMutationJournalPolicy policy;
  content ← or_throw (readFileSync files (jp_path validated));
  parse_content validated allowIncompleteTail content.
Definition readExternalMutationJournal (policy : ExternalMutationJournalPolicy)
  : journal_result (list ExternalMutationJournalEvent) := parseExternalMutationJournal policy false.

(** ** Delivering events: [ExternalMutationJournalReader] *)

(** What [drain] throws: the parser's error, or that of the consumer. *)
Inductive drain_error (E : Type) := ReadFailed (message : string) | ConsumerFailed (e : E).
Arguments ReadFailed {E} message. Arguments ConsumerFailed {E} e.

Section drain.
Context {S E : Type} (onEvent : ExternalMutationJournalEvent -> M S E unit).

(** The state is that of the consumer and [deliveredSequence]. *)
Definition deliver (event : ExternalMutationJournalEvent) : M (S * Z) (drain_error E) unit := fun '(s, delivered) =>
  if ev_sequence event <=? delivered then ((s, delivered), Ok tt)
  else match onEvent event s with
       | (s', Ok _) => ((s', ev_sequence event), Ok tt)
       | (s', Err e) => ((s', delivered), Err (ConsumerFailed e))
       end.
Definition drain (policy : ExternalMutationJournalPolicy) : M (S * Z) (drain_error E) Z :=
  match parseExternalMutationJournal policy true with
  | Err message => throw (ReadFailed message)
  | Ok events => forM_ events deliver ;; w ← get; mret (snd w)
  end.
End drain.
End journal.
Arguments ReadFailed {E} message. Arguments ConsumerFailed {E} e.

(** ** Appending: [ExternalMutationJournalWriter] *)

Record JournalWriter := {
  jw_policy : ExternalMutationJournalPolicy; jw_journalSequence : Z; jw_authorizationSequence : Z;
  jw_appendFailure : bool; jw_active : jsmap string ExternalMutationRecord; jw_authorizedToolCallIds : list string }.

Definition authorized_calls (events : list ExternalMutationJournalEvent) : list string :=
  omap (fun e => match e with Authorized _ m => Some (em_toolCallId m) | _ => None end) events.
(** [new ExternalMutationJournalWriter(policy)] *)
Definition new_JournalWriter (host : JournalHost) (files : JournalFiles) (policy : ExternalMutationJournalPolicy)
  : journal_result JournalWriter :=
  validated ← validateExternalMutationJournalPolicy host files policy;
  existing ← readExternalMutationJournal host files validated;
  Ok {| jw_policy := validated; jw_journalSequence := zlen existing;
        jw_authorizationSequence := zlen (authorized_calls existing); jw_appendFailure := false;
        jw_active := []; jw_authorizedToolCallIds := authorized_calls existing |}.

(** The answers of the calls of one append: [None] is a [writeSync] that throws. *)
Record disk := { dk_opened : bool; dk_writes : list (option nat); dk_synced : bool; dk_closed : bool }.

(** The bytes that were written, and whether all were. *)
Fixpoint write_loop (answers : list (option nat)) (bs : bytes) : bytes * bool :=
  match bs with
  | [] => ([], true)
  | _ =>
      match answers with
      | Some n :: answers' =>
          if (n =? 0)%nat then ([], false)
          else let '(written, whole) := write_loop answers' (drop n bs) in (take n bs ++ written, whole)
      | _ => ([], false)
      end
  end.
Definition appendDurably (d : disk) (bs : bytes) : bytes * bool :=
  if dk_opened d then
    let '(written, whole) := write_loop (dk_writes d) bs in (written, whole && dk_synced d && dk_closed d)
  else ([], false).

(** A method of the writer: the journal file and the writer. *)
Definition W (A : Type) : Type := M (bytes * JournalWriter) string A.

Definition set_writer (w : JournalWriter) : W unit := modify (fun s => (s.1, w)).
Definition append (d : disk) (event : ExternalMutationJournalEvent) : W unit := fun '(file, w) =>
  if jw_appendFailure w then ((file, w), Err "External mutation journal is unusable after an append failure")
  else let '(written, done_) := appendDurably d (event_bytes event) in
       if done_ then ((file ++ written, w), Ok tt)
       else ((file ++ written,
              {| jw_policy := jw_policy w; jw_journalSequence := jw_journalSequence w;
                 jw_authorizationSequence := jw_authorizationSequence w; jw_appendFailure := true;
                 jw_active := jw_active w; jw_authorizedToolCallIds := jw_authorizedToolCallIds w |}),
             Err "append failed").

Section writer.
Variable host : JournalHost.

(** The record an authorization writes. *)
Definition new_mutation (w : JournalWriter) (toolCallId : string) (operation : mutation_operation) (path : string)
    (authorizedAt : Z) : ExternalMutationRecord :=
  let policy := jw_policy w in
  let sequence := jw_authorizationSequence w + 1 in
  {| em_mutationId := mutation_id (jp_attemptId policy) sequence; em_runId := jp_runId policy;
     em_taskId := jp_taskId policy; em_attemptId := jp_attemptId policy; em_attemptNumber := jp_attemptNumber policy;
     em_authorizationSequence := sequence; em_toolCallId := toolCallId; em_operation := operation;
     em_path := path; em_authorizedAt := authorizedAt;
     em_toolResult := None; em_observedAt := None; em_postState := None |}.

Definition authorize (d : disk) (toolCallId : string) (operation : mutation_operation) (path : string)
    (authorizedAt : Z) : W ExternalMutationRecord :=
  s ← get;
  let w := s.2 in
  throw_if (jw_appendFailure w) "External mutation journal is unusable after an append failure" ;;
  throw_if (negb (validId toolCallId)) "External mutation toolCallId is invalid" ;;
  throw_if (negb (normalized host path) || (MAX_PATH_CHARS <? zlen (js path))) "External mutation path is invalid" ;;
  throw_if (bool_decide (toolCallId ∈ jw_authorizedToolCallIds w))
    "External mutation tool call has already been authorized" ;;
  throw_if (MAX_EXTERNAL_MUTATIONS_PER_ATTEMPT <=? jw_authorizationSequence w)
    "External mutation attempt exceeds its authorized operations" ;;
  let mutation := new_mutation w toolCallId operation path authorizedAt in
  append d (Authorized (jw_journalSequence w + 1) mutation) ;;
  set_writer {| jw_policy := jw_policy w; jw_journalSequence := jw_journalSequence w + 1;
                jw_authorizationSequence := jw_authorizationSequence w + 1; jw_appendFailure := false;
                jw_active := jm_set toolCallId mutation (jw_active w);
                jw_authorizedToolCallIds := jw_authorizedToolCallIds w ++ [toolCallId] |} ;;
  mret mutation.

(** [observe] up to its [await]: the mutation it waits for. *)
Definition observe_begin (toolCallId : string) (w : JournalWriter) : option ExternalMutationRecord :=
  jm_get toolCallId (jw_active w).
Definition observe_end (d : disk) (toolCallId : string) (mutation : ExternalMutationRecord)
    (toolResult : mutation_result) (observedAt : Z) (postState : ExternalMutationPostState) : W unit :=
  s ← get;
  let w := s.2 in
  append d (Observed (jw_journalSequence w + 1) (em_mutationId mutation) toolResult observedAt postState) ;;
  set_writer {| jw_policy := jw_policy w; jw_journalSequence := jw_journalSequence w + 1;
                jw_authorizationSequence := jw_authorizationSequence w; jw_appendFailure := false;
                jw_active := jm_delete toolCallId (jw_active w);
                jw_authorizedToolCallIds := jw_authorizedToolCallIds w |}.
End writer.

(** ** The state of a written file *)

Inductive lstat_answer := StatMissing | StatFailed | Stat (s : Stats).
(** [before] and [after] are the two answers of [lstat], [digest] that of the read in between. *)
Definition captureExternalMutationPostState (before : lstat_answer) (digest : option string) (after : lstat_answer)
  : ExternalMutationPostState :=
  match before with
  | StatMissing => Unavailable Missing
  | StatFailed => Unavailable ReadError
  | Stat b =>
      if negb (st_isFile b) || st_isSymbolicLink b || negb (Z.abs (st_size b) <=? MAX_SAFE_INTEGER)
      then Unavailable NotRegularFile
      else match digest, after with
           | Some sha256, Stat a =>
               if negb (st_isFile a) || st_isSymbolicLink a || negb (st_size a =? st_size b)
                  || negb (SFeqb (st_mtimeMs a) (st_mtimeMs b)) || negb (st_ino a =? st_ino b)
               then Unavailable ChangedDuringObservation
               else Confirmed (st_size a) (Z.land (st_mode a) 4095) (st_mtimeMs a) sha256
           | _, _ => Unavailable ReadError
           end
  end.
