(* ===== verification/MutationJournalTheorems.v ===== *)
(** * What the journal of external mutations guarantees
    (packages/permissions/src/external-mutation-journal.ts)

    The parser accepts exactly the histories that a writer can have written, and whatever
    fails or is cut short, the complete records of a journal are such a history. *)
From Stdlib Require Import SpecFloat.
From S2P Require Import Prelude JsNumber SessionTypes JsText JsValue JsonNumber JsonText JsonTextTheorems.
From S2P Require Import Truncate Validation DurableJson DurableRoundtrip JsonlCodec JsonlCodecTheorems.
From S2P Require Import JsonlStorage JsonlLoading RetryPolicy MutationJournal.

(** ** Texts that survive UTF-8 *)

(** A text without unpaired surrogates. *)
Definition encodable (s : jsstring) : Prop := exists cs, Forall (fun c => is_scalar c = true) cs /\ s = units cs.

Lemma encodable_nil : encodable [].
Proof. by exists []. Qed.
Lemma encodable_app s t : encodable s -> encodable t -> encodable (s ++ t).
Proof.
  intros (cs & Hcs & ->) (ds & Hds & ->). exists (cs ++ ds). split; [by apply Forall_app|].
  unfold units. by rewrite fmap_app, concat_app.
Qed.
Lemma encodable_scalar c : is_scalar c = true -> encodable (units_of c).
Proof. intros Hc. exists [c]. split; [by constructor|]. unfold units. csimpl. by rewrite app_nil_r. Qed.
Lemma encodable_plain u s : 0 <= u < 55296 -> encodable s -> encodable (u :: s).
Proof.
  intros Hu Hs. change (u :: s) with ([u] ++ s). apply encodable_app; [|done].
  assert (Hc : units_of u = [u]) by (unfold units_of; by rewrite (proj2 (Z.ltb_lt u 65536)) by lia).
  rewrite <-Hc. apply encodable_scalar, is_scalar_spec. lia.
Qed.
Lemma encodable_all s : Forall (fun u => 0 <= u < 55296) s -> encodable s.
Proof. induction 1; [apply encodable_nil|by apply encodable_plain]. Qed.

Lemma encodable_quote_unit u : unit_ok u -> encodable (quote_unit u).
Proof.
  intros Hu. unfold unit_ok in Hu. unfold quote_unit.
  repeat (case_match; [apply encodable_all; repeat constructor; lia|]).
  destruct (_ || is_low u) eqn:E.
  - apply encodable_all. unfold unicode_escape, hex_digit.
    pose proof (Z.div_pos u 4096). pose proof (Z.div_lt_upper_bound u 4096 16).
    pose proof (Z.mod_pos_bound (u / 256) 16). pose proof (Z.mod_pos_bound (u / 16) 16). pose proof (Z.mod_pos_bound u 16).
    repeat constructor; repeat case_match; lia.
  - apply orb_false_iff in E as [[_ Hh]%orb_false_iff Hl].
    assert (Hc : units_of u = [u]) by (unfold units_of; by rewrite (proj2 (Z.ltb_lt u 65536)) by lia).
    rewrite <-Hc. apply encodable_scalar, is_scalar_spec. unfold is_high, is_low in *.
    rewrite andb_false_iff, !Z.leb_gt in *. lia.
Qed.
Lemma encodable_quote_units n s : (length s <= n)%nat -> Forall unit_ok s -> encodable (quote_units s).
Proof.
  revert s. induction n as [|n IH]; intros s Hn Hs.
  { destruct s; [apply encodable_nil|simpl in Hn; lia]. }
  destruct s as [|a s']; [apply encodable_nil|]. apply Forall_cons in Hs as [Ha Hs]. simpl in Hn. cbn [quote_units].
  assert (Hone : encodable (quote_unit a ++ quote_units s')).
  { apply encodable_app; [by apply encodable_quote_unit|]. apply IH; [lia|done]. }
  destruct (is_high a) eqn:Hh; [|done]. destruct s' as [|b s'']; [by apply encodable_quote_unit|].
  destruct (is_low b) eqn:Hl; [|done]. apply Forall_cons in Hs as [_ Hs]. simpl in Hn.
  change (a :: b :: quote_units s'') with ([a; b] ++ quote_units s''). apply encodable_app; [|apply IH; [lia|done]].
  unfold is_high, is_low in *. rewrite andb_true_iff, !Z.leb_le in *.
  exists [65536 + (a - 55296) * 1024 + (b - 56320)]. split.
  - constructor; [apply is_scalar_spec; lia|constructor].
  - unfold units, units_of. csimpl. rewrite (proj2 (Z.ltb_ge _ 65536)) by lia. cbn [app].
    assert (Hd : (65536 + (a - 55296) * 1024 + (b - 56320) - 65536) / 1024 = a - 55296)
      by (symmetry; apply Z.div_unique_pos with (b - 56320); lia).
    assert (Hm : (65536 + (a - 55296) * 1024 + (b - 56320) - 65536) mod 1024 = b - 56320)
      by (symmetry; apply Z.mod_unique_pos with (a - 55296); lia).
    rewrite Hd, Hm. f_equal; [lia|f_equal; lia].
Qed.
Lemma encodable_quote s : encodable (quote (js s)).
Proof.
  unfold quote. apply encodable_plain; [lia|]. apply encodable_app; [|by apply encodable_all; repeat constructor].
  eapply encodable_quote_units; [done|apply js_ok].
Qed.
Lemma encodable_commas {A} (text : A -> jsstring) items :
  Forall (fun a => encodable (text a)) items -> encodable (commas (text <$> items)).
Proof.
  induction 1 as [|a items Ha _ IH]; [apply encodable_nil|]. rewrite fmap_cons, commas_cons. apply encodable_app; [done|].
  destruct items as [|b items]; [apply encodable_nil|]. rewrite fmap_cons in *. by apply encodable_plain.
Qed.
(** The text of a value never holds half of a surrogate pair. *)
Lemma encodable_stringify v : json_ok v = true -> encodable (JSON_stringify v).
Proof.
  induction v as [|b|n|s|items IH|props IH] using json_nested_ind; intros Hok.
  - by apply encodable_all; repeat constructor.
  - by destruct b; apply encodable_all; repeat constructor.
  - cbn [JSON_stringify json_ok] in *. unfold num_ok in Hok. rewrite !andb_true_iff in Hok. destruct Hok as [[H1 H2] _].
    destruct (num_text_spec n H1 H2) as (t & -> & [Ht _] & _). cbn [from_option id]. apply encodable_all.
    eapply Forall_impl; [exact Ht|]. unfold number_unit, is_dec. intros u.
    rewrite !orb_true_iff, andb_true_iff, !Z.leb_le, !Z.eqb_eq. lia.
  - apply encodable_quote.
  - cbn [JSON_stringify json_ok] in *. apply encodable_plain; [lia|].
    apply encodable_app; [|by apply encodable_all; repeat constructor].
    apply encodable_commas, Forall_forall. intros x Hx. rewrite Forall_forall in IH. apply IH; [done|].
    rewrite forallb_forall in Hok. by apply Hok, list_elem_of_In.
  - cbn [JSON_stringify json_ok] in *. apply andb_true_iff in Hok as [_ Hok]. apply encodable_plain; [lia|].
    apply encodable_app; [|by apply encodable_all; repeat constructor].
    apply encodable_commas, Forall_forall. intros x Hx. rewrite Forall_forall in IH.
    apply encodable_app; [apply encodable_quote|]. apply encodable_plain; [lia|]. apply IH; [done|].
    rewrite forallb_forall in Hok. by apply Hok, list_elem_of_In.
Qed.

(** ** Decoding with replacement *)

Lemma utf8_next_shorter bs c r : utf8_next bs = Some (c, r) -> (length r < length bs)%nat.
Proof. unfold utf8_next. intros H. repeat case_match; simplify_eq; simpl; lia. Qed.
Lemma malformed_length_pos bs : (1 <= malformed_length bs)%nat.
Proof. unfold malformed_length. repeat case_match; lia. Qed.
Lemma replacing_fuel f f' bs : (length bs <= f)%nat -> (length bs <= f')%nat -> replacing f bs = replacing f' bs.
Proof.
  revert f' bs. induction f as [|f IH]; intros f' bs Hf Hf'.
  { destruct bs; [by destruct f'|simpl in Hf; lia]. }
  destruct bs as [|a bs]; [by destruct f'|]. destruct f' as [|f']; [simpl in Hf'; lia|].
  set (b := a :: bs) in *. change (replacing (S f) b) with
    (match utf8_next b with Some (c, rest) => c :: replacing f rest
     | None => 65533 :: replacing f (drop (malformed_length b) b) end).
  change (replacing (S f') b) with
    (match utf8_next b with Some (c, rest) => c :: replacing f' rest
     | None => 65533 :: replacing f' (drop (malformed_length b) b) end).
  destruct (utf8_next b) as [[c r]|] eqn:E.
  - apply utf8_next_shorter in E. f_equal. apply IH; lia.
  - f_equal. pose proof (malformed_length_pos b). assert (0 < length b)%nat by (unfold b; simpl; lia).
    apply IH; rewrite length_drop; lia.
Qed.
Lemma replacing_utf8 cs bs f :
  Forall (fun c => is_scalar c = true) cs -> (length (utf8 cs ++ bs) <= f)%nat ->
  replacing f (utf8 cs ++ bs) = cs ++ replacing (length bs) bs.
Proof.
  intros Hcs. revert f. induction Hcs as [|c cs Hc Hcs IH]; intros f Hf.
  { simpl in *. by apply replacing_fuel. }
  unfold utf8 in *. rewrite fmap_cons in *. cbn [concat] in *. rewrite <-(assoc_L (++)) in *.
  pose proof (utf8_of_nonempty c) as Hne. destruct (utf8_of c ++ _) as [|b l] eqn:Hl; [by apply app_nil in Hl as [? _]|].
  destruct f as [|f]; [simpl in Hf; lia|].
  change (replacing (S f) (b :: l)) with
    (match utf8_next (b :: l) with Some (c', rest) => c' :: replacing f rest
     | None => 65533 :: replacing f (drop (malformed_length (b :: l)) (b :: l)) end).
  rewrite <-Hl, utf8_next_of by done. cbn [app]. f_equal. apply IH.
  assert (length (b :: l) = length (utf8_of c ++ concat (utf8_of <$> cs) ++ bs)) as Hlen by by rewrite Hl.
  rewrite length_app in Hlen. assert (0 < length (utf8_of c))%nat by (destruct (utf8_of c); [done|simpl; lia]). lia.
Qed.
Lemma utf8_next_lf bs r : utf8_next bs = Some (10, r) -> 10 ∈ bs.
Proof.
  unfold utf8_next. destruct bs as [|a bs]; [done|]. case_match; [intros [= <- _]; by left|].
  intros H0. exfalso. repeat case_match; simplify_eq.
  - match goal with H : _ && _ = true |- _ => apply andb_true_iff in H as [? ?] end. unfold is_cont in *. rewrite ?andb_true_iff, ?Z.leb_le in *. lia.
  - match goal with H : _ && is_scalar _ = true |- _ => rewrite !andb_true_iff, Z.leb_le in H end. lia.
  - match goal with H : _ && is_scalar _ = true |- _ => rewrite !andb_true_iff, Z.leb_le in H end. lia.
Qed.
Lemma utf8_next_suffix bs c r : utf8_next bs = Some (c, r) -> r `suffix_of` bs.
Proof.
  unfold utf8_next. intros H. repeat case_match; simplify_eq;
    first [by eexists [_]|by eexists [_; _]|by eexists [_; _; _]|by eexists [_; _; _; _]].
Qed.
Lemma replacing_lf f bs : 10 ∈ replacing f bs -> 10 ∈ bs.
Proof.
  revert bs. induction f as [|f IH]; intros bs.
  { destruct bs; by intros ?%elem_of_nil. }
  destruct bs as [|a bs]; [done|]. set (b := a :: bs).
  change (replacing (S f) b) with
    (match utf8_next b with Some (c, rest) => c :: replacing f rest
     | None => 65533 :: replacing f (drop (malformed_length b) b) end).
  destruct (utf8_next b) as [[c r]|] eqn:E.
  - intros [<-|H]%elem_of_cons; [by eapply utf8_next_lf|]. apply utf8_next_suffix in E as [k ->].
    apply elem_of_app. right. by apply IH.
  - intros [?|H]%elem_of_cons; [done|]. apply IH in H. apply list_elem_of_lookup in H as [i Hi]. rewrite lookup_drop in Hi. by eapply list_elem_of_lookup_2.
Qed.
Lemma units_lf cs : 10 ∈ units cs -> 10 ∈ cs.
Proof.
  unfold units. induction cs as [|c cs IH]; csimpl; [done|].
  rewrite elem_of_app, elem_of_cons. intros [H|H]; [|auto]. left. unfold units_of in H.
  destruct (Z.ltb_spec c 65536); [by apply list_elem_of_singleton in H|].
  assert (0 <= (c - 65536) / 1024) by (apply Z.div_pos; lia). pose proof (Z.mod_pos_bound (c - 65536) 1024).
  apply elem_of_cons in H as [H|H]; [lia|]. apply list_elem_of_singleton in H. lia.
Qed.
(** Whole characters come back; what follows them cannot make up a line feed. *)
Lemma utf8_text_encoded s bs : encodable s -> utf8_text (text_encode s ++ bs) = s ++ utf8_text bs.
Proof.
  intros (cs & Hcs & ->). unfold utf8_text, text_encode. rewrite scalars_units by done.
  rewrite replacing_utf8 by done. unfold units. by rewrite fmap_app, concat_app.
Qed.
Lemma utf8_text_lf bs : 10 ∉ bs -> 10 ∉ utf8_text bs.
Proof. intros H Hin. by apply H, (replacing_lf (length bs)), units_lf. Qed.
Lemma text_encode_app s t : encodable s -> encodable t -> text_encode (s ++ t) = text_encode s ++ text_encode t.
Proof.
  intros (cs & Hcs & ->) (ds & Hds & ->). unfold text_encode.
  assert (H : units cs ++ units ds = units (cs ++ ds)) by (unfold units; by rewrite fmap_app, concat_app).
  rewrite H, !scalars_units by (done || by apply Forall_app). unfold utf8. by rewrite fmap_app, concat_app.
Qed.

(** ** Histories *)

#[local] Arguments safe_field : simpl never.
#[local] Arguments is_int : simpl never.
#[local] Arguments read_id : simpl never.
#[local] Arguments read_path : simpl never.
#[local] Arguments read_operation : simpl never.
#[local] Arguments read_result : simpl never.
#[local] Arguments validTimestamp : simpl never.

Definition time_ok (t : Z) : Prop := 0 <= t <= MAX_SAFE_INTEGER.
Definition authorizations (evs : list ExternalMutationJournalEvent) : list ExternalMutationRecord :=
  omap (fun e => match e with Authorized _ m => Some m | _ => None end) evs.
Definition observations (evs : list ExternalMutationJournalEvent) : list string :=
  omap (fun e => match e with Observed _ id _ _ _ => Some id | _ => None end) evs.

Lemma authorizations_app a b : authorizations (a ++ b) = authorizations a ++ authorizations b.
Proof. apply omap_app. Qed.
Lemma observations_app a b : observations (a ++ b) = observations a ++ observations b.
Proof. apply omap_app. Qed.
Lemma authorized_calls_spec evs : authorized_calls evs = em_toolCallId <$> authorizations evs.
Proof. induction evs as [|[] evs IH]; csimpl; [done|by f_equal|done]. Qed.

Definition post_state_ok (p : ExternalMutationPostState) : Prop :=
  match p with
  | Confirmed size mode modifiedAtMs sha256 =>
      time_ok size /\ time_ok mode /\ num_is_finite modifiedAtMs = true /\ is_sha256 sha256 = true
  | Unavailable _ => True
  end.

Lemma safe_field_int z : Z.abs z <= MAX_SAFE_INTEGER -> safe_field (Some (JsonNumber (num_of_Z z))) = Some z.
Proof. intros H. unfold safe_field, num_is_safe_integer. rewrite num_to_Z_of_Z by done. by rewrite (proj2 (Z.leb_le _ _) H). Qed.
Lemma safe_field_Some v z : safe_field v = Some z -> Z.abs z <= MAX_SAFE_INTEGER.
Proof.
  unfold safe_field, num_is_safe_integer. destruct v as [[]|]; try done.
  destruct (num_to_Z n) as [y|]; [|done]. destruct (Z.leb_spec (Z.abs y) MAX_SAFE_INTEGER); [|done]. by intros [= <-].
Qed.
Lemma is_int_of_Z z : Z.abs z <= MAX_SAFE_INTEGER -> is_int (Some (JsonNumber (num_of_Z z))) z = true.
Proof. intros H. unfold is_int, num_eq_Z. rewrite num_to_Z_of_Z by done. apply Z.eqb_refl. Qed.
Lemma validTimestamp_ok t : time_ok t -> validTimestamp (Some (JsonNumber (num_of_Z t))) = Some t.
Proof.
  intros [H0 H1]. unfold validTimestamp. rewrite safe_field_int by lia. cbn [mbind option_bind].
  by rewrite (proj2 (Z.leb_le _ _) H0).
Qed.
Lemma validTimestamp_Some v t : validTimestamp v = Some t -> time_ok t.
Proof.
  unfold validTimestamp. intros H. apply bind_Some in H as (z & Hz & H). destruct (Z.leb_spec 0 z); [|done].
  injection H as <-. apply safe_field_Some in Hz. split; lia.
Qed.
Lemma refuse_Ok {A} c message (k : result string A) a : refuse c message k = Ok a <-> c = false /\ k = Ok a.
Proof. unfold refuse. destruct c; split; naive_solver. Qed.
Lemma is_str_eq v s : is_str v s = true -> v = Some (JsonString s).
Proof. destruct v as [[]|]; try done. simpl. by intros ->%String.eqb_eq. Qed.

Lemma parsePostState_sound v p : parsePostState v = Ok p -> post_state_ok p.
Proof.
  unfold parsePostState. destruct v as [[| | | | |props]|]; try done.
  destruct (is_str _ "unavailable"); [repeat (case_match; [by intros [= <-]|]); done|].
  destruct (is_str _ "confirmed"); [|done]. cbv zeta.
  destruct (safe_field (prop _ "size")) as [size|] eqn:E1; [|done].
  destruct (safe_field (prop _ "mode")) as [mode|] eqn:E2; [|done].
  destruct (prop _ "modifiedAtMs") as [[]|]; try done. destruct (prop _ "sha256") as [[]|]; try done.
  destruct (_ && is_sha256 s) eqn:E; [|done]. intros [= <-]. rewrite !andb_true_iff, !Z.leb_le in E.
  apply safe_field_Some in E1, E2. simpl. unfold time_ok. split_and!; [lia..| |]; tauto.
Qed.
Lemma parsePostState_complete p : post_state_ok p -> parsePostState (Some (post_state_json p)) = Ok p.
Proof.
  destruct p as [size mode mtime sha|[]]; [|done..]. simpl. intros ((? & ?) & (? & ?) & Hn & Hs).
  unfold parsePostState, post_state_json. lookups. cbn [is_str String.eqb Ascii.eqb Bool.eqb].
  rewrite !safe_field_int by lia. by rewrite !(proj2 (Z.leb_le 0 _)), Hn, Hs by done.
Qed.

Section history.
Variables (host : JournalHost) (policy : ExternalMutationJournalPolicy).

(** The record of the [n]-th authorization of the policy's attempt. *)
Record authorizes (n : Z) (m : ExternalMutationRecord) : Prop := {
  au_sequence : em_authorizationSequence m = n; au_bound : 1 <= n <= MAX_EXTERNAL_MUTATIONS_PER_ATTEMPT;
  au_id : em_mutationId m = mutation_id (jp_attemptId policy) n; au_run : em_runId m = jp_runId policy;
  au_task : em_taskId m = jp_taskId policy; au_attempt : em_attemptId m = jp_attemptId policy;
  au_number : em_attemptNumber m = jp_attemptNumber policy; au_valid : validId (em_mutationId m) = true;
  au_call : validId (em_toolCallId m) = true; au_path : normalized host (em_path m) = true;
  au_length : 1 <= zlen (js (em_path m)) <= MAX_PATH_CHARS; au_time : time_ok (em_authorizedAt m);
  au_result : em_toolResult m = None; au_observed : em_observedAt m = None; au_state : em_postState m = None }.

(** Events are numbered from one; the [n]-th authorization has the [n]-th identifier; a
    mutation is observed at most once, after its authorization. *)
Inductive history : list ExternalMutationJournalEvent -> Prop :=
| history_nil : history []
| history_authorized evs m :
    history evs -> authorizes (zlen (authorizations evs) + 1) m -> history (evs ++ [Authorized (zlen evs + 1) m])
| history_observed evs m r t p :
    history evs -> m ∈ authorizations evs -> em_mutationId m ∉ observations evs -> time_ok t -> post_state_ok p ->
    history (evs ++ [Observed (zlen evs + 1) (em_mutationId m) r t p]).

Lemma history_authorizations evs i m :
  history evs -> authorizations evs !! i = Some m -> authorizes (Z.of_nat i + 1) m.
Proof.
  intros Hh. revert i. induction Hh as [|evs m' Hh IH Hm|evs m' r t p Hh IH Hm Hn Ht Hp]; intros i Hi; [done| |].
  - rewrite authorizations_app in Hi. apply lookup_app_Some in Hi as [Hi|[Hge Hi]]; [by apply IH|].
    cbn in Hi. apply list_lookup_singleton_Some in Hi as [Hz <-]. unfold zlen in Hm.
    by replace (Z.of_nat i) with (Z.of_nat (length (authorizations evs))) by lia.
  - rewrite authorizations_app in Hi. cbn in Hi. rewrite app_nil_r in Hi. by apply IH.
Qed.
Lemma mutation_id_inj a n m : mutation_id a n = mutation_id a m -> n = m.
Proof. unfold mutation_id. intros H. simplify_eq. done. Qed.
Lemma history_ids evs : history evs -> NoDup (em_mutationId <$> authorizations evs).
Proof.
  intros Hh. apply NoDup_alt. intros i j id Hi Hj.
  apply list_lookup_fmap_Some in Hi as (m & -> & Hm), Hj as (m' & Heq & Hm').
  apply (history_authorizations evs) in Hm, Hm'; [|done..].
  rewrite (au_id _ _ Hm), (au_id _ _ Hm') in Heq. apply mutation_id_inj in Heq. lia.
Qed.
(** The next identifier is new. *)
Lemma history_next_id evs :
  history evs -> mutation_id (jp_attemptId policy) (zlen (authorizations evs) + 1) ∉ em_mutationId <$> authorizations evs.
Proof.
  intros Hh [m [Heq [i Hi]%list_elem_of_lookup]]%list_elem_of_fmap. pose proof (lookup_lt_Some _ _ _ Hi).
  apply (history_authorizations evs) in Hi; [|done]. rewrite (au_id _ _ Hi) in Heq. apply mutation_id_inj in Heq. unfold zlen in Heq. lia.
Qed.

(** ** The parser accepts exactly the histories *)

(** The loop variables after the events [evs]. *)
Definition parsed (evs : list ExternalMutationJournalEvent) : ParseState :=
  {| ps_events := evs; ps_mutations := (fun m => (em_mutationId m, m)) <$> authorizations evs;
     ps_observed := observations evs; ps_expected := zlen (authorizations evs) + 1 |}.
Lemma parsed_keys evs : jm_keys (ps_mutations (parsed evs)) = em_mutationId <$> authorizations evs.
Proof. unfold jm_keys. simpl. by rewrite <-list_fmap_compose. Qed.

Lemma parsed_authorized evs n m :
  em_mutationId m ∉ em_mutationId <$> authorizations evs ->
  {| ps_events := evs ++ [Authorized n m]; ps_mutations := jm_set (em_mutationId m) m (ps_mutations (parsed evs));
     ps_observed := observations evs; ps_expected := zlen (authorizations evs) + 1 + 1 |} = parsed (evs ++ [Authorized n m]).
Proof.
  intros Hni. unfold parsed. rewrite authorizations_app, observations_app. cbn [authorizations observations omap list_omap].
  rewrite app_nil_r, zlen_app, fmap_app. f_equal.
  apply jm_set_fresh, jm_get_None. by rewrite <-parsed_keys in Hni.
Qed.
Lemma parsed_observed evs n id r t p :
  {| ps_events := evs ++ [Observed n id r t p]; ps_mutations := ps_mutations (parsed evs);
     ps_observed := observations evs ++ [id]; ps_expected := zlen (authorizations evs) + 1 |} =
  parsed (evs ++ [Observed n id r t p]).
Proof.
  unfold parsed. rewrite authorizations_app, observations_app. cbn [authorizations observations omap list_omap].
  by rewrite app_nil_r.
Qed.

Lemma read_id_Some v s : read_id v = Some s -> validId s = true.
Proof. unfold read_id. destruct v as [[]|]; try done. destruct (validId s0) eqn:E; [|done]. by intros [= <-]. Qed.
Lemma read_path_Some v s :
  read_path host v = Some s -> normalized host s = true /\ 1 <= zlen (js s) <= MAX_PATH_CHARS.
Proof.
  unfold read_path. destruct v as [[]|]; try done. destruct (_ && normalized host s0) eqn:E; [|done].
  intros [= <-]. rewrite !andb_true_iff, !Z.leb_le in E. tauto.
Qed.
Lemma read_id_ok s : validId s = true -> read_id (Some (JsonString s)) = Some s.
Proof. intros H. unfold read_id. by rewrite H. Qed.
Lemma parseMutation_sound v m :
  parseMutation host v policy = Ok m ->
  em_mutationId m = mutation_id (jp_attemptId policy) (em_authorizationSequence m) ->
  authorizes (em_authorizationSequence m) m.
Proof.
  unfold parseMutation. destruct v as [[| | | | |props]|]; try done. cbv zeta.
  case_match eqn:E; [|done]. intros [= <-] Hid.
  apply bind_Some in E as (id & Hi & E). apply bind_Some in E as (seq & Hseq & E).
  apply bind_Some in E as (call & Hcall & E). apply bind_Some in E as (op & _ & E).
  apply bind_Some in E as (path & Hpath & E). apply bind_Some in E as (t & Ht & E).
  destruct (_ && is_str _ "authorized") eqn:Ec; [|done]. injection E as <-. simpl in *.
  rewrite !andb_true_iff, !Z.leb_le in Ec. apply read_id_Some in Hi, Hcall. apply read_path_Some in Hpath as [Hn Hl].
  apply validTimestamp_Some in Ht. split; simpl; try done; tauto.
Qed.
Lemma parseMutation_complete n m :
  authorizes n m -> Z.abs (jp_attemptNumber policy) <= MAX_SAFE_INTEGER ->
  parseMutation host (Some (mutation_json m)) policy = Ok m.
Proof.
  intros [Hs Hb Hi H1 H2 H3 H4 Hv Hc Hp Hl Ht R1 R2 R3] Hnum. destruct m as [id run task att number seq call op path time r o ps].
  simpl in *. subst. unfold parseMutation, mutation_json. cbn [em_toolResult em_observedAt em_postState].
  unfold MAX_EXTERNAL_MUTATIONS_PER_ATTEMPT in Hb.
  lookups. rewrite (read_id_ok _ Hv), (read_id_ok _ Hc), safe_field_int by (unfold MAX_SAFE_INTEGER; lia).
  cbn [mbind option_bind].
  assert (read_operation (Some (JsonString (operation_name op))) = Some op) as -> by by destruct op.
  cbn [mbind option_bind]. unfold read_path. rewrite Hp, !(proj2 (Z.leb_le _ _)) by lia. cbn [andb mbind option_bind].
  rewrite validTimestamp_ok by done. cbn [mbind option_bind].
  rewrite !String.eqb_refl, is_int_of_Z, !(proj2 (Z.leb_le _ _)) by (done || unfold MAX_EXTERNAL_MUTATIONS_PER_ATTEMPT; lia).
  done.
Qed.

Lemma parse_record_sound evs line st :
  history evs -> parse_record host policy (zlen evs + 1) line (parsed evs) = Ok st ->
  exists e, history (evs ++ [e]) /\ st = parsed (evs ++ [e]).
Proof.
  intros Hh. unfold parse_record. destruct (JSON_parse line) as [[| | | | |props]|]; try done.
  intros [_ H]%refuse_Ok. apply refuse_Ok in H as [_ H]. revert H. destruct (is_str _ "authorized"); intros H.
  - unfold parse_authorized in H. apply bind_Ok in H as (m & Hm & H).
    apply refuse_Ok in H as [Hseq H]. apply refuse_Ok in H as [Hid H]. apply refuse_Ok in H as [Hnew H].
    apply negb_false_iff, Z.eqb_eq in Hseq. apply negb_false_iff, String.eqb_eq in Hid.
    apply jm_has_false, jm_get_None in Hnew. rewrite parsed_keys in Hnew. injection H as <-.
    exists (Authorized (zlen evs + 1) m). split.
    + apply history_authorized; [done|]. cbn [ps_expected parsed] in Hseq. rewrite <-Hseq. by eapply parseMutation_sound.
    + by apply parsed_authorized.
  - unfold parse_observed in H. destruct (if is_str _ "observed" then _ else None) as [id|] eqn:Hid; [|done].
    apply refuse_Ok in H as [Hin H]. apply refuse_Ok in H as [Hobs H].
    apply negb_false_iff, jm_has_spec in Hin as [m Hm]. apply jm_get_Some_elem in Hm.
    apply list_elem_of_fmap in Hm as (m' & [= -> ->] & Hm). apply bool_decide_eq_false in Hobs.
    destruct (read_result _) as [r|]; [|done]. destruct (validTimestamp _) as [t|] eqn:Ht; [|done].
    apply bind_Ok in H as (p & Hp & H). injection H as <-.
    exists (Observed (zlen evs + 1) (em_mutationId m') r t p). split; [|by apply parsed_observed].
    apply validTimestamp_Some in Ht. apply parsePostState_sound in Hp. by apply history_observed.
Qed.
Lemma parse_records_sound lines evs st :
  history evs -> parse_records host policy (zlen evs) lines (parsed evs) = Ok st ->
  exists evs', history evs' /\ st = parsed evs'.
Proof.
  revert evs. induction lines as [|line lines IH]; intros evs Hh H; cbn [parse_records] in H.
  { injection H as <-. by exists evs. }
  apply bind_Ok in H as (st' & H1 & H). apply parse_record_sound in H1 as (e & Hh' & ->); [|done].
  replace (zlen evs + 1) with (zlen (evs ++ [e])) in H by (rewrite zlen_app; done). by apply IH in H.
Qed.
Lemma parse_content_sound allow content evs : parse_content host policy allow content = Ok evs -> history evs.
Proof.
  unfold parse_content. intros [_ H]%refuse_Ok. apply bind_Ok in H as (text & _ & H).
  apply bind_Ok in H as (st & H & Hst). injection Hst as <-.
  apply (parse_records_sound _ []) in H as (evs & Hh & ->); [done|apply history_nil].
Qed.

Lemma history_snoc evs e :
  history (evs ++ [e]) -> history evs /\
  ((exists m, e = Authorized (zlen evs + 1) m /\ authorizes (zlen (authorizations evs) + 1) m) \/
   (exists m r t p, e = Observed (zlen evs + 1) (em_mutationId m) r t p /\ m ∈ authorizations evs /\
      (em_mutationId m ∉ observations evs) /\ time_ok t /\ post_state_ok p)).
Proof.
  intros H. inversion H as [Heq|evs' m Hh Hm Heq|evs' m r t p Hh Hm Hn Ht Hp Heq].
  - symmetry in Heq. by apply app_nil in Heq as [_ ?].
  - apply app_inj_tail in Heq as [-> <-]. split; [done|]. left. by exists m.
  - apply app_inj_tail in Heq as [-> <-]. split; [done|]. right. by exists m, r, t, p.
Qed.
Lemma history_prefix a b : history (a ++ b) -> history a.
Proof.
  induction b as [|e b IH] using rev_ind; [by rewrite app_nil_r|]. rewrite (assoc_L (++)). intros [H _]%history_snoc. by apply IH.
Qed.
Lemma history_sequence evs i e : history evs -> evs !! i = Some e -> ev_sequence e = Z.of_nat i + 1.
Proof.
  intros Hh Hi. apply list_elem_of_split_length in Hi as (a & b & -> & ->).
  rewrite app_cons_snoc in Hh. apply history_prefix, history_snoc in Hh as [_ [(m & -> & _)|(m & r & t & p & -> & _)]]; reflexivity.
Qed.

(** The text of an event is read back as JSON. *)
Definition text_ok (e : ExternalMutationJournalEvent) : Prop := json_ok (JsonObject (event_fields e)) = true.
Definition journal_bytes (evs : list ExternalMutationJournalEvent) : bytes := concat (event_bytes <$> evs).

Hypothesis Hnumber : Z.abs (jp_attemptNumber policy) <= MAX_SAFE_INTEGER.

Lemma parse_record_complete evs e :
  history (evs ++ [e]) -> zlen evs + 1 <= MAX_SAFE_INTEGER -> text_ok e ->
  parse_record host policy (zlen evs + 1) (event_line e) (parsed evs) = Ok (parsed (evs ++ [e])).
Proof.
  intros [Hh He]%history_snoc Hlen Hok. pose proof (zlen_nonneg evs). unfold parse_record, event_line.
  rewrite parse_stringify by done. unfold refuse.
  destruct He as [(m & -> & Hm)|(m & r & t & p & -> & Hin & Hni & Ht & Hp)]; cbn [event_fields]; lookups;
    rewrite !is_int_of_Z by (done || lia); cbn [negb is_str String.eqb Ascii.eqb Bool.eqb].
  - unfold parse_authorized. lookups. rewrite (parseMutation_complete _ _ Hm) by done. cbn [mbind result_bind].
    pose proof (history_next_id evs Hh) as Hnew. rewrite <-(au_id _ _ Hm) in Hnew. unfold refuse.
    assert ((em_authorizationSequence m =? ps_expected (parsed evs)) = true) as -> by (apply Z.eqb_eq, (au_sequence _ _ Hm)).
    rewrite (au_sequence _ _ Hm), <-(au_id _ _ Hm), String.eqb_refl.
    assert (jm_has (em_mutationId m) (ps_mutations (parsed evs)) = false) as ->
      by (apply jm_has_false, jm_get_None; by rewrite parsed_keys).
    cbn [negb]. f_equal. by apply parsed_authorized.
  - unfold parse_observed. lookups. cbn [is_str String.eqb Ascii.eqb Bool.eqb].
    assert (validId (em_mutationId m) = true) as Hv.
    { apply list_elem_of_lookup in Hin as [i Hi]. apply (au_valid _ _ (history_authorizations _ _ _ Hh Hi)). }
    rewrite (read_id_ok _ Hv). unfold refuse.
    assert (jm_has (em_mutationId m) (ps_mutations (parsed evs)) = true) as ->.
    { destruct (jm_has _ _) eqn:E; [done|]. apply jm_has_false, jm_get_None in E. rewrite parsed_keys in E.
      destruct E. by apply list_elem_of_fmap_2. }
    rewrite bool_decide_false by done. cbn [negb].
    assert (read_result (Some (JsonString (result_name r))) = Some r) as -> by by destruct r.
    rewrite validTimestamp_ok, parsePostState_complete by done. cbn [mbind result_bind]. f_equal. apply parsed_observed.
Qed.
Lemma parse_records_complete pre post :
  history (pre ++ post) -> zlen (pre ++ post) <= MAX_SAFE_INTEGER -> Forall text_ok post ->
  parse_records host policy (zlen pre) (event_line <$> post) (parsed pre) = Ok (parsed (pre ++ post)).
Proof.
  revert pre. induction post as [|e post IH]; intros pre Hh Hlen Hok; [by rewrite app_nil_r|].
  apply Forall_cons in Hok as [He Hok]. rewrite app_cons_snoc in *. rewrite fmap_cons. cbn [parse_records].
  rewrite zlen_app, zlen_app in Hlen. pose proof (zlen_nonneg post). change (zlen [e]) with 1 in Hlen.
  rewrite parse_record_complete by (done || lia || by eapply history_prefix). cbn [mbind result_bind].
  replace (zlen pre + 1) with (zlen (pre ++ [e])) by by rewrite zlen_app. apply IH; [done| |done].
  rewrite !zlen_app. change (zlen [e]) with 1. lia.
Qed.

(** *** The file *)

Lemma event_line_encodable e : text_ok e -> encodable (event_line e ++ [LF]).
Proof. intros H. apply encodable_app; [by apply encodable_stringify|]. by apply encodable_all; repeat constructor. Qed.
Lemma event_line_no_lf e : text_ok e -> 10 ∉ event_line e.
Proof. intros H. apply (object_line _ H). Qed.
Lemma journal_text evs tail :
  Forall text_ok evs -> utf8_text (journal_bytes evs ++ tail) = as_lines (event_line <$> evs) ++ utf8_text tail.
Proof.
  unfold journal_bytes, as_lines. induction 1 as [|e evs He _ IH]; [done|]. rewrite !fmap_cons. cbn [concat].
  unfold event_bytes at 1. rewrite <-!(assoc_L (++)). rewrite utf8_text_encoded by by apply event_line_encodable.
  by rewrite IH, <-!(assoc_L (++)).
Qed.
Lemma record_lines_of ls :
  Forall (fun l : jsstring => (10 ∉ l) /\ l <> []) ls -> record_lines (as_lines ls) = ls.
Proof.
  intros H. unfold record_lines. rewrite <-(app_nil_r (as_lines ls)), split_lf_lines by
    (apply not_elem_of_nil || (eapply Forall_impl; [exact H|]; by intros ? [? _])).
  rewrite keep_app. cbn [keep zlen]. rewrite app_nil_r. apply keep_all. intros l Hl. rewrite Forall_forall in H.
  destruct (H l Hl) as [_ Hne]. apply negb_true_iff, Z.eqb_neq. destruct l; [done|]. unfold zlen. simpl. lia.
Qed.
Lemma through_last_lf_none x : 10 ∉ x -> through_last_lf x = [].
Proof.
  induction x as [|u x IH]; [done|]. intros [Hu Hx]%not_elem_of_cons. cbn [through_last_lf]. rewrite IH by done.
  by rewrite (proj2 (Z.eqb_neq u LF)) by (unfold LF; congruence).
Qed.
Lemma through_last_lf_snoc s x : 10 ∉ x -> through_last_lf (s ++ LF :: x) = s ++ [LF].
Proof.
  intros Hx. induction s as [|u s IH]; cbn [app through_last_lf]; [by rewrite through_last_lf_none|].
  rewrite IH. by destruct (s ++ [LF]) eqn:E; [apply app_nil in E as [_ ?]|].
Qed.
Lemma as_lines_snoc ls (l : jsstring) : as_lines (ls ++ [l]) = (as_lines ls ++ l) ++ [LF].
Proof. unfold as_lines. rewrite fmap_app, concat_app. cbn [fmap list_fmap concat]. by rewrite app_nil_r, (assoc_L (++)). Qed.
Lemma through_last_lf_lines ls x : 10 ∉ x -> through_last_lf (as_lines ls ++ x) = as_lines ls.
Proof.
  intros Hx. destruct ls as [|l ls _] using rev_ind; [by apply through_last_lf_none|].
  rewrite as_lines_snoc, <-(assoc_L (++)). by apply through_last_lf_snoc.
Qed.
Lemma complete_text_lines allow ls x :
  10 ∉ x -> complete_text allow (as_lines ls ++ x) =
  if allow || bool_decide (x = []) then Ok (as_lines ls) else Err "External mutation journal has an incomplete record".
Proof.
  intros Hx. unfold complete_text. destruct (decide (x = [])) as [->|Hne].
  - rewrite bool_decide_true, orb_true_r, app_nil_r by done.
    destruct ls as [|l ls _] using rev_ind; [done|]. rewrite as_lines_snoc. unfold ends_with_lf.
    rewrite last_snoc. by rewrite andb_false_r.
  - rewrite bool_decide_false, orb_false_r, through_last_lf_lines by done.
    assert (ends_with_lf (as_lines ls ++ x) = false) as ->.
    { destruct x as [|u x _] using rev_ind; [done|]. unfold ends_with_lf. rewrite (assoc_L (++)), last_snoc.
      apply Z.eqb_neq. intros ->. apply Hx, elem_of_app. right. by left. }
    assert ((0 <? zlen (as_lines ls ++ x)) = true) as ->; [|done].
    apply Z.ltb_lt. rewrite zlen_app. pose proof (zlen_nonneg (as_lines ls)). destruct x; [done|]. rewrite zlen_cons.
    pose proof (zlen_nonneg x). lia.
Qed.
Lemma utf8_text_nil bs : utf8_text bs = [] <-> bs = [].
Proof.
  split; [|by intros ->]. destruct bs as [|a bs]; [done|]. unfold utf8_text. cbn [length replacing].
  assert (Hu : forall c cs, units (c :: cs) <> []).
  { intros c cs. unfold units, units_of. csimpl. by destruct (c <? 65536). }
  destruct (utf8_next _) as [[c r]|]; intros H; by apply Hu in H.
Qed.
Lemma journal_bytes_length evs : (length evs <= length (journal_bytes evs))%nat.
Proof.
  unfold journal_bytes. induction evs as [|e evs IH]; csimpl; [lia|]. rewrite length_app.
  enough (0 < length (event_bytes e))%nat by lia. unfold event_bytes, text_encode, event_line. cbn [JSON_stringify app].
  rewrite scalars_cons. change (is_high 123) with false. change (is_low 123) with false. unfold utf8. csimpl.
  simpl. lia.
Qed.

(** The events of a history come back from its file, whatever cut-off record follows. *)
Lemma parse_content_complete allow evs tail :
  history evs -> Forall text_ok evs -> 10 ∉ tail -> zlen (journal_bytes evs ++ tail) <= MAX_JOURNAL_BYTES ->
  parse_content host policy allow (journal_bytes evs ++ tail) =
  if allow || bool_decide (tail = []) then Ok evs else Err "External mutation journal has an incomplete record".
Proof.
  intros Hh Hok Ht Hsize. unfold parse_content, refuse. rewrite (proj2 (Z.ltb_ge _ _)) by done.
  rewrite journal_text by done. rewrite complete_text_lines by by apply utf8_text_lf.
  rewrite (bool_decide_ext _ _ (utf8_text_nil tail)). destruct (allow || _); [|done]. cbn [mbind result_bind].
  rewrite record_lines_of.
  - change parse_start with (parsed []). change 0 with (zlen (@nil ExternalMutationJournalEvent)) at 1.
    rewrite (parse_records_complete [] evs); [done|done| |done]. cbn [app].
    pose proof (journal_bytes_length evs). unfold zlen in *. rewrite length_app in Hsize.
    unfold MAX_JOURNAL_BYTES, MAX_SAFE_INTEGER in *. lia.
  - apply Forall_fmap. eapply Forall_impl; [exact Hok|]. intros e He. split; [by apply event_line_no_lf|]. done.
Qed.
End history.

(** ** Texts of the writer *)

Lemma string_of_bytes_app a b : string_of_bytes (a ++ b) = string_of_bytes a +:+ string_of_bytes b.
Proof.
  unfold string_of_bytes. rewrite fmap_app. generalize ((fun x => Ascii.ascii_of_N (Z.to_N x)) <$> a) as l.
  induction l as [|c l IH]; [done|]. cbn [app String.string_of_list_ascii]. by rewrite IH.
Qed.
Lemma bytes_of_string_app a b : bytes_of_string (a +:+ b) = bytes_of_string a ++ bytes_of_string b.
Proof.
  unfold bytes_of_string. induction a as [|x a IH]; [done|].
  change (String x a +:+ b) with (String x (a +:+ b)). cbn [String.list_ascii_of_string]. by rewrite !fmap_cons, IH.
Qed.
Lemma of_js_app u v : of_js (u ++ v) = of_js u +:+ of_js v.
Proof. unfold of_js. by rewrite fmap_app, concat_app, string_of_bytes_app. Qed.
Lemma units_of_unit_list us r :
  Forall unit_ok us -> units_of_bytes (concat (unit_bytes <$> us) ++ r) = us ++ units_of_bytes r.
Proof.
  induction 1 as [|u us Hu _ IH]; [done|]. rewrite fmap_cons. cbn [concat]. rewrite <-(assoc_L (++)).
  rewrite units_of_unit_bytes by done. by rewrite IH.
Qed.
Lemma js_app a b : str_ok a = true -> js (a +:+ b) = js a ++ js b.
Proof.
  intros Ha. unfold js at 1. rewrite bytes_of_string_app. rewrite <-(str_ok_eq a Ha) at 1. unfold of_js at 1.
  rewrite bytes_of_string_of_bytes, units_of_unit_list by
    (apply js_ok || (apply Forall_concat, Forall_fmap; eapply Forall_impl; [apply js_ok|]; intros u; apply unit_bytes_ok)).
  done.
Qed.
Lemma str_ok_app a b : str_ok a = true -> str_ok b = true -> str_ok (a +:+ b) = true.
Proof.
  intros Ha Hb. unfold str_ok. apply String.eqb_eq. by rewrite js_app, of_js_app, (str_ok_eq a Ha), (str_ok_eq b Hb).
Qed.
Lemma code_points_app n s t :
  (length s <= n)%nat -> code_points (s ++ 58 :: t) = code_points s ++ code_points (58 :: t).
Proof.
  revert s. induction n as [|n IH]; intros s Hn; [destruct s; [done|simpl in Hn; lia]|].
  destruct s as [|a s]; [done|]. cbn [length] in Hn. destruct s as [|b s].
  - change ([a] ++ 58 :: t) with (a :: 58 :: t). cbn [code_points]. change (is_low 58) with false. by rewrite andb_false_r.
  - cbn [length] in Hn. change ((a :: b :: s) ++ 58 :: t) with (a :: b :: (s ++ 58 :: t)).
    assert (H1 := IH s ltac:(lia)). assert (H2 := IH (b :: s) ltac:(simpl; lia)).
    change ((b :: s) ++ 58 :: t) with (b :: (s ++ 58 :: t)) in H2.
    change (code_points (a :: b :: (s ++ 58 :: t))) with
      (if is_high a && is_low b then (65536 + (a - 55296) * 1024 + (b - 56320)) :: code_points (s ++ 58 :: t)
       else a :: code_points (b :: (s ++ 58 :: t))).
    change (code_points (a :: b :: s)) with
      (if is_high a && is_low b then (65536 + (a - 55296) * 1024 + (b - 56320)) :: code_points s
       else a :: code_points (b :: s)).
    destruct (is_high a && is_low b); [by rewrite H1|by rewrite H2].
Qed.

(** The suffix of the [n]-th identifier. *)
Definition suffix_fine (n : Z) : bool :=
  let s := ":" +:+ pretty n in
  str_ok s && (zlen (js s) <=? 4) && negb (existsb control_or_format (code_points (js s)))
  && bool_decide (head (js s) = Some 58).
Lemma suffixes_fine n : 1 <= n <= MAX_EXTERNAL_MUTATIONS_PER_ATTEMPT -> suffix_fine n = true.
Proof.
  intros Hn. assert (H : forallb suffix_fine (seqZ 1 256) = true) by (vm_compute; reflexivity).
  rewrite forallb_forall in H. apply H, list_elem_of_In, elem_of_seqZ. unfold MAX_EXTERNAL_MUTATIONS_PER_ATTEMPT in Hn. lia.
Qed.
Lemma mutation_id_ok a n :
  str_ok a = true -> validId a = true -> zlen (js a) <= 252 -> 1 <= n <= MAX_EXTERNAL_MUTATIONS_PER_ATTEMPT ->
  str_ok (mutation_id a n) = true /\ validId (mutation_id a n) = true.
Proof.
  intros Ha Hv Hl Hn. apply suffixes_fine in Hn. unfold suffix_fine in Hn. cbv zeta in Hn.
  set (s := ":" +:+ pretty n) in *. rewrite !andb_true_iff, negb_true_iff, Z.leb_le, bool_decide_eq_true in Hn.
  destruct Hn as [[[Hs Hlen] Hc] Hhead]. unfold mutation_id. fold s. split; [by apply str_ok_app|].
  unfold validId in *. rewrite !andb_true_iff, negb_true_iff in Hv. destruct Hv as [[Hv1 Hv2] Hv3].
  rewrite js_app by done. rewrite zlen_app. destruct (js s) as [|u t]; [done|]. injection Hhead as ->.
  rewrite (code_points_app _ _ _ (le_n _)), existsb_app, Hv3, Hc. apply Z.ltb_lt in Hv1.
  pose proof (zlen_nonneg t). rewrite zlen_cons in *. unfold MAX_ID_CHARS.
  by rewrite (proj2 (Z.ltb_lt _ _)), (proj2 (Z.leb_le _ _)) by lia.
Qed.

Lemma num_ok_int z : Z.abs z <= MAX_SAFE_INTEGER -> num_ok (num_of_Z z) = true.
Proof.
  intros H. pose proof (num_to_Z_of_Z z H) as Hz. unfold num_ok. rewrite num_of_Z_wf by done.
  destruct (decide (z = 0)) as [->|Hne]; [done|]. destruct (num_of_Z z) as [s|s| |s m e]; try done.
  injection Hz as <-. done.
Qed.
Lemma post_state_json_ok p :
  post_state_ok p -> match p with Confirmed _ _ t s => num_ok t = true /\ str_ok s = true | _ => True end ->
  json_ok (post_state_json p) = true.
Proof.
  destruct p as [size mode t s|[]]; [|by vm_compute..]. intros ((? & ?) & (? & ?) & _) [Ht Hs].
  cbn [json_ok post_state_json forallb str int num snd]. rewrite !num_ok_int by lia. rewrite Ht, Hs. by vm_compute.
Qed.

(** ** Appends *)

Lemma write_loop_prefix answers bs :
  (write_loop answers bs).1 `prefix_of` bs /\ ((write_loop answers bs).2 = true -> (write_loop answers bs).1 = bs).
Proof.
  revert answers. remember (length bs) as n eqn:Hn. assert (Hle : (length bs <= n)%nat) by lia. clear Hn.
  revert bs Hle. induction n as [|n IH]; intros bs Hle answers.
  { destruct bs; [|simpl in Hle; lia]. by destruct answers. }
  destruct bs as [|b bs]; [by destruct answers|].
  destruct answers as [|[k|] answers]; cbn [write_loop]; [by split; [apply prefix_nil|]| |by split; [apply prefix_nil|]].
  destruct (Nat.eqb_spec k 0) as [->|Hk]; [by split; [apply prefix_nil|]|].
  destruct (IH (drop k (b :: bs))) with answers as [[r Hr] Hw]; [rewrite length_drop; simpl in *; lia|].
  destruct (write_loop answers (drop k (b :: bs))) as [written whole]. simpl in Hr, Hw. cbn [fst snd].
  pose proof (take_drop k (b :: bs)) as Htd. split.
  - exists r. rewrite <-(assoc_L (++)), <-Hr. by rewrite Htd.
  - intros Hwhole. by rewrite (Hw Hwhole), Htd.
Qed.
Lemma appendDurably_prefix d bs :
  (appendDurably d bs).1 `prefix_of` bs /\ ((appendDurably d bs).2 = true -> (appendDurably d bs).1 = bs).
Proof.
  unfold appendDurably. destruct (dk_opened d); [|by split; [apply prefix_nil|]].
  destruct (write_loop_prefix (dk_writes d) bs) as [Hp Hw]. destruct (write_loop _ bs) as [written whole]. simpl in *.
  split; [done|]. rewrite !andb_true_iff. intros [[Hwhole _] _]. by apply Hw.
Qed.
Lemma utf8_lf cs : Forall (fun c => is_scalar c = true) cs -> 10 ∈ utf8 cs -> 10 ∈ cs.
Proof.
  unfold utf8. induction 1 as [|c cs Hc _ IH]; csimpl; [done|]. rewrite elem_of_app, elem_of_cons.
  intros [H|H]; [left|auto]. apply is_scalar_spec in Hc. unfold utf8_of in H.
  repeat (case_match; [|]); rewrite ?Z.ltb_lt, ?Z.ltb_ge in *; rewrite ?elem_of_cons, elem_of_nil in H;
    pose proof (Z.mod_pos_bound c 64); pose proof (Z.mod_pos_bound (c / 64) 64); pose proof (Z.mod_pos_bound (c / 4096) 64);
    pose proof (Z.div_pos c 64); pose proof (Z.div_pos c 4096); pose proof (Z.div_pos c 262144);
    lia.
Qed.
Lemma event_bytes_cut e k :
  text_ok e -> k `prefix_of` event_bytes e -> k = event_bytes e \/ 10 ∉ k.
Proof.
  intros He [r Hr]. unfold event_bytes in *. rewrite text_encode_app in * by
    (by apply encodable_stringify || by apply encodable_all; repeat constructor).
  change (text_encode [LF]) with [10] in *. destruct r as [|x r _] using rev_ind; [left; by rewrite app_nil_r in Hr|].
  right. rewrite (assoc_L (++)) in Hr. apply app_inj_tail in Hr as [Hr _]. intros Hin.
  assert (Hline : 10 ∈ text_encode (event_line e)) by (rewrite Hr; apply elem_of_app; by left).
  apply (event_line_no_lf e He). destruct (encodable_stringify _ He) as (cs & Hcs & Heq). unfold event_line in *.
  rewrite Heq in Hline |- *. unfold text_encode in Hline. rewrite scalars_units in Hline by done.
  apply utf8_lf in Hline; [|done]. apply list_elem_of_In. apply list_elem_of_In, in_split in Hline as (l1 & l2 & ->).
  apply list_elem_of_In. unfold units. rewrite fmap_app, concat_app, fmap_cons. cbn [concat].
  apply elem_of_app. right. apply elem_of_app. left. by left.
Qed.
Lemma journal_bytes_snoc evs e : journal_bytes (evs ++ [e]) = journal_bytes evs ++ event_bytes e.
Proof. unfold journal_bytes. rewrite fmap_app, concat_app. cbn [fmap list_fmap concat]. by rewrite app_nil_r. Qed.

(** ** The child that writes a journal *)

(** The file, the writer, and the observations that await the state of their file. *)
Record child := {
  ch_file : bytes; ch_writer : JournalWriter; ch_pending : list (string * ExternalMutationRecord) }.

Section child.
Variables (host : JournalHost) (policy : ExternalMutationJournalPolicy).

(** The journal file of a validated policy is in its parent directory. *)
Definition writes_to (files : JournalFiles) (content : bytes) (w : JournalWriter) : Prop :=
  new_JournalWriter host files policy = Ok w /\ readFileSync files (jp_path policy) = Some content.

(** A new process starts with an empty file. *)
Definition child_start (c : child) : Prop :=
  exists files w, writes_to files [] w /\ c = {| ch_file := []; ch_writer := w; ch_pending := [] |}.

(** What a child does, with the events whose append it acknowledges.  Times are those of the
    clock, strings are canonical, and a tool call ends once.  A failed call of the file system
    leaves any part of the record; a new process may go on with the file. *)
Inductive child_step (c : child) : list ExternalMutationJournalEvent -> child -> Prop :=
| child_authorize d toolCallId operation path authorizedAt file w r :
    time_ok authorizedAt -> str_ok toolCallId = true -> str_ok path = true ->
    authorize host d toolCallId operation path authorizedAt (ch_file c, ch_writer c) = ((file, w), r) ->
    child_step c (match r with Ok m => [Authorized (jw_journalSequence w) m] | Err _ => [] end)
      {| ch_file := file; ch_writer := w; ch_pending := ch_pending c |}
| child_observe_begin toolCallId m :
    observe_begin toolCallId (ch_writer c) = Some m -> toolCallId ∉ (ch_pending c).*1 ->
    child_step c []
      {| ch_file := ch_file c; ch_writer := ch_writer c; ch_pending := ch_pending c ++ [(toolCallId, m)] |}
| child_observe_end d before toolCallId m after result observedAt postState file w r :
    ch_pending c = before ++ (toolCallId, m) :: after -> time_ok observedAt ->
    post_state_ok postState -> json_ok (post_state_json postState) = true ->
    observe_end d toolCallId m result observedAt postState (ch_file c, ch_writer c) = ((file, w), r) ->
    child_step c
      (match r with Ok _ => [Observed (jw_journalSequence w) (em_mutationId m) result observedAt postState]
       | Err _ => [] end)
      {| ch_file := file; ch_writer := w; ch_pending := before ++ after |}
| child_restart files w :
    writes_to files (ch_file c) w ->
    child_step c [] {| ch_file := ch_file c; ch_writer := w; ch_pending := [] |}.

(** The states of a child, with everything acknowledged so far. *)
Inductive child_reach : list ExternalMutationJournalEvent -> child -> Prop :=
| child_reach_start c : child_start c -> child_reach [] c
| child_reach_step acked c new c' : child_reach acked c -> child_step c new c' -> child_reach (acked ++ new) c'.

(** The documented behaviour of node:path that the writer relies on. *)
Hypothesis join_parts : forall p, normalized host p = true -> join host (dirname host p) (basename host p) = p.
Hypothesis absolute_nonempty : forall p, isAbsolute host p = true -> 1 <= zlen (js p).
(** The identity of the attempt is canonical text, short enough for identifiers derived from it. *)
Hypothesis identity_ok :
  str_ok (jp_runId policy) = true /\ str_ok (jp_taskId policy) = true /\ str_ok (jp_attemptId policy) = true /\
  zlen (js (jp_attemptId policy)) <= 252.

Lemma validate_same files v :
  validateExternalMutationJournalPolicy host files policy = Ok v ->
  v = policy /\ validId (jp_attemptId policy) = true /\ 1 <= jp_attemptNumber policy <= MAX_SAFE_INTEGER.
Proof.
  unfold validateExternalMutationJournalPolicy. intros [Hv H]%refuse_Ok. apply refuse_Ok in H as [Hi H].
  apply refuse_Ok in H as [Hn H]. apply bind_Ok in H as (p & Hp & [= <-]).
  apply negb_false_iff, Z.eqb_eq in Hv. apply negb_false_iff in Hi, Hn. rewrite !andb_true_iff, !Z.leb_le in *.
  assert (p = jp_path policy) as ->.
  { unfold assertPrivateJournalFile in Hp. apply refuse_Ok in Hp as [Hnorm Hp]. apply negb_false_iff, andb_true_iff in Hnorm as [Hnorm _].
    apply bind_Ok in Hp as (s1 & _ & Hp). apply refuse_Ok in Hp as [_ Hp]. apply bind_Ok in Hp as (s2 & _ & Hp).
    apply refuse_Ok in Hp as [_ Hp]. apply bind_Ok in Hp as (s3 & _ & Hp). apply refuse_Ok in Hp as [_ [= <-]].
    by apply join_parts. }
  split_and!; [|tauto|tauto|lia]. destruct policy as [v path run task att num]. simpl in *. by subst v.
Qed.
Lemma read_valid files allow evs content :
  parseExternalMutationJournal host files policy allow = Ok evs -> readFileSync files (jp_path policy) = Some content ->
  parse_content host policy allow content = Ok evs.
Proof.
  unfold parseExternalMutationJournal. intros H Hc. apply bind_Ok in H as (v & Hv & H).
  apply validate_same in Hv as (-> & _). by rewrite Hc in H.
Qed.
Lemma writes_to_spec files content w :
  writes_to files content w ->
  exists evs, parse_content host policy false content = Ok evs /\
    validId (jp_attemptId policy) = true /\ 1 <= jp_attemptNumber policy <= MAX_SAFE_INTEGER /\
    w = {| jw_policy := policy; jw_journalSequence := zlen evs; jw_authorizationSequence := zlen (authorized_calls evs);
           jw_appendFailure := false; jw_active := []; jw_authorizedToolCallIds := authorized_calls evs |}.
Proof.
  intros [Hw Hc]. unfold new_JournalWriter in Hw. apply bind_Ok in Hw as (v & Hv & Hw).
  apply validate_same in Hv as (-> & Hid & Hn). apply bind_Ok in Hw as (evs & Hevs & [= <-]).
  exists evs. split; [by eapply read_valid|done].
Qed.

(** What a writer that has not failed knows about the events of its file. *)
Record writer_at (evs : list ExternalMutationJournalEvent) (w : JournalWriter)
    (pending : list (string * ExternalMutationRecord)) : Prop := {
  wa_sequence : jw_journalSequence w = zlen evs;
  wa_authorizations : jw_authorizationSequence w = zlen (authorizations evs);
  wa_calls : jw_authorizedToolCallIds w = authorized_calls evs;
  wa_active call m : jm_get call (jw_active w) = Some m ->
    m ∈ authorizations evs /\ em_toolCallId m = call /\ (em_mutationId m ∉ observations evs);
  wa_keys : NoDup (jm_keys (jw_active w));
  wa_pending call m : (call, m) ∈ pending -> jm_get call (jw_active w) = Some m;
  wa_once : NoDup pending.*1 }.
(** No tool call is authorized twice. *)
Definition calls_once (evs : list ExternalMutationJournalEvent) : Prop := NoDup (em_toolCallId <$> authorizations evs).
Lemma calls_once_prefix evs k : calls_once (evs ++ k) -> calls_once evs.
Proof. unfold calls_once. rewrite authorizations_app, fmap_app. by intros [H _]%NoDup_app. Qed.
(** The complete records of the file are a history that holds everything acknowledged; only a
    failed writer leaves an incomplete record. *)
Record child_at (evs acked : list ExternalMutationJournalEvent) (c : child) : Prop := {
  ca_id : validId (jp_attemptId policy) = true;
  ca_number : 1 <= jp_attemptNumber policy <= MAX_SAFE_INTEGER;
  ca_history : history host policy evs;
  ca_text : Forall text_ok evs;
  ca_acked : acked `sublist_of` evs;
  ca_calls : calls_once evs;
  ca_policy : jw_policy (ch_writer c) = policy;
  ca_file : exists tail, ch_file c = journal_bytes evs ++ tail /\ (10 ∉ tail) /\
    (jw_appendFailure (ch_writer c) = false -> writer_at evs (ch_writer c) (ch_pending c) /\ tail = []) }.
(** ... and later ones extend it. *)
Definition child_after (evs acked : list ExternalMutationJournalEvent) (c : child) : Prop :=
  exists evs', evs `prefix_of` evs' /\ child_at evs' acked c.

Definition failed_writer (w : JournalWriter) : JournalWriter :=
  {| jw_policy := jw_policy w; jw_journalSequence := jw_journalSequence w;
     jw_authorizationSequence := jw_authorizationSequence w; jw_appendFailure := true;
     jw_active := jw_active w; jw_authorizedToolCallIds := jw_authorizedToolCallIds w |}.
Lemma append_run d e file w s r :
  jw_appendFailure w = false -> append d e (file, w) = (s, r) ->
  exists k, k `prefix_of` event_bytes e /\ s.1 = file ++ k /\
    ((r = Ok tt /\ k = event_bytes e /\ s.2 = w) \/ (exists message, r = Err message /\ s.2 = failed_writer w)).
Proof.
  intros Hw. unfold append. rewrite Hw. destruct (appendDurably_prefix d (event_bytes e)) as [Hp Hd].
  destruct (appendDurably d (event_bytes e)) as [written done_]. simpl in Hp, Hd. destruct done_; intros [= <- <-].
  - exists written. split_and!; [done|done|]. left. by rewrite (Hd eq_refl).
  - exists written. split_and!; [done|done|]. right. by eexists.
Qed.
(** Any part of a record leaves the file with complete records. *)
Lemma cut_record evs e k acked :
  history host policy (evs ++ [e]) -> Forall text_ok evs -> text_ok e -> k `prefix_of` event_bytes e ->
  acked `sublist_of` evs -> calls_once (evs ++ [e]) ->
  exists evs' tail, evs `prefix_of` evs' /\ history host policy evs' /\ Forall text_ok evs' /\
    journal_bytes evs ++ k = journal_bytes evs' ++ tail /\ (10 ∉ tail) /\ acked `sublist_of` evs' /\ calls_once evs'.
Proof.
  intros Hh Hok He Hk Hs Hone. destruct (event_bytes_cut e k He Hk) as [->|Hno].
  - exists (evs ++ [e]), []. split_and!; [by eexists|done|by apply Forall_app; split; [|constructor]| |apply not_elem_of_nil| |].
    + by rewrite journal_bytes_snoc, app_nil_r.
    + by apply sublist_inserts_r.
    + done.
  - exists evs, k. split_and!; try done; [by eapply history_prefix|by eapply calls_once_prefix].
Qed.

Lemma new_mutation_authorizes w toolCallId operation path authorizedAt :
  jw_policy w = policy -> validId (jp_attemptId policy) = true -> 0 <= jw_authorizationSequence w < MAX_EXTERNAL_MUTATIONS_PER_ATTEMPT ->
  validId toolCallId = true -> normalized host path = true -> zlen (js path) <= MAX_PATH_CHARS -> time_ok authorizedAt ->
  authorizes host policy (jw_authorizationSequence w + 1) (new_mutation w toolCallId operation path authorizedAt).
Proof.
  intros Hp Hv Hn Hc Hnorm Hl Ht. destruct identity_ok as (_ & _ & Ha & H252).
  destruct (mutation_id_ok (jp_attemptId policy) (jw_authorizationSequence w + 1)) as [_ Hid]; [done..|lia|].
  unfold new_mutation. rewrite Hp. split; simpl; try done; [lia|]. unfold normalized in Hnorm. apply andb_true_iff in Hnorm as [Hnorm _].
  by split; [apply absolute_nonempty|].
Qed.
Lemma authorized_text_ok n k m :
  0 <= n <= MAX_SAFE_INTEGER -> authorizes host policy k m -> str_ok (em_toolCallId m) = true -> str_ok (em_path m) = true ->
  validId (jp_attemptId policy) = true -> 1 <= jp_attemptNumber policy <= MAX_SAFE_INTEGER ->
  text_ok (Authorized n m).
Proof.
  intros Hn [Hs Hb Hi H1 H2 H3 H4 _ _ _ _ [Ht Ht'] R1 R2 R3] Hc Hp Hv Hnum. destruct identity_ok as (Hr & Htk & Ha & H252).
  destruct (mutation_id_ok (jp_attemptId policy) k) as [Hid _]; [done..|]. unfold text_ok, event_fields, mutation_json.
  rewrite R1, R2, R3, Hs, Hi, H1, H2, H3, H4. unfold MAX_EXTERNAL_MUTATIONS_PER_ATTEMPT in Hb.
  cbn [json_ok forallb str int opt app snd]. rewrite !num_ok_int by (unfold MAX_SAFE_INTEGER, EXTERNAL_MUTATION_JOURNAL_VERSION in *; lia).
  rewrite Hid, Hr, Htk, Ha, Hc, Hp. by destruct (em_operation m); vm_compute.
Qed.
Lemma observed_text_ok n evs m r t p :
  0 <= n <= MAX_SAFE_INTEGER -> history host policy evs -> m ∈ authorizations evs -> time_ok t -> json_ok (post_state_json p) = true ->
  validId (jp_attemptId policy) = true -> text_ok (Observed n (em_mutationId m) r t p).
Proof.
  intros Hn Hh [i Hi]%list_elem_of_lookup [Ht Ht'] Hp Hv. destruct identity_ok as (_ & _ & Ha & H252).
  pose proof (history_authorizations _ _ _ _ _ Hh Hi) as Hm. rewrite (au_id _ _ _ _ Hm).
  destruct (mutation_id_ok (jp_attemptId policy) (Z.of_nat i + 1)) as [Hid _]; [done..|apply Hm|].
  unfold text_ok. cbn [json_ok event_fields forallb str int snd]. rewrite !num_ok_int by (unfold MAX_SAFE_INTEGER, EXTERNAL_MUTATION_JOURNAL_VERSION in *; lia).
  rewrite Hid, Hp. by destruct r; vm_compute.
Qed.
Lemma authorizations_bound evs : history host policy evs -> zlen (authorizations evs) <= MAX_EXTERNAL_MUTATIONS_PER_ATTEMPT.
Proof.
  intros Hh. destruct (last (authorizations evs)) as [m|] eqn:Hl.
  - rewrite last_lookup in Hl. pose proof (lookup_lt_Some _ _ _ Hl).
    pose proof (au_bound _ _ _ _ (history_authorizations _ _ _ _ _ Hh Hl)) as [_ Hb]. unfold zlen. lia.
  - apply last_None in Hl. by rewrite Hl.
Qed.
Lemma history_observations evs :
  history host policy evs -> NoDup (observations evs) /\ (forall id, id ∈ observations evs -> id ∈ em_mutationId <$> authorizations evs).
Proof.
  induction 1 as [|evs m Hh [IHn IHs] Hm|evs m r t p Hh [IHn IHs] Hm Hn Ht Hp]; [by split; [constructor|intros ? ?%elem_of_nil]| |];
    rewrite observations_app, authorizations_app, fmap_app; cbn [observations authorizations omap list_omap].
  - rewrite app_nil_r. split; [done|]. intros id Hid. apply elem_of_app. left. by apply IHs.
  - split.
    + apply NoDup_app. split_and!; [done| |apply NoDup_singleton]. intros x Hx ->%list_elem_of_singleton. done.
    + intros id [Hid| ->%list_elem_of_singleton]%elem_of_app; apply elem_of_app; left; [by apply IHs|].
      by apply list_elem_of_fmap_2.
Qed.
Lemma history_length evs : history host policy evs -> zlen evs + 1 <= MAX_SAFE_INTEGER.
Proof.
  intros Hh. pose proof (authorizations_bound _ Hh) as Hb. destruct (history_observations _ Hh) as [Hn Hs].
  pose proof (submseteq_length _ _ (NoDup_submseteq _ _ Hn Hs)) as Hl. rewrite length_fmap in Hl.
  assert (Hsum : (length evs = length (authorizations evs) + length (observations evs))%nat).
  { clear. induction evs as [|[] evs IH]; csimpl; lia. }
  unfold zlen, MAX_EXTERNAL_MUTATIONS_PER_ATTEMPT, MAX_SAFE_INTEGER in *. lia.
Qed.

Lemma authorize_ok evs acked c d toolCallId operation path authorizedAt file w r :
  child_at evs acked c -> time_ok authorizedAt -> str_ok toolCallId = true -> str_ok path = true ->
  authorize host d toolCallId operation path authorizedAt (ch_file c, ch_writer c) = ((file, w), r) ->
  child_after evs (acked ++ match r with Ok m => [Authorized (jw_journalSequence w) m] | Err _ => [] end)
    {| ch_file := file; ch_writer := w; ch_pending := ch_pending c |}.
Proof.
  intros Hc Ht Hstr Hpath Hrun. pose proof Hc as [Hv Hnum Hh Hok Hsub Hone Hpol (tail & Hfile & Htail & Hat)].
  assert (Hsame : forall message, ((ch_file c, ch_writer c), Err message) = ((file, w), r) ->
    child_after evs (acked ++ match r with Ok m => [Authorized (jw_journalSequence w) m] | Err _ => [] end)
      {| ch_file := file; ch_writer := w; ch_pending := ch_pending c |}).
  { intros message [= <- <- <-]. exists evs. split; [done|]. rewrite app_nil_r. by destruct c. }
  unfold authorize, set_writer in Hrun. revert Hrun. mrun. cbn beta iota zeta delta [snd fst].
  destruct (jw_appendFailure (ch_writer c)) eqn:Hf; [intros Hr; by eapply Hsame|].
  destruct (validId toolCallId) eqn:Hcall; cbn [negb]; [|intros Hr; by eapply Hsame].
  destruct (normalized host path) eqn:Hnorm; cbn [negb orb]; [|intros Hr; by eapply Hsame].
  destruct (Z.ltb_spec MAX_PATH_CHARS (zlen (js path))); [intros Hr; by eapply Hsame|].
  destruct (bool_decide_reflect (toolCallId ∈ jw_authorizedToolCallIds (ch_writer c))) as [|Hnew]; [intros Hr; by eapply Hsame|].
  destruct (Z.leb_spec MAX_EXTERNAL_MUTATIONS_PER_ATTEMPT (jw_authorizationSequence (ch_writer c))); [intros Hr; by eapply Hsame|].
  destruct (Hat eq_refl) as [[Hseq Hauth Hcalls Hact Hkeys Hpend Honce] ->]. set (wr := ch_writer c) in *.
  set (m := new_mutation wr toolCallId operation path authorizedAt).
  assert (Hm : authorizes host policy (zlen (authorizations evs) + 1) m).
  { rewrite <-Hauth. apply new_mutation_authorizes; try done. rewrite Hauth in *. pose proof (zlen_nonneg (authorizations evs)). lia. }
  set (e := Authorized (jw_journalSequence wr + 1) m).
  assert (Ha : authorizations (evs ++ [e]) = authorizations evs ++ [m]) by by rewrite authorizations_app.
  assert (Ho : observations (evs ++ [e]) = observations evs) by by rewrite observations_app, app_nil_r.
  assert (Hhist : history host policy (evs ++ [e])) by (unfold e; rewrite Hseq; by apply history_authorized).
  assert (Hones : calls_once (evs ++ [e])).
  { unfold calls_once. rewrite Ha, fmap_app. apply NoDup_app. split_and!; [done| |apply NoDup_singleton].
    intros x Hx ->%list_elem_of_singleton. apply Hnew. by rewrite Hcalls, authorized_calls_spec. }
  pose proof (history_length _ Hh). pose proof (zlen_nonneg evs).
  assert (Hte : text_ok e) by (eapply authorized_text_ok; try done; lia).
  destruct (append d e (ch_file c, wr)) as [s [[]|message]] eqn:Happ;
    destruct (append_run _ _ _ _ _ _ Hf Happ) as (k & Hk & Hs1 & [(Hr1 & -> & Hs2)|(msg & Hr1 & Hs2)]); try discriminate Hr1.
  - intros [= <- <- <-]. exists (evs ++ [e]). split; [by eexists|].
    split; [done|done|done|by apply Forall_app; split; [|constructor]|by apply sublist_app; [|reflexivity]|done|done|].
    exists []. cbn [ch_file ch_writer ch_pending]. split_and!; [|apply not_elem_of_nil|].
    { by rewrite Hs1, Hfile, journal_bytes_snoc, !app_nil_r. }
    intros _. split; [|done].
    assert (Hfresh : jm_get toolCallId (jw_active wr) = None).
    { destruct (jm_get toolCallId (jw_active wr)) as [m'|] eqn:E; [|done]. destruct (Hact _ _ E) as (Hin & Hid & _). destruct Hnew.
      rewrite Hcalls, authorized_calls_spec, <-Hid. by apply list_elem_of_fmap_2. }
    split; cbn [jw_journalSequence jw_authorizationSequence jw_authorizedToolCallIds jw_active].
    + rewrite zlen_app, Hseq. done.
    + rewrite Ha, zlen_app, Hauth. done.
    + by rewrite Hcalls, !authorized_calls_spec, Ha, fmap_app.
    + intros call m'. rewrite jm_get_set, Ha, Ho, elem_of_app, list_elem_of_singleton. case_decide as Hd; [|intros (? & ? & ?)%Hact; tauto].
      intros [= <-]. split_and!; [by right|by rewrite Hd|]. destruct (history_observations _ Hh) as [_ Hobs]. intros Hin%Hobs.
      rewrite (au_id _ _ _ _ Hm) in Hin. exact (history_next_id _ _ _ Hh Hin).
    + by apply jm_keys_set_NoDup.
    + intros call m' Hin%Hpend. rewrite jm_get_set. rewrite decide_False; [done|]. intros ->. congruence.
    + done.
  - intros [= Hs <-]. destruct (cut_record evs e k acked) as (evs' & tail & ? & ? & ? & Hb & ? & ? & ?); [done..|].
    rewrite Hs in Hs1, Hs2. simpl in Hs1, Hs2. rewrite Hfile, app_nil_r in Hs1.
    exists evs'. split; [done|]. rewrite app_nil_r. split; cbn [ch_file ch_writer]; try done; [by rewrite Hs2|].
    exists tail. split_and!; [by rewrite <-Hb|done|by rewrite Hs2].
Qed.

(** A failed writer writes nothing and stays failed. *)
Lemma append_failed d e file w : jw_appendFailure w = true -> exists message, append d e (file, w) = ((file, w), Err message).
Proof. intros Hf. unfold append. rewrite Hf. by eexists. Qed.
Lemma failed_child_ok evs acked c pending :
  child_at evs acked c -> jw_appendFailure (ch_writer c) = true ->
  child_at evs acked {| ch_file := ch_file c; ch_writer := ch_writer c; ch_pending := pending |}.
Proof.
  intros [Hv Hnum Hh Hok Hsub Hone Hpol (tail & Hfile & Htail & _)] Hf. split; try done. exists tail.
  split_and!; try done. cbn [ch_writer]. congruence.
Qed.

Lemma observe_end_ok evs acked c d before toolCallId m after result observedAt postState file w r :
  child_at evs acked c -> ch_pending c = before ++ (toolCallId, m) :: after -> time_ok observedAt ->
  post_state_ok postState -> json_ok (post_state_json postState) = true ->
  observe_end d toolCallId m result observedAt postState (ch_file c, ch_writer c) = ((file, w), r) ->
  child_after evs
    (acked ++ match r with Ok _ => [Observed (jw_journalSequence w) (em_mutationId m) result observedAt postState]
              | Err _ => [] end)
    {| ch_file := file; ch_writer := w; ch_pending := before ++ after |}.
Proof.
  intros Hc Hpending Ht Hpost Hjson Hrun. pose proof Hc as [Hv Hnum Hh Hok Hsub Hone Hpol (tail & Hfile & Htail & Hat)].
  unfold observe_end, set_writer in Hrun. revert Hrun. mrun. cbn beta iota zeta delta [snd fst].
  set (wr := ch_writer c) in *. set (e := Observed (jw_journalSequence wr + 1) (em_mutationId m) result observedAt postState).
  destruct (jw_appendFailure wr) eqn:Hf.
  { destruct (append_failed d e (ch_file c) wr Hf) as [message ->]. intros [= <- <- <-].
    exists evs. split; [done|]. rewrite app_nil_r. by apply failed_child_ok. }
  destruct (Hat eq_refl) as [[Hseq Hauth Hcalls Hact Hkeys Hpend Honce] ->].
  assert (Hin : jm_get toolCallId (jw_active wr) = Some m) by (apply Hpend; rewrite Hpending; set_solver).
  destruct (Hact _ _ Hin) as (Hm & Hcall & Hnot).
  assert (Ha : authorizations (evs ++ [e]) = authorizations evs) by by rewrite authorizations_app, app_nil_r.
  assert (Ho : observations (evs ++ [e]) = observations evs ++ [em_mutationId m]) by by rewrite observations_app.
  assert (Hhist : history host policy (evs ++ [e])) by (unfold e; rewrite Hseq; by apply history_observed).
  assert (Hones : calls_once (evs ++ [e])) by (unfold calls_once; by rewrite Ha).
  pose proof (history_length _ Hh). pose proof (zlen_nonneg evs).
  assert (Hte : text_ok e) by (apply (observed_text_ok _ evs); try done; lia).
  destruct (append d e (ch_file c, wr)) as [s [[]|message]] eqn:Happ;
    destruct (append_run _ _ _ _ _ _ Hf Happ) as (k & Hk & Hs1 & [(Hr1 & -> & Hs2)|(msg & Hr1 & Hs2)]); try discriminate Hr1.
  - intros [= <- <- <-]. exists (evs ++ [e]). split; [by eexists|].
    split; [done|done|done|by apply Forall_app; split; [|constructor]|by apply sublist_app; [|reflexivity]|done|done|].
    exists []. cbn [ch_file ch_writer ch_pending]. split_and!; [|apply not_elem_of_nil|].
    { by rewrite Hs1, Hfile, journal_bytes_snoc, !app_nil_r. }
    intros _. split; [|done]. rewrite Hpending, fmap_app, fmap_cons in Honce.
    split; cbn [jw_journalSequence jw_authorizationSequence jw_authorizedToolCallIds jw_active].
    + rewrite zlen_app, Hseq. done.
    + by rewrite Ha.
    + by rewrite Hcalls, !authorized_calls_spec, Ha.
    + intros call m' Hget. rewrite Ha, Ho. destruct (decide (call = toolCallId)) as [->|Hne].
      { by rewrite jm_get_delete_eq in Hget. }
      rewrite jm_get_delete_ne in Hget by done. destruct (Hact _ _ Hget) as (Hm' & Hcall' & Hnot'). split_and!; [done..|].
      intros [?|Heq%list_elem_of_singleton]%elem_of_app; [done|]. apply Hne. rewrite <-Hcall, <-Hcall'. f_equal.
      apply list_elem_of_lookup in Hm as [i Hi], Hm' as [j Hj].
      pose proof (history_authorizations _ _ _ _ _ Hh Hi) as A. pose proof (history_authorizations _ _ _ _ _ Hh Hj) as B.
      rewrite (au_id _ _ _ _ A), (au_id _ _ _ _ B) in Heq. apply mutation_id_inj in Heq. assert (i = j) as <- by lia. congruence.
    + by apply jm_keys_delete_NoDup.
    + intros call m' Hin'. assert (Hother : call <> toolCallId).
      { intros ->. apply NoDup_app in Honce as (_ & Hdis & [Hni _]%NoDup_cons). apply elem_of_app in Hin' as [Hb|Hb].
        - apply (Hdis toolCallId); [by apply (list_elem_of_fmap_2 fst) in Hb|by left].
        - by apply (list_elem_of_fmap_2 fst) in Hb. }
      rewrite jm_get_delete_ne by done. apply Hpend. rewrite Hpending. set_solver.
    + rewrite fmap_app. apply NoDup_app in Honce as (H1 & H2 & [_ H3]%NoDup_cons). apply NoDup_app.
      split_and!; [done| |done]. intros x Hx Hx'. apply (H2 x Hx). by right.
  - intros [= Hs <-]. destruct (cut_record evs e k acked) as (evs' & tail & ? & ? & ? & Hb & ? & ? & ?); [done..|].
    rewrite Hs in Hs1, Hs2. simpl in Hs1, Hs2. rewrite Hfile, app_nil_r in Hs1.
    exists evs'. split; [done|]. rewrite app_nil_r. split; cbn [ch_file ch_writer]; try done; [by rewrite Hs2|].
    exists tail. split_and!; [by rewrite <-Hb|done|by rewrite Hs2].
Qed.

Lemma observe_begin_ok evs acked c toolCallId m :
  child_at evs acked c -> observe_begin toolCallId (ch_writer c) = Some m -> toolCallId ∉ (ch_pending c).*1 ->
  child_at evs acked {| ch_file := ch_file c; ch_writer := ch_writer c; ch_pending := ch_pending c ++ [(toolCallId, m)] |}.
Proof.
  intros [Hv Hnum Hh Hok Hsub Hone Hpol (tail & Hfile & Htail & Hat)] Hget Hnew. split; try done.
  exists tail. split_and!; try done. cbn [ch_writer ch_pending]. intros Hf.
  destruct (Hat Hf) as [[Hseq Hauth Hcalls Hact Hkeys Hpend Honce] Htl].
  split; [|done]. split; try done.
  - intros call m' [Hin|[= -> ->]%list_elem_of_singleton]%elem_of_app; [by apply Hpend|done].
  - rewrite fmap_app. apply NoDup_app. split_and!; [done| |apply NoDup_singleton]. by intros x Hx ->%list_elem_of_singleton.
Qed.
(** A new process finds the complete records, or refuses the file. *)
Lemma writes_to_ok files evs tail w acked :
  history host policy evs -> Forall text_ok evs -> 10 ∉ tail -> acked `sublist_of` evs -> calls_once evs ->
  writes_to files (journal_bytes evs ++ tail) w ->
  child_at evs acked {| ch_file := journal_bytes evs ++ tail; ch_writer := w; ch_pending := [] |}.
Proof.
  intros Hh Hok Htail Hsub Hone Hw. apply writes_to_spec in Hw as (evs' & Hparse & Hv & Hnum & ->).
  assert (Hsize : zlen (journal_bytes evs ++ tail) <= MAX_JOURNAL_BYTES).
  { unfold parse_content in Hparse. by apply refuse_Ok in Hparse as [Hlt%Z.ltb_ge _]. }
  rewrite parse_content_complete in Hparse by (done || lia). cbn [orb] in Hparse.
  case_bool_decide as Htl; [|done]. injection Hparse as <-. split; try done.
  exists tail. split_and!; try done. intros _. split; [|done]. split; cbn [ch_writer ch_pending jw_active]; try done.
  - unfold zlen. by rewrite authorized_calls_spec, length_fmap.
  - constructor.
  - by intros ?? ?%elem_of_nil.
  - constructor.
Qed.

Lemma child_start_ok c : child_start c -> child_at [] [] c.
Proof.
  intros (files & w & Hw & ->).
  apply (writes_to_ok files [] []); [apply history_nil|constructor|apply not_elem_of_nil|constructor|constructor|done].
Qed.
Lemma child_step_ok evs acked c new c' : child_at evs acked c -> child_step c new c' -> child_after evs (acked ++ new) c'.
Proof.
  intros Hc [d call op path t file w r Ht Hs Hp Hrun|call m Hget Hnew
    |d before call m after result t ps file w r Hp Ht Hps Hj Hrun|files w Hw].
  - exact (authorize_ok evs acked c d call op path t file w r Hc Ht Hs Hp Hrun).
  - exists evs. split; [done|]. rewrite app_nil_r. exact (observe_begin_ok evs acked c call m Hc Hget Hnew).
  - exact (observe_end_ok evs acked c d before call m after result t ps file w r Hc Hp Ht Hps Hj Hrun).
  - exists evs. split; [done|]. rewrite app_nil_r. destruct Hc as [Hv Hnum Hh Hok Hsub Hone Hpol (tail & Hfile & Htail & _)].
    rewrite Hfile in *. by apply (writes_to_ok files).
Qed.
Lemma child_reach_ok acked c : child_reach acked c -> exists evs, child_at evs acked c.
Proof.
  induction 1 as [c Hc|acked c new c' _ [evs IH] Hs]; [exists []; by apply child_start_ok|].
  destruct (child_step_ok _ _ _ _ _ IH Hs) as (evs' & _ & H). by exists evs'.
Qed.

(** Reading the file of a child that writes it. *)
Lemma child_read evs acked c allow files :
  child_at evs acked c -> validateExternalMutationJournalPolicy host files policy = Ok policy ->
  readFileSync files (jp_path policy) = Some (ch_file c) -> zlen (ch_file c) <= MAX_JOURNAL_BYTES ->
  parseExternalMutationJournal host files policy allow =
  if allow || bool_decide (ch_file c = journal_bytes evs) then Ok evs
  else Err "External mutation journal has an incomplete record".
Proof.
  intros [Hv Hnum Hh Hok Hsub Hone Hpol (tail & Hfile & Htail & _)] Hvalid Hread Hsize. unfold parseExternalMutationJournal.
  rewrite Hvalid. cbn [mbind result_bind]. rewrite Hread. cbn [or_throw mbind result_bind]. rewrite Hfile in *.
  rewrite parse_content_complete by (done || lia).
  rewrite (bool_decide_ext (tail = []) (journal_bytes evs ++ tail = journal_bytes evs)); [done|].
  split; [intros ->; by rewrite app_nil_r|]. intros H. rewrite <-(app_nil_r (journal_bytes evs)) in H at 2. by apply app_inv_head in H.
Qed.

(** C9. Whatever appends fail or are cut short, and whenever a new process takes the file over,
    the complete records of a journal are a history: numbered from one, each authorization with
    the next identifier and within the limit of 256, each observation after its authorization
    and once.  They hold every event that was acknowledged, in order, so that no tool runs on
    an authorization that is not on disk, and the reader returns exactly them, whatever part of
    a record stands behind; only behind a writer that failed does one stand there, and it makes
    the strict reader, with which a new process would begin, refuse the file. *)
Theorem journal_survives_crashes acked c :
  child_reach acked c ->
  exists evs, history host policy evs /\ acked `sublist_of` evs /\
    (jw_appendFailure (ch_writer c) = false -> ch_file c = journal_bytes evs) /\
    forall allow files,
      validateExternalMutationJournalPolicy host files policy = Ok policy ->
      readFileSync files (jp_path policy) = Some (ch_file c) -> zlen (ch_file c) <= MAX_JOURNAL_BYTES ->
      parseExternalMutationJournal host files policy allow =
      if allow || bool_decide (ch_file c = journal_bytes evs) then Ok evs
      else Err "External mutation journal has an incomplete record".
Proof.
  intros [evs Hc]%child_reach_ok. exists evs. split; [apply Hc|]. split; [apply Hc|]. split.
  - intros Hf. destruct (ca_file _ _ _ Hc) as (tail & -> & _ & Hat). destruct (Hat Hf) as [_ ->]. apply app_nil_r.
  - intros allow files. by apply (child_read evs acked).
Qed.
End child.
