(* ===== verification/LedgerTypes.v ===== *)
(** * Rows and transactions of the run ledger (packages/subagent/src/ledger.ts)

    The rows of one run in the tables [dag_runs], [dag_tasks], [dag_dependencies],
    [dag_attempts] and [dag_events]: every statement of the modelled operations selects by
    [run_id], so a run is a state of its own.  A JSON column holds the value its text
    denotes; texts are compared as the code compares them.  Parts of a request that no
    operation reads are kept as their JSON text.  Timestamps, counts and epochs, which the
    operations check to be safe integers, are integers. *)
From S2P Require Import Prelude JsNumber SessionTypes JsText JsonNumber JsonText Subagent.

(** ** Columns *)

Inductive RunStatus := RunCreated | RunRunning | RunSucceeded | RunFailed | RunCancelled.
#[export] Instance RunStatus_eq_dec : EqDecision RunStatus.
Proof. solve_decision. Defined.
Inductive AttemptStatus := AttemptRunning | AttemptSucceeded | AttemptFailed | AttemptExpired.
#[export] Instance AttemptStatus_eq_dec : EqDecision AttemptStatus.
Proof. solve_decision. Defined.
Inductive SubagentRole := Scout | TestAnalyst | FailureAnalyst | Reviewer | Writer | ExternalWriter.
#[export] Instance SubagentRole_eq_dec : EqDecision SubagentRole.
Proof. solve_decision. Defined.
(** [retained], [..._pending], [released] *)
Inductive ReleaseState := Retained | ReleasePending | Released.
#[export] Instance ReleaseState_eq_dec : EqDecision ReleaseState.
Proof. solve_decision. Defined.

(** A task of a compiled request; [lc_rest] is the text of the fields nothing reads here. *)
Record LedgerContract := {
  lc_task : DagTaskContract; lc_role : SubagentRole; lc_maxAttempts : number;
  lc_contractHash : string; lc_ownedPaths : list string; lc_rest : jsstring }.
Definition lc_id (c : LedgerContract) : string := task_id (lc_task c).
Definition lc_dependsOn (c : LedgerContract) : list string := dependsOn (lc_task c).

(** [merge.enabled] and the policy fields as text. *)
Record RequestPolicy := {
  rp_version : number; rp_handoffProtocolVersion : number; rp_mergeEnabled : bool; rp_rest : jsstring }.
Record CompiledRequest := { cr_tasks : list LedgerContract; cr_sealed : bool; cr_policy : RequestPolicy }.

#[export] Instance number_eq_dec : EqDecision number.
Proof. unfold number. solve_decision. Defined.
#[export] Instance DagTaskContract_eq_dec : EqDecision DagTaskContract.
Proof. solve_decision. Defined.
#[export] Instance LedgerContract_eq_dec : EqDecision LedgerContract.
Proof. solve_decision. Defined.
#[export] Instance RequestPolicy_eq_dec : EqDecision RequestPolicy.
Proof. solve_decision. Defined.
#[export] Instance UsageCost_eq_dec : EqDecision UsageCost.
Proof. solve_decision. Defined.
#[export] Instance Usage_eq_dec : EqDecision Usage.
Proof. solve_decision. Defined.

(** What [setDagRunStatus] reads of an integration artifact. *)
Record IntegrationArtifact := { ia_complete : bool; ia_gatePassed : bool; ia_rest : jsstring }.

Record DagRunLease := { le_ownerId : string; le_epoch : Z; le_leaseExpiresAt : Z }.
#[export] Instance DagRunLease_eq_dec : EqDecision DagRunLease.
Proof. solve_decision. Defined.

Record DagRunRow := {
  rr_request : CompiledRequest; rr_status : RunStatus; rr_usage : Usage; rr_turns : Z;
  rr_owner : option string; rr_epoch : Z; rr_leaseExpiresAt : option Z;
  rr_integration : option IntegrationArtifact; rr_integrationFailure : option jsstring;
  rr_pausedAt : option Z; rr_pausedDurationMs : Z; rr_graphVersion : Z; rr_graphSealed : bool;
  rr_candidateRelease : ReleaseState; rr_candidateReleaseStartedAt : option Z; rr_candidateReleasedAt : option Z;
  rr_resourceGc : ReleaseState; rr_gcStartedAt : option Z; rr_gcCompletedAt : option Z;
  rr_createdAt : Z; rr_updatedAt : Z }.

Record DagTask := {
  dt_contract : LedgerContract; dt_status : DagTaskStatus; dt_maxAttempts : Z; dt_attemptCount : Z;
  dt_currentAttempt : option string; dt_owner : option string; dt_leaseExpiresAt : option Z;
  dt_checkpoint : option json; dt_terminalReason : option string; dt_error : option string;
  dt_artifact : option json; dt_usage : Usage; dt_turns : Z; dt_retryNotBefore : option Z;
  dt_createdAt : Z; dt_updatedAt : Z }.
Definition dt_id (t : DagTask) : string := lc_id (dt_contract t).
Definition dt_role (t : DagTask) : SubagentRole := lc_role (dt_contract t).

Record DagAttempt := {
  da_id : string; da_task : string; da_number : Z; da_owner : string; da_status : AttemptStatus;
  da_leaseExpiresAt : Z; da_checkpoint : option json; da_terminalReason : option string;
  da_error : option string; da_usage : Usage; da_turns : Z; da_createdAt : Z; da_updatedAt : Z }.

Inductive requeue_reason :=
| RequeuePaused
| RequeueAvailability (availabilityRetry : Z)
| RequeueAttemptFailed (terminalReason : string) (error : option string) (usage : Usage) (turns : Z)
| RequeueResumable
| RequeueLeaseExpired.

(** One constructor per event type, with its payload. *)
Inductive event_body :=
| EvRunCreated
| EvTaskCreated (contract : LedgerContract)
| EvLeaseAcquired (lease : DagRunLease)
| EvLeaseHeartbeat (lease : DagRunLease)
| EvLeaseReleased (ownerId : string) (epoch : Z)
| EvTaskRequeued (attemptId : string) (attemptNumber : Z) (reason : requeue_reason) (retryNotBefore : option Z)
| EvRunPaused (pausedAt : Z)
| EvRunResumed (pausedAt resumedAt duration : Z)
| EvCandidateReleaseStarted (at_ : Z)
| EvCandidateReleased (at_ : Z)
| EvGcStarted (at_ : Z)
| EvGcCompleted (at_ : Z)
| EvGraphExpanded (fromVersion toVersion : Z) (added : list string) (sealed : bool)
| EvTaskFenced (status : DagTaskStatus) (terminalReason error : string)
| EvRunTransition (from to : RunStatus)
| EvRunUsage (usage : Usage) (turns : Z) (from_attempts : bool)
| EvTaskClaimed (attemptId : string) (attemptNumber : Z) (ownerId : string) (leaseExpiresAt : Z) (resumed : bool)
| EvAttemptHeartbeat (attemptId ownerId : string) (leaseExpiresAt : Z)
| EvAttemptCheckpoint (attemptId : string) (checkpoint : json)
| EvAttemptAccounting (attemptId : string) (usage : Usage) (turns : Z)
| EvTaskCompleted (attemptId ownerId : string) (status : DagTaskStatus) (terminalReason : option string)
    (error : option string) (artifact : option json) (usage : Usage) (turns : Z)
| EvTaskFailed (attemptId terminalReason : string)
| EvCircuitOpen (attemptId : string) (retryNotBefore retryDelayMs : Z)
| EvTaskBlocked
(** the events of the external mutation journals, with their payload *)
| EvExternalMutation (type : string) (payload : json).

(** [sequence] is the position in the list. *)
Record LedgerEvent := { ev_taskId : option string; ev_body : event_body; ev_createdAt : Z }.

(** [dr_dependencies] are the pairs of a task and its dependency; the tasks are in [task_order]. *)
Record DagRun := {
  dr_row : DagRunRow; dr_tasks : list DagTask; dr_dependencies : list (string * string);
  dr_attempts : list DagAttempt; dr_events : list LedgerEvent }.

Definition with_row (row : DagRunRow) (r : DagRun) : DagRun :=
  {| dr_row := row; dr_tasks := dr_tasks r; dr_dependencies := dr_dependencies r;
     dr_attempts := dr_attempts r; dr_events := dr_events r |}.
Definition with_tasks (tasks : list DagTask) (r : DagRun) : DagRun :=
  {| dr_row := dr_row r; dr_tasks := tasks; dr_dependencies := dr_dependencies r;
     dr_attempts := dr_attempts r; dr_events := dr_events r |}.
Definition with_dependencies (dependencies : list (string * string)) (r : DagRun) : DagRun :=
  {| dr_row := dr_row r; dr_tasks := dr_tasks r; dr_dependencies := dependencies;
     dr_attempts := dr_attempts r; dr_events := dr_events r |}.
Definition with_attempts (attempts : list DagAttempt) (r : DagRun) : DagRun :=
  {| dr_row := dr_row r; dr_tasks := dr_tasks r; dr_dependencies := dr_dependencies r;
     dr_attempts := attempts; dr_events := dr_events r |}.
Definition with_events (events : list LedgerEvent) (r : DagRun) : DagRun :=
  {| dr_row := dr_row r; dr_tasks := dr_tasks r; dr_dependencies := dr_dependencies r;
     dr_attempts := dr_attempts r; dr_events := events |}.

(** ** Assignments of the [SET] clauses *)

Definition row_touch (now : Z) (row : DagRunRow) : DagRunRow :=
  {| rr_request := rr_request row; rr_status := rr_status row; rr_usage := rr_usage row;
     rr_turns := rr_turns row; rr_owner := rr_owner row; rr_epoch := rr_epoch row;
     rr_leaseExpiresAt := rr_leaseExpiresAt row; rr_integration := rr_integration row;
     rr_integrationFailure := rr_integrationFailure row; rr_pausedAt := rr_pausedAt row;
     rr_pausedDurationMs := rr_pausedDurationMs row; rr_graphVersion := rr_graphVersion row;
     rr_graphSealed := rr_graphSealed row; rr_candidateRelease := rr_candidateRelease row;
     rr_candidateReleaseStartedAt := rr_candidateReleaseStartedAt row;
     rr_candidateReleasedAt := rr_candidateReleasedAt row; rr_resourceGc := rr_resourceGc row;
     rr_gcStartedAt := rr_gcStartedAt row; rr_gcCompletedAt := rr_gcCompletedAt row;
     rr_createdAt := rr_createdAt row; rr_updatedAt := now |}.
Definition row_lease (owner : option string) (epoch : Z) (expires : option Z) (row : DagRunRow) : DagRunRow :=
  {| rr_request := rr_request row; rr_status := rr_status row; rr_usage := rr_usage row;
     rr_turns := rr_turns row; rr_owner := owner; rr_epoch := epoch; rr_leaseExpiresAt := expires;
     rr_integration := rr_integration row; rr_integrationFailure := rr_integrationFailure row;
     rr_pausedAt := rr_pausedAt row; rr_pausedDurationMs := rr_pausedDurationMs row;
     rr_graphVersion := rr_graphVersion row; rr_graphSealed := rr_graphSealed row;
     rr_candidateRelease := rr_candidateRelease row;
     rr_candidateReleaseStartedAt := rr_candidateReleaseStartedAt row;
     rr_candidateReleasedAt := rr_candidateReleasedAt row; rr_resourceGc := rr_resourceGc row;
     rr_gcStartedAt := rr_gcStartedAt row; rr_gcCompletedAt := rr_gcCompletedAt row;
     rr_createdAt := rr_createdAt row; rr_updatedAt := rr_updatedAt row |}.
Definition row_pause (pausedAt : option Z) (duration : Z) (row : DagRunRow) : DagRunRow :=
  {| rr_request := rr_request row; rr_status := rr_status row; rr_usage := rr_usage row;
     rr_turns := rr_turns row; rr_owner := rr_owner row; rr_epoch := rr_epoch row;
     rr_leaseExpiresAt := rr_leaseExpiresAt row; rr_integration := rr_integration row;
     rr_integrationFailure := rr_integrationFailure row; rr_pausedAt := pausedAt;
     rr_pausedDurationMs := duration; rr_graphVersion := rr_graphVersion row;
     rr_graphSealed := rr_graphSealed row; rr_candidateRelease := rr_candidateRelease row;
     rr_candidateReleaseStartedAt := rr_candidateReleaseStartedAt row;
     rr_candidateReleasedAt := rr_candidateReleasedAt row; rr_resourceGc := rr_resourceGc row;
     rr_gcStartedAt := rr_gcStartedAt row; rr_gcCompletedAt := rr_gcCompletedAt row;
     rr_createdAt := rr_createdAt row; rr_updatedAt := rr_updatedAt row |}.
Definition row_status (status : RunStatus) (row : DagRunRow) : DagRunRow :=
  {| rr_request := rr_request row; rr_status := status; rr_usage := rr_usage row;
     rr_turns := rr_turns row; rr_owner := rr_owner row; rr_epoch := rr_epoch row;
     rr_leaseExpiresAt := rr_leaseExpiresAt row; rr_integration := rr_integration row;
     rr_integrationFailure := rr_integrationFailure row; rr_pausedAt := rr_pausedAt row;
     rr_pausedDurationMs := rr_pausedDurationMs row; rr_graphVersion := rr_graphVersion row;
     rr_graphSealed := rr_graphSealed row; rr_candidateRelease := rr_candidateRelease row;
     rr_candidateReleaseStartedAt := rr_candidateReleaseStartedAt row;
     rr_candidateReleasedAt := rr_candidateReleasedAt row; rr_resourceGc := rr_resourceGc row;
     rr_gcStartedAt := rr_gcStartedAt row; rr_gcCompletedAt := rr_gcCompletedAt row;
     rr_createdAt := rr_createdAt row; rr_updatedAt := rr_updatedAt row |}.
Definition row_graph (request : CompiledRequest) (version : Z) (sealed : bool) (row : DagRunRow) : DagRunRow :=
  {| rr_request := request; rr_status := rr_status row; rr_usage := rr_usage row;
     rr_turns := rr_turns row; rr_owner := rr_owner row; rr_epoch := rr_epoch row;
     rr_leaseExpiresAt := rr_leaseExpiresAt row; rr_integration := rr_integration row;
     rr_integrationFailure := rr_integrationFailure row; rr_pausedAt := rr_pausedAt row;
     rr_pausedDurationMs := rr_pausedDurationMs row; rr_graphVersion := version; rr_graphSealed := sealed;
     rr_candidateRelease := rr_candidateRelease row;
     rr_candidateReleaseStartedAt := rr_candidateReleaseStartedAt row;
     rr_candidateReleasedAt := rr_candidateReleasedAt row; rr_resourceGc := rr_resourceGc row;
     rr_gcStartedAt := rr_gcStartedAt row; rr_gcCompletedAt := rr_gcCompletedAt row;
     rr_createdAt := rr_createdAt row; rr_updatedAt := rr_updatedAt row |}.
Definition row_accounting (usage : Usage) (turns : Z) (row : DagRunRow) : DagRunRow :=
  {| rr_request := rr_request row; rr_status := rr_status row; rr_usage := usage; rr_turns := turns;
     rr_owner := rr_owner row; rr_epoch := rr_epoch row; rr_leaseExpiresAt := rr_leaseExpiresAt row;
     rr_integration := rr_integration row; rr_integrationFailure := rr_integrationFailure row;
     rr_pausedAt := rr_pausedAt row; rr_pausedDurationMs := rr_pausedDurationMs row;
     rr_graphVersion := rr_graphVersion row; rr_graphSealed := rr_graphSealed row;
     rr_candidateRelease := rr_candidateRelease row;
     rr_candidateReleaseStartedAt := rr_candidateReleaseStartedAt row;
     rr_candidateReleasedAt := rr_candidateReleasedAt row; rr_resourceGc := rr_resourceGc row;
     rr_gcStartedAt := rr_gcStartedAt row; rr_gcCompletedAt := rr_gcCompletedAt row;
     rr_createdAt := rr_createdAt row; rr_updatedAt := rr_updatedAt row |}.
Definition row_integration (artifact : option IntegrationArtifact) (failure : option jsstring) (row : DagRunRow) : DagRunRow :=
  {| rr_request := rr_request row; rr_status := rr_status row; rr_usage := rr_usage row;
     rr_turns := rr_turns row; rr_owner := rr_owner row; rr_epoch := rr_epoch row;
     rr_leaseExpiresAt := rr_leaseExpiresAt row; rr_integration := artifact;
     rr_integrationFailure := failure; rr_pausedAt := rr_pausedAt row;
     rr_pausedDurationMs := rr_pausedDurationMs row; rr_graphVersion := rr_graphVersion row;
     rr_graphSealed := rr_graphSealed row; rr_candidateRelease := rr_candidateRelease row;
     rr_candidateReleaseStartedAt := rr_candidateReleaseStartedAt row;
     rr_candidateReleasedAt := rr_candidateReleasedAt row; rr_resourceGc := rr_resourceGc row;
     rr_gcStartedAt := rr_gcStartedAt row; rr_gcCompletedAt := rr_gcCompletedAt row;
     rr_createdAt := rr_createdAt row; rr_updatedAt := rr_updatedAt row |}.
Definition row_candidate (state : ReleaseState) (started released : option Z) (row : DagRunRow) : DagRunRow :=
  {| rr_request := rr_request row; rr_status := rr_status row; rr_usage := rr_usage row;
     rr_turns := rr_turns row; rr_owner := rr_owner row; rr_epoch := rr_epoch row;
     rr_leaseExpiresAt := rr_leaseExpiresAt row; rr_integration := rr_integration row;
     rr_integrationFailure := rr_integrationFailure row; rr_pausedAt := rr_pausedAt row;
     rr_pausedDurationMs := rr_pausedDurationMs row; rr_graphVersion := rr_graphVersion row;
     rr_graphSealed := rr_graphSealed row; rr_candidateRelease := state;
     rr_candidateReleaseStartedAt := started; rr_candidateReleasedAt := released;
     rr_resourceGc := rr_resourceGc row; rr_gcStartedAt := rr_gcStartedAt row;
     rr_gcCompletedAt := rr_gcCompletedAt row; rr_createdAt := rr_createdAt row;
     rr_updatedAt := rr_updatedAt row |}.
Definition row_gc (state : ReleaseState) (started completed : option Z) (row : DagRunRow) : DagRunRow :=
  {| rr_request := rr_request row; rr_status := rr_status row; rr_usage := rr_usage row;
     rr_turns := rr_turns row; rr_owner := rr_owner row; rr_epoch := rr_epoch row;
     rr_leaseExpiresAt := rr_leaseExpiresAt row; rr_integration := rr_integration row;
     rr_integrationFailure := rr_integrationFailure row; rr_pausedAt := rr_pausedAt row;
     rr_pausedDurationMs := rr_pausedDurationMs row; rr_graphVersion := rr_graphVersion row;
     rr_graphSealed := rr_graphSealed row; rr_candidateRelease := rr_candidateRelease row;
     rr_candidateReleaseStartedAt := rr_candidateReleaseStartedAt row;
     rr_candidateReleasedAt := rr_candidateReleasedAt row; rr_resourceGc := state;
     rr_gcStartedAt := started; rr_gcCompletedAt := completed; rr_createdAt := rr_createdAt row;
     rr_updatedAt := rr_updatedAt row |}.

Definition task_touch (now : Z) (t : DagTask) : DagTask :=
  {| dt_contract := dt_contract t; dt_status := dt_status t; dt_maxAttempts := dt_maxAttempts t;
     dt_attemptCount := dt_attemptCount t; dt_currentAttempt := dt_currentAttempt t;
     dt_owner := dt_owner t; dt_leaseExpiresAt := dt_leaseExpiresAt t; dt_checkpoint := dt_checkpoint t;
     dt_terminalReason := dt_terminalReason t; dt_error := dt_error t; dt_artifact := dt_artifact t;
     dt_usage := dt_usage t; dt_turns := dt_turns t; dt_retryNotBefore := dt_retryNotBefore t;
     dt_createdAt := dt_createdAt t; dt_updatedAt := now |}.
Definition task_status (status : DagTaskStatus) (t : DagTask) : DagTask :=
  {| dt_contract := dt_contract t; dt_status := status; dt_maxAttempts := dt_maxAttempts t;
     dt_attemptCount := dt_attemptCount t; dt_currentAttempt := dt_currentAttempt t;
     dt_owner := dt_owner t; dt_leaseExpiresAt := dt_leaseExpiresAt t; dt_checkpoint := dt_checkpoint t;
     dt_terminalReason := dt_terminalReason t; dt_error := dt_error t; dt_artifact := dt_artifact t;
     dt_usage := dt_usage t; dt_turns := dt_turns t; dt_retryNotBefore := dt_retryNotBefore t;
     dt_createdAt := dt_createdAt t; dt_updatedAt := dt_updatedAt t |}.
Definition task_assign (attempt owner : option string) (expires : option Z) (t : DagTask) : DagTask :=
  {| dt_contract := dt_contract t; dt_status := dt_status t; dt_maxAttempts := dt_maxAttempts t;
     dt_attemptCount := dt_attemptCount t; dt_currentAttempt := attempt; dt_owner := owner;
     dt_leaseExpiresAt := expires; dt_checkpoint := dt_checkpoint t;
     dt_terminalReason := dt_terminalReason t; dt_error := dt_error t; dt_artifact := dt_artifact t;
     dt_usage := dt_usage t; dt_turns := dt_turns t; dt_retryNotBefore := dt_retryNotBefore t;
     dt_createdAt := dt_createdAt t; dt_updatedAt := dt_updatedAt t |}.
Definition task_count (attempts : Z) (t : DagTask) : DagTask :=
  {| dt_contract := dt_contract t; dt_status := dt_status t; dt_maxAttempts := dt_maxAttempts t;
     dt_attemptCount := attempts; dt_currentAttempt := dt_currentAttempt t; dt_owner := dt_owner t;
     dt_leaseExpiresAt := dt_leaseExpiresAt t; dt_checkpoint := dt_checkpoint t;
     dt_terminalReason := dt_terminalReason t; dt_error := dt_error t; dt_artifact := dt_artifact t;
     dt_usage := dt_usage t; dt_turns := dt_turns t; dt_retryNotBefore := dt_retryNotBefore t;
     dt_createdAt := dt_createdAt t; dt_updatedAt := dt_updatedAt t |}.
Definition task_checkpoint (checkpoint : option json) (t : DagTask) : DagTask :=
  {| dt_contract := dt_contract t; dt_status := dt_status t; dt_maxAttempts := dt_maxAttempts t;
     dt_attemptCount := dt_attemptCount t; dt_currentAttempt := dt_currentAttempt t;
     dt_owner := dt_owner t; dt_leaseExpiresAt := dt_leaseExpiresAt t; dt_checkpoint := checkpoint;
     dt_terminalReason := dt_terminalReason t; dt_error := dt_error t; dt_artifact := dt_artifact t;
     dt_usage := dt_usage t; dt_turns := dt_turns t; dt_retryNotBefore := dt_retryNotBefore t;
     dt_createdAt := dt_createdAt t; dt_updatedAt := dt_updatedAt t |}.
Definition task_outcome (reason error : option string) (t : DagTask) : DagTask :=
  {| dt_contract := dt_contract t; dt_status := dt_status t; dt_maxAttempts := dt_maxAttempts t;
     dt_attemptCount := dt_attemptCount t; dt_currentAttempt := dt_currentAttempt t;
     dt_owner := dt_owner t; dt_leaseExpiresAt := dt_leaseExpiresAt t; dt_checkpoint := dt_checkpoint t;
     dt_terminalReason := reason; dt_error := error; dt_artifact := dt_artifact t; dt_usage := dt_usage t;
     dt_turns := dt_turns t; dt_retryNotBefore := dt_retryNotBefore t; dt_createdAt := dt_createdAt t;
     dt_updatedAt := dt_updatedAt t |}.
Definition task_artifact (artifact : option json) (t : DagTask) : DagTask :=
  {| dt_contract := dt_contract t; dt_status := dt_status t; dt_maxAttempts := dt_maxAttempts t;
     dt_attemptCount := dt_attemptCount t; dt_currentAttempt := dt_currentAttempt t;
     dt_owner := dt_owner t; dt_leaseExpiresAt := dt_leaseExpiresAt t; dt_checkpoint := dt_checkpoint t;
     dt_terminalReason := dt_terminalReason t; dt_error := dt_error t; dt_artifact := artifact;
     dt_usage := dt_usage t; dt_turns := dt_turns t; dt_retryNotBefore := dt_retryNotBefore t;
     dt_createdAt := dt_createdAt t; dt_updatedAt := dt_updatedAt t |}.
Definition task_accounting (usage : Usage) (turns : Z) (t : DagTask) : DagTask :=
  {| dt_contract := dt_contract t; dt_status := dt_status t; dt_maxAttempts := dt_maxAttempts t;
     dt_attemptCount := dt_attemptCount t; dt_currentAttempt := dt_currentAttempt t;
     dt_owner := dt_owner t; dt_leaseExpiresAt := dt_leaseExpiresAt t; dt_checkpoint := dt_checkpoint t;
     dt_terminalReason := dt_terminalReason t; dt_error := dt_error t; dt_artifact := dt_artifact t;
     dt_usage := usage; dt_turns := turns; dt_retryNotBefore := dt_retryNotBefore t;
     dt_createdAt := dt_createdAt t; dt_updatedAt := dt_updatedAt t |}.
Definition task_retry (retryNotBefore : option Z) (t : DagTask) : DagTask :=
  {| dt_contract := dt_contract t; dt_status := dt_status t; dt_maxAttempts := dt_maxAttempts t;
     dt_attemptCount := dt_attemptCount t; dt_currentAttempt := dt_currentAttempt t;
     dt_owner := dt_owner t; dt_leaseExpiresAt := dt_leaseExpiresAt t; dt_checkpoint := dt_checkpoint t;
     dt_terminalReason := dt_terminalReason t; dt_error := dt_error t; dt_artifact := dt_artifact t;
     dt_usage := dt_usage t; dt_turns := dt_turns t; dt_retryNotBefore := retryNotBefore;
     dt_createdAt := dt_createdAt t; dt_updatedAt := dt_updatedAt t |}.

Definition attempt_touch (now : Z) (a : DagAttempt) : DagAttempt :=
  {| da_id := da_id a; da_task := da_task a; da_number := da_number a; da_owner := da_owner a;
     da_status := da_status a; da_leaseExpiresAt := da_leaseExpiresAt a; da_checkpoint := da_checkpoint a;
     da_terminalReason := da_terminalReason a; da_error := da_error a; da_usage := da_usage a;
     da_turns := da_turns a; da_createdAt := da_createdAt a; da_updatedAt := now |}.
Definition attempt_status (status : AttemptStatus) (a : DagAttempt) : DagAttempt :=
  {| da_id := da_id a; da_task := da_task a; da_number := da_number a; da_owner := da_owner a;
     da_status := status; da_leaseExpiresAt := da_leaseExpiresAt a; da_checkpoint := da_checkpoint a;
     da_terminalReason := da_terminalReason a; da_error := da_error a; da_usage := da_usage a;
     da_turns := da_turns a; da_createdAt := da_createdAt a; da_updatedAt := da_updatedAt a |}.
Definition attempt_assign (owner : string) (expires : Z) (a : DagAttempt) : DagAttempt :=
  {| da_id := da_id a; da_task := da_task a; da_number := da_number a; da_owner := owner;
     da_status := da_status a; da_leaseExpiresAt := expires; da_checkpoint := da_checkpoint a;
     da_terminalReason := da_terminalReason a; da_error := da_error a; da_usage := da_usage a;
     da_turns := da_turns a; da_createdAt := da_createdAt a; da_updatedAt := da_updatedAt a |}.
Definition attempt_checkpoint (checkpoint : option json) (a : DagAttempt) : DagAttempt :=
  {| da_id := da_id a; da_task := da_task a; da_number := da_number a; da_owner := da_owner a;
     da_status := da_status a; da_leaseExpiresAt := da_leaseExpiresAt a; da_checkpoint := checkpoint;
     da_terminalReason := da_terminalReason a; da_error := da_error a; da_usage := da_usage a;
     da_turns := da_turns a; da_createdAt := da_createdAt a; da_updatedAt := da_updatedAt a |}.
Definition attempt_outcome (reason error : option string) (a : DagAttempt) : DagAttempt :=
  {| da_id := da_id a; da_task := da_task a; da_number := da_number a; da_owner := da_owner a;
     da_status := da_status a; da_leaseExpiresAt := da_leaseExpiresAt a; da_checkpoint := da_checkpoint a;
     da_terminalReason := reason; da_error := error; da_usage := da_usage a; da_turns := da_turns a;
     da_createdAt := da_createdAt a; da_updatedAt := da_updatedAt a |}.
Definition attempt_accounting (usage : Usage) (turns : Z) (a : DagAttempt) : DagAttempt :=
  {| da_id := da_id a; da_task := da_task a; da_number := da_number a; da_owner := da_owner a;
     da_status := da_status a; da_leaseExpiresAt := da_leaseExpiresAt a; da_checkpoint := da_checkpoint a;
     da_terminalReason := da_terminalReason a; da_error := da_error a; da_usage := usage;
     da_turns := turns; da_createdAt := da_createdAt a; da_updatedAt := da_updatedAt a |}.

(** ** Transactions *)

(** One constructor per message the operations throw. *)
Inductive ledger_error :=
| ERunIdRequired | ERequestVersion | EDuplicateTasks | ENoTasks
| EMaxAttempts (taskId : string) | EInvalidDependency (taskId dependency : string)
| EDependencyCycle (taskId : string) | EUnsupportedRequest | ECyclicRequest
| EOwnerRequired | ENowUnsafe | EInvalidDuration | EInvalidLimit | EExpiryRange | EEpochRange
| ELeaseRequired | EStaleLease | EStaleAttempt (taskId attemptId : string)
| ELiveControllerLease | ENonResumableTask (taskId : string) | ENoActiveAttempt (taskId : string)
| EConcurrent | EPausedDurationRange | ENotTerminal | ENoCandidate | ECandidateNotReleased | ENotStarted
| ERunClosed (status : RunStatus) | ENotAwaitingExpansion | EHasIntegration | EGraphSealed
| EInvalidGraphVersion | EStaleGraphVersion | ETasksRemoved | ETasksModified | EPolicyModified | EOwnershipOverlap (taskId other : string)
| EIncompleteTask (taskId : string)
| EInvalidTransition (from to : RunStatus) | EPausedRun | EUnsealedRun | EIntegrationFailure
| EIntegrationRequired | EPartialCandidate | ETurnsRange | EInvalidTurns | EAttemptNotRecoverable (taskId : string)
| EInvalidHeartbeat | EInvalidCircuit | ECircuitMismatch | EUnsafeExternalWriter | EAccountingRegressed
| EFailureReason | EUnknownTask (taskId : string) | EUnknownAttempt (attemptId : string)
| EImmutableTask (taskId : string) | EArtifactVersion | EArtifactTask | EArtifactContract
| ERetryRange
| ETypeError  (** reading a property of [undefined] or [null] *)
| EConstraint (** a constraint of the schema *)
| EOutOfRounds (** a bound of the model; never reached *).

Definition Tx (A : Type) : Type := M DagRun ledger_error A.

(** [this.transaction(operation)]: an exception rolls the database back. *)
Definition transaction {A} (operation : Tx A) : Tx A := fun r =>
  match operation r with
  | (r', Ok a) => (r', Ok a)
  | (_, Err e) => (r, Err e)
  end.

(** [UPDATE ... SET f WHERE p], with the number of changed rows. *)
Definition update_run (p : DagRunRow -> bool) (f : DagRunRow -> DagRunRow) : Tx Z := fun r =>
  if p (dr_row r) then (with_row (f (dr_row r)) r, Ok 1) else (r, Ok 0).
Definition update_tasks (p : DagTask -> bool) (f : DagTask -> DagTask) : Tx Z := fun r =>
  (with_tasks ((fun t => if p t then f t else t) <$> dr_tasks r) r, Ok (zlen (keep p (dr_tasks r)))).
Definition update_attempts (p : DagAttempt -> bool) (f : DagAttempt -> DagAttempt) : Tx Z := fun r =>
  (with_attempts ((fun a => if p a then f a else a) <$> dr_attempts r) r, Ok (zlen (keep p (dr_attempts r)))).
(** [if (result.changes !== 1) throw e] *)
Definition expect_one (e : ledger_error) (update : Tx Z) : Tx unit :=
  changes ← update; throw_if (negb (changes =? 1)) e.

Definition insertDagEvent (body : event_body) (now : Z) (taskId : option string) : Tx unit :=
  modify (fun r => with_events (dr_events r ++ [{| ev_taskId := taskId; ev_body := body; ev_createdAt := now |}]) r).

(** [SELECT ... WHERE p], the first row *)
Definition find_row {A} (p : A -> bool) (l : list A) : option A := head (keep p l).

(** ** Checked numbers *)

Definition is_safe (z : Z) : bool := Z.abs z <=? MAX_SAFE_INTEGER.
Definition safe_integer (n : number) : option Z := if num_is_safe_integer n then num_to_Z n else None.
Definition safe_or (e : ledger_error) (n : number) : Tx Z :=
  match safe_integer n with Some z => mret z | None => throw e end.
Definition positive_or (e : ledger_error) (n : number) : Tx Z :=
  match safe_integer n with Some z => if z <? 1 then throw e else mret z | None => throw e end.
(** [now + leaseDurationMs], itself a safe integer *)
Definition lease_expiry (now : Z) (leaseDurationMs : number) : Tx Z :=
  duration ← positive_or EInvalidDuration leaseDurationMs;
  throw_if (negb (is_safe (now + duration))) EExpiryRange ;;
  mret (now + duration).

(** ** Usage *)

(** A number that went through JSON has no negative zero; usage numbers are finite. *)
Definition json_number (n : number) : number := if num_is_neg_zero n then num_zero else n.
Definition cloneUsage (u : Usage) : Usage :=
  let c := usage_cost u in
  {| usage_input := json_number (usage_input u); usage_output := json_number (usage_output u);
     usage_cacheRead := json_number (usage_cacheRead u); usage_cacheWrite := json_number (usage_cacheWrite u);
     usage_cacheWrite1h := json_number <$> usage_cacheWrite1h u;
     usage_reasoning := json_number <$> usage_reasoning u;
     usage_totalTokens := json_number (usage_totalTokens u);
     usage_cost := {| cost_input := json_number (cost_input c); cost_output := json_number (cost_output c);
                      cost_cacheRead := json_number (cost_cacheRead c);
                      cost_cacheWrite := json_number (cost_cacheWrite c); cost_total := json_number (cost_total c) |} |}.
Definition ZERO_USAGE : Usage :=
  {| usage_input := num_zero; usage_output := num_zero; usage_cacheRead := num_zero; usage_cacheWrite := num_zero;
     usage_cacheWrite1h := None; usage_reasoning := None; usage_totalTokens := num_zero;
     usage_cost := {| cost_input := num_zero; cost_output := num_zero; cost_cacheRead := num_zero;
                      cost_cacheWrite := num_zero; cost_total := num_zero |} |}.

(** [if (right.k !== undefined) total.k = (total.k ?? 0) + right.k] *)
Definition add_optional_count (total right : option number) : option number :=
  match right with Some n => Some (num_add (default num_zero total) n) | None => total end.
Definition addUsageValues (left right : Usage) : Usage :=
  let t := cloneUsage left in
  let c := usage_cost t in
  let d := usage_cost right in
  {| usage_input := num_add (usage_input t) (usage_input right);
     usage_output := num_add (usage_output t) (usage_output right);
     usage_cacheRead := num_add (usage_cacheRead t) (usage_cacheRead right);
     usage_cacheWrite := num_add (usage_cacheWrite t) (usage_cacheWrite right);
     usage_cacheWrite1h := add_optional_count (usage_cacheWrite1h t) (usage_cacheWrite1h right);
     usage_reasoning := add_optional_count (usage_reasoning t) (usage_reasoning right);
     usage_totalTokens := num_add (usage_totalTokens t) (usage_totalTokens right);
     usage_cost := {| cost_input := num_add (cost_input c) (cost_input d);
                      cost_output := num_add (cost_output c) (cost_output d);
                      cost_cacheRead := num_add (cost_cacheRead c) (cost_cacheRead d);
                      cost_cacheWrite := num_add (cost_cacheWrite c) (cost_cacheWrite d);
                      cost_total := num_add (cost_total c) (cost_total d) |} |}.
Definition usageAtLeast (next previous : Usage) : bool :=
  let c := usage_cost next in
  let d := usage_cost previous in
  num_leb (usage_input previous) (usage_input next) && num_leb (usage_output previous) (usage_output next)
  && num_leb (usage_cacheRead previous) (usage_cacheRead next)
  && num_leb (usage_cacheWrite previous) (usage_cacheWrite next)
  && num_leb (usage_totalTokens previous) (usage_totalTokens next)
  && num_leb (cost_input d) (cost_input c) && num_leb (cost_output d) (cost_output c)
  && num_leb (cost_cacheRead d) (cost_cacheRead c) && num_leb (cost_cacheWrite d) (cost_cacheWrite c)
  && num_leb (cost_total d) (cost_total c)
  && num_leb (default num_zero (usage_cacheWrite1h previous)) (default num_zero (usage_cacheWrite1h next))
  && num_leb (default num_zero (usage_reasoning previous)) (default num_zero (usage_reasoning next)).

(** ** Checkpoints *)

(** An object with [version === 1] and a textual [phase]. *)
Definition checkpointRecord (value : option json) : option (list (string * json)) :=
  match value with
  | Some (JsonObject props) =>
      match find_prop "version" props, find_prop "phase" props with
      | Some (JsonNumber n), Some (JsonString _) => if num_eq_Z n 1 then Some props else None
      | _, _ => None
      end
  | _ => None
  end.
Definition has_phase (phase : string) (props : list (string * json)) : bool :=
  match find_prop "phase" props with Some (JsonString p) => String.eqb p phase | _ => false end.
Definition isAvailabilityRetryCheckpoint (value : option json) : bool :=
  match checkpointRecord value with
  | Some props =>
      has_phase "availability_retry" props
      || match find_prop "availabilityRetry" props with Some (JsonBool true) => true | _ => false end
  | None => false
  end.
Definition providerCircuitRetryNotBefore (value : option json) : option Z :=
  match checkpointRecord value with
  | Some props =>
      if has_phase "provider_circuit_open" props then
        match find_prop "retryNotBefore" props with
        | Some (JsonNumber n) => z ← safe_integer n; if z <? 0 then None else Some z
        | _ => None
        end
      else None
  | None => None
  end.
Definition isControllerResumableCheckpoint (value : option json) (role : SubagentRole) : bool :=
  match checkpointRecord value with
  | Some props =>
      has_phase "artifact_ready" props
      || (negb (bool_decide (role = ExternalWriter))
          && (has_phase "interrupted" props || has_phase "provider_circuit_open" props
              || isAvailabilityRetryCheckpoint value))
  | None => false
  end.

(** [json_extract(artifact_json, '$.quality.semanticOutcome') IN ('rejected', 'inconclusive')] *)
Definition semantic_negative (artifact : option json) : bool :=
  match artifact with
  | Some a => match prop a "quality" with
              | Some q => match prop q "semanticOutcome" with
                          | Some (JsonString s) => String.eqb s "rejected" || String.eqb s "inconclusive"
                          | _ => false
                          end
              | None => false
              end
  | None => false
  end.
