(* ===== verification/Ledger.v ===== *)
(** * The run ledger (packages/subagent/src/ledger.ts, class RunLedger)

    One definition per operation, on the rows of one run.  An operation on an unknown run or
    a closed ledger throws before it reads, and is left out; the clock's [Date.now()] is an
    argument.  [claimRunnableTasks] takes the identifiers [randomUUID] would give, by task,
    and the attempt identifiers other runs use, since they share a primary key. *)
From S2P Require Import Prelude JsNumber SessionTypes JsText JsonNumber JsonText Subagent RetryPolicy.
From S2P Require Import LedgerTypes.

(** ** Reading rows *)

Definition open_status (s : RunStatus) : bool := bool_decide (s = RunCreated \/ s = RunRunning).
Definition terminal_status (s : RunStatus) : bool := negb (open_status s).
Definition has_status (s : DagTaskStatus) (t : DagTask) : bool := bool_decide (dt_status t = s).
Definition is_task (taskId : string) (t : DagTask) : bool := String.eqb (dt_id t) taskId.

(** [owner_id IS NOT NULL AND run_lease_expires_at IS NOT NULL AND run_lease_expires_at > now] *)
Definition live_lease (now : Z) (row : DagRunRow) : bool :=
  match rr_owner row, rr_leaseExpiresAt row with
  | Some _, Some expires => now <? expires
  | _, _ => false
  end.
(** [owner_id = ? AND owner_epoch = ? AND run_lease_expires_at = ?] *)
Definition holds_lease (lease : DagRunLease) (row : DagRunRow) : bool :=
  bool_decide (rr_owner row = Some (le_ownerId lease)) && (rr_epoch row =? le_epoch lease)
  && bool_decide (rr_leaseExpiresAt row = Some (le_leaseExpiresAt lease)).

Definition assertDagRunMutationLease (now : Z) (lease : option DagRunLease) (terminal : bool) : Tx unit :=
  r ← get;
  throw_if (terminal && bool_decide (lease = None)) ELeaseRequired ;;
  match rr_owner (dr_row r) with
  | None => throw_if (bool_decide (lease <> None)) EStaleLease
  | Some _ =>
      match lease with
      | None => throw EStaleLease
      | Some l => throw_if (negb (holds_lease l (dr_row r) && live_lease now (dr_row r))) EStaleLease
      end
  end.

(** [dependency.task_id = t] joined with the rows of the prerequisites *)
Definition prerequisites (r : DagRun) (taskId : string) : list DagTask :=
  keep (fun p => existsb (fun '(t, d) => String.eqb t taskId && String.eqb d (dt_id p)) (dr_dependencies r))
       (dr_tasks r).

(** [stableTopologicalTaskIds]: the stable order of dag-scheduler without its check for
    unknown dependencies, which can never become ready. *)
Fixpoint stable_ids (rounds : nat) (tasks : list DagTaskContract) (completed : list string)
  : result ledger_error (list string) :=
  match rounds with
  | O => Ok completed
  | S rounds' =>
      match find_task (ready completed) tasks with
      | None => Err ECyclicRequest
      | Some next => stable_ids rounds' tasks (completed ++ [task_id next])
      end
  end.
Definition stableTopologicalTaskIds (tasks : list LedgerContract) : result ledger_error (list string) :=
  stable_ids (length tasks) (lc_task <$> tasks) [].

Definition decodeCompiledDagRequest (request : CompiledRequest) : Tx CompiledRequest :=
  throw_if (negb (num_eq_Z (rp_version (cr_policy request)) 2
                  && num_eq_Z (rp_handoffProtocolVersion (cr_policy request)) 2)) EUnsupportedRequest ;;
  mret request.

(** ** Accounting *)

(** [ORDER BY task_id, attempt_number] *)
Definition attempt_before (a b : DagAttempt) : Prop :=
  match String.compare (da_task a) (da_task b) with
  | Lt => True
  | Eq => da_number a <= da_number b
  | Gt => False
  end.
#[export] Instance attempt_before_dec : RelDecision attempt_before.
Proof. intros a b. unfold attempt_before. destruct String.compare; apply _. Defined.

Definition total_usage (attempts : list DagAttempt) : Usage :=
  foldl (fun usage a => addUsageValues usage (da_usage a)) (cloneUsage ZERO_USAGE) attempts.
Definition total_turns (attempts : list DagAttempt) : Z := foldl (fun n a => n + da_turns a) 0 attempts.

Definition reconcileDagRunAccountingInTransaction (now : Z) : Tx (Usage * Z) :=
  r ← get;
  let attempts := merge_sort attempt_before (dr_attempts r) in
  let usage := total_usage attempts in
  let turns := total_turns attempts in
  throw_if (negb (is_safe turns)) ETurnsRange ;;
  (if bool_decide (usage = rr_usage (dr_row r)) && (turns =? rr_turns (dr_row r)) then mret tt
   else
     expect_one EConcurrent (update_run (fun _ => true) (row_touch now ∘ row_accounting usage turns)) ;;
     insertDagEvent (EvRunUsage usage turns true) now None) ;;
  mret (cloneUsage usage, turns).

(** ** Blocking the descendants of a failure *)

Definition blocks_dependents (p : DagTask) : bool :=
  has_status TFailed p || has_status TCancelled p || has_status TBlocked p
  || (has_status TSucceeded p && semantic_negative (dt_artifact p)).
Definition to_block (r : DagRun) : list DagTask :=
  keep (fun t => has_status TPending t && existsb blocks_dependents (prerequisites r (dt_id t))) (dr_tasks r).

Definition block_task (now : Z) (t : DagTask) : Tx unit :=
  changes ← update_tasks (fun t' => is_task (dt_id t) t' && has_status TPending t')
              (task_touch now ∘ task_status TBlocked
               ∘ task_outcome (Some "dependency_failed") (Some "A task dependency did not succeed"));
  if changes =? 1 then insertDagEvent EvTaskBlocked now (Some (dt_id t)) else mret tt.

(** [for (;;)]: each round but the last blocks a pending task. *)
Fixpoint block_rounds (rounds : nat) (now : Z) : Tx unit :=
  match rounds with
  | O => throw EOutOfRounds
  | S rounds' =>
      r ← get;
      match to_block r with
      | [] => mret tt
      | rows => forM_ rows (block_task now) ;; block_rounds rounds' now
      end
  end.
Definition blockDagDescendants (now : Z) : Tx unit :=
  r ← get;
  block_rounds (S (length (dr_tasks r))) now.

(** ** Controller leases *)

Definition acquireDagRunLease (ownerId : string) (now leaseDurationMs : number) : Tx (option DagRunLease) :=
  throw_if (String.eqb ownerId "") EOwnerRequired ;;
  now ← safe_or ENowUnsafe now;
  expires ← lease_expiry now leaseDurationMs;
  transaction (
    r ← get;
    let row := dr_row r in
    if negb (open_status (rr_status row)) then mret None
    else if live_lease now row then mret None
    else
      let epoch := rr_epoch row + 1 in
      throw_if (negb (is_safe epoch)) EEpochRange ;;
      changes ← update_run (fun row' => (rr_epoch row' =? rr_epoch row) && bool_decide (rr_owner row' = rr_owner row)
                              && bool_decide (rr_leaseExpiresAt row' = rr_leaseExpiresAt row)
                              && open_status (rr_status row'))
                  (row_touch now ∘ row_lease (Some ownerId) epoch (Some expires));
      if negb (changes =? 1) then mret None
      else
        let lease := {| le_ownerId := ownerId; le_epoch := epoch; le_leaseExpiresAt := expires |} in
        insertDagEvent (EvLeaseAcquired lease) now None ;;
        mret (Some lease)).

Definition heartbeatDagRunLease (lease : DagRunLease) (now leaseDurationMs : number) : Tx (option DagRunLease) :=
  now ← safe_or ENowUnsafe now;
  expires ← lease_expiry now leaseDurationMs;
  transaction (
    changes ← update_run (fun row => holds_lease lease row && (now <? le_leaseExpiresAt lease)
                            && open_status (rr_status row))
                (fun row => row_touch now (row_lease (rr_owner row) (rr_epoch row) (Some expires) row));
    if negb (changes =? 1) then mret None
    else
      let renewed := {| le_ownerId := le_ownerId lease; le_epoch := le_epoch lease; le_leaseExpiresAt := expires |} in
      insertDagEvent (EvLeaseHeartbeat renewed) now None ;;
      mret (Some renewed)).

Definition releaseDagRunLease (lease : DagRunLease) (now : number) : Tx bool :=
  now ← safe_or ENowUnsafe now;
  transaction (
    changes ← update_run (fun row => holds_lease lease row && open_status (rr_status row))
                (fun row => row_touch now (row_lease None (rr_epoch row) None row));
    if negb (changes =? 1) then mret false
    else
      insertDagEvent (EvLeaseReleased (le_ownerId lease) (le_epoch lease)) now None ;;
      mret true).

(** ** Pausing *)

Definition attempt_of (attemptId taskId ownerId : string) (a : DagAttempt) : bool :=
  String.eqb (da_id a) attemptId && String.eqb (da_task a) taskId && String.eqb (da_owner a) ownerId.
Definition attempt_running (a : DagAttempt) : bool := bool_decide (da_status a = AttemptRunning).

(** [status = 'running' AND current_attempt_id = ? AND owner_id = ?] *)
Definition runs_attempt (taskId attemptId ownerId : string) (t : DagTask) : bool :=
  is_task taskId t && has_status TRunning t && bool_decide (dt_currentAttempt t = Some attemptId)
  && bool_decide (dt_owner t = Some ownerId).

(** The attempt and the owner of a running task. *)
Definition active_attempt (t : DagTask) : Tx (string * string) :=
  match dt_currentAttempt t, dt_owner t with
  | Some a, Some o => if String.eqb a "" || String.eqb o "" then throw (ENoActiveAttempt (dt_id t)) else mret (a, o)
  | _, _ => throw (ENoActiveAttempt (dt_id t))
  end.

Definition pause_task (now : Z) (t : DagTask) : Tx unit :=
  '(attempt, owner) ← active_attempt t;
  expect_one EConcurrent
    (update_attempts (fun a => attempt_of attempt (dt_id t) owner a && attempt_running a)
       (attempt_touch now ∘ attempt_status AttemptExpired
        ∘ attempt_outcome (Some "interrupted") (Some "Attempt interrupted by DAG pause"))) ;;
  expect_one EConcurrent
    (update_tasks (runs_attempt (dt_id t) attempt owner)
       (task_touch now ∘ task_status TPending ∘ task_assign None None None ∘ task_outcome None None)) ;;
  insertDagEvent (EvTaskRequeued attempt (dt_attemptCount t) RequeuePaused None) now (Some (dt_id t)).

Definition markDagRunPaused (now : number) : Tx bool :=
  now ← safe_or ENowUnsafe now;
  transaction (
    r ← get;
    let row := dr_row r in
    if negb (open_status (rr_status row)) then mret false
    else if bool_decide (rr_pausedAt row <> None) then mret true
    else
      throw_if (live_lease now row) ELiveControllerLease ;;
      let runningTasks := keep (has_status TRunning) (dr_tasks r) in
      match find_row (fun t => negb (isControllerResumableCheckpoint (dt_checkpoint t) (dt_role t))) runningTasks with
      | Some unsafe => throw (ENonResumableTask (dt_id unsafe))
      | None => mret tt
      end ;;
      forM_ runningTasks (pause_task now) ;;
      expect_one EConcurrent
        (update_run (fun row => open_status (rr_status row) && bool_decide (rr_pausedAt row = None)
                                && negb (live_lease now row))
           (fun row => row_touch now (row_lease None (rr_epoch row) None
                         (row_pause (Some now) (rr_pausedDurationMs row) row)))) ;;
      insertDagEvent (EvRunPaused now) now None ;;
      mret true).

Definition clearDagRunPause (now : number) (lease : DagRunLease) : Tx bool :=
  now ← safe_or ENowUnsafe now;
  transaction (
    r ← get;
    assertDagRunMutationLease now (Some lease) false ;;
    match rr_pausedAt (dr_row r) with
    | None => mret false
    | Some pausedAt =>
        let duration := Z.max 0 (now - pausedAt) in
        let total := rr_pausedDurationMs (dr_row r) + duration in
        throw_if (negb (is_safe total)) EPausedDurationRange ;;
        expect_one EConcurrent
          (update_run (fun row => bool_decide (rr_pausedAt row = Some pausedAt) && holds_lease lease row)
             (row_touch now ∘ row_pause None total)) ;;
        insertDagEvent (EvRunResumed pausedAt now duration) now None ;;
        mret true
    end).

(** ** Releasing the resources of a finished run *)

(** [true] for "released", [false] for "pending" *)
Definition beginDagCandidateRelease (now : Z) : Tx bool :=
  transaction (
    r ← get;
    let row := dr_row r in
    throw_if (open_status (rr_status row)) ENotTerminal ;;
    throw_if (match rr_integration row with None => true | Some _ => false end) ENoCandidate ;;
    match rr_candidateRelease row with
    | Released => mret true
    | ReleasePending => mret false
    | Retained =>
        expect_one EConcurrent
          (update_run (fun row => bool_decide (rr_candidateRelease row = Retained))
             (fun row => row_touch now (row_candidate ReleasePending (Some now) (rr_candidateReleasedAt row) row))) ;;
        insertDagEvent (EvCandidateReleaseStarted now) now None ;;
        mret false
    end).

Definition completeDagCandidateRelease (now : Z) : Tx unit :=
  transaction (
    r ← get;
    match rr_candidateRelease (dr_row r) with
    | Released => mret tt
    | Retained => throw ENotStarted
    | ReleasePending =>
        update_run (fun row => bool_decide (rr_candidateRelease row = ReleasePending))
          (fun row => row_touch now (row_candidate Released (rr_candidateReleaseStartedAt row) (Some now) row)) ;;
        insertDagEvent (EvCandidateReleased now) now None
    end).

Definition beginDagResourceGc (now : Z) : Tx bool :=
  transaction (
    r ← get;
    let row := dr_row r in
    throw_if (open_status (rr_status row)) ENotTerminal ;;
    throw_if (match rr_integration row with
              | Some _ => negb (bool_decide (rr_candidateRelease row = Released))
              | None => false
              end) ECandidateNotReleased ;;
    match rr_resourceGc row with
    | Released => mret true
    | ReleasePending => mret false
    | Retained =>
        expect_one EConcurrent
          (update_run (fun row => bool_decide (rr_resourceGc row = Retained))
             (fun row => row_touch now (row_gc ReleasePending (Some now) (rr_gcCompletedAt row) row))) ;;
        insertDagEvent (EvGcStarted now) now None ;;
        mret false
    end).

Definition completeDagResourceGc (now : Z) : Tx unit :=
  transaction (
    r ← get;
    match rr_resourceGc (dr_row r) with
    | Released => mret tt
    | Retained => throw ENotStarted
    | ReleasePending =>
        update_run (fun row => bool_decide (rr_resourceGc row = ReleasePending))
          (fun row => row_touch now (row_gc Released (rr_gcStartedAt row) (Some now) row)) ;;
        insertDagEvent (EvGcCompleted now) now None
    end).

(** ** Creating and expanding a run *)

Definition new_task (now : Z) (contract : LedgerContract) (maxAttempts : Z) : DagTask :=
  {| dt_contract := contract; dt_status := TPending; dt_maxAttempts := maxAttempts; dt_attemptCount := 0;
     dt_currentAttempt := None; dt_owner := None; dt_leaseExpiresAt := None; dt_checkpoint := None;
     dt_terminalReason := None; dt_error := None; dt_artifact := None; dt_usage := ZERO_USAGE; dt_turns := 0;
     dt_retryNotBefore := None; dt_createdAt := now; dt_updatedAt := now |}.

(** [INSERT INTO dag_tasks]: the primary key is the id, and [max_attempts >= 1]. *)
Definition insert_task (now : Z) (contract : LedgerContract) : Tx unit :=
  r ← get;
  maxAttempts ← positive_or EConstraint (lc_maxAttempts contract);
  throw_if (existsb (is_task (lc_id contract)) (dr_tasks r)) EConstraint ;;
  modify (fun r => with_tasks (dr_tasks r ++ [new_task now contract maxAttempts]) r).

(** [INSERT INTO dag_dependencies]: the pair is the key, and the tasks must exist. *)
Definition insert_dependency (taskId dependency : string) : Tx unit :=
  r ← get;
  throw_if (bool_decide ((taskId, dependency) ∈ dr_dependencies r)) EConstraint ;;
  throw_if (negb (existsb (is_task taskId) (dr_tasks r) && existsb (is_task dependency) (dr_tasks r))) EConstraint ;;
  modify (fun r => with_dependencies (dr_dependencies r ++ [(taskId, dependency)]) r).

Definition insert_dependencies (now : Z) (contract : LedgerContract) : Tx unit :=
  forM_ (lc_dependsOn contract) (insert_dependency (lc_id contract)) ;;
  insertDagEvent (EvTaskCreated contract) now (Some (lc_id contract)).

Definition check_contract (ids : list string) (contract : LedgerContract) : result ledger_error unit :=
  match safe_integer (lc_maxAttempts contract) with
  | Some n =>
      if n <? 1 then Err (EMaxAttempts (lc_id contract))
      else
        match find_row (fun d => String.eqb d (lc_id contract) || negb (bool_decide (d ∈ ids)))
                (lc_dependsOn contract) with
        | Some d => Err (EInvalidDependency (lc_id contract) d)
        | None => Ok tt
        end
  | None => Err (EMaxAttempts (lc_id contract))
  end.

(** [visit]: depth first over the dependencies.  [visiting] is the path to the task and
    [visited] what is done, in the order it was done.  The depth is a bound: a path repeats no task. *)
Fixpoint visit (depth : nat) (tasks : list LedgerContract) (visiting : list string)
    (visited : list string) (taskId : string) : result ledger_error (list string) :=
  match depth with
  | O => Err EOutOfRounds
  | S depth' =>
      if bool_decide (taskId ∈ visited) then Ok visited
      else if bool_decide (taskId ∈ visiting) then Err (EDependencyCycle taskId)
      else
        let dependencies :=
          match find_row (fun t => String.eqb (lc_id t) taskId) tasks with
          | Some t => lc_dependsOn t
          | None => []
          end in
        visited' ← foldM (visit depth' tasks (taskId :: visiting)) visited dependencies;
        mret (visited' ++ [taskId])
  end.

Definition check_request (request : CompiledRequest) : result ledger_error unit :=
  let tasks := cr_tasks request in
  let ids := lc_id <$> tasks in
  if negb (num_eq_Z (rp_version (cr_policy request)) 2) then Err ERequestVersion
  else if negb (bool_decide (NoDup ids)) then Err EDuplicateTasks
  else if bool_decide (tasks = []) then Err ENoTasks
  else
    foldM (fun _ t => check_contract ids t) tt tasks ;;
    foldM (visit (S (length tasks)) tasks []) [] ids ;;
    mret tt.

Definition new_row (now : Z) (request : CompiledRequest) (usage : option Usage) : DagRunRow :=
  {| rr_request := request; rr_status := RunCreated; rr_usage := cloneUsage (default ZERO_USAGE usage); rr_turns := 0;
     rr_owner := None; rr_epoch := 0; rr_leaseExpiresAt := None; rr_integration := None;
     rr_integrationFailure := None; rr_pausedAt := None; rr_pausedDurationMs := 0; rr_graphVersion := 1;
     rr_graphSealed := cr_sealed request; rr_candidateRelease := Retained; rr_candidateReleaseStartedAt := None;
     rr_candidateReleasedAt := None; rr_resourceGc := Retained; rr_gcStartedAt := None; rr_gcCompletedAt := None;
     rr_createdAt := now; rr_updatedAt := now |}.

(** The rows of a new run.  [exists_] says that the run id is taken. *)
Definition createDagRun (runId : string) (exists_ : bool) (request : CompiledRequest) (usage : option Usage)
    (now : Z) : result ledger_error DagRun :=
  if String.eqb runId "" then Err ERunIdRequired
  else
    check_request request ;;
    let empty := {| dr_row := new_row now request usage; dr_tasks := []; dr_dependencies := [];
                    dr_attempts := []; dr_events := [] |} in
    let insert : Tx unit :=
      decodeCompiledDagRequest request ;;
      throw_if exists_ EConstraint ;;
      insertDagEvent EvRunCreated now None ;;
      forM_ (cr_tasks request) (insert_task now) ;;
      forM_ (cr_tasks request) (insert_dependencies now) in
    match transaction insert empty with
    | (r, Ok tt) => Ok r
    | (_, Err e) => Err e
    end.

(** [path === claimed || path.startsWith(claimed + "/") || claimed.startsWith(path + "/")] *)
Definition paths_overlap (path claimed : string) : bool :=
  String.eqb path claimed || String.prefix (claimed +:+ "/") path || String.prefix (path +:+ "/") claimed.

Definition own_path (contract : LedgerContract) (ownership : list (string * string)) (path : string)
  : result ledger_error (list (string * string)) :=
  match find_row (fun claimed => paths_overlap path claimed.2) ownership with
  | Some overlap => Err (EOwnershipOverlap (lc_id contract) overlap.1)
  | None => Ok (ownership ++ [(lc_id contract, path)])
  end.
Definition own_paths (ownership : list (string * string)) (contract : LedgerContract)
  : result ledger_error (list (string * string)) :=
  match safe_integer (lc_maxAttempts contract) with
  | Some n =>
      if n <? 1 then Err (EMaxAttempts (lc_id contract))
      else if negb (bool_decide (lc_role contract = Writer)) then Ok ownership
      else foldM (own_path contract) ownership (lc_ownedPaths contract)
  | None => Err (EMaxAttempts (lc_id contract))
  end.

Definition expandDagRun (expectedGraphVersion : number) (expanded : CompiledRequest) (now : Z)
    (lease : option DagRunLease) : Tx unit :=
  expectedGraphVersion ← positive_or EInvalidGraphVersion expectedGraphVersion;
  transaction (
    r ← get;
    let row := dr_row r in
    assertDagRunMutationLease now lease false ;;
    throw_if (negb (open_status (rr_status row))) (ERunClosed (rr_status row)) ;;
    throw_if (bool_decide (rr_pausedAt row = None)) ENotAwaitingExpansion ;;
    throw_if (match rr_integration row, rr_integrationFailure row with None, None => false | _, _ => true end)
      EHasIntegration ;;
    throw_if (rr_graphSealed row) EGraphSealed ;;
    throw_if (negb (rr_graphVersion row =? expectedGraphVersion)) EStaleGraphVersion ;;
    current ← decodeCompiledDagRequest (rr_request row);
    let kept := length (cr_tasks current) in
    throw_if (length (cr_tasks expanded) <? kept)%nat ETasksRemoved ;;
    throw_if (negb (bool_decide (take kept (cr_tasks expanded) = cr_tasks current))) ETasksModified ;;
    throw_if (negb (bool_decide (cr_policy current = cr_policy expanded))) EPolicyModified ;;
    lift (stableTopologicalTaskIds (cr_tasks expanded)) ;;
    throw_if (negb (bool_decide (NoDup (lc_id <$> cr_tasks expanded)))) EDuplicateTasks ;;
    lift (foldM own_paths [] (cr_tasks expanded)) ;;
    match find_row (fun t => negb (has_status TSucceeded t)) (dr_tasks r) with
    | Some t => throw (EIncompleteTask (dt_id t))
    | None => mret tt
    end ;;
    let added := drop kept (cr_tasks expanded) in
    forM_ added (insert_task now) ;;
    forM_ added (insert_dependencies now) ;;
    let nextVersion := rr_graphVersion row + 1 in
    expect_one EConcurrent
      (update_run (fun row => (rr_graphVersion row =? expectedGraphVersion) && negb (rr_graphSealed row)
                              && open_status (rr_status row))
         (row_touch now ∘ row_graph expanded nextVersion (cr_sealed expanded))) ;;
    insertDagEvent (EvGraphExpanded (rr_graphVersion row) nextVersion (lc_id <$> added) (cr_sealed expanded)) now None).

(** ** The state of a run *)

Definition RUN_TRANSITIONS (s : RunStatus) : list RunStatus :=
  match s with
  | RunCreated => [RunRunning; RunFailed; RunCancelled]
  | RunRunning => [RunSucceeded; RunFailed; RunCancelled]
  | RunSucceeded | RunFailed | RunCancelled => []
  end.

(** The conditions under which a run may succeed. *)
Definition assert_success (r : DagRun) : Tx unit :=
  let row := dr_row r in
  throw_if (bool_decide (rr_pausedAt row <> None)) EPausedRun ;;
  throw_if (negb (rr_graphSealed row)) EUnsealedRun ;;
  throw_if (match rr_integrationFailure row with Some _ => true | None => false end) EIntegrationFailure ;;
  match find_row (fun t => negb (has_status TSucceeded t)) (dr_tasks r) with
  | Some t => throw (EIncompleteTask (dt_id t))
  | None => mret tt
  end ;;
  request ← decodeCompiledDagRequest (rr_request row);
  throw_if (rp_mergeEnabled (cr_policy request) && match rr_integration row with None => true | Some _ => false end)
    EIntegrationRequired ;;
  throw_if (match rr_integration row with
            | Some i => negb (ia_complete i && ia_gatePassed i)
            | None => false
            end) EPartialCandidate.

Definition unsettled (t : DagTask) : bool := has_status TPending t || has_status TRunning t.

(** A running task takes over the accounting of its attempt. *)
Definition fold_attempt (attempts : list DagAttempt) (t : DagTask) : Tx unit :=
  match find_row (fun a => bool_decide (Some (da_id a) = dt_currentAttempt t)) attempts with
  | Some a =>
      if negb (has_status TRunning t) then mret tt
      else
        let turns := dt_turns t + da_turns a in
        throw_if (negb (is_safe turns)) ETurnsRange ;;
        update_tasks (fun t' => is_task (dt_id t) t' && has_status TRunning t')
          (task_accounting (addUsageValues (dt_usage t) (da_usage a)) turns) ;;
        mret tt
  | None => mret tt
  end.

(** A failed or cancelled run ends every task that has not ended. *)
Definition fence_tasks (cancelled : bool) (now : Z) : Tx unit :=
  r ← get;
  let status := rr_status (dr_row r) in
  let taskStatus := if cancelled then TCancelled else TFailed in
  let terminalReason := if cancelled then "cancelled" else "interrupted" in
  let error := if cancelled then "DAG run cancelled" else "DAG run failed" in
  let fencedTasks := keep unsettled (dr_tasks r) in
  forM_ fencedTasks (fold_attempt (dr_attempts r)) ;;
  r' ← get;
  let unchanged := bool_decide (rr_status (dr_row r') = status) in
  update_attempts (fun a => attempt_running a && unchanged)
    (attempt_touch now ∘ attempt_status AttemptFailed ∘ attempt_outcome (Some terminalReason) (Some error)) ;;
  update_tasks (fun t => unsettled t && unchanged)
    (task_touch now ∘ task_status taskStatus ∘ task_assign None None None ∘ task_retry None
     ∘ task_outcome (Some terminalReason) (Some error) ∘ task_artifact None) ;;
  forM_ fencedTasks (fun t => insertDagEvent (EvTaskFenced taskStatus terminalReason error) now (Some (dt_id t))).

Definition setDagRunStatus (nextStatus : RunStatus) (now : Z) (lease : option DagRunLease) : Tx unit :=
  transaction (
    r ← get;
    let row := dr_row r in
    let terminal := terminal_status nextStatus in
    if terminal_status (rr_status row) then
      throw_if (negb (bool_decide (rr_status row = nextStatus))) (EInvalidTransition (rr_status row) nextStatus)
    else
      assertDagRunMutationLease now lease terminal ;;
      if bool_decide (rr_status row = nextStatus) then mret tt
      else
        throw_if (negb (bool_decide (nextStatus ∈ RUN_TRANSITIONS (rr_status row))))
          (EInvalidTransition (rr_status row) nextStatus) ;;
        (if bool_decide (nextStatus = RunSucceeded) then assert_success r else mret tt) ;;
        (if bool_decide (nextStatus = RunFailed \/ nextStatus = RunCancelled) then
           fence_tasks (bool_decide (nextStatus = RunCancelled)) now ;;
           reconcileDagRunAccountingInTransaction now ;;
           mret tt
         else mret tt) ;;
        let terminalPausedDuration :=
          match rr_pausedAt row with
          | None => rr_pausedDurationMs row
          | Some pausedAt => rr_pausedDurationMs row + Z.max 0 (now - pausedAt)
          end in
        throw_if (negb (is_safe terminalPausedDuration)) EPausedDurationRange ;;
        expect_one EConcurrent
          (update_run (fun row' => bool_decide (rr_status row' = rr_status row))
             (fun row' =>
                let row'' := row_touch now (row_status nextStatus row') in
                if terminal
                then row_lease None (rr_epoch row'') None (row_pause None terminalPausedDuration row'')
                else row'')) ;;
        insertDagEvent (EvRunTransition (rr_status row) nextStatus) now None).

Definition setDagRunUsage (usage : Usage) (now : Z) (lease : option DagRunLease) (turns : number) : Tx unit :=
  let persisted := cloneUsage usage in
  turns ← safe_or EInvalidTurns turns;
  throw_if (turns <? 0) EInvalidTurns ;;
  transaction (
    assertDagRunMutationLease now lease false ;;
    expect_one EConcurrent (update_run (fun _ => true) (row_touch now ∘ row_accounting persisted turns)) ;;
    insertDagEvent (EvRunUsage persisted turns false) now None).

Definition reconcileDagRunAccounting (now : number) (lease : option DagRunLease) : Tx (Usage * Z) :=
  now ← safe_or ENowUnsafe now;
  transaction (
    assertDagRunMutationLease now lease false ;;
    reconcileDagRunAccountingInTransaction now).
