(* ===== verification/LedgerTasks.v ===== *)
(** * Attempts in the run ledger (packages/subagent/src/ledger.ts, class RunLedger)

    Claiming, keeping, checkpointing, completing and recovering the attempts of tasks, and
    the operations of the class as one type. *)
From S2P Require Import Prelude JsNumber SessionTypes JsText JsonNumber JsonText Subagent Retry RetryPolicy.
From S2P Require Import LedgerTypes Ledger.

(** ** Claiming *)

Record DagTaskClaim := {
  cl_taskId : string; cl_contract : LedgerContract; cl_attemptId : string; cl_attemptNumber : Z;
  cl_ownerId : string; cl_leaseExpiresAt : Z; cl_checkpoint : option json }.

Definition prerequisites_succeeded (r : DagRun) (t : DagTask) : bool :=
  forallb (has_status TSucceeded) (prerequisites r (dt_id t)).
(** [retry_not_before IS NULL OR retry_not_before <= now] *)
Definition eligible (now : Z) (t : DagTask) : bool :=
  match dt_retryNotBefore t with Some at_ => at_ <=? now | None => true end.
Definition resumable (t : DagTask) : bool := isControllerResumableCheckpoint (dt_checkpoint t) (dt_role t).

Definition runnable (now : Z) (r : DagRun) (t : DagTask) : bool :=
  has_status TPending t && eligible now t && prerequisites_succeeded r t
  && ((dt_attemptCount t <? dt_maxAttempts t) || resumable t).

(** [INSERT INTO dag_attempts]: the id is the key, the task and number are unique. *)
Definition insert_attempt (foreign : string -> bool) (attempt : DagAttempt) : Tx unit :=
  r ← get;
  throw_if (foreign (da_id attempt)
            || existsb (fun a => String.eqb (da_id a) (da_id attempt)
                                 || (String.eqb (da_task a) (da_task attempt) && (da_number a =? da_number attempt)))
                 (dr_attempts r)) EConstraint ;;
  modify (fun r => with_attempts (dr_attempts r ++ [attempt]) r).

Definition new_attempt (now expires : Z) (attemptId ownerId : string) (number : Z) (row : DagTask) : DagAttempt :=
  {| da_id := attemptId; da_task := dt_id row; da_number := number; da_owner := ownerId;
     da_status := AttemptRunning; da_leaseExpiresAt := expires; da_checkpoint := dt_checkpoint row;
     da_terminalReason := None; da_error := None; da_usage := ZERO_USAGE; da_turns := 0;
     da_createdAt := now; da_updatedAt := now |}.

Definition numbered (taskId : string) (number : Z) (status : AttemptStatus) (a : DagAttempt) : bool :=
  String.eqb (da_task a) taskId && (da_number a =? number) && bool_decide (da_status a = status).

Definition claim_task (uuid : string -> string) (foreign : string -> bool) (ownerId : string) (now expires : Z)
    (row : DagTask) : Tx DagTaskClaim :=
  let resumed := resumable row && (0 <? dt_attemptCount row) in
  r ← get;
  let priorAttempt :=
    if resumed then find_row (numbered (dt_id row) (dt_attemptCount row) AttemptExpired) (dr_attempts r) else None in
  throw_if (resumed && match priorAttempt with None => true | Some _ => false end)
    (EAttemptNotRecoverable (dt_id row)) ;;
  let attemptId := match priorAttempt with Some a => da_id a | None => uuid (dt_id row) end in
  let attemptNumber := if resumed then dt_attemptCount row else dt_attemptCount row + 1 in
  throw_if (dt_maxAttempts row <? attemptNumber) EConstraint ;;
  let may_run := bool_decide (rr_status (dr_row r) = RunRunning) && bool_decide (rr_pausedAt (dr_row r) = None) in
  expect_one EConcurrent
    (update_tasks (fun t => is_task (dt_id row) t && has_status TPending t
                            && (dt_attemptCount t =? dt_attemptCount row) && eligible now t && may_run)
       (task_touch now ∘ task_status TRunning ∘ task_count attemptNumber
        ∘ task_assign (Some attemptId) (Some ownerId) (Some expires) ∘ task_retry None ∘ task_outcome None None)) ;;
  (if resumed then
     expect_one EConcurrent
       (update_attempts (fun a => String.eqb (da_id a) attemptId && numbered (dt_id row) attemptNumber AttemptExpired a)
          (attempt_touch now ∘ attempt_status AttemptRunning ∘ attempt_assign ownerId expires
           ∘ attempt_outcome None None))
   else insert_attempt foreign (new_attempt now expires attemptId ownerId attemptNumber row)) ;;
  insertDagEvent (EvTaskClaimed attemptId attemptNumber ownerId expires resumed) now (Some (dt_id row)) ;;
  mret {| cl_taskId := dt_id row; cl_contract := dt_contract row; cl_attemptId := attemptId;
          cl_attemptNumber := attemptNumber; cl_ownerId := ownerId; cl_leaseExpiresAt := expires;
          cl_checkpoint := dt_checkpoint row |}.

Definition claimRunnableTasks (uuid : string -> string) (foreign : string -> bool) (ownerId : string)
    (now leaseDurationMs limit : number) (lease : option DagRunLease) : Tx (list DagTaskClaim) :=
  throw_if (String.eqb ownerId "") EOwnerRequired ;;
  now ← safe_or ENowUnsafe now;
  _ ← positive_or EInvalidDuration leaseDurationMs;
  limit ← positive_or EInvalidLimit limit;
  expires ← lease_expiry now leaseDurationMs;
  transaction (
    r ← get;
    assertDagRunMutationLease now lease false ;;
    if negb (bool_decide (rr_status (dr_row r) = RunRunning) && bool_decide (rr_pausedAt (dr_row r) = None))
    then mret []
    else
      let rows := take (Z.to_nat limit) (keep (runnable now r) (dr_tasks r)) in
      claims ← mapM (claim_task uuid foreign ownerId now expires) rows;
      (if bool_decide (claims = []) then mret tt
       else update_run (fun row => bool_decide (rr_status row = RunRunning)) (row_touch now) ;; mret tt) ;;
      mret claims).

Definition min_option (values : list Z) : option Z :=
  match values with [] => None | v :: vs => Some (foldl Z.min v vs) end.

(** The next retry and the next lease of another owner, in milliseconds. *)
Definition nextDagTaskEligibility (ownerId : string) (r : DagRun) : option Z * option Z :=
  let active := bool_decide (rr_status (dr_row r) = RunRunning) && bool_decide (rr_pausedAt (dr_row r) = None) in
  let retry := omap dt_retryNotBefore
    (keep (fun t => has_status TPending t && active && prerequisites_succeeded r t) (dr_tasks r)) in
  let foreign := omap dt_leaseExpiresAt
    (keep (fun t => has_status TRunning t && active
                    && match dt_owner t with Some o => negb (String.eqb o ownerId) | None => false end) (dr_tasks r)) in
  (min_option retry, min_option foreign).

(** ** Keeping an attempt *)

(** The row of a running attempt whose lease has not expired. *)
Definition keeps_attempt (r : DagRun) (taskId attemptId ownerId : string) (now : Z) (t : DagTask) : bool :=
  runs_attempt taskId attemptId ownerId t
  && match dt_leaseExpiresAt t with Some expires => now <? expires | None => false end
  && bool_decide (rr_status (dr_row r) = RunRunning).

Definition heartbeatAttempt (taskId attemptId ownerId : string) (now leaseDurationMs : number)
    (lease : option DagRunLease) : Tx Z :=
  duration ← positive_or EInvalidDuration leaseDurationMs;
  now ← safe_or EInvalidHeartbeat now;
  let expires := now + duration in
  throw_if (negb (is_safe expires)) EInvalidHeartbeat ;;
  transaction (
    r ← get;
    assertDagRunMutationLease now lease false ;;
    expect_one (EStaleAttempt taskId attemptId)
      (update_tasks (keeps_attempt r taskId attemptId ownerId now)
         (fun t => task_touch now (task_assign (dt_currentAttempt t) (dt_owner t) (Some expires) t))) ;;
    expect_one (EStaleAttempt taskId attemptId)
      (update_attempts (fun a => attempt_of attemptId taskId ownerId a && attempt_running a
                                 && bool_decide (rr_status (dr_row r) = RunRunning))
         (fun a => attempt_touch now (attempt_assign (da_owner a) expires a))) ;;
    insertDagEvent (EvAttemptHeartbeat attemptId ownerId expires) now (Some taskId) ;;
    mret expires).

Definition checkpointAttempt (taskId attemptId ownerId : string) (checkpoint : json) (now : number)
    (lease : option DagRunLease) : Tx unit :=
  now ← safe_or ENowUnsafe now;
  transaction (
    r ← get;
    assertDagRunMutationLease now lease false ;;
    expect_one (EStaleAttempt taskId attemptId)
      (update_tasks (keeps_attempt r taskId attemptId ownerId now)
         (task_touch now ∘ task_checkpoint (Some checkpoint))) ;;
    expect_one (EStaleAttempt taskId attemptId)
      (update_attempts (fun a => attempt_of attemptId taskId ownerId a && attempt_running a
                                 && bool_decide (rr_status (dr_row r) = RunRunning))
         (attempt_touch now ∘ attempt_checkpoint (Some checkpoint))) ;;
    insertDagEvent (EvAttemptCheckpoint attemptId checkpoint) now (Some taskId)).

(** The attempt of this owner, if it runs. *)
Definition running_attempt (taskId attemptId ownerId : string) (r : DagRun) : option DagAttempt :=
  find_row (fun a => attempt_of attemptId taskId ownerId a && attempt_running a) (dr_attempts r).

Definition recordDagAttemptAccounting (taskId attemptId ownerId : string) (usage : Usage) (turns now : number)
    (lease : option DagRunLease) : Tx bool :=
  now ← safe_or ENowUnsafe now;
  turns ← safe_or EInvalidTurns turns;
  throw_if (turns <? 0) EInvalidTurns ;;
  let persistedUsage := cloneUsage usage in
  transaction (
    r ← get;
    assertDagRunMutationLease now lease false ;;
    match running_attempt taskId attemptId ownerId r with
    | None => throw (EStaleAttempt taskId attemptId)
    | Some current =>
        throw_if (negb (usageAtLeast persistedUsage (da_usage current)) || (turns <? da_turns current))
          EAccountingRegressed ;;
        if bool_decide (persistedUsage = da_usage current) && (turns =? da_turns current) then mret false
        else
          expect_one (EStaleAttempt taskId attemptId)
            (update_attempts (fun a => attempt_of attemptId taskId ownerId a && attempt_running a)
               (attempt_touch now ∘ attempt_accounting persistedUsage turns)) ;;
          insertDagEvent (EvAttemptAccounting attemptId persistedUsage turns) now (Some taskId) ;;
          mret true
    end).

(** ** Completing an attempt *)

(** A terminal reason that is missing is the empty text. *)
Inductive DagTaskCompletion :=
| CompletionSuccess (artifact : json) (usage : option Usage) (turns : option number)
| CompletionFailure (terminalReason : string) (error : option string) (usage : option Usage) (turns : option number).

Definition co_usage (c : DagTaskCompletion) : option Usage :=
  match c with CompletionSuccess _ u _ | CompletionFailure _ _ u _ => u end.
Definition co_turns (c : DagTaskCompletion) : option number :=
  match c with CompletionSuccess _ _ n | CompletionFailure _ _ _ n => n end.

(** The accounting of a repeated completion is that of the attempt. *)
Definition same_accounting (c : DagTaskCompletion) (a : DagAttempt) : bool :=
  match co_usage c with Some u => bool_decide (da_usage a = cloneUsage u) | None => true end
  && match co_turns c with Some n => num_eq_Z n (da_turns a) | None => true end.

(** [a === b] of two JSON texts *)
Definition same_json (a b : option json) : bool := bool_decide (JSON_stringify <$> a = JSON_stringify <$> b).

Definition is_availability_retry (row : DagTask) (decision : RetryDecision) : bool :=
  negb (bool_decide (dt_role row = ExternalWriter)) && rd_shouldRetry decision && rd_unlimited decision.

Definition completion_is_availability (row : DagTask) (c : DagTaskCompletion) : bool :=
  match c with
  | CompletionFailure reason error _ _ => is_availability_retry row (decideRetry reason error None)
  | CompletionSuccess _ _ _ => false
  end.

(** How a completion ends its attempt and task. *)
Record CompletionPlan := {
  cp_status : DagTaskStatus; cp_terminalReason : option string; cp_attemptReason : string;
  cp_error : option string; cp_artifact : option json; cp_currentAttempt : option string;
  cp_owner : option string; cp_retryNotBefore : option Z; cp_checkpoint : option json;
  cp_retryNumber : Z }.

Definition check_artifact (row : DagTask) (artifact : json) : Tx unit :=
  throw_if (negb match prop artifact "artifactVersion" with Some (JsonNumber n) => num_eq_Z n 2 | _ => false end)
    EArtifactVersion ;;
  throw_if (negb match prop artifact "taskId" with Some (JsonString s) => String.eqb s (dt_id row) | _ => false end)
    EArtifactTask ;;
  throw_if (negb match prop artifact "contractHash" with
                 | Some (JsonString s) => String.eqb s (lc_contractHash (dt_contract row))
                 | _ => false
                 end) EArtifactContract.

Definition succeed_plan (row : DagTask) (attemptId ownerId : string) (artifact : json) : Tx CompletionPlan :=
  check_artifact row artifact ;;
  mret {| cp_status := TSucceeded; cp_terminalReason := Some "completed"; cp_attemptReason := "completed";
          cp_error := None; cp_artifact := Some artifact; cp_currentAttempt := Some attemptId;
          cp_owner := Some ownerId; cp_retryNotBefore := None; cp_checkpoint := dt_checkpoint row;
          cp_retryNumber := 0 |}.

(** The number of requeues of the task after an availability failure. *)
Definition availability_requeues (taskId : string) (events : list LedgerEvent) : Z :=
  zlen (keep (fun e => bool_decide (ev_taskId e = Some taskId)
                       && match ev_body e with EvTaskRequeued _ _ (RequeueAvailability _) _ => true | _ => false end)
          events).

(** The JSON of a usage, in the order of the fields of [ZERO_USAGE]. *)
Definition json_of_usage (u : Usage) : json :=
  let c := usage_cost u in
  JsonObject
    ([("input", JsonNumber (usage_input u)); ("output", JsonNumber (usage_output u));
      ("cacheRead", JsonNumber (usage_cacheRead u)); ("cacheWrite", JsonNumber (usage_cacheWrite u));
      ("totalTokens", JsonNumber (usage_totalTokens u));
      ("cost", JsonObject [("input", JsonNumber (cost_input c)); ("output", JsonNumber (cost_output c));
                           ("cacheRead", JsonNumber (cost_cacheRead c)); ("cacheWrite", JsonNumber (cost_cacheWrite c));
                           ("total", JsonNumber (cost_total c))])]
     ++ match usage_cacheWrite1h u with Some n => [("cacheWrite1h", JsonNumber n)] | None => [] end
     ++ match usage_reasoning u with Some n => [("reasoning", JsonNumber n)] | None => [] end).

Definition availability_checkpoint (usage : Usage) (turns : Z) : json :=
  JsonObject [("version", JsonNumber (num_of_Z 1)); ("phase", JsonString "availability_retry");
              ("attemptUsage", json_of_usage usage); ("attemptTurns", JsonNumber (num_of_Z turns))].

(** [`${runId}\0${taskId}`] *)
Definition retry_seed (runId taskId : string) : jsstring := js runId ++ [0] ++ js taskId.

(** [delay === 0 ? null : now + delay], a safe integer or an error *)
Definition retry_at (now : Z) (delay : number) : Tx (option Z) :=
  match num_to_Z delay with
  | Some 0 => mret None
  | Some d => throw_if (negb (is_safe (now + d))) ERetryRange ;; mret (Some (now + d))
  | None => throw ERetryRange
  end.

Definition fail_plan (runId : string) (now : Z) (row : DagTask) (attemptId ownerId : string) (reason : string)
    (error : option string) (usage : Usage) (turns : Z) (decision : RetryDecision) : Tx CompletionPlan :=
  let availabilityRetry := is_availability_retry row decision in
  if availabilityRetry
     || (negb (bool_decide (dt_role row = ExternalWriter)) && rd_shouldRetry decision
         && (dt_attemptCount row <? dt_maxAttempts row))
  then
    r ← get;
    let number := availability_requeues (dt_id row) (dr_events r) + 1 in
    throw_if (availabilityRetry && negb (is_safe number)) ERetryRange ;;
    retryNotBefore ← retry_at now (retryDelayMs decision (if availabilityRetry then number else dt_attemptCount row)
                                     (retry_seed runId (dt_id row)));
    mret {| cp_status := TPending; cp_terminalReason := None; cp_attemptReason := reason; cp_error := error;
            cp_artifact := None; cp_currentAttempt := None; cp_owner := None; cp_retryNotBefore := retryNotBefore;
            cp_checkpoint := if availabilityRetry then Some (availability_checkpoint usage turns)
                             else dt_checkpoint row;
            cp_retryNumber := number |}
  else
    mret {| cp_status := if String.eqb reason "cancelled" then TCancelled else TFailed;
            cp_terminalReason := Some reason; cp_attemptReason := reason; cp_error := error; cp_artifact := None;
            cp_currentAttempt := Some attemptId; cp_owner := Some ownerId; cp_retryNotBefore := None;
            cp_checkpoint := dt_checkpoint row; cp_retryNumber := 0 |}.

(** [completedArtifact?.quality.semanticOutcome] of a completion that did not fail *)
Definition negative_outcome (c : DagTaskCompletion) : Tx bool :=
  match c with
  | CompletionSuccess artifact _ _ =>
      match prop artifact "quality" with
      | None | Some JsonNull => throw ETypeError
      | Some _ => mret (semantic_negative (Some artifact))
      end
  | CompletionFailure _ _ _ _ => mret false
  end.

(** The two UPDATEs, the accounting and the event of a completion. *)
Definition apply_completion (now : Z) (row : DagTask) (attemptId ownerId : string) (p : CompletionPlan)
    (availabilityRetry : bool) (usage : Usage) (turns : Z) : Tx unit :=
  r ← get;
  let taskId := dt_id row in
  let taskUsage := if availabilityRetry then dt_usage row else addUsageValues (dt_usage row) usage in
  let taskTurns := if availabilityRetry then dt_turns row else dt_turns row + turns in
  expect_one (EStaleAttempt taskId attemptId)
    (update_tasks (keeps_attempt r taskId attemptId ownerId now)
       (task_touch now ∘ task_status (cp_status p) ∘ task_assign (cp_currentAttempt p) (cp_owner p) None
        ∘ task_checkpoint (cp_checkpoint p) ∘ task_retry (cp_retryNotBefore p)
        ∘ task_outcome (cp_terminalReason p) (if bool_decide (cp_status p = TPending) then None else cp_error p)
        ∘ task_artifact (cp_artifact p) ∘ task_accounting taskUsage taskTurns)) ;;
  expect_one (EStaleAttempt taskId attemptId)
    (update_attempts (fun a => attempt_of attemptId taskId ownerId a && attempt_running a
                               && bool_decide (rr_status (dr_row r) = RunRunning))
       (attempt_touch now
        ∘ attempt_status (if availabilityRetry then AttemptExpired
                          else if bool_decide (cp_status p = TSucceeded) then AttemptSucceeded else AttemptFailed)
        ∘ attempt_checkpoint (cp_checkpoint p)
        ∘ attempt_outcome (if availabilityRetry then None else Some (cp_attemptReason p))
                          (if availabilityRetry then None else cp_error p)
        ∘ attempt_accounting usage turns)) ;;
  reconcileDagRunAccountingInTransaction now ;;
  expect_one EConcurrent (update_run (fun row => bool_decide (rr_status row = RunRunning)) (row_touch now)) ;;
  if bool_decide (cp_status p = TPending) then
    insertDagEvent
      (EvTaskRequeued attemptId (dt_attemptCount row)
         (if availabilityRetry then RequeueAvailability (cp_retryNumber p)
          else RequeueAttemptFailed (cp_attemptReason p) (cp_error p) usage turns)
         (cp_retryNotBefore p)) now (Some taskId)
  else
    insertDagEvent
      (EvTaskCompleted attemptId ownerId (cp_status p) (cp_terminalReason p) (cp_error p) (cp_artifact p) usage turns)
      now (Some taskId).

(** The new accounting of the attempt, which may not fall behind. *)
Definition completion_accounting (c : DagTaskCompletion) (prior : DagAttempt) : Tx (Usage * Z) :=
  let usage := cloneUsage (default (da_usage prior) (co_usage c)) in
  turns ← match co_turns c with
          | Some n => safe_or EAccountingRegressed n
          | None => throw_if (negb (is_safe (da_turns prior))) EAccountingRegressed ;; mret (da_turns prior)
          end;
  throw_if (turns <? da_turns prior) EAccountingRegressed ;;
  throw_if (negb (usageAtLeast usage (da_usage prior))) EAccountingRegressed ;;
  mret (usage, turns).

(** A repeated completion that finds its own result. *)
Definition already_completed (row : DagTask) (prior : DagAttempt) (attemptId ownerId : string) (c : DagTaskCompletion)
  : bool :=
  match c with
  | CompletionSuccess artifact _ _ =>
      bool_decide (dt_currentAttempt row = Some attemptId) && bool_decide (dt_owner row = Some ownerId)
      && same_json (dt_artifact row) (Some artifact) && same_accounting c prior
  | CompletionFailure reason error _ _ =>
      (bool_decide (da_status prior = AttemptFailed) && bool_decide (da_terminalReason prior = Some reason)
       && bool_decide (da_error prior = error) && same_accounting c prior)
      || (completion_is_availability row c && has_status TPending row
          && bool_decide (da_status prior = AttemptExpired) && isAvailabilityRetryCheckpoint (dt_checkpoint row))
  end.

Definition is_success (c : DagTaskCompletion) : bool := match c with CompletionSuccess _ _ _ => true | _ => false end.

Definition completeDagTask (runId taskId attemptId ownerId : string) (completion : DagTaskCompletion) (now : number)
    (lease : option DagRunLease) : Tx unit :=
  now ← safe_or ENowUnsafe now;
  transaction (
    throw_if match completion with
             | CompletionFailure reason _ _ _ => String.eqb reason "" || String.eqb reason "completed"
             | CompletionSuccess _ _ _ => false
             end EFailureReason ;;
    r ← get;
    match find_row (is_task taskId) (dr_tasks r) with
    | None => throw (EUnknownTask taskId)
    | Some row =>
        assertDagRunMutationLease now lease false ;;
        match find_row (attempt_of attemptId taskId ownerId) (dr_attempts r) with
        | None => throw (EUnknownAttempt attemptId)
        | Some prior =>
            if has_status TSucceeded row then
              throw_if (negb (is_success completion && already_completed row prior attemptId ownerId completion))
                (EImmutableTask taskId)
            else if negb (is_success completion) && already_completed row prior attemptId ownerId completion then mret tt
            else
              throw_if (negb (keeps_attempt r taskId attemptId ownerId now row)) (EStaleAttempt taskId attemptId) ;;
              '(usage, turns) ← completion_accounting completion prior;
              p ← match completion with
                  | CompletionFailure reason error _ _ =>
                      fail_plan runId now row attemptId ownerId reason error usage turns (decideRetry reason error None)
                  | CompletionSuccess artifact _ _ => succeed_plan row attemptId ownerId artifact
                  end;
              apply_completion now row attemptId ownerId p (completion_is_availability row completion) usage turns ;;
              if bool_decide (cp_status p = TFailed \/ cp_status p = TCancelled) then blockDagDescendants now
              else
                negative ← negative_outcome completion;
                if negative : bool then blockDagDescendants now else mret tt
        end
    end).

(** ** The provider circuit *)

Record ProviderCircuitOpenSignal := {
  ps_version : number; ps_reason : string; ps_autoRetryAttempt : number;
  ps_consecutiveUnlimitedRetries : number; ps_retryDelayMs : number }.

Definition normalizedProviderCircuitSignal (s : ProviderCircuitOpenSignal) : Tx Z :=
  throw_if (negb (num_eq_Z (ps_version s) 1 && String.eqb (ps_reason s) "unlimited_auto_retry")) EInvalidCircuit ;;
  _ ← positive_or EInvalidCircuit (ps_autoRetryAttempt s);
  _ ← positive_or EInvalidCircuit (ps_consecutiveUnlimitedRetries s);
  delay ← safe_or EInvalidCircuit (ps_retryDelayMs s);
  throw_if (delay <? 0) EInvalidCircuit ;;
  mret delay.

Definition circuit_checkpoint (s : ProviderCircuitOpenSignal) (retryNotBefore : Z) (usage : Usage) (turns : Z) : json :=
  JsonObject
    [("version", JsonNumber (num_of_Z 1)); ("phase", JsonString "provider_circuit_open");
     ("providerCircuitOpen",
      JsonObject [("version", JsonNumber (ps_version s)); ("reason", JsonString (ps_reason s));
                  ("autoRetryAttempt", JsonNumber (ps_autoRetryAttempt s));
                  ("consecutiveUnlimitedRetries", JsonNumber (ps_consecutiveUnlimitedRetries s));
                  ("retryDelayMs", JsonNumber (ps_retryDelayMs s))]);
     ("retryNotBefore", JsonNumber (num_of_Z retryNotBefore)); ("attemptUsage", json_of_usage usage);
     ("attemptTurns", JsonNumber (num_of_Z turns))].

Definition openDagProviderCircuit (taskId attemptId ownerId : string) (signal : ProviderCircuitOpenSignal)
    (usage : Usage) (turns retryNotBefore now : number) (lease : option DagRunLease) : Tx unit :=
  now ← safe_or EInvalidCircuit now;
  retryNotBefore ← safe_or EInvalidCircuit retryNotBefore;
  throw_if (retryNotBefore <? now) EInvalidCircuit ;;
  turns ← safe_or EInvalidTurns turns;
  throw_if (turns <? 0) EInvalidTurns ;;
  delay ← normalizedProviderCircuitSignal signal;
  throw_if (negb (retryNotBefore - now =? delay)) ECircuitMismatch ;;
  let persistedUsage := cloneUsage usage in
  let checkpoint := Some (circuit_checkpoint signal retryNotBefore persistedUsage turns) in
  transaction (
    r ← get;
    assertDagRunMutationLease now lease false ;;
    match running_attempt taskId attemptId ownerId r, find_row (is_task taskId) (dr_tasks r) with
    | Some current, Some task =>
        throw_if (bool_decide (dt_role task = ExternalWriter)) EUnsafeExternalWriter ;;
        throw_if (negb (usageAtLeast persistedUsage (da_usage current)) || (turns <? da_turns current))
          EAccountingRegressed ;;
        expect_one (EStaleAttempt taskId attemptId)
          (update_tasks (keeps_attempt r taskId attemptId ownerId now)
             (task_touch now ∘ task_checkpoint checkpoint ∘ task_retry (Some retryNotBefore))) ;;
        expect_one (EStaleAttempt taskId attemptId)
          (update_attempts (fun a => attempt_of attemptId taskId ownerId a && attempt_running a)
             (attempt_touch now ∘ attempt_checkpoint checkpoint ∘ attempt_accounting persistedUsage turns)) ;;
        reconcileDagRunAccountingInTransaction now ;;
        insertDagEvent (EvCircuitOpen attemptId retryNotBefore delay) now (Some taskId)
    | _, _ => throw (EStaleAttempt taskId attemptId)
    end).

(** ** Recovering expired attempts *)

Definition lease_expired (now : Z) (t : DagTask) : bool :=
  has_status TRunning t && match dt_leaseExpiresAt t with Some expires => expires <=? now | None => false end.

Definition recover_task (runId : string) (now : Z) (task : DagTask) : Tx unit :=
  '(attemptId, owner) ← active_attempt task;
  r ← get;
  match running_attempt (dt_id task) attemptId owner r with
  | None => throw (ENoActiveAttempt (dt_id task))
  | Some attempt =>
      expect_one EConcurrent
        (update_attempts (fun a => attempt_of attemptId (dt_id task) owner a && attempt_running a)
           (attempt_touch now ∘ attempt_status AttemptExpired
            ∘ attempt_outcome (Some "interrupted") (Some "Attempt lease expired"))) ;;
      let recoveredUsage := if resumable task then dt_usage task else addUsageValues (dt_usage task) (da_usage attempt) in
      let recoveredTurns := if resumable task then dt_turns task else dt_turns task + da_turns attempt in
      throw_if (negb (is_safe recoveredTurns)) ETurnsRange ;;
      let expired_row t := runs_attempt (dt_id task) attemptId owner t
        && match dt_leaseExpiresAt t with Some expires => expires <=? now | None => false end in
      if (negb (bool_decide (dt_role task = ExternalWriter)) && (dt_attemptCount task <? dt_maxAttempts task))
         || resumable task
      then
        retryNotBefore ←
          (if resumable task then mret (providerCircuitRetryNotBefore (dt_checkpoint task))
           else
             match num_to_Z (retryDelayMs (decideRetry "interrupted" (Some "Attempt lease expired") None)
                               (dt_attemptCount task) (retry_seed runId (dt_id task))) with
             | Some delay => throw_if (negb (is_safe (now + delay))) ERetryRange ;; mret (Some (now + delay))
             | None => throw ERetryRange
             end);
        expect_one EConcurrent
          (update_tasks expired_row
             (task_touch now ∘ task_status TPending ∘ task_assign None None None ∘ task_retry retryNotBefore
              ∘ task_outcome None None ∘ task_accounting recoveredUsage recoveredTurns)) ;;
        insertDagEvent
          (EvTaskRequeued attemptId (dt_attemptCount task)
             (if resumable task then RequeueResumable else RequeueLeaseExpired) retryNotBefore)
          now (Some (dt_id task))
      else
        expect_one EConcurrent
          (update_tasks expired_row
             (fun t => task_touch now (task_status TFailed (task_assign (dt_currentAttempt t) (dt_owner t) None
                (task_outcome (Some "retry_exhausted") (Some "Task attempts exhausted after lease expiry")
                   (task_accounting recoveredUsage recoveredTurns t)))))) ;;
        insertDagEvent (EvTaskFailed attemptId "retry_exhausted") now (Some (dt_id task))
  end.

Definition recoverDagRun (runId : string) (now : number) (lease : option DagRunLease) : Tx unit :=
  now ← safe_or ENowUnsafe now;
  transaction (
    r ← get;
    assertDagRunMutationLease now lease false ;;
    if negb (bool_decide (rr_status (dr_row r) = RunRunning)) then mret tt
    else
      let expired := keep (lease_expired now) (dr_tasks r) in
      forM_ expired (recover_task runId now) ;;
      blockDagDescendants now ;;
      if bool_decide (expired = []) then mret tt
      else
        reconcileDagRunAccountingInTransaction now ;;
        update_run (fun _ => true) (row_touch now) ;;
        mret tt).

(** ** The operations as one type *)

Inductive ledger_op :=
| OpAcquireLease (ownerId : string) (now leaseDurationMs : number)
| OpHeartbeatLease (lease : DagRunLease) (now leaseDurationMs : number)
| OpReleaseLease (lease : DagRunLease) (now : number)
| OpPause (now : number)
| OpClearPause (now : number) (lease : DagRunLease)
| OpBeginCandidateRelease (now : Z)
| OpCompleteCandidateRelease (now : Z)
| OpBeginGc (now : Z)
| OpCompleteGc (now : Z)
| OpExpand (expectedGraphVersion : number) (expanded : CompiledRequest) (now : Z) (lease : option DagRunLease)
| OpSetStatus (nextStatus : RunStatus) (now : Z) (lease : option DagRunLease)
| OpSetUsage (usage : Usage) (now : Z) (lease : option DagRunLease) (turns : number)
| OpReconcile (now : number) (lease : option DagRunLease)
| OpClaim (uuid : string -> string) (foreign : string -> bool) (ownerId : string)
    (now leaseDurationMs limit : number) (lease : option DagRunLease)
| OpHeartbeat (taskId attemptId ownerId : string) (now leaseDurationMs : number) (lease : option DagRunLease)
| OpCheckpoint (taskId attemptId ownerId : string) (checkpoint : json) (now : number) (lease : option DagRunLease)
| OpAccounting (taskId attemptId ownerId : string) (usage : Usage) (turns now : number) (lease : option DagRunLease)
| OpComplete (taskId attemptId ownerId : string) (completion : DagTaskCompletion) (now : number)
    (lease : option DagRunLease)
| OpOpenCircuit (taskId attemptId ownerId : string) (signal : ProviderCircuitOpenSignal) (usage : Usage)
    (turns retryNotBefore now : number) (lease : option DagRunLease)
| OpRecover (now : number) (lease : option DagRunLease).

Definition perform (runId : string) (op : ledger_op) : Tx unit :=
  match op with
  | OpAcquireLease ownerId now duration => acquireDagRunLease ownerId now duration ;; mret tt
  | OpHeartbeatLease lease now duration => heartbeatDagRunLease lease now duration ;; mret tt
  | OpReleaseLease lease now => releaseDagRunLease lease now ;; mret tt
  | OpPause now => markDagRunPaused now ;; mret tt
  | OpClearPause now lease => clearDagRunPause now lease ;; mret tt
  | OpBeginCandidateRelease now => beginDagCandidateRelease now ;; mret tt
  | OpCompleteCandidateRelease now => completeDagCandidateRelease now
  | OpBeginGc now => beginDagResourceGc now ;; mret tt
  | OpCompleteGc now => completeDagResourceGc now
  | OpExpand version expanded now lease => expandDagRun version expanded now lease
  | OpSetStatus nextStatus now lease => setDagRunStatus nextStatus now lease
  | OpSetUsage usage now lease turns => setDagRunUsage usage now lease turns
  | OpReconcile now lease => reconcileDagRunAccounting now lease ;; mret tt
  | OpClaim uuid foreign ownerId now duration limit lease =>
      claimRunnableTasks uuid foreign ownerId now duration limit lease ;; mret tt
  | OpHeartbeat taskId attemptId ownerId now duration lease =>
      heartbeatAttempt taskId attemptId ownerId now duration lease ;; mret tt
  | OpCheckpoint taskId attemptId ownerId checkpoint now lease =>
      checkpointAttempt taskId attemptId ownerId checkpoint now lease
  | OpAccounting taskId attemptId ownerId usage turns now lease =>
      recordDagAttemptAccounting taskId attemptId ownerId usage turns now lease ;; mret tt
  | OpComplete taskId attemptId ownerId completion now lease =>
      completeDagTask runId taskId attemptId ownerId completion now lease
  | OpOpenCircuit taskId attemptId ownerId signal usage turns retryNotBefore now lease =>
      openDagProviderCircuit taskId attemptId ownerId signal usage turns retryNotBefore now lease
  | OpRecover now lease => recoverDagRun runId now lease
  end.

(** Any controller may perform any operation; a failed one leaves the rows as they are.
    [recordDagIntegration] and [recordDagIntegrationFailure] are not among the operations:
    they write the integration columns of a running run, with whatever they accept.  The
    operations on external mutations (LedgerJournal) add their events. *)
Inductive ledger_step (runId : string) (r : DagRun) : DagRun -> Prop :=
| step_op op : ledger_step runId r (perform runId op r).1
| step_integration artifact failure now :
    rr_status (dr_row r) = RunRunning ->
    ledger_step runId r (with_row (row_touch now (row_integration artifact failure (dr_row r))) r)
| step_mutation type payload now taskId :
    ledger_step runId r (insertDagEvent (EvExternalMutation type payload) now taskId r).1.

(** The states a run can be in. *)
Inductive ledger_reachable (runId : string) : DagRun -> Prop :=
| reach_created exists_ request usage now r :
    createDagRun runId exists_ request usage now = Ok r -> ledger_reachable runId r
| reach_step r r' : ledger_reachable runId r -> ledger_step runId r r' -> ledger_reachable runId r'.

(** The controller lease an operation presents. *)
Definition op_lease (op : ledger_op) : option DagRunLease :=
  match op with
  | OpHeartbeatLease lease _ _ | OpReleaseLease lease _ | OpClearPause _ lease => Some lease
  | OpExpand _ _ _ lease | OpSetStatus _ _ lease | OpSetUsage _ _ lease _ | OpReconcile _ lease
  | OpClaim _ _ _ _ _ _ lease | OpHeartbeat _ _ _ _ _ lease | OpCheckpoint _ _ _ _ _ lease
  | OpAccounting _ _ _ _ _ _ lease | OpComplete _ _ _ _ _ lease | OpOpenCircuit _ _ _ _ _ _ _ _ lease
  | OpRecover _ lease => lease
  | OpAcquireLease _ _ _ | OpPause _ | OpBeginCandidateRelease _ | OpCompleteCandidateRelease _
  | OpBeginGc _ | OpCompleteGc _ => None
  end.
