(* ===== verification/LedgerInvariant.v ===== *)
(** * Transactions and the invariant of the run ledger

    First how a transaction is taken apart: an operation is atomic, it commits what its
    statements did, or leaves the rows as they were.  [outcome m r a r'] says that [m] commits;
    [committing] applies the lemmas.  Then [ledger_wf]. *)
From S2P Require Import Prelude JsNumber SessionTypes JsText JsonNumber JsonText Subagent RetryPolicy.
From S2P Require Import LedgerTypes Ledger LedgerTasks.

(** ** Atomicity *)

(** A failing run of [m] changes nothing. *)
Definition atomic {A} (m : Tx A) : Prop := forall r r' e, m r = (r', Err e) -> r' = r.
(** [m] changes nothing. *)
Definition pure {A} (m : Tx A) : Prop := forall r, (m r).1 = r.

Lemma transaction_atomic {A} (m : Tx A) : atomic (transaction m).
Proof. intros r r' e. unfold transaction. destruct (m r) as [? [?|?]]; by intros [= <- _]. Qed.
Lemma pure_atomic {A} (m : Tx A) : pure m -> atomic m.
Proof. intros Hm r r' e H. specialize (Hm r). by rewrite H in Hm. Qed.
Lemma pure_bind_atomic {A B} (m : Tx A) (k : A -> Tx B) :
  pure m -> (forall a, atomic (k a)) -> atomic (m ≫= k).
Proof.
  intros Hm Hk r r' e. unfold mbind, M_bind. specialize (Hm r). destruct (m r) as [r1 [a|e1]]; simpl in Hm; subst.
  - apply Hk.
  - by intros [= <- _].
Qed.
(** What follows only returns. *)
Lemma atomic_ret_bind {A B} (m : Tx A) (f : A -> B) : atomic m -> atomic (a ← m; mret (f a)).
Proof.
  intros Hm r r' e. unfold mbind, M_bind. destruct (m r) as [r1 [a|e1]] eqn:H; [done|].
  intros [= <- _]. by eapply Hm.
Qed.

Lemma pure_ret {A} (a : A) : pure (mret a).
Proof. done. Qed.
Lemma pure_throw {A} e : pure (throw e : Tx A).
Proof. done. Qed.
Lemma pure_throw_if c e : pure (throw_if c e).
Proof. intros r. by destruct c. Qed.
Lemma pure_get : pure get.
Proof. done. Qed.
Lemma pure_lift {A} (x : result ledger_error A) : pure (lift x).
Proof. done. Qed.
Lemma pure_bind {A B} (m : Tx A) (k : A -> Tx B) : pure m -> (forall a, pure (k a)) -> pure (m ≫= k).
Proof.
  intros Hm Hk r. unfold mbind, M_bind. specialize (Hm r). destruct (m r) as [r1 [a|e1]]; simpl in *; subst; [|done].
  apply Hk.
Qed.
Lemma pure_safe_or e n : pure (safe_or e n).
Proof. intros r. unfold safe_or. by destruct (safe_integer n). Qed.
Lemma pure_positive_or e n : pure (positive_or e n).
Proof. intros r. unfold positive_or. destruct (safe_integer n) as [z|]; [|done]. by destruct (z <? 1). Qed.
Create HintDb ledger_pure.
#[export] Hint Resolve pure_ret pure_throw pure_throw_if pure_get pure_lift pure_bind pure_safe_or pure_positive_or
  : ledger_pure.
Lemma pure_lease_expiry now n : pure (lease_expiry now n).
Proof. unfold lease_expiry. eauto 6 with ledger_pure. Qed.
Lemma pure_circuit_signal s : pure (normalizedProviderCircuitSignal s).
Proof. unfold normalizedProviderCircuitSignal. eauto 12 with ledger_pure. Qed.
#[export] Hint Resolve pure_lease_expiry pure_circuit_signal : ledger_pure.

Ltac atomic_op :=
  repeat first [ apply transaction_atomic
               | apply atomic_ret_bind
               | apply pure_bind_atomic; [solve [eauto with ledger_pure]|intros ?] ].

Ltac unfold_operations :=
  unfold acquireDagRunLease, heartbeatDagRunLease, releaseDagRunLease, markDagRunPaused, clearDagRunPause,
    beginDagCandidateRelease, completeDagCandidateRelease, beginDagResourceGc, completeDagResourceGc,
    expandDagRun, setDagRunStatus, setDagRunUsage, reconcileDagRunAccounting, claimRunnableTasks,
    heartbeatAttempt, checkpointAttempt, recordDagAttemptAccounting, completeDagTask, openDagProviderCircuit,
    recoverDagRun in *.

Lemma perform_atomic runId op : atomic (perform runId op).
Proof.
  destruct op; cbn [perform]; unfold_operations; cbv zeta; atomic_op.
Qed.

(** ** Taking a committed operation apart *)

Lemma transaction_Ok {A} (m : Tx A) r r' a : transaction m r = (r', Ok a) <-> m r = (r', Ok a).
Proof.
  unfold transaction. destruct (m r) as [r1 [b|e]]; [done|]. split; intros [=].
Qed.
Lemma get_Ok (r r' x : DagRun) : (get : Tx DagRun) r = (r', Ok x) <-> r' = r /\ x = r.
Proof. unfold get. split; [by intros [= <- <-]|by intros [-> ->]]. Qed.
Lemma throw_Ok {A} e (r r' : DagRun) (a : A) : (throw e : Tx A) r = (r', Ok a) <-> False.
Proof. done. Qed.
Lemma lift_Ok {A} (x : result ledger_error A) (r r' : DagRun) a : lift x r = (r', Ok a) <-> r' = r /\ x = Ok a.
Proof. unfold lift. split; [by intros [= <- ->]|by intros [-> ->]]. Qed.
Lemma safe_or_Ok e n (r r' : DagRun) z : safe_or e n r = (r', Ok z) <-> r' = r /\ safe_integer n = Some z.
Proof.
  unfold safe_or. destruct (safe_integer n) as [y|].
  - rewrite (M_ret_Ok y z r r'). naive_solver.
  - rewrite throw_Ok. naive_solver.
Qed.
Lemma positive_or_Ok e n (r r' : DagRun) z :
  positive_or e n r = (r', Ok z) <-> r' = r /\ safe_integer n = Some z /\ 1 <= z.
Proof.
  unfold positive_or. destruct (safe_integer n) as [y|]; [|rewrite throw_Ok; naive_solver].
  destruct (Z.ltb_spec y 1).
  - rewrite throw_Ok. split; [done|]. intros (_ & [= <-] & ?). lia.
  - rewrite (M_ret_Ok y z r r'). naive_solver.
Qed.
Lemma lease_expiry_Ok now n (r r' : DagRun) z :
  lease_expiry now n r = (r', Ok z) <->
  r' = r /\ exists d, safe_integer n = Some d /\ 1 <= d /\ z = now + d /\ is_safe z = true.
Proof.
  unfold lease_expiry. rewrite M_bind_Ok. setoid_rewrite positive_or_Ok. split.
  - intros (r1 & d & (-> & Hd & Hpos) & H). apply M_bind_Ok in H as (r2 & [] & H1 & H2).
    apply throw_if_Ok in H1 as [Hs ->]. apply M_ret_Ok in H2 as [-> ->].
    apply negb_false_iff in Hs. eauto 7.
  - intros (-> & d & Hd & Hpos & -> & Hs). exists r, d. split; [done|].
    apply M_bind_Ok. exists r, tt. split; [by apply throw_if_Ok; rewrite Hs|by apply M_ret_Ok].
Qed.

Definition event (body : event_body) (now : Z) (taskId : option string) : LedgerEvent :=
  {| ev_taskId := taskId; ev_body := body; ev_createdAt := now |}.
Definition append_event (e : LedgerEvent) (r : DagRun) : DagRun := with_events (dr_events r ++ [e]) r.
Lemma insertDagEvent_Ok body now t r r' u :
  insertDagEvent body now t r = (r', Ok u) <-> r' = append_event (event body now t) r.
Proof.
  unfold insertDagEvent, modify, append_event, event. destruct u. split; [by intros [= <-]|by intros ->].
Qed.
Lemma modify_Ok (f : DagRun -> DagRun) r r' u : (modify f : Tx unit) r = (r', Ok u) <-> r' = f r.
Proof. unfold modify. destruct u. split; [by intros [= <-]|by intros ->]. Qed.
Lemma expect_one_Ok e (m : Tx Z) r r' u : expect_one e m r = (r', Ok u) <-> m r = (r', Ok 1).
Proof.
  unfold expect_one. rewrite M_bind_Ok. split.
  - intros (r1 & n & H1 & H2). apply throw_if_Ok in H2 as [Hn ->].
    apply negb_false_iff, Z.eqb_eq in Hn. by subst.
  - intros H. exists r', 1. split; [done|]. by apply throw_if_Ok.
Qed.

Definition mapped {A} (p : A -> bool) (f : A -> A) (l : list A) : list A := (fun x => if p x then f x else x) <$> l.
Lemma update_run_Ok p f r r' n :
  update_run p f r = (r', Ok n) <->
  (p (dr_row r) = true /\ n = 1 /\ r' = with_row (f (dr_row r)) r) \/ (p (dr_row r) = false /\ n = 0 /\ r' = r).
Proof. unfold update_run. destruct (p (dr_row r)); naive_solver. Qed.
Lemma update_tasks_Ok p f r r' n :
  update_tasks p f r = (r', Ok n) <-> n = zlen (keep p (dr_tasks r)) /\ r' = with_tasks (mapped p f (dr_tasks r)) r.
Proof. unfold update_tasks. naive_solver. Qed.
Lemma update_attempts_Ok p f r r' n :
  update_attempts p f r = (r', Ok n) <->
  n = zlen (keep p (dr_attempts r)) /\ r' = with_attempts (mapped p f (dr_attempts r)) r.
Proof. unfold update_attempts. naive_solver. Qed.

(** An update of one row. *)
Lemma update_run_one p f r r' :
  update_run p f r = (r', Ok 1) <-> p (dr_row r) = true /\ r' = with_row (f (dr_row r)) r.
Proof. rewrite update_run_Ok. naive_solver. Qed.

Lemma assert_lease_Ok now lease terminal r r' u :
  assertDagRunMutationLease now lease terminal r = (r', Ok u) <->
  r' = r /\ (terminal = true -> lease <> None) /\
  match rr_owner (dr_row r) with
  | None => lease = None
  | Some _ => exists l, lease = Some l /\ holds_lease l (dr_row r) = true /\ live_lease now (dr_row r) = true
  end.
Proof.
  unfold assertDagRunMutationLease. rewrite M_bind_Ok. setoid_rewrite get_Ok.
  destruct u. split.
  - intros (? & ? & [-> ->] & H). apply M_bind_Ok in H as (? & [] & [Ht ->]%throw_if_Ok & H).
    assert (Hterm : terminal = true -> lease <> None) by (intros -> ->; done).
    destruct (rr_owner (dr_row r)); [destruct lease as [l|]; [|done]|].
    + apply throw_if_Ok in H as [[H1 H2]%negb_false_iff%andb_true_iff ->]. eauto 7.
    + apply throw_if_Ok in H as [H%bool_decide_eq_false ->]. split_and!; [done|done|].
      by apply dec_stable.
  - intros (-> & Hterm & H). exists r, r. split; [done|]. apply M_bind_Ok. exists r, tt. split.
    + apply throw_if_Ok. split; [|done]. destruct terminal; [|done]. rewrite andb_true_l.
      apply bool_decide_eq_false. auto.
    + destruct (rr_owner (dr_row r)).
      * destruct H as (l & -> & H1 & H2). apply throw_if_Ok. by rewrite H1, H2.
      * by subst.
Qed.

Lemma Tx_bind_Ok {A B} (m : Tx A) (k : A -> Tx B) r r' b :
  (m ≫= k) r = (r', Ok b) <-> exists r1 a, m r = (r1, Ok a) /\ k a r1 = (r', Ok b).
Proof. apply M_bind_Ok. Qed.

Lemma circuit_signal_Ok s r r' d : normalizedProviderCircuitSignal s r = (r', Ok d) -> r' = r.
Proof. intros H. pose proof (pure_circuit_signal s r) as Hp. by rewrite H in Hp. Qed.

(** Takes every committed statement among the hypotheses apart. *)
Ltac committing_step :=
  match goal with
  | H : mbind _ _ _ = (_, Ok _) |- _ => apply Tx_bind_Ok in H as (? & ? & ? & ?)
  | H : transaction _ _ = (_, Ok _) |- _ => apply (proj1 (transaction_Ok _ _ _ _)) in H
  | H : get _ = (_, Ok _) |- _ => apply get_Ok in H as [-> ->]
  | H : lift _ _ = (_, Ok _) |- _ => apply lift_Ok in H as [-> ?]
  | H : mret _ _ = (_, Ok _) |- _ => apply M_ret_Ok in H as [-> ?]
  | H : throw _ _ = (_, Ok _) |- _ => by apply throw_Ok in H
  | H : throw_if _ _ _ = (_, Ok _) |- _ => apply throw_if_Ok in H as [? ->]
  | H : safe_or _ _ _ = (_, Ok _) |- _ => apply safe_or_Ok in H as [-> ?]
  | H : positive_or _ _ _ = (_, Ok _) |- _ => apply positive_or_Ok in H as (-> & ? & ?)
  | H : lease_expiry _ _ _ = (_, Ok _) |- _ => apply lease_expiry_Ok in H as (-> & ? & ? & ? & ? & ?)
  | H : insertDagEvent _ _ _ _ = (_, Ok _) |- _ => apply insertDagEvent_Ok in H as ->
  | H : modify _ _ = (_, Ok _) |- _ => apply modify_Ok in H as ->
  | H : expect_one _ _ _ = (_, Ok _) |- _ => apply expect_one_Ok in H
  | H : update_run _ _ _ = (_, Ok 1) |- _ => apply update_run_one in H as [? ->]
  | H : update_tasks _ _ _ = (_, Ok _) |- _ => apply update_tasks_Ok in H as [? ->]
  | H : update_attempts _ _ _ = (_, Ok _) |- _ => apply update_attempts_Ok in H as [? ->]
  | H : assertDagRunMutationLease _ _ _ _ = (_, Ok _) |- _ => apply assert_lease_Ok in H as (-> & ? & ?)
  | H : normalizedProviderCircuitSignal _ _ = (_, Ok _) |- _ => apply circuit_signal_Ok in H as ->
  | H : decodeCompiledDagRequest _ _ = (_, Ok _) |- _ => unfold decodeCompiledDagRequest in H
  | H : (if ?c then _ else _) _ = (_, Ok _) |- _ => destruct c eqn:?
  | H : (match ?x with _ => _ end) _ = (_, Ok _) |- _ => destruct x eqn:?
  | x : unit |- _ => destruct x
  end.
Ltac committing := cbv zeta in *; repeat committing_step; simplify_eq.

(** ** Relations between the states before and after *)

(** [m] moves along [R], whether it commits or not. *)
Definition travels (R : relation DagRun) {A} (m : Tx A) : Prop := forall r, R r (m r).1.

Section travels.
Context (R : relation DagRun) `{!PreOrder R}.

Lemma travels_pure {A} (m : Tx A) : pure m -> travels R m.
Proof. intros Hm r. by rewrite Hm. Qed.
Lemma travels_bind {A B} (m : Tx A) (k : A -> Tx B) : travels R m -> (forall a, travels R (k a)) -> travels R (m ≫= k).
Proof.
  intros Hm Hk r. unfold mbind, M_bind. specialize (Hm r). destruct (m r) as [r1 [a|e]]; simpl in *; [|done].
  by etrans; [|apply Hk].
Qed.
(** The value read by [get] is the state. *)
Lemma travels_get {B} (k : DagRun -> Tx B) : (forall r, R r (k r r).1) -> travels R (get ≫= k).
Proof. intros Hk r. apply Hk. Qed.
Lemma travels_transaction {A} (m : Tx A) : travels R m -> travels R (transaction m).
Proof. intros Hm r. unfold transaction. specialize (Hm r). by destruct (m r) as [r1 [a|e]]. Qed.
Lemma travels_forM {A} (l : list A) (f : A -> Tx unit) : (forall x, travels R (f x)) -> travels R (forM_ l f).
Proof.
  intros Hf. induction l as [|x l IH]; [by apply travels_pure, pure_ret|].
  cbn [forM_]. by apply travels_bind.
Qed.
Lemma travels_mapM {A B} (f : A -> Tx B) (l : list A) : (forall x, travels R (f x)) -> travels R (mapM f l).
Proof.
  intros Hf. induction l as [|x l IH]; [by apply travels_pure, pure_ret|].
  cbn [mapM]. apply travels_bind; [done|]. intros y. apply travels_bind; [done|]. intros ys.
  by apply travels_pure, pure_ret.
Qed.
Lemma travels_expect_one e (m : Tx Z) : travels R m -> travels R (expect_one e m).
Proof. intros Hm. apply travels_bind; [done|]. intros n. by apply travels_pure, pure_throw_if. Qed.
Lemma travels_update_run p f : (forall r, p (dr_row r) = true -> R r (with_row (f (dr_row r)) r)) -> travels R (update_run p f).
Proof. intros Hf r. unfold update_run. destruct (p (dr_row r)) eqn:?; simpl; [by apply Hf|done]. Qed.
Lemma travels_update_tasks p f : (forall r, R r (with_tasks (mapped p f (dr_tasks r)) r)) -> travels R (update_tasks p f).
Proof. intros Hf r. apply Hf. Qed.
Lemma travels_update_attempts p f :
  (forall r, R r (with_attempts (mapped p f (dr_attempts r)) r)) -> travels R (update_attempts p f).
Proof. intros Hf r. apply Hf. Qed.
Lemma travels_event body now t : (forall r e, R r (append_event e r)) -> travels R (insertDagEvent body now t).
Proof. intros Hf r. apply Hf. Qed.
Lemma travels_modify (f : DagRun -> DagRun) : (forall r, R r (f r)) -> travels R (modify f).
Proof. intros Hf r. apply Hf. Qed.
Lemma travels_block_rounds n now :
  (forall t, travels R (block_task now t)) -> travels R (block_rounds n now).
Proof.
  intros Ht. induction n as [|n IH]; [by apply travels_pure, pure_throw|].
  cbn [block_rounds]. apply travels_bind; [by apply travels_pure, pure_get|]. intros r.
  destruct (to_block r); [by apply travels_pure, pure_ret|].
  apply travels_bind; [by apply travels_forM|done].
Qed.
End travels.

(** Walks through the statements of an operation; [leaf] is tried on the others. *)
Ltac travelling_step leaf :=
  lazymatch goal with
  | |- travels _ (transaction _) => apply travels_transaction; [typeclasses eauto|]
  | |- travels _ (expect_one _ _) => apply travels_expect_one; [typeclasses eauto|]
  | |- travels _ (forM_ _ _) => apply travels_forM; [typeclasses eauto|intros ?]
  | |- travels _ (mapM _ _) => apply travels_mapM; [typeclasses eauto|intros ?]
  | |- travels _ (mbind _ _) => apply travels_bind; [typeclasses eauto| |intros ?]
  | |- travels _ (update_run _ _) => apply travels_update_run; [typeclasses eauto|]
  | |- travels _ (update_tasks _ _) => apply travels_update_tasks
  | |- travels _ (update_attempts _ _) => apply travels_update_attempts
  | |- travels _ (insertDagEvent _ _ _) => apply travels_event
  | |- travels _ (modify _) => apply travels_modify
  | |- travels _ (if ?c then _ else _) => destruct c eqn:?
  | |- travels _ (match ?x with _ => _ end) => destruct x eqn:?
  | |- travels _ _ => first [ solve [apply travels_pure; [typeclasses eauto|eauto with ledger_pure]] | leaf ]
  end.
Ltac travelling leaf := cbv zeta; repeat travelling_step leaf.
(** The parts of the operations. *)
Ltac unfold_parts :=
  unfold reconcileDagRunAccountingInTransaction, pause_task, active_attempt, insert_task, insert_dependencies,
    insert_dependency, fence_tasks, fold_attempt, assert_success, claim_task, insert_attempt, recover_task,
    apply_completion, fail_plan, retry_at, succeed_plan, check_artifact, completion_accounting, negative_outcome,
    blockDagDescendants, block_task, assertDagRunMutationLease, decodeCompiledDagRequest.
(** An operation is [unfold_operations], its parts and its updates. *)
Ltac travelling_op :=
  unfold_operations;
  travelling ltac:(first [progress unfold_parts; cbv zeta | apply travels_block_rounds; [typeclasses eauto|intros ?]]).

(** * The invariant of the run ledger

    [task_ok] relates a task to its attempts: they are numbered from one, at most the last of
    them runs or succeeded, and the task's accounting is the sum of the attempts that were
    folded into it.  [ledger_wf] adds the run: its tasks are those of the request, they can be
    ordered, and a task was only ever started after its prerequisites succeeded. *)

(** ** Tasks and their attempts *)

Definition attempts_of (taskId : string) (r : DagRun) : list DagAttempt :=
  keep (fun a => String.eqb (da_task a) taskId) (dr_attempts r).

(** The accounting of an attempt is part of its task's once it cannot be resumed. *)
Definition folded (t : DagTask) (a : DagAttempt) : bool :=
  match da_status a with
  | AttemptSucceeded | AttemptFailed => true
  | AttemptRunning => false
  | AttemptExpired => (da_number a <? dt_attemptCount t) || negb (resumable t)
  end.

Definition ended (a : DagAttempt) : Prop := da_status a = AttemptFailed \/ da_status a = AttemptExpired.

Definition artifact_matches (t : DagTask) (artifact : json) : Prop :=
  prop artifact "taskId" = Some (JsonString (dt_id t)) /\
  prop artifact "contractHash" = Some (JsonString (lc_contractHash (dt_contract t))).

Definition status_ok (t : DagTask) (l : list DagAttempt) : Prop :=
  match dt_status t with
  | TRunning =>
      exists pre a, l = pre ++ [a] /\ Forall ended pre /\ da_status a = AttemptRunning /\
        dt_currentAttempt t = Some (da_id a) /\ dt_owner t = Some (da_owner a) /\
        dt_leaseExpiresAt t = Some (da_leaseExpiresAt a) /\ dt_artifact t = None
  | TPending =>
      Forall ended l /\ dt_currentAttempt t = None /\ dt_owner t = None /\ dt_leaseExpiresAt t = None /\
      dt_artifact t = None /\ (dt_attemptCount t < dt_maxAttempts t \/ resumable t = true)
  | TSucceeded =>
      exists pre a artifact, l = pre ++ [a] /\ Forall ended pre /\ da_status a = AttemptSucceeded /\
        dt_currentAttempt t = Some (da_id a) /\ dt_artifact t = Some artifact /\ artifact_matches t artifact
  | TFailed | TCancelled | TBlocked => Forall ended l /\ dt_leaseExpiresAt t = None /\ dt_artifact t = None
  end.

(** [1, 2, ..., n] *)
Definition numbers (n : Z) : list Z := (fun k => Z.of_nat (S k)) <$> seq 0 (Z.to_nat n).

Record task_ok (t : DagTask) (l : list DagAttempt) : Prop := {
  ok_max : 1 <= dt_maxAttempts t;
  ok_count : 0 <= dt_attemptCount t <= dt_maxAttempts t;
  ok_numbers : da_number <$> l = numbers (dt_attemptCount t);
  ok_turns : dt_turns t = total_turns (keep (folded t) l);
  ok_usage : dt_usage t = total_usage (keep (folded t) l);
  ok_status : status_ok t l }.

Lemma numbers_S n : 0 <= n -> numbers (n + 1) = numbers n ++ [n + 1].
Proof.
  intros Hn. unfold numbers. rewrite Z2Nat.inj_add by lia. rewrite Nat.add_1_r, seq_S, fmap_app. simpl.
  f_equal. f_equal. lia.
Qed.
Lemma numbers_length n : 0 <= n -> zlen (numbers n) = n.
Proof. intros Hn. unfold zlen, numbers. rewrite length_fmap, length_seq. lia. Qed.
Lemma numbers_snoc n pre x : 0 <= n -> pre ++ [x] = numbers n -> 1 <= n /\ x = n /\ pre = numbers (n - 1).
Proof.
  intros Hn H. destruct (decide (n = 0)) as [->|Hne]; [by destruct pre|].
  replace n with ((n - 1) + 1) in H by lia. rewrite numbers_S in H by lia.
  apply app_inj_tail in H as [-> ->]. split_and!; [lia|lia|]. done.
Qed.
Lemma elem_of_numbers n x : x ∈ numbers n -> 1 <= x <= n.
Proof. unfold numbers. intros (k & -> & Hk)%list_elem_of_fmap. apply elem_of_seq in Hk. lia. Qed.

Lemma total_turns_app l a : total_turns (l ++ [a]) = total_turns l + da_turns a.
Proof. unfold total_turns. by rewrite foldl_app. Qed.
Lemma total_usage_app l a : total_usage (l ++ [a]) = addUsageValues (total_usage l) (da_usage a).
Proof. unfold total_usage. by rewrite foldl_app. Qed.

(** Every attempt before the last is folded. *)
Lemma keep_folded t pre a :
  Forall ended pre -> Forall (fun x => da_number x < dt_attemptCount t) pre ->
  keep (folded t) (pre ++ [a]) = pre ++ (if folded t a then [a] else []).
Proof.
  intros He Hn. rewrite keep_app. simpl. f_equal. apply keep_all. intros x Hx.
  rewrite Forall_forall in He, Hn. specialize (He x Hx). specialize (Hn x Hx). unfold folded.
  destruct He as [-> | ->]; [done|]. by apply orb_true_intro; left; apply Z.ltb_lt.
Qed.

Lemma task_ok_earlier t pre a :
  task_ok t (pre ++ [a]) -> da_number a = dt_attemptCount t /\ 1 <= dt_attemptCount t /\
    Forall (fun x => da_number x < dt_attemptCount t) pre.
Proof.
  intros H. pose proof (ok_numbers _ _ H) as Hn. rewrite fmap_app in Hn. simpl in Hn.
  apply numbers_snoc in Hn as (H1 & H2 & H3); [|by apply H]. split_and!; [done|done|].
  apply Forall_forall. intros x Hx. apply (list_elem_of_fmap_2 da_number) in Hx. rewrite H3 in Hx.
  apply elem_of_numbers in Hx. lia.
Qed.

(** A task with a running last attempt. *)
Lemma running_ok t l :
  task_ok t l -> dt_status t = TRunning -> exists pre a, l = pre ++ [a] /\ Forall ended pre /\
    da_status a = AttemptRunning /\ dt_currentAttempt t = Some (da_id a) /\ dt_owner t = Some (da_owner a) /\
    dt_leaseExpiresAt t = Some (da_leaseExpiresAt a) /\ dt_artifact t = None /\
    da_number a = dt_attemptCount t /\ 1 <= dt_attemptCount t /\
    Forall (fun x => da_number x < dt_attemptCount t) pre /\
    dt_turns t = total_turns pre /\ dt_usage t = total_usage pre.
Proof.
  intros H Hs. pose proof (ok_status _ _ H) as Hst. unfold status_ok in Hst. rewrite Hs in Hst.
  destruct Hst as (pre & a & -> & He & Ha & Hc & Ho & Hl & Hart).
  destruct (task_ok_earlier _ _ _ H) as (Hn & H1 & Hlt).
  pose proof (ok_turns _ _ H) as Ht. pose proof (ok_usage _ _ H) as Hu.
  rewrite keep_folded in Ht, Hu by done. unfold folded in Ht, Hu. rewrite Ha, app_nil_r in Ht, Hu.
  exists pre, a. by split_and!.
Qed.

(** A changed task whose earlier attempts are those of a task that ran. *)
Lemma task_ok_last t t' pre a a' :
  task_ok t (pre ++ [a]) -> Forall ended pre ->
  dt_maxAttempts t' = dt_maxAttempts t -> dt_attemptCount t' = dt_attemptCount t -> da_number a' = da_number a ->
  dt_turns t' = total_turns pre + (if folded t' a' then da_turns a' else 0) ->
  dt_usage t' = (if folded t' a' then addUsageValues (total_usage pre) (da_usage a') else total_usage pre) ->
  status_ok t' (pre ++ [a']) -> task_ok t' (pre ++ [a']).
Proof.
  intros H He Hm Hc Hn Ht Hu Hs. destruct (task_ok_earlier _ _ _ H) as (Hna & H1 & Hlt). split.
  - rewrite Hm. apply H.
  - rewrite Hm, Hc. apply H.
  - rewrite Hc, fmap_app. simpl. rewrite Hn. rewrite <-(ok_numbers _ _ H), fmap_app. done.
  - rewrite keep_folded by (done || by rewrite Hc). rewrite Ht. destruct (folded t' a').
    + by rewrite total_turns_app.
    + rewrite app_nil_r. lia.
  - rewrite keep_folded by (done || by rewrite Hc). rewrite Hu. destruct (folded t' a').
    + by rewrite total_usage_app.
    + by rewrite app_nil_r.
  - done.
Qed.

(** ** The run *)

Definition prerequisites_done (r : DagRun) (t : DagTask) : Prop :=
  forall p, p ∈ prerequisites r (dt_id t) -> dt_status p = TSucceeded.

Record tasks_wf (r : DagRun) : Prop := {
  wf_ids : NoDup (dt_id <$> dr_tasks r);
  wf_attempt_ids : NoDup (da_id <$> dr_attempts r);
  wf_attempt_tasks : forall a, a ∈ dr_attempts r -> da_task a ∈ dt_id <$> dr_tasks r;
  wf_tasks : forall t, t ∈ dr_tasks r -> task_ok t (attempts_of (dt_id t) r);
  wf_request : dt_contract <$> dr_tasks r = cr_tasks (rr_request (dr_row r));
  wf_dependencies : forall x d, (x, d) ∈ dr_dependencies r <->
    exists c, c ∈ cr_tasks (rr_request (dr_row r)) /\ lc_id c = x /\ d ∈ lc_dependsOn c;
  wf_order : exists o, valid_order o /\ o ≡ₚ lc_task <$> cr_tasks (rr_request (dr_row r));
  wf_started : forall t, t ∈ dr_tasks r -> 0 < dt_attemptCount t -> prerequisites_done r t }.

Definition row_ok (r : DagRun) : Prop :=
  let row := dr_row r in
  (rr_owner row = None <-> rr_leaseExpiresAt row = None) /\ 0 <= rr_epoch row /\
  (terminal_status (rr_status row) = true -> rr_owner row = None /\ rr_pausedAt row = None) /\
  (rr_pausedAt row <> None -> forall t, t ∈ dr_tasks r -> dt_status t <> TRunning) /\
  match rr_status row with
  | RunCreated => forall t, t ∈ dr_tasks r -> dt_status t = TPending /\ dt_attemptCount t = 0
  | RunRunning => True
  | RunSucceeded => forall t, t ∈ dr_tasks r -> dt_status t = TSucceeded
  | RunFailed | RunCancelled => forall t, t ∈ dr_tasks r -> unsettled t = false
  end.

(** No task waits for a prerequisite that will not succeed. *)
Definition frontier_ok (r : DagRun) : Prop :=
  forall t p, t ∈ dr_tasks r -> dt_status t = TPending -> p ∈ prerequisites r (dt_id t) ->
    dt_status p <> TFailed /\ dt_status p <> TCancelled /\ dt_status p <> TBlocked.

Record ledger_wf (r : DagRun) : Prop := {
  wf_all_tasks : tasks_wf r;
  wf_row : row_ok r;
  wf_frontier : frontier_ok r }.

(** ** Changing the rows of tasks and attempts *)

Lemma attempts_of_with_attempts id l r : attempts_of id (with_attempts l r) = keep (fun a => String.eqb (da_task a) id) l.
Proof. done. Qed.

Lemma keep_mapped {A} (p q : A -> bool) f l :
  (forall x, x ∈ l -> p (f x) = p x) -> keep p (mapped q f l) = mapped q f (keep p l).
Proof.
  intros Hp. induction l as [|x l IH]; [done|]. simpl.
  assert (Hx : p (if q x then f x else x) = p x) by (destruct (q x); [apply Hp; by left|done]).
  rewrite Hx, IH by (intros y Hy; apply Hp; by right). by destruct (p x).
Qed.
Lemma mapped_none {A} (p : A -> bool) f l : (forall x, x ∈ l -> p x = false) -> mapped p f l = l.
Proof.
  intros Hp. unfold mapped. rewrite <-(list_fmap_id l) at 2. apply list_fmap_ext.
  intros i x Hx. rewrite Hp by by eapply list_elem_of_lookup_2. done.
Qed.
Lemma fmap_mapped {A B} (g : A -> B) (p : A -> bool) f l :
  (forall x, x ∈ l -> g (f x) = g x) -> g <$> mapped p f l = g <$> l.
Proof.
  intros Hg. unfold mapped. rewrite <-list_fmap_compose. apply list_fmap_ext. intros i x Hx. simpl.
  destruct (p x); [|done]. apply Hg. by eapply list_elem_of_lookup_2.
Qed.
Lemma elem_of_mapped {A} (p : A -> bool) f l y :
  y ∈ mapped p f l <-> exists x, x ∈ l /\ y = if p x then f x else x.
Proof. unfold mapped. rewrite list_elem_of_fmap. naive_solver. Qed.

(** The prerequisites of a task whose row changes are the changed rows. *)
Lemma prerequisites_mapped p f r r' id :
  (forall t, t ∈ dr_tasks r -> dt_id (f t) = dt_id t) -> dr_tasks r' = mapped p f (dr_tasks r) ->
  dr_dependencies r' = dr_dependencies r -> prerequisites r' id = mapped p f (prerequisites r id).
Proof.
  intros Hf Ht Hd. unfold prerequisites. rewrite Ht, Hd. apply keep_mapped. intros x Hx. by rewrite Hf.
Qed.

(** The rule for a statement that maps tasks: each stays well formed with its attempts, none
    that succeeded changes, and none starts before its prerequisites. *)
Lemma tasks_wf_mapped p f r r' :
  tasks_wf r -> dr_tasks r' = mapped p f (dr_tasks r) -> dr_dependencies r' = dr_dependencies r ->
  rr_request (dr_row r') = rr_request (dr_row r) ->
  NoDup (da_id <$> dr_attempts r') -> (forall a, a ∈ dr_attempts r' -> da_task a ∈ dt_id <$> dr_tasks r) ->
  (forall t, t ∈ dr_tasks r -> dt_contract (f t) = dt_contract t) ->
  (forall t, t ∈ dr_tasks r -> p t = true -> task_ok (f t) (attempts_of (dt_id t) r')) ->
  (forall t, t ∈ dr_tasks r -> p t = false -> task_ok t (attempts_of (dt_id t) r')) ->
  (forall t, t ∈ dr_tasks r -> p t = true -> dt_status t = TSucceeded -> dt_status (f t) = TSucceeded) ->
  (forall t, t ∈ dr_tasks r -> p t = true -> 0 < dt_attemptCount (f t) -> prerequisites_done r t) ->
  tasks_wf r'.
Proof.
  intros Hwf Ht Hd Hreq Hnd Hat Hc Hok Hok' Hs Hst.
  assert (Hid : forall t, t ∈ dr_tasks r -> dt_id (f t) = dt_id t) by (intros t Hin; unfold dt_id; by rewrite Hc).
  assert (Hids : dt_id <$> dr_tasks r' = dt_id <$> dr_tasks r) by (rewrite Ht; by apply fmap_mapped).
  split.
  - rewrite Hids. apply Hwf.
  - done.
  - intros a Ha. rewrite Hids. by apply Hat.
  - intros t' Hin. rewrite Ht in Hin. apply elem_of_mapped in Hin as (t & Hin & ->).
    destruct (p t) eqn:Hp; [rewrite Hid by done; by apply Hok|by apply Hok'].
  - rewrite Ht, Hreq, (fmap_mapped dt_contract) by done. apply Hwf.
  - rewrite Hd, Hreq. apply Hwf.
  - rewrite Hreq. apply Hwf.
  - intros t' Hin Hcount. rewrite Ht in Hin. apply elem_of_mapped in Hin as (t & Hin & ->).
    assert (Hdone : prerequisites_done r t).
    { destruct (p t) eqn:Hp; [by apply Hst|by apply (wf_started _ Hwf)]. }
    assert (Hidt : dt_id (if p t then f t else t) = dt_id t) by (destruct (p t); [by apply Hid|done]).
    intros x Hx. rewrite Hidt in Hx. erewrite prerequisites_mapped in Hx by done.
    apply elem_of_mapped in Hx as (y & Hy & ->). specialize (Hdone y Hy).
    apply elem_of_keep in Hy as [Hy _]. destruct (p y) eqn:Hpy; [by apply Hs|done].
Qed.

(** Only the rows of tasks and attempts, the dependencies and the request matter. *)
Lemma tasks_wf_ext r r' :
  tasks_wf r -> dr_tasks r' = dr_tasks r -> dr_dependencies r' = dr_dependencies r ->
  dr_attempts r' = dr_attempts r -> rr_request (dr_row r') = rr_request (dr_row r) -> tasks_wf r'.
Proof.
  intros [] Ht Hd Ha Hr. split; rewrite ?Ht, ?Hd, ?Ha, ?Hr; try done.
  - intros t Hin. unfold attempts_of. rewrite Ha. auto.
  - intros t Hin Hc p Hp. unfold prerequisites in Hp. rewrite Ht, Hd in Hp. by eapply wf_started0.
Qed.

(** ** One row *)

Lemma keep_one {A} (p : A -> bool) l : 1 = zlen (keep p l) -> exists x, keep p l = [x] /\ x ∈ l /\ p x = true.
Proof.
  intros H. destruct (keep p l) as [|x [|y k]] eqn:Hk; unfold zlen in H; simpl in H; try lia.
  exists x. split; [done|]. apply (elem_of_keep p). rewrite Hk. by left.
Qed.
Lemma find_row_Some {A} (p : A -> bool) l x : find_row p l = Some x -> x ∈ l /\ p x = true.
Proof.
  unfold find_row. intros H. apply (elem_of_keep p). destruct (keep p l) as [|y k]; [done|].
  simpl in H. injection H as ->. by left.
Qed.
Lemma find_row_None {A} (p : A -> bool) l : find_row p l = None -> forall x, x ∈ l -> p x = false.
Proof.
  unfold find_row. intros H x Hx. destruct (p x) eqn:Hp; [|done].
  assert (Hin : x ∈ keep p l) by by apply elem_of_keep.
  destruct (keep p l); [by apply not_elem_of_nil in Hin|done].
Qed.
Lemma fmap_NoDup_inj {A B} (g : A -> B) l x y : NoDup (g <$> l) -> x ∈ l -> y ∈ l -> g x = g y -> x = y.
Proof.
  intros Hnd [i Hi]%list_elem_of_lookup [j Hj]%list_elem_of_lookup Hg.
  assert (i = j) as ->.
  { eapply NoDup_lookup; [done| |]; rewrite list_lookup_fmap; [by rewrite Hi|by rewrite Hj, Hg]. }
  congruence.
Qed.

Lemma is_task_true id t : is_task id t = true <-> dt_id t = id.
Proof. unfold is_task. apply String.eqb_eq. Qed.
Lemma has_status_true s t : has_status s t = true <-> dt_status t = s.
Proof. unfold has_status. apply bool_decide_eq_true. Qed.
Lemma has_status_false s t : has_status s t = false <-> dt_status t <> s.
Proof. unfold has_status. apply bool_decide_eq_false. Qed.
Lemma runs_attempt_true id a o t :
  runs_attempt id a o t = true <->
  dt_id t = id /\ dt_status t = TRunning /\ dt_currentAttempt t = Some a /\ dt_owner t = Some o.
Proof.
  unfold runs_attempt. rewrite !andb_true_iff, is_task_true, has_status_true, !bool_decide_eq_true. naive_solver.
Qed.
Lemma attempt_of_true id t o a :
  attempt_of id t o a = true <-> da_id a = id /\ da_task a = t /\ da_owner a = o.
Proof. unfold attempt_of. rewrite !andb_true_iff, !String.eqb_eq. naive_solver. Qed.
Lemma attempt_running_true a : attempt_running a = true <-> da_status a = AttemptRunning.
Proof. unfold attempt_running. apply bool_decide_eq_true. Qed.
Lemma ended_not_running a : ended a -> attempt_running a = false.
Proof. unfold attempt_running. intros [H|H]; apply bool_decide_eq_false; by rewrite H. Qed.

Lemma elem_of_attempts_of a id r : a ∈ attempts_of id r <-> a ∈ dr_attempts r /\ da_task a = id.
Proof. unfold attempts_of. rewrite elem_of_keep, String.eqb_eq. naive_solver. Qed.

(** The attempt a running task names is its last, and the only one of its owner that runs. *)
Lemma running_attempt_spec r t attemptId ownerId :
  tasks_wf r -> t ∈ dr_tasks r -> runs_attempt (dt_id t) attemptId ownerId t = true ->
  exists pre a, attempts_of (dt_id t) r = pre ++ [a] /\ Forall ended pre /\ da_status a = AttemptRunning /\
    da_id a = attemptId /\ da_owner a = ownerId /\ dt_leaseExpiresAt t = Some (da_leaseExpiresAt a) /\
    dt_artifact t = None /\ 1 <= dt_attemptCount t /\
    dt_turns t = total_turns pre /\ dt_usage t = total_usage pre /\
    keep (fun a => attempt_of attemptId (dt_id t) ownerId a && attempt_running a) (dr_attempts r) = [a].
Proof.
  intros Hwf Hin (_ & Hs & Hc & Ho)%runs_attempt_true.
  destruct (running_ok _ _ (wf_tasks _ Hwf t Hin) Hs)
    as (pre & a & Hl & He & Ha & Hca & Hoa & Hx & Hart & Hn & H1 & Hlt & Ht & Hu).
  assert (da_id a = attemptId) as <- by congruence. assert (da_owner a = ownerId) as <- by congruence.
  exists pre, a. split_and!; try done.
  assert (Hin' : a ∈ attempts_of (dt_id t) r) by (rewrite Hl; apply elem_of_app; right; by left).
  apply elem_of_attempts_of in Hin' as [Hin' Htask].
  rewrite (keep_ext _ (fun x => (fun x => String.eqb (da_task x) (dt_id t)) x && attempt_of (da_id a) (dt_id t) (da_owner a) x && attempt_running x)).
  2: { intros x _. unfold attempt_of. by destruct (String.eqb (da_task x) (dt_id t)); rewrite ?andb_true_r, ?andb_false_r. }
  rewrite (keep_ext _ (fun x => (da_task x =? dt_id t)%string && (attempt_of (da_id a) (dt_id t) (da_owner a) x && attempt_running x)))
    by (intros; by rewrite andb_assoc).
  rewrite <-(keep_keep _ (fun x => (da_task x =? dt_id t)%string)). fold (attempts_of (dt_id t) r). rewrite Hl, keep_app.
  rewrite keep_none.
  - simpl. assert (Hok : attempt_of (da_id a) (dt_id t) (da_owner a) a && attempt_running a = true).
    { apply andb_true_iff. by rewrite attempt_of_true, attempt_running_true. }
    by rewrite Hok.
  - intros x Hx'. rewrite Forall_forall in He. rewrite (ended_not_running x) by auto. apply andb_false_r.
Qed.

(** The rule for statements that change one task and attempts of that task. *)
Lemma tasks_wf_one r r' p f q h t :
  tasks_wf r -> dr_tasks r' = mapped p f (dr_tasks r) -> dr_attempts r' = mapped q h (dr_attempts r) ->
  dr_dependencies r' = dr_dependencies r -> rr_request (dr_row r') = rr_request (dr_row r) ->
  keep p (dr_tasks r) = [t] -> (forall a, a ∈ dr_attempts r -> q a = true -> da_task a = dt_id t) ->
  (forall x, dt_contract (f x) = dt_contract x) -> (forall a, da_id (h a) = da_id a) ->
  (forall a, da_task (h a) = da_task a) -> dt_status t <> TSucceeded -> prerequisites_done r t ->
  task_ok (f t) (mapped q h (attempts_of (dt_id t) r)) ->
  tasks_wf r'.
Proof.
  intros Hwf Ht Ha Hd Hreq Hk Hq Hf Hid Htask Hns Hdone Hok.
  assert (Hin : t ∈ dr_tasks r /\ p t = true) by (apply (elem_of_keep p); rewrite Hk; by left).
  destruct Hin as [Hin Hp].
  assert (Hother : forall x, x ∈ dr_tasks r -> p x = true -> x = t).
  { intros x Hxin Hpx. assert (Hxk : x ∈ keep p (dr_tasks r)) by by apply elem_of_keep.
    rewrite Hk in Hxk. by apply list_elem_of_singleton in Hxk. }
  assert (Hatt : forall id, attempts_of id r' = mapped q h (attempts_of id r)).
  { intros id. unfold attempts_of. rewrite Ha. apply keep_mapped. intros x _. by rewrite Htask. }
  apply (tasks_wf_mapped p f r r'); try done.
  - rewrite Ha, fmap_mapped by auto. apply Hwf.
  - intros x Hxin. rewrite Ha in Hxin. apply elem_of_mapped in Hxin as (y & Hy & ->).
    replace (da_task (if q y then h y else y)) with (da_task y) by (by destruct (q y)).
    by apply (wf_attempt_tasks _ Hwf).
  - intros x Hxin Hpx. by rewrite (Hother x Hxin Hpx), Hatt.
  - intros x Hxin Hpx. rewrite Hatt, mapped_none; [by apply (wf_tasks _ Hwf)|].
    intros y [Hy1 Hy2]%elem_of_attempts_of. destruct (q y) eqn:E; [|done]. exfalso. apply Hq in E; [|done].
    assert (x = t) by (eapply (fmap_NoDup_inj dt_id); [apply Hwf|done|done|congruence]). congruence.
  - intros x Hxin Hpx. rewrite (Hother x Hxin Hpx). done.
  - intros x Hxin Hpx _. by rewrite (Hother x Hxin Hpx).
Qed.

Lemma mapped_last {A} (q : A -> bool) h pre a :
  (forall x, x ∈ pre -> q x = false) -> q a = true -> mapped q h (pre ++ [a]) = pre ++ [h a].
Proof. intros Hpre Ha. unfold mapped. rewrite fmap_app. simpl. rewrite Ha. f_equal. by apply (mapped_none q h). Qed.

(** The rule for operations that change the row of a running task and that of its attempt. *)
Lemma tasks_wf_running r r' p f q h t attemptId ownerId :
  tasks_wf r -> dr_tasks r' = mapped p f (dr_tasks r) -> dr_attempts r' = mapped q h (dr_attempts r) ->
  dr_dependencies r' = dr_dependencies r -> rr_request (dr_row r') = rr_request (dr_row r) ->
  keep p (dr_tasks r) = [t] -> runs_attempt (dt_id t) attemptId ownerId t = true ->
  (forall a, a ∈ dr_attempts r -> q a = attempt_of attemptId (dt_id t) ownerId a && attempt_running a) ->
  (forall x, dt_contract (f x) = dt_contract x) ->
  (forall a, da_id (h a) = da_id a) -> (forall a, da_task (h a) = da_task a) ->
  (forall pre a, attempts_of (dt_id t) r = pre ++ [a] -> Forall ended pre -> da_status a = AttemptRunning ->
     da_id a = attemptId -> da_owner a = ownerId -> dt_leaseExpiresAt t = Some (da_leaseExpiresAt a) ->
     dt_artifact t = None -> dt_turns t = total_turns pre -> dt_usage t = total_usage pre ->
     task_ok t (pre ++ [a]) -> task_ok (f t) (pre ++ [h a])) ->
  tasks_wf r'.
Proof.
  intros Hwf Ht Ha Hd Hreq Hk Hrun Hq Hf Hid Htask Hok.
  assert (Hin : t ∈ dr_tasks r) by (apply (elem_of_keep p); rewrite Hk; by left).
  destruct (running_attempt_spec _ _ _ _ Hwf Hin Hrun)
    as (pre & a & Hl & He & Hs & Hi & Ho & Hx & Hart & H1 & Htu & Hus & Hone).
  assert (Hqin : forall x, x ∈ pre ++ [a] -> q x = attempt_of attemptId (dt_id t) ownerId x && attempt_running x).
  { rewrite <-Hl. intros x [Hx' _]%elem_of_attempts_of. by apply Hq. }
  eapply (tasks_wf_one r r' p f q h t); try done.
  - intros x Hxin Hqx. rewrite Hq in Hqx by done. by apply andb_true_iff in Hqx as [(_ & Hqx & _)%attempt_of_true _].
  - apply runs_attempt_true in Hrun as (_ & Hrun & _). congruence.
  - apply (wf_started _ Hwf); [done|lia].
  - rewrite Hl, mapped_last; [|intros y Hy|].
    + apply Hok; try done. rewrite <-Hl. by apply (wf_tasks _ Hwf).
    + rewrite Hqin by (apply elem_of_app; by left). rewrite Forall_forall in He.
      rewrite (ended_not_running y) by auto. apply andb_false_r.
    + rewrite Hqin by (apply elem_of_app; right; by left). apply andb_true_iff.
      rewrite attempt_of_true, attempt_running_true. split_and!; try done.
      assert (Hain : a ∈ attempts_of (dt_id t) r) by (rewrite Hl; apply elem_of_app; right; by left).
      by apply elem_of_attempts_of in Hain as [_ Hain].
Qed.
