(* ===== verification/LedgerPreservation.v ===== *)
(** * Operations preserve the invariant of the run ledger

    The rules for the kinds of change the operations make, and their application to each. *)
From S2P Require Import Prelude JsNumber SessionTypes JsText JsonNumber JsonText Subagent RetryPolicy.
From S2P Require Import LedgerTypes Ledger LedgerTasks LedgerInvariant.

(** Tasks and frontier: what the statements of a transaction maintain. *)
Definition core_wf (r : DagRun) : Prop := tasks_wf r /\ frontier_ok r.

Lemma core_wf_ext r r' :
  core_wf r -> dr_tasks r' = dr_tasks r -> dr_dependencies r' = dr_dependencies r ->
  dr_attempts r' = dr_attempts r -> rr_request (dr_row r') = rr_request (dr_row r) -> core_wf r'.
Proof.
  intros [Hwf Hfr] Ht Hd Ha Hr. split; [by eapply tasks_wf_ext|].
  intros t p Hin Hs Hp. unfold prerequisites in Hp. rewrite Ht, Hd in *. by eapply Hfr.
Qed.

(** Statuses that no prerequisite of a waiting task has. *)
Definition lost (t : DagTask) : Prop := dt_status t = TFailed \/ dt_status t = TCancelled \/ dt_status t = TBlocked.

Lemma frontier_mapped r r' p f :
  frontier_ok r -> dr_tasks r' = mapped p f (dr_tasks r) -> dr_dependencies r' = dr_dependencies r ->
  (forall t, t ∈ dr_tasks r -> dt_id (f t) = dt_id t) ->
  (forall t, t ∈ dr_tasks r -> p t = true -> dt_status (f t) = TPending ->
     dt_status t = TPending \/ prerequisites_done r t) ->
  (forall t, t ∈ dr_tasks r -> p t = true -> lost (f t) -> lost t) ->
  (forall t, t ∈ dr_tasks r -> p t = true -> dt_status t = TSucceeded -> dt_status (f t) = TSucceeded) ->
  frontier_ok r'.
Proof.
  intros Hfr Ht Hd Hid Hpend Hlost Hsucc t' x' Hin Hs Hx. rewrite Ht in Hin.
  apply elem_of_mapped in Hin as (t & Hin & ->).
  assert (Hidt : dt_id (if p t then f t else t) = dt_id t) by (destruct (p t); [by apply Hid|done]).
  rewrite Hidt in Hx. erewrite prerequisites_mapped in Hx by done. apply elem_of_mapped in Hx as (x & Hx & ->).
  assert (Hxin : x ∈ dr_tasks r) by by apply elem_of_keep in Hx as [Hx _].
  assert (Hx' : ~ lost x).
  { assert (Hor : dt_status t = TPending \/ prerequisites_done r t) by (destruct (p t) eqn:Hp; [by apply Hpend|by left]).
    destruct Hor as [Hp|Hdone].
    - intros Hl. destruct (Hfr t x Hin Hp Hx) as (H1 & H2 & H3). by destruct Hl as [?|[?|?]].
    - specialize (Hdone x Hx). intros [?|[?|?]]; congruence. }
  assert (Hn : ~ lost (if p x then f x else x)) by (destruct (p x) eqn:Hpx; [intros Hl; by apply Hx', Hlost|done]).
  split_and!; intros Hbad; apply Hn; [by left|right; by left|right; by right].
Qed.

Lemma keep_singleton_in {A} (p : A -> bool) l t : keep p l = [t] -> t ∈ l /\ p t = true.
Proof. intros Hk. apply (elem_of_keep p). rewrite Hk. by left. Qed.
Lemma keep_singleton_eq {A} (p : A -> bool) l t x : keep p l = [t] -> x ∈ l -> p x = true -> x = t.
Proof.
  intros Hk Hx Hp. assert (Hin : x ∈ keep p l) by by apply elem_of_keep.
  rewrite Hk in Hin. by apply list_elem_of_singleton in Hin.
Qed.

(** An attempt that goes on running. *)
Lemma core_wf_stays r r' p f q h t attemptId ownerId :
  core_wf r -> dr_tasks r' = mapped p f (dr_tasks r) -> dr_attempts r' = mapped q h (dr_attempts r) ->
  dr_dependencies r' = dr_dependencies r -> rr_request (dr_row r') = rr_request (dr_row r) ->
  keep p (dr_tasks r) = [t] -> runs_attempt (dt_id t) attemptId ownerId t = true ->
  (forall a, a ∈ dr_attempts r -> q a = attempt_of attemptId (dt_id t) ownerId a && attempt_running a) ->
  (forall x, dt_contract (f x) = dt_contract x /\ dt_status (f x) = dt_status x /\
     dt_maxAttempts (f x) = dt_maxAttempts x /\ dt_attemptCount (f x) = dt_attemptCount x /\
     dt_currentAttempt (f x) = dt_currentAttempt x /\ dt_owner (f x) = dt_owner x /\
     dt_artifact (f x) = dt_artifact x /\ dt_turns (f x) = dt_turns x /\ dt_usage (f x) = dt_usage x) ->
  (forall a, da_id (h a) = da_id a /\ da_task (h a) = da_task a /\ da_number (h a) = da_number a /\
     da_owner (h a) = da_owner a /\ da_status (h a) = da_status a) ->
  (forall a, dt_leaseExpiresAt t = Some (da_leaseExpiresAt a) ->
     dt_leaseExpiresAt (f t) = Some (da_leaseExpiresAt (h a))) ->
  core_wf r'.
Proof.
  intros [Hwf Hfr] Ht Ha Hd Hreq Hk Hrun Hq Hf Hh Hx. pose proof (keep_singleton_in _ _ _ Hk) as [Hin Hp].
  pose proof Hrun as (_ & Hs & Hc & Ho)%runs_attempt_true. split.
  - eapply (tasks_wf_running r r' p f q h t); try done; try (intros; apply Hf || apply Hh).
    intros pre a Hl He Hsa Hid Hoa Hxa Hart Htu Hus Hok.
    destruct (Hf t) as (_ & Hfs & Hfm & Hfc & Hfcu & Hfo & Hfa & Hft & Hfu), (Hh a) as (Hh1 & Hh2 & Hh3 & Hh4 & Hh5).
    assert (Hnf : folded (f t) (h a) = false) by (unfold folded; by rewrite Hh5, Hsa).
    apply (task_ok_last t (f t) pre a (h a)); try done.
    + rewrite Hnf, Hft, Htu. lia.
    + by rewrite Hnf, Hfu, Hus.
    + unfold status_ok. rewrite Hfs, Hs. exists pre, (h a).
      rewrite Hh1, Hh4, Hh5, Hfcu, Hfo, Hfa, Hc, Ho, Hid, Hoa. split_and!; try done. by apply Hx.
  - eapply (frontier_mapped r r' p f); try done.
    + intros x _. unfold dt_id. by destruct (Hf x) as (-> & _).
    + intros x _ _. destruct (Hf x) as (_ & -> & _). by left.
    + intros x _ _. unfold lost. by destruct (Hf x) as (_ & -> & _).
    + intros x _ _. by destruct (Hf x) as (_ & -> & _).
Qed.

(** [keeps_attempt] selects the running task of that attempt. *)
Lemma keeps_attempt_one r taskId attemptId ownerId now :
  1 = zlen (keep (keeps_attempt r taskId attemptId ownerId now) (dr_tasks r)) ->
  exists t, keep (keeps_attempt r taskId attemptId ownerId now) (dr_tasks r) = [t] /\ dt_id t = taskId /\
    runs_attempt (dt_id t) attemptId ownerId t = true /\ rr_status (dr_row r) = RunRunning.
Proof.
  intros (t & Hk & Hin & Hp)%keep_one. exists t. unfold keeps_attempt in Hp.
  apply andb_true_iff in Hp as [[Hp _]%andb_true_iff Hs%bool_decide_eq_true].
  pose proof Hp as (Hid & _)%runs_attempt_true. rewrite Hid. by split_and!.
Qed.

Lemma heartbeat_core taskId attemptId ownerId now d lease r r' x :
  core_wf r -> heartbeatAttempt taskId attemptId ownerId now d lease r = (r', Ok x) -> core_wf r'.
Proof.
  intros Hwf H. unfold_operations. committing.
  match goal with Hone : 1 = zlen (keep (keeps_attempt _ _ _ _ _) _) |- _ =>
    apply keeps_attempt_one in Hone as (t & Hk & <- & Hrun & Hs) end.
  eapply core_wf_stays; [exact Hwf|reflexivity|reflexivity|done|done|exact Hk|exact Hrun|..]; try done.
  intros a _. by rewrite Hs, bool_decide_true, andb_true_r.
Qed.
Lemma checkpoint_core taskId attemptId ownerId checkpoint now lease r r' x :
  core_wf r -> checkpointAttempt taskId attemptId ownerId checkpoint now lease r = (r', Ok x) -> core_wf r'.
Proof.
  intros Hwf H. unfold_operations. committing.
  match goal with Hone : 1 = zlen (keep (keeps_attempt _ _ _ _ _) _) |- _ =>
    apply keeps_attempt_one in Hone as (t & Hk & <- & Hrun & Hs) end.
  eapply core_wf_stays; [exact Hwf|reflexivity|reflexivity|done|done|exact Hk|exact Hrun|..]; try done.
  intros a _. by rewrite Hs, bool_decide_true, andb_true_r.
Qed.

(** The task of a running attempt. *)
Lemma running_attempt_task r a :
  tasks_wf r -> a ∈ dr_attempts r -> da_status a = AttemptRunning ->
  exists t, t ∈ dr_tasks r /\ dt_id t = da_task a /\ runs_attempt (dt_id t) (da_id a) (da_owner a) t = true.
Proof.
  intros Hwf Hin Hs. pose proof (wf_attempt_tasks _ Hwf a Hin) as Ht.
  apply list_elem_of_fmap in Ht as (t & Hid & Ht). exists t. split_and!; [done|done|].
  assert (Ha : a ∈ attempts_of (dt_id t) r) by by apply elem_of_attempts_of.
  assert (Hne : ~ ended a) by (intros [?|?]; congruence).
  pose proof (ok_status _ _ (wf_tasks _ Hwf t Ht)) as Hok. unfold status_ok in Hok.
  apply runs_attempt_true. destruct (dt_status t) eqn:Hst.
  2: { destruct Hok as (pre & b & Hl & He & Hb & Hc & Ho & _). rewrite Hl in Ha.
       apply elem_of_app in Ha as [Ha| ->%list_elem_of_singleton]; [|by split_and!].
       rewrite Forall_forall in He. by apply He in Ha. }
  2: { destruct Hok as (pre & b & art & Hl & He & Hb & _). rewrite Hl in Ha.
       apply elem_of_app in Ha as [Ha| ->%list_elem_of_singleton]; [|congruence].
       rewrite Forall_forall in He. by apply He in Ha. }
  all: destruct Hok as [He _]; rewrite Forall_forall in He; by apply He in Ha.
Qed.

Lemma mapped_id {A} (p : A -> bool) l : mapped p id l = l.
Proof. unfold mapped. rewrite <-(list_fmap_id l) at 2. apply list_fmap_ext. intros i x _. by destruct (p x). Qed.
Lemma keep_task r t : tasks_wf r -> t ∈ dr_tasks r -> keep (is_task (dt_id t)) (dr_tasks r) = [t].
Proof.
  intros Hwf Hin. pose proof (wf_ids _ Hwf) as Hnd. induction (dr_tasks r) as [|x l IH]; [by apply not_elem_of_nil in Hin|].
  apply NoDup_cons in Hnd as [Hni Hnd]. simpl. unfold is_task at 1. destruct (String.eqb_spec (dt_id x) (dt_id t)) as [Hx|Hx].
  - assert (x = t) as ->.
    { apply elem_of_cons in Hin as [->|Hin]; [done|]. exfalso. apply Hni. rewrite Hx. by apply list_elem_of_fmap_2. }
    f_equal. apply keep_none. intros y Hy. unfold is_task. apply String.eqb_neq. intros He. apply Hni. rewrite <-He.
    by apply list_elem_of_fmap_2.
  - apply IH; [|done]. apply elem_of_cons in Hin as [->|Hin]; done.
Qed.

Lemma mapped_ext {A} (p q : A -> bool) f l : (forall x, x ∈ l -> p x = q x) -> mapped p f l = mapped q f l.
Proof.
  intros Hpq. apply list_fmap_ext. intros i x Hx. by rewrite Hpq by by eapply list_elem_of_lookup_2.
Qed.

(** Accounting of a running attempt. *)
Lemma core_wf_attempts r r' h t attemptId ownerId :
  core_wf r -> t ∈ dr_tasks r -> runs_attempt (dt_id t) attemptId ownerId t = true ->
  dr_tasks r' = dr_tasks r ->
  dr_attempts r' = mapped (fun a => attempt_of attemptId (dt_id t) ownerId a && attempt_running a) h (dr_attempts r) ->
  dr_dependencies r' = dr_dependencies r -> rr_request (dr_row r') = rr_request (dr_row r) ->
  (forall a, da_id (h a) = da_id a /\ da_task (h a) = da_task a /\ da_number (h a) = da_number a /\
     da_owner (h a) = da_owner a /\ da_status (h a) = da_status a /\ da_leaseExpiresAt (h a) = da_leaseExpiresAt a) ->
  core_wf r'.
Proof.
  intros Hwf Hin Hrun Ht Ha Hd Hreq Hh.
  eapply (core_wf_stays r r' (is_task (dt_id t)) id _ h t); [done| |exact Ha|done|done| |exact Hrun|done| | |].
  - by rewrite mapped_id.
  - apply keep_task; [apply Hwf|done].
  - by intros x; split_and!.
  - intros a. destruct (Hh a) as (?&?&?&?&?&?). by split_and!.
  - intros a Hl. by destruct (Hh a) as (_&_&_&_&_& ->).
Qed.

Lemma running_attempt_found r taskId attemptId ownerId a :
  running_attempt taskId attemptId ownerId r = Some a ->
  a ∈ dr_attempts r /\ da_id a = attemptId /\ da_task a = taskId /\ da_owner a = ownerId /\ da_status a = AttemptRunning.
Proof.
  intros [Hin [(H1 & H2 & H3)%attempt_of_true Hr%attempt_running_true]%andb_true_iff]%find_row_Some. by split_and!.
Qed.

Lemma accounting_core taskId attemptId ownerId usage turns now lease r r' x :
  core_wf r -> recordDagAttemptAccounting taskId attemptId ownerId usage turns now lease r = (r', Ok x) -> core_wf r'.
Proof.
  intros Hwf H. unfold_operations. committing; [done|].
  match goal with Hf : running_attempt _ _ _ _ = Some _ |- _ =>
    apply running_attempt_found in Hf as (Hin & <- & <- & <- & Hs) end.
  destruct (running_attempt_task _ _ (proj1 Hwf) Hin Hs) as (t & Ht & Hid & Hrun).
  eapply core_wf_attempts; [exact Hwf|exact Ht|exact Hrun|done| |done|done|].
  - simpl. by rewrite Hid.
  - by intros a; split_and!.
Qed.

(** Accounting of the run changes nothing else. *)
Definition accounted (r r' : DagRun) : Prop :=
  dr_tasks r' = dr_tasks r /\ dr_attempts r' = dr_attempts r /\ dr_dependencies r' = dr_dependencies r /\
  exists usage turns now, dr_row r' = row_touch now (row_accounting usage turns (dr_row r)).
Lemma row_eta row : row = row_touch (rr_updatedAt row) (row_accounting (rr_usage row) (rr_turns row) row).
Proof. by destruct row. Qed.
Lemma reconcile_Ok now r r' x :
  reconcileDagRunAccountingInTransaction now r = (r', Ok x) ->
  accounted r r' /\ rr_turns (dr_row r') = total_turns (merge_sort attempt_before (dr_attempts r)) /\
  rr_usage (dr_row r') = total_usage (merge_sort attempt_before (dr_attempts r)) /\
  is_safe (total_turns (merge_sort attempt_before (dr_attempts r))) = true.
Proof.
  intros H. unfold reconcileDagRunAccountingInTransaction in H. committing.
  - match goal with He : _ && _ = true |- _ =>
      apply andb_true_iff in He as [He%bool_decide_eq_true He'%Z.eqb_eq] end.
    split_and!; [|done|done|by apply negb_false_iff]. unfold accounted. split_and!; [done|done|done|].
    eexists _, _, _. apply row_eta.
  - split_and!; [|done|done|by apply negb_false_iff]. unfold accounted. split_and!; [done|done|done|].
    by eexists _, _, _.
Qed.
Lemma accounted_core r r' : core_wf r -> accounted r r' -> core_wf r'.
Proof. intros Hwf (Ht & Ha & Hd & u & n & now & Hr). eapply core_wf_ext; [done|done|done|done|]. by rewrite Hr. Qed.
Lemma accounted_tasks_wf r r' : tasks_wf r -> accounted r r' -> tasks_wf r'.
Proof. intros Hwf (Ht & Ha & Hd & u & n & now & Hr). eapply tasks_wf_ext; [done|done|done|done|]. by rewrite Hr. Qed.

Lemma circuit_core taskId attemptId ownerId signal usage turns retry now lease r r' x :
  core_wf r -> openDagProviderCircuit taskId attemptId ownerId signal usage turns retry now lease r = (r', Ok x) ->
  core_wf r'.
Proof.
  intros Hwf H. unfold_operations. committing.
  match goal with Hone : 1 = zlen (keep (keeps_attempt _ _ _ _ _) _) |- _ =>
    apply keeps_attempt_one in Hone as (t & Hk & <- & Hrun & Hs) end.
  match goal with Hr : reconcileDagRunAccountingInTransaction _ _ = _ |- _ => apply reconcile_Ok in Hr as (Hacc & _) end.
  eapply core_wf_ext; [eapply accounted_core; [|exact Hacc]|done|done|done|done].
  eapply core_wf_stays; [exact Hwf|reflexivity|reflexivity|done|done|exact Hk|exact Hrun|done|..]; try done.
Qed.

(** ** Blocking *)

Lemma task_ok_blocked now t l :
  task_ok t l -> dt_status t = TPending ->
  task_ok (task_touch now (task_status TBlocked
             (task_outcome (Some "dependency_failed") (Some "A task dependency did not succeed") t))) l.
Proof.
  intros [Hm Hc Hn Ht Hu Hs] Hp. split; try done. unfold status_ok in *. simpl. rewrite Hp in Hs.
  by destruct Hs as (? & ? & ? & ? & ? & _).
Qed.

Definition keeps_tasks_wf (r r' : DagRun) : Prop := tasks_wf r -> tasks_wf r'.
#[export] Instance keeps_tasks_wf_preorder : PreOrder keeps_tasks_wf.
Proof. split; [by intros r H|]. intros r1 r2 r3 H12 H23 H. auto. Qed.

Lemma block_task_wf now t : travels keeps_tasks_wf (block_task now t).
Proof.
  unfold block_task. travelling idtac.
  - intros r Hwf. eapply (tasks_wf_mapped _ _ r); try done.
    + apply Hwf.
    + apply Hwf.
    + intros x Hin [_ Hp%has_status_true]%andb_true_iff. apply (task_ok_blocked now); [|done].
      by apply (wf_tasks _ Hwf).
    + intros x Hin _. by apply (wf_tasks _ Hwf).
    + intros x Hin [_ Hp%has_status_true]%andb_true_iff. congruence.
    + intros x Hin _ Hc. by apply (wf_started _ Hwf).
  - intros r e Hwf. by eapply tasks_wf_ext.
Qed.

Lemma blocks_dependents_lost t : lost t -> blocks_dependents t = true.
Proof.
  unfold blocks_dependents, has_status. intros [-> | [-> | ->]]; simpl; by rewrite ?orb_true_r.
Qed.
Lemma to_block_nil r : to_block r = [] -> frontier_ok r.
Proof.
  intros Hnil t p Hin Hs Hp.
  assert (Hn : ~ lost p).
  { intros Hl%blocks_dependents_lost. assert (Hb : t ∈ to_block r); [|rewrite Hnil in Hb; by apply not_elem_of_nil in Hb].
    apply elem_of_keep. split; [done|]. apply andb_true_iff. split; [by apply has_status_true|].
    apply existsb_exists. exists p. split; [by apply list_elem_of_In|done]. }
  split_and!; intros H; apply Hn; [by left|right; by left|right; by right].
Qed.
Lemma block_rounds_nil n now r r' : block_rounds n now r = (r', Ok tt) -> to_block r' = [].
Proof.
  revert r. induction n as [|n IH]; intros r H; [done|]. cbn [block_rounds] in H.
  apply Tx_bind_Ok in H as (? & x & [-> ->]%get_Ok & H). destruct (to_block r) eqn:Hb.
  - by apply M_ret_Ok in H as [-> _].
  - apply Tx_bind_Ok in H as (r1 & [] & _ & H). by apply IH in H.
Qed.
Lemma block_core now r r' : tasks_wf r -> blockDagDescendants now r = (r', Ok tt) -> core_wf r'.
Proof.
  intros Hwf H. unfold blockDagDescendants in H. apply Tx_bind_Ok in H as (? & x & [-> ->]%get_Ok & H).
  split; [|by eapply to_block_nil, block_rounds_nil].
  assert (Ht : travels keeps_tasks_wf (block_rounds (S (length (dr_tasks r))) now)).
  { apply travels_block_rounds; [apply _|apply block_task_wf]. }
  specialize (Ht r Hwf). by rewrite H in Ht.
Qed.

(** ** Completing *)

(** How the plan of a completion fits its task. *)
Definition plan_ok (row : DagTask) (attemptId ownerId : string) (availabilityRetry : bool) (p : CompletionPlan) : Prop :=
  match cp_status p with
  | TSucceeded =>
      availabilityRetry = false /\ cp_currentAttempt p = Some attemptId /\
      exists artifact, cp_artifact p = Some artifact /\ artifact_matches row artifact
  | TPending =>
      cp_currentAttempt p = None /\ cp_owner p = None /\ cp_artifact p = None /\
      if availabilityRetry
      then isControllerResumableCheckpoint (cp_checkpoint p) (dt_role row) = true
      else dt_attemptCount row < dt_maxAttempts row
  | TFailed | TCancelled => availabilityRetry = false /\ cp_artifact p = None
  | TRunning | TBlocked => False
  end.

Lemma succeed_plan_ok row attemptId ownerId artifact r r' p :
  succeed_plan row attemptId ownerId artifact r = (r', Ok p) -> r' = r /\ plan_ok row attemptId ownerId false p.
Proof.
  unfold succeed_plan, check_artifact. intros H. committing. split; [done|]. unfold plan_ok. simpl.
  split_and!; [done|done|]. exists artifact. split; [done|].
  match goal with H1 : negb match prop artifact "taskId" with _ => _ end = false,
                  H2 : negb match prop artifact "contractHash" with _ => _ end = false |- _ =>
    apply negb_false_iff in H1, H2; revert H1 H2 end.
  unfold artifact_matches. repeat case_match; intros; try done.
  repeat match goal with H : String.eqb _ _ = true |- _ => apply String.eqb_eq in H as -> end.
  split; congruence.
Qed.

Lemma resumable_availability usage turns role :
  role <> ExternalWriter -> isControllerResumableCheckpoint (Some (availability_checkpoint usage turns)) role = true.
Proof.
  intros Hr. unfold isControllerResumableCheckpoint, isAvailabilityRetryCheckpoint.
  destruct (checkpointRecord _) as [props|] eqn:Hc; vm_compute in Hc; [|done]. injection Hc as <-.
  by rewrite bool_decide_false.
Qed.

Lemma fail_plan_ok runId now row attemptId ownerId reason error usage turns d r r' p :
  fail_plan runId now row attemptId ownerId reason error usage turns d r = (r', Ok p) ->
  r' = r /\ plan_ok row attemptId ownerId (is_availability_retry row d) p.
Proof.
  unfold fail_plan, retry_at. intros H. cbv zeta in H.
  destruct (is_availability_retry row d) eqn:Ha; simpl in H.
  - committing; (split; [done|]); unfold plan_ok; simpl; split_and!; try done;
      apply resumable_availability; unfold is_availability_retry in Ha;
      apply andb_true_iff in Ha as [[Ha _]%andb_true_iff _]; by apply negb_true_iff, bool_decide_eq_false in Ha.
  - committing; (split; [done|]); unfold plan_ok; simpl;
      try (by destruct (String.eqb reason "cancelled")); split_and!; try done;
      match goal with He : _ && _ = true |- _ => apply andb_true_iff in He as [_ He%Z.ltb_lt] end; done.
Qed.

(** The state of the rows after the updates of a completion. *)
Lemma apply_completion_Ok now t attemptId ownerId p avail usage turns r r' :
  apply_completion now t attemptId ownerId p avail usage turns r = (r', Ok tt) ->
  exists t0, keep (keeps_attempt r (dt_id t) attemptId ownerId now) (dr_tasks r) = [t0] /\ dt_id t0 = dt_id t /\
    runs_attempt (dt_id t0) attemptId ownerId t0 = true /\ rr_status (dr_row r) = RunRunning /\
    dr_tasks r' = mapped (keeps_attempt r (dt_id t) attemptId ownerId now)
      (task_touch now ∘ task_status (cp_status p) ∘ task_assign (cp_currentAttempt p) (cp_owner p) None
       ∘ task_checkpoint (cp_checkpoint p) ∘ task_retry (cp_retryNotBefore p)
       ∘ task_outcome (cp_terminalReason p) (if bool_decide (cp_status p = TPending) then None else cp_error p)
       ∘ task_artifact (cp_artifact p)
       ∘ task_accounting (if avail then dt_usage t else addUsageValues (dt_usage t) usage)
                         (if avail then dt_turns t else dt_turns t + turns)) (dr_tasks r) /\
    dr_attempts r' = mapped (fun a => attempt_of attemptId (dt_id t) ownerId a && attempt_running a)
      (attempt_touch now
        ∘ attempt_status (if avail then AttemptExpired
                          else if bool_decide (cp_status p = TSucceeded) then AttemptSucceeded else AttemptFailed)
        ∘ attempt_checkpoint (cp_checkpoint p)
        ∘ attempt_outcome (if avail then None else Some (cp_attemptReason p)) (if avail then None else cp_error p)
        ∘ attempt_accounting usage turns) (dr_attempts r) /\
    dr_dependencies r' = dr_dependencies r /\
    exists u n m, dr_row r' = row_touch now (row_touch m (row_accounting u n (dr_row r))) /\
      u = total_usage (merge_sort attempt_before (dr_attempts r')) /\
      n = total_turns (merge_sort attempt_before (dr_attempts r')).
Proof.
  intros H. unfold apply_completion in H. cbv zeta in H.
  apply Tx_bind_Ok in H as (? & x & [-> ->]%get_Ok & H).
  apply Tx_bind_Ok in H as (r1 & [] & H1 & H). apply Tx_bind_Ok in H as (r2 & [] & H2 & H).
  apply Tx_bind_Ok in H as (r3 & [u n] & H3 & H). apply Tx_bind_Ok in H as (r4 & [] & H4 & H).
  apply expect_one_Ok, update_tasks_Ok in H1 as [Hone ->].
  apply keeps_attempt_one in Hone as (t0 & Hk & Hid & Hrun & Hs).
  apply expect_one_Ok, update_attempts_Ok in H2 as [_ ->].
  apply reconcile_Ok in H3 as ((Ht & Ha & Hd & u' & n' & m & Hrow) & Hn & Hu & _).
  apply expect_one_Ok, update_run_one in H4 as [_ ->].
  assert (Hr' : dr_tasks r' = dr_tasks r3 /\ dr_attempts r' = dr_attempts r3 /\
                dr_dependencies r' = dr_dependencies r3 /\ dr_row r' = row_touch now (dr_row r3)).
  { destruct (bool_decide (cp_status p = TPending)); by apply insertDagEvent_Ok in H as ->. }
  destruct Hr' as (Ht' & Ha' & Hd' & Hr'). exists t0.
  assert (Hatt : dr_attempts r' = mapped (fun a => attempt_of attemptId (dt_id t) ownerId a && attempt_running a)
      (attempt_touch now
        ∘ attempt_status (if avail then AttemptExpired
                          else if bool_decide (cp_status p = TSucceeded) then AttemptSucceeded else AttemptFailed)
        ∘ attempt_checkpoint (cp_checkpoint p)
        ∘ attempt_outcome (if avail then None else Some (cp_attemptReason p)) (if avail then None else cp_error p)
        ∘ attempt_accounting usage turns) (dr_attempts r)).
  { rewrite Ha', Ha. apply mapped_ext. intros a _. by rewrite Hs, bool_decide_true, andb_true_r. }
  rewrite Ht', Hd', Hr', Hrow, Ht, Hd.
  split_and!; [done|done|by rewrite Hid in *|done|done|exact Hatt|done|].
  eexists u', n', m. split_and!; [done| |].
  - rewrite Hrow in Hu. simpl in Hu. by rewrite Hu, Ha', Ha.
  - rewrite Hrow in Hn. simpl in Hn. by rewrite Hn, Ha', Ha.
Qed.

Lemma completed_task_ok (t t' : DagTask) pre a a' attemptId ownerId avail p :
  task_ok t (pre ++ [a]) -> Forall ended pre -> da_id a = attemptId ->
  dt_turns t = total_turns pre -> dt_usage t = total_usage pre ->
  plan_ok t attemptId ownerId avail p ->
  dt_contract t' = dt_contract t -> dt_maxAttempts t' = dt_maxAttempts t -> dt_attemptCount t' = dt_attemptCount t ->
  dt_status t' = cp_status p -> dt_currentAttempt t' = cp_currentAttempt p -> dt_owner t' = cp_owner p ->
  dt_leaseExpiresAt t' = None -> dt_checkpoint t' = cp_checkpoint p -> dt_artifact t' = cp_artifact p ->
  dt_turns t' = (if avail then dt_turns t else dt_turns t + da_turns a') ->
  dt_usage t' = (if avail then dt_usage t else addUsageValues (dt_usage t) (da_usage a')) ->
  da_id a' = da_id a -> da_number a' = da_number a ->
  da_status a' = (if avail then AttemptExpired
                  else if bool_decide (cp_status p = TSucceeded) then AttemptSucceeded else AttemptFailed) ->
  task_ok t' (pre ++ [a']).
Proof.
  intros Hok He Hid Ht Hu Hp Hc Hm Hn Hs Hcu Ho Hl Hck Hart Ht' Hu' Hid' Hnum Hst.
  destruct (task_ok_earlier _ _ _ Hok) as (Hna & H1 & Hlt).
  assert (Hres : avail = true -> cp_status p = TPending /\ resumable t' = true).
  { intros ->. unfold resumable. rewrite Hck. unfold dt_role. rewrite Hc. unfold plan_ok in Hp.
    destruct (cp_status p); try done; try (by destruct Hp).
    by destruct Hp as (_ & _ & _ & Hp). }
  assert (Hf : folded t' a' = negb avail).
  { unfold folded. rewrite Hst. destruct avail.
    - destruct (Hres eq_refl) as [_ ->]. rewrite Hnum, Hna, Hn, Z.ltb_irrefl. done.
    - by case_bool_decide. }
  apply (task_ok_last t t' pre a a'); try done.
  - rewrite Hf, Ht', Ht. destruct avail; simpl; lia.
  - rewrite Hf, Hu', Hu. by destruct avail.
  - assert (Hend : cp_status p <> TSucceeded -> Forall ended (pre ++ [a'])).
    { intros Hne. apply Forall_app. split; [done|]. apply Forall_singleton. unfold ended. rewrite Hst.
      destruct avail; [by right|]. rewrite bool_decide_false by done. by left. }
    unfold status_ok, plan_ok in *. rewrite Hs. destruct (cp_status p) eqn:Hps; try done.
    + destruct Hp as (Hp1 & Hp2 & Hp3 & Hp). rewrite Hcu, Ho, Hl, Hart, Hn, Hm. split_and!; try done.
      * by apply Hend.
      * destruct avail; [right; by apply Hres|by left].
    + destruct Hp as (Hav & Hp1 & art & Hp2 & Hm1 & Hm2). subst avail. exists pre, a', art.
      rewrite Hid', Hid, Hcu, Hart. split_and!; try done. split; [|by rewrite Hc].
      unfold dt_id. by rewrite Hc.
    + destruct Hp as [_ Hp]. rewrite Hart. split_and!; try done. by apply Hend.
    + destruct Hp as [_ Hp]. rewrite Hart. split_and!; try done. by apply Hend.
Qed.

Lemma completion_core now t attemptId ownerId p avail usage turns r r' :
  core_wf r -> t ∈ dr_tasks r -> plan_ok t attemptId ownerId avail p ->
  apply_completion now t attemptId ownerId p avail usage turns r = (r', Ok tt) ->
  tasks_wf r' /\ (cp_status p <> TFailed -> cp_status p <> TCancelled -> frontier_ok r').
Proof.
  intros [Hwf Hfr] Hin Hp H.
  apply apply_completion_Ok in H as (t0 & Hk & Hid & Hrun & Hs & Ht & Ha & Hd & u & n & m & Hrow & _).
  assert (t0 = t) as ->.
  { pose proof (keep_singleton_in _ _ _ Hk) as [Hin0 _]. eapply (fmap_NoDup_inj dt_id); [apply Hwf|done|done|done]. }
  assert (Hcore : tasks_wf r').
  { eapply (tasks_wf_running r r'); [done|exact Ht|exact Ha|done|by rewrite Hrow|exact Hk|exact Hrun|done|..]; try done.
    intros pre a Hl He Hsa Hida Hoa Hxa Hart Htu Hus Hok. by eapply (completed_task_ok t _ pre a). }
  split; [done|]. intros Hnf Hnc. eapply (frontier_mapped r); [done|exact Ht|done|done|..].
  - intros x Hx Hpx _. right. rewrite (keep_singleton_eq _ _ _ _ Hk Hx Hpx).
    apply (wf_started _ Hwf); [done|].
    destruct (running_attempt_spec _ _ _ _ Hwf Hin Hrun) as (_ & _ & _ & _ & _ & _ & _ & _ & _ & H1 & _). lia.
  - intros x Hx Hpx Hl. exfalso. unfold lost in Hl. simpl in Hl. unfold plan_ok in Hp.
    destruct Hl as [Hl|[Hl|Hl]]; [done|done|]. by rewrite Hl in Hp.
  - intros x Hx Hpx Hsx. rewrite (keep_singleton_eq _ _ _ _ Hk Hx Hpx) in Hsx.
    apply runs_attempt_true in Hrun as (_ & Hrun & _). congruence.
Qed.

Lemma negative_outcome_Ok c r r' b : negative_outcome c r = (r', Ok b) -> r' = r.
Proof. unfold negative_outcome. intros H. by committing. Qed.
Lemma completion_accounting_Ok c prior r r' x :
  completion_accounting c prior r = (r', Ok x) ->
  r' = r /\ x.1 = cloneUsage (default (da_usage prior) (co_usage c)) /\ da_turns prior <= x.2 /\
  usageAtLeast x.1 (da_usage prior) = true.
Proof.
  unfold completion_accounting. intros H. committing; simpl;
    repeat match goal with H : (_ <? _) = false |- _ => apply Z.ltb_ge in H | H : negb _ = false |- _ => apply negb_false_iff in H end;
    by split_and!.
Qed.

Lemma complete_core runId taskId attemptId ownerId c now lease r r' :
  core_wf r -> completeDagTask runId taskId attemptId ownerId c now lease r = (r', Ok tt) -> core_wf r'.
Proof.
  intros Hwf H. unfold_operations. apply Tx_bind_Ok in H as (? & t0 & [-> Hnow]%safe_or_Ok & H).
  apply (proj1 (transaction_Ok _ _ _ _)) in H.
  apply Tx_bind_Ok in H as (? & [] & [_ ->]%throw_if_Ok & H).
  apply Tx_bind_Ok in H as (? & x & [-> ->]%get_Ok & H).
  destruct (find_row (is_task taskId) (dr_tasks r)) as [row|] eqn:Hrow; [|done].
  apply find_row_Some in Hrow as [Hin _].
  apply Tx_bind_Ok in H as (? & [] & (-> & _)%assert_lease_Ok & H).
  destruct (find_row _ (dr_attempts r)) as [prior|]; [|done].
  destruct (has_status TSucceeded row); [by apply throw_if_Ok in H as [_ ->]|].
  destruct (negb (is_success c) && _); [by apply M_ret_Ok in H as [-> _]|].
  apply Tx_bind_Ok in H as (? & [] & [_ ->]%throw_if_Ok & H).
  apply Tx_bind_Ok in H as (? & [usage turns] & (-> & _)%completion_accounting_Ok & H).
  apply Tx_bind_Ok in H as (r0 & p & Hp & H).
  assert (Hplan : r0 = r /\ plan_ok row attemptId ownerId (completion_is_availability row c) p).
  { destruct c; [by apply succeed_plan_ok in Hp|by apply fail_plan_ok in Hp]. }
  destruct Hplan as [-> Hplan]. apply Tx_bind_Ok in H as (r1 & [] & Happ & H).
  destruct (completion_core _ _ _ _ _ _ _ _ _ _ Hwf Hin Hplan Happ) as [Hwf1 Hfr1].
  destruct (bool_decide _) eqn:Hb; [by eapply block_core|].
  apply bool_decide_eq_false in Hb. apply Tx_bind_Ok in H as (? & b & ->%negative_outcome_Ok & H).
  destruct b; [by eapply block_core|]. apply M_ret_Ok in H as [-> _]. split; [done|]. naive_solver.
Qed.

(** ** Claiming *)

Lemma numbered_true id n s a : numbered id n s a = true <-> da_task a = id /\ da_number a = n /\ da_status a = s.
Proof. unfold numbered. rewrite !andb_true_iff, String.eqb_eq, Z.eqb_eq, bool_decide_eq_true. naive_solver. Qed.

(** A waiting task starts a new attempt. *)
Lemma task_ok_started t t' l new :
  task_ok t l -> dt_status t = TPending -> resumable t && (0 <? dt_attemptCount t) = false ->
  dt_attemptCount t + 1 <= dt_maxAttempts t ->
  dt_maxAttempts t' = dt_maxAttempts t -> dt_attemptCount t' = dt_attemptCount t + 1 -> dt_status t' = TRunning ->
  dt_turns t' = dt_turns t -> dt_usage t' = dt_usage t -> dt_artifact t' = dt_artifact t ->
  dt_currentAttempt t' = Some (da_id new) -> dt_owner t' = Some (da_owner new) ->
  dt_leaseExpiresAt t' = Some (da_leaseExpiresAt new) -> da_status new = AttemptRunning ->
  da_number new = dt_attemptCount t + 1 -> task_ok t' (l ++ [new]).
Proof.
  intros [Hm Hc Hn Ht Hu Hs] Hp Hres Hle Hm' Hc' Hs' Ht' Hu' Ha' Hcu Ho Hl Hnew Hnum.
  unfold status_ok in Hs. rewrite Hp in Hs. destruct Hs as (He & _ & _ & _ & Hart & _).
  assert (Hlt : Forall (fun x => da_number x < dt_attemptCount t') l).
  { apply Forall_forall. intros x Hx. apply (list_elem_of_fmap_2 da_number) in Hx. rewrite Hn in Hx.
    apply elem_of_numbers in Hx. lia. }
  assert (Hall : keep (folded t) l = l).
  { apply keep_all. intros x Hx. pose proof He as He'. rewrite Forall_forall in He'. unfold folded.
    destruct (He' x Hx) as [-> | ->]; [done|]. apply andb_false_iff in Hres as [-> |Hz]; [by rewrite orb_true_r|].
    apply Z.ltb_ge in Hz. assert (dt_attemptCount t = 0) as Hz0 by lia. rewrite Hz0 in Hn.
    apply fmap_nil_inv in Hn as ->. by apply not_elem_of_nil in Hx. }
  assert (Hfold : keep (folded t') (l ++ [new]) = l).
  { rewrite keep_folded by done. unfold folded. by rewrite Hnew, app_nil_r. }
  split.
  - by rewrite Hm'.
  - rewrite Hm', Hc'. lia.
  - rewrite fmap_app, Hn, Hc', numbers_S by lia. simpl. by rewrite Hnum.
  - by rewrite Hfold, Ht', Ht, Hall.
  - by rewrite Hfold, Hu', Hu, Hall.
  - unfold status_ok. rewrite Hs'. exists l, new. rewrite Ha', Hart. by split_and!.
Qed.

(** A waiting task takes its expired attempt up again. *)
Lemma task_ok_resumed t t' l a (h : DagAttempt -> DagAttempt) q :
  task_ok t l -> dt_status t = TPending -> resumable t && (0 <? dt_attemptCount t) = true ->
  a ∈ l -> da_number a = dt_attemptCount t -> da_status a = AttemptExpired ->
  (forall x, x ∈ l -> q x = bool_decide (da_number x = dt_attemptCount t) && q x) -> q a = true ->
  dt_maxAttempts t' = dt_maxAttempts t -> dt_attemptCount t' = dt_attemptCount t -> dt_status t' = TRunning ->
  dt_turns t' = dt_turns t -> dt_usage t' = dt_usage t -> dt_artifact t' = dt_artifact t ->
  dt_currentAttempt t' = Some (da_id (h a)) -> dt_owner t' = Some (da_owner (h a)) ->
  dt_leaseExpiresAt t' = Some (da_leaseExpiresAt (h a)) -> da_status (h a) = AttemptRunning ->
  da_number (h a) = da_number a -> task_ok t' (mapped q h l).
Proof.
  intros Hok Hp [Hr Hpos%Z.ltb_lt]%andb_true_iff Hin Hnum Hst Hq Hqa Hm' Hc' Hs' Ht' Hu' Ha' Hcu Ho Hl Hnew Hnum'.
  pose proof (ok_numbers _ _ Hok) as Hn.
  destruct l as [|b pre _] using rev_ind; [by apply not_elem_of_nil in Hin|].
  destruct (task_ok_earlier _ _ _ Hok) as (Hb & H1 & Hlt).
  pose proof (ok_status _ _ Hok) as Hs. unfold status_ok in Hs. rewrite Hp in Hs.
  destruct Hs as (He & _ & _ & _ & Hart & _). apply Forall_app in He as [He _].
  assert (b = a) as ->.
  { apply elem_of_app in Hin as [Hin| ->%list_elem_of_singleton]; [|done].
    rewrite Forall_forall in Hlt. specialize (Hlt a Hin). lia. }
  assert (Hf : folded t a = false).
  { unfold folded. by rewrite Hst, Hb, Z.ltb_irrefl, Hr. }
  pose proof (ok_turns _ _ Hok) as Ht. pose proof (ok_usage _ _ Hok) as Hu.
  rewrite keep_folded, Hf, app_nil_r in Ht, Hu by done.
  rewrite mapped_last; [|intros x Hx|done].
  - assert (Hf' : folded t' (h a) = false) by (unfold folded; by rewrite Hnew).
    apply (task_ok_last t t' pre a (h a)); try done.
    + rewrite Hf', Ht', Ht. lia.
    + by rewrite Hf', Hu', Hu.
    + unfold status_ok. rewrite Hs'. exists pre, (h a). rewrite Ha', Hart. by split_and!.
  - rewrite Hq by (apply elem_of_app; by left). rewrite Forall_forall in Hlt. specialize (Hlt x Hx).
    by rewrite bool_decide_false by lia.
Qed.

(** What a claim does to the rows. *)
Lemma claim_task_Ok uuid foreign ownerId now expires row r r' c :
  claim_task uuid foreign ownerId now expires row r = (r', Ok c) ->
  let resumed := resumable row && (0 <? dt_attemptCount row) in
  let p t := is_task (dt_id row) t && has_status TPending t && (dt_attemptCount t =? dt_attemptCount row) && eligible now t in
  let n := (if resumed then dt_attemptCount row else dt_attemptCount row + 1) in
  exists t, keep p (dr_tasks r) = [t] /\ n <= dt_maxAttempts row /\
    rr_status (dr_row r) = RunRunning /\ rr_pausedAt (dr_row r) = None /\
    dr_tasks r' = mapped p (task_touch now ∘ task_status TRunning ∘ task_count n
        ∘ task_assign (Some (cl_attemptId c)) (Some ownerId) (Some expires) ∘ task_retry None ∘ task_outcome None None)
      (dr_tasks r) /\
    dr_dependencies r' = dr_dependencies r /\ dr_row r' = dr_row r /\
    cl_taskId c = dt_id row /\ cl_attemptNumber c = n /\
    if resumed then
      exists a, a ∈ dr_attempts r /\ cl_attemptId c = da_id a /\ numbered (dt_id row) n AttemptExpired a = true /\
        dr_attempts r' = mapped (fun x => String.eqb (da_id x) (da_id a) && numbered (dt_id row) n AttemptExpired x)
          (attempt_touch now ∘ attempt_status AttemptRunning ∘ attempt_assign ownerId expires ∘ attempt_outcome None None)
          (dr_attempts r)
    else
      cl_attemptId c = uuid (dt_id row) /\ foreign (uuid (dt_id row)) = false /\
      (uuid (dt_id row) ∉ da_id <$> dr_attempts r) /\
      dr_attempts r' = dr_attempts r ++ [new_attempt now expires (uuid (dt_id row)) ownerId n row].
Proof.
  intros H. unfold claim_task in H. cbv zeta in H.
  set (resumed := resumable row && (0 <? dt_attemptCount row)) in *. intros resumed' p n.
  apply Tx_bind_Ok in H as (? & x & [-> ->]%get_Ok & H).
  apply Tx_bind_Ok in H as (? & [] & [Hprior ->]%throw_if_Ok & H).
  apply Tx_bind_Ok in H as (? & [] & [Hmax%Z.ltb_ge ->]%throw_if_Ok & H).
  apply Tx_bind_Ok in H as (r1 & [] & [Hone ->]%expect_one_Ok%update_tasks_Ok & H).
  apply Tx_bind_Ok in H as (r2 & [] & Hatt & H). apply Tx_bind_Ok in H as (r3 & [] & ->%insertDagEvent_Ok & H).
  apply M_ret_Ok in H as [-> ->]. simpl.
  pose proof (keep_one _ _ Hone) as (t & Hk & Hin & Hp).
  apply andb_true_iff in Hp as [Hp [Hrun%bool_decide_eq_true Hpaused%bool_decide_eq_true]%andb_true_iff].
  assert (Heq : forall y, y ∈ dr_tasks r -> is_task (dt_id row) y && has_status TPending y
      && (dt_attemptCount y =? dt_attemptCount row) && eligible now y
      && (bool_decide (rr_status (dr_row r) = RunRunning) && bool_decide (rr_pausedAt (dr_row r) = None)) = p y).
  { intros y _. unfold p. by rewrite !bool_decide_true, andb_true_r. }
  exists t. split; [rewrite <-Hk; symmetry; apply keep_ext; exact Heq|].
  split; [done|]. split; [done|]. split; [done|].
  assert (Hrest : dr_tasks r2 = dr_tasks (with_tasks (mapped (fun y => is_task (dt_id row) y && has_status TPending y
      && (dt_attemptCount y =? dt_attemptCount row) && eligible now y
      && (bool_decide (rr_status (dr_row r) = RunRunning) && bool_decide (rr_pausedAt (dr_row r) = None)))
      (task_touch now ∘ task_status TRunning ∘ task_count n
        ∘ task_assign (Some match (if resumed then find_row (numbered (dt_id row) (dt_attemptCount row) AttemptExpired)
              (dr_attempts r) else None) with Some a => da_id a | None => uuid (dt_id row) end)
          (Some ownerId) (Some expires) ∘ task_retry None ∘ task_outcome None None) (dr_tasks r)) r) /\
    dr_dependencies r2 = dr_dependencies r /\ dr_row r2 = dr_row r).
  { destruct resumed.
    - apply expect_one_Ok, update_attempts_Ok in Hatt as [_ ->]. done.
    - unfold insert_attempt in Hatt. by committing. }
  destruct Hrest as (Hr1 & Hr2 & Hr3). rewrite Hr1, Hr2, Hr3. simpl.
  split; [apply mapped_ext; exact Heq|]. do 4 (split; [done|]).
  unfold resumed'. fold resumed. destruct resumed.
  - destruct (find_row _ _) as [a|] eqn:Hf; [|done]. apply find_row_Some in Hf as [Ha Hnum].
    exists a. apply expect_one_Ok, update_attempts_Ok in Hatt as [_ ->]. by split_and!.
  - unfold insert_attempt in Hatt. apply Tx_bind_Ok in Hatt as (? & y & [-> ->]%get_Ok & Hatt).
    apply Tx_bind_Ok in Hatt as (? & [] & [Hx ->]%throw_if_Ok & ->%modify_Ok).
    simpl in Hx. apply orb_false_iff in Hx as [Hfor Hex].
    split_and!; try done. intros (a & Hid & Ha)%list_elem_of_fmap.
    apply not_true_iff_false in Hex. apply Hex.
    apply existsb_exists. exists a. split; [by apply list_elem_of_In|]. by rewrite <-Hid, String.eqb_refl.
Qed.

Lemma attempts_of_app id l a r :
  dr_attempts r = l ++ [a] -> attempts_of id r = keep (fun x => String.eqb (da_task x) id) l ++ (if String.eqb (da_task a) id then [a] else []).
Proof. intros Ha. unfold attempts_of. by rewrite Ha, keep_app. Qed.

Lemma claim_task_core uuid foreign ownerId now expires row r r' c :
  core_wf r -> row ∈ dr_tasks r -> prerequisites_done r row ->
  claim_task uuid foreign ownerId now expires row r = (r', Ok c) -> core_wf r'.
Proof.
  intros [Hwf Hfr] Hin Hdone H. apply claim_task_Ok in H. cbv zeta in H.
  destruct H as (t & Hk & Hmax & Hrun & Hpaused & Ht & Hd & Hrow & _ & _ & Hatt).
  pose proof (keep_singleton_in _ _ _ Hk) as [Htin Hp].
  apply andb_true_iff in Hp as [[[Hid%is_task_true Hpend%has_status_true]%andb_true_iff _]%andb_true_iff _].
  assert (t = row) as -> by (eapply (fmap_NoDup_inj dt_id); [apply Hwf|done|done|done]).
  assert (Htask : tasks_wf r').
  { destruct (resumable row && (0 <? dt_attemptCount row)) eqn:Hres.
    - destruct Hatt as (a & Ha & Hca & Hnum & Ha'). pose proof Hnum as (Hat & Han & Has)%numbered_true.
      eapply (tasks_wf_one r r'); [done|exact Ht|exact Ha'|done|by rewrite Hrow|exact Hk| |done|done|done|congruence|done|].
      { intros x _ [_ (Hx & _)%numbered_true]%andb_true_iff. done. }
      eapply (task_ok_resumed row _ (attempts_of (dt_id row) r) a); try done.
      + by apply (wf_tasks _ Hwf).
      + by apply elem_of_attempts_of.
      + intros x _. destruct (_ && numbered _ _ _ x) eqn:E; [|by rewrite andb_false_r].
        apply andb_true_iff in E as [_ (_ & E & _)%numbered_true]. by rewrite bool_decide_true.
      + by rewrite String.eqb_refl, Hnum.
      + simpl. by rewrite Hca.
    - destruct Hatt as (Hca & Hfor & Hfresh & Ha').
      eapply (tasks_wf_mapped _ _ r r'); [done|exact Ht|done|by rewrite Hrow| | |done|..].
      + rewrite Ha', fmap_app. apply NoDup_app. split_and!; [apply Hwf| |apply NoDup_singleton].
        intros x Hx ->%list_elem_of_singleton. done.
      + intros a Hin'. rewrite Ha' in Hin'.
        apply elem_of_app in Hin' as [Hin'| ->%list_elem_of_singleton]; [by apply (wf_attempt_tasks _ Hwf)|].
        by apply (list_elem_of_fmap_2 dt_id).
      + intros x Hx Hpx. rewrite (keep_singleton_eq _ _ _ _ Hk Hx Hpx).
        rewrite (attempts_of_app _ _ _ _ Ha'). simpl. rewrite String.eqb_refl.
        apply (task_ok_started row); try done; [by apply (wf_tasks _ Hwf)|]. simpl. by rewrite Hca.
      + intros x Hx Hpx. rewrite (attempts_of_app _ _ _ _ Ha'). simpl.
        destruct (String.eqb_spec (dt_id row) (dt_id x)) as [He|He]; [|rewrite app_nil_r; by apply (wf_tasks _ Hwf)].
        exfalso. assert (x = row) as -> by (eapply (fmap_NoDup_inj dt_id); [apply Hwf|done|done|done]).
        pose proof (keep_singleton_in _ _ _ Hk) as [_ Hp]. congruence.
      + intros x Hx Hpx. rewrite (keep_singleton_eq _ _ _ _ Hk Hx Hpx). congruence.
      + intros x Hx Hpx _. by rewrite (keep_singleton_eq _ _ _ _ Hk Hx Hpx). }
  split; [done|]. eapply (frontier_mapped r); [done|exact Ht|done|done|..].
  - intros x Hx Hpx Hs. simpl in Hs. done.
  - intros x Hx Hpx [Hs|[Hs|Hs]]; done.
  - intros x Hx Hpx Hs. rewrite (keep_singleton_eq _ _ _ _ Hk Hx Hpx) in Hs. congruence.
Qed.

(** A claim leaves the other tasks, and what their prerequisites are. *)
Lemma claim_task_others uuid foreign ownerId now expires row r r' c x :
  tasks_wf r -> row ∈ dr_tasks r -> claim_task uuid foreign ownerId now expires row r = (r', Ok c) ->
  x ∈ dr_tasks r -> dt_id x <> dt_id row -> x ∈ dr_tasks r' /\ (prerequisites_done r x -> prerequisites_done r' x).
Proof.
  intros Hwf Hin H Hx Hne. apply claim_task_Ok in H. cbv zeta in H.
  destruct H as (t & Hk & _ & _ & _ & Ht & Hd & _).
  pose proof (keep_singleton_in _ _ _ Hk) as [Htin Hp].
  apply andb_true_iff in Hp as [[[Hid%is_task_true Hpend%has_status_true]%andb_true_iff _]%andb_true_iff _].
  split.
  - rewrite Ht. apply elem_of_mapped. exists x. split; [done|].
    destruct (is_task (dt_id row) x) eqn:E; [by apply is_task_true in E|done].
  - intros Hdone y Hy. eapply (prerequisites_mapped _ _ r r') in Ht as Hpre; [rewrite Hpre in Hy|done|done].
    apply elem_of_mapped in Hy as (z & Hz & ->). specialize (Hdone z Hz).
    destruct (_ && eligible now z) eqn:E; [|done].
    apply andb_true_iff in E as [[[_ E%has_status_true]%andb_true_iff _]%andb_true_iff _]. congruence.
Qed.

Lemma mapM_Ok_ind {A B} (I : list A -> DagRun -> Prop) (f : A -> Tx B) :
  (forall x rest r r' y, I (x :: rest) r -> f x r = (r', Ok y) -> I rest r') ->
  forall l r r' ys, I l r -> mapM f l r = (r', Ok ys) -> I [] r'.
Proof.
  intros Hstep l. induction l as [|x l IH]; intros r r' ys HI H; cbn [mapM] in H.
  - by apply M_ret_Ok in H as [-> _].
  - apply Tx_bind_Ok in H as (r1 & y & H1 & H). apply Tx_bind_Ok in H as (r2 & ys' & H2 & H).
    apply M_ret_Ok in H as [-> _]. by eapply IH; [eapply Hstep|].
Qed.
Lemma forM_Ok_ind {A} (I : list A -> DagRun -> Prop) (f : A -> Tx unit) :
  (forall x rest r r', I (x :: rest) r -> f x r = (r', Ok tt) -> I rest r') ->
  forall l r r', I l r -> forM_ l f r = (r', Ok tt) -> I [] r'.
Proof.
  intros Hstep l. induction l as [|x l IH]; intros r r' HI H; cbn [forM_] in H.
  - by apply M_ret_Ok in H as [-> _].
  - apply Tx_bind_Ok in H as (r1 & [] & H1 & H). by eapply IH; [eapply Hstep|].
Qed.

(** The rows left to process are rows of distinct tasks. *)
Definition rows_left (rows : list DagTask) (r : DagRun) : Prop :=
  NoDup (dt_id <$> rows) /\ forall x, x ∈ rows -> x ∈ dr_tasks r.
Lemma rows_left_step row rows r r' :
  rows_left (row :: rows) r -> (forall x, x ∈ dr_tasks r -> dt_id x <> dt_id row -> x ∈ dr_tasks r') ->
  rows_left rows r' /\ row ∈ dr_tasks r /\ forall x, x ∈ rows -> dt_id x <> dt_id row /\ x ∈ dr_tasks r.
Proof.
  intros [Hnd Hin] Hstep. rewrite fmap_cons in Hnd. apply NoDup_cons in Hnd as [Hni Hnd].
  assert (Hrest : forall x, x ∈ rows -> dt_id x <> dt_id row /\ x ∈ dr_tasks r).
  { intros x Hx. split; [|apply Hin; by right]. intros He. apply Hni. rewrite <-He. by apply list_elem_of_fmap_2. }
  split_and!; [split; [exact Hnd|intros x Hx; apply Hstep; by apply Hrest]|apply Hin; by left|done].
Qed.
Lemma rows_left_keep (p : DagTask -> bool) r : tasks_wf r -> rows_left (keep p (dr_tasks r)) r.
Proof.
  intros Hwf. split; [|by intros x [Hx _]%elem_of_keep].
  pose proof (wf_ids _ Hwf) as Hnd. induction (dr_tasks r) as [|x l IH]; [constructor|].
  apply NoDup_cons in Hnd as [Hni Hnd]. simpl. destruct (p x); [|by apply IH]. simpl. apply NoDup_cons. split; [|by apply IH].
  intros (y & Hy & [Hin _]%elem_of_keep)%list_elem_of_fmap. apply Hni. rewrite Hy. by apply list_elem_of_fmap_2.
Qed.
Lemma rows_left_take n rows r : rows_left rows r -> rows_left (take n rows) r.
Proof.
  intros [Hnd Hin]. split.
  - rewrite <-(take_drop n rows), fmap_app in Hnd. by apply NoDup_app in Hnd as [Hnd _].
  - intros x Hx. apply Hin. rewrite <-(take_drop n rows). apply elem_of_app. by left.
Qed.

Lemma elem_of_take_keep {A} n (p : A -> bool) l x : x ∈ take n (keep p l) -> x ∈ l /\ p x = true.
Proof. intros (i & Hx & _)%elem_of_take. by apply list_elem_of_lookup_2, elem_of_keep in Hx. Qed.
Lemma runnable_done now r t : runnable now r t = true -> dt_status t = TPending /\ prerequisites_done r t.
Proof.
  unfold runnable, prerequisites_succeeded. intros [[[Hs%has_status_true _]%andb_true_iff Hd]%andb_true_iff _]%andb_true_iff.
  split; [done|]. intros p Hp. rewrite forallb_forall in Hd. apply has_status_true, Hd. by apply list_elem_of_In.
Qed.

Lemma claims_core uuid foreign ownerId now expires rows r r' cs :
  core_wf r -> rows_left rows r -> (forall x, x ∈ rows -> prerequisites_done r x) ->
  mapM (claim_task uuid foreign ownerId now expires) rows r = (r', Ok cs) -> core_wf r'.
Proof.
  intros Hwf Hl Hd H.
  apply (mapM_Ok_ind (fun rows r => core_wf r /\ rows_left rows r /\ forall x, x ∈ rows -> prerequisites_done r x))
    in H; [by destruct H| |done].
  clear. intros x rest r r' c (Hc & Hl & Hd) H.
  assert (Hin : x ∈ dr_tasks r) by (apply Hl; by left).
  pose proof (fun y => claim_task_others _ _ _ _ _ _ _ _ _ y (proj1 Hc) Hin H) as Hoth.
  destruct (rows_left_step _ _ _ r' Hl) as (Hl' & _ & Hrest); [intros y Hy Hne; by apply Hoth|].
  split_and!; [|done|].
  - eapply claim_task_core; [done|done| |done]. apply Hd. by left.
  - intros y Hy. destruct (Hrest y Hy) as [Hne Hy']. apply Hoth; [done|done|]. apply Hd. by right.
Qed.

Lemma claim_core uuid foreign ownerId now d limit lease r r' cs :
  core_wf r -> claimRunnableTasks uuid foreign ownerId now d limit lease r = (r', Ok cs) -> core_wf r'.
Proof.
  intros Hwf H. unfold_operations. committing; try done.
  all: match goal with Hm : mapM _ _ _ = (?s, _) |- _ =>
    assert (core_wf s); [eapply claims_core; [done| | |exact Hm]|] end.
  all: try (apply rows_left_take, rows_left_keep, Hwf).
  all: try (intros x [_ Hx]%elem_of_take_keep; by apply runnable_done in Hx as [_ Hx]).
  - done.
  - match goal with Hu : update_run _ _ _ = _ |- _ => apply update_run_Ok in Hu as [(_ & _ & ->)|(_ & _ & ->)] end;
      [by eapply core_wf_ext|done].
Qed.

(** ** Interrupting attempts *)

Lemma expired_task_ok t t' pre a a' :
  task_ok t (pre ++ [a]) -> Forall ended pre -> dt_turns t = total_turns pre -> dt_usage t = total_usage pre ->
  dt_artifact t = None -> dt_contract t' = dt_contract t -> dt_maxAttempts t' = dt_maxAttempts t ->
  dt_attemptCount t' = dt_attemptCount t -> dt_checkpoint t' = dt_checkpoint t -> dt_artifact t' = dt_artifact t ->
  dt_turns t' = (if resumable t then dt_turns t else dt_turns t + da_turns a) ->
  dt_usage t' = (if resumable t then dt_usage t else addUsageValues (dt_usage t) (da_usage a)) ->
  dt_leaseExpiresAt t' = None ->
  (dt_status t' = TPending /\ dt_currentAttempt t' = None /\ dt_owner t' = None /\
     (dt_attemptCount t < dt_maxAttempts t \/ resumable t = true) \/
   dt_status t' = TFailed) ->
  da_number a' = da_number a -> da_status a' = AttemptExpired -> da_turns a' = da_turns a -> da_usage a' = da_usage a ->
  task_ok t' (pre ++ [a']).
Proof.
  intros Hok He Ht Hu Hart Hc Hm Hn Hck Hart' Ht' Hu' Hl Hst Hnum Hs Hat Hau.
  destruct (task_ok_earlier _ _ _ Hok) as (Hna & H1 & Hlt).
  assert (Hr : resumable t' = resumable t) by (unfold resumable, dt_role; by rewrite Hck, Hc).
  assert (Hf : folded t' a' = negb (resumable t)).
  { unfold folded. by rewrite Hs, Hnum, Hna, Hn, Z.ltb_irrefl, Hr. }
  assert (Hend : Forall ended (pre ++ [a'])).
  { apply Forall_app. split; [done|]. apply Forall_singleton. by right. }
  apply (task_ok_last t t' pre a a'); try done.
  - rewrite Hf, Ht', Ht, Hat. destruct (resumable t); simpl; lia.
  - rewrite Hf, Hu', Hu, Hau. by destruct (resumable t).
  - unfold status_ok. destruct Hst as [(-> & Hcu & Ho & Hor)| ->].
    + rewrite Hart', Hn, Hm, Hr. by split_and!.
    + rewrite Hart'. by split_and!.
Qed.

Definition same_others (row : DagTask) (r r' : DagRun) : Prop :=
  forall x, x ∈ dr_tasks r -> dt_id x <> dt_id row -> x ∈ dr_tasks r'.
Lemma same_others_mapped row r r' p f :
  dr_tasks r' = mapped p f (dr_tasks r) -> (forall x, p x = true -> dt_id x = dt_id row) -> same_others row r r'.
Proof.
  intros Ht Hp x Hx Hne. rewrite Ht. apply elem_of_mapped. exists x. split; [done|].
  destruct (p x) eqn:E; [by apply Hp in E|done].
Qed.

Lemma active_attempt_Ok t r r' x :
  active_attempt t r = (r', Ok x) -> r' = r /\ dt_currentAttempt t = Some x.1 /\ dt_owner t = Some x.2.
Proof. unfold active_attempt. intros H. by committing. Qed.

Lemma runs_attempt_one r p t attemptId ownerId :
  tasks_wf r -> t ∈ dr_tasks r -> (forall x, p x = true -> runs_attempt (dt_id t) attemptId ownerId x = true) ->
  1 = zlen (keep p (dr_tasks r)) -> keep p (dr_tasks r) = [t] /\ runs_attempt (dt_id t) attemptId ownerId t = true.
Proof.
  intros Hwf Hin Hp (x & Hk & Hx & Hpx)%keep_one. pose proof (Hp x Hpx) as Hr.
  pose proof Hr as (Hid & _)%runs_attempt_true.
  assert (x = t) as -> by (eapply (fmap_NoDup_inj dt_id); [apply Hwf|done|done|done]). done.
Qed.

Lemma pause_task_core now t r r' :
  core_wf r -> t ∈ dr_tasks r -> resumable t = true -> pause_task now t r = (r', Ok tt) ->
  core_wf r' /\ same_others t r r' /\ dr_row r' = dr_row r /\
  forall x, x ∈ dr_tasks r' -> dt_status x = TRunning -> x ∈ dr_tasks r /\ dt_id x <> dt_id t.
Proof.
  intros [Hwf Hfr] Hin Hres H. unfold pause_task in H.
  apply Tx_bind_Ok in H as (? & [attempt owner] & (-> & Hc & Ho)%active_attempt_Ok & H). simpl in Hc, Ho.
  apply Tx_bind_Ok in H as (r1 & [] & [_ ->]%expect_one_Ok%update_attempts_Ok & H).
  apply Tx_bind_Ok in H as (r2 & [] & [Hone ->]%expect_one_Ok%update_tasks_Ok & ->%insertDagEvent_Ok).
  simpl in Hone. apply (runs_attempt_one r _ t attempt owner) in Hone as [Hk Hrun]; [|done|done|done].
  split_and!.
  - split.
    + eapply (tasks_wf_running r); [done|reflexivity|reflexivity|done|done|exact Hk|exact Hrun|done|..]; try done.
      intros pre a Hl He Hs Hid Hoa Hx Hart Ht Hu Hok.
      eapply (expired_task_ok t _ pre a); try done; simpl; rewrite ?Hres; try done. left. split_and!; try done. by right.
    + eapply (frontier_mapped r); [done|reflexivity|done|done|..].
      * intros x Hx Hpx _. right. rewrite (keep_singleton_eq _ _ _ _ Hk Hx Hpx). apply (wf_started _ Hwf); [done|].
        destruct (running_attempt_spec _ _ _ _ Hwf Hin Hrun) as (_ & _ & _ & _ & _ & _ & _ & _ & _ & H1 & _). lia.
      * intros x Hx Hpx [Hl|[Hl|Hl]]; done.
      * intros x Hx (_ & Hs & _)%runs_attempt_true. congruence.
  - eapply same_others_mapped; [reflexivity|]. by intros x (Hx & _)%runs_attempt_true.
  - done.
  - intros x Hx Hs. simpl in Hx. apply elem_of_mapped in Hx as (y & Hy & ->).
    destruct (runs_attempt (dt_id t) attempt owner y) eqn:E; [done|]. split; [done|].
    intros He. assert (y = t) as -> by (eapply (fmap_NoDup_inj dt_id); [apply Hwf|done|done|done]). congruence.
Qed.

Lemma pause_core now r r' x :
  core_wf r -> markDagRunPaused now r = (r', Ok x) ->
  core_wf r' /\ (r' = r \/ exists t, open_status (rr_status (dr_row r)) = true /\
    dr_row r' = row_touch t (row_lease None (rr_epoch (dr_row r)) None
                  (row_pause (Some t) (rr_pausedDurationMs (dr_row r)) (dr_row r))) /\
    (forall y, y ∈ dr_tasks r' -> dt_status y <> TRunning) /\
    ((forall y, y ∈ dr_tasks r -> dt_status y <> TRunning) -> dr_tasks r' = dr_tasks r)).
Proof.
  intros Hwf H. unfold markDagRunPaused in H.
  apply Tx_bind_Ok in H as (? & t & [-> Hnow]%safe_or_Ok & H). apply (proj1 (transaction_Ok _ _ _ _)) in H.
  apply Tx_bind_Ok in H as (? & y & [-> ->]%get_Ok & H). cbv zeta in H.
  destruct (negb (open_status _)) eqn:Hopen; [apply M_ret_Ok in H as [-> _]; by split; [|left]|].
  destruct (bool_decide (rr_pausedAt _ <> None)) eqn:Hp; [apply M_ret_Ok in H as [-> _]; by split; [|left]|].
  apply Tx_bind_Ok in H as (? & [] & [_ ->]%throw_if_Ok & H).
  apply Tx_bind_Ok in H as (r1 & [] & Hsafe & H).
  destruct (find_row _ _) eqn:Hf; [done|]. apply M_ret_Ok in Hsafe as [-> _].
  apply Tx_bind_Ok in H as (r2 & [] & Hloop & H).
  assert (Hidle : (forall y, y ∈ dr_tasks r -> dt_status y <> TRunning) -> r2 = r).
  { intros Hn. rewrite keep_none in Hloop; [by apply M_ret_Ok in Hloop as [-> _]|].
    intros y Hy. by apply has_status_false, Hn. }
  apply (forM_Ok_ind (fun rows s => core_wf s /\ rows_left rows s /\ dr_row s = dr_row r /\
    (forall z, z ∈ rows -> resumable z = true) /\
    (forall z, z ∈ dr_tasks s -> dt_status z = TRunning -> dt_id z ∈ dt_id <$> rows))) in Hloop.
  - destruct Hloop as (Hwf2 & _ & Hrow & _ & Hnone).
    apply Tx_bind_Ok in H as (r3 & [] & [_ ->]%expect_one_Ok%update_run_one & H).
    apply Tx_bind_Ok in H as (r4 & [] & ->%insertDagEvent_Ok & H). apply M_ret_Ok in H as [-> _].
    split; [by eapply core_wf_ext|]. right. exists t. simpl. rewrite Hrow. split_and!; [by apply negb_false_iff|done| |intros Hn; by rewrite (Hidle Hn)].
    intros z Hz Hs. specialize (Hnone z Hz Hs). by apply not_elem_of_nil in Hnone.
  - intros z rest s s' (Hw & Hl & Hrow & Hres & Hrun) Hz.
    apply pause_task_core in Hz as (Hw' & Hoth & Hrow' & Hrun'); [|done|apply Hl; by left|apply Hres; by left].
    destruct (rows_left_step _ _ _ s' Hl Hoth) as (Hl' & _ & _). split_and!; [done|done|congruence| |].
    + intros w Hw0. apply Hres. by right.
    + intros w Hwin Hs. destruct (Hrun' w Hwin Hs) as [Hwin' Hne]. specialize (Hrun w Hwin' Hs).
      rewrite fmap_cons in Hrun. by apply elem_of_cons in Hrun as [|].
  - split_and!; [done|apply rows_left_keep, Hwf|done| |].
    + intros z Hz. pose proof (find_row_None _ _ Hf z Hz) as Hr. by apply negb_false_iff in Hr.
    + intros z Hz Hs. apply list_elem_of_fmap_2, elem_of_keep. split; [done|]. by apply has_status_true.
Qed.

(** ** Recovering *)

Lemma recover_task_wf runId now t r r' :
  tasks_wf r -> t ∈ dr_tasks r -> recover_task runId now t r = (r', Ok tt) ->
  tasks_wf r' /\ same_others t r r' /\ dr_row r' = dr_row r /\
  (forall x, x ∈ dr_tasks r' -> dt_status x = TRunning -> x ∈ dr_tasks r).
Proof.
  intros Hwf Hin H. unfold recover_task in H.
  apply Tx_bind_Ok in H as (? & [attempt owner] & (-> & Hc & Ho)%active_attempt_Ok & H). simpl in Hc, Ho.
  apply Tx_bind_Ok in H as (? & y & [-> ->]%get_Ok & H).
  destruct (running_attempt _ _ _ r) as [a|] eqn:Hra; [|done].
  apply Tx_bind_Ok in H as (r1 & [] & [_ ->]%expect_one_Ok%update_attempts_Ok & H). cbv zeta in H.
  apply Tx_bind_Ok in H as (? & [] & [_ ->]%throw_if_Ok & H).
  set (p := fun x => runs_attempt (dt_id t) attempt owner x
    && match dt_leaseExpiresAt x with Some expires => expires <=? now | None => false end) in *.
  assert (Hp : forall x, p x = true -> runs_attempt (dt_id t) attempt owner x = true).
  { intros x Hx. by apply andb_true_iff in Hx as [Hx _]. }
  assert (Ha : forall pre b, attempts_of (dt_id t) r = pre ++ [b] -> Forall ended pre -> da_status b = AttemptRunning ->
    b = a).
  { intros pre b Hl He Hb. apply running_attempt_found in Hra as (Hina & _ & Hta & _ & Hsa).
    assert (Hx : a ∈ attempts_of (dt_id t) r) by by apply elem_of_attempts_of.
    rewrite Hl in Hx. apply elem_of_app in Hx as [Hx| ->%list_elem_of_singleton]; [|done].
    rewrite Forall_forall in He. apply He in Hx as [?|?]; congruence. }
  assert (Hrule : forall f r', dr_tasks r' = mapped p f (dr_tasks r) ->
    dr_attempts r' = mapped (fun a => attempt_of attempt (dt_id t) owner a && attempt_running a)
      (attempt_touch now ∘ attempt_status AttemptExpired
       ∘ attempt_outcome (Some "interrupted") (Some "Attempt lease expired")) (dr_attempts r) ->
    dr_dependencies r' = dr_dependencies r -> dr_row r' = dr_row r -> 1 = zlen (keep p (dr_tasks r)) ->
    (forall x, dt_contract (f x) = dt_contract x) -> dt_status (f t) <> TRunning ->
    (forall pre b b', task_ok t (pre ++ [b]) -> Forall ended pre -> dt_turns t = total_turns pre ->
       dt_usage t = total_usage pre -> dt_artifact t = None -> b = a -> da_number b' = da_number b ->
       da_status b' = AttemptExpired -> da_turns b' = da_turns b -> da_usage b' = da_usage b ->
       task_ok (f t) (pre ++ [b'])) ->
    tasks_wf r' /\ same_others t r r' /\ dr_row r' = dr_row r /\
    (forall x, x ∈ dr_tasks r' -> dt_status x = TRunning -> x ∈ dr_tasks r)).
  { intros f s Ht Hatt Hd Hrow Hone Hf Hns Hok.
    apply (runs_attempt_one r _ t attempt owner) in Hone as [Hk Hrun]; [|done|done|done].
    split_and!; [|eapply same_others_mapped; [exact Ht|]|done|].
    - eapply (tasks_wf_running r); [done|exact Ht|exact Hatt|done|by rewrite Hrow|exact Hk|exact Hrun|done|..]; try done.
      intros pre b Hl He Hs Hid Hoa Hx Hart Htu Hus Hokt. eapply Hok; try done. by eapply Ha.
    - intros x Hx. apply Hp, runs_attempt_true in Hx as [Hx _]. done.
    - intros x Hx Hs. rewrite Ht in Hx. apply elem_of_mapped in Hx as (z & Hz & ->).
      destruct (p z) eqn:E; [|done]. rewrite (keep_singleton_eq _ _ _ _ Hk Hz E) in Hs. congruence. }
  destruct (_ || resumable t) eqn:Hretry.
  - apply Tx_bind_Ok in H as (r2 & retry & Hret & H).
    assert (r2 = with_attempts (mapped (fun a => attempt_of attempt (dt_id t) owner a && attempt_running a)
      (attempt_touch now ∘ attempt_status AttemptExpired
       ∘ attempt_outcome (Some "interrupted") (Some "Attempt lease expired")) (dr_attempts r)) r) as ->.
    { destruct (resumable t); [by apply M_ret_Ok in Hret as [-> _]|]. destruct (num_to_Z _); [|done].
      apply Tx_bind_Ok in Hret as (? & [] & [_ ->]%throw_if_Ok & [-> _]%M_ret_Ok). done. }
    apply Tx_bind_Ok in H as (r3 & [] & [Hone ->]%expect_one_Ok%update_tasks_Ok & ->%insertDagEvent_Ok).
    eapply Hrule; try reflexivity; [exact Hone|done|].
    intros pre b b' Hok He Htu Hus Hart -> Hnum Hs Hat Hau.
    eapply (expired_task_ok t _ pre a); try done. left. split_and!; try done.
    apply orb_true_iff in Hretry as [[_ Hretry%Z.ltb_lt]%andb_true_iff|Hretry]; [by left|by right].
  - apply Tx_bind_Ok in H as (r3 & [] & [Hone ->]%expect_one_Ok%update_tasks_Ok & ->%insertDagEvent_Ok).
    eapply Hrule; try reflexivity; [exact Hone|done|].
    intros pre b b' Hok He Htu Hus Hart -> Hnum Hs Hat Hau.
    eapply (expired_task_ok t _ pre a); try done. by right.
Qed.

(** The row of the run apart from its accounting. *)
Definition same_run (r r' : DagRun) : Prop :=
  exists usage turns now, dr_row r' = row_touch now (row_accounting usage turns (dr_row r)).
#[export] Instance same_run_preorder : PreOrder same_run.
Proof.
  split.
  - intros r. eexists _, _, _. apply row_eta.
  - intros r1 r2 r3 (u & n & m & H) (u' & n' & m' & H'). exists u', n', m'. by rewrite H', H.
Qed.

Lemma block_same_run now : travels same_run (blockDagDescendants now).
Proof.
  unfold blockDagDescendants. travelling ltac:(apply travels_block_rounds; [apply _|intros ?; unfold block_task]);
    intros; eexists _, _, _; apply row_eta.
Qed.

(** Blocking only changes tasks that wait. *)
Definition same_running (r r' : DagRun) : Prop :=
  forall x, x ∈ dr_tasks r' -> dt_status x = TRunning -> x ∈ dr_tasks r.
#[export] Instance same_running_preorder : PreOrder same_running.
Proof. split; unfold same_running; [by intros r x|]. intros r1 r2 r3 H H' x Hx Hs. auto. Qed.
Lemma block_same_running now : travels same_running (blockDagDescendants now).
Proof.
  unfold blockDagDescendants. travelling ltac:(apply travels_block_rounds; [apply _|intros t; unfold block_task]);
    intros s; [|by intros e x].
  intros x Hx Hs. simpl in Hx. apply elem_of_mapped in Hx as (y & Hy & ->).
  by destruct (is_task (dt_id t) y && has_status TPending y).
Qed.

Lemma recover_core runId now lease r r' :
  core_wf r -> recoverDagRun runId now lease r = (r', Ok tt) ->
  core_wf r' /\ (r' = r \/ rr_status (dr_row r) = RunRunning /\ same_run r r' /\ same_running r r').
Proof.
  intros [Hwf Hfr] H. unfold recoverDagRun in H.
  apply Tx_bind_Ok in H as (? & t & [-> Hnow]%safe_or_Ok & H). apply (proj1 (transaction_Ok _ _ _ _)) in H.
  apply Tx_bind_Ok in H as (? & y & [-> ->]%get_Ok & H).
  apply Tx_bind_Ok in H as (? & [] & (-> & _)%assert_lease_Ok & H).
  destruct (negb _) eqn:Hs; [apply M_ret_Ok in H as [-> _]; split; [done|by left]|].
  apply negb_false_iff, bool_decide_eq_true in Hs. cbv zeta in H.
  apply Tx_bind_Ok in H as (r1 & [] & Hloop & H).
  apply (forM_Ok_ind (fun rows s => tasks_wf s /\ rows_left rows s /\ dr_row s = dr_row r /\ same_running r s)) in Hloop.
  - destruct Hloop as (Hwf1 & _ & Hrow1 & Hrun1).
    apply Tx_bind_Ok in H as (r2 & [] & Hb & H).
    pose proof (block_core _ _ _ Hwf1 Hb) as Hcore. pose proof (block_same_run t r1) as Hsr.
    pose proof (block_same_running t r1) as Hsn. rewrite Hb in Hsr, Hsn. simpl in Hsr, Hsn.
    assert (Hsr2 : same_run r r2) by (etrans; [|exact Hsr]; eexists _, _, _; rewrite Hrow1; apply row_eta).
    assert (Hsn2 : same_running r r2) by by etrans.
    destruct (bool_decide _).
    + apply M_ret_Ok in H as [-> _]. split; [done|by right].
    + apply Tx_bind_Ok in H as (r3 & x & (Hacc & _)%reconcile_Ok & H).
      apply Tx_bind_Ok in H as (r4 & n & Hu & H). apply M_ret_Ok in H as [-> _].
      apply update_run_Ok in Hu as [(_ & _ & ->)|(Hc & _)]; [|done].
      split; [eapply core_wf_ext; [by eapply accounted_core|done..]|]. right. split_and!; [done| |].
      * destruct Hacc as (_ & _ & _ & u & m & k & Hrow). etrans; [exact Hsr2|].
        exists u, m, t. simpl. by rewrite Hrow.
      * etrans; [exact Hsn2|]. destruct Hacc as (Ht & _). intros z Hz. simpl in Hz. by rewrite Ht in Hz.
  - intros z rest s s' (Hw & Hl & Hrow & Hrun) Hz.
    apply recover_task_wf in Hz as (Hw' & Hoth & Hrow' & Hrun'); [|done|apply Hl; by left].
    destruct (rows_left_step _ _ _ s' Hl Hoth) as (Hl' & _ & _). split_and!; [done|done|congruence|].
    intros w Hw0 Hws. by apply Hrun; [apply Hrun'|].
  - split_and!; [done|apply rows_left_keep, Hwf|done|reflexivity].
Qed.

(** ** Fencing the tasks of a run that ends *)

(** The task with the accounting of its running attempt. *)
Definition refold (attempts : list DagAttempt) (t : DagTask) : DagTask :=
  match find_row (fun a => bool_decide (Some (da_id a) = dt_currentAttempt t)) attempts with
  | Some a => if has_status TRunning t
              then task_accounting (addUsageValues (dt_usage t) (da_usage a)) (dt_turns t + da_turns a) t else t
  | None => t
  end.
Lemma refold_same attempts t :
  dt_contract (refold attempts t) = dt_contract t /\ dt_status (refold attempts t) = dt_status t.
Proof. unfold refold. destruct (find_row _ _); [|done]. by destruct (has_status TRunning t). Qed.

Lemma with_tasks_twice l l' r : with_tasks l (with_tasks l' r) = with_tasks l r.
Proof. done. Qed.
Lemma mapped_fixed {A} (p : A -> bool) f l : (forall x, x ∈ l -> p x = true -> f x = x) -> mapped p f l = l.
Proof.
  intros Hf. unfold mapped. rewrite <-(list_fmap_id l) at 2. apply list_fmap_ext. intros i x Hx.
  destruct (p x) eqn:E; [|done]. apply Hf; [by eapply list_elem_of_lookup_2|done].
Qed.
Lemma is_task_eq r x t :
  NoDup (dt_id <$> dr_tasks r) -> t ∈ dr_tasks r -> x ∈ dr_tasks r -> is_task (dt_id t) x = true -> x = t.
Proof. intros Hnd Ht Hx He%is_task_true. by eapply (fmap_NoDup_inj dt_id). Qed.

Lemma fold_attempt_Ok attempts t r r' :
  NoDup (dt_id <$> dr_tasks r) -> t ∈ dr_tasks r -> fold_attempt attempts t r = (r', Ok tt) ->
  r' = with_tasks (mapped (is_task (dt_id t)) (refold attempts) (dr_tasks r)) r.
Proof.
  intros Hnd Hin H. unfold fold_attempt in H.
  assert (Hsame : refold attempts t = t -> r = with_tasks (mapped (is_task (dt_id t)) (refold attempts) (dr_tasks r)) r).
  { intros Hr. rewrite mapped_fixed; [by destruct r|]. intros x Hx E. by rewrite (is_task_eq _ _ _ Hnd Hin Hx E). }
  unfold refold in Hsame at 1. destruct (find_row _ attempts) as [a|] eqn:Hf.
  2: { apply M_ret_Ok in H as [-> _]. by apply Hsame. }
  destruct (has_status TRunning t) eqn:Hs; simpl in H.
  2: { apply M_ret_Ok in H as [-> _]. by apply Hsame. }
  apply Tx_bind_Ok in H as (? & [] & [_ ->]%throw_if_Ok & H).
  apply Tx_bind_Ok in H as (r1 & n & [_ ->]%update_tasks_Ok & [-> _]%M_ret_Ok).
  f_equal. apply list_fmap_ext. intros i x Hx. apply list_elem_of_lookup_2 in Hx.
  destruct (is_task (dt_id t) x) eqn:E; [|done]. rewrite (is_task_eq _ _ _ Hnd Hin Hx E).
  unfold refold. by rewrite Hs, Hf.
Qed.

(** The loop, whose intermediate states are not well formed, as one update. *)
Lemma fold_attempts_Ok attempts rows r r' :
  NoDup (dt_id <$> dr_tasks r) -> rows_left rows r -> forM_ rows (fold_attempt attempts) r = (r', Ok tt) ->
  r' = with_tasks (mapped (fun t => bool_decide (dt_id t ∈ dt_id <$> rows)) (refold attempts) (dr_tasks r)) r.
Proof.
  revert r. induction rows as [|t rows IH]; intros r Hnd Hl H; cbn [forM_] in H.
  { apply M_ret_Ok in H as [-> _]. rewrite mapped_none; [by destruct r|]. intros x _.
    apply bool_decide_eq_false. apply not_elem_of_nil. }
  apply Tx_bind_Ok in H as (r1 & [] & H1 & H).
  apply fold_attempt_Ok in H1 as ->; [|done|apply Hl; by left].
  assert (Hid : forall x, dt_id (refold attempts x) = dt_id x).
  { intros x. unfold dt_id. by destruct (refold_same attempts x) as [-> _]. }
  set (r1 := with_tasks _ r) in H.
  assert (Hoth : same_others t r r1) by (eapply same_others_mapped; [reflexivity|]; by intros x ?%is_task_true).
  destruct (rows_left_step _ _ _ r1 Hl Hoth) as (Hl' & Hin & Hrest).
  apply IH in H as ->; [|simpl; by rewrite fmap_mapped|done].
  unfold r1. rewrite with_tasks_twice. simpl. f_equal. unfold mapped. rewrite <-list_fmap_compose. apply list_fmap_ext.
  intros i x Hx. apply list_elem_of_lookup_2 in Hx. simpl.
  destruct (is_task (dt_id t) x) eqn:E.
  - rewrite (is_task_eq _ _ _ Hnd Hin Hx E), Hid. rewrite bool_decide_false, bool_decide_true; [done|by left|].
    intros (y & Hy & Hin')%list_elem_of_fmap. by apply Hrest in Hin' as [Hne _].
  - destruct (bool_decide (dt_id x ∈ dt_id <$> rows)) eqn:E'.
    + apply bool_decide_eq_true in E'. rewrite bool_decide_true; [done|by right].
    + apply bool_decide_eq_false in E'. rewrite bool_decide_false; [done|].
      intros [He|He]%elem_of_cons; [|done]. apply is_task_true in He. congruence.
Qed.

Lemma forM_events rows (f : DagTask -> event_body) now r r' :
  forM_ rows (fun t => insertDagEvent (f t) now (Some (dt_id t))) r = (r', Ok tt) ->
  exists events, r' = with_events events r.
Proof.
  revert r. induction rows as [|t rows IH]; intros r H; cbn [forM_] in H.
  - apply M_ret_Ok in H as [-> _]. exists (dr_events r). by destruct r.
  - apply Tx_bind_Ok in H as (r1 & [] & ->%insertDagEvent_Ok & H). apply IH in H as [es ->]. by exists es.
Qed.

(** How fencing ends a task. *)
Definition fenced (cancelled : bool) (now : Z) (t : DagTask) : DagTask :=
  (task_touch now ∘ task_status (if cancelled then TCancelled else TFailed) ∘ task_assign None None None ∘ task_retry None
   ∘ task_outcome (Some (if cancelled then "cancelled" else "interrupted"))
                  (Some (if cancelled then "DAG run cancelled" else "DAG run failed")) ∘ task_artifact None) t.
Definition fenced_attempt (cancelled : bool) (now : Z) (a : DagAttempt) : DagAttempt :=
  (attempt_touch now ∘ attempt_status AttemptFailed
   ∘ attempt_outcome (Some (if cancelled then "cancelled" else "interrupted"))
                     (Some (if cancelled then "DAG run cancelled" else "DAG run failed"))) a.

Lemma fence_tasks_Ok cancelled now r r' :
  tasks_wf r -> fence_tasks cancelled now r = (r', Ok tt) ->
  dr_tasks r' = mapped unsettled (fun t => fenced cancelled now (refold (dr_attempts r) t)) (dr_tasks r) /\
  dr_attempts r' = mapped attempt_running (fenced_attempt cancelled now) (dr_attempts r) /\
  dr_dependencies r' = dr_dependencies r /\ dr_row r' = dr_row r.
Proof.
  intros Hwf H. unfold fence_tasks in H. cbv zeta in H.
  apply Tx_bind_Ok in H as (? & x & [-> ->]%get_Ok & H).
  apply Tx_bind_Ok in H as (r1 & [] & ->%fold_attempts_Ok & H); [|apply Hwf|apply rows_left_keep, Hwf].
  apply Tx_bind_Ok in H as (? & x & [-> ->]%get_Ok & H).
  apply Tx_bind_Ok in H as (r2 & n & [_ ->]%update_attempts_Ok & H).
  apply Tx_bind_Ok in H as (r3 & m & [_ ->]%update_tasks_Ok & H).
  apply forM_events in H as [es ->]. simpl. rewrite bool_decide_true by done.
  split_and!; [|apply mapped_ext; intros; by rewrite andb_true_r|done|done].
  rewrite (mapped_ext _ unsettled) by (intros; by rewrite andb_true_r).
  unfold mapped. rewrite <-list_fmap_compose. apply list_fmap_ext. intros i x Hx. apply list_elem_of_lookup_2 in Hx. simpl.
  assert (Hu : unsettled (refold (dr_attempts r) x) = unsettled x).
  { unfold unsettled, has_status. by destruct (refold_same (dr_attempts r) x) as [_ ->]. }
  destruct (unsettled x) eqn:E.
  - rewrite bool_decide_true; [by rewrite Hu|]. apply list_elem_of_fmap_2. by apply elem_of_keep.
  - rewrite bool_decide_false; [by rewrite E|]. intros (y & Hy & [Hin Hun]%elem_of_keep)%list_elem_of_fmap.
    assert (x = y) as -> by (eapply (fmap_NoDup_inj dt_id); [apply Hwf|done|done|done]). congruence.
Qed.

Lemma unsettled_true t : unsettled t = true <-> dt_status t = TPending \/ dt_status t = TRunning.
Proof. unfold unsettled. by rewrite orb_true_iff, !has_status_true. Qed.
Lemma unsettled_false t : unsettled t = false <-> dt_status t <> TPending /\ dt_status t <> TRunning.
Proof. unfold unsettled. by rewrite orb_false_iff, !has_status_false. Qed.

(** The attempts of a settled task do not run. *)
Lemma settled_not_running t l a : task_ok t l -> dt_status t <> TRunning -> a ∈ l -> attempt_running a = false.
Proof.
  intros Hok Hs Ha. pose proof (ok_status _ _ Hok) as Hst. unfold status_ok in Hst.
  assert (Hend : Forall ended l -> attempt_running a = false).
  { intros He. rewrite Forall_forall in He. by apply ended_not_running, He. }
  destruct (dt_status t); try (apply Hend; by destruct Hst).
  destruct Hst as (pre & b & art & -> & He & Hb & _). apply elem_of_app in Ha as [Ha| ->%list_elem_of_singleton].
  - rewrite Forall_forall in He. by apply ended_not_running, He.
  - unfold attempt_running. apply bool_decide_eq_false. congruence.
Qed.

Lemma fenced_task_ok cancelled now r t :
  tasks_wf r -> t ∈ dr_tasks r -> unsettled t = true ->
  task_ok (fenced cancelled now (refold (dr_attempts r) t))
    (mapped attempt_running (fenced_attempt cancelled now) (attempts_of (dt_id t) r)).
Proof.
  intros Hwf Hin [Hp|Hrun]%unsettled_true; pose proof (wf_tasks _ Hwf t Hin) as Hok.
  - rewrite mapped_none.
    2: { intros a Ha. eapply settled_not_running; [done| |done]. congruence. }
    assert (Hr : refold (dr_attempts r) t = t).
    { unfold refold, has_status. rewrite Hp. by destruct (find_row _ _). }
    rewrite Hr. destruct Hok as [Hm Hc Hn Ht Hu Hs]. split; try done. unfold status_ok in *. simpl. rewrite Hp in Hs.
    by destruct cancelled, Hs as (He & _).
  - destruct (running_ok _ _ Hok Hrun) as (pre & a & Hl & He & Hsa & Hc & Ho & Hx & Hart & Hn & H1 & Hlt & Ht & Hu).
    assert (Hain : a ∈ dr_attempts r /\ da_task a = dt_id t).
    { apply elem_of_attempts_of. rewrite Hl. apply elem_of_app. right. by left. }
    assert (Hr : refold (dr_attempts r) t =
      task_accounting (addUsageValues (dt_usage t) (da_usage a)) (dt_turns t + da_turns a) t).
    { unfold refold. destruct (find_row _ _) as [b|] eqn:Hf.
      - apply find_row_Some in Hf as [Hb Hbid%bool_decide_eq_true].
        assert (b = a) as ->.
        { eapply (fmap_NoDup_inj da_id); [apply Hwf|done|apply Hain|congruence]. }
        unfold has_status. by rewrite bool_decide_true.
      - pose proof (find_row_None _ _ Hf a (proj1 Hain)) as Hno. apply bool_decide_eq_false in Hno. congruence. }
    rewrite Hr, Hl. rewrite mapped_last.
    2: { intros x Hxin. rewrite Forall_forall in He. by apply ended_not_running, He. }
    2: { by apply attempt_running_true. }
    rewrite Hl in Hok. apply (task_ok_last t _ pre a); try done.
    + simpl. by rewrite Ht.
    + simpl. by rewrite Hu.
    + unfold status_ok. simpl. destruct cancelled; simpl; (split_and!; [|done|done]);
        (apply Forall_app; split; [done|apply Forall_singleton; by left]).
Qed.

Lemma fence_core cancelled now r r' :
  tasks_wf r -> fence_tasks cancelled now r = (r', Ok tt) ->
  core_wf r' /\ dr_row r' = dr_row r /\ forall t, t ∈ dr_tasks r' -> unsettled t = false.
Proof.
  intros Hwf (Ht & Ha & Hd & Hrow)%fence_tasks_Ok; [|done].
  assert (Hset : forall t, t ∈ dr_tasks r' -> unsettled t = false).
  { intros t Hin. rewrite Ht in Hin. apply elem_of_mapped in Hin as (x & Hin & ->).
    destruct (unsettled x) eqn:E; [by destruct cancelled|done]. }
  assert (Hatt : forall id, attempts_of id r' = mapped attempt_running (fenced_attempt cancelled now) (attempts_of id r)).
  { intros id. unfold attempts_of. rewrite Ha. by apply keep_mapped. }
  assert (Hrs : forall t, dt_contract (fenced cancelled now (refold (dr_attempts r) t)) = dt_contract t).
  { intros t. simpl. by destruct (refold_same (dr_attempts r) t). }
  split_and!; [split|done|done].
  - eapply (tasks_wf_mapped _ _ r r'); [done|exact Ht|done|by rewrite Hrow| | |intros t _; apply Hrs|..].
    + rewrite Ha, fmap_mapped by done. apply Hwf.
    + intros a Hin. rewrite Ha in Hin. apply elem_of_mapped in Hin as (b & Hb & ->).
      replace (da_task (if attempt_running b then _ else b)) with (da_task b) by (by destruct (attempt_running b)).
      by apply (wf_attempt_tasks _ Hwf).
    + intros t Hin Hu. rewrite Hatt. by apply fenced_task_ok.
    + intros t Hin [Hp Hr]%unsettled_false. rewrite Hatt, mapped_none; [by apply (wf_tasks _ Hwf)|].
      intros a Hain. by eapply settled_not_running; [apply (wf_tasks _ Hwf)| |].
    + intros t Hin [Hu|Hu]%unsettled_true Hs; congruence.
    + intros t Hin _ Hc. apply (wf_started _ Hwf); [done|]. simpl in Hc.
      unfold refold in Hc. by repeat case_match.
  - intros t p Hin Hs. apply Hset, unsettled_false in Hin as [Hn _]. done.
Qed.
