(* ===== verification/LedgerCreation.v ===== *)
(** * Creating and expanding runs of the ledger

    The depth-first check of [createDagRun] and the topological order of [expandDagRun] accept
    exactly the requests whose tasks can be ordered, and the rows they insert are well formed. *)
From S2P Require Import Prelude JsNumber SessionTypes JsText JsonNumber JsonText Subagent RetryPolicy.
From S2P Require Import LedgerTypes Ledger LedgerTasks LedgerInvariant LedgerPreservation.

(** ** Orders of identifiers *)

Definition dependencies_of (tasks : list LedgerContract) (id : string) : list string :=
  match find_row (fun t => String.eqb (lc_id t) id) tasks with Some t => lc_dependsOn t | None => [] end.

(** Distinct identifiers, each after those it depends on. *)
Definition id_order (tasks : list LedgerContract) (ids : list string) : Prop :=
  NoDup ids /\ forall pre x post, ids = pre ++ x :: post -> forall d, d ∈ dependencies_of tasks x -> d ∈ pre.

Lemma id_order_nil tasks : id_order tasks [].
Proof. split; [constructor|]. by intros [|??] x post. Qed.
Lemma id_order_snoc tasks ids x :
  id_order tasks ids -> (x ∉ ids) -> (forall d, d ∈ dependencies_of tasks x -> d ∈ ids) -> id_order tasks (ids ++ [x]).
Proof.
  intros [Hnd Ho] Hx Hd. split.
  - apply NoDup_app. split_and!; [done| |apply NoDup_singleton]. by intros y Hy ->%list_elem_of_singleton.
  - intros pre y post Heq. destruct post as [|z post _] using rev_ind.
    + apply app_inj_tail in Heq as [<- <-]. done.
    + rewrite app_comm_cons, (assoc_L (++)) in Heq. apply app_inj_tail in Heq as [-> _]. by eapply Ho.
Qed.

Lemma dependencies_of_contract tasks c :
  NoDup (lc_id <$> tasks) -> c ∈ tasks -> dependencies_of tasks (lc_id c) = lc_dependsOn c.
Proof.
  intros Hnd Hc. unfold dependencies_of. destruct (find_row _ tasks) as [b|] eqn:Hf.
  - apply find_row_Some in Hf as [Hb He%String.eqb_eq].
    by assert (b = c) as -> by by eapply (fmap_NoDup_inj lc_id).
  - pose proof (find_row_None _ _ Hf c Hc) as He. simpl in He. by rewrite String.eqb_refl in He.
Qed.

(** An order of all identifiers is an order of the tasks. *)
Lemma id_order_valid tasks ids :
  NoDup (lc_id <$> tasks) -> id_order tasks ids -> ids ≡ₚ lc_id <$> tasks ->
  exists o, valid_order o /\ o ≡ₚ lc_task <$> tasks.
Proof.
  intros Hnd [Hids Ho] Hp. apply Permutation_map_inv in Hp as (cs & -> & Hp).
  exists (lc_task <$> cs). split; [|by rewrite Hp].
  assert (Hid : task_id <$> (lc_task <$> cs) = lc_id <$> cs) by (by rewrite <-list_fmap_compose).
  split; [by rewrite Hid|].
  intros pre t post Heq d Hd. apply fmap_app_inv in Heq as (pre' & rest & -> & Hrest & ->).
  symmetry in Hrest. apply fmap_cons_inv in Hrest as (c & post' & -> & -> & ->).
  rewrite <-list_fmap_compose. apply (Ho _ (lc_id c) (lc_id <$> post')).
  - by rewrite fmap_app.
  - rewrite dependencies_of_contract; [done|done|]. rewrite Hp. apply elem_of_app. right. by left.
Qed.

(** ** Depth first search *)

(** A visit extends an order to one that holds the task, and passes by the path to it. *)
Lemma visit_sound depth tasks visiting visited id visited' :
  id_order tasks visited -> visit depth tasks visiting visited id = Ok visited' ->
  id_order tasks visited' /\ (exists k, visited' = visited ++ k) /\ id ∈ visited' /\
  forall v, v ∈ visiting -> v ∉ visited -> v ∉ visited'.
Proof.
  revert visiting visited id visited'. induction depth as [|depth IH]; intros visiting visited id visited' Ho H; [done|].
  cbn [visit] in H. case_bool_decide as Hin.
  { injection H as <-. split_and!; [done|by exists []; rewrite app_nil_r|done|done]. }
  case_bool_decide as Hcyc; [done|]. apply bind_Ok in H as (vs & Hf & [= <-]).
  fold (dependencies_of tasks id) in Hf.
  apply (foldM_invariant _ (fun ds vs => id_order tasks vs /\ (exists k, vs = visited ++ k) /\
    (forall d, d ∈ ds -> d ∈ vs) /\ forall v, v ∈ id :: visiting -> v ∉ visited -> v ∉ vs)) in Hf.
  - destruct Hf as (Hvs & [k Hk] & Hds & Hpath).
    assert (Hnot : id ∉ vs) by (apply Hpath; [by left|done]).
    split_and!.
    + by apply id_order_snoc.
    + exists (k ++ [id]). by rewrite Hk, (assoc_L (++)).
    + apply elem_of_app. right. by left.
    + intros v Hv Hnv [Hx| ->%list_elem_of_singleton]%elem_of_app; [|done].
      revert Hx. apply Hpath; [by right|done].
  - intros pre x b b' (Hb & [k Hk] & Hds & Hpath) Hx. apply IH in Hx as (Hb' & [k' Hk'] & Hx' & Hpath'); [|done].
    split_and!; [done| | |].
    + exists (k ++ k'). by rewrite Hk', Hk, (assoc_L (++)).
    + intros d [Hd| ->%list_elem_of_singleton]%elem_of_app; [|done]. rewrite Hk'. apply elem_of_app. left. by apply Hds.
    + intros v Hv Hnv. apply Hpath'; [done|]. by apply Hpath.
  - split_and!; [done|by exists []; rewrite app_nil_r|by intros d ?%not_elem_of_nil|done].
Qed.

(** The position of a task in an order of all of them decreases along the search. *)
Lemma visit_complete depth tasks reference visiting visited id (rank : string -> nat) :
  (forall x d, x ∈ lc_id <$> tasks -> d ∈ dependencies_of tasks x -> d ∈ lc_id <$> tasks /\ (rank d < rank x)%nat) ->
  reference = lc_id <$> tasks -> id ∈ reference -> (rank id < depth)%nat ->
  (forall v, v ∈ visiting -> (rank id < rank v)%nat) ->
  exists visited', visit depth tasks visiting visited id = Ok visited'.
Proof.
  intros Hrank ->. revert visiting visited id. induction depth as [|depth IH]; intros visiting visited id Hid Hd Hpath; [lia|].
  cbn [visit]. case_bool_decide; [by eexists|].
  rewrite bool_decide_false by (intros Hv; specialize (Hpath id Hv); lia).
  fold (dependencies_of tasks id).
  assert (Hall : forall d, d ∈ dependencies_of tasks id -> d ∈ lc_id <$> tasks /\ (rank d < rank id)%nat) by auto.
  assert (Hfold : forall ds vs, (forall d, d ∈ ds -> d ∈ lc_id <$> tasks /\ (rank d < rank id)%nat) ->
    exists vs', foldM (visit depth tasks (id :: visiting)) vs ds = Ok vs').
  { intros ds. induction ds as [|d ds IHds]; intros vs Hds; [by eexists|]. cbn [foldM].
    destruct (Hds d) as [Hdin Hlt]; [by left|].
    destruct (IH (id :: visiting) vs d) as [vs1 ->]; [done|lia| |].
    - intros v [->|Hv]%elem_of_cons; [done|]. specialize (Hpath v Hv). lia.
    - apply IHds. intros x Hx. apply Hds. by right. }
  destruct (Hfold (dependencies_of tasks id) visited Hall) as [vs ->]. by eexists.
Qed.

(** The index of a task in an order. *)
Definition position (ids : list string) (x : string) : nat :=
  match list_find (x =.) ids with Some (i, _) => i | None => length ids end.
Lemma position_lookup ids i x : NoDup ids -> ids !! i = Some x -> position ids x = i.
Proof.
  intros Hnd Hi. unfold position. destruct (list_find (x =.) ids) as [[j y]|] eqn:Hf.
  - apply list_find_Some in Hf as (Hj & <- & _). by eapply NoDup_lookup.
  - apply list_find_None in Hf. rewrite Forall_forall in Hf. exfalso. eapply Hf; [by eapply list_elem_of_lookup_2|done].
Qed.

Lemma foldM_unit_Ok {A} (f : A -> result ledger_error unit) l :
  foldM (fun _ x => f x) tt l = Ok tt <-> forall x, x ∈ l -> f x = Ok tt.
Proof.
  induction l as [|x l IH]; simpl.
  - split; [by intros _ x ?%not_elem_of_nil|done].
  - destruct (f x) as [[]|e] eqn:Hx.
    + rewrite IH. split; [intros H y [->|Hy]%elem_of_cons; auto|intros H y Hy; apply H; by right].
    + split; [done|]. intros H. specialize (H x (list_elem_of_here _ _)). congruence.
Qed.

Lemma check_contract_Ok ids c :
  check_contract ids c = Ok tt <->
  (exists n, safe_integer (lc_maxAttempts c) = Some n /\ 1 <= n) /\
  forall d, d ∈ lc_dependsOn c -> d <> lc_id c /\ d ∈ ids.
Proof.
  unfold check_contract. destruct (safe_integer (lc_maxAttempts c)) as [n|]; [|naive_solver].
  destruct (Z.ltb_spec n 1) as [Hn|Hn].
  { split; [done|]. intros [(m & [= <-] & Hm) _]. lia. }
  destruct (find_row _ _) as [d|] eqn:Hf.
  - split; [done|]. intros [_ Hd]. apply find_row_Some in Hf as [Hin Hp]. destruct (Hd d Hin) as [Hne Hids].
    apply orb_true_iff in Hp as [Hp%String.eqb_eq|Hp%negb_true_iff%bool_decide_eq_false]; done.
  - split; [|done]. intros _. split; [eauto|]. intros d Hd. pose proof (find_row_None _ _ Hf d Hd) as Hp.
    apply orb_false_iff in Hp as [Hp%String.eqb_neq Hp'%negb_false_iff%bool_decide_eq_true]. done.
Qed.

(** What a request must satisfy. *)
Definition request_ok (request : CompiledRequest) : Prop :=
  num_eq_Z (rp_version (cr_policy request)) 2 = true /\ cr_tasks request <> [] /\
  (forall c, c ∈ cr_tasks request -> exists n, safe_integer (lc_maxAttempts c) = Some n /\ 1 <= n) /\
  exists o, valid_order o /\ o ≡ₚ lc_task <$> cr_tasks request.

Lemma valid_order_dependency o t d :
  valid_order o -> t ∈ o -> d ∈ dependsOn t -> d <> task_id t /\ d ∈ task_id <$> o.
Proof.
  intros [Hnd Ho] (pre & post & ->)%list_elem_of_split Hd. pose proof (Ho pre t post eq_refl d Hd) as Hin. split.
  - intros ->. rewrite fmap_app, fmap_cons in Hnd. apply NoDup_app in Hnd as (_ & Hnd & _).
    apply (Hnd _ Hin). by left.
  - rewrite fmap_app. apply elem_of_app. by left.
Qed.

Lemma lc_ids (tasks : list LedgerContract) : task_id <$> (lc_task <$> tasks) = lc_id <$> tasks.
Proof. by rewrite <-list_fmap_compose. Qed.

Lemma check_request_sound request : check_request request = Ok tt -> request_ok request.
Proof.
  unfold check_request. cbv zeta. destruct (num_eq_Z _ 2) eqn:Hv; [|done].
  case_bool_decide as Hnd; [|done]. case_bool_decide as Hne; [done|].
  intros H. cbn -[visit] in H. apply bind_Ok in H as ([] & Hc & H). apply bind_Ok in H as (vs & Hvs & _).
  rewrite foldM_unit_Ok in Hc.
  assert (Hc' : forall c, c ∈ cr_tasks request -> (exists n, safe_integer (lc_maxAttempts c) = Some n /\ 1 <= n) /\
    forall d, d ∈ lc_dependsOn c -> d <> lc_id c /\ d ∈ lc_id <$> cr_tasks request).
  { intros c Hin. by apply check_contract_Ok, Hc. }
  split_and!; [done|done|intros c Hin; by apply Hc'|].
  apply (foldM_invariant _ (fun ids vs => id_order (cr_tasks request) vs /\ (forall d, d ∈ ids -> d ∈ vs))) in Hvs.
  - destruct Hvs as [Ho Hall].
    set (known := fun x => bool_decide (x ∈ lc_id <$> cr_tasks request)).
    apply (id_order_valid _ (keep known vs)); [done| |].
    + destruct Ho as [Hndv Ho]. split.
      * by apply NoDup_keep.
      * intros pre x post Heq d Hd.
        assert (Hsplit : exists a b, vs = a ++ x :: b /\ pre = keep known a).
        { clear -Heq. revert pre Heq. induction vs as [|y vs IH]; intros pre Heq; [by destruct pre|]. simpl in Heq.
          destruct (known y) eqn:Hy.
          - destruct pre as [|z pre]; injection Heq as <- Heq; [by exists [], vs|].
            destruct (IH pre) as (a & b & -> & ->); [done|]. exists (y :: a), b. simpl. by rewrite Hy.
          - destruct (IH pre Heq) as (a & b & -> & ->). exists (y :: a), b. simpl. by rewrite Hy. }
        destruct Hsplit as (a & b & -> & ->). apply elem_of_keep. split; [by eapply Ho|].
        apply bool_decide_eq_true. unfold dependencies_of in Hd.
        destruct (find_row _ _) as [c|] eqn:Hf; [|by apply not_elem_of_nil in Hd].
        apply find_row_Some in Hf as [Hcin _]. by apply Hc' in Hd as [_ Hd].
    + apply NoDup_Permutation; [|done|].
      * apply NoDup_keep, Ho.
      * intros x. rewrite elem_of_keep. unfold known. rewrite bool_decide_eq_true. naive_solver.
  - intros pre x b b' [Ho Hall] (Ho' & [k ->] & Hx & _)%visit_sound; [|done]. split; [done|].
    intros d [Hd| ->%list_elem_of_singleton]%elem_of_app; [|done]. apply elem_of_app. left. by apply Hall.
  - split; [apply id_order_nil|by intros d ?%not_elem_of_nil].
Qed.

Lemma check_request_complete request : request_ok request -> check_request request = Ok tt.
Proof.
  intros (Hv & Hne & Hmax & o & Hvo & Hp). pose proof Hvo as [Hnd Ho]. unfold check_request. cbv zeta.
  assert (Hids : NoDup (lc_id <$> cr_tasks request)) by (rewrite <-lc_ids; by rewrite <-Hp).
  rewrite Hv, (bool_decide_true (NoDup _)), bool_decide_false by done. cbn -[visit].
  assert (Hdep : forall c d, c ∈ cr_tasks request -> d ∈ lc_dependsOn c -> d <> lc_id c /\ d ∈ lc_id <$> cr_tasks request).
  { intros c d Hc Hd. assert (Hin : lc_task c ∈ o) by (rewrite Hp; by apply list_elem_of_fmap_2).
    apply (valid_order_dependency _ _ _ Hvo Hin) in Hd as [Hd1 Hd2]. split; [done|].
    by rewrite <-lc_ids, <-Hp. }
  rewrite (proj2 (foldM_unit_Ok _ _)).
  2: { intros c Hc. apply check_contract_Ok. split; [by apply Hmax|]. intros d Hd. by apply Hdep. }
  set (rank := position (task_id <$> o)).
  assert (Hrank : forall x d, x ∈ lc_id <$> cr_tasks request -> d ∈ dependencies_of (cr_tasks request) x ->
    d ∈ lc_id <$> cr_tasks request /\ (rank d < rank x)%nat).
  { intros x d (c & -> & Hc)%list_elem_of_fmap Hd. rewrite dependencies_of_contract in Hd by done.
    split; [by eapply Hdep|]. assert (Hin : lc_task c ∈ o) by (rewrite Hp; by apply list_elem_of_fmap_2).
    apply list_elem_of_split in Hin as (pre & post & Heq). pose proof (Ho _ _ _ Heq d Hd) as Hpre.
    apply list_elem_of_lookup in Hpre as [i Hi]. unfold rank.
    rewrite (position_lookup _ i d), (position_lookup _ (length pre) (lc_id c)); [|done| |done|].
    - apply lookup_lt_Some in Hi. by rewrite length_fmap in Hi.
    - rewrite Heq, fmap_app, lookup_app_r by (by rewrite length_fmap). by rewrite length_fmap, Nat.sub_diag.
    - rewrite Heq, fmap_app. by apply lookup_app_l_Some. }
  assert (Hbound : forall x, x ∈ lc_id <$> cr_tasks request -> (rank x < S (length (cr_tasks request)))%nat).
  { intros x Hx. rewrite <-lc_ids, <-Hp in Hx. apply list_elem_of_lookup in Hx as [i Hi].
    unfold rank. rewrite (position_lookup _ i x) by done. apply lookup_lt_Some in Hi.
    rewrite length_fmap, (Permutation_length Hp), length_fmap in Hi. lia. }
  assert (Hfold : forall ids vs, (forall x, x ∈ ids -> x ∈ lc_id <$> cr_tasks request) ->
    exists vs', foldM (visit (S (length (cr_tasks request))) (cr_tasks request) []) vs ids = Ok vs').
  { intros ids. induction ids as [|x ids IH]; intros vs Hin; [by eexists|]. cbn [foldM].
    destruct (visit_complete (S (length (cr_tasks request))) (cr_tasks request) _ [] vs x rank Hrank eq_refl) as [vs1 Hvs1].
    - apply Hin. by left.
    - apply Hbound, Hin. by left.
    - by intros v ?%not_elem_of_nil.
    - rewrite Hvs1. apply IH. intros y Hy. apply Hin. by right. }
  destruct (Hfold (lc_id <$> cr_tasks request) []) as [vs Hvs]; [done|].
  cbn -[visit]. rewrite Hvs. done.
Qed.

(** * The rows of new tasks

    [createDagRun] and [expandDagRun] insert the rows of tasks and dependencies; the state
    stays well formed when the tasks of the request can be ordered. *)

(** ** What the loops insert *)

Definition attempts_allowed (c : LedgerContract) : Prop := exists n, safe_integer (lc_maxAttempts c) = Some n /\ 1 <= n.
Definition task_row (now : Z) (c : LedgerContract) : DagTask := new_task now c (default 0 (safe_integer (lc_maxAttempts c))).
Definition edges (tasks : list LedgerContract) : list (string * string) :=
  c ← tasks; (fun d => (lc_id c, d)) <$> lc_dependsOn c.

Lemma existsb_is_task id r : existsb (is_task id) (dr_tasks r) = true <-> id ∈ dt_id <$> dr_tasks r.
Proof.
  rewrite existsb_exists, list_elem_of_fmap. setoid_rewrite is_task_true. setoid_rewrite <-list_elem_of_In. naive_solver.
Qed.
Lemma task_row_ids now (l : list LedgerContract) : dt_id <$> (task_row now <$> l) = lc_id <$> l.
Proof. by rewrite <-list_fmap_compose. Qed.

Lemma insert_task_Ok now c r r' :
  insert_task now c r = (r', Ok tt) <->
  attempts_allowed c /\ (lc_id c ∉ dt_id <$> dr_tasks r) /\ r' = with_tasks (dr_tasks r ++ [task_row now c]) r.
Proof.
  unfold insert_task, attempts_allowed, task_row. rewrite Tx_bind_Ok. setoid_rewrite get_Ok. split.
  - intros (? & ? & [-> ->] & H). committing.
    match goal with H : existsb _ _ = false |- _ => rename H into He end.
    match goal with H : safe_integer _ = Some _ |- _ => rewrite H end.
    split_and!; [eauto| |done]. intros Hin%existsb_is_task. congruence.
  - intros ((n & Hn & Hpos) & Hni & ->). exists r, r. split; [done|]. apply Tx_bind_Ok. exists r, n.
    split; [by apply positive_or_Ok|]. apply Tx_bind_Ok. exists r, tt. rewrite Hn. split; [|done].
    apply throw_if_Ok. split; [|done]. destruct (existsb _ _) eqn:E; [|done]. by apply existsb_is_task in E.
Qed.

Lemma insert_tasks_Ok now l r r' :
  NoDup (dt_id <$> dr_tasks r) ->
  forM_ l (insert_task now) r = (r', Ok tt) <->
  (forall c, c ∈ l -> attempts_allowed c) /\ NoDup ((dt_id <$> dr_tasks r) ++ (lc_id <$> l)) /\
  r' = with_tasks (dr_tasks r ++ (task_row now <$> l)) r.
Proof.
  revert r. induction l as [|c l IH]; intros r Hnd; cbn [forM_].
  - rewrite (M_ret_Ok tt tt r r'), app_nil_r. simpl. rewrite app_nil_r. destruct r. cbn. naive_solver set_solver.
  - rewrite Tx_bind_Ok. rewrite fmap_cons.
    rewrite (cons_middle (lc_id c)), (assoc_L (++)).
    assert (Heq : (dt_id <$> dr_tasks r) ++ [lc_id c] = dt_id <$> dr_tasks (with_tasks (dr_tasks r ++ [task_row now c]) r))
      by (simpl; by rewrite fmap_app).
    split.
    + intros (r1 & [] & (Hc & Hni & ->)%insert_task_Ok & H). rewrite IH in H.
      * destruct H as (Hl & Hn & ->). simpl in Hn. rewrite fmap_app in Hn. split_and!; [|done|].
        -- intros x [->|Hx]%elem_of_cons; auto.
        -- simpl. by rewrite <-(assoc_L (++)).
      * rewrite <-Heq. apply NoDup_app. split_and!; [done| |apply NoDup_singleton].
        by intros x Hx ->%list_elem_of_singleton.
    + intros (Hl & Hn & ->). exists (with_tasks (dr_tasks r ++ [task_row now c]) r), tt. split.
      * apply insert_task_Ok. split_and!; [apply Hl; by left| |done]. apply NoDup_app in Hn as (Hn & _ & _).
        apply NoDup_app in Hn as (_ & Hn & _). intros Hin. apply (Hn _ Hin). by left.
      * apply IH; rewrite <-Heq; [by apply NoDup_app in Hn as (Hn & _ & _)|]. split_and!; [|done|].
        -- intros x Hx. apply Hl. by right.
        -- simpl. by rewrite <-(assoc_L (++)).
Qed.

Lemma insert_dependency_Ok t d r r' :
  insert_dependency t d r = (r', Ok tt) <->
  ((t, d) ∉ dr_dependencies r) /\ t ∈ dt_id <$> dr_tasks r /\ d ∈ dt_id <$> dr_tasks r /\
  r' = with_dependencies (dr_dependencies r ++ [(t, d)]) r.
Proof.
  unfold insert_dependency. rewrite Tx_bind_Ok. setoid_rewrite get_Ok. rewrite <-!existsb_is_task. split.
  - intros (? & ? & [-> ->] & H). apply Tx_bind_Ok in H as (? & [] & [H1%bool_decide_eq_false ->]%throw_if_Ok & H).
    apply Tx_bind_Ok in H as (? & [] & [[H2 H3]%negb_false_iff%andb_true_iff ->]%throw_if_Ok & H).
    by apply modify_Ok in H as ->.
  - intros (H1 & H2 & H3 & ->). exists r, r. split; [done|]. apply Tx_bind_Ok. exists r, tt.
    split; [apply throw_if_Ok; split; [by apply bool_decide_eq_false|done]|]. apply Tx_bind_Ok. exists r, tt.
    split; [|done]. apply throw_if_Ok. by rewrite H2, H3.
Qed.

(** The edges can be inserted: they are new and join tasks of the run. *)
Definition linkable (es : list (string * string)) (r : DagRun) : Prop :=
  NoDup es /\ forall e, e ∈ es -> (e ∉ dr_dependencies r) /\ e.1 ∈ dt_id <$> dr_tasks r /\ e.2 ∈ dt_id <$> dr_tasks r.
(** They are inserted, and events recorded. *)
Definition linked (es : list (string * string)) (r r' : DagRun) : Prop :=
  exists events, r' = with_events events (with_dependencies (dr_dependencies r ++ es) r).

Lemma linkable_app es1 es2 r r1 :
  linked es1 r r1 -> linkable (es1 ++ es2) r <-> linkable es1 r /\ linkable es2 r1.
Proof.
  intros [ev ->]. unfold linkable. simpl. rewrite NoDup_app. split.
  - intros [(H1 & Hd & H2) H]. split; split; [done| |done|].
    + intros e He. apply H, elem_of_app. by left.
    + intros e He. destruct (H e) as (H3 & H4 & H5); [apply elem_of_app; by right|]. split_and!; [|done|done].
      intros [Hin|Hin]%elem_of_app; [done|]. by apply (Hd e).
  - intros [[H1 H] [H2 H']]. split; [split_and!; [done| |done]|].
    + intros e He He'. destruct (H' e He') as [Hn _]. apply Hn, elem_of_app. by right.
    + intros e [He|He]%elem_of_app; [by apply H|]. destruct (H' e He) as (Hn & ? & ?). split_and!; [|done|done].
      intros Hin. apply Hn, elem_of_app. by left.
Qed.
Lemma linked_app es1 es2 r r1 r2 : linked es1 r r1 -> linked es2 r1 r2 -> linked (es1 ++ es2) r r2.
Proof. intros [ev ->] [ev' ->]. exists ev'. cbn. by rewrite <-(assoc_L (++)). Qed.
Lemma linked_nil r : linked [] r r.
Proof. exists (dr_events r). destruct r. cbn. by rewrite app_nil_r. Qed.
Lemma linked_event es e r r' : linked es r r' -> linked es r (append_event e r').
Proof. intros [ev ->]. by eexists. Qed.

Lemma insert_dependency_list_Ok t ds r :
  linkable ((fun d => (t, d)) <$> ds) r <-> exists r', forM_ ds (insert_dependency t) r = (r', Ok tt).
Proof.
  revert r. induction ds as [|d ds IH]; intros r; cbn [forM_].
  - split; [intros _; by eexists|]. intros _. split; [constructor|by intros e ?%not_elem_of_nil].
  - rewrite fmap_cons. assert (Hl : linked [(t, d)] r (with_dependencies (dr_dependencies r ++ [(t, d)]) r)) by by eexists.
    change ((t, d) :: ?l) with ([(t, d)] ++ l). rewrite (linkable_app _ _ _ _ Hl), IH. split.
    + intros [[_ H1] [r' H]]. destruct (H1 (t, d)) as (? & ? & ?); [by left|]. exists r'. apply Tx_bind_Ok.
      eexists _, tt. split; [by apply insert_dependency_Ok|done].
    + intros [r' H]. apply Tx_bind_Ok in H as (r1 & [] & (H1 & H2 & H3 & ->)%insert_dependency_Ok & H).
      split; [|by exists r']. split; [apply NoDup_singleton|]. by intros e ->%list_elem_of_singleton.
Qed.
Lemma insert_dependency_list_linked t ds r r' :
  forM_ ds (insert_dependency t) r = (r', Ok tt) -> linked ((fun d => (t, d)) <$> ds) r r'.
Proof.
  revert r. induction ds as [|d ds IH]; intros r; cbn [forM_].
  - intros [-> _]%M_ret_Ok. apply linked_nil.
  - intros (r1 & [] & (_ & _ & _ & ->)%insert_dependency_Ok & H)%Tx_bind_Ok. rewrite fmap_cons.
    eapply (linked_app [_]); [|by apply IH]. by eexists.
Qed.

(** A loop of statements that each insert edges. *)
Lemma insert_edges_Ok now l r :
  linkable (edges l) r <-> exists r', forM_ l (insert_dependencies now) r = (r', Ok tt).
Proof.
  revert r. induction l as [|c l IH]; intros r; cbn [forM_].
  - split; [intros _; by eexists|]. intros _. split; [constructor|by intros e ?%not_elem_of_nil].
  - change (edges (c :: l)) with (((fun d => (lc_id c, d)) <$> lc_dependsOn c) ++ edges l). unfold insert_dependencies. split.
    + intros H. assert (H1 : linkable ((fun d => (lc_id c, d)) <$> lc_dependsOn c) r).
      { destruct H as [Hnd H]. split; [by apply NoDup_app in Hnd as (Hnd & _ & _)|].
        intros e He. apply H, elem_of_app. by left. }
      apply insert_dependency_list_Ok in H1 as [r1 H1]. pose proof (insert_dependency_list_linked _ _ _ _ H1) as Hl.
      apply linked_event with (e := event (EvTaskCreated c) now (Some (lc_id c))) in Hl.
      destruct (proj1 (linkable_app _ _ _ _ Hl) H) as [_ Hrest]. destruct (proj1 (IH _) Hrest) as [r' Hr']. exists r'.
      apply Tx_bind_Ok. eexists _, tt. split; [|exact Hr']. apply Tx_bind_Ok. eexists _, tt. split; [exact H1|done].
    + intros [r' H]. apply Tx_bind_Ok in H as (r2 & [] & H2 & H).
      apply Tx_bind_Ok in H2 as (r1 & [] & H1 & ->%insertDagEvent_Ok). 
      eapply linkable_app; [by eapply linked_event, insert_dependency_list_linked|].
      split; [apply insert_dependency_list_Ok; by eexists|apply IH; by eexists].
Qed.
Lemma insert_edges_linked now l r r' :
  forM_ l (insert_dependencies now) r = (r', Ok tt) -> linked (edges l) r r'.
Proof.
  revert r. induction l as [|c l IH]; intros r; cbn [forM_].
  - intros [-> _]%M_ret_Ok. apply linked_nil.
  - intros (r2 & [] & H2 & H)%Tx_bind_Ok. unfold insert_dependencies in H2.
    apply Tx_bind_Ok in H2 as (r1 & [] & H1 & ->%insertDagEvent_Ok).
    eapply linked_app; [by eapply linked_event, insert_dependency_list_linked|by apply IH].
Qed.

(** ** Growing a run *)

Lemma elem_of_edges tasks x d :
  (x, d) ∈ edges tasks <-> exists c, c ∈ tasks /\ lc_id c = x /\ d ∈ lc_dependsOn c.
Proof.
  unfold edges. rewrite list_elem_of_bind. split.
  - intros (c & (d' & [= -> ->] & Hd)%list_elem_of_fmap & Hc). eauto.
  - intros (c & Hc & <- & Hd). exists c. split; [|done]. apply list_elem_of_fmap. eauto.
Qed.

Lemma task_row_ok now c : attempts_allowed c -> task_ok (task_row now c) [].
Proof.
  intros (n & Hn & Hpos). unfold task_row. rewrite Hn. split; cbn; try done; [lia|].
  split_and!; [constructor|done..|]. left. lia.
Qed.

Lemma ids_of_request r : tasks_wf r -> dt_id <$> dr_tasks r = lc_id <$> cr_tasks (rr_request (dr_row r)).
Proof. intros Hwf. rewrite <-(wf_request _ Hwf), <-list_fmap_compose. done. Qed.

(** A recorded dependency joins tasks of the run. *)
Lemma dependency_ids r x d :
  tasks_wf r -> (x, d) ∈ dr_dependencies r -> x ∈ dt_id <$> dr_tasks r /\ d ∈ dt_id <$> dr_tasks r.
Proof.
  intros Hwf (c & Hc & <- & Hd)%(wf_dependencies _ Hwf). rewrite (ids_of_request _ Hwf). split; [by apply list_elem_of_fmap_2|].
  destruct (wf_order _ Hwf) as (o & Ho & Hp).
  assert (Hin : lc_task c ∈ o) by (rewrite Hp; by apply list_elem_of_fmap_2).
  destruct (valid_order_dependency _ _ _ Ho Hin Hd) as [_ Hd']. by rewrite Hp, lc_ids in Hd'.
Qed.

Lemma elem_of_prerequisites r id p :
  p ∈ prerequisites r id <-> p ∈ dr_tasks r /\ (id, dt_id p) ∈ dr_dependencies r.
Proof.
  unfold prerequisites. rewrite elem_of_keep, existsb_exists. setoid_rewrite <-list_elem_of_In. split.
  - intros [Hp ([x d] & Hin & (He1%String.eqb_eq & He2%String.eqb_eq)%andb_true_iff)]. by subst.
  - intros [Hp Hin]. split; [done|]. exists (id, dt_id p). split; [done|]. by rewrite !String.eqb_refl.
Qed.

Section growth.
Context (now : Z) (l : list LedgerContract) (r r' : DagRun).
Context (Hwf : tasks_wf r) (Htasks : dr_tasks r' = dr_tasks r ++ (task_row now <$> l)).
Context (Hdeps : dr_dependencies r' = dr_dependencies r ++ edges l) (Hatt : dr_attempts r' = dr_attempts r).
Context (Hreq : cr_tasks (rr_request (dr_row r')) = cr_tasks (rr_request (dr_row r)) ++ l).
Context (Hnd : NoDup ((dt_id <$> dr_tasks r) ++ (lc_id <$> l))).

(** The new tasks are prerequisites of new tasks only. *)
Lemma grown_prerequisites t p :
  t ∈ dr_tasks r -> p ∈ prerequisites r' (dt_id t) -> p ∈ prerequisites r (dt_id t).
Proof.
  intros Ht [Hp Hd]%elem_of_prerequisites. rewrite Htasks, Hdeps in *. apply NoDup_app in Hnd as (_ & Hdisj & _).
  apply elem_of_app in Hd as [Hd|(c & Hc & He & _)%elem_of_edges].
  - apply elem_of_prerequisites. split; [|done]. apply elem_of_app in Hp as [Hp|Hp]; [done|].
    exfalso. destruct (dependency_ids _ _ _ Hwf Hd) as [_ Hin]. apply (Hdisj _ Hin).
    rewrite <-(task_row_ids now). by apply list_elem_of_fmap_2.
  - exfalso. apply (Hdisj (dt_id t)); [by apply list_elem_of_fmap_2|]. rewrite <-He. by apply list_elem_of_fmap_2.
Qed.

Lemma tasks_wf_grow :
  (forall c, c ∈ l -> attempts_allowed c) ->
  (exists o, valid_order o /\ o ≡ₚ lc_task <$> cr_tasks (rr_request (dr_row r'))) -> tasks_wf r'.
Proof.
  intros Hl Ho.
  assert (Hids : dt_id <$> dr_tasks r' = (dt_id <$> dr_tasks r) ++ (lc_id <$> l)).
  { by rewrite Htasks, fmap_app, task_row_ids. }
  assert (Hof : forall id, attempts_of id r' = attempts_of id r) by (intros id; unfold attempts_of; by rewrite Hatt).
  split; [by rewrite Hids|rewrite Hatt; apply Hwf| | | | |done|].
  - intros a Ha. rewrite Hatt in Ha. rewrite Hids. apply elem_of_app. left. by apply (wf_attempt_tasks _ Hwf).
  - intros t Ht. rewrite Hof. rewrite Htasks in Ht. apply elem_of_app in Ht as [Ht|(c & -> & Hc)%list_elem_of_fmap].
    + by apply (wf_tasks _ Hwf).
    + replace (attempts_of _ r) with (@nil DagAttempt); [by apply task_row_ok, Hl|]. symmetry. apply keep_none.
      intros a Ha. apply String.eqb_neq. intros He. apply (wf_attempt_tasks _ Hwf) in Ha. rewrite He in Ha.
      apply NoDup_app in Hnd as (_ & Hdisj & _). apply (Hdisj _ Ha). by apply (list_elem_of_fmap_2 lc_id).
  - rewrite Htasks, Hreq, fmap_app, (wf_request _ Hwf), <-list_fmap_compose. f_equal.
    rewrite <-(list_fmap_id l) at 2. done.
  - intros x d. rewrite Hdeps, Hreq, elem_of_app, elem_of_edges, (wf_dependencies _ Hwf).
    setoid_rewrite elem_of_app. naive_solver.
  - intros t Ht Hc p Hp. rewrite Htasks in Ht. apply elem_of_app in Ht as [Ht|(c & -> & _)%list_elem_of_fmap]; [|done].
    apply (wf_started _ Hwf t Ht Hc). by apply grown_prerequisites.
Qed.

(** New tasks wait, and the others do not when they have succeeded. *)
Lemma frontier_grow : (forall t, t ∈ dr_tasks r -> dt_status t = TSucceeded) -> frontier_ok r'.
Proof.
  intros Hs t p _ _ [Hp _]%elem_of_prerequisites. rewrite Htasks in Hp.
  apply elem_of_app in Hp as [Hp|(c & -> & _)%list_elem_of_fmap]; [rewrite (Hs p Hp)|]; by split_and!.
Qed.
End growth.

(** ** Creating a run *)

Definition no_tasks (now : Z) (request : CompiledRequest) (usage : option Usage) : DagRun :=
  {| dr_row := new_row now request usage; dr_tasks := []; dr_dependencies := []; dr_attempts := []; dr_events := [] |}.
Definition insert_run (exists_ : bool) (request : CompiledRequest) (now : Z) : Tx unit :=
  decodeCompiledDagRequest request ;;
  throw_if exists_ EConstraint ;;
  insertDagEvent EvRunCreated now None ;;
  forM_ (cr_tasks request) (insert_task now) ;;
  forM_ (cr_tasks request) (insert_dependencies now).

Lemma createDagRun_insert runId exists_ request usage now r :
  createDagRun runId exists_ request usage now = Ok r <->
  runId <> "" /\ check_request request = Ok tt /\
  insert_run exists_ request now (no_tasks now request usage) = (r, Ok tt).
Proof.
  unfold createDagRun. fold (insert_run exists_ request now). fold (no_tasks now request usage).
  destruct (String.eqb_spec runId "") as [->|Hid]; [split; [done|by intros [? _]]|].
  destruct (check_request request) as [[]|e]; [|split; [done|by intros (_ & ? & _)]].
  cbn -[insert_run no_tasks]. unfold transaction.
  destruct (insert_run exists_ request now (no_tasks now request usage)) as [r1 [[]|e]]; naive_solver.
Qed.

(** What a new run must satisfy beyond [request_ok]. *)
Definition insertable (request : CompiledRequest) : Prop :=
  num_eq_Z (rp_handoffProtocolVersion (cr_policy request)) 2 = true /\
  forall c, c ∈ cr_tasks request -> NoDup (lc_dependsOn c).

Lemma NoDup_edges tasks :
  NoDup (lc_id <$> tasks) -> NoDup (edges tasks) <-> forall c, c ∈ tasks -> NoDup (lc_dependsOn c).
Proof.
  induction tasks as [|c tasks IH]; [by split; [intros _ c ?%not_elem_of_nil|constructor]|].
  rewrite fmap_cons. intros [Hc Hnd]%NoDup_cons. change (edges (c :: tasks)) with (((fun d => (lc_id c, d)) <$> lc_dependsOn c) ++ edges tasks).
  rewrite NoDup_app, (IH Hnd). split.
  - intros (H1 & _ & H2) x [->|Hx]%elem_of_cons; [by apply NoDup_fmap_1 in H1|auto].
  - intros H. split_and!.
    + apply NoDup_fmap_2; [by intros ?? [=]|]. apply H. by left.
    + intros e (d & -> & _)%list_elem_of_fmap (c' & Hc' & He & _)%elem_of_edges. apply Hc. rewrite <-He.
      by apply list_elem_of_fmap_2.
    + intros x Hx. apply H. by right.
Qed.

(** The rows of a run just created. *)
Lemma insert_run_Ok exists_ request now r0 r :
  dr_tasks r0 = [] -> insert_run exists_ request now r0 = (r, Ok tt) ->
  exists_ = false /\ num_eq_Z (rp_handoffProtocolVersion (cr_policy request)) 2 = true /\
  (forall c, c ∈ cr_tasks request -> attempts_allowed c) /\ NoDup (lc_id <$> cr_tasks request) /\
  exists r1, r1 = with_tasks (task_row now <$> cr_tasks request) (append_event (event EvRunCreated now None) r0) /\
    forM_ (cr_tasks request) (insert_dependencies now) r1 = (r, Ok tt).
Proof.
  intros H0 H. unfold insert_run in H.
  apply Tx_bind_Ok in H as (? & ? & Hd & H). unfold decodeCompiledDagRequest in Hd.
  apply Tx_bind_Ok in Hd as (? & [] & [Hv ->]%throw_if_Ok & [-> _]%M_ret_Ok).
  apply negb_false_iff, andb_true_iff in Hv as [_ Hv].
  apply Tx_bind_Ok in H as (? & [] & [-> ->]%throw_if_Ok & H).
  apply Tx_bind_Ok in H as (? & [] & ->%insertDagEvent_Ok & H).
  apply Tx_bind_Ok in H as (r1 & [] & Ht & H). apply insert_tasks_Ok in Ht as (Hl & Hnd & ->); [|simpl; rewrite H0; constructor].
  simpl in Hnd. rewrite H0 in Hnd. simpl in Hnd. split_and!; try done. eexists. split; [|exact H].
  simpl. by rewrite H0.
Qed.

(** C22. [createDagRun] accepts exactly the requests of a supported version whose tasks have
    distinct identifiers, may be attempted, list no dependency twice, and can be put in an
    order in which every task follows its dependencies. *)
Theorem createDagRun_accepts runId exists_ request usage now :
  (exists r, createDagRun runId exists_ request usage now = Ok r) <->
  runId <> "" /\ exists_ = false /\ request_ok request /\ insertable request.
Proof.
  setoid_rewrite createDagRun_insert. split.
  - intros (r & Hid & Hc & H). apply insert_run_Ok in H as (He & Hv & _ & Hnd & r1 & _ & H); [|done].
    split_and!; [done|done|by apply check_request_sound|]. split; [done|]. apply NoDup_edges; [done|].
    by apply (insert_edges_Ok now _ r1); eexists.
  - intros (Hid & -> & Hok & Hv & Hdup). pose proof (check_request_complete _ Hok) as Hc.
    destruct Hok as (Hver & _ & Hmax & o & Ho & Hp).
    assert (Hnd : NoDup (lc_id <$> cr_tasks request)) by (rewrite <-lc_ids, <-Hp; apply Ho).
    set (r1 := with_tasks (task_row now <$> cr_tasks request)
                 (append_event (event EvRunCreated now None) (no_tasks now request usage))).
    assert (Hl : linkable (edges (cr_tasks request)) r1).
    { split; [by apply NoDup_edges|]. intros [x d] (c & Hc' & <- & Hd)%elem_of_edges. simpl. split_and!.
      - apply not_elem_of_nil.
      - rewrite task_row_ids. by apply list_elem_of_fmap_2.
      - rewrite task_row_ids. assert (Hin : lc_task c ∈ o) by (rewrite Hp; by apply list_elem_of_fmap_2).
        destruct (valid_order_dependency _ _ _ Ho Hin Hd) as [_ Hd']. by rewrite Hp, lc_ids in Hd'. }
    apply (insert_edges_Ok now) in Hl as [r Hr]. exists r. split_and!; [done|done|]. unfold insert_run.
    apply Tx_bind_Ok. eexists _, _. split.
    { unfold decodeCompiledDagRequest. rewrite Hver, Hv. reflexivity. }
    apply Tx_bind_Ok. eexists _, tt. split; [reflexivity|]. apply Tx_bind_Ok. eexists _, tt. split; [reflexivity|].
    apply Tx_bind_Ok. exists r1, tt. split; [|done]. apply insert_tasks_Ok; [constructor|]. by split_and!.
Qed.

Definition without_tasks (request : CompiledRequest) : CompiledRequest :=
  {| cr_tasks := []; cr_sealed := cr_sealed request; cr_policy := cr_policy request |}.
Lemma no_tasks_wf now request usage : tasks_wf (no_tasks now (without_tasks request) usage).
Proof.
  split; simpl.
  - constructor.
  - constructor.
  - by intros a ?%not_elem_of_nil.
  - by intros t ?%not_elem_of_nil.
  - done.
  - intros x d. split; [by intros ?%not_elem_of_nil|]. by intros (c & ?%not_elem_of_nil & _).
  - exists []. split; [split; [constructor|by intros [|??] ??]|done].
  - by intros t ?%not_elem_of_nil.
Qed.

(** A new run is well formed and has only waiting tasks. *)
Lemma create_core runId exists_ request usage now r :
  createDagRun runId exists_ request usage now = Ok r ->
  core_wf r /\ dr_row r = new_row now request usage /\ dr_attempts r = [] /\
  forall t, t ∈ dr_tasks r -> dt_status t = TPending /\ dt_attemptCount t = 0.
Proof.
  intros (_ & Hc%check_request_sound & H)%createDagRun_insert.
  apply insert_run_Ok in H as (_ & _ & Hl & Hnd & r1 & -> & H); [|done].
  apply insert_edges_linked in H as [ev ->]. split_and!; [|done|done|].
  - pose proof (no_tasks_wf now request usage) as Hwf. split.
    + eapply (tasks_wf_grow now (cr_tasks request)); [exact Hwf|done|done|done|done|done|done|apply Hc].
    + eapply (frontier_grow now (cr_tasks request) (no_tasks now (without_tasks request) usage)); [done|by intros t ?%not_elem_of_nil].
  - simpl. by intros t (c & -> & _)%list_elem_of_fmap.
Qed.

(** ** Expanding a run *)

Lemma stable_ids_sound rounds tasks completed ordered :
  valid_order ordered -> (forall t, t ∈ ordered -> t ∈ tasks) -> completed = task_id <$> ordered ->
  (exists ids, stable_ids rounds tasks completed = Ok ids) ->
  exists o, valid_order o /\ (forall t, t ∈ o -> t ∈ tasks) /\ length o = (rounds + length ordered)%nat.
Proof.
  revert completed ordered. induction rounds as [|rounds IH]; intros completed ordered Hv Hsub -> [ids H];
    cbn [stable_ids] in H; [by exists ordered|].
  destruct (find_task _ tasks) as [next|] eqn:Hf; [|done].
  apply find_task_Some in Hf as (pre & post & Htasks & Hr & _).
  destruct (IH ((task_id <$> ordered) ++ [task_id next]) (ordered ++ [next])) as (o & H1 & H2 & H3).
  - by apply valid_order_snoc.
  - intros t [Ht| ->%list_elem_of_singleton]%elem_of_app; [by apply Hsub|]. rewrite Htasks.
    apply elem_of_app. right. by left.
  - by rewrite fmap_app.
  - by eexists.
  - exists o. split_and!; [done|done|]. rewrite H3, length_app. simpl. lia.
Qed.

Lemma stableTopologicalTaskIds_order tasks ids :
  stableTopologicalTaskIds tasks = Ok ids -> exists o, valid_order o /\ o ≡ₚ lc_task <$> tasks.
Proof.
  intros H. unfold stableTopologicalTaskIds in H.
  destruct (stable_ids_sound (length tasks) (lc_task <$> tasks) [] []) as (o & Ho & Hsub & Hlen).
  - split; [constructor|by intros [|??] ??].
  - by intros t ?%not_elem_of_nil.
  - done.
  - by exists ids.
  - exists o. split; [done|]. simpl in Hlen. apply submseteq_length_Permutation; [|rewrite length_fmap; lia].
    apply NoDup_submseteq; [|done]. destruct Ho as [Hnd _]. by apply NoDup_fmap_1 in Hnd.
Qed.

(** What [expandDagRun] commits: the tasks it adds wait, the others have succeeded. *)
Lemma expand_Ok version expanded now lease r r' :
  tasks_wf r -> expandDagRun version expanded now lease r = (r', Ok tt) ->
  exists added, cr_tasks expanded = cr_tasks (rr_request (dr_row r)) ++ added /\
    open_status (rr_status (dr_row r)) = true /\ rr_pausedAt (dr_row r) <> None /\
    (forall t, t ∈ dr_tasks r -> dt_status t = TSucceeded) /\ (forall c, c ∈ added -> attempts_allowed c) /\
    NoDup (lc_id <$> cr_tasks expanded) /\ (exists o, valid_order o /\ o ≡ₚ lc_task <$> cr_tasks expanded) /\
    dr_tasks r' = dr_tasks r ++ (task_row now <$> added) /\ dr_dependencies r' = dr_dependencies r ++ edges added /\
    dr_attempts r' = dr_attempts r /\
    dr_row r' = row_touch now (row_graph expanded (rr_graphVersion (dr_row r) + 1) (cr_sealed expanded) (dr_row r)).
Proof.
  intros Hwf H. unfold expandDagRun in H. cbv zeta in H.
  apply Tx_bind_Ok in H as (? & v & (-> & _ & _)%positive_or_Ok & H). apply (proj1 (transaction_Ok _ _ _ _)) in H.
  apply Tx_bind_Ok in H as (? & ? & [-> ->]%get_Ok & H).
  apply Tx_bind_Ok in H as (? & [] & (-> & _ & _)%assert_lease_Ok & H).
  apply Tx_bind_Ok in H as (? & [] & [Hopen%negb_false_iff ->]%throw_if_Ok & H).
  apply Tx_bind_Ok in H as (? & [] & [Hpaused%bool_decide_eq_false ->]%throw_if_Ok & H).
  do 3 (apply Tx_bind_Ok in H as (? & [] & [_ ->]%throw_if_Ok & H)).
  apply Tx_bind_Ok in H as (? & ? & Hd & H). unfold decodeCompiledDagRequest in Hd.
  apply Tx_bind_Ok in Hd as (? & [] & [_ ->]%throw_if_Ok & [-> ->]%M_ret_Ok).
  apply Tx_bind_Ok in H as (? & [] & [_ ->]%throw_if_Ok & H).
  apply Tx_bind_Ok in H as (? & [] & [Htake%negb_false_iff%bool_decide_eq_true ->]%throw_if_Ok & H).
  apply Tx_bind_Ok in H as (? & [] & [_ ->]%throw_if_Ok & H).
  apply Tx_bind_Ok in H as (? & ids & [-> Horder%stableTopologicalTaskIds_order]%lift_Ok & H).
  apply Tx_bind_Ok in H as (? & [] & [Hnd%negb_false_iff%bool_decide_eq_true ->]%throw_if_Ok & H).
  apply Tx_bind_Ok in H as (? & own & [-> _]%lift_Ok & H).
  apply Tx_bind_Ok in H as (? & [] & Hall & H). destruct (find_row _ _) eqn:Hfind; [done|].
  apply M_ret_Ok in Hall as [-> _].
  apply Tx_bind_Ok in H as (r1 & [] & Ht & H). apply Tx_bind_Ok in H as (r2 & [] & He%insert_edges_linked & H).
  apply Tx_bind_Ok in H as (r3 & [] & Hu%expect_one_Ok & ->%insertDagEvent_Ok). apply update_run_one in Hu as [_ ->].
  apply insert_tasks_Ok in Ht as (Hmax & _ & ->); [|apply Hwf]. destruct He as [ev ->].
  exists (drop (length (cr_tasks (rr_request (dr_row r)))) (cr_tasks expanded)).
  split_and!; try done.
  - rewrite <-Htake at 1. by rewrite take_drop.
  - intros t Ht. pose proof (find_row_None _ _ Hfind t Ht) as Hs. by apply negb_false_iff, has_status_true in Hs.
Qed.

Lemma expand_core version expanded now lease r r' :
  core_wf r -> expandDagRun version expanded now lease r = (r', Ok tt) -> core_wf r'.
Proof.
  intros [Hwf _] (added & Heq & _ & _ & Hs & Hmax & Hnd & Ho & Ht & Hd & Ha & Hrow)%expand_Ok; [|done].
  assert (Hreq : cr_tasks (rr_request (dr_row r')) = cr_tasks (rr_request (dr_row r)) ++ added) by (by rewrite Hrow).
  assert (Hids : NoDup ((dt_id <$> dr_tasks r) ++ (lc_id <$> added))).
  { by rewrite (ids_of_request _ Hwf), <-fmap_app, <-Heq. }
  split.
  - eapply (tasks_wf_grow now added r); try done. by rewrite Hrow.
  - by eapply (frontier_grow now added r).
Qed.
