(* ===== verification/LedgerSafety.v ===== *)
(** * Every reachable run is well formed

    Each operation of the ledger preserves [ledger_wf], and a created run satisfies it; what is
    settled never changes again. *)
From S2P Require Import Prelude JsNumber SessionTypes JsText JsonNumber JsonText Subagent RetryPolicy.
From S2P Require Import LedgerTypes Ledger LedgerTasks LedgerInvariant LedgerPreservation LedgerCreation.

(** ** The row of the run *)

(** The rule for operations that leave the tasks alone. *)
Lemma row_ok_tasks r r' :
  row_ok r -> dr_tasks r' = dr_tasks r -> rr_status (dr_row r') = rr_status (dr_row r) ->
  rr_pausedAt (dr_row r') = rr_pausedAt (dr_row r) \/ rr_pausedAt (dr_row r') = None ->
  (rr_owner (dr_row r') = None <-> rr_leaseExpiresAt (dr_row r') = None) -> 0 <= rr_epoch (dr_row r') ->
  (terminal_status (rr_status (dr_row r)) = true -> rr_owner (dr_row r') = None) -> row_ok r'.
Proof.
  intros (Hol & Hep & Hterm & Hpause & Hst) Ht Hs Hp Hol' Hep' Hterm'. unfold row_ok. cbv zeta. rewrite Hs, Ht.
  split_and!; [done|done| | |done].
  - intros Hx. split; [by apply Hterm'|]. destruct (Hterm Hx) as [_ Hpn]. destruct Hp; congruence.
  - intros Hne. apply Hpause. destruct Hp; congruence.
Qed.

(** The rule for operations on a run that is running. *)
Lemma row_ok_running r r' :
  row_ok r -> rr_status (dr_row r) = RunRunning -> same_run r r' ->
  (rr_pausedAt (dr_row r) <> None -> forall t, t ∈ dr_tasks r' -> dt_status t <> TRunning) -> row_ok r'.
Proof.
  intros (Hol & Hep & _ & _ & _) Hs (u & n & m & Hrow) Hp. unfold row_ok. cbv zeta. rewrite Hrow. simpl.
  rewrite Hs. by split_and!.
Qed.

(** No statement but those of the run's own operations changes more than its accounting. *)
Lemma perform_same_run runId op :
  match op with
  | OpSetUsage _ _ _ _ | OpReconcile _ _ | OpClaim _ _ _ _ _ _ _ | OpHeartbeat _ _ _ _ _ _ | OpCheckpoint _ _ _ _ _ _
  | OpAccounting _ _ _ _ _ _ _ | OpComplete _ _ _ _ _ _ | OpOpenCircuit _ _ _ _ _ _ _ _ _ | OpRecover _ _ =>
      travels same_run (perform runId op)
  | _ => True
  end.
Proof.
  destruct op; try done; cbn [perform]; travelling_op; intros; unfold same_run; simpl;
    first [ by eexists _, _, _ | eexists _, _, _; apply row_eta
          | match goal with |- exists _ _ _, row_touch _ ?row = _ =>
              exists (rr_usage row), (rr_turns row); eexists; by destruct row end ].
Qed.

(** A running task means that the run is not paused. *)
Lemma running_not_paused r t : row_ok r -> t ∈ dr_tasks r -> dt_status t = TRunning -> rr_pausedAt (dr_row r) = None.
Proof.
  intros (_ & _ & _ & Hp & _) Ht Hs. destruct (rr_pausedAt (dr_row r)) eqn:E; [|done]. by destruct (Hp ltac:(done) t Ht).
Qed.
Lemma row_ok_attempt r r' t taskId attemptId ownerId now :
  row_ok r -> t ∈ dr_tasks r -> keeps_attempt r taskId attemptId ownerId now t = true -> same_run r r' -> row_ok r'.
Proof.
  intros Hok Ht [[Hr _]%andb_true_iff Hs%bool_decide_eq_true]%andb_true_iff Hsame.
  apply runs_attempt_true in Hr as (_ & Hr & _).
  eapply row_ok_running; [done..|]. by rewrite (running_not_paused _ _ Hok Ht Hr).
Qed.
Lemma row_ok_kept r r' taskId attemptId ownerId now :
  row_ok r -> 1 = zlen (keep (keeps_attempt r taskId attemptId ownerId now) (dr_tasks r)) -> same_run r r' -> row_ok r'.
Proof. intros Hok (t & _ & Ht & Hk)%keep_one Hs. by eapply row_ok_attempt. Qed.

Lemma complete_running runId taskId attemptId ownerId c now lease r r' :
  completeDagTask runId taskId attemptId ownerId c now lease r = (r', Ok tt) ->
  r' = r \/ exists t now', t ∈ dr_tasks r /\ keeps_attempt r taskId attemptId ownerId now' t = true.
Proof.
  intros H. unfold_operations. apply Tx_bind_Ok in H as (? & t0 & [-> Hnow]%safe_or_Ok & H).
  apply (proj1 (transaction_Ok _ _ _ _)) in H.
  apply Tx_bind_Ok in H as (? & [] & [_ ->]%throw_if_Ok & H).
  apply Tx_bind_Ok in H as (? & x & [-> ->]%get_Ok & H).
  destruct (find_row (is_task taskId) (dr_tasks r)) as [row|] eqn:Hrow; [|done].
  apply find_row_Some in Hrow as [Hin _].
  apply Tx_bind_Ok in H as (? & [] & (-> & _)%assert_lease_Ok & H).
  destruct (find_row _ (dr_attempts r)) as [prior|]; [|done].
  destruct (has_status TSucceeded row); [apply throw_if_Ok in H as [_ ->]; by left|].
  destruct (negb (is_success c) && _); [apply M_ret_Ok in H as [-> _]; by left|].
  apply Tx_bind_Ok in H as (? & [] & [Hk%negb_false_iff ->]%throw_if_Ok & _). right. by exists row, t0.
Qed.

Lemma claim_running uuid foreign ownerId now d limit lease r r' cs :
  claimRunnableTasks uuid foreign ownerId now d limit lease r = (r', Ok cs) ->
  r' = r \/ rr_status (dr_row r) = RunRunning /\ rr_pausedAt (dr_row r) = None.
Proof.
  intros H. unfold_operations. committing; try (by left).
  all: right; match goal with Hb : negb _ = false |- _ =>
    apply negb_false_iff, andb_true_iff in Hb as [Hs%bool_decide_eq_true Hp%bool_decide_eq_true] end; by split.
Qed.

(** ** Changing the state of the run *)

Lemma assert_success_Ok r r1 r' :
  assert_success r r1 = (r', Ok tt) -> r' = r1 /\ rr_graphSealed (dr_row r) = true /\ rr_pausedAt (dr_row r) = None /\
    rr_integrationFailure (dr_row r) = None /\ (forall t, t ∈ dr_tasks r -> dt_status t = TSucceeded) /\
    (rp_mergeEnabled (cr_policy (rr_request (dr_row r))) = true -> rr_integration (dr_row r) <> None) /\
    forall i, rr_integration (dr_row r) = Some i -> ia_complete i = true /\ ia_gatePassed i = true.
Proof.
  intros H. unfold assert_success in H. cbv zeta in H.
  apply Tx_bind_Ok in H as (? & [] & [Hp%bool_decide_eq_false ->]%throw_if_Ok & H).
  apply Tx_bind_Ok in H as (? & [] & [Hg%negb_false_iff ->]%throw_if_Ok & H).
  apply Tx_bind_Ok in H as (? & [] & [Hif ->]%throw_if_Ok & H).
  apply Tx_bind_Ok in H as (? & [] & Hall & H). destruct (find_row _ _) eqn:Hfind; [done|].
  apply M_ret_Ok in Hall as [-> _].
  apply Tx_bind_Ok in H as (? & ? & Hd & H). unfold decodeCompiledDagRequest in Hd.
  apply Tx_bind_Ok in Hd as (? & [] & [_ ->]%throw_if_Ok & [-> ->]%M_ret_Ok).
  apply Tx_bind_Ok in H as (? & [] & [Hm ->]%throw_if_Ok & [Hc ->]%throw_if_Ok).
  split_and!; [done|done| | | | |].
  - by apply dec_stable.
  - by destruct (rr_integrationFailure (dr_row r)).
  - intros t Ht. pose proof (find_row_None _ _ Hfind t Ht) as Hs. by apply negb_false_iff, has_status_true in Hs.
  - intros Hmerge Hnone. by rewrite Hmerge, Hnone in Hm.
  - intros i Hi. rewrite Hi in Hc. by apply negb_false_iff, andb_true_iff in Hc.
Qed.

(** A status that is set follows the transitions; success needs every task, and a run that
    fails or is cancelled keeps no task going. *)
Lemma setDagRunStatus_Ok next now lease r r' :
  core_wf r -> setDagRunStatus next now lease r = (r', Ok tt) ->
  r' = r /\ rr_status (dr_row r) = next \/
  core_wf r' /\ next ∈ RUN_TRANSITIONS (rr_status (dr_row r)) /\ rr_status (dr_row r') = next /\
  0 <= rr_epoch (dr_row r') - rr_epoch (dr_row r) /\
  (if terminal_status next
   then rr_owner (dr_row r') = None /\ rr_leaseExpiresAt (dr_row r') = None /\ rr_pausedAt (dr_row r') = None
   else rr_owner (dr_row r') = rr_owner (dr_row r) /\ rr_leaseExpiresAt (dr_row r') = rr_leaseExpiresAt (dr_row r) /\
     rr_pausedAt (dr_row r') = rr_pausedAt (dr_row r) /\ dr_tasks r' = dr_tasks r) /\
  (next = RunSucceeded -> forall t, t ∈ dr_tasks r' -> dt_status t = TSucceeded) /\
  (next = RunFailed \/ next = RunCancelled -> forall t, t ∈ dr_tasks r' -> unsettled t = false).
Proof.
  intros [Hwf Hfr] H. unfold setDagRunStatus in H. apply (proj1 (transaction_Ok _ _ _ _)) in H.
  apply Tx_bind_Ok in H as (? & x & [-> ->]%get_Ok & H). cbv zeta in H.
  destruct (terminal_status (rr_status (dr_row r))).
  { apply throw_if_Ok in H as [H%negb_false_iff%bool_decide_eq_true ->]. by left. }
  apply Tx_bind_Ok in H as (? & [] & (-> & _ & _)%assert_lease_Ok & H).
  destruct (bool_decide_reflect (rr_status (dr_row r) = next)) as [Heq|Hne]; [apply M_ret_Ok in H as [-> _]; by left|].
  apply Tx_bind_Ok in H as (? & [] & [Htr%negb_false_iff%bool_decide_eq_true ->]%throw_if_Ok & H).
  apply Tx_bind_Ok in H as (r1 & [] & Hsucc & H). apply Tx_bind_Ok in H as (r2 & [] & Hfence & H).
  apply Tx_bind_Ok in H as (? & [] & [_ ->]%throw_if_Ok & H).
  apply Tx_bind_Ok in H as (r3 & [] & Hu%expect_one_Ok & ->%insertDagEvent_Ok). apply update_run_one in Hu as [_ ->].
  assert (Hs : r1 = r /\ (next = RunSucceeded -> forall t, t ∈ dr_tasks r -> dt_status t = TSucceeded)).
  { destruct (bool_decide_reflect (next = RunSucceeded)) as [Hn|Hn].
    - apply assert_success_Ok in Hsucc as (-> & _ & _ & _ & Hall & _). done.
    - by apply M_ret_Ok in Hsucc as [-> _]. }
  destruct Hs as [-> Hs].
  assert (Hf : core_wf r2 /\ same_run r r2 /\
    (next = RunFailed \/ next = RunCancelled -> forall t, t ∈ dr_tasks r2 -> unsettled t = false) /\
    (~ (next = RunFailed \/ next = RunCancelled) -> dr_tasks r2 = dr_tasks r)).
  { destruct (bool_decide_reflect (next = RunFailed \/ next = RunCancelled)) as [Hn|Hn].
    - apply Tx_bind_Ok in Hfence as (r4 & [] & (Hc & Hrow & Hset)%fence_core & Hrec); [|done].
      apply Tx_bind_Ok in Hrec as (r5 & y & (Hacc & _)%reconcile_Ok & [-> _]%M_ret_Ok).
      split_and!; [by eapply accounted_core| | |done].
      + destruct Hacc as (_ & _ & _ & u & m & k & Hr). exists u, m, k. by rewrite Hr, Hrow.
      + intros _ t Ht. destruct Hacc as (Heq & _). rewrite Heq in Ht. auto.
    - apply M_ret_Ok in Hfence as [-> _]. by split_and!. }
  destruct Hf as (Hcore & (u & m & k & Hrow) & Hset & Hsame). right.
  split_and!; [|done| | | | |done].
  - eapply core_wf_ext; [exact Hcore|done|done|done|]. by destruct (terminal_status next).
  - by destruct (terminal_status next).
  - destruct (terminal_status next); simpl; rewrite Hrow; simpl; lia.
  - destruct next; simpl; rewrite ?Hrow; simpl; split_and!; try done; apply Hsame; naive_solver.
  - intros Hn. simpl. rewrite Hsame by naive_solver. by apply Hs.
Qed.

Lemma setStatus_row_ok next now lease r r' :
  core_wf r -> row_ok r -> setDagRunStatus next now lease r = (r', Ok tt) -> row_ok r'.
Proof.
  intros Hcore Hok H. apply setDagRunStatus_Ok in H as [[-> _]|(_ & Htr & Hs & Hep & Hrow & Hsucc & Hset)]; [done| |done].
  destruct Hok as (Hol & Hep0 & Hterm & Hpause & Hst). unfold row_ok. cbv zeta. rewrite Hs.
  assert (Hnext : next <> RunCreated) by (intros ->; clear -Htr; destruct (rr_status (dr_row r)); simpl in Htr;
    repeat (apply elem_of_cons in Htr as [Htr|Htr]; [done|]); by apply not_elem_of_nil in Htr).
  destruct next; simpl in Hrow; try done; destruct Hrow as (H1 & H2 & H3).
  - destruct H3 as [H3 H4]. rewrite H1, H2, H3, H4. split_and!; [done|lia|done|done|done].
  - rewrite H1, H2, H3. split_and!; [done|lia|done|done|by apply Hsucc].
  - rewrite H1, H2, H3. split_and!; [done|lia|done|done|by apply Hset; left].
  - rewrite H1, H2, H3. split_and!; [done|lia|done|done|by apply Hset; right].
Qed.

(** ** Every operation *)

Lemma expand_row_ok version expanded now lease r r' :
  core_wf r -> row_ok r -> expandDagRun version expanded now lease r = (r', Ok tt) -> row_ok r'.
Proof.
  intros [Hwf _] (Hol & Hep & Hterm & _ & Hst) H.
  apply expand_Ok in H as (added & _ & Hopen & _ & Hs & _ & _ & _ & Ht & _ & _ & Hrow); [|done].
  unfold row_ok. cbv zeta. rewrite Hrow. simpl. split_and!; [done|done|done| |].
  - intros _ t Hin. rewrite Ht in Hin. apply elem_of_app in Hin as [Hin|(c & -> & _)%list_elem_of_fmap]; [|done].
    by rewrite (Hs t Hin).
  - destruct (rr_status (dr_row r)); try done. intros t Hin. rewrite Ht in Hin.
    apply elem_of_app in Hin as [Hin|(c & -> & _)%list_elem_of_fmap]; [|done].
    destruct (Hst t Hin) as [Hpd _]. rewrite (Hs t Hin) in Hpd. done.
Qed.

Lemma pause_row_ok now r r' x : core_wf r -> row_ok r -> markDagRunPaused now r = (r', Ok x) -> row_ok r'.
Proof.
  intros Hcore Hok H. apply pause_core in H as [_ [->|(t & Hopen & Hrow & Hrun & Hsame)]]; [done| |done].
  destruct Hok as (Hol & Hep & Hterm & Hp & Hst). unfold row_ok. cbv zeta. rewrite Hrow. simpl. split_and!; [done|done| |done|].
  - unfold terminal_status. by rewrite Hopen.
  - destruct (rr_status (dr_row r)) eqn:E; try done.
    assert (Hpd : forall y, y ∈ dr_tasks r -> dt_status y <> TRunning) by (intros y Hy; by destruct (Hst y Hy) as [-> _]).
    by rewrite (Hsame Hpd).
Qed.

(** Operations on the row alone. *)
Definition row_op (op : ledger_op) : bool :=
  match op with
  | OpAcquireLease _ _ _ | OpHeartbeatLease _ _ _ | OpReleaseLease _ _ | OpClearPause _ _ | OpBeginCandidateRelease _
  | OpCompleteCandidateRelease _ | OpBeginGc _ | OpCompleteGc _ | OpSetUsage _ _ _ _ | OpReconcile _ _ => true
  | _ => false
  end.
(** They leave the rows of tasks, attempts and dependencies, the request and the status. *)
Definition same_but_row (r r' : DagRun) : Prop :=
  dr_tasks r' = dr_tasks r /\ dr_attempts r' = dr_attempts r /\ dr_dependencies r' = dr_dependencies r /\
  rr_request (dr_row r') = rr_request (dr_row r) /\ rr_status (dr_row r') = rr_status (dr_row r) /\
  (rr_pausedAt (dr_row r') = rr_pausedAt (dr_row r) \/ rr_pausedAt (dr_row r') = None) /\
  ((rr_owner (dr_row r) = None <-> rr_leaseExpiresAt (dr_row r) = None) ->
   (rr_owner (dr_row r') = None <-> rr_leaseExpiresAt (dr_row r') = None)) /\
  rr_epoch (dr_row r) <= rr_epoch (dr_row r') /\
  (terminal_status (rr_status (dr_row r)) = true -> rr_owner (dr_row r) = None -> rr_owner (dr_row r') = None).
#[export] Instance same_but_row_preorder : PreOrder same_but_row.
Proof.
  split; unfold same_but_row.
  - intros r. split_and!; try done. by left.
  - intros r1 r2 r3 (H1&H2&H3&H4&H5&H6&H7&H8&H9) (K1&K2&K3&K4&K5&K6&K7&K8&K9).
    rewrite K1, K2, K3, K4, K5. split_and!; try done; [|auto|lia|].
    + destruct K6 as [-> | ->]; [done|by right].
    + intros Ht Ho. apply K9; [by rewrite H5|by apply H9].
Qed.

Lemma row_op_frame runId op : row_op op = true -> travels same_but_row (perform runId op).
Proof.
  destruct op; try done; intros _; cbn [perform]; travelling_op; intros; unfold same_but_row, terminal_status; simpl;
    repeat match goal with H : _ && _ = true |- _ => apply andb_true_iff in H as [? ?] end;
    split_and!; try done; try lia; try (by left); try (by right).
  - match goal with H : open_status _ = true |- _ => by rewrite H end.
  - match goal with H : holds_lease _ _ = true |- _ => unfold holds_lease in H;
      apply andb_true_iff in H as [[->%bool_decide_eq_true _]%andb_true_iff _] end. by split.
Qed.

Lemma row_op_wf r r' : same_but_row r r' -> ledger_wf r -> ledger_wf r'.
Proof.
  intros (Ht & Ha & Hd & Hreq & Hs & Hp & Hol & Hep & Hterm) [Hwf Hrow Hfr].
  destruct (core_wf_ext r r') as [Hwf' Hfr']; [by split|done..|]. split; [done| |done].
  pose proof Hrow as (Hol' & Hep' & Hterm' & _). apply (row_ok_tasks r); [done..|by apply Hol|lia|].
  intros Hx. apply Hterm; [done|]. by apply Hterm'.
Qed.

(** Every operation preserves the invariant. *)
Lemma perform_wf runId op r r' : ledger_wf r -> perform runId op r = (r', Ok tt) -> ledger_wf r'.
Proof.
  intros [Hwf Hrow Hfr] H. destruct (row_op op) eqn:Hop.
  { pose proof (row_op_frame runId op Hop r) as Hsame. rewrite H in Hsame. by eapply row_op_wf. }
  assert (Hcore : core_wf r) by by split. pose proof (perform_same_run runId op) as Hsame.
  enough (core_wf r' /\ row_ok r') as [[] ?] by by split.
  destruct op; try done; cbn [perform] in *; try specialize (Hsame r); try rewrite H in Hsame; simpl in Hsame;
    try (apply Tx_bind_Ok in H as (r1 & x & H & [-> _]%M_ret_Ok)).
  - split; [by eapply pause_core|by eapply pause_row_ok].
  - split; [by eapply expand_core|by eapply expand_row_ok].
  - split; [|by eapply setStatus_row_ok]. by apply setDagRunStatus_Ok in H as [[-> _]|(? & _)].
  - split; [by eapply claim_core|]. apply claim_running in H as [->|[Hs Hp]]; [done|].
    eapply row_ok_running; [done..|]. by rewrite Hp.
  - split; [by eapply heartbeat_core|]. unfold_operations. committing. by eapply row_ok_kept.
  - split; [by eapply checkpoint_core|]. unfold_operations. committing. by eapply row_ok_kept.
  - split; [by eapply accounting_core|].
    unfold_operations. committing; [done|]. eapply row_ok_tasks; [exact Hrow|done|done|by left|apply Hrow|apply Hrow|].
    intros Hx. by apply Hrow.
  - split; [by eapply complete_core|]. apply complete_running in H as [->|(t & now' & Ht & Hk)]; [done|].
    by eapply row_ok_attempt.
  - split; [by eapply circuit_core|]. unfold_operations. committing. by eapply row_ok_kept.
  - apply recover_core in H as [Hc [->|(Hs & Hsr & Hrun)]]; [done| |done]. split; [done|].
    eapply row_ok_running; [done..|]. intros Hp t Ht Hst. destruct Hrow as (_ & _ & _ & Hpause & _).
    by apply (Hpause Hp t); [apply Hrun|].
Qed.

Lemma ledger_step_wf runId r r' : ledger_wf r -> ledger_step runId r r' -> ledger_wf r'.
Proof.
  intros Hwf [op|artifact failure now Hs|type payload now taskId].
  - destruct (perform runId op r) as [r1 [[]|e]] eqn:H; simpl; [by eapply perform_wf|].
    apply perform_atomic in H. by subst.
  - eapply row_op_wf; [|done]. unfold same_but_row. simpl. split_and!; try done. by left.
  - eapply row_op_wf; [|done]. unfold same_but_row. simpl. split_and!; try done. by left.
Qed.
Lemma ledger_steps_wf runId r r' : rtc (ledger_step runId) r r' -> ledger_wf r -> ledger_wf r'.
Proof. induction 1 as [|r1 r2 r3 H _ IH]; [done|]. intros Hwf. apply IH. by eapply ledger_step_wf. Qed.

Lemma created_wf runId exists_ request usage now r :
  createDagRun runId exists_ request usage now = Ok r -> ledger_wf r.
Proof.
  intros ([Hwf Hfr] & Hrow & _ & Ht)%create_core. split; [done| |done]. unfold row_ok. cbv zeta. rewrite Hrow. by split_and!.
Qed.
Lemma reachable_wf runId r : ledger_reachable runId r -> ledger_wf r.
Proof. induction 1 as [|r r' _ IH Hs]; [by eapply created_wf|by eapply ledger_step_wf]. Qed.

(** * What the ledger never changes

    A task that has ended keeps its row for good, and a run that has ended keeps the rows of
    its tasks and attempts. *)

(** ** Tasks that have ended *)

Definition keeps_ended (r r' : DagRun) : Prop :=
  forall t, t ∈ dr_tasks r -> unsettled t = false -> t ∈ dr_tasks r'.
#[export] Instance keeps_ended_preorder : PreOrder keeps_ended.
Proof. split; unfold keeps_ended; [by intros r t|]. intros r1 r2 r3 H1 H2 t Ht Hu. auto. Qed.

Lemma keeps_ended_mapped p f r :
  (forall t, p t = true -> unsettled t = true) -> keeps_ended r (with_tasks (mapped p f (dr_tasks r)) r).
Proof.
  intros Hp t Ht Hu. apply elem_of_mapped. exists t. split; [done|].
  destruct (p t) eqn:E; [apply Hp in E; congruence|done].
Qed.

Lemma keeps_ended_same r r' : dr_tasks r' = dr_tasks r -> keeps_ended r r'.
Proof. intros Heq t Ht _. by rewrite Heq. Qed.
Lemma keeps_ended_added r l : keeps_ended r (with_tasks (dr_tasks r ++ l) r).
Proof. intros t Ht _. simpl. apply elem_of_app. by left. Qed.

Lemma perform_keeps_ended runId op : travels keeps_ended (perform runId op).
Proof.
  destruct op; cbn [perform]; travelling_op; intros;
    first [ by apply keeps_ended_same | by apply keeps_ended_added
          | apply keeps_ended_mapped; intros ? ?; unfold keeps_attempt in *; cbn beta in *;
            repeat match goal with H : _ && _ = true |- _ => apply andb_true_iff in H as [? ?] end;
            first [ done | apply unsettled_true ] ].
  all: first [ left; by apply has_status_true | right; by apply has_status_true
         | right; match goal with H : runs_attempt _ _ _ _ = true |- _ => by apply runs_attempt_true in H as (_ & ? & _) end ].
Qed.
Lemma steps_keep_ended runId r r' : rtc (ledger_step runId) r r' -> keeps_ended r r'.
Proof.
  induction 1 as [|r1 r2 r3 Hs _ IH]; [done|]. etrans; [|exact IH].
  destruct Hs as [op| |]; [apply perform_keeps_ended|by apply keeps_ended_same..].
Qed.

(** An attempt that succeeded or failed keeps its row as well, and a task its contract. *)
Definition attempt_final (a : DagAttempt) : bool :=
  bool_decide (da_status a = AttemptSucceeded \/ da_status a = AttemptFailed).
Definition keeps_final (r r' : DagRun) : Prop :=
  (forall a, a ∈ dr_attempts r -> attempt_final a = true -> a ∈ dr_attempts r') /\
  (forall t, t ∈ dr_tasks r -> exists t', t' ∈ dr_tasks r' /\ dt_contract t' = dt_contract t).
#[export] Instance keeps_final_preorder : PreOrder keeps_final.
Proof.
  split; unfold keeps_final; [by intros r; eauto|]. intros r1 r2 r3 [H1 K1] [H2 K2]. split; [auto|].
  intros t Ht. destruct (K1 t Ht) as (t2 & Ht2 & <-). by apply K2.
Qed.

Lemma keeps_final_tasks p f r :
  (forall t, dt_contract (f t) = dt_contract t) -> keeps_final r (with_tasks (mapped p f (dr_tasks r)) r).
Proof.
  intros Hf. split; [done|]. intros t Ht. exists (if p t then f t else t).
  split; [apply elem_of_mapped; by exists t|]. by destruct (p t).
Qed.
Lemma keeps_final_attempts p f r :
  (forall a, p a = true -> attempt_final a = false) -> keeps_final r (with_attempts (mapped p f (dr_attempts r)) r).
Proof.
  intros Hp. split; [|by eauto]. intros a Ha Hf. apply elem_of_mapped. exists a. split; [done|].
  destruct (p a) eqn:E; [|done]. by rewrite (Hp a E) in Hf.
Qed.
Lemma keeps_final_same r r' : dr_tasks r' = dr_tasks r -> dr_attempts r' = dr_attempts r -> keeps_final r r'.
Proof. intros Ht Ha. split; rewrite ?Ht, ?Ha; eauto. Qed.
Lemma keeps_final_added r l : keeps_final r (with_tasks (dr_tasks r ++ l) r).
Proof. split; [done|]. intros t Ht. exists t. split; [|done]. apply elem_of_app. by left. Qed.
Lemma keeps_final_inserted r l : keeps_final r (with_attempts (dr_attempts r ++ l) r).
Proof. split; [|by eauto]. intros a Ha _. apply elem_of_app. by left. Qed.
Lemma not_final a : attempt_running a = true \/ da_status a = AttemptExpired -> attempt_final a = false.
Proof.
  unfold attempt_final. intros H. apply bool_decide_eq_false. destruct H as [H%attempt_running_true|H]; rewrite H; naive_solver.
Qed.

Lemma perform_keeps_final runId op : travels keeps_final (perform runId op).
Proof.
  destruct op; cbn [perform]; travelling_op; intros;
    first [ by apply keeps_final_same | apply keeps_final_added | apply keeps_final_inserted
          | by apply keeps_final_tasks
          | apply keeps_final_attempts; intros ? ?; apply not_final; unfold numbered in *; cbn beta in *;
            repeat match goal with H : _ && _ = true |- _ => apply andb_true_iff in H as [? ?] end;
            first [ by left | right; by eapply bool_decide_eq_true ] ].
Qed.
Lemma steps_keep_final runId r r' : rtc (ledger_step runId) r r' -> keeps_final r r'.
Proof.
  induction 1 as [|r1 r2 r3 Hs _ IH]; [done|]. etrans; [|exact IH].
  destruct Hs as [op| |]; [apply perform_keeps_final|by apply keeps_final_same..].
Qed.

(** ** Runs that have ended *)

Definition frozen (r r' : DagRun) : Prop :=
  dr_tasks r' = dr_tasks r /\ dr_attempts r' = dr_attempts r /\ dr_dependencies r' = dr_dependencies r /\
  rr_request (dr_row r') = rr_request (dr_row r) /\ rr_status (dr_row r') = rr_status (dr_row r).
#[export] Instance frozen_preorder : PreOrder frozen.
Proof. split; unfold frozen; [done|]. intros r1 r2 r3 (H1&H2&H3&H4&H5) (K1&K2&K3&K4&K5). by split_and!; etrans. Qed.

Lemma ended_run_idle r t :
  row_ok r -> terminal_status (rr_status (dr_row r)) = true -> t ∈ dr_tasks r -> dt_status t <> TRunning.
Proof.
  intros (_ & _ & _ & _ & Hst) Hterm Ht Hs. destruct (rr_status (dr_row r)); try done.
  - by rewrite (Hst t Ht) in Hs.
  - destruct (proj1 (unsettled_false t) (Hst t Ht)) as [_ Hn]. done.
  - destruct (proj1 (unsettled_false t) (Hst t Ht)) as [_ Hn]. done.
Qed.

Lemma kept_run_open r taskId attemptId ownerId now :
  1 = zlen (keep (keeps_attempt r taskId attemptId ownerId now) (dr_tasks r)) -> rr_status (dr_row r) = RunRunning.
Proof. by intros (t & _ & _ & _ & Hs)%keeps_attempt_one. Qed.

Lemma ended_run_frozen runId op r r' :
  ledger_wf r -> terminal_status (rr_status (dr_row r)) = true -> perform runId op r = (r', Ok tt) -> frozen r r'.
Proof.
  intros [Hwf Hrow Hfr] Hterm H. destruct (row_op op) eqn:Hop.
  { pose proof (row_op_frame runId op Hop r) as (H1 & H2 & H3 & H4 & H5 & _). rewrite H in *. by split_and!. }
  assert (Hclosed : rr_status (dr_row r) <> RunRunning) by (intros E; by rewrite E in Hterm).
  assert (Hopen : open_status (rr_status (dr_row r)) = false) by (by apply negb_true_iff).
  assert (Hcore : core_wf r) by by split.
  destruct op; try done; cbn [perform] in *; try (apply Tx_bind_Ok in H as (r1 & x & H & [-> _]%M_ret_Ok)).
  - apply pause_core in H as [_ [->|(t & Hx & _)]]; [done|congruence|done].
  - apply expand_Ok in H as (added & _ & Hx & _); [congruence|done].
  - apply setDagRunStatus_Ok in H as [[-> _]|(_ & Htr & _)]; [done| |done].
    destruct (rr_status (dr_row r)); try done; by apply not_elem_of_nil in Htr.
  - by apply claim_running in H as [->|[Hx _]].
  - unfold_operations. committing. exfalso. by eapply Hclosed, kept_run_open.
  - unfold_operations. committing. exfalso. by eapply Hclosed, kept_run_open.
  - unfold_operations. committing; [done|].
    match goal with Hf : running_attempt _ _ _ _ = Some _ |- _ =>
      apply running_attempt_found in Hf as (Hin & <- & <- & <- & Hs) end.
    destruct (running_attempt_task _ _ Hwf Hin Hs) as (t & Ht & _ & (_ & Hr & _)%runs_attempt_true).
    by destruct (ended_run_idle _ _ Hrow Hterm Ht).
  - apply complete_running in H as [->|(t & now' & Ht & Hk)]; [done|].
    unfold keeps_attempt in Hk. by apply andb_true_iff in Hk as [_ ?%bool_decide_eq_true].
  - unfold_operations. committing. exfalso. by eapply Hclosed, kept_run_open.
  - by apply recover_core in H as [_ [->|(Hx & _)]].
Qed.

Lemma ended_run_steps runId r r' :
  rtc (ledger_step runId) r r' -> ledger_wf r -> terminal_status (rr_status (dr_row r)) = true -> frozen r r'.
Proof.
  induction 1 as [|r1 r2 r3 Hs _ IH]; intros Hwf Hterm; [done|].
  pose proof (ledger_step_wf _ _ _ Hwf Hs) as Hwf2. destruct Hs as [op|artifact failure now Hs|type payload now taskId];
    [|by rewrite Hs in Hterm|].
  - destruct (perform runId op r1) as [r2 [[]|e]] eqn:H; simpl in *.
    + pose proof (ended_run_frozen _ _ _ _ Hwf Hterm H) as Hf. pose proof Hf as (_ & _ & _ & _ & Heq).
      etrans; [exact Hf|]. apply IH; [done|congruence].
    + apply perform_atomic in H. subst. by apply IH.
  - etrans; [|by apply IH]. by unfold frozen.
Qed.
