(* ===== verification/LedgerTheorems.v ===== *)
(** * What the run ledger guarantees

    What a lost task blocks, the leases of controllers, and the guarantees about tasks and
    runs.  [blockDagDescendants] ends, and blocks exactly the waiting tasks that depend,
    through waiting tasks, on a task that did not succeed. *)
From S2P Require Import Prelude JsNumber SessionTypes JsText JsonNumber JsonText Subagent RetryPolicy.
From S2P Require Import LedgerTypes Ledger LedgerTasks LedgerInvariant LedgerPreservation LedgerSafety.

Definition blocked_task (now : Z) : DagTask -> DagTask :=
  task_touch now ∘ task_status TBlocked ∘ task_outcome (Some "dependency_failed") (Some "A task dependency did not succeed").

Lemma mapped_mapped {A} (p q : A -> bool) f l :
  (forall x, p (f x) = false) -> mapped p f (mapped q f l) = mapped (fun x => q x || p x) f l.
Proof.
  intros Hp. unfold mapped. rewrite <-list_fmap_compose. apply list_fmap_ext. intros i x _. simpl.
  destruct (q x); simpl; [by rewrite Hp|done].
Qed.

(** ** One round *)

Definition waits_in (ids : list string) (t : DagTask) : bool := has_status TPending t && bool_decide (dt_id t ∈ ids).

(** Only the tasks of [p] are blocked. *)
Definition blocks_only (now : Z) (p : DagTask -> bool) (r r' : DagRun) : Prop :=
  dr_tasks r' = mapped p (blocked_task now) (dr_tasks r) /\ dr_dependencies r' = dr_dependencies r /\
  dr_row r' = dr_row r /\ dr_attempts r' = dr_attempts r.

Lemma waits_in_blocked now ids t : waits_in ids (blocked_task now t) = false.
Proof. done. Qed.
Lemma blocks_only_app now ids q r r1 r2 :
  blocks_only now q r r1 -> blocks_only now (waits_in ids) r1 r2 -> blocks_only now (fun t => q t || waits_in ids t) r r2.
Proof.
  intros (H1 & H2 & H3 & H4) (K1 & K2 & K3 & K4). unfold blocks_only. rewrite K1, K2, K3, K4, H1.
  split_and!; try done. by apply mapped_mapped.
Qed.

Lemma block_task_run now t r :
  exists r', block_task now t r = (r', Ok tt) /\ blocks_only now (waits_in [dt_id t]) r r'.
Proof.
  unfold block_task, mbind, M_bind, update_tasks, blocks_only.
  assert (Heq : mapped (fun t0 => is_task (dt_id t) t0 && has_status TPending t0) (blocked_task now) (dr_tasks r)
    = mapped (waits_in [dt_id t]) (blocked_task now) (dr_tasks r)).
  { apply mapped_ext. intros x _. unfold waits_in, is_task. rewrite andb_comm. f_equal.
    destruct (String.eqb_spec (dt_id x) (dt_id t)) as [He|He].
    - rewrite bool_decide_true; [done|]. rewrite He. by left.
    - rewrite bool_decide_false; [done|]. by intros ?%list_elem_of_singleton. }
  unfold mapped, blocked_task in Heq. rewrite Heq. destruct (_ =? 1); eexists; split; [reflexivity|by split_and!|reflexivity|by split_and!].
Qed.

Lemma block_tasks_run now rows r :
  exists r', forM_ rows (block_task now) r = (r', Ok tt) /\ blocks_only now (waits_in (dt_id <$> rows)) r r'.
Proof.
  revert r. induction rows as [|t rows IH]; intros r.
  - exists r. split; [done|]. split_and!; try done. symmetry. apply mapped_none. intros x _. unfold waits_in.
    rewrite bool_decide_false by apply not_elem_of_nil. apply andb_false_r.
  - destruct (block_task_run now t r) as (r1 & H1 & Hb1). destruct (IH r1) as (r2 & H2 & Hb2). exists r2. split.
    { cbn [forM_]. apply Tx_bind_Ok. by exists r1, tt. }
    pose proof (blocks_only_app _ _ _ _ _ _ Hb1 Hb2) as (K1 & K). split; [|done]. rewrite K1. apply mapped_ext.
    intros x _. unfold waits_in. rewrite <-andb_orb_distrib_r. f_equal. rewrite fmap_cons.
    apply eq_true_iff_eq. rewrite orb_true_iff, !bool_decide_eq_true, list_elem_of_singleton, elem_of_cons. done.
Qed.

(** ** The tasks that cannot start *)

(** A waiting task with a prerequisite that did not succeed, or that cannot start itself. *)
Inductive doomed (r : DagRun) : DagTask -> Prop :=
| doomed_lost t p : t ∈ dr_tasks r -> dt_status t = TPending -> p ∈ prerequisites r (dt_id t) ->
    blocks_dependents p = true -> doomed r t
| doomed_waits t p : t ∈ dr_tasks r -> dt_status t = TPending -> p ∈ prerequisites r (dt_id t) ->
    doomed r p -> doomed r t.

Lemma doomed_pending r t : doomed r t -> dt_status t = TPending.
Proof. by destruct 1. Qed.

Lemma to_block_spec r t :
  t ∈ to_block r <-> t ∈ dr_tasks r /\ dt_status t = TPending /\
    exists p, p ∈ prerequisites r (dt_id t) /\ blocks_dependents p = true.
Proof.
  unfold to_block. rewrite elem_of_keep, andb_true_iff, has_status_true, existsb_exists.
  setoid_rewrite <-list_elem_of_In. done.
Qed.

Definition waiting (r : DagRun) : nat := length (keep (has_status TPending) (dr_tasks r)).
Lemma waiting_decreases now ids l x :
  x ∈ l -> waits_in ids x = true ->
  (length (keep (has_status TPending) (mapped (waits_in ids) (blocked_task now) l)) < length (keep (has_status TPending) l))%nat.
Proof.
  assert (Hle : forall k, (length (keep (has_status TPending) (mapped (waits_in ids) (blocked_task now) k))
    <= length (keep (has_status TPending) k))%nat).
  { intros k. induction k as [|y k IH]; [done|]. simpl. unfold mapped in *. unfold waits_in at 1.
    destruct (has_status TPending y) eqn:Hy; simpl; [|by rewrite Hy].
    destruct (bool_decide _); simpl; [lia|]. rewrite Hy. simpl. lia. }
  intros Hx Hw. induction l as [|y l IH]; [by apply not_elem_of_nil in Hx|]. specialize (Hle l).
  apply elem_of_cons in Hx as [<-|Hx].
  - simpl. rewrite Hw. unfold waits_in in Hw. apply andb_true_iff in Hw as [-> _]. simpl. unfold mapped in *. lia.
  - specialize (IH Hx). simpl. unfold mapped in *. destruct (waits_in ids y) eqn:Hy.
    + simpl. destruct (has_status TPending y); simpl; lia.
    + destruct (has_status TPending y); simpl; lia.
Qed.

Lemma blocks_only_prerequisites now q r r' id :
  blocks_only now q r r' -> prerequisites r' id = mapped q (blocked_task now) (prerequisites r id).
Proof. intros (Ht & Hd & _). by eapply prerequisites_mapped. Qed.

(** A task that a round blocks was doomed. *)
Lemma round_doomed now q r0 r t :
  NoDup (dt_id <$> dr_tasks r0) -> blocks_only now q r0 r -> (forall x, x ∈ dr_tasks r0 -> q x = true -> doomed r0 x) ->
  t ∈ dr_tasks r0 -> waits_in (dt_id <$> to_block r) t = true -> doomed r0 t.
Proof.
  intros Hnd Hb Hq Ht [Hp%has_status_true Hin%bool_decide_eq_true]%andb_true_iff.
  apply list_elem_of_fmap in Hin as (y & Hid & (Hy & Hys & p & Hpp & Hbl)%to_block_spec).
  rewrite (proj1 Hb) in Hy. apply elem_of_mapped in Hy as (x & Hx & ->).
  destruct (q x) eqn:Hqx; [done|]. assert (x = t) as -> by by eapply (fmap_NoDup_inj dt_id).
  erewrite blocks_only_prerequisites in Hpp by done. apply elem_of_mapped in Hpp as (p0 & Hp0 & ->).
  destruct (q p0) eqn:Hqp.
  - eapply doomed_waits; [done..|]. apply Hq; [|done]. by apply elem_of_keep in Hp0 as [? _].
  - by eapply doomed_lost.
Qed.

Lemma block_rounds_run now n r0 r q :
  NoDup (dt_id <$> dr_tasks r0) -> blocks_only now q r0 r -> (forall x, x ∈ dr_tasks r0 -> q x = true -> doomed r0 x) ->
  (waiting r < n)%nat ->
  exists r' q', block_rounds n now r = (r', Ok tt) /\ blocks_only now q' r0 r' /\
    forall x, x ∈ dr_tasks r0 -> q' x = true -> doomed r0 x.
Proof.
  intros Hnd. revert r q. induction n as [|n IH]; intros r q Hb Hq Hn; [lia|]. cbn [block_rounds].
  destruct (to_block r) as [|t0 rows] eqn:Hto.
  { exists r, q. split; [|done]. apply Tx_bind_Ok. exists r, r. rewrite Hto. done. }
  destruct (block_tasks_run now (to_block r) r) as (r1 & H1 & Hb1).
  destruct (IH r1 (fun x => q x || waits_in (dt_id <$> to_block r) x)) as (r' & q' & H & Hrest).
  - by eapply blocks_only_app.
  - intros x Hx [Hqx|Hw]%orb_true_iff; [auto|by eapply round_doomed].
  - assert (Ht0 : t0 ∈ to_block r) by (rewrite Hto; by left).
    apply to_block_spec in Ht0 as (Hin & Hp & _). unfold waiting in *. rewrite (proj1 Hb1).
    eapply Nat.lt_le_trans; [eapply (waiting_decreases now _ _ t0); [done|]|lia].
    unfold waits_in. apply andb_true_iff. split; [by apply has_status_true|]. apply bool_decide_eq_true.
    rewrite Hto. by left.
  - exists r', q'. split; [|done]. apply Tx_bind_Ok. exists r, r. split; [done|]. rewrite Hto in *.
    apply Tx_bind_Ok. by exists r1, tt.
Qed.

Lemma blockDagDescendants_run now r :
  NoDup (dt_id <$> dr_tasks r) ->
  exists r' p, blockDagDescendants now r = (r', Ok tt) /\
    dr_tasks r' = mapped p (blocked_task now) (dr_tasks r) /\
    (forall t, t ∈ dr_tasks r -> p t = true <-> doomed r t) /\
    dr_dependencies r' = dr_dependencies r /\ dr_row r' = dr_row r /\ dr_attempts r' = dr_attempts r.
Proof.
  intros Hnd.
  destruct (block_rounds_run now (S (length (dr_tasks r))) r r (fun _ => false)) as (r' & p & H & Hb & Hp); [done| |done| |].
  - split_and!; try done. symmetry. by apply mapped_none.
  - unfold waiting. assert (Hle : forall l : list DagTask, (length (keep (has_status TPending) l) <= length l)%nat).
    { intros l. induction l as [|x l IHl]; [done|]. simpl. destruct (has_status TPending x); simpl; lia. }
    specialize (Hle (dr_tasks r)). lia.
  - exists r', p. split; [exact H|]. destruct Hb as (Ht & Hrest). split_and!; [done| |apply Hrest..].
    intros t Hin. split; [auto|]. intros Hd. induction Hd as [t x Ht0 Hs Hx Hbl|t x Ht0 Hs Hx Hdx IH].
    all: destruct (p t) eqn:Hpt; [done|exfalso]; apply block_rounds_nil in H as Hnil.
    all: assert (Hbt : t ∈ to_block r'); [|rewrite Hnil in Hbt; by apply not_elem_of_nil in Hbt].
    all: apply to_block_spec; split; [rewrite Ht; apply elem_of_mapped; exists t; by rewrite Hpt|split; [done|]].
    all: exists (if p x then blocked_task now x else x); split;
      [erewrite blocks_only_prerequisites by done; apply elem_of_mapped; by exists x|].
    + by destruct (p x).
    + rewrite IH; [done|]. by apply elem_of_keep in Hx as [? _].
Qed.

(** C24. Blocking always ends, whatever the tasks and dependencies, and blocks exactly the waiting
    tasks that cannot start: those with a prerequisite that failed, was cancelled, blocked or
    judged negative, directly or through other waiting tasks.  Nothing else changes. *)
Theorem blockDagDescendants_exact now r :
  NoDup (dt_id <$> dr_tasks r) ->
  exists r' p, blockDagDescendants now r = (r', Ok tt) /\
    dr_tasks r' = mapped p (blocked_task now) (dr_tasks r) /\
    (forall t, t ∈ dr_tasks r -> p t = true <-> doomed r t) /\
    dr_dependencies r' = dr_dependencies r /\ dr_row r' = dr_row r /\ dr_attempts r' = dr_attempts r.
Proof. apply blockDagDescendants_run. Qed.

(** * Controller leases

    The epoch of a run only grows, and every change of a run made under a lease of another
    epoch is refused.  A controller that was replaced can no longer write. *)

Definition epoch_le (r r' : DagRun) : Prop := rr_epoch (dr_row r) <= rr_epoch (dr_row r').
#[export] Instance epoch_le_preorder : PreOrder epoch_le.
Proof. split; unfold epoch_le; [intros ?; lia|intros ???; lia]. Qed.

Lemma perform_epoch runId op : travels epoch_le (perform runId op).
Proof.
  destruct op; cbn [perform]; travelling_op; intros; unfold epoch_le;
    simpl; try case_match; simpl; lia.
Qed.
Lemma step_epoch runId r r' : ledger_step runId r r' -> epoch_le r r'.
Proof. intros [op|artifact failure now _|type payload now taskId]; [apply perform_epoch|unfold epoch_le; simpl; lia..]. Qed.
Lemma steps_epoch runId r r' : rtc (ledger_step runId) r r' -> epoch_le r r'.
Proof. induction 1 as [r|r r1 r2 H _ IH]; [done|]. etrans; [by eapply step_epoch|done]. Qed.

(** What acquiring a lease does. *)
Lemma acquire_spec ownerId now duration r r' l :
  acquireDagRunLease ownerId now duration r = (r', Ok (Some l)) ->
  exists t, safe_integer now = Some t /\ live_lease t (dr_row r) = false /\ open_status (rr_status (dr_row r)) = true /\
    holds_lease l (dr_row r') = true /\ live_lease t (dr_row r') = true /\
    le_ownerId l = ownerId /\ le_epoch l = rr_epoch (dr_row r) + 1.
Proof.
  unfold_operations. intros H. committing. eexists. split_and!; [done|done| |..].
  all: match goal with H : update_run _ _ _ = _ |- _ => apply update_run_Ok in H as [(Hp & -> & ->)|(? & -> & ->)]; [|done] end.
  - by apply negb_false_iff.
  - unfold holds_lease. simpl. rewrite !bool_decide_true by done. lia.
  - unfold live_lease. simpl. apply Z.ltb_lt. lia.
  - done.
  - done.
Qed.

(** A lease of another epoch changes nothing. *)
Lemma wrong_epoch_refused runId op r l :
  op_lease op = Some l -> le_epoch l <> rr_epoch (dr_row r) -> (perform runId op r).1 = r.
Proof.
  intros Hop Hepoch. destruct (perform runId op r) as [r' [[]|e]] eqn:H; [|by eapply perform_atomic].
  assert (Hno : holds_lease l (dr_row r) = false).
  { unfold holds_lease. destruct (Z.eqb_spec (rr_epoch (dr_row r)) (le_epoch l)); [congruence|]. by rewrite andb_false_r. }
  assert (Hassert : forall now lease t, lease = Some l ->
    match rr_owner (dr_row r) with
    | None => lease = None
    | Some _ => exists l, lease = Some l /\ holds_lease l (dr_row r) = true /\ live_lease now (dr_row r) = true
    end -> r' = t).
  { intros now lease t ->. destruct (rr_owner (dr_row r)); [|done]. intros (l' & [= <-] & ? & _). congruence. }
  simpl. destruct op; cbn [perform op_lease] in *; simplify_eq; unfold_operations; committing;
    try (by eapply Hassert); try done.
  all: match goal with H : update_run _ _ _ = _ |- _ =>
         apply update_run_Ok in H as [(Hp & -> & ->)|(? & -> & ->)]; [rewrite Hno in Hp|done] end.
  all: done.
Qed.

(** C11. A controller whose lease was taken over is fenced out for good: once another controller
    has acquired the run, which it can do only after the lease it replaces has expired or been
    released, no operation that presents a lease of the replaced epoch, renewed or not, changes
    any row, whatever happened in between or happens next. *)
Theorem replaced_controller_fenced runId o1 now1 d1 r0 r1 l1 r2 o2 now2 d2 r3 l2 r4 op old :
  acquireDagRunLease o1 now1 d1 r0 = (r1, Ok (Some l1)) -> rtc (ledger_step runId) r1 r2 ->
  acquireDagRunLease o2 now2 d2 r2 = (r3, Ok (Some l2)) -> rtc (ledger_step runId) r3 r4 ->
  op_lease op = Some old -> le_epoch old = le_epoch l1 ->
  le_epoch l1 < le_epoch l2 /\
  (forall t, safe_integer now2 = Some t -> holds_lease old (dr_row r2) = true -> le_leaseExpiresAt old <= t) /\
  (perform runId op r4).1 = r4.
Proof.
  intros (t1 & _ & _ & _ & Hl1 & _ & _ & He1)%acquire_spec H12%steps_epoch
    (t2 & Ht2 & Hlive & _ & Hl2 & _ & _ & He2)%acquire_spec H34%steps_epoch Hop Hold.
  unfold epoch_le, holds_lease in *.
  split_and!.
  - lia.
  - intros t Ht (Ho & Hx)%andb_true_iff. apply andb_true_iff in Ho as [Ho%bool_decide_eq_true _].
    apply bool_decide_eq_true in Hx. unfold live_lease in Hlive. rewrite Ho, Hx in Hlive.
    apply Z.ltb_ge in Hlive. simplify_eq. done.
  - apply (wrong_epoch_refused _ _ _ old); [done|]. lia.
Qed.

(** * Tasks and runs

    The invariant of every reachable run, and what follows from it for the order of tasks and
    for runs that have ended. *)

(** C5. The invariant of the ledger: whatever controllers do, in whatever order, with leases that
    are current or not, a run stays well formed.  The attempts of a task are numbered from one
    and never more than the task allows; the last of them runs exactly when the task does, for
    the same owner and until the same time; the task's usage and turns are the sum of the
    attempts that cannot be resumed any more; no task was started before its prerequisites
    succeeded, and none waits for a task that failed, was cancelled or blocked; a paused run
    has no running task, a run that succeeded only tasks that succeeded, and a run that failed
    or was cancelled no task left to end. *)
Theorem ledger_invariant runId r : ledger_reachable runId r -> ledger_wf r.
Proof. apply reachable_wf. Qed.

(** C15. A task that was ever attempted has prerequisites that all succeeded, each with an artifact
    for that task and contract, and these rows never change again. *)
Theorem started_after_prerequisites runId r t p :
  ledger_reachable runId r -> t ∈ dr_tasks r -> attempts_of (dt_id t) r <> [] -> p ∈ prerequisites r (dt_id t) ->
  dt_status p = TSucceeded /\ (exists artifact, dt_artifact p = Some artifact /\ artifact_matches p artifact) /\
  forall r', rtc (ledger_step runId) r r' -> p ∈ dr_tasks r'.
Proof.
  intros [Hwf _ _]%reachable_wf Ht Hne Hp. pose proof (wf_tasks _ Hwf t Ht) as Hok.
  assert (Hcount : 0 < dt_attemptCount t).
  { destruct (decide (dt_attemptCount t = 0)) as [Hz|Hz]; [|pose proof (ok_count _ _ Hok); lia].
    pose proof (ok_numbers _ _ Hok) as Hn. rewrite Hz in Hn. by destruct (attempts_of (dt_id t) r). }
  pose proof (wf_started _ Hwf t Ht Hcount p Hp) as Hs.
  assert (Hpin : p ∈ dr_tasks r) by by apply elem_of_keep in Hp as [? _].
  split_and!; [done| |].
  - pose proof (ok_status _ _ (wf_tasks _ Hwf p Hpin)) as Hst. unfold status_ok in Hst. rewrite Hs in Hst.
    destruct Hst as (_ & _ & artifact & _ & _ & _ & _ & Ha & Hm). eauto.
  - intros r' Hsteps. apply (steps_keep_ended _ _ _ Hsteps); [done|]. apply unsettled_false. by rewrite Hs.
Qed.

(** C28. A run that has ended is final: every task has ended, successfully if the run did, no
    attempt runs, and no later operation changes its status, its request or any row of its
    tasks, dependencies and attempts. *)
Theorem ended_run_final runId r :
  ledger_reachable runId r -> terminal_status (rr_status (dr_row r)) = true ->
  (forall t, t ∈ dr_tasks r -> unsettled t = false /\ (rr_status (dr_row r) = RunSucceeded -> dt_status t = TSucceeded)) /\
  (forall a, a ∈ dr_attempts r -> da_status a <> AttemptRunning) /\
  forall r', rtc (ledger_step runId) r r' -> frozen r r'.
Proof.
  intros Hall%reachable_wf Hterm. pose proof Hall as [Hwf Hrow _]. split_and!.
  - intros t Ht. pose proof Hrow as (_ & _ & _ & _ & Hst). destruct (rr_status (dr_row r)); try done.
    + split; [|by auto]. apply unsettled_false. by rewrite (Hst t Ht).
    + split; [by apply Hst|done].
    + split; [by apply Hst|done].
  - intros a Ha Hs. destruct (running_attempt_task _ _ Hwf Ha Hs) as (t & Ht & _ & (_ & Hr & _)%runs_attempt_true).
    by apply (ended_run_idle _ _ Hrow Hterm Ht).
  - intros r' Hsteps. by eapply ended_run_steps.
Qed.
