(* ===== verification/LedgerClaims.v ===== *)
(** * Which tasks a controller gets

    [claimRunnableTasks] claims the first runnable tasks, in order and up to its limit, and
    leaves the others. *)
From S2P Require Import Prelude JsNumber SessionTypes JsText JsonNumber JsonText Subagent RetryPolicy.
From S2P Require Import LedgerTypes Ledger LedgerTasks LedgerInvariant LedgerPreservation LedgerSafety.
From S2P Require Import LedgerTheorems.

Lemma Tx_run {A B} (m : Tx A) (k : A -> Tx B) r :
  (exists r1 a, m r = (r1, Ok a) /\ exists r' b, k a r1 = (r', Ok b)) -> exists r' b, (m ≫= k) r = (r', Ok b).
Proof. intros (r1 & a & H1 & r' & b & H2). exists r', b. apply Tx_bind_Ok. by exists r1, a. Qed.

Section claims.
Context (uuid : string -> string) (foreign : string -> bool) (ownerId : string) (now expires : Z).
(** Fresh identifiers are unique across runs. *)
Context (Hinj : forall x y, uuid x = uuid y -> x = y) (Hforeign : forall x, foreign (uuid x) = false).

Definition resumes (row : DagTask) : bool := resumable row && (0 <? dt_attemptCount row).
(** An interrupted attempt that a resumed task continues is there. *)
Definition resumes_attempt (r : DagRun) (row : DagTask) : Prop :=
  resumes row = true -> exists a, a ∈ dr_attempts r /\ numbered (dt_id row) (dt_attemptCount row) AttemptExpired a = true.
Definition fresh_in (r : DagRun) (row : DagTask) : Prop := uuid (dt_id row) ∉ da_id <$> dr_attempts r.

Record claimable (r : DagRun) (row : DagTask) : Prop := {
  cb_in : row ∈ dr_tasks r; cb_pending : dt_status row = TPending; cb_eligible : eligible now row = true;
  cb_done : prerequisites_done r row; cb_attempts : dt_attemptCount row < dt_maxAttempts row \/ resumable row = true;
  cb_recoverable : resumes_attempt r row; cb_fresh : fresh_in r row }.

Lemma keep_pending_row r row :
  tasks_wf r -> row ∈ dr_tasks r -> dt_status row = TPending -> eligible now row = true ->
  keep (fun t => is_task (dt_id row) t && has_status TPending t && (dt_attemptCount t =? dt_attemptCount row)
                 && eligible now t) (dr_tasks r) = [row].
Proof.
  intros Hwf Hin Hp He.
  rewrite (keep_ext _ (is_task (dt_id row))); [by apply keep_task|]. intros x Hx.
  destruct (is_task (dt_id row) x) eqn:E; [|done]. apply is_task_true in E.
  assert (x = row) as -> by (eapply (fmap_NoDup_inj dt_id); [apply Hwf|done..]).
  rewrite (proj2 (has_status_true _ _) Hp), Z.eqb_refl, He. done.
Qed.

(** The unique attempt with an identifier. *)
Lemma keep_attempt r a (p : DagAttempt -> bool) :
  tasks_wf r -> a ∈ dr_attempts r -> p a = true ->
  keep (fun x => String.eqb (da_id x) (da_id a) && p x) (dr_attempts r) = [a].
Proof.
  intros Hwf Hin Hp. pose proof (wf_attempt_ids _ Hwf) as Hnd.
  apply list_elem_of_split in Hin as (l1 & l2 & Heq). rewrite Heq in *. rewrite fmap_app, fmap_cons in Hnd.
  apply NoDup_app in Hnd as (_ & Hd & [Hn2 _]%NoDup_cons).
  rewrite keep_app. simpl. rewrite String.eqb_refl, Hp, !keep_none; [done| |].
  - intros x Hx. destruct (String.eqb_spec (da_id x) (da_id a)) as [He|]; [|done]. exfalso. apply Hn2.
    rewrite <-He. by apply list_elem_of_fmap_2.
  - intros x Hx. destruct (String.eqb_spec (da_id x) (da_id a)) as [He|]; [|done]. exfalso.
    apply (Hd (da_id x)); [by apply list_elem_of_fmap_2|]. rewrite He. by left.
Qed.

(** A claimable task is claimed. *)
Lemma claim_task_runs r row :
  tasks_wf r -> rr_status (dr_row r) = RunRunning -> rr_pausedAt (dr_row r) = None -> claimable r row ->
  exists r' c, claim_task uuid foreign ownerId now expires row r = (r', Ok c).
Proof.
  intros Hwf Hrun Hpaused [Hin Hpend Helig Hdone Hmore Hrec Hfresh]. unfold resumes_attempt, resumes in Hrec.
  pose proof (wf_tasks _ Hwf row Hin) as Hok. pose proof (ok_count _ _ Hok) as Hc. pose proof (ok_max _ _ Hok) as Hm.
  assert (Hprior : forall b : bool, b = resumable row && (0 <? dt_attemptCount row) -> b = true ->
    exists a, find_row (numbered (dt_id row) (dt_attemptCount row) AttemptExpired) (dr_attempts r) = Some a).
  { intros b Hb Hbt. destruct Hrec as (a & Ha & Hnum); [congruence|].
    destruct (find_row _ _) eqn:E; [by eexists|]. by rewrite (find_row_None _ _ E a Ha) in Hnum. }
  unfold claim_task. cbv zeta. set (resumed := resumable row && (0 <? dt_attemptCount row)) in *.
  assert (Hn : (dt_maxAttempts row <? (if resumed then dt_attemptCount row else dt_attemptCount row + 1)) = false).
  { apply Z.ltb_ge. unfold resumed. destruct Hmore as [Hlt|Hres]; [destruct (_ && _); lia|]. rewrite Hres. simpl.
    destruct (Z.ltb_spec 0 (dt_attemptCount row)); lia. }
  apply (Tx_run get); exists r, r; split; [done|].
  eapply Tx_run; eexists _, tt; split.
  { apply throw_if_Ok. split; [|reflexivity]. destruct resumed eqn:E; [|done]. by destruct (Hprior true eq_refl eq_refl) as [a ->]. }
  eapply Tx_run; eexists _, tt; split; [by apply throw_if_Ok; split|].
  eapply Tx_run; eexists _, tt; split.
  { apply expect_one_Ok, update_tasks_Ok. split; [|reflexivity]. pose proof (keep_pending_row r row Hwf Hin Hpend Helig) as Hk.
    rewrite (keep_ext _ (fun t => is_task (dt_id row) t && has_status TPending t && (dt_attemptCount t =? dt_attemptCount row)
       && eligible now t)); [by rewrite Hk|]. intros x _. by rewrite !bool_decide_true, andb_true_r. }
  assert (Hfin : forall (m : Tx unit) s (k : DagTaskClaim), (exists s', m s = (s', Ok tt)) ->
    forall body, exists r' c, (m ;; insertDagEvent body now (Some (dt_id row)) ;; mret k) s = (r', Ok c)).
  { intros m s k [s' Hs] body. unfold mbind, M_bind. rewrite Hs. by eexists _, _. }
  apply Hfin. destruct resumed eqn:E.
  - destruct (Hprior true eq_refl eq_refl) as [a Ha]. rewrite Ha. apply find_row_Some in Ha as [Ha Hnum]. eexists.
    apply expect_one_Ok, update_attempts_Ok. split; [|reflexivity]. simpl. by rewrite keep_attempt.
  - unfold insert_attempt. eexists. apply Tx_bind_Ok. eexists _, _. split; [done|]. apply Tx_bind_Ok. eexists _, tt.
    split; [|done]. apply throw_if_Ok. split; [|reflexivity]. simpl. rewrite Hforeign. simpl.
    apply not_true_iff_false. rewrite existsb_exists. intros (a & Ha%list_elem_of_In & [He%String.eqb_eq|Hb]%orb_true_iff).
    + apply Hfresh. rewrite <-He. by apply list_elem_of_fmap_2.
    + apply andb_true_iff in Hb as [Ht%String.eqb_eq Hnum%Z.eqb_eq].
      assert (Hat : a ∈ attempts_of (dt_id row) r) by by apply elem_of_attempts_of.
      apply (list_elem_of_fmap_2 da_number) in Hat. rewrite (ok_numbers _ _ Hok) in Hat.
      apply elem_of_numbers in Hat. lia.
Qed.

(** A claim leaves what other tasks need. *)
Lemma claimable_step r r' row x c :
  core_wf r -> row ∈ dr_tasks r -> claim_task uuid foreign ownerId now expires row r = (r', Ok c) ->
  claimable r x -> dt_id x <> dt_id row -> claimable r' x.
Proof.
  intros [Hwf Hfr] Hin H [Hx Hp He Hd Hm Hrec Hfresh] Hne.
  destruct (claim_task_others _ _ _ _ _ _ _ _ _ x Hwf Hin H Hx Hne) as [Hx' Hd'].
  apply claim_task_Ok in H. cbv zeta in H.
  destruct H as (t & _ & _ & _ & _ & _ & _ & _ & _ & _ & Hatt). split; try done; [by apply Hd'| |].
  - intros Hres. destruct (Hrec Hres) as (a & Ha & Hnum).
    destruct (resumable row && (0 <? dt_attemptCount row)).
    + destruct Hatt as (b & _ & _ & _ & ->). exists a. split; [|done]. apply elem_of_mapped. exists a. split; [done|].
      destruct (_ && _) eqn:E; [|done]. exfalso. apply andb_true_iff in E as [_ (E & _)%numbered_true].
      apply numbered_true in Hnum as (Hnum & _). congruence.
    + destruct Hatt as (_ & _ & _ & ->). exists a. split; [|done]. apply elem_of_app. by left.
  - unfold fresh_in in *. destruct (resumable row && (0 <? dt_attemptCount row)).
    + destruct Hatt as (b & _ & _ & _ & ->). rewrite fmap_mapped; [done|]. done.
    + destruct Hatt as (_ & _ & _ & ->). rewrite fmap_app. intros [Hy|Hy]%elem_of_app; [done|].
      apply list_elem_of_singleton in Hy. simpl in Hy. by apply Hinj in Hy.
Qed.

(** The row and attempt a claim promises to its owner. *)
Definition claimed (r : DagRun) (c : DagTaskClaim) : Prop :=
  exists t, t ∈ dr_tasks r /\ runs_attempt (cl_taskId c) (cl_attemptId c) ownerId t = true /\
    dt_leaseExpiresAt t = Some expires /\ dt_attemptCount t = cl_attemptNumber c /\ prerequisites_done r t.

Lemma claim_task_claimed r r' row c :
  core_wf r -> claimable r row -> claim_task uuid foreign ownerId now expires row r = (r', Ok c) ->
  cl_taskId c = dt_id row /\ claimed r' c /\ dr_row r' = dr_row r.
Proof.
  intros Hwf Hcb H. pose proof Hcb as [Hin Hp He Hd Hm Hrec Hfresh].
  pose proof (claim_task_core _ _ _ _ _ _ _ _ _ Hwf Hin Hd H) as [Hwf' _].
  apply claim_task_Ok in H. cbv zeta in H.
  destruct H as (t & Hk & _ & _ & _ & Ht & _ & Hrow & Hid & Hnum & _). split_and!; [done| |done].
  destruct (keep_singleton_in _ _ _ Hk) as [Htin Hpt].
  assert (t = row) as ->.
  { apply andb_true_iff in Hpt as [[[Hi%is_task_true _]%andb_true_iff _]%andb_true_iff _].
    eapply (fmap_NoDup_inj dt_id); [apply Hwf|done..]. }
  eexists. split; [rewrite Ht; apply elem_of_mapped; exists row; split; [done|]; by rewrite Hpt|].
  split_and!; [|done|by rewrite Hnum|].
  - apply runs_attempt_true. simpl. by rewrite Hid.
  - apply (wf_started _ Hwf').
    + rewrite Ht. apply elem_of_mapped. exists row. split; [done|]. by rewrite Hpt.
    + pose proof (ok_count _ _ (wf_tasks _ (proj1 Hwf) row Hin)) as Hc. simpl.
      destruct (resumable row); simpl; [|lia]. destruct (Z.ltb_spec 0 (dt_attemptCount row)); lia.
Qed.

(** A claim changes no attempt of another task. *)
Lemma claim_task_attempts r r' row c id :
  claim_task uuid foreign ownerId now expires row r = (r', Ok c) -> id <> dt_id row -> attempts_of id r' = attempts_of id r.
Proof.
  intros H Hne. apply claim_task_Ok in H. cbv zeta in H.
  destruct H as (t & _ & _ & _ & _ & _ & _ & _ & _ & _ & Hatt). unfold attempts_of.
  destruct (resumable row && (0 <? dt_attemptCount row)).
  - destruct Hatt as (b & _ & _ & _ & ->). rewrite keep_mapped by done. apply mapped_none.
    intros x [_ Hx%String.eqb_eq]%elem_of_keep. destruct (_ && _) eqn:E; [|done].
    apply andb_true_iff in E as [_ (E & _)%numbered_true]. congruence.
  - destruct Hatt as (_ & _ & _ & ->). rewrite keep_app. simpl.
    destruct (String.eqb_spec (dt_id row) id); [congruence|]. by rewrite app_nil_r.
Qed.

(** The loop over the selected rows. *)
Lemma claims_run rows r :
  core_wf r -> rr_status (dr_row r) = RunRunning -> rr_pausedAt (dr_row r) = None -> NoDup (dt_id <$> rows) ->
  (forall x, x ∈ rows -> claimable r x) ->
  exists r' cs, mapM (claim_task uuid foreign ownerId now expires) rows r = (r', Ok cs) /\
    cl_taskId <$> cs = dt_id <$> rows /\ core_wf r' /\ (forall c, c ∈ cs -> claimed r' c) /\ dr_row r' = dr_row r /\
    (forall id, (id ∉ dt_id <$> rows) -> attempts_of id r' = attempts_of id r) /\
    forall x, x ∈ dr_tasks r -> (dt_id x ∉ dt_id <$> rows) -> x ∈ dr_tasks r' /\ (prerequisites_done r x -> prerequisites_done r' x).
Proof.
  revert r. induction rows as [|row rows IH]; intros r Hwf Hrun Hpaused Hnd Hcb.
  { exists r, []. split_and!; try done. by intros c ?%not_elem_of_nil. }
  rewrite fmap_cons in Hnd. apply NoDup_cons in Hnd as [Hni Hnd].
  assert (Hc : claimable r row) by (apply Hcb; by left). pose proof (cb_in _ _ Hc) as Hin.
  destruct (claim_task_runs r row (proj1 Hwf) Hrun Hpaused Hc) as (r1 & c & H1).
  destruct (claim_task_claimed _ _ _ _ Hwf Hc H1) as (Hid & Hcl & Hrow).
  destruct (IH r1) as (r2 & cs & H2 & Hids & Hwf2 & Hcls & Hrow2 & Hatt & Hoth).
  - by eapply claim_task_core; [..|apply Hc|].
  - by rewrite Hrow.
  - by rewrite Hrow.
  - done.
  - intros x Hx. eapply claimable_step; [exact Hwf|exact Hin|exact H1| |].
    + apply Hcb. by right.
    + intros He. apply Hni. rewrite <-He. by apply list_elem_of_fmap_2.
  - exists r2, (c :: cs). split_and!.
    + cbn [mapM]. apply Tx_bind_Ok. exists r1, c. split; [done|]. apply Tx_bind_Ok. by exists r2, cs.
    + by rewrite !fmap_cons, Hid, Hids.
    + done.
    + intros d [->|Hd]%elem_of_cons; [|by apply Hcls]. destruct Hcl as (t & Ht & Hra & Hx & Hn & Hp).
      assert (Hti : dt_id t = dt_id row) by (apply runs_attempt_true in Hra as [-> _]; done).
      destruct (Hoth t Ht) as [Ht2 Hp2]; [by rewrite Hti|]. exists t. split_and!; try done. by apply Hp2.
    + by rewrite Hrow2.
    + intros id Hn. rewrite fmap_cons in Hn. apply not_elem_of_cons in Hn as [Hne Hn]. rewrite Hatt by done.
      by eapply claim_task_attempts.
    + intros x Hx Hnx. rewrite fmap_cons in Hnx. apply not_elem_of_cons in Hnx as [Hne Hnx].
      destruct (claim_task_others _ _ _ _ _ _ _ _ _ x (proj1 Hwf) Hin H1 Hx Hne) as [Hx1 Hp1].
      destruct (Hoth x Hx1 Hnx) as [Hx2 Hp2]. split; [done|]. auto.
Qed.
End claims.

Lemma runnable_claimable uuid t r x :
  x ∈ dr_tasks r /\ runnable t r x = true -> resumes_attempt r x -> fresh_in uuid r x -> claimable uuid t r x.
Proof.
  intros [Hx Hr] Hrec Hfresh. pose proof (runnable_done _ _ _ Hr) as [Hp Hdone].
  unfold runnable in Hr. apply andb_true_iff in Hr as [[[_ He]%andb_true_iff _]%andb_true_iff Hm].
  split; try done. apply orb_true_iff in Hm as [?%Z.ltb_lt|?]; [by left|by right].
Qed.

Definition interrupted_attempt (r : DagRun) (row : DagTask) : option DagAttempt :=
  find_row (numbered (dt_id row) (dt_attemptCount row) AttemptExpired) (dr_attempts r).
Lemma recoverable_found r row :
  resumes_attempt r row <-> (resumes row = true -> exists a, interrupted_attempt r row = Some a).
Proof.
  unfold resumes_attempt, interrupted_attempt. split; intros H Hres; destruct (H Hres) as [a Ha].
  - destruct Ha as [Ha Hn]. destruct (find_row _ _) eqn:E; [by eexists|]. by rewrite (find_row_None _ _ E a Ha) in Hn.
  - apply find_row_Some in Ha. by exists a.
Qed.
Lemma not_recoverable_spec r row : ~ resumes_attempt r row -> resumes row = true /\ interrupted_attempt r row = None.
Proof.
  rewrite recoverable_found. intros H. destruct (resumes row); [|by destruct H]. split; [done|].
  destruct (interrupted_attempt r row); [|done]. destruct H. eauto.
Qed.
Lemma recoverable_dec r row : resumes_attempt r row \/ ~ resumes_attempt r row.
Proof.
  rewrite recoverable_found. destruct (resumes row); [|by left].
  destruct (interrupted_attempt r row); [left; eauto|right]. intros H. by destruct H.
Qed.

Lemma first_unrecoverable r rows x :
  x ∈ rows -> ~ resumes_attempt r x ->
  exists pre y post, rows = pre ++ y :: post /\ (forall z, z ∈ pre -> resumes_attempt r z) /\
    resumes y = true /\ interrupted_attempt r y = None.
Proof.
  induction rows as [|y rows IH]; intros Hx Hnr; [by apply not_elem_of_nil in Hx|].
  destruct (recoverable_dec r y) as [Hy|Hy].
  - apply elem_of_cons in Hx as [->|Hx]; [done|]. destruct (IH Hx Hnr) as (pre & w & post & -> & Hpre & Hw).
    exists (y :: pre), w, post. split_and!; [done| |apply Hw..]. intros u [->|Hu]%elem_of_cons; auto.
  - exists [], y, rows. split_and!; [done|by intros u ?%not_elem_of_nil|by destruct (not_recoverable_spec _ _ Hy)..].
Qed.

Lemma interrupted_attempt_of r row :
  interrupted_attempt r row = find_row (numbered (dt_id row) (dt_attemptCount row) AttemptExpired) (attempts_of (dt_id row) r).
Proof.
  unfold interrupted_attempt, find_row, attempts_of. rewrite keep_keep. f_equal. apply keep_ext. intros a _.
  unfold numbered. by destruct (String.eqb (da_task a) (dt_id row)).
Qed.
Lemma mapM_fails {A B} (f : A -> Tx B) l y post r r1 xs r2 e :
  mapM f l r = (r1, Ok xs) -> f y r1 = (r2, Err e) -> mapM f (l ++ y :: post) r = (r2, Err e).
Proof.
  revert r xs. induction l as [|x l IH]; intros r xs H Hf.
  - apply M_ret_Ok in H as [-> _]. simpl. unfold mbind, M_bind. by rewrite Hf.
  - cbn [mapM] in H. apply Tx_bind_Ok in H as (r0 & w & Hw & H). apply Tx_bind_Ok in H as (r3 & ws & Hl & [-> _]%M_ret_Ok).
    simpl. unfold mbind, M_bind in *. rewrite Hw. by rewrite (IH _ _ Hl Hf).
Qed.

(** The statements before the loop. *)
Lemma claim_preamble uuid foreign ownerId now durationMs limit lease r t d n :
  rr_status (dr_row r) = RunRunning -> rr_pausedAt (dr_row r) = None ->
  ownerId <> "" -> safe_integer now = Some t -> safe_integer durationMs = Some d -> 1 <= d ->
  safe_integer limit = Some n -> 1 <= n -> is_safe (t + d) = true ->
  assertDagRunMutationLease t lease false r = (r, Ok tt) ->
  claimRunnableTasks uuid foreign ownerId now durationMs limit lease r =
  transaction (
    claims ← mapM (claim_task uuid foreign ownerId t (t + d)) (take (Z.to_nat n) (keep (runnable t r) (dr_tasks r)));
    (if bool_decide (claims = []) then mret tt
     else update_run (fun row => bool_decide (rr_status row = RunRunning)) (row_touch t) ;; mret tt) ;;
    mret claims) r.
Proof.
  intros Hrun Hpaused Hown Hnow Hd Hd1 Hlim Hn1 Hsafe Hlease. unfold claimRunnableTasks, lease_expiry, safe_or, positive_or.
  rewrite (proj2 (String.eqb_neq _ _) Hown), Hnow, Hd, Hlim.
  rewrite (proj2 (Z.ltb_ge d 1) Hd1), (proj2 (Z.ltb_ge n 1) Hn1). unfold throw_if.
  mrun. rewrite Hsafe. cbn [negb]. unfold transaction. rewrite Hlease, !bool_decide_true by done. done.
Qed.

(** C35. A claim that selects a task whose interrupted attempt it cannot find fails as a whole:
    nothing is claimed and nothing changes, however many other tasks are runnable. *)
Theorem claimRunnableTasks_unrecoverable runId uuid foreign ownerId now durationMs limit lease r t d n x :
  ledger_reachable runId r -> rr_status (dr_row r) = RunRunning -> rr_pausedAt (dr_row r) = None ->
  ownerId <> "" -> safe_integer now = Some t -> safe_integer durationMs = Some d -> 1 <= d ->
  safe_integer limit = Some n -> 1 <= n -> is_safe (t + d) = true ->
  assertDagRunMutationLease t lease false r = (r, Ok tt) ->
  (forall x y, uuid x = uuid y -> x = y) -> (forall x, foreign (uuid x) = false) ->
  (forall x, uuid x ∉ da_id <$> dr_attempts r) ->
  x ∈ take (Z.to_nat n) (keep (runnable t r) (dr_tasks r)) -> ~ resumes_attempt r x ->
  exists y, claimRunnableTasks uuid foreign ownerId now durationMs limit lease r = (r, Err (EAttemptNotRecoverable y)).
Proof.
  intros Hreach%reachable_wf Hrun Hpaused Hown Hnow Hd Hd1 Hlim Hn1 Hsafe Hlease Hinj Hfor Hfresh Hx Hnr.
  assert (Hcore : core_wf r) by (split; apply Hreach). rewrite (claim_preamble _ _ _ _ _ _ _ _ t d n) by done.
  set (rows := take (Z.to_nat n) (keep (runnable t r) (dr_tasks r))) in *.
  destruct (first_unrecoverable r rows x Hx Hnr) as (pre & y & post & Heq & Hpre & Hres & Hnone).
  assert (Hnd : NoDup (dt_id <$> rows)) by (apply (rows_left_take _ _ r), rows_left_keep, Hcore).
  assert (Hcb : forall z, z ∈ pre -> claimable uuid t r z).
  { intros z Hz. apply runnable_claimable; [|by apply Hpre|apply Hfresh].
    apply (elem_of_take_keep (Z.to_nat n)). fold rows. rewrite Heq. apply elem_of_app. by left. }
  rewrite Heq, fmap_app, fmap_cons in Hnd. apply NoDup_app in Hnd as (Hnd & Hdisj & _).
  destruct (claims_run uuid foreign ownerId t (t + d) Hinj Hfor pre r Hcore Hrun Hpaused Hnd Hcb)
    as (r1 & cs & H1 & _ & _ & _ & _ & Hatt & _).
  assert (Hint : interrupted_attempt r1 y = None).
  { rewrite interrupted_attempt_of, Hatt; [by rewrite <-interrupted_attempt_of|]. intros Hin. apply (Hdisj _ Hin). by left. }
  assert (Hfail : claim_task uuid foreign ownerId t (t + d) y r1 = (r1, Err (EAttemptNotRecoverable (dt_id y)))).
  { unfold claim_task. fold (resumes y). fold (interrupted_attempt r1 y). cbv zeta. rewrite Hres. unfold mbind, M_bind, get.
    fold (interrupted_attempt r1 y). by rewrite Hint. }
  exists (dt_id y). unfold transaction. unfold mbind at 1, M_bind at 1. rewrite Heq.
  by rewrite (mapM_fails _ _ _ _ _ _ _ _ _ H1 Hfail).
Qed.

(** C19. On a running run that is not paused, a controller that holds its lease claims the first
    runnable tasks, in the order of the request and up to its limit, provided that each of
    them that resumes an interrupted attempt has that attempt recorded as interrupted: every
    claimed task is then run by this controller alone, until the lease it asked for, after all
    its prerequisites succeeded, and every other task is as it was.  Under that condition on
    the selected tasks the call claims something whenever anything is runnable; where it does
    not hold, the claim fails as a whole.  The ids of new attempts are fresh. *)
Theorem claimRunnableTasks_claims runId uuid foreign ownerId now durationMs limit lease r t d n :
  ledger_reachable runId r -> rr_status (dr_row r) = RunRunning -> rr_pausedAt (dr_row r) = None ->
  ownerId <> "" -> safe_integer now = Some t -> safe_integer durationMs = Some d -> 1 <= d ->
  safe_integer limit = Some n -> 1 <= n -> is_safe (t + d) = true ->
  assertDagRunMutationLease t lease false r = (r, Ok tt) ->
  (forall x y, uuid x = uuid y -> x = y) -> (forall x, foreign (uuid x) = false) ->
  (forall x, uuid x ∉ da_id <$> dr_attempts r) ->
  (forall x, x ∈ take (Z.to_nat n) (keep (runnable t r) (dr_tasks r)) -> resumes_attempt r x) ->
  exists r' claims, claimRunnableTasks uuid foreign ownerId now durationMs limit lease r = (r', Ok claims) /\
    cl_taskId <$> claims = dt_id <$> take (Z.to_nat n) (keep (runnable t r) (dr_tasks r)) /\
    (forall c, c ∈ claims -> claimed ownerId (t + d) r' c) /\
    (forall x, x ∈ dr_tasks r -> (dt_id x ∉ cl_taskId <$> claims) -> x ∈ dr_tasks r') /\
    (keep (runnable t r) (dr_tasks r) <> [] -> claims <> []).
Proof.
  intros Hreach%reachable_wf Hrun Hpaused Hown Hnow Hd Hd1 Hlim Hn1 Hsafe Hlease Hinj Hfor Hfresh Hrec.
  assert (Hcore : core_wf r) by (split; apply Hreach).
  set (rows := take (Z.to_nat n) (keep (runnable t r) (dr_tasks r))).
  assert (Hcb : forall x, x ∈ rows -> claimable uuid t r x).
  { intros x Hx. apply runnable_claimable; [by eapply elem_of_take_keep|by apply Hrec|apply Hfresh]. }
  destruct (claims_run uuid foreign ownerId t (t + d) Hinj Hfor rows r) as (r1 & cs & H1 & Hids & Hwf1 & Hcl & Hrow & _ & Hoth);
    [done..| |done|].
  { apply (rows_left_take _ _ r), rows_left_keep, Hcore. }
  set (r2 := if bool_decide (cs = []) then r1 else with_row (row_touch t (dr_row r1)) r1).
  assert (Htasks : dr_tasks r2 = dr_tasks r1 /\ dr_dependencies r2 = dr_dependencies r1) by (unfold r2; by destruct (bool_decide _)).
  destruct Htasks as [Ht2 Hd2]. exists r2, cs. split_and!; [|done| | |].
  - rewrite (claim_preamble _ _ _ _ _ _ _ _ t d n) by done. apply transaction_Ok. fold rows.
    apply Tx_bind_Ok. exists r1, cs. split; [done|]. unfold r2. destruct (bool_decide (cs = [])); [done|].
    unfold mbind, M_bind, update_run. rewrite Hrow, Hrun. done.
  - intros c Hc. destruct (Hcl c Hc) as (x & Hx & Hra & Hxl & Hxn & Hxp). exists x. rewrite Ht2. split_and!; try done.
    unfold prerequisites_done, prerequisites in *. by rewrite Ht2, Hd2.
  - intros x Hx Hnx. rewrite Ht2. rewrite Hids in Hnx. by apply Hoth.
  - intros Hne ->. destruct (keep (runnable t r) (dr_tasks r)) as [|y k] eqn:E; [done|].
    unfold rows in Hids. replace (Z.to_nat n) with (S (Z.to_nat (n - 1))) in Hids by lia. done.
Qed.

(** * Completing a task again

    A controller that does not know whether its completion was recorded may send it again. *)

(** The state in which a completion finds its own result. *)
Definition has_result (taskId attemptId ownerId : string) (c : DagTaskCompletion) (r : DagRun) : Prop :=
  exists row prior, row ∈ dr_tasks r /\ dt_id row = taskId /\ prior ∈ dr_attempts r /\
    attempt_of attemptId taskId ownerId prior = true /\
    already_completed row prior attemptId ownerId c = true /\ has_status TSucceeded row = is_success c.

Lemma find_row_unique {A} (p : A -> bool) l x :
  x ∈ l -> p x = true -> (forall y, y ∈ l -> p y = true -> y = x) -> find_row p l = Some x.
Proof.
  intros Hx Hp Hu. destruct (find_row p l) as [y|] eqn:E.
  - apply find_row_Some in E as [Hy Hpy]. f_equal. by apply Hu.
  - by rewrite (find_row_None _ _ E x Hx) in Hp.
Qed.

(** The reason that a completion must give. *)
Definition bad_reason (c : DagTaskCompletion) : bool :=
  match c with
  | CompletionFailure reason _ _ _ => String.eqb reason "" || String.eqb reason "completed"
  | CompletionSuccess _ _ _ => false
  end.

Lemma complete_again runId taskId attemptId ownerId c now t lease r :
  tasks_wf r -> has_result taskId attemptId ownerId c r -> bad_reason c = false -> safe_integer now = Some t ->
  assertDagRunMutationLease t lease false r = (r, Ok tt) ->
  completeDagTask runId taskId attemptId ownerId c now lease r = (r, Ok tt).
Proof.
  intros Hwf (row & prior & Hrow & Hid & Hprior & Hof & Hdone & Hs) Hreason Hnow Hlease. unfold completeDagTask.
  apply Tx_bind_Ok. exists r, t. split; [by apply safe_or_Ok|]. apply transaction_Ok.
  apply Tx_bind_Ok. exists r, tt. split; [by apply throw_if_Ok|]. apply Tx_bind_Ok. exists r, r. split; [done|].
  rewrite (find_row_unique _ _ row Hrow).
  2: { by apply is_task_true. }
  2: { intros y Hy Hyid%is_task_true. eapply (fmap_NoDup_inj dt_id); [apply Hwf|done..|congruence]. }
  apply Tx_bind_Ok. exists r, tt. split; [done|].
  rewrite (find_row_unique _ _ prior Hprior Hof).
  2: { intros y Hy (Hyid & _)%attempt_of_true. apply attempt_of_true in Hof as (Hpid & _).
       eapply (fmap_NoDup_inj da_id); [apply Hwf|done..|congruence]. }
  rewrite Hs, Hdone. destruct (is_success c); [by apply throw_if_Ok|done].
Qed.

Lemma safe_integer_eq n z : safe_integer n = Some z -> num_eq_Z n z = true.
Proof.
  unfold safe_integer, num_eq_Z. destruct (num_is_safe_integer n); [|done]. intros ->. apply Z.eqb_refl.
Qed.

(** The plan carries what the completion says. *)
Definition plan_says (attemptId ownerId : string) (c : DagTaskCompletion) (avail : bool) (p : CompletionPlan) : Prop :=
  match c with
  | CompletionSuccess artifact _ _ =>
      avail = false /\ cp_status p = TSucceeded /\ cp_currentAttempt p = Some attemptId /\ cp_owner p = Some ownerId /\
      cp_artifact p = Some artifact
  | CompletionFailure reason error _ _ =>
      cp_status p <> TSucceeded /\ cp_attemptReason p = reason /\ cp_error p = error /\
      (avail = true -> cp_status p = TPending /\ isAvailabilityRetryCheckpoint (cp_checkpoint p) = true)
  end.

Lemma fail_plan_says runId now row attemptId ownerId reason error usage turns u n d r r' p :
  fail_plan runId now row attemptId ownerId reason error usage turns d r = (r', Ok p) ->
  plan_says attemptId ownerId (CompletionFailure reason error u n) (is_availability_retry row d) p.
Proof.
  unfold fail_plan, retry_at. intros H. cbv zeta in H. destruct (is_availability_retry row d); simpl in H.
  - by committing.
  - committing; simpl; split_and!; try done; by destruct (String.eqb reason "cancelled").
Qed.

(** What is recorded by a completion that is not a repetition. *)
Lemma completion_result runId taskId attemptId ownerId c now lease r r' :
  ledger_wf r -> completeDagTask runId taskId attemptId ownerId c now lease r = (r', Ok tt) ->
  bad_reason c = false /\ has_result taskId attemptId ownerId c r'.
Proof.
  intros Hall H. assert (Hwf : tasks_wf r) by apply Hall. assert (Hcore : core_wf r) by (split; apply Hall).
  unfold_operations. apply Tx_bind_Ok in H as (? & t0 & [-> Hnow]%safe_or_Ok & H).
  apply (proj1 (transaction_Ok _ _ _ _)) in H.
  apply Tx_bind_Ok in H as (? & [] & [Hreason ->]%throw_if_Ok & H). split; [exact Hreason|].
  apply Tx_bind_Ok in H as (? & x & [-> ->]%get_Ok & H).
  destruct (find_row (is_task taskId) (dr_tasks r)) as [row|] eqn:Hrow; [|done].
  apply find_row_Some in Hrow as [Hin Hid%is_task_true].
  apply Tx_bind_Ok in H as (? & [] & (-> & _)%assert_lease_Ok & H).
  destruct (find_row _ (dr_attempts r)) as [prior|] eqn:Hprior; [|done].
  apply find_row_Some in Hprior as [Hpin Hpof].
  destruct (has_status TSucceeded row) eqn:Hsucc.
  { apply throw_if_Ok in H as [[Hs Hdone]%negb_false_iff%andb_true_iff ->].
    exists row, prior. split_and!; try done. congruence. }
  destruct (negb (is_success c) && _) eqn:Hrep.
  { apply M_ret_Ok in H as [-> _]. apply andb_true_iff in Hrep as [Hs%negb_true_iff Hdone].
    exists row, prior. split_and!; try done. congruence. }
  apply Tx_bind_Ok in H as (? & [] & [Hkeep%negb_false_iff ->]%throw_if_Ok & H).
  apply Tx_bind_Ok in H as (? & [usage turns] & Hacc & H).
  assert (Hsame : forall a, da_usage a = usage -> da_turns a = turns -> same_accounting c a = true).
  { intros a Hau Hat. unfold same_accounting. unfold completion_accounting in Hacc.
    destruct (co_usage c) as [u|], (co_turns c) as [n|]; committing; rewrite ?bool_decide_true by done; try done;
      simpl; by apply safe_integer_eq. }
  apply completion_accounting_Ok in Hacc as (-> & _).
  apply Tx_bind_Ok in H as (r0 & p & Hp & H).
  set (avail := completion_is_availability row c) in *.
  assert (Hplan : r0 = r /\ plan_ok row attemptId ownerId avail p /\ plan_says attemptId ownerId c avail p).
  { destruct c as [artifact u n|reason error u n].
    - pose proof Hp as [-> Hok]%succeed_plan_ok. split_and!; [done|done|]. unfold succeed_plan in Hp.
      apply Tx_bind_Ok in Hp as (? & [] & _ & [_ ->]%M_ret_Ok). by split_and!.
    - pose proof Hp as [-> Hok]%fail_plan_ok. split_and!; [done|done|]. by eapply fail_plan_says. }
  destruct Hplan as (-> & Hplan & Hsays). apply Tx_bind_Ok in H as (r1 & [] & Happ & H).
  pose proof (completion_core _ _ _ _ _ _ _ _ _ _ Hcore Hin Hplan Happ) as [Hwf1 _].
  apply apply_completion_Ok in Happ as (t1 & Hk & Hid1 & _ & Hrun & Ht1 & Ha1 & _).
  assert (Hkr : keeps_attempt r (dt_id row) attemptId ownerId t0 row = true) by by rewrite Hid.
  pose proof (keep_singleton_eq _ _ _ _ Hk Hin Hkr) as <-.
  (** the row and the attempt *)
  eassert (Hrow1 : _ ∈ dr_tasks r1) by (rewrite Ht1; apply elem_of_mapped; exists row; split; [done|]; by rewrite Hkr).
  unfold keeps_attempt in Hkr. apply andb_true_iff in Hkr as [[Hra _]%andb_true_iff _].
  pose proof (running_attempt_spec _ _ _ _ Hwf Hin Hra) as (pre & a & _ & _ & Has & _ & _ & _ & _ & _ & _ & _ & Hone).
  assert (Hpa : a ∈ dr_attempts r /\ attempt_of attemptId (dt_id row) ownerId a && attempt_running a = true).
  { apply (elem_of_keep (fun a => attempt_of attemptId (dt_id row) ownerId a && attempt_running a)). rewrite Hone. by left. }
  destruct Hpa as [Hain Hap].
  eassert (Hatt1 : _ ∈ dr_attempts r1) by (rewrite Ha1; apply elem_of_mapped; exists a; split; [done|]; by rewrite Hap).
  apply andb_true_iff in Hap as [Haof _].
  (** blocking leaves both *)
  assert (Hafter : forall z, z ∈ dr_tasks r1 -> (dt_status z = TPending -> r' = r1) ->
    z ∈ dr_tasks r' /\ dr_attempts r' = dr_attempts r1).
  { intros z Hz Hzp. destruct (decide (dt_status z = TPending)) as [Hpend|Hpend]; [by rewrite Hzp|].
    assert (Hb : r' = r1 \/ blockDagDescendants t0 r1 = (r', Ok tt)).
    { destruct (bool_decide (cp_status p = TFailed \/ cp_status p = TCancelled)); [by right|]. apply Tx_bind_Ok in H as (? & b & ->%negative_outcome_Ok & H).
      destruct b; [by right|]. apply M_ret_Ok in H as [-> _]. by left. }
    destruct Hb as [->|Hb]; [by split|].
    destruct (blockDagDescendants_run t0 r1) as (r2 & q & Hb2 & Hbt & Hq & _ & _ & Hba); [apply Hwf1|].
    assert (r2 = r') as -> by congruence. split; [|done]. rewrite Hbt. apply elem_of_mapped. exists z. split; [done|].
    destruct (q z) eqn:Hqz; [|done]. by apply Hq, doomed_pending in Hqz. }
  specialize (Hafter _ Hrow1). destruct Hafter as [Hrow' Hatt'].
  { simpl. intros Hpend. rewrite bool_decide_false in H by (rewrite Hpend; by intros [?|?]).
    apply Tx_bind_Ok in H as (? & b & Hneg & H). destruct c as [|reason error u n].
    - destruct Hsays as (_ & Hx & _). congruence.
    - apply M_ret_Ok in Hneg as [-> ->]. by apply M_ret_Ok in H as [-> _]. }
  eexists _, _. split; [exact Hrow'|]. split; [exact Hid|]. rewrite Hatt'. split; [exact Hatt1|]. rewrite <-Hid.
  split; [by rewrite attempt_of_true in *|]. 
  assert (Hsa : same_accounting c ((attempt_touch t0
        ∘ attempt_status (if avail then AttemptExpired
                          else if bool_decide (cp_status p = TSucceeded) then AttemptSucceeded else AttemptFailed)
        ∘ attempt_checkpoint (cp_checkpoint p)
        ∘ attempt_outcome (if avail then None else Some (cp_attemptReason p)) (if avail then None else cp_error p)
        ∘ attempt_accounting usage turns) a) = true) by (by apply Hsame).
  destruct c as [artifact u n|reason error u n].
  - destruct Hsays as (_ & Hs & Hc & Ho & Hart). split.
    + unfold already_completed. rewrite Hsa. simpl. rewrite Hc, Ho, Hart. unfold same_json.
      by rewrite !bool_decide_true.
    + simpl. rewrite Hs. done.
  - destruct Hsays as (Hs & Hr & He & Hav). split; [|by apply has_status_false].
    unfold already_completed. rewrite Hsa. simpl. apply orb_true_iff. destruct avail eqn:Ha.
    + right. destruct (Hav eq_refl) as [Hpend Hck]. rewrite Hck, Hpend. simpl.
      unfold avail, completion_is_availability, is_availability_retry, dt_role in *. simpl. by rewrite Ha.
    + left. rewrite Hr, He. rewrite (bool_decide_false (cp_status p = _)) by done. by rewrite !bool_decide_true.
Qed.

(** ** After other controllers worked on the run *)

(** The task is back in the queue and waits for this attempt to be resumed. *)
Definition awaits_resumption (taskId attemptId ownerId : string) (r : DagRun) : Prop :=
  exists row a, row ∈ dr_tasks r /\ dt_id row = taskId /\ dt_status row = TPending /\
    isAvailabilityRetryCheckpoint (dt_checkpoint row) = true /\
    a ∈ dr_attempts r /\ attempt_of attemptId taskId ownerId a = true /\ da_status a = AttemptExpired.
(** The attempt was recorded as failed. *)
Definition attempt_failed (taskId attemptId ownerId : string) (r : DagRun) : Prop :=
  exists a, a ∈ dr_attempts r /\ attempt_of attemptId taskId ownerId a = true /\ da_status a = AttemptFailed.

(** What was recorded stays recorded: a success for good, the failure of an attempt until the
    task succeeds, and an availability failure until the attempt is resumed. *)
Lemma result_stays runId taskId attemptId ownerId c r r' :
  ledger_wf r -> rtc (ledger_step runId) r r' -> has_result taskId attemptId ownerId c r ->
  (is_success c = false ->
     (forall row, row ∈ dr_tasks r' -> dt_id row = taskId -> dt_status row <> TSucceeded) /\
     (attempt_failed taskId attemptId ownerId r \/ awaits_resumption taskId attemptId ownerId r')) ->
  has_result taskId attemptId ownerId c r'.
Proof.
  intros Hwf Hsteps (row & prior & Hrow & Hid & Hprior & Hof & Hdone & Hs) Hc.
  destruct (steps_keep_final _ _ _ Hsteps) as [Hfinal Hcontract].
  destruct (Hcontract _ Hrow) as (row' & Hrow' & Hk).
  assert (Hrole : completion_is_availability row' c = completion_is_availability row c)
    by (unfold completion_is_availability, is_availability_retry, dt_role; by rewrite Hk).
  assert (Hid' : dt_id row' = taskId) by (unfold dt_id in *; congruence).
  destruct c as [artifact u n|reason error u n].
  - apply has_status_true in Hs. exists row, prior. split_and!; try done.
    + apply (steps_keep_ended _ _ _ Hsteps); [done|]. apply unsettled_false. by rewrite Hs.
    + apply Hfinal; [done|]. unfold attempt_final. apply bool_decide_eq_true. left.
      pose proof (ok_status _ _ (wf_tasks _ (wf_all_tasks _ Hwf) _ Hrow)) as Hst. unfold status_ok in Hst. rewrite Hs in Hst.
      destruct Hst as (pre & a & ? & Hl & _ & Ha & Hcur & _). unfold already_completed in Hdone.
      rewrite !andb_true_iff, !bool_decide_eq_true in Hdone. apply attempt_of_true in Hof as (Hpid & _).
      assert (a ∈ attempts_of (dt_id row) r) as [Hain _]%elem_of_attempts_of by (rewrite Hl; apply elem_of_app; right; by left).
      replace prior with a; [done|]. eapply (fmap_NoDup_inj da_id); [apply Hwf|done..|]. destruct Hdone as [[[Hx _] _] _]. congruence.
    + by apply has_status_true.
  - destruct (Hc eq_refl) as [Hns Hwhich]. unfold already_completed in Hdone.
    apply orb_true_iff in Hdone as [Hf|Ha].
    + exists row', prior. split_and!; try done.
      * apply Hfinal; [done|]. unfold attempt_final. rewrite !andb_true_iff, bool_decide_eq_true in Hf.
        apply bool_decide_eq_true. tauto.
      * unfold already_completed. by rewrite Hf.
      * apply has_status_false. by apply Hns.
    + rewrite !andb_true_iff, !bool_decide_eq_true in Ha. destruct Ha as [[[Hav _] Hexp] _].
      destruct Hwhich as [(a & Hain & Haof & Hfail)|(row2 & a & Hrow2 & Hid2 & Hpend & Hck & Hain & Haof & Haexp)].
      { replace a with prior in Hfail; [congruence|]. apply attempt_of_true in Haof as (? & _), Hof as (? & _).
        eapply (fmap_NoDup_inj da_id); [apply Hwf|done..|congruence]. }
      assert (row2 = row') as ->.
      { eapply (fmap_NoDup_inj dt_id); [apply (ledger_steps_wf _ _ _ Hsteps Hwf)|done..|congruence]. }
      exists row', a. split_and!; try done.
      * unfold already_completed. rewrite Hrole, Hav, Hck, Haexp. rewrite (proj2 (has_status_true TPending row') Hpend).
        rewrite (bool_decide_true (AttemptExpired = AttemptExpired)) by done. apply orb_true_r.
      * apply has_status_false. congruence.
Qed.

(** C26. A completion that was recorded may be sent again: whatever steps were taken in between,
    under this controller or under others that took the run over, a controller that now holds
    the lease and repeats it succeeds and changes nothing.  For a success nothing else is
    required.  For a failure the task must not have succeeded since, and if the task went back
    to the queue because a provider was unavailable (its attempt is not recorded as failed), it
    must still wait there for the attempt to be resumed. *)
Theorem completeDagTask_idempotent runId taskId attemptId ownerId c now lease r r1 r2 now' t lease' :
  ledger_reachable runId r -> completeDagTask runId taskId attemptId ownerId c now lease r = (r1, Ok tt) ->
  rtc (ledger_step runId) r1 r2 ->
  (is_success c = false ->
     (forall row, row ∈ dr_tasks r2 -> dt_id row = taskId -> dt_status row <> TSucceeded) /\
     (attempt_failed taskId attemptId ownerId r1 \/ awaits_resumption taskId attemptId ownerId r2)) ->
  safe_integer now' = Some t -> assertDagRunMutationLease t lease' false r2 = (r2, Ok tt) ->
  completeDagTask runId taskId attemptId ownerId c now' lease' r2 = (r2, Ok tt).
Proof.
  intros Hr%reachable_wf H Hsteps Hc Hnow Hlease. destruct (completion_result _ _ _ _ _ _ _ _ _ Hr H) as [Hb Hres].
  pose proof (perform_wf runId (OpComplete taskId attemptId ownerId c now lease) r r1 Hr H) as Hwf1.
  eapply complete_again; [|by eapply result_stays|done..]. by apply (ledger_steps_wf _ _ _ Hsteps).
Qed.
