(* ===== verification/LedgerSamples.v ===== *)
(** * Sample runs of the ledger

    A run of two tasks, the second after the first, as its controllers work on it; they also
    witness the theorems.  The last run shows the claim that a resumed retry makes fail. *)
From S2P Require Import Prelude JsNumber SessionTypes JsText JsonNumber JsonText Subagent RetryPolicy.
From S2P Require Import LedgerTypes Ledger LedgerTasks LedgerInvariant LedgerPreservation LedgerCreation.
From S2P Require Import LedgerSafety LedgerTheorems LedgerClaims.

Definition sample_contract (id : string) (dependencies : list string) : LedgerContract :=
  {| lc_task := {| task_id := id; dependsOn := dependencies |}; lc_role := Scout; lc_maxAttempts := num_of_Z 2;
     lc_contractHash := "hash-" ++ id; lc_ownedPaths := []; lc_rest := [] |}.
Definition sample_request : CompiledRequest :=
  {| cr_tasks := [sample_contract "a" []; sample_contract "b" ["a"]]; cr_sealed := true;
     cr_policy := {| rp_version := num_of_Z 2; rp_handoffProtocolVersion := num_of_Z 2; rp_mergeEnabled := false; rp_rest := [] |} |}.
Definition empty_run : DagRun := no_tasks 0 (without_tasks sample_request) None.
Definition sample_created : DagRun :=
  match createDagRun "run" false sample_request None 100 with Ok r => r | Err _ => empty_run end.

(** The state after some operations. *)
Definition after (ops : list ledger_op) (r : DagRun) : DagRun := foldl (fun r op => (perform "run" op r).1) r ops.

Lemma after_steps ops r : rtc (ledger_step "run") r (after ops r).
Proof.
  revert r. induction ops as [|op ops IH]; intros r; [done|]. eapply rtc_l; [apply (step_op _ _ op)|]. apply IH.
Qed.
Lemma reachable_steps runId r r' : ledger_reachable runId r -> rtc (ledger_step runId) r r' -> ledger_reachable runId r'.
Proof. intros Hr. induction 1 as [|r1 r2 r3 Hs _ IH]; [done|]. apply IH. by eapply reach_step. Qed.
Lemma sample_created_reachable : ledger_reachable "run" sample_created.
Proof. apply (reach_created _ false sample_request None 100). by vm_compute. Qed.
Lemma after_reachable ops : ledger_reachable "run" (after ops sample_created).
Proof. eapply reachable_steps; [apply sample_created_reachable|apply after_steps]. Qed.

Definition z (n : Z) : number := num_of_Z n.
Definition lease (epoch expires : Z) : DagRunLease :=
  {| le_ownerId := "controller"; le_epoch := epoch; le_leaseExpiresAt := expires |}.
Definition fresh_attempt (n : string) (task : string) : string := n ++ "-" ++ task.
Definition no_foreign (id : string) : bool := false.
Definition claim_op (n : string) (now : Z) : ledger_op :=
  OpClaim (fresh_attempt n) no_foreign "controller" (z now) (z 50) (z 5) (Some (lease 1 1000)).
Definition artifact (id : string) : json :=
  JsonObject [("artifactVersion", JsonNumber (z 2)); ("taskId", JsonString id); ("contractHash", JsonString ("hash-" ++ id));
              ("quality", JsonObject [("semanticOutcome", JsonString "accepted")])].
Definition succeed_op (id attempt : string) (now : Z) : ledger_op :=
  OpComplete id attempt "controller" (CompletionSuccess (artifact id) None None) (z now) (Some (lease 1 1000)).
Definition fail_op (id attempt reason : string) (error : option string) (now : Z) : ledger_op :=
  OpComplete id attempt "controller" (CompletionFailure reason error None None) (z now) (Some (lease 1 1000)).

Definition start_ops : list ledger_op :=
  [OpAcquireLease "controller" (z 100) (z 900); OpSetStatus RunRunning 101 (Some (lease 1 1000))].
Definition statuses (r : DagRun) : list (string * DagTaskStatus * Z) :=
  (fun t => (dt_id t, dt_status t, dt_attemptCount t)) <$> dr_tasks r.

(** Both tasks are run, one after the other. *)
Definition both_ops : list ledger_op :=
  start_ops ++ [claim_op "1" 110; succeed_op "a" "1-a" 120; claim_op "2" 130; succeed_op "b" "2-b" 140;
                OpSetStatus RunSucceeded 150 (Some (lease 1 1000))].
Example sample_both :
  statuses (after both_ops sample_created) = [("a", TSucceeded, 1); ("b", TSucceeded, 1)] /\
  rr_status (dr_row (after both_ops sample_created)) = RunSucceeded.
Proof. by vm_compute. Qed.
(** A failure that is not retried blocks what depends on it. *)
Example sample_blocked :
  statuses (after (start_ops ++ [claim_op "1" 110; fail_op "a" "1-a" "task_rejected" None 120]) sample_created)
  = [("a", TFailed, 1); ("b", TBlocked, 0)].
Proof. by vm_compute. Qed.

(** ** Witnesses *)

Lemma fresh_attempt_inj n x y : fresh_attempt n x = fresh_attempt n y -> x = y.
Proof. unfold fresh_attempt. intros H. induction n as [|c n IH]; simpl in H; injection H; auto. Qed.

Definition started : DagRun := after start_ops sample_created.
Definition a_claimed : DagRun := after (start_ops ++ [claim_op "1" 110]) sample_created.
Definition a_done : DagRun := after (start_ops ++ [claim_op "1" 110; succeed_op "a" "1-a" 120]) sample_created.
Definition b_claimed : DagRun :=
  after (start_ops ++ [claim_op "1" 110; succeed_op "a" "1-a" 120; claim_op "2" 130]) sample_created.
Definition both_done : DagRun := after both_ops sample_created.
Definition a_lost : DagRun :=
  with_tasks (mapped (is_task "a") (task_status TFailed) (dr_tasks sample_created)) sample_created.

Lemma ledger_invariant_witness : ledger_reachable "run" both_done /\ ledger_wf both_done.
Proof. split; [apply after_reachable|apply (ledger_invariant "run"), after_reachable]. Defined.

Definition one_lease : DagRunLease := {| le_ownerId := "one"; le_epoch := 1; le_leaseExpiresAt := 150 |}.
Definition two_lease : DagRunLease := {| le_ownerId := "two"; le_epoch := 2; le_leaseExpiresAt := 250 |}.
Definition one_run : DagRun := (acquireDagRunLease "one" (z 100) (z 50) sample_created).1.
Definition two_run : DagRun := (acquireDagRunLease "two" (z 200) (z 50) one_run).1.
Lemma replaced_controller_fenced_witness :
  le_epoch one_lease < le_epoch two_lease /\
  (forall t, safe_integer (z 200) = Some t -> holds_lease one_lease (dr_row one_run) = true -> le_leaseExpiresAt one_lease <= t) /\
  (perform "run" (OpSetStatus RunRunning 210 (Some one_lease)) two_run).1 = two_run.
Proof.
  apply (replaced_controller_fenced "run" "one" (z 100) (z 50) sample_created one_run one_lease one_run
           "two" (z 200) (z 50) two_run two_lease two_run _ one_lease).
  - by vm_compute.
  - apply rtc_refl.
  - by vm_compute.
  - apply rtc_refl.
  - reflexivity.
  - reflexivity.
Defined.

Lemma blockDagDescendants_exact_witness :
  NoDup (dt_id <$> dr_tasks a_lost) /\
  exists r' p, blockDagDescendants 120 a_lost = (r', Ok tt) /\
    dr_tasks r' = mapped p (blocked_task 120) (dr_tasks a_lost) /\
    (forall t, t ∈ dr_tasks a_lost -> p t = true <-> doomed a_lost t) /\
    dr_dependencies r' = dr_dependencies a_lost /\ dr_row r' = dr_row a_lost /\ dr_attempts r' = dr_attempts a_lost.
Proof.
  assert (Hnd : NoDup (dt_id <$> dr_tasks a_lost)) by (apply (bool_decide_unpack _); by vm_compute).
  split; [exact Hnd|]. apply (blockDagDescendants_exact 120 a_lost Hnd).
Defined.

(** The second task of the run and its prerequisite. *)
Definition the_b : DagTask := List.nth 1 (dr_tasks b_claimed) (new_task 0 (sample_contract "" []) 1).
Definition the_a : DagTask := List.nth 0 (dr_tasks b_claimed) (new_task 0 (sample_contract "" []) 1).
Lemma started_after_prerequisites_witness :
  dt_status the_a = TSucceeded /\
  (exists artifact, dt_artifact the_a = Some artifact /\ artifact_matches the_a artifact) /\
  forall r', rtc (ledger_step "run") b_claimed r' -> the_a ∈ dr_tasks r'.
Proof.
  apply (started_after_prerequisites "run" b_claimed the_b the_a).
  - apply after_reachable.
  - vm_compute. right. left.
  - by vm_compute.
  - vm_compute. left.
Defined.

Lemma ended_run_final_witness :
  (forall t, t ∈ dr_tasks both_done -> unsettled t = false /\
     (rr_status (dr_row both_done) = RunSucceeded -> dt_status t = TSucceeded)) /\
  (forall a, a ∈ dr_attempts both_done -> da_status a <> AttemptRunning) /\
  forall r', rtc (ledger_step "run") both_done r' -> frozen both_done r'.
Proof. apply (ended_run_final "run" both_done); [apply after_reachable|by vm_compute]. Defined.

Lemma claimRunnableTasks_claims_witness :
  exists r' claims, claimRunnableTasks (fresh_attempt "1") no_foreign "controller" (z 110) (z 50) (z 5) (Some (lease 1 1000)) started
      = (r', Ok claims) /\
    cl_taskId <$> claims = dt_id <$> take (Z.to_nat 5) (keep (runnable 110 started) (dr_tasks started)) /\
    (forall c, c ∈ claims -> claimed "controller" (110 + 50) r' c) /\
    (forall x, x ∈ dr_tasks started -> (dt_id x ∉ cl_taskId <$> claims) -> x ∈ dr_tasks r') /\
    (keep (runnable 110 started) (dr_tasks started) <> [] -> claims <> []).
Proof.
  apply (claimRunnableTasks_claims "run"); try (by vm_compute).
  - apply after_reachable.
  - apply fresh_attempt_inj.
  - intros x Hx. vm_compute in Hx. by apply not_elem_of_nil in Hx.
  - intros x Hx Hres. exfalso. vm_compute in Hx.
    repeat (apply elem_of_cons in Hx as [->|Hx]; [by vm_compute in Hres|]). by apply not_elem_of_nil in Hx.
Defined.

(** Another controller takes the run over after the lease of the first has expired. *)
Definition other_lease : DagRunLease := {| le_ownerId := "other"; le_epoch := 2; le_leaseExpiresAt := 2500 |}.
Definition takeover : ledger_op := OpAcquireLease "other" (z 2000) (z 500).
Definition a_taken_over : DagRun := after [takeover] a_done.
(** The same for a task put back in the queue because its provider was unavailable. *)
Definition unavailable : DagTaskCompletion := CompletionFailure "model_error" (Some "fetch failed") None None.
Definition a_requeued : DagRun :=
  after (start_ops ++ [claim_op "1" 110; OpComplete "a" "1-a" "controller" unavailable (z 120) (Some (lease 1 1000))])
    sample_created.
Definition a_requeued_over : DagRun := after [takeover] a_requeued.
Lemma completeDagTask_idempotent_witness :
  completeDagTask "run" "a" "1-a" "controller" (CompletionSuccess (artifact "a") None None) (z 2010) (Some other_lease)
    a_taken_over = (a_taken_over, Ok tt) /\
  completeDagTask "run" "a" "1-a" "controller" unavailable (z 2010) (Some other_lease) a_requeued_over
    = (a_requeued_over, Ok tt).
Proof.
  split.
  - apply (completeDagTask_idempotent "run" "a" "1-a" "controller" (CompletionSuccess (artifact "a") None None)
             (z 120) (Some (lease 1 1000)) a_claimed a_done a_taken_over (z 2010) 2010 (Some other_lease)).
    + apply after_reachable.
    + by vm_compute.
    + apply after_steps.
    + intros Hc. by vm_compute in Hc.
    + by vm_compute.
    + by vm_compute.
  - apply (completeDagTask_idempotent "run" "a" "1-a" "controller" unavailable
             (z 120) (Some (lease 1 1000)) a_claimed a_requeued a_requeued_over (z 2010) 2010 (Some other_lease)).
    + apply after_reachable.
    + by vm_compute.
    + apply after_steps.
    + intros _. split.
      * intros row Hrow. vm_compute in Hrow.
        repeat (apply elem_of_cons in Hrow as [->|Hrow]; [by vm_compute|]). by apply not_elem_of_nil in Hrow.
      * right. exists (List.nth 0 (dr_tasks a_requeued_over) (new_task 0 (sample_contract "" []) 1)).
        exists (List.nth 0 (dr_attempts a_requeued_over) (new_attempt 0 0 "" "" 0 (new_task 0 (sample_contract "" []) 1))).
        split_and!; try (by vm_compute); vm_compute; left.
    + by vm_compute.
    + by vm_compute.
Defined.

(** ** The failed retry *)

Definition long_lease : option DagRunLease := Some (lease 1 1000000).
Definition retry_claim (n : string) (now : Z) : ledger_op :=
  OpClaim (fresh_attempt n) no_foreign "controller" (z now) (z 1000) (z 5) long_lease.
(** The checkpoint the orchestrator writes when it starts the child of a resumed retry. *)
Definition resumed_checkpoint : json :=
  JsonObject [("version", JsonNumber (z 1)); ("phase", JsonString "running_child"); ("availabilityRetry", JsonBool true)].
(** Task [a] loses its provider, is resumed, and then times out. *)
Definition timeout_ops : list ledger_op :=
  [OpAcquireLease "controller" (z 100) (z 999900); OpSetStatus RunRunning 101 long_lease;
   retry_claim "1" 110;
   OpComplete "a" "1-a" "controller" (CompletionFailure "model_error" (Some "fetch failed") None None) (z 120) long_lease;
   retry_claim "2" 5000;
   OpCheckpoint "a" "1-a" "controller" resumed_checkpoint (z 5001) long_lease;
   OpComplete "a" "1-a" "controller" (CompletionFailure "timeout" None None None) (z 5100) long_lease].
Definition timed_out : DagRun := after timeout_ops sample_created.
Definition timed_out_a : DagTask := List.nth 0 (dr_tasks timed_out) (new_task 0 (sample_contract "" []) 1).

(** The task waits for its second attempt, but every later claim on the run fails. *)
Lemma timed_out_a_stuck : ~ resumes_attempt timed_out timed_out_a.
Proof.
  intros H. destruct (H ltac:(by vm_compute)) as (a & Ha & Hn). vm_compute in Ha.
  apply list_elem_of_singleton in Ha as ->. by vm_compute in Hn.
Qed.
Lemma claimRunnableTasks_unrecoverable_witness :
  exists y, claimRunnableTasks (fresh_attempt "3") no_foreign "controller" (z 9000) (z 1000) (z 5) long_lease timed_out
    = (timed_out, Err (EAttemptNotRecoverable y)).
Proof.
  apply (claimRunnableTasks_unrecoverable "run" _ _ _ _ _ _ _ timed_out 9000 1000 5 timed_out_a); try (by vm_compute).
  - apply after_reachable.
  - apply fresh_attempt_inj.
  - intros x Hx. vm_compute in Hx. by apply list_elem_of_singleton in Hx.
  - vm_compute. left.
  - apply timed_out_a_stuck.
Defined.
