(* ===== verification/TaskArtifacts.v ===== *)
(** * Task artifacts and their quality (packages/subagent/src/types.ts, quality-model.ts)

    What a finished task leaves behind, as far as the quality model and the dependency view
    read it, and the gate that decides about a final candidate.  [toLowerCase] is the
    language's method. *)
From S2P Require Import Prelude JsNumber JsText SessionTypes JsonNumber JsonText LedgerTypes LedgerInvariant.

(** ** Data *)

Inductive TaskOutcome := Accepted | Rejected | Inconclusive.
#[export] Instance TaskOutcome_eq_dec : EqDecision TaskOutcome.
Proof. solve_decision. Defined.
Inductive VerificationLevel := Unverified | SelfReported | ControllerVerified.
Inductive QualityCheckStatus := CheckPassed | CheckFailed | CheckNotRun | CheckNotApplicable.
#[export] Instance QualityCheckStatus_eq_dec : EqDecision QualityCheckStatus.
Proof. solve_decision. Defined.
Inductive ValidationStatus := ValidationPassed | ValidationFailed | ValidationTimeout | ValidationCancelled.
#[export] Instance ValidationStatus_eq_dec : EqDecision ValidationStatus.
Proof. solve_decision. Defined.
Inductive VerificationStatus := VerificationPassed | VerificationFailed | VerificationNotRun.
#[export] Instance VerificationStatus_eq_dec : EqDecision VerificationStatus.
Proof. solve_decision. Defined.

Record HandoffEvidence := { he_path : string; he_lineRange : option string; he_claim : string }.
Record HandoffVerification := { hv_check : string; hv_status : VerificationStatus; hv_details : option string }.
Record SubagentHandoff := {
  sh_summary : string; sh_evidence : list HandoffEvidence; sh_verification : list HandoffVerification;
  sh_risks : list string; sh_outcome : TaskOutcome; sh_verificationLevel : VerificationLevel }.
Record ValidationResult := { vr_commandId : string; vr_status : ValidationStatus; vr_exitCode : option number }.
Record WriterCommitProvenance := { wp_taskId : string; wp_artifactId : string; wp_commit : string }.
Inductive TaskReviewQuality :=
| ReviewNotApplicable
| ReviewStatus (status : TaskOutcome) (writerCommitClosure : list WriterCommitProvenance).
Record TaskQuality := {
  tq_semanticOutcome : TaskOutcome; tq_pathAudit : QualityCheckStatus; tq_validation : QualityCheckStatus;
  tq_passedCommandIds : list string; tq_review : TaskReviewQuality }.
Record TaskArtifact := {
  ta_artifactId : string; ta_taskId : string; ta_handoff : SubagentHandoff; ta_changedPaths : list string;
  ta_externalChangedPaths : option (list string); ta_validations : list ValidationResult;
  ta_quality : TaskQuality; ta_commit : option string }.

(** ** The order of strings *)

(** [left <= right], unit by unit. *)
Fixpoint units_le (s t : jsstring) : bool :=
  match s, t with
  | [], _ => true
  | _ :: _, [] => false
  | a :: s', b :: t' => if a =? b then units_le s' t' else a <? b
  end.
(** [compareText(left, right) <= 0] *)
Definition compareText_le (left right : string) : bool := units_le (js left) (js right).

Section quality.
Variable toLowerCase : string -> string.

(** ** Provenance *)

Definition provenanceKey (value : WriterCommitProvenance) : jsstring :=
  js (wp_taskId value) ++ 0 :: js (wp_artifactId value) ++ 0 :: js (toLowerCase (wp_commit value)).
Definition compareProvenance_le (left right : WriterCommitProvenance) : bool :=
  units_le (provenanceKey left) (provenanceKey right).

(** The commit of an artifact that has one. *)
Definition artifact_provenance (artifact : TaskArtifact) : option WriterCommitProvenance :=
  commit ← ta_commit artifact;
  if String.eqb commit "" then None
  else Some {| wp_taskId := ta_taskId artifact; wp_artifactId := ta_artifactId artifact; wp_commit := commit |}.
(** [map.set(provenanceKey(item), item)] *)
Definition provenance_set (unique : jsmap jsstring WriterCommitProvenance) (item : WriterCommitProvenance) :=
  jm_set (provenanceKey item) item unique.
Definition writerCommitClosure (artifacts : list TaskArtifact) : list WriterCommitProvenance :=
  sort_with compareProvenance_le (foldl provenance_set [] (omap artifact_provenance artifacts)).*2.

(** ** The quality of a task *)

Record CreateTaskQualityOptions := {
  to_role : SubagentRole; to_pathAuditPassed : option bool; to_validations : option (list ValidationResult);
  to_dependencyArtifacts : option (list TaskArtifact) }.

Definition validation_passed (result : ValidationResult) : bool := bool_decide (vr_status result = ValidationPassed).
(** [new Set(items)] *)
Definition set_insert {A} `{EqDecision A} (items : list A) (x : A) : list A :=
  if bool_decide (x ∈ items) then items else items ++ [x].
Definition createTaskQuality (handoff : SubagentHandoff) (options : CreateTaskQualityOptions) : TaskQuality :=
  let mutating := bool_decide (to_role options = Writer) || bool_decide (to_role options = ExternalWriter) in
  let validations := default [] (to_validations options) in
  let passedCommandIds := sort_with compareText_le (foldl set_insert [] (vr_commandId <$> keep validation_passed validations)) in
  {| tq_semanticOutcome := sh_outcome handoff;
     tq_pathAudit := if mutating then if default false (to_pathAuditPassed options) then CheckPassed else CheckNotRun
                     else CheckNotApplicable;
     tq_validation := if negb (bool_decide (to_role options = Writer)) then CheckNotApplicable
                      else match validations with
                           | [] => CheckNotRun
                           | _ => if forallb validation_passed validations then CheckPassed else CheckFailed
                           end;
     tq_passedCommandIds := if negb (bool_decide (to_role options = Writer)) then [] else passedCommandIds;
     tq_review := if bool_decide (to_role options = Reviewer)
                  then ReviewStatus (sh_outcome handoff) (writerCommitClosure (default [] (to_dependencyArtifacts options)))
                  else ReviewNotApplicable |}.

(** ** The quality of a candidate *)

Inductive CandidateCoverageStatus := CoverageNotApplicable | CoverageNone | CoveragePartial | CoverageFull.
#[export] Instance CandidateCoverageStatus_eq_dec : EqDecision CandidateCoverageStatus.
Proof. solve_decision. Defined.
Inductive CandidateGateFailure :=
| SemanticOutcomeFailure | PathAuditFailure | ValidationCoverageFailure | CommitPinFailure | ReviewVerdictFailure
| ReviewCoverageFailure | DagIncomplete.
#[export] Instance CandidateGateFailure_eq_dec : EqDecision CandidateGateFailure.
Proof. solve_decision. Defined.
(** [validationCommandIds] is that of a writer's contract. *)
Record TaskContract := { tc_id : string; tc_role : SubagentRole; tc_validationCommandIds : list string }.
Record CandidateQualityTaskInput := { qi_contract : TaskContract; qi_artifact : TaskArtifact }.
(** [gate] is "passed" exactly when [cq_gate] holds; [None] is the verdict "none". *)
Record CandidateQuality := {
  cq_semanticOutcome : TaskOutcome; cq_pathAuditCoverage : CandidateCoverageStatus;
  cq_validationCoverage : CandidateCoverageStatus; cq_commitPinCoverage : CandidateCoverageStatus;
  cq_reviewCoverage : CandidateCoverageStatus; cq_reviewVerdict : option TaskOutcome; cq_gate : bool;
  cq_gateFailures : list CandidateGateFailure; cq_writerTaskIds : list string;
  cq_pathAuditedWriterTaskIds : list string; cq_validatedWriterTaskIds : list string;
  cq_pinnedWriterTaskIds : list string; cq_reviewerTaskIds : list string; cq_acceptedReviewerTaskIds : list string;
  cq_fullCoverageReviewerTaskIds : list string; cq_requiredWriterCommits : list WriterCommitProvenance;
  cq_reviewedWriterCommits : list WriterCommitProvenance }.

Definition coverage (required covered : list string) : CandidateCoverageStatus :=
  match required with
  | [] => CoverageNotApplicable
  | _ => let count := zlen (keep (fun taskId => bool_decide (taskId ∈ covered)) required) in
         if count =? 0 then CoverageNone else if count =? zlen required then CoverageFull else CoveragePartial
  end.
Definition aggregateOutcome (outcomes : list (option TaskOutcome)) : TaskOutcome :=
  if existsb (fun o => bool_decide (o = Some Rejected)) outcomes then Rejected
  else if existsb (fun o => negb (bool_decide (o = Some Accepted))) outcomes then Inconclusive
  else Accepted.

Definition item_id (item : CandidateQualityTaskInput) : string := tc_id (qi_contract item).
Definition item_quality (item : CandidateQualityTaskInput) : TaskQuality := ta_quality (qi_artifact item).
Definition has_role (role : SubagentRole) (item : CandidateQualityTaskInput) : bool :=
  bool_decide (tc_role (qi_contract item) = role).
Definition validation_required (item : CandidateQualityTaskInput) : bool :=
  has_role Writer item && (0 <? zlen (tc_validationCommandIds (qi_contract item))).
Definition path_audited (item : CandidateQualityTaskInput) : bool :=
  bool_decide (tq_pathAudit (item_quality item) = CheckPassed).
Definition validation_covered (item : CandidateQualityTaskInput) : bool :=
  bool_decide (tq_validation (item_quality item) = CheckPassed)
  && existsb (fun result => validation_passed result
                            && bool_decide (vr_commandId result ∈ tc_validationCommandIds (qi_contract item)))
       (ta_validations (qi_artifact item)).
(** The status of a review, undefined when it is not applicable. *)
Definition review_status (item : CandidateQualityTaskInput) : option TaskOutcome :=
  match tq_review (item_quality item) with ReviewNotApplicable => None | ReviewStatus status _ => Some status end.
Definition review_closure (item : CandidateQualityTaskInput) : option (list WriterCommitProvenance) :=
  match tq_review (item_quality item) with ReviewNotApplicable => None | ReviewStatus _ closure => Some closure end.
Definition accepted_reviewer (item : CandidateQualityTaskInput) : bool :=
  bool_decide (tq_semanticOutcome (item_quality item) = Accepted) && bool_decide (review_status item = Some Accepted).
Definition evidence_backed (item : CandidateQualityTaskInput) : bool :=
  0 <? zlen (sh_evidence (ta_handoff (qi_artifact item))).
Definition covers_commits (required : list WriterCommitProvenance) (item : CandidateQualityTaskInput) : bool :=
  match review_closure item with
  | None => false
  | Some closure => forallb (fun writer => bool_decide (provenanceKey writer ∈ provenanceKey <$> closure)) required
  end.
Definition fail_when (c : bool) (failure : CandidateGateFailure) : list CandidateGateFailure := if c then [failure] else [].

Definition evaluateCandidateQuality (tasks : list CandidateQualityTaskInput) (pinnedWriterTaskIds : list string)
  : CandidateQuality :=
  let ordered := sort_with (fun left right => compareText_le (item_id left) (item_id right)) tasks in
  let writers := keep (has_role Writer) ordered in
  let reviewers := keep (has_role Reviewer) ordered in
  let writerTaskIds := item_id <$> writers in
  let validationRequiredWriters := keep validation_required writers in
  let validationRequiredWriterTaskIds := item_id <$> validationRequiredWriters in
  let pathAuditedWriterTaskIds := item_id <$> keep path_audited writers in
  let validatedWriterTaskIds := item_id <$> keep validation_covered validationRequiredWriters in
  let pinnedWriterTaskIdsSorted := keep (fun taskId => bool_decide (taskId ∈ pinnedWriterTaskIds)) writerTaskIds in
  let requiredWriterCommits := writerCommitClosure (qi_artifact <$> writers) in
  let requiredKeys := provenanceKey <$> requiredWriterCommits in
  let acceptedReviewers := keep accepted_reviewer reviewers in
  let evidenceBackedAcceptedReviewers := keep evidence_backed acceptedReviewers in
  let fullCoverageReviewerTaskIds := item_id <$> keep (covers_commits requiredWriterCommits) evidenceBackedAcceptedReviewers in
  let reviewed := foldl provenance_set []
    (keep (fun writer => bool_decide (provenanceKey writer ∈ requiredKeys))
      (concat (default [] ∘ review_closure <$> evidenceBackedAcceptedReviewers))) in
  let semanticOutcome := aggregateOutcome (Some ∘ tq_semanticOutcome ∘ item_quality <$> ordered) in
  let reviewVerdict := match reviewers with [] => None | _ => Some (aggregateOutcome (review_status <$> reviewers)) end in
  let pathAuditCoverage := coverage writerTaskIds pathAuditedWriterTaskIds in
  let validationCoverage := coverage validationRequiredWriterTaskIds validatedWriterTaskIds in
  let commitPinCoverage := coverage writerTaskIds pinnedWriterTaskIdsSorted in
  let reviewCoverage := match reviewers with
                        | [] => CoverageNone
                        | _ => if 0 <? zlen fullCoverageReviewerTaskIds then CoverageFull else CoveragePartial
                        end in
  let gateFailures :=
    fail_when (negb (bool_decide (semanticOutcome = Accepted))) SemanticOutcomeFailure ++
    fail_when ((0 <? zlen writers) && negb (bool_decide (pathAuditCoverage = CoverageFull))) PathAuditFailure ++
    fail_when ((0 <? zlen validationRequiredWriters) && negb (bool_decide (validationCoverage = CoverageFull)))
      ValidationCoverageFailure ++
    fail_when ((0 <? zlen writers) && negb (bool_decide (commitPinCoverage = CoverageFull))) CommitPinFailure ++
    fail_when ((0 <? zlen reviewers) && negb (bool_decide (reviewVerdict = Some Accepted))) ReviewVerdictFailure ++
    fail_when ((0 <? zlen reviewers) && negb (bool_decide (reviewCoverage = CoverageFull))) ReviewCoverageFailure in
  {| cq_semanticOutcome := semanticOutcome; cq_pathAuditCoverage := pathAuditCoverage;
     cq_validationCoverage := validationCoverage; cq_commitPinCoverage := commitPinCoverage;
     cq_reviewCoverage := reviewCoverage; cq_reviewVerdict := reviewVerdict;
     cq_gate := bool_decide (zlen gateFailures = 0); cq_gateFailures := gateFailures;
     cq_writerTaskIds := writerTaskIds; cq_pathAuditedWriterTaskIds := pathAuditedWriterTaskIds;
     cq_validatedWriterTaskIds := validatedWriterTaskIds; cq_pinnedWriterTaskIds := pinnedWriterTaskIdsSorted;
     cq_reviewerTaskIds := item_id <$> reviewers; cq_acceptedReviewerTaskIds := item_id <$> acceptedReviewers;
     cq_fullCoverageReviewerTaskIds := fullCoverageReviewerTaskIds; cq_requiredWriterCommits := requiredWriterCommits;
     cq_reviewedWriterCommits := sort_with compareProvenance_le reviewed.*2 |}.

Definition evaluatePartialCandidateQuality (tasks : list CandidateQualityTaskInput) (pinnedWriterTaskIds : list string)
  : CandidateQuality :=
  let quality := evaluateCandidateQuality tasks pinnedWriterTaskIds in
  {| cq_semanticOutcome := cq_semanticOutcome quality; cq_pathAuditCoverage := cq_pathAuditCoverage quality;
     cq_validationCoverage := cq_validationCoverage quality; cq_commitPinCoverage := cq_commitPinCoverage quality;
     cq_reviewCoverage := cq_reviewCoverage quality; cq_reviewVerdict := cq_reviewVerdict quality; cq_gate := false;
     cq_gateFailures := cq_gateFailures quality
       ++ (if bool_decide (DagIncomplete ∈ cq_gateFailures quality) then [] else [DagIncomplete]);
     cq_writerTaskIds := cq_writerTaskIds quality; cq_pathAuditedWriterTaskIds := cq_pathAuditedWriterTaskIds quality;
     cq_validatedWriterTaskIds := cq_validatedWriterTaskIds quality;
     cq_pinnedWriterTaskIds := cq_pinnedWriterTaskIds quality; cq_reviewerTaskIds := cq_reviewerTaskIds quality;
     cq_acceptedReviewerTaskIds := cq_acceptedReviewerTaskIds quality;
     cq_fullCoverageReviewerTaskIds := cq_fullCoverageReviewerTaskIds quality;
     cq_requiredWriterCommits := cq_requiredWriterCommits quality;
     cq_reviewedWriterCommits := cq_reviewedWriterCommits quality |}.
End quality.

(** ** What the gate decides *)

Lemma units_le_trans s t u : units_le s t = true -> units_le t u = true -> units_le s u = true.
Proof.
  revert t u. induction s as [|a s IH]; intros [|b t] [|c u]; simpl; try done.
  destruct (Z.eqb_spec a b), (Z.eqb_spec b c), (Z.eqb_spec a c); subst; rewrite ?Z.ltb_lt; try done; try lia. by apply IH.
Qed.
Lemma units_le_total s t : units_le s t = true \/ units_le t s = true.
Proof.
  revert t. induction s as [|a s IH]; intros [|b t]; simpl; auto.
  destruct (Z.eqb_spec a b), (Z.eqb_spec b a); subst; rewrite ?Z.ltb_lt; try done; try lia.
Qed.
Lemma units_le_antisym s t : units_le s t = true -> units_le t s = true -> s = t.
Proof.
  revert t. induction s as [|a s IH]; intros [|b t]; simpl; try done.
  destruct (Z.eqb_spec a b), (Z.eqb_spec b a); subst; rewrite ?Z.ltb_lt; try done; try lia. intros. f_equal. by apply IH.
Qed.

Section gate.
Variable toLowerCase : string -> string.

Lemma elem_of_fail_when c failure f : f ∈ fail_when c failure <-> f = failure /\ c = true.
Proof. unfold fail_when. destruct c; rewrite ?list_elem_of_singleton, ?elem_of_nil; naive_solver. Qed.
Lemma zlen_pos {A} (l : list A) : (0 <? zlen l) = true <-> l <> [].
Proof. unfold zlen. destruct l; cbn; [done|]. by split. Qed.
Lemma keep_all_length {A} (p : A -> bool) l : zlen (keep p l) = zlen l <-> forall x, x ∈ l -> p x = true.
Proof.
  unfold zlen. split.
  - induction l as [|x l IH]; simpl; [by intros _ y ?%elem_of_nil|].
    assert (length (keep p l) <= length l)%nat by (clear; induction l as [|y l IH]; simpl; [lia|]; destruct (p y); simpl; lia).
    destruct (p x) eqn:E; simpl; [|lia]. intros Hl y [->|Hy]%elem_of_cons; [done|]. apply IH; [lia|done].
  - intros H. induction l as [|x l IH]; simpl; [done|]. rewrite (H x) by by left. simpl.
    enough (length (keep p l) = length l) by lia. apply Nat2Z.inj, IH. intros y Hy. apply H. by right.
Qed.
Lemma coverage_full required covered :
  required <> [] -> coverage required covered = CoverageFull <-> forall x, x ∈ required -> x ∈ covered.
Proof.
  intros Hne. assert (Hall : zlen (keep (fun x => bool_decide (x ∈ covered)) required) = zlen required <->
    forall x, x ∈ required -> x ∈ covered).
  { rewrite keep_all_length. by setoid_rewrite bool_decide_eq_true. }
  assert (0 < zlen required) by (apply Z.ltb_lt, zlen_pos; done).
  unfold coverage. destruct required as [|a r]; [done|]. rewrite <-Hall.
  destruct (Z.eqb_spec (zlen (keep (fun x => bool_decide (x ∈ covered)) (a :: r))) 0); [split; [done|lia]|].
  destruct (Z.eqb_spec (zlen (keep (fun x => bool_decide (x ∈ covered)) (a :: r))) (zlen (a :: r))); by split.
Qed.
Lemma aggregate_accepted outcomes : aggregateOutcome outcomes = Accepted <-> forall o, o ∈ outcomes -> o = Some Accepted.
Proof.
  unfold aggregateOutcome. destruct (existsb _ outcomes) eqn:E1; [split; [done|]|destruct (existsb (fun o => negb _) outcomes) eqn:E2; [split; [done|]|split; [|done]]].
  - apply existsb_exists in E1 as (o & Ho%list_elem_of_In & Hd%bool_decide_eq_true). intros H. specialize (H o Ho). congruence.
  - apply existsb_exists in E2 as (o & Ho%list_elem_of_In & Hd%negb_true_iff%bool_decide_eq_false). intros H. by specialize (H o Ho).
  - intros _ o Ho. apply dec_stable. intros Hn. assert (existsb (fun o => negb (bool_decide (o = Some Accepted))) outcomes = true); [|congruence].
    apply existsb_exists. exists o. split; [by apply list_elem_of_In|]. by apply negb_true_iff, bool_decide_eq_false.
Qed.

Lemma jm_set_Forall {K V} `{EqDecision K} (P : K * V -> Prop) k v (m : jsmap K V) :
  P (k, v) -> Forall P m -> Forall P (jm_set k v m).
Proof.
  intros Hk. induction m as [|[k' v'] m IH]; intros Hm; simpl; [by constructor|].
  apply Forall_cons in Hm as [Hh Hm]. case_decide; constructor; subst; auto.
Qed.
(** The map of provenances by key. *)
Lemma provenance_map items m :
  Forall (fun kv => kv.1 = provenanceKey toLowerCase kv.2) m ->
  Forall (fun kv => kv.1 = provenanceKey toLowerCase kv.2) (foldl (provenance_set toLowerCase) m items) /\
  forall x, x ∈ jm_keys (foldl (provenance_set toLowerCase) m items) <->
    x ∈ jm_keys m \/ x ∈ provenanceKey toLowerCase <$> items.
Proof.
  revert m. induction items as [|i items IH]; intros m Hm; simpl; [split; [done|set_solver]|].
  destruct (IH (provenance_set toLowerCase m i)) as [H1 H2]; [by apply jm_set_Forall|].
  split; [done|]. intros x. rewrite H2. unfold provenance_set. rewrite jm_keys_set. case_decide; set_solver.
Qed.
Lemma elem_of_closure_keys k artifacts :
  k ∈ provenanceKey toLowerCase <$> writerCommitClosure toLowerCase artifacts <->
  exists a p, a ∈ artifacts /\ artifact_provenance a = Some p /\ provenanceKey toLowerCase p = k.
Proof.
  unfold writerCommitClosure. rewrite sort_with_perm.
  destruct (provenance_map (omap artifact_provenance artifacts) []) as [H1 H2]; [constructor|].
  set (m := foldl (provenance_set toLowerCase) [] (omap artifact_provenance artifacts)) in *.
  assert (provenanceKey toLowerCase <$> m.*2 = jm_keys m) as ->.
  { unfold jm_keys. rewrite <-list_fmap_compose. apply list_fmap_ext. intros i kv Hkv%list_elem_of_lookup_2.
    rewrite Forall_forall in H1. symmetry. by apply H1. }
  rewrite H2, list_elem_of_fmap. setoid_rewrite list_elem_of_omap. unfold jm_keys. cbn. split.
  - intros [?%elem_of_nil|(p & -> & a & Ha & Hp)]; [done|]. by exists a, p.
  - intros (a & p & Ha & Hp & <-). right. exists p. split; [done|]. by exists a.
Qed.
Lemma covers_commits_spec artifacts item :
  covers_commits toLowerCase (writerCommitClosure toLowerCase artifacts) item = true <->
  exists closure, review_closure item = Some closure /\
    forall a p, a ∈ artifacts -> artifact_provenance a = Some p ->
      provenanceKey toLowerCase p ∈ provenanceKey toLowerCase <$> closure.
Proof.
  unfold covers_commits. destruct (review_closure item) as [closure|]; [|naive_solver].
  rewrite forallb_forall. setoid_rewrite <-list_elem_of_In. setoid_rewrite bool_decide_eq_true. split.
  - intros H. exists closure. split; [done|]. intros a p Ha Hp.
    assert (Hk : provenanceKey toLowerCase p ∈ provenanceKey toLowerCase <$> writerCommitClosure toLowerCase artifacts)
      by (apply elem_of_closure_keys; by exists a, p).
    apply list_elem_of_fmap in Hk as (w & -> & Hw). by apply H.
  - intros (c & [= <-] & H) w Hw. apply (list_elem_of_fmap_2 (provenanceKey toLowerCase)) in Hw.
    apply elem_of_closure_keys in Hw as (a & p & Ha & Hp & <-). by eapply H.
Qed.

Lemma NoDup_ids_keep (p : CandidateQualityTaskInput -> bool) l : NoDup (item_id <$> l) -> NoDup (item_id <$> keep p l).
Proof.
  induction l as [|x l IH]; [done|]. csimpl. intros [Hn Hd]%NoDup_cons. destruct (p x); [|by apply IH]. csimpl.
  apply NoDup_cons. split; [|by apply IH]. intros (y & Hy & [Hin _]%elem_of_keep)%list_elem_of_fmap. apply Hn.
  rewrite Hy. by apply list_elem_of_fmap_2.
Qed.
Lemma ids_covered_one (p : CandidateQualityTaskInput -> bool) l w :
  NoDup (item_id <$> l) -> w ∈ l -> item_id w ∈ item_id <$> keep p l <-> p w = true.
Proof.
  intros Hnd Hw. split.
  - intros (x & Heq & [Hx Hp]%elem_of_keep)%list_elem_of_fmap. by rewrite (fmap_NoDup_inj item_id l w x Hnd).
  - intros Hp. by apply list_elem_of_fmap_2, elem_of_keep.
Qed.
(** A check of required tasks fails exactly when one of them does not pass. *)
Lemma coverage_check (p : CandidateQualityTaskInput -> bool) l covered :
  NoDup (item_id <$> l) -> (forall w, w ∈ l -> item_id w ∈ covered <-> p w = true) ->
  (0 <? zlen l) && negb (bool_decide (coverage (item_id <$> l) covered = CoverageFull)) = true <->
  ~ (forall w, w ∈ l -> p w = true).
Proof.
  intros Hnd Hc. rewrite andb_true_iff, zlen_pos, negb_true_iff, bool_decide_eq_false. split.
  - intros [Hne Hfull] H. apply Hfull. apply coverage_full; [by destruct l|].
    intros id (w & -> & Hw)%list_elem_of_fmap. by apply Hc, H.
  - intros H. split; [intros ->; apply H; by intros w ?%elem_of_nil|]. intros Hfull. apply H. intros w Hw.
    apply (Hc w Hw). revert Hfull. rewrite coverage_full; [|by destruct l; [apply elem_of_nil in Hw|]].
    intros Hall. apply Hall. by apply list_elem_of_fmap_2.
Qed.

Lemma ordered_permutation tasks tasks' :
  NoDup (js ∘ item_id <$> tasks) -> tasks ≡ₚ tasks' ->
  sort_with (fun left right => compareText_le (item_id left) (item_id right)) tasks =
  sort_with (fun left right => compareText_le (item_id left) (item_id right)) tasks'.
Proof.
  intros Hnd. apply sort_with_permutation.
  - intros x y z. apply units_le_trans.
  - intros x y. apply units_le_total.
  - intros x y Hx Hy H1 H2. apply (fmap_NoDup_inj (js ∘ item_id) tasks x y Hnd Hx Hy). by apply units_le_antisym.
Qed.
Lemma reviewers_check tasks :
  let reviewers := keep (has_role Reviewer) tasks in
  (0 <? zlen reviewers) && negb (bool_decide
    (match reviewers with [] => None | _ => Some (aggregateOutcome (review_status <$> reviewers)) end = Some Accepted)) = true <->
  ~ (forall r, r ∈ tasks -> has_role Reviewer r = true -> review_status r = Some Accepted).
Proof.
  intros reviewers. assert (Hr : forall r, r ∈ reviewers <-> r ∈ tasks /\ has_role Reviewer r = true)
    by (intros r; apply elem_of_keep).
  rewrite andb_true_iff, zlen_pos, negb_true_iff, bool_decide_eq_false.
  assert (Hall : aggregateOutcome (review_status <$> reviewers) = Accepted <->
    forall r, r ∈ tasks -> has_role Reviewer r = true -> review_status r = Some Accepted).
  { rewrite aggregate_accepted. split.
    - intros H r H1 H2. apply H, list_elem_of_fmap_2, Hr. done.
    - intros H o (r & -> & [H1 H2]%Hr)%list_elem_of_fmap. by apply H. }
  destruct reviewers as [|a l] eqn:E.
  - split; [by intros [? _]|]. intros H. exfalso. apply H. intros r H1 H2.
    by destruct (proj1 (elem_of_nil r) (proj2 (Hr r) (conj H1 H2))).
  - rewrite <-Hall. split; [intros [_ H] Ha; apply H; by rewrite Ha|]. intros H. split; [done|]. by intros [= Ha].
Qed.
(** One reviewer accepted, with evidence, having seen the commit of every writer. *)
Definition fully_reviewed (tasks : list CandidateQualityTaskInput) : Prop :=
  exists r closure, r ∈ tasks /\ has_role Reviewer r = true /\ tq_semanticOutcome (item_quality r) = Accepted /\
    tq_review (item_quality r) = ReviewStatus Accepted closure /\ sh_evidence (ta_handoff (qi_artifact r)) <> [] /\
    forall w p, w ∈ tasks -> has_role Writer w = true -> artifact_provenance (qi_artifact w) = Some p ->
      provenanceKey toLowerCase p ∈ provenanceKey toLowerCase <$> closure.
Definition full_reviewers (tasks : list CandidateQualityTaskInput) : list CandidateQualityTaskInput :=
  keep (covers_commits toLowerCase (writerCommitClosure toLowerCase (qi_artifact <$> keep (has_role Writer) tasks)))
    (keep evidence_backed (keep accepted_reviewer (keep (has_role Reviewer) tasks))).
Lemma full_reviewers_spec tasks : (0 <? zlen (item_id <$> full_reviewers tasks)) = true <-> fully_reviewed tasks.
Proof.
  rewrite zlen_pos. split.
  - intros Hne. destruct (full_reviewers tasks) as [|r l] eqn:E; [done|].
    assert (Hin : r ∈ full_reviewers tasks) by (rewrite E; by left). unfold full_reviewers in Hin.
    rewrite !elem_of_keep in Hin. destruct Hin as ((([H1 H2] & [Hs Ha]%andb_true_iff) & He) & Hc).
    apply bool_decide_eq_true in Hs, Ha. apply zlen_pos in He. apply covers_commits_spec in Hc as (closure & Hcl & Hc).
    exists r, closure. unfold review_status, review_closure in Ha, Hcl. destruct (tq_review (item_quality r)); [done|].
    injection Ha as ->. injection Hcl as ->. split_and!; try done. intros w p Hw Hrole Hp.
    apply (Hc (qi_artifact w) p); [|done]. apply list_elem_of_fmap_2, elem_of_keep. done.
  - intros (r & closure & H1 & H2 & Hs & Ha & He & Hc) Hnil. assert (Hin : r ∈ full_reviewers tasks).
    { unfold full_reviewers. rewrite !elem_of_keep. split_and!; try done.
      - unfold accepted_reviewer, review_status. rewrite Hs, Ha. done.
      - by apply zlen_pos.
      - apply covers_commits_spec. exists closure. unfold review_closure. rewrite Ha. split; [done|].
        intros a p (w & -> & [Hw Hrole]%elem_of_keep)%list_elem_of_fmap Hp. by eapply Hc. }
    apply (list_elem_of_fmap_2 item_id) in Hin. rewrite Hnil in Hin. by apply elem_of_nil in Hin.
Qed.
Lemma review_coverage_check tasks :
  let reviewers := keep (has_role Reviewer) tasks in
  (0 <? zlen reviewers) && negb (bool_decide
    (match reviewers with [] => CoverageNone
     | _ => if 0 <? zlen (item_id <$> full_reviewers tasks) then CoverageFull else CoveragePartial end = CoverageFull))
    = true <-> ~ ((exists r, r ∈ tasks /\ has_role Reviewer r = true) -> fully_reviewed tasks).
Proof.
  intros reviewers.
  assert (Hr : forall r, r ∈ reviewers <-> r ∈ tasks /\ has_role Reviewer r = true) by (intros r; apply elem_of_keep).
  rewrite andb_true_iff, zlen_pos, negb_true_iff, bool_decide_eq_false. destruct reviewers as [|a l] eqn:E.
  - split; [by intros [? _]|]. intros H. exfalso. apply H. intros (r & H1 & H2).
    by destruct (proj1 (elem_of_nil r) (proj2 (Hr r) (conj H1 H2))).
  - split.
    + intros [_ H] Hcond. apply H. rewrite (proj2 (full_reviewers_spec tasks)); [done|]. apply Hcond. exists a. apply Hr. by left.
    + intros H. split; [done|]. destruct (0 <? zlen _) eqn:Ef in |- *; [|done]. exfalso. apply H. intros _. by apply full_reviewers_spec.
Qed.

(** What each failure stands for. *)
Definition gate_condition (tasks : list CandidateQualityTaskInput) (pinned : list string) (f : CandidateGateFailure) : Prop :=
  match f with
  | SemanticOutcomeFailure => forall x, x ∈ tasks -> tq_semanticOutcome (item_quality x) = Accepted
  | PathAuditFailure => forall w, w ∈ tasks -> has_role Writer w = true -> tq_pathAudit (item_quality w) = CheckPassed
  | ValidationCoverageFailure => forall w, w ∈ tasks -> validation_required w = true -> validation_covered w = true
  | CommitPinFailure => forall w, w ∈ tasks -> has_role Writer w = true -> item_id w ∈ pinned
  | ReviewVerdictFailure => forall r, r ∈ tasks -> has_role Reviewer r = true -> review_status r = Some Accepted
  | ReviewCoverageFailure => (exists r, r ∈ tasks /\ has_role Reviewer r = true) -> fully_reviewed tasks
  | DagIncomplete => True
  end.
Lemma gate_condition_perm tasks tasks' pinned f :
  tasks ≡ₚ tasks' -> gate_condition tasks pinned f <-> gate_condition tasks' pinned f.
Proof. intros Hp. destruct f; cbn [gate_condition]; unfold fully_reviewed; repeat setoid_rewrite Hp; done. Qed.
Lemma gate_condition_stable tasks pinned f : ~ ~ gate_condition tasks pinned f -> gate_condition tasks pinned f.
Proof.
  destruct f; cbn [gate_condition]; intros H; try (intros x Hx; try intros Hrole; apply dec_stable; naive_solver); [|done].
  intros Hr. apply full_reviewers_spec, dec_stable. intros Hn. apply H. intros Hf. by apply Hn, full_reviewers_spec, Hf.
Qed.

Lemma elem_of_gate_failures c1 c2 c3 c4 c5 c6 f :
  f ∈ fail_when c1 SemanticOutcomeFailure ++ fail_when c2 PathAuditFailure ++ fail_when c3 ValidationCoverageFailure ++
      fail_when c4 CommitPinFailure ++ fail_when c5 ReviewVerdictFailure ++ fail_when c6 ReviewCoverageFailure <->
  match f with
  | SemanticOutcomeFailure => c1 | PathAuditFailure => c2 | ValidationCoverageFailure => c3 | CommitPinFailure => c4
  | ReviewVerdictFailure => c5 | ReviewCoverageFailure => c6 | DagIncomplete => false
  end = true.
Proof. rewrite !elem_of_app, !elem_of_fail_when. destruct f; intuition congruence. Qed.
Lemma gateFailures_spec tasks pinned f :
  NoDup (js ∘ item_id <$> tasks) ->
  f ∈ cq_gateFailures (evaluateCandidateQuality toLowerCase tasks pinned) <-> ~ gate_condition tasks pinned f.
Proof.
  intros Hnd. set (ordered := sort_with (fun left right => compareText_le (item_id left) (item_id right)) tasks).
  assert (Hord : ordered ≡ₚ tasks) by apply sort_with_perm.
  assert (Hids : NoDup (item_id <$> ordered)).
  { rewrite Hord. rewrite list_fmap_compose in Hnd. by apply NoDup_fmap_1 in Hnd. }
  rewrite <-(gate_condition_perm ordered tasks pinned f Hord). unfold evaluateCandidateQuality. cbv zeta. cbn [cq_gateFailures].
  fold ordered. rewrite elem_of_gate_failures.
  assert (Hw : forall w, w ∈ keep (has_role Writer) ordered <-> w ∈ ordered /\ has_role Writer w = true) by (intros; apply elem_of_keep).
  assert (Hnw : NoDup (item_id <$> keep (has_role Writer) ordered)) by by apply NoDup_ids_keep.
  assert (E1 : negb (bool_decide (aggregateOutcome (Some ∘ tq_semanticOutcome ∘ item_quality <$> ordered) = Accepted)) = true
    <-> ~ gate_condition ordered pinned SemanticOutcomeFailure).
  { rewrite negb_true_iff, bool_decide_eq_false, aggregate_accepted. cbn [gate_condition]. f_equiv. split.
    - intros H x Hx. assert (Hs : Some (tq_semanticOutcome (item_quality x)) = Some Accepted); [|congruence].
      apply H. apply list_elem_of_fmap. by exists x.
    - intros H o (x & -> & Hx)%list_elem_of_fmap. cbn. f_equal. by apply H. }
  assert (E2 := coverage_check path_audited _ (item_id <$> keep path_audited (keep (has_role Writer) ordered)) Hnw
    (fun w => ids_covered_one path_audited _ w Hnw)).
  assert (Hnv : NoDup (item_id <$> keep validation_required (keep (has_role Writer) ordered))) by by apply NoDup_ids_keep.
  assert (E3 := coverage_check validation_covered _ (item_id <$> keep validation_covered (keep validation_required (keep (has_role Writer) ordered))) Hnv
    (fun w => ids_covered_one validation_covered _ w Hnv)).
  assert (E4 : (0 <? zlen (keep (has_role Writer) ordered)) && negb (bool_decide (coverage (item_id <$> keep (has_role Writer) ordered)
    (keep (fun id => bool_decide (id ∈ pinned)) (item_id <$> keep (has_role Writer) ordered)) = CoverageFull)) = true <->
    ~ forall w, w ∈ keep (has_role Writer) ordered -> bool_decide (item_id w ∈ pinned) = true).
  { apply coverage_check; [done|]. intros w Hin. rewrite elem_of_keep. split; [by intros [_ ?]|].
    intros H. split; [by apply list_elem_of_fmap_2|done]. }
  assert (E5 := reviewers_check ordered). assert (E6 := review_coverage_check ordered). cbv zeta in E5, E6.
  unfold full_reviewers in E6. destruct f; cbn [gate_condition].
  - exact E1.
  - rewrite E2. f_equiv. split; intros H w.
    + intros H1 H2. exact (bool_decide_eq_true_1 _ (H w (proj2 (Hw w) (conj H1 H2)))).
    + intros [H1 H2]%Hw. exact (bool_decide_eq_true_2 _ (H w H1 H2)).
  - rewrite E3. f_equiv. unfold validation_required. split; intros H w.
    + intros H1 H2. pose proof H2 as [H3 _]%andb_true_iff. apply H, elem_of_keep. split; [by apply Hw|done].
    + intros [[H1 _]%Hw H2]%elem_of_keep. by apply H.
  - rewrite E4. f_equiv. split; intros H w.
    + intros H1 H2. exact (bool_decide_eq_true_1 _ (H w (proj2 (Hw w) (conj H1 H2)))).
    + intros [H1 H2]%Hw. exact (bool_decide_eq_true_2 _ (H w H1 H2)).
  - exact E5.
  - exact E6.
  - by split; [|intros []].
Qed.

(** C21. The gate of a final candidate, whose tasks have distinct ids, fails for exactly the
    stated reasons: the outcome of a task is not accepted, the paths of a writer were not
    audited, a writer that must be validated has no passed registered command, a writer's
    commit is not pinned, a review is not accepted, or the candidate has a reviewer and no
    single reviewer accepted, with evidence, all writer commits; it passes when there is none
    of them, so a candidate of writers alone needs no review.  Neither the order of the tasks
    nor that of the pins matters. *)
Theorem evaluateCandidateQuality_gate tasks pinned :
  NoDup (js ∘ item_id <$> tasks) ->
  let quality := evaluateCandidateQuality toLowerCase tasks pinned in
  (forall f, f ∈ cq_gateFailures quality <-> ~ gate_condition tasks pinned f) /\
  (cq_gate quality = true <-> forall f, gate_condition tasks pinned f) /\
  (forall tasks' pinned', tasks ≡ₚ tasks' -> (forall id, id ∈ pinned <-> id ∈ pinned') ->
     evaluateCandidateQuality toLowerCase tasks' pinned' = quality).
Proof.
  intros Hnd quality. assert (Hf : forall f, f ∈ cq_gateFailures quality <-> ~ gate_condition tasks pinned f)
    by (intros f; by apply gateFailures_spec).
  split; [done|]. split.
  - assert (Hg : cq_gate quality = true <-> cq_gateFailures quality = []).
    { change (cq_gate quality) with (bool_decide (zlen (cq_gateFailures quality) = 0)). rewrite bool_decide_eq_true.
      unfold zlen. destruct (cq_gateFailures quality); [done|]. split; [cbn; lia|done]. }
    rewrite Hg. split.
    + intros Hnil f. apply gate_condition_stable. rewrite <-Hf, Hnil. by intros ?%elem_of_nil.
    + intros H. destruct (cq_gateFailures quality) as [|f l]; [done|]. exfalso. apply (Hf f); [by left|apply H].
  - intros tasks' pinned' Hp Hpin. unfold quality, evaluateCandidateQuality. rewrite (ordered_permutation tasks tasks') by done.
    assert (Hkeep : forall l, keep (fun id => bool_decide (id ∈ pinned)) l = keep (fun id => bool_decide (id ∈ pinned')) l).
    { intros l. apply keep_ext. intros id _. by apply bool_decide_ext. }
    by rewrite !Hkeep.
Qed.
End gate.

(** ** A sample candidate *)

Definition plain_lower (s : string) : string := s.
Definition sample_artifact (id : string) (commit : option string) (evidence : list HandoffEvidence) (review : TaskReviewQuality)
  : TaskArtifact :=
  {| ta_artifactId := "artifact-" ++ id; ta_taskId := id;
     ta_handoff := {| sh_summary := "done"; sh_evidence := evidence; sh_verification := []; sh_risks := [];
                      sh_outcome := Accepted; sh_verificationLevel := SelfReported |};
     ta_changedPaths := []; ta_externalChangedPaths := None;
     ta_validations := [{| vr_commandId := "test"; vr_status := ValidationPassed; vr_exitCode := None |}];
     ta_quality := {| tq_semanticOutcome := Accepted; tq_pathAudit := CheckPassed; tq_validation := CheckPassed;
                      tq_passedCommandIds := ["test"%string]; tq_review := review |};
     ta_commit := commit |}.
Definition sample_writer (id commit : string) : CandidateQualityTaskInput :=
  {| qi_contract := {| tc_id := id; tc_role := Writer; tc_validationCommandIds := ["test"%string] |};
     qi_artifact := sample_artifact id (Some commit) [] ReviewNotApplicable |}.
(** A reviewer that saw the commits of [artifacts]. *)
Definition sample_reviewer (id : string) (artifacts : list TaskArtifact) : CandidateQualityTaskInput :=
  {| qi_contract := {| tc_id := id; tc_role := Reviewer; tc_validationCommandIds := [] |};
     qi_artifact := sample_artifact id None [{| he_path := "a.ts"; he_lineRange := None; he_claim := "reviewed" |}]
       (ReviewStatus Accepted (writerCommitClosure plain_lower artifacts)) |}.
Definition two_writers : list CandidateQualityTaskInput := [sample_writer "w1" "c1"; sample_writer "w2" "c2"].
Definition full_candidate : list CandidateQualityTaskInput :=
  two_writers ++ [sample_reviewer "r" (qi_artifact <$> two_writers)].
(** Two reviewers who saw one commit each are not enough. *)
Definition split_candidate : list CandidateQualityTaskInput :=
  two_writers ++ [sample_reviewer "r1" [qi_artifact (sample_writer "w1" "c1")]; sample_reviewer "r2" [qi_artifact (sample_writer "w2" "c2")]].
Example split_reviews_fail :
  cq_gateFailures (evaluateCandidateQuality plain_lower split_candidate ["w1"; "w2"]%string) = [ReviewCoverageFailure].
Proof. by vm_compute. Qed.

(** Writers alone pass without a review. *)
Example writers_need_no_review :
  cq_gate (evaluateCandidateQuality plain_lower two_writers ["w1"; "w2"]%string) = true.
Proof. by vm_compute. Qed.

Lemma evaluateCandidateQuality_gate_witness :
  NoDup (js ∘ item_id <$> full_candidate) /\
  cq_gate (evaluateCandidateQuality plain_lower full_candidate ["w2"; "w1"]%string) = true /\
  (forall f, gate_condition plain_lower full_candidate ["w2"; "w1"]%string f).
Proof.
  assert (Hnd : NoDup (js ∘ item_id <$> full_candidate)) by (apply (bool_decide_unpack _); by vm_compute).
  split; [exact Hnd|]. assert (Hg : cq_gate (evaluateCandidateQuality plain_lower full_candidate ["w2"; "w1"]%string) = true)
    by by vm_compute.
  split; [exact Hg|]. apply (evaluateCandidateQuality_gate plain_lower full_candidate ["w2"; "w1"]%string Hnd). exact Hg.
Defined.
