(* ===== verification/LedgerJournal.v ===== *)
(** * External mutations in the run ledger (packages/subagent/src/ledger.ts)

    The tables [dag_external_mutation_journals] and [dag_external_mutations] and the operations
    that consume the events of a journal: each event is recorded once, in order, however often
    it is read.  The state is one run with both tables, which hold the rows of every run.
    An event payload is kept as its JSON value. *)
From S2P Require Import Prelude JsNumber SessionTypes JsText JsonNumber JsonText Subagent DurableJson.
From S2P Require Import RetryPolicy MutationJournal LedgerTypes Ledger.

(** ** Rows *)

Record JournalRow := {
  jr_attemptId : string; jr_runId : string; jr_taskId : string; jr_path : string; jr_consumedSequence : Z;
  jr_releasedAt : option Z; jr_createdAt : Z; jr_updatedAt : Z }.
Record MutationRow := {
  mr_mutationId : string; mr_runId : string; mr_taskId : string; mr_attemptId : string; mr_attemptNumber : Z;
  mr_authorizationSequence : Z; mr_toolCallId : string; mr_operation : mutation_operation; mr_path : string;
  mr_authorizedAt : Z; mr_toolResult : option mutation_result; mr_observedAt : option Z;
  mr_postState : option ExternalMutationPostState; mr_createdAt : Z; mr_updatedAt : Z }.
Record JournalDb := { jd_run : DagRun; jd_journals : list JournalRow; jd_mutations : list MutationRow }.

Definition externalMutationFromRow (row : MutationRow) : ExternalMutationRecord :=
  {| em_mutationId := mr_mutationId row; em_runId := mr_runId row; em_taskId := mr_taskId row;
     em_attemptId := mr_attemptId row; em_attemptNumber := mr_attemptNumber row;
     em_authorizationSequence := mr_authorizationSequence row; em_toolCallId := mr_toolCallId row;
     em_operation := mr_operation row; em_path := mr_path row; em_authorizedAt := mr_authorizedAt row;
     em_toolResult := mr_toolResult row; em_observedAt := mr_observedAt row; em_postState := mr_postState row |}.
(** [{ ...persisted, toolResult: undefined, observedAt: undefined, postState: undefined }] *)
Definition authorized_part (m : ExternalMutationRecord) : ExternalMutationRecord :=
  {| em_mutationId := em_mutationId m; em_runId := em_runId m; em_taskId := em_taskId m;
     em_attemptId := em_attemptId m; em_attemptNumber := em_attemptNumber m;
     em_authorizationSequence := em_authorizationSequence m; em_toolCallId := em_toolCallId m;
     em_operation := em_operation m; em_path := em_path m; em_authorizedAt := em_authorizedAt m;
     em_toolResult := None; em_observedAt := None; em_postState := None |}.

(** The values of the [INSERT] statements. *)
Definition journal_row (policy : ExternalMutationJournalPolicy) (now : Z) : JournalRow :=
  {| jr_attemptId := jp_attemptId policy; jr_runId := jp_runId policy; jr_taskId := jp_taskId policy;
     jr_path := jp_path policy; jr_consumedSequence := 0; jr_releasedAt := None; jr_createdAt := now;
     jr_updatedAt := now |}.
Definition mutation_row (m : ExternalMutationRecord) (now : Z) : MutationRow :=
  {| mr_mutationId := em_mutationId m; mr_runId := em_runId m; mr_taskId := em_taskId m;
     mr_attemptId := em_attemptId m; mr_attemptNumber := em_attemptNumber m;
     mr_authorizationSequence := em_authorizationSequence m; mr_toolCallId := em_toolCallId m;
     mr_operation := em_operation m; mr_path := em_path m; mr_authorizedAt := em_authorizedAt m;
     mr_toolResult := None; mr_observedAt := None; mr_postState := None; mr_createdAt := now;
     mr_updatedAt := now |}.
(** The assignments of the [UPDATE] statements. *)
Definition mutation_observed (toolResult : mutation_result) (observedAt : Z) (postState : ExternalMutationPostState)
    (now : Z) (row : MutationRow) : MutationRow :=
  {| mr_mutationId := mr_mutationId row; mr_runId := mr_runId row; mr_taskId := mr_taskId row;
     mr_attemptId := mr_attemptId row; mr_attemptNumber := mr_attemptNumber row;
     mr_authorizationSequence := mr_authorizationSequence row; mr_toolCallId := mr_toolCallId row;
     mr_operation := mr_operation row; mr_path := mr_path row; mr_authorizedAt := mr_authorizedAt row;
     mr_toolResult := Some toolResult; mr_observedAt := Some observedAt; mr_postState := Some postState;
     mr_createdAt := mr_createdAt row; mr_updatedAt := now |}.
Definition journal_advance (consumed now : Z) (row : JournalRow) : JournalRow :=
  {| jr_attemptId := jr_attemptId row; jr_runId := jr_runId row; jr_taskId := jr_taskId row; jr_path := jr_path row;
     jr_consumedSequence := consumed; jr_releasedAt := jr_releasedAt row; jr_createdAt := jr_createdAt row;
     jr_updatedAt := now |}.
Definition journal_release (now : Z) (row : JournalRow) : JournalRow :=
  {| jr_attemptId := jr_attemptId row; jr_runId := jr_runId row; jr_taskId := jr_taskId row; jr_path := jr_path row;
     jr_consumedSequence := jr_consumedSequence row; jr_releasedAt := Some now; jr_createdAt := jr_createdAt row;
     jr_updatedAt := now |}.

(** ** Transactions over both tables *)

Inductive journal_error :=
| JournalLedger (e : ledger_error) | JournalPathInvalid | JournalStaleAttempt | JournalNotExternalWriter
| JournalImmutable | JournalUnknown | JournalSequenceInvalid | JournalNoDurableRecord | JournalReplayDiffers
| JournalObservationDiffers | JournalAlreadyReleased | JournalEventGap | JournalIdentityDiffers
| JournalDuplicatedMutation | JournalNoAuthorization | JournalAlreadyObserved | JournalConcurrent | JournalConstraint.
Definition Db (A : Type) : Type := M JournalDb journal_error A.

Definition with_journals (journals : list JournalRow) (db : JournalDb) : JournalDb :=
  {| jd_run := jd_run db; jd_journals := journals; jd_mutations := jd_mutations db |}.
Definition with_mutations (mutations : list MutationRow) (db : JournalDb) : JournalDb :=
  {| jd_run := jd_run db; jd_journals := jd_journals db; jd_mutations := mutations |}.
Definition on_run {A} (operation : Tx A) : Db A := fun db =>
  match operation (jd_run db) with
  | (r, Ok a) => ({| jd_run := r; jd_journals := jd_journals db; jd_mutations := jd_mutations db |}, Ok a)
  | (r, Err e) => ({| jd_run := r; jd_journals := jd_journals db; jd_mutations := jd_mutations db |}, Err (JournalLedger e))
  end.
Definition db_transaction {A} (operation : Db A) : Db A := fun db =>
  match operation db with
  | (db', Ok a) => (db', Ok a)
  | (_, Err e) => (db, Err e)
  end.
Definition update_mutations (p : MutationRow -> bool) (f : MutationRow -> MutationRow) : Db Z := fun db =>
  (with_mutations ((fun m => if p m then f m else m) <$> jd_mutations db) db, Ok (zlen (keep p (jd_mutations db)))).
Definition update_journals (p : JournalRow -> bool) (f : JournalRow -> JournalRow) : Db Z := fun db =>
  (with_journals ((fun j => if p j then f j else j) <$> jd_journals db) db, Ok (zlen (keep p (jd_journals db)))).
Definition expect_one_row (e : journal_error) (update : Db Z) : Db unit :=
  changes ← update; throw_if (negb (changes =? 1)) e.
Definition find_mutation (id : string) (db : JournalDb) : option MutationRow :=
  find_row (fun m => String.eqb (mr_mutationId m) id) (jd_mutations db).
Definition find_journal (attemptId : string) (db : JournalDb) : option JournalRow :=
  find_row (fun j => String.eqb (jr_attemptId j) attemptId) (jd_journals db).
Definition for_attempt (attemptId : string) (j : JournalRow) : bool := String.eqb (jr_attemptId j) attemptId.

(** The event of the run. *)
Definition mutation_event (type : string) (payload : json) (now : Z) (policy : ExternalMutationJournalPolicy) : Db unit :=
  on_run (insertDagEvent (EvExternalMutation type payload) now (Some (jp_taskId policy))).

(** ** Operations *)

(** [run.run_id = policy.runId], a lease that may write, and the attempt of the policy. *)
Definition guard_policy (policy : ExternalMutationJournalPolicy) (now : Z) (lease : option DagRunLease) : Db unit :=
  on_run (assertDagRunMutationLease now lease false).

Definition registerDagExternalMutationJournal (policy : ExternalMutationJournalPolicy) (ownerId : string)
    (now : number) (lease : option DagRunLease) : Db unit :=
  now ← on_run (safe_or ENowUnsafe now);
  throw_if (String.eqb (jp_path policy) "" || existsb (Z.eqb 0) (js (jp_path policy))) JournalPathInvalid ;;
  db_transaction (
    guard_policy policy now lease ;;
    db ← get;
    let r := jd_run db in
    match find_row (fun a => attempt_of (jp_attemptId policy) (jp_taskId policy) ownerId a && attempt_running a)
            (dr_attempts r), find_row (is_task (jp_taskId policy)) (dr_tasks r) with
    | Some attempt, Some task =>
        throw_if (negb (bool_decide (dt_role task = ExternalWriter) && (da_number attempt =? jp_attemptNumber policy)))
          JournalNotExternalWriter ;;
        match find_journal (jp_attemptId policy) db with
        | Some existing =>
            throw_if (negb (String.eqb (jr_runId existing) (jp_runId policy) && String.eqb (jr_taskId existing) (jp_taskId policy)
                            && String.eqb (jr_path existing) (jp_path policy))) JournalImmutable
        | None =>
            modify (fun db => with_journals (jd_journals db ++ [journal_row policy now]) db) ;;
            mutation_event "external_mutation.journal_ready"
              (JsonObject [str "attemptId" (jp_attemptId policy); int "attemptNumber" (jp_attemptNumber policy)]) now policy
        end
    | _, _ => throw JournalStaleAttempt
    end).

(** The attempt is the policy's, and the caller owns it exactly when it runs. *)
Definition attempt_answers (policy : ExternalMutationJournalPolicy) (ownerId : option string) (r : DagRun) : bool :=
  match find_row (fun a => String.eqb (da_id a) (jp_attemptId policy) && String.eqb (da_task a) (jp_taskId policy))
          (dr_attempts r) with
  | Some a => (da_number a =? jp_attemptNumber policy)
              && (if attempt_running a then bool_decide (ownerId = Some (da_owner a)) else bool_decide (ownerId = None))
  | None => false
  end.
(** The journal of the policy, which a caller may use. *)
Definition open_journal (policy : ExternalMutationJournalPolicy) (ownerId : option string) (now : Z)
    (lease : option DagRunLease) : Db JournalRow :=
  guard_policy policy now lease ;;
  db ← get;
  throw_if (negb (attempt_answers policy ownerId (jd_run db))) JournalStaleAttempt ;;
  match find_journal (jp_attemptId policy) db with
  | Some j =>
      throw_if (negb (String.eqb (jr_runId j) (jp_runId policy) && String.eqb (jr_taskId j) (jp_taskId policy)
                      && String.eqb (jr_path j) (jp_path policy))) JournalUnknown ;;
      mret j
  | None => throw JournalUnknown
  end.

Definition event_mutation_id (event : ExternalMutationJournalEvent) : string :=
  match event with Authorized _ m => em_mutationId m | Observed _ id _ _ _ => id end.

(** An event that was consumed before: it must say what is recorded. *)
Definition replayed (event : ExternalMutationJournalEvent) (existing : option MutationRow) : result journal_error bool :=
  match existing with
  | None => Err JournalNoDurableRecord
  | Some row =>
      match event with
      | Authorized _ m =>
          if bool_decide (JSON_stringify (mutation_json (authorized_part (externalMutationFromRow row)))
                          = JSON_stringify (mutation_json m))
          then Ok false else Err JournalReplayDiffers
      | Observed _ _ r t p =>
          if bool_decide (mr_toolResult row = Some r) && bool_decide (mr_observedAt row = Some t)
             && bool_decide (JSON_stringify ∘ post_state_json <$> mr_postState row = Some (JSON_stringify (post_state_json p)))
          then Ok false else Err JournalObservationDiffers
      end
  end.

(** The constraints of [dag_external_mutations] that an [INSERT] can violate: the numbers are
    positive, and the sequence and the tool call are unique in the attempt; the identifier was
    looked up before, and the attempt that the row refers to was found. *)
Definition mutation_refused (m : ExternalMutationRecord) (rows : list MutationRow) : bool :=
  negb ((1 <=? em_attemptNumber m) && (1 <=? em_authorizationSequence m))
  || existsb (fun row => String.eqb (mr_attemptId row) (em_attemptId m)
                         && ((mr_authorizationSequence row =? em_authorizationSequence m)
                             || String.eqb (mr_toolCallId row) (em_toolCallId m))) rows.
(** [INSERT INTO dag_external_mutations] *)
Definition insert_mutation (m : ExternalMutationRecord) (now : Z) : Db unit :=
  db ← get;
  throw_if (mutation_refused m (jd_mutations db)) JournalConstraint ;;
  modify (fun db => with_mutations (jd_mutations db ++ [mutation_row m now]) db).

Definition record_authorized (policy : ExternalMutationJournalPolicy) (m : ExternalMutationRecord)
    (existing : option MutationRow) (now : Z) : Db unit :=
  throw_if (negb (String.eqb (em_runId m) (jp_runId policy) && String.eqb (em_taskId m) (jp_taskId policy)
                  && String.eqb (em_attemptId m) (jp_attemptId policy)
                  && (em_attemptNumber m =? jp_attemptNumber policy))) JournalIdentityDiffers ;;
  throw_if (bool_decide (is_Some existing)) JournalDuplicatedMutation ;;
  insert_mutation m now ;;
  mutation_event "external_mutation.authorized" (mutation_json m) now policy.
Definition record_observed (policy : ExternalMutationJournalPolicy) (mutationId : string) (toolResult : mutation_result)
    (observedAt : Z) (postState : ExternalMutationPostState) (existing : option MutationRow) (now : Z) : Db unit :=
  match existing with
  | None => throw JournalNoAuthorization
  | Some row =>
      throw_if (bool_decide (is_Some (mr_toolResult row))) JournalAlreadyObserved ;;
      expect_one_row JournalConcurrent
        (update_mutations (fun m => String.eqb (mr_mutationId m) mutationId && String.eqb (mr_attemptId m) (jp_attemptId policy)
                                    && bool_decide (mr_toolResult m = None))
           (mutation_observed toolResult observedAt postState now)) ;;
      mutation_event "external_mutation.observed"
        (JsonObject [str "attemptId" (jp_attemptId policy); str "mutationId" mutationId;
                     str "toolResult" (result_name toolResult); ("postState", post_state_json postState)]) now policy
  end.

Definition recordDagExternalMutationEvent (policy : ExternalMutationJournalPolicy) (event : ExternalMutationJournalEvent)
    (ownerId : option string) (now : number) (lease : option DagRunLease) : Db bool :=
  now ← on_run (safe_or ENowUnsafe now);
  db_transaction (
    journal ← open_journal policy ownerId now lease;
    let sequence := ev_sequence event in
    throw_if (negb (is_safe sequence && (1 <=? sequence))) JournalSequenceInvalid ;;
    db ← get;
    let existing := find_mutation (event_mutation_id event) db in
    if sequence <=? jr_consumedSequence journal then lift (replayed event existing)
    else
      throw_if (bool_decide (is_Some (jr_releasedAt journal))) JournalAlreadyReleased ;;
      throw_if (negb (sequence =? jr_consumedSequence journal + 1)) JournalEventGap ;;
      (match event with
       | Authorized _ m => record_authorized policy m existing now
       | Observed _ id r t p => record_observed policy id r t p existing now
       end) ;;
      expect_one_row JournalConcurrent
        (update_journals (fun j => for_attempt (jp_attemptId policy) j && (jr_consumedSequence j =? jr_consumedSequence journal))
           (journal_advance sequence now)) ;;
      mret true).

Definition releaseDagExternalMutationJournal (policy : ExternalMutationJournalPolicy) (ownerId : option string)
    (now : number) (lease : option DagRunLease) : Db unit :=
  now ← on_run (safe_or ENowUnsafe now);
  db_transaction (
    journal ← open_journal policy ownerId now lease;
    if bool_decide (is_Some (jr_releasedAt journal)) then mret tt
    else
      expect_one_row JournalConcurrent
        (update_journals (fun j => for_attempt (jp_attemptId policy) j && bool_decide (jr_releasedAt j = None))
           (journal_release now)) ;;
      mutation_event "external_mutation.journal_released"
        (JsonObject [str "attemptId" (jp_attemptId policy); int "consumedSequence" (jr_consumedSequence journal)]) now policy).

(** One row of [listOpenDagExternalMutationJournals]; rows are ordered by the number of their
    attempt, their task and their attempt. *)
Record JournalSource := { js_policy : ExternalMutationJournalPolicy; js_attemptStatus : AttemptStatus; js_consumedSequence : Z }.
Definition source_le (a b : JournalSource) : bool :=
  let x := js_policy a in
  let y := js_policy b in
  if jp_attemptNumber x =? jp_attemptNumber y then
    if String.eqb (jp_taskId x) (jp_taskId y) then String.leb (jp_attemptId x) (jp_attemptId y)
    else String.leb (jp_taskId x) (jp_taskId y)
  else jp_attemptNumber x <? jp_attemptNumber y.
Definition listOpenDagExternalMutationJournals (runId : string) (db : JournalDb) : list JournalSource :=
  sort_with source_le (omap (fun j =>
    a ← find_row (fun a => String.eqb (da_id a) (jr_attemptId j)) (dr_attempts (jd_run db));
    Some {| js_policy := {| jp_version := EXTERNAL_MUTATION_JOURNAL_VERSION; jp_path := jr_path j; jp_runId := jr_runId j;
                            jp_taskId := jr_taskId j; jp_attemptId := jr_attemptId j; jp_attemptNumber := da_number a |};
            js_attemptStatus := da_status a; js_consumedSequence := jr_consumedSequence j |})
  (keep (fun j => String.eqb (jr_runId j) runId && bool_decide (jr_releasedAt j = None)) (jd_journals db))).
