(* ===== verification/LedgerJournalTheorems.v ===== *)
(** * Every external mutation is recorded once
    (packages/subagent/src/ledger.ts, packages/permissions/src/external-mutation-journal.ts)

    The journal of a child, the readers of the controllers and the tables of the ledger
    together: what the ledger records of an attempt is always what the first events of its
    journal say, and a drain that returns has recorded them all. *)
From S2P Require Import Prelude JsNumber SessionTypes JsText JsonNumber JsonText JsonTextTheorems Subagent.
From S2P Require Import DurableJson RetryPolicy MutationJournal MutationJournalTheorems LedgerTypes Ledger.
From S2P Require Import LedgerTasks LedgerInvariant LedgerJournal.

(** ** What a list of events says *)

Definition with_observation (r : mutation_result) (t : Z) (p : ExternalMutationPostState) (m : ExternalMutationRecord)
  : ExternalMutationRecord :=
  {| em_mutationId := em_mutationId m; em_runId := em_runId m; em_taskId := em_taskId m; em_attemptId := em_attemptId m;
     em_attemptNumber := em_attemptNumber m; em_authorizationSequence := em_authorizationSequence m;
     em_toolCallId := em_toolCallId m; em_operation := em_operation m; em_path := em_path m;
     em_authorizedAt := em_authorizedAt m;
     em_toolResult := Some r; em_observedAt := Some t; em_postState := Some p |}.
Definition apply_event (records : list ExternalMutationRecord) (e : ExternalMutationJournalEvent)
  : list ExternalMutationRecord :=
  match e with
  | Authorized _ m => records ++ [m]
  | Observed _ id r t p => mapped (fun m => String.eqb (em_mutationId m) id) (with_observation r t p) records
  end.
(** The mutations of an attempt after its events, each with its observation. *)
Definition replay (evs : list ExternalMutationJournalEvent) : list ExternalMutationRecord := foldl apply_event [] evs.

Lemma replay_snoc evs e : replay (evs ++ [e]) = apply_event (replay evs) e.
Proof. unfold replay. by rewrite foldl_app. Qed.
Lemma replay_ids evs : em_mutationId <$> replay evs = em_mutationId <$> authorizations evs.
Proof.
  induction evs as [|e evs IH] using rev_ind; [done|]. rewrite replay_snoc, authorizations_app, fmap_app, <-IH.
  destruct e as [n m|n id r t p]; cbn [apply_event authorizations omap list_omap].
  - by rewrite fmap_app.
  - rewrite app_nil_r. apply fmap_mapped. done.
Qed.
(** A record is its authorization, with its observation if there is one. *)
Lemma replay_record host policy evs m :
  history host policy evs -> m ∈ replay evs ->
  authorized_part m ∈ authorizations evs /\
  (forall n id r t p, Observed n id r t p ∈ evs -> id = em_mutationId m ->
     em_toolResult m = Some r /\ em_observedAt m = Some t /\ em_postState m = Some p) /\
  (em_mutationId m ∉ observations evs -> em_toolResult m = None).
Proof.
  intros Hh. revert m. induction Hh as [|evs m' Hh IH Hm'|evs m' r' t' p' Hh IH Hin Hn Ht Hp]; intros m.
  - by intros ?%elem_of_nil.
  - rewrite replay_snoc, authorizations_app, observations_app. cbn [apply_event authorizations observations omap list_omap].
    rewrite app_nil_r, elem_of_app, list_elem_of_singleton. intros [H| ->].
    + destruct (IH m H) as (H1 & H2 & H3). split; [set_solver|]. split; [|done].
      intros n id r t p [He|He%list_elem_of_singleton]%elem_of_app; [by apply (H2 n)|done].
    + assert (authorized_part m' = m') as ->.
      { destruct Hm' as [_ _ _ _ _ _ _ _ _ _ _ _ R1 R2 R3]. destruct m'. simpl in *. unfold authorized_part. simpl. congruence. }
      split; [set_solver|]. split; [|intros _; apply Hm'].
      intros n id r t p [He|He%list_elem_of_singleton]%elem_of_app ->; [|done]. exfalso.
      assert (Hobs : em_mutationId m' ∈ observations evs).
      { apply list_elem_of_omap. eexists. split; [exact He|done]. }
      apply (proj2 (history_observations _ _ _ Hh)) in Hobs. rewrite (au_id _ _ _ _ Hm') in Hobs.
      exact (history_next_id _ _ _ Hh Hobs).
  - rewrite replay_snoc, authorizations_app, observations_app. cbn [apply_event authorizations observations omap list_omap].
    rewrite app_nil_r. unfold mapped. intros (x & -> & Hx)%list_elem_of_fmap. destruct (IH x Hx) as (H1 & H2 & H3).
    destruct (String.eqb_spec (em_mutationId x) (em_mutationId m')) as [Heq|Hne].
    + split; [done|]. split.
      * intros n id r t p [He|He%list_elem_of_singleton]%elem_of_app Hid; [|by injection He as -> -> -> -> ->].
        exfalso. apply Hn. rewrite <-Heq. simpl in Hid. rewrite <-Hid. apply list_elem_of_omap. eexists. split; [exact He|done].
      * intros Hno. exfalso. apply Hno. simpl. rewrite Heq. set_solver.
    + split; [done|]. split.
      * intros n id r t p [He|He%list_elem_of_singleton]%elem_of_app Hid; [exact (H2 n id r t p He Hid)|]. injection He as _ -> _ _ _. congruence.
      * intros Hno. apply H3. set_solver.
Qed.

(** ** Taking a committed operation apart *)

Definition with_run (r : DagRun) (db : JournalDb) : JournalDb :=
  {| jd_run := r; jd_journals := jd_journals db; jd_mutations := jd_mutations db |}.
Lemma with_run_same db : with_run (jd_run db) db = db.
Proof. by destruct db. Qed.
Lemma on_run_Ok {A} (m : Tx A) db db' a :
  on_run m db = (db', Ok a) <-> exists r, m (jd_run db) = (r, Ok a) /\ db' = with_run r db.
Proof. unfold on_run. destruct (m (jd_run db)) as [r [x|e]]; split; naive_solver. Qed.
Lemma db_transaction_Ok {A} (m : Db A) db db' a : db_transaction m db = (db', Ok a) <-> m db = (db', Ok a).
Proof. unfold db_transaction. destruct (m db) as [db1 [x|e]]; [done|]. by split. Qed.
Lemma db_get_Ok (db db' x : JournalDb) : (get : Db JournalDb) db = (db', Ok x) <-> db' = db /\ x = db.
Proof. unfold get. naive_solver. Qed.
Lemma safe_now_Ok n db db' t : on_run (safe_or ENowUnsafe n) db = (db', Ok t) <-> db' = db /\ safe_integer n = Some t.
Proof.
  rewrite on_run_Ok. setoid_rewrite safe_or_Ok. split.
  - intros (r & [-> H] & ->). by rewrite with_run_same.
  - intros [-> H]. exists (jd_run db). by rewrite with_run_same.
Qed.
Lemma guard_policy_Ok p t lease db db' u :
  guard_policy p t lease db = (db', Ok u) <->
  db' = db /\ assertDagRunMutationLease t lease false (jd_run db) = (jd_run db, Ok tt).
Proof.
  unfold guard_policy. rewrite on_run_Ok. destruct u. split.
  - intros (r & H & ->). pose proof H as Ha. apply assert_lease_Ok in Ha as [-> _]. by rewrite with_run_same.
  - intros [-> H]. exists (jd_run db). by rewrite with_run_same.
Qed.
Lemma mutation_event_Ok type payload t p db db' u :
  mutation_event type payload t p db = (db', Ok u) <->
  db' = with_run (insertDagEvent (EvExternalMutation type payload) t (Some (jp_taskId p)) (jd_run db)).1 db.
Proof. unfold mutation_event. rewrite on_run_Ok. destruct u. unfold insertDagEvent, modify. naive_solver. Qed.
Lemma expect_one_row_Ok e (m : Db Z) db db' u : expect_one_row e m db = (db', Ok u) <-> m db = (db', Ok 1).
Proof.
  unfold expect_one_row. rewrite M_bind_Ok. split.
  - intros (db1 & n & H1 & H2). apply throw_if_Ok in H2 as [Hn ->]. apply negb_false_iff, Z.eqb_eq in Hn. by subst.
  - intros H. exists db', 1. split; [done|]. by apply throw_if_Ok.
Qed.
Lemma db_modify_Ok (f : JournalDb -> JournalDb) db db' u : (modify f : Db unit) db = (db', Ok u) <-> db' = f db.
Proof. unfold modify. destruct u. naive_solver. Qed.
Lemma update_mutations_Ok q f db db' n :
  update_mutations q f db = (db', Ok n) <->
  n = zlen (keep q (jd_mutations db)) /\ db' = with_mutations (mapped q f (jd_mutations db)) db.
Proof. unfold update_mutations. naive_solver. Qed.
Lemma update_journals_Ok q f db db' n :
  update_journals q f db = (db', Ok n) <->
  n = zlen (keep q (jd_journals db)) /\ db' = with_journals (mapped q f (jd_journals db)) db.
Proof. unfold update_journals. naive_solver. Qed.

Definition journal_matches (p : ExternalMutationJournalPolicy) (j : JournalRow) : bool :=
  String.eqb (jr_runId j) (jp_runId p) && String.eqb (jr_taskId j) (jp_taskId p) && String.eqb (jr_path j) (jp_path p).
Lemma open_journal_Ok p ownerId t lease db db' j :
  open_journal p ownerId t lease db = (db', Ok j) <->
  db' = db /\ assertDagRunMutationLease t lease false (jd_run db) = (jd_run db, Ok tt) /\
  attempt_answers p ownerId (jd_run db) = true /\ find_journal (jp_attemptId p) db = Some j /\ journal_matches p j = true.
Proof.
  unfold open_journal. rewrite M_bind_Ok. split.
  - intros (db1 & [] & [-> Hg]%guard_policy_Ok & H). apply M_bind_Ok in H as (db1 & x & [-> ->]%db_get_Ok & H).
    apply M_bind_Ok in H as (db1 & [] & [Ha ->]%throw_if_Ok & H). apply negb_false_iff in Ha.
    destruct (find_journal (jp_attemptId p) db) as [k|]; [|done].
    apply M_bind_Ok in H as (db1 & [] & [Hm ->]%throw_if_Ok & H). apply M_ret_Ok in H as [-> ->].
    apply negb_false_iff in Hm. by split_and!.
  - intros (-> & Hg & Ha & Hj & Hm). exists db, tt. split; [by apply guard_policy_Ok|].
    apply M_bind_Ok. exists db, db. split; [by apply db_get_Ok|]. apply M_bind_Ok. exists db, tt.
    split; [by apply throw_if_Ok; rewrite Ha|]. rewrite Hj. apply M_bind_Ok. exists db, tt.
    split; [|by apply M_ret_Ok]. apply throw_if_Ok. unfold journal_matches in Hm. by rewrite Hm.
Qed.

Lemma insert_mutation_Ok m t db db' u :
  insert_mutation m t db = (db', Ok u) <->
  mutation_refused m (jd_mutations db) = false /\ db' = with_mutations (jd_mutations db ++ [mutation_row m t]) db.
Proof.
  unfold insert_mutation. rewrite M_bind_Ok. split.
  - intros (db1 & x & [-> ->]%db_get_Ok & H). by apply M_bind_Ok in H as (db1 & [] & [Hc ->]%throw_if_Ok & ->%db_modify_Ok).
  - intros [Hc ->]. exists db, db. split; [by apply db_get_Ok|]. apply M_bind_Ok. exists db, tt.
    split; [by apply throw_if_Ok|by apply db_modify_Ok].
Qed.

(** What recording a new event changes. *)
Definition recorded (p : ExternalMutationJournalPolicy) (e : ExternalMutationJournalEvent) (t : Z) (db db' : JournalDb) : Prop :=
  match e with
  | Authorized _ m =>
      (find_mutation (em_mutationId m) db = None /\ mutation_refused m (jd_mutations db) = false) /\ em_runId m = jp_runId p /\ em_taskId m = jp_taskId p /\
      em_attemptId m = jp_attemptId p /\ em_attemptNumber m = jp_attemptNumber p /\
      jd_mutations db' = jd_mutations db ++ [mutation_row m t]
  | Observed _ id r at_ s =>
      exists row, find_mutation id db = Some row /\ mr_toolResult row = None /\
        (let q m := String.eqb (mr_mutationId m) id && String.eqb (mr_attemptId m) (jp_attemptId p)
                    && bool_decide (mr_toolResult m = None) in
         zlen (keep q (jd_mutations db)) = 1 /\
         jd_mutations db' = mapped q (mutation_observed r at_ s t) (jd_mutations db))
  end.
Definition advanced (p : ExternalMutationJournalPolicy) (j : JournalRow) (t : Z) (db db' : JournalDb) : Prop :=
  let q x := for_attempt (jp_attemptId p) x && (jr_consumedSequence x =? jr_consumedSequence j) in
  zlen (keep q (jd_journals db)) = 1 /\
  jd_journals db' = mapped q (journal_advance (jr_consumedSequence j + 1) t) (jd_journals db).
Definition event_payload (p : ExternalMutationJournalPolicy) (e : ExternalMutationJournalEvent) : string * json :=
  match e with
  | Authorized _ m => ("external_mutation.authorized"%string, mutation_json m)
  | Observed _ id r _ s => ("external_mutation.observed"%string,
      JsonObject [str "attemptId" (jp_attemptId p); str "mutationId" id; str "toolResult" (result_name r);
                  ("postState"%string, post_state_json s)])
  end.

Lemma record_new_Ok p e t db db' u :
  (match e with
   | Authorized _ m => record_authorized p m (find_mutation (event_mutation_id e) db) t
   | Observed _ id r at_ s => record_observed p id r at_ s (find_mutation (event_mutation_id e) db) t
   end) db = (db', Ok u) <->
  recorded p e t db db' /\ jd_journals db' = jd_journals db /\
  jd_run db' = (insertDagEvent (EvExternalMutation (event_payload p e).1 (event_payload p e).2) t (Some (jp_taskId p)) (jd_run db)).1.
Proof.
  destruct u, e as [n m|n id r at_ s]; cbn [event_mutation_id recorded event_payload fst snd].
  - unfold record_authorized. rewrite M_bind_Ok. split.
    + intros (db1 & [] & [Hid ->]%throw_if_Ok & H). apply M_bind_Ok in H as (db1 & [] & [Hf ->]%throw_if_Ok & H).
      apply M_bind_Ok in H as (db1 & [] & [Hc ->]%insert_mutation_Ok & ->%mutation_event_Ok).
      apply negb_false_iff in Hid. rewrite !andb_true_iff, !String.eqb_eq, Z.eqb_eq in Hid. apply bool_decide_eq_false in Hf.
      destruct (find_mutation (em_mutationId m) db); [destruct Hf; by eexists|]. split_and!; try done; tauto.
    + intros (([Hf Hc] & H1 & H2 & H3 & H4 & Hm) & Hj & Hr). rewrite Hf. exists db, tt. split.
      { apply throw_if_Ok. rewrite H1, H2, H3, H4, !String.eqb_refl, Z.eqb_refl. done. }
      apply M_bind_Ok. exists db, tt. split; [by apply throw_if_Ok|]. apply M_bind_Ok. eexists _, tt.
      split; [by apply insert_mutation_Ok|]. apply mutation_event_Ok. destruct db'. simpl in *. subst. done.
  - unfold record_observed. split.
    + destruct (find_mutation id db) as [row|]; [|done]. intros H.
      apply M_bind_Ok in H as (db1 & [] & [Hn ->]%throw_if_Ok & H).
      apply M_bind_Ok in H as (db1 & [] & [Hc ->]%expect_one_row_Ok%update_mutations_Ok & ->%mutation_event_Ok).
      apply bool_decide_eq_false in Hn. split_and!; [|done|done]. exists row.
      split_and!; try done. destruct (mr_toolResult row); [destruct Hn; by eexists|done].
    + intros ((row & -> & Hn & Hc & Hm) & Hj & Hr). apply M_bind_Ok. exists db, tt.
      split; [apply throw_if_Ok; by rewrite Hn|]. apply M_bind_Ok. eexists _, tt.
      split; [apply expect_one_row_Ok, update_mutations_Ok; by rewrite Hc|]. apply mutation_event_Ok.
      destruct db'. simpl in *. subst. done.
Qed.

Lemma record_Ok p e ownerId now lease db db' b :
  recordDagExternalMutationEvent p e ownerId now lease db = (db', Ok b) <->
  exists t j, safe_integer now = Some t /\ assertDagRunMutationLease t lease false (jd_run db) = (jd_run db, Ok tt) /\
    attempt_answers p ownerId (jd_run db) = true /\ find_journal (jp_attemptId p) db = Some j /\
    journal_matches p j = true /\ is_safe (ev_sequence e) = true /\ 1 <= ev_sequence e /\
    ((b = false /\ db' = db /\ ev_sequence e <= jr_consumedSequence j /\
      replayed e (find_mutation (event_mutation_id e) db) = Ok false) \/
     (b = true /\ ev_sequence e = jr_consumedSequence j + 1 /\ jr_releasedAt j = None /\
      recorded p e t db db' /\ advanced p j t db db' /\
      jd_run db' = (insertDagEvent (EvExternalMutation (event_payload p e).1 (event_payload p e).2) t (Some (jp_taskId p)) (jd_run db)).1)).
Proof.
  unfold recordDagExternalMutationEvent. rewrite M_bind_Ok. split.
  - intros (db1 & t & [-> Ht]%safe_now_Ok & H). apply (proj1 (db_transaction_Ok _ _ _ _)) in H.
    apply M_bind_Ok in H as (db1 & j & (-> & Hg & Ha & Hj & Hm)%open_journal_Ok & H). cbv zeta in H.
    apply M_bind_Ok in H as (db1 & [] & [Hs ->]%throw_if_Ok & H). apply negb_false_iff, andb_true_iff in Hs as [Hs1 Hs2].
    apply Z.leb_le in Hs2. apply M_bind_Ok in H as (db1 & x & [-> ->]%db_get_Ok & H). exists t, j. split_and!; try done.
    destruct (Z.leb_spec (ev_sequence e) (jr_consumedSequence j)) as [Hle|Hgt].
    + left. unfold lift in H. injection H as <- H.
      assert (b = false) as -> by (unfold replayed in H; repeat case_match; congruence). done.
    + right. apply M_bind_Ok in H as (db1 & [] & [Hrel ->]%throw_if_Ok & H).
      apply M_bind_Ok in H as (db1 & [] & [Hgap ->]%throw_if_Ok & H). apply negb_false_iff, Z.eqb_eq in Hgap.
      apply M_bind_Ok in H as (db1 & [] & (Hrec & Hjs & Hrun)%record_new_Ok & H).
      apply M_bind_Ok in H as (db2 & [] & [Hc ->]%expect_one_row_Ok%update_journals_Ok & H). apply M_ret_Ok in H as [-> ->].
      apply bool_decide_eq_false in Hrel. rewrite Hjs in *. split_and!; try done.
      * destruct (jr_releasedAt j); [destruct Hrel; by eexists|done].
      * unfold advanced. by rewrite <-Hgap.
  - intros (t & j & Ht & Hg & Ha & Hj & Hm & Hs1 & Hs2 & H). exists db, t. split; [by apply safe_now_Ok|].
    apply (proj2 (db_transaction_Ok _ _ _ _)), M_bind_Ok. exists db, j. split; [by apply open_journal_Ok|]. cbv zeta. apply M_bind_Ok.
    exists db, tt. split; [apply throw_if_Ok; by rewrite Hs1, (proj2 (Z.leb_le _ _) Hs2)|]. apply M_bind_Ok. exists db, db.
    split; [by apply db_get_Ok|]. destruct H as [(-> & -> & Hle & Hr)|(-> & Hgap & Hrel & Hrec & [Hc Hadv] & Hrun)].
    + rewrite (proj2 (Z.leb_le _ _) Hle). unfold lift. by rewrite Hr.
    + rewrite (proj2 (Z.leb_gt _ _)) by lia. apply M_bind_Ok. exists db, tt. split; [apply throw_if_Ok; by rewrite Hrel|].
      apply M_bind_Ok. exists db, tt. split; [apply throw_if_Ok; by rewrite Hgap, Z.eqb_refl|]. apply M_bind_Ok.
      exists {| jd_run := jd_run db'; jd_journals := jd_journals db; jd_mutations := jd_mutations db' |}, tt.
      split; [by apply record_new_Ok; destruct e|]. apply M_bind_Ok. exists db', tt. split; [|by apply M_ret_Ok].
      apply expect_one_row_Ok, update_journals_Ok. cbn [jd_journals]. rewrite Hgap. split; [by rewrite Hc|].
      destruct db'. simpl in *. by subst.
Qed.
(** An operation that throws changes nothing. *)
Lemma guarded_Err {A} n (k : Z -> Db A) db db' x :
  (t ← on_run (safe_or ENowUnsafe n); db_transaction (k t)) db = (db', Err x) -> db' = db.
Proof.
  unfold mbind, M_bind. destruct (on_run (safe_or ENowUnsafe n) db) as [db1 [t|y]] eqn:H.
  - apply safe_now_Ok in H as [-> _]. unfold db_transaction. destruct (k t db) as [db2 [y|y]]; intros [=]; congruence.
  - intros [= <- _]. unfold on_run, safe_or in H. destruct (safe_integer n); cbn in H; simplify_eq. apply with_run_same.
Qed.
Lemma record_Err p e ownerId now lease db db' x :
  recordDagExternalMutationEvent p e ownerId now lease db = (db', Err x) -> db' = db.
Proof. apply guarded_Err. Qed.

(** ** The tables while events are recorded *)

Definition attempt_records (attemptId : string) (db : JournalDb) : list ExternalMutationRecord :=
  externalMutationFromRow <$> keep (fun m => String.eqb (mr_attemptId m) attemptId) (jd_mutations db).
(** How far the journal of an attempt was consumed. *)
Definition consumed (attemptId : string) (db : JournalDb) : Z :=
  match find_journal attemptId db with Some j => jr_consumedSequence j | None => 0 end.

(** The primary keys; an identifier is derived from its attempt. *)
Record tables_ok (db : JournalDb) : Prop := {
  to_journals : NoDup (jr_attemptId <$> jd_journals db);
  to_mutations : NoDup (mr_mutationId <$> jd_mutations db);
  to_identifiers row : row ∈ jd_mutations db -> exists n, 1 <= n <= MAX_EXTERNAL_MUTATIONS_PER_ATTEMPT /\
    mr_mutationId row = mutation_id (mr_attemptId row) n }.
(** The ledger holds what the first events of the attempt's journal say. *)
Definition consumes (attemptId : string) (evs : list ExternalMutationJournalEvent) (db : JournalDb) : Prop :=
  0 <= consumed attemptId db <= zlen evs /\
  attempt_records attemptId db = replay (take (Z.to_nat (consumed attemptId db)) evs).

Lemma find_row_mapped {A} (p q : A -> bool) f l :
  (forall x, x ∈ l -> p (f x) = p x) -> find_row p (mapped q f l) = (fun x => if q x then f x else x) <$> find_row p l.
Proof. intros Hp. unfold find_row. rewrite keep_mapped by done. by destruct (keep p l). Qed.
Lemma find_mutation_None id db : find_mutation id db = None -> id ∉ mr_mutationId <$> jd_mutations db.
Proof.
  intros H [row [-> Hin]]%list_elem_of_fmap. pose proof (find_row_None _ _ H row Hin) as Hne.
  cbn beta in Hne. by rewrite String.eqb_refl in Hne.
Qed.
Lemma find_mutation_Some db row :
  tables_ok db -> row ∈ jd_mutations db -> find_mutation (mr_mutationId row) db = Some row.
Proof.
  intros Hok Hin. destruct (find_mutation _ db) as [x|] eqn:E.
  - apply find_row_Some in E as [Hx Heq]. apply String.eqb_eq in Heq. f_equal. by apply (fmap_NoDup_inj _ _ _ _ (to_mutations _ Hok)).
  - apply find_mutation_None in E. destruct E. by apply list_elem_of_fmap_2.
Qed.

Lemma no_colon_digits n : 1 <= n <= MAX_EXTERNAL_MUTATIONS_PER_ATTEMPT -> 58 ∉ bytes_of_string (pretty n).
Proof.
  intros Hn. assert (H : forallb (fun n : Z => negb (existsb (Z.eqb 58) (bytes_of_string (pretty n)))) (seqZ 1 256) = true)
    by (vm_compute; reflexivity).
  rewrite forallb_forall in H. assert (Hin : In n (seqZ 1 256)).
  { apply list_elem_of_In, elem_of_seqZ. unfold MAX_EXTERNAL_MUTATIONS_PER_ATTEMPT in Hn. lia. }
  specialize (H n Hin). intros Hc%list_elem_of_In. apply negb_true_iff in H.
  assert (existsb (Z.eqb 58) (bytes_of_string (pretty n)) = true); [|congruence]. apply existsb_exists. by exists 58.
Qed.
Lemma last_colon (a b d e : list Z) : 58 ∉ d -> 58 ∉ e -> a ++ 58 :: d = b ++ 58 :: e -> a = b.
Proof.
  revert b. induction a as [|x a IH]; intros [|y b] Hd He H; [done| | |].
  - injection H as Hy Hde. exfalso. apply Hd. rewrite Hde. apply elem_of_app. right. by left.
  - injection H as Hx Hde. exfalso. apply He. rewrite <-Hde. apply elem_of_app. right. by left.
  - injection H as -> H. f_equal. by apply IH.
Qed.
Lemma bytes_of_string_inj s t : bytes_of_string s = bytes_of_string t -> s = t.
Proof.
  unfold bytes_of_string. revert t. induction s as [|c s IH]; intros [|d t] H; try done.
  cbn [String.list_ascii_of_string] in H. rewrite !fmap_cons in H. injection H as Hc H. f_equal; [|by apply IH].
  rewrite <-(Ascii.ascii_N_embedding c), <-(Ascii.ascii_N_embedding d). f_equal. by apply N2Z.inj.
Qed.
Lemma mutation_id_attempt a b n m :
  1 <= n <= MAX_EXTERNAL_MUTATIONS_PER_ATTEMPT -> 1 <= m <= MAX_EXTERNAL_MUTATIONS_PER_ATTEMPT ->
  mutation_id a n = mutation_id b m -> a = b.
Proof.
  intros Hn Hm H. apply (f_equal bytes_of_string) in H. unfold mutation_id in H. rewrite !bytes_of_string_app in H.
  apply bytes_of_string_inj. by eapply last_colon; [apply (no_colon_digits n Hn)|apply (no_colon_digits m Hm)|].
Qed.

Section tables.
Variable host : JournalHost.

Lemma event_authorizes p evs n m :
  history host p evs -> Authorized n m ∈ evs -> exists k, authorizes host p k m.
Proof.
  intros Hh Hin. assert (Hm : m ∈ authorizations evs) by (apply list_elem_of_omap; eexists; split; [exact Hin|done]).
  apply list_elem_of_lookup in Hm as [i Hi]. eexists. by eapply history_authorizations.
Qed.
Lemma recorded_tables p evs e j t db db' :
  history host p evs -> e ∈ evs -> tables_ok db -> recorded p e t db db' -> advanced p j t db db' -> tables_ok db'.
Proof.
  intros Hh He [Hj Hnd Hids] Hrec [_ Hadv].
  assert (Hj' : NoDup (jr_attemptId <$> jd_journals db')) by by rewrite Hadv, fmap_mapped. revert Hrec.
  destruct e as [n m|n id r at_ s]; cbn [recorded].
  - intros ([Hf _] & _ & _ & Ha & _ & Hm). apply find_mutation_None in Hf. destruct (event_authorizes _ _ _ _ Hh He) as [k Hk].
    split; [done| |]; rewrite Hm.
    + rewrite fmap_app. apply NoDup_app. split_and!; [done| |apply NoDup_singleton].
      intros x Hx ->%list_elem_of_singleton. done.
    + intros row [Hr| ->%list_elem_of_singleton]%elem_of_app; [by apply Hids|]. exists k. cbn [mr_mutationId mr_attemptId mutation_row].
      split; [apply Hk|]. rewrite Ha. apply Hk.
  - intros (row & _ & _ & _ & Hm). split; [done| |]; rewrite Hm.
    + by rewrite fmap_mapped.
    + intros x (y & Hy & ->)%elem_of_mapped. destruct (Hids y Hy) as (k & Hk & Hid). exists k. by case_match.
Qed.

Lemma consumed_advanced p j t db db' :
  find_journal (jp_attemptId p) db = Some j -> advanced p j t db db' ->
  consumed (jp_attemptId p) db' = jr_consumedSequence j + 1 /\
  forall b, b <> jp_attemptId p -> consumed b db' = consumed b db.
Proof.
  intros Hj [_ Hadv]. unfold consumed, find_journal in *.
  assert (Hfind : forall b, find_row (fun x => String.eqb (jr_attemptId x) b) (jd_journals db') =
    (fun x => if for_attempt (jp_attemptId p) x && (jr_consumedSequence x =? jr_consumedSequence j)
              then journal_advance (jr_consumedSequence j + 1) t x else x) <$>
    find_row (fun x => String.eqb (jr_attemptId x) b) (jd_journals db)) by (intros b; rewrite Hadv; by apply find_row_mapped).
  split.
  - rewrite Hfind, Hj. simpl. pose proof (find_row_Some _ _ _ Hj) as [_ Heq]. unfold for_attempt. rewrite Heq, Z.eqb_refl. done.
  - intros b Hb. rewrite Hfind. clear Hj Hfind. destruct (find_row _ (jd_journals db)) as [x|] eqn:E; [|done]. simpl.
    apply find_row_Some in E as [_ Heq]. apply String.eqb_eq in Heq. cbn beta in Heq. unfold for_attempt. rewrite Heq.
    by rewrite (proj2 (String.eqb_neq _ _) Hb).
Qed.

Lemma records_other p e t db db' b :
  b <> jp_attemptId p -> recorded p e t db db' -> attempt_records b db' = attempt_records b db.
Proof.
  intros Hb. unfold attempt_records. destruct e as [n m|n id r at_ s]; cbn [recorded].
  - intros (_ & _ & _ & Ha & _ & ->). rewrite keep_app. cbn [keep mr_attemptId mutation_row]. rewrite Ha.
    rewrite (proj2 (String.eqb_neq _ _)) by congruence. by rewrite app_nil_r.
  - intros (row & _ & _ & _ & ->). rewrite keep_mapped by done. rewrite mapped_none; [done|].
    intros x [_ Hx]%elem_of_keep. apply String.eqb_eq in Hx. rewrite Hx, (proj2 (String.eqb_neq _ _) Hb), andb_false_r. done.
Qed.
Lemma records_own p evs i e t db db' :
  history host p evs -> tables_ok db -> evs !! i = Some e -> attempt_records (jp_attemptId p) db = replay (take i evs) ->
  recorded p e t db db' -> attempt_records (jp_attemptId p) db' = replay (take (S i) evs).
Proof.
  intros Hh Hok Hi Hrec. rewrite (take_S_r _ _ _ Hi), replay_snoc, <-Hrec. unfold attempt_records.
  destruct e as [n m|n id r at_ s]; cbn [recorded apply_event].
  - intros (_ & _ & _ & Ha & _ & ->). rewrite keep_app. cbn [keep mr_attemptId mutation_row]. rewrite Ha, String.eqb_refl, fmap_app.
    f_equal. csimpl. f_equal. destruct (event_authorizes _ _ _ _ Hh (list_elem_of_lookup_2 _ _ _ Hi)) as [k [_ _ _ _ _ _ _ _ _ _ _ _ R1 R2 R3]].
    destruct m. simpl in *. unfold externalMutationFromRow. simpl. congruence.
  - intros (row & Hf & Hnone & _ & ->). rewrite keep_mapped by done. unfold mapped. rewrite <-!list_fmap_compose.
    apply list_fmap_ext. intros k x Hx%list_elem_of_lookup_2. apply elem_of_keep in Hx as [Hx Ha]. unfold compose.
    rewrite Ha. cbn [em_mutationId externalMutationFromRow]. destruct (String.eqb_spec (mr_mutationId x) id) as [<-|Hne]; [|done].
    rewrite (find_mutation_Some _ _ Hok Hx) in Hf. injection Hf as ->. by rewrite Hnone.
Qed.

(** Recording an event of an attempt's history keeps what the tables say of every attempt. *)
Lemma record_consumes p evs e ownerId now lease db db' r b evs' :
  history host p evs -> e ∈ evs -> tables_ok db -> (b = jp_attemptId p -> evs' = evs) -> consumes b evs' db ->
  recordDagExternalMutationEvent p e ownerId now lease db = (db', r) ->
  tables_ok db' /\ consumes b evs' db' /\ consumed b db <= consumed b db' /\
  (b = jp_attemptId p -> is_ok r = true -> ev_sequence e <= consumed b db').
Proof.
  intros Hh He Hok Hb [Hc Hrec] Hrun. destruct r as [v|x]; [|apply record_Err in Hrun as ->; split_and!; try done; lia].
  apply record_Ok in Hrun as (t & j & _ & _ & _ & Hj & _ & _ & _ & [(-> & -> & Hle & _)|(-> & Hseq & _ & Hnew & Hadv & _)]).
  { split; [done|]. split; [done|]. split; [done|]. intros -> _. unfold consumed. by rewrite Hj. }
  destruct (consumed_advanced _ _ _ _ _ Hj Hadv) as [Hown Hother].
  assert (Hkeys : tables_ok db') by by eapply recorded_tables.
  destruct (decide (b = jp_attemptId p)) as [->|Hne].
  - rewrite (Hb eq_refl) in *. unfold consumes. rewrite Hown. assert (Hcj : consumed (jp_attemptId p) db = jr_consumedSequence j)
      by (unfold consumed; by rewrite Hj). rewrite Hcj in *.
    apply list_elem_of_lookup in He as [i Hi]. pose proof (history_sequence _ _ _ _ _ Hh Hi) as Hs.
    pose proof (lookup_lt_Some _ _ _ Hi). assert (Hji : jr_consumedSequence j = Z.of_nat i) by lia. rewrite Hji, Nat2Z.id in Hrec.
    split; [done|]. split; [|split; [lia|intros _ _; lia]]. unfold zlen in *. split; [lia|].
    replace (Z.to_nat (jr_consumedSequence j + 1)) with (S i) by lia. exact (records_own p evs i e t db db' Hh Hok Hi Hrec Hnew).
  - unfold consumes. rewrite (Hother b Hne), (records_other p e t db db' b) by done. split_and!; try done; lia.
Qed.

(** Operations that record nothing. *)
Definition tables_kept (db db' : JournalDb) : Prop :=
  jd_mutations db' = jd_mutations db /\ (forall b, consumed b db' = consumed b db) /\
  (NoDup (jr_attemptId <$> jd_journals db) -> NoDup (jr_attemptId <$> jd_journals db')).
Lemma kept_consumes db db' : tables_kept db db' -> tables_ok db -> tables_ok db' /\
  forall b evs, consumes b evs db -> consumes b evs db'.
Proof.
  intros (Hm & Hc & Hj) [H0 H1 H2]. split; [split; [by apply Hj|by rewrite Hm..]|]. intros b evs [H3 H4]. unfold consumes. rewrite Hc.
  split; [done|]. by rewrite <-H4; unfold attempt_records; rewrite Hm.
Qed.
Lemma kept_run r db : tables_kept db (with_run r db).
Proof. by split. Qed.
Lemma find_row_snoc {A} (q : A -> bool) l x :
  find_row q (l ++ [x]) = match find_row q l with Some y => Some y | None => if q x then Some x else None end.
Proof. unfold find_row. rewrite keep_app. destruct (keep q l); [|done]. simpl. by destruct (q x). Qed.
Lemma checked_Err {A} n (c : bool) y (k : Z -> Db A) db db' x :
  (t ← on_run (safe_or ENowUnsafe n); throw_if c y ;; db_transaction (k t)) db = (db', Err x) -> db' = db.
Proof.
  destruct c; [|exact (guarded_Err n k db db' x)]. unfold mbind, M_bind.
  destruct (on_run (safe_or ENowUnsafe n) db) as [db1 [t|z]] eqn:H.
  - apply safe_now_Ok in H as [-> _]. by intros [= <- _].
  - intros [= <- _]. unfold on_run, safe_or in H. destruct (safe_integer n); cbn in H; simplify_eq. apply with_run_same.
Qed.
Lemma register_kept p ownerId now lease db db' r :
  registerDagExternalMutationJournal p ownerId now lease db = (db', r) -> tables_kept db db'.
Proof.
  intros H. destruct r as [u|x].
  2:{ apply checked_Err in H as ->. by split. }
  unfold registerDagExternalMutationJournal in H. apply M_bind_Ok in H as (db1 & t & [-> _]%safe_now_Ok & H).
  apply M_bind_Ok in H as (db1 & [] & [_ ->]%throw_if_Ok & H). apply (proj1 (db_transaction_Ok _ _ _ _)) in H.
  apply M_bind_Ok in H as (db1 & [] & [-> _]%guard_policy_Ok & H). apply M_bind_Ok in H as (db1 & x & [-> ->]%db_get_Ok & H).
  cbv zeta in H. destruct (find_row _ (dr_attempts _)) as [attempt|]; [|done]. destruct (find_row _ (dr_tasks _)) as [task|]; [|done].
  apply M_bind_Ok in H as (db1 & [] & [_ ->]%throw_if_Ok & H). destruct (find_journal (jp_attemptId p) db) as [j|] eqn:E.
  - apply throw_if_Ok in H as [_ ->]. by split.
  - apply M_bind_Ok in H as (db1 & [] & ->%db_modify_Ok & ->%mutation_event_Ok). split; [done|]. split.
    2:{ cbn [jd_journals with_run with_journals]. rewrite fmap_app. intros H. apply NoDup_app. split_and!; [done| |apply NoDup_singleton].
        intros b [x [-> Hx]]%list_elem_of_fmap Heq%list_elem_of_singleton. pose proof (find_row_None _ _ E x Hx) as Hne. cbn beta in Hne.
        by rewrite Heq, String.eqb_refl in Hne. }
    intros b. clear E. unfold consumed, find_journal. cbn [jd_journals with_run with_journals]. rewrite find_row_snoc. destruct (find_row _ (jd_journals db)); [done|].
    by destruct (String.eqb _ b).
Qed.
Lemma release_kept p ownerId now lease db db' r :
  releaseDagExternalMutationJournal p ownerId now lease db = (db', r) -> tables_kept db db'.
Proof.
  intros H. destruct r as [u|x]; [|apply guarded_Err in H as ->; by split].
  unfold releaseDagExternalMutationJournal in H. apply M_bind_Ok in H as (db1 & t & [-> _]%safe_now_Ok & H).
  apply (proj1 (db_transaction_Ok _ _ _ _)) in H. apply M_bind_Ok in H as (db1 & j & (-> & _)%open_journal_Ok & H).
  destruct (bool_decide _); [apply M_ret_Ok in H as [-> _]; by split|].
  apply M_bind_Ok in H as (db1 & [] & [_ ->]%expect_one_row_Ok%update_journals_Ok & ->%mutation_event_Ok). split; [done|].
  split; [|cbn [jd_journals with_run with_journals]; by rewrite fmap_mapped].
  intros b. unfold consumed, find_journal. cbn [jd_journals with_run with_journals]. rewrite find_row_mapped by done.
  destruct (find_row _ (jd_journals db)); [|done]. simpl. by destruct (_ && _).
Qed.
End tables.

(** ** The child, the readers of its journal and the ledger *)

Section system.
Variables (host : JournalHost) (policy : ExternalMutationJournalPolicy).

(** A child, the events that readers in any process have parsed, and the ledger. *)
Record shared := { sh_child : child; sh_read : list ExternalMutationJournalEvent; sh_db : JournalDb }.
Definition set_db (db : JournalDb) (s : shared) : shared :=
  {| sh_child := sh_child s; sh_read := sh_read s; sh_db := db |}.

(** What others do with the tables: a reader of the journal of another attempt records an
    event, and any journal may be registered or released. *)
Inductive other_call (db : JournalDb) : JournalDb -> Prop :=
| other_record other evs e ownerId now lease :
    jp_attemptId other <> jp_attemptId policy -> history host other evs -> e ∈ evs ->
    other_call db (recordDagExternalMutationEvent other e ownerId now lease db).1
| other_register other ownerId now lease :
    other_call db (registerDagExternalMutationJournal other ownerId now lease db).1
| other_release other ownerId now lease :
    other_call db (releaseDagExternalMutationJournal other ownerId now lease db).1.

(** Each transaction of each process is a step, so that readers interleave; a reader may see
    any beginning of what the file holds.  [shared_elsewhere] is a call for another run. *)
Inductive shared_step (s : shared) : list ExternalMutationJournalEvent -> shared -> Prop :=
| shared_child new c :
    child_step host policy (sh_child s) new c ->
    shared_step s new {| sh_child := c; sh_read := sh_read s; sh_db := sh_db s |}
| shared_read files content events :
    content `prefix_of` ch_file (sh_child s) -> readFileSync files (jp_path policy) = Some content ->
    parseExternalMutationJournal host files policy true = Ok events ->
    shared_step s [] {| sh_child := sh_child s; sh_read := sh_read s ++ events; sh_db := sh_db s |}
| shared_record e ownerId now lease :
    e ∈ sh_read s -> shared_step s [] (set_db (recordDagExternalMutationEvent policy e ownerId now lease (sh_db s)).1 s)
| shared_other db : other_call (sh_db s) db -> shared_step s [] (set_db db s)
| shared_elsewhere r db :
    other_call (with_run r (sh_db s)) db -> shared_step s [] (set_db (with_run (jd_run (sh_db s)) db) s)
| shared_run r :
    ledger_step (jp_runId policy) (jd_run (sh_db s)) r -> shared_step s [] (set_db (with_run r (sh_db s)) s).

(** A new child, and a ledger that knows nothing of its attempt. *)
Definition shared_start (s : shared) : Prop :=
  child_start host policy (sh_child s) /\ sh_read s = [] /\ tables_ok (sh_db s) /\
  find_journal (jp_attemptId policy) (sh_db s) = None /\ attempt_records (jp_attemptId policy) (sh_db s) = [].
Inductive shared_reach : list ExternalMutationJournalEvent -> shared -> Prop :=
| shared_reach_start s : shared_start s -> shared_reach [] s
| shared_reach_step acked s new s' : shared_reach acked s -> shared_step s new s' -> shared_reach (acked ++ new) s'.

(** What a reader of the policy's journal does with its events. *)
Definition consumer (ownerId : ExternalMutationJournalEvent -> option string)
    (now : ExternalMutationJournalEvent -> number) (lease : ExternalMutationJournalEvent -> option DagRunLease)
    (e : ExternalMutationJournalEvent) : Db unit :=
  recordDagExternalMutationEvent policy e (ownerId e) (now e) (lease e) ;; mret tt.

Hypothesis join_parts : forall p, normalized host p = true -> join host (dirname host p) (basename host p) = p.
Hypothesis absolute_nonempty : forall p, isAbsolute host p = true -> 1 <= zlen (js p).
Hypothesis identity_ok :
  str_ok (jp_runId policy) = true /\ str_ok (jp_taskId policy) = true /\ str_ok (jp_attemptId policy) = true /\
  zlen (js (jp_attemptId policy)) <= 252.

Record shared_ok (evs acked : list ExternalMutationJournalEvent) (s : shared) : Prop := {
  so_child : child_at host policy evs acked (sh_child s);
  so_read e : e ∈ sh_read s -> e ∈ evs;
  so_tables : tables_ok (sh_db s);
  so_consumes : consumes (jp_attemptId policy) evs (sh_db s) }.

Lemma consumes_extends evs evs' db : evs `prefix_of` evs' -> consumes (jp_attemptId policy) evs db -> consumes (jp_attemptId policy) evs' db.
Proof.
  intros [k ->] [Hc Hr]. unfold consumes, zlen in *. rewrite length_app. split; [lia|].
  rewrite take_app_le by lia. done.
Qed.
Lemma prefix_of_app {A} (a b c : list A) :
  a `prefix_of` b ++ c -> a `prefix_of` b \/ exists k, a = b ++ k /\ k `prefix_of` c.
Proof.
  intros H. destruct (prefix_weak_total a b (b ++ c) H) as [?|[k ->]]; [by apply prefix_app_r|by left|].
  right. exists k. split; [done|]. by apply prefix_app_inv in H.
Qed.
(** A beginning of a journal is the records of a beginning, and part of a record. *)
Lemma journal_beginning evs tail content :
  Forall text_ok evs -> 10 ∉ tail -> content `prefix_of` journal_bytes evs ++ tail ->
  exists evs' tail', evs' `prefix_of` evs /\ content = journal_bytes evs' ++ tail' /\ 10 ∉ tail'.
Proof.
  intros Hok Ht [Hc|(k & -> & [r ->])]%prefix_of_app; [|exists evs, k; split_and!; [done|done|set_solver]]. clear tail Ht.
  revert content Hc. induction evs as [|e evs IH] using rev_ind; intros content Hc.
  - apply prefix_nil_inv in Hc as ->. exists [], []. split_and!; [done|done|apply not_elem_of_nil].
  - apply Forall_app in Hok as [Hok He]. rewrite Forall_singleton in He. rewrite journal_bytes_snoc in Hc.
    destruct (prefix_of_app _ _ _ Hc) as [H|(k & -> & Hk)].
    + destruct (IH Hok _ H) as (evs' & tail & Hp & Heq & Ht). exists evs', tail. split_and!; [|done|done].
      by apply prefix_app_r.
    + destruct (event_bytes_cut e k He Hk) as [->|Hno].
      * exists (evs ++ [e]), []. split_and!; [done|by rewrite app_nil_r, journal_bytes_snoc|apply not_elem_of_nil].
      * exists evs, k. split_and!; [by apply prefix_app_r|done|done].
Qed.

(** Reading any beginning of the file gives events of the journal. *)
Lemma read_events evs acked c files content events :
  child_at host policy evs acked c -> content `prefix_of` ch_file c -> readFileSync files (jp_path policy) = Some content ->
  parseExternalMutationJournal host files policy true = Ok events -> events `prefix_of` evs.
Proof.
  intros [Hv Hnum Hh Hok Hsub Hone Hpol (tail & Hfile & Htail & _)] Hc Hread Hp. rewrite Hfile in Hc.
  destruct (journal_beginning _ _ _ Hok Htail Hc) as (evs' & tail' & [k ->] & -> & Ht).
  unfold parseExternalMutationJournal in Hp. apply bind_Ok in Hp as (v & Hvalid & Hp).
  apply (validate_same host policy join_parts identity_ok) in Hvalid as (-> & _). rewrite Hread in Hp. cbn [or_throw mbind result_bind] in Hp.
  apply Forall_app in Hok as [Hok _]. apply history_prefix in Hh. rewrite parse_content_complete in Hp; try done; [|lia|].
  - injection Hp as <-. by eexists.
  - unfold parse_content in Hp. by apply refuse_Ok in Hp as [Hlt%Z.ltb_ge _].
Qed.
Lemma shared_start_ok s : shared_start s -> shared_ok [] [] s.
Proof.
  intros (Hc & Hr & Ht & Hj & Ha). split; [by apply child_start_ok|rewrite Hr; by intros e ?%elem_of_nil|done|].
  unfold consumes, consumed. rewrite Hj, Ha. by split.
Qed.
Definition tables_at (evs : list ExternalMutationJournalEvent) (db : JournalDb) : Prop :=
  tables_ok db /\ consumes (jp_attemptId policy) evs db.
Lemma tables_run evs r db : tables_at evs db -> tables_at evs (with_run r db).
Proof. intros [Ht Hs]. destruct (kept_consumes _ _ (kept_run r db) Ht) as [Ht' Hs']. split; auto. Qed.
Lemma other_call_ok evs db db' : other_call db db' -> tables_at evs db -> tables_at evs db'.
Proof.
  intros [other evs' e ownerId now lease Hne Hh He|other ownerId now lease|other ownerId now lease] [Ht Hco].
  - destruct (recordDagExternalMutationEvent other e ownerId now lease db) as [db1 r] eqn:Hrun.
    destruct (record_consumes host other evs' e ownerId now lease _ _ r (jp_attemptId policy) evs
      Hh He Ht (fun H => False_rect _ (Hne (eq_sym H))) Hco Hrun) as (H1 & H2 & _). by split.
  - destruct (registerDagExternalMutationJournal _ _ _ _ _) as [db1 r] eqn:Hrun.
    destruct (kept_consumes _ _ (register_kept _ _ _ _ _ _ _ Hrun) Ht) as [Ht' Hs']. split; auto.
  - destruct (releaseDagExternalMutationJournal _ _ _ _ _) as [db1 r] eqn:Hrun.
    destruct (kept_consumes _ _ (release_kept _ _ _ _ _ _ _ Hrun) Ht) as [Ht' Hs']. split; auto.
Qed.
Lemma set_db_ok evs acked s db : shared_ok evs acked s -> tables_at evs db -> shared_ok evs acked (set_db db s).
Proof. intros [Hc Hr _ _] [Ht Hs]. by split. Qed.
Lemma shared_step_ok evs acked s new s' :
  shared_ok evs acked s -> shared_step s new s' -> exists evs', evs `prefix_of` evs' /\ shared_ok evs' (acked ++ new) s'.
Proof.
  intros Hok [new' c Hs|files content events Hc Hf Hp|e ownerId now lease He|db Hdb|r db Hdb|r Hr]; rewrite ?app_nil_r.
  1: { destruct Hok as [Hc Hr Ht Hco].
    destruct (child_step_ok _ _ join_parts absolute_nonempty identity_ok _ _ _ _ _ Hc Hs) as (evs' & Hp & Hc').
    exists evs'. split; [done|]. split; cbn; [done| |done|by eapply consumes_extends].
    intros e He%Hr. destruct Hp as [k ->]. apply elem_of_app. by left. }
  all: exists evs; split; [done|]; pose proof Hok as [Hch Hr' Ht Hco].
  - split; cbn; [done| |done|done]. intros e [He|He]%elem_of_app; [by apply Hr'|].
    destruct (read_events _ _ _ _ _ _ Hch Hc Hf Hp) as [k ->]. apply elem_of_app. by left.
  - destruct (recordDagExternalMutationEvent policy e ownerId now lease (sh_db s)) as [db r] eqn:Hrun.
    destruct (record_consumes host policy evs e ownerId now lease _ _ r (jp_attemptId policy) evs
      (ca_history _ _ _ _ _ Hch) (Hr' _ He) Ht (fun _ => eq_refl) Hco Hrun) as (H1 & H2 & _). by apply set_db_ok.
  - apply set_db_ok; [done|]. by eapply other_call_ok.
  - apply set_db_ok; [done|]. apply tables_run, (other_call_ok _ _ _ Hdb). by apply tables_run.
  - apply set_db_ok; [done|]. by apply tables_run.
Qed.
Lemma shared_reach_ok acked s : shared_reach acked s -> exists evs, shared_ok evs acked s.
Proof.
  induction 1 as [s Hs|acked s new s' _ [evs IH] Hs]; [exists []; by apply shared_start_ok|].
  destruct (shared_step_ok _ _ _ _ _ IH Hs) as (evs' & _ & H). by exists evs'.
Qed.

(** ** Draining a journal *)

Definition last_delivered (delivered : Z) (evs : list ExternalMutationJournalEvent) : Z :=
  foldl (fun d e => Z.max d (ev_sequence e)) delivered evs.
Lemma last_delivered_history delivered evs :
  history host policy evs -> 0 <= delivered -> last_delivered delivered evs = Z.max delivered (zlen evs).
Proof.
  intros Hh Hd. unfold last_delivered. induction evs as [|e evs IH] using rev_ind; [unfold zlen; cbn [foldl length]; lia|].
  rewrite foldl_app. cbn [foldl]. rewrite IH by by eapply history_prefix.
  assert (ev_sequence e = zlen evs + 1) as -> by (eapply history_sequence in Hh; [|by apply list_lookup_middle]; done).
  unfold zlen. rewrite length_app. cbn [length]. lia.
Qed.
(** Delivering events of a journal in any order records only what the journal says. *)
Lemma deliver_all evs ownerId now lease l db delivered db' d' r :
  history host policy evs -> (forall e, e ∈ l -> e ∈ evs) -> tables_ok db -> consumes (jp_attemptId policy) evs db ->
  forM_ l (deliver (consumer ownerId now lease)) (db, delivered) = ((db', d'), r) ->
  tables_ok db' /\ consumes (jp_attemptId policy) evs db' /\
  consumed (jp_attemptId policy) db <= consumed (jp_attemptId policy) db' /\
  (is_ok r = true -> d' = last_delivered delivered l /\
     (delivered <= consumed (jp_attemptId policy) db -> forall e, e ∈ l -> ev_sequence e <= consumed (jp_attemptId policy) db')).
Proof.
  intros Hh. revert db delivered. induction l as [|e l IH]; intros db delivered Hl Ht Hc Hrun.
  { injection Hrun as <- <- <-. split_and!; try done. intros _. split; [done|]. by intros _ e ?%elem_of_nil. }
  cbn [forM_] in Hrun. unfold mbind, M_bind in Hrun. unfold deliver in Hrun at 1.
  assert (Hl' : forall e, e ∈ l -> e ∈ evs) by (intros; apply Hl; by right).
  destruct (Z.leb_spec (ev_sequence e) delivered) as [Hle|Hgt].
  - destruct (IH db delivered Hl' Ht Hc Hrun) as (H1 & H2 & H3 & H4). split_and!; try done. intros Hr.
    destruct (H4 Hr) as [-> H5]. split; [unfold last_delivered; cbn [foldl]; f_equal; lia|]. intros Hd x [->|Hx]%elem_of_cons; [lia|by apply H5].
  - unfold consumer in Hrun at 1. unfold mbind, M_bind in Hrun.
    destruct (recordDagExternalMutationEvent policy e (ownerId e) (now e) (lease e) db) as [db1 r1] eqn:Hrec.
    destruct (record_consumes host policy evs e _ _ _ _ _ r1 (jp_attemptId policy) evs
      Hh (Hl e (list_elem_of_here _ _)) Ht (fun _ => eq_refl) Hc Hrec) as (H1 & H2 & H3 & H4).
    destruct r1 as [b|x]; cbn in Hrun; [|injection Hrun as <- <- <-; split_and!; done].
    destruct (IH db1 (ev_sequence e) Hl' H1 H2 Hrun) as (I1 & I2 & I3 & I4). split_and!; try done; [lia|].
    specialize (H4 eq_refl eq_refl). intros Hr. destruct (I4 Hr) as [-> I5].
    split; [unfold last_delivered; cbn [foldl]; f_equal; lia|]. intros Hd x [->|Hx]%elem_of_cons; [lia|by apply I5].
Qed.

(** C6. A child, any number of readers of its journal in any processes, whose transactions
    interleave, which begin again after crashes and may see any beginning of the file, readers
    of other journals, and everything else that changes the run: the ledger's mutations of the
    attempt are always exactly what the first [consumed] events of its journal say, each once
    and with its one observation, and no identifier is recorded twice in any run.  A drain
    that returns, of a reader that delivered nothing but what is consumed, has recorded the
    whole journal, hence every event that was ever acknowledged to a tool. *)
Theorem mutations_recorded_exactly acked s :
  shared_reach acked s ->
  exists evs, history host policy evs /\ acked `sublist_of` evs /\
    (exists tail, ch_file (sh_child s) = journal_bytes evs ++ tail /\ 10 ∉ tail) /\
    NoDup (mr_mutationId <$> jd_mutations (sh_db s)) /\
    0 <= consumed (jp_attemptId policy) (sh_db s) <= zlen evs /\
    attempt_records (jp_attemptId policy) (sh_db s) = replay (take (Z.to_nat (consumed (jp_attemptId policy) (sh_db s))) evs) /\
    forall files ownerId now lease delivered db d n,
      readFileSync files (jp_path policy) = Some (ch_file (sh_child s)) ->
      0 <= delivered <= consumed (jp_attemptId policy) (sh_db s) ->
      drain host files (consumer ownerId now lease) policy (sh_db s, delivered) = ((db, d), Ok n) ->
      n = zlen evs /\ attempt_records (jp_attemptId policy) db = replay evs.
Proof.
  intros [evs [Hch Hr Ht [Hc Hrec]]]%shared_reach_ok. exists evs.
  destruct (ca_file _ _ _ _ _ Hch) as (tail & Hfile & Htail & _).
  split; [apply Hch|]. split; [apply Hch|]. split; [by exists tail|]. split; [apply Ht|]. split; [done|]. split; [done|].
  intros files ownerId now lease delivered db d n Hread Hd Hdrain. unfold drain in Hdrain.
  destruct (parseExternalMutationJournal host files policy true) as [events|] eqn:Hp; [|done].
  assert (events = evs) as ->. { 
    pose proof Hp as Hp'. unfold parseExternalMutationJournal in Hp'. apply bind_Ok in Hp' as (v & Hvalid & Hp').
    pose proof Hvalid as Hsame. apply (validate_same host policy join_parts identity_ok) in Hsame as (-> & _).
    rewrite (child_read _ _ _ _ _ true files Hch Hvalid Hread) in Hp; [by injection Hp|].
    rewrite Hread in Hp'. cbn [or_throw mbind result_bind] in Hp'. unfold parse_content in Hp'.
    by apply refuse_Ok in Hp' as [Hlt%Z.ltb_ge _]. }
  apply M_bind_Ok in Hdrain as ([db1 d1] & [] & Hall & Hdrain). injection Hdrain as <- <- <-.
  pose proof (ca_history _ _ _ _ _ Hch) as Hh.
  destruct (deliver_all evs _ _ _ _ _ _ _ _ _ Hh (fun e He => He) Ht (conj Hc Hrec) Hall) as (_ & [H1 H2] & _ & H3).
  destruct (H3 eq_refl) as [-> H4]. split; [rewrite last_delivered_history by (done || lia); lia|].
  assert (Hend : zlen evs <= consumed (jp_attemptId policy) db1).
  { destruct evs as [|e evs _] using rev_ind; [exact (proj1 H1)|]. specialize (H4 ltac:(lia) e ltac:(set_solver)).
    rewrite (history_sequence _ _ _ (length evs) e Hh) in H4 by by apply list_lookup_middle.
    unfold zlen in *. rewrite length_app in *. cbn [length] in *. lia. }
  rewrite H2. f_equal. apply take_ge. unfold zlen in *. lia.
Qed.
End system.
