(* ===== verification/LedgerJournalRecovery.v ===== *)
(** * A recovered journal is consumed to its end
    (packages/subagent/src/ledger.ts, packages/permissions/src/external-mutation-journal.ts)

    Whatever was consumed before, a new reader that begins with nothing delivered gets through
    the whole journal, and the journal can then be released; with sample runs of a child, its
    readers and the ledger that witness the theorems of the journal. *)
From S2P Require Import Prelude JsNumber SessionTypes JsText JsonNumber JsonText JsonTextTheorems Subagent.
From S2P Require Import DurableJson RetryPolicy MutationJournal MutationJournalTheorems LedgerTypes Ledger.
From S2P Require Import LedgerTasks LedgerInvariant LedgerSamples LedgerJournal LedgerJournalTheorems.

Section recovery.
Variables (host : JournalHost) (policy : ExternalMutationJournalPolicy).

(** The mutations of one attempt, by identifier. *)
Lemma attempt_row id db m :
  tables_ok db -> m ∈ attempt_records (jp_attemptId policy) db -> em_mutationId m = id ->
  exists row, find_mutation id db = Some row /\ externalMutationFromRow row = m /\ mr_attemptId row = jp_attemptId policy.
Proof.
  intros Hok (row & -> & [Hr Ha]%elem_of_keep)%list_elem_of_fmap Hid. apply String.eqb_eq in Ha.
  exists row. rewrite <-Hid. cbn [em_mutationId externalMutationFromRow]. by rewrite (find_mutation_Some _ _ Hok Hr).
Qed.
Lemma replayed_id evs id :
  id ∈ em_mutationId <$> authorizations evs -> exists m, m ∈ replay evs /\ em_mutationId m = id.
Proof. rewrite <-replay_ids. intros (m & -> & Hm)%list_elem_of_fmap. by exists m. Qed.
Lemma authorization_unique evs m m' :
  history host policy evs -> m ∈ authorizations evs -> m' ∈ authorizations evs -> em_mutationId m = em_mutationId m' -> m = m'.
Proof.
  intros Hh [i Hi]%list_elem_of_lookup [j Hj]%list_elem_of_lookup Heq.
  pose proof (history_authorizations _ _ _ _ _ Hh Hi) as A. pose proof (history_authorizations _ _ _ _ _ Hh Hj) as B.
  rewrite (au_id _ _ _ _ A), (au_id _ _ _ _ B) in Heq. apply mutation_id_inj in Heq. assert (i = j) as <- by lia. congruence.
Qed.

(** An event that was consumed says what is recorded. *)
Lemma replayed_consumed evs e db :
  history host policy evs -> tables_ok db -> attempt_records (jp_attemptId policy) db = replay evs -> e ∈ evs ->
  replayed e (find_mutation (event_mutation_id e) db) = Ok false.
Proof.
  intros Hh Hok Hrec He. destruct e as [n m|n id r t p]; cbn [event_mutation_id replayed].
  - assert (Hm : m ∈ authorizations evs) by (apply list_elem_of_omap; eexists; split; [exact He|done]).
    destruct (replayed_id evs (em_mutationId m)) as (x & Hx & Hid); [by apply list_elem_of_fmap_2|].
    pose proof Hx as Hx'. rewrite <-Hrec in Hx'. destruct (attempt_row _ _ _ Hok Hx' Hid) as (row & -> & Hrow & _). cbn [replayed]. rewrite Hrow.
    destruct (replay_record _ _ _ _ Hh Hx) as [Ha _].
    assert (authorized_part x = m) as -> by by apply (authorization_unique evs). by rewrite bool_decide_true.
  - assert (Hid : id ∈ em_mutationId <$> authorizations evs).
    { apply (proj2 (history_observations _ _ _ Hh)). apply list_elem_of_omap. eexists. split; [exact He|done]. }
    destruct (replayed_id _ _ Hid) as (x & Hx & Hxid).
    pose proof Hx as Hx'. rewrite <-Hrec in Hx'. destruct (attempt_row _ _ _ Hok Hx' Hxid) as (row & -> & Hrow & _).
    destruct (replay_record _ _ _ _ Hh Hx) as (_ & Hobs & _). destruct (Hobs n id r t p He (eq_sym Hxid)) as (H1 & H2 & H3).
    rewrite <-Hrow in H1, H2, H3. cbn in H1, H2, H3. cbn [replayed]. rewrite H1, H2, H3. by rewrite !bool_decide_true.
Qed.

Lemma count_unique {A K} `{EqDecision K} (f : A -> K) (q : A -> bool) (l : list A) x :
  NoDup (f <$> l) -> x ∈ l -> (forall y, y ∈ l -> q y = true <-> f y = f x) -> zlen (keep q l) = 1.
Proof.
  induction l as [|a l IH]; [by intros _ ?%elem_of_nil|]. rewrite fmap_cons. intros [Hn Hd]%NoDup_cons Hx Hq.
  cbn [keep]. destruct (decide (f a = f x)) as [Heq|Hne].
  - rewrite (proj2 (Hq a (list_elem_of_here _ _)) Heq). rewrite keep_none; [done|]. intros y Hy.
    apply not_true_iff_false. intros H. apply (Hq y) in H; [|by right]. apply Hn. rewrite Heq, <-H. by apply list_elem_of_fmap_2.
  - assert (q a = false) as ->.
    { apply not_true_iff_false. intros H. by apply Hne, (Hq a (list_elem_of_here _ _)). }
    apply IH; [done| |intros y Hy; apply Hq; by right]. apply elem_of_cons in Hx as [->|Hx]; [done|done].
Qed.

(** What the ledger holds of the attempt does not conflict with its next authorization. *)
Lemma mutation_accepted evs n m db :
  history host policy (evs ++ [Authorized n m]) -> calls_once (evs ++ [Authorized n m]) ->
  1 <= jp_attemptNumber policy -> attempt_records (jp_attemptId policy) db = replay evs ->
  mutation_refused m (jd_mutations db) = false.
Proof.
  intros Hhe Hone Hnum Hrec. apply history_snoc in Hhe as [Hh [(m' & [= _ <-] & Hm)|(m' & r & at_ & p & [=] & _)]].
  unfold mutation_refused. rewrite (au_number _ _ _ _ Hm), (au_sequence _ _ _ _ Hm), (au_attempt _ _ _ _ Hm).
  pose proof (au_bound _ _ _ _ Hm) as Hb. rewrite !(proj2 (Z.leb_le 1 _)) by lia. cbn [andb negb orb].
  apply not_true_iff_false. intros (row & Hin%list_elem_of_In & [Ha Hc]%andb_prop)%existsb_exists.
  set (x := externalMutationFromRow row).
  assert (Hx : x ∈ replay evs).
  { rewrite <-Hrec. unfold attempt_records. apply list_elem_of_fmap_2. by apply elem_of_keep. }
  destruct (replay_record _ _ _ _ Hh Hx) as [Hau _]. apply orb_prop in Hc as [Hc|Hc].
  - apply Z.eqb_eq in Hc. apply list_elem_of_lookup in Hau as [j Hj]. pose proof (lookup_lt_Some _ _ _ Hj).
    pose proof (au_sequence _ _ _ _ (history_authorizations _ _ _ _ _ Hh Hj)) as Hs. cbn in Hs. unfold zlen in *. lia.
  - apply String.eqb_eq in Hc. unfold calls_once in Hone. rewrite authorizations_app, fmap_app in Hone.
    apply NoDup_app in Hone as (_ & Hdis & _). apply (Hdis (em_toolCallId m)); [|by left].
    rewrite <-Hc. apply (list_elem_of_fmap_2 em_toolCallId) in Hau. exact Hau.
Qed.

(** The next event of the journal can be recorded. *)
Lemma recorded_next evs i e t db :
  history host policy evs -> calls_once evs -> 1 <= jp_attemptNumber policy -> tables_ok db -> evs !! i = Some e ->
  attempt_records (jp_attemptId policy) db = replay (take i evs) ->
  exists mutations, recorded policy e t db (with_mutations mutations db).
Proof.
  intros Hh Hone Hnum Hok Hi Hrec. assert (Htake : take (S i) evs = take i evs ++ [e]) by by apply take_S_r.
  assert (Honce : calls_once (take i evs ++ [e])).
  { rewrite <-Htake. apply (calls_once_prefix _ (drop (S i) evs)). by rewrite take_drop. }
  assert (Hhe : history host policy (take i evs ++ [e])).
  { rewrite <-Htake. apply (history_prefix _ _ _ (drop (S i) evs)). by rewrite take_drop. }
  pose proof (history_prefix _ _ _ _ Hhe) as Hhi. assert (Hsnoc := Hhe).
  apply history_snoc in Hhe as [_ [(m & -> & Hm)|(m & r & at_ & p & -> & Hm & Hno & _)]]; cbn [recorded].
  - exists (jd_mutations db ++ [mutation_row m t]). destruct (au_id _ _ _ _ Hm).
    assert (Hids := Hm). destruct Hm as [_ _ _ H1 H2 H3 H4]. split_and!; try done; [|by eapply mutation_accepted].
    destruct (find_mutation (em_mutationId m) db) as [row|] eqn:E; [exfalso|done].
    apply find_row_Some in E as [Hin Heq]. apply String.eqb_eq in Heq. cbn beta in Heq.
    destruct (to_identifiers _ Hok _ Hin) as (k & Hk & Hkid).
    assert (Hatt : mr_attemptId row = jp_attemptId policy).
    { apply (mutation_id_attempt _ _ k _ Hk (au_bound _ _ _ _ Hids)). rewrite <-Hkid, Heq. apply Hids. }
    assert (Hmem : em_mutationId m ∈ em_mutationId <$> authorizations (take i evs)).
    { rewrite <-replay_ids, <-Hrec. rewrite <-Heq. apply (list_elem_of_fmap_2 em_mutationId _ (externalMutationFromRow row)).
      unfold attempt_records. apply list_elem_of_fmap_2, elem_of_keep. split; [done|]. by apply String.eqb_eq. }
    rewrite (au_id _ _ _ _ Hids) in Hmem. exact (history_next_id _ _ _ Hhi Hmem).
  - destruct (replayed_id (take i evs) (em_mutationId m)) as (x & Hx & Hxid); [by apply list_elem_of_fmap_2|].
    destruct (replay_record _ _ _ _ Hhi Hx) as (_ & _ & Hnone).
    pose proof Hx as Hx'. rewrite <-Hrec in Hx'. destruct (attempt_row _ _ _ Hok Hx' Hxid) as (row & Hrow & Hfrom & Hatt).
    rewrite <-Hxid in Hno. specialize (Hnone Hno). rewrite <-Hfrom in Hnone. cbn in Hnone.
    eexists. exists row. split; [exact Hrow|]. split; [done|]. split; [|reflexivity].
    apply find_row_Some in Hrow as [Hin Hid]. apply String.eqb_eq in Hid. cbn beta in Hid.
    apply (count_unique mr_mutationId _ _ row (to_mutations _ Hok) Hin). intros y Hy. rewrite Hid. split.
    + intros H. apply andb_true_iff in H as [[H _]%andb_true_iff _]. by apply String.eqb_eq in H.
    + intros H. assert (y = row) as ->.
      { apply (fmap_NoDup_inj _ _ _ _ (to_mutations _ Hok) Hy Hin). by rewrite H. }
      by rewrite Hid, Hatt, !String.eqb_refl, Hnone.
Qed.

(** ** A reader with a valid lease gets through *)

Variables (ownerId : option string) (now : number) (t : Z) (lease : option DagRunLease).
(** The lease may write, the caller owns the attempt if it runs, and its journal is open. *)
Record reader_ready (db : JournalDb) : Prop := {
  rd_lease : assertDagRunMutationLease t lease false (jd_run db) = (jd_run db, Ok tt);
  rd_attempt : attempt_answers policy ownerId (jd_run db) = true;
  rd_journal : exists j, find_journal (jp_attemptId policy) db = Some j /\ journal_matches policy j = true /\
    jr_releasedAt j = None }.
Hypothesis now_safe : safe_integer now = Some t.

Lemma event_keeps_lease body createdAt taskId r :
  assertDagRunMutationLease t lease false r = (r, Ok tt) ->
  assertDagRunMutationLease t lease false (insertDagEvent body createdAt taskId r).1 = ((insertDagEvent body createdAt taskId r).1, Ok tt).
Proof. rewrite !assert_lease_Ok. by intros (_ & H1 & H2). Qed.
Lemma advanced_ready e j db db' :
  tables_ok db -> reader_ready db -> find_journal (jp_attemptId policy) db = Some j -> advanced policy j t db db' ->
  jd_run db' = (insertDagEvent (EvExternalMutation (event_payload policy e).1 (event_payload policy e).2) t (Some (jp_taskId policy)) (jd_run db)).1 ->
  reader_ready db'.
Proof.
  intros Hok [Hl Ha (j' & Hj' & Hm & Hr)] Hj [_ Hadv] Hrun. rewrite Hj in Hj'. injection Hj' as <-. split.
  - rewrite Hrun. by apply event_keeps_lease.
  - by rewrite Hrun.
  - unfold find_journal in *. rewrite Hadv, find_row_mapped, Hj by done. simpl. eexists. split; [reflexivity|]. by destruct (_ && _).
Qed.
Lemma advance_once j db :
  tables_ok db -> find_journal (jp_attemptId policy) db = Some j ->
  zlen (keep (fun x => for_attempt (jp_attemptId policy) x && (jr_consumedSequence x =? jr_consumedSequence j)) (jd_journals db)) = 1.
Proof.
  intros Hok [Hin Heq]%find_row_Some. apply String.eqb_eq in Heq. cbn beta in Heq.
  apply (count_unique jr_attemptId _ _ j (to_journals _ Hok) Hin). intros y Hy. unfold for_attempt. rewrite Heq. split.
  - intros [H _]%andb_true_iff. by apply String.eqb_eq in H.
  - intros H. assert (y = j) as ->; [|by rewrite Heq, String.eqb_refl, Z.eqb_refl].
    apply (fmap_NoDup_inj _ _ _ _ (to_journals _ Hok) Hy Hin). by rewrite H.
Qed.
Lemma record_ready evs i e db :
  history host policy evs -> calls_once evs -> 1 <= jp_attemptNumber policy ->
  tables_ok db -> consumes (jp_attemptId policy) evs db -> reader_ready db ->
  evs !! i = Some e -> Z.of_nat i <= consumed (jp_attemptId policy) db ->
  exists db' b, recordDagExternalMutationEvent policy e ownerId now lease db = (db', Ok b) /\ reader_ready db'.
Proof.
  intros Hh Hone Hnum Hok [Hc Hrec] Hready Hi Hle. pose proof Hready as [Hl Ha (j & Hj & Hm & Hr)].
  pose proof (history_sequence _ _ _ _ _ Hh Hi) as Hseq. pose proof (history_length _ _ _ Hh) as Hlen.
  pose proof (lookup_lt_Some _ _ _ Hi) as Hlt.
  assert (Hcj : consumed (jp_attemptId policy) db = jr_consumedSequence j) by (unfold consumed; by rewrite Hj).
  assert (Hsafe : is_safe (ev_sequence e) = true) by (unfold is_safe, zlen in *; apply Z.leb_le; lia).
  destruct (decide (Z.of_nat i < jr_consumedSequence j)) as [Hold|Hnew].
  - exists db, false. split; [|done]. apply record_Ok. exists t, j. split_and!; try done; [lia|]. left. split_and!; try done; [lia|].
    apply (replayed_consumed (take (Z.to_nat (jr_consumedSequence j)) evs)); [|done|by rewrite <-Hcj|].
    + apply (history_prefix _ _ _ (drop (Z.to_nat (jr_consumedSequence j)) evs)). by rewrite take_drop.
    + apply list_elem_of_lookup. exists i. rewrite lookup_take_lt by lia. done.
  - assert (Hij : jr_consumedSequence j = Z.of_nat i) by lia. rewrite Hcj, Hij, Nat2Z.id in Hrec.
    destruct (recorded_next evs i e t db Hh Hone Hnum Hok Hi Hrec) as [mutations Hnext].
    set (db' := {| jd_run := (insertDagEvent (EvExternalMutation (event_payload policy e).1 (event_payload policy e).2) t
                                (Some (jp_taskId policy)) (jd_run db)).1;
                   jd_journals := mapped (fun x => for_attempt (jp_attemptId policy) x && (jr_consumedSequence x =? jr_consumedSequence j))
                                    (journal_advance (jr_consumedSequence j + 1) t) (jd_journals db);
                   jd_mutations := mutations |}).
    assert (Hadv : advanced policy j t db db') by exact (conj (advance_once j db Hok Hj) eq_refl).
    exists db', true. split; [|by apply (advanced_ready e j db)]. apply record_Ok. exists t, j.
    split_and!; try done; [lia|]. right. split_and!; try done. lia.
Qed.
Lemma deliver_ready evs pre l db :
  history host policy evs -> calls_once evs -> 1 <= jp_attemptNumber policy ->
  tables_ok db -> consumes (jp_attemptId policy) evs db -> reader_ready db ->
  evs = pre ++ l -> zlen pre <= consumed (jp_attemptId policy) db ->
  exists db', forM_ l (deliver (consumer policy (fun _ => ownerId) (fun _ => now) (fun _ => lease))) (db, zlen pre)
    = ((db', zlen evs), Ok tt) /\ tables_ok db' /\ consumes (jp_attemptId policy) evs db' /\ reader_ready db' /\
    (zlen evs <= consumed (jp_attemptId policy) db').
Proof.
  intros Hh Hone Hnum. revert pre db. induction l as [|e l IH]; intros pre db Hok Hc Hr Hevs Hle.
  { rewrite app_nil_r in Hevs. subst pre. by exists db. }
  assert (Hi : evs !! length pre = Some e) by (rewrite Hevs; by apply list_lookup_middle).
  pose proof (history_sequence _ _ _ _ _ Hh Hi) as Hseq. unfold zlen in Hle.
  destruct (record_ready evs (length pre) e db Hh Hone Hnum Hok Hc Hr Hi Hle) as (db1 & b & Hrun & Hr1).
  destruct (record_consumes host policy evs e _ _ _ _ _ (Ok b) (jp_attemptId policy) evs
    Hh (list_elem_of_lookup_2 _ _ _ Hi) Hok (fun _ => eq_refl) Hc Hrun) as (Hok1 & Hc1 & _ & H4).
  specialize (H4 eq_refl eq_refl).
  destruct (IH (pre ++ [e]) db1 Hok1 Hc1 Hr1) as (db' & Hl & Hrest).
  { by rewrite <-app_assoc. }
  { unfold zlen. rewrite length_app. cbn [length]. lia. }
  exists db'. split; [|done]. cbn [forM_]. apply M_bind_Ok. exists (db1, zlen (pre ++ [e])), tt. split; [|exact Hl].
  unfold deliver. rewrite (proj2 (Z.leb_gt _ _)) by (unfold zlen; lia). unfold consumer, mbind, M_bind. rewrite Hrun. cbn.
  unfold zlen. rewrite length_app. repeat f_equal. cbn [length]. lia.
Qed.
(** No run lists the attempt any more. *)
Definition not_listed (db : JournalDb) : Prop :=
  forall runId x, x ∈ listOpenDagExternalMutationJournals runId db -> jp_attemptId (js_policy x) <> jp_attemptId policy.
Lemma released_not_listed db :
  (forall j, j ∈ jd_journals db -> jr_attemptId j = jp_attemptId policy -> jr_releasedAt j <> None) -> not_listed db.
Proof.
  intros H runId x Hx. unfold listOpenDagExternalMutationJournals in Hx. apply elem_of_sort_with in Hx.
  apply list_elem_of_omap in Hx as (j & [Hj Hopen]%elem_of_keep & Hx). apply bind_Some in Hx as (a & _ & [= <-]).
  cbn [js_policy jp_attemptId]. intros Heq. apply andb_true_iff in Hopen as [_ Hopen%bool_decide_eq_true]. by apply (H j Hj Heq).
Qed.
Lemma release_ready db :
  tables_ok db -> reader_ready db ->
  exists db', releaseDagExternalMutationJournal policy ownerId now lease db = (db', Ok tt) /\ not_listed db' /\
    attempt_records (jp_attemptId policy) db' = attempt_records (jp_attemptId policy) db.
Proof.
  intros Hok [Hl Ha (j & Hj & Hm & Hr)].
  set (q := fun x => for_attempt (jp_attemptId policy) x && bool_decide (jr_releasedAt x = None)).
  assert (Hcount : zlen (keep q (jd_journals db)) = 1).
  { pose proof Hj as [Hin Heq]%find_row_Some. apply String.eqb_eq in Heq. cbn beta in Heq.
    apply (count_unique jr_attemptId _ _ j (to_journals _ Hok) Hin). intros y Hy. unfold q, for_attempt. rewrite Heq. split.
    - intros [H _]%andb_true_iff. by apply String.eqb_eq in H.
    - intros H. assert (y = j) as ->; [|by rewrite Heq, String.eqb_refl, Hr].
      apply (fmap_NoDup_inj _ _ _ _ (to_journals _ Hok) Hy Hin). by rewrite H. }
  assert (Hrun : exists r, releaseDagExternalMutationJournal policy ownerId now lease db
    = (with_run r (with_journals (mapped q (journal_release t) (jd_journals db)) db), Ok tt)).
  { eexists. unfold releaseDagExternalMutationJournal. apply M_bind_Ok. exists db, t. split; [by apply safe_now_Ok|].
    apply (proj2 (db_transaction_Ok _ _ _ _)), M_bind_Ok. exists db, j. split; [by apply open_journal_Ok|].
    rewrite bool_decide_false by (rewrite Hr; by intros [? ?]). apply M_bind_Ok. eexists _, tt.
    split; [apply expect_one_row_Ok, update_journals_Ok; split; [symmetry; exact Hcount|reflexivity]|]. by apply mutation_event_Ok. }
  destruct Hrun as [r Hrun]. eexists. split; [exact Hrun|]. split; [|done].
  apply released_not_listed. cbn [jd_journals with_run with_journals]. intros x (y & Hy & ->)%elem_of_mapped Heq Hnone.
  destruct (q y) eqn:Hq; [done|]. unfold q, for_attempt in Hq. rewrite Heq, String.eqb_refl, Hnone in Hq. done.
Qed.

(** C12. A controller can finish what another left: whatever a child and any number of readers,
    some of which crashed, have done, a controller that meets the following conditions drains
    the journal from its first event to its last, without violating a constraint of the
    tables; the ledger then holds all of it, and releasing the journal succeeds, after which
    it is not listed as open any more.  The conditions ([reader_ready] and the hypotheses on
    the file): its lease may write; the attempt is its own, or no longer runs; the journal is
    registered for that attempt and not released; the policy is valid and the file readable;
    and the file has at most 2 MiB, which the writer does not ensure. *)
Theorem journal_recovery_completes acked s files :
  (forall p, normalized host p = true -> join host (dirname host p) (basename host p) = p) ->
  (forall p, isAbsolute host p = true -> 1 <= zlen (js p)) ->
  str_ok (jp_runId policy) = true /\ str_ok (jp_taskId policy) = true /\ str_ok (jp_attemptId policy) = true /\
  zlen (js (jp_attemptId policy)) <= 252 ->
  shared_reach host policy acked s -> reader_ready (sh_db s) ->
  validateExternalMutationJournalPolicy host files policy = Ok policy ->
  readFileSync files (jp_path policy) = Some (ch_file (sh_child s)) -> zlen (ch_file (sh_child s)) <= MAX_JOURNAL_BYTES ->
  exists evs db db',
    drain host files (consumer policy (fun _ => ownerId) (fun _ => now) (fun _ => lease)) policy (sh_db s, 0)
      = ((db, zlen evs), Ok (zlen evs)) /\
    acked `sublist_of` evs /\ (exists tail, ch_file (sh_child s) = journal_bytes evs ++ tail /\ 10 ∉ tail) /\
    releaseDagExternalMutationJournal policy ownerId now lease db = (db', Ok tt) /\
    attempt_records (jp_attemptId policy) db' = replay evs /\ not_listed db'.
Proof.
  intros Hjoin Habs Hid Hreach Hready Hvalid Hread Hsize.
  destruct (shared_reach_ok host policy Hjoin Habs Hid acked s Hreach) as [evs [Hch _ Hok Hc]].
  pose proof (ca_history _ _ _ _ _ Hch) as Hh.
  destruct (deliver_ready evs [] evs (sh_db s) Hh (ca_calls _ _ _ _ _ Hch) (proj1 (ca_number _ _ _ _ _ Hch)) Hok Hc Hready eq_refl (proj1 (proj1 Hc))) as (db & Hall & Hok1 & [Hc1 Hrec] & Hr1 & Hend).
  destruct (release_ready db Hok1 Hr1) as (db' & Hrel & Hnot & Hsame). exists evs, db, db'.
  destruct (ca_file _ _ _ _ _ Hch) as (tail & Hfile & Htail & _).
  split; [|split; [apply Hch|split; [by exists tail|split; [done|split; [|done]]]]].
  - unfold drain. rewrite (child_read _ _ _ _ _ true files Hch Hvalid Hread Hsize). cbn [orb].
    apply M_bind_Ok. exists (db, zlen evs), tt. by split.
  - rewrite Hsame, Hrec. f_equal. apply take_ge. unfold zlen in *. lia.
Qed.
End recovery.

(** ** A sample child and its controllers *)

(** Paths of one directory. *)
Definition flat_absolute (p : string) : bool := match p with String.String c _ => Ascii.eqb c (Ascii.ascii_of_N 47) | _ => false end.
Definition flat_basename (p : string) : string := match p with String.String _ b => b | _ => "" end.
Definition flat_host : JournalHost :=
  {| isAbsolute := flat_absolute; resolve := fun p => p; dirname := fun _ => "/"; basename := flat_basename;
     join := fun a b => a +:+ b |}.
Definition sample_policy : ExternalMutationJournalPolicy :=
  {| jp_version := 1; jp_path := "/journal"; jp_runId := "run"; jp_taskId := "a"; jp_attemptId := "1-a"; jp_attemptNumber := 1 |}.
Definition sample_stats (directory : bool) (mode : Z) : Stats :=
  {| st_isFile := negb directory; st_isDirectory := directory; st_isSymbolicLink := false; st_mode := mode; st_size := 0;
     st_ino := 1; st_mtimeMs := z 0 |}.
(** A private directory with the journal. *)
Definition sample_files (content : bytes) : JournalFiles :=
  {| lstatSync := fun p => if String.eqb p "/" then Some (sample_stats true 448)
                           else if String.eqb p "/journal" then Some (sample_stats false 384) else None;
     realpathSync := Some; readFileSync := fun p => if String.eqb p "/journal" then Some content else None |}.

Lemma flat_join p : normalized flat_host p = true -> join flat_host (dirname flat_host p) (basename flat_host p) = p.
Proof.
  unfold normalized. intros [H _]%andb_true_iff. destruct p as [|c p]; [done|]. cbn in *. by apply Ascii.eqb_eq in H as ->.
Qed.
Lemma flat_nonempty p : isAbsolute flat_host p = true -> 1 <= zlen (js p).
Proof.
  destruct p as [|c p]; [done|]. cbn [isAbsolute flat_host flat_absolute]. intros ->%Ascii.eqb_eq. change (1 <= zlen (js ("/" +:+ p))).
  rewrite js_app by done. unfold zlen. rewrite length_app. change (length (js "/")) with 1%nat. lia.
Qed.
Lemma sample_identity :
  str_ok (jp_runId sample_policy) = true /\ str_ok (jp_taskId sample_policy) = true /\
  str_ok (jp_attemptId sample_policy) = true /\ zlen (js (jp_attemptId sample_policy)) <= 252.
Proof. split_and!; by vm_compute. Qed.

Definition whole_append : disk := {| dk_opened := true; dk_writes := [Some 1000%nat]; dk_synced := true; dk_closed := true |}.
(** The disk is full after a part of the record. *)
Definition torn_append : disk :=
  {| dk_opened := true; dk_writes := [Some 40%nat; None]; dk_synced := true; dk_closed := true |}.
Definition child_writer (r : journal_result JournalWriter) : JournalWriter :=
  match r with
  | Ok w => w
  | Err _ => {| jw_policy := sample_policy; jw_journalSequence := 0; jw_authorizationSequence := 0; jw_appendFailure := true;
                jw_active := []; jw_authorizedToolCallIds := [] |}
  end.
Definition new_child : child :=
  {| ch_file := []; ch_writer := child_writer (new_JournalWriter flat_host (sample_files []) sample_policy); ch_pending := [] |}.
Definition authorizes_at (d : disk) (call path : string) (c : child) :=
  authorize flat_host d call WriteOperation path 111 (ch_file c, ch_writer c).
Definition child_authorizes (d : disk) (call path : string) (c : child) : child :=
  {| ch_file := (authorizes_at d call path c).1.1; ch_writer := (authorizes_at d call path c).1.2; ch_pending := ch_pending c |}.
Definition sample_mutation : ExternalMutationRecord :=
  match authorize flat_host whole_append "call-1" WriteOperation "/out" 111 (ch_file new_child, ch_writer new_child) with
  | (_, Ok m) => m
  | _ => new_mutation (ch_writer new_child) "" WriteOperation "" 0
  end.
Definition authorized_child : child := child_authorizes whole_append "call-1" "/out" new_child.
Definition observing_child : child :=
  {| ch_file := ch_file authorized_child; ch_writer := ch_writer authorized_child; ch_pending := [("call-1", sample_mutation)] |}.
Definition observed_child : child :=
  let '(s, _) := observe_end whole_append "call-1" sample_mutation MutationSucceeded 112 (Unavailable Missing)
    (ch_file observing_child, ch_writer observing_child) in
  {| ch_file := s.1; ch_writer := s.2; ch_pending := [] |}.
(** The second authorization fails halfway. *)
Definition torn_child : child := child_authorizes torn_append "call-2" "/other" observed_child.
Definition sample_events : list ExternalMutationJournalEvent :=
  [Authorized 1 sample_mutation; Observed 2 (em_mutationId sample_mutation) MutationSucceeded 112 (Unavailable Missing)].

Lemma new_child_start : child_start flat_host sample_policy new_child.
Proof. exists (sample_files []), (ch_writer new_child). split; [|done]. split; by vm_compute. Qed.
Lemma child_reach_to host policy acked c new c' acked' :
  child_reach host policy acked c -> child_step host policy c new c' -> acked' = acked ++ new -> child_reach host policy acked' c'.
Proof. intros H Hs ->. by eapply child_reach_step. Qed.
(** Running an operation from a known state. *)
Lemma authorizes_step d call path c :
  str_ok call = true -> str_ok path = true ->
  child_step flat_host sample_policy c
    (match authorizes_at d call path c with ((_, w), Ok m) => [Authorized (jw_journalSequence w) m] | _ => [] end)
    (child_authorizes d call path c).
Proof.
  intros Hc Hp. unfold child_authorizes. destruct (authorizes_at d call path c) as [[file w] r] eqn:H.
  assert (Ht : time_ok 111) by (split; by vm_compute). pose proof (child_authorize _ sample_policy _ _ _ _ _ _ _ _ _ Ht Hc Hp H) as Hs.
  by destruct r.
Qed.
Lemma authorized_child_reach : child_reach flat_host sample_policy [Authorized 1 sample_mutation] authorized_child.
Proof.
  eapply child_reach_to; [apply child_reach_start, new_child_start|by apply authorizes_step; vm_compute|by vm_compute].
Qed.
Lemma observes_step :
  child_step flat_host sample_policy observing_child
    [Observed 2 (em_mutationId sample_mutation) MutationSucceeded 112 (Unavailable Missing)] observed_child.
Proof.
  unfold observed_child. destruct (observe_end _ _ _ _ _ _ _) as [[file w] r] eqn:H.
  assert (Hr : r = Ok tt /\ jw_journalSequence w = 2).
  { assert (Hv : (observe_end whole_append "call-1" sample_mutation MutationSucceeded 112 (Unavailable Missing)
      (ch_file observing_child, ch_writer observing_child)).2 = Ok tt /\
      jw_journalSequence (observe_end whole_append "call-1" sample_mutation MutationSucceeded 112 (Unavailable Missing)
      (ch_file observing_child, ch_writer observing_child)).1.2 = 2) by (split; by vm_compute). by rewrite H in Hv. }
  destruct Hr as [-> Hw]. assert (Ht : time_ok 112) by (split; by vm_compute).
  pose proof (child_observe_end flat_host sample_policy observing_child whole_append [] "call-1" sample_mutation []
    MutationSucceeded 112 (Unavailable Missing) file w (Ok tt) eq_refl Ht I eq_refl H) as Hs. by rewrite Hw in Hs.
Qed.
Lemma observed_child_reach : child_reach flat_host sample_policy sample_events observed_child.
Proof.
  refine (child_reach_to _ _ [Authorized 1 sample_mutation] observing_child _ observed_child _ _ observes_step eq_refl).
  refine (child_reach_to _ _ _ authorized_child [] observing_child _ authorized_child_reach _ eq_refl).
  refine (child_observe_begin flat_host sample_policy authorized_child "call-1" sample_mutation _ _); [by vm_compute|apply not_elem_of_nil].
Qed.
Lemma torn_child_reach : child_reach flat_host sample_policy sample_events torn_child.
Proof. eapply child_reach_to; [apply observed_child_reach|by apply authorizes_step; vm_compute|by vm_compute]. Qed.
Example torn_child_file : length (ch_file torn_child) = (length (journal_bytes sample_events) + 40)%nat.
Proof. by vm_compute. Qed.

(** The run of a task that may write, claimed and with its journal registered. *)
Definition writer_request : CompiledRequest :=
  {| cr_tasks := [{| lc_task := {| task_id := "a"; dependsOn := [] |}; lc_role := ExternalWriter; lc_maxAttempts := num_of_Z 2;
                     lc_contractHash := "hash-a"; lc_ownedPaths := []; lc_rest := [] |}];
     cr_sealed := true; cr_policy := cr_policy sample_request |}.
Definition writer_run : DagRun :=
  after (start_ops ++ [claim_op "1" 110])
    (match createDagRun "run" false writer_request None 100 with Ok r => r | Err _ => empty_run end).
Definition unregistered_db : JournalDb := {| jd_run := writer_run; jd_journals := []; jd_mutations := [] |}.
Definition registered_db : JournalDb :=
  (registerDagExternalMutationJournal sample_policy "controller" (z 111) (Some (lease 1 1000)) unregistered_db).1.
(** A first reader stops after one event. *)
Definition first_db : JournalDb :=
  (recordDagExternalMutationEvent sample_policy (Authorized 1 sample_mutation) (Some "controller") (z 115)
     (Some (lease 1 1000)) registered_db).1.
Definition sample_shared : shared := {| sh_child := torn_child; sh_read := sample_events; sh_db := first_db |}.
Example sample_consumed : consumed "1-a" first_db = 1 /\ zlen (jd_mutations first_db) = 1.
Proof. by vm_compute. Qed.

Lemma shared_children host policy acked c db :
  tables_ok db -> find_journal (jp_attemptId policy) db = None -> attempt_records (jp_attemptId policy) db = [] ->
  child_reach host policy acked c -> shared_reach host policy acked {| sh_child := c; sh_read := []; sh_db := db |}.
Proof.
  intros Ht Hj Ha. induction 1 as [c Hc|acked c new c' _ IH Hs]; [by apply shared_reach_start|].
  eapply shared_reach_step; [exact IH|]. exact (shared_child _ _ {| sh_child := c; sh_read := []; sh_db := db |} new c' Hs).
Qed.
Lemma shared_quiet host policy acked s s' s'' :
  shared_reach host policy acked s -> shared_step host policy s [] s' -> s' = s'' -> shared_reach host policy acked s''.
Proof. intros H Hs <-. rewrite <-(app_nil_r acked). by eapply shared_reach_step. Qed.
Definition shared_at (read : list ExternalMutationJournalEvent) (db : JournalDb) : shared :=
  {| sh_child := torn_child; sh_read := read; sh_db := db |}.
Lemma sample_shared_reach : shared_reach flat_host sample_policy sample_events sample_shared.
Proof.
  assert (H0 : shared_reach flat_host sample_policy sample_events (shared_at [] unregistered_db)).
  { apply shared_children; [|by vm_compute..|apply torn_child_reach]. split; cbn; [constructor..|]. by intros row ?%elem_of_nil. }
  assert (H1 : shared_reach flat_host sample_policy sample_events (shared_at [] registered_db)).
  { eapply (shared_quiet _ _ _ _ _ _ H0); [apply shared_other, (other_register _ _ _ sample_policy "controller" (z 111) (Some (lease 1 1000)))|].
    by vm_compute. }
  assert (H2 : shared_reach flat_host sample_policy sample_events (shared_at sample_events registered_db)).
  { assert (Hs := shared_read flat_host sample_policy (shared_at [] registered_db) (sample_files (ch_file torn_child))
      (ch_file torn_child) sample_events ltac:(done) ltac:(by vm_compute) ltac:(by vm_compute)).
    apply (shared_quiet _ _ _ _ _ _ H1 Hs). by vm_compute. }
  assert (Hs := shared_record flat_host sample_policy (shared_at sample_events registered_db) (Authorized 1 sample_mutation)
    (Some "controller") (z 115) (Some (lease 1 1000)) ltac:(by left)).
  apply (shared_quiet _ _ _ _ _ _ H2 Hs). by vm_compute.
Qed.

Lemma journal_survives_crashes_witness :
  exists evs, history flat_host sample_policy evs /\ sample_events `sublist_of` evs /\
    (jw_appendFailure (ch_writer torn_child) = false -> ch_file torn_child = journal_bytes evs) /\
    forall allow files,
      validateExternalMutationJournalPolicy flat_host files sample_policy = Ok sample_policy ->
      readFileSync files (jp_path sample_policy) = Some (ch_file torn_child) -> zlen (ch_file torn_child) <= MAX_JOURNAL_BYTES ->
      parseExternalMutationJournal flat_host files sample_policy allow =
      if allow || bool_decide (ch_file torn_child = journal_bytes evs) then Ok evs
      else Err "External mutation journal has an incomplete record".
Proof.
  exact (journal_survives_crashes flat_host sample_policy flat_join flat_nonempty sample_identity
    sample_events torn_child torn_child_reach).
Defined.

Lemma mutations_recorded_exactly_witness :
  exists evs, history flat_host sample_policy evs /\ sample_events `sublist_of` evs /\
    (exists tail, ch_file (sh_child sample_shared) = journal_bytes evs ++ tail /\ 10 ∉ tail) /\
    NoDup (mr_mutationId <$> jd_mutations (sh_db sample_shared)) /\
    0 <= consumed (jp_attemptId sample_policy) (sh_db sample_shared) <= zlen evs /\
    attempt_records (jp_attemptId sample_policy) (sh_db sample_shared) = replay (take (Z.to_nat (consumed (jp_attemptId sample_policy) (sh_db sample_shared))) evs) /\
    forall files ownerId now lease delivered db d n,
      readFileSync files (jp_path sample_policy) = Some (ch_file (sh_child sample_shared)) ->
      0 <= delivered <= consumed (jp_attemptId sample_policy) (sh_db sample_shared) ->
      drain flat_host files (consumer sample_policy ownerId now lease) sample_policy (sh_db sample_shared, delivered) = ((db, d), Ok n) ->
      n = zlen evs /\ attempt_records (jp_attemptId sample_policy) db = replay evs.
Proof.
  exact (mutations_recorded_exactly flat_host sample_policy flat_join flat_nonempty sample_identity
    sample_events sample_shared sample_shared_reach).
Defined.

(** The second reader begins again with nothing delivered. *)
Lemma journal_recovery_completes_witness :
  exists evs db db',
    drain flat_host (sample_files (ch_file torn_child))
      (consumer sample_policy (fun _ => Some "controller") (fun _ => z 120) (fun _ => Some (lease 1 1000)))
      sample_policy (sh_db sample_shared, 0) = ((db, zlen evs), Ok (zlen evs)) /\
    sample_events `sublist_of` evs /\ (exists tail, ch_file (sh_child sample_shared) = journal_bytes evs ++ tail /\ 10 ∉ tail) /\
    releaseDagExternalMutationJournal sample_policy (Some "controller") (z 120) (Some (lease 1 1000)) db = (db', Ok tt) /\
    attempt_records (jp_attemptId sample_policy) db' = replay evs /\ not_listed sample_policy db'.
Proof.
  apply (journal_recovery_completes flat_host sample_policy (Some "controller") (z 120) 120 (Some (lease 1 1000))
    ltac:(by vm_compute) sample_events sample_shared (sample_files (ch_file torn_child))).
  - exact flat_join.
  - exact flat_nonempty.
  - exact sample_identity.
  - exact sample_shared_reach.
  - split; [by vm_compute|by vm_compute|]. eexists. split; [by vm_compute|]. split; by vm_compute.
  - by vm_compute.
  - by vm_compute.
  - by vm_compute.
Defined.
